(* ===== verification/_CoqProject ===== *)
-Q . S2P
Prelude.v
Common.v
MemoryManager.v
Scheduler.v
KObjects.v
Process.v
Sync.v
Svc.v
Npdm.v
Ipc.v
IpcFormat.v
Services.v
Macro.v
Gpfifo.v
AddressSpace.v
FlatMemory.v
NvMap.v
Layout.v
Host1x.v
BufferQueue.v
Nce.v
IntervalMap.v
Traps.v
NvHost.v
AsGpu.v
GpuChannel.v
NvDrv.v
I2m.v
Dma.v
BcTables.v
Bc.v
Bc6h.v
Bc7.v
Containers.v
AudioBuffer.v
AudioTracks.v
AudioDsp.v
Vfs.v
VfsCrypto.v
RomFs.v
Loader.v
TimeShared.v
TimeCore.v
TimeSrv.v
