(* ===== verification/Prelude.v ===== *)
(** * Skyline verification library

    Skyline runs programs of the Nintendo Switch on an Android host.  Guest code runs natively;
    everything it asks of its operating system is a supervisor call that the emulator answers by
    emulating the kernel.  Graphics reach the GPU through services that hand out memory and command
    buffers, which the emulator decodes.  This library models that kernel, the inter-process
    communication on top of it, the time service, and the path from the graphics services to the
    engines of the GPU (the C++ sources under [app/src/main/cpp/skyline]) and proves the properties their correctness
    rests on.

    ** The program and its model

    A guest thread traps into [NCE::SvcHandler], which looks the call up in the SVC table and runs
    its handler.  Handlers work on the process ([KProcess]): its virtual address space
    ([MemoryManager]), its handle table of kernel objects, its threads and the scheduler, and the
    words of guest memory that mutexes and condition variables use.  [SendSyncRequest] hands the
    thread-local message area to the service manager, which decodes it, calls a service and writes
    the response back.

    - [Prelude]: machine integers as [Z] with explicit wrap-around, bit-fields, the error monad [M]
      with the ways a C++ function can leave, list lemmas ([upper_bound], splitting), tactics and
      the hint database [sky].
    - [Common]: alignment, spans, result codes ([common/utils.h], [common/span.h],
      [common/result.h], [kernel/results.h]).
    - [MemoryManager]: [kernel/memory.h] and [kernel/memory.cpp].  Memory states and attributes as
      bit-fields, the carveout search, the region layout, mirrors, and the ordered list of chunks
      with [InsertChunk] and [Get].
    - [Scheduler]: [kernel/scheduler.cpp] and the state and operations of [KThread].  A core is a
      queue of thread identities; notifications, signals and timers are recorded as events.
    - [KObjects]: the kernel objects of [kernel/types] (private, shared and transfer memory,
      sessions, events) in a store indexed by reference, and the record [Kernel] of the whole state.
      A reference stands for a [shared_ptr]; [release] runs a destructor when the last one goes.
    - [Process]: handle table, thread-local slots, lookup of memory objects, thread creation
      ([kernel/types/KProcess.cpp] up to [ClearHandleTable]).
    - [Sync]: mutexes, condition variables, address arbiter ([KProcess.cpp] from [MutexLock] on) and
      [KSyncObject::Signal].
    - [Svc]: every handler of [kernel/svc.cpp], the table of [kernel/svc.h] and the dispatcher of
      [nce.cpp].
    - [Npdm]: the parser of the process metadata ([vfs/npdm.cpp]).
    - [Ipc], [IpcFormat]: [kernel/ipc.cpp]; decoding of requests and writing of responses, and an
      independent specification of the message format.
    - [Services]: [services/serviceman.cpp], [services/base_service.cpp] and the sm: service; the
      other services are the type class [Services]; the laws [ServiceLaws] say that they change
      sessions only through the manager.
    - [Macro]: the macro engine of the GPU, [soc/gm20b/macro] and [soc/gm20b/engines/engine.cpp];
      the engine a macro drives is an interface.
    - [Gpfifo]: the pushbuffer decoder, [soc/gm20b/gpfifo.cpp]; a writer monad [W] records the calls
      made on the engines.
    - [AddressSpace]: the flat map of virtual to physical addresses and the allocator on top of it,
      [common/address_space.h] and [.inc]; the widths and the splitting of blocks are parameters.
    - [FlatMemory]: the memory manager over that map ([TranslateRange], [Read], [Write], [Copy]).
    - [NvMap]: the handles of GPU memory, [services/nvdrv/core/nvmap.cpp] and the calls of
      [services/nvdrv/devices/nvmap.cpp], pinned into the SMMU through [AddressSpace].
    - [Layout]: sizes and conversions of block-linear textures, [gpu/texture/layout.cpp]; a conversion
      is the list of its copies, applied to a memory.
    - [Host1x]: syncpoints and their waiters, sequential and interleaved, the syncpoint manager and
      the command stream of the channels, [soc/host1x] and
      [services/nvdrv/core/syncpoint_manager.cpp].
    - [BufferQueue]: the producer of the frame buffers with its parcels and transactions,
      [services/hosbinder/GraphicBufferProducer.cpp] and [parcel.cpp]; it takes its memory from
      [NvMap], its texture sizes from [Layout] and its fences from [Host1x].
    - [Nce]: the patcher of guest code, [NCE::GetPatchData] and [NCE::PatchCode] of [nce.cpp] with the
      encodings of [nce/instructions.h].  The patched code is a list of words; a small machine ([cpu])
      that knows the instructions of the trampolines runs it.
    - [IntervalMap]: [common/interval_map.h]; [Traps]: the traps on guest memory and their fault
      handler ([nce.cpp] from [ReprotectIntervals] on), over a map of page protections.
    - [NvHost]: the events of [services/nvdrv/devices/nvhost/ctrl.cpp] over the syncpoints of
      [Host1x].
    - [AsGpu]: the GPU's address space, [services/nvdrv/devices/nvhost/as_gpu.cpp], over
      [AddressSpace] and [NvMap].
    - [GpuChannel]: [services/nvdrv/devices/nvhost/gpu_channel.cpp] and the engine of
      [soc/gm20b/engines/gpfifo.cpp] that executes what the channel puts around a submission.
    - [NvDrv]: the service, the driver and the decoding of ioctl arguments of [services/nvdrv], with
      the ioctl tables of all devices, and [host1x_channel.cpp].
    - [I2m]: uploads through the command stream, [soc/gm20b/engines/inline2memory.cpp] and
      [kepler_compute.cpp]; [Dma]: the copy engine, [soc/gm20b/engines/maxwell_dma.cpp], over
      [FlatMemory] and [Layout].
    - [BcTables], [Bc], [Bc6h], [Bc7]: the decoders of block-compressed textures,
      [gpu/texture/bc_decoder.cpp]; the section [image] of [Bc] has the loops that all of them share.
    - [Containers]: the queue between threads, [common/circular_queue.h], as interleaved steps of its
      producers and its consumer, and the allocator of [common/linear_allocator.h].
    - [AudioBuffer]: the ring of samples, [common/circular_buffer.h]; [AudioTracks]: tracks and the
      mixing callback, [audio/track.cpp] and [audio.cpp]; [AudioDsp]: [audio/adpcm_decoder.cpp] and
      [audio/resampler.cpp].
    - [Vfs]: backings, their contract [backs] and partition file systems, [vfs/backing.h],
      [vfs/region_backing.h] and [vfs/partition_filesystem.cpp]; [VfsCrypto]: the decrypting backing,
      [vfs/ctr_encrypted_backing.cpp]; [RomFs]: [vfs/rom_filesystem.cpp].
    - [Loader]: [loader/loader.cpp], [loader/nso.cpp] and [loader/nro.cpp] over [KObjects], [Process],
      [Nce] and [Vfs].
    - [TimeShared]: points of time and the memory the time service shares with applications
      ([services/timesrv/common.cpp], [time_shared_memory.cpp], [common/uuid.cpp]); [TimeCore]: the
      clocks and their set-up ([services/timesrv/core.cpp], [time_manager_server.cpp]); [TimeSrv]: time
      zones and all commands of the service's objects ([timezone_manager.cpp], [ITimeZoneService.cpp],
      [ISteadyClock.cpp], [ISystemClock.cpp], [IStaticService.cpp]), registered through [Services].

    State is passed explicitly.  A function that can fail returns [M]: [Throw_out_of_range] is the
    standard exception the handlers catch, [Throw] any other exception, [Undefined] behaviour the
    language leaves undefined (a null or past-the-end access), [Suspended] a call that does not
    return to its caller in this step.  A function that blocks is split where it waits: the part
    before the wait and the parts after it are separate definitions ([_resume], [_timeout],
    [_wake]), and other threads run in between.  What a mutex of the source protects is one atomic
    step.  Calls to the host (mmap, mprotect, munmap, ...) are recorded, and whether they succeed
    is an argument of the model.

    ** What the theorems show

    - Memory: [InsertChunk] refines the update of a total map from addresses to attributes and [Get]
      reads that map; the address space is carved out of free host memory; the regions do not
      overlap and lie in the carveout; mirrors are contiguous.
    - Scheduling: queues stay sorted by priority with first-come-first-served among equals, a yield
      is round robin, a priority change reorders; the placement invariant (a thread is in at most
      one queue, that of its core) is kept by every operation whose caller keeps its contract
      ([caller_contract]), which the code does not check and the parked queue does not always keep.
    - Objects: no history of operations on memory objects breaks the address space, given that
      resized memory and re-protected shared ranges lie in it; handles round
      trip; closing the last handle unmaps; [GetMemoryObject] finds the owner of an address;
      thread-local slots never overlap; a created thread is what its handle names.
    - Synchronisation: unlocking hands the mutex to the first waiter and keeps the other waiters; a
      condition variable wakes from the front and the woken thread gets its mutex; the arbiter
      compares and wakes.
    - Supervisor calls: heap resizing, the round trip of mapping and unmapping, queries that cover
      the address space, termination of the unmapping loop, signal and wait, pause and resume.
    - Metadata: a well-formed file is accepted with exactly its contents, and whatever is accepted
      gives the main thread a valid priority and core.
    - IPC: the decoder inverts the format, a response reads back, sessions keep their virtual
      handles in step, registered services are reachable, a session converted to a domain keeps
      serving.
    - Pushbuffers and macros: the decoder with its fast and batched paths makes the calls of the word
      stream, wherever the stream is cut into buffers, and no engine overtakes the 3D engine; macro
      registers stay in range, loop-free macros end, an uploaded macro runs as uploaded.
    - GPU memory: mapping and unmapping refine the update of a function from addresses to addresses,
      the allocator hands out free ranges, what is written is read back over any mapping, and
      a read of an unmapped address does not succeed.
    - Handles: in every reachable state the map, the objects and the queue of waiting handles agree;
      a handle is released by its last reference and not before; a pinned handle is mapped.
    - Textures: for surfaces of whole lines of blocks whose size divides a sector, a conversion reads
      the block-linear image in line order, is undone by the opposite
      conversion, and stays inside the images.
    - Syncpoints and channels: no wakeup is lost or doubled under any interleaving; the parser of the
      command stream inverts its encoding.
    - Buffer queue: no texture outlives the memory it is over, and no reference leaks; dequeueing
      takes the oldest free buffer.
    - Guest code: patched code runs as the guest's code would on its own machine, a supervisor call
      reaches its handler with its number and its saved registers, and the patch section is large
      enough.
    - Traps: a page with a trap stays protected against the accesses the trap needs to see, and a
      fault is resolved by the handler.
    - Graphics device: an increment of a syncpoint that is not interleaved with calls of the guest
      calls back no freed event (but see [signal_races_free]) and signals every event that is reached; a mapped buffer is what the GPU sees, and unmapping it leaves no trace;
      the fence of a submission is reached when its last entry is executed; the arguments of every
      ioctl of fixed size lie in its buffer; a descriptor names the device it was opened for.
    - Copies and uploads: an upload ends with its bytes in memory however its words are batched; a
      copy has the bytes of its source and releases its semaphore; a surface copied by the engine is
      the image in the other layout.
    - Texture decoders: every pixel is the texel that the format defines, and nothing outside of the
      image is written; the headers of BC6H blocks are read as the published tables of the format say.
    - Files and loading: every backing keeps the contract of its users, a partition file system gives
      back its files, a read-only file system finds the paths of its tree, reads of an encrypted section
      give its plain bytes at any offset; a loaded executable is in memory with the permissions of its
      segments, behind its patch section.
    - Containers and sound: items reach the consumer of a queue in order under every interleaving, and
      allocations do not overlap; the ring of samples is a queue, a track plays what is appended and
      releases what was played, decoding is decoding frame by frame, resampling takes evenly spaced
      samples.
    - Time: an entry of the shared memory is a register for its readers under every interleaving, the
      clocks tell the host's time after the set-up, updates of a clock reach the shared memory, and a
      guest without permissions cannot change the settings of the service.

    Further theorems record where the code departs from its intent, each next to the property it
    bears on: [InitializeRegions_munmap_wraps], [InsertChunk_leaves_empty_chunk],
    [UpdatePriorityInheritance_stops_at_owner], [WakeParkedThread_alone_is_undefined],
    [ParkThread_resume_keeps_parked], [MutexUnlock_keeps_stale_priority],
    [WaitForAddress_timeout_clears_word], [closed_handle_escapes], [ResetSignal_hides_failure],
    [SetThreadPriority_never_raises], [UnmapMemory_discards_writes], [SetThreadCoreMask_parked],
    [ConnectToNamedPort_accepts_other_names], [clone_shares_closing], [subtract_chain_loses_word],
    [Copy_reaches_2d], [TwoD_batch_dropped], [OneInc_header_last], [Unmap_first_of_two],
    [Unmap_end_refused], [Allocate_overlaps_fixed], [Free_first_leaks], [Allocate_below_start],
    [PinHandle_never_frees], [depth_padding_too_small], [deep_volume_cut], [partial_blocks_dropped],
    [twelve_byte_pixels_drift], [IsSyncpointAllocated_past_end], [Wait_reached_reports_timeout],
    [SetBufferCount_negative], [Disconnect_keeps_counts], [tls_store_from_x0],
    [MainSvcTrampoline_short], [read_fault_unprotects], [QueryEvent_other_event],
    [signal_races_free], [FreeSpace_after_UnmapBuffer], [FreeSpace_leaves_entry],
    [UnmapBuffer_leaks_page], [GetVaRegions_big_offset], [remap_past_mapping],
    [AllocGpfifoEx2_overlaps], [suppressWfi_increments_again], [acquire_writes_time],
    [sessions_share_descriptors], [Submit_reads_past_buffer], [ConvertResult_throws],
    [Copy_into_sparse], [upload_writes_padding], [upload_of_lines_dropped], [remap_reads_width],
    [empty_copy_keeps_semaphore], [deswizzle_past_lines], [deswizzle_ignores_layer],
    [DecodeBc2_leaves_rows], [signed_channel_wraps], [queue_deadlocks], [full_ring_append],
    [empty_read_drops_full_ring], [mixing_read_copies_backwards], [second_track_overwrites],
    [append_after_collecting_all], [surround_frame_released_early], [ContainsBuffer_behind_released],
    [Stop_reads_end], [DownMix_wraps], [empty_directory_throws], [ctr_last_sector_lost],
    [nro_dynsym_not_relative], [boundary_resolves_previous], [Resize_leaves_base],
    [raw_time_decreases], [user_SetCurrentTime_ignored], [SetClockContext_unpublished],
    [SetTestOffset_ungated], [ephemeral_is_network], [ToPosixTime_drops_hour],
    [SetNewLocation_keeps_tail], [SetNewLocation_null_rule], [long_zone_name_overruns],
    [uuid_variant].

    ** Fuel

    [upper_bound] takes as much fuel as the list is long.  The compare-and-swap loops of the
    priorities run without interference inside a step and end after two rounds ([swap_fuel],
    [swap_while_enough]); [UpdatePriorityInheritance] takes the interference of other threads as a
    list of observed values.  The loop of [UnmapPhysicalMemory] advances at least one byte per turn,
    so the size of the range is enough ([UnmapPhysicalMemory_terminates]).  The relock loop of the
    condition variable takes its fuel as an argument and one round is enough when no other thread
    writes the word.  The core loop of the metadata parser throws at the fifth core, so six rounds
    are enough ([NPDM_parse_safe]).  A macro without loops takes one turn per instruction
    ([Execute_loop_free_terminates]); a macro that loops runs as long as its fuel.  The loops over a
    pushbuffer, over the words of a gather and over the bytes of a copy consume an item per turn and
    take the length as fuel, as do the loops over samples.  The loop of [PinHandle] takes its fuel as
    an argument, since it does not end when the SMMU is full ([PinHandle_never_frees]).  The walk over a read-only file system takes
    the number of its entries as fuel; a walk over links that form a cycle does not end.

    ** What is not modelled

    The assembled routines that save and load the guest's registers (parameters of [Nce]), host signal
    handling, the services behind the service manager other than those above, archives and the file
    systems of the host, the register blocks of the GPU engines and their translation to Vulkan, the
    host's audio stream, the library that interprets zone files (a parameter of [TimeSrv]), input and
    the user interface.  The host's memory is not modelled beyond the recorded calls; guest memory is a map
    from addresses to bytes.  Log messages are omitted. *)

From stdpp Require Export base tactics numbers list gmap option strings.
From Stdlib Require Export ZArith Lia.

#[global] Open Scope Z_scope.

(** ** Machine integers

    An unsigned [w]-bit integer is a [Z] in [0, 2^w); arithmetic of the source is
    arithmetic on [Z] followed by the reduction of its result type. *)

Definition wrap (w z : Z) : Z := z mod 2 ^ w.

(** Two's complement reading of the low [w] bits. *)
Definition swrap (w z : Z) : Z :=
  let r := z mod 2 ^ w in if r <? 2 ^ (w - 1) then r else r - 2 ^ w.

Declare Scope skyline_scope.
Delimit Scope skyline_scope with sky.
Abbreviation u8 := (wrap 8).
Abbreviation u16 := (wrap 16).
Abbreviation u32 := (wrap 32).
Abbreviation u64 := (wrap 64).
Abbreviation i8 := (swrap 8).
Abbreviation i16 := (swrap 16).
Abbreviation i32 := (swrap 32).
Abbreviation i64 := (swrap 64).

Lemma wrap_small w z : 0 <= z < 2 ^ w -> wrap w z = z.
Proof. apply Z.mod_small. Qed.

Lemma wrap_range w z : 0 <= w -> 0 <= wrap w z < 2 ^ w.
Proof. intros. apply Z.mod_pos_bound. lia. Qed.

Lemma wrap_idemp w z : wrap w (wrap w z) = wrap w z.
Proof. unfold wrap. destruct (decide (2 ^ w = 0)) as [->|]; [by rewrite !Z.mod_0_r|]. by rewrite Z.mod_mod. Qed.

Lemma swrap_small w z :
  0 < w -> - 2 ^ (w - 1) <= z < 2 ^ (w - 1) -> swrap w z = z.
Proof.
  intros Hw Hz. unfold swrap.
  assert (2 ^ w = 2 * 2 ^ (w - 1)) as E.
  { rewrite <- Z.pow_succ_r by lia. f_equal. lia. }
  destruct (Z.ltb_spec (z mod 2 ^ w) (2 ^ (w - 1))) as [Hl|Hl].
  - destruct (Z_lt_le_dec z 0).
    + exfalso. rewrite <- (Z.mod_add z 1), Z.mod_small in Hl by lia. lia.
    + apply Z.mod_small. lia.
  - destruct (Z_lt_le_dec z 0).
    + rewrite <- (Z.mod_add z 1), Z.mod_small by lia. lia.
    + exfalso. rewrite Z.mod_small in Hl by lia. lia.
Qed.

(** ** Faults

    [Throw_out_of_range] is [std::out_of_range], which several handlers catch;
    [Throw] is [skyline::exception], identified by a tag for the throw site; [Undefined]
    marks an access the language leaves undefined (an iterator before [begin], a null
    dereference); [Suspended] marks a call that blocks its host thread inside an operation that
    is otherwise one step, so that the step does not complete. *)

Inductive fault : Type :=
| Throw_out_of_range
| Throw (site : string)
| Undefined (site : string)
| Suspended (site : string).

#[global] Instance fault_eq_dec : EqDecision fault.
Proof. solve_decision. Defined.

Definition M (A : Type) : Type := (fault + A)%type.

Definition ok {A} (a : A) : M A := inr a.
Definition fail {A} (f : fault) : M A := inl f.
Definition bindM {A B} (m : M A) (k : A -> M B) : M B :=
  match m with inl f => inl f | inr a => k a end.

Notation "'let!' x ':=' c 'in' k" := (bindM c (fun x => k))
  (at level 10, x pattern, c at level 100, k at level 200) : skyline_scope.

(** [try c catch (std::out_of_range) h]. *)
Definition catch_out_of_range {A} (c : M A) (h : M A) : M A :=
  match c with inl Throw_out_of_range => h | r => r end.

#[global] Open Scope skyline_scope.

Lemma bindM_ok {A B} (m : M A) (k : A -> M B) b :
  bindM m k = inr b <-> exists a, m = inr a /\ k a = inr b.
Proof. destruct m; simpl; naive_solver. Qed.

Definition is_ok {A} (m : M A) : bool := match m with inr _ => true | inl _ => false end.

Definition from_opt {A} (f : fault) (o : option A) : M A :=
  match o with Some a => inr a | None => inl f end.

(** A loop body applied to each element in turn, stopping at the first fault. *)
Fixpoint foldM {A B} (f : B -> A -> M B) (l : list A) (b : B) : M B :=
  match l with
  | [] => ok b
  | x :: l => let! b' := f b x in foldM f l b'
  end.

Lemma foldM_app {A S} (f : S -> A -> M S) l1 l2 (s : S) : foldM f (l1 ++ l2) s = bindM (foldM f l1 s) (foldM f l2).
Proof. revert s. induction l1 as [|a l1 IH]; intros s; [done|]. simpl. destruct (f s a); [done|]. apply IH. Qed.

(** A run that is not suspended: it returns or fails on its own. *)
Definition terminates {A} (m : M A) : Prop :=
  match m with inl (Suspended _) => False | _ => True end.

Lemma terminates_bind {A B} (m : M A) (k : A -> M B) :
  terminates m -> (forall a, m = inr a -> terminates (k a)) -> terminates (bindM m k).
Proof. destruct m as [[]|]; simpl; intros H Hk; try done. by apply Hk. Qed.

(** ** Bits *)

Abbreviation bit := Z.testbit.

(** The bit-field of [n] bits starting at bit [s]. *)
Definition bits (s n z : Z) : Z := Z.land (Z.shiftr z s) (Z.ones n).

Lemma bits_range s n z : 0 <= n -> 0 <= bits s n z < 2 ^ n.
Proof. intros. unfold bits. rewrite Z.land_ones by lia. apply Z.mod_pos_bound. lia. Qed.

Lemma bits_div_mod s n z : 0 <= s -> 0 <= n -> bits s n z = (z / 2 ^ s) mod 2 ^ n.
Proof. intros. unfold bits. by rewrite Z.land_ones, Z.shiftr_div_pow2 by lia. Qed.

(** Replaces the field of [n] bits at [s] by [v]. *)
Definition set_bits (s n v z : Z) : Z :=
  Z.lor (Z.ldiff z (Z.shiftl (Z.ones n) s)) (Z.shiftl (Z.land v (Z.ones n)) s).

Lemma testbit_ones_range n i : 0 <= n -> Z.testbit (Z.ones n) i = (0 <=? i) && (i <? n).
Proof. intros. apply Z.testbit_ones. lia. Qed.

Lemma bits_set_bits_same s n v z :
  0 <= s -> 0 <= n -> bits s n (set_bits s n v z) = Z.land v (Z.ones n).
Proof.
  intros Hs Hn. unfold bits, set_bits. apply Z.bits_inj'. intros i Hi.
  rewrite !Z.land_spec, Z.shiftr_spec, Z.lor_spec, Z.ldiff_spec, !Z.shiftl_spec, Z.land_spec by lia.
  replace (i + s - s) with i by lia. rewrite testbit_ones_range by lia.
  destruct (Z.leb_spec 0 i), (Z.ltb_spec i n), (Z.testbit v i), (Z.testbit z (i + s)); simpl; done || lia.
Qed.

Lemma bits_set_bits_other s n v z s' n' :
  0 <= s -> 0 <= n -> 0 <= s' -> 0 <= n' -> s' + n' <= s \/ s + n <= s' ->
  bits s' n' (set_bits s n v z) = bits s' n' z.
Proof.
  intros Hs Hn Hs' Hn' Hd. unfold bits, set_bits. apply Z.bits_inj'. intros i Hi.
  rewrite !Z.land_spec, !Z.shiftr_spec, Z.lor_spec, Z.ldiff_spec by lia.
  rewrite (testbit_ones_range n' i) by lia.
  destruct (Z.ltb_spec i n'); [|by rewrite !andb_false_r].
  destruct (Z_lt_le_dec (i + s') s).
  - rewrite !(Z.shiftl_spec_low _ s) by lia. simpl. by rewrite andb_true_r, orb_false_r.
  - rewrite !Z.shiftl_spec, Z.land_spec, testbit_ones_range by lia.
    destruct (Z.ltb_spec (i + s' - s) n); [lia|].
    rewrite !andb_false_r. simpl. by rewrite andb_true_r, orb_false_r.
Qed.

(** Joining a high and a low part. *)
Lemma lor_shiftl_add n a b : 0 <= n -> 0 <= b < 2 ^ n -> Z.lor (Z.shiftl a n) b = a * 2 ^ n + b.
Proof.
  intros Hn Hb. assert (Hl : Z.land (Z.shiftl a n) b = 0).
  { apply Z.bits_inj'. intros i Hi. rewrite Z.land_spec, Z.bits_0. destruct (Z_lt_le_dec i n).
    - by rewrite Z.shiftl_spec_low.
    - rewrite <- (Z.mod_small b (2 ^ n)), Z.mod_pow2_bits_high by lia. apply andb_false_r. }
  rewrite <- Z.lxor_lor, <- Z.add_nocarry_lxor, Z.shiftl_mul_pow2 by done. done.
Qed.

Lemma lor_range n a b : 0 <= n -> 0 <= a < 2 ^ n -> 0 <= b < 2 ^ n -> 0 <= Z.lor a b < 2 ^ n.
Proof.
  intros Hn Ha Hb. assert (Z.lor a b = Z.land (Z.lor a b) (Z.ones n)) as ->.
  { rewrite Z.land_lor_distr_l, !Z.land_ones, !Z.mod_small by lia. done. }
  rewrite Z.land_ones by lia. apply Z.mod_pos_bound. lia.
Qed.

Lemma testbit_bits s n z i : 0 <= s -> 0 <= n -> 0 <= i -> bit (bits s n z) i = (i <? n) && bit z (i + s).
Proof.
  intros. unfold bits. rewrite Z.land_spec, Z.shiftr_spec, testbit_ones_range by lia.
  destruct (Z.leb_spec 0 i); [|lia]. simpl. apply andb_comm.
Qed.

Lemma testbit_high z n i : 0 <= z < 2 ^ n -> 0 <= n <= i -> bit z i = false.
Proof.
  intros Hz Hi. destruct (decide (z = 0)) as [->|]; [apply Z.testbit_0_l|].
  apply Z.bits_above_log2; [lia|]. apply Z.log2_lt_pow2; [lia|].
  eapply Z.lt_le_trans; [apply Hz|]. apply Z.pow_le_mono_r; lia.
Qed.

Lemma ldiff_range z m k : 0 <= k -> 0 <= z < 2 ^ k -> 0 <= Z.ldiff z m < 2 ^ k.
Proof.
  intros Hk Hz. assert (Z.ldiff z m = Z.ldiff z m mod 2 ^ k) as ->; [|apply Z.mod_pos_bound; lia].
  apply Z.bits_inj'. intros i Hi. destruct (Z_lt_le_dec i k).
  - by rewrite Z.mod_pow2_bits_low by lia.
  - rewrite Z.mod_pow2_bits_high, Z.ldiff_spec, (testbit_high z k) by lia. done.
Qed.

Lemma set_bits_range s n v z k : 0 <= s -> 0 <= n -> s + n <= k -> 0 <= z < 2 ^ k -> 0 <= set_bits s n v z < 2 ^ k.
Proof.
  intros Hs Hn Hk Hz. unfold set_bits. pose proof (Z.mod_pos_bound v (2 ^ n) ltac:(lia)).
  apply lor_range; [lia|by apply ldiff_range; [lia|]|]. rewrite Z.shiftl_mul_pow2, Z.land_ones by lia. split; [nia|].
  - apply Z.lt_le_trans with (2 ^ n * 2 ^ s); [nia|]. rewrite <- Z.pow_add_r by lia. apply Z.pow_le_mono_r; lia.
Qed.

(** A number without bits from [n] on is below [2 ^ n]. *)
Lemma range_by_bits n z : 0 <= n -> 0 <= z -> (forall i, n <= i -> bit z i = false) -> 0 <= z < 2 ^ n.
Proof.
  intros Hn Hz Hb. assert (z = z mod 2 ^ n) as ->; [|apply Z.mod_pos_bound; lia].
  apply Z.bits_inj'. intros i Hi. destruct (Z_lt_le_dec i n).
  - by rewrite Z.mod_pow2_bits_low by lia.
  - rewrite Z.mod_pow2_bits_high by lia. by apply Hb.
Qed.

Lemma land_range n a b : 0 <= n -> 0 <= a < 2 ^ n -> 0 <= b -> 0 <= Z.land a b < 2 ^ n.
Proof.
  intros Hn Ha Hb. apply range_by_bits; [lia|apply Z.land_nonneg; lia|]. intros i Hi.
  by rewrite Z.land_spec, (testbit_high a n) by lia.
Qed.

Lemma lxor_range n a b : 0 <= n -> 0 <= a < 2 ^ n -> 0 <= b < 2 ^ n -> 0 <= Z.lxor a b < 2 ^ n.
Proof.
  intros Hn Ha Hb. apply range_by_bits; [lia|apply Z.lxor_nonneg; lia|]. intros i Hi.
  by rewrite Z.lxor_spec, (testbit_high a n), (testbit_high b n) by lia.
Qed.

Lemma shiftr_range n a k : 0 <= n -> 0 <= k -> 0 <= a < 2 ^ n -> 0 <= Z.shiftr a k < 2 ^ n.
Proof.
  intros Hn Hk Ha. apply range_by_bits; [lia|apply Z.shiftr_nonneg; lia|]. intros i Hi.
  rewrite Z.shiftr_spec by lia. apply (testbit_high a n); lia.
Qed.

(** ** Lists *)

(** [std::upper_bound] on a range partitioned by the test: the first position whose
    element satisfies [p], as the prefix before it and the rest. *)
Fixpoint split_at {A} (p : A -> bool) (l : list A) : list A * list A :=
  match l with
  | [] => ([], [])
  | x :: l' => if p x then ([], l) else let '(a, b) := split_at p l' in (x :: a, b)
  end.

Lemma split_at_ext {A} (p q : A -> bool) l : (forall x, p x = q x) -> split_at p l = split_at q l.
Proof. intros H. induction l as [|x l IH]; [done|]. simpl. by rewrite H, IH. Qed.

Lemma split_at_app {A} (p : A -> bool) l a b : split_at p l = (a, b) -> l = a ++ b.
Proof.
  revert a b; induction l as [|x l IH]; simpl; intros a b E; [by simplify_eq|].
  destruct (p x); simplify_eq; [done|].
  destruct (split_at p l) as [a' b'] eqn:E'. simplify_eq. simpl. f_equal. by apply IH.
Qed.

Lemma split_at_prefix {A} (p : A -> bool) l a b :
  split_at p l = (a, b) -> Forall (fun x => p x = false) a.
Proof.
  revert a b; induction l as [|x l IH]; simpl; intros a b E; [by simplify_eq|].
  destruct (p x) eqn:?; simplify_eq; [done|].
  destruct (split_at p l) as [a' b'] eqn:E'. simplify_eq. constructor; eauto.
Qed.

Lemma split_at_head {A} (p : A -> bool) l a x b :
  split_at p l = (a, x :: b) -> p x = true.
Proof.
  revert a b; induction l as [|y l IH]; simpl; intros a b E; [by simplify_eq|].
  destruct (p y) eqn:?; simplify_eq; [done|].
  destruct (split_at p l) as [a' b'] eqn:E'. simplify_eq. by eapply IH.
Qed.

(** The last element of a list with what precedes it ([std::prev(it)] of a range that
    ends at [it]). *)
Fixpoint unsnoc {A} (l : list A) : option (list A * A) :=
  match l with
  | [] => None
  | x :: l' => match unsnoc l' with
               | None => Some ([], x)
               | Some (b, y) => Some (x :: b, y)
               end
  end.

Lemma unsnoc_Some {A} (l : list A) b x : unsnoc l = Some (b, x) -> l = b ++ [x].
Proof.
  revert b; induction l as [|y l IH]; simpl; intros b E; [done|].
  destruct (unsnoc l) as [[b' z]|] eqn:E'; simplify_eq.
  - simpl. f_equal. by apply IH.
  - destruct l; [done|]. simpl in E'. by destruct (unsnoc l) as [[]|].
Qed.

Lemma unsnoc_None {A} (l : list A) : unsnoc l = None -> l = [].
Proof. destruct l; [done|]. simpl. by destruct (unsnoc l) as [[]|]. Qed.

Lemma unsnoc_snoc {A} (l : list A) x : unsnoc (l ++ [x]) = Some (l, x).
Proof. induction l as [|y l IH]; simpl; [done|]. by rewrite IH. Qed.

(** ** [std::upper_bound], the binary search of the C++ library on any list *)

Fixpoint upper_bound_from {A} (fuel : nat) (p : A -> bool) (l : list A) (first len : nat) : nat :=
  match fuel with
  | O => first
  | S fuel =>
      if (len =? 0)%nat then first
      else
        let half := Nat.div2 len in
        match l !! (first + half)%nat with
        | None => first
        | Some x => if p x then upper_bound_from fuel p l first half
                    else upper_bound_from fuel p l (first + half + 1) (len - half - 1)
        end
  end.

Definition upper_bound {A} (p : A -> bool) (l : list A) : nat :=
  upper_bound_from (length l) p l 0 (length l).

(** A list partitioned by the test: first the elements that fail it, then those that pass. *)
Definition partitioned {A} (p : A -> bool) (l : list A) : Prop :=
  forall i j x y, (i <= j)%nat -> l !! i = Some x -> l !! j = Some y -> p x = true -> p y = true.

(** The search result separates failing elements from passing ones. *)
Definition is_bound {A} (p : A -> bool) (l : list A) (k : nat) : Prop :=
  (k <= length l)%nat /\
  (forall i x, (i < k)%nat -> l !! i = Some x -> p x = false) /\
  (forall i x, (k <= i)%nat -> l !! i = Some x -> p x = true).

Lemma upper_bound_from_spec {A} (p : A -> bool) (l : list A) fuel first len :
  partitioned p l -> (len <= fuel)%nat -> (first + len <= length l)%nat ->
  (forall i x, (i < first)%nat -> l !! i = Some x -> p x = false) ->
  (forall i x, (first + len <= i)%nat -> l !! i = Some x -> p x = true) ->
  is_bound p l (upper_bound_from fuel p l first len).
Proof.
  intros Hp. revert first len. induction fuel as [|fuel IH]; intros first len Hf Hl H1 H2; simpl.
  { replace len with 0%nat in * by lia. rewrite Nat.add_0_r in H2. split; [lia|done]. }
  destruct (Nat.eqb_spec len 0) as [->|Hne]; [rewrite Nat.add_0_r in H2; split; [lia|done]|].
  pose proof (Nat.div2_decr len (len - 1) ltac:(lia)) as Hd.
  remember (Nat.div2 len) as half eqn:Ehalf. clear Ehalf.
  destruct (l !! (first + half)%nat) as [x|] eqn:Ex; [|apply lookup_ge_None in Ex; lia].
  destruct (p x) eqn:Epx.
  - apply IH; [lia|lia|done|]. intros i y Hi Hy. eapply (Hp (first + half)%nat i); eauto.
  - apply IH; [lia|lia| |].
    + intros i y Hi Hy. destruct (p y) eqn:Epy; [|done].
      rewrite (Hp i (first + half)%nat y x) in Epx; [done|lia|done..].
    + intros i y Hi Hy. apply (H2 i y); [lia|done].
Qed.

Lemma upper_bound_spec {A} (p : A -> bool) l : partitioned p l -> is_bound p l (upper_bound p l).
Proof.
  intros Hp. apply upper_bound_from_spec; [done|lia|lia|lia|].
  intros i x Hi Hx. apply lookup_lt_Some in Hx. lia.
Qed.

(** The result on a list known to be a failing part followed by a passing part. *)
Lemma upper_bound_app {A} (p : A -> bool) l1 l2 :
  Forall (fun x => p x = false) l1 -> Forall (fun x => p x = true) l2 ->
  upper_bound p (l1 ++ l2) = length l1.
Proof.
  rewrite !Forall_lookup. intros H1 H2.
  assert (Hp : partitioned p (l1 ++ l2)).
  { intros i j x y Hij Hx Hy Hpx. apply lookup_app_Some in Hx as [Hx|[Hx1 Hx2]].
    - apply H1 in Hx. congruence.
    - rewrite lookup_app_r in Hy by lia. eauto. }
  destruct (upper_bound_spec p _ Hp) as (Hle & Hlo & Hhi). rewrite length_app in Hle.
  destruct (lt_eq_lt_dec (upper_bound p (l1 ++ l2)) (length l1)) as [[Hlt|?]|Hgt]; [|done|].
  - destruct (lookup_lt_is_Some_2 l1 _ Hlt) as [x Hx].
    specialize (Hhi _ x (le_n _) ltac:(rewrite lookup_app_l; done)). apply H1 in Hx. congruence.
  - destruct (lookup_lt_is_Some_2 l2 0%nat ltac:(lia)) as [x Hx].
    specialize (Hlo (length l1) x Hgt ltac:(rewrite lookup_app_r, Nat.sub_diag by lia; done)).
    apply H2 in Hx. congruence.
Qed.

(** ** Automation *)

Create HintDb sky discriminated.
#[export] Hint Resolve wrap_small wrap_range : sky.
#[export] Hint Extern 5 (_ <= _) => lia : sky.
#[export] Hint Extern 5 (_ < _) => lia : sky.

(** Case analysis on the boolean comparisons of the code. *)
Ltac zcase :=
  match goal with
  | |- context [?a <? ?b] => destruct (Z.ltb_spec a b)
  | |- context [?a <=? ?b] => destruct (Z.leb_spec a b)
  | |- context [?a =? ?b] => destruct (Z.eqb_spec a b)
  | H : context [?a <? ?b] |- _ => destruct (Z.ltb_spec a b)
  | H : context [?a <=? ?b] |- _ => destruct (Z.leb_spec a b)
  | H : context [?a =? ?b] |- _ => destruct (Z.eqb_spec a b)
  end.
Ltac zcases := repeat (zcase; simpl in *; try lia).

(** Opens a successful run of a monadic definition. *)
Ltac inv_ok :=
  repeat match goal with
  | H : bindM _ _ = inr _ |- _ => apply bindM_ok in H; destruct H as (? & ? & H)
  | H : inl _ = inr _ |- _ => discriminate H
  | H : ok _ = inr _ |- _ => unfold ok in H
  | H : fail _ = inr _ |- _ => discriminate H
  | H : inr _ = inr _ |- _ => injection H as H; simplify_eq
  end.
