(* ===== verification/Common.v ===== *)
(** * Shared helpers of the emulator: alignment ([common/utils.h]), spans
    ([common/span.h]) and result codes ([common/result.h], [kernel/results.h]). *)

From S2P Require Import Prelude.

Definition PAGE_SIZE : Z := 4096.

(** ** Alignment *)

Definition AlignUp (value multiple : Z) : Z :=
  let multiple := u64 (multiple - 1) in
  Z.land (u64 (value + multiple)) (u64 (Z.lnot multiple)).

Definition AlignDown (value multiple : Z) : Z :=
  Z.land value (u64 (Z.lnot (u64 (multiple - 1)))).

Definition IsAligned (value multiple : Z) : bool :=
  if Z.land multiple (u64 (multiple - 1)) =? 0
  then Z.land value (u64 (multiple - 1)) =? 0
  else value mod multiple =? 0.

Definition IsPageAligned (value : Z) : bool := IsAligned value PAGE_SIZE.
Definition IsWordAligned (value : Z) : bool := IsAligned value 4.

Definition DivideCeil (dividend divisor : Z) : Z := (dividend + divisor - 1) / divisor.

(** ** Spans: a base address and a length in bytes *)

Record span : Type := mk_span { sp_data : Z; sp_size : Z }.
#[global] Instance span_eq_dec : EqDecision span.
Proof. solve_decision. Defined.

Definition span_end (s : span) : Z := u64 (sp_data s + sp_size s).

Definition contains_span (s other : span) : bool :=
  (sp_data s <=? sp_data other) && (span_end other <=? span_end s).

Definition contains_ptr (s : span) (address : Z) : bool :=
  (sp_data s <=? address) && (address <? span_end s).

Definition span_valid (s : span) : bool := negb (sp_data s =? 0).

(** ** Result codes: 9 bits of module, 12 bits of id *)

Definition Result (module id : Z) : Z :=
  set_bits 9 12 id (set_bits 0 9 module 0).
Definition result_module (r : Z) : Z := bits 0 9 r.
Definition result_id (r : Z) : Z := bits 9 12 r.
Definition Success : Z := 0.

Definition result_InvalidSize : Z := Result 1 101.
Definition result_InvalidAddress : Z := Result 1 102.
Definition result_OutOfResource : Z := Result 1 103.
Definition result_InvalidCurrentMemory : Z := Result 1 106.
Definition result_InvalidNewMemoryPermission : Z := Result 1 108.
Definition result_InvalidMemoryRegion : Z := Result 1 110.
Definition result_InvalidPriority : Z := Result 1 112.
Definition result_InvalidCoreId : Z := Result 1 113.
Definition result_InvalidHandle : Z := Result 1 114.
Definition result_InvalidCombination : Z := Result 1 116.
Definition result_TimedOut : Z := Result 1 117.
Definition result_Cancelled : Z := Result 1 118.
Definition result_OutOfRange : Z := Result 1 119.
Definition result_InvalidEnumValue : Z := Result 1 120.
Definition result_NotFound : Z := Result 1 121.
Definition result_Busy : Z := Result 1 122.
Definition result_InvalidState : Z := Result 1 125.

(** ** Lemmas *)

Lemma lnot_ones_range n : 0 <= n <= 64 -> u64 (Z.lnot (Z.ones n)) = 2 ^ 64 - 2 ^ n.
Proof.
  intros Hn. assert (0 < 2 ^ n <= 2 ^ 64).
  { split; [lia|]. apply Z.pow_le_mono_r; lia. }
  unfold wrap. rewrite Z.ones_equiv, <- (Z.mod_add _ 1) by lia.
  pose proof (Z.add_lnot_diag (Z.pred (2 ^ n))) as E.
  rewrite Z.mod_small; lia.
Qed.

(** Masking the low [n] bits off a 64-bit value is subtracting the remainder. *)
Lemma land_lnot_ones v n :
  0 <= n <= 64 -> 0 <= v < 2 ^ 64 -> Z.land v (u64 (Z.lnot (Z.ones n))) = v - v mod 2 ^ n.
Proof.
  intros Hn Hv.
  assert (Z.land v (u64 (Z.lnot (Z.ones n))) = Z.ldiff v (Z.ones n)) as ->.
  { apply Z.bits_inj'. intros i Hi. rewrite Z.land_spec, Z.ldiff_spec.
    unfold wrap. rewrite <- Z.land_ones, Z.land_spec, Z.lnot_spec, testbit_ones_range by lia.
    rewrite (Z.testbit_ones 64) by lia.
    destruct (Z.ltb_spec i 64) as [Hi'|Hi'].
    - destruct (Z.leb_spec 0 i); [|lia]. simpl. by rewrite andb_true_r.
    - rewrite <- (Z.mod_small v (2 ^ 64)) by lia.
      by rewrite Z.mod_pow2_bits_high by lia. }
  rewrite Z.ldiff_ones_r by lia. rewrite Z.shiftl_mul_pow2, Z.shiftr_div_pow2 by lia.
  pose proof (Z.div_mod v (2 ^ n)). lia.
Qed.

Lemma AlignUp_spec value n :
  0 <= n < 64 -> 0 <= value -> value + 2 ^ n <= 2 ^ 64 ->
  AlignUp value (2 ^ n) = (value + 2 ^ n - 1) - (value + 2 ^ n - 1) mod 2 ^ n.
Proof.
  intros Hn Hv Hb. unfold AlignUp.
  assert (0 < 2 ^ n < 2 ^ 64) by (split; [lia | apply Z.pow_lt_mono_r; lia]).
  rewrite (wrap_small 64 (2 ^ n - 1)) by lia.
  replace (2 ^ n - 1) with (Z.ones n) by (rewrite Z.ones_equiv; lia).
  rewrite wrap_small by (rewrite Z.ones_equiv; lia).
  rewrite land_lnot_ones by (rewrite ?Z.ones_equiv; lia).
  rewrite Z.ones_equiv. do 2 f_equal; lia.
Qed.

Lemma AlignDown_spec value n : 0 <= n < 64 -> 0 <= value < 2 ^ 64 -> AlignDown value (2 ^ n) = value - value mod 2 ^ n.
Proof.
  intros Hn Hv. unfold AlignDown. assert (0 < 2 ^ n < 2 ^ 64) by (split; [lia | apply Z.pow_lt_mono_r; lia]).
  rewrite (wrap_small 64 (2 ^ n - 1)) by lia. replace (2 ^ n - 1) with (Z.ones n) by (rewrite Z.ones_equiv; lia).
  apply land_lnot_ones; lia.
Qed.

Lemma IsAligned_pow2 value n :
  0 <= n < 64 -> 0 <= value -> IsAligned value (2 ^ n) = true <-> value mod 2 ^ n = 0.
Proof.
  intros Hn Hv. unfold IsAligned.
  assert (0 < 2 ^ n < 2 ^ 64) by (split; [lia | apply Z.pow_lt_mono_r; lia]).
  rewrite (wrap_small 64 (2 ^ n - 1)) by lia.
  replace (2 ^ n - 1) with (Z.ones n) by (rewrite Z.ones_equiv; lia).
  rewrite !Z.land_ones, Z.mod_same by lia. simpl. by rewrite Z.eqb_eq.
Qed.

Lemma IsPageAligned_spec v : 0 <= v -> IsPageAligned v = true <-> v mod 4096 = 0.
Proof. intros. unfold IsPageAligned, PAGE_SIZE. apply (IsAligned_pow2 v 12); lia. Qed.

Lemma span_end_small s :
  0 <= sp_data s -> 0 <= sp_size s -> sp_data s + sp_size s < 2 ^ 64 ->
  span_end s = sp_data s + sp_size s.
Proof. intros. apply wrap_small. lia. Qed.

Lemma Result_module m i : 0 <= m < 2 ^ 9 -> result_module (Result m i) = m.
Proof.
  intros. unfold result_module, Result. rewrite bits_set_bits_other by lia.
  rewrite bits_set_bits_same, Z.land_ones by lia. by apply Z.mod_small.
Qed.

Lemma Result_id m i : 0 <= i < 2 ^ 12 -> result_id (Result m i) = i.
Proof.
  intros. unfold result_id, Result. rewrite bits_set_bits_same, Z.land_ones by lia.
  by apply Z.mod_small.
Qed.
