(* ===== verification/MemoryManager.v ===== *)
(** * Guest virtual memory bookkeeping ([kernel/memory.h], [kernel/memory.cpp])

    The chunk list of the guest address space, the region layout, and the checks of the
    mirroring and freeing calls.  Host system calls are recorded as values of [hostcall];
    whether a call succeeds is an argument.  The refinement at the end shows that
    [InsertChunk] implements an update of a total map from addresses to attributes. *)

From S2P Require Import Prelude Common.

(** ** Data *)

Record Permission : Type := mk_perm { perm_r : bool; perm_w : bool; perm_x : bool }.
#[global] Instance Permission_eq_dec : EqDecision Permission.
Proof. solve_decision. Defined.

Definition no_permission : Permission := mk_perm false false false.
Definition Permission_of_raw (raw : Z) : Permission := mk_perm (bit raw 0) (bit raw 1) (bit raw 2).
Definition PROT_READ : Z := 1.
Definition PROT_WRITE : Z := 2.
Definition PROT_EXEC : Z := 4.

Definition Permission_Get (p : Permission) : Z :=
  let perm := 0 in
  let perm := if perm_r p then Z.lor perm PROT_READ else perm in
  let perm := if perm_w p then Z.lor perm PROT_WRITE else perm in
  if perm_x p then Z.lor perm PROT_EXEC else perm.

Definition Permission_eqb (p q : Permission) : bool :=
  Bool.eqb (perm_r p) (perm_r q) && Bool.eqb (perm_w p) (perm_w q) && Bool.eqb (perm_x p) (perm_x q).

(** [MemoryAttribute]: the 32-bit value and its four flags. *)
Definition isBorrowed (v : Z) : bool := bit v 0.
Definition isIpcLocked (v : Z) : bool := bit v 1.
Definition isDeviceShared (v : Z) : bool := bit v 2.
Definition isUncached (v : Z) : bool := bit v 3.
Definition set_isUncached (b : bool) (v : Z) : Z := set_bits 3 1 (Z.b2z b) v.
Definition attr_borrowed (b : bool) : Z := set_bits 0 1 (Z.b2z b) 0.

(** [MemoryState]: the memory type in the low byte, then the flags. *)
Definition state_type (v : Z) : Z := bits 0 8 v.
Definition permissionChangeAllowed (v : Z) : bool := bit v 8.
Definition forceReadWritableByDebugSyscalls (v : Z) : bool := bit v 9.
Definition ipcSendAllowed (v : Z) : bool := bit v 10.
Definition nonDeviceIpcSendAllowed (v : Z) : bool := bit v 11.
Definition nonSecureIpcSendAllowed (v : Z) : bool := bit v 12.
Definition processPermissionChangeAllowed (v : Z) : bool := bit v 14.
Definition mapAllowed (v : Z) : bool := bit v 15.
Definition unmapProcessCodeMemoryAllowed (v : Z) : bool := bit v 16.
Definition transferMemoryAllowed (v : Z) : bool := bit v 17.
Definition queryPhysicalAddressAllowed (v : Z) : bool := bit v 18.
Definition mapDeviceAllowed (v : Z) : bool := bit v 19.
Definition mapDeviceAlignedAllowed (v : Z) : bool := bit v 20.
Definition ipcBufferAllowed (v : Z) : bool := bit v 21.
Definition isReferenceCounted (v : Z) : bool := bit v 22.
Definition mapProcessAllowed (v : Z) : bool := bit v 23.
Definition attributeChangeAllowed (v : Z) : bool := bit v 24.
Definition codeMemoryAllowed (v : Z) : bool := bit v 25.

Inductive MemoryType : Type :=
| MT_Unmapped | MT_Io | MT_Normal | MT_CodeStatic | MT_CodeMutable | MT_Heap
| MT_SharedMemory | MT_Alias | MT_ModuleCodeStatic | MT_ModuleCodeMutable | MT_Ipc
| MT_Stack | MT_ThreadLocal | MT_TransferMemoryIsolated | MT_TransferMemory
| MT_ProcessMemory | MT_Reserved | MT_NonSecureIpc | MT_NonDeviceIpc | MT_KernelStack
| MT_CodeReadOnly | MT_CodeWritable.

Definition MemoryType_value (t : MemoryType) : Z :=
  match t with
  | MT_Unmapped => 0x0 | MT_Io => 0x1 | MT_Normal => 0x2 | MT_CodeStatic => 0x3
  | MT_CodeMutable => 0x4 | MT_Heap => 0x5 | MT_SharedMemory => 0x6 | MT_Alias => 0x7
  | MT_ModuleCodeStatic => 0x8 | MT_ModuleCodeMutable => 0x9 | MT_Ipc => 0xA
  | MT_Stack => 0xB | MT_ThreadLocal => 0xC | MT_TransferMemoryIsolated => 0xD
  | MT_TransferMemory => 0xE | MT_ProcessMemory => 0xF | MT_Reserved => 0x10
  | MT_NonSecureIpc => 0x11 | MT_NonDeviceIpc => 0x12 | MT_KernelStack => 0x13
  | MT_CodeReadOnly => 0x14 | MT_CodeWritable => 0x15
  end.

Definition states_Unmapped : Z := 0x00000000.
Definition states_Io : Z := 0x00002001.
Definition states_CodeStatic : Z := 0x00DC7E03.
Definition states_CodeMutable : Z := 0x03FEBD04.
Definition states_Heap : Z := 0x037EBD05.
Definition states_SharedMemory : Z := 0x00402006.
Definition states_Alias : Z := 0x00482907.
Definition states_AliasCode : Z := 0x00DD7E08.
Definition states_AliasCodeData : Z := 0x03FFBD09.
Definition states_Ipc : Z := 0x005C3C0A.
Definition states_Stack : Z := 0x005C3C0B.
Definition states_ThreadLocal : Z := 0x0040200C.
Definition states_TransferMemoryIsolated : Z := 0x015C3C0D.
Definition states_TransferMemory : Z := 0x005C380E.
Definition states_SharedCode : Z := 0x0040380F.
Definition states_Reserved : Z := 0x00000010.
Definition states_NonSecureIpc : Z := 0x005C3811.
Definition states_NonDeviceIpc : Z := 0x004C2812.
Definition states_KernelStack : Z := 0x00002013.
Definition states_CodeReadOnly : Z := 0x00402214.
Definition states_CodeWritable : Z := 0x00402015.

Inductive AddressSpaceType : Type :=
| AddressSpace32Bit | AddressSpace36Bit | AddressSpace32BitNoReserved | AddressSpace39Bit.

Record ChunkDescriptor : Type := mk_chunk {
  c_ptr : Z; c_size : Z;
  c_permission : Permission; c_state : Z; c_attributes : Z }.
#[global] Instance ChunkDescriptor_eq_dec : EqDecision ChunkDescriptor.
Proof. solve_decision. Defined.

(** [self.IsCompatible(chunk)]. *)
Definition IsCompatible (self chunk : ChunkDescriptor) : bool :=
  Permission_eqb (c_permission chunk) (c_permission self)
  && (c_state chunk =? c_state self) && (c_attributes chunk =? c_attributes self).

Record MemoryManager : Type := mk_mm {
  chunks : list ChunkDescriptor;
  addressSpace : span; base : span; code : span; alias : span;
  heap : span; stack : span; tlsIo : span }.

Definition set_chunks (m : MemoryManager) (l : list ChunkDescriptor) : MemoryManager :=
  mk_mm l (addressSpace m) (base m) (code m) (alias m) (heap m) (stack m) (tlsIo m).

Definition null_span : span := mk_span 0 0.
Definition empty_manager : MemoryManager :=
  mk_mm [] null_span null_span null_span null_span null_span null_span null_span.

(** Calls into the host kernel, in program order. *)
Inductive hostcall : Type :=
| H_memfd_create
| H_ftruncate (size : Z)
| H_mmap (addr size prot : Z) (offset : Z)
| H_mmap_reserve (size : Z)
| H_munmap (addr size : Z)
| H_mprotect (addr size prot : Z)
| H_fallocate_punch (offset size : Z).

(** ** Initialisation *)

Definition RegionAlignment : Z := Z.shiftl 1 21.
Definition CodeRegionSize : Z := 4 * 1024 * 1024 * 1024.

(** The switch on the address space type: the space and the size of the carveout. *)
Definition vmm_layout (type : AddressSpaceType) : M (span * Z) :=
  match type with
  | AddressSpace32Bit | AddressSpace32BitNoReserved =>
      fail (Throw "32-bit address spaces are not supported")
  | AddressSpace36Bit => fail (Throw "36-bit address spaces are not supported")
  | AddressSpace39Bit =>
      ok (mk_span 0 (Z.shiftl 1 39),
          CodeRegionSize + 0x1000000000 + 0x180000000 + 0x80000000 + 0x1000000000)
  end.

(** The loop over the lines of /proc/self/maps, each line read as its address range. *)
Fixpoint find_carveout (maps : list (Z * Z)) (start alignedStart baseSize asSize : Z) : option span :=
  match maps with
  | [] => None
  | (lo, hi) :: maps =>
      if lo <? start then find_carveout maps start alignedStart baseSize asSize
      else if u64 (baseSize + u64 (alignedStart - start)) <? u64 (lo - start)
      then Some (mk_span alignedStart baseSize)
      else
        let start := hi in
        let alignedStart := AlignUp start RegionAlignment in
        if asSize <? u64 (alignedStart + baseSize) then None
        else find_carveout maps start alignedStart baseSize asSize
  end.

Record vmm_host : Type := mk_vmm_host {
  host_maps : list (Z * Z); memfd_ok : bool; ftruncate_ok : bool; mmap_ok : bool }.

Definition InitializeVmm (host : vmm_host) (m : MemoryManager) (type : AddressSpaceType)
    : M (MemoryManager * list hostcall) :=
  let! (asp, baseSize) := vmm_layout type in
  match find_carveout (host_maps host) (Z.shiftl 1 35) (Z.shiftl 1 35) baseSize (sp_size asp) with
  | None => fail (Throw "Cannot find a suitable carveout for the guest address space")
  | Some b =>
      if negb (memfd_ok host) then fail (Throw "Failed to create memfd for guest address space")
      else if negb (ftruncate_ok host) then fail (Throw "Failed to resize memfd for guest address space")
      else if negb (mmap_ok host) then fail (Throw "Failed to mmap guest address space")
      else
        ok (mk_mm
              [mk_chunk (sp_data asp) (u64 (sp_data b - sp_data asp)) no_permission states_Reserved 0;
               mk_chunk (sp_data b) (sp_size b) no_permission states_Unmapped 0;
               mk_chunk (span_end b) (u64 (sp_size asp - span_end b)) no_permission states_Reserved 0]
              asp b (code m) (alias m) (heap m) (stack m) (tlsIo m),
            [H_memfd_create; H_ftruncate (sp_size b); H_mmap (sp_data b) (sp_size b) PROT_WRITE 0])
  end.

Definition InitializeRegions (m : MemoryManager) (codeRegion : span)
    : M (MemoryManager * list hostcall) :=
  if negb (IsAligned (sp_data codeRegion) RegionAlignment)
  then fail (Throw "Non-aligned code region was used to initialize regions")
  else
    let! m' :=
      if sp_size (addressSpace m) =? Z.shiftl 1 36 then
        let code := mk_span 0x800000 0x78000000 in
        if (sp_data codeRegion <? sp_data code) || (span_end code <? span_end codeRegion)
        then fail (Throw "Code mapping larger than 36-bit code region")
        else
          let alias := mk_span (span_end code) 0x180000000 in
          let stack := mk_span (span_end alias) 0x78000000 in
          let tlsIo := stack in
          let heap := mk_span (span_end stack) 0x180000000 in
          ok (mk_mm (chunks m) (addressSpace m) (base m) code alias heap stack tlsIo)
      else if sp_size (addressSpace m) =? Z.shiftl 1 39 then
        let code := mk_span (sp_data (base m)) (AlignUp (sp_size codeRegion) RegionAlignment) in
        let alias := mk_span (span_end code) 0x1000000000 in
        let heap := mk_span (span_end alias) 0x180000000 in
        let stack := mk_span (span_end heap) 0x80000000 in
        let tlsIo := mk_span (span_end stack) 0x1000000000 in
        ok (mk_mm (chunks m) (addressSpace m) (base m) code alias heap stack tlsIo)
      else fail (Throw "Regions initialized without VMM initialization") in
    let newSize := u64 (sp_size (code m') + sp_size (alias m') + sp_size (stack m') + sp_size (heap m')
                        + (if sp_size (addressSpace m') =? Z.shiftl 1 39 then sp_size (tlsIo m') else 0)) in
    if sp_size (base m') <? newSize
    then fail (Throw "Guest VMM size has exceeded host carveout size")
    else
      let calls := if negb (newSize =? sp_size (base m'))
                   then [H_munmap (span_end (base m')) (u64 (newSize - sp_size (base m')))] else [] in
      if sp_size (code m') <? sp_size codeRegion
      then fail (Throw "Code region is smaller than mapped code size")
      else ok (m', calls).

(** ** Mirrors *)

(** The checks [CreateMirror], [CreateMirrors] and [FreeMemory] make on a mapping; the
    result is its offset in the memory file. *)
Definition check_mapping (m : MemoryManager) (mapping : span) : M Z :=
  if (sp_data mapping <? sp_data (base m)) || (span_end (base m) <? span_end mapping)
  then fail (Throw "Mapping is outside of VMM base")
  else
    let offset := u64 (sp_data mapping - sp_data (base m)) in
    if negb (IsPageAligned offset) || negb (IsPageAligned (sp_size mapping))
    then fail (Throw "Mapping is not aligned to a page")
    else ok offset.

(** [mmap] returns the address it chose, [None] for MAP_FAILED. *)
Definition CreateMirror (m : MemoryManager) (mmap : Z -> option Z) (mapping : span)
    : M (span * list hostcall) :=
  let! offset := check_mapping m mapping in
  match mmap (sp_size mapping) with
  | None => fail (Throw "Failed to create mirror mapping")
  | Some mirror =>
      ok (mk_span mirror (sp_size mapping),
          [H_mmap 0 (sp_size mapping) (Z.lor (Z.lor PROT_READ PROT_WRITE) PROT_EXEC) offset])
  end.

(** One turn of the mapping loop of [CreateMirrors]; [mmap_fixed_ok] says whether the host
    accepts the fixed mapping of [size] bytes at [addr]. *)
Definition mirror_step (m : MemoryManager) (mmap_fixed_ok : Z -> Z -> bool) (mirrorBase : Z)
    (acc : Z * list hostcall) (region : span) : M (Z * list hostcall) :=
  let '(mirrorOffset, calls) := acc in
  let! offset := check_mapping m region in
  if negb (mmap_fixed_ok (u64 (mirrorBase + mirrorOffset)) (sp_size region))
  then fail (Throw "Failed to create mirror mapping")
  else ok (u64 (mirrorOffset + sp_size region),
           calls ++ [H_mmap (u64 (mirrorBase + mirrorOffset)) (sp_size region)
                       (Z.lor (Z.lor PROT_READ PROT_WRITE) PROT_EXEC) offset]).

Definition CreateMirrors (m : MemoryManager) (mmap : Z -> option Z) (mmap_fixed_ok : Z -> Z -> bool)
    (regions : list span) : M (span * list hostcall) :=
  let totalSize := fold_left (fun t r => u64 (t + sp_size r)) regions 0 in
  match mmap totalSize with
  | None => fail (Throw "Failed to create mirror base")
  | Some mirrorBase =>
      let! (mirrorOffset, calls) :=
        foldM (mirror_step m mmap_fixed_ok mirrorBase) regions (0, [H_mmap_reserve totalSize]) in
      if negb (mirrorOffset =? totalSize)
      then fail (Throw "Mirror size mismatch")
      else ok (mk_span mirrorBase totalSize, calls)
  end.

Definition FreeMemory (m : MemoryManager) (fallocate_ok : bool) (memory : span) : M (list hostcall) :=
  let! offset := check_mapping m memory in
  if negb fallocate_ok then fail (Throw "Failed to free memory")
  else ok [H_fallocate_punch offset (sp_size memory)].

(** ** Chunks *)

Definition chunk_end (c : ChunkDescriptor) : Z := u64 (c_ptr c + c_size c).

Definition with_extent (c : ChunkDescriptor) (ptr size : Z) : ChunkDescriptor :=
  mk_chunk ptr size (c_permission c) (c_state c) (c_attributes c).

Definition insert_chunks (l : list ChunkDescriptor) (chunk : ChunkDescriptor) : M (list ChunkDescriptor) :=
  let e := chunk_end chunk in
  (* upper_bound by start address; [lows] ends at [lower] *)
  let '(lows, rest) := split_at (fun c => c_ptr chunk <? c_ptr c) l in
  match unsnoc lows with
  | None => fail (Throw "InsertChunk: Chunk inserted outside address space")
  | Some (before, lower) =>
      (* erase the chunks that end inside the new one, trim the one it cuts *)
      let '(_, ups) := split_at (fun c => e <? chunk_end c) rest in
      let ups := match ups with
                 | upper :: ups' =>
                     if c_ptr upper <? e
                     then with_extent upper e (u64 (chunk_end upper - e)) :: ups'
                     else ups
                 | [] => ups
                 end in
      if (c_ptr lower =? c_ptr chunk) && (c_size lower =? c_size chunk) then
        ok (before ++ mk_chunk (c_ptr lower) (c_size lower) (c_permission chunk) (c_state chunk) (c_attributes chunk) :: ups)
      else if e <? chunk_end lower then
        let lowerExtension := with_extent lower e (u64 (chunk_end lower - e)) in
        let lower := with_extent lower (c_ptr lower) (u64 (c_ptr chunk - c_ptr lower)) in
        if negb (c_size lower =? 0) then
          ok (before ++ lower :: chunk :: lowerExtension :: ups)
        else
          match unsnoc before with
          | None => fail (Undefined "InsertChunk: std::prev(chunks.begin())")
          | Some (before2, lower2) =>
              if IsCompatible chunk lower2 && (c_ptr chunk <=? chunk_end lower2)
              then ok (before2 ++ with_extent lower2 (c_ptr lower2) (u64 (e - c_ptr lower2)) :: lowerExtension :: ups)
              else ok (before2 ++ lower2 :: chunk :: lowerExtension :: ups)
          end
      else if IsCompatible chunk lower && (c_ptr chunk <=? chunk_end lower) then
        ok (before ++ with_extent lower (c_ptr lower) (u64 (e - c_ptr lower)) :: ups)
      else
        let lower := if c_ptr chunk <? chunk_end lower
                     then with_extent lower (c_ptr lower) (u64 (c_ptr chunk - c_ptr lower))
                     else lower in
        match ups with
        | upper :: ups' =>
            if IsCompatible chunk upper && (c_ptr upper <=? e)
            then ok (before ++ lower :: with_extent upper (c_ptr chunk) (u64 (c_size chunk + c_size upper)) :: ups')
            else ok (before ++ lower :: chunk :: ups)
        | [] => ok (before ++ lower :: chunk :: ups)
        end
  end.

Definition InsertChunk (m : MemoryManager) (chunk : ChunkDescriptor) : M MemoryManager :=
  let! l := insert_chunks (chunks m) chunk in ok (set_chunks m l).

Definition get_chunk (l : list ChunkDescriptor) (ptr : Z) : option ChunkDescriptor :=
  let '(lows, _) := split_at (fun c => ptr <? c_ptr c) l in
  match unsnoc lows with
  | Some (_, chunk) => if ptr <? chunk_end chunk then Some chunk else None
  | None => None
  end.

Definition Get (m : MemoryManager) (ptr : Z) : option ChunkDescriptor := get_chunk (chunks m) ptr.

(** [mainThreadStack] is the size of the main thread's stack object of the process. *)
Definition GetUserMemoryUsage (m : MemoryManager) (mainThreadStack : Z) : Z :=
  let size := fold_left (fun size c => if c_state c =? states_Heap then u64 (size + c_size c) else size) (chunks m) 0 in
  u64 (size + sp_size (code m) + mainThreadStack).

Definition KMemoryBlockSize : Z := 0x40.
Definition GetSystemResourceUsage (m : MemoryManager) (systemResourceSize : Z) : Z :=
  Z.min systemResourceSize (AlignUp (u64 (Z.of_nat (length (chunks m)) * KMemoryBlockSize)) PAGE_SIZE).

(** ** Specification: a map from addresses to attributes *)

Definition attrs : Type := (Permission * Z * Z)%type.
Definition attrs_of (c : ChunkDescriptor) : attrs := (c_permission c, c_state c, c_attributes c).

Definition covers (c : ChunkDescriptor) (a : Z) : bool := (c_ptr c <=? a) && (a <? c_ptr c + c_size c).

(** The attributes a chunk list gives to an address. *)
Fixpoint attrs_at (l : list ChunkDescriptor) (a : Z) : option attrs :=
  match l with
  | [] => None
  | c :: l => if covers c a then Some (attrs_of c) else attrs_at l a
  end.

(** The abstract operation: the range takes the new attributes, the rest keeps its own. *)
Definition spec_set (f : Z -> option attrs) (p e : Z) (x : attrs) (a : Z) : option attrs :=
  if (p <=? a) && (a <? e) then Some x else f a.

(** The chunks of a list follow each other without gap from [lo] to [hi]. *)
Fixpoint tiles (lo : Z) (l : list ChunkDescriptor) (hi : Z) : Prop :=
  match l with
  | [] => lo = hi
  | c :: l => c_ptr c = lo /\ 0 <= c_size c /\ tiles (lo + c_size c) l hi
  end.

Lemma tiles_app lo l1 l2 hi :
  tiles lo (l1 ++ l2) hi <-> exists mid, tiles lo l1 mid /\ tiles mid l2 hi.
Proof.
  revert lo; induction l1 as [|c l1 IH]; intros lo; simpl; [naive_solver|].
  rewrite IH. naive_solver.
Qed.

Lemma tiles_le lo l hi : tiles lo l hi -> lo <= hi.
Proof. revert lo; induction l as [|c l IH]; simpl; intros lo H; [lia|]. destruct H as (?&?&H%IH). lia. Qed.

Lemma attrs_at_app l1 l2 a :
  attrs_at (l1 ++ l2) a = match attrs_at l1 a with Some x => Some x | None => attrs_at l2 a end.
Proof. induction l1 as [|c l1 IH]; simpl; [done|]. by destruct (covers c a). Qed.

Lemma attrs_at_out lo l hi a : tiles lo l hi -> a < lo \/ hi <= a -> attrs_at l a = None.
Proof.
  revert lo; induction l as [|c l IH]; simpl; intros lo Ht Ha; [done|].
  destruct Ht as (?&?&Ht). pose proof (tiles_le _ _ _ Ht).
  unfold covers. zcases; eapply IH; eauto; lia.
Qed.

Lemma attrs_at_in lo l hi a : tiles lo l hi -> lo <= a < hi -> is_Some (attrs_at l a).
Proof.
  revert lo; induction l as [|c l IH]; simpl; intros lo Ht Ha; [lia|].
  destruct Ht as (?&?&Ht). unfold covers. zcases; eauto; eapply IH; eauto; lia.
Qed.

(** Every chunk of a tiled list lies within it; its end does not wrap. *)
Lemma tiles_elem lo l hi c :
  tiles lo l hi -> c ∈ l -> lo <= c_ptr c /\ 0 <= c_size c /\ c_ptr c + c_size c <= hi.
Proof.
  revert lo; induction l as [|d l IH]; simpl; intros lo Ht Hc; [by apply elem_of_nil in Hc|].
  destruct Ht as (?&?&Ht). pose proof (tiles_le _ _ _ Ht).
  apply elem_of_cons in Hc as [->|Hc]; [lia|]. specialize (IH _ Ht Hc). lia.
Qed.

Lemma tiles_chunk_end lo l hi c :
  0 <= lo -> hi < 2 ^ 64 -> tiles lo l hi -> c ∈ l -> chunk_end c = c_ptr c + c_size c.
Proof. intros ?? Ht Hc. pose proof (tiles_elem _ _ _ _ Ht Hc). apply wrap_small. lia. Qed.

Lemma IsCompatible_attrs c d : IsCompatible c d = true -> attrs_of c = attrs_of d.
Proof.
  unfold IsCompatible, Permission_eqb, attrs_of.
  destruct c as [?? [] ??], d as [?? [] ??]; simpl.
  rewrite !andb_true_iff, !Bool.eqb_true_iff, !Z.eqb_eq. naive_solver.
Qed.

(** The erased middle part ends before [e]. *)
Lemma erased_end lo l hi e :
  0 <= lo -> hi < 2 ^ 64 -> tiles lo l hi -> Forall (fun c => (e <? chunk_end c) = false) l ->
  l <> [] -> hi <= e.
Proof.
  intros Hlo Hhi Ht Hf Hne. destruct (unsnoc l) as [[b c]|] eqn:E; [|by apply unsnoc_None in E].
  apply unsnoc_Some in E as ->. apply Forall_app in Hf as [_ Hf]. apply Forall_cons in Hf as [Hc _].
  rewrite (tiles_chunk_end _ _ _ c Hlo Hhi Ht) in Hc by set_solver.
  apply tiles_app in Ht as (mid & _ & ? & ? & ?). simpl in *. apply Z.ltb_ge in Hc. lia.
Qed.

(** Erasing and trimming: what is left of [rest] starts at [max m e], where [m] is the
    end of the erased part, and agrees with [rest] from [e] on. *)
Definition trim (e : Z) (ups : list ChunkDescriptor) : list ChunkDescriptor :=
  match ups with
  | upper :: ups' =>
      if c_ptr upper <? e then with_extent upper e (u64 (chunk_end upper - e)) :: ups' else ups
  | [] => ups
  end.

Lemma trim_spec lo rest hi e er ups :
  0 <= lo -> hi < 2 ^ 64 -> tiles lo rest hi -> e <= hi -> 0 <= e ->
  split_at (fun c => e <? chunk_end c) rest = (er, ups) ->
  tiles (Z.max lo e) (trim e ups) hi /\
  (forall a, e <= a -> attrs_at (trim e ups) a = attrs_at rest a).
Proof.
  intros Hlo Hhi Ht Hhe He Es. pose proof (split_at_app _ _ _ _ Es) as ->.
  pose proof (split_at_prefix _ _ _ _ Es) as Hf.
  apply tiles_app in Ht as (m & H1 & H2).
  pose proof (tiles_le _ _ _ H1). pose proof (tiles_le _ _ _ H2).
  assert (Hm : Z.max lo e = Z.max m e).
  { destruct er as [|c er]; [simpl in H1; lia|].
    assert (m <= e) by (apply (erased_end lo (c :: er) m e); [lia|lia|done..]). lia. }
  assert (Ha : forall a, e <= a -> attrs_at (er ++ ups) a = attrs_at ups a).
  { intros a Hae. rewrite attrs_at_app. destruct er as [|c er]; [done|].
    rewrite (attrs_at_out lo _ m); [done|done|].
    right. transitivity e; [|done]. apply (erased_end lo (c :: er) m e); [lia|lia|done..]. }
  rewrite Hm. destruct ups as [|u ups].
  - simpl in *. split; [lia|]. intros a Hae. rewrite Ha by done. done.
  - simpl in H2. destruct H2 as (Hp & Hs & H2). pose proof (tiles_le _ _ _ H2).
    assert (Hue : chunk_end u = m + c_size u) by (unfold chunk_end; rewrite Hp; apply wrap_small; lia).
    apply split_at_head in Es. rewrite Hue in Es. apply Z.ltb_lt in Es.
    simpl. rewrite Hp, Hue, (wrap_small 64) by lia. zcase; simpl.
    + split; [split; [lia|split; [lia|]]|].
      * replace (Z.max m e + _) with (m + c_size u) by lia. done.
      * intros a Hae. rewrite Ha by done. simpl. unfold covers, with_extent; simpl. rewrite Hp.
        zcases; done.
    + split; [split; [lia|split; [lia|]]|].
      * replace (Z.max m e) with m by lia. done.
      * intros a Hae. by rewrite Ha.
Qed.

(** The state in which the case split of [InsertChunk] happens. *)
Record insert_ctx (lo : Z) (before : list ChunkDescriptor) (lower : ChunkDescriptor)
    (rest ups : list ChunkDescriptor) (hi p e : Z) : Prop := mk_insert_ctx {
  ic_before : tiles lo before (c_ptr lower);
  ic_size : 0 <= c_size lower;
  ic_rest : tiles (c_ptr lower + c_size lower) rest hi;
  ic_ups : tiles (Z.max (c_ptr lower + c_size lower) e) ups hi;
  ic_le : c_ptr lower <= p <= c_ptr lower + c_size lower;
  ic_agree : forall a, e <= a -> attrs_at ups a = attrs_at rest a }.

Lemma insert_ctx_ok lo l hi p e before lower rest er ups0 :
  0 <= lo -> hi < 2 ^ 64 -> tiles lo l hi -> lo <= p -> p <= e <= hi ->
  split_at (fun c => p <? c_ptr c) l = (before ++ [lower], rest) ->
  split_at (fun c => e <? chunk_end c) rest = (er, ups0) ->
  insert_ctx lo before lower rest (trim e ups0) hi p e.
Proof.
  intros Hlo Hhi Ht Hp He Es1 Es2.
  pose proof (split_at_prefix _ _ _ _ Es1) as Hf. apply Forall_app in Hf as [_ Hf]. apply Forall_cons in Hf as [Hl _].
  pose proof (split_at_app _ _ _ _ Es1) as ->.
  rewrite <- app_assoc in Ht. apply tiles_app in Ht as (m & H1 & H2). simpl in H2. destruct H2 as (<- & Hs & H2).
  pose proof (tiles_le _ _ _ H1). pose proof (tiles_le _ _ _ H2). apply Z.ltb_ge in Hl.
  destruct (trim_spec (c_ptr lower + c_size lower) rest hi e er ups0) as [Htr Hag]; [lia|lia|done|lia|lia|done|].
  split; [done|lia|done|done| |done].
  split; [done|]. destruct rest as [|c rest]; [simpl in H2; lia|].
  apply split_at_head in Es1. apply Z.ltb_lt in Es1. simpl in H2. lia.
Qed.

(** The result of an insertion that replaces everything from [q] to [r] with [mid]. *)
Lemma insert_result lo before mid rest ups hi q r lower p e x :
  tiles lo before q -> tiles q mid r -> tiles r ups hi ->
  tiles q (lower :: rest) hi ->
  (forall a, q <= a < r -> attrs_at mid a = spec_set (attrs_at (lower :: rest)) p e x a) ->
  (forall a, r <= a -> attrs_at ups a = attrs_at (lower :: rest) a) ->
  q <= p -> e <= r ->
  tiles lo (before ++ mid ++ ups) hi /\
  forall a, attrs_at (before ++ mid ++ ups) a = spec_set (attrs_at (before ++ lower :: rest)) p e x a.
Proof.
  intros H1 H2 H3 H4 Hmid Hups Hq Hr.
  pose proof (tiles_le _ _ _ H1). pose proof (tiles_le _ _ _ H2). pose proof (tiles_le _ _ _ H3).
  split. { apply tiles_app. exists q. split; [done|]. apply tiles_app. eauto. }
  intros a. unfold spec_set. rewrite !attrs_at_app.
  destruct (Z_lt_le_dec a q) as [Haq|Haq].
  - destruct (attrs_at before a) eqn:E; [by zcases|].
    rewrite (attrs_at_out q mid r), (attrs_at_out r ups hi), (attrs_at_out q (lower :: rest) hi) by (done || lia).
    by zcases.
  - rewrite (attrs_at_out lo before q) by (done || lia).
    destruct (Z_lt_le_dec a r).
    + destruct (attrs_at_in q mid r a) as [y Hy]; [done|lia|].
      rewrite Hy. rewrite <- Hy, Hmid by lia. done.
    + rewrite (attrs_at_out q mid r), Hups by (done || lia). by zcases.
Qed.

(** Address-wise comparison of explicit chunk lists. *)
Ltac chunk_at := intros; simpl; unfold covers, spec_set, with_extent; simpl; unfold covers; zcases; done.

Section insert_cases.
Context (lo hi : Z) (before rest ups : list ChunkDescriptor) (lower chunk : ChunkDescriptor).
Let p := c_ptr chunk.
Let e := c_ptr chunk + c_size chunk.
Context (Hlo : 0 <= lo) (Hhi : hi < 2 ^ 64) (Hp : lo < p) (Hs : 0 <= c_size chunk) (He : e <= hi).
Context (IC : insert_ctx lo before lower rest ups hi p e).

Let l := before ++ lower :: rest.
Definition insert_good (l' : list ChunkDescriptor) : Prop :=
  tiles lo l' hi /\ forall a, attrs_at l' a = spec_set (attrs_at l) p e (attrs_of chunk) a.

Lemma ic_bounds :
  lo <= c_ptr lower /\ c_ptr lower <= p <= c_ptr lower + c_size lower /\
  c_ptr lower + c_size lower <= hi /\ 0 <= c_size lower /\ p <= e.
Proof using All. destruct IC as [Hb ? Hr ???]. apply tiles_le in Hb, Hr. lia. Qed.

Lemma ic_lower_end : chunk_end lower = c_ptr lower + c_size lower.
Proof using All. pose proof ic_bounds. apply wrap_small. lia. Qed.

Lemma ic_tail a : e <= a -> c_ptr lower + c_size lower <= a -> attrs_at ups a = attrs_at (lower :: rest) a.
Proof using All. intros Ha1 Ha2. rewrite (ic_agree _ _ _ _ _ _ _ _ IC) by done. simpl. unfold covers. by zcases. Qed.

Lemma ic_lower_rest : tiles (c_ptr lower) (lower :: rest) hi.
Proof using All. destruct IC. simpl. auto. Qed.

(** The new list has [mid] in place of [lower] and ends with [ups] from [r] on. *)
Lemma insert_good_mid mid r :
  tiles (c_ptr lower) mid r -> r = Z.max (c_ptr lower + c_size lower) e ->
  (forall a, c_ptr lower <= a < r -> attrs_at mid a = spec_set (attrs_at (lower :: rest)) p e (attrs_of chunk) a) ->
  insert_good (before ++ mid ++ ups).
Proof using All.
  intros Hm -> Ha. pose proof ic_bounds. destruct IC as [Hb ?? Hu ??].
  eapply insert_result; [done|done|done|apply ic_lower_rest|done| |lia|lia].
  intros a Hr. apply ic_tail; lia.
Qed.

Lemma insert_same :
  c_ptr lower = p -> c_size lower = c_size chunk ->
  insert_good (before ++ mk_chunk (c_ptr lower) (c_size lower) (c_permission chunk) (c_state chunk) (c_attributes chunk) :: ups).
Proof using All.
  intros E1 E2. pose proof ic_bounds.
  apply (insert_good_mid [_] (c_ptr lower + c_size lower)); [simpl; lia|lia|]. chunk_at.
Qed.

Lemma insert_split size1 size3 :
  e < c_ptr lower + c_size lower -> size1 = p - c_ptr lower -> size3 = c_ptr lower + c_size lower - e ->
  insert_good (before ++ with_extent lower (c_ptr lower) size1 :: chunk :: with_extent lower e size3 :: ups).
Proof using All.
  intros E1 -> ->. pose proof ic_bounds.
  apply (insert_good_mid [_; _; _] (c_ptr lower + c_size lower)); [simpl; lia|lia|]. chunk_at.
Qed.

Lemma insert_head size3 :
  e < c_ptr lower + c_size lower -> c_ptr lower = p -> size3 = c_ptr lower + c_size lower - e ->
  insert_good (before ++ chunk :: with_extent lower e size3 :: ups).
Proof using All.
  intros E1 E2 ->. pose proof ic_bounds.
  apply (insert_good_mid [_; _] (c_ptr lower + c_size lower)); [simpl; lia|lia|]. chunk_at.
Qed.

(** The new chunk is absorbed by the compatible one before [lower]. *)
Lemma insert_head_merge before2 lower2 size2 size3 :
  before = before2 ++ [lower2] -> e < c_ptr lower + c_size lower -> c_ptr lower = p ->
  attrs_of chunk = attrs_of lower2 ->
  size2 = e - c_ptr lower2 -> size3 = c_ptr lower + c_size lower - e ->
  insert_good (before2 ++ with_extent lower2 (c_ptr lower2) size2 :: with_extent lower e size3 :: ups).
Proof using All.
  intros Eb E1 E2 E3 -> ->. pose proof ic_bounds.
  destruct (insert_head _ E1 E2 eq_refl) as [H1 H2]. unfold insert_good. subst before.
  rewrite <- app_assoc in H1. split.
  - apply tiles_app in H1 as (m & H1 & H3). apply tiles_app. exists m. split; [done|].
    simpl in *. destruct H3 as (?&?&?&?&?&?&?).
    replace (m + (e - c_ptr lower2)) with (m + c_size lower2 + c_size chunk) by lia. repeat split; done || lia.
  - intros a. rewrite <- H2, <- app_assoc, !attrs_at_app. destruct (attrs_at before2 a); [done|].
    apply tiles_app in H1 as (m & _ & ?&?&?&?&_). simpl.
    unfold covers, with_extent; simpl. rewrite E3. destruct lower2; simpl in *. unfold attrs_of; simpl. zcases; done.
Qed.

Lemma insert_extend size1 :
  c_ptr lower + c_size lower <= e -> attrs_of chunk = attrs_of lower -> size1 = e - c_ptr lower ->
  insert_good (before ++ with_extent lower (c_ptr lower) size1 :: ups).
Proof using All.
  intros E1 E2 ->. pose proof ic_bounds. apply (insert_good_mid [_] e); [simpl; lia|lia|].
  intros a Ha. simpl. unfold covers, spec_set, with_extent; simpl. unfold covers. rewrite E2.
  destruct lower; simpl in *. zcases; done.
Qed.

Lemma insert_plain lower' :
  c_ptr lower + c_size lower <= e ->
  c_ptr lower' = c_ptr lower -> c_size lower' = p - c_ptr lower -> attrs_of lower' = attrs_of lower ->
  insert_good (before ++ lower' :: chunk :: ups).
Proof using All.
  intros E1 H1 H2 H3. pose proof ic_bounds. apply (insert_good_mid [_; _] e); [simpl; lia|lia|].
  intros a Ha. simpl. unfold covers, spec_set; simpl. unfold covers. rewrite H1, H2, H3. zcases; done.
Qed.

(** The new chunk is absorbed by the compatible one after it. *)
Lemma insert_merge_upper lower' u ups' size :
  ups = u :: ups' -> c_ptr lower + c_size lower <= e ->
  c_ptr lower' = c_ptr lower -> c_size lower' = p - c_ptr lower -> attrs_of lower' = attrs_of lower ->
  attrs_of chunk = attrs_of u -> size = c_size chunk + c_size u ->
  insert_good (before ++ lower' :: with_extent u p size :: ups').
Proof using All.
  intros Eu E1 H1 H2 H3 H4 ->. destruct (insert_plain lower' E1 H1 H2 H3) as [HP1 HP2].
  subst ups. apply tiles_app in HP1 as (m & HP1 & ?&?&?&?&?&?&?). split.
  - apply tiles_app. exists m. split; [done|]. simpl. rewrite Z.add_assoc. repeat split; done || lia.
  - intros a. rewrite <- HP2, !attrs_at_app. destruct (attrs_at before a); [done|].
    simpl. unfold covers, with_extent; simpl. rewrite H4. destruct u; simpl in *. unfold attrs_of; simpl. zcases; done.
Qed.
End insert_cases.

Lemma insert_chunks_refines l lo hi chunk :
  0 <= lo -> hi < 2 ^ 64 -> tiles lo l hi ->
  lo < c_ptr chunk -> 0 <= c_size chunk -> c_ptr chunk + c_size chunk <= hi ->
  exists l', insert_chunks l chunk = inr l' /\ tiles lo l' hi /\
    forall a, attrs_at l' a =
      spec_set (attrs_at l) (c_ptr chunk) (c_ptr chunk + c_size chunk) (attrs_of chunk) a.
Proof.
  intros Hlo Hhi Ht Hp Hs He. unfold insert_chunks.
  assert (chunk_end chunk = c_ptr chunk + c_size chunk) as -> by (apply wrap_small; lia).
  set (e := c_ptr chunk + c_size chunk) in *.
  destruct (split_at (fun c => c_ptr chunk <? c_ptr c) l) as [lows rest] eqn:Es1.
  destruct (unsnoc lows) as [[before lower]|] eqn:Eu.
  2:{ exfalso. apply unsnoc_None in Eu as ->. destruct l as [|c l]; simpl in *; [lia|].
      destruct (Z.ltb_spec (c_ptr chunk) (c_ptr c)); [lia|]. by destruct (split_at _ l). }
  apply unsnoc_Some in Eu as ->.
  destruct (split_at (fun c => e <? chunk_end c) rest) as [er ups0] eqn:Es2.
  fold (trim e ups0).
  assert (IC : insert_ctx lo before lower rest (trim e ups0) hi (c_ptr chunk) e)
    by (eapply insert_ctx_ok; [..|exact Es1|exact Es2]; lia || done).
  pose proof (split_at_app _ _ _ _ Es1) as El. rewrite <- app_assoc in El. simpl in El. subst l.
  remember (trim e ups0) as ups eqn:Eups. clear Eups Es1 Es2 er ups0.
  pose proof (ic_bounds lo hi before rest ups lower chunk Hlo Hhi Hp Hs He IC) as HB. fold e in HB.
  rewrite (ic_lower_end lo hi before rest ups lower chunk Hlo Hhi Hp Hs He IC).
  destruct ((c_ptr lower =? c_ptr chunk) && (c_size lower =? c_size chunk)) eqn:E1.
  { apply andb_true_iff in E1 as [E1%Z.eqb_eq E2%Z.eqb_eq]. eexists; split; [reflexivity|]. by apply insert_same. }
  destruct (Z.ltb_spec e (c_ptr lower + c_size lower)) as [E2|E2].
  { simpl. rewrite !(wrap_small 64) by lia.
    destruct (Z.eqb_spec (c_ptr chunk - c_ptr lower) 0) as [E3|E3]; simpl.
    2:{ eexists; split; [reflexivity|]. by apply insert_split. }
    destruct (unsnoc before) as [[before2 lower2]|] eqn:Eu.
    2:{ exfalso. apply unsnoc_None in Eu as ->. destruct IC as [Hb]. simpl in Hb. lia. }
    apply unsnoc_Some in Eu. destruct (IsCompatible chunk lower2 && _) eqn:E4.
    - apply andb_true_iff in E4 as [E4%IsCompatible_attrs _]. eexists; split; [reflexivity|].
      apply (insert_head_merge lo hi before rest ups lower chunk); try done; try lia.
      apply wrap_small. destruct IC as [Hb]. rewrite Eu in Hb.
      pose proof (tiles_elem _ _ _ lower2 Hb ltac:(set_solver)). lia.
    - eexists; split; [reflexivity|].
      pose proof (insert_head lo hi before rest ups lower chunk Hlo Hhi Hp Hs He IC _ E2 ltac:(lia) eq_refl) as G.
      rewrite Eu, <- app_assoc in G. rewrite Eu. exact G. }
  destruct (IsCompatible chunk lower && _) eqn:E3.
  { apply andb_true_iff in E3 as [E3%IsCompatible_attrs _]. eexists; split; [reflexivity|].
    apply insert_extend; try done. apply wrap_small. lia. }
  set (lower' := if c_ptr chunk <? _ then _ else _).
  assert (Hl' : c_ptr lower' = c_ptr lower /\ c_size lower' = c_ptr chunk - c_ptr lower /\ attrs_of lower' = attrs_of lower).
  { unfold lower'. destruct (Z.ltb_spec (c_ptr chunk) (c_ptr lower + c_size lower)); simpl.
    - rewrite (wrap_small 64) by lia. done.
    - repeat split. lia. }
  clearbody lower'. destruct Hl' as (Hl1 & Hl2 & Hl3).
  assert (Hplain := insert_plain lo hi before rest ups lower chunk Hlo Hhi Hp Hs He IC lower' E2 Hl1 Hl2 Hl3).
  destruct ups as [|u ups]; [eauto|]. destruct (IsCompatible chunk u && _) eqn:E4; [|eauto].
  apply andb_true_iff in E4 as [E4%IsCompatible_attrs _]. eexists; split; [reflexivity|].
  eapply (insert_merge_upper lo hi before rest); try done.
  destruct IC as [_ _ _ Hu _ _]. simpl in Hu. destruct Hu as (?&?&Hu%tiles_le). apply wrap_small. lia.
Qed.

(** ** [Get] reads the map *)

Lemma get_chunk_tiles l lo hi a :
  0 <= lo -> hi < 2 ^ 64 -> tiles lo l hi -> lo <= a < hi ->
  exists c, get_chunk l a = Some c /\ c ∈ l /\ covers c a = true /\ attrs_at l a = Some (attrs_of c).
Proof.
  intros Hlo Hhi Ht Ha. unfold get_chunk.
  destruct (split_at (fun c => a <? c_ptr c) l) as [lows rest] eqn:Es.
  destruct (unsnoc lows) as [[before lower]|] eqn:Eu.
  2:{ exfalso. apply unsnoc_None in Eu as ->. destruct l as [|c l]; simpl in *; [lia|].
      destruct (Z.ltb_spec a (c_ptr c)); [lia|]. by destruct (split_at _ l). }
  apply unsnoc_Some in Eu as ->.
  destruct (insert_ctx_ok lo l hi a a before lower rest (split_at (fun c => a <? chunk_end c) rest).1
    (split_at (fun c => a <? chunk_end c) rest).2) as [Hb Hsz Hr _ Hle _]; try done; try lia; [by destruct (split_at _ rest)|].
  pose proof (split_at_app _ _ _ _ Es) as El. rewrite <- app_assoc in El. simpl in El.
  pose proof (tiles_le _ _ _ Hb). pose proof (tiles_le _ _ _ Hr).
  assert (Hlt : a < c_ptr lower + c_size lower).
  { destruct rest as [|c rest]; simpl in Hr; [lia|]. apply split_at_head in Es. lia. }
  assert (chunk_end lower = c_ptr lower + c_size lower) as -> by (apply wrap_small; lia).
  exists lower. rewrite (proj2 (Z.ltb_lt _ _)) by lia. subst l.
  split; [done|]. split; [set_solver|]. unfold covers at 1.
  split; [zcases; done|]. rewrite attrs_at_app, (attrs_at_out _ _ _ _ Hb) by lia.
  simpl. unfold covers. by zcases.
Qed.

Lemma get_chunk_outside l lo hi a :
  0 <= lo -> hi < 2 ^ 64 -> tiles lo l hi -> a < lo \/ hi <= a -> get_chunk l a = None.
Proof.
  intros Hlo Hhi Ht Ha. unfold get_chunk.
  destruct (split_at (fun c => a <? c_ptr c) l) as [lows rest] eqn:Es.
  destruct (unsnoc lows) as [[before lower]|] eqn:Eu; [|done].
  apply unsnoc_Some in Eu as ->. pose proof (split_at_app _ _ _ _ Es) as ->.
  pose proof (split_at_prefix _ _ _ _ Es) as Hf. apply Forall_app in Hf as [_ Hf].
  apply Forall_cons in Hf as [Hl _]. apply Z.ltb_ge in Hl.
  assert (Hin : lower ∈ (before ++ [lower]) ++ rest) by set_solver.
  rewrite (tiles_chunk_end _ _ _ _ Hlo Hhi Ht Hin).
  pose proof (tiles_elem _ _ _ _ Ht Hin). zcases. done.
Qed.

(** ** The invariant of the manager and its operations *)

Definition vm_ok (m : MemoryManager) : Prop :=
  addressSpace m = mk_span 0 (2 ^ 39) /\ tiles 0 (chunks m) (2 ^ 39).

Definition view (m : MemoryManager) : Z -> option attrs := attrs_at (chunks m).

Definition chunk_in_space (c : ChunkDescriptor) : Prop :=
  0 < c_ptr c /\ 0 <= c_size c /\ c_ptr c + c_size c <= 2 ^ 39.

Lemma InsertChunk_ok m c :
  vm_ok m -> chunk_in_space c ->
  exists m', InsertChunk m c = inr m' /\ vm_ok m' /\
    (forall a, view m' a = spec_set (view m) (c_ptr c) (c_ptr c + c_size c) (attrs_of c) a) /\
    base m' = base m /\ code m' = code m /\ alias m' = alias m /\ heap m' = heap m
    /\ stack m' = stack m /\ tlsIo m' = tlsIo m.
Proof.
  intros [Ha Ht] (Hp & Hs & He). unfold InsertChunk, vm_ok, view.
  destruct (insert_chunks_refines (chunks m) 0 (2 ^ 39) c) as (l' & -> & ? & ?); [lia..|done|lia|lia|lia|].
  eexists. split; [reflexivity|]. by destruct m.
Qed.

(** A sequence of insertions, and the same sequence on the abstract map. *)
Definition InsertChunks (m : MemoryManager) (cs : list ChunkDescriptor) : M MemoryManager :=
  foldM InsertChunk cs m.

Definition spec_sets (f : Z -> option attrs) (cs : list ChunkDescriptor) : Z -> option attrs :=
  fold_left (fun f c => spec_set f (c_ptr c) (c_ptr c + c_size c) (attrs_of c)) cs f.

Lemma spec_sets_ext cs f g : (forall a, f a = g a) -> forall a, spec_sets f cs a = spec_sets g cs a.
Proof.
  revert f g. induction cs as [|c cs IH]; intros f g E; [done|]. simpl. apply IH.
  intros a. unfold spec_set. by destruct (_ && _).
Qed.

Lemma InsertChunks_ok cs m :
  vm_ok m -> Forall chunk_in_space cs ->
  exists m', InsertChunks m cs = inr m' /\ vm_ok m' /\ forall a, view m' a = spec_sets (view m) cs a.
Proof.
  revert m. induction cs as [|c cs IH]; intros m Hm Hcs; [by exists m|].
  apply Forall_cons in Hcs as [Hc Hcs].
  destruct (InsertChunk_ok m c Hm Hc) as (m1 & E1 & Hm1 & Hv & _).
  destruct (IH m1 Hm1 Hcs) as (m' & E2 & Hm' & Hv').
  exists m'. unfold InsertChunks. simpl. rewrite E1. simpl. split; [done|]. split; [done|].
  intros a. rewrite Hv'. by apply spec_sets_ext.
Qed.

(** The attributes [Get] reports. *)
Definition query (m : MemoryManager) (a : Z) : option attrs := attrs_of <$> Get m a.

Lemma query_view m a : vm_ok m -> query m a = view m a.
Proof.
  intros [_ Ht]. unfold query, view, Get. destruct (decide (0 <= a < 2 ^ 39)) as [Ha|Ha].
  - destruct (get_chunk_tiles _ 0 (2 ^ 39) a ltac:(lia) ltac:(lia) Ht Ha) as (c & -> & _ & _ & ->). done.
  - rewrite (get_chunk_outside _ 0 (2 ^ 39)), (attrs_at_out _ _ _ _ Ht) by (lia || done). done.
Qed.

(** C1: [InsertChunk] refines the update of a total map.  From a well-formed manager any
    sequence of insertions inside the address space succeeds, keeps the chunk list a gapless
    tiling of the address space, and afterwards [Get] reports at every address exactly the
    attributes given by the last insertion that covers it.  The inserted chunks start above address
    0, where the code would look for the chunk before the first one. *)
Theorem InsertChunk_refines_map m cs :
  vm_ok m -> Forall chunk_in_space cs ->
  exists m', InsertChunks m cs = inr m' /\ vm_ok m' /\
    forall a, query m' a = spec_sets (query m) cs a.
Proof.
  intros Hm Hcs. destruct (InsertChunks_ok cs m Hm Hcs) as (m' & E & Hm' & Hv).
  exists m'. split; [done|]. split; [done|]. intros a. rewrite query_view, Hv by done.
  apply spec_sets_ext. intros. by rewrite query_view.
Qed.

Definition sample_manager : MemoryManager :=
  mk_mm [mk_chunk 0 0x800000000 no_permission states_Reserved 0;
         mk_chunk 0x800000000 0x2000000000 no_permission states_Unmapped 0;
         mk_chunk 0x2800000000 0x5800000000 no_permission states_Reserved 0]
    (mk_span 0 (2 ^ 39)) (mk_span 0x800000000 0x2000000000)
    null_span null_span null_span null_span null_span.

Definition sample_chunks : list ChunkDescriptor :=
  [mk_chunk 0x800001000 0x3000 (mk_perm true true false) states_Heap 0;
   mk_chunk 0x800002000 0x1000 (mk_perm true false false) states_Heap 0;
   mk_chunk 0x800001000 0x2000 (mk_perm true false true) states_CodeStatic 0].

Lemma InsertChunk_refines_map_witness :
  exists m', InsertChunks sample_manager sample_chunks = inr m' /\ vm_ok m' /\
    forall a, query m' a = spec_sets (query sample_manager) sample_chunks a.
Proof.
  apply (InsertChunk_refines_map sample_manager sample_chunks).
  - split; [reflexivity|]. simpl. lia.
  - repeat constructor; vm_compute; congruence.
Defined.

(** [Get] finds the chunk of an address.  In a well-formed manager it returns a chunk for
    every address of the address space, that chunk is in the list and contains the address,
    and outside the address space it returns nothing. *)
Theorem Get_total m a :
  vm_ok m ->
  if decide (0 <= a < 2 ^ 39)
  then exists c, Get m a = Some c /\ c ∈ chunks m /\ c_ptr c <= a < c_ptr c + c_size c
  else Get m a = None.
Proof.
  intros [_ Ht]. unfold Get. case_decide as Ha.
  - destruct (get_chunk_tiles _ 0 (2 ^ 39) a ltac:(lia) ltac:(lia) Ht Ha) as (c & -> & ? & Hc & _).
    exists c. unfold covers in Hc. split; [done|]. split; [done|]. lia.
  - apply (get_chunk_outside _ 0 (2 ^ 39)); [lia|lia|done|lia].
Qed.

Lemma Get_total_witness :
  exists c, Get sample_manager 0x800001000 = Some c /\ c ∈ chunks sample_manager
    /\ c_ptr c <= 0x800001000 < c_ptr c + c_size c.
Proof. apply (Get_total sample_manager 0x800001000). split; [reflexivity|]. simpl. lia. Defined.

(** ** Initialisation of the address space *)

(** The lines of /proc/self/maps are sorted and disjoint, from [from] on. *)
Fixpoint maps_sorted (from : Z) (maps : list (Z * Z)) : Prop :=
  match maps with
  | [] => True
  | (lo, hi) :: maps => from <= lo <= hi /\ hi < 2 ^ 62 /\ maps_sorted hi maps
  end.

Lemma maps_sorted_ge from maps lo hi : maps_sorted from maps -> (lo, hi) ∈ maps -> from <= lo.
Proof.
  revert from; induction maps as [|[lo1 hi1] maps IH]; intros from Hs Hin; [by apply elem_of_nil in Hin|].
  simpl in Hs. apply elem_of_cons in Hin as [[= -> ->]|Hin]; [lia|].
  destruct Hs as (?&?&Hs). specialize (IH _ Hs Hin). lia.
Qed.

Lemma AlignUp_bounds v n :
  0 <= n < 64 -> 0 <= v -> v + 2 ^ n <= 2 ^ 64 ->
  v <= AlignUp v (2 ^ n) < v + 2 ^ n /\ AlignUp v (2 ^ n) mod 2 ^ n = 0.
Proof.
  intros Hn Hv Hb. rewrite AlignUp_spec by done.
  pose proof (Z.mod_pos_bound (v + 2 ^ n - 1) (2 ^ n) ltac:(lia)).
  split; [lia|]. rewrite Zminus_mod_idemp_r, Z.sub_diag. apply Z.mod_0_l. lia.
Qed.

Lemma find_carveout_sound maps start al bs asz b from :
  maps_sorted from maps -> 0 <= start < 2 ^ 62 -> start <= al < start + 2 ^ 21 -> al mod 2 ^ 21 = 0 ->
  0 <= bs < 2 ^ 62 -> al + bs <= asz ->
  find_carveout maps start al bs asz = Some b ->
  sp_size b = bs /\ sp_data b mod 2 ^ 21 = 0 /\ start <= sp_data b /\ sp_data b + bs <= asz /\
  forall lo hi, (lo, hi) ∈ maps -> start <= lo -> hi <= sp_data b \/ sp_data b + bs <= lo.
Proof.
  revert start al from. induction maps as [|[lo hi] maps IH]; simpl; intros start al from Hs Hst Hal Hmod Hbs Has E; [done|].
  destruct Hs as (Hlo & Hhi & Hs). destruct (Z.ltb_spec lo start) as [Hlt|Hge].
  - destruct (IH _ _ _ Hs Hst Hal Hmod Hbs Has E) as (?&?&?&?&Hd). repeat split; try done.
    intros lo' hi' [[= -> ->]|Hin]%elem_of_cons Hle; [lia|]. by apply Hd.
  - rewrite (wrap_small 64 (al - start)), !(wrap_small 64) in E by lia.
    destruct (Z.ltb_spec (bs + (al - start)) (lo - start)).
    + simplify_eq. simpl. repeat split; try done; try lia.
      intros lo' hi' [[= -> ->]|Hin]%elem_of_cons Hle; [lia|].
      pose proof (maps_sorted_ge _ _ _ _ Hs Hin). lia.
    + unfold RegionAlignment in E. change (Z.shiftl 1 21) with (2 ^ 21) in E.
      destruct (AlignUp_bounds hi 21) as [Hab Ham]; [lia..|].
      rewrite (wrap_small 64) in E by lia. destruct (Z.ltb_spec asz (AlignUp hi (2 ^ 21) + bs)); [done|].
      destruct (IH hi (AlignUp hi (2 ^ 21)) hi Hs ltac:(lia) Hab Ham Hbs ltac:(lia) E) as (?&?&?&?&Hd).
      repeat split; try done; try lia.
      intros lo' hi' [[= -> ->]|Hin]%elem_of_cons Hle; [lia|]. apply Hd; [done|]. by eapply maps_sorted_ge.
Qed.

(** the guest address space is carved out of free host memory.  When [InitializeVmm]
    succeeds on a sorted list of host mappings, the carveout is aligned to 2 MiB, has the size
    of the 39-bit layout, lies between 2^35 and 2^39, overlaps no host mapping that starts at or
    above 2^35, and the three initial chunks tile the address space. *)
Theorem InitializeVmm_carveout host m type m' calls :
  maps_sorted 0 (host_maps host) ->
  InitializeVmm host m type = inr (m', calls) ->
  vm_ok m' /\ type = AddressSpace39Bit /\
  sp_size (base m') = 0x2300000000 /\ sp_data (base m') mod 2 ^ 21 = 0 /\
  2 ^ 35 <= sp_data (base m') /\ sp_data (base m') + sp_size (base m') <= 2 ^ 39 /\
  (forall lo hi, (lo, hi) ∈ host_maps host -> 2 ^ 35 <= lo ->
     hi <= sp_data (base m') \/ sp_data (base m') + sp_size (base m') <= lo) /\
  query m' (sp_data (base m')) = Some (no_permission, states_Unmapped, 0).
Proof.
  intros Hs E. unfold InitializeVmm in E. destruct type; simpl in E; try done.
  destruct (find_carveout _ _ _ _ _) as [b|] eqn:Ec; [|done].
  destruct (memfd_ok host), (ftruncate_ok host), (mmap_ok host); simpl in E; try done. inv_ok.
  apply find_carveout_sound with (from := 0) in Ec as (Hsz & Hmod & Hge & Hle & Hd);
    [|done|vm_compute; split; congruence|vm_compute; split; congruence|reflexivity|vm_compute; split; congruence|vm_compute; congruence].
  change (Z.shiftl 1 35) with (2 ^ 35) in *. change (Z.shiftl 1 39) with (2 ^ 39) in *.
  change (CodeRegionSize + 0x1000000000 + 0x180000000 + 0x80000000 + 0x1000000000) with 0x2300000000 in *.
  simpl (sp_size (mk_span _ _)) in *. simpl (base _). rewrite Hsz in *.
  match goal with |- vm_ok ?x /\ _ => assert (Hok : vm_ok x) end.
  { split; [reflexivity|]. simpl. unfold span_end. rewrite Hsz, (wrap_small 64 (sp_data b + _)), !(wrap_small 64) by lia. lia. }
  do 7 (split; [done || lia|]).
  rewrite query_view by done. unfold view. simpl. unfold covers; simpl. rewrite !(wrap_small 64) by lia.
  zcases; done.
Qed.

Definition sample_host : vmm_host :=
  mk_vmm_host [(0x400000, 0x500000); (0x7100000000, 0x7200000000)] true true true.

Lemma InitializeVmm_carveout_witness :
  exists m' calls, InitializeVmm sample_host empty_manager AddressSpace39Bit = inr (m', calls)
    /\ vm_ok m' /\ query m' (sp_data (base m')) = Some (no_permission, states_Unmapped, 0).
Proof.
  do 2 eexists. split; [vm_compute; reflexivity|].
  match goal with |- vm_ok ?m' /\ _ =>
    pose proof (InitializeVmm_carveout sample_host empty_manager AddressSpace39Bit m'
      [H_memfd_create; H_ftruncate 0x2300000000; H_mmap (2 ^ 35) 0x2300000000 PROT_WRITE 0]) as H end.
  assert (Hs : maps_sorted 0 (host_maps sample_host)) by (simpl; lia).
  specialize (H Hs eq_refl). tauto.
Defined.

(** The 39-bit regions follow each other from the base. *)
Definition regions_39 (m : MemoryManager) (codeSize : Z) : Prop :=
  let b := sp_data (base m) in
  code m = mk_span b codeSize /\
  alias m = mk_span (b + codeSize) 0x1000000000 /\
  heap m = mk_span (b + codeSize + 0x1000000000) 0x180000000 /\
  stack m = mk_span (b + codeSize + 0x1180000000) 0x80000000 /\
  tlsIo m = mk_span (b + codeSize + 0x1200000000) 0x1000000000.

Definition base_39 (m : MemoryManager) : Prop :=
  addressSpace m = mk_span 0 (2 ^ 39) /\ sp_size (base m) = 0x2300000000 /\
  0 <= sp_data (base m) /\ sp_data (base m) + sp_size (base m) <= 2 ^ 39.

(** The body of [InitializeRegions] on a 39-bit space with an aligned code region. *)
Lemma InitializeRegions_39_eq m codeRegion :
  base_39 m -> IsAligned (sp_data codeRegion) RegionAlignment = true ->
  0 <= sp_size codeRegion <= 2 ^ 40 ->
  let cs := AlignUp (sp_size codeRegion) RegionAlignment in
  exists m', regions_39 m' cs /\ chunks m' = chunks m /\ base m' = base m /\ addressSpace m' = addressSpace m /\
    InitializeRegions m codeRegion =
      if 0x100000000 <? cs then fail (Throw "Guest VMM size has exceeded host carveout size")
      else ok (m', if cs =? 0x100000000 then []
                   else [H_munmap (sp_data (base m) + 0x2300000000) (2 ^ 64 - (0x100000000 - cs))]).
Proof.
  intros (Ha & Hbs & Hb0 & Hb1) Hal Hsz cs.
  destruct (AlignUp_bounds (sp_size codeRegion) 21) as [Hcb _]; [lia..|].
  change (2 ^ 21) with RegionAlignment in Hcb. fold cs in Hcb. change RegionAlignment with 2097152 in Hcb.
  unfold InitializeRegions. rewrite Hal, Ha. simpl. fold cs. unfold span_end; simpl.
  rewrite (wrap_small 64 (sp_data (base m) + cs)) by lia.
  rewrite (wrap_small 64 (sp_data (base m) + cs + 68719476736)) by lia.
  rewrite (wrap_small 64 (sp_data (base m) + cs + 68719476736 + 6442450944)) by lia.
  rewrite (wrap_small 64 (sp_data (base m) + cs + 68719476736 + 6442450944 + 2147483648)) by lia.
  rewrite (wrap_small 64 (cs + _ + _ + _ + _)) by lia. rewrite Hbs.
  eexists (mk_mm (chunks m) _ (base m) (mk_span _ cs) (mk_span _ _) (mk_span _ _) (mk_span _ _) (mk_span _ _)).
  split; [|split; [reflexivity|split; [reflexivity|split; [reflexivity|]]]].
  2:{ destruct (Z.ltb_spec 0x100000000 cs).
      - rewrite (proj2 (Z.ltb_lt _ _)) by lia. done.
      - rewrite (proj2 (Z.ltb_ge _ _)), (proj2 (Z.ltb_ge cs _)) by lia.
        unfold ok. do 2 f_equal. destruct (Z.eqb_spec cs 0x100000000) as [->|]; [done|].
        rewrite (proj2 (Z.eqb_neq _ _)) by lia. simpl. do 2 f_equal; [by apply wrap_small; lia|].
        unfold wrap. rewrite <- (Z.mod_add _ 1), Z.mod_small by lia. lia. }
  unfold regions_39; simpl. repeat split; f_equal; lia.
Qed.

(** the region layout of a 39-bit process.  [InitializeRegions] succeeds exactly when the
    code region is 2 MiB aligned and its size rounded up to 2 MiB is at most 4 GiB; then the
    code, alias, heap, stack and TLS/IO regions follow each other without gap from the VMM
    base, inside the carveout, and the chunk list is untouched. *)
Theorem InitializeRegions_layout m codeRegion :
  base_39 m -> 0 <= sp_data codeRegion -> 0 <= sp_size codeRegion <= 2 ^ 40 ->
  (is_ok (InitializeRegions m codeRegion) = true <->
     sp_data codeRegion mod 2 ^ 21 = 0 /\ sp_size codeRegion <= 0x100000000) /\
  forall m' calls, InitializeRegions m codeRegion = inr (m', calls) ->
    regions_39 m' (AlignUp (sp_size codeRegion) RegionAlignment) /\
    sp_size codeRegion <= sp_size (code m') /\
    sp_data (tlsIo m') + sp_size (tlsIo m') <= sp_data (base m') + sp_size (base m') /\
    chunks m' = chunks m.
Proof.
  intros Hb Hd Hsz. destruct (AlignUp_bounds (sp_size codeRegion) 21) as [Hcb Hcm]; [lia..|].
  change (2 ^ 21) with RegionAlignment in Hcb, Hcm.
  pose proof (IsAligned_pow2 (sp_data codeRegion) 21 ltac:(lia) Hd) as Hal.
  change (IsAligned _ (2 ^ 21)) with (IsAligned (sp_data codeRegion) RegionAlignment) in Hal.
  destruct (IsAligned (sp_data codeRegion) RegionAlignment) eqn:Ea.
  - destruct (InitializeRegions_39_eq m codeRegion Hb Ea Hsz) as (m1 & Hr & Hc & Hbase & _ & ->).
    change RegionAlignment with 2097152 in *. unfold ok, fail.
    destruct (Z.ltb_spec 0x100000000 (AlignUp (sp_size codeRegion) 2097152)) as [Hlt|Hge]; split.
    + split; [done|]. intros [_ Hle]. exfalso.
      assert (AlignUp (sp_size codeRegion) 2097152 <= 0x100000000); [|lia].
      pose proof (Z.div_mod (AlignUp (sp_size codeRegion) 2097152) 2097152 ltac:(lia)). lia.
    + done.
    + split; [|done]. intros _. split; [tauto|]. lia.
    + intros m' calls [= <- _]. destruct Hb as (_ & Hbs & Hb). rewrite Hbase, Hbs.
      pose proof Hr as (Hcode & _ & _ & _ & Ht). rewrite Hcode, Ht, Hbase; simpl. repeat split; try lia; try apply Hr. done.
  - unfold InitializeRegions. rewrite Ea. simpl. split; [|done]. split; [done|]. intros [? _]. naive_solver.
Qed.

Definition sample_regions_base : MemoryManager :=
  mk_mm [] (mk_span 0 (2 ^ 39)) (mk_span (2 ^ 35) 0x2300000000) null_span null_span null_span null_span null_span.

Lemma InitializeRegions_layout_witness :
  is_ok (InitializeRegions sample_regions_base (mk_span (2 ^ 35) 0x123000)) = true.
Proof.
  apply (InitializeRegions_layout sample_regions_base (mk_span (2 ^ 35) 0x123000)).
  - vm_compute. repeat split; congruence.
  - vm_compute. congruence.
  - vm_compute. split; congruence.
  - vm_compute. split; congruence.
Defined.

(** the tail of the carveout is never released.  Whenever the regions are smaller than the
    carveout, the call that should unmap the rest passes the end of the carveout as address and
    a length that wrapped below zero: at least 2^63 bytes. *)
Theorem InitializeRegions_munmap_wraps m codeRegion m' calls :
  base_39 m -> 0 <= sp_size codeRegion <= 2 ^ 40 ->
  InitializeRegions m codeRegion = inr (m', calls) ->
  sp_size (code m') <> 0x100000000 ->
  exists len, calls = [H_munmap (sp_data (base m) + sp_size (base m)) len] /\ 2 ^ 63 <= len < 2 ^ 64.
Proof.
  intros Hb Hsz E Hne. destruct (IsAligned (sp_data codeRegion) RegionAlignment) eqn:Ea.
  2:{ unfold InitializeRegions in E. by rewrite Ea in E. }
  destruct (InitializeRegions_39_eq m codeRegion Hb Ea Hsz) as (m1 & Hr & _ & _ & _ & E'). rewrite E' in E.
  destruct (AlignUp_bounds (sp_size codeRegion) 21) as [Hcb _]; [lia..|].
  change (2 ^ 21) with RegionAlignment in Hcb.
  destruct (Z.ltb_spec 0x100000000 (AlignUp (sp_size codeRegion) RegionAlignment)); [done|].
  injection E as <- <-. destruct Hr as (Hc & _). rewrite Hc in Hne. simpl in Hne.
  rewrite (proj2 (Z.eqb_neq _ _)) by done. destruct Hb as (_ & -> & _).
  eexists. split; [done|]. lia.
Qed.

Lemma InitializeRegions_munmap_wraps_witness :
  exists m' calls len, InitializeRegions sample_regions_base (mk_span (2 ^ 35) 0x123000) = inr (m', calls)
    /\ calls = [H_munmap (2 ^ 35 + 0x2300000000) len] /\ 2 ^ 63 <= len < 2 ^ 64.
Proof.
  do 2 eexists.
  destruct (InitializeRegions_munmap_wraps sample_regions_base (mk_span (2 ^ 35) 0x123000) _ _
    ltac:(vm_compute; repeat split; congruence) ltac:(vm_compute; split; congruence)
    ltac:(vm_compute; reflexivity) ltac:(vm_compute; congruence)) as (len & H1 & H2).
  exists len. split; [vm_compute; reflexivity|]. split; [exact H1|exact H2].
Defined.

(** ** Mirrors *)

Definition total_size (regions : list span) : Z := fold_right (fun r t => sp_size r + t) 0 regions.

(** The mappings that lay the regions out one after the other from [addr]. *)
Fixpoint mirror_plan (m : MemoryManager) (addr : Z) (regions : list span) : list hostcall :=
  match regions with
  | [] => []
  | r :: regions =>
      H_mmap addr (sp_size r) 7 (sp_data r - sp_data (base m)) :: mirror_plan m (addr + sp_size r) regions
  end.

Definition mapping_ok (m : MemoryManager) (r : span) : Prop :=
  sp_data (base m) <= sp_data r /\ sp_data r + sp_size r <= sp_data (base m) + sp_size (base m) /\
  (sp_data r - sp_data (base m)) mod 4096 = 0 /\ sp_size r mod 4096 = 0.

Definition base_bounded (m : MemoryManager) : Prop :=
  0 <= sp_data (base m) /\ 0 <= sp_size (base m) /\ sp_data (base m) + sp_size (base m) < 2 ^ 63.

Definition region_bounded (r : span) : Prop := 0 <= sp_data r < 2 ^ 63 /\ 0 <= sp_size r < 2 ^ 63.

Lemma check_mapping_spec m r :
  base_bounded m -> region_bounded r ->
  (check_mapping m r = inr (sp_data r - sp_data (base m)) /\ mapping_ok m r) \/
  (exists f, check_mapping m r = inl f /\ f <> Throw "Mirror size mismatch" /\ ~ mapping_ok m r).
Proof.
  intros (?&?&?) (?&?). unfold check_mapping, mapping_ok.
  rewrite !span_end_small by lia.
  destruct (Z.ltb_spec (sp_data r) (sp_data (base m))); simpl; [right; eexists; split; [done|]; split; [done|]; lia|].
  destruct (Z.ltb_spec (sp_data (base m) + sp_size (base m)) (sp_data r + sp_size r)); simpl;
    [right; eexists; split; [done|]; split; [done|]; lia|].
  rewrite (wrap_small 64) by lia.
  pose proof (IsPageAligned_spec (sp_data r - sp_data (base m)) ltac:(lia)).
  pose proof (IsPageAligned_spec (sp_size r) ltac:(lia)).
  destruct (IsPageAligned (sp_data r - sp_data (base m))); simpl; [|right; naive_solver].
  destruct (IsPageAligned (sp_size r)); simpl; [|right; naive_solver].
  left. split; [done|]. naive_solver.
Qed.

Lemma total_size_nonneg regions : Forall region_bounded regions -> 0 <= total_size regions.
Proof. induction 1 as [|r rs [_ ?] _ IH]; simpl; lia. Qed.

Lemma fold_total regions off :
  Forall region_bounded regions -> 0 <= off -> off + total_size regions < 2 ^ 64 ->
  fold_left (fun t r => u64 (t + sp_size r)) regions off = off + total_size regions.
Proof.
  intros Hr. revert off. induction Hr as [|r rs [_ ?] Hrs IH]; simpl; intros off H0 H1; [lia|].
  pose proof (total_size_nonneg _ Hrs). rewrite wrap_small by lia. rewrite IH by lia. lia.
Qed.

(** Why a mirror cannot be made: a region that does not fit, or a mapping the host refuses. *)
Definition mirror_refused (m : MemoryManager) (mmap_fixed_ok : Z -> Z -> bool) (regions : list span) : Prop :=
  ~ Forall (mapping_ok m) regions \/ exists addr size, mmap_fixed_ok addr size = false.

Lemma mirror_refused_cons m fx r regions : mirror_refused m fx regions -> mirror_refused m fx (r :: regions).
Proof. intros [H|H]; [left|by right]. intros HF. apply H. by inversion HF. Qed.

Lemma mirror_loop m fx mb regions off calls :
  base_bounded m -> Forall region_bounded regions -> 0 <= off -> 0 <= mb ->
  mb + off + total_size regions < 2 ^ 64 ->
  match foldM (mirror_step m fx mb) regions (off, calls) with
  | inr (off', calls') =>
      Forall (mapping_ok m) regions /\ off' = off + total_size regions /\
      calls' = calls ++ mirror_plan m (mb + off) regions
  | inl f => f <> Throw "Mirror size mismatch" /\ mirror_refused m fx regions
  end.
Proof.
  intros Hb Hr. revert off calls. induction Hr as [|r rs Hrb Hrs IH]; intros off calls H0 Hm H1; simpl in *.
  - repeat split; [done|lia|by rewrite app_nil_r].
  - pose proof (total_size_nonneg _ Hrs). destruct Hrb as [? ?].
    destruct (check_mapping_spec m r Hb ltac:(done)) as [[-> Hok]|(f & -> & Hf & Hno)]; simpl;
      [|split; [done|left; intros HF; by inversion HF]].
    rewrite !(wrap_small 64) by lia.
    destruct (fx (mb + off) (sp_size r)) eqn:Hfx; simpl; [|split; [done|right; eauto]].
    specialize (IH (off + sp_size r) (calls ++ [H_mmap (mb + off) (sp_size r) 7 (sp_data r - sp_data (base m))])
      ltac:(lia) Hm ltac:(lia)).
    destruct (foldM _ _ _) as [f|[off' calls']];
      [destruct IH as [? ?]; split; [done|by apply mirror_refused_cons]|]. destruct IH as (Hf & -> & ->).
    split; [by constructor|]. split; [lia|]. rewrite <- app_assoc. simpl. by rewrite Z.add_assoc.
Qed.

(** [CreateMirrors] lays the regions out contiguously.  On success every region is page
    aligned inside the VMM base, the host calls are one reservation followed by the fixed
    mappings of the regions one after the other at the right file offsets, and the span
    returned is the whole reservation.  It fails only when a region does not fit or the host
    refuses a mapping, and the "size mismatch" exception can never be thrown. *)
Theorem CreateMirrors_contiguous m mmap fx regions mb :
  base_bounded m -> Forall region_bounded regions ->
  mmap (total_size regions) = Some mb -> 0 <= mb -> mb + total_size regions < 2 ^ 64 ->
  match CreateMirrors m mmap fx regions with
  | inr (sp, calls) =>
      Forall (mapping_ok m) regions /\ sp = mk_span mb (total_size regions) /\
      calls = H_mmap_reserve (total_size regions) :: mirror_plan m mb regions
  | inl f => f <> Throw "Mirror size mismatch" /\ mirror_refused m fx regions
  end.
Proof.
  intros Hb Hr Hmm H0 H1. pose proof (total_size_nonneg _ Hr).
  unfold CreateMirrors. rewrite (fold_total regions 0), Z.add_0_l by (done || lia). rewrite Hmm.
  pose proof (mirror_loop m fx mb regions 0 [H_mmap_reserve (total_size regions)] Hb Hr ltac:(lia) H0 ltac:(lia)) as L.
  destruct (foldM _ _ _) as [f|[off calls]]; simpl; [done|]. destruct L as (Hok & -> & ->).
  rewrite Z.add_0_l, Z.eqb_refl, Z.add_0_r. done.
Qed.

Lemma CreateMirrors_contiguous_witness :
  let regions := [mk_span 0x800001000 0x2000; mk_span 0x800008000 0x1000] in
  CreateMirrors sample_manager (fun _ => Some 0x7000000000) (fun _ _ => true) regions
  = inr (mk_span 0x7000000000 0x3000,
         H_mmap_reserve 0x3000 :: mirror_plan sample_manager 0x7000000000 regions).
Proof.
  pose proof (CreateMirrors_contiguous sample_manager (fun _ => Some 0x7000000000) (fun _ _ => true)
    [mk_span 0x800001000 0x2000; mk_span 0x800008000 0x1000] 0x7000000000
    ltac:(vm_compute; repeat split; congruence)
    ltac:(repeat constructor; vm_compute; congruence) eq_refl ltac:(lia) ltac:(vm_compute; congruence)) as H.
  simpl. destruct (CreateMirrors _ _ _ _) as [f|[sp calls]] eqn:E; [vm_compute in E; discriminate|].
  destruct H as (_ & -> & ->). reflexivity.
Defined.

(** an insertion may leave an empty chunk behind.  Inserting an incompatible chunk over a
    smaller one that starts at the same address shrinks the old chunk to size zero instead of
    removing it, so the list [GetSystemResourceUsage] counts grows. *)
Theorem InsertChunk_leaves_empty_chunk :
  exists m', InsertChunks sample_manager
      [mk_chunk 0x800001000 0x1000 (mk_perm true true false) states_Heap 0;
       mk_chunk 0x800001000 0x2000 (mk_perm true false false) states_Stack 0] = inr m' /\
    mk_chunk 0x800001000 0 (mk_perm true true false) states_Heap 0 ∈ chunks m' /\
    length (chunks m') = 6%nat.
Proof.
  eexists. split; [vm_compute; reflexivity|]. split; [|reflexivity].
  do 2 right. left.
Qed.
