(* ===== verification/Scheduler.v ===== *)
(** * Threads and the scheduler ([kernel/types/KThread.{h,cpp}], [kernel/scheduler.{h,cpp}])

    One host thread runs each guest thread; a core is a queue of threads whose front is the
    one allowed to run.  Every operation below is the body of the C++ function under its
    locks, as a function on the scheduler state; what it tells other host threads
    (condition variables, signals, timers) is appended to [events].  A wait is split into
    the test it repeats and what follows it. *)

From stdpp Require Import sorting.
From S2P Require Import Prelude Common.

(** ** State *)

(** [waitKey] 0 is the null pointer; [YieldPending] is the thread-local flag of the scheduler. *)
Record KThread : Type := mk_thread {
  t_id : Z;
  t_handle : Z;
  t_entry : Z;
  t_entryArgument : Z;
  t_stackTop : Z;
  t_running : bool;
  t_ready : bool;
  t_killed : bool;
  t_basePriority : Z;
  t_priority : Z;
  t_idealCore : Z;
  t_coreId : Z;
  t_affinityMask : Z;
  t_timesliceStart : Z;
  t_averageTimeslice : Z;
  t_isPreempted : bool;
  t_pendingYield : bool;
  t_forceYield : bool;
  t_waitKey : Z;
  t_waitTag : Z;
  t_waitThread : option Z;
  t_waiters : list Z;
  t_isCancellable : bool;
  t_cancelSync : bool;
  t_wakeObject : option Z;
  t_isPaused : bool;
  t_insertThreadOnResume : bool;
  t_YieldPending : bool }.

Definition set_t_id (v : Z) (r : KThread) : KThread :=
  mk_thread v (t_handle r) (t_entry r) (t_entryArgument r) (t_stackTop r) (t_running r) (t_ready r) (t_killed r) (t_basePriority r) (t_priority r) (t_idealCore r) (t_coreId r) (t_affinityMask r) (t_timesliceStart r) (t_averageTimeslice r) (t_isPreempted r) (t_pendingYield r) (t_forceYield r) (t_waitKey r) (t_waitTag r) (t_waitThread r) (t_waiters r) (t_isCancellable r) (t_cancelSync r) (t_wakeObject r) (t_isPaused r) (t_insertThreadOnResume r) (t_YieldPending r).
Definition set_t_handle (v : Z) (r : KThread) : KThread :=
  mk_thread (t_id r) v (t_entry r) (t_entryArgument r) (t_stackTop r) (t_running r) (t_ready r) (t_killed r) (t_basePriority r) (t_priority r) (t_idealCore r) (t_coreId r) (t_affinityMask r) (t_timesliceStart r) (t_averageTimeslice r) (t_isPreempted r) (t_pendingYield r) (t_forceYield r) (t_waitKey r) (t_waitTag r) (t_waitThread r) (t_waiters r) (t_isCancellable r) (t_cancelSync r) (t_wakeObject r) (t_isPaused r) (t_insertThreadOnResume r) (t_YieldPending r).
Definition set_t_entry (v : Z) (r : KThread) : KThread :=
  mk_thread (t_id r) (t_handle r) v (t_entryArgument r) (t_stackTop r) (t_running r) (t_ready r) (t_killed r) (t_basePriority r) (t_priority r) (t_idealCore r) (t_coreId r) (t_affinityMask r) (t_timesliceStart r) (t_averageTimeslice r) (t_isPreempted r) (t_pendingYield r) (t_forceYield r) (t_waitKey r) (t_waitTag r) (t_waitThread r) (t_waiters r) (t_isCancellable r) (t_cancelSync r) (t_wakeObject r) (t_isPaused r) (t_insertThreadOnResume r) (t_YieldPending r).
Definition set_t_entryArgument (v : Z) (r : KThread) : KThread :=
  mk_thread (t_id r) (t_handle r) (t_entry r) v (t_stackTop r) (t_running r) (t_ready r) (t_killed r) (t_basePriority r) (t_priority r) (t_idealCore r) (t_coreId r) (t_affinityMask r) (t_timesliceStart r) (t_averageTimeslice r) (t_isPreempted r) (t_pendingYield r) (t_forceYield r) (t_waitKey r) (t_waitTag r) (t_waitThread r) (t_waiters r) (t_isCancellable r) (t_cancelSync r) (t_wakeObject r) (t_isPaused r) (t_insertThreadOnResume r) (t_YieldPending r).
Definition set_t_stackTop (v : Z) (r : KThread) : KThread :=
  mk_thread (t_id r) (t_handle r) (t_entry r) (t_entryArgument r) v (t_running r) (t_ready r) (t_killed r) (t_basePriority r) (t_priority r) (t_idealCore r) (t_coreId r) (t_affinityMask r) (t_timesliceStart r) (t_averageTimeslice r) (t_isPreempted r) (t_pendingYield r) (t_forceYield r) (t_waitKey r) (t_waitTag r) (t_waitThread r) (t_waiters r) (t_isCancellable r) (t_cancelSync r) (t_wakeObject r) (t_isPaused r) (t_insertThreadOnResume r) (t_YieldPending r).
Definition set_t_running (v : bool) (r : KThread) : KThread :=
  mk_thread (t_id r) (t_handle r) (t_entry r) (t_entryArgument r) (t_stackTop r) v (t_ready r) (t_killed r) (t_basePriority r) (t_priority r) (t_idealCore r) (t_coreId r) (t_affinityMask r) (t_timesliceStart r) (t_averageTimeslice r) (t_isPreempted r) (t_pendingYield r) (t_forceYield r) (t_waitKey r) (t_waitTag r) (t_waitThread r) (t_waiters r) (t_isCancellable r) (t_cancelSync r) (t_wakeObject r) (t_isPaused r) (t_insertThreadOnResume r) (t_YieldPending r).
Definition set_t_ready (v : bool) (r : KThread) : KThread :=
  mk_thread (t_id r) (t_handle r) (t_entry r) (t_entryArgument r) (t_stackTop r) (t_running r) v (t_killed r) (t_basePriority r) (t_priority r) (t_idealCore r) (t_coreId r) (t_affinityMask r) (t_timesliceStart r) (t_averageTimeslice r) (t_isPreempted r) (t_pendingYield r) (t_forceYield r) (t_waitKey r) (t_waitTag r) (t_waitThread r) (t_waiters r) (t_isCancellable r) (t_cancelSync r) (t_wakeObject r) (t_isPaused r) (t_insertThreadOnResume r) (t_YieldPending r).
Definition set_t_killed (v : bool) (r : KThread) : KThread :=
  mk_thread (t_id r) (t_handle r) (t_entry r) (t_entryArgument r) (t_stackTop r) (t_running r) (t_ready r) v (t_basePriority r) (t_priority r) (t_idealCore r) (t_coreId r) (t_affinityMask r) (t_timesliceStart r) (t_averageTimeslice r) (t_isPreempted r) (t_pendingYield r) (t_forceYield r) (t_waitKey r) (t_waitTag r) (t_waitThread r) (t_waiters r) (t_isCancellable r) (t_cancelSync r) (t_wakeObject r) (t_isPaused r) (t_insertThreadOnResume r) (t_YieldPending r).
Definition set_t_basePriority (v : Z) (r : KThread) : KThread :=
  mk_thread (t_id r) (t_handle r) (t_entry r) (t_entryArgument r) (t_stackTop r) (t_running r) (t_ready r) (t_killed r) v (t_priority r) (t_idealCore r) (t_coreId r) (t_affinityMask r) (t_timesliceStart r) (t_averageTimeslice r) (t_isPreempted r) (t_pendingYield r) (t_forceYield r) (t_waitKey r) (t_waitTag r) (t_waitThread r) (t_waiters r) (t_isCancellable r) (t_cancelSync r) (t_wakeObject r) (t_isPaused r) (t_insertThreadOnResume r) (t_YieldPending r).
Definition set_t_priority (v : Z) (r : KThread) : KThread :=
  mk_thread (t_id r) (t_handle r) (t_entry r) (t_entryArgument r) (t_stackTop r) (t_running r) (t_ready r) (t_killed r) (t_basePriority r) v (t_idealCore r) (t_coreId r) (t_affinityMask r) (t_timesliceStart r) (t_averageTimeslice r) (t_isPreempted r) (t_pendingYield r) (t_forceYield r) (t_waitKey r) (t_waitTag r) (t_waitThread r) (t_waiters r) (t_isCancellable r) (t_cancelSync r) (t_wakeObject r) (t_isPaused r) (t_insertThreadOnResume r) (t_YieldPending r).
Definition set_t_idealCore (v : Z) (r : KThread) : KThread :=
  mk_thread (t_id r) (t_handle r) (t_entry r) (t_entryArgument r) (t_stackTop r) (t_running r) (t_ready r) (t_killed r) (t_basePriority r) (t_priority r) v (t_coreId r) (t_affinityMask r) (t_timesliceStart r) (t_averageTimeslice r) (t_isPreempted r) (t_pendingYield r) (t_forceYield r) (t_waitKey r) (t_waitTag r) (t_waitThread r) (t_waiters r) (t_isCancellable r) (t_cancelSync r) (t_wakeObject r) (t_isPaused r) (t_insertThreadOnResume r) (t_YieldPending r).
Definition set_t_coreId (v : Z) (r : KThread) : KThread :=
  mk_thread (t_id r) (t_handle r) (t_entry r) (t_entryArgument r) (t_stackTop r) (t_running r) (t_ready r) (t_killed r) (t_basePriority r) (t_priority r) (t_idealCore r) v (t_affinityMask r) (t_timesliceStart r) (t_averageTimeslice r) (t_isPreempted r) (t_pendingYield r) (t_forceYield r) (t_waitKey r) (t_waitTag r) (t_waitThread r) (t_waiters r) (t_isCancellable r) (t_cancelSync r) (t_wakeObject r) (t_isPaused r) (t_insertThreadOnResume r) (t_YieldPending r).
Definition set_t_affinityMask (v : Z) (r : KThread) : KThread :=
  mk_thread (t_id r) (t_handle r) (t_entry r) (t_entryArgument r) (t_stackTop r) (t_running r) (t_ready r) (t_killed r) (t_basePriority r) (t_priority r) (t_idealCore r) (t_coreId r) v (t_timesliceStart r) (t_averageTimeslice r) (t_isPreempted r) (t_pendingYield r) (t_forceYield r) (t_waitKey r) (t_waitTag r) (t_waitThread r) (t_waiters r) (t_isCancellable r) (t_cancelSync r) (t_wakeObject r) (t_isPaused r) (t_insertThreadOnResume r) (t_YieldPending r).
Definition set_t_timesliceStart (v : Z) (r : KThread) : KThread :=
  mk_thread (t_id r) (t_handle r) (t_entry r) (t_entryArgument r) (t_stackTop r) (t_running r) (t_ready r) (t_killed r) (t_basePriority r) (t_priority r) (t_idealCore r) (t_coreId r) (t_affinityMask r) v (t_averageTimeslice r) (t_isPreempted r) (t_pendingYield r) (t_forceYield r) (t_waitKey r) (t_waitTag r) (t_waitThread r) (t_waiters r) (t_isCancellable r) (t_cancelSync r) (t_wakeObject r) (t_isPaused r) (t_insertThreadOnResume r) (t_YieldPending r).
Definition set_t_averageTimeslice (v : Z) (r : KThread) : KThread :=
  mk_thread (t_id r) (t_handle r) (t_entry r) (t_entryArgument r) (t_stackTop r) (t_running r) (t_ready r) (t_killed r) (t_basePriority r) (t_priority r) (t_idealCore r) (t_coreId r) (t_affinityMask r) (t_timesliceStart r) v (t_isPreempted r) (t_pendingYield r) (t_forceYield r) (t_waitKey r) (t_waitTag r) (t_waitThread r) (t_waiters r) (t_isCancellable r) (t_cancelSync r) (t_wakeObject r) (t_isPaused r) (t_insertThreadOnResume r) (t_YieldPending r).
Definition set_t_isPreempted (v : bool) (r : KThread) : KThread :=
  mk_thread (t_id r) (t_handle r) (t_entry r) (t_entryArgument r) (t_stackTop r) (t_running r) (t_ready r) (t_killed r) (t_basePriority r) (t_priority r) (t_idealCore r) (t_coreId r) (t_affinityMask r) (t_timesliceStart r) (t_averageTimeslice r) v (t_pendingYield r) (t_forceYield r) (t_waitKey r) (t_waitTag r) (t_waitThread r) (t_waiters r) (t_isCancellable r) (t_cancelSync r) (t_wakeObject r) (t_isPaused r) (t_insertThreadOnResume r) (t_YieldPending r).
Definition set_t_pendingYield (v : bool) (r : KThread) : KThread :=
  mk_thread (t_id r) (t_handle r) (t_entry r) (t_entryArgument r) (t_stackTop r) (t_running r) (t_ready r) (t_killed r) (t_basePriority r) (t_priority r) (t_idealCore r) (t_coreId r) (t_affinityMask r) (t_timesliceStart r) (t_averageTimeslice r) (t_isPreempted r) v (t_forceYield r) (t_waitKey r) (t_waitTag r) (t_waitThread r) (t_waiters r) (t_isCancellable r) (t_cancelSync r) (t_wakeObject r) (t_isPaused r) (t_insertThreadOnResume r) (t_YieldPending r).
Definition set_t_forceYield (v : bool) (r : KThread) : KThread :=
  mk_thread (t_id r) (t_handle r) (t_entry r) (t_entryArgument r) (t_stackTop r) (t_running r) (t_ready r) (t_killed r) (t_basePriority r) (t_priority r) (t_idealCore r) (t_coreId r) (t_affinityMask r) (t_timesliceStart r) (t_averageTimeslice r) (t_isPreempted r) (t_pendingYield r) v (t_waitKey r) (t_waitTag r) (t_waitThread r) (t_waiters r) (t_isCancellable r) (t_cancelSync r) (t_wakeObject r) (t_isPaused r) (t_insertThreadOnResume r) (t_YieldPending r).
Definition set_t_waitKey (v : Z) (r : KThread) : KThread :=
  mk_thread (t_id r) (t_handle r) (t_entry r) (t_entryArgument r) (t_stackTop r) (t_running r) (t_ready r) (t_killed r) (t_basePriority r) (t_priority r) (t_idealCore r) (t_coreId r) (t_affinityMask r) (t_timesliceStart r) (t_averageTimeslice r) (t_isPreempted r) (t_pendingYield r) (t_forceYield r) v (t_waitTag r) (t_waitThread r) (t_waiters r) (t_isCancellable r) (t_cancelSync r) (t_wakeObject r) (t_isPaused r) (t_insertThreadOnResume r) (t_YieldPending r).
Definition set_t_waitTag (v : Z) (r : KThread) : KThread :=
  mk_thread (t_id r) (t_handle r) (t_entry r) (t_entryArgument r) (t_stackTop r) (t_running r) (t_ready r) (t_killed r) (t_basePriority r) (t_priority r) (t_idealCore r) (t_coreId r) (t_affinityMask r) (t_timesliceStart r) (t_averageTimeslice r) (t_isPreempted r) (t_pendingYield r) (t_forceYield r) (t_waitKey r) v (t_waitThread r) (t_waiters r) (t_isCancellable r) (t_cancelSync r) (t_wakeObject r) (t_isPaused r) (t_insertThreadOnResume r) (t_YieldPending r).
Definition set_t_waitThread (v : option Z) (r : KThread) : KThread :=
  mk_thread (t_id r) (t_handle r) (t_entry r) (t_entryArgument r) (t_stackTop r) (t_running r) (t_ready r) (t_killed r) (t_basePriority r) (t_priority r) (t_idealCore r) (t_coreId r) (t_affinityMask r) (t_timesliceStart r) (t_averageTimeslice r) (t_isPreempted r) (t_pendingYield r) (t_forceYield r) (t_waitKey r) (t_waitTag r) v (t_waiters r) (t_isCancellable r) (t_cancelSync r) (t_wakeObject r) (t_isPaused r) (t_insertThreadOnResume r) (t_YieldPending r).
Definition set_t_waiters (v : list Z) (r : KThread) : KThread :=
  mk_thread (t_id r) (t_handle r) (t_entry r) (t_entryArgument r) (t_stackTop r) (t_running r) (t_ready r) (t_killed r) (t_basePriority r) (t_priority r) (t_idealCore r) (t_coreId r) (t_affinityMask r) (t_timesliceStart r) (t_averageTimeslice r) (t_isPreempted r) (t_pendingYield r) (t_forceYield r) (t_waitKey r) (t_waitTag r) (t_waitThread r) v (t_isCancellable r) (t_cancelSync r) (t_wakeObject r) (t_isPaused r) (t_insertThreadOnResume r) (t_YieldPending r).
Definition set_t_isCancellable (v : bool) (r : KThread) : KThread :=
  mk_thread (t_id r) (t_handle r) (t_entry r) (t_entryArgument r) (t_stackTop r) (t_running r) (t_ready r) (t_killed r) (t_basePriority r) (t_priority r) (t_idealCore r) (t_coreId r) (t_affinityMask r) (t_timesliceStart r) (t_averageTimeslice r) (t_isPreempted r) (t_pendingYield r) (t_forceYield r) (t_waitKey r) (t_waitTag r) (t_waitThread r) (t_waiters r) v (t_cancelSync r) (t_wakeObject r) (t_isPaused r) (t_insertThreadOnResume r) (t_YieldPending r).
Definition set_t_cancelSync (v : bool) (r : KThread) : KThread :=
  mk_thread (t_id r) (t_handle r) (t_entry r) (t_entryArgument r) (t_stackTop r) (t_running r) (t_ready r) (t_killed r) (t_basePriority r) (t_priority r) (t_idealCore r) (t_coreId r) (t_affinityMask r) (t_timesliceStart r) (t_averageTimeslice r) (t_isPreempted r) (t_pendingYield r) (t_forceYield r) (t_waitKey r) (t_waitTag r) (t_waitThread r) (t_waiters r) (t_isCancellable r) v (t_wakeObject r) (t_isPaused r) (t_insertThreadOnResume r) (t_YieldPending r).
Definition set_t_wakeObject (v : option Z) (r : KThread) : KThread :=
  mk_thread (t_id r) (t_handle r) (t_entry r) (t_entryArgument r) (t_stackTop r) (t_running r) (t_ready r) (t_killed r) (t_basePriority r) (t_priority r) (t_idealCore r) (t_coreId r) (t_affinityMask r) (t_timesliceStart r) (t_averageTimeslice r) (t_isPreempted r) (t_pendingYield r) (t_forceYield r) (t_waitKey r) (t_waitTag r) (t_waitThread r) (t_waiters r) (t_isCancellable r) (t_cancelSync r) v (t_isPaused r) (t_insertThreadOnResume r) (t_YieldPending r).
Definition set_t_isPaused (v : bool) (r : KThread) : KThread :=
  mk_thread (t_id r) (t_handle r) (t_entry r) (t_entryArgument r) (t_stackTop r) (t_running r) (t_ready r) (t_killed r) (t_basePriority r) (t_priority r) (t_idealCore r) (t_coreId r) (t_affinityMask r) (t_timesliceStart r) (t_averageTimeslice r) (t_isPreempted r) (t_pendingYield r) (t_forceYield r) (t_waitKey r) (t_waitTag r) (t_waitThread r) (t_waiters r) (t_isCancellable r) (t_cancelSync r) (t_wakeObject r) v (t_insertThreadOnResume r) (t_YieldPending r).
Definition set_t_insertThreadOnResume (v : bool) (r : KThread) : KThread :=
  mk_thread (t_id r) (t_handle r) (t_entry r) (t_entryArgument r) (t_stackTop r) (t_running r) (t_ready r) (t_killed r) (t_basePriority r) (t_priority r) (t_idealCore r) (t_coreId r) (t_affinityMask r) (t_timesliceStart r) (t_averageTimeslice r) (t_isPreempted r) (t_pendingYield r) (t_forceYield r) (t_waitKey r) (t_waitTag r) (t_waitThread r) (t_waiters r) (t_isCancellable r) (t_cancelSync r) (t_wakeObject r) (t_isPaused r) v (t_YieldPending r).
Definition set_t_YieldPending (v : bool) (r : KThread) : KThread :=
  mk_thread (t_id r) (t_handle r) (t_entry r) (t_entryArgument r) (t_stackTop r) (t_running r) (t_ready r) (t_killed r) (t_basePriority r) (t_priority r) (t_idealCore r) (t_coreId r) (t_affinityMask r) (t_timesliceStart r) (t_averageTimeslice r) (t_isPreempted r) (t_pendingYield r) (t_forceYield r) (t_waitKey r) (t_waitTag r) (t_waitThread r) (t_waiters r) (t_isCancellable r) (t_cancelSync r) (t_wakeObject r) (t_isPaused r) (t_insertThreadOnResume r) v.

Definition new_thread (handle id entry argument stackTop priority idealCore : Z) : KThread :=
  mk_thread id handle entry argument stackTop false false false priority priority
    idealCore idealCore (Z.shiftl 1 idealCore) 0 0 false false false
    0 0 None [] false false None false false false.

#[global] Instance KThread_inhabited : Inhabited KThread := populate (new_thread 0 0 0 0 0 0 0).

Definition CoreCount : Z := 4.
Definition ParkedCoreId : Z := CoreCount.

Record CoreContext : Type := mk_core { core_id : Z; preemptionPriority : Z; core_queue : list Z }.

Inductive sched_event : Type :=
| Notify (thread : Z)
| YieldSignalTo (thread : Z)
| ArmTimer (thread : Z)
| DisarmTimer (thread : Z)
| KillSignalTo (thread : Z)
| HostThreadStarted (thread : Z).

Record Scheduler : Type := mk_sched {
  cores : list CoreContext;
  parkedQueue : list Z;
  threads : gmap Z KThread;
  events : list sched_event }.

Definition initial_cores : list CoreContext :=
  [mk_core 0 59 []; mk_core 1 59 []; mk_core 2 59 []; mk_core 3 63 []].

Definition empty_scheduler : Scheduler := mk_sched initial_cores [] ∅ [].

(** ** Access *)

Definition thr (s : Scheduler) (t : Z) : KThread := threads s !!! t.
Definition prio (s : Scheduler) (t : Z) : Z := t_priority (thr s t).

Definition set_thr (t : Z) (f : KThread -> KThread) (s : Scheduler) : Scheduler :=
  mk_sched (cores s) (parkedQueue s) (<[t := f (thr s t)]> (threads s)) (events s).

Definition emit (e : sched_event) (s : Scheduler) : Scheduler :=
  mk_sched (cores s) (parkedQueue s) (threads s) (events s ++ [e]).

Definition set_parked (q : list Z) (s : Scheduler) : Scheduler :=
  mk_sched (cores s) q (threads s) (events s).

(** [cores.at(id)]. *)
Definition core_at (s : Scheduler) (id : Z) : M CoreContext :=
  if id <? 0 then fail Throw_out_of_range
  else from_opt Throw_out_of_range (cores s !! Z.to_nat id).

Definition set_queue (id : Z) (q : list Z) (s : Scheduler) : Scheduler :=
  mk_sched (alter (fun c => mk_core (core_id c) (preemptionPriority c) q) (Z.to_nat id) (cores s))
    (parkedQueue s) (threads s) (events s).

(** ** Queues: lists of threads ordered by priority *)

(** [KThread::IsHigherPriority]. *)
Definition IsHigherPriority (s : Scheduler) (priority : Z) (it : Z) : bool := priority <? prio s it.

(** Position at which [std::upper_bound] places a thread of the given priority. *)
Definition queue_bound (s : Scheduler) (priority : Z) (q : list Z) : nat :=
  upper_bound (IsHigherPriority s priority) q.

Definition insert_at {A} (i : nat) (x : A) (l : list A) : list A := take i l ++ x :: drop i l.

(** [queue.splice(pos, queue, queue.begin())]. *)
Definition splice_front {A} (i : nat) (l : list A) : list A :=
  match i, l with
  | S i, x :: l' => take i l' ++ x :: drop i l'
  | _, _ => l
  end.

(** [std::find] and [erase]: the index of the first occurrence and the list without it. *)
Fixpoint index_of (x : Z) (l : list Z) : option nat :=
  match l with
  | [] => None
  | y :: l => if x =? y then Some 0%nat else S <$> index_of x l
  end.

Definition erase_at {A} (i : nat) (l : list A) : list A := take i l ++ drop (S i) l.

(** ** Priorities *)

Record Priority : Type := mk_priority { prio_min : Z; prio_max : Z }.

(** Shifts by the amounts of a valid range, 0 <= min <= max < 64. *)
Definition Priority_Mask (p : Priority) : Z :=
  u64 (Z.shiftl (Z.shiftr (2 ^ 64 - 1) ((63 + prio_min p) - prio_max p)) (prio_min p)).

Definition Priority_Valid (p : Priority) (value : Z) : bool :=
  (prio_min p <=? value) && (value <=? prio_max p).

(** ** Signals and timers of a thread *)

(** [SendSignal], [ArmPreemptionTimer] and [DisarmPreemptionTimer] first wait for the host
    thread to be [ready] or [killed]; the wait changes nothing. *)
Definition SendSignal (t : Z) (s : Scheduler) : Scheduler :=
  if negb (t_killed (thr s t)) && t_running (thr s t) then emit (YieldSignalTo t) s else s.

Definition ArmPreemptionTimer (t : Z) (s : Scheduler) : Scheduler :=
  if negb (t_killed (thr s t)) && t_running (thr s t)
  then set_thr t (set_t_isPreempted true) (emit (ArmTimer t) s) else s.

Definition DisarmPreemptionTimer (t : Z) (s : Scheduler) : Scheduler :=
  if negb (t_isPreempted (thr s t)) then s
  else if negb (t_killed (thr s t)) && t_running (thr s t)
  then set_thr t (set_t_isPreempted false) (emit (DisarmTimer t) s) else s.

(** ** Core masks: [std::bitset<4>] *)

Definition mask_test (mask i : Z) : M bool :=
  if (0 <=? i) && (i <? CoreCount) then ok (bit mask i) else fail Throw_out_of_range.

Definition mask_count (mask : Z) : Z :=
  Z.b2z (bit mask 0) + Z.b2z (bit mask 1) + Z.b2z (bit mask 2) + Z.b2z (bit mask 3).

(** ** Choosing a core; [now] is the host tick counter *)

Definition running_timeslice (now : Z) (r : KThread) : Z :=
  if negb (t_averageTimeslice r =? 0)
  then Z.min (u64 (t_averageTimeslice r - u64 (now - t_timesliceStart r))) 1
  else if negb (t_timesliceStart r =? 0) then u64 (now - t_timesliceStart r)
  else 1.

Definition candidate_timeslice (now : Z) (s : Scheduler) (t : Z) (c : CoreContext) : Z :=
  match core_queue c with
  | [] => 0
  | front :: rest =>
      fold_left (fun ts r =>
        if prio s r <=? prio s t
        then u64 (ts + (if negb (t_averageTimeslice (thr s r) =? 0) then t_averageTimeslice (thr s r) else 1))
        else ts) rest (running_timeslice now (thr s front))
  end.

Definition consider_core (now : Z) (s : Scheduler) (t currentCore : Z)
    (best : option (Z * Z)) (c : CoreContext) : option (Z * Z) :=
  if bit (t_affinityMask (thr s t)) (core_id c) then
    let timeslice := candidate_timeslice now s t c in
    match best with
    | None => Some (core_id c, timeslice)
    | Some (_, minTimeslice) =>
        if (timeslice <? minTimeslice) || ((timeslice =? minTimeslice) && (core_id c =? currentCore))
        then Some (core_id c, timeslice) else best
    end
  else best.

Definition GetOptimalCoreForThread (now : Z) (t : Z) (s : Scheduler) : M Z :=
  let! currentCore := core_at s (t_coreId (thr s t)) in
  if negb (length (core_queue currentCore) =? 0)%nat && negb (mask_count (t_affinityMask (thr s t)) =? 1) then
    match fold_left (consider_core now s t (core_id currentCore)) (cores s) None with
    | Some (optimalCore, _) => ok optimalCore
    | None => fail (Undefined "GetOptimalCoreForThread: null optimalCore")
    end
  else ok (core_id currentCore).

(** ** Inserting and removing; [cur] is the calling guest thread, if any *)

Definition InsertThread_enqueue (cur : option Z) (t : Z) (s : Scheduler) : M Scheduler :=
  let! core := core_at s (t_coreId (thr s t)) in
  let q := core_queue core in
  match queue_bound s (prio s t) q with
  | O =>
      let s := match q with
        | front :: _ =>
            let s := set_thr front (set_t_forceYield true) s in
            let q := splice_front (queue_bound s (prio s front) q) q in
            let s := set_queue (core_id core) (t :: q) s in
            if decide (cur = Some front) then set_thr front (set_t_YieldPending true) s
            else if negb (t_pendingYield (thr s front))
            then set_thr front (set_t_pendingYield true) (SendSignal front s) else s
        | [] => set_queue (core_id core) [t] s
        end in
      ok (if decide (cur = Some t) then s else emit (Notify t) s)
  | i => ok (set_queue (core_id core) (insert_at i t q) s)
  end.

(** The boolean is [false] when the thread is paused: the caller is then blocked until the
    thread is resumed, and continues with [InsertThread_enqueue]. *)
Definition InsertThread (cur : option Z) (t : Z) (s : Scheduler) : M (Scheduler * bool) :=
  let! _ := core_at s (t_coreId (thr s t)) in
  if t_isPaused (thr s t) then ok (set_thr t (set_t_insertThreadOnResume false) s, false)
  else let! s := InsertThread_enqueue cur t s in ok (s, true).

(** The running average as the code computes it. *)
Definition next_average (now : Z) (r : KThread) : Z :=
  u64 (t_averageTimeslice r / 4 + u64 (3 * u64 (now - t_timesliceStart r / 4))).

Definition update_average (now t : Z) (s : Scheduler) : Scheduler :=
  set_thr t (set_t_averageTimeslice (next_average now (thr s t))) s.

Definition clear_yield (t : Z) (s : Scheduler) : Scheduler :=
  set_thr t (set_t_forceYield false) (set_thr t (set_t_pendingYield false) (DisarmPreemptionTimer t s)).

Definition RemoveThread (now cur : Z) (s : Scheduler) : M Scheduler :=
  let! core := core_at s (t_coreId (thr s cur)) in
  let s :=
    match index_of cur (core_queue core) with
    | None => s
    | Some i =>
        let q := erase_at i (core_queue core) in
        let s := set_queue (core_id core) q s in
        match i with
        | O =>
            let s := if negb (t_timesliceStart (thr s cur) =? 0) then update_average now cur s else s in
            match q with it :: _ => emit (Notify it) s | [] => s end
        | S _ => s
        end
    end in
  ok (set_thr cur (set_t_YieldPending false) (clear_yield cur s)).

Definition Rotate (now cur : Z) (s : Scheduler) : M Scheduler :=
  let! core := core_at s (t_coreId (thr s cur)) in
  match core_queue core with
  | [] => fail (Undefined "Rotate: front of an empty queue")
  | front :: _ =>
      let! s :=
        if front =? cur then
          let q := splice_front (queue_bound s (prio s cur) (core_queue core)) (core_queue core) in
          let s := set_queue (core_id core) q s in
          match q with
          | f :: _ => ok (if negb (f =? cur) then emit (Notify f) s else s)
          | [] => ok s
          end
        else if negb (t_forceYield (thr s cur)) then fail (Throw "Rotate while not being in the core's queue")
        else ok s in
      ok (clear_yield cur (update_average now cur s))
  end.

(** The handler of the yield and preemption signals; [in_guest] is [*tls != nullptr]. *)
Definition SignalHandler (now cur : Z) (in_guest preemption : bool) (s : Scheduler) : M Scheduler :=
  if in_guest then
    let s := if preemption then set_thr cur (set_t_isPreempted false) s else s in
    let! s := Rotate now cur s in
    ok (set_thr cur (set_t_YieldPending false) s)
  else ok (set_thr cur (set_t_YieldPending true) s).

(** ** Migration and waiting *)

Definition MigrateToCore (cur : option Z) (t currentCore targetCore : Z) (s : Scheduler)
    : M (Scheduler * bool) :=
  let! core := core_at s currentCore in
  let wasInserted := index_of t (core_queue core) in
  let s := match wasInserted with
    | Some i =>
        let q := erase_at i (core_queue core) in
        let s := set_queue currentCore q s in
        match i, q with
        | O, it :: _ => emit (Notify it) s
        | _, _ => s
        end
    | None => s
    end in
  let s := set_thr t (set_t_coreId targetCore) s in
  match wasInserted with
  | Some _ => InsertThread cur t s
  | None => ok (s, true)
  end.

(** The predicate of the waits in [WaitSchedule] and [TimedWaitSchedule]: migrate if the
    resident core left the affinity mask, then test for the front of the queue. *)
Definition wake_check (cur : Z) (s : Scheduler) : M (Scheduler * bool) :=
  let! resident := mask_test (t_affinityMask (thr s cur)) (t_coreId (thr s cur)) in
  let! (s, inserted) :=
    if negb resident
    then let! _ := core_at s (t_idealCore (thr s cur)) in
         MigrateToCore (Some cur) cur (t_coreId (thr s cur)) (t_idealCore (thr s cur)) s
    else ok (s, true) in
  let! core := core_at s (t_coreId (thr s cur)) in
  ok (s, match core_queue core with front :: _ => front =? cur | [] => false end).

(** One expiry of the load-balancing wait. *)
Definition load_balance (now cur : Z) (s : Scheduler) : M (Scheduler * bool) :=
  let! newCore := GetOptimalCoreForThread now cur s in
  if negb (t_coreId (thr s cur) =? newCore)
  then MigrateToCore (Some cur) cur (t_coreId (thr s cur)) newCore s
  else ok (s, true).

(** What follows a successful wait. *)
Definition on_scheduled (now cur : Z) (s : Scheduler) : M Scheduler :=
  let! core := core_at s (t_coreId (thr s cur)) in
  let s := if prio s cur =? preemptionPriority core then ArmPreemptionTimer cur s else s in
  ok (set_thr cur (set_t_timesliceStart now) s).

(** ** Priority and core changes *)

Definition yield_front (front : Z) (s : Scheduler) : Scheduler :=
  if negb (t_pendingYield (thr s front))
  then set_thr front (set_t_pendingYield true) (SendSignal front s) else s.

Definition UpdatePriority (t : Z) (s : Scheduler) : M Scheduler :=
  let! core := core_at s (t_coreId (thr s t)) in
  let q := core_queue core in
  match index_of t q with
  | None => ok s
  | Some O =>
      let higher_next := match q !! 1%nat with Some n => prio s n <? prio s t | None => false end in
      if higher_next then ok (yield_front t s)
      else if negb (t_isPreempted (thr s t)) && (prio s t =? preemptionPriority core)
      then ok (ArmPreemptionTimer t s)
      else if t_isPreempted (thr s t) && negb (prio s t =? preemptionPriority core)
      then ok (DisarmPreemptionTimer t s)
      else ok s
  | Some (S i) =>
      let above := match q !! i with Some p => prio s t <? prio s p | None => false end in
      let below := match q !! S (S i) with Some n => prio s n <? prio s t | None => false end in
      if above || below then
        let q := erase_at (S i) q in
        match queue_bound s (prio s t) q, q with
        | O, front :: rest => ok (yield_front front (set_queue (core_id core) (front :: t :: rest) s))
        | k, _ => ok (set_queue (core_id core) (insert_at k t q) s)
        end
      else ok s
  end.

Definition UpdateCore (t : Z) (s : Scheduler) : M Scheduler :=
  let! core := core_at s (t_coreId (thr s t)) in
  match core_queue core with
  | [] => fail (Undefined "UpdateCore: front of an empty queue")
  | front :: _ => ok (if front =? t then SendSignal t s else emit (Notify t) s)
  end.

(** ** Parking *)

Definition park_target (s : Scheduler) (t originalCoreId : Z) : Z :=
  fold_left (fun target c =>
    if negb (originalCoreId =? core_id c) && bit (t_affinityMask (thr s t)) (core_id c)
       && match core_queue c with [] => true | front :: _ => prio s t <? prio s front end
    then core_id c else target) (cores s) ParkedCoreId.

(** [ParkThread] up to its wait; [false] means that the thread is now parked. *)
Definition ParkThread_begin (now cur : Z) (s : Scheduler) : M (Scheduler * bool) :=
  let! s := RemoveThread now cur s in
  let target := park_target s cur (t_coreId (thr s cur)) in
  let s := set_thr cur (set_t_coreId target) s in
  if target =? ParkedCoreId
  then ok (set_parked (insert_at (queue_bound s (prio s cur) (parkedQueue s)) cur (parkedQueue s)) s, false)
  else InsertThread (Some cur) cur s.

Definition park_wake_test (cur : Z) (s : Scheduler) : M bool :=
  match parkedQueue s with
  | [] => fail (Undefined "ParkThread: front of an empty queue")
  | front :: _ => ok ((front =? cur) && negb (t_coreId (thr s cur) =? ParkedCoreId))
  end.

Definition ParkThread_resume (cur : Z) (s : Scheduler) : M (Scheduler * bool) := InsertThread (Some cur) cur s.

Definition WakeParkedThread (cur : Z) (s : Scheduler) : M Scheduler :=
  match parkedQueue s with
  | [] => ok s
  | parkedThread :: _ =>
      let! core := core_at s (t_coreId (thr s cur)) in
      match core_queue core with
      | _ :: next :: _ =>
          let nextThread := if prio s next =? prio s cur then Some next else None in
          if (prio s parkedThread <? prio s cur)
             || ((prio s parkedThread =? prio s cur)
                 && match nextThread with
                    | None => true
                    | Some n => t_timesliceStart (thr s parkedThread) <? t_timesliceStart (thr s n)
                    end)
          then ok (emit (Notify parkedThread)
                     (set_thr parkedThread (set_t_coreId (t_coreId (thr s cur))) s))
          else ok s
      | _ => fail (Undefined "WakeParkedThread: null nextThread")
      end
  end.

(** ** Pausing *)

Definition PauseThread (t : Z) (s : Scheduler) : M Scheduler :=
  let! core := core_at s (t_coreId (thr s t)) in
  let s := set_thr t (set_t_isPaused true) s in
  match index_of t (core_queue core) with
  | Some i =>
      let s := set_thr t (set_t_insertThreadOnResume true) s in
      let q := erase_at i (core_queue core) in
      let s := set_queue (core_id core) q s in
      let s := match i, q with O, it :: _ => emit (Notify it) s | _, _ => s end in
      ok (if (i =? 0)%nat && negb (t_pendingYield (thr s t))
          then set_thr t (set_t_forceYield true) (set_thr t (set_t_pendingYield true) (SendSignal t s))
          else s)
  | None => ok (set_thr t (set_t_insertThreadOnResume false) s)
  end.

Definition ResumeThread (cur : option Z) (t : Z) (s : Scheduler) : M Scheduler :=
  let s := set_thr t (set_t_isPaused false) s in
  if t_insertThreadOnResume (thr s t)
  then let! (s, _) := InsertThread cur t s in ok s
  else ok (emit (Notify t) s).

(** ** Life of a thread *)

Definition Start (now : Z) (cur : option Z) (t : Z) (s : Scheduler) : M (Scheduler * bool) :=
  if t_running (thr s t) then ok (s, true)
  else
    let! core := GetOptimalCoreForThread now t s in
    let! (s, inserted) := InsertThread cur t (set_thr t (set_t_coreId core) s) in
    ok (emit (HostThreadStarted t)
          (set_thr t (set_t_killed false) (set_thr t (set_t_running true) s)), inserted).

(** [Kill] before its optional wait for the thread to stop running. *)
Definition Kill (t : Z) (s : Scheduler) : Scheduler :=
  if negb (t_killed (thr s t)) && t_running (thr s t)
  then set_thr t (set_t_killed true) (emit (KillSignalTo t) s) else s.

(** ** Priority inheritance

    The compare-and-swap loop on the owner's priority.  [races] lists, for each swap, the
    value another host thread stores between the load and the swap, if any; the empty list
    is a run without interference.  [None] is the early return, [Some p] the exit of the
    loop with [ownerPriority = p]. *)
Fixpoint inherit_loop (races : list (option Z)) (owner currentPriority : Z) (s : Scheduler)
    : Scheduler * option Z :=
  let ownerPriority := prio s owner in
  if ownerPriority <=? currentPriority then (s, None)
  else
    match races with
    | Some p :: races' =>
        let s := set_thr owner (set_t_priority p) s in
        if p =? ownerPriority
        then inherit_loop races' owner currentPriority (set_thr owner (set_t_priority currentPriority) s)
        else (s, Some p)
    | None :: races' =>
        inherit_loop races' owner currentPriority (set_thr owner (set_t_priority currentPriority) s)
    | [] => (set_thr owner (set_t_priority currentPriority) s, None)
    end.

Definition UpdatePriorityInheritance (races : list (option Z)) (t : Z) (s : Scheduler) : M Scheduler :=
  match t_waitThread (thr s t) with
  | None => ok s
  | Some waitingOn =>
      let currentPriority := prio s t in
      match inherit_loop races waitingOn currentPriority s with
      | (s, None) => ok s
      | (s, Some ownerPriority) =>
          if negb (ownerPriority =? currentPriority) then
            match t_waitThread (thr s waitingOn) with
            | Some nextThread =>
                match index_of waitingOn (t_waiters (thr s nextThread)) with
                | None => fail (Undefined "UpdatePriorityInheritance: erase(end())")
                | Some i =>
                    let l := erase_at i (t_waiters (thr s nextThread)) in
                    ok (set_thr nextThread (set_t_waiters (insert_at (queue_bound s currentPriority l) waitingOn l)) s)
                end
            | None => UpdatePriority waitingOn s
            end
          else ok s
      end
  end.

(** ** Basic lemmas *)

Lemma thr_set_thr s t f u : thr (set_thr t f s) u = if decide (u = t) then f (thr s t) else thr s u.
Proof.
  unfold thr, set_thr; simpl. case_decide as E.
  - subst. by rewrite lookup_total_insert_eq.
  - by rewrite lookup_total_insert_ne.
Qed.

Lemma thr_set_queue s c q u : thr (set_queue c q s) u = thr s u.
Proof. done. Qed.
Lemma thr_emit s e u : thr (emit e s) u = thr s u.
Proof. done. Qed.
Lemma cores_set_thr s t f : cores (set_thr t f s) = cores s.
Proof. done. Qed.

(** Setters that leave the priority, the resident core and the pause flag alone. *)
Definition keeps (f : KThread -> KThread) : Prop :=
  forall r, t_priority (f r) = t_priority r /\ t_coreId (f r) = t_coreId r /\ t_isPaused (f r) = t_isPaused r.

Lemma keeps_prio s t f u : keeps f -> prio (set_thr t f s) u = prio s u.
Proof. intros H. unfold prio. rewrite thr_set_thr. case_decide as E; [|done]. subst. apply H. Qed.

Lemma keeps_core s t f u : keeps f -> t_coreId (thr (set_thr t f s) u) = t_coreId (thr s u).
Proof. intros H. rewrite thr_set_thr. case_decide as E; [|done]. subst. apply H. Qed.

Lemma keeps_paused s t f u : keeps f -> t_isPaused (thr (set_thr t f s) u) = t_isPaused (thr s u).
Proof. intros H. rewrite thr_set_thr. case_decide as E; [|done]. subst. apply H. Qed.

(** States that differ only in other flags of threads and in events. *)
Record same_queues (s s' : Scheduler) : Prop := mk_same_queues {
  sq_cores : cores s' = cores s;
  sq_parked : parkedQueue s' = parkedQueue s;
  sq_prio : forall u, prio s' u = prio s u;
  sq_core : forall u, t_coreId (thr s' u) = t_coreId (thr s u);
  sq_paused : forall u, t_isPaused (thr s' u) = t_isPaused (thr s u) }.

#[global] Instance same_queues_refl : Reflexive same_queues.
Proof. by split. Qed.
#[global] Instance same_queues_trans : Transitive same_queues.
Proof. intros s1 s2 s3 [] []. split; try congruence; intros; etrans; eauto. Qed.

Lemma same_queues_set_thr s t f : keeps f -> same_queues s (set_thr t f s).
Proof. split; [done|done|intros; by apply keeps_prio|intros; by apply keeps_core|intros; by apply keeps_paused]. Qed.
Lemma same_queues_emit s e : same_queues s (emit e s).
Proof. by split. Qed.
Lemma same_queues_if (b : bool) s s1 s2 :
  same_queues s s1 -> same_queues s s2 -> same_queues s (if b then s1 else s2).
Proof. by destruct b. Qed.

Ltac solve_keeps := intros []; repeat split.

Lemma same_queues_SendSignal s t : same_queues s (SendSignal t s).
Proof. unfold SendSignal. destruct (_ && _); [apply same_queues_emit|done]. Qed.

Lemma same_queues_Arm s t : same_queues s (ArmPreemptionTimer t s).
Proof.
  unfold ArmPreemptionTimer. destruct (_ && _); [|done].
  etrans; [apply same_queues_emit|apply same_queues_set_thr; solve_keeps].
Qed.

Lemma same_queues_Disarm s t : same_queues s (DisarmPreemptionTimer t s).
Proof.
  unfold DisarmPreemptionTimer. destruct (negb _); [done|]. destruct (_ && _); [|done].
  etrans; [apply same_queues_emit|apply same_queues_set_thr; solve_keeps].
Qed.

Lemma same_queues_clear_yield s t : same_queues s (clear_yield t s).
Proof.
  unfold clear_yield. etrans; [apply same_queues_Disarm|].
  etrans; apply same_queues_set_thr; solve_keeps.
Qed.

Lemma same_queues_yield_front s t : same_queues s (yield_front t s).
Proof.
  unfold yield_front. destruct (negb _); [|done].
  etrans; [apply same_queues_SendSignal|apply same_queues_set_thr; solve_keeps].
Qed.

Lemma same_queues_update_average s now t : same_queues s (update_average now t s).
Proof. apply same_queues_set_thr. solve_keeps. Qed.

#[export] Hint Resolve same_queues_emit same_queues_SendSignal same_queues_Arm same_queues_Disarm
  same_queues_clear_yield same_queues_yield_front same_queues_update_average : sky.

(** The four cores carry their own index. *)
Definition cores_ok (s : Scheduler) : Prop :=
  length (cores s) = 4%nat /\ forall i c, cores s !! i = Some c -> core_id c = Z.of_nat i.

Definition queue (s : Scheduler) (id : Z) : list Z :=
  match cores s !! Z.to_nat id with Some c => core_queue c | None => [] end.

Lemma core_at_ok s id :
  cores_ok s -> 0 <= id < 4 -> exists c, core_at s id = inr c /\ core_id c = id /\ core_queue c = queue s id.
Proof.
  intros [Hl Hi] Hid. unfold core_at, queue. rewrite (proj2 (Z.ltb_ge _ _)) by lia.
  destruct (lookup_lt_is_Some_2 (cores s) (Z.to_nat id)) as [c Hc]; [lia|]. rewrite Hc.
  exists c. split; [done|]. split; [|done]. rewrite (Hi _ _ Hc). lia.
Qed.

Lemma queue_set_queue s id q id' :
  cores_ok s -> 0 <= id < 4 -> 0 <= id' < 4 ->
  queue (set_queue id q s) id' = if decide (id' = id) then q else queue s id'.
Proof.
  intros [Hl Hi] Hid Hid'. unfold queue, set_queue; simpl. case_decide as E.
  - subst. rewrite list_lookup_alter_eq. destruct (lookup_lt_is_Some_2 (cores s) (Z.to_nat id)) as [c ->]; [lia|done].
  - rewrite list_lookup_alter_ne by lia. done.
Qed.

Lemma cores_ok_set_queue s id q : cores_ok s -> cores_ok (set_queue id q s).
Proof.
  intros [Hl Hi]. split; simpl; [by rewrite length_alter|].
  intros i c Hc. rewrite list_lookup_alter in Hc. case_decide; [|by apply Hi].
  subst. apply fmap_Some in Hc as (c' & Hc' & ->). simpl. by apply Hi.
Qed.

Lemma same_queues_ok s s' : same_queues s s' -> cores_ok s -> cores_ok s'.
Proof. intros [E _ _ _ _]. unfold cores_ok. by rewrite E. Qed.
Lemma same_queues_queue s s' id : same_queues s s' -> queue s' id = queue s id.
Proof. intros [E _ _ _ _]. unfold queue. by rewrite E. Qed.

(** ** Order of a queue *)

Definition psorted (f : Z -> Z) (q : list Z) : Prop := StronglySorted (fun x y => f x <= f y) q.

Lemma psorted_cons f x q : psorted f (x :: q) <-> Forall (fun y => f x <= f y) q /\ psorted f q.
Proof. apply StronglySorted_cons. Qed.

Lemma psorted_app f a b :
  psorted f (a ++ b) <-> (forall x y, x ∈ a -> y ∈ b -> f x <= f y) /\ psorted f a /\ psorted f b.
Proof. unfold psorted. by rewrite StronglySorted_app. Qed.

Lemma psorted_lookup f q i j x y :
  psorted f q -> (i <= j)%nat -> q !! i = Some x -> q !! j = Some y -> f x <= f y.
Proof.
  revert i j. induction q as [|z q IH]; intros i j Hs Hij Hx Hy; [done|].
  apply psorted_cons in Hs as [Hz Hs]. destruct i, j; simpl in *; simplify_eq; [lia| |lia|].
  - rewrite Forall_lookup in Hz. by eapply Hz.
  - apply (IH i j); [done|lia|done|done].
Qed.

Lemma psorted_ext f g q : (forall x, f x = g x) -> psorted f q -> psorted g q.
Proof.
  intros E. induction q as [|x q IH]; intros Hs; [constructor|].
  apply psorted_cons in Hs as [Hx Hs]. apply psorted_cons. split; [|by apply IH].
  eapply Forall_impl; [exact Hx|]. simpl. intros. by rewrite <- !E.
Qed.

Lemma psorted_ext_in f g q : (forall x, x ∈ q -> f x = g x) -> psorted f q -> psorted g q.
Proof.
  induction q as [|x q IH]; intros E Hs; [constructor|].
  apply psorted_cons in Hs as [Hx Hs]. apply psorted_cons. split; [|apply IH; set_solver].
  rewrite Forall_forall in *. intros y Hy. rewrite <- !E by set_solver. by apply Hx.
Qed.

Lemma upper_bound_ext {A} (p p' : A -> bool) l : (forall x, p x = p' x) -> upper_bound p l = upper_bound p' l.
Proof.
  intros E. unfold upper_bound. generalize (length l) at 1 3. intros n. generalize (length l) 0%nat.
  induction n as [|n IH]; intros len first; simpl; [done|].
  destruct (len =? 0)%nat; [done|]. destruct (l !! _); [|done]. rewrite E, !IH. done.
Qed.

Lemma queue_bound_ext s s' p q : (forall u, prio s' u = prio s u) -> queue_bound s' p q = queue_bound s p q.
Proof. intros E. apply upper_bound_ext. intros x. unfold IsHigherPriority. by rewrite E. Qed.

(** [std::upper_bound] in a sorted queue: threads of at least the priority, then the others. *)
Lemma queue_bound_split s p q :
  psorted (prio s) q ->
  Forall (fun x => prio s x <= p) (take (queue_bound s p q) q) /\
  Forall (fun x => p < prio s x) (drop (queue_bound s p q) q).
Proof.
  intros Hs. destruct (upper_bound_spec (IsHigherPriority s p) q) as (Hk & Hlo & Hhi).
  { intros i j x y Hij Hx Hy. unfold IsHigherPriority. rewrite !Z.ltb_lt.
    pose proof (psorted_lookup _ _ _ _ _ _ Hs Hij Hx Hy). lia. }
  fold (queue_bound s p q) in *. split; apply Forall_lookup; intros i x Hx.
  - apply lookup_take_Some in Hx as [Hx Hi]. apply Z.ltb_ge. by apply (Hlo i).
  - rewrite lookup_drop in Hx. apply Z.ltb_lt. eapply Hhi; [|done]. lia.
Qed.

Lemma psorted_insert f (p : Z) a b t :
  psorted f (a ++ b) -> f t = p -> Forall (fun x => f x <= p) a -> Forall (fun x => p < f x) b ->
  psorted f (a ++ t :: b).
Proof.
  intros Hs <- Ha Hb. rewrite psorted_app in *. destruct Hs as (Hab & Hsa & Hsb).
  rewrite psorted_cons. rewrite Forall_forall in Ha, Hb. split; [|split; [done|split; [|done]]].
  - intros x y Hx [->|Hy]%elem_of_cons; auto.
  - apply Forall_forall. intros x Hx. specialize (Hb x Hx). lia.
Qed.

Lemma insert_at_perm {A} i (x : A) l : insert_at i x l ≡ₚ x :: l.
Proof. unfold insert_at. rewrite <- Permutation_middle, take_drop. done. Qed.

Lemma splice_front_perm {A} i (l : list A) : splice_front i l ≡ₚ l.
Proof. destruct i, l; simpl; try done. rewrite <- Permutation_middle, take_drop. done. Qed.

(** Moving the front behind the threads of its own priority. *)
Lemma splice_front_bound s x q :
  psorted (prio s) (x :: q) ->
  exists a b, q = a ++ b /\ splice_front (queue_bound s (prio s x) (x :: q)) (x :: q) = a ++ x :: b /\
    Forall (fun y => prio s y = prio s x) a /\ Forall (fun y => prio s x < prio s y) b.
Proof.
  intros Hs. destruct (queue_bound_split s (prio s x) (x :: q) Hs) as [Hlo Hhi].
  destruct (queue_bound s (prio s x) (x :: q)) as [|k]; simpl in *.
  { exfalso. apply Forall_cons in Hhi as [Hhi _]. lia. }
  exists (take k q), (drop k q). rewrite take_drop. split; [done|]. split; [done|]. split; [|done].
  apply Forall_cons in Hlo as [_ Hlo]. apply psorted_cons in Hs as [Hx _].
  rewrite <- (take_drop k q) in Hx. apply Forall_app in Hx as [Hx _].
  rewrite Forall_forall in *. intros y Hy. specialize (Hlo y Hy). specialize (Hx y Hy). simpl in *. lia.
Qed.

Lemma splice_front_sorted s x q :
  psorted (prio s) (x :: q) ->
  psorted (prio s) (splice_front (queue_bound s (prio s x) (x :: q)) (x :: q)).
Proof.
  intros Hs. destruct (splice_front_bound s x q Hs) as (a & b & -> & -> & Ha & Hb).
  apply psorted_cons in Hs as [_ Hs]. eapply psorted_insert; [done|done| |done].
  eapply Forall_impl; [exact Ha|]. simpl. lia.
Qed.

(** [s'] is [s] with the queue of core [c] replaced, up to flags and events. *)
Record requeued (c : Z) (q : list Z) (s s' : Scheduler) : Prop := mk_requeued {
  rq_ok : cores_ok s';
  rq_queue : queue s' c = q;
  rq_other : forall id, 0 <= id < 4 -> id <> c -> queue s' id = queue s id;
  rq_parked : parkedQueue s' = parkedQueue s;
  rq_prio : forall u, prio s' u = prio s u;
  rq_core : forall u, t_coreId (thr s' u) = t_coreId (thr s u);
  rq_paused : forall u, t_isPaused (thr s' u) = t_isPaused (thr s u) }.

Lemma requeued_set_queue c q s : cores_ok s -> 0 <= c < 4 -> requeued c q s (set_queue c q s).
Proof.
  intros Hok Hc. split; try done.
  - by apply cores_ok_set_queue.
  - rewrite queue_set_queue by done. by case_decide.
  - intros id Hid Hne. rewrite queue_set_queue by done. by case_decide.
Qed.

Lemma requeued_after c q s s1 s2 : requeued c q s s1 -> same_queues s1 s2 -> requeued c q s s2.
Proof.
  intros [H1 H2 H3 H4 H5 H6 H7] E. pose proof E as [Ec Ep Epr Eco Epa]. split.
  - by eapply same_queues_ok.
  - by rewrite (same_queues_queue _ _ _ E).
  - intros. rewrite (same_queues_queue _ _ _ E). auto.
  - congruence.
  - intros. by rewrite Epr.
  - intros. by rewrite Eco.
  - intros. by rewrite Epa.
Qed.

Lemma requeued_before c q s s1 s2 : same_queues s s1 -> requeued c q s1 s2 -> requeued c q s s2.
Proof.
  intros E [H1 H2 H3 H4 H5 H6 H7]. pose proof E as [Ec Ep Epr Eco Epa]. split; try done.
  - intros. rewrite H3 by done. by apply same_queues_queue.
  - congruence.
  - intros. by rewrite H5.
  - intros. by rewrite H6.
  - intros. by rewrite H7.
Qed.

Lemma requeued_same c s s' : cores_ok s -> same_queues s s' -> requeued c (queue s c) s s'.
Proof.
  intros Hok E. pose proof E as [Ec Ep Epr Eco Epa]. split; try done.
  - by eapply same_queues_ok.
  - by apply same_queues_queue.
  - intros. by apply same_queues_queue.
Qed.

(** The queue [InsertThread] leaves, as a function of the one it finds. *)
Definition enqueued (s : Scheduler) (t : Z) (q : list Z) : list Z :=
  match queue_bound s (prio s t) q with
  | O => match q with
         | [] => [t]
         | front :: _ => t :: splice_front (queue_bound s (prio s front) q) q
         end
  | i => insert_at i t q
  end.

Lemma enqueued_perm s t q : enqueued s t q ≡ₚ t :: q.
Proof.
  unfold enqueued. destruct (queue_bound s (prio s t) q); [|apply insert_at_perm].
  destruct q; [done|]. f_equiv. apply splice_front_perm.
Qed.

Lemma InsertThread_enqueue_queue cur t s :
  let c := t_coreId (thr s t) in
  cores_ok s -> 0 <= c < 4 ->
  exists s', InsertThread_enqueue cur t s = inr s' /\ requeued c (enqueued s t (queue s c)) s s'.
Proof.
  intros c Hok Hc. unfold InsertThread_enqueue, enqueued. fold c.
  destruct (core_at_ok s c Hok Hc) as (core & -> & Hid & Hq). simpl. rewrite Hid, Hq.
  destruct (queue_bound s (prio s t) (queue s c)) as [|k].
  2:{ eexists. split; [reflexivity|]. by apply requeued_set_queue. }
  eexists. split; [reflexivity|]. destruct (queue s c) as [|front rest].
  - destruct (decide _); [by apply requeued_set_queue|].
    eapply requeued_after; [by apply requeued_set_queue|auto with sky].
  - set (s1 := set_thr front (set_t_forceYield true) s).
    assert (E1 : same_queues s s1) by (apply same_queues_set_thr; solve_keeps).
    assert (Epr : forall u, prio s1 u = prio s u) by apply E1.
    rewrite Epr, (queue_bound_ext s s1) by done.
    eapply requeued_after.
    { eapply requeued_before; [exact E1|]. apply requeued_set_queue; [|done]. by eapply same_queues_ok. }
    destruct (decide (cur = Some t)), (decide (cur = Some front));
      repeat (etrans; [|apply same_queues_emit]); try (apply same_queues_set_thr; solve_keeps);
      apply (same_queues_yield_front _ front).
Qed.

(** Where a thread goes in a sorted queue. *)
Lemma enqueued_sorted s t q :
  psorted (prio s) q ->
  exists a b, enqueued s t q = a ++ t :: b /\ a ++ b ≡ₚ q /\
    Forall (fun x => prio s x <= prio s t) a /\ Forall (fun x => prio s t < prio s x) b /\
    psorted (prio s) (a ++ t :: b).
Proof.
  intros Hs. unfold enqueued. destruct (queue_bound_split s (prio s t) q Hs) as [Hlo Hhi].
  destruct (queue_bound s (prio s t) q) as [|k].
  - rewrite drop_0 in Hhi. destruct q as [|front rest].
    + exists [], []. do 4 (split; [done|]). repeat constructor.
    + exists [], (splice_front (queue_bound s (prio s front) (front :: rest)) (front :: rest)).
      split; [done|]. split; [apply splice_front_perm|]. split; [done|].
      assert (Hb : Forall (fun x => prio s t < prio s x) (splice_front (queue_bound s (prio s front) (front :: rest)) (front :: rest)))
        by (by rewrite splice_front_perm).
      split; [done|]. apply psorted_cons. split; [|by apply splice_front_sorted].
      eapply Forall_impl; [exact Hb|]. simpl. lia.
  - exists (take (S k) q), (drop (S k) q). split; [done|]. rewrite take_drop. do 3 (split; [done|]).
    eapply psorted_insert; [by rewrite take_drop|done..].
Qed.

(** C28: [InsertThread] schedules by priority, first come first served.  On a core whose queue is
    sorted, inserting a runnable thread that is not in it succeeds and gives a sorted queue with
    exactly that thread added: behind every thread of the same or a higher priority, in front of
    every thread of a lower one; the other cores and all priorities are unchanged. *)
Theorem InsertThread_priority_order cur t s :
  let c := t_coreId (thr s t) in
  cores_ok s -> 0 <= c < 4 -> psorted (prio s) (queue s c) -> t_isPaused (thr s t) = false ->
  exists s' a b, InsertThread cur t s = inr (s', true) /\ cores_ok s' /\
    queue s' c = a ++ t :: b /\ a ++ b ≡ₚ queue s c /\ psorted (prio s') (queue s' c) /\
    Forall (fun x => prio s x <= prio s t) a /\ Forall (fun x => prio s t < prio s x) b /\
    (forall id, 0 <= id < 4 -> id <> c -> queue s' id = queue s id) /\ (forall u, prio s' u = prio s u).
Proof.
  intros c Hok Hc Hs Hp.
  destruct (InsertThread_enqueue_queue cur t s Hok Hc) as (s' & E & [R1 R2 R3 R4 R5 R6 _]).
  destruct (enqueued_sorted s t (queue s c) Hs) as (a & b & Eq & Hperm & Ha & Hb & Hsrt).
  exists s', a, b. unfold InsertThread. fold c.
  destruct (core_at_ok s c Hok Hc) as (core & -> & _). simpl. rewrite Hp, E. simpl.
  fold c in R2. rewrite R2, Eq. do 4 (split; [done|]). split; [|done].
  eapply psorted_ext; [|exact Hsrt]. intros. by rewrite R5.
Qed.

Definition sample_thread (id priority core : Z) : KThread :=
  set_t_ready true (set_t_running true (new_thread (0xD000 + id) id 0 0 0 priority core)).

(** Three threads on core 0, two of the same priority; thread 4 is not queued. *)
Definition sample_sched : Scheduler :=
  mk_sched [mk_core 0 59 [1; 2; 3]; mk_core 1 59 []; mk_core 2 59 []; mk_core 3 63 []] []
    (<[1 := sample_thread 1 30 0]> (<[2 := sample_thread 2 30 0]>
     (<[3 := sample_thread 3 44 0]> (<[4 := sample_thread 4 30 0]> ∅)))) [].

Lemma sample_sched_ok : cores_ok sample_sched.
Proof. split; [reflexivity|]. intros i c H. by do 4 (destruct i as [|i]; [simpl in H; simplify_eq; reflexivity|]). Qed.

Lemma sample_sched_sorted : psorted (prio sample_sched) (queue sample_sched 0).
Proof. vm_compute. repeat constructor; vm_compute; congruence. Qed.

Lemma InsertThread_priority_order_witness :
  exists s' a b, InsertThread (Some 1) 4 sample_sched = inr (s', true) /\ queue s' 0 = a ++ 4 :: b /\
    psorted (prio s') (queue s' 0).
Proof.
  destruct (InsertThread_priority_order (Some 1) 4 sample_sched sample_sched_ok
    ltac:(vm_compute; split; congruence) sample_sched_sorted eq_refl)
    as (s' & a & b & H1 & _ & H2 & _ & H3 & _).
  exists s', a, b. split; [exact H1|]. split; [exact H2|exact H3].
Defined.

(** ** Rotation and removal *)

Lemma index_of_split x l i :
  index_of x l = Some i -> exists a b, l = a ++ x :: b /\ x ∉ a /\ i = length a /\ erase_at i l = a ++ b.
Proof.
  revert i; induction l as [|y l IH]; intros i E; simpl in E; [done|].
  destruct (Z.eqb_spec x y) as [->|Hne]; simplify_eq.
  - exists [], l. split; [done|]. split; [set_solver|done].
  - apply fmap_Some in E as (j & Ej & ->). destruct (IH j Ej) as (a & b & -> & Hx & -> & Hera).
    exists (y :: a), b. split; [done|]. split; [set_solver|]. split; [done|]. unfold erase_at in *. simpl. by rewrite Hera.
Qed.

Lemma index_of_None x l : index_of x l = None -> x ∉ l.
Proof.
  induction l as [|y l IH]; simpl; intros E; [set_solver|].
  destruct (Z.eqb_spec x y); [done|]. apply fmap_None in E. set_solver.
Qed.

(** a yield is round robin among equals.  When the running thread rotates, it moves behind
    exactly the threads of its own priority and stays in front of the lower ones, and its
    pending and forced yields are cleared; no other queue changes. *)
Theorem Rotate_round_robin now cur s q :
  let c := t_coreId (thr s cur) in
  cores_ok s -> 0 <= c < 4 -> queue s c = cur :: q -> psorted (prio s) (cur :: q) ->
  exists s' a b, Rotate now cur s = inr s' /\ q = a ++ b /\ requeued c (a ++ cur :: b) s s' /\
    Forall (fun y => prio s y = prio s cur) a /\ Forall (fun y => prio s cur < prio s y) b /\
    t_pendingYield (thr s' cur) = false /\ t_forceYield (thr s' cur) = false.
Proof.
  intros c Hok Hc Hq Hs. unfold Rotate. fold c.
  destruct (core_at_ok s c Hok Hc) as (core & -> & Hid & Hcq). simpl. rewrite Hcq, Hq, Z.eqb_refl, Hid.
  destruct (splice_front_bound s cur q Hs) as (a & b & Eq & Esp & Ha & Hb).
  pose proof (requeued_set_queue c (a ++ cur :: b) s Hok Hc) as R. rewrite Esp.
  destruct (a ++ cur :: b) as [|f rest] eqn:Eab; [by destruct a|]. simpl.
  eexists _, a, b. split; [reflexivity|]. split; [done|]. rewrite Eab. split.
  { eapply requeued_after; [exact R|]. etrans; [|apply same_queues_clear_yield].
    etrans; [|apply same_queues_update_average]. destruct (negb _); auto with sky. done. }
  split; [done|]. split; [done|]. unfold clear_yield.
  split; rewrite !thr_set_thr; repeat (case_decide; [|done]); done.
Qed.

Lemma Rotate_round_robin_witness :
  exists s' a b, Rotate 7 1 sample_sched = inr s' /\ [2; 3] = a ++ b /\ requeued 0 (a ++ 1 :: b) sample_sched s'.
Proof.
  destruct (Rotate_round_robin 7 1 sample_sched [2; 3] sample_sched_ok ltac:(vm_compute; split; congruence)
    eq_refl sample_sched_sorted) as (s' & a & b & H1 & H2 & H3 & _).
  exists s', a, b. split; [exact H1|]. split; [exact H2|exact H3].
Defined.

Lemma RemoveThread_spec now cur s :
  let c := t_coreId (thr s cur) in
  cores_ok s -> 0 <= c < 4 ->
  exists s' q, RemoveThread now cur s = inr s' /\ requeued c q s s' /\
    ((cur ∉ queue s c /\ q = queue s c) \/
     exists a b, queue s c = a ++ cur :: b /\ cur ∉ a /\ q = a ++ b).
Proof.
  intros c Hok Hc. unfold RemoveThread. fold c.
  destruct (core_at_ok s c Hok Hc) as (core & -> & Hid & Hcq). simpl. rewrite Hcq, Hid.
  destruct (index_of cur (queue s c)) as [i|] eqn:Ei.
  - destruct (index_of_split _ _ _ Ei) as (a & b & Eq & Ha & Hi & Eer). rewrite Eer.
    eexists _, (a ++ b). split; [reflexivity|]. split; [|right; by exists a, b].
    eapply requeued_after; [by apply requeued_set_queue|].
    etrans; [|apply same_queues_set_thr; solve_keeps]. etrans; [|apply same_queues_clear_yield].
    destruct i; [|done]. destruct (a ++ b); destruct (negb _); try done; try apply same_queues_update_average;
      try apply same_queues_emit. etrans; [apply same_queues_update_average|apply same_queues_emit].
  - eexists _, (queue s c). split; [reflexivity|]. split; [|left; split; [by apply index_of_None|done]].
    apply requeued_same; [done|]. etrans; [apply same_queues_clear_yield|apply same_queues_set_thr; solve_keeps].
Qed.

(** ** Priority changes *)

Lemma index_of_app x a b : x ∉ a -> index_of x (a ++ x :: b) = Some (length a).
Proof.
  induction a as [|y a IH]; intros Hx; simpl; [by rewrite Z.eqb_refl|].
  destruct (Z.eqb_spec x y); [set_solver|]. rewrite IH by set_solver. done.
Qed.

Lemma erase_at_app {A} (x : A) a b : erase_at (length a) (a ++ x :: b) = a ++ b.
Proof. unfold erase_at. induction a as [|y a IH]; simpl; [done|]. f_equal. exact IH. Qed.

Lemma pendingYield_yield_front t s : t_pendingYield (thr (yield_front t s) t) = true.
Proof.
  unfold yield_front. destruct (t_pendingYield (thr s t)) eqn:E; simpl; [done|].
  rewrite thr_set_thr. by case_decide.
Qed.

(** A thread between a neighbour of at least its priority and one of at most its priority is in
    place. *)
Lemma psorted_in_place f front a t b :
  psorted f (front :: a ++ b) ->
  (forall p, (front :: a) !! length a = Some p -> f p <= f t) ->
  (forall n, b !! 0%nat = Some n -> f t <= f n) ->
  psorted f (front :: a ++ t :: b).
Proof.
  intros Hs Hp Hn. change (front :: a ++ t :: b) with ((front :: a) ++ t :: b).
  change (front :: a ++ b) with ((front :: a) ++ b) in Hs. rewrite psorted_app in *.
  destruct Hs as (Hab & Hsa & Hsb). rewrite (psorted_cons f t).
  destruct (lookup_lt_is_Some_2 (front :: a) (length a)) as [p Ep]; [simpl; lia|].
  assert (Hat : forall x, x ∈ front :: a -> f x <= f t).
  { intros x Hx. apply list_elem_of_lookup in Hx as [i Hi]. transitivity (f p); [|by apply Hp].
    pose proof (lookup_lt_Some _ _ _ Hi). simpl in *. eapply psorted_lookup; [exact Hsa| |done|done]. lia. }
  assert (Htb : Forall (fun y => f t <= f y) b).
  { apply Forall_lookup. intros i y Hy. destruct b as [|n b]; [done|].
    transitivity (f n); [by apply Hn|]. eapply (psorted_lookup f (n :: b) 0 i); [done|lia|done|done]. }
  split; [intros x y Hx [->|Hy]%elem_of_cons; auto|]. split; [done|]. split; done.
Qed.

Lemma UpdatePriority_spec t s front a b :
  let c := t_coreId (thr s t) in
  cores_ok s -> 0 <= c < 4 -> queue s c = front :: a ++ t :: b -> t ∉ front :: a ->
  psorted (prio s) (front :: a ++ b) ->
  exists s' q, UpdatePriority t s = inr s' /\ requeued c (front :: q) s s' /\
    q ≡ₚ t :: a ++ b /\ psorted (prio s) q /\
    (prio s t < prio s front -> t_pendingYield (thr s' front) = true).
Proof.
  intros c Hok Hc Hq Hta Hs. unfold UpdatePriority. fold c.
  destruct (core_at_ok s c Hok Hc) as (core & -> & Hid & Hcq). simpl. rewrite Hcq, Hid.
  change (front :: a ++ t :: b) with ((front :: a) ++ t :: b) in Hq.
  rewrite Hq, index_of_app by done. change (length (front :: a)) with (S (length a)). cbv iota beta zeta.
  rewrite (lookup_app_l (front :: a)) by (simpl; lia).
  rewrite (lookup_app_r (front :: a)) by (simpl; lia).
  replace (S (S (length a)) - length (front :: a))%nat with 1%nat by (simpl; lia).
  simpl ((t :: b) !! 1%nat).
  pose proof Hs as Hs0. apply psorted_cons in Hs0 as [Hf0 Hs0].
  destruct (match (front :: a) !! length a with Some p => prio s t <? prio s p | None => false end
            || match b !! 0%nat with Some n => prio s n <? prio s t | None => false end) eqn:Emove.
  - pose proof (erase_at_app t (front :: a) b) as Eer. simpl (length (front :: a)) in Eer. rewrite Eer. clear Eer.
    destruct (queue_bound_split s (prio s t) _ Hs) as [Hlo Hhi]. simpl ((front :: a) ++ b).
    destruct (queue_bound s (prio s t) (front :: a ++ b)) as [|k]; simpl in Hlo, Hhi.
    + eexists _, (t :: a ++ b). split; [reflexivity|]. split.
      { eapply requeued_after; [by apply requeued_set_queue|auto with sky]. }
      split; [done|]. split; [|intros _; apply pendingYield_yield_front].
      apply Forall_cons in Hhi as [_ Hhi]. apply psorted_cons. split; [|done].
      eapply Forall_impl; [exact Hhi|]. simpl. lia.
    + eexists _, (insert_at k t (a ++ b)). split; [reflexivity|].
      split; [by apply requeued_set_queue|]. split; [apply insert_at_perm|].
      apply Forall_cons in Hlo as [Hf Hlo]. split; [|lia].
      eapply psorted_insert; [by rewrite take_drop|done|done|done].
  - apply orb_false_iff in Emove as [E1 E2]. eexists _, (a ++ t :: b). split; [reflexivity|].
    assert (Hin : psorted (prio s) (front :: a ++ t :: b)).
    { apply psorted_in_place; [done| |].
      - intros p Hp. rewrite Hp in E1. lia.
      - intros n Hn. rewrite Hn in E2. lia. }
    apply psorted_cons in Hin as [Hft Hin].
    split; [simpl in Hq; rewrite <- Hq; by apply requeued_same|].
    split; [by rewrite Permutation_middle|]. split; [done|].
    rewrite Forall_app, Forall_cons in Hft. lia.
Qed.

(** a priority change keeps the queue ordered.  When the priority of a waiting thread has
    been changed and the rest of its core's queue is sorted, [UpdatePriority] moves that thread
    so that everything behind the running thread is sorted again, without preempting the front
    in place; if the thread now has a higher priority than the running one, the running thread
    has a yield pending. *)
Theorem UpdatePriority_reorders t p s front a b :
  let c := t_coreId (thr s t) in
  let s0 := set_thr t (set_t_priority p) s in
  cores_ok s -> 0 <= c < 4 -> queue s c = front :: a ++ t :: b -> NoDup (queue s c) ->
  psorted (prio s) (queue s c) ->
  exists s' q, UpdatePriority t s0 = inr s' /\ cores_ok s' /\ queue s' c = front :: q /\
    front :: q ≡ₚ queue s c /\ psorted (prio s') q /\ prio s' t = p /\
    (p < prio s front -> t_pendingYield (thr s' front) = true).
Proof.
  intros c s0 Hok Hc Hq Hnd Hs.
  change (front :: a ++ t :: b) with ((front :: a) ++ t :: b) in Hq. rewrite Hq in Hnd, Hs.
  apply NoDup_app in Hnd as (Hnd1 & Hnd2 & Hnd3).
  assert (Hta : t ∉ front :: a) by (intros Ht; eapply Hnd2; [exact Ht|set_solver]).
  assert (Htb : t ∉ b) by (by apply NoDup_cons in Hnd3 as [? _]).
  assert (Hpr : forall u, u <> t -> prio s0 u = prio s u).
  { intros u Hu. unfold prio, s0. rewrite thr_set_thr. by case_decide. }
  assert (Hpt : prio s0 t = p) by (unfold prio, s0; rewrite thr_set_thr; by case_decide).
  assert (Hc0 : t_coreId (thr s0 t) = c) by (unfold s0; rewrite thr_set_thr; by case_decide).
  assert (Hs0 : psorted (prio s0) (front :: a ++ b)).
  { change (front :: a ++ b) with ((front :: a) ++ b). apply psorted_app in Hs as (Hab & Hsa & Hsb).
    apply psorted_cons in Hsb as [_ Hsb].
    assert (Hsub : psorted (prio s) ((front :: a) ++ b)).
    { apply psorted_app. split; [|done]. intros x y Hx Hy. apply Hab; set_solver. }
    eapply psorted_ext_in; [|exact Hsub]. intros u Hu. symmetry. apply Hpr. set_solver. }
  destruct (UpdatePriority_spec t s0 front a b) as (s' & q & E & [R1 R2 R3 R4 R5 R6 _] & Hperm & Hsq & Hy);
    rewrite ?Hc0; try done.
  exists s', q. rewrite Hc0 in R2. split; [done|]. split; [done|]. split; [done|]. split.
  { rewrite Hperm, Hq, <- Permutation_middle. simpl. by rewrite Permutation_swap. }
  split; [eapply psorted_ext; [|exact Hsq]; intros; by rewrite R5|].
  split; [by rewrite R5|]. intros Hlt. apply Hy. rewrite Hpt, Hpr; [done|set_solver].
Qed.

Lemma UpdatePriority_reorders_witness :
  exists s' q, UpdatePriority 3 (set_thr 3 (set_t_priority 10) sample_sched) = inr s' /\
    queue s' 0 = 1 :: q /\ psorted (prio s') q /\ t_pendingYield (thr s' 1) = true.
Proof.
  destruct (UpdatePriority_reorders 3 10 sample_sched 1 [2] [] sample_sched_ok
    ltac:(vm_compute; split; congruence) eq_refl) as (s' & q & H1 & _ & H2 & _ & H3 & _ & H4).
  - change (NoDup [1; 2; 3]). repeat constructor; set_solver.
  - exact sample_sched_sorted.
  - exists s', q. split; [exact H1|]. split; [exact H2|]. split; [exact H3|]. apply H4. vm_compute. reflexivity.
Defined.

(** priority inheritance stops at the direct owner.  The compare-and-swap loop repeats while
    the swap succeeds, so without interference the call raises the priority of the thread that is
    waited on and returns: with [t] waiting on [o] and [o] waiting on [n], the priority of [n],
    every queue and every waiter list stay as they were, whatever the priority of [t]. *)
Theorem UpdatePriorityInheritance_stops_at_owner t o n s :
  t_waitThread (thr s t) = Some o -> t_waitThread (thr s o) = Some n -> n <> o -> t <> o ->
  exists s', UpdatePriorityInheritance [] t s = inr s' /\
    prio s' o = Z.min (prio s o) (prio s t) /\ prio s' n = prio s n /\
    cores s' = cores s /\ (forall u, t_waiters (thr s' u) = t_waiters (thr s u)).
Proof.
  intros Ht Ho Hno Hto. unfold UpdatePriorityInheritance. rewrite Ht. simpl.
  destruct (Z.leb_spec (prio s o) (prio s t)).
  - exists s. repeat split. lia.
  - eexists. split; [reflexivity|]. unfold prio in *.
    split; [rewrite thr_set_thr; case_decide; [simpl; lia|done]|].
    split; [rewrite thr_set_thr; by case_decide|]. split; [done|].
    intros u. rewrite thr_set_thr. case_decide; [subst|]; done.
Qed.

(** Thread 1 waits on 2, which waits on 3. *)
Definition sample_chain : Scheduler :=
  mk_sched initial_cores []
    (<[1 := set_t_waitThread (Some 2) (sample_thread 1 10 0)]>
     (<[2 := set_t_waiters [1] (set_t_waitThread (Some 3) (sample_thread 2 30 0))]>
     (<[3 := set_t_waiters [2] (sample_thread 3 44 0)]> ∅))) [].

Lemma UpdatePriorityInheritance_stops_at_owner_witness :
  exists s', UpdatePriorityInheritance [] 1 sample_chain = inr s' /\ prio s' 2 = 10 /\ prio s' 3 = 44.
Proof.
  destruct (UpdatePriorityInheritance_stops_at_owner 1 2 3 sample_chain eq_refl eq_refl ltac:(lia) ltac:(lia))
    as (s' & H1 & H2 & H3 & _).
  exists s'. split; [exact H1|]. split; [exact H2|exact H3].
Defined.

(** ** The global invariant *)

(** Every thread occupies at most one queue slot, on the core it is resident on, and is not
    paused while it does. *)
Record sched_inv (s : Scheduler) : Prop := mk_sched_inv {
  si_cores : cores_ok s;
  si_nodup : forall c, 0 <= c < 4 -> NoDup (queue s c);
  si_resident : forall c t, 0 <= c < 4 -> t ∈ queue s c -> t_coreId (thr s t) = c;
  si_runnable : forall c t, 0 <= c < 4 -> t ∈ queue s c -> t_isPaused (thr s t) = false }.

Definition not_queued (s : Scheduler) (t : Z) : Prop := forall c, 0 <= c < 4 -> t ∉ queue s c.

(** Changing the queue of [c] to another with fewer members. *)
Lemma sched_inv_requeued c q s s' :
  sched_inv s -> 0 <= c < 4 -> requeued c q s s' -> NoDup q ->
  (forall t, t ∈ q -> t_coreId (thr s t) = c /\ t_isPaused (thr s t) = false) ->
  sched_inv s'.
Proof.
  intros [I1 I2 I3 I4] Hc [R1 R2 R3 R4 R5 R6 R7] Hnd Hq. split; [done|..];
    intros c' ?; intros; destruct (decide (c' = c)) as [->|Hne];
    rewrite ?R6, ?R7 in *; rewrite ?R2 in *; rewrite ?(R3 c') in * by done; naive_solver.
Qed.

Lemma sched_inv_same s s' : sched_inv s -> same_queues s s' -> sched_inv s'.
Proof.
  intros I E. destruct I as [I1 I2 I3 I4]. pose proof E as [_ _ _ Eco Epa].
  split; [by eapply same_queues_ok|..]; intros; rewrite ?Eco, ?Epa;
    rewrite ?(same_queues_queue _ _ _ E) in *; eauto.
Qed.

(** Queues that only lost members, whose threads kept their core and pause flag. *)
Lemma sched_inv_shrink s s' :
  sched_inv s -> cores_ok s' ->
  (forall c, 0 <= c < 4 -> NoDup (queue s' c) /\ forall u, u ∈ queue s' c -> u ∈ queue s c /\
     t_coreId (thr s' u) = t_coreId (thr s u) /\ t_isPaused (thr s' u) = t_isPaused (thr s u)) ->
  sched_inv s'.
Proof.
  intros [I1 I2 I3 I4] Hok H. split; [done| | |].
  - intros c Hc. by apply H.
  - intros c t Hc Ht. destruct (H c Hc) as [_ H']. destruct (H' t Ht) as (? & -> & _). eauto.
  - intros c t Hc Ht. destruct (H c Hc) as [_ H']. destruct (H' t Ht) as (? & _ & ->). eauto.
Qed.

Lemma core_at_inv s id c :
  cores_ok s -> core_at s id = inr c -> 0 <= id < 4 /\ core_id c = id /\ core_queue c = queue s id.
Proof.
  intros [Hl Hi] E. unfold core_at, queue in *. destruct (Z.ltb_spec id 0); [done|].
  destruct (cores s !! Z.to_nat id) as [c'|] eqn:Ec; [|done]. simpl in E. simplify_eq.
  pose proof (lookup_lt_Some _ _ _ Ec). rewrite (Hi _ _ Ec). split; [lia|]. split; [lia|done].
Qed.

Lemma not_queued_resident s t : sched_inv s -> t ∉ queue s (t_coreId (thr s t)) -> not_queued s t.
Proof. intros I Hn c Hc Ht. apply Hn. by rewrite (si_resident _ I c t Hc Ht). Qed.

Lemma paused_not_queued s t : sched_inv s -> t_isPaused (thr s t) = true -> not_queued s t.
Proof. intros I Hp c Hc Ht. pose proof (si_runnable _ I c t Hc Ht). congruence. Qed.

(** Changes to a thread that is in no queue are free. *)
Lemma sched_inv_set_unqueued s t f : sched_inv s -> not_queued s t -> sched_inv (set_thr t f s).
Proof.
  intros I Hn. eapply sched_inv_shrink; [exact I|apply I|]. intros c Hc.
  split; [by apply (si_nodup _ I)|]. intros u Hu. rewrite !thr_set_thr.
  destruct (decide (u = t)) as [->|]; [by destruct (Hn c Hc)|done].
Qed.

Lemma sched_inv_enqueue cur t s s' :
  sched_inv s -> not_queued s t -> t_isPaused (thr s t) = false ->
  InsertThread_enqueue cur t s = inr s' -> sched_inv s'.
Proof.
  intros I Hn Hp E.
  assert (Hc : 0 <= t_coreId (thr s t) < 4).
  { unfold InsertThread_enqueue in E. apply bindM_ok in E as (c & Ec & _). by apply core_at_inv in Ec as [? _]; [|apply I]. }
  destruct (InsertThread_enqueue_queue cur t s (si_cores _ I) Hc) as (s1 & E1 & R).
  rewrite E1 in E. simplify_eq. eapply sched_inv_requeued; [exact I|exact Hc|exact R| |].
  - rewrite enqueued_perm. constructor; [by apply Hn|by apply (si_nodup _ I)].
  - intros u. rewrite enqueued_perm. intros [->|Hu]%elem_of_cons; [done|].
    split; [by apply (si_resident _ I)|by eapply (si_runnable _ I)].
Qed.

Lemma sched_inv_insert cur t s s' b :
  sched_inv s -> not_queued s t -> InsertThread cur t s = inr (s', b) -> sched_inv s'.
Proof.
  intros I Hn E. unfold InsertThread in E. apply bindM_ok in E as (c & Ec & E).
  destruct (t_isPaused (thr s t)) eqn:Hp.
  - injection E as <- <-. by apply sched_inv_set_unqueued.
  - apply bindM_ok in E as (s1 & E1 & [= <- <-]). by eapply sched_inv_enqueue.
Qed.

(** Taking a thread out of its core's queue. *)
Lemma sched_inv_erase s t i :
  sched_inv s -> 0 <= t_coreId (thr s t) < 4 -> index_of t (queue s (t_coreId (thr s t))) = Some i ->
  let s' := set_queue (t_coreId (thr s t)) (erase_at i (queue s (t_coreId (thr s t)))) s in
  sched_inv s' /\ not_queued s' t.
Proof.
  intros I Hc Ei s'. destruct (index_of_split _ _ _ Ei) as (a & b & Eq & Ha & _ & Eer).
  pose proof (si_nodup _ I _ Hc) as Hnd. rewrite Eq in Hnd.
  rewrite <- Permutation_middle in Hnd. apply NoDup_cons in Hnd as [Hn Hnd].
  pose proof (requeued_set_queue _ (erase_at i (queue s (t_coreId (thr s t)))) s (si_cores _ I) Hc) as R.
  fold s' in R. rewrite Eer in R. assert (I' : sched_inv s').
  { eapply sched_inv_requeued; [exact I|exact Hc|exact R|done|]. intros u Hu.
    assert (u ∈ queue s (t_coreId (thr s t))) by (rewrite Eq; set_solver).
    split; [by apply (si_resident _ I)|by eapply (si_runnable _ I)]. }
  split; [done|]. apply not_queued_resident; [done|]. rewrite (rq_core _ _ _ _ R t), (rq_queue _ _ _ _ R). done.
Qed.

Lemma sched_inv_migrate cur t target s s' b :
  sched_inv s -> MigrateToCore cur t (t_coreId (thr s t)) target s = inr (s', b) -> sched_inv s'.
Proof.
  intros I E. unfold MigrateToCore in E. apply bindM_ok in E as (c & Ec & E).
  apply core_at_inv in Ec as (Hc & Hid & Hq); [|apply I]. rewrite Hq in E.
  destruct (index_of t (queue s (t_coreId (thr s t)))) as [i|] eqn:Ei.
  - destruct (sched_inv_erase s t i I Hc Ei) as [I1 Hn1]. revert E.
    match goal with |- InsertThread _ _ (set_thr _ _ ?s2) = _ -> _ =>
      assert (Hs : same_queues (set_queue (t_coreId (thr s t)) (erase_at i (queue s (t_coreId (thr s t)))) s) s2)
        by (destruct i, (erase_at _ _); auto with sky; done); generalize dependent s2 end.
    intros s2 Hs E. assert (I2 : sched_inv s2) by (by eapply sched_inv_same).
    assert (Hn2 : not_queued s2 t).
    { intros c' Hc'. rewrite (same_queues_queue _ _ _ Hs). by apply Hn1. }
    apply (sched_inv_insert cur t (set_thr t (set_t_coreId target) s2) s' b); [by apply sched_inv_set_unqueued|exact Hn2|exact E].
  - injection E as <- <-. apply sched_inv_set_unqueued; [done|].
    apply not_queued_resident; [done|]. by apply index_of_None.
Qed.

(** Reordering a queue. *)
Lemma sched_inv_perm c q s s' :
  sched_inv s -> 0 <= c < 4 -> requeued c q s s' -> q ≡ₚ queue s c -> sched_inv s'.
Proof.
  intros I Hc R P. eapply sched_inv_requeued; [exact I|exact Hc|exact R| |].
  - rewrite P. by apply (si_nodup _ I).
  - intros u. rewrite P. intros Hu. split; [by apply (si_resident _ I)|by eapply (si_runnable _ I)].
Qed.

Lemma sched_inv_rotate now cur s s' : sched_inv s -> Rotate now cur s = inr s' -> sched_inv s'.
Proof.
  intros I E. unfold Rotate in E. apply bindM_ok in E as (c & Ec & E).
  apply core_at_inv in Ec as (Hc & Hid & Hq); [|apply I]. rewrite Hq, Hid in E.
  destruct (queue s (t_coreId (thr s cur))) as [|front rest] eqn:Eq; [done|].
  apply bindM_ok in E as (s1 & E1 & [= <-]).
  assert (I1 : sched_inv s1).
  { destruct (front =? cur).
    - assert (sched_inv (set_queue (t_coreId (thr s cur))
        (splice_front (queue_bound s (prio s cur) (front :: rest)) (front :: rest)) s)) as I1.
      { eapply sched_inv_perm; [exact I|exact Hc|apply requeued_set_queue; [apply I|done]|].
        rewrite Eq. apply splice_front_perm. }
      revert E1 I1. generalize (splice_front (queue_bound s (prio s cur) (front :: rest)) (front :: rest)).
      intros q E1 I1. destruct q as [|f q']; [unfold ok in E1; by simplify_eq|].
      destruct (negb _); injection E1 as <-; [|done]. eapply sched_inv_same; [exact I1|auto with sky].
    - destruct (negb _); [done|]. unfold ok in E1. by simplify_eq. }
  eapply sched_inv_same; [exact I1|]. etrans; [apply same_queues_update_average|apply same_queues_clear_yield].
Qed.

Lemma sched_inv_remove now cur s s' :
  sched_inv s -> 0 <= t_coreId (thr s cur) < 4 -> RemoveThread now cur s = inr s' -> sched_inv s' /\ not_queued s' cur.
Proof.
  intros I Hc E. destruct (RemoveThread_spec now cur s (si_cores _ I) Hc) as (s1 & q & E1 & R & Hq).
  rewrite E1 in E. injection E as <-. pose proof (si_nodup _ I _ Hc) as Hnd.
  assert (NoDup q /\ (forall u, u ∈ q -> u ∈ queue s (t_coreId (thr s cur))) /\ cur ∉ q) as (H1 & H2 & H3).
  { destruct Hq as [[? ->]|(a & b & Eq & Ha & ->)]; [done|]. rewrite Eq in Hnd |- *.
    rewrite <- Permutation_middle in Hnd. apply NoDup_cons in Hnd as [? ?]. split; [done|]. set_solver. }
  assert (I' : sched_inv s1).
  { eapply sched_inv_requeued; [exact I|exact Hc|exact R|done|]. intros u Hu%H2.
    split; [by apply (si_resident _ I)|by eapply (si_runnable _ I)]. }
  split; [done|]. apply not_queued_resident; [done|].
  by rewrite (rq_core _ _ _ _ R cur), (rq_queue _ _ _ _ R).
Qed.


Lemma sched_inv_update_priority t s s' : sched_inv s -> UpdatePriority t s = inr s' -> sched_inv s'.
Proof.
  intros I E. unfold UpdatePriority in E. apply bindM_ok in E as (c & Ec & E).
  apply core_at_inv in Ec as (Hc & Hid & Hq); [|apply I]. rewrite Hq, Hid in E.
  destruct (index_of t (queue s (t_coreId (thr s t)))) as [[|i]|] eqn:Ei; [| |unfold ok in E; by simplify_eq].
  - eapply sched_inv_same; [exact I|].
    repeat match type of E with (if ?b then _ else _) = _ => destruct b end;
      injection E as <-; auto with sky; done.
  - match type of E with (if ?b then _ else _) = _ => destruct b end; [|unfold ok in E; by simplify_eq].
    destruct (index_of_split _ _ _ Ei) as (a & b & Eq & _ & _ & Eer). rewrite Eer in E.
    assert (P : forall q', q' ≡ₚ t :: a ++ b -> sched_inv (set_queue (t_coreId (thr s t)) q' s)).
    { intros q' P. eapply sched_inv_perm; [exact I|exact Hc|apply requeued_set_queue; [apply I|done]|].
      rewrite P, Eq. by rewrite Permutation_middle. }
    destruct (queue_bound s (prio s t) (a ++ b)) as [|k]; [destruct (a ++ b) as [|front rest]|];
      injection E as <-.
    + by apply P.
    + eapply sched_inv_same; [|apply same_queues_yield_front]. apply P. apply Permutation_swap.
    + apply P. apply insert_at_perm.
Qed.

Lemma sched_inv_pause t s s' : sched_inv s -> PauseThread t s = inr s' -> sched_inv s'.
Proof.
  intros I E. unfold PauseThread in E. apply bindM_ok in E as (c & Ec & E).
  apply core_at_inv in Ec as (Hc & Hid & Hq); [|apply I]. rewrite Hq, Hid in E.
  destruct (index_of t (queue s (t_coreId (thr s t)))) as [i|] eqn:Ei; injection E as <-.
  - destruct (sched_inv_erase s t i I Hc Ei) as [I1 Hn1].
    set (q := erase_at i (queue s (t_coreId (thr s t)))) in *.
    assert (I2 : sched_inv (set_queue (t_coreId (thr s t)) q
       (set_thr t (set_t_insertThreadOnResume true) (set_thr t (set_t_isPaused true) s)))).
    { apply (sched_inv_set_unqueued _ t (fun r => set_t_insertThreadOnResume true (set_t_isPaused true r))) in I1; [|done].
      eapply sched_inv_shrink; [exact I1|apply I1|]. intros c' Hc'.
      split; [by apply (si_nodup _ I1)|]. intros u Hu. split; [done|].
      change (thr (set_queue ?a ?b ?s) u) with (thr s u). rewrite !thr_set_thr. by repeat case_decide. }
    revert I2. generalize (set_queue (t_coreId (thr s t)) q
       (set_thr t (set_t_insertThreadOnResume true) (set_thr t (set_t_isPaused true) s))). intros s2 I2.
    assert (I3 : sched_inv match i, q with O, it :: _ => emit (Notify it) s2 | _, _ => s2 end).
    { destruct i, q; try done. eapply sched_inv_same; [exact I2|auto with sky]. }
    destruct (_ && _); [|done]. eapply sched_inv_same; [exact I3|].
    etrans; [apply same_queues_SendSignal|]. etrans; apply same_queues_set_thr; solve_keeps.
  - apply index_of_None in Ei. assert (Hn : not_queued s t) by (by apply not_queued_resident).
    apply sched_inv_set_unqueued; [by apply sched_inv_set_unqueued|done].
Qed.

Lemma sched_inv_resume cur t s s' :
  sched_inv s -> t_isPaused (thr s t) = true -> ResumeThread cur t s = inr s' -> sched_inv s'.
Proof.
  intros I Hp E. assert (Hn : not_queued s t) by (by apply paused_not_queued).
  assert (I1 : sched_inv (set_thr t (set_t_isPaused false) s)) by (by apply sched_inv_set_unqueued).
  unfold ResumeThread in E. destruct (t_insertThreadOnResume _).
  - apply bindM_ok in E as ([s1 b] & E & [= <-]). by eapply sched_inv_insert.
  - injection E as <-. eapply sched_inv_same; [exact I1|auto with sky].
Qed.

(** Changes that leave the resident core and the pause flag alone, the priority among them. *)
Lemma sched_inv_set_thr s t f :
  sched_inv s -> (forall r, t_coreId (f r) = t_coreId r /\ t_isPaused (f r) = t_isPaused r) -> sched_inv (set_thr t f s).
Proof.
  intros I Hf. eapply sched_inv_shrink; [exact I|apply I|]. intros c Hc.
  split; [by apply (si_nodup _ I)|]. intros u Hu. split; [done|]. rewrite !thr_set_thr.
  case_decide as E; [subst; apply Hf|done].
Qed.

Lemma sched_inv_inherit_loop races owner p s : sched_inv s -> sched_inv (inherit_loop races owner p s).1.
Proof.
  assert (Hp : forall s v, sched_inv s -> sched_inv (set_thr owner (set_t_priority v) s)).
  { intros s' v I. by apply sched_inv_set_thr; [|intros []]. }
  revert s. induction races as [|[r|] races IH]; intros s I; simpl; destruct (_ <=? p); simpl; auto.
  destruct (r =? _); simpl; auto.
Qed.

Lemma sched_inv_inheritance races t s s' :
  sched_inv s -> UpdatePriorityInheritance races t s = inr s' -> sched_inv s'.
Proof.
  intros I E. unfold UpdatePriorityInheritance in E.
  destruct (t_waitThread (thr s t)) as [o|]; [|by injection E as <-].
  pose proof (sched_inv_inherit_loop races o (prio s t) s I) as I1.
  destruct (inherit_loop races o (prio s t) s) as [s1 [p|]]; simpl in I1; [|by injection E as <-].
  destruct (negb _); [|by injection E as <-].
  destruct (t_waitThread (thr s1 o)) as [n|]; [|by eapply sched_inv_update_priority].
  destruct (index_of _ _); [|done]. injection E as <-. by apply sched_inv_set_thr; [|intros []].
Qed.

Lemma sched_inv_wake_check cur s s' b : sched_inv s -> wake_check cur s = inr (s', b) -> sched_inv s'.
Proof.
  intros I E. unfold wake_check in E. apply bindM_ok in E as (r & _ & E).
  apply bindM_ok in E as ([s1 b1] & E1 & E). apply bindM_ok in E as (c & _ & E). injection E as <- <-.
  destruct (negb r); [|by injection E1 as <- <-]. apply bindM_ok in E1 as (c1 & _ & E1).
  by eapply sched_inv_migrate.
Qed.

Lemma sched_inv_load_balance now cur s s' b : sched_inv s -> load_balance now cur s = inr (s', b) -> sched_inv s'.
Proof.
  intros I E. unfold load_balance in E. apply bindM_ok in E as (c & _ & E).
  destruct (negb _); [by eapply sched_inv_migrate|by injection E as <- <-].
Qed.

Lemma sched_inv_on_scheduled now cur s s' : sched_inv s -> on_scheduled now cur s = inr s' -> sched_inv s'.
Proof.
  intros I E. unfold on_scheduled in E. apply bindM_ok in E as (c & _ & E). injection E as <-.
  eapply sched_inv_same; [exact I|]. etrans; [|apply same_queues_set_thr; solve_keeps].
  destruct (_ =? _); auto with sky; done.
Qed.

Lemma sched_inv_park_begin now cur s s' b : sched_inv s -> ParkThread_begin now cur s = inr (s', b) -> sched_inv s'.
Proof.
  intros I E. unfold ParkThread_begin in E. apply bindM_ok in E as (s1 & E1 & E).
  assert (Hc : 0 <= t_coreId (thr s cur) < 4).
  { unfold RemoveThread in E1. apply bindM_ok in E1 as (c & Ec & _). by apply core_at_inv in Ec as [? _]; [|apply I]. }
  destruct (sched_inv_remove _ _ _ _ I Hc E1) as [I1 Hn1].
  pose proof (sched_inv_set_unqueued s1 cur (set_t_coreId (park_target s1 cur (t_coreId (thr s1 cur)))) I1 Hn1) as I2.
  destruct (_ =? _); [|by eapply sched_inv_insert]. injection E as <- <-. destruct I2 as [J1 J2 J3 J4]. by split.
Qed.

(** The operations of the scheduler as their callers run them. *)
Inductive sched_op :=
| op_start (now : Z) (cur : option Z) (t : Z)
| op_insert (cur : option Z) (t : Z)
| op_insert_resumed (cur : option Z) (t : Z)
| op_remove (now cur : Z)
| op_rotate (now cur : Z)
| op_signal (now cur : Z) (guest preempt : bool)
| op_wake (now cur : Z)
| op_wait (cur : Z)
| op_balance (now cur : Z)
| op_priority (t p : Z)
| op_inherit (races : list (option Z)) (t : Z)
| op_core (t : Z)
| op_pause (t : Z)
| op_resume (cur : option Z) (t : Z)
| op_kill (t : Z)
| op_park (now cur : Z)
| op_wake_parked (cur : Z).

(** What an operation does to the state: the code of the operation and nothing else. *)
Definition sched_exec (op : sched_op) (s s' : Scheduler) : Prop :=
  match op with
  | op_start now cur t => exists b, Start now cur t s = inr (s', b)
  | op_insert cur t => exists b, InsertThread cur t s = inr (s', b)
  | op_insert_resumed cur t => InsertThread_enqueue cur t s = inr s'
  | op_remove now cur => RemoveThread now cur s = inr s'
  | op_rotate now cur => Rotate now cur s = inr s'
  | op_signal now cur g p => SignalHandler now cur g p s = inr s'
  | op_wake now cur => exists s1, wake_check cur s = inr (s1, true) /\ on_scheduled now cur s1 = inr s'
  | op_wait cur => wake_check cur s = inr (s', false)
  | op_balance now cur => exists b, load_balance now cur s = inr (s', b)
  | op_priority t p => UpdatePriority t (set_thr t (set_t_priority p) s) = inr s'
  | op_inherit races t => UpdatePriorityInheritance races t s = inr s'
  | op_core t => UpdateCore t s = inr s'
  | op_pause t => PauseThread t s = inr s'
  | op_resume cur t => ResumeThread cur t s = inr s'
  | op_kill t => s' = Kill t s
  | op_park now cur => exists b, ParkThread_begin now cur s = inr (s', b)
  | op_wake_parked cur => WakeParkedThread cur s = inr s'
  end.

(** What the callers have to keep and the operations do not check.  A thread is inserted when it
    is in no queue (it is new, or it removed itself before it waited), a blocked insertion goes
    on when the thread is not paused any more, only a paused thread is resumed, and the first
    parked thread is in no core queue.  [ParkThread_resume_keeps_parked] is a run of the code
    after which the last of these does not hold. *)
Definition caller_contract (op : sched_op) (s : Scheduler) : Prop :=
  match op with
  | op_start _ _ t | op_insert _ t => not_queued s t
  | op_insert_resumed _ t => not_queued s t /\ t_isPaused (thr s t) = false
  | op_resume _ t => t_isPaused (thr s t) = true
  | op_wake_parked _ => forall p q, parkedQueue s = p :: q -> not_queued s p
  | _ => True
  end.

Definition sched_step (s s' : Scheduler) : Prop :=
  exists op, caller_contract op s /\ sched_exec op s s'.

Lemma sched_inv_start now cur t s s' b :
  sched_inv s -> not_queued s t -> Start now cur t s = inr (s', b) -> sched_inv s'.
Proof.
  intros I Hn E. unfold Start in E. destruct (t_running (thr s t)); [by injection E as <- <-|].
  apply bindM_ok in E as (c & _ & E). apply bindM_ok in E as ([s1 b1] & E & E2). injection E2 as <- <-.
  assert (I1 : sched_inv s1).
  { eapply (sched_inv_insert cur t (set_thr t (set_t_coreId c) s)); [by apply sched_inv_set_unqueued|done|exact E]. }
  eapply sched_inv_same; [exact I1|]. etrans; [|apply same_queues_emit].
  etrans; apply same_queues_set_thr; solve_keeps.
Qed.

Lemma sched_inv_wake_parked cur s s' :
  sched_inv s -> (forall p q, parkedQueue s = p :: q -> not_queued s p) ->
  WakeParkedThread cur s = inr s' -> sched_inv s'.
Proof.
  intros I Hp E. unfold WakeParkedThread in E. destruct (parkedQueue s) as [|p q]; [by injection E as <-|].
  apply bindM_ok in E as (c & _ & E). destruct (core_queue c) as [|? [|n ?]]; [done|done|].
  match type of E with (if ?b then _ else _) = _ => destruct b end; injection E as <-; [|done].
  eapply sched_inv_same; [|apply same_queues_emit]. apply sched_inv_set_unqueued; [done|by eapply Hp].
Qed.

Lemma sched_step_inv s s' : sched_step s s' -> sched_inv s -> sched_inv s'.
Proof.
  intros (op & C & E) I. destruct op as [now cur t|cur t|cur t|now cur|now cur|now cur g p|now cur|cur|now cur|t p|races t
    |t|t|cur t|t|now cur|cur]; simpl in C, E;
    try match type of E with exists _ : bool, _ => destruct E as [b E] end.
  - by eapply sched_inv_start.
  - by eapply sched_inv_insert.
  - destruct C. by eapply sched_inv_enqueue.
  - assert (Hc : 0 <= t_coreId (thr s cur) < 4).
    { unfold RemoveThread in E. apply bindM_ok in E as (c & Ec & _). by apply core_at_inv in Ec as [? _]; [|apply I]. }
    by eapply sched_inv_remove.
  - by eapply sched_inv_rotate.
  - unfold SignalHandler in E. destruct g.
    + apply bindM_ok in E as (s1 & E & E2). injection E2 as <-. apply sched_inv_set_thr; [|by intros []].
      eapply sched_inv_rotate; [|exact E]. destruct p; [|done]. by apply sched_inv_set_thr; [|intros []].
    + injection E as <-. by apply sched_inv_set_thr; [|intros []].
  - destruct E as (s1 & E1 & E2). eapply sched_inv_on_scheduled; [|exact E2]. by eapply sched_inv_wake_check.
  - by eapply sched_inv_wake_check.
  - by eapply sched_inv_load_balance.
  - eapply sched_inv_update_priority; [|exact E]. by apply sched_inv_set_thr; [|intros []].
  - by eapply sched_inv_inheritance.
  - unfold UpdateCore in E. apply bindM_ok in E as (c & _ & E). destruct (core_queue c); [done|].
    injection E as <-. eapply sched_inv_same; [exact I|]. destruct (_ =? t); auto with sky.
  - by eapply sched_inv_pause.
  - by eapply sched_inv_resume.
  - subst s'. eapply sched_inv_same; [exact I|]. unfold Kill. destruct (_ && _); [|done].
    etrans; [apply same_queues_emit|apply same_queues_set_thr; solve_keeps].
  - by eapply sched_inv_park_begin.
  - by eapply sched_inv_wake_parked.
Qed.

(** C7: the scheduler keeps its placement invariant as long as its callers keep their contract.
    From a state that satisfies it, however the operations (start, insert, remove, rotate, the
    signal handler, waking, load balancing, priority changes and inheritance, pausing, resuming,
    killing, parking) interleave, every thread is in at most one core queue, that queue is the
    one of the core it is resident on, and no queued thread is paused.  The contract is not
    checked by the code: a thread that is inserted is in no queue, a blocked insertion goes on
    when the thread is no longer paused, only a paused thread is resumed, and
    [WakeParkedThread] finds a thread in no core queue at the head of the parked queue.  The last
    one the code itself breaks: a parked thread that is resumed stays in the parked queue
    ([ParkThread_resume_keeps_parked]), so runs that wake it a second time are not covered. *)
Theorem sched_reachable_inv s s' : sched_inv s -> rtc sched_step s s' -> sched_inv s'.
Proof. intros I H. induction H as [|s s1 s2 St _ IH]; [done|]. apply IH. by eapply sched_step_inv. Qed.

Lemma sched_inv_empty m : sched_inv (mk_sched initial_cores [] m []).
Proof.
  assert (Hq : forall c, 0 <= c < 4 -> queue (mk_sched initial_cores [] m []) c = []).
  { intros c Hc. assert (c = 0 \/ c = 1 \/ c = 2 \/ c = 3) as [->|[->|[->| ->]]] by lia; done. }
  split; [|intros c Hc; rewrite Hq by done; constructor|intros c t Hc; rewrite Hq by done; set_solver..].
  split; [done|]. intros [|[|[|[|i]]]] c H; simplify_eq/=; done.
Qed.

Definition sample_threads : gmap Z KThread :=
  <[1 := sample_thread 1 44 0]> (<[2 := sample_thread 2 44 0]> (<[3 := sample_thread 3 50 0]> ∅)).

Lemma sched_reachable_inv_witness :
  exists s s', InsertThread None 1 (mk_sched initial_cores [] sample_threads []) = inr (s, true) /\
    PauseThread 1 s = inr s' /\ sched_inv s' /\ queue s' 0 = [].
Proof.
  eexists _, _. split; [vm_compute; reflexivity|]. split; [vm_compute; reflexivity|].
  split; [|reflexivity]. eapply sched_reachable_inv; [apply (sched_inv_empty sample_threads)|].
  eapply rtc_l; [exists (op_insert None 1); split; [|exists true; vm_compute; reflexivity]|].
  - intros c Hc. assert (c = 0 \/ c = 1 \/ c = 2 \/ c = 3) as [->|[->|[->| ->]]] by lia; vm_compute; set_solver.
  - eapply rtc_l; [exists (op_pause 1); split; [exact I|vm_compute; reflexivity]|apply rtc_refl].
Defined.

(** [WakeParkedThread] assumes a second thread.  When some thread is parked and the caller
    is alone in the queue of its core, the operation dereferences the null [nextThread], whatever
    the priorities are. *)
Theorem WakeParkedThread_alone_is_undefined cur p rest s :
  let c := t_coreId (thr s cur) in
  cores_ok s -> 0 <= c < 4 -> parkedQueue s = p :: rest -> queue s c = [cur] ->
  WakeParkedThread cur s = inl (Undefined "WakeParkedThread: null nextThread").
Proof.
  intros c Hok Hc Hp Hq. unfold WakeParkedThread. rewrite Hp. fold c.
  destruct (core_at_ok s c Hok Hc) as (core & -> & _ & Hcq). simpl. by rewrite Hcq, Hq.
Qed.

Definition sample_parked : Scheduler :=
  set_parked [3] (set_thr 3 (set_t_coreId ParkedCoreId) (set_queue 0 [1] (mk_sched initial_cores [] sample_threads []))).

Lemma WakeParkedThread_alone_is_undefined_witness :
  WakeParkedThread 1 sample_parked = inl (Undefined "WakeParkedThread: null nextThread").
Proof.
  apply (WakeParkedThread_alone_is_undefined 1 3 [] sample_parked);
    [|vm_compute; split; congruence|reflexivity|reflexivity].
  split; [done|]. intros [|[|[|[|i]]]] c H; simplify_eq/=; done.
Defined.

(** a woken thread stays in the parked queue.  Resuming from [ParkThread] never takes the
    thread out of [parkedQueue], so a later [WakeParkedThread] still finds it there. *)
Theorem ParkThread_resume_keeps_parked cur s s' b :
  ParkThread_resume cur s = inr (s', b) -> parkedQueue s' = parkedQueue s.
Proof.
  unfold ParkThread_resume, InsertThread. intros E. apply bindM_ok in E as (c & _ & E).
  destruct (t_isPaused _); [by injection E as <- <-|]. apply bindM_ok in E as (s1 & E & E2).
  injection E2 as <- <-. unfold InsertThread_enqueue in E. apply bindM_ok in E as (c1 & _ & E).
  destruct (queue_bound _ _ _); [|by injection E as <-]. destruct (core_queue c1); injection E as <-;
    repeat case_decide; try done; destruct (negb _); try done; unfold SendSignal; by destruct (_ && _).
Qed.

Lemma ParkThread_resume_keeps_parked_witness :
  exists s' b, ParkThread_resume 3 (set_thr 3 (set_t_coreId 0) sample_parked) = inr (s', b) /\
    parkedQueue s' = [3] /\ queue s' 0 = [1; 3].
Proof.
  eexists _, _. split; [vm_compute; reflexivity|]. split; [|reflexivity].
  eapply (ParkThread_resume_keeps_parked 3 (set_thr 3 (set_t_coreId 0) sample_parked)). vm_compute. reflexivity.
Defined.
