(* ===== verification/KObjects.v ===== *)
(** * Kernel objects and the process state ([kernel/types/*.h], [kernel/types/K*Memory.cpp])

    A kernel object is named by a reference, the identity of the object the source reaches
    through [std::shared_ptr]; the objects live in a store.  Every copy of a pointer that keeps
    an object alive is part of the state (handle table, process fields, references held by
    services), so that the destructors of memory objects run when the last of them goes.

    Guest memory is a function from addresses to bytes.  What a host mapping call does to the
    contents of memory (a shared file appearing at a guest address) is not modelled; the calls
    themselves are recorded in order.  Whether a call succeeds is decided by a function on
    calls, an argument of the operations. *)

From S2P Require Import Prelude Common MemoryManager Scheduler.

(** ** Objects *)

Inductive KType : Type :=
| KT_KThread | KT_KProcess | KT_KSharedMemory | KT_KTransferMemory | KT_KPrivateMemory | KT_KSession | KT_KEvent.
#[global] Instance KType_eq_dec : EqDecision KType.
Proof. solve_decision. Defined.

Record KSyncObject : Type := mk_sync { signalled : bool; syncObjectWaiters : list Z }.

Record KPrivateMemory : Type := mk_private { pm_guest : span; pm_permission : Permission; pm_memoryState : Z }.

Record KSharedMemory : Type := mk_shared { sm_guest : span; sm_memoryState : Z; sm_host : span }.

(** Services are opaque identities; a closed virtual handle of a domain is [None]. *)
Record KSession : Type := mk_session {
  serviceObject : Z; domains : list (option Z); handleIndex : Z; isOpen : bool; isDomain : bool }.

Inductive KObject : Type :=
| OThread (o : KSyncObject)
| OProcess (o : KSyncObject)
| OSharedMemory (m : KSharedMemory)
| OTransferMemory (m : KSharedMemory)
| OPrivateMemory (m : KPrivateMemory)
| OSession (o : KSyncObject) (s : KSession)
| OEvent (o : KSyncObject).

Definition objectType (o : KObject) : KType :=
  match o with
  | OThread _ => KT_KThread | OProcess _ => KT_KProcess | OSharedMemory _ => KT_KSharedMemory
  | OTransferMemory _ => KT_KTransferMemory | OPrivateMemory _ => KT_KPrivateMemory
  | OSession _ _ => KT_KSession | OEvent _ => KT_KEvent
  end.

(** [static_pointer_cast<KSyncObject>]. *)
Definition sync_of (o : KObject) : option KSyncObject :=
  match o with
  | OThread s | OProcess s | OSession s _ | OEvent s => Some s
  | _ => None
  end.

Definition with_sync (s : KSyncObject) (o : KObject) : KObject :=
  match o with
  | OThread _ => OThread s | OProcess _ => OProcess s | OEvent _ => OEvent s
  | OSession _ x => OSession s x
  | _ => o
  end.

(** [static_pointer_cast<KMemory>]: the guest range of a memory object. *)
Definition guest_of (o : KObject) : option span :=
  match o with
  | OPrivateMemory m => Some (pm_guest m)
  | OSharedMemory m | OTransferMemory m => Some (sm_guest m)
  | _ => None
  end.

(** The virtual handle of the service in the domain, and the session. *)
Definition ConvertDomain (s : KSession) : KSession * Z :=
  (mk_session (serviceObject s) (domains s ++ [Some (serviceObject s)]) (u32 (handleIndex s + 1)) (isOpen s) true,
   handleIndex s).

(** ** State of the process *)

(** The fields of the metadata the kernel reads. *)
Record NPDM : Type := mk_npdm {
  npdm_addressSpaceType : AddressSpaceType;
  npdm_mainThreadPriority : Z;
  npdm_idealCore : Z;
  npdm_systemResourceSize : Z;
  npdm_mainThreadStackSize : Z;
  npdm_programId : Z;
  npdm_priority : Priority;
  npdm_coreMask : Z;
  npdm_minorVersion : Z;
  npdm_majorVersion : Z }.

Record TlsPage : Type := mk_tls { tls_index : Z; tls_memory : Z }.

Definition guest_memory : Type := Z -> Z.

(** Host calls of the kernel objects, in program order. *)
Inductive kcall : Type :=
| K_create (size : Z)
| K_mmap_host (size : Z)
| K_mprotect (addr size prot : Z)
| K_mmap_shared (object addr size prot : Z)
| K_mmap_memory (addr size prot offset : Z)
| K_munmap (addr size : Z)
| K_close (object : Z).

(** The host: whether a call succeeds, and where an unplaced mapping of a size goes. *)
Record host_env : Type := mk_env { call_ok : kcall -> bool; mmap_any : Z -> option Z }.

Record Kernel : Type := mk_kernel {
  k_memory : MemoryManager;
  k_handles : list (option Z);
  k_objects : gmap Z KObject;
  k_next : Z;
  k_disableThreadCreation : bool;
  k_alreadyKilled : bool;
  k_threads : list Z;
  k_syncWaiters : gmap Z (list Z);
  k_tlsPages : list TlsPage;
  k_tlsExceptionContext : Z;
  k_mainThreadStack : option Z;
  k_heap : option Z;
  k_npdm : NPDM;
  k_held : list Z;
  k_sched : Scheduler;
  k_ram : guest_memory;
  k_calls : list kcall;
  k_services : gmap Z Z }.

Definition set_k_memory (v : MemoryManager) (r : Kernel) : Kernel :=
  mk_kernel v (k_handles r) (k_objects r) (k_next r) (k_disableThreadCreation r) (k_alreadyKilled r) (k_threads r) (k_syncWaiters r) (k_tlsPages r) (k_tlsExceptionContext r) (k_mainThreadStack r) (k_heap r) (k_npdm r) (k_held r) (k_sched r) (k_ram r) (k_calls r) (k_services r).
Definition set_k_handles (v : list (option Z)) (r : Kernel) : Kernel :=
  mk_kernel (k_memory r) v (k_objects r) (k_next r) (k_disableThreadCreation r) (k_alreadyKilled r) (k_threads r) (k_syncWaiters r) (k_tlsPages r) (k_tlsExceptionContext r) (k_mainThreadStack r) (k_heap r) (k_npdm r) (k_held r) (k_sched r) (k_ram r) (k_calls r) (k_services r).
Definition set_k_objects (v : gmap Z KObject) (r : Kernel) : Kernel :=
  mk_kernel (k_memory r) (k_handles r) v (k_next r) (k_disableThreadCreation r) (k_alreadyKilled r) (k_threads r) (k_syncWaiters r) (k_tlsPages r) (k_tlsExceptionContext r) (k_mainThreadStack r) (k_heap r) (k_npdm r) (k_held r) (k_sched r) (k_ram r) (k_calls r) (k_services r).
Definition set_k_next (v : Z) (r : Kernel) : Kernel :=
  mk_kernel (k_memory r) (k_handles r) (k_objects r) v (k_disableThreadCreation r) (k_alreadyKilled r) (k_threads r) (k_syncWaiters r) (k_tlsPages r) (k_tlsExceptionContext r) (k_mainThreadStack r) (k_heap r) (k_npdm r) (k_held r) (k_sched r) (k_ram r) (k_calls r) (k_services r).
Definition set_k_disableThreadCreation (v : bool) (r : Kernel) : Kernel :=
  mk_kernel (k_memory r) (k_handles r) (k_objects r) (k_next r) v (k_alreadyKilled r) (k_threads r) (k_syncWaiters r) (k_tlsPages r) (k_tlsExceptionContext r) (k_mainThreadStack r) (k_heap r) (k_npdm r) (k_held r) (k_sched r) (k_ram r) (k_calls r) (k_services r).
Definition set_k_alreadyKilled (v : bool) (r : Kernel) : Kernel :=
  mk_kernel (k_memory r) (k_handles r) (k_objects r) (k_next r) (k_disableThreadCreation r) v (k_threads r) (k_syncWaiters r) (k_tlsPages r) (k_tlsExceptionContext r) (k_mainThreadStack r) (k_heap r) (k_npdm r) (k_held r) (k_sched r) (k_ram r) (k_calls r) (k_services r).
Definition set_k_threads (v : list Z) (r : Kernel) : Kernel :=
  mk_kernel (k_memory r) (k_handles r) (k_objects r) (k_next r) (k_disableThreadCreation r) (k_alreadyKilled r) v (k_syncWaiters r) (k_tlsPages r) (k_tlsExceptionContext r) (k_mainThreadStack r) (k_heap r) (k_npdm r) (k_held r) (k_sched r) (k_ram r) (k_calls r) (k_services r).
Definition set_k_syncWaiters (v : gmap Z (list Z)) (r : Kernel) : Kernel :=
  mk_kernel (k_memory r) (k_handles r) (k_objects r) (k_next r) (k_disableThreadCreation r) (k_alreadyKilled r) (k_threads r) v (k_tlsPages r) (k_tlsExceptionContext r) (k_mainThreadStack r) (k_heap r) (k_npdm r) (k_held r) (k_sched r) (k_ram r) (k_calls r) (k_services r).
Definition set_k_tlsPages (v : list TlsPage) (r : Kernel) : Kernel :=
  mk_kernel (k_memory r) (k_handles r) (k_objects r) (k_next r) (k_disableThreadCreation r) (k_alreadyKilled r) (k_threads r) (k_syncWaiters r) v (k_tlsExceptionContext r) (k_mainThreadStack r) (k_heap r) (k_npdm r) (k_held r) (k_sched r) (k_ram r) (k_calls r) (k_services r).
Definition set_k_tlsExceptionContext (v : Z) (r : Kernel) : Kernel :=
  mk_kernel (k_memory r) (k_handles r) (k_objects r) (k_next r) (k_disableThreadCreation r) (k_alreadyKilled r) (k_threads r) (k_syncWaiters r) (k_tlsPages r) v (k_mainThreadStack r) (k_heap r) (k_npdm r) (k_held r) (k_sched r) (k_ram r) (k_calls r) (k_services r).
Definition set_k_mainThreadStack (v : option Z) (r : Kernel) : Kernel :=
  mk_kernel (k_memory r) (k_handles r) (k_objects r) (k_next r) (k_disableThreadCreation r) (k_alreadyKilled r) (k_threads r) (k_syncWaiters r) (k_tlsPages r) (k_tlsExceptionContext r) v (k_heap r) (k_npdm r) (k_held r) (k_sched r) (k_ram r) (k_calls r) (k_services r).
Definition set_k_heap (v : option Z) (r : Kernel) : Kernel :=
  mk_kernel (k_memory r) (k_handles r) (k_objects r) (k_next r) (k_disableThreadCreation r) (k_alreadyKilled r) (k_threads r) (k_syncWaiters r) (k_tlsPages r) (k_tlsExceptionContext r) (k_mainThreadStack r) v (k_npdm r) (k_held r) (k_sched r) (k_ram r) (k_calls r) (k_services r).
Definition set_k_npdm (v : NPDM) (r : Kernel) : Kernel :=
  mk_kernel (k_memory r) (k_handles r) (k_objects r) (k_next r) (k_disableThreadCreation r) (k_alreadyKilled r) (k_threads r) (k_syncWaiters r) (k_tlsPages r) (k_tlsExceptionContext r) (k_mainThreadStack r) (k_heap r) v (k_held r) (k_sched r) (k_ram r) (k_calls r) (k_services r).
Definition set_k_held (v : list Z) (r : Kernel) : Kernel :=
  mk_kernel (k_memory r) (k_handles r) (k_objects r) (k_next r) (k_disableThreadCreation r) (k_alreadyKilled r) (k_threads r) (k_syncWaiters r) (k_tlsPages r) (k_tlsExceptionContext r) (k_mainThreadStack r) (k_heap r) (k_npdm r) v (k_sched r) (k_ram r) (k_calls r) (k_services r).
Definition set_k_sched (v : Scheduler) (r : Kernel) : Kernel :=
  mk_kernel (k_memory r) (k_handles r) (k_objects r) (k_next r) (k_disableThreadCreation r) (k_alreadyKilled r) (k_threads r) (k_syncWaiters r) (k_tlsPages r) (k_tlsExceptionContext r) (k_mainThreadStack r) (k_heap r) (k_npdm r) (k_held r) v (k_ram r) (k_calls r) (k_services r).
Definition set_k_ram (v : guest_memory) (r : Kernel) : Kernel :=
  mk_kernel (k_memory r) (k_handles r) (k_objects r) (k_next r) (k_disableThreadCreation r) (k_alreadyKilled r) (k_threads r) (k_syncWaiters r) (k_tlsPages r) (k_tlsExceptionContext r) (k_mainThreadStack r) (k_heap r) (k_npdm r) (k_held r) (k_sched r) v (k_calls r) (k_services r).
Definition set_k_calls (v : list kcall) (r : Kernel) : Kernel :=
  mk_kernel (k_memory r) (k_handles r) (k_objects r) (k_next r) (k_disableThreadCreation r) (k_alreadyKilled r) (k_threads r) (k_syncWaiters r) (k_tlsPages r) (k_tlsExceptionContext r) (k_mainThreadStack r) (k_heap r) (k_npdm r) (k_held r) (k_sched r) (k_ram r) v (k_services r).
Definition set_k_services (v : gmap Z Z) (r : Kernel) : Kernel :=
  mk_kernel (k_memory r) (k_handles r) (k_objects r) (k_next r) (k_disableThreadCreation r) (k_alreadyKilled r) (k_threads r) (k_syncWaiters r) (k_tlsPages r) (k_tlsExceptionContext r) (k_mainThreadStack r) (k_heap r) (k_npdm r) (k_held r) (k_sched r) (k_ram r) (k_calls r) v.

Definition emit_call (c : kcall) (s : Kernel) : Kernel := set_k_calls (k_calls s ++ [c]) s.

Definition get_object (s : Kernel) (ref : Z) : option KObject := k_objects s !! ref.
Definition put_object (ref : Z) (o : KObject) (s : Kernel) : Kernel :=
  set_k_objects (<[ref := o]> (k_objects s)) s.

(** [std::make_shared]: a fresh reference. *)
Definition new_object (o : KObject) (s : Kernel) : Kernel * Z :=
  (set_k_next (k_next s + 1) (put_object (k_next s) o s), k_next s).

Definition insert_chunk (c : ChunkDescriptor) (s : Kernel) : M Kernel :=
  let! m := InsertChunk (k_memory s) c in ok (set_k_memory m s).

Definition PROT_RWX : Z := Z.lor (Z.lor PROT_READ PROT_WRITE) PROT_EXEC.
Definition PROT_NONE : Z := 0.

(** A host call whose failure is an exception. *)
Definition host_call (env : host_env) (c : kcall) (site : string) (s : Kernel) : M Kernel :=
  if call_ok env c then ok (emit_call c s) else fail (Throw site).

(** ** KPrivateMemory *)

(** The common range checks of the memory objects. *)
Definition check_guest_range (s : Kernel) (map : span) : M unit :=
  if negb (contains_span (base (k_memory s)) map) then fail (Throw "allocation isn't inside guest address space")
  else if negb (IsPageAligned (sp_data map)) || negb (IsPageAligned (sp_size map))
  then fail (Throw "mapping isn't page-aligned")
  else ok tt.

Definition KPrivateMemory_new (env : host_env) (guest : span) (permission : Permission) (memState : Z) (s : Kernel)
    : M (Kernel * Z) :=
  let! _ := check_guest_range s guest in
  let! s := host_call env (K_mprotect (sp_data guest) (sp_size guest) PROT_RWX) "mapping private memory" s in
  let! s := insert_chunk (mk_chunk (sp_data guest) (sp_size guest) permission memState 0) s in
  ok (new_object (OPrivateMemory (mk_private guest permission memState)) s).

Definition KPrivateMemory_Resize (env : host_env) (ref : Z) (m : KPrivateMemory) (nSize : Z) (s : Kernel) : M Kernel :=
  let guest := pm_guest m in
  let! s := host_call env (K_mprotect (sp_data guest) nSize PROT_RWX) "resizing private memory" s in
  let! s :=
    if nSize <? sp_size guest then
      insert_chunk (mk_chunk (u64 (sp_data guest + nSize)) (sp_size guest - nSize) no_permission states_Unmapped 0) s
    else if sp_size guest <? nSize then
      insert_chunk (mk_chunk (u64 (sp_data guest + sp_size guest)) (nSize - sp_size guest)
                      (pm_permission m) (pm_memoryState m) 0) s
    else ok s in
  ok (put_object ref (OPrivateMemory (mk_private (mk_span (sp_data guest) nSize) (pm_permission m) (pm_memoryState m))) s).

Definition KPrivateMemory_Remap (env : host_env) (m : KPrivateMemory) (map : span) (s : Kernel) : M Kernel :=
  let! _ := check_guest_range s map in
  let! s := host_call env (K_mprotect (sp_data (pm_guest m)) (sp_size (pm_guest m)) PROT_NONE) "remapping private memory" s in
  host_call env (K_mprotect (sp_data map) (sp_size map) PROT_RWX) "remapping private memory" s.

(** [std::clamp]. *)
Definition clamp (v lo hi : Z) : Z := if v <? lo then lo else if hi <? v then hi else v.

Definition KPrivateMemory_UpdatePermission (ref : Z) (m : KPrivateMemory) (map : span) (permission : Permission)
    (s : Kernel) : M Kernel :=
  let guest := pm_guest m in
  let ptr := clamp (sp_data map) (sp_data guest) (span_end guest) in
  let size := Z.min (sp_size map) (u64 (span_end guest - ptr)) in
  if negb (ptr =? 0) && negb (IsPageAligned ptr)
  then fail (Throw "permission updated with a non-page-aligned address")
  else
    let memoryState := if (pm_memoryState m =? states_CodeStatic) && perm_w permission
                       then states_CodeMutable else pm_memoryState m in
    let s := put_object ref (OPrivateMemory (mk_private guest (pm_permission m) memoryState)) s in
    insert_chunk (mk_chunk ptr size permission memoryState 0) s.

Definition KPrivateMemory_destroy (m : KPrivateMemory) (s : Kernel) : M Kernel :=
  let guest := pm_guest m in
  let s := emit_call (K_mprotect (sp_data guest) (sp_size guest) PROT_NONE) s in
  insert_chunk (mk_chunk (sp_data guest) (sp_size guest) no_permission states_Unmapped 0) s.

(** ** KSharedMemory and KTransferMemory *)

Definition shared_object (type : KType) (m : KSharedMemory) : KObject :=
  match type with KT_KTransferMemory => OTransferMemory m | _ => OSharedMemory m end.

Definition is_transfer (type : KType) : bool :=
  match type with KT_KTransferMemory => true | _ => false end.

Definition KSharedMemory_new (env : host_env) (size memState : Z) (type : KType) (s : Kernel) : M (Kernel * Z) :=
  let! s := host_call env (K_create size) "creating shared memory" s in
  match mmap_any env size with
  | None => fail (Throw "mapping shared memory")
  | Some hostPtr =>
      ok (new_object (shared_object type (mk_shared null_span memState (mk_span hostPtr size)))
            (emit_call (K_mmap_host size) s))
  end.

Definition KSharedMemory_Map (env : host_env) (ref : Z) (type : KType) (m : KSharedMemory) (map : span)
    (permission : Permission) (s : Kernel) : M Kernel :=
  let! _ := check_guest_range s map in
  if span_valid (sm_guest m) then fail (Throw "Mapping KSharedMemory multiple times on guest is not supported")
  else
    let! guestPtr :=
      if sp_data map =? 0 then from_opt (Throw "mapping shared memory in guest") (mmap_any env (sp_size map))
      else ok (sp_data map) in
    let! s := host_call env (K_mmap_shared ref (sp_data map) (sp_size map) (Permission_Get permission))
                "mapping shared memory in guest" s in
    let guest := mk_span guestPtr (sp_size map) in
    let s := put_object ref (shared_object type (mk_shared guest (sm_memoryState m) (sm_host m))) s in
    insert_chunk (mk_chunk (sp_data guest) (sp_size guest) permission (sm_memoryState m)
                    (attr_borrowed (is_transfer type))) s.

(** Offset of a guest address in the file that backs the address space. *)
Definition memory_offset (s : Kernel) (ptr : Z) : Z := u64 (ptr - sp_data (base (k_memory s))).

Definition KSharedMemory_Unmap (env : host_env) (ref : Z) (type : KType) (m : KSharedMemory) (map : span)
    (s : Kernel) : M Kernel :=
  let! _ := check_guest_range s map in
  if negb (sp_data (sm_guest m) =? sp_data map) && negb (sp_size (sm_guest m) =? sp_size map)
  then fail (Throw "Unmapping KSharedMemory partially is not supported")
  else
    let! s := host_call env (K_mmap_memory (sp_data map) (sp_size map) PROT_NONE (memory_offset s (sp_data map)))
                "unmapping shared memory in guest" s in
    let s := put_object ref (shared_object type (mk_shared null_span (sm_memoryState m) (sm_host m))) s in
    insert_chunk (mk_chunk (sp_data map) (sp_size map) no_permission states_Unmapped 0) s.

(** The address MAP_FAILED. *)
Definition MAP_FAILED : Z := 2 ^ 64 - 1.

Definition KSharedMemory_UpdatePermission (type : KType) (m : KSharedMemory) (map : span)
    (permission : Permission) (s : Kernel) : M Kernel :=
  if span_valid map && negb (IsPageAligned (sp_data map))
  then fail (Throw "permission updated with a non-page-aligned address")
  else if span_valid (sm_guest m) then
    let s := emit_call (K_mprotect (sp_data map) (sp_size map) (Permission_Get permission)) s in
    if sp_data (sm_guest m) =? MAP_FAILED then fail (Throw "updating shared memory's permissions in guest")
    else insert_chunk (mk_chunk (sp_data map) (sp_size map) permission (sm_memoryState m)
                         (attr_borrowed (is_transfer type))) s
  else ok s.

Definition UnborrowPermission : Permission := mk_perm true true false.

Definition KSharedMemory_destroy (ref : Z) (type : KType) (m : KSharedMemory) (s : Kernel) : M Kernel :=
  let guest := sm_guest m in
  let! s :=
    if span_valid guest then
      if negb (is_transfer type) then
        insert_chunk (mk_chunk (sp_data guest) (sp_size guest) no_permission states_Unmapped 0)
          (emit_call (K_mmap_memory (sp_data guest) (sp_size guest) PROT_NONE (memory_offset s (sp_data guest))) s)
      else
        insert_chunk (mk_chunk (sp_data guest) (sp_size guest) UnborrowPermission (sm_memoryState m) (attr_borrowed false))
          (emit_call (K_mmap_memory (sp_data guest) (sp_size guest) (Permission_Get UnborrowPermission)
                        (memory_offset s (sp_data guest))) s)
    else ok s in
  let s := if span_valid (sm_host m) then emit_call (K_munmap (sp_data (sm_host m)) (sp_size (sm_host m))) s else s in
  ok (emit_call (K_close ref) s).

(** The guest contents are copied into the shared file before it is mapped over them. *)
Definition KTransferMemory_new (env : host_env) (ptr size : Z) (permission : Permission) (memState : Z) (s : Kernel)
    : M (Kernel * Z) :=
  let! (s, ref) := KSharedMemory_new env size memState KT_KTransferMemory s in
  match get_object s ref with
  | Some (OTransferMemory m) =>
      let! s := KSharedMemory_Map env ref KT_KTransferMemory m (mk_span ptr size) permission s in ok (s, ref)
  | _ => fail (Undefined "KTransferMemory")
  end.

(** ** Virtual calls and lifetime *)

(** [KMemory::UpdatePermission] of a memory object. *)
Definition UpdatePermission (ref : Z) (map : span) (permission : Permission) (s : Kernel) : M Kernel :=
  match get_object s ref with
  | Some (OPrivateMemory m) => KPrivateMemory_UpdatePermission ref m map permission s
  | Some (OSharedMemory m) => KSharedMemory_UpdatePermission KT_KSharedMemory m map permission s
  | Some (OTransferMemory m) => KSharedMemory_UpdatePermission KT_KTransferMemory m map permission s
  | _ => fail (Undefined "UpdatePermission on an object that is not memory")
  end.

(** Whether some pointer in the state keeps the object alive. *)
Definition referenced (s : Kernel) (ref : Z) : bool :=
  bool_decide (Some ref ∈ k_handles s) || bool_decide (k_heap s = Some ref)
  || bool_decide (k_mainThreadStack s = Some ref)
  || bool_decide (ref ∈ (tls_memory <$> k_tlsPages s)) || bool_decide (ref ∈ k_held s).

(** Runs the destructor of a memory object no pointer refers to any more.  Threads are kept alive
    by the thread list of the process, and the destructors of the remaining classes do not act
    on the kernel's state, so their records stay. *)
Definition release (ref : Z) (s : Kernel) : M Kernel :=
  if referenced s ref then ok s
  else
    let gone s := set_k_objects (delete ref (k_objects s)) s in
    match get_object s ref with
    | Some (OPrivateMemory m) => let! s := KPrivateMemory_destroy m s in ok (gone s)
    | Some (OSharedMemory m) => let! s := KSharedMemory_destroy ref KT_KSharedMemory m s in ok (gone s)
    | Some (OTransferMemory m) => let! s := KSharedMemory_destroy ref KT_KTransferMemory m s in ok (gone s)
    | _ => ok s
    end.

(** ** Invariant *)

Definition in_base (s : Kernel) (g : span) : Prop :=
  sp_data (base (k_memory s)) <= sp_data g /\ 0 <= sp_size g /\
  sp_data g + sp_size g <= sp_data (base (k_memory s)) + sp_size (base (k_memory s)).

(** The regions of two managers agree; only the chunks may differ. *)
Definition same_regions (m m' : MemoryManager) : Prop :=
  base m' = base m /\ code m' = code m /\ alias m' = alias m /\ heap m' = heap m
  /\ stack m' = stack m /\ tlsIo m' = tlsIo m.

#[global] Instance same_regions_refl : Reflexive same_regions.
Proof. by repeat split. Qed.
#[global] Instance same_regions_trans : Transitive same_regions.
Proof. unfold same_regions. intros m1 m2 m3 (?&?&?&?&?&?) (?&?&?&?&?&?). repeat split; congruence. Qed.

(** Private memory is always mapped, shared memory when its guest range is set. *)
Definition guest_ok (s : Kernel) (o : KObject) : Prop :=
  match o with
  | OPrivateMemory m => in_base s (pm_guest m)
  | OSharedMemory m | OTransferMemory m => span_valid (sm_guest m) = true -> in_base s (sm_guest m)
  | _ => True
  end.

(** The chunk list is a tiling, the guest address space lies inside it, mapped objects lie
    inside the guest address space, and references below [k_next] are the only ones in use. *)
Record kernel_ok (s : Kernel) : Prop := mk_kernel_ok {
  ko_vm : vm_ok (k_memory s);
  ko_base : 0 < sp_data (base (k_memory s)) /\ 0 <= sp_size (base (k_memory s)) /\
            sp_data (base (k_memory s)) + sp_size (base (k_memory s)) <= 2 ^ 39;
  ko_guest : forall ref o, get_object s ref = Some o -> guest_ok s o;
  ko_fresh : forall ref, is_Some (get_object s ref) -> ref < k_next s }.

(** A host that refuses to protect or map a range that leaves the 64-bit address space, as
    [mprotect] and [mmap] do (ENOMEM, EINVAL). *)
Definition host_rejects_wrap (env : host_env) : Prop :=
  forall a n p, 2 ^ 64 <= a + n ->
    call_ok env (K_mprotect a n p) = false /\ (forall r, call_ok env (K_mmap_shared r a n p) = false)
    /\ (forall o, call_ok env (K_mmap_memory a n p o) = false).

Lemma host_call_ok env c site s s' : host_call env c site s = inr s' -> call_ok env c = true /\ s' = emit_call c s.
Proof. unfold host_call. destruct (call_ok env c); [|done]. by intros [= <-]. Qed.

(** A range inside the guest address space is one a chunk can take. *)
Lemma in_base_chunk s g p st at' :
  kernel_ok s -> in_base s g -> chunk_in_space (mk_chunk (sp_data g) (sp_size g) p st at').
Proof. intros [_ (? & ? & ?) _ _] (? & ? & ?). unfold chunk_in_space. simpl. lia. Qed.

Lemma check_guest_range_in_base s map :
  kernel_ok s -> check_guest_range s map = inr tt -> 0 <= sp_data map -> 0 <= sp_size map ->
  sp_data map + sp_size map < 2 ^ 64 -> in_base s map.
Proof.
  intros [_ (? & ? & ?) _ _] E ? ? ?. unfold check_guest_range in E.
  destruct (contains_span (base (k_memory s)) map) eqn:Ec; [|done].
  unfold contains_span in Ec. rewrite !span_end_small in Ec by lia.
  apply andb_true_iff in Ec as [E1 E2]. unfold in_base. lia.
Qed.

Lemma check_guest_range_ok s map :
  kernel_ok s -> in_base s map -> IsPageAligned (sp_data map) = true -> IsPageAligned (sp_size map) = true ->
  check_guest_range s map = inr tt.
Proof.
  intros [_ (? & ? & ?) _ _] (? & ? & ?) Ha1 Ha2. unfold check_guest_range, contains_span.
  rewrite !span_end_small, Ha1, Ha2 by lia. zcases; done.
Qed.

(** What an insertion does to a well-formed kernel. *)
Lemma insert_chunk_ok c s :
  kernel_ok s -> chunk_in_space c ->
  exists m, insert_chunk c s = inr (set_k_memory m s) /\ vm_ok m /\ same_regions (k_memory s) m /\
    forall a, view m a = spec_set (view (k_memory s)) (c_ptr c) (c_ptr c + c_size c) (attrs_of c) a.
Proof.
  intros Hk Hc. unfold insert_chunk.
  destruct (InsertChunk_ok _ c (ko_vm _ Hk) Hc) as (m & -> & Hm & Hv & Hr). by exists m.
Qed.

Lemma kernel_ok_memory s m :
  kernel_ok s -> vm_ok m -> same_regions (k_memory s) m -> kernel_ok (set_k_memory m s).
Proof.
  intros [_ H2 H3 H4] Hm (Hb & _). split; [done|simpl; by rewrite Hb| |done].
  intros ref o Ho. specialize (H3 ref o Ho). destruct o; simpl in *; unfold in_base in *; simpl; by rewrite ?Hb.
Qed.

Lemma kernel_ok_put s ref o :
  kernel_ok s -> guest_ok s o -> ref < k_next s ->
  kernel_ok (put_object ref o s).
Proof.
  intros [H1 H2 H3 H4] Ho Hr. split; [done|done| |].
  - intros ref' o' Hget. unfold get_object in Hget. simpl in Hget.
    apply lookup_insert_Some in Hget as [[_ <-]|[_ Hget]]; [apply Ho|]. apply (H3 ref' o' Hget).
  - intros ref' [o' Hget]. unfold get_object in Hget. simpl in *.
    apply lookup_insert_Some in Hget as [[<- _]|[_ Hget]]; [done|]. apply H4. by exists o'.
Qed.

Lemma kernel_ok_new s o :
  kernel_ok s -> guest_ok s o -> kernel_ok (new_object o s).1.
Proof.
  intros Hk Ho. destruct (kernel_ok_put (set_k_next (k_next s + 1) s) (k_next s) o) as [H1 H2 H3 H4]; [|done|simpl; lia|].
  { destruct Hk as [H1 H2 H3 H4]. split; [done..|]. intros ref Hr. specialize (H4 ref Hr). simpl. lia. }
  by split.
Qed.

Lemma kernel_ok_emit s c : kernel_ok s -> kernel_ok (emit_call c s).
Proof. intros [H1 H2 H3 H4]. by split. Qed.

Lemma kernel_ok_delete s ref : kernel_ok s -> kernel_ok (set_k_objects (delete ref (k_objects s)) s).
Proof.
  intros [H1 H2 H3 H4]. split; [done|done| |].
  - intros ref' o Hget. unfold get_object in Hget. simpl in Hget.
    apply lookup_delete_Some in Hget as [_ Hget]. apply (H3 ref' o Hget).
  - intros ref' [o Hget]. unfold get_object in Hget. simpl in *.
    apply lookup_delete_Some in Hget as [_ Hget]. apply H4. by exists o.
Qed.

#[export] Hint Resolve kernel_ok_emit kernel_ok_delete kernel_ok_memory : sky.

(** Insertion keeps the invariant when the chunk is in the address space. *)
Lemma insert_chunk_kernel_ok c s s' :
  kernel_ok s -> chunk_in_space c -> insert_chunk c s = inr s' ->
  kernel_ok s' /\ same_regions (k_memory s) (k_memory s') /\ k_objects s' = k_objects s /\
  k_handles s' = k_handles s /\ k_next s' = k_next s /\ k_tlsPages s' = k_tlsPages s /\
  forall a, view (k_memory s') a = spec_set (view (k_memory s)) (c_ptr c) (c_ptr c + c_size c) (attrs_of c) a.
Proof.
  intros Hk Hc E. destruct (insert_chunk_ok c s Hk Hc) as (m & E' & Hm & Hr & Hv).
  rewrite E' in E. injection E as <-. split; [by apply kernel_ok_memory|done].
Qed.

(** Everything but the chunks, the objects and the host calls. *)
Record same_frame (s s' : Kernel) : Prop := mk_same_frame {
  sf_handles : k_handles s' = k_handles s;
  sf_ram : k_ram s' = k_ram s;
  sf_heap : k_heap s' = k_heap s;
  sf_stack : k_mainThreadStack s' = k_mainThreadStack s;
  sf_tls : k_tlsPages s' = k_tlsPages s;
  sf_held : k_held s' = k_held s;
  sf_sched : k_sched s' = k_sched s }.

Lemma referenced_frame s s' ref : same_frame s s' -> referenced s' ref = referenced s ref.
Proof. intros [H1 H2 H3 H4 H5 H6 H7]. unfold referenced. by rewrite H1, H3, H4, H5, H6. Qed.

Lemma KPrivateMemory_new_frame env g p st s s' ref : KPrivateMemory_new env g p st s = inr (s', ref) -> same_frame s s'.
Proof.
  unfold KPrivateMemory_new, insert_chunk. intros E. apply bindM_ok in E as ([] & _ & E).
  apply bindM_ok in E as (s1 & E1 & E). apply host_call_ok in E1 as [_ ->].
  apply bindM_ok in E as (s2 & E2 & E). apply bindM_ok in E2 as (m & _ & E2). injection E2 as <-. by injection E as <- <-.
Qed.

(** A successful construction of private memory. *)
Lemma KPrivateMemory_new_ok env g p st s :
  kernel_ok s -> in_base s g -> IsPageAligned (sp_data g) = true -> IsPageAligned (sp_size g) = true ->
  call_ok env (K_mprotect (sp_data g) (sp_size g) PROT_RWX) = true ->
  exists s', KPrivateMemory_new env g p st s = inr (s', k_next s) /\ kernel_ok s' /\
    same_regions (k_memory s) (k_memory s') /\
    k_objects s' = <[k_next s := OPrivateMemory (mk_private g p st)]> (k_objects s) /\
    k_handles s' = k_handles s /\ k_next s' = k_next s + 1 /\ k_tlsPages s' = k_tlsPages s /\
    forall a, view (k_memory s') a
              = spec_set (view (k_memory s)) (sp_data g) (sp_data g + sp_size g) (p, st, 0) a.
Proof.
  intros Hk Hg H1 H2 Hc. unfold KPrivateMemory_new. rewrite check_guest_range_ok by done. simpl.
  unfold host_call. rewrite Hc. simpl.
  destruct (insert_chunk_ok (mk_chunk (sp_data g) (sp_size g) p st 0)
              (emit_call (K_mprotect (sp_data g) (sp_size g) PROT_RWX) s)) as (m & E & Hm & Hr & Hv).
  { auto with sky. } { by apply (in_base_chunk s). }
  rewrite E. simpl. eexists. split; [reflexivity|]. split; [|done].
  apply (kernel_ok_new (set_k_memory m (emit_call (K_mprotect (sp_data g) (sp_size g) PROT_RWX) s))).
  { apply kernel_ok_memory; [by apply kernel_ok_emit|done|done]. }
  destruct Hr as (Hb & _). simpl. unfold in_base in *. simpl. by rewrite Hb.
Qed.

Lemma put_object_regions s ref o : same_regions (k_memory s) (k_memory (put_object ref o s)).
Proof. done. Qed.

(** The destructors keep the invariant. *)
Lemma destroy_private_ok m s s' :
  kernel_ok s -> in_base s (pm_guest m) -> KPrivateMemory_destroy m s = inr s' ->
  kernel_ok s' /\ same_regions (k_memory s) (k_memory s') /\ k_objects s' = k_objects s /\
  forall a, view (k_memory s') a = spec_set (view (k_memory s)) (sp_data (pm_guest m))
              (sp_data (pm_guest m) + sp_size (pm_guest m)) (no_permission, states_Unmapped, 0) a.
Proof.
  intros Hk Hg E. unfold KPrivateMemory_destroy in E.
  eapply insert_chunk_kernel_ok in E as (H1 & H2 & H3 & _ & _ & _ & H4); [|by apply kernel_ok_emit|by eapply in_base_chunk].
  done.
Qed.

Lemma destroy_shared_ok ref type m s s' :
  kernel_ok s -> (span_valid (sm_guest m) = true -> in_base s (sm_guest m)) ->
  KSharedMemory_destroy ref type m s = inr s' -> kernel_ok s' /\ same_regions (k_memory s) (k_memory s').
Proof.
  intros Hk Hg E. unfold KSharedMemory_destroy in E. apply bindM_ok in E as (s1 & E1 & E). injection E as <-.
  assert (kernel_ok s1 /\ same_regions (k_memory s) (k_memory s1)) as [H1 H2].
  { destruct (span_valid (sm_guest m)); [specialize (Hg eq_refl)|by injection E1 as <-].
    destruct (negb (is_transfer type));
      (eapply insert_chunk_kernel_ok in E1 as (? & ? & _); [done|by apply kernel_ok_emit|by apply (in_base_chunk s)]). }
  split; [|destruct (span_valid (sm_host m)); done].
  apply kernel_ok_emit. destruct (span_valid (sm_host m)); [by apply kernel_ok_emit|done].
Qed.

Lemma release_ok ref s s' :
  kernel_ok s -> release ref s = inr s' -> kernel_ok s' /\ same_regions (k_memory s) (k_memory s').
Proof.
  intros Hk E. unfold release in E. destruct (referenced s ref); [by injection E as <-|].
  destruct (get_object s ref) as [o|] eqn:Eo; [|by injection E as <-].
  pose proof (ko_guest _ Hk _ _ Eo) as Hg. destruct o as [| |m|m|m| |]; simpl in Hg; try (by injection E as <-);
    apply bindM_ok in E as (s1 & E1 & E); injection E as <-.
  - destruct (destroy_shared_ok _ _ _ _ _ Hk Hg E1). split; [by apply kernel_ok_delete|done].
  - destruct (destroy_shared_ok _ _ _ _ _ Hk Hg E1). split; [by apply kernel_ok_delete|done].
  - destruct (destroy_private_ok _ _ _ Hk Hg E1) as (? & ? & _). split; [by apply kernel_ok_delete|done].
Qed.

(** ** Every history of memory objects *)

Definition machine_span (g : span) : Prop := 0 <= sp_data g /\ 0 <= sp_size g.

(** What each call on a memory object does.  The index is the range that the call itself does not
    compare with the guest's address space, where there is one: [KPrivateMemory::Resize] takes any
    size and [KSharedMemory::UpdatePermission] any range. *)
Inductive memory_exec (env : host_env) : option span -> Kernel -> Kernel -> Prop :=
| ms_private_new g p st s s' ref :
    machine_span g -> KPrivateMemory_new env g p st s = inr (s', ref) -> memory_exec env None s s'
| ms_resize ref m n s s' :
    get_object s ref = Some (OPrivateMemory m) ->
    KPrivateMemory_Resize env ref m n s = inr s' -> memory_exec env (Some (mk_span (sp_data (pm_guest m)) n)) s s'
| ms_remap ref m g s s' :
    get_object s ref = Some (OPrivateMemory m) -> KPrivateMemory_Remap env m g s = inr s' -> memory_exec env None s s'
| ms_update_private ref m g p s s' :
    get_object s ref = Some (OPrivateMemory m) -> machine_span g ->
    KPrivateMemory_UpdatePermission ref m g p s = inr s' -> memory_exec env None s s'
| ms_shared_new size st s s' ref :
    KSharedMemory_new env size st KT_KSharedMemory s = inr (s', ref) -> memory_exec env None s s'
| ms_shared_map ref m g p s s' :
    get_object s ref = Some (OSharedMemory m) -> machine_span g ->
    KSharedMemory_Map env ref KT_KSharedMemory m g p s = inr s' -> memory_exec env None s s'
| ms_shared_unmap ref m g s s' :
    get_object s ref = Some (OSharedMemory m) -> machine_span g ->
    KSharedMemory_Unmap env ref KT_KSharedMemory m g s = inr s' -> memory_exec env None s s'
| ms_transfer_new ptr size p st s s' ref :
    machine_span (mk_span ptr size) -> KTransferMemory_new env ptr size p st s = inr (s', ref) -> memory_exec env None s s'
| ms_update_shared ref m g p s s' :
    get_object s ref = Some (OSharedMemory m) ->
    KSharedMemory_UpdatePermission KT_KSharedMemory m g p s = inr s' -> memory_exec env (Some g) s s'
| ms_release ref s s' : release ref s = inr s' -> memory_exec env None s s'.

(** A call whose caller has seen to it that the range is inside of the address space. *)
Definition memory_step (env : host_env) (s s' : Kernel) : Prop :=
  exists range, memory_exec env range s s' /\ forall g, range = Some g -> in_base s g.

Section steps.
Context (env : host_env) (Henv : host_rejects_wrap env).

Lemma private_new_step g p st s s' ref :
  kernel_ok s -> machine_span g -> KPrivateMemory_new env g p st s = inr (s', ref) -> kernel_ok s'.
Proof.
  intros Hk [Hd Hs] E. pose proof E as E0. unfold KPrivateMemory_new in E0.
  apply bindM_ok in E0 as ([] & Ec & E0). apply bindM_ok in E0 as (s1 & E1 & _).
  apply host_call_ok in E1 as [Hc _].
  assert (sp_data g + sp_size g < 2 ^ 64).
  { destruct (Z_lt_le_dec (sp_data g + sp_size g) (2 ^ 64)); [done|]. destruct (Henv _ _ PROT_RWX l) as [H _]. congruence. }
  assert (Hg : in_base s g) by (by apply check_guest_range_in_base).
  unfold check_guest_range in Ec. destruct (negb (contains_span _ _)); [done|].
  destruct (negb _ || negb _) eqn:Ea; [done|]. apply orb_false_iff in Ea as [Ea1 Ea2].
  apply negb_false_iff in Ea1, Ea2.
  destruct (KPrivateMemory_new_ok env g p st s Hk Hg Ea1 Ea2 Hc) as (s2 & E2 & H2 & _). congruence.
Qed.

Lemma resize_step ref m n s s' :
  kernel_ok s -> get_object s ref = Some (OPrivateMemory m) -> in_base s (mk_span (sp_data (pm_guest m)) n) ->
  KPrivateMemory_Resize env ref m n s = inr s' -> kernel_ok s'.
Proof.
  intros Hk Ho Hn E. pose proof (ko_guest _ Hk _ _ Ho) as Hg. simpl in Hg.
  assert (Hr : ref < k_next s) by (apply (ko_fresh _ Hk); by exists (OPrivateMemory m)).
  pose proof (ko_base _ Hk) as Hb. unfold in_base in Hg, Hn. simpl in Hn.
  unfold KPrivateMemory_Resize in E. apply bindM_ok in E as (s1 & E1 & E).
  apply host_call_ok in E1 as [_ ->]. apply bindM_ok in E as (s2 & E2 & E). injection E as <-.
  assert (H2 : kernel_ok s2 /\ same_regions (k_memory s) (k_memory s2) /\ k_next s2 = k_next s).
  { destruct (Z.ltb_spec n (sp_size (pm_guest m))); [|destruct (Z.ltb_spec (sp_size (pm_guest m)) n)].
    - eapply insert_chunk_kernel_ok in E2 as (? & ? & _ & _ & ? & _); [done|by apply kernel_ok_emit|].
      unfold chunk_in_space. simpl. rewrite wrap_small by lia. lia.
    - eapply insert_chunk_kernel_ok in E2 as (? & ? & _ & _ & ? & _); [done|by apply kernel_ok_emit|].
      unfold chunk_in_space. simpl. rewrite wrap_small by lia. lia.
    - injection E2 as <-. by split; [apply kernel_ok_emit|]. }
  destruct H2 as (H2 & (Hb2 & _) & Hn2). apply kernel_ok_put; [done| |by rewrite Hn2].
  simpl. unfold in_base. rewrite Hb2. simpl. lia.
Qed.

Lemma update_private_step ref m g p s s' :
  kernel_ok s -> get_object s ref = Some (OPrivateMemory m) -> machine_span g ->
  KPrivateMemory_UpdatePermission ref m g p s = inr s' -> kernel_ok s'.
Proof.
  intros Hk Ho [Hd Hs] E. pose proof (ko_guest _ Hk _ _ Ho) as Hg. simpl in Hg.
  assert (Hr : ref < k_next s) by (apply (ko_fresh _ Hk); by exists (OPrivateMemory m)).
  pose proof (ko_base _ Hk) as Hb. pose proof Hg as (? & ? & ?). unfold KPrivateMemory_UpdatePermission in E.
  destruct (negb _ && negb _); [done|]. rewrite span_end_small in E by lia.
  eapply insert_chunk_kernel_ok in E as (? & _); [done|by apply kernel_ok_put|].
  unfold chunk_in_space, clamp. simpl.
  destruct (Z.ltb_spec (sp_data g) (sp_data (pm_guest m)));
    [|destruct (Z.ltb_spec (sp_data (pm_guest m) + sp_size (pm_guest m)) (sp_data g))];
    rewrite wrap_small by lia; lia.
Qed.

Lemma shared_map_step ref type m g p s s' :
  kernel_ok s -> get_object s ref = Some (shared_object type m) -> machine_span g ->
  KSharedMemory_Map env ref type m g p s = inr s' -> kernel_ok s'.
Proof.
  intros Hk Ho [Hd Hs] E. assert (Hr : ref < k_next s) by (apply (ko_fresh _ Hk); by eexists).
  unfold KSharedMemory_Map in E. apply bindM_ok in E as ([] & Ec & E).
  destruct (span_valid (sm_guest m)); [done|]. apply bindM_ok in E as (gp & Egp & E).
  apply bindM_ok in E as (s1 & E1 & E). apply host_call_ok in E1 as [Hc ->].
  assert (sp_data g + sp_size g < 2 ^ 64).
  { destruct (Z_lt_le_dec (sp_data g + sp_size g) (2 ^ 64)); [done|].
    destruct (Henv _ _ (Permission_Get p) l) as (_ & H & _). rewrite H in Hc. done. }
  assert (Hg : in_base s g) by (by apply check_guest_range_in_base).
  pose proof (ko_base _ Hk). destruct Hg as (? & ? & ?). destruct (Z.eqb_spec (sp_data g) 0); [lia|].
  injection Egp as <-. assert (Hg : in_base s (mk_span (sp_data g) (sp_size g))) by (unfold in_base; simpl; lia).
  eapply insert_chunk_kernel_ok in E as (? & _); [done| |by apply (in_base_chunk s (mk_span (sp_data g) (sp_size g)))].
  apply kernel_ok_put; [by apply kernel_ok_emit| |done]. by destruct type; simpl.
Qed.

Lemma shared_unmap_step ref m g s s' :
  kernel_ok s -> get_object s ref = Some (OSharedMemory m) -> machine_span g ->
  KSharedMemory_Unmap env ref KT_KSharedMemory m g s = inr s' -> kernel_ok s'.
Proof.
  intros Hk Ho [Hd Hs] E. assert (Hr : ref < k_next s) by (apply (ko_fresh _ Hk); by eexists).
  unfold KSharedMemory_Unmap in E. apply bindM_ok in E as ([] & Ec & E).
  destruct (negb _ && negb _); [done|]. apply bindM_ok in E as (s1 & E1 & E). apply host_call_ok in E1 as [Hc ->].
  assert (sp_data g + sp_size g < 2 ^ 64).
  { destruct (Z_lt_le_dec (sp_data g + sp_size g) (2 ^ 64)); [done|].
    destruct (Henv _ _ PROT_NONE l) as (_ & _ & H). rewrite H in Hc. done. }
  assert (Hg : in_base s g) by (by apply check_guest_range_in_base).
  eapply insert_chunk_kernel_ok in E as (? & _); [done| |by apply (in_base_chunk s)].
  apply kernel_ok_put; [by apply kernel_ok_emit|done|done].
Qed.

Lemma shared_new_step size st type s s' ref :
  kernel_ok s -> KSharedMemory_new env size st type s = inr (s', ref) ->
  kernel_ok s' /\ get_object s' ref = Some (shared_object type
    (mk_shared null_span st (mk_span (default 0 (mmap_any env size)) size))).
Proof.
  intros Hk E. unfold KSharedMemory_new in E. apply bindM_ok in E as (s1 & E1 & E).
  apply host_call_ok in E1 as [_ ->]. destruct (mmap_any env size) as [hp|]; [|done]. injection E as <- <-.
  split; [apply (kernel_ok_new (emit_call (K_mmap_host size) (emit_call (K_create size) s)));
    [by do 2 apply kernel_ok_emit|by destruct type]|]. unfold get_object. simpl. by rewrite lookup_insert_eq.
Qed.

Lemma memory_step_ok s s' : memory_step env s s' -> kernel_ok s -> kernel_ok s'.
Proof.
  intros (range & St & Hin) Hk. destruct St; try specialize (Hin _ eq_refl).
  - by eapply private_new_step.
  - by eapply resize_step.
  - unfold KPrivateMemory_Remap in *. inv_ok. repeat match goal with H : host_call _ _ _ _ = inr _ |- _ =>
      apply host_call_ok in H as [_ ->] end. by do 2 apply kernel_ok_emit.
  - by eapply update_private_step.
  - by eapply shared_new_step.
  - by eapply (shared_map_step _ KT_KSharedMemory).
  - by eapply shared_unmap_step.
  - unfold KTransferMemory_new in *. apply bindM_ok in H0 as ([s1 r] & E1 & E2).
    destruct (shared_new_step _ _ _ _ _ _ Hk E1) as [Hk1 Ho1]. simpl in Ho1. rewrite Ho1 in E2.
    apply bindM_ok in E2 as (s2 & E2 & E3). injection E3 as <- <-.
    by eapply (shared_map_step _ KT_KTransferMemory); [exact Hk1|exact Ho1| |exact E2].
  - unfold KSharedMemory_UpdatePermission in *. destruct (span_valid g && _); [done|].
    destruct (span_valid (sm_guest m)); [|by injection H0 as <-]. destruct (_ =? _); [done|].
    eapply insert_chunk_kernel_ok in H0 as (? & _); [done|by apply kernel_ok_emit|by apply (in_base_chunk s)].
  - by eapply release_ok.
Qed.

(** C11: memory objects never break the address space.  From a well-formed kernel, any history of
    creating, resizing, remapping, re-protecting, mapping, unmapping and destroying private,
    shared and transfer memory that succeeds leaves the chunk list a gapless tiling and every
    mapped object inside the guest address space.  It is given a host that refuses ranges that
    wrap around, and two ranges that the memory objects do not check and that are taken to lie
    inside the guest address space: the one a private memory is resized to, and the one of a
    change of permission of a shared memory.  A private memory that is
    resized without the first ends outside ([Resize_leaves_base]). *)
Theorem memory_objects_keep_kernel_ok s s' : kernel_ok s -> rtc (memory_step env) s s' -> kernel_ok s'.
Proof. intros Hk H. induction H as [|s s1 s2 St _ IH]; [done|]. apply IH. by eapply memory_step_ok. Qed.
End steps.

(** ** A concrete kernel *)

Definition default_npdm : NPDM := mk_npdm AddressSpace39Bit 44 0 0x1FE00000 0x200000 0 (mk_priority 0 59) 7 0 0.

Definition sample_memory : MemoryManager :=
  mk_mm (chunks sample_manager) (mk_span 0 (2 ^ 39)) (mk_span 0x800000000 0x2000000000)
    (mk_span 0x800000000 0x200000) (mk_span 0x800200000 0x1000000) (mk_span 0x900000000 0x180000000)
    (mk_span 0xB00000000 0x80000000) (mk_span 0xC00000000 0x1000000).

(** The process object is reference 0. *)
Definition sample_kernel : Kernel :=
  mk_kernel sample_memory [] {[0 := OProcess (mk_sync false [])]} 1 false false [] ∅ [] 0 None None default_npdm []
    empty_scheduler (fun _ => 0) [] ∅.

Lemma sample_kernel_ok : kernel_ok sample_kernel.
Proof.
  split.
  - split; [reflexivity|]. simpl. lia.
  - simpl. lia.
  - intros ref o H. unfold get_object in H. simpl in H. apply lookup_singleton_Some in H as [_ <-]. done.
  - intros ref [o H]. unfold get_object in H. simpl in H. apply lookup_singleton_Some in H as [<- _]. simpl. lia.
Qed.

(** A host that accepts every call that does not leave the 64-bit address space. *)
Definition sample_env : host_env :=
  mk_env (fun c => match c with
                   | K_mprotect a n _ | K_mmap_shared _ a n _ | K_mmap_memory a n _ _ => a + n <? 2 ^ 64
                   | _ => true
                   end) (fun _ => Some 0x7000000000).

Lemma sample_env_rejects : host_rejects_wrap sample_env.
Proof. intros a n p H. simpl. destruct (Z.ltb_spec (a + n) (2 ^ 64)); [lia|done]. Qed.

Lemma memory_objects_keep_kernel_ok_witness :
  exists s' ref, KPrivateMemory_new sample_env (mk_span 0x900000000 0x200000) (mk_perm true true false) states_Heap
               sample_kernel = inr (s', ref) /\ kernel_ok s'.
Proof.
  eexists _, _. split; [vm_compute; reflexivity|].
  eapply (memory_objects_keep_kernel_ok sample_env sample_env_rejects sample_kernel); [exact sample_kernel_ok|].
  eapply rtc_l; [|apply rtc_refl].
  exists None. split; [|done].
  apply (ms_private_new sample_env (mk_span 0x900000000 0x200000) (mk_perm true true false) states_Heap) with (ref := 1).
  - split; simpl; lia.
  - vm_compute. reflexivity.
Defined.

(** The size a private memory is resized to is not compared with the address space: a memory that
    was created inside of it is afterwards larger than the whole space. *)
Lemma Resize_leaves_base :
  (let! (s, ref) := KPrivateMemory_new sample_env (mk_span 0x900000000 0x200000) (mk_perm true true false) states_Heap sample_kernel in
   match get_object s ref with
   | Some (OPrivateMemory m) =>
       let! s := KPrivateMemory_Resize sample_env ref m 0x3000000000 s in
       ok (match get_object s ref with
           | Some (OPrivateMemory m) => contains_span (base (k_memory s)) (pm_guest m)
           | _ => true
           end)
   | _ => ok true
   end) = inr false.
Proof. vm_compute. reflexivity. Qed.
