(* ===== verification/Process.v ===== *)
(** * The process ([kernel/types/KProcess.h], [kernel/types/KProcess.cpp])

    The handle table, the lookup of memory objects, thread-local storage slots, thread creation
    and the killing of threads.  The synchronisation primitives of the process are in [Sync]. *)

From S2P Require Import Prelude Common MemoryManager Scheduler KObjects.

Definition TlsSlotSize : Z := 0x200.
Definition TlsSlots : Z := PAGE_SIZE / TlsSlotSize.
Definition BaseHandleIndex : Z := 0xD000.

(** The reference of the process object itself. *)
Definition process_ref : Z := 0.

(** ** Handle table *)

(** [handles.push_back] and the handle of the new entry. *)
Definition push_handle (ref : Z) (s : Kernel) : Kernel * Z :=
  let s := set_k_handles (k_handles s ++ [Some ref]) s in
  (s, u32 (BaseHandleIndex + Z.of_nat (length (k_handles s)) - 1)).

Definition InsertItem (ref : Z) (s : Kernel) : Kernel * Z := push_handle ref s.

(** [make] is the constructor; it is given the handle a thread receives as an argument. *)
Definition NewHandle (make : Z -> Kernel -> M (Kernel * Z)) (s : Kernel) : M (Kernel * Z * Z) :=
  let! (s, item) := make (u32 (BaseHandleIndex + Z.of_nat (length (k_handles s)))) s in
  let '(s, handle) := push_handle item s in ok (s, item, handle).

(** [handles.at(handle - BaseHandleIndex)]. *)
Definition handle_index (handle : Z) : nat := Z.to_nat (u32 (handle - BaseHandleIndex)).

Definition handles_at (handle : Z) (s : Kernel) : M (option Z) :=
  from_opt Throw_out_of_range (k_handles s !! handle_index handle).

Definition threadSelf : Z := 0xFFFF8000.
Definition processSelf : Z := 0xFFFF8001.

(** [GetHandle<T>]; [cur] is the calling thread. *)
Definition GetHandle (cur : Z) (type : KType) (handle : Z) (s : Kernel) : M Z :=
  if bool_decide (type = KT_KThread) && (handle =? threadSelf) then ok cur
  else if bool_decide (type = KT_KProcess) && (handle =? processSelf) then ok process_ref
  else
    let! item := handles_at handle s in
    match item with
    | None => fail (Throw "GetHandle was called with a deleted handle")
    | Some ref =>
        match get_object s ref with
        | Some o => if decide (objectType o = type) then ok ref
                    else fail (Throw "Tried to get kernel object with different type")
        | None => fail (Undefined "GetHandle: dangling reference")
        end
    end.

(** [GetHandle<KObject>]. *)
Definition GetHandle_any (handle : Z) (s : Kernel) : M (Z * KObject) :=
  let! item := handles_at handle s in
  match item with
  | None => fail Throw_out_of_range
  | Some ref => let! o := from_opt (Undefined "GetHandle: dangling reference") (get_object s ref) in ok (ref, o)
  end.

Definition CloseHandle (handle : Z) (s : Kernel) : M Kernel :=
  let! item := handles_at handle s in
  let s := set_k_handles (<[handle_index handle := None]> (k_handles s)) s in
  match item with Some ref => release ref s | None => ok s end.

(** [handles.clear()]: the pointers are destroyed from the last one on. *)
Fixpoint clear_handles (n : nat) (s : Kernel) : M Kernel :=
  match n with
  | O => ok s
  | S n =>
      let item := k_handles s !! n in
      let s := set_k_handles (take n (k_handles s)) s in
      let! s := match item with Some (Some ref) => release ref s | _ => ok s end in
      clear_handles n s
  end.

Definition ClearHandleTable (s : Kernel) : M Kernel := clear_handles (length (k_handles s)) s.

(** ** Memory objects *)

(** The guest range of the object behind an entry of the handle table. *)
Definition entry_guest (s : Kernel) (entry : option Z) : option (Z * span) :=
  match entry with
  | Some ref => match get_object s ref with
                | Some o => (fun g => (ref, g)) <$> guest_of o
                | None => None
                end
  | None => None
  end.

Fixpoint find_memory (s : Kernel) (ptr : Z) (index : Z) (l : list (option Z)) : option (Z * Z) :=
  match l with
  | [] => None
  | entry :: l =>
      match entry_guest s entry with
      | Some (ref, guest) =>
          if contains_ptr guest ptr then Some (ref, u32 (BaseHandleIndex + index))
          else find_memory s ptr (index + 1) l
      | None => find_memory s ptr (index + 1) l
      end
  end.

(** The object and its handle. *)
Definition GetMemoryObject (ptr : Z) (s : Kernel) : option (Z * Z) := find_memory s ptr 0 (k_handles s).

(** ** Thread-local storage *)

(** The address and the page after the reservation, [None] when the page is full. *)
Definition ReserveSlot (s : Kernel) (page : TlsPage) : option (Z * TlsPage) :=
  if tls_index page =? TlsSlots then None
  else
    match get_object s (tls_memory page) with
    | Some (OPrivateMemory m) =>
        Some (u64 (sp_data (pm_guest m) + TlsSlotSize * tls_index page),
              mk_tls (wrap 8 (tls_index page + 1)) (tls_memory page))
    | _ => None
    end.

(** The first page with a free slot. *)
Fixpoint reserve_first (s : Kernel) (pages : list TlsPage) : option (Z * list TlsPage) :=
  match pages with
  | [] => None
  | page :: pages =>
      match ReserveSlot s page with
      | Some (slot, page) => Some (slot, page :: pages)
      | None => match reserve_first s pages with
                | Some (slot, pages) => Some (slot, page :: pages)
                | None => None
                end
      end
  end.

(** The address of the next page. *)
Definition next_tls_page (s : Kernel) : M Z :=
  match last (k_tlsPages s) with
  | None => ok (sp_data (tlsIo (k_memory s)))
  | Some page =>
      match get_object s (tls_memory page) with
      | Some (OPrivateMemory m) => ok (u64 (sp_data (pm_guest m) + PAGE_SIZE))
      | _ => fail (Undefined "TLS page without memory")
      end
  end.

Definition AllocateTlsSlot (env : host_env) (s : Kernel) : M (Kernel * Z) :=
  match reserve_first s (k_tlsPages s) with
  | Some (slot, pages) => ok (set_k_tlsPages pages s, slot)
  | None =>
      let! slot := next_tls_page s in
      let! (s, memory) := KPrivateMemory_new env (mk_span slot PAGE_SIZE) (mk_perm true true false) states_ThreadLocal s in
      match ReserveSlot s (mk_tls 0 memory) with
      | Some (slot, page) => ok (set_k_tlsPages (k_tlsPages s ++ [page]) s, slot)
      | None => fail (Undefined "TLS page without memory")
      end
  end.

Definition DefaultHeapSize : Z := 0x200000.

(** Assigning a pointer field drops the object it held. *)
Definition drop_pointer (old : option Z) (s : Kernel) : M Kernel :=
  match old with Some ref => release ref s | None => ok s end.

Definition InitializeHeapTls (env : host_env) (s : Kernel) : M Kernel :=
  let! (s, ref) := KPrivateMemory_new env (mk_span (sp_data (heap (k_memory s))) DefaultHeapSize)
                     (mk_perm true true false) states_Heap s in
  let! s := drop_pointer (k_heap s) (set_k_heap (Some ref) s) in
  let '(s, _) := InsertItem ref s in
  let! (s, slot) := AllocateTlsSlot env s in
  ok (set_k_tlsExceptionContext slot s).

(** ** Threads *)

(** The constructor of [KThread]: the affinity mask starts with the ideal core, which
    [bitset::set] checks. *)
Definition KThread_new (handle id entry argument stackTop priority idealCore : Z) (s : Kernel) : M (Kernel * Z) :=
  if CoreCount <=? idealCore then fail Throw_out_of_range
  else
    let '(s, ref) := new_object (OThread (mk_sync false [])) s in
    let sch := k_sched s in
    ok (set_k_sched (mk_sched (cores sch) (parkedQueue sch)
          (<[ref := new_thread handle id entry argument stackTop priority idealCore]> (Scheduler.threads sch))
          (events sch)) s, ref).

Definition CreateThread (env : host_env) (entry argument stackTop : Z) (priority idealCore : option Z) (s : Kernel)
    : M (Kernel * option Z) :=
  if k_disableThreadCreation s then ok (s, None)
  else
    let! (s, stackTop) :=
      if (stackTop =? 0) && bool_decide (k_threads s = []) then
        let! (s, ref) := KPrivateMemory_new env
            (mk_span (sp_data (stack (k_memory s))) (npdm_mainThreadStackSize (k_npdm s)))
            (mk_perm true true false) states_Stack s in
        let! s := drop_pointer (k_mainThreadStack s) (set_k_mainThreadStack (Some ref) s) in
        ok (s, span_end (mk_span (sp_data (stack (k_memory s))) (npdm_mainThreadStackSize (k_npdm s))))
      else ok (s, stackTop) in
    let! (s, item, _) :=
      NewHandle (fun handle =>
        KThread_new handle (Z.of_nat (length (k_threads s))) entry argument stackTop
          (match priority with Some p => p | None => npdm_mainThreadPriority (k_npdm s) end)
          (match idealCore with Some c => c | None => npdm_idealCore (k_npdm s) end)) s in
    ok (set_k_threads (k_threads s ++ [item]) s, Some item).

Definition on_sched (f : Scheduler -> Scheduler) (s : Kernel) : Kernel := set_k_sched (f (k_sched s)) s.
Definition on_schedM (f : Scheduler -> M Scheduler) (s : Kernel) : M Kernel :=
  let! sch := f (k_sched s) in ok (set_k_sched sch s).

(** Joining only waits. *)
Definition KProcess_Kill (join all disableCreation : bool) (s : Kernel) : Kernel :=
  if negb join && k_alreadyKilled s then s
  else
    let s := set_k_alreadyKilled true s in
    let s := if disableCreation then set_k_disableThreadCreation true s else s in
    if all then on_sched (fun sch => fold_left (fun sch t => Kill t sch) (k_threads s) sch) s
    else match k_threads s with
         | t :: _ => on_sched (Kill t) s
         | [] => s
         end.

Definition KProcess_destroy (s : Kernel) : Kernel :=
  let s := set_k_disableThreadCreation true s in
  on_sched (fun sch => fold_left (fun sch t => Kill t sch) (k_threads s) sch) s.

(** ** The handle table *)

Lemma handle_index_of (n : nat) :
  BaseHandleIndex + Z.of_nat n < 2 ^ 32 -> handle_index (u32 (BaseHandleIndex + Z.of_nat n)) = n.
Proof.
  intros H. unfold handle_index, BaseHandleIndex in *. rewrite (wrap_small 32 (_ + _)) by lia.
  rewrite wrap_small by lia. lia.
Qed.

Lemma push_handle_value ref s :
  (push_handle ref s).2 = u32 (BaseHandleIndex + Z.of_nat (length (k_handles s))).
Proof. unfold push_handle. simpl. rewrite length_app. simpl. f_equal. lia. Qed.

Lemma handles_at_app ref s h r : handles_at h s = inr r -> handles_at h (push_handle ref s).1 = inr r.
Proof.
  unfold handles_at. simpl. destruct (k_handles s !! handle_index h) as [x|] eqn:E; [|done].
  by rewrite (lookup_app_l_Some _ _ _ _ E).
Qed.

(** A lookup that succeeds goes through the table, a self handle apart. *)
Lemma GetHandle_keeps cur type h r s s' :
  k_objects s' = k_objects s -> (forall x, handles_at h s = inr x -> handles_at h s' = inr x) ->
  GetHandle cur type h s = inr r -> GetHandle cur type h s' = inr r.
Proof.
  intros Ho Hh. unfold GetHandle, get_object. destruct (_ && _); [done|]. destruct (_ && _); [done|].
  intros E. apply bindM_ok in E as (x & Ex & E). rewrite (Hh x Ex). simpl. by rewrite Ho.
Qed.

Lemma GetHandle_table cur type h ref o s :
  h <> threadSelf -> h <> processSelf -> handles_at h s = inr (Some ref) -> get_object s ref = Some o ->
  objectType o = type -> GetHandle cur type h s = inr ref.
Proof.
  intros H1 H2 Hh Ho Ht. unfold GetHandle. apply Z.eqb_neq in H1, H2. rewrite H1, H2, !andb_false_r.
  rewrite Hh. simpl. rewrite Ho. by rewrite decide_True.
Qed.

Definition table_room (s : Kernel) : Prop := BaseHandleIndex + Z.of_nat (length (k_handles s)) < threadSelf.

Lemma push_handle_found ref s :
  table_room s -> handles_at (push_handle ref s).2 (push_handle ref s).1 = inr (Some ref) /\
    (push_handle ref s).2 <> threadSelf /\ (push_handle ref s).2 <> processSelf.
Proof.
  unfold table_room. intros Hr. rewrite push_handle_value. unfold handles_at. simpl.
  assert (threadSelf < 2 ^ 32) by done.
  rewrite handle_index_of, wrap_small by (unfold BaseHandleIndex in *; lia).
  rewrite lookup_app_r, Nat.sub_diag by lia. unfold processSelf, threadSelf in *. split; [done|lia].
Qed.

(** handles round trip and stay valid.  The handle returned for an inserted object finds
    exactly that object under its own type, and every lookup that succeeded before, of any type,
    gives the same object afterwards. *)
Theorem InsertItem_GetHandle_roundtrip cur ref o s :
  get_object s ref = Some o -> table_room s ->
  let '(s', handle) := InsertItem ref s in
  GetHandle cur (objectType o) handle s' = inr ref /\
  forall type h r, GetHandle cur type h s = inr r -> GetHandle cur type h s' = inr r.
Proof.
  intros Ho Hr. unfold InsertItem. destruct (push_handle_found ref s Hr) as (H1 & H2 & H3).
  pose proof (handles_at_app ref s) as Happ. destruct (push_handle ref s) as [s' h] eqn:E. simpl in *.
  assert (Eo : k_objects s' = k_objects s) by (change s' with (s', h).1; by rewrite <- E).
  split; [|intros type h' r; apply GetHandle_keeps; auto]. eapply GetHandle_table; try done.
  unfold get_object. by rewrite Eo.
Qed.

Lemma InsertItem_GetHandle_roundtrip_witness :
  let '(s', handle) := InsertItem 0 sample_kernel in GetHandle 5 KT_KProcess handle s' = inr 0.
Proof.
  pose proof (InsertItem_GetHandle_roundtrip 5 0 (OProcess (mk_sync false [])) sample_kernel eq_refl eq_refl) as H.
  destruct (InsertItem 0 sample_kernel) as [s' h]. exact (proj1 H).
Defined.

Lemma kernel_ok_handles s l : kernel_ok s -> kernel_ok (set_k_handles l s).
Proof. intros [H1 H2 H3 H4]. by split. Qed.

(** closing the last handle unmaps private memory.  When no other pointer refers to the
    object, [CloseHandle] succeeds, the object is gone, every address of its range reads as
    unmapped without permissions, every other address keeps its attributes, and the handle no
    longer resolves: a generic lookup raises [out_of_range], a typed one another exception. *)
Theorem CloseHandle_unmaps_last handle ref m s :
  let s1 := set_k_handles (<[handle_index handle := None]> (k_handles s)) s in
  kernel_ok s -> handles_at handle s = inr (Some ref) -> get_object s ref = Some (OPrivateMemory m) ->
  referenced s1 ref = false ->
  exists s', CloseHandle handle s = inr s' /\ kernel_ok s' /\ get_object s' ref = None /\
    (forall a, query (k_memory s') a =
       spec_set (query (k_memory s)) (sp_data (pm_guest m)) (sp_data (pm_guest m) + sp_size (pm_guest m))
         (no_permission, states_Unmapped, 0) a) /\
    GetHandle_any handle s' = inl Throw_out_of_range /\
    forall cur type, handle <> threadSelf -> handle <> processSelf ->
      GetHandle cur type handle s' = inl (Throw "GetHandle was called with a deleted handle").
Proof.
  intros s1 Hk Hh Ho Hr. unfold CloseHandle. rewrite Hh. simpl. fold s1.
  assert (Hk1 : kernel_ok s1) by (by apply kernel_ok_handles).
  assert (Ho1 : get_object s1 ref = Some (OPrivateMemory m)) by done.
  pose proof (ko_guest _ Hk1 _ _ Ho1) as Hg. simpl in Hg.
  unfold release. rewrite Hr, Ho1. unfold KPrivateMemory_destroy.
  set (c := mk_chunk (sp_data (pm_guest m)) (sp_size (pm_guest m)) no_permission states_Unmapped 0).
  destruct (insert_chunk_ok c (emit_call (K_mprotect (sp_data (pm_guest m)) (sp_size (pm_guest m)) PROT_NONE) s1))
    as (mm & E & Hm & Hreg & Hv); [by apply kernel_ok_emit|by apply (in_base_chunk s1)|].
  rewrite E. simpl. eexists. split; [reflexivity|].
  assert (Hnone : handles_at handle s1 = inr None).
  { unfold handles_at in *. simpl. destruct (k_handles s !! handle_index handle) eqn:El; [|done].
    apply lookup_lt_Some in El. by rewrite list_lookup_insert_eq. }
  split; [|split; [unfold get_object; simpl; apply lookup_delete_eq|split; [|split]]].
  - apply (kernel_ok_delete (set_k_memory mm (emit_call _ s1)) ref), kernel_ok_memory; [by apply kernel_ok_emit|done|done].
  - intros a. simpl. rewrite query_view, Hv by done. unfold spec_set. simpl.
    by rewrite query_view by apply (ko_vm _ Hk).
  - unfold GetHandle_any. change (handles_at handle _) with (handles_at handle s1). by rewrite Hnone.
  - intros cur type H1 H2. unfold GetHandle. apply Z.eqb_neq in H1, H2. rewrite H1, H2, !andb_false_r.
    change (handles_at handle _) with (handles_at handle s1). by rewrite Hnone.
Qed.

Definition run_or {A} (d : A) (m : M A) : A := match m with inr a => a | inl _ => d end.

(** The sample kernel after one mapping of two pages with a handle. *)
Definition sample_mapped : Kernel :=
  (run_or (sample_kernel, 0, 0)
     (NewHandle (fun _ => KPrivateMemory_new sample_env (mk_span 0x800200000 0x2000) (mk_perm true true false) states_Heap)
        sample_kernel)).1.1.

Lemma sample_mapped_ok : kernel_ok sample_mapped.
Proof.
  destruct (KPrivateMemory_new_ok sample_env (mk_span 0x800200000 0x2000) (mk_perm true true false) states_Heap
    sample_kernel sample_kernel_ok) as (s' & E & H & _); [vm_compute; intuition congruence|done..|].
  unfold sample_mapped, NewHandle. rewrite E. simpl. by apply kernel_ok_handles.
Qed.

Lemma CloseHandle_unmaps_last_witness :
  exists s', CloseHandle 0xD000 sample_mapped = inr s' /\ get_object s' 1 = None /\
    query (k_memory s') 0x800201000 = Some (no_permission, states_Unmapped, 0) /\
    GetHandle_any 0xD000 s' = inl Throw_out_of_range.
Proof.
  destruct (CloseHandle_unmaps_last 0xD000 1 (mk_private (mk_span 0x800200000 0x2000) (mk_perm true true false) states_Heap)
    sample_mapped sample_mapped_ok) as (s' & H1 & _ & H2 & H3 & H4 & _); [vm_compute; reflexivity..|].
  exists s'. split; [exact H1|]. split; [exact H2|]. split; [rewrite H3; reflexivity|exact H4].
Defined.

(** What a search of the table promises. *)
Definition memory_found (s : Kernel) (ptr : Z) (r : option (Z * Z)) : Prop :=
  match r with
  | Some (ref, h) =>
      exists i g, h = BaseHandleIndex + Z.of_nat i /\ k_handles s !! i = Some (Some ref) /\
        entry_guest s (Some ref) = Some (ref, g) /\ contains_ptr g ptr = true /\
        forall j e r' g', (j < i)%nat -> k_handles s !! j = Some e -> entry_guest s e = Some (r', g') ->
          contains_ptr g' ptr = false
  | None => forall e r g, e ∈ k_handles s -> entry_guest s e = Some (r, g) -> contains_ptr g ptr = false
  end.

Lemma entry_guest_ref s e ref g : entry_guest s e = Some (ref, g) -> e = Some ref.
Proof.
  destruct e as [r|]; [|done]. simpl. destruct (get_object s r) as [o|]; [|done]. destruct (guest_of o); [|done].
  simpl. congruence.
Qed.

Lemma find_memory_found s ptr l pre :
  BaseHandleIndex + Z.of_nat (length (k_handles s)) < 2 ^ 32 -> k_handles s = pre ++ l ->
  (forall j e r' g', pre !! j = Some e -> entry_guest s e = Some (r', g') -> contains_ptr g' ptr = false) ->
  memory_found s ptr (find_memory s ptr (Z.of_nat (length pre)) l).
Proof.
  intros Hb. revert pre. induction l as [|e l IH]; intros pre Epre Hpre; simpl.
  { intros e r g He. rewrite Epre, app_nil_r in He. apply list_elem_of_lookup in He as [j Hj]. eauto. }
  assert (Hnext : (forall r' g', entry_guest s e = Some (r', g') -> contains_ptr g' ptr = false) ->
    memory_found s ptr (find_memory s ptr (Z.of_nat (length pre) + 1) l)).
  { intros Hno. replace (Z.of_nat (length pre) + 1) with (Z.of_nat (length (pre ++ [e]))) by (rewrite length_app; simpl; lia).
    apply IH; [by rewrite <- app_assoc|]. intros j e' r' g' [Hj|[_ Hj]]%lookup_app_Some; [eauto|].
    apply list_lookup_singleton_Some in Hj as [_ <-]. eauto. }
  destruct (entry_guest s e) as [[ref g]|] eqn:Ee; [|apply Hnext; congruence].
  destruct (contains_ptr g ptr) eqn:Ec; [|apply Hnext; congruence].
  assert (Hl : (length pre < length (k_handles s))%nat) by (rewrite Epre, length_app; simpl; lia).
  pose proof (entry_guest_ref _ _ _ _ Ee) as ->. exists (length pre), g.
  split; [unfold BaseHandleIndex in *; rewrite wrap_small; lia|].
  split; [rewrite Epre, lookup_app_r, Nat.sub_diag by lia; done|]. split; [done|]. split; [done|].
  intros j e' r' g' Hj He. rewrite Epre, lookup_app_l in He by lia. eauto.
Qed.

(** [GetMemoryObject] finds the owner of an address.  It returns the first object of the
    handle table whose guest range contains the address, with the handle of that entry, and
    nothing exactly when no object of the table contains it. *)
Theorem GetMemoryObject_spec ptr s :
  BaseHandleIndex + Z.of_nat (length (k_handles s)) < 2 ^ 32 -> memory_found s ptr (GetMemoryObject ptr s).
Proof. intros Hb. by apply (find_memory_found s ptr (k_handles s) []). Qed.

Lemma GetMemoryObject_spec_witness :
  GetMemoryObject 0x800201000 sample_mapped = Some (1, 0xD000) /\
  memory_found sample_mapped 0x800201000 (GetMemoryObject 0x800201000 sample_mapped).
Proof. split; [vm_compute; reflexivity|]. apply (GetMemoryObject_spec 0x800201000 sample_mapped). vm_compute. reflexivity. Defined.

(** ** Slots of thread-local storage *)

#[local] Ltac Zify.zify_post_hook ::= Z.div_mod_to_equations.

(** The pages after [n] reservations: page [i] lies [i] pages into the region and all but the
    last are full. *)
Definition tls_pages_ok (s : Kernel) (n : Z) (pages : list TlsPage) : Prop :=
  forall i page, pages !! i = Some page ->
    tls_index page = Z.min 8 (n - 8 * Z.of_nat i) /\
    exists m, get_object s (tls_memory page) = Some (OPrivateMemory m) /\
      sp_data (pm_guest m) = sp_data (tlsIo (k_memory s)) + PAGE_SIZE * Z.of_nat i.

Definition tls_inv (s : Kernel) (n : Z) : Prop :=
  0 <= n /\ Z.of_nat (length (k_tlsPages s)) = (n + 7) / 8 /\ tls_pages_ok s n (k_tlsPages s).

Lemma reserve_first_full s pages :
  Forall (fun p => tls_index p = TlsSlots) pages -> reserve_first s pages = None.
Proof.
  induction 1 as [|p pages Hp _ IH]; [done|]. simpl. unfold ReserveSlot. rewrite Hp, Z.eqb_refl. by rewrite IH.
Qed.

Lemma reserve_first_snoc s pages p slot p' :
  Forall (fun p => tls_index p = TlsSlots) pages -> ReserveSlot s p = Some (slot, p') ->
  reserve_first s (pages ++ [p]) = Some (slot, pages ++ [p']).
Proof.
  intros Hf Hp. induction Hf as [|q pages Hq _ IH]; simpl; [by rewrite Hp|].
  unfold ReserveSlot at 1. rewrite Hq, Z.eqb_refl. by rewrite IH.
Qed.

(** The region has room for the page of slot [n], aligned and inside the guest address space. *)
Definition tls_room (s : Kernel) (n : Z) : Prop :=
  IsPageAligned (sp_data (tlsIo (k_memory s))) = true /\
  in_base s (mk_span (sp_data (tlsIo (k_memory s))) (PAGE_SIZE * (n / 8 + 1))).

Lemma tls_full s n : tls_inv s n -> n mod 8 = 0 -> Forall (fun p => tls_index p = TlsSlots) (k_tlsPages s).
Proof.
  intros (Hn & Hl & Hp) Hm. apply Forall_lookup. intros i p Hi. pose proof (lookup_lt_Some _ _ _ Hi).
  destruct (Hp i p Hi) as [-> _]. change TlsSlots with 8. lia.
Qed.

Lemma ReserveSlot_ok s p m :
  get_object s (tls_memory p) = Some (OPrivateMemory m) -> 0 <= tls_index p < 8 ->
  ReserveSlot s p = Some (u64 (sp_data (pm_guest m) + TlsSlotSize * tls_index p), mk_tls (tls_index p + 1) (tls_memory p)).
Proof.
  intros Ho Hi. unfold ReserveSlot. change TlsSlots with 8. destruct (Z.eqb_spec (tls_index p) 8); [lia|].
  rewrite Ho. by rewrite (wrap_small 8) by lia.
Qed.

(** A slot in the last page. *)
Lemma AllocateTlsSlot_same_page env s n :
  kernel_ok s -> tls_inv s n -> tls_room s n -> n mod 8 <> 0 ->
  exists s', AllocateTlsSlot env s = inr (s', sp_data (tlsIo (k_memory s)) + TlsSlotSize * n) /\
    tls_inv s' (n + 1) /\ kernel_ok s' /\ k_memory s' = k_memory s.
Proof.
  intros Hk Hinv [_ Hroom] Hm. pose proof (ko_base _ Hk) as Hb. pose proof Hinv as (Hn & Hl & Hp).
  destruct (unsnoc (k_tlsPages s)) as [[pages p]|] eqn:Eu; [|apply unsnoc_None in Eu; rewrite Eu in Hl; simpl in Hl; lia].
  apply unsnoc_Some in Eu. rewrite Eu, length_app in Hl. simpl in Hl.
  destruct (Hp (length pages) p) as (Hi & m & Ho & Hd); [by rewrite Eu, lookup_app_r, Nat.sub_diag by lia|].
  assert (Hf : Forall (fun p => tls_index p = TlsSlots) pages).
  { apply Forall_lookup. intros i q Hq. pose proof (lookup_lt_Some _ _ _ Hq).
    destruct (Hp i q) as [-> _]; [by rewrite Eu, lookup_app_l|]. change TlsSlots with 8. lia. }
  unfold in_base, PAGE_SIZE, TlsSlotSize in *. simpl in Hroom.
  unfold AllocateTlsSlot. rewrite Eu.
  rewrite (reserve_first_snoc s pages p _ _ Hf (ReserveSlot_ok s p m Ho ltac:(lia))).
  rewrite Hd, wrap_small by (unfold TlsSlotSize; lia). eexists. split.
  { unfold TlsSlotSize. do 2 f_equal. lia. }
  split; [|split; [by destruct Hk; split|done]]. split; [lia|]. simpl. split; [rewrite length_app; simpl; lia|].
  intros i q Hq. apply lookup_app_Some in Hq as [Hq|[Hge Hq]].
  - pose proof (lookup_lt_Some _ _ _ Hq). destruct (Hp i q) as (-> & Hmm); [by rewrite Eu, lookup_app_l|]. split; [lia|done].
  - apply list_lookup_singleton_Some in Hq as [Hi0 <-]. simpl. assert (i = length pages) as -> by lia.
    split; [lia|]. by exists m.
Qed.

(** A slot that needs a new page. *)
Lemma AllocateTlsSlot_new_page env s n :
  kernel_ok s -> tls_inv s n -> tls_room s n -> n mod 8 = 0 -> (forall c, call_ok env c = true) ->
  exists s', AllocateTlsSlot env s = inr (s', sp_data (tlsIo (k_memory s)) + TlsSlotSize * n) /\
    tls_inv s' (n + 1) /\ kernel_ok s' /\ same_regions (k_memory s) (k_memory s').
Proof.
  intros Hk Hinv [Hal Hroom] Hm Henv. pose proof (ko_base _ Hk) as Hb. pose proof Hinv as (Hn & Hl & Hp).
  set (page := mk_span (sp_data (tlsIo (k_memory s)) + PAGE_SIZE * (n / 8)) PAGE_SIZE).
  unfold in_base, PAGE_SIZE, TlsSlotSize in *. simpl in Hroom.
  assert (Hnext : next_tls_page s = inr (sp_data page)).
  { unfold next_tls_page. destruct (last (k_tlsPages s)) as [p|] eqn:El.
    - rewrite last_lookup in El. destruct (Hp _ p El) as (_ & m & -> & ->). pose proof (lookup_lt_Some _ _ _ El).
      unfold ok, PAGE_SIZE. rewrite wrap_small by lia. simpl. f_equal. lia.
    - apply last_None in El. rewrite El in Hl. simpl in *. f_equal. lia. }
  destruct (KPrivateMemory_new_ok env page (mk_perm true true false) states_ThreadLocal s Hk)
    as (s1 & E & Hk1 & Hr1 & Ho1 & _ & _ & Ht1 & _).
  { unfold in_base. simpl. lia. }
  { apply IsPageAligned_spec; simpl; [lia|]. apply IsPageAligned_spec in Hal; [|lia].
    replace (sp_data (tlsIo (k_memory s)) + 4096 * (n / 8)) with (sp_data (tlsIo (k_memory s)) + (n / 8) * 4096) by lia.
    by rewrite Z.mod_add. }
  { done. } { apply Henv. }
  unfold AllocateTlsSlot. rewrite (reserve_first_full s) by (by apply (tls_full s n)).
  rewrite Hnext. simpl. change (mk_span (sp_data page) PAGE_SIZE) with page. 
  match goal with |- context [KPrivateMemory_new env ?g] => change g with page end. rewrite E. simpl.
  assert (Hnew : get_object s1 (k_next s) = Some (OPrivateMemory (mk_private page (mk_perm true true false) states_ThreadLocal)))
    by (unfold get_object; by rewrite Ho1, lookup_insert_eq).
  rewrite (ReserveSlot_ok s1 (mk_tls 0 (k_next s)) _ Hnew) by (simpl; lia). simpl.
  eexists. split; [unfold ok, TlsSlotSize; rewrite wrap_small by lia; do 2 f_equal; lia|].
  split; [|split; [by destruct Hk1; split|done]]. split; [lia|]. simpl. rewrite Ht1.
  split; [rewrite length_app; simpl; lia|]. destruct Hr1 as (_ & _ & _ & _ & _ & Htls).
  intros i q Hq. simpl. rewrite Htls. apply lookup_app_Some in Hq as [Hq|[Hge Hq]].
  - pose proof (lookup_lt_Some _ _ _ Hq). destruct (Hp i q Hq) as (-> & m & Hm1 & Hm2). split; [lia|]. exists m.
    split; [|done]. unfold get_object. simpl. rewrite Ho1, lookup_insert_ne; [done|].
    intros Heq. pose proof (ko_fresh _ Hk (tls_memory q) ltac:(by eexists)). lia.
  - apply list_lookup_singleton_Some in Hq as [Hi0 <-]. simpl. assert (Z.of_nat i = n / 8) as Ei by lia.
    split; [lia|]. eexists. split; [exact Hnew|]. simpl. unfold PAGE_SIZE. lia.
Qed.

(** A number of allocations in a row. *)
Fixpoint AllocateTlsSlots (env : host_env) (n : nat) (s : Kernel) : M (Kernel * list Z) :=
  match n with
  | O => ok (s, [])
  | S n => let! (s, slot) := AllocateTlsSlot env s in
           let! (s, slots) := AllocateTlsSlots env n s in ok (s, slot :: slots)
  end.

Lemma AllocateTlsSlot_ok env s n :
  kernel_ok s -> tls_inv s n -> tls_room s n -> (forall c, call_ok env c = true) ->
  exists s', AllocateTlsSlot env s = inr (s', sp_data (tlsIo (k_memory s)) + TlsSlotSize * n) /\
    tls_inv s' (n + 1) /\ kernel_ok s' /\ same_regions (k_memory s) (k_memory s').
Proof.
  intros Hk Hi Hr He. destruct (decide (n mod 8 = 0)); [by apply AllocateTlsSlot_new_page|].
  destruct (AllocateTlsSlot_same_page env s n) as (s' & H1 & H2 & H3 & H4); [done..|].
  exists s'. split; [done|]. split; [done|]. split; [done|]. by rewrite H4.
Qed.

Lemma tls_room_regions s s' n m :
  same_regions (k_memory s) (k_memory s') -> 0 <= m <= n -> tls_room s n -> tls_room s' m.
Proof.
  intros (Hb & _ & _ & _ & _ & Ht) Hm [H1 H2]. unfold tls_room, in_base, PAGE_SIZE in *. simpl in *.
  rewrite Ht, Hb. split; [done|]. lia.
Qed.

Lemma AllocateTlsSlots_ok env k n s :
  kernel_ok s -> tls_inv s n -> tls_room s (n + Z.of_nat k) -> (forall c, call_ok env c = true) ->
  exists s', AllocateTlsSlots env k s =
    inr (s', (fun i => sp_data (tlsIo (k_memory s)) + TlsSlotSize * (n + Z.of_nat i)) <$> seq 0 k).
Proof.
  intros Hk Hi Hr He. revert n s Hk Hi Hr. induction k as [|k IH]; intros n s Hk Hi Hr; [by exists s|].
  pose proof Hi as (Hn & _). destruct (AllocateTlsSlot_ok env s n Hk Hi) as (s1 & E1 & Hi1 & Hk1 & Hreg); [|done|].
  { eapply tls_room_regions; [reflexivity| |exact Hr]. lia. }
  destruct (IH (n + 1) s1 Hk1 Hi1) as (s2 & E2). { eapply tls_room_regions; [exact Hreg| |exact Hr]. lia. }
  exists s2. cbn [AllocateTlsSlots]. rewrite E1. cbn [bindM]. rewrite E2. cbn [bindM].
  destruct Hreg as (_ & _ & _ & _ & _ & Ht). unfold ok. do 2 f_equal. cbn [seq fmap list_fmap]. f_equal; [f_equal; lia|].
  rewrite <- fmap_S_seq, <- list_fmap_compose. apply list_fmap_ext. intros i x _. cbn. rewrite Ht. lia.
Qed.

(** thread-local slots are handed out consecutively.  Starting from a process without pages,
    any number of allocations that fits the region returns the slots of 0x200 bytes from the start
    of the TLS/IO region on, one after the other without overlap, eight to a page. *)
Theorem AllocateTlsSlots_consecutive env k s :
  kernel_ok s -> k_tlsPages s = [] -> tls_room s (Z.of_nat k) -> (forall c, call_ok env c = true) ->
  exists s', AllocateTlsSlots env k s =
    inr (s', (fun i => sp_data (tlsIo (k_memory s)) + TlsSlotSize * Z.of_nat i) <$> seq 0 k).
Proof.
  intros Hk Hp Hr He. destruct (AllocateTlsSlots_ok env k 0 s Hk) as (s' & E); [|done|done|by exists s'].
  split; [lia|]. rewrite Hp. split; [done|]. intros i p Hi. done.
Qed.

Lemma AllocateTlsSlots_consecutive_witness :
  exists s', AllocateTlsSlots (mk_env (fun _ => true) (fun _ => None)) 10 sample_kernel =
    inr (s', (fun i => 0xC00000000 + TlsSlotSize * Z.of_nat i) <$> seq 0 10).
Proof.
  apply (AllocateTlsSlots_consecutive (mk_env (fun _ => true) (fun _ => None)) 10 sample_kernel).
  - exact sample_kernel_ok.
  - reflexivity.
  - split; [reflexivity|]. vm_compute. intuition congruence.
  - reflexivity.
Defined.

(** a created thread is what its handle names.  When thread creation is enabled and the stack
    is given, the new thread is appended to the thread list with the next number as id, keeps the
    requested entry, argument, stack, priority and core, is resident on its ideal core and allowed
    only there, and the handle stored in it is the handle under which the table finds it. *)
Theorem CreateThread_registers env cur entry argument stackTop priority idealCore s :
  k_disableThreadCreation s = false -> stackTop <> 0 -> 0 <= idealCore < CoreCount -> table_room s ->
  let t := k_next s in
  let h := BaseHandleIndex + Z.of_nat (length (k_handles s)) in
  exists s', CreateThread env entry argument stackTop (Some priority) (Some idealCore) s = inr (s', Some t) /\
    k_threads s' = k_threads s ++ [t] /\ GetHandle cur KT_KThread h s' = inr t /\
    thr (k_sched s') t = new_thread h (Z.of_nat (length (k_threads s))) entry argument stackTop priority idealCore /\
    t_affinityMask (thr (k_sched s') t) = Z.shiftl 1 idealCore /\ t_coreId (thr (k_sched s') t) = idealCore /\
    t_handle (thr (k_sched s') t) = h.
Proof.
  intros Hd Hst Hc Hr t h. unfold CreateThread. rewrite Hd. apply Z.eqb_neq in Hst. rewrite Hst. simpl.
  unfold NewHandle, KThread_new. destruct (Z.leb_spec CoreCount idealCore); [lia|]. simpl.
  assert (Hh : u32 h = h) by (apply wrap_small; unfold h, table_room, threadSelf, BaseHandleIndex in *; lia).
  fold h. rewrite Hh. eexists. split; [reflexivity|]. simpl.
  split; [done|]. split.
  - destruct (push_handle_found t s Hr) as (H1 & H2 & H3). rewrite push_handle_value in H1, H2, H3. fold h in H1, H2, H3.
    rewrite Hh in H1, H2, H3. eapply (GetHandle_table _ _ _ t (OThread (mk_sync false []))); [done|done|exact H1| |done].
    unfold get_object. simpl. apply lookup_insert_eq.
  - unfold thr. simpl. rewrite lookup_total_insert_eq. done.
Qed.

Lemma CreateThread_registers_witness :
  exists s', CreateThread sample_env 0x800000000 7 0x800202000 (Some 44) (Some 1) sample_mapped = inr (s', Some 2) /\
    GetHandle 9 KT_KThread 0xD001 s' = inr 2.
Proof.
  destruct (CreateThread_registers sample_env 9 0x800000000 7 0x800202000 44 1 sample_mapped)
    as (s' & H1 & _ & H2 & _); [reflexivity|lia|vm_compute; intuition congruence|vm_compute; reflexivity|].
  exists s'. split; [exact H1|exact H2].
Defined.
