(* ===== verification/Sync.v ===== *)
(** * Synchronisation ([KProcess.cpp] from [MutexLock] on, [KSyncObject.cpp])

    Mutexes, condition variables and the address arbiter of the process, and the signalling of
    synchronisation objects.  A primitive that blocks is split where it waits for the scheduler:
    the part before the wait and the parts after it are separate operations, so a run is a
    sequence of them in any order.  Within a part the guest word is accessed without
    interference, as under the locks the source holds. *)

From S2P Require Import Prelude Common MemoryManager Scheduler KObjects Process.

(** ** Guest words *)

Definition read_u32 (ram : guest_memory) (a : Z) : Z :=
  ram a + Z.shiftl (ram (a + 1)) 8 + Z.shiftl (ram (a + 2)) 16 + Z.shiftl (ram (a + 3)) 24.

Definition write_u32 (a v : Z) (ram : guest_memory) : guest_memory :=
  fun x => if (a <=? x) && (x <? a + 4) then bits (8 * (x - a)) 8 v else ram x.

Definition load (s : Kernel) (a : Z) : Z := read_u32 (k_ram s) a.
Definition store (a v : Z) (s : Kernel) : Kernel := set_k_ram (write_u32 a v (k_ram s)) s.

(** What a part of a blocking call ends with. *)
Inductive outcome : Type :=
| Returned (result : Z)
| Waiting.

(** [InsertThread] of a thread by the caller; inserting a paused thread blocks the caller. *)
Definition wake (cur t : Z) (s : Kernel) : M Kernel :=
  let! (sch, inserted) := InsertThread (Some cur) t (k_sched s) in
  if inserted then ok (set_k_sched sch s) else fail (Suspended "InsertThread of a paused thread").

Definition insert_sorted (s : Kernel) (t : Z) (l : list Z) : list Z :=
  insert_at (queue_bound (k_sched s) (prio (k_sched s) t) l) t l.

(** ** Priorities by compare-and-swap

    The loops [do ... while (expected != target && cas(priority, expected, target))]: they repeat
    while the swap succeeds.  Each exchange is made without interference. *)
Fixpoint swap_while (fuel : nat) (expected target : Scheduler -> Z) (t : Z) (sch : Scheduler) : Scheduler :=
  match fuel with
  | O => sch
  | S fuel =>
      if expected sch =? target sch then sch
      else if prio sch t =? expected sch
      then swap_while fuel expected target t (set_thr t (set_t_priority (target sch)) sch)
      else sch
  end.

(** Two rounds are enough for the loops below, see [swap_while_enough]. *)
Definition swap_fuel : nat := 2.

(** ** Mutex *)

Definition HandleWaitersBit : Z := 2 ^ 30.

Definition MutexLock (now cur mutex ownerHandle tag : Z) (s : Kernel) : M (Kernel * outcome) :=
  match GetHandle cur KT_KThread ownerHandle s with
  | inl Throw_out_of_range =>
      if negb (load s mutex =? Z.lor ownerHandle HandleWaitersBit) then ok (s, Returned result_InvalidCurrentMemory)
      else ok (s, Returned result_InvalidHandle)
  | inl f => inl f
  | inr owner =>
      let value := load s mutex in
      if value =? 0 then ok (store mutex tag s, Returned Success)
      else if negb (value =? Z.lor ownerHandle HandleWaitersBit) then ok (s, Returned result_InvalidCurrentMemory)
      else
        let waiters := t_waiters (thr (k_sched s) owner) in
        let position := queue_bound (k_sched s) (prio (k_sched s) cur) waiters in
        let isHighestPriority := (position =? 0)%nat in
        let s := on_sched (set_thr owner (set_t_waiters (insert_at position cur waiters))) s in
        let! s := on_schedM (RemoveThread now cur) s in
        let s := on_sched (set_thr cur (set_t_waitThread (Some owner))) s in
        let s := on_sched (set_thr cur (set_t_waitKey mutex)) s in
        let s := on_sched (set_thr cur (set_t_waitTag tag)) s in
        let! s := if isHighestPriority then on_schedM (UpdatePriorityInheritance [] cur) s else ok s in
        ok (s, Waiting)
  end.

(** The loop over the waiters that follow the next owner: those that wait for the same mutex
    move to the next owner's list.  Results: who stays, and the first who moved. *)
Fixpoint move_waiters (mutex nextOwner : Z) (l : list Z) (sch : Scheduler) (nextWaiter : option Z)
    : Scheduler * list Z * option Z :=
  match l with
  | [] => (sch, [], nextWaiter)
  | thread :: l =>
      if t_waitKey (thr sch thread) =? mutex then
        let waiters := t_waiters (thr sch nextOwner) in
        let sch := set_thr nextOwner (set_t_waiters (insert_at (queue_bound sch (prio sch thread) waiters) thread waiters)) sch in
        let sch := set_thr thread (set_t_waitThread (Some nextOwner)) sch in
        move_waiters mutex nextOwner l sch (match nextWaiter with None => Some thread | _ => nextWaiter end)
      else
        let '(sch, stay, nextWaiter) := move_waiters mutex nextOwner l sch nextWaiter in
        (sch, thread :: stay, nextWaiter)
  end.

(** The priority of the unlocking thread once its waiters have changed. *)
Definition unlock_priority (cur : Z) (sch : Scheduler) : M Scheduler :=
  match t_waiters (thr sch cur) with
  | highestPriorityThread :: _ =>
      let base sch := t_basePriority (thr sch cur) in
      UpdatePriority cur (swap_while swap_fuel base (fun sch => Z.min (base sch) (prio sch highestPriorityThread)) cur sch)
  | [] =>
      let basePriority := t_basePriority (thr sch cur) in
      let priority := prio sch cur in
      if negb (priority =? basePriority)
      then UpdatePriority cur (set_thr cur (set_t_priority basePriority) sch)
      else ok sch
  end.

Definition MutexUnlock (cur mutex : Z) (s : Kernel) : M Kernel :=
  let sch := k_sched s in
  let '(before, rest) := split_at (fun t => t_waitKey (thr sch t) =? mutex) (t_waiters (thr sch cur)) in
  match rest with
  | [] => ok (store mutex 0 s)
  | nextOwner :: rest =>
      let sch := set_thr nextOwner (set_t_waitThread None) sch in
      let sch := set_thr nextOwner (set_t_waitKey 0) sch in
      let '(sch, stay, nextWaiter) := move_waiters mutex nextOwner rest sch None in
      let sch := set_thr cur (set_t_waiters (before ++ stay)) sch in
      let! sch := unlock_priority cur sch in
      let '(sch, word) :=
        match nextWaiter with
        | Some w =>
            let owner sch := prio sch nextOwner in
            (swap_while swap_fuel owner (fun sch => Z.min (owner sch) (prio sch w)) nextOwner sch,
             Z.lor (t_waitTag (thr sch nextOwner)) HandleWaitersBit)
        | None => (sch, t_waitTag (thr sch nextOwner))
        end in
      wake cur nextOwner (store mutex word (set_k_sched sch s))
  end.

(** ** Threads waiting on a key

    [syncWaiters] is a multimap; the range of a key is its list of threads. *)
Definition sync_queue (s : Kernel) (key : Z) : list Z := default [] (k_syncWaiters s !! key).
Definition set_sync_queue (key : Z) (q : list Z) (s : Kernel) : Kernel :=
  set_k_syncWaiters (<[key := q]> (k_syncWaiters s)) s.

(** [syncWaiters.insert] of the calling thread behind those of its priority. *)
Definition enqueue_waiter (key cur : Z) (s : Kernel) : Kernel :=
  set_sync_queue key (insert_sorted s cur (sync_queue s key)) s.

(** Wakes threads from the front of a queue: all of them when [amount <= 0]. *)
Fixpoint wake_waiters (cur amount waiterCount : Z) (q : list Z) (s : Kernel) : M (Kernel * list Z) :=
  match q with
  | [] => ok (s, [])
  | t :: q' =>
      if (amount <=? 0) || negb (waiterCount =? 0)
      then let! s := wake cur t s in wake_waiters cur amount (waiterCount - 1) q' s
      else ok (s, q)
  end.

(** A wait that timed out: the thread leaves the queue; if it was the last of the queue the
    word is cleared. *)
Definition leave_queue (key cur : Z) (s : Kernel) : Kernel :=
  let q := sync_queue s key in
  match index_of cur q with
  | Some i =>
      let s := set_sync_queue key (erase_at i q) s in
      if (S i =? length q)%nat then store key 0 s else s
  | None => s
  end.

(** ** Condition variables *)

Definition ConditionalVariableWait (now cur key mutex : Z) (s : Kernel) : M (Kernel * outcome) :=
  let s := enqueue_waiter key cur s in
  let s := store key 1 s in
  let! s := on_schedM (RemoveThread now cur) s in
  let! s := MutexUnlock cur mutex s in
  ok (s, Waiting).

(** After the timed wait expired. *)
Definition ConditionalVariableWait_timeout (cur key : Z) (s : Kernel) : M (Kernel * outcome) :=
  let! s := wake cur cur (leave_queue key cur s) in
  ok (s, Returned result_TimedOut).

(** [value & ~HandleWaitersBit] on 32 bits. *)
Definition clear_waiters_bit (value : Z) : Z := Z.land value (Z.lnot HandleWaitersBit).

(** The loop that takes the mutex back; [Waiting] means that the thread waits for its owner and
    returns successfully once it is handed the mutex. *)
Fixpoint relock_loop (fuel : nat) (now cur mutex tag value : Z) (s : Kernel) : M (Kernel * outcome) :=
  match fuel with
  | O => fail (Suspended "ConditionalVariableWait: retrying")
  | S fuel =>
      let! (s, o) := MutexLock now cur mutex (clear_waiters_bit value) tag s in
      match o with
      | Waiting => ok (s, Waiting)
      | Returned r =>
          if r =? Success then ok (s, Returned Success)
          else
            let value := Z.lor (load s mutex) HandleWaitersBit in
            let s := store mutex value s in
            if value =? HandleWaitersBit then ok (store mutex tag s, Returned Success)
            else relock_loop fuel now cur mutex tag value s
      end
  end.

(** After the thread was woken. *)
Definition ConditionalVariableWait_resume (fuel : nat) (now cur mutex tag : Z) (s : Kernel) : M (Kernel * outcome) :=
  let value := load s mutex in
  if value =? 0 then ok (store mutex tag s, Returned Success)
  else relock_loop fuel now cur mutex tag value s.

Definition ConditionalVariableSignal (cur key amount : Z) (s : Kernel) : M Kernel :=
  let! (s, rest) := wake_waiters cur amount amount (sync_queue s key) s in
  let s := set_sync_queue key rest s in
  ok (match rest with [] => store key 0 s | _ => s end).

(** ** Address arbiter *)

Inductive ArbitrationType : Type := WaitIfLessThan | DecrementAndWaitIfLessThan | WaitIfEqual.
Inductive SignalType : Type :=
| Signal | SignalAndIncrementIfEqual | SignalAndModifyBasedOnWaitingThreadCountIfEqual.

(** The condition and the decrement; [None] is the early return. *)
Definition arbitrate (address value : Z) (type : ArbitrationType) (s : Kernel) : option Kernel :=
  match type with
  | WaitIfLessThan => if value <=? load s address then None else Some s
  | DecrementAndWaitIfLessThan =>
      let userValue := load s address in
      if value <=? userValue then None else Some (store address (u32 (userValue - 1)) s)
  | WaitIfEqual => if negb (load s address =? value) then None else Some s
  end.

Definition WaitForAddress (now cur address value : Z) (type : ArbitrationType) (s : Kernel) : M (Kernel * outcome) :=
  match arbitrate address value type s with
  | None => ok (s, Returned result_InvalidState)
  | Some s =>
      let s := enqueue_waiter address cur s in
      let! s := on_schedM (RemoveThread now cur) s in
      ok (s, Waiting)
  end.

Definition WaitForAddress_timeout (cur address : Z) (s : Kernel) : M (Kernel * outcome) :=
  let! s := wake cur cur (leave_queue address cur s) in
  ok (s, Returned result_TimedOut).

Definition signal_value (value amount waiters : Z) (type : SignalType) : Z :=
  match type with
  | Signal => value
  | SignalAndIncrementIfEqual => u32 (value + 1)
  | SignalAndModifyBasedOnWaitingThreadCountIfEqual =>
      if amount <=? 0 then
        if negb (waiters =? 0) then u32 (value - 2) else u32 (value + 1)
      else if negb (waiters =? 0) then
        if i32 waiters <? amount then u32 (value - 1) else value
      else u32 (value + 1)
  end.

Definition SignalToAddress (cur address value amount : Z) (type : SignalType) (s : Kernel) : M (Kernel * Z) :=
  let q := sync_queue s address in
  let modified :=
    match type with
    | Signal => Some s
    | _ =>
        let newValue := signal_value value amount (Z.of_nat (length q)) type in
        if load s address =? value then Some (store address newValue s) else None
    end in
  match modified with
  | None => ok (s, result_InvalidState)
  | Some s =>
      let! (s, rest) := wake_waiters cur amount amount q s in
      ok (set_sync_queue address rest s, Success)
  end.

(** ** Synchronisation objects *)

Definition sync_object (s : Kernel) (ref : Z) : M KSyncObject :=
  match get_object s ref with
  | Some o => from_opt (Undefined "not a synchronisation object") (sync_of o)
  | None => fail (Undefined "dangling reference")
  end.

Definition put_sync (ref : Z) (o : KSyncObject) (s : Kernel) : Kernel :=
  match get_object s ref with
  | Some old => put_object ref (with_sync o old) s
  | None => s
  end.

Definition signal_waiter (cur ref : Z) (s : Kernel) (waiter : Z) : M Kernel :=
  if t_isCancellable (thr (k_sched s) waiter) then
    let s := on_sched (set_thr waiter (set_t_isCancellable false)) s in
    let s := on_sched (set_thr waiter (set_t_wakeObject (Some ref))) s in
    wake cur waiter s
  else ok s.

Definition KSyncObject_Signal (cur ref : Z) (s : Kernel) : M Kernel :=
  let! o := sync_object s ref in
  let s := put_sync ref (mk_sync true (syncObjectWaiters o)) s in
  foldM (signal_waiter cur ref) (syncObjectWaiters o) s.

Definition KSyncObject_ResetSignal (ref : Z) (s : Kernel) : M (Kernel * bool) :=
  let! o := sync_object s ref in
  if signalled o then ok (put_sync ref (mk_sync false (syncObjectWaiters o)) s, true) else ok (s, false).

(** ** Words *)

#[local] Ltac Zify.zify_post_hook ::= Z.div_mod_to_equations.

Lemma byte_sum v :
  0 <= v < 2 ^ 32 ->
  bits 0 8 v + Z.shiftl (bits 8 8 v) 8 + Z.shiftl (bits 16 8 v) 16 + Z.shiftl (bits 24 8 v) 24 = v.
Proof.
  intros Hv. rewrite !Z.shiftl_mul_pow2, !bits_div_mod by lia.
  change (2 ^ 0) with 1. change (2 ^ 8) with 256. change (2 ^ 16) with 65536. change (2 ^ 24) with 16777216. lia.
Qed.

Lemma read_write_u32 a v ram : 0 <= v < 2 ^ 32 -> read_u32 (write_u32 a v ram) a = v.
Proof.
  intros Hv. unfold read_u32, write_u32.
  repeat match goal with |- context [if ?b then _ else _] => replace b with true by (symmetry; apply andb_true_iff; lia) end.
  replace (8 * (a - a)) with 0 by lia. replace (8 * (a + 1 - a)) with 8 by lia.
  replace (8 * (a + 2 - a)) with 16 by lia. replace (8 * (a + 3 - a)) with 24 by lia. by apply byte_sum.
Qed.

Lemma read_write_u32_other a b v ram : b + 4 <= a \/ a + 4 <= b -> read_u32 (write_u32 a v ram) b = read_u32 ram b.
Proof.
  intros H. unfold read_u32, write_u32.
  repeat match goal with |- context [if ?b then _ else _] => replace b with false by (symmetry; apply andb_false_iff; lia) end.
  done.
Qed.

Lemma load_store a v s : 0 <= v < 2 ^ 32 -> load (store a v s) a = v.
Proof. intros. by apply read_write_u32. Qed.

(** ** States that differ in queues and flags only *)

(** The fields the mutex code relies on. *)
Record same_wait (s s' : Scheduler) : Prop := mk_same_wait {
  sw_waiters : forall u, t_waiters (thr s' u) = t_waiters (thr s u);
  sw_waitThread : forall u, t_waitThread (thr s' u) = t_waitThread (thr s u);
  sw_waitKey : forall u, t_waitKey (thr s' u) = t_waitKey (thr s u);
  sw_waitTag : forall u, t_waitTag (thr s' u) = t_waitTag (thr s u);
  sw_base : forall u, t_basePriority (thr s' u) = t_basePriority (thr s u);
  sw_core : forall u, t_coreId (thr s' u) = t_coreId (thr s u);
  sw_paused : forall u, t_isPaused (thr s' u) = t_isPaused (thr s u);
  sw_cancellable : forall u, t_isCancellable (thr s' u) = t_isCancellable (thr s u);
  sw_cancelSync : forall u, t_cancelSync (thr s' u) = t_cancelSync (thr s u);
  sw_wakeObject : forall u, t_wakeObject (thr s' u) = t_wakeObject (thr s u) }.

#[global] Instance same_wait_refl : Reflexive same_wait.
Proof. by split. Qed.
#[global] Instance same_wait_trans : Transitive same_wait.
Proof. intros s1 s2 s3 [] []. split; intros; etrans; eauto. Qed.

Definition keeps_wait (f : KThread -> KThread) : Prop :=
  forall r, t_waiters (f r) = t_waiters r /\ t_waitThread (f r) = t_waitThread r /\ t_waitKey (f r) = t_waitKey r /\
    t_waitTag (f r) = t_waitTag r /\ t_basePriority (f r) = t_basePriority r /\ t_coreId (f r) = t_coreId r /\
    t_isPaused (f r) = t_isPaused r /\ t_isCancellable (f r) = t_isCancellable r /\
    t_cancelSync (f r) = t_cancelSync r /\ t_wakeObject (f r) = t_wakeObject r.

Lemma same_wait_set_thr s t f : keeps_wait f -> same_wait s (set_thr t f s).
Proof. intros H. split; intros u; rewrite thr_set_thr; case_decide as E; try done; subst; apply H. Qed.

Ltac solve_keeps_wait := intros []; repeat split.

Lemma same_wait_cores s s' : (forall u, thr s' u = thr s u) -> same_wait s s'.
Proof. intros H. split; intros; by rewrite H. Qed.

Lemma same_wait_emit s e : same_wait s (emit e s).
Proof. by split. Qed.
Lemma same_wait_set_queue s c q : same_wait s (set_queue c q s).
Proof. by split. Qed.
Lemma same_wait_SendSignal s t : same_wait s (SendSignal t s).
Proof. unfold SendSignal. destruct (_ && _); [apply same_wait_emit|done]. Qed.
Lemma same_wait_Arm s t : same_wait s (ArmPreemptionTimer t s).
Proof.
  unfold ArmPreemptionTimer. destruct (_ && _); [|done].
  etrans; [apply same_wait_emit|apply same_wait_set_thr; solve_keeps_wait].
Qed.
Lemma same_wait_Disarm s t : same_wait s (DisarmPreemptionTimer t s).
Proof.
  unfold DisarmPreemptionTimer. destruct (negb _); [done|]. destruct (_ && _); [|done].
  etrans; [apply same_wait_emit|apply same_wait_set_thr; solve_keeps_wait].
Qed.
Lemma same_wait_yield_front s t : same_wait s (yield_front t s).
Proof.
  unfold yield_front. destruct (negb _); [|done].
  etrans; [apply same_wait_SendSignal|apply same_wait_set_thr; solve_keeps_wait].
Qed.

Lemma same_wait_clear_yield s t : same_wait s (clear_yield t s).
Proof.
  unfold clear_yield. etrans; [apply same_wait_Disarm|].
  etrans; [|apply same_wait_set_thr; solve_keeps_wait]. apply same_wait_set_thr; solve_keeps_wait.
Qed.

#[export] Hint Resolve same_wait_emit same_wait_set_queue same_wait_SendSignal same_wait_Arm same_wait_Disarm
  same_wait_yield_front : sky.

(** A well-placed thread: its core exists. *)
Definition placed (sch : Scheduler) (t : Z) : Prop := 0 <= t_coreId (thr sch t) < 4.

Lemma UpdatePriority_total t sch :
  cores_ok sch -> placed sch t ->
  exists sch', UpdatePriority t sch = inr sch' /\ same_wait sch sch' /\ cores_ok sch' /\ forall u, prio sch' u = prio sch u.
Proof.
  intros Hok Hc. unfold UpdatePriority. destruct (core_at_ok sch _ Hok Hc) as (core & -> & Hid & Hq). simpl.
  assert (Hsq : forall s', same_queues sch s' -> same_wait sch s' ->
    exists sch', inr s' = inr (A := fault) sch' /\ same_wait sch sch' /\ cores_ok sch' /\ forall u, prio sch' u = prio sch u).
  { intros s' H1 H2. exists s'. split; [done|]. split; [done|]. split; [by eapply same_queues_ok|apply H1]. }
  destruct (index_of t (core_queue core)) as [[|i]|]; [| |by apply Hsq].
  - repeat match goal with |- context [if ?b then _ else _] => destruct b end; apply Hsq; auto with sky; done.
  - match goal with |- context [if ?b then _ else _] => destruct b end; [|by apply Hsq].
    assert (Hr : forall q s', requeued (core_id core) q sch s' -> same_wait sch s' ->
      exists sch', inr s' = inr (A := fault) sch' /\ same_wait sch sch' /\ cores_ok sch' /\ forall u, prio sch' u = prio sch u).
    { intros q s' R W. exists s'. split; [done|]. split; [done|]. split; [apply R|apply R]. }
    unfold placed in Hc. rewrite <- Hid in Hc. destruct (queue_bound _ _ _) as [|k]; [destruct (erase_at _ _) as [|front rest]|].
    + eapply Hr; [by apply requeued_set_queue|auto with sky].
    + eapply Hr; [eapply requeued_after; [by apply requeued_set_queue|auto with sky]|].
      etrans; [apply same_wait_set_queue|auto with sky].
    + eapply Hr; [by apply requeued_set_queue|auto with sky].
Qed.

Lemma InsertThread_enqueue_wait cur t s s' : InsertThread_enqueue cur t s = inr s' -> same_wait s s'.
Proof.
  unfold InsertThread_enqueue. intros E. apply bindM_ok in E as (core & _ & E).
  destruct (queue_bound _ _ _); [|injection E as <-; auto with sky].
  destruct (core_queue core) as [|front q]; injection E as <-.
  - case_decide; [auto with sky|]. etrans; [apply same_wait_set_queue|apply same_wait_emit].
  - assert (W : forall s0, same_wait s s0 -> same_wait s (if decide (cur = Some t) then s0 else emit (Notify t) s0)).
    { intros s0 H. case_decide; [done|]. etrans; [exact H|apply same_wait_emit]. }
    assert (W0 : forall q, same_wait s (set_queue (core_id core) q (set_thr front (set_t_forceYield true) s))).
    { intros q0. etrans; [|apply same_wait_set_queue]. apply same_wait_set_thr; solve_keeps_wait. }
    apply W. destruct (decide (cur = Some front)).
    { etrans; [apply W0|]. apply same_wait_set_thr; solve_keeps_wait. }
    destruct (negb _); [|apply W0]. etrans; [apply W0|]. etrans; [apply same_wait_SendSignal|].
    apply same_wait_set_thr; solve_keeps_wait.
Qed.

(** Waking a thread that can run. *)
Lemma wake_ok cur t s :
  cores_ok (k_sched s) -> placed (k_sched s) t -> t_isPaused (thr (k_sched s) t) = false ->
  exists sch, wake cur t s = inr (set_k_sched sch s) /\ same_wait (k_sched s) sch /\
    requeued (t_coreId (thr (k_sched s) t)) (enqueued (k_sched s) t (queue (k_sched s) (t_coreId (thr (k_sched s) t))))
      (k_sched s) sch.
Proof.
  intros Hok Hc Hp. unfold wake, InsertThread. destruct (core_at_ok _ _ Hok Hc) as (core & -> & _). simpl. rewrite Hp.
  destruct (InsertThread_enqueue_queue (Some cur) t (k_sched s) Hok Hc) as (sch & E & R). rewrite E. simpl.
  exists sch. split; [done|]. split; [by eapply InsertThread_enqueue_wait|done].
Qed.

Lemma UpdatePriority_placed sch sch' t : same_wait sch sch' -> placed sch t -> placed sch' t.
Proof. intros [] H. unfold placed. by rewrite sw_core0. Qed.

(** ** Handing a mutex over *)

(** The waiters of a list for one mutex, and the others. *)
Definition for_mutex (sch : Scheduler) (mutex : Z) (l : list Z) : list Z :=
  filter (fun t => t_waitKey (thr sch t) = mutex) l.
Definition for_others (sch : Scheduler) (mutex : Z) (l : list Z) : list Z :=
  filter (fun t => t_waitKey (thr sch t) <> mutex) l.

Lemma filter_keys sch sch' mutex l :
  (forall u, t_waitKey (thr sch' u) = t_waitKey (thr sch u)) ->
  for_mutex sch' mutex l = for_mutex sch mutex l /\ for_others sch' mutex l = for_others sch mutex l.
Proof. intros H. split; apply list_filter_iff; intros; by rewrite H. Qed.

Lemma for_mutex_ext sch sch' mutex l :
  (forall u, u ∈ l -> t_waitKey (thr sch' u) = t_waitKey (thr sch u)) -> for_mutex sch' mutex l = for_mutex sch mutex l.
Proof.
  unfold for_mutex. induction l as [|t l IH]; intros H; [done|]. rewrite !filter_cons, IH by set_solver.
  rewrite (H t) by set_solver. done.
Qed.

Lemma for_others_ext sch sch' mutex l :
  (forall u, u ∈ l -> t_waitKey (thr sch' u) = t_waitKey (thr sch u)) -> for_others sch' mutex l = for_others sch mutex l.
Proof.
  unfold for_others. induction l as [|t l IH]; intros H; [done|]. rewrite !filter_cons, IH by set_solver.
  rewrite (H t) by set_solver. done.
Qed.

(** What moving the waiters of [l] to the list of [owner] does. *)
Record moved (mutex owner : Z) (l : list Z) (sch sch' : Scheduler) : Prop := mk_moved {
  mv_cores : cores sch' = cores sch;
  mv_prio : forall u, prio sch' u = prio sch u;
  mv_core : forall u, t_coreId (thr sch' u) = t_coreId (thr sch u);
  mv_paused : forall u, t_isPaused (thr sch' u) = t_isPaused (thr sch u);
  mv_key : forall u, t_waitKey (thr sch' u) = t_waitKey (thr sch u);
  mv_tag : forall u, t_waitTag (thr sch' u) = t_waitTag (thr sch u);
  mv_base : forall u, t_basePriority (thr sch' u) = t_basePriority (thr sch u);
  mv_in : forall u, u ∈ for_mutex sch mutex l -> t_waitThread (thr sch' u) = Some owner;
  mv_out : forall u, u ∉ for_mutex sch mutex l -> t_waitThread (thr sch' u) = t_waitThread (thr sch u);
  mv_waiters : t_waiters (thr sch' owner) ≡ₚ t_waiters (thr sch owner) ++ for_mutex sch mutex l;
  mv_sorted : psorted (prio sch) (t_waiters (thr sch owner)) -> psorted (prio sch) (t_waiters (thr sch' owner));
  mv_others : forall u, u <> owner -> t_waiters (thr sch' u) = t_waiters (thr sch u) }.

(** One waiter moves. *)
Definition move_one (owner thread : Z) (sch : Scheduler) : Scheduler :=
  let waiters := t_waiters (thr sch owner) in
  let sch := set_thr owner (set_t_waiters (insert_at (queue_bound sch (prio sch thread) waiters) thread waiters)) sch in
  set_thr thread (set_t_waitThread (Some owner)) sch.

Lemma move_one_moved mutex owner thread sch :
  t_waitKey (thr sch thread) = mutex -> thread <> owner -> moved mutex owner [thread] sch (move_one owner thread sch).
Proof.
  intros Hk Hne. unfold move_one.
  assert (Ef : for_mutex sch mutex [thread] = [thread]) by (unfold for_mutex; by rewrite filter_cons_True).
  split; try done; try (intros u; unfold prio; rewrite !thr_set_thr; repeat case_decide; subst; done).
  - intros u. rewrite Ef. intros ->%list_elem_of_singleton. rewrite thr_set_thr. by case_decide.
  - intros u. rewrite Ef. intros Hu. rewrite !thr_set_thr. repeat case_decide; subst; try done. set_solver.
  - rewrite Ef, !thr_set_thr. repeat case_decide; subst; try done. simpl. rewrite insert_at_perm. by rewrite Permutation_cons_append.
  - intros Hs. rewrite !thr_set_thr. repeat case_decide; subst; try done. simpl.
    destruct (queue_bound_split sch (prio sch thread) _ Hs) as [Hlo Hhi].
    eapply psorted_insert; [by rewrite take_drop|done|done|done].
Qed.

Lemma moved_trans mutex owner l1 l2 s1 s2 s3 :
  moved mutex owner l1 s1 s2 -> moved mutex owner l2 s2 s3 -> owner ∉ l1 -> owner ∉ l2 -> moved mutex owner (l1 ++ l2) s1 s3.
Proof.
  intros [] [] Hn1 Hn2.
  destruct (filter_keys s1 s2 mutex l2 mv_key0) as [Ek _]. rewrite Ek in *.
  assert (Eapp : for_mutex s1 mutex (l1 ++ l2) = for_mutex s1 mutex l1 ++ for_mutex s1 mutex l2) by apply filter_app.
  split; try (intros; etrans; eauto; done).
  - intros u. rewrite Eapp, elem_of_app. intros [Hu|Hu]; [|by auto].
    destruct (decide (u ∈ for_mutex s1 mutex l2)); [by auto|]. by rewrite mv_out1, mv_in0.
  - intros u. rewrite Eapp, not_elem_of_app. intros [? ?]. by rewrite mv_out1, mv_out0.
  - by rewrite Eapp, mv_waiters1, mv_waiters0, app_assoc.
  - intros Hs. assert (Hs2 : psorted (prio s2) (t_waiters (thr s2 owner))).
    { eapply psorted_ext; [|by apply mv_sorted0]. by intros; rewrite mv_prio0. }
    eapply psorted_ext; [|by apply mv_sorted1]. by intros; rewrite mv_prio0.
  - intros u Hu. by rewrite mv_others1, mv_others0.
Qed.

Lemma moved_nil mutex owner l sch : for_mutex sch mutex l = [] -> moved mutex owner l sch sch.
Proof. intros E. split; try done; rewrite E; try set_solver. by rewrite app_nil_r. Qed.

Lemma move_waiters_spec mutex owner l sch nw :
  owner ∉ l ->
  exists sch', move_waiters mutex owner l sch nw =
      (sch', for_others sch mutex l, match nw with Some w => Some w | None => head (for_mutex sch mutex l) end) /\
    moved mutex owner l sch sch'.
Proof.
  revert sch nw. induction l as [|t l IH]; intros sch nw Hn; simpl.
  { exists sch. split; [by destruct nw|by apply moved_nil]. }
  apply not_elem_of_cons in Hn as [Hne Hn]. destruct (Z.eqb_spec (t_waitKey (thr sch t)) mutex) as [Ek|Ek].
  - assert (M1 : moved mutex owner [t] sch (move_one owner t sch)) by (by apply move_one_moved).
    destruct (IH (move_one owner t sch) (match nw with None => Some t | _ => nw end) Hn) as (sch' & E & M2).
    destruct (filter_keys _ _ mutex l (mv_key _ _ _ _ _ M1)) as [E1 E2].
    exists sch'. split; [|by apply (moved_trans mutex owner [t] l _ _ _ M1 M2); [set_solver|]].
    etrans; [exact E|]. rewrite E1, E2.
    assert (for_mutex sch mutex (t :: l) = t :: for_mutex sch mutex l) as -> by (unfold for_mutex; by rewrite filter_cons_True).
    assert (for_others sch mutex (t :: l) = for_others sch mutex l) as ->
      by (unfold for_others; rewrite filter_cons_False; [done|by intros H]).
    by destruct nw.
  - destruct (IH sch nw Hn) as (sch' & E & M2). exists sch'. rewrite E.
    assert (for_others sch mutex (t :: l) = t :: for_others sch mutex l) as -> by (unfold for_others; by rewrite filter_cons_True).
    assert (Ef : for_mutex sch mutex (t :: l) = for_mutex sch mutex l) by (unfold for_mutex; by rewrite filter_cons_False).
    rewrite Ef. split; [done|]. destruct M2. split; rewrite ?Ef; done.
Qed.

(** *** Priorities *)

Lemma prio_set_thr_ne s t u f : u <> t -> prio (set_thr t f s) u = prio s u.
Proof. intros. unfold prio. rewrite thr_set_thr. by case_decide. Qed.
Lemma prio_set_thr_eq s t p : prio (set_thr t (set_t_priority p) s) t = p.
Proof. unfold prio. rewrite thr_set_thr. by case_decide. Qed.
Lemma base_set_priority s t u p : t_basePriority (thr (set_thr t (set_t_priority p) s) u) = t_basePriority (thr s u).
Proof. rewrite thr_set_thr. by case_decide as E; [subst|]. Qed.

(** The loop of [MutexUnlock] on the unlocking thread: after a successful swap the priority
    differs from the base priority, so the next swap fails and the loop ends. *)
Lemma swap_while_base fuel cur hp sch :
  hp <> cur ->
  swap_while (S fuel) (fun sch => t_basePriority (thr sch cur))
    (fun sch => Z.min (t_basePriority (thr sch cur)) (prio sch hp)) cur sch =
  if t_basePriority (thr sch cur) <=? prio sch hp then sch
  else if prio sch cur =? t_basePriority (thr sch cur) then set_thr cur (set_t_priority (prio sch hp)) sch
  else sch.
Proof.
  intros Hne. simpl. destruct (Z.leb_spec (t_basePriority (thr sch cur)) (prio sch hp)).
  { rewrite Z.min_l by lia. by rewrite Z.eqb_refl. }
  rewrite Z.min_r by lia. destruct (Z.eqb_spec (t_basePriority (thr sch cur)) (prio sch hp)); [lia|].
  destruct (Z.eqb_spec (prio sch cur) (t_basePriority (thr sch cur))); [|done].
  destruct fuel; simpl; [done|]. rewrite base_set_priority, prio_set_thr_ne, prio_set_thr_eq by done.
  rewrite Z.min_r by lia. destruct (Z.eqb_spec (t_basePriority (thr sch cur)) (prio sch hp)); [lia|].
  destruct (Z.eqb_spec (prio sch hp) (t_basePriority (thr sch cur))); [lia|done].
Qed.

(** The loop on the next owner: the second round finds nothing to lower. *)
Lemma swap_while_owner fuel owner w sch :
  w <> owner ->
  swap_while (S fuel) (fun sch => prio sch owner) (fun sch => Z.min (prio sch owner) (prio sch w)) owner sch =
  if prio sch owner <=? prio sch w then sch else set_thr owner (set_t_priority (prio sch w)) sch.
Proof.
  intros Hne. simpl. destruct (Z.leb_spec (prio sch owner) (prio sch w)).
  { rewrite Z.min_l by lia. by rewrite Z.eqb_refl. }
  rewrite Z.min_r, Z.eqb_refl by lia. destruct (Z.eqb_spec (prio sch owner) (prio sch w)); [lia|].
  destruct fuel; simpl; [done|]. rewrite prio_set_thr_eq, prio_set_thr_ne by done.
  rewrite Z.min_id, Z.eqb_refl. done.
Qed.

(** The loops give the same result with any amount of fuel from one round on. *)
Lemma swap_while_enough fuel cur hp sch :
  hp <> cur ->
  let base sch := t_basePriority (thr sch cur) in
  swap_while (S fuel) base (fun sch => Z.min (base sch) (prio sch hp)) cur sch =
  swap_while swap_fuel base (fun sch => Z.min (base sch) (prio sch hp)) cur sch.
Proof. intros Hne base. unfold base, swap_fuel. by rewrite !swap_while_base. Qed.

Lemma same_wait_set_priority s t p : same_wait s (set_thr t (set_t_priority p) s).
Proof. apply same_wait_set_thr. solve_keeps_wait. Qed.
Lemma cores_ok_set_thr s t f : cores_ok s -> cores_ok (set_thr t f s).
Proof. done. Qed.

(** The priority the unlocking thread ends with, from its own, its base and that of the first
    remaining waiter. *)
Definition priority_after_unlock (priority base : Z) (waiter : option Z) : Z :=
  match waiter with
  | Some p => if base <=? p then priority else if priority =? base then p else priority
  | None => base
  end.

Lemma unlock_priority_ok cur sch :
  cores_ok sch -> placed sch cur -> cur ∉ t_waiters (thr sch cur) ->
  exists sch', unlock_priority cur sch = inr sch' /\ same_wait sch sch' /\ cores_ok sch' /\
    (forall u, u <> cur -> prio sch' u = prio sch u) /\
    prio sch' cur = priority_after_unlock (prio sch cur) (t_basePriority (thr sch cur))
                      (prio sch <$> head (t_waiters (thr sch cur))).
Proof.
  intros Hok Hc Hn. unfold unlock_priority.
  assert (Hup : forall s1, same_wait sch s1 -> cores_ok s1 -> (forall u, u <> cur -> prio s1 u = prio sch u) ->
    exists sch', UpdatePriority cur s1 = inr sch' /\ same_wait sch sch' /\ cores_ok sch' /\
      (forall u, u <> cur -> prio sch' u = prio sch u) /\ prio sch' cur = prio s1 cur).
  { intros s1 W1 O1 P1. destruct (UpdatePriority_total cur s1 O1) as (s2 & E & W2 & O2 & P2).
    { by eapply UpdatePriority_placed. }
    exists s2. split; [done|]. split; [by etrans|]. split; [done|]. split; [|done]. intros u Hu. by rewrite P2, P1. }
  destruct (t_waiters (thr sch cur)) as [|hp l] eqn:Ew; cbv zeta;
    cbn [head fmap option_fmap option_map priority_after_unlock].
  - destruct (Z.eqb_spec (prio sch cur) (t_basePriority (thr sch cur))) as [E|E]; simpl.
    { exists sch. split; [done|]. split; [done|]. split; [done|]. by split. }
    destruct (Hup (set_thr cur (set_t_priority (t_basePriority (thr sch cur))) sch)) as (s2 & H1 & H2 & H3 & H4 & H5).
    { apply same_wait_set_priority. } { done. } { intros. by apply prio_set_thr_ne. }
    exists s2. rewrite prio_set_thr_eq in H5. done.
  - assert (Hhp : hp <> cur) by set_solver.
    unfold swap_fuel. rewrite (swap_while_base 1 cur hp sch Hhp). destruct (Z.leb_spec (t_basePriority (thr sch cur)) (prio sch hp)).
    { by apply (Hup sch). }
    destruct (Z.eqb_spec (prio sch cur) (t_basePriority (thr sch cur))); [|by apply (Hup sch)].
    destruct (Hup (set_thr cur (set_t_priority (prio sch hp)) sch)) as (s2 & H1 & H2 & H3 & H4 & H5).
    { apply same_wait_set_priority. } { done. } { intros. by apply prio_set_thr_ne. }
    exists s2. rewrite prio_set_thr_eq in H5. done.
Qed.

(** *** The hand-over *)

(** The preconditions of unlocking with a waiter: [next] is the first waiter for the mutex, no
    thread waits for itself or twice, both threads live on a core and [next] can be inserted. *)
Record contended (cur mutex next : Z) (before rest : list Z) (s : Kernel) : Prop := mk_contended {
  ct_cores : cores_ok (k_sched s);
  ct_cur : placed (k_sched s) cur;
  ct_next : placed (k_sched s) next;
  ct_paused : t_isPaused (thr (k_sched s) next) = false;
  ct_waiters : t_waiters (thr (k_sched s) cur) = before ++ next :: rest;
  ct_before : Forall (fun t => t_waitKey (thr (k_sched s) t) <> mutex) before;
  ct_key : t_waitKey (thr (k_sched s) next) = mutex;
  ct_nodup : NoDup (cur :: before ++ next :: rest);
  ct_tag : 0 <= t_waitTag (thr (k_sched s) next) < 2 ^ 32 }.

(** The state after the hand-over. *)
Record handed_over (cur mutex next : Z) (before rest : list Z) (s s' : Kernel) : Prop := mk_handed_over {
  ho_word : load s' mutex =
    match for_mutex (k_sched s) mutex rest with
    | [] => t_waitTag (thr (k_sched s) next)
    | _ => Z.lor (t_waitTag (thr (k_sched s) next)) HandleWaitersBit
    end;
  ho_stay : t_waiters (thr (k_sched s') cur) = before ++ for_others (k_sched s) mutex rest;
  ho_moved : t_waiters (thr (k_sched s') next) ≡ₚ t_waiters (thr (k_sched s) next) ++ for_mutex (k_sched s) mutex rest;
  ho_owner : forall u, u ∈ for_mutex (k_sched s) mutex rest -> t_waitThread (thr (k_sched s') u) = Some next;
  ho_free : t_waitThread (thr (k_sched s') next) = None /\ t_waitKey (thr (k_sched s') next) = 0;
  ho_queued : next ∈ queue (k_sched s') (t_coreId (thr (k_sched s) next));
  ho_cur : prio (k_sched s') cur = priority_after_unlock (prio (k_sched s) cur) (t_basePriority (thr (k_sched s) cur))
             (prio (k_sched s) <$> head (before ++ for_others (k_sched s) mutex rest));
  ho_next : prio (k_sched s') next =
    match for_mutex (k_sched s) mutex rest with
    | [] => prio (k_sched s) next
    | w :: _ => Z.min (prio (k_sched s) next) (prio (k_sched s) w)
    end }.

Lemma split_at_first {A} (p : A -> bool) before x rest :
  Forall (fun y => p y = false) before -> p x = true -> split_at p (before ++ x :: rest) = (before, x :: rest).
Proof. intros Hb Hx. induction Hb as [|y b Hy _ IH]; simpl; [by rewrite Hx|]. by rewrite Hy, IH. Qed.

Lemma lor_waiters_range v : 0 <= v < 2 ^ 32 -> 0 <= Z.lor v HandleWaitersBit < 2 ^ 32.
Proof. intros H. apply lor_range; unfold HandleWaitersBit; lia. Qed.

(** The part of [MutexUnlock] that rearranges the waiters. *)
Lemma handover_moves cur mutex next before rest s sch1 :
  contended cur mutex next before rest s ->
  let sch0 := set_thr next (set_t_waitKey 0) (set_thr next (set_t_waitThread None) (k_sched s)) in
  moved mutex next rest sch0 sch1 ->
  let sch2 := set_thr cur (set_t_waiters (before ++ for_others (k_sched s) mutex rest)) sch1 in
  cores_ok sch2 /\ (forall u, placed (k_sched s) u -> placed sch2 u) /\ (forall u, prio sch2 u = prio (k_sched s) u) /\
  (forall u, t_isPaused (thr sch2 u) = t_isPaused (thr (k_sched s) u)) /\
  (forall u, t_waitTag (thr sch2 u) = t_waitTag (thr (k_sched s) u)) /\
  (forall u, t_basePriority (thr sch2 u) = t_basePriority (thr (k_sched s) u)) /\
  t_waiters (thr sch2 cur) = before ++ for_others (k_sched s) mutex rest /\
  t_waiters (thr sch2 next) ≡ₚ t_waiters (thr (k_sched s) next) ++ for_mutex (k_sched s) mutex rest /\
  (forall u, u ∈ for_mutex (k_sched s) mutex rest -> t_waitThread (thr sch2 u) = Some next) /\
  t_waitThread (thr sch2 next) = None /\ t_waitKey (thr sch2 next) = 0 /\
  for_mutex sch0 mutex rest = for_mutex (k_sched s) mutex rest.
Proof.
  intros [C1 C2 C3 C4 C5 C6 C7 C8 C9] sch0 M sch2.
  assert (Hnd : cur <> next /\ next ∉ rest /\ cur ∉ rest).
  { apply NoDup_cons in C8 as [Hc C8]. apply NoDup_app in C8 as (_ & _ & C8). apply NoDup_cons in C8 as [Hn _]. set_solver. }
  destruct Hnd as (Hcn & Hnr & Hcr).
  assert (F0 : forall u, t_coreId (thr sch0 u) = t_coreId (thr (k_sched s) u) /\ prio sch0 u = prio (k_sched s) u /\
    t_isPaused (thr sch0 u) = t_isPaused (thr (k_sched s) u) /\ t_waitTag (thr sch0 u) = t_waitTag (thr (k_sched s) u) /\
    t_basePriority (thr sch0 u) = t_basePriority (thr (k_sched s) u) /\ t_waiters (thr sch0 u) = t_waiters (thr (k_sched s) u)).
  { intros u. unfold sch0, prio. rewrite !thr_set_thr. repeat case_decide; subst; done. }
  assert (Efm : for_mutex sch0 mutex rest = for_mutex (k_sched s) mutex rest).
  { apply for_mutex_ext. intros u Hu. unfold sch0. rewrite !thr_set_thr. repeat case_decide; subst; done. }
  assert (F2 : forall u, thr sch2 u = if decide (u = cur) then set_t_waiters (before ++ for_others (k_sched s) mutex rest) (thr sch1 cur)
    else thr sch1 u) by (intros; apply thr_set_thr).
  destruct M as [M1 M2 M3 M4 M5 M6 M7 M8 M9 M10 M11 M12]. rewrite Efm in *.
  assert (Hn0 : t_waitThread (thr sch0 next) = None /\ t_waitKey (thr sch0 next) = 0).
  { unfold sch0. rewrite !thr_set_thr. repeat case_decide; done. }
  assert (Hnf : next ∉ for_mutex (k_sched s) mutex rest).
  { unfold for_mutex. intros H%list_elem_of_filter. naive_solver. }
  assert (Hcores : cores sch2 = cores (k_sched s)) by (by simpl; rewrite M1).
  split; [unfold cores_ok; by rewrite Hcores|].
  split; [intros u; unfold placed; rewrite F2; case_decide; [subst|]; simpl; by rewrite M3, (proj1 (F0 _))|].
  split; [intros u; unfold prio; rewrite F2; destruct (F0 u) as (_ & Ep & _); specialize (M2 u); unfold prio in *;
    case_decide; [subst|]; simpl; congruence|].
  split; [intros u; rewrite F2; destruct (F0 u) as (_ & _ & Ep & _); case_decide; [subst|]; simpl; by rewrite M4|].
  split; [intros u; rewrite F2; destruct (F0 u) as (_ & _ & _ & Ep & _); case_decide; [subst|]; simpl; by rewrite M6|].
  split; [intros u; rewrite F2; destruct (F0 u) as (_ & _ & _ & _ & Ep & _); case_decide; [subst|]; simpl; by rewrite M7|].
  split; [rewrite F2; by case_decide|].
  rewrite (F2 next). destruct (decide (next = cur)); [by subst|].
  split; [rewrite M10; destruct (F0 next) as (_ & _ & _ & _ & _ & ->); done|].
  split; [intros u Hu; rewrite F2; case_decide; [|by apply M8]; subst; unfold for_mutex in Hu; set_solver|].
  rewrite M9, M5 by done. naive_solver.
Qed.

(** The last part: the word, the priority of the next owner and its insertion. *)
Lemma handover_wakes cur mutex next nextWaiter s sch :
  cores_ok sch -> placed sch next -> t_isPaused (thr sch next) = false -> 0 <= t_waitTag (thr sch next) < 2 ^ 32 ->
  nextWaiter <> Some next ->
  exists s',
    (let '(sch', word) :=
       match nextWaiter with
       | Some w =>
           (swap_while swap_fuel (fun sch => prio sch next) (fun sch => Z.min (prio sch next) (prio sch w)) next sch,
            Z.lor (t_waitTag (thr sch next)) HandleWaitersBit)
       | None => (sch, t_waitTag (thr sch next))
       end in wake cur next (store mutex word (set_k_sched sch' s))) = inr s' /\
    same_wait sch (k_sched s') /\ next ∈ queue (k_sched s') (t_coreId (thr sch next)) /\
    load s' mutex = match nextWaiter with
                    | Some _ => Z.lor (t_waitTag (thr sch next)) HandleWaitersBit
                    | None => t_waitTag (thr sch next) end /\
    (forall u, u <> next -> prio (k_sched s') u = prio sch u) /\
    prio (k_sched s') next = match nextWaiter with
                             | Some w => Z.min (prio sch next) (prio sch w) | None => prio sch next end.
Proof.
  intros Hok Hpl Hpa Ht Hw.
  assert (Hwake : forall sch1 word, same_wait sch sch1 -> cores_ok sch1 -> 0 <= word < 2 ^ 32 ->
    exists s', wake cur next (store mutex word (set_k_sched sch1 s)) = inr s' /\
      same_wait sch (k_sched s') /\ next ∈ queue (k_sched s') (t_coreId (thr sch next)) /\
      load s' mutex = word /\ forall u, prio (k_sched s') u = prio sch1 u).
  { intros sch1 word W1 O1 Hword.
    destruct (wake_ok cur next (store mutex word (set_k_sched sch1 s))) as (sch2 & E & W2 & R); simpl in *.
    { done. } { by eapply UpdatePriority_placed. } { by rewrite (sw_paused _ _ W1). }
    exists (set_k_sched sch2 (store mutex word (set_k_sched sch1 s))). split; [done|]. simpl.
    split; [by etrans|]. split.
    { rewrite (sw_core _ _ W1) in R. rewrite (rq_queue _ _ _ _ R), enqueued_perm. set_solver. }
    split; [by apply load_store|apply R]. }
  destruct nextWaiter as [w|].
  - assert (Hne : w <> next) by congruence. unfold swap_fuel. rewrite (swap_while_owner 1 next w sch Hne).
    destruct (Z.leb_spec (prio sch next) (prio sch w)).
    + destruct (Hwake sch (Z.lor (t_waitTag (thr sch next)) HandleWaitersBit)) as (s' & E & W & Q & L & P);
        [done|done|by apply lor_waiters_range|].
      exists s'. rewrite P, Z.min_l by lia. done.
    + destruct (Hwake (set_thr next (set_t_priority (prio sch w)) sch) (Z.lor (t_waitTag (thr sch next)) HandleWaitersBit))
        as (s' & E & W & Q & L & P); [apply same_wait_set_priority|done|by apply lor_waiters_range|].
      exists s'. rewrite P, prio_set_thr_eq, Z.min_r by lia. do 4 (split; [done|]).
      split; [|done]. intros u Hu. rewrite P. by apply prio_set_thr_ne.
  - destruct (Hwake sch (t_waitTag (thr sch next))) as (s' & E & W & Q & L & P); [done|done|lia|].
    exists s'. rewrite P. done.
Qed.

Lemma MutexUnlock_spec cur mutex next before rest s :
  contended cur mutex next before rest s ->
  exists s', MutexUnlock cur mutex s = inr s' /\ handed_over cur mutex next before rest s s'.
Proof.
  intros C. pose proof C as [C1 C2 C3 C4 C5 C6 C7 C8 C9]. unfold MutexUnlock. rewrite C5.
  assert (Hnd : cur <> next /\ next ∉ rest /\ cur ∉ before ++ rest).
  { apply NoDup_cons in C8 as [Hc C8]. apply NoDup_app in C8 as (_ & _ & C8). apply NoDup_cons in C8 as [Hn _]. set_solver. }
  destruct Hnd as (Hcn & Hnr & Hcr).
  rewrite split_at_first; [|eapply Forall_impl; [exact C6|]; intros; by apply Z.eqb_neq|by apply Z.eqb_eq].
  set (sch0 := set_thr next (set_t_waitKey 0) (set_thr next (set_t_waitThread None) (k_sched s))).
  destruct (move_waiters_spec mutex next rest sch0 None Hnr) as (sch1 & -> & M).
  assert (for_others sch0 mutex rest = for_others (k_sched s) mutex rest) as ->.
  { apply for_others_ext. intros u Hu. unfold sch0. rewrite !thr_set_thr. repeat case_decide; subst; done. }
  destruct (handover_moves _ _ _ _ _ _ _ C M) as (H1 & H2 & H3 & H4 & H5 & H6 & H7 & H8 & H9 & H10 & H11 & Efm).
  fold sch0 in Efm. rewrite Efm. set (sch2 := set_thr cur _ sch1) in *.
  destruct (unlock_priority_ok cur sch2) as (sch3 & E3 & W3 & O3 & P3 & Pc3); [done|by apply H2| |].
  { rewrite H7. intros [?|Hu]%elem_of_app; [set_solver|]. unfold for_others in Hu. apply list_elem_of_filter in Hu as [_ ?]. set_solver. }
  rewrite E3. simpl (bindM _ _).
  assert (Hnw : head (for_mutex (k_sched s) mutex rest) <> Some next).
  { destruct (for_mutex (k_sched s) mutex rest) as [|w l] eqn:Ef; [done|]. intros [= ->].
    assert (Hin : next ∈ for_mutex (k_sched s) mutex rest) by (rewrite Ef; set_solver).
    apply list_elem_of_filter in Hin as [_ ?]. done. }
  destruct (handover_wakes cur mutex next (head (for_mutex (k_sched s) mutex rest)) s sch3) as (s' & E & W & Q & L & P & Pn).
  { done. } { eapply UpdatePriority_placed; [exact W3|by apply H2]. } { by rewrite (sw_paused _ _ W3), H4. }
  { by rewrite (sw_waitTag _ _ W3), H5. } { done. }
  exists s'. split; [exact E|]. assert (W' : same_wait sch2 (k_sched s')) by (by etrans).
  rewrite (sw_waitTag _ _ W3), H5 in L. rewrite (P3 next) in Pn by done. rewrite H3 in Pn.
  assert (Hcore : t_coreId (thr sch3 next) = t_coreId (thr (k_sched s) next)).
  { rewrite (sw_core _ _ W3). unfold sch2. rewrite thr_set_thr. case_decide; [done|]. rewrite (mv_core _ _ _ _ _ M).
    unfold sch0. rewrite !thr_set_thr. by repeat case_decide. }
  rewrite Hcore in Q. split.
  - rewrite L. by destruct (for_mutex (k_sched s) mutex rest).
  - by rewrite (sw_waiters _ _ W').
  - by rewrite (sw_waiters _ _ W').
  - intros u Hu. rewrite (sw_waitThread _ _ W'). by apply H9.
  - by rewrite (sw_waitThread _ _ W'), (sw_waitKey _ _ W').
  - done.
  - rewrite P by done. rewrite Pc3, H7, H3, H6.
    assert (Hf : forall o : option Z, prio sch2 <$> o = prio (k_sched s) <$> o) by (intros []; simpl; by rewrite ?H3).
    by rewrite Hf.
  - rewrite Pn. destruct (for_mutex (k_sched s) mutex rest) as [|w l] eqn:Ef; [done|]. simpl.
    rewrite P3, H3; [done|]. intros ->.
    assert (Hin : cur ∈ for_mutex (k_sched s) mutex rest) by (rewrite Ef; set_solver).
    apply list_elem_of_filter in Hin as [_ ?]. set_solver.
Qed.

(** C29: unlocking hands the mutex to the first waiter for it.  With the waiters of the calling
    thread of the form [before ++ next :: rest], [next] the first that waits for this mutex,
    [MutexUnlock] succeeds; the word becomes the tag of [next], with the waiters bit exactly when
    others still wait for this mutex; those others, and only they, move to the list of [next] and
    wait for it, with [next] inheriting the priority of the first of them; the waiters of other
    mutexes stay in order; and [next] waits for nobody and is in the queue of its core.  The next
    owner is not paused; the caller would otherwise block until it is resumed. *)
Theorem MutexUnlock_hands_over cur mutex next before rest s :
  contended cur mutex next before rest s ->
  exists s', MutexUnlock cur mutex s = inr s' /\ handed_over cur mutex next before rest s s'.
Proof. apply MutexUnlock_spec. Qed.

(** Thread 1 holds two mutexes: 2 and 4 wait for the one at 0x1000, 3 for the one at 0x2000.
    Its priority was raised to that of 2. *)
Definition waiting_thread (id priority mutex tag : Z) : KThread :=
  set_t_waitTag tag (set_t_waitKey mutex (set_t_waitThread (Some 1) (sample_thread id priority 0))).

Definition sample_contended : Kernel :=
  set_k_sched
    (mk_sched (cores (set_queue 0 [1] empty_scheduler)) []
       (<[1 := set_t_basePriority 44 (set_t_waiters [2; 3; 4] (sample_thread 1 10 0))]>
       (<[2 := waiting_thread 2 10 0x1000 0xD002]> (<[3 := waiting_thread 3 30 0x2000 0xD003]>
       (<[4 := waiting_thread 4 35 0x1000 0xD004]> ∅)))) [])
    (store 0x1000 (Z.lor 0xD001 HandleWaitersBit) sample_kernel).

Lemma sample_contended_ok : contended 1 0x1000 2 [] [3; 4] sample_contended.
Proof.
  split; try (vm_compute; intuition congruence); try (by repeat constructor).
  - split; [done|]. intros [|[|[|[|i]]]] c H; simplify_eq/=; done.
  - repeat constructor; set_solver.
Qed.

Lemma MutexUnlock_hands_over_witness :
  exists s', MutexUnlock 1 0x1000 sample_contended = inr s' /\ load s' 0x1000 = 0x4000D002.
Proof.
  destruct (MutexUnlock_hands_over 1 0x1000 2 [] [3; 4] sample_contended sample_contended_ok) as (s' & E & [H _ _ _ _ _ _ _]).
  exists s'. split; [exact E|]. rewrite H. reflexivity.
Defined.

(** a raised priority outlives its cause.  When a thread whose priority was raised above its
    base unlocks a mutex while a thread still waits for another of its mutexes, the unlocking
    thread keeps the raised priority, although its base priority is lower and every thread that
    remains on its waiter list is at best as urgent as [w]. *)
Theorem MutexUnlock_keeps_stale_priority cur mutex next before rest s w :
  contended cur mutex next before rest s ->
  head (before ++ for_others (k_sched s) mutex rest) = Some w ->
  prio (k_sched s) cur < prio (k_sched s) w < t_basePriority (thr (k_sched s) cur) ->
  exists s', MutexUnlock cur mutex s = inr s' /\ prio (k_sched s') cur = prio (k_sched s) cur /\
    t_waiters (thr (k_sched s') cur) = before ++ for_others (k_sched s) mutex rest.
Proof.
  intros C Hw Hp. destruct (MutexUnlock_spec _ _ _ _ _ _ C) as (s' & E & H).
  exists s'. split; [done|]. split; [|apply H]. rewrite (ho_cur _ _ _ _ _ _ _ H), Hw. simpl.
  destruct (Z.leb_spec (t_basePriority (thr (k_sched s) cur)) (prio (k_sched s) w)); [lia|].
  destruct (Z.eqb_spec (prio (k_sched s) cur) (t_basePriority (thr (k_sched s) cur))); [lia|done].
Qed.

Lemma MutexUnlock_keeps_stale_priority_witness :
  exists s', MutexUnlock 1 0x1000 sample_contended = inr s' /\ prio (k_sched s') 1 = 10 /\
    t_waiters (thr (k_sched s') 1) = [3].
Proof.
  apply (MutexUnlock_keeps_stale_priority 1 0x1000 2 [] [3; 4] sample_contended 3 sample_contended_ok);
    vm_compute; intuition congruence.
Defined.

(** ** Waking the waiters of a key *)

(** Queue members only get more. *)
Definition queues_grow (sch sch' : Scheduler) : Prop := forall c u, 0 <= c < 4 -> u ∈ queue sch c -> u ∈ queue sch' c.

(** How many of [n] waiters a signal wakes. *)
Definition woken (amount : Z) (n : nat) : nat := if amount <=? 0 then n else Nat.min (Z.to_nat amount) n.

Definition runnable (sch : Scheduler) (t : Z) : Prop := placed sch t /\ t_isPaused (thr sch t) = false.

Lemma runnable_same sch sch' t : same_wait sch sch' -> runnable sch t -> runnable sch' t.
Proof. intros W [H1 H2]. split; [by eapply UpdatePriority_placed|by rewrite (sw_paused _ _ W)]. Qed.

Lemma wake_waiters_ok cur amount count q s :
  cores_ok (k_sched s) -> Forall (runnable (k_sched s)) q -> (0 < amount -> 0 <= count) ->
  let n := if amount <=? 0 then length q else Nat.min (Z.to_nat count) (length q) in
  exists sch, wake_waiters cur amount count q s = inr (set_k_sched sch s, drop n q) /\
    cores_ok sch /\ same_wait (k_sched s) sch /\ queues_grow (k_sched s) sch /\
    Forall (fun t => t ∈ queue sch (t_coreId (thr (k_sched s) t))) (take n q).
Proof.
  revert count s. induction q as [|t q IH]; intros count s Hok Hq Hcount.
  { exists (k_sched s). cbn [wake_waiters]. assert (set_k_sched (k_sched s) s = s) as -> by (by destruct s).
    rewrite drop_nil, take_nil. split; [done|]. split; [done|]. split; [done|]. split; [by intros ?|done]. }
  apply Forall_cons in Hq as [[Hpl Hpa] Hq]. cbn [wake_waiters].
  destruct ((amount <=? 0) || negb (count =? 0)) eqn:Ego.
  - destruct (wake_ok cur t s Hok Hpl Hpa) as (sch1 & E1 & W1 & R1). rewrite E1. cbn [bindM].
    destruct (IH (count - 1) (set_k_sched sch1 s)) as (sch & E & Hok' & W & G & F); cbn [k_sched set_k_sched].
    { apply R1. } { eapply Forall_impl; [exact Hq|]. intros u. by apply runnable_same. }
    { intros Ha. specialize (Hcount Ha). zcases; lia. }
    assert (G1 : queues_grow (k_sched s) sch1).
    { intros c u Hc Hu. destruct (decide (c = t_coreId (thr (k_sched s) t))) as [->|Hne].
      - rewrite (rq_queue _ _ _ _ R1), enqueued_perm. set_solver.
      - by rewrite (rq_other _ _ _ _ R1). }
    cbn [k_sched set_k_sched] in *.
    assert (En : (if amount <=? 0 then length (t :: q) else Nat.min (Z.to_nat count) (length (t :: q)))
      = S (if amount <=? 0 then length q else Nat.min (Z.to_nat (count - 1)) (length q))).
    { destruct (Z.leb_spec amount 0); [done|]. specialize (Hcount ltac:(lia)). simpl in *.
      destruct (Z.eqb_spec count 0); [done|]. lia. }
    rewrite En. exists sch. split; [exact E|]. split; [done|]. split; [by etrans|].
    split; [intros c u Hc Hu; by apply G, G1|]. cbn [take]. apply Forall_cons. split.
    + apply G; [apply Hpl|]. rewrite (rq_queue _ _ _ _ R1), enqueued_perm. set_solver.
    + eapply Forall_impl; [exact F|]. intros u Hu. simpl in Hu. by rewrite (sw_core _ _ W1) in Hu.
  - apply orb_false_iff in Ego as [Ea Ec]. rewrite Ea. apply negb_false_iff, Z.eqb_eq in Ec. subst count.
    exists (k_sched s). assert (set_k_sched (k_sched s) s = s) as -> by (by destruct s).
    split; [done|]. split; [done|]. split; [done|]. split; [by intros ?|constructor].
Qed.

(** a condition variable wakes its waiters from the front.  Signalling with a positive amount
    wakes that many of the longest-queued most urgent threads, or all if there are fewer; any
    other amount wakes all.  Each woken thread is in the queue of its core, the rest keep their
    order, and the flag at the key is cleared exactly when nobody is left waiting. *)
Theorem ConditionalVariableSignal_wakes_front cur key amount s :
  cores_ok (k_sched s) -> Forall (runnable (k_sched s)) (sync_queue s key) ->
  let q := sync_queue s key in
  let n := woken amount (length q) in
  exists s', ConditionalVariableSignal cur key amount s = inr s' /\ sync_queue s' key = drop n q /\
    Forall (fun t => t ∈ queue (k_sched s') (t_coreId (thr (k_sched s) t))) (take n q) /\
    load s' key = (if bool_decide (drop n q = []) then 0 else load s key) /\
    (forall other, other <> key -> sync_queue s' other = sync_queue s other).
Proof.
  intros Hok Hq q n. unfold ConditionalVariableSignal.
  destruct (wake_waiters_ok cur amount amount q s Hok Hq) as (sch & E & _ & _ & _ & F); [lia|].
  fold q. rewrite E. cbn [bindM].
  assert (En : (if amount <=? 0 then length q else Nat.min (Z.to_nat amount) (length q)) = n) by done.
  rewrite En in *. set (rest := drop n q) in *.
  assert (Hsq : forall s0, k_syncWaiters s0 = k_syncWaiters s ->
    sync_queue (set_sync_queue key rest s0) key = rest /\
    forall other, other <> key -> sync_queue (set_sync_queue key rest s0) other = sync_queue s other).
  { intros s0 Es. unfold sync_queue. simpl. rewrite lookup_insert_eq, Es. split; [done|].
    intros other Ho. by rewrite lookup_insert_ne. }
  destruct (Hsq (set_k_sched sch s) eq_refl) as [H1 H2].
  eexists. split; [reflexivity|]. destruct rest as [|t ts] eqn:Er.
  - split; [exact H1|]. split; [done|]. split; [by rewrite bool_decide_true, load_store|exact H2].
  - split; [exact H1|]. split; [done|]. split; [by rewrite bool_decide_false|exact H2].
Qed.

Definition sample_waiting : Kernel :=
  set_sync_queue 0x3000 [2; 3; 4] (store 0x3000 1 (set_k_sched
    (mk_sched initial_cores [] (<[2 := sample_thread 2 10 0]> (<[3 := sample_thread 3 20 1]>
       (<[4 := sample_thread 4 30 0]> ∅))) []) sample_kernel)).

Lemma sample_waiting_ok :
  cores_ok (k_sched sample_waiting) /\ Forall (runnable (k_sched sample_waiting)) (sync_queue sample_waiting 0x3000).
Proof.
  split; [split; [done|]; intros [|[|[|[|i]]]] c H; simplify_eq/=; done|].
  repeat constructor; vm_compute; congruence.
Qed.

Lemma ConditionalVariableSignal_wakes_front_witness :
  exists s', ConditionalVariableSignal 1 0x3000 2 sample_waiting = inr s' /\ sync_queue s' 0x3000 = [4] /\ load s' 0x3000 = 1.
Proof.
  destruct (ConditionalVariableSignal_wakes_front 1 0x3000 2 sample_waiting (proj1 sample_waiting_ok) (proj2 sample_waiting_ok))
    as (s' & H1 & H2 & _ & H3 & _).
  exists s'. split; [exact H1|]. split; [rewrite H2; reflexivity|rewrite H3; reflexivity].
Defined.

(** a timed-out arbiter wait destroys the guest's value.  When the thread whose timed
    [WaitForAddress] expires is the last of the queue of its address, the word at the address
    becomes 0 whatever the guest had stored there, also while the threads of [others] keep
    waiting on it. *)
Theorem WaitForAddress_timeout_clears_word cur address others s :
  cores_ok (k_sched s) -> runnable (k_sched s) cur -> cur ∉ others -> sync_queue s address = others ++ [cur] ->
  exists s', WaitForAddress_timeout cur address s = inr (s', Returned result_TimedOut) /\
    load s' address = 0 /\ sync_queue s' address = others.
Proof.
  intros Hok [Hpl Hpa] Hn Hq. unfold WaitForAddress_timeout.
  assert (El : leave_queue address cur s = store address 0 (set_sync_queue address others s)).
  { unfold leave_queue. rewrite Hq, index_of_app, erase_at_app, app_nil_r, length_app by done. simpl.
    by rewrite Nat.add_1_r, Nat.eqb_refl. }
  rewrite El. destruct (wake_ok cur cur (store address 0 (set_sync_queue address others s)) Hok Hpl Hpa)
    as (sch & E & _). rewrite E. cbn [bindM]. eexists. split; [reflexivity|]. split.
  - apply (load_store address 0 (set_sync_queue address others s)). lia.
  - unfold sync_queue. simpl. by rewrite lookup_insert_eq.
Qed.

Lemma WaitForAddress_timeout_clears_word_witness :
  exists s', WaitForAddress_timeout 4 0x3000 sample_waiting = inr (s', Returned result_TimedOut) /\
    load sample_waiting 0x3000 = 1 /\ load s' 0x3000 = 0 /\ sync_queue s' 0x3000 = [2; 3].
Proof.
  destruct (WaitForAddress_timeout_clears_word 4 0x3000 [2; 3] sample_waiting (proj1 sample_waiting_ok))
    as (s' & H1 & H2 & H3); [split; vm_compute; intuition congruence|set_solver|reflexivity|].
  exists s'. split; [exact H1|]. split; [reflexivity|]. split; [exact H2|exact H3].
Defined.

Lemma signal_value_range value amount waiters type :
  0 <= value < 2 ^ 32 -> 0 <= signal_value value amount waiters type < 2 ^ 32.
Proof.
  intros Hv. destruct type; simpl; [done|apply wrap_range; lia|].
  repeat match goal with |- context [if ?b then _ else _] => destruct b end; try done; apply wrap_range; lia.
Qed.

(** the arbiter signals only if the word has the expected value.  A conditional signal on a
    word that differs from the expected value changes nothing and reports [InvalidState].
    Otherwise the word becomes the new value of the signal type and the waiters are woken from
    the front as many as asked for, the others keeping their order. *)
Theorem SignalToAddress_compares_and_wakes cur address value amount type s :
  cores_ok (k_sched s) -> Forall (runnable (k_sched s)) (sync_queue s address) -> 0 <= value < 2 ^ 32 ->
  let q := sync_queue s address in
  let n := woken amount (length q) in
  match type with
  | Signal => exists s', SignalToAddress cur address value amount type s = inr (s', Success) /\
      load s' address = load s address /\ sync_queue s' address = drop n q
  | _ =>
      if load s address =? value then
        exists s', SignalToAddress cur address value amount type s = inr (s', Success) /\
          load s' address = signal_value value amount (Z.of_nat (length q)) type /\ sync_queue s' address = drop n q /\
          Forall (fun t => t ∈ queue (k_sched s') (t_coreId (thr (k_sched s) t))) (take n q)
      else SignalToAddress cur address value amount type s = inr (s, result_InvalidState)
  end.
Proof.
  intros Hok Hq Hv q n.
  assert (Hw : forall s0, k_sched s0 = k_sched s ->
    exists sch, wake_waiters cur amount amount q s0 = inr (set_k_sched sch s0, drop n q) /\
      Forall (fun t => t ∈ queue sch (t_coreId (thr (k_sched s) t))) (take n q)).
  { intros s0 Es. destruct (wake_waiters_ok cur amount amount q s0) as (sch & E & _ & _ & _ & F); rewrite ?Es; [done|done|lia|].
    exists sch. split; [exact E|]. by rewrite Es in F. }
  assert (Hset : forall sch s0, sync_queue (set_sync_queue address (drop n q) (set_k_sched sch s0)) address = drop n q).
  { intros. unfold sync_queue. simpl. by rewrite lookup_insert_eq. }
  pose proof (signal_value_range value amount (Z.of_nat (length q)) type Hv) as Hnew.
  unfold SignalToAddress. fold q. destruct type.
  - destruct (Hw s eq_refl) as (sch & E & F). rewrite E. cbn [bindM].
    eexists. split; [reflexivity|]. split; [done|apply Hset].
  - destruct (load s address =? value); [|done].
    destruct (Hw (store address (signal_value value amount (Z.of_nat (length q)) SignalAndIncrementIfEqual) s) eq_refl)
      as (sch & E & F). rewrite E. cbn [bindM].
    eexists. split; [reflexivity|]. split; [by apply load_store|]. split; [apply Hset|exact F].
  - destruct (load s address =? value); [|done].
    destruct (Hw (store address (signal_value value amount (Z.of_nat (length q))
      SignalAndModifyBasedOnWaitingThreadCountIfEqual) s) eq_refl) as (sch & E & F). rewrite E. cbn [bindM].
    eexists. split; [reflexivity|]. split; [by apply load_store|]. split; [apply Hset|exact F].
Qed.

Lemma SignalToAddress_compares_and_wakes_witness :
  (exists s', SignalToAddress 1 0x3000 1 1 SignalAndIncrementIfEqual sample_waiting = inr (s', Success) /\
     load s' 0x3000 = 2 /\ sync_queue s' 0x3000 = [3; 4]) /\
  SignalToAddress 1 0x3000 5 1 SignalAndIncrementIfEqual sample_waiting = inr (sample_waiting, result_InvalidState).
Proof.
  destruct sample_waiting_ok as [H1 H2]. split.
  - destruct (SignalToAddress_compares_and_wakes 1 0x3000 1 1 SignalAndIncrementIfEqual sample_waiting H1 H2 ltac:(lia))
      as (s' & E & L & Q & _). exists s'. split; [exact E|]. split; [exact L|exact Q].
  - exact (SignalToAddress_compares_and_wakes 1 0x3000 5 1 SignalAndIncrementIfEqual sample_waiting H1 H2 ltac:(lia)).
Defined.

(** ** Locking *)

(** What blocking on a mutex leaves: the caller in the owner's list, in no queue of its core, and
    recorded as waiting for the owner. *)
Record blocked_on (cur owner mutex tag : Z) (s s' : Kernel) : Prop := mk_blocked_on {
  bl_waiters : exists a b, t_waiters (thr (k_sched s) owner) = a ++ b /\
    t_waiters (thr (k_sched s') owner) = a ++ cur :: b;
  bl_thread : t_waitThread (thr (k_sched s') cur) = Some owner;
  bl_key : t_waitKey (thr (k_sched s') cur) = mutex;
  bl_tag : t_waitTag (thr (k_sched s') cur) = tag;
  bl_ram : k_ram s' = k_ram s }.

Lemma RemoveThread_wait now cur sch sch' : RemoveThread now cur sch = inr sch' -> same_wait sch sch'.
Proof.
  unfold RemoveThread. intros E. apply bindM_ok in E as (core & _ & E). injection E as <-.
  set (s1 := match index_of cur (core_queue core) with Some _ => _ | None => sch end).
  assert (W1 : same_wait sch s1).
  { unfold s1. destruct (index_of cur (core_queue core)) as [[|i]|]; [|auto with sky|done].
    assert (same_wait sch (if negb (t_timesliceStart (thr sch cur) =? 0)
      then update_average now cur (set_queue (core_id core) (erase_at 0 (core_queue core)) sch)
      else set_queue (core_id core) (erase_at 0 (core_queue core)) sch)) as W.
    { destruct (negb _); [|auto with sky]. etrans; [apply same_wait_set_queue|apply same_wait_set_thr; solve_keeps_wait]. }
    change (thr (set_queue ?c ?q sch) cur) with (thr sch cur).
    destruct (erase_at 0 (core_queue core)); [exact W|]. etrans; [exact W|apply same_wait_emit]. }
  etrans; [exact W1|]. etrans; [|apply same_wait_set_thr; solve_keeps_wait]. apply same_wait_clear_yield.
Qed.

Lemma inherit_uncontended t sch :
  exists sch', UpdatePriorityInheritance [] t sch = inr sch' /\ same_wait sch sch'.
Proof.
  unfold UpdatePriorityInheritance. destruct (t_waitThread (thr sch t)) as [o|]; [|by exists sch].
  simpl. destruct (_ <=? _); [by exists sch|]. eexists. split; [done|]. apply same_wait_set_priority.
Qed.

(** Blocking succeeds when the word names the owner and has the waiters bit. *)
Lemma MutexLock_blocks now cur mutex ownerHandle tag owner s :
  cores_ok (k_sched s) -> placed (k_sched s) cur -> owner <> cur ->
  GetHandle cur KT_KThread ownerHandle s = inr owner ->
  load s mutex = Z.lor ownerHandle HandleWaitersBit -> load s mutex <> 0 ->
  exists s', MutexLock now cur mutex ownerHandle tag s = inr (s', Waiting) /\ blocked_on cur owner mutex tag s s'.
Proof.
  intros Hok Hc Hne Hh Hl Hnz. unfold MutexLock. rewrite Hh. apply Z.eqb_neq in Hnz. rewrite Hnz.
  rewrite Hl, Z.eqb_refl. cbn [negb].
  set (ws := t_waiters (thr (k_sched s) owner)). set (pos := queue_bound _ _ ws).
  set (sch1 := set_thr owner (set_t_waiters (insert_at pos cur ws)) (k_sched s)).
  assert (Hthr : forall u, t_coreId (thr sch1 u) = t_coreId (thr (k_sched s) u)).
  { intros u. unfold sch1. rewrite thr_set_thr. by case_decide; subst. }
  destruct (RemoveThread_spec now cur sch1) as (sch2 & q & E2 & _); [done|rewrite Hthr; done|].
  pose proof (RemoveThread_wait _ _ _ _ E2) as W2.
  unfold on_schedM at 1. cbn [k_sched set_k_sched on_sched]. fold sch1. rewrite E2. cbn [bindM ok].
  match goal with |- context [on_schedM (UpdatePriorityInheritance [] cur) ?x] => set (s3 := x) end.
  assert (H3 : forall u, t_waiters (thr (k_sched s3) u) = t_waiters (thr sch2 u)).
  { intros u. unfold s3, on_sched. cbn [k_sched set_k_sched]. rewrite !thr_set_thr. by repeat case_decide; subst. }
  assert (H3c : t_waitThread (thr (k_sched s3) cur) = Some owner /\ t_waitKey (thr (k_sched s3) cur) = mutex /\
    t_waitTag (thr (k_sched s3) cur) = tag).
  { unfold s3, on_sched. cbn [k_sched set_k_sched]. rewrite !thr_set_thr. by repeat case_decide. }
  assert (Hfin : forall s4, same_wait (k_sched s3) (k_sched s4) -> k_ram s4 = k_ram s -> blocked_on cur owner mutex tag s s4).
  { intros s4 W R. destruct H3c as (Hx & Hy & Hz). split; rewrite ?(sw_waitThread _ _ W), ?(sw_waitKey _ _ W), ?(sw_waitTag _ _ W); try done.
    exists (take pos ws), (drop pos ws). rewrite take_drop. split; [done|].
    rewrite (sw_waiters _ _ W), H3, (sw_waiters _ _ W2). unfold sch1. rewrite thr_set_thr. by case_decide. }
  destruct (pos =? 0)%nat.
  - destruct (inherit_uncontended cur (k_sched s3)) as (sch4 & E4 & W4). unfold on_schedM. rewrite E4. cbn [bindM ok].
    eexists. split; [reflexivity|]. by apply Hfin.
  - cbn [bindM ok]. eexists. split; [reflexivity|]. by apply Hfin.
Qed.

(** Bits of the mutex word. *)
Lemma waiters_bit_testbit i : 0 <= i -> Z.testbit HandleWaitersBit i = (30 =? i).
Proof. intros. unfold HandleWaitersBit. apply Z.pow2_bits_eqb. lia. Qed.

Lemma lor_clear w : Z.lor (clear_waiters_bit w) HandleWaitersBit = Z.lor w HandleWaitersBit.
Proof.
  apply Z.bits_inj'. intros i Hi. unfold clear_waiters_bit. rewrite !Z.lor_spec, Z.land_spec, Z.lnot_spec by done.
  by destruct (Z.testbit w i), (Z.testbit HandleWaitersBit i).
Qed.

Lemma clear_lor w : clear_waiters_bit (Z.lor w HandleWaitersBit) = clear_waiters_bit w.
Proof.
  apply Z.bits_inj'. intros i Hi. unfold clear_waiters_bit. rewrite !Z.land_spec, Z.lor_spec, Z.lnot_spec by done.
  by destruct (Z.testbit w i), (Z.testbit HandleWaitersBit i).
Qed.

(** A word without the bit that only gains the bit is not the bit alone. *)
Lemma lor_not_bit w : w <> 0 -> w <> Z.lor w HandleWaitersBit -> Z.lor w HandleWaitersBit <> HandleWaitersBit.
Proof.
  intros Hnz Hne E. apply Hnz. destruct (Z.testbit w 30) eqn:Et.
  - destruct Hne. apply Z.bits_inj'. intros i Hi. rewrite Z.lor_spec, waiters_bit_testbit by done.
    destruct (Z.eqb_spec 30 i) as [<-|]; [by rewrite Et|by rewrite orb_false_r].
  - apply Z.bits_inj'. intros i Hi. rewrite Z.bits_0. destruct (Z.eqb_spec 30 i) as [<-|Hi30]; [done|].
    assert (Z.testbit (Z.lor w HandleWaitersBit) i = Z.testbit HandleWaitersBit i) as Eb by (by rewrite E).
    rewrite Z.lor_spec, waiters_bit_testbit in Eb by done. apply Z.eqb_neq in Hi30. rewrite Hi30 in Eb.
    by rewrite orb_false_r in Eb.
Qed.

Lemma GetHandle_store cur type h a v s : GetHandle cur type h (store a v s) = GetHandle cur type h s.
Proof. done. Qed.

(** a thread woken from a condition variable gets its mutex.  It takes a free mutex at once;
    otherwise, when the word names a live owner, at most two rounds of the retry loop set the
    waiters bit and leave the thread on the owner's waiter list, from where unlocking hands it
    the mutex. *)
Theorem ConditionalVariableWait_relocks fuel now cur mutex tag owner s :
  (2 <= fuel)%nat -> cores_ok (k_sched s) -> placed (k_sched s) cur -> owner <> cur ->
  0 <= tag < 2 ^ 32 -> 0 <= load s mutex < 2 ^ 32 ->
  (load s mutex <> 0 -> GetHandle cur KT_KThread (clear_waiters_bit (load s mutex)) s = inr owner) ->
  exists s', if load s mutex =? 0
    then ConditionalVariableWait_resume fuel now cur mutex tag s = inr (s', Returned Success) /\ load s' mutex = tag
    else ConditionalVariableWait_resume fuel now cur mutex tag s = inr (s', Waiting) /\
      load s' mutex = Z.lor (load s mutex) HandleWaitersBit /\
      cur ∈ t_waiters (thr (k_sched s') owner) /\ t_waitThread (thr (k_sched s') cur) = Some owner /\
      t_waitKey (thr (k_sched s') cur) = mutex /\ t_waitTag (thr (k_sched s') cur) = tag.
Proof.
  intros Hf Hok Hc Hne Ht Hw Hh. unfold ConditionalVariableWait_resume. set (w := load s mutex) in *.
  destruct (Z.eqb_spec w 0) as [E0|E0]; [eexists; split; [reflexivity|by apply load_store]|]. specialize (Hh E0).
  destruct fuel as [|[|fuel]]; [lia|lia|]. cbn [relock_loop].
  assert (Hb : forall s0, k_sched s0 = k_sched s -> load s0 mutex = Z.lor w HandleWaitersBit ->
    GetHandle cur KT_KThread (clear_waiters_bit w) s0 = inr owner ->
    exists s', MutexLock now cur mutex (clear_waiters_bit w) tag s0 = inr (s', Waiting) /\
      load s' mutex = Z.lor w HandleWaitersBit /\ cur ∈ t_waiters (thr (k_sched s') owner) /\
      t_waitThread (thr (k_sched s') cur) = Some owner /\ t_waitKey (thr (k_sched s') cur) = mutex /\
      t_waitTag (thr (k_sched s') cur) = tag).
  { intros s0 Es El Eh. destruct (MutexLock_blocks now cur mutex (clear_waiters_bit w) tag owner s0)
      as (s' & E & [(a & b & _ & B1) B2 B3 B4 B5]); rewrite ?Es, ?lor_clear; try done.
    { rewrite El. intros [? _]%Z.lor_eq_0_iff. done. }
    exists s'. split; [done|]. split; [unfold load in *; by rewrite B5|]. rewrite B1. set_solver. }
  destruct (decide (w = Z.lor w HandleWaitersBit)) as [Ew|Ew].
  - destruct (Hb s eq_refl Ew Hh) as (s' & E & H). rewrite E. cbn [bindM]. by exists s'.
  - assert (EL : MutexLock now cur mutex (clear_waiters_bit w) tag s = inr (s, Returned result_InvalidCurrentMemory)).
    { unfold MutexLock. rewrite Hh. fold w. apply Z.eqb_neq in E0. rewrite E0, lor_clear.
      apply Z.eqb_neq in Ew. by rewrite Ew. }
    rewrite EL. cbn [bindM]. change (result_InvalidCurrentMemory =? Success) with false. cbv iota. fold w.
    pose proof (lor_not_bit w E0 Ew) as Hnb. apply Z.eqb_neq in Hnb. rewrite Hnb, clear_lor.
    destruct (Hb (store mutex (Z.lor w HandleWaitersBit) s) eq_refl) as (s' & E & H).
    { apply load_store. by apply lor_waiters_range. } { done. }
    rewrite E. cbn [bindM]. by exists s'.
Qed.

(** The sample contention seen from a thread 5 that was woken and finds the mutex taken. *)
Definition sample_relock : Kernel :=
  let s := set_k_objects (<[1 := OThread (mk_sync false [])]> (k_objects sample_contended)) sample_contended in
  let s := set_k_handles [Some 0; Some 1] s in
  store 0x1000 0xD001 (set_k_sched (set_thr 5 (fun _ => sample_thread 5 20 1) (k_sched s)) s).

Lemma ConditionalVariableWait_relocks_witness :
  exists s', ConditionalVariableWait_resume 2 0 5 0x1000 0xD005 sample_relock = inr (s', Waiting) /\
    load s' 0x1000 = 0x4000D001 /\ 5 ∈ t_waiters (thr (k_sched s') 1).
Proof.
  destruct (ConditionalVariableWait_relocks 2 0 5 0x1000 0xD005 1 sample_relock) as (s' & H1 & H2 & H3 & _);
    [lia| |vm_compute; intuition congruence|lia|lia|vm_compute; intuition congruence|vm_compute; reflexivity|].
  - split; [done|]. intros [|[|[|[|i]]]] c H; simplify_eq/=; done.
  - exists s'. split; [exact H1|]. split; [rewrite H2; reflexivity|exact H3].
Defined.

(** ** Signalling an object *)

(** The threads of [l] that can be woken carry the object afterwards, and nobody in [l] can be
    cancelled any more. *)
Record signalled_waiters (ref : Z) (l : list Z) (sch sch' : Scheduler) : Prop := mk_signalled {
  sg_cores : cores_ok sch';
  sg_core : forall u, t_coreId (thr sch' u) = t_coreId (thr sch u);
  sg_paused : forall u, t_isPaused (thr sch' u) = t_isPaused (thr sch u);
  sg_cancelSync : forall u, t_cancelSync (thr sch' u) = t_cancelSync (thr sch u);
  sg_cancellable : forall u, t_isCancellable (thr sch' u) = (if decide (u ∈ l) then false else t_isCancellable (thr sch u));
  sg_wakeObject : forall u, t_wakeObject (thr sch' u) =
    (if decide (u ∈ l) then if t_isCancellable (thr sch u) then Some ref else t_wakeObject (thr sch u)
     else t_wakeObject (thr sch u));
  sg_grow : queues_grow sch sch';
  sg_queued : forall u, u ∈ l -> t_isCancellable (thr sch u) = true -> u ∈ queue sch' (t_coreId (thr sch u)) }.

Lemma set_k_sched_id s : set_k_sched (k_sched s) s = s.
Proof. by destruct s. Qed.

Lemma signal_waiter_ok cur ref t s :
  cores_ok (k_sched s) -> runnable (k_sched s) t ->
  exists sch, signal_waiter cur ref s t = inr (set_k_sched sch s) /\ signalled_waiters ref [t] (k_sched s) sch.
Proof.
  intros Hok Hr. unfold signal_waiter. destruct (t_isCancellable (thr (k_sched s) t)) eqn:Ec.
  - unfold on_sched. cbn [k_sched set_k_sched].
    set (sch1 := set_thr t (set_t_wakeObject (Some ref)) (set_thr t (set_t_isCancellable false) (k_sched s))).
    assert (T1 : forall u, thr sch1 u = if decide (u = t) then set_t_wakeObject (Some ref) (set_t_isCancellable false (thr (k_sched s) t))
      else thr (k_sched s) u).
    { intros u. unfold sch1. rewrite !thr_set_thr. by repeat case_decide. }
    assert (Hpl : placed sch1 t) by (unfold placed; rewrite T1; case_decide; [apply Hr|done]).
    assert (Hpa : t_isPaused (thr sch1 t) = false) by (rewrite T1; case_decide; [apply Hr|done]).
    destruct (wake_ok cur t (set_k_sched sch1 (set_k_sched (set_thr t (set_t_isCancellable false) (k_sched s)) s)) Hok Hpl Hpa)
      as (sch2 & E2 & W2 & R2). cbn [k_sched set_k_sched] in *. rewrite E2.
    exists sch2. split; [done|]. destruct Hr as [Hpl0 Hpa0].
    assert (Tc : t_coreId (thr sch1 t) = t_coreId (thr (k_sched s) t)) by (rewrite T1; by case_decide).
    assert (Q1 : forall c, queue sch1 c = queue (k_sched s) c) by done.
    assert (Hgrow : queues_grow (k_sched s) sch2).
    { intros c u Hc Hu. destruct (decide (c = t_coreId (thr sch1 t))) as [->|Hne].
      - rewrite (rq_queue _ _ _ _ R2), enqueued_perm, Q1. set_solver.
      - by rewrite (rq_other _ _ _ _ R2). }
    split; [apply R2| | | | | |done|].
    + intros u. rewrite (sw_core _ _ W2), T1. by case_decide; subst.
    + intros u. rewrite (sw_paused _ _ W2), T1. by case_decide; subst.
    + intros u. rewrite (sw_cancelSync _ _ W2), T1. by case_decide; subst.
    + intros u. rewrite (sw_cancellable _ _ W2), T1. do 2 case_decide; subst; try done; set_solver.
    + intros u. rewrite (sw_wakeObject _ _ W2), T1. do 2 case_decide; subst; try rewrite Ec; try done; set_solver.
    + intros u ->%list_elem_of_singleton _. rewrite <- Tc, (rq_queue _ _ _ _ R2), enqueued_perm. set_solver.
  - exists (k_sched s). rewrite set_k_sched_id. split; [done|].
    split; [done|done|done|done| | |by intros ?|].
    + intros u. case_decide as Hu; [|done]. apply list_elem_of_singleton in Hu. by subst.
    + intros u. case_decide as Hu; [|done]. apply list_elem_of_singleton in Hu. subst. by rewrite Ec.
    + intros u ->%list_elem_of_singleton. congruence.
Qed.

Lemma runnable_signalled ref l sch sch' t : signalled_waiters ref l sch sch' -> runnable sch t -> runnable sch' t.
Proof. intros [] [H1 H2]. split; [unfold placed; by rewrite sg_core0|by rewrite sg_paused0]. Qed.

Lemma signal_waiters_ok cur ref l s :
  cores_ok (k_sched s) -> Forall (runnable (k_sched s)) l ->
  exists sch, foldM (signal_waiter cur ref) l s = inr (set_k_sched sch s) /\ signalled_waiters ref l (k_sched s) sch.
Proof.
  revert s. induction l as [|t l IH]; intros s Hok Hl.
  { exists (k_sched s). rewrite set_k_sched_id. split; [done|]. split; try done.
    - by intros c u.
    - by intros u ?%elem_of_nil. }
  apply Forall_cons in Hl as [Ht Hl]. cbn [foldM].
  destruct (signal_waiter_ok cur ref t s Hok Ht) as (sch1 & E1 & S1). rewrite E1. cbn [bindM].
  destruct (IH (set_k_sched sch1 s)) as (sch2 & E2 & S2); [apply S1|eapply Forall_impl; [exact Hl|]; intros u; by apply (runnable_signalled ref [t])|].
  exists sch2. split; [exact E2|]. cbn [k_sched set_k_sched] in S2. destruct S1 as [A1 A2 A3 A4 A5 A6 A7 A8], S2 as [B1 B2 B3 B4 B5 B6 B7 B8].
  split; [done| | | | | | |].
  - intros u. by rewrite B2.
  - intros u. by rewrite B3.
  - intros u. by rewrite B4.
  - intros u. rewrite B5, A5. repeat case_decide; try done; set_solver.
  - intros u. rewrite B6, A5, A6. repeat case_decide; try done; try set_solver; by destruct (t_isCancellable (thr (k_sched s) u)).
  - intros c u Hc Hu. by apply B7, A7.
  - intros u Hu Hcan. destruct (decide (u = t)) as [->|Hne].
    + apply B7; [apply Ht|]. apply A8; [set_solver|done].
    + rewrite <- A2. apply B8; [set_solver|]. rewrite A5. case_decide; [set_solver|done].
Qed.
