(* ===== verification/Svc.v ===== *)
(** * Supervisor calls ([kernel/svc.cpp], [kernel/svc.h], [nce.cpp] SvcHandler)

    Each handler reads its arguments from the guest registers and writes its results there.
    Handlers that block are split where they wait for the scheduler.  A handler that ends in a
    fault other than [Throw_out_of_range] is one the source leaves by an exception; the piecewise
    [catch_out_of_range] follows the state at the point of the throw. *)

From S2P Require Import Prelude Common MemoryManager Scheduler KObjects Process Sync.

(** ** Registers *)

Definition gpr : Type := Z -> Z.
Definition x (r : gpr) (i : Z) : Z := r i.
Definition w (r : gpr) (i : Z) : Z := u32 (r i).
Definition set_x (i v : Z) (r : gpr) : gpr := fun j => if j =? i then v else r j.
(** [WRegister::operator=] clears the upper half. *)
Definition set_w (i v : Z) (r : gpr) : gpr := set_x i (u32 v) r.

(** The result of a handler: the state and the registers; whether the call is over or waits for
    the scheduler. *)
Inductive svc_end : Type := Done | Blocked.
Definition svc_result : Type := M (Kernel * gpr * svc_end).

Definition finish (s : Kernel) (r : gpr) (result : Z) : svc_result := ok (s, set_w 0 result r, Done).

(** [catch (const std::out_of_range &)] with the usual handler, on the state at the throw. *)
Definition or_invalid_handle (c : svc_result) (s : Kernel) (r : gpr) : svc_result :=
  catch_out_of_range c (finish s r result_InvalidHandle).

(** ** Guest memory access *)

Definition copy_ram (dst src size : Z) (ram : guest_memory) : guest_memory :=
  fun a => if (dst <=? a) && (a <? dst + size) then ram (src + (a - dst)) else ram a.

Definition write_u64 (a v : Z) (ram : guest_memory) : guest_memory :=
  write_u32 (a + 4) (bits 32 32 v) (write_u32 a (bits 0 32 v) ram).

Definition read_u64 (ram : guest_memory) (a : Z) : Z := read_u32 ram a + Z.shiftl (read_u32 ram (a + 4)) 32.

(** ** Memory *)

Definition svc_SetHeapSize (env : host_env) (s : Kernel) (r : gpr) : svc_result :=
  let size := w r 1 in
  if negb (IsAligned size 0x200000) then ok (s, set_x 1 0 (set_w 0 result_InvalidSize r), Done)
  else
    match k_heap s with
    | Some ref =>
        match get_object s ref with
        | Some (OPrivateMemory m) =>
            let! s := KPrivateMemory_Resize env ref m size s in
            ok (s, set_x 1 (sp_data (pm_guest m)) (set_w 0 Success r), Done)
        | _ => fail (Undefined "SetHeapSize: heap is not private memory")
        end
    | None => fail (Undefined "SetHeapSize: null heap")
    end.

Definition svc_SetMemoryAttribute (s : Kernel) (r : gpr) : svc_result :=
  let pointer := x r 0 in
  if negb (IsPageAligned pointer) then finish s r result_InvalidAddress
  else
    let size := x r 1 in
    if negb (IsPageAligned size) then finish s r result_InvalidSize
    else
      let mask := w r 2 in
      let value := w r 3 in
      let maskedValue := Z.lor mask value in
      if negb (maskedValue =? mask) || negb (isUncached mask) || isDeviceShared mask || isBorrowed mask || isIpcLocked mask
      then finish s r result_InvalidCombination
      else
        match Get (k_memory s) pointer with
        | None => finish s r result_InvalidAddress
        | Some chunk =>
            if negb (attributeChangeAllowed (c_state chunk)) then finish s r result_InvalidState
            else
              let newChunk := mk_chunk pointer size (c_permission chunk) (c_state chunk)
                                (set_isUncached (isUncached value) (c_attributes chunk)) in
              let! s := insert_chunk newChunk s in
              finish s r Success
        end.

Definition svc_MapMemory (env : host_env) (s : Kernel) (r : gpr) : svc_result :=
  let destination := x r 0 in
  let source := x r 1 in
  let size := x r 2 in
  if negb (IsPageAligned destination) || negb (IsPageAligned source) then finish s r result_InvalidAddress
  else if negb (IsPageAligned size) then finish s r result_InvalidSize
  else if negb (contains_span (stack (k_memory s)) (mk_span destination size)) then finish s r result_InvalidMemoryRegion
  else
    match Get (k_memory s) source with
    | None => finish s r result_InvalidAddress
    | Some chunk =>
        if negb (mapAllowed (c_state chunk)) then finish s r result_InvalidState
        else
          let! (s, _, _) := NewHandle (fun _ => KPrivateMemory_new env (mk_span destination size) (c_permission chunk) states_Stack) s in
          let s := set_k_ram (copy_ram destination source size (k_ram s)) s in
          match GetMemoryObject source s with
          | None => fail (Throw "svcMapMemory: Cannot find memory object in handle table")
          | Some (item, _) =>
              let! s := UpdatePermission item (mk_span source size) no_permission s in
              finish s r Success
          end
    end.

Definition svc_UnmapMemory (s : Kernel) (r : gpr) : svc_result :=
  let source := x r 0 in
  let destination := x r 1 in
  let size := x r 2 in
  if negb (IsPageAligned destination) || negb (IsPageAligned source) then finish s r result_InvalidAddress
  else if negb (IsPageAligned size) then finish s r result_InvalidSize
  else if negb (contains_span (stack (k_memory s)) (mk_span source size)) then finish s r result_InvalidMemoryRegion
  else
    match Get (k_memory s) source, Get (k_memory s) destination with
    | Some sourceChunk, Some destChunk =>
        if negb (mapAllowed (c_state destChunk)) then finish s r result_InvalidState
        else
          match GetMemoryObject destination s with
          | None => fail (Throw "svcUnmapMemory: Cannot find destination memory object in handle table")
          | Some (destObject, _) =>
              let! s := UpdatePermission destObject (mk_span destination size) (c_permission sourceChunk) s in
              let s := set_k_ram (copy_ram source destination size (k_ram s)) s in
              match GetMemoryObject source s with
              | None => fail (Throw "svcUnmapMemory: Cannot find source memory object in handle table")
              | Some (_, handle) => let! s := CloseHandle handle s in finish s r Success
              end
          end
    | _, _ => finish s r result_InvalidAddress
    end.

Record MemoryInfo : Type := mk_info {
  mi_address : Z; mi_size : Z; mi_type : Z; mi_attributes : Z; mi_permissions : Z;
  mi_ipcRefCount : Z; mi_deviceRefCount : Z }.

(** The information reported for an address. *)
Definition query_info (s : Kernel) (pointer : Z) : MemoryInfo :=
  match Get (k_memory s) pointer with
  | Some chunk =>
      mk_info (c_ptr chunk) (c_size chunk) (state_type (c_state chunk)) (c_attributes chunk)
        (Permission_Get (c_permission chunk)) 0 0
  | None =>
      let addressSpaceEnd := span_end (addressSpace (k_memory s)) in
      mk_info addressSpaceEnd (u64 (u64 (Z.lnot addressSpaceEnd) + 1)) (MemoryType_value MT_Reserved) 0 0 0 0
  end.

Definition write_info (a : Z) (i : MemoryInfo) (ram : guest_memory) : guest_memory :=
  let ram := write_u64 a (mi_address i) ram in
  let ram := write_u64 (a + 8) (mi_size i) ram in
  let ram := write_u32 (a + 16) (mi_type i) ram in
  let ram := write_u32 (a + 20) (mi_attributes i) ram in
  let ram := write_u32 (a + 24) (mi_permissions i) ram in
  let ram := write_u32 (a + 28) (mi_ipcRefCount i) ram in
  let ram := write_u32 (a + 32) (mi_deviceRefCount i) ram in
  write_u32 (a + 36) 0 ram.

Definition svc_QueryMemory (s : Kernel) (r : gpr) : svc_result :=
  let pointer := x r 2 in
  finish (set_k_ram (write_info (x r 0) (query_info s pointer) (k_ram s)) s) r Success.

(** ** Processes and threads *)

(** [NCE::ExitException]. *)
Definition svc_ExitProcess (s : Kernel) (r : gpr) : svc_result := fail (Throw "ExitException: ExitProcess").
Definition svc_ExitThread (s : Kernel) (r : gpr) : svc_result := fail (Throw "ExitException: ExitThread").

Definition IdealCoreDontCare : Z := -1.
Definition IdealCoreUseProcessValue : Z := -2.
Definition IdealCoreNoUpdate : Z := -3.

Definition svc_CreateThread (env : host_env) (s : Kernel) (r : gpr) : svc_result :=
  let entry := x r 1 in
  let entryArgument := x r 2 in
  let stackTop := x r 3 in
  let priority := i8 (w r 4) in
  let idealCore := i32 (w r 5) in
  let idealCore := if idealCore =? IdealCoreUseProcessValue then npdm_idealCore (k_npdm s) else idealCore in
  if (idealCore <? 0) || (CoreCount <=? idealCore) then finish s r result_InvalidCoreId
  else if negb (Priority_Valid (npdm_priority (k_npdm s)) priority) then finish s r result_InvalidPriority
  else
    match GetMemoryObject stackTop s with
    | None => fail (Throw "svcCreateThread: Cannot find memory object in handle table for thread stack")
    | Some _ =>
        let! (s, thread) := CreateThread env entry entryArgument stackTop (Some priority) (Some (u8 idealCore)) s in
        match thread with
        | Some t => ok (s, set_w 0 Success (set_w 1 (t_handle (thr (k_sched s) t)) r), Done)
        | None => ok (s, set_w 0 result_OutOfResource (set_w 1 0 r), Done)
        end
    end.

Definition svc_StartThread (now cur : Z) (s : Kernel) (r : gpr) : svc_result :=
  let handle := w r 0 in
  or_invalid_handle
    (let! thread := GetHandle cur KT_KThread handle s in
     let! (sch, inserted) := Start now (Some cur) thread (k_sched s) in
     if inserted then finish (set_k_sched sch s) r Success
     else fail (Suspended "StartThread: InsertThread of a paused thread")) s r.

(** The sleep removes the thread from its core until the host sleep is over, the yields end in a
    wait for the scheduler. *)
Definition svc_SleepThread (now cur : Z) (s : Kernel) (r : gpr) : svc_result :=
  let input := i64 (x r 0) in
  if 0 <? input then
    let! s := on_schedM (RemoveThread now cur) s in ok (s, r, Blocked)
  else if input =? -1 then
    let! s := on_schedM (WakeParkedThread cur) s in
    let! s := on_schedM (Rotate now cur) s in ok (s, r, Blocked)
  else if input =? 0 then
    let! s := on_schedM (Rotate now cur) s in ok (s, r, Blocked)
  else if input =? -2 then
    let! (sch, _) := ParkThread_begin now cur (k_sched s) in ok (set_k_sched sch s, r, Blocked)
  else ok (s, r, Done).

(** The end of the host sleep, the destructor of [SchedulerScopedLock]. *)
Definition svc_SleepThread_wake (cur : Z) (s : Kernel) (r : gpr) : svc_result :=
  let! s := wake cur cur s in ok (s, r, Blocked).

Definition svc_GetThreadPriority (cur : Z) (s : Kernel) (r : gpr) : svc_result :=
  let handle := w r 1 in
  or_invalid_handle
    (let! thread := GetHandle cur KT_KThread handle s in
     let priority := prio (k_sched s) thread in
     finish s (set_w 1 (u32 priority) r) Success) s r.

Definition svc_SetThreadPriority (cur : Z) (s : Kernel) (r : gpr) : svc_result :=
  let handle := w r 0 in
  let priority := i8 (w r 1) in
  if negb (Priority_Valid (npdm_priority (k_npdm s)) priority) then finish s r result_InvalidPriority
  else
    or_invalid_handle
      (let! thread := GetHandle cur KT_KThread handle s in
       if negb (prio (k_sched s) thread =? priority) then
         let s := on_sched (set_thr thread (set_t_basePriority priority)) s in
         let s := on_sched (swap_while swap_fuel (fun sch => Z.min (prio sch thread) priority) (fun _ => priority) thread) s in
         or_invalid_handle
           (let! s := on_schedM (UpdatePriority thread) s in
            or_invalid_handle
              (let! s := on_schedM (UpdatePriorityInheritance [] thread) s in finish s r Success) s r) s r
       else finish s r Success) s r.

Definition svc_GetThreadCoreMask (cur : Z) (s : Kernel) (r : gpr) : svc_result :=
  let handle := w r 2 in
  or_invalid_handle
    (let! thread := GetHandle cur KT_KThread handle s in
     let t := thr (k_sched s) thread in
     finish s (set_w 1 (t_idealCore t) (set_x 2 (t_affinityMask t) r)) Success) s r.

(** [std::countr_zero] of a mask of four bits. *)
Definition first_core (mask : Z) : Z :=
  if bit mask 0 then 0 else if bit mask 1 then 1 else if bit mask 2 then 2 else if bit mask 3 then 3 else 64.

(** [affinityMask.set(core)] on an empty mask. *)
Definition mask_single (core : Z) : M Z :=
  if (0 <=? core) && (core <? CoreCount) then ok (Z.shiftl 1 core) else fail Throw_out_of_range.

Definition resolve_ideal_core (s : Kernel) (thread idealCore affinityMask : Z) : M (Z * Z) :=
  if idealCore =? IdealCoreUseProcessValue then
    let idealCore := npdm_idealCore (k_npdm s) in
    let! affinityMask := mask_single idealCore in ok (idealCore, affinityMask)
  else if idealCore =? IdealCoreNoUpdate then ok (t_idealCore (thr (k_sched s) thread), affinityMask)
  else if idealCore =? IdealCoreDontCare then ok (first_core affinityMask, affinityMask)
  else ok (idealCore, affinityMask).

(** The move of a thread whose core left its mask.  The mask is tested with the resident core
    before the parked core is excluded. *)
Definition migrate_thread (now cur thread idealCore affinityMask : Z) (s : Kernel) (r : gpr) : svc_result :=
  let t := thr (k_sched s) thread in
  let! allowed := mask_test affinityMask (t_coreId t) in
  if negb allowed && negb (t_coreId t =? ParkedCoreId) then
    if thread =? cur then
      let! s := on_schedM (RemoveThread now cur) s in
      let s := on_sched (set_thr thread (set_t_coreId (u8 idealCore))) s in
      let! s := wake cur cur s in
      ok (s, set_w 0 Success r, Blocked)
    else if negb (t_running t) then
      finish (on_sched (set_thr thread (set_t_coreId (u8 idealCore))) s) r Success
    else let! s := on_schedM (UpdateCore thread) s in finish s r Success
  else finish s r Success.

Definition svc_SetThreadCoreMask (now cur : Z) (s : Kernel) (r : gpr) : svc_result :=
  let handle := w r 0 in
  let idealCore := i32 (w r 1) in
  let affinityMask := bits 0 4 (x r 2) in
  or_invalid_handle
    (let! thread := GetHandle cur KT_KThread handle s in
     let! (idealCore, affinityMask) := resolve_ideal_core s thread idealCore affinityMask in
     let processMask := npdm_coreMask (k_npdm s) in
     if negb (Z.lor processMask affinityMask =? processMask) then finish s r result_InvalidCoreId
     else
       let! usable := if affinityMask =? 0 then ok false else mask_test affinityMask idealCore in
       if negb usable then finish s r result_InvalidCombination
       else
         let s := on_sched (set_thr thread (set_t_idealCore (u8 idealCore))) s in
         let s := on_sched (set_thr thread (set_t_affinityMask affinityMask)) s in
         or_invalid_handle (migrate_thread now cur thread idealCore affinityMask s r) s r) s r.

Definition svc_GetCurrentProcessorNumber (cur : Z) (s : Kernel) (r : gpr) : svc_result :=
  finish s r (t_coreId (thr (k_sched s) cur)).

(** ** Events and shared memory *)

Definition svc_ClearEvent (s : Kernel) (r : gpr) : svc_result :=
  let handle := w r 0 in
  or_invalid_handle
    (let! (ref, _) := GetHandle_any handle s in
     let! (s, _) := KSyncObject_ResetSignal ref s in
     finish s r Success) s r.

(** [(permission.w && !permission.r) || (permission.x && !permission.r)]. *)
Definition unreadable (p : Permission) : bool := (perm_w p && negb (perm_r p)) || (perm_x p && negb (perm_r p)).

Definition svc_MapSharedMemory (env : host_env) (cur : Z) (s : Kernel) (r : gpr) : svc_result :=
  or_invalid_handle
    (let handle := w r 0 in
     let! object := GetHandle cur KT_KSharedMemory handle s in
     let pointer := x r 1 in
     if negb (IsPageAligned pointer) then finish s r result_InvalidAddress
     else
       let size := x r 2 in
       if negb (IsPageAligned size) then finish s r result_InvalidSize
       else
         let permission := Permission_of_raw (u8 (w r 3)) in
         if unreadable permission then finish s r result_InvalidNewMemoryPermission
         else
           match get_object s object with
           | Some (OSharedMemory m) =>
               let! s := KSharedMemory_Map env object KT_KSharedMemory m (mk_span pointer size) permission s in
               finish s r Success
           | _ => fail (Undefined "MapSharedMemory: not shared memory")
           end) s r.

Definition svc_UnmapSharedMemory (env : host_env) (cur : Z) (s : Kernel) (r : gpr) : svc_result :=
  or_invalid_handle
    (let handle := w r 0 in
     let! object := GetHandle cur KT_KSharedMemory handle s in
     let pointer := x r 1 in
     if negb (IsPageAligned pointer) then finish s r result_InvalidAddress
     else
       let size := x r 2 in
       if negb (IsPageAligned size) then finish s r result_InvalidSize
       else
         match get_object s object with
         | Some (OSharedMemory m) =>
             let! s := KSharedMemory_Unmap env object KT_KSharedMemory m (mk_span pointer size) s in
             finish s r Success
         | _ => fail (Undefined "UnmapSharedMemory: not shared memory")
         end) s r.

Definition svc_CreateTransferMemory (env : host_env) (s : Kernel) (r : gpr) : svc_result :=
  let pointer := x r 1 in
  if negb (IsPageAligned pointer) then finish s r result_InvalidAddress
  else
    let size := x r 2 in
    if negb (IsPageAligned size) then finish s r result_InvalidSize
    else
      let raw := u8 (w r 3) in
      let permission := Permission_of_raw raw in
      if unreadable permission then finish s r result_InvalidNewMemoryPermission
      else
        let! (s, _, handle) :=
          NewHandle (fun _ => KTransferMemory_new env pointer size permission
            (if negb (raw =? 0) then states_TransferMemory else states_TransferMemoryIsolated)) s in
        ok (s, set_w 1 handle (set_w 0 Success r), Done).

Definition svc_CloseHandle (s : Kernel) (r : gpr) : svc_result :=
  let handle := w r 0 in
  or_invalid_handle (let! s := CloseHandle handle s in finish s r Success) s r.

(** The result of [ResetSignal] is written to the register and then overwritten. *)
Definition svc_ResetSignal (s : Kernel) (r : gpr) : svc_result :=
  let handle := w r 0 in
  or_invalid_handle
    (let! (ref, o) := GetHandle_any handle s in
     match objectType o with
     | KT_KEvent | KT_KProcess =>
         let! (s, reset) := KSyncObject_ResetSignal ref s in
         let r := set_w 0 (if reset then Success else result_InvalidState) r in
         finish s r Success
     | _ => finish s r result_InvalidHandle
     end) s r.

(** ** Waiting for objects *)

Definition maxSyncHandles : Z := 0x40.

(** The handles in guest memory. *)
Definition wait_handles (s : Kernel) (pointer numHandles : Z) : list Z :=
  (fun i => read_u32 (k_ram s) (pointer + 4 * Z.of_nat i)) <$> seq 0 (Z.to_nat numHandles).

(** The objects of the handles; [None] is the early return for a wrong type. *)
Fixpoint object_table (handles : list Z) (s : Kernel) : M (option (list Z)) :=
  match handles with
  | [] => ok (Some [])
  | handle :: handles =>
      let! (ref, o) := GetHandle_any handle s in
      match objectType o with
      | KT_KProcess | KT_KThread | KT_KEvent | KT_KSession =>
          let! rest := object_table handles s in ok ((fun l => ref :: l) <$> rest)
      | _ => ok None
      end
  end.

(** The index of the first signalled object. *)
Fixpoint first_signalled (objects : list Z) (index : Z) (s : Kernel) : M (option Z) :=
  match objects with
  | [] => ok None
  | ref :: objects =>
      let! o := sync_object s ref in
      if signalled o then ok (Some index) else first_signalled objects (index + 1) s
  end.

Definition add_sync_waiter (cur : Z) (s : Kernel) (ref : Z) : M Kernel :=
  let! o := sync_object s ref in
  ok (put_sync ref (mk_sync (signalled o) (insert_sorted s cur (syncObjectWaiters o))) s).

(** [WaitSynchronization] up to its wait; with [Blocked] come the objects waited on. *)
Definition svc_WaitSynchronization (now cur : Z) (s : Kernel) (r : gpr) : M (Kernel * gpr * svc_end * list Z) :=
  let return_ s r result := ok (s, set_w 0 result r, Done, []) in
  let numHandles := w r 2 in
  if maxSyncHandles <? numHandles then return_ s r result_OutOfRange
  else
    let! table := object_table (wait_handles s (x r 1) numHandles) s in
    match table with
    | None => return_ s r result_InvalidHandle
    | Some objects =>
        let timeout := i64 (x r 3) in
        if t_cancelSync (thr (k_sched s) cur)
        then return_ (on_sched (set_thr cur (set_t_cancelSync false)) s) r result_Cancelled
        else
          let! index := first_signalled objects 0 s in
          match index with
          | Some index => ok (s, set_w 1 index (set_w 0 Success r), Done, [])
          | None =>
              if timeout =? 0 then return_ s r result_TimedOut
              else
                let! s := foldM (add_sync_waiter cur) objects s in
                let s := on_sched (set_thr cur (set_t_isCancellable true)) s in
                let s := on_sched (set_thr cur (set_t_wakeObject None)) s in
                let! s := on_schedM (RemoveThread now cur) s in
                ok (s, r, Blocked, objects)
          end
    end.

(** The loop after the wait: leaves every object and finds the index of the one that woke us. *)
Fixpoint leave_objects (cur : Z) (wakeObject : option Z) (objects : list Z) (index wakeIndex : Z) (s : Kernel)
    : M (Kernel * Z) :=
  match objects with
  | [] => ok (s, wakeIndex)
  | ref :: objects =>
      let wakeIndex := if decide (wakeObject = Some ref) then index else wakeIndex in
      let! o := sync_object s ref in
      match index_of cur (syncObjectWaiters o) with
      | Some i =>
          let s := put_sync ref (mk_sync (signalled o) (erase_at i (syncObjectWaiters o))) s in
          leave_objects cur wakeObject objects (index + 1) wakeIndex s
      | None => fail (Throw "svcWaitSynchronization: removed from the syncObjectWaiters queue incorrectly")
      end
  end.

(** [WaitSynchronization] after its wait, which ended by a signal, a cancellation or a timeout. *)
Definition svc_WaitSynchronization_resume (cur : Z) (objects : list Z) (s : Kernel) (r : gpr) : svc_result :=
  let s := on_sched (set_thr cur (set_t_isCancellable false)) s in
  let wakeObject := t_wakeObject (thr (k_sched s) cur) in
  let! (s, wakeIndex) := leave_objects cur wakeObject objects 0 0 s in
  match wakeObject with
  | Some _ => ok (s, set_w 1 wakeIndex (set_w 0 Success r), Done)
  | None =>
      if t_cancelSync (thr (k_sched s) cur)
      then finish (on_sched (set_thr cur (set_t_cancelSync false)) s) r result_Cancelled
      else
        let! s := wake cur cur s in
        ok (s, set_w 0 result_TimedOut r, Blocked)
  end.

Definition svc_CancelSynchronization (cur : Z) (s : Kernel) (r : gpr) : svc_result :=
  or_invalid_handle
    (let! thread := GetHandle cur KT_KThread (w r 0) s in
     let s := on_sched (set_thr thread (set_t_cancelSync true)) s in
     if t_isCancellable (thr (k_sched s) thread) then
       let s := on_sched (set_thr thread (set_t_isCancellable false)) s in
       or_invalid_handle (let! s := wake cur thread s in finish s r Success) s r
     else finish s r Success) s r.

(** ** Locks and keys *)

(** A mutex whose value is not the expected one is still a success. *)
Definition arbitrate_result (result : Z) : Z :=
  if result =? result_InvalidCurrentMemory then Success else result.

Definition svc_ArbitrateLock (now cur : Z) (s : Kernel) (r : gpr) : svc_result :=
  let mutex := x r 1 in
  if negb (IsWordAligned mutex) then finish s r result_InvalidAddress
  else
    let ownerHandle := w r 0 in
    let requesterHandle := w r 2 in
    let! (s, o) := MutexLock now cur mutex ownerHandle requesterHandle s in
    match o with
    | Returned result => finish s r (arbitrate_result result)
    | Waiting => ok (s, set_w 0 Success r, Blocked)
    end.

Definition svc_ArbitrateUnlock (cur : Z) (s : Kernel) (r : gpr) : svc_result :=
  let mutex := x r 0 in
  if negb (IsWordAligned mutex) then finish s r result_InvalidAddress
  else let! s := MutexUnlock cur mutex s in finish s r Success.

Definition svc_WaitProcessWideKeyAtomic (now cur : Z) (s : Kernel) (r : gpr) : svc_result :=
  let mutex := x r 0 in
  if negb (IsWordAligned mutex) then finish s r result_InvalidAddress
  else
    let conditional := x r 1 in
    let! (s, _) := ConditionalVariableWait now cur conditional mutex s in
    ok (s, r, Blocked).

(** The two continuations of the wait. *)
Definition svc_WaitProcessWideKeyAtomic_timeout (cur : Z) (s : Kernel) (r : gpr) : svc_result :=
  let! (s, o) := ConditionalVariableWait_timeout cur (x r 1) s in
  ok (s, set_w 0 (match o with Returned result => result | Waiting => Success end) r, Blocked).

Definition svc_WaitProcessWideKeyAtomic_resume (fuel : nat) (now cur : Z) (s : Kernel) (r : gpr) : svc_result :=
  let! (s, o) := ConditionalVariableWait_resume fuel now cur (x r 0) (w r 2) s in
  ok (s, set_w 0 Success r, match o with Returned _ => Done | Waiting => Blocked end).

Definition svc_SignalProcessWideKey (cur : Z) (s : Kernel) (r : gpr) : svc_result :=
  let conditional := x r 0 in
  let count := i32 (w r 1) in
  let! s := ConditionalVariableSignal cur conditional count s in
  finish s r Success.

(** [cntvct] and [cntfrq] are the host's counter and its frequency; UDIV by zero gives zero. *)
Definition svc_GetSystemTick (cntvct cntfrq : Z) (s : Kernel) (r : gpr) : svc_result :=
  let tick := u64 (cntvct * 0x124F800) in
  ok (s, set_x 0 (if cntfrq =? 0 then 0 else tick / cntfrq) r, Done).

(** ** Ports, information, debugging *)

Definition portSize : nat := 8.

(** The bytes of the name up to its terminator. *)
Fixpoint read_name (ram : guest_memory) (a : Z) (n : nat) : list Z :=
  match n with
  | O => []
  | S n => if ram a =? 0 then [] else ram a :: read_name ram (a + 1) n
  end.

(** [a.compare(b) >= 0]: lexicographic order of unsigned bytes. *)
Fixpoint name_ge (a b : list Z) : bool :=
  match a, b with
  | _, [] => true
  | [], _ :: _ => false
  | p :: a, q :: b => if p <? q then false else if q <? p then true else name_ge a b
  end.

(** The bytes of sm: *)
Definition sm_port : list Z := [115; 109; 58].

(** [sm] is the identity of the service manager's user interface. *)
Definition svc_ConnectToNamedPort (sm : Z) (s : Kernel) (r : gpr) : svc_result :=
  let port := read_name (k_ram s) (x r 1) portSize in
  if name_ge port sm_port then
    let! (s, _, handle) :=
      NewHandle (fun _ s => ok (new_object (OSession (mk_sync false []) (mk_session sm [] 0 true false)) s)) s in
    ok (s, set_w 0 Success (set_w 1 handle r), Done)
  else finish s r result_NotFound.

(** [handler] is the service manager's handler of a request on a session handle. *)
Definition svc_SendSyncRequest (handler : Z -> Kernel -> M Kernel) (now cur : Z) (s : Kernel) (r : gpr) : svc_result :=
  let! s := on_schedM (RemoveThread now cur) s in
  let! s := handler (u32 (x r 0)) s in
  let! s := wake cur cur s in
  ok (s, set_w 0 Success r, Blocked).

Definition svc_GetThreadId (cur : Z) (s : Kernel) (r : gpr) : svc_result :=
  let handle := w r 1 in
  let! thread := GetHandle cur KT_KThread handle s in
  let tid := t_id (thr (k_sched s) thread) in
  finish s (set_x 1 tid r) Success.

(** Without the notification bit the thread leaves by [longjmp]; the process is killed unless the
    main thread breaks. *)
Definition svc_Break (cur : Z) (s : Kernel) (r : gpr) : Kernel * option gpr :=
  let reason := x r 0 in
  if bit reason 31 then (s, Some r)
  else (if negb (t_id (thr (k_sched s) cur) =? 0) then KProcess_Kill false false false s else s, None).

Definition svc_OutputDebugString (s : Kernel) (r : gpr) : svc_result :=
  if x r 1 =? 0 then fail (Undefined "OutputDebugString: back of an empty string") else finish s r Success.

Definition totalPhysicalMemory : Z := 0xF8000000.

(** The size of the stack object of the main thread. *)
Definition main_stack_size (s : Kernel) : M Z :=
  match k_mainThreadStack s with
  | Some ref =>
      match get_object s ref with
      | Some (OPrivateMemory m) => ok (sp_size (pm_guest m))
      | _ => fail (Undefined "mainThreadStack")
      end
  | None => fail (Undefined "null mainThreadStack")
  end.

(** The value for an information id, [None] for an unknown id; [ticks] is the host tick counter. *)
Definition info_value (ticks : Z) (info : Z) (s : Kernel) : M (option Z) :=
  let m := k_memory s in
  let npdm := k_npdm s in
  let out v := ok (Some v) in
  if info =? 0 then out (npdm_coreMask npdm)
  else if info =? 1 then out (Priority_Mask (npdm_priority npdm))
  else if info =? 2 then out (sp_data (alias m))
  else if info =? 3 then out (sp_size (alias m))
  else if info =? 4 then out (sp_data (heap m))
  else if info =? 5 then out (sp_size (heap m))
  else if info =? 6 then out (Z.min totalPhysicalMemory (sp_size (heap m)))
  else if info =? 7 then
    let! stackSize := main_stack_size s in
    out (u64 (GetUserMemoryUsage m stackSize + GetSystemResourceUsage m (npdm_systemResourceSize npdm)))
  else if info =? 8 then out 0
  else if info =? 11 then out ticks
  else if info =? 12 then out (sp_data (base m))
  else if info =? 13 then out (sp_size (base m))
  else if info =? 14 then out (sp_data (stack m))
  else if info =? 15 then out (sp_size (stack m))
  else if info =? 16 then out (npdm_systemResourceSize npdm)
  else if info =? 17 then out (GetSystemResourceUsage m (npdm_systemResourceSize npdm))
  else if info =? 18 then out (npdm_programId npdm)
  else if info =? 19 then out 0
  else if info =? 20 then out (k_tlsExceptionContext s)
  else if info =? 21 then out (u64 (Z.min totalPhysicalMemory (sp_size (heap m)) - npdm_systemResourceSize npdm))
  else if info =? 22 then let! stackSize := main_stack_size s in out (GetUserMemoryUsage m stackSize)
  else ok None.

Definition svc_GetInfo (ticks : Z) (s : Kernel) (r : gpr) : svc_result :=
  let! out := info_value ticks (w r 1) s in
  match out with
  | Some out => finish s (set_x 1 out r) Success
  | None => finish s r result_InvalidEnumValue
  end.

(** ** Physical memory *)

Definition svc_MapPhysicalMemory (env : host_env) (s : Kernel) (r : gpr) : svc_result :=
  let pointer := x r 0 in
  let size := x r 1 in
  if negb (IsPageAligned pointer) then finish s r result_InvalidAddress
  else if (size =? 0) || negb (IsPageAligned size) then finish s r result_InvalidSize
  else if negb (contains_span (alias (k_memory s)) (mk_span pointer size)) then finish s r result_InvalidMemoryRegion
  else
    let! (s, _, _) := NewHandle (fun _ => KPrivateMemory_new env (mk_span pointer size) (mk_perm true true false) states_Heap) s in
    finish s r Success.

(** One turn of the loop for the object that contains [pointer]. *)
Definition unmap_object (env : host_env) (item handle : Z) (m : KPrivateMemory) (pointer size : Z) (s : Kernel) : M Kernel :=
  let guest := pm_guest m in
  if pm_memoryState m =? states_Heap then
    if pointer <=? sp_data guest then
      if sp_size guest <=? size then
        let! s := KPrivateMemory_Resize env item m 0 s in CloseHandle handle s
      else
        KPrivateMemory_Remap env m
          (mk_span (u64 (pointer + size)) (u64 (u64 (u64 (pointer + sp_size guest) - sp_data guest) - size))) s
    else KPrivateMemory_Resize env item m (u64 (pointer - sp_data guest)) s
  else ok s.

(** Every turn moves [pointer] forward, so [fuel] bounds the number of turns. *)
Fixpoint unmap_loop (env : host_env) (fuel : nat) (pointer size end_ : Z) (s : Kernel) : M Kernel :=
  if pointer <? end_ then
    match fuel with
    | O => fail (Suspended "UnmapPhysicalMemory: looping")
    | S fuel =>
        match GetMemoryObject pointer s with
        | Some (item, handle) =>
            match get_object s item with
            | Some (OPrivateMemory m) =>
                let initialSize := sp_size (pm_guest m) in
                let! s := unmap_object env item handle m pointer size s in
                unmap_loop env fuel (u64 (pointer + initialSize)) (u64 (size - initialSize)) end_ s
            | _ => fail (Undefined "UnmapPhysicalMemory: static_pointer_cast of another memory object")
            end
        | None =>
            match Get (k_memory s) pointer with
            | Some block => unmap_loop env fuel (u64 (pointer + c_size block)) (u64 (size - c_size block)) end_ s
            | None => fail (Undefined "UnmapPhysicalMemory: no block")
            end
        end
    end
  else ok s.

Definition svc_UnmapPhysicalMemory (env : host_env) (fuel : nat) (s : Kernel) (r : gpr) : svc_result :=
  let pointer := x r 0 in
  let size := x r 1 in
  if negb (IsPageAligned pointer) then finish s r result_InvalidAddress
  else if (size =? 0) || negb (IsPageAligned size) then finish s r result_InvalidSize
  else if negb (contains_span (alias (k_memory s)) (mk_span pointer size)) then finish s r result_InvalidMemoryRegion
  else
    let! s := unmap_loop env fuel pointer size (u64 (pointer + size)) s in
    finish s r Success.

(** ** Thread activity and context *)

Definition svc_SetThreadActivity (cur : Z) (s : Kernel) (r : gpr) : svc_result :=
  let activity := w r 1 in
  if negb ((activity =? 0) || (activity =? 1)) then finish s r result_InvalidEnumValue
  else
    let threadHandle := w r 0 in
    or_invalid_handle
      (let! thread := GetHandle cur KT_KThread threadHandle s in
       if thread =? cur then finish s r result_Busy
       else
         let t := thr (k_sched s) thread in
         if activity =? 0 then
           if t_running t && t_isPaused t
           then let! s := on_schedM (ResumeThread (Some cur) thread) s in finish s r Success
           else finish s r result_InvalidState
         else
           if t_running t && negb (t_isPaused t)
           then let! s := on_schedM (PauseThread thread) s in finish s r Success
           else finish s r result_InvalidState) s r.

(** The part of a thread's context the emulator keeps. *)
Record thread_context : Type := mk_context {
  cx_gpr : list Z; cx_fpr : list Z; cx_fpcr : Z; cx_fpsr : Z; cx_tpidrEl0 : Z }.

Definition zero_ram (a size : Z) (ram : guest_memory) : guest_memory :=
  fun y => if (a <=? y) && (y <? a + size) then 0 else ram y.

Definition write_u128 (a v : Z) (ram : guest_memory) : guest_memory :=
  write_u64 (a + 8) (bits 64 64 v) (write_u64 a (bits 0 64 v) ram).

(** Writes the elements of a list at a stride. *)
Fixpoint write_each (write : Z -> Z -> guest_memory -> guest_memory) (stride a : Z) (l : list Z) (ram : guest_memory)
    : guest_memory :=
  match l with
  | [] => ram
  | v :: l => write_each write stride (a + stride) l (write a v ram)
  end.

(** The layout of 0x320 bytes: registers, then at 0x110 the vector registers and the control
    registers behind them. *)
Definition write_context (a : Z) (c : thread_context) (ram : guest_memory) : guest_memory :=
  let ram := zero_ram a 0x320 ram in
  let ram := write_each write_u64 8 a (cx_gpr c) ram in
  let ram := write_each write_u128 16 (a + 0x110) (cx_fpr c) ram in
  let ram := write_u32 (a + 0x310) (cx_fpcr c) ram in
  let ram := write_u32 (a + 0x314) (cx_fpsr c) ram in
  write_u64 (a + 0x318) (cx_tpidrEl0 c) ram.

(** [context] gives the saved context of a thread. *)
Definition svc_GetThreadContext3 (context : Z -> thread_context) (cur : Z) (s : Kernel) (r : gpr) : svc_result :=
  let threadHandle := w r 1 in
  or_invalid_handle
    (let! thread := GetHandle cur KT_KThread threadHandle s in
     if thread =? cur then finish s r result_Busy
     else if negb (t_isPaused (thr (k_sched s) thread)) then finish s r result_InvalidState
     else finish (set_k_ram (write_context (x r 0) (context thread) (k_ram s)) s) r Success) s r.

(** ** Address arbiter *)

Definition arbitration_type (v : Z) : option ArbitrationType :=
  if v =? 0 then Some WaitIfLessThan else if v =? 1 then Some DecrementAndWaitIfLessThan
  else if v =? 2 then Some WaitIfEqual else None.

Definition svc_WaitForAddress (now cur : Z) (s : Kernel) (r : gpr) : svc_result :=
  let address := x r 0 in
  if negb (IsWordAligned address) then finish s r result_InvalidAddress
  else
    match arbitration_type (w r 1) with
    | None => finish s r result_InvalidEnumValue
    | Some type =>
        let value := w r 2 in
        let! (s, o) := WaitForAddress now cur address value type s in
        match o with
        | Returned result => finish s r result
        | Waiting => ok (s, r, Blocked)
        end
    end.

(** The continuations: an expired timed wait, and a wake-up. *)
Definition svc_WaitForAddress_timeout (cur : Z) (s : Kernel) (r : gpr) : svc_result :=
  let! (s, o) := WaitForAddress_timeout cur (x r 0) s in
  ok (s, set_w 0 (match o with Returned result => result | Waiting => Success end) r, Blocked).
Definition svc_WaitForAddress_resume (s : Kernel) (r : gpr) : svc_result := finish s r Success.

Definition signal_type (v : Z) : option SignalType :=
  if v =? 0 then Some Signal else if v =? 1 then Some SignalAndIncrementIfEqual
  else if v =? 2 then Some SignalAndModifyBasedOnWaitingThreadCountIfEqual else None.

Definition svc_SignalToAddress (cur : Z) (s : Kernel) (r : gpr) : svc_result :=
  let address := x r 0 in
  if negb (IsWordAligned address) then finish s r result_InvalidAddress
  else
    match signal_type (w r 1) with
    | None => finish s r result_InvalidEnumValue
    | Some type =>
        let value := w r 2 in
        let count := i32 (w r 3) in
        let! (s, result) := SignalToAddress cur address value count type s in
        finish s r result
    end.

(** ** Dispatch *)

Inductive svc_id : Type :=
| SetHeapSize | SetMemoryAttribute | MapMemory | UnmapMemory | QueryMemory | ExitProcess | SvcCreateThread
| StartThread | ExitThread | SleepThread | GetThreadPriority | SetThreadPriority | GetThreadCoreMask
| SetThreadCoreMask | GetCurrentProcessorNumber | ClearEvent | MapSharedMemory | UnmapSharedMemory
| CreateTransferMemory | SvcCloseHandle | ResetSignal | WaitSynchronization | CancelSynchronization
| ArbitrateLock | ArbitrateUnlock | WaitProcessWideKeyAtomic | SignalProcessWideKey | GetSystemTick
| ConnectToNamedPort | SendSyncRequest | GetThreadId | Break | OutputDebugString | GetInfo
| MapPhysicalMemory | UnmapPhysicalMemory | SetThreadActivity | GetThreadContext3 | SvcWaitForAddress
| SvcSignalToAddress.

(** The table of 0x80 entries; [None] is an empty descriptor. *)
Definition SvcTable (id : Z) : option svc_id :=
  match id with
  | 0x01 => Some SetHeapSize | 0x03 => Some SetMemoryAttribute | 0x04 => Some MapMemory
  | 0x05 => Some UnmapMemory | 0x06 => Some QueryMemory | 0x07 => Some ExitProcess
  | 0x08 => Some SvcCreateThread | 0x09 => Some StartThread | 0x0A => Some ExitThread
  | 0x0B => Some SleepThread | 0x0C => Some GetThreadPriority | 0x0D => Some SetThreadPriority
  | 0x0E => Some GetThreadCoreMask | 0x0F => Some SetThreadCoreMask
  | 0x10 => Some GetCurrentProcessorNumber | 0x12 => Some ClearEvent | 0x13 => Some MapSharedMemory
  | 0x14 => Some UnmapSharedMemory | 0x15 => Some CreateTransferMemory | 0x16 => Some SvcCloseHandle
  | 0x17 => Some ResetSignal | 0x18 => Some WaitSynchronization | 0x19 => Some CancelSynchronization
  | 0x1A => Some ArbitrateLock | 0x1B => Some ArbitrateUnlock | 0x1C => Some WaitProcessWideKeyAtomic
  | 0x1D => Some SignalProcessWideKey | 0x1E => Some GetSystemTick | 0x1F => Some ConnectToNamedPort
  | 0x21 => Some SendSyncRequest | 0x25 => Some GetThreadId | 0x26 => Some Break
  | 0x27 => Some OutputDebugString | 0x29 => Some GetInfo | 0x2C => Some MapPhysicalMemory
  | 0x2D => Some UnmapPhysicalMemory | 0x32 => Some SetThreadActivity | 0x33 => Some GetThreadContext3
  | 0x34 => Some SvcWaitForAddress | 0x35 => Some SvcSignalToAddress
  | _ => None
  end.

(** What a handler needs from its surroundings: the host, clocks, the service manager and the
    saved contexts of threads. *)
Record svc_env : Type := mk_svc_env {
  se_host : host_env; se_now : Z; se_cntvct : Z; se_cntfrq : Z; se_sm : Z;
  se_request : Z -> Kernel -> M Kernel; se_context : Z -> thread_context; se_fuel : nat }.

Definition run_svc (e : svc_env) (cur : Z) (id : svc_id) (s : Kernel) (r : gpr) : svc_result :=
  match id with
  | SetHeapSize => svc_SetHeapSize (se_host e) s r
  | SetMemoryAttribute => svc_SetMemoryAttribute s r
  | MapMemory => svc_MapMemory (se_host e) s r
  | UnmapMemory => svc_UnmapMemory s r
  | QueryMemory => svc_QueryMemory s r
  | ExitProcess => svc_ExitProcess s r
  | SvcCreateThread => svc_CreateThread (se_host e) s r
  | StartThread => svc_StartThread (se_now e) cur s r
  | ExitThread => svc_ExitThread s r
  | SleepThread => svc_SleepThread (se_now e) cur s r
  | GetThreadPriority => svc_GetThreadPriority cur s r
  | SetThreadPriority => svc_SetThreadPriority cur s r
  | GetThreadCoreMask => svc_GetThreadCoreMask cur s r
  | SetThreadCoreMask => svc_SetThreadCoreMask (se_now e) cur s r
  | GetCurrentProcessorNumber => svc_GetCurrentProcessorNumber cur s r
  | ClearEvent => svc_ClearEvent s r
  | MapSharedMemory => svc_MapSharedMemory (se_host e) cur s r
  | UnmapSharedMemory => svc_UnmapSharedMemory (se_host e) cur s r
  | CreateTransferMemory => svc_CreateTransferMemory (se_host e) s r
  | SvcCloseHandle => svc_CloseHandle s r
  | ResetSignal => svc_ResetSignal s r
  | WaitSynchronization => let! (s, r, d, _) := svc_WaitSynchronization (se_now e) cur s r in ok (s, r, d)
  | CancelSynchronization => svc_CancelSynchronization cur s r
  | ArbitrateLock => svc_ArbitrateLock (se_now e) cur s r
  | ArbitrateUnlock => svc_ArbitrateUnlock cur s r
  | WaitProcessWideKeyAtomic => svc_WaitProcessWideKeyAtomic (se_now e) cur s r
  | SignalProcessWideKey => svc_SignalProcessWideKey cur s r
  | GetSystemTick => svc_GetSystemTick (se_cntvct e) (se_cntfrq e) s r
  | ConnectToNamedPort => svc_ConnectToNamedPort (se_sm e) s r
  | SendSyncRequest => svc_SendSyncRequest (se_request e) (se_now e) cur s r
  | GetThreadId => svc_GetThreadId cur s r
  | Break => match svc_Break cur s r with
             | (s, Some r) => ok (s, r, Done)
             | (_, None) => fail (Throw "Break: longjmp")
             end
  | OutputDebugString => svc_OutputDebugString s r
  | GetInfo => svc_GetInfo (se_now e) s r
  | MapPhysicalMemory => svc_MapPhysicalMemory (se_host e) s r
  | UnmapPhysicalMemory => svc_UnmapPhysicalMemory (se_host e) (se_fuel e) s r
  | SetThreadActivity => svc_SetThreadActivity cur s r
  | GetThreadContext3 => svc_GetThreadContext3 (se_context e) cur s r
  | SvcWaitForAddress => svc_WaitForAddress (se_now e) cur s r
  | SvcSignalToAddress => svc_SignalToAddress cur s r
  end.

(** How [SvcHandler] leaves: back to the guest or to a wait of the scheduler, or unwinding the
    thread by an exception, with or without killing the process. *)
Inductive handler_end : Type :=
| Resumed (s : Kernel) (r : gpr) (e : svc_end)
| Unwound (f : fault) (killed : bool).

(** Every exception kills the process unless the main thread raised it; leaving the thread by
    [ExitThread] kills nothing, and a suspended call is not an exception. *)
Definition unwind_kills (f : fault) (thread_id : Z) : bool :=
  match f with
  | Suspended _ => false
  | _ => negb (thread_id =? 0) && negb (bool_decide (f = Throw "ExitException: ExitThread"))
  end.

(** One turn of the loop on a pending yield. *)
Definition svc_yield (now cur : Z) (s : Kernel) (r : gpr) : svc_result :=
  if t_YieldPending (thr (k_sched s) cur) then
    let! s := on_schedM (Rotate now cur) s in
    ok (on_sched (set_thr cur (set_t_YieldPending false)) s, r, Blocked)
  else ok (s, r, Done).

Definition SvcHandler (e : svc_env) (cur svcId : Z) (s : Kernel) (r : gpr) : handler_end :=
  let body :=
    match SvcTable svcId with
    | Some id =>
        let! (s, r, d) := run_svc e cur id s r in
        match d with
        | Done => svc_yield (se_now e) cur s r
        | Blocked => ok (s, r, Blocked)
        end
    | None => fail (Throw "Unimplemented SVC")
    end in
  match body with
  | inr (s, r, d) => Resumed s r d
  | inl f => Unwound f (unwind_kills f (t_id (thr (k_sched s) cur)))
  end.

(** ** Registers *)

Lemma w_set_w i v r : w (set_w i v r) i = u32 v.
Proof. unfold w, set_w, set_x. rewrite Z.eqb_refl. apply wrap_idemp. Qed.
Lemma x_set_x i v r : x (set_x i v r) i = v.
Proof. unfold x, set_x. by rewrite Z.eqb_refl. Qed.
Lemma x_set_x_ne i j v r : i <> j -> x (set_x i v r) j = x r j.
Proof. intros. unfold x, set_x. destruct (Z.eqb_spec j i); [lia|done]. Qed.
Lemma w_set_x_ne i j v r : i <> j -> w (set_x i v r) j = w r j.
Proof. intros. unfold w, set_x. destruct (Z.eqb_spec j i); [lia|done]. Qed.
Lemma w_set_w_ne i j v r : i <> j -> w (set_w i v r) j = w r j.
Proof. apply w_set_x_ne. Qed.
Lemma x_set_w_ne i j v r : i <> j -> x (set_w i v r) j = x r j.
Proof. apply x_set_x_ne. Qed.

(** The handlers that only report an error leave the state alone. *)
Lemma finish_ok s r v : exists r', finish s r v = inr (s, r', Done) /\ w r' 0 = u32 v.
Proof. eexists. split; [reflexivity|apply w_set_w]. Qed.

(** ** Handles that no longer resolve *)

(** A closed handle is not reported as invalid by the calls with a typed lookup: [StartThread],
    [GetThreadPriority], [SetThreadActivity] and the like leave by an exception that kills the
    process, while [ClearEvent] and [ResetSignal] answer [InvalidHandle]. *)
Theorem closed_handle_escapes now cur handle s r :
  w r 0 = handle -> handle <> threadSelf -> handles_at handle s = inr None ->
  svc_StartThread now cur s r = inl (Throw "GetHandle was called with a deleted handle") /\
  svc_CancelSynchronization cur s r = inl (Throw "GetHandle was called with a deleted handle") /\
  svc_ClearEvent s r = finish s r result_InvalidHandle /\
  svc_ResetSignal s r = finish s r result_InvalidHandle.
Proof.
  intros <- Hne Hh.
  assert (E : GetHandle cur KT_KThread (w r 0) s = inl (Throw "GetHandle was called with a deleted handle")).
  { unfold GetHandle. apply Z.eqb_neq in Hne. rewrite Hne. simpl. by rewrite Hh. }
  assert (E' : GetHandle_any (w r 0) s = inl Throw_out_of_range) by (unfold GetHandle_any; by rewrite Hh).
  unfold svc_StartThread, svc_CancelSynchronization, svc_ClearEvent, svc_ResetSignal, or_invalid_handle.
  rewrite E, E'. done.
Qed.

(** [ResetSignal] reports success for an event that is not signalled. *)
Theorem ResetSignal_hides_failure ref o s r :
  handles_at (w r 0) s = inr (Some ref) -> get_object s ref = Some (OEvent o) -> signalled o = false ->
  exists r', svc_ResetSignal s r = inr (s, r', Done) /\ w r' 0 = Success.
Proof.
  intros Hh Ho Hs. unfold svc_ResetSignal, GetHandle_any. rewrite Hh. simpl. rewrite Ho. simpl.
  unfold KSyncObject_ResetSignal, sync_object. rewrite Ho. simpl. rewrite Hs. simpl.
  eexists. split; [reflexivity|]. by rewrite w_set_w.
Qed.

(** ** Priorities *)

Lemma set_priority_loop fuel t p sch :
  swap_while (S (S fuel)) (fun sch => Z.min (prio sch t) p) (fun _ => p) t sch =
  if p <=? prio sch t then sch else set_thr t (set_t_priority p) sch.
Proof.
  cbn [swap_while]. destruct (Z.leb_spec p (prio sch t)).
  - rewrite Z.min_r by lia. by rewrite Z.eqb_refl.
  - rewrite Z.min_l by lia. destruct (Z.eqb_spec (prio sch t) p); [lia|]. rewrite Z.eqb_refl.
    rewrite prio_set_thr_eq, Z.min_id, Z.eqb_refl. done.
Qed.

(** A thread that does not wait for a mutex, on a core, whose priority is valid. *)
Lemma SetThreadPriority_result cur thread s r :
  let p := i8 (w r 1) in
  GetHandle cur KT_KThread (w r 0) s = inr thread -> cores_ok (k_sched s) -> placed (k_sched s) thread ->
  Priority_Valid (npdm_priority (k_npdm s)) p = true -> t_waitThread (thr (k_sched s) thread) = None ->
  prio (k_sched s) thread <> p ->
  exists s' r', svc_SetThreadPriority cur s r = inr (s', r', Done) /\ w r' 0 = Success /\
    t_basePriority (thr (k_sched s') thread) = p /\ prio (k_sched s') thread = Z.max (prio (k_sched s) thread) p.
Proof.
  intros p Hh Hok Hpl Hv Hwt Hne. unfold svc_SetThreadPriority. fold p. rewrite Hv. cbn [negb].
  rewrite Hh. cbn [bindM]. apply Z.eqb_neq in Hne. rewrite Hne. cbn [negb]. unfold on_sched.
  cbn [k_sched set_k_sched]. unfold swap_fuel. rewrite set_priority_loop.
  set (sch1 := set_thr thread (set_t_basePriority p) (k_sched s)).
  assert (T1 : thr sch1 thread = set_t_basePriority p (thr (k_sched s) thread)) by (unfold sch1; rewrite thr_set_thr; by case_decide).
  set (sch2 := if p <=? prio sch1 thread then sch1 else set_thr thread (set_t_priority p) sch1).
  assert (H2 : cores_ok sch2 /\ placed sch2 thread /\ t_basePriority (thr sch2 thread) = p /\
    t_waitThread (thr sch2 thread) = None /\ prio sch2 thread = Z.max (prio (k_sched s) thread) p).
  { assert (Hp1 : prio sch1 thread = prio (k_sched s) thread) by (unfold prio; by rewrite T1).
    unfold sch2, placed in *. rewrite Hp1. destruct (Z.leb_spec p (prio (k_sched s) thread)).
    - rewrite Hp1, T1. simpl. repeat (split; [done|]). lia.
    - rewrite prio_set_thr_eq, thr_set_thr. case_decide; [|done]. rewrite T1. simpl. repeat (split; [done|]). lia. }
  destruct H2 as (O2 & P2 & B2 & W2 & M2).
  destruct (UpdatePriority_total thread sch2 O2 P2) as (sch3 & E3 & S3 & _ & Q3).
  unfold or_invalid_handle, catch_out_of_range, on_schedM. cbn [k_sched set_k_sched]. rewrite E3. cbn [bindM ok].
  cbn [k_sched set_k_sched]. unfold UpdatePriorityInheritance. rewrite (sw_waitThread _ _ S3), W2. cbn [bindM ok].
  eexists _, _. split; [reflexivity|]. split; [by rewrite w_set_w|]. cbn [k_sched set_k_sched].
  by rewrite (sw_base _ _ S3), Q3.
Qed.

(** A request for a more urgent priority only changes the base priority: the loop that should
    store the new priority exits before its first exchange. *)
Theorem SetThreadPriority_never_raises cur thread s r :
  let p := i8 (w r 1) in
  GetHandle cur KT_KThread (w r 0) s = inr thread -> cores_ok (k_sched s) -> placed (k_sched s) thread ->
  Priority_Valid (npdm_priority (k_npdm s)) p = true -> t_waitThread (thr (k_sched s) thread) = None ->
  p < prio (k_sched s) thread ->
  exists s' r', svc_SetThreadPriority cur s r = inr (s', r', Done) /\ w r' 0 = Success /\
    t_basePriority (thr (k_sched s') thread) = p /\ prio (k_sched s') thread = prio (k_sched s) thread.
Proof.
  intros p Hh Hok Hpl Hv Hwt Hlt.
  destruct (SetThreadPriority_result cur thread s r Hh Hok Hpl Hv Hwt) as (s' & r' & E & H1 & H2 & H3); [lia|].
  fold p in H2, H3. exists s', r'. rewrite Z.max_l in H3 by lia. done.
Qed.

(** ** Memory calls *)

(** What [Get] reports about an address of known attributes. *)
Lemma Get_of_view m a at' :
  vm_ok m -> view m a = Some at' -> exists c, Get m a = Some c /\ attrs_of c = at'.
Proof.
  intros Hm Hv. rewrite <- query_view in Hv by done. unfold query in Hv.
  destruct (Get m a) as [c|]; [|done]. exists c. split; [done|]. simpl in Hv. congruence.
Qed.

(** The heap is resized in place: the call returns its base, the object has the new size, and
    exactly the difference between the two sizes changes, becoming heap or unmapped. *)
Definition heap_after (m : KPrivateMemory) (size : Z) (f : Z -> option attrs) : Z -> option attrs :=
  let g := pm_guest m in
  if size <? sp_size g
  then spec_set f (sp_data g + size) (sp_data g + sp_size g) (no_permission, states_Unmapped, 0)
  else spec_set f (sp_data g + sp_size g) (sp_data g + size) (pm_permission m, pm_memoryState m, 0).

Lemma Resize_ok env ref m n s :
  kernel_ok s -> get_object s ref = Some (OPrivateMemory m) -> in_base s (mk_span (sp_data (pm_guest m)) n) ->
  call_ok env (K_mprotect (sp_data (pm_guest m)) n PROT_RWX) = true ->
  exists s', KPrivateMemory_Resize env ref m n s = inr s' /\
    get_object s' ref = Some (OPrivateMemory (mk_private (mk_span (sp_data (pm_guest m)) n) (pm_permission m) (pm_memoryState m))) /\
    k_handles s' = k_handles s /\ k_objects s' = <[ref := OPrivateMemory (mk_private (mk_span (sp_data (pm_guest m)) n)
      (pm_permission m) (pm_memoryState m))]> (k_objects s) /\ k_next s' = k_next s /\
    same_regions (k_memory s) (k_memory s') /\ vm_ok (k_memory s') /\
    forall a, view (k_memory s') a = heap_after m n (view (k_memory s)) a.
Proof.
  intros Hk Ho Hn Hc. pose proof (ko_guest _ Hk _ _ Ho) as Hg. simpl in Hg. pose proof (ko_base _ Hk).
  unfold in_base in Hg, Hn. simpl in Hn. unfold KPrivateMemory_Resize, host_call. rewrite Hc. cbn [bindM ok].
  set (s1 := emit_call _ s). assert (Hk1 : kernel_ok s1) by (by apply kernel_ok_emit). unfold heap_after.
  destruct (Z.ltb_spec n (sp_size (pm_guest m))); [|destruct (Z.ltb_spec (sp_size (pm_guest m)) n)].
  - destruct (insert_chunk_ok (mk_chunk (u64 (sp_data (pm_guest m) + n)) (sp_size (pm_guest m) - n) no_permission
      states_Unmapped 0) s1 Hk1) as (mm & -> & Hm & Hr & Hv).
    { unfold chunk_in_space. simpl. rewrite wrap_small by lia. lia. }
    cbn [bindM ok]. eexists. split; [reflexivity|]. split; [apply lookup_insert_eq|].
    do 5 (split; [done|]). intros a. simpl. rewrite Hv. simpl. rewrite wrap_small by lia. unfold spec_set. zcases; done.
  - destruct (insert_chunk_ok (mk_chunk (u64 (sp_data (pm_guest m) + sp_size (pm_guest m))) (n - sp_size (pm_guest m))
      (pm_permission m) (pm_memoryState m) 0) s1 Hk1) as (mm & -> & Hm & Hr & Hv).
    { unfold chunk_in_space. simpl. rewrite wrap_small by lia. lia. }
    cbn [bindM ok]. eexists. split; [reflexivity|]. split; [apply lookup_insert_eq|].
    do 5 (split; [done|]). intros a. simpl. rewrite Hv. simpl. rewrite wrap_small by lia. unfold spec_set. zcases; done.
  - cbn [bindM ok]. eexists. split; [reflexivity|]. split; [apply lookup_insert_eq|].
    do 4 (split; [done|]). split; [apply Hk|]. intros a. simpl. unfold spec_set. zcases; done.
Qed.

(** [SetHeapSize] resizes the heap in place.  For a multiple of 2 MiB that fits the heap
    region the call succeeds and returns the heap's base; the heap object has the new size, the
    addresses between the old and the new end become heap when growing and unmapped when
    shrinking, and no other address changes.  Any other size is refused without effect. *)
Theorem SetHeapSize_resizes env ref m s r :
  let size := w r 1 in
  kernel_ok s -> k_heap s = Some ref -> get_object s ref = Some (OPrivateMemory m) ->
  in_base s (mk_span (sp_data (pm_guest m)) size) ->
  (forall c, call_ok env c = true) ->
  exists s' r', svc_SetHeapSize env s r = inr (s', r', Done) /\
    if IsAligned size 0x200000 then
      w r' 0 = Success /\ x r' 1 = sp_data (pm_guest m) /\
      get_object s' ref = Some (OPrivateMemory (mk_private (mk_span (sp_data (pm_guest m)) size)
                                                  (pm_permission m) (pm_memoryState m))) /\
      forall a, query (k_memory s') a = heap_after m size (query (k_memory s)) a
    else w r' 0 = result_InvalidSize /\ s' = s.
Proof.
  intros size Hk Hh Ho Hb He. unfold svc_SetHeapSize. fold size. destruct (IsAligned size 0x200000); cbn [negb].
  - rewrite Hh, Ho. destruct (Resize_ok env ref m size s Hk Ho Hb (He _)) as (s' & E & Ho' & _ & _ & _ & _ & Hm & Hv).
    rewrite E. cbn [bindM ok]. eexists _, _. split; [reflexivity|]. split; [done|]. split; [by rewrite x_set_x|].
    split; [done|]. intros a. rewrite query_view, Hv by done. pose proof (ko_vm _ Hk). unfold heap_after, spec_set.
    destruct (_ <? _), (_ && _); try done; by rewrite query_view.
  - eexists _, _. split; [reflexivity|]. split; [|done]. rewrite w_set_x_ne, w_set_w by lia. done.
Qed.


Definition regs (l : list (Z * Z)) : gpr := fold_left (fun r p => set_x p.1 p.2 r) l (fun _ => 0).

Definition all_ok : host_env := mk_env (fun _ => true) (fun _ => Some 0x7000000000).

(** A kernel whose heap is the object mapped at 0x800200000. *)
Definition sample_heap : Kernel := set_k_heap (Some 1) sample_mapped.

Lemma sample_heap_ok : kernel_ok sample_heap.
Proof. destruct sample_mapped_ok as [H1 H2 H3 H4]. by split. Qed.

Definition sample_heap_object : KPrivateMemory :=
  mk_private (mk_span 0x800200000 0x2000) (mk_perm true true false) states_Heap.

Lemma SetHeapSize_resizes_witness :
  exists s' r', svc_SetHeapSize all_ok sample_heap (regs [(1, 0x400000)]) = inr (s', r', Done) /\
    x r' 1 = 0x800200000 /\ query (k_memory s') 0x8003FF000 = Some (mk_perm true true false, states_Heap, 0).
Proof.
  destruct (SetHeapSize_resizes all_ok 1 sample_heap_object sample_heap (regs [(1, 0x400000)]) sample_heap_ok)
    as (s' & r' & H1 & _ & H2 & _ & H3); [reflexivity|vm_compute; reflexivity|vm_compute; intuition congruence|reflexivity|].
  exists s', r'. split; [exact H1|]. split; [exact H2|]. rewrite H3. vm_compute. reflexivity.
Defined.

(** ** Mapping and unmapping *)

Lemma entry_guest_fresh s s' l n o :
  k_objects s' = <[n := o]> (k_objects s) -> Forall (fun e => e <> Some n) l ->
  Forall (fun e => entry_guest s' e = entry_guest s e) l.
Proof.
  intros Ho Hl. eapply Forall_impl; [exact Hl|]. intros [r|] Hr; [|done]. simpl. unfold get_object.
  rewrite Ho, lookup_insert_ne by congruence. done.
Qed.

Lemma find_memory_ext s s' ptr i l :
  Forall (fun e => entry_guest s' e = entry_guest s e) l -> find_memory s' ptr i l = find_memory s ptr i l.
Proof.
  intros H. revert i. induction H as [|e l He _ IH]; intros i; [done|]. simpl. rewrite He.
  destruct (entry_guest s e) as [[ref g]|]; [|apply IH]. destruct (contains_ptr g ptr); [done|apply IH].
Qed.

Lemma find_memory_app s ptr i l1 l2 :
  find_memory s ptr i (l1 ++ l2) =
  match find_memory s ptr i l1 with
  | Some p => Some p
  | None => find_memory s ptr (i + Z.of_nat (length l1)) l2
  end.
Proof.
  revert i. induction l1 as [|e l1 IH]; intros i; simpl; [by rewrite Z.add_0_r|].
  replace (i + Z.of_nat (S (length l1))) with (i + 1 + Z.of_nat (length l1)) by lia.
  destruct (entry_guest s e) as [[ref g]|]; [|apply IH]. destruct (contains_ptr g ptr); [done|apply IH].
Qed.

(** Two states that show the same memory objects in the same table. *)
Definition same_objects (s s' : Kernel) : Prop :=
  k_handles s' = k_handles s /\ forall e, entry_guest s' e = entry_guest s e.

Lemma GetMemoryObject_same s s' ptr : same_objects s s' -> GetMemoryObject ptr s' = GetMemoryObject ptr s.
Proof. intros [Hh He]. unfold GetMemoryObject. rewrite Hh. apply find_memory_ext. by apply Forall_forall. Qed.

(** Changing the permission of a range of a private object. *)
Lemma UpdatePermission_private ref m src size p s :
  kernel_ok s -> get_object s ref = Some (OPrivateMemory m) -> pm_memoryState m <> states_CodeStatic ->
  sp_data (pm_guest m) <= src -> src + size <= sp_data (pm_guest m) + sp_size (pm_guest m) -> 0 <= size ->
  IsPageAligned src = true ->
  exists s', UpdatePermission ref (mk_span src size) p s = inr s' /\ kernel_ok s' /\
    same_regions (k_memory s) (k_memory s') /\ same_objects s s' /\ k_next s' = k_next s /\ k_ram s' = k_ram s /\
    (forall l r, referenced (set_k_handles l s') r = referenced (set_k_handles l s) r) /\
    (forall r, get_object s' r = get_object s r) /\
    forall a, view (k_memory s') a = spec_set (view (k_memory s)) src (src + size) (p, pm_memoryState m, 0) a.
Proof.
  intros Hk Ho Hst Hlo Hhi Hsz Hal. unfold UpdatePermission. rewrite Ho. unfold KPrivateMemory_UpdatePermission.
  pose proof (ko_guest _ Hk _ _ Ho) as Hg. simpl in Hg. pose proof (ko_base _ Hk). unfold in_base in Hg. cbn [sp_data sp_size].
  rewrite span_end_small by lia. unfold clamp. destruct (Z.ltb_spec src (sp_data (pm_guest m))); [lia|].
  destruct (Z.ltb_spec (sp_data (pm_guest m) + sp_size (pm_guest m)) src); [lia|].
  rewrite Hal, andb_false_r, wrap_small by lia. apply Z.eqb_neq in Hst. rewrite Hst. cbn [andb].
  rewrite Z.min_l by lia. assert (Hm : mk_private (pm_guest m) (pm_permission m) (pm_memoryState m) = m) by (by destruct m).
  rewrite Hm. set (s1 := put_object ref (OPrivateMemory m) s).
  assert (Hget : forall r, get_object s1 r = get_object s r).
  { intros r. unfold get_object, s1. simpl. destruct (decide (r = ref)) as [->|]; [by rewrite lookup_insert_eq|].
    by rewrite lookup_insert_ne. }
  assert (Hk1 : kernel_ok s1).
  { apply kernel_ok_put; [done|exact (ko_guest _ Hk _ _ Ho)|]. apply (ko_fresh _ Hk). by eexists. }
  destruct (insert_chunk_ok (mk_chunk src size p (pm_memoryState m) 0) s1 Hk1) as (mm & -> & Hmm & Hr & Hv).
  { unfold chunk_in_space. simpl. lia. }
  eexists. split; [reflexivity|]. split; [by apply kernel_ok_memory|]. split; [done|].
  split; [split; [done|]; intros [r|]; simpl; [|done]; change (get_object (set_k_memory mm s1) r) with (get_object s1 r);
    by rewrite Hget|]. do 3 (split; [done|]). split; [exact Hget|exact Hv].
Qed.

(** The situation in which [MapMemory] is used: the source lies in a private object and has one
    permission and a state that allows mapping, the destination is an unmapped part of the stack
    region that belongs to no object. *)
Record mappable (s : Kernel) (dst src size ref h : Z) (m : KPrivateMemory) (p : Permission) : Prop := mk_mappable {
  mp_ok : kernel_ok s;
  mp_aligned : IsPageAligned dst = true /\ IsPageAligned src = true /\ IsPageAligned size = true;
  mp_size : 0 < size;
  mp_stack : contains_span (stack (k_memory s)) (mk_span dst size) = true;
  mp_dst : in_base s (mk_span dst size);
  mp_free : forall e r g, e ∈ k_handles s -> entry_guest s e = Some (r, g) -> contains_ptr g dst = false;
  mp_unmapped : forall a, dst <= a < dst + size -> view (k_memory s) a = Some (no_permission, states_Unmapped, 0);
  mp_owner : GetMemoryObject src s = Some (ref, h);
  mp_object : get_object s ref = Some (OPrivateMemory m);
  mp_inside : sp_data (pm_guest m) <= src /\ src + size <= sp_data (pm_guest m) + sp_size (pm_guest m);
  mp_view : forall a, src <= a < src + size -> view (k_memory s) a = Some (p, pm_memoryState m, 0);
  mp_state : mapAllowed (pm_memoryState m) = true /\ pm_memoryState m <> states_CodeStatic;
  mp_fresh : referenced s (k_next s) = false;
  mp_room : table_room s }.

(** The destination and the source do not overlap. *)
Lemma mappable_disjoint s dst src size ref h m p a :
  mappable s dst src size ref h m p -> dst <= a < dst + size -> src <= a < src + size -> False.
Proof.
  intros [] H1 H2.
  assert (HV := mp_view0 a H2). rewrite mp_unmapped0 in HV by done. injection HV as _ Hst.
  destruct mp_state0 as [Hs _]. rewrite <- Hst in Hs. done.
Qed.

(** What [MapMemory] leaves. *)
Record mapped (s s1 : Kernel) (dst src size : Z) (m : KPrivateMemory) (p : Permission) : Prop := mk_mapped {
  md_ok : kernel_ok s1;
  md_handles : k_handles s1 = k_handles s ++ [Some (k_next s)];
  md_new : get_object s1 (k_next s) = Some (OPrivateMemory (mk_private (mk_span dst size) p states_Stack));
  md_old : forall r, r <> k_next s -> get_object s1 r = get_object s r;
  md_regions : same_regions (k_memory s) (k_memory s1);
  md_refs : forall r, referenced (set_k_handles (k_handles s) s1) r = referenced s r;
  md_view : forall a, view (k_memory s1) a =
    spec_set (spec_set (view (k_memory s)) dst (dst + size) (p, states_Stack, 0))
      src (src + size) (no_permission, pm_memoryState m, 0) a }.

Lemma fresh_not_handle s : referenced s (k_next s) = false -> Forall (fun e => e <> Some (k_next s)) (k_handles s).
Proof.
  unfold referenced. intros H. rewrite !orb_false_iff in H. destruct H as [[[[H _] _] _] _].
  apply bool_decide_eq_false in H. apply Forall_forall. intros e He ->. by apply H.
Qed.

Lemma Get_mappable s dst src size ref h m p a :
  mappable s dst src size ref h m p -> src <= a < src + size ->
  exists c, Get (k_memory s) a = Some c /\ c_permission c = p /\ c_state c = pm_memoryState m.
Proof.
  intros M Ha. destruct (Get_of_view (k_memory s) a _ (ko_vm _ (mp_ok _ _ _ _ _ _ _ _ M)) (mp_view _ _ _ _ _ _ _ _ M a Ha))
    as (c & E & [= H1 H2 _]). by exists c.
Qed.

Lemma MapMemory_maps env s dst src size ref h m p r :
  mappable s dst src size ref h m p -> (forall c, call_ok env c = true) ->
  x r 0 = dst -> x r 1 = src -> x r 2 = size ->
  exists s1 r1, svc_MapMemory env s r = inr (s1, r1, Done) /\ w r1 0 = Success /\
    k_ram s1 = copy_ram dst src size (k_ram s) /\ mapped s s1 dst src size m p.
Proof.
  intros M He Hx0 Hx1 Hx2. pose proof M as [Hk (A1 & A2 & A3) Hsz Hst Hd Hfree Hun Hown Hobj Hin Hview [Hma Hcs] Hfr Hroom].
  unfold svc_MapMemory. rewrite Hx0, Hx1, Hx2, A1, A2, A3, Hst. cbn [negb orb].
  destruct (Get_mappable _ _ _ _ _ _ _ _ src M ltac:(lia)) as (c & -> & -> & ->). rewrite Hma. cbn [negb].
  destruct (KPrivateMemory_new_ok env (mk_span dst size) p states_Stack s Hk Hd A1 A3 (He _))
    as (s0 & E0 & Hk0 & R0 & O0 & T0 & N0 & _ & V0).
  pose proof (KPrivateMemory_new_frame _ _ _ _ _ _ _ E0) as [_ F2 F3 F4 F5 F6 _].
  unfold NewHandle. rewrite E0. cbn [bindM]. unfold push_handle. cbn [bindM ok fst snd].
  set (s1 := set_k_ram _ _).
  assert (Hk1 : kernel_ok s1) by (destruct Hk0 as [K1 K2 K3 K4]; by split).
  assert (Hnew : get_object s1 (k_next s) = Some (OPrivateMemory (mk_private (mk_span dst size) p states_Stack)))
    by (unfold get_object, s1; simpl; by rewrite O0, lookup_insert_eq).
  assert (Hold : forall r', r' <> k_next s -> get_object s1 r' = get_object s r')
    by (intros; unfold get_object, s1; simpl; by rewrite O0, lookup_insert_ne).
  assert (Hne : ref <> k_next s).
  { intros ->. assert (k_next s < k_next s) by (apply (ko_fresh _ Hk); by eexists). lia. }
  assert (Hown1 : GetMemoryObject src s1 = Some (ref, h)).
  { unfold GetMemoryObject. change (k_handles s1) with (k_handles s0 ++ [Some (k_next s)]). rewrite T0, find_memory_app.
    rewrite (find_memory_ext s s1); [unfold GetMemoryObject in Hown; by rewrite Hown|].
    eapply entry_guest_fresh; [exact O0|by apply fresh_not_handle]. }
  rewrite Hown1. destruct (UpdatePermission_private ref m src size no_permission s1 Hk1) as (s2 & E2 & Hk2 & R2 & [S2 _] & N2 & Ram2 & Ref2 & G2 & V2);
    [by rewrite Hold|done|lia|lia|lia|done|].
  rewrite E2. cbn [bindM]. eexists _, _. split; [reflexivity|]. split; [by rewrite w_set_w|].
  split; [rewrite Ram2; unfold s1; simpl; by rewrite F2|]. split.
  - done.
  - rewrite S2. unfold s1. simpl. by rewrite T0.
  - by rewrite G2.
  - intros r' Hr'. by rewrite G2, Hold.
  - etrans; [exact R0|exact R2].
  - intros r'. rewrite Ref2. unfold referenced. simpl. by rewrite F3, F4, F5, F6.
  - intros a. rewrite V2. unfold spec_set. destruct (_ && _); [done|]. unfold s1. simpl. rewrite V0. done.
Qed.

Lemma find_memory_none s ptr i l :
  (forall e r g, e ∈ l -> entry_guest s e = Some (r, g) -> contains_ptr g ptr = false) -> find_memory s ptr i l = None.
Proof.
  revert i. induction l as [|e l IH]; intros i H; [done|]. simpl.
  destruct (entry_guest s e) as [[r g]|] eqn:E; [rewrite (H e r g) by set_solver|]; apply IH; set_solver.
Qed.

(** The table of a state after [MapMemory]: the owner of the source is found as before, the
    destination belongs to the new object. *)
Lemma mapped_objects s s1 s2 dst src size ref h m p :
  mappable s dst src size ref h m p -> mapped s s1 dst src size m p -> same_objects s1 s2 ->
  GetMemoryObject src s2 = Some (ref, h) /\
  GetMemoryObject dst s2 = Some (k_next s, u32 (BaseHandleIndex + Z.of_nat (length (k_handles s)))).
Proof.
  intros [Hk _ Hsz _ Hd Hfree _ Hown Hobj _ _ _ Hfr _] [M1 M2 M3 M4 _ _ _] S.
  rewrite !(GetMemoryObject_same s1 s2) by done. unfold GetMemoryObject in *. rewrite M2, !find_memory_app.
  assert (Hext : Forall (fun e => entry_guest s1 e = entry_guest s e) (k_handles s)).
  { eapply Forall_impl; [by apply fresh_not_handle|]. intros [r|] Hr; [|done]. simpl. by rewrite M4 by congruence. }
  rewrite (find_memory_ext s s1 src _ _ Hext), (find_memory_ext s s1 dst _ _ Hext), Hown. split; [done|]. rewrite find_memory_none by done. simpl.
  rewrite M3. simpl. pose proof (ko_base _ Hk). unfold in_base in Hd. simpl in Hd. unfold contains_ptr. simpl.
  rewrite span_end_small by (simpl; lia). simpl.
  destruct (Z.leb_spec dst dst); [|lia]. by destruct (Z.ltb_spec dst (dst + size)); [|lia].
Qed.

(** Closing the handle of the new object. *)
Lemma close_new s s2 dst size p handle :
  kernel_ok s2 -> k_handles s2 = k_handles s ++ [Some (k_next s)] ->
  get_object s2 (k_next s) = Some (OPrivateMemory (mk_private (mk_span dst size) p states_Stack)) ->
  (forall r, referenced (set_k_handles (k_handles s) s2) r = referenced s r) ->
  referenced s (k_next s) = false -> table_room s ->
  handle = u32 (BaseHandleIndex + Z.of_nat (length (k_handles s))) ->
  exists s3, CloseHandle handle s2 = inr s3 /\ kernel_ok s3 /\ k_ram s3 = k_ram s2 /\
    forall a, view (k_memory s3) a = spec_set (view (k_memory s2)) dst (dst + size) (no_permission, states_Unmapped, 0) a.
Proof.
  intros Hk Hh Ho Hrefs Hfr Hroom ->. unfold CloseHandle, handles_at.
  assert (Hroom' : BaseHandleIndex + Z.of_nat (length (k_handles s)) < 2 ^ 32)
    by (unfold table_room, threadSelf in Hroom; lia).
  rewrite handle_index_of, Hh, lookup_app_r, Nat.sub_diag by (done || lia). cbn [from_opt bindM].
  change ([Some (k_next s)] !! 0%nat) with (Some (Some (k_next s))). cbn [from_opt bindM].
  rewrite insert_app_r_alt, Nat.sub_diag by lia. change (<[0%nat:=None]> [Some (k_next s)]) with [None : option Z].
  set (s2' := set_k_handles (k_handles s ++ [None]) s2). unfold release.
  assert (Hr : referenced s2' (k_next s) = false).
  { rewrite <- Hfr, <- (Hrefs (k_next s)). unfold referenced. simpl. do 4 f_equal.
    apply bool_decide_ext. rewrite elem_of_app, list_elem_of_singleton. naive_solver. }
  rewrite Hr. change (get_object s2' (k_next s)) with (get_object s2 (k_next s)). rewrite Ho.
  assert (Hk2 : kernel_ok s2') by (by apply kernel_ok_handles).
  pose proof (ko_guest _ Hk2 _ _ Ho) as Hg. simpl in Hg. unfold KPrivateMemory_destroy. cbn [pm_guest sp_data sp_size].
  set (s3 := emit_call _ s2'). assert (Hk3 : kernel_ok s3) by (by apply kernel_ok_emit).
  destruct (insert_chunk_ok (mk_chunk dst size no_permission states_Unmapped 0) s3 Hk3) as (mm & -> & Hm & Hreg & Hv).
  { exact (in_base_chunk s2' (mk_span dst size) _ _ _ Hk2 Hg). }
  cbn [bindM]. eexists. split; [reflexivity|]. split; [|done].
  apply (kernel_ok_delete (set_k_memory mm s3) (k_next s)). by apply kernel_ok_memory.
Qed.

Lemma UnmapMemory_unmaps s s1 dst src size ref h m p r :
  mappable s dst src size ref h m p -> mapped s s1 dst src size m p ->
  x r 0 = dst -> x r 1 = src -> x r 2 = size ->
  exists s3 r3, svc_UnmapMemory s1 r = inr (s3, r3, Done) /\ w r3 0 = Success /\ kernel_ok s3 /\
    (forall a, k_ram s3 a = copy_ram dst src size (k_ram s1) a) /\
    forall a, view (k_memory s3) a = view (k_memory s) a.
Proof.
  intros M D Hx0 Hx1 Hx2. pose proof (mappable_disjoint _ _ _ _ _ _ _ _ dst M) as Hdis0.
  pose proof M as [Hk (A1 & A2 & A3) Hsz Hst Hd Hfree Hun Hown Hobj Hin Hview [Hma Hcs] Hfr Hroom].
  pose proof D as [Hk1 Hh1 Hnew Hold (_ & _ & _ & _ & Hstk & _) Hrefs Hv1].
  unfold svc_UnmapMemory. rewrite Hx0, Hx1, Hx2, A1, A2, A3, Hstk, Hst. cbn [negb orb].
  assert (Hnsrc : (src <=? dst) && (dst <? src + size) = false).
  { destruct ((src <=? dst) && (dst <? src + size)) eqn:E; [|done]. apply andb_true_iff in E.
    exfalso. apply Hdis0; lia. }
  destruct (Get_of_view (k_memory s1) dst (p, states_Stack, 0) (ko_vm _ Hk1)) as (c1 & -> & [= Ec1 _ _]).
  { rewrite Hv1. unfold spec_set. rewrite Hnsrc. destruct (Z.leb_spec dst dst), (Z.ltb_spec dst (dst + size)); done || lia. }
  destruct (Get_of_view (k_memory s1) src (no_permission, pm_memoryState m, 0) (ko_vm _ Hk1)) as (c2 & -> & [= _ Ec2 _]).
  { rewrite Hv1. unfold spec_set. destruct (Z.leb_spec src src), (Z.ltb_spec src (src + size)); done || lia. }
  rewrite Ec1, Ec2, Hma. cbn [negb].
  destruct (mapped_objects s s1 s1 _ _ _ _ _ _ _ M D ltac:(done)) as [-> _].
  assert (Hobj1 : get_object s1 ref = Some (OPrivateMemory m)).
  { rewrite Hold; [done|]. intros ->. assert (k_next s < k_next s) by (apply (ko_fresh _ Hk); by eexists). lia. }
  destruct (UpdatePermission_private ref m src size p s1 Hk1) as (s2 & E2 & Hk2 & _ & S2 & _ & Ram2 & Ref2 & G2 & V2);
    [done|done|lia|lia|lia|done|].
  rewrite E2. cbn [bindM]. set (s2' := set_k_ram _ s2).
  assert (S2' : same_objects s1 s2') by exact S2.
  destruct (mapped_objects s s1 s2' _ _ _ _ _ _ _ M D S2') as [_ ->].
  destruct (close_new s s2' dst size p (u32 (BaseHandleIndex + Z.of_nat (length (k_handles s)))))
    as (s3 & E3 & Hk3 & Ram3 & V3).
  { destruct Hk2 as [K1 K2 K3 K4]. by split. } { destruct S2 as [S2 _]. simpl. by rewrite S2. }
  { etrans; [apply (G2 (k_next s))|exact Hnew]. } { intros r'. etrans; [apply (Ref2 (k_handles s) r')|apply Hrefs]. }
  { done. } { done. } { done. }
  rewrite E3. cbn [bindM]. eexists _, _. split; [reflexivity|]. split; [by rewrite w_set_w|]. split; [done|].
  split; [intros a; rewrite Ram3; simpl; by rewrite Ram2|].
  intros a. rewrite V3. unfold s2'. cbn [k_memory set_k_ram]. unfold spec_set at 1. rewrite V2. unfold spec_set at 1. rewrite Hv1.
  unfold spec_set. destruct ((dst <=? a) && (a <? dst + size)) eqn:E1; [symmetry; apply Hun; lia|].
  destruct ((src <=? a) && (a <? src + size)) eqn:E4; [symmetry; apply Hview; lia|done].
Qed.

(** Guest writes between two calls. *)
Lemma mapped_ram s s1 dst src size m p f : mapped s s1 dst src size m p -> mapped s (set_k_ram f s1) dst src size m p.
Proof. intros [H1 H2 H3 H4 H5 H6 H7]. split; try done. by destruct H1; split. Qed.

(** [UnmapMemory] restores what [MapMemory] changed.  Mapping a range of an object onto a free
    part of the stack region succeeds: the destination takes the permission of the source and its
    bytes, and the source becomes inaccessible while keeping its state.  Whatever the guest writes
    then, unmapping the destination succeeds, and afterwards every address reports the attributes
    it had before the two calls. *)
Theorem MapMemory_UnmapMemory_roundtrip env s dst src size ref h m p r r' f :
  mappable s dst src size ref h m p -> (forall c, call_ok env c = true) ->
  x r 0 = dst -> x r 1 = src -> x r 2 = size -> x r' 0 = dst -> x r' 1 = src -> x r' 2 = size ->
  exists s1 r1 s2 r2,
    svc_MapMemory env s r = inr (s1, r1, Done) /\ w r1 0 = Success /\
    (forall a, dst <= a < dst + size -> query (k_memory s1) a = Some (p, states_Stack, 0) /\
                                        k_ram s1 a = k_ram s (src + (a - dst))) /\
    (forall a, src <= a < src + size -> query (k_memory s1) a = Some (no_permission, pm_memoryState m, 0)) /\
    svc_UnmapMemory (set_k_ram f s1) r' = inr (s2, r2, Done) /\ w r2 0 = Success /\
    (forall a, query (k_memory s2) a = query (k_memory s) a).
Proof.
  intros M He H0 H1 H2 H0' H1' H2'.
  destruct (MapMemory_maps env s dst src size ref h m p r M He H0 H1 H2) as (s1 & r1 & E1 & W1 & Hram & D).
  destruct (UnmapMemory_unmaps s (set_k_ram f s1) dst src size ref h m p r' M (mapped_ram _ _ _ _ _ _ _ f D) H0' H1' H2')
    as (s2 & r2 & E2 & W2 & Hk2 & _ & V2).
  exists s1, r1, s2, r2. pose proof (mp_ok _ _ _ _ _ _ _ _ M) as Hk. destruct D as [Hk1 _ _ _ _ _ Hv1].
  split; [done|]. split; [done|]. split; [|split; [|split; [done|split; [done|]]]].
  - intros a Ha. rewrite query_view, Hv1, Hram by apply (ko_vm _ Hk1). unfold spec_set, copy_ram.
    assert ((src <=? a) && (a <? src + size) = false) as ->.
    { destruct ((src <=? a) && (a <? src + size)) eqn:E; [|done]. exfalso. eapply (mappable_disjoint _ _ _ _ _ _ _ _ a M); lia. }
    by assert ((dst <=? a) && (a <? dst + size) = true) as -> by lia.
  - intros a Ha. rewrite query_view, Hv1 by apply (ko_vm _ Hk1). unfold spec_set.
    by assert ((src <=? a) && (a <? src + size) = true) as -> by lia.
  - intros a. by rewrite !query_view by (apply (ko_vm _ Hk) || apply (ko_vm _ Hk2)).
Qed.

(** The copy of [UnmapMemory] goes from the original range to the mapping that is about to go: what
    the guest wrote through the mapping is lost, and the original range keeps its bytes. *)
Theorem UnmapMemory_discards_writes s s1 dst src size ref h m p r :
  mappable s dst src size ref h m p -> mapped s s1 dst src size m p ->
  x r 0 = dst -> x r 1 = src -> x r 2 = size ->
  exists s3 r3, svc_UnmapMemory s1 r = inr (s3, r3, Done) /\ w r3 0 = Success /\
    forall a, src <= a < src + size -> k_ram s3 a = k_ram s1 a.
Proof.
  intros M D H0 H1 H2. destruct (UnmapMemory_unmaps s s1 dst src size ref h m p r M D H0 H1 H2) as (s3 & r3 & E & W & _ & Hr & _).
  exists s3, r3. split; [done|]. split; [done|]. intros a Ha. rewrite Hr. unfold copy_ram.
  destruct ((dst <=? a) && (a <? dst + size)) eqn:E1; [|done]. exfalso.
  eapply (mappable_disjoint _ _ _ _ _ _ _ _ a M); lia.
Qed.

Lemma sample_mapped_chunks :
  chunks (k_memory sample_mapped) =
  [mk_chunk 0 0x800000000 no_permission states_Reserved 0;
   mk_chunk 0x800000000 0x200000 no_permission states_Unmapped 0;
   mk_chunk 0x800200000 0x2000 (mk_perm true true false) states_Heap 0;
   mk_chunk 0x800202000 0x1FFFDFE000 no_permission states_Unmapped 0;
   mk_chunk 0x2800000000 0x5800000000 no_permission states_Reserved 0].
Proof. vm_compute. reflexivity. Qed.

Lemma sample_mappable :
  mappable sample_mapped 0xB00000000 0x800201000 0x1000 1 0xD000 sample_heap_object (mk_perm true true false).
Proof.
  split.
  - exact sample_mapped_ok.
  - vm_compute. done.
  - lia.
  - vm_compute. done.
  - vm_compute. intuition congruence.
  - intros e r g. change (k_handles sample_mapped) with [Some 1]. intros ->%list_elem_of_singleton.
    assert (entry_guest sample_mapped (Some 1) = Some (1, mk_span 0x800200000 0x2000)) as -> by (vm_compute; reflexivity).
    intros [= <- <-]. vm_compute. reflexivity.
  - intros a Ha. unfold view. rewrite sample_mapped_chunks. simpl. unfold covers. simpl. zcases; done.
  - vm_compute. reflexivity.
  - vm_compute. reflexivity.
  - vm_compute. intuition congruence.
  - intros a Ha. unfold view. rewrite sample_mapped_chunks. simpl. unfold covers. simpl. zcases; done.
  - vm_compute. intuition congruence.
  - vm_compute. reflexivity.
  - vm_compute. reflexivity.
Qed.

Lemma MapMemory_UnmapMemory_roundtrip_witness :
  exists s1 r1 s2 r2,
    svc_MapMemory all_ok sample_mapped (regs [(0, 0xB00000000); (1, 0x800201000); (2, 0x1000)]) = inr (s1, r1, Done) /\
    svc_UnmapMemory (set_k_ram (fun _ => 7) s1) (regs [(0, 0xB00000000); (1, 0x800201000); (2, 0x1000)]) = inr (s2, r2, Done) /\
    (forall a, query (k_memory s2) a = query (k_memory sample_mapped) a).
Proof.
  destruct (MapMemory_UnmapMemory_roundtrip all_ok sample_mapped 0xB00000000 0x800201000 0x1000 1 0xD000 sample_heap_object
    (mk_perm true true false) (regs [(0, 0xB00000000); (1, 0x800201000); (2, 0x1000)])
    (regs [(0, 0xB00000000); (1, 0x800201000); (2, 0x1000)]) (fun _ => 7) sample_mappable)
    as (s1 & r1 & s2 & r2 & H1 & _ & _ & _ & H2 & _ & H3); try reflexivity.
  exists s1, r1, s2, r2. split; [exact H1|]. split; [exact H2|exact H3].
Defined.

(** ** Queries *)

Lemma read_write_u64 a v ram : 0 <= v < 2 ^ 64 -> read_u64 (write_u64 a v ram) a = v.
Proof.
  intros Hv. unfold read_u64, write_u64. rewrite read_write_u32_other, !read_write_u32; [|apply bits_range; lia..|lia].
  rewrite !bits_div_mod, Z.shiftl_mul_pow2 by lia. change (2 ^ 0) with 1. rewrite Z.div_1_r.
  rewrite (Z.mod_small (v / 2 ^ 32)); [pose proof (Z.div_mod v (2 ^ 32)); lia|].
  split; [apply Z.div_pos; lia|apply Z.div_lt_upper_bound; lia].
Qed.

Lemma read_u64_write_u32 a b v ram : b + 8 <= a \/ a + 4 <= b -> read_u64 (write_u32 a v ram) b = read_u64 ram b.
Proof. intros H. unfold read_u64. rewrite !read_write_u32_other by lia. done. Qed.

Lemma read_u64_write_u64 a b v ram : b + 8 <= a \/ a + 8 <= b -> read_u64 (write_u64 a v ram) b = read_u64 ram b.
Proof. intros H. unfold write_u64. rewrite !read_u64_write_u32 by lia. done. Qed.

Lemma read_u32_write_u64 a b v ram : b + 4 <= a \/ a + 8 <= b -> read_u32 (write_u64 a v ram) b = read_u32 ram b.
Proof. intros H. unfold write_u64. rewrite !read_write_u32_other by lia. done. Qed.

(** The fields of an information block fit their width. *)
Definition info_fits (i : MemoryInfo) : Prop :=
  0 <= mi_address i < 2 ^ 64 /\ 0 <= mi_size i < 2 ^ 64 /\ 0 <= mi_type i < 2 ^ 32 /\ 0 <= mi_permissions i < 2 ^ 32.

Lemma read_info a i ram :
  info_fits i ->
  let ram' := write_info a i ram in
  read_u64 ram' a = mi_address i /\ read_u64 ram' (a + 8) = mi_size i /\
  read_u32 ram' (a + 16) = mi_type i /\ read_u32 ram' (a + 24) = mi_permissions i.
Proof.
  intros (H1 & H2 & H3 & H4) ram'. unfold ram', write_info.
  split; [by rewrite !read_u64_write_u32, read_u64_write_u64, read_write_u64 by lia|].
  split; [by rewrite !read_u64_write_u32, read_write_u64 by lia|].
  split; [by do 5 rewrite read_write_u32_other by lia; rewrite read_write_u32 by lia|].
  by do 3 rewrite read_write_u32_other by lia; rewrite read_write_u32 by lia.
Qed.

Lemma Permission_Get_range p : 0 <= Permission_Get p < 8.
Proof. destruct p as [[] [] []]; vm_compute; intuition congruence. Qed.

Lemma query_info_fits s p :
  vm_ok (k_memory s) -> 0 <= p < 2 ^ 64 ->
  info_fits (query_info s p) /\ mi_address (query_info s p) <= p < mi_address (query_info s p) + mi_size (query_info s p) /\
  match Get (k_memory s) p with
  | Some c => c_ptr c = mi_address (query_info s p)
  | None => 2 ^ 39 <= p
  end.
Proof.
  intros [Ha Ht] Hp. unfold query_info, Get. destruct (decide (p < 2 ^ 39)) as [Hlt|Hge].
  - destruct (get_chunk_tiles (chunks (k_memory s)) 0 (2 ^ 39) p ltac:(lia) ltac:(lia) Ht ltac:(lia)) as (c & -> & Hc & Hcov & _).
    pose proof (tiles_elem _ _ _ _ Ht Hc) as (H1 & H2 & H3). unfold covers in Hcov. unfold info_fits. simpl.
    pose proof (Permission_Get_range (c_permission c)). pose proof (bits_range 0 8 (c_state c) ltac:(lia)). unfold state_type. lia.
  - rewrite (get_chunk_outside _ 0 (2 ^ 39)) by (done || lia). rewrite Ha. unfold span_end. simpl.
    change (u64 (u64 (Z.lnot (u64 (0 + 2 ^ 39))) + 1)) with (2 ^ 64 - 2 ^ 39). change (u64 (0 + 2 ^ 39)) with (2 ^ 39).
    unfold info_fits. simpl. lia.
Qed.

(** [QueryMemory] walks the whole address space.  For every 64-bit address it succeeds, and the
    block it writes to guest memory describes a non-empty range that contains the address: the
    chunk of the address below 2^39, the rest of the 64-bit space above.  So a guest that steps
    from the end of one reported range to the next visits every chunk and terminates. *)
Theorem QueryMemory_covers s r :
  let p := x r 2 in
  let out := x r 0 in
  vm_ok (k_memory s) -> 0 <= p < 2 ^ 64 ->
  exists s' r', svc_QueryMemory s r = inr (s', r', Done) /\ w r' 0 = Success /\ k_memory s' = k_memory s /\
    let address := read_u64 (k_ram s') out in
    let size := read_u64 (k_ram s') (out + 8) in
    address <= p < address + size /\ (if p <? 2 ^ 39 then address + size <= 2 ^ 39 else address + size = 2 ^ 64) /\
    match Get (k_memory s) p with
    | Some c => address = c_ptr c /\ size = c_size c /\ read_u32 (k_ram s') (out + 16) = state_type (c_state c) /\
                read_u32 (k_ram s') (out + 24) = Permission_Get (c_permission c)
    | None => 2 ^ 39 <= p
    end.
Proof.
  intros p out Hm Hp. unfold svc_QueryMemory. fold p out. eexists _, _. split; [reflexivity|].
  split; [by rewrite w_set_w|]. split; [done|]. cbn [k_ram set_k_ram].
  destruct (query_info_fits s p Hm Hp) as (Hf & Hin & Hc).
  destruct (read_info out (query_info s p) (k_ram s) Hf) as (-> & -> & -> & ->).
  split; [done|]. destruct Hm as [Ha Ht]. unfold query_info, Get in *. destruct (decide (p < 2 ^ 39)) as [Hlt|Hge].
  - destruct (get_chunk_tiles (chunks (k_memory s)) 0 (2 ^ 39) p ltac:(lia) ltac:(lia) Ht ltac:(lia)) as (c & Ec & Hcin & _).
    rewrite Ec in *. pose proof (tiles_elem _ _ _ _ Ht Hcin). simpl. destruct (Z.ltb_spec p (2 ^ 39)); [|lia]. split; [lia|done].
  - rewrite (get_chunk_outside _ 0 (2 ^ 39)) in * by (done || lia). rewrite Ha. unfold span_end. simpl.
    destruct (Z.ltb_spec p (2 ^ 39)); [lia|]. split; [reflexivity|done].
Qed.

Lemma QueryMemory_covers_witness :
  exists s' r', svc_QueryMemory sample_mapped (regs [(0, 0x800200000); (2, 0x800201000)]) = inr (s', r', Done) /\
    read_u64 (k_ram s') 0x800200000 = 0x800200000 /\ read_u64 (k_ram s') 0x800200008 = 0x2000.
Proof.
  destruct (QueryMemory_covers sample_mapped (regs [(0, 0x800200000); (2, 0x800201000)]) (ko_vm _ sample_mapped_ok))
    as (s' & r' & H1 & _ & _ & _ & _ & H2); [vm_compute; intuition congruence|].
  exists s', r'. split; [exact H1|]. destruct H2 as (H2 & H3 & _). split; [exact H2|exact H3].
Defined.

(** ** Termination of [UnmapPhysicalMemory] *)

Lemma terminates_insert_chunk c s : terminates (insert_chunk c s).
Proof.
  unfold insert_chunk, InsertChunk, insert_chunks. destruct (split_at _ (chunks _)) as [lows rest].
  destruct (unsnoc lows) as [[before lower]|]; [|done]. destruct (split_at _ rest) as [er ups].
  destruct (_ && _); [done|]. destruct (_ <? _).
  - destruct (negb _); [done|]. destruct (unsnoc before) as [[]|]; [|done]. by destruct (_ && _).
  - destruct (_ && _); [done|]. destruct ups as [|u ups]; [done|]. destruct (c_ptr u <? _); by destruct (_ && _).
Qed.

Lemma terminates_host_call env c site s : terminates (host_call env c site s).
Proof. unfold host_call. by destruct (call_ok env c). Qed.

Lemma terminates_Resize env ref m n s : terminates (KPrivateMemory_Resize env ref m n s).
Proof.
  unfold KPrivateMemory_Resize. apply terminates_bind; [apply terminates_host_call|]. intros s1 _.
  apply terminates_bind; [|done]. destruct (_ <? _); [apply terminates_insert_chunk|].
  destruct (_ <? _); [apply terminates_insert_chunk|done].
Qed.

Lemma terminates_Remap env m g s : terminates (KPrivateMemory_Remap env m g s).
Proof.
  unfold KPrivateMemory_Remap. apply terminates_bind.
  { unfold check_guest_range. destruct (negb _); [done|]. by destruct (_ || _). }
  intros [] _. apply terminates_bind; [apply terminates_host_call|]. intros s1 _. apply terminates_host_call.
Qed.

Lemma terminates_CloseHandle h s : terminates (CloseHandle h s).
Proof.
  unfold CloseHandle, handles_at. destruct (k_handles s !! handle_index h) as [[ref|]|]; simpl; try done.
  unfold release. destruct (referenced _ _); [done|]. destruct (get_object _ _) as [[]|]; simpl; try done;
    (apply terminates_bind; [|done]); unfold KSharedMemory_destroy, KPrivateMemory_destroy;
    try apply terminates_insert_chunk; (apply terminates_bind; [|done]); destruct (span_valid _); try done;
    apply terminates_insert_chunk.
Qed.

Lemma unmap_object_ok env item handle m pointer size s :
  kernel_ok s -> get_object s item = Some (OPrivateMemory m) -> contains_ptr (pm_guest m) pointer = true ->
  terminates (unmap_object env item handle m pointer size s) /\
  forall s', unmap_object env item handle m pointer size s = inr s' ->
    kernel_ok s' /\ same_regions (k_memory s) (k_memory s').
Proof.
  intros Hk Ho Hc. pose proof (ko_guest _ Hk _ _ Ho) as Hg. simpl in Hg. pose proof (ko_base _ Hk) as Hb.
  unfold in_base in Hg. unfold contains_ptr in Hc. rewrite span_end_small in Hc by lia.
  assert (HR : forall n s', in_base s (mk_span (sp_data (pm_guest m)) n) -> KPrivateMemory_Resize env item m n s = inr s' ->
    kernel_ok s' /\ same_regions (k_memory s) (k_memory s')).
  { intros n s' Hn E. split; [by eapply resize_step|].
    destruct (call_ok env (K_mprotect (sp_data (pm_guest m)) n PROT_RWX)) eqn:Ec.
    - destruct (Resize_ok env item m n s Hk Ho Hn Ec) as (s2 & E2 & _ & _ & _ & _ & R & _). congruence.
    - unfold KPrivateMemory_Resize, host_call in E. by rewrite Ec in E. }
  unfold unmap_object. destruct (_ =? states_Heap); [|split; [done|]; by intros s' [= <-]].
  destruct (Z.leb_spec pointer (sp_data (pm_guest m))); [destruct (sp_size (pm_guest m) <=? size)|].
  - split.
    + apply terminates_bind; [apply terminates_Resize|]. intros. apply terminates_CloseHandle.
    + intros s' E. apply bindM_ok in E as (s1 & E1 & E). apply HR in E1 as [K1 R1]; [|unfold in_base; simpl; lia].
      unfold CloseHandle in E. apply bindM_ok in E as (it & _ & E).
      destruct it as [ref|]; [|injection E as <-; split; [by apply kernel_ok_handles|done]].
      apply release_ok in E as [K2 R2]; [|by apply kernel_ok_handles]. split; [done|]. etrans; [exact R1|exact R2].
  - split; [apply terminates_Remap|]. unfold KPrivateMemory_Remap. intros s' E. apply bindM_ok in E as ([] & _ & E).
    apply bindM_ok in E as (s1 & E1 & E). apply host_call_ok in E1 as [_ ->]. apply host_call_ok in E as [_ ->].
    split; [by do 2 apply kernel_ok_emit|done].
  - split; [apply terminates_Resize|]. intros s' E. apply HR in E; [done|]. unfold in_base. simpl.
    rewrite wrap_small by lia. lia.
Qed.

Lemma find_memory_contains s ptr i l ref h :
  find_memory s ptr i l = Some (ref, h) -> exists g, entry_guest s (Some ref) = Some (ref, g) /\ contains_ptr g ptr = true.
Proof.
  revert i. induction l as [|e l IH]; intros i; simpl; [done|].
  destruct (entry_guest s e) as [[r g]|] eqn:Ee; [|apply IH]. destruct (contains_ptr g ptr) eqn:Ec; [|apply IH].
  intros [= -> <-]. pose proof (entry_guest_ref _ _ _ _ Ee) as ->. by exists g.
Qed.

Lemma unmap_loop_terminates env fuel pointer size end_ s :
  kernel_ok s -> 0 <= pointer -> end_ <= 2 ^ 39 -> end_ - pointer <= Z.of_nat fuel ->
  terminates (unmap_loop env fuel pointer size end_ s).
Proof.
  revert pointer size s. induction fuel as [|fuel IH]; intros pointer size s Hk Hp He Hf; cbn [unmap_loop];
    destruct (Z.ltb_spec pointer end_); try done; [lia|].
  destruct (GetMemoryObject pointer s) as [[item handle]|] eqn:Em.
  - destruct (find_memory_contains _ _ _ _ _ _ Em) as (g & Eg & Hc). simpl in Eg.
    destruct (get_object s item) as [o|] eqn:Eo; [|done]. destruct o as [| | | |m| |]; try done. simpl in Eg. injection Eg as <-.
    destruct (unmap_object_ok env item handle m pointer size s Hk Eo Hc) as [Ht Hn].
    apply terminates_bind; [exact Ht|]. intros s' E. destruct (Hn s' E) as [Hk' _].
    pose proof (ko_guest _ Hk _ _ Eo) as Hg. simpl in Hg. pose proof (ko_base _ Hk) as Hb. unfold in_base in Hg.
    unfold contains_ptr in Hc. rewrite span_end_small in Hc by lia. rewrite (wrap_small 64 (pointer + _)) by lia.
    apply IH; [done|lia|lia|lia].
  - destruct (Get (k_memory s) pointer) as [b|] eqn:Eb; [|done]. unfold Get in Eb.
    destruct (ko_vm _ Hk) as [_ Ht].
    destruct (get_chunk_tiles _ 0 (2 ^ 39) pointer ltac:(lia) ltac:(lia) Ht ltac:(lia)) as (c & Ec & Hin & Hcov & _).
    rewrite Ec in Eb. injection Eb as <-. pose proof (tiles_elem _ _ _ _ Ht Hin). unfold covers in Hcov.
    rewrite (wrap_small 64 (pointer + _)) by lia. apply IH; [done|lia|lia|lia].
Qed.

(** [UnmapPhysicalMemory] ends.  In a well-formed kernel whose alias region lies inside the
    guest address space, the loop over the range makes progress in every turn, whatever objects it
    resizes, remaps or closes on the way: with as much fuel as there are bytes in the range the
    call returns or raises, it is never cut off. *)
Theorem UnmapPhysicalMemory_terminates env fuel s r :
  kernel_ok s -> in_base s (alias (k_memory s)) -> 0 <= x r 0 -> 0 <= x r 1 -> x r 0 + x r 1 < 2 ^ 64 ->
  x r 1 <= Z.of_nat fuel ->
  terminates (svc_UnmapPhysicalMemory env fuel s r).
Proof.
  intros Hk Ha H0 H1 H2 Hf. unfold svc_UnmapPhysicalMemory. destruct (negb _); [done|]. destruct (_ || _); [done|].
  destruct (contains_span _ _) eqn:Ec; [|done]. cbn [negb]. apply terminates_bind; [|done].
  pose proof (ko_base _ Hk). unfold in_base in Ha. unfold contains_span in Ec.
  rewrite !span_end_small in Ec by (simpl; lia). simpl in Ec. rewrite wrap_small by lia.
  apply unmap_loop_terminates; [done|lia|lia|lia].
Qed.

Lemma UnmapPhysicalMemory_terminates_witness :
  terminates (svc_UnmapPhysicalMemory all_ok 0x3000 sample_mapped (regs [(0, 0x800200000); (1, 0x3000)])) /\
  is_ok (svc_UnmapPhysicalMemory all_ok 4 sample_mapped (regs [(0, 0x800200000); (1, 0x3000)])) = true.
Proof.
  split; [|vm_compute; reflexivity].
  apply (UnmapPhysicalMemory_terminates all_ok 0x3000 sample_mapped (regs [(0, 0x800200000); (1, 0x3000)]) sample_mapped_ok);
    vm_compute; intuition congruence.
Defined.

(** ** Waiting for objects and being signalled *)

Lemma sync_object_put ref o s old :
  sync_object s ref = inr old -> sync_object (put_sync ref o s) ref = inr o.
Proof.
  unfold sync_object, put_sync. destruct (get_object s ref) as [ob|] eqn:E; [|done]. unfold get_object at 1. simpl.
  rewrite lookup_insert_eq. destruct ob; done.
Qed.

Lemma sync_object_put_ne ref ref' o s : ref' <> ref -> sync_object (put_sync ref o s) ref' = sync_object s ref'.
Proof.
  intros Hne. unfold sync_object, put_sync. destruct (get_object s ref) as [ob|]; [|done].
  unfold get_object at 1. simpl. by rewrite lookup_insert_ne.
Qed.

Lemma k_sched_put_sync ref o s : k_sched (put_sync ref o s) = k_sched s.
Proof. unfold put_sync. by destruct (get_object s ref). Qed.

(** A thread on the waiter list of an object. *)
Definition waits_on (s : Kernel) (cur ref : Z) : Prop :=
  exists o, sync_object s ref = inr o /\ cur ∈ syncObjectWaiters o.

(** The object after the thread left its list. *)
Definition left_object (s s' : Kernel) (cur ref : Z) : Prop :=
  exists o o' a b, sync_object s ref = inr o /\ sync_object s' ref = inr o' /\ signalled o' = signalled o /\
    syncObjectWaiters o = a ++ cur :: b /\ cur ∉ a /\ syncObjectWaiters o' = a ++ b.

Lemma index_of_elem t l : t ∈ l -> is_Some (index_of t l).
Proof.
  intros H. destruct (index_of t l) as [i|] eqn:E; [by exists i|]. exfalso. by apply index_of_None in E.
Qed.

Lemma leave_objects_ok cur ref objs index wi s :
  NoDup objs -> Forall (waits_on s cur) objs ->
  exists s', leave_objects cur (Some ref) objs index wi s =
      inr (s', match index_of ref objs with Some j => index + Z.of_nat j | None => wi end) /\
    k_sched s' = k_sched s /\ (forall o, o ∈ objs -> left_object s s' cur o) /\
    (forall o, o ∉ objs -> sync_object s' o = sync_object s o).
Proof.
  revert index wi s. induction objs as [|o objs IH]; intros index wi s Hnd Hw.
  { exists s. split; [done|]. split; [done|]. split; [by intros o ?%elem_of_nil|done]. }
  apply NoDup_cons in Hnd as [Hno Hnd]. apply Forall_cons in Hw as [(so & Eso & Hin) Hw].
  cbn [leave_objects]. rewrite Eso. cbn [bindM]. destruct (index_of_elem _ _ Hin) as [k Ek]. rewrite Ek.
  destruct (index_of_split _ _ _ Ek) as (a & b & Ewl & Ha & _ & Eer). rewrite Eer.
  set (s1 := put_sync o (mk_sync (signalled so) (a ++ b)) s).
  destruct (IH (index + 1) (if decide (Some ref = Some o) then index else wi) s1 Hnd) as (s' & E' & Hs' & Hl' & Hu').
  { apply Forall_forall. intros o' Ho'. destruct (proj1 (Forall_forall _ _) Hw o' Ho') as (so' & Es' & Hi').
    exists so'. split; [|done]. unfold s1. rewrite sync_object_put_ne; [done|]. by intros ->. }
  exists s'. split; [|split; [rewrite Hs'; apply k_sched_put_sync|split]].
  - etrans; [exact E'|]. do 2 f_equal. cbn [index_of]. destruct (Z.eqb_spec ref o) as [->|Hne].
    + destruct (index_of o objs) as [j|] eqn:Ej.
      { exfalso. apply index_of_split in Ej as (? & ? & -> & _). apply Hno. set_solver. }
      rewrite decide_True by done. lia.
    + rewrite decide_False by congruence. destruct (index_of ref objs); simpl; lia.
  - intros o' [->|Ho']%elem_of_cons.
    + exists so, (mk_sync (signalled so) (a ++ b)), a, b. rewrite Hu' by done.
      unfold s1. rewrite (sync_object_put _ _ _ _ Eso). done.
    + destruct (Hl' o' Ho') as (x1 & x2 & a' & b' & X1 & X). exists x1, x2, a', b'. split; [|done].
      rewrite <- X1. unfold s1. symmetry. apply sync_object_put_ne. by intros ->.
  - intros o' Ho'. apply not_elem_of_cons in Ho' as [Hne Ho']. rewrite Hu' by done. by apply sync_object_put_ne.
Qed.

(** C39: a signal wakes a waiting thread with the right index.  When a thread waits on a list of
    distinct objects and the [i]-th of them is signalled by any thread, the waiter is put into the
    queue of its core, and when it resumes, the call returns success with index [i], the thread is
    off the waiter lists of all the objects, and the lists are otherwise unchanged.  The waiters of
    the object are not paused, and the thread resumes in the state that the signal left. *)
Theorem Signal_resumes_WaitSynchronization other cur objs i ref o s r :
  NoDup objs -> objs !! i = Some ref -> Z.of_nat i < 2 ^ 32 -> Forall (waits_on s cur) objs ->
  sync_object s ref = inr o -> Forall (runnable (k_sched s)) (syncObjectWaiters o) -> cores_ok (k_sched s) ->
  t_isCancellable (thr (k_sched s) cur) = true ->
  exists s1 s2 r2, KSyncObject_Signal other ref s = inr s1 /\
    cur ∈ queue (k_sched s1) (t_coreId (thr (k_sched s) cur)) /\
    (exists o1, sync_object s1 ref = inr o1 /\ signalled o1 = true) /\
    svc_WaitSynchronization_resume cur objs s1 r = inr (s2, r2, Done) /\
    w r2 0 = Success /\ w r2 1 = Z.of_nat i /\ Forall (left_object s1 s2 cur) objs.
Proof.
  intros Hnd Hi Hi32 Hw Ho Hrun Hok Hcan. unfold KSyncObject_Signal. rewrite Ho. cbn [bindM].
  set (s0 := put_sync ref (mk_sync true (syncObjectWaiters o)) s).
  assert (Hsch0 : k_sched s0 = k_sched s) by apply k_sched_put_sync.
  assert (Hcur : cur ∈ syncObjectWaiters o).
  { destruct (proj1 (Forall_forall _ _) Hw ref) as (o' & Eo' & Hin'); [by eapply list_elem_of_lookup_2|]. congruence. }
  destruct (signal_waiters_ok other ref (syncObjectWaiters o) s0) as (sch & E & S); [by rewrite Hsch0|by rewrite Hsch0|].
  rewrite E, Hsch0 in *. set (s1 := set_k_sched sch s0).
  assert (Hsync1 : forall ref', sync_object s1 ref' = if decide (ref' = ref) then inr (mk_sync true (syncObjectWaiters o)) else sync_object s ref').
  { intros ref'. change (sync_object s1 ref') with (sync_object s0 ref'). unfold s0. case_decide as Hd.
    - subst. by eapply sync_object_put.
    - by apply sync_object_put_ne. }
  assert (Hwake : t_wakeObject (thr sch cur) = Some ref).
  { rewrite (sg_wakeObject _ _ _ _ S). rewrite decide_True by done. by rewrite Hcan. }
  unfold svc_WaitSynchronization_resume. set (s1' := on_sched (set_thr cur (set_t_isCancellable false)) s1).
  assert (Hwake' : t_wakeObject (thr (k_sched s1') cur) = Some ref).
  { unfold s1', on_sched. simpl. rewrite thr_set_thr. case_decide; [|done]. exact Hwake. }
  destruct (leave_objects_ok cur ref objs 0 0 s1' Hnd) as (s2 & E2 & Hs2 & Hl2 & _).
  { apply Forall_forall. intros o' Ho'. destruct (proj1 (Forall_forall _ _) Hw o' Ho') as (so & Eso & Hin).
    unfold waits_on. change (sync_object s1' o') with (sync_object s1 o'). rewrite Hsync1. case_decide; [subst|by exists so].
    eexists. split; [reflexivity|]. done. }
  assert (Hidx : index_of ref objs = Some i).
  { rewrite <- (take_drop_middle _ _ _ Hi) in Hnd |- *. rewrite index_of_app; [|].
    - f_equal. rewrite length_take. apply lookup_lt_Some in Hi. lia.
    - apply NoDup_app in Hnd as (_ & H & _). intros Hin. apply (H ref Hin). set_solver. }
  rewrite Hidx in E2. exists s1, s2. fold s1'. rewrite Hwake', E2. cbn [bindM ok]. eexists.
  split; [reflexivity|]. split; [by apply (sg_queued _ _ _ _ S)|].
  split; [eexists; rewrite Hsync1, decide_True by done; done|]. split; [reflexivity|].
  split; [by rewrite w_set_w_ne, w_set_w by lia|].
  split; [rewrite w_set_w; apply wrap_small; lia|]. apply Forall_forall. intros o' Ho'. exact (Hl2 o' Ho').
Qed.

(** Thread 5 waits on the events 2 and 3. *)
Definition sample_sync : Kernel :=
  set_k_sched (mk_sched initial_cores [] {[5 := set_t_isCancellable true (sample_thread 5 20 1)]} [])
    (set_k_objects (<[2 := OEvent (mk_sync false [5])]> (<[3 := OEvent (mk_sync false [5])]> ∅)) sample_kernel).

Lemma Signal_resumes_WaitSynchronization_witness :
  exists s1 s2 r2, KSyncObject_Signal 9 3 sample_sync = inr s1 /\
    svc_WaitSynchronization_resume 5 [2; 3] s1 (regs []) = inr (s2, r2, Done) /\ w r2 1 = 1.
Proof.
  destruct (Signal_resumes_WaitSynchronization 9 5 [2; 3] 1 3 (mk_sync false [5]) sample_sync (regs []))
    as (s1 & s2 & r2 & H1 & _ & _ & H2 & _ & H3 & _).
  - repeat constructor; set_solver.
  - reflexivity.
  - lia.
  - repeat constructor; eexists; (split; [reflexivity|set_solver]).
  - reflexivity.
  - repeat constructor; vm_compute; congruence.
  - split; [done|]. intros [|[|[|[|k]]]] c H; simplify_eq/=; done.
  - reflexivity.
  - exists s1, s2, r2. split; [exact H1|]. split; [exact H2|exact H3].
Defined.

(** A thread that is parked cannot change its cores: the mask is tested with the parked core,
    which is not one of the four, so the call answers [InvalidHandle], after the ideal core and the
    mask of the thread were already changed. *)
Theorem SetThreadCoreMask_parked now cur thread s r :
  let idealCore := i32 (w r 1) in
  let mask := bits 0 4 (x r 2) in
  GetHandle cur KT_KThread (w r 0) s = inr thread -> t_coreId (thr (k_sched s) thread) = ParkedCoreId ->
  0 <= idealCore < 4 -> bit mask idealCore = true -> Z.lor (npdm_coreMask (k_npdm s)) mask = npdm_coreMask (k_npdm s) ->
  exists s' r', svc_SetThreadCoreMask now cur s r = inr (s', r', Done) /\ w r' 0 = result_InvalidHandle /\
    t_affinityMask (thr (k_sched s') thread) = mask /\ t_idealCore (thr (k_sched s') thread) = u8 idealCore.
Proof.
  intros ic mask Hh Hp Hic Hbit Hsub. unfold svc_SetThreadCoreMask. fold ic mask. rewrite Hh. cbn [bindM].
  unfold resolve_ideal_core, IdealCoreUseProcessValue, IdealCoreNoUpdate, IdealCoreDontCare.
  destruct (Z.eqb_spec ic (-2)); [lia|]. destruct (Z.eqb_spec ic (-3)); [lia|]. destruct (Z.eqb_spec ic (-1)); [lia|].
  cbn [bindM ok]. rewrite Hsub, Z.eqb_refl. cbn [negb].
  destruct (Z.eqb_spec mask 0) as [E0|_]; [rewrite E0, Z.bits_0 in Hbit; done|].
  unfold mask_test at 1. change CoreCount with 4. destruct (Z.leb_spec 0 ic), (Z.ltb_spec ic 4); try lia. cbn [andb bindM ok].
  rewrite Hbit. cbn [negb]. set (s1 := on_sched _ (on_sched _ s)).
  assert (T1 : thr (k_sched s1) thread = set_t_affinityMask mask (set_t_idealCore (u8 ic) (thr (k_sched s) thread))).
  { unfold s1, on_sched. simpl. rewrite !thr_set_thr. by repeat case_decide. }
  unfold migrate_thread. rewrite T1. simpl t_coreId. rewrite Hp.
  eexists _, _. split; [reflexivity|]. split; [by rewrite w_set_w|]. rewrite T1. done.
Qed.

(** Any name that is not smaller than sm: connects to the service manager, here tm: *)
Theorem ConnectToNamedPort_accepts_other_names :
  exists s' r', svc_ConnectToNamedPort 0 (set_k_ram (fun a => if a =? 0 then 116 else if a =? 1 then 109 else
      if a =? 2 then 58 else 0) sample_kernel) (regs [(1, 0)]) = inr (s', r', Done) /\ w r' 0 = Success /\ w r' 1 = 0xD000.
Proof. eexists _, _. split; [vm_compute; reflexivity|]. split; vm_compute; reflexivity. Qed.

(** ** Pausing and resuming *)

Lemma PauseThread_queued t sch :
  cores_ok sch -> placed sch t -> t ∈ queue sch (t_coreId (thr sch t)) ->
  exists sch', PauseThread t sch = inr sch' /\ t_isPaused (thr sch' t) = true /\ t_insertThreadOnResume (thr sch' t) = true /\
    t_running (thr sch' t) = t_running (thr sch t) /\ t_coreId (thr sch' t) = t_coreId (thr sch t).
Proof.
  intros Hok Hc Hin. unfold PauseThread. destruct (core_at_ok sch _ Hok Hc) as (core & -> & Hid & Hq). cbn [bindM].
  rewrite Hq. destruct (index_of_elem _ _ Hin) as [i ->]. eexists. split; [reflexivity|].
  set (s1 := set_queue _ _ _).
  assert (T1 : thr s1 t = set_t_insertThreadOnResume true (set_t_isPaused true (thr sch t))).
  { unfold s1. rewrite thr_set_queue, !thr_set_thr. by repeat case_decide. }
  set (s2 := match i with O => _ | S _ => _ end). assert (T2 : thr s2 t = thr s1 t) by (unfold s2; destruct i; [|done]; by destruct (erase_at _ _)).
  destruct (_ && _); [|by rewrite T2, T1]. rewrite !thr_set_thr. repeat (case_decide; [|done]). cbn.
  assert (T3 : thr (SendSignal t s2) t = thr s2 t) by (unfold SendSignal; by destruct (_ && _)).
  rewrite T3, T2, T1. done.
Qed.

Lemma ResumeThread_queued cur t sch :
  cores_ok sch -> placed sch t -> t_insertThreadOnResume (thr sch t) = true ->
  exists sch', ResumeThread cur t sch = inr sch' /\ t ∈ queue sch' (t_coreId (thr sch t)) /\ t_isPaused (thr sch' t) = false.
Proof.
  intros Hok Hc Hin. unfold ResumeThread. set (s1 := set_thr t (set_t_isPaused false) sch).
  assert (T1 : thr s1 t = set_t_isPaused false (thr sch t)) by (unfold s1; rewrite thr_set_thr; by case_decide).
  rewrite T1. simpl t_insertThreadOnResume. rewrite Hin.
  assert (Hc1 : placed s1 t) by (unfold placed; by rewrite T1).
  unfold InsertThread. destruct (core_at_ok s1 (t_coreId (thr s1 t)) Hok Hc1) as (core & -> & _). cbn [bindM]. rewrite T1.
  simpl t_isPaused. destruct (InsertThread_enqueue_queue cur t s1 Hok Hc1) as (s2 & E & R). rewrite E. cbn [bindM ok].
  exists s2. split; [reflexivity|]. rewrite T1 in R. change (t_coreId (set_t_isPaused false (thr sch t))) with (t_coreId (thr sch t)) in R. split.
  - rewrite (rq_queue _ _ _ _ R), enqueued_perm. set_solver.
  - rewrite (rq_paused _ _ _ _ R), T1. done.
Qed.

(** pausing takes a thread off its core and resuming puts it back.  Another running thread that
    is queued on its core is paused with success and is then in no queue; a second pause answers
    [InvalidState] and changes nothing; resuming succeeds, the thread is again in the queue of its
    core and not paused. *)
Theorem SetThreadActivity_pause_resume cur thread s r :
  GetHandle cur KT_KThread (w r 0) s = inr thread -> thread <> cur -> sched_inv (k_sched s) ->
  t_running (thr (k_sched s) thread) = true -> t_isPaused (thr (k_sched s) thread) = false ->
  placed (k_sched s) thread -> thread ∈ queue (k_sched s) (t_coreId (thr (k_sched s) thread)) ->
  exists s1 r1 s2 r2,
    svc_SetThreadActivity cur s (set_w 1 1 r) = inr (s1, r1, Done) /\ w r1 0 = Success /\
    sched_inv (k_sched s1) /\ not_queued (k_sched s1) thread /\
    svc_SetThreadActivity cur s1 (set_w 1 1 r) = finish s1 (set_w 1 1 r) result_InvalidState /\
    svc_SetThreadActivity cur s1 (set_w 1 0 r) = inr (s2, r2, Done) /\ w r2 0 = Success /\ sched_inv (k_sched s2) /\
    thread ∈ queue (k_sched s2) (t_coreId (thr (k_sched s) thread)) /\ t_isPaused (thr (k_sched s2) thread) = false.
Proof.
  intros Hh Hne I Hrun Hpa Hpl Hq.
  destruct (PauseThread_queued thread (k_sched s) (si_cores _ I) Hpl Hq) as (sch1 & E1 & P1 & J1 & R1 & C1).
  pose proof (sched_inv_pause _ _ _ I E1) as I1.
  destruct (ResumeThread_queued (Some cur) thread sch1 (si_cores _ I1)) as (sch2 & E2 & Q2 & P2); [unfold placed; by rewrite C1|done|].
  pose proof (sched_inv_resume _ _ _ _ I1 P1 E2) as I2.
  assert (Hself : thread =? cur = false) by (by apply Z.eqb_neq).
  assert (Hh' : forall v s', k_handles s' = k_handles s -> k_objects s' = k_objects s ->
    GetHandle cur KT_KThread (w (set_w 1 v r) 0) s' = inr thread).
  { intros v s' Eh Eo. rewrite w_set_w_ne by lia. eapply GetHandle_keeps; [exact Eo| |exact Hh].
    intros y. unfold handles_at. by rewrite Eh. }
  exists (set_k_sched sch1 s). eexists. exists (set_k_sched sch2 (set_k_sched sch1 s)). eexists.
  unfold svc_SetThreadActivity, or_invalid_handle. rewrite (w_set_w 1 1 r), (w_set_w 1 0 r).
  change ((u32 1 =? 0) || (u32 1 =? 1)) with true. change ((u32 0 =? 0) || (u32 0 =? 1)) with true.
  change (u32 1 =? 0) with false. change (u32 0 =? 0) with true. cbv iota. cbn [negb].
  rewrite !Hh' by done. cbn [bindM]. rewrite Hself. unfold on_schedM. cbn [k_sched set_k_sched].
  rewrite Hrun, Hpa, E1. cbn [bindM andb negb ok]. cbn [k_sched set_k_sched]. rewrite R1, Hrun, P1, E2. cbn [bindM andb negb ok].
  split; [reflexivity|]. split; [by rewrite w_set_w|]. split; [exact I1|]. split; [by apply paused_not_queued|].
  split; [reflexivity|]. split; [reflexivity|]. split; [by rewrite w_set_w|]. split; [exact I2|].
  rewrite C1 in Q2. split; [exact Q2|exact P2].
Qed.

(** Thread 2 runs on core 0 and has the handle 0xD001. *)
Definition sample_activity : Kernel :=
  set_k_handles [Some 0; Some 2] (set_k_objects (<[2 := OThread (mk_sync false [])]> (k_objects sample_kernel))
    (set_k_sched (mk_sched (cores (set_queue 0 [2] empty_scheduler)) []
       {[2 := set_t_running true (sample_thread 2 44 0)]} []) sample_kernel)).

Lemma sample_activity_inv : sched_inv (k_sched sample_activity).
Proof.
  assert (Hq : forall c, 0 <= c < 4 -> queue (k_sched sample_activity) c = if c =? 0 then [2] else []).
  { intros c Hc. assert (c = 0 \/ c = 1 \/ c = 2 \/ c = 3) as [->|[->|[->| ->]]] by lia; done. }
  split.
  - split; [done|]. intros [|[|[|[|i]]]] c H; simplify_eq/=; done.
  - intros c Hc. rewrite Hq by done. destruct (c =? 0); repeat constructor; set_solver.
  - intros c t Hc. rewrite Hq by done. destruct (Z.eqb_spec c 0); [|set_solver]. intros ->%list_elem_of_singleton. by subst.
  - intros c t Hc. rewrite Hq by done. destruct (Z.eqb_spec c 0); [|set_solver]. by intros ->%list_elem_of_singleton.
Qed.

Lemma SetThreadActivity_pause_resume_witness :
  exists s1 r1 s2 r2,
    svc_SetThreadActivity 1 sample_activity (set_w 1 1 (regs [(0, 0xD001)])) = inr (s1, r1, Done) /\
    svc_SetThreadActivity 1 s1 (set_w 1 0 (regs [(0, 0xD001)])) = inr (s2, r2, Done) /\
    2 ∈ queue (k_sched s2) (t_coreId (thr (k_sched sample_activity) 2)).
Proof.
  destruct (SetThreadActivity_pause_resume 1 2 sample_activity (regs [(0, 0xD001)]))
    as (s1 & r1 & s2 & r2 & H1 & _ & _ & _ & _ & H2 & _ & _ & H3 & _).
  - vm_compute. reflexivity.
  - lia.
  - exact sample_activity_inv.
  - reflexivity.
  - reflexivity.
  - vm_compute. intuition congruence.
  - vm_compute. set_solver.
  - exists s1, r1, s2, r2. split; [exact H1|]. split; [exact H2|exact H3].
Defined.
