(* ===== verification/Npdm.v ===== *)
(** * Process metadata ([vfs/npdm.h], [vfs/npdm.cpp])

    The parser of the NPDM file that gives the kernel the address-space type, the main thread and
    the kernel capabilities of a process.  A backing is its size and its bytes. *)

From S2P Require Import Prelude Common MemoryManager Scheduler KObjects Process Sync Svc.

(** ** Backings *)

Record Backing : Type := mk_backing { bk_size : Z; bk_byte : guest_memory }.

(** The checks of [Backing::Read] of [size] bytes at [offset]. *)
Definition Backing_Read (b : Backing) (size offset : Z) : M unit :=
  if bk_size b <? offset then fail (Throw "Offset cannot be past the end of a backing")
  else if bk_size b - offset <? size then fail (Throw "Trying to read past the end of a backing")
  else ok tt.

(** ** Structures *)

Definition MetaMagic : Z := 0x4154454D.
Definition Aci0Magic : Z := 0x30494341.

Record Section_ : Type := mk_section { sec_offset : Z; sec_size : Z }.

Definition Section_at (ram : guest_memory) (a : Z) : Section_ := mk_section (read_u32 ram a) (read_u32 ram (a + 4)).

(** [Section::Read] of an object of [size] bytes; the result is where the object is. *)
Definition Section_Read (b : Backing) (s : Section_) (size : Z) : M Z :=
  if sec_size s <? size then fail (Throw "Section size smaller than Read type size")
  else let! _ := Backing_Read b size (sec_offset s) in ok (sec_offset s).

Definition AddressSpaceType_of_raw (raw : Z) : AddressSpaceType :=
  match raw with
  | 0 => AddressSpace32Bit | 1 => AddressSpace36Bit | 2 => AddressSpace32BitNoReserved | _ => AddressSpace39Bit
  end.

Record NpdmMeta : Type := mk_meta {
  meta_magic : Z;
  meta_type : AddressSpaceType;
  meta_mainThreadPriority : Z;
  meta_idealCore : Z;
  meta_systemResourceSize : Z;
  meta_version : Z;
  meta_mainThreadStackSize : Z;
  meta_aci0 : Section_;
  meta_acid : Section_ }.

Definition NpdmMeta_at (ram : guest_memory) (a : Z) : NpdmMeta :=
  mk_meta (read_u32 ram a) (AddressSpaceType_of_raw (bits 1 2 (ram (a + 0xC)))) (swrap 8 (ram (a + 0xE))) (ram (a + 0xF))
    (read_u32 ram (a + 0x14)) (read_u32 ram (a + 0x18)) (read_u32 ram (a + 0x1C))
    (Section_at ram (a + 0x70)) (Section_at ram (a + 0x78)).

Record NpdmAci0 : Type := mk_aci0 {
  aci0_magic : Z;
  aci0_programId : Z;
  aci0_fsAccessControl : Section_;
  aci0_srvAccessControl : Section_;
  aci0_kernelCapability : Section_ }.

Definition NpdmAci0_at (ram : guest_memory) (a : Z) : NpdmAci0 :=
  mk_aci0 (read_u32 ram a) (read_u64 ram (a + 0x10)) (Section_at ram (a + 0x20)) (Section_at ram (a + 0x28))
    (Section_at ram (a + 0x30)).

(** ** Kernel capabilities *)

(** [std::countr_zero(~raw)]: the number of trailing ones. *)
Fixpoint trailing_ones (fuel : nat) (raw : Z) : Z :=
  match fuel with
  | O => 0
  | S fuel => if bit raw 0 then 1 + trailing_ones fuel (Z.shiftr raw 1) else 0
  end.

(** The fields of [NpdmKernelCapability::threadInfo] and [::kernelVersion]. *)
Definition cap_lowestPriority (raw : Z) : Z := bits 4 6 raw.
Definition cap_highestPriority (raw : Z) : Z := bits 10 6 raw.
Definition cap_minCoreId (raw : Z) : Z := bits 16 8 raw.
Definition cap_maxCoreId (raw : Z) : Z := bits 24 8 raw.
Definition cap_minorVersion (raw : Z) : Z := bits 15 4 raw.
Definition cap_majorVersion (raw : Z) : Z := bits 19 13 raw.

(** What the capabilities set; the priorities are uninitialised before the first of them. *)
Record Capabilities : Type := mk_caps {
  caps_priority : option Priority; caps_coreMask : Z; caps_minor : Z; caps_major : Z }.

Definition no_capabilities : Capabilities := mk_caps None 0 0 0.

(** The loop [for (core = min; core <= max; core++) coreMask.set(core)], from the value the mask
    has; setting a core past the fourth throws, which bounds the loop. *)
Fixpoint set_cores (fuel : nat) (core max mask : Z) : M Z :=
  match fuel with
  | O => fail (Suspended "core loop")
  | S fuel =>
      if core <=? max then
        if CoreCount <=? core then fail Throw_out_of_range
        else set_cores fuel (core + 1) max (Z.lor mask (Z.shiftl 1 core))
      else ok mask
  end.

Definition core_fuel : nat := 6.

Definition apply_capability (c : Capabilities) (raw : Z) : M Capabilities :=
  let ones := trailing_ones 32 raw in
  if ones =? 3 then
    let priority := mk_priority (cap_highestPriority raw) (cap_lowestPriority raw) in
    let! mask := set_cores core_fuel (cap_minCoreId raw) (cap_maxCoreId raw) 0 in
    ok (mk_caps (Some priority) mask (caps_minor c) (caps_major c))
  else if ones =? 14 then
    ok (mk_caps (caps_priority c) (caps_coreMask c) (cap_minorVersion raw) (cap_majorVersion raw))
  else ok c.

(** ** The parser *)

Definition read_words (ram : guest_memory) (a : Z) (n : nat) : list Z :=
  (fun i => read_u32 ram (a + 4 * Z.of_nat i)) <$> seq 0 n.

Definition NPDM_parse (b : Backing) : M NPDM :=
  let! _ := Backing_Read b 0x80 0 in
  let meta := NpdmMeta_at (bk_byte b) 0 in
  if negb (meta_magic meta =? MetaMagic) then fail (Throw "NPDM Meta Magic isn't correct")
  else if negb (IsPageAligned (meta_mainThreadStackSize meta)) then fail (Throw "NPDM Main Thread Stack isn't page aligned")
  else
    let! a := Section_Read b (meta_aci0 meta) 0x40 in
    let aci0 := NpdmAci0_at (bk_byte b) a in
    if negb (aci0_magic aci0 =? Aci0Magic) then fail (Throw "NPDM ACI0 Magic isn't correct")
    else
      let count := sec_size (aci0_kernelCapability aci0) / 4 in
      let offset := u32 (sec_offset (meta_aci0 meta) + sec_offset (aci0_kernelCapability aci0)) in
      let! _ := Backing_Read b (4 * count) offset in
      let! caps := foldM apply_capability (read_words (bk_byte b) offset (Z.to_nat count)) no_capabilities in
      match caps_priority caps with
      | None => fail (Undefined "uninitialised priorities")
      | Some priority =>
          if negb (Priority_Valid priority (meta_mainThreadPriority meta)) then fail (Throw "NPDM Main Thread Priority isn't valid")
          else
            let! core := mask_test (caps_coreMask caps) (meta_idealCore meta) in
            if negb core then fail (Throw "NPDM Ideal Core isn't valid")
            else ok (mk_npdm (meta_type meta) (meta_mainThreadPriority meta) (meta_idealCore meta)
                       (meta_systemResourceSize meta) (meta_mainThreadStackSize meta) (aci0_programId aci0)
                       priority (caps_coreMask caps) (caps_minor caps) (caps_major caps))
      end.

(** ** Core masks *)

Definition core_range (min max : Z) (mask : Z) : Prop :=
  0 <= mask < 2 ^ CoreCount /\ forall i, 0 <= i < CoreCount -> bit mask i = (min <=? i) && (i <=? max).

Lemma set_cores_ok fuel core max mask lo :
  0 <= core <= CoreCount -> max < CoreCount -> lo <= core -> (core <= max + 1 \/ core = lo) -> CoreCount - core + 1 < Z.of_nat fuel ->
  0 <= mask < 2 ^ CoreCount -> (forall i, 0 <= i < CoreCount -> bit mask i = (lo <=? i) && (i <? core)) ->
  exists mask', set_cores fuel core max mask = inr mask' /\ core_range lo max mask'.
Proof.
  unfold CoreCount. revert core mask. induction fuel as [|fuel IH]; intros core mask Hc Hm Hlo Hor Hf Hr Hb; [lia|]. simpl.
  destruct (Z.leb_spec core max).
  - unfold CoreCount. destruct (Z.leb_spec 4 core); [lia|]. apply IH; try lia.
    + apply lor_range; [lia|done|]. rewrite Z.shiftl_1_l. split; [lia|]. apply Z.pow_lt_mono_r; lia.
    + intros i Hi. rewrite Z.lor_spec, Hb, Z.shiftl_spec by lia.
      destruct (Z.eq_dec i core) as [->|Hne].
      * rewrite Z.sub_diag. simpl. rewrite orb_true_r. symmetry. apply andb_true_iff. lia.
      * assert (bit 1 (i - core) = false) as ->.
        { destruct (Z_lt_le_dec (i - core) 0); [by apply Z.testbit_neg_r|]. apply Z.bits_above_log2; simpl; lia. }
        rewrite orb_false_r. f_equal. zcases; lia.
  - exists mask. split; [done|]. split; [done|]. intros i Hi. rewrite Hb by done.
    destruct (Z.leb_spec lo i); simpl; [|done]. zcases; lia.
Qed.

Lemma set_cores_range min max :
  0 <= min -> max < CoreCount -> exists mask, set_cores core_fuel min max 0 = inr mask /\ core_range min max mask.
Proof.
  intros H0 H1. destruct (Z_le_gt_dec min max).
  - apply set_cores_ok; unfold CoreCount in *; try lia; [unfold core_fuel; lia|]. intros i Hi. rewrite Z.testbit_0_l. symmetry.
    apply andb_false_iff. lia.
  - exists 0. unfold core_fuel. simpl. destruct (Z.leb_spec min max); [lia|]. split; [done|]. split; [done|].
    intros i Hi. rewrite Z.testbit_0_l. symmetry. apply andb_false_iff. lia.
Qed.

(** A range that reaches past the fourth core is refused by the exception of the bit set. *)
Lemma set_cores_past fuel core max mask :
  CoreCount <= max -> core <= max -> 0 <= core -> CoreCount - core + 1 < Z.of_nat fuel -> (0 < fuel)%nat ->
  set_cores fuel core max mask = inl Throw_out_of_range.
Proof.
  unfold CoreCount. revert core mask. induction fuel as [|fuel IH]; intros core mask Hm Hc H0 Hf Hp; [lia|]. simpl.
  destruct (Z.leb_spec core max); [|lia]. unfold CoreCount. destruct (Z.leb_spec 4 core); [done|]. apply IH; lia.
Qed.

(** Either a mask or the exception. *)
Lemma set_cores_total min max :
  0 <= min ->
  (exists mask, set_cores core_fuel min max 0 = inr mask /\ core_range min max mask) \/
  (set_cores core_fuel min max 0 = inl Throw_out_of_range /\ CoreCount <= max).
Proof.
  intros H0. destruct (Z_lt_le_dec max CoreCount); [left; by apply set_cores_range|].
  destruct (Z_le_gt_dec min max).
  - right. split; [|done]. apply set_cores_past; unfold core_fuel, CoreCount in *; lia.
  - left. exists 0. unfold core_fuel. simpl. destruct (Z.leb_spec min max); [lia|]. split; [done|]. split; [done|].
    intros i Hi. rewrite Z.testbit_0_l. symmetry. apply andb_false_iff. lia.
Qed.

(** ** Capabilities *)

Definition is_thread_info (raw : Z) : Prop := trailing_ones 32 raw = 3.

(** What a thread-info capability gives. *)
Definition thread_info (raw : Z) (c : Capabilities) : Prop :=
  caps_priority c = Some (mk_priority (cap_highestPriority raw) (cap_lowestPriority raw)) /\
  core_range (cap_minCoreId raw) (cap_maxCoreId raw) (caps_coreMask c).

#[global] Instance is_thread_info_dec raw : Decision (is_thread_info raw).
Proof. unfold is_thread_info. apply _. Defined.

(** The last thread-info capability decides. *)
Definition last_thread_info (l : list Z) : option Z := last (filter is_thread_info l).

Definition caps_of (l : list Z) (c0 c : Capabilities) : Prop :=
  match last_thread_info l with
  | Some raw => thread_info raw c
  | None => caps_priority c = caps_priority c0 /\ caps_coreMask c = caps_coreMask c0
  end.

Lemma apply_capability_spec c raw :
  (is_thread_info raw /\ CoreCount <= cap_maxCoreId raw /\ apply_capability c raw = inl Throw_out_of_range) \/
  exists c', apply_capability c raw = inr c' /\
    (is_thread_info raw /\ thread_info raw c' \/
     ~ is_thread_info raw /\ caps_priority c' = caps_priority c /\ caps_coreMask c' = caps_coreMask c).
Proof.
  unfold apply_capability, is_thread_info. destruct (Z.eqb_spec (trailing_ones 32 raw) 3) as [E|E].
  - destruct (set_cores_total (cap_minCoreId raw) (cap_maxCoreId raw)) as [(mask & -> & Hr)|[-> Hm]]; [apply bits_range; lia|..].
    + right. eexists. split; [done|]. left. by split.
    + by left.
  - right. destruct (_ =? 14); eexists; (split; [done|]); by right.
Qed.

Lemma capabilities_spec l c :
  match foldM apply_capability l c with
  | inr c' => caps_of l c c'
  | inl f => f = Throw_out_of_range /\ Exists (fun raw => is_thread_info raw /\ CoreCount <= cap_maxCoreId raw) l
  end.
Proof.
  revert c. induction l as [|raw l IH]; intros c; simpl; [by split|].
  destruct (apply_capability_spec c raw) as [(Ht & Hm & ->)|(c1 & -> & Hc)]; simpl; [split; [done|]; by left|].
  specialize (IH c1). destruct (foldM _ l c1) as [f|c']; [destruct IH as [-> IH]; split; [done|]; by right|].
  unfold caps_of, last_thread_info in *. rewrite filter_cons. destruct Hc as [[Ht Hi]|(Ht & Hp1 & Hm1)].
  - rewrite decide_True, last_cons by done. destruct (last (filter _ l)); [done|]. destruct IH as [Hp Hm].
    unfold thread_info in *. by rewrite Hp, Hm.
  - rewrite decide_False by done. destruct (last (filter _ l)); [done|]. destruct IH as [Hp Hm]. by rewrite Hp, Hm.
Qed.

(** ** The parser *)

Definition meta_of (b : Backing) : NpdmMeta := NpdmMeta_at (bk_byte b) 0.
Definition aci0_of (b : Backing) : NpdmAci0 := NpdmAci0_at (bk_byte b) (sec_offset (meta_aci0 (meta_of b))).
Definition capability_count (b : Backing) : Z := sec_size (aci0_kernelCapability (aci0_of b)) / 4.
Definition capability_offset (b : Backing) : Z :=
  u32 (sec_offset (meta_aci0 (meta_of b)) + sec_offset (aci0_kernelCapability (aci0_of b))).
Definition capability_words (b : Backing) : list Z :=
  read_words (bk_byte b) (capability_offset b) (Z.to_nat (capability_count b)).

(** The structures lie inside the file and have their magics. *)
Record file_ok (b : Backing) : Prop := mk_file_ok {
  fo_bytes : forall a, 0 <= bk_byte b a < 256;
  fo_size : 0x80 <= bk_size b;
  fo_magic : meta_magic (meta_of b) = MetaMagic;
  fo_stack : IsPageAligned (meta_mainThreadStackSize (meta_of b)) = true;
  fo_section : 0x40 <= sec_size (meta_aci0 (meta_of b));
  fo_aci0 : sec_offset (meta_aci0 (meta_of b)) + 0x40 <= bk_size b;
  fo_aci0_magic : aci0_magic (aci0_of b) = Aci0Magic;
  fo_capabilities : capability_offset b + 4 * capability_count b <= bk_size b }.

(** The metadata of the process the file describes, with the given capabilities. *)
Definition metadata (b : Backing) (priority : Priority) (mask minor major : Z) : NPDM :=
  mk_npdm (meta_type (meta_of b)) (meta_mainThreadPriority (meta_of b)) (meta_idealCore (meta_of b))
    (meta_systemResourceSize (meta_of b)) (meta_mainThreadStackSize (meta_of b)) (aci0_programId (aci0_of b))
    priority mask minor major.

Lemma Backing_Read_ok b size offset : Backing_Read b size offset = inr tt <-> offset <= bk_size b /\ offset + size <= bk_size b.
Proof.
  unfold Backing_Read. destruct (Z.ltb_spec (bk_size b) offset); [split; [done|lia]|].
  destruct (Z.ltb_spec (bk_size b - offset) size); split; try done; lia.
Qed.

(** The main thread can run: its priority is allowed, and its core is one of the four. *)
Definition main_thread_ok (n : NPDM) : Prop :=
  Priority_Valid (npdm_priority n) (npdm_mainThreadPriority n) = true /\
  0 <= npdm_idealCore n < CoreCount /\ bit (npdm_coreMask n) (npdm_idealCore n) = true /\ 0 <= npdm_coreMask n < 2 ^ CoreCount.

(** The last check of the parser. *)
Definition finish_parse (b : Backing) (caps : Capabilities) : M NPDM :=
  match caps_priority caps with
  | None => fail (Undefined "uninitialised priorities")
  | Some priority =>
      if negb (Priority_Valid priority (meta_mainThreadPriority (meta_of b))) then fail (Throw "NPDM Main Thread Priority isn't valid")
      else
        let! core := mask_test (caps_coreMask caps) (meta_idealCore (meta_of b)) in
        if negb core then fail (Throw "NPDM Ideal Core isn't valid")
        else ok (metadata b priority (caps_coreMask caps) (caps_minor caps) (caps_major caps))
  end.

Lemma read_u32_range ram a : (forall i, 0 <= ram i < 256) -> 0 <= read_u32 ram a < 2 ^ 32.
Proof.
  intros H. unfold read_u32. rewrite !Z.shiftl_mul_pow2 by lia.
  pose proof (H a). pose proof (H (a + 1)). pose proof (H (a + 2)). pose proof (H (a + 3)). lia.
Qed.

Lemma capability_count_nonneg b : file_ok b -> 0 <= capability_count b.
Proof. intros H. apply Z.div_pos; [|lia]. apply read_u32_range, fo_bytes, H. Qed.

Lemma NPDM_parse_file b :
  file_ok b ->
  NPDM_parse b = let! caps := foldM apply_capability (capability_words b) no_capabilities in finish_parse b caps.
Proof.
  intros H. pose proof (capability_count_nonneg b H) as Hc. destruct H as [_ H1 H2 H3 H4 H5 H6 H7]. unfold NPDM_parse. rewrite (proj2 (Backing_Read_ok b 0x80 0)) by lia. cbn [bindM].
  fold (meta_of b). rewrite H2, Z.eqb_refl, H3. cbn [negb]. unfold Section_Read.
  destruct (Z.ltb_spec (sec_size (meta_aci0 (meta_of b))) 0x40); [lia|].
  rewrite (proj2 (Backing_Read_ok b 0x40 (sec_offset (meta_aci0 (meta_of b))))) by (simpl in *; lia). cbn [bindM ok].
  fold (aci0_of b). rewrite H6, Z.eqb_refl. cbn [negb].
  fold (capability_count b) (capability_offset b).
  rewrite (proj2 (Backing_Read_ok b (4 * capability_count b) (capability_offset b))) by lia. done.
Qed.

(** A well-formed file is accepted.  When the structures lie inside the file, the last thread-info
    capability allows the priority and the core of the main thread and no thread-info capability
    names a core past the fourth, the parser returns the metadata of the file: the fields of the
    meta and ACI0 structures, the priority range and exactly the core range of that capability. *)
Theorem NPDM_parse_accepts b raw :
  file_ok b -> last_thread_info (capability_words b) = Some raw ->
  Forall (fun r => is_thread_info r -> cap_maxCoreId r < CoreCount) (capability_words b) ->
  cap_highestPriority raw <= meta_mainThreadPriority (meta_of b) <= cap_lowestPriority raw ->
  cap_minCoreId raw <= meta_idealCore (meta_of b) <= cap_maxCoreId raw ->
  exists mask minor major,
    NPDM_parse b = inr (metadata b (mk_priority (cap_highestPriority raw) (cap_lowestPriority raw)) mask minor major) /\
    core_range (cap_minCoreId raw) (cap_maxCoreId raw) mask.
Proof.
  intros Hf Hl Hall Hp Hc. rewrite (NPDM_parse_file b Hf). pose proof (capabilities_spec (capability_words b) no_capabilities) as Hs.
  destruct (foldM _ _ _) as [f|c].
  - destruct Hs as [_ He]. exfalso. apply Exists_exists in He as (r & Hin & Ht & Hm).
    rewrite Forall_forall in Hall. specialize (Hall r Hin Ht). lia.
  - unfold caps_of in Hs. rewrite Hl in Hs. destruct Hs as [Hpr [Hm Hb]]. cbn [bindM]. unfold finish_parse. rewrite Hpr.
    assert (Priority_Valid (mk_priority (cap_highestPriority raw) (cap_lowestPriority raw)) (meta_mainThreadPriority (meta_of b)) = true) as ->.
    { unfold Priority_Valid. cbn [prio_min prio_max]. apply andb_true_iff. lia. }
    assert (Hraw : is_thread_info raw /\ raw ∈ capability_words b).
    { unfold last_thread_info in Hl. apply last_Some_elem_of in Hl. by apply list_elem_of_filter in Hl. }
    rewrite Forall_forall in Hall. specialize (Hall raw (proj2 Hraw) (proj1 Hraw)).
    assert (H0 : 0 <= cap_minCoreId raw) by (apply bits_range; lia). unfold mask_test.
    assert ((0 <=? meta_idealCore (meta_of b)) && (meta_idealCore (meta_of b) <? CoreCount) = true) as -> by (apply andb_true_iff; lia).
    cbn [negb bindM ok]. rewrite Hb by lia.
    assert ((cap_minCoreId raw <=? meta_idealCore (meta_of b)) && (meta_idealCore (meta_of b) <=? cap_maxCoreId raw) = true) as ->
      by (apply andb_true_iff; lia).
    eexists _, _, _. by split.
Qed.

(** What the parser accepts is safe for the kernel.  A file is never parsed for ever, and when
    the parser returns metadata, the main thread's stack size is page aligned, its priority lies in
    the allowed range, its core is one of the four cores and in the mask, and the mask has no
    other bits. *)
Theorem NPDM_parse_safe b :
  terminates (NPDM_parse b) /\
  forall n, NPDM_parse b = inr n -> main_thread_ok n /\ IsPageAligned (npdm_mainThreadStackSize n) = true.
Proof.
  assert (Hfin : forall c, caps_of (capability_words b) no_capabilities c ->
    terminates (finish_parse b c) /\ forall n, finish_parse b c = inr n -> main_thread_ok n).
  { intros c Hc. unfold finish_parse, caps_of in *. destruct (caps_priority c) as [p|] eqn:Ep; [|done].
    destruct (last_thread_info _) as [raw|]; [|by destruct Hc]. destruct Hc as [_ [Hm _]].
    destruct (Priority_Valid _ _) eqn:Ev; [|done]. cbn [negb]. unfold mask_test.
    destruct (_ && _) eqn:Ei; [|done]. cbn [bindM ok]. destruct (bit (caps_coreMask c) _) eqn:Eb; [|done]. split; [done|].
    intros n [= <-]. apply andb_true_iff in Ei. split; [done|]. split; [unfold CoreCount in *; cbn [npdm_idealCore metadata]; lia|]. by split. }
  unfold NPDM_parse. fold (meta_of b). unfold Section_Read, Backing_Read.
  repeat match goal with |- context [if ?c then _ else _] => destruct c eqn:?; cbn [bindM ok]; [done|] end.
  fold (aci0_of b) in *. fold (capability_count b) (capability_offset b) in *. fold (capability_words b).
  pose proof (capabilities_spec (capability_words b) no_capabilities) as Hs.
  destruct (foldM _ _ _) as [f|c]; cbn [bindM]; [destruct Hs as [-> _]; done|].
  destruct (Hfin c Hs) as [Ht Hn]. split; [exact Ht|]. intros n E. split; [by apply Hn|].
  fold (finish_parse b c) in E. unfold finish_parse in E. destruct (caps_priority c); [|done].
  destruct (negb (Priority_Valid _ _)); [done|]. destruct (mask_test _ _) as [|core]; [done|]. cbn [bindM] in E.
  destruct (negb core); [done|]. injection E as <-. simpl. by apply negb_false_iff.
Qed.

(** ** Example *)

(** A file with a main thread of priority 44 on core 0, priorities 28 to 59 on the first three
    cores, and kernel version 3.0. *)
Definition sample_fields : list (Z * Z) :=
  [(0, MetaMagic); (0xC, 0x002C0007); (0x14, 0x1000); (0x1C, 0x100000); (0x70, 0x80); (0x74, 0x100);
   (0x80, Aci0Magic); (0x90, 0x1234); (0xB0, 0x40); (0xB4, 8);
   (0xC0, 7 + Z.shiftl 59 4 + Z.shiftl 28 10 + Z.shiftl 2 24); (0xC4, 0x3FFF + Z.shiftl 3 19)].

Definition sample_file : Backing :=
  mk_backing 0x200 (fold_right (fun '(a, v) ram => write_u32 a v ram) (fun _ => 0) sample_fields).

Lemma write_u32_byte a v ram y : 0 <= ram y < 256 -> 0 <= write_u32 a v ram y < 256.
Proof. intros H. unfold write_u32. destruct (_ && _); [apply (bits_range _ 8); lia|exact H]. Qed.

Lemma sample_file_bytes a : 0 <= bk_byte sample_file a < 256.
Proof.
  unfold sample_file, bk_byte. induction sample_fields as [|[b v] l IH]; simpl; [lia|]. by apply write_u32_byte.
Qed.

Lemma sample_file_ok : file_ok sample_file.
Proof. split; [exact sample_file_bytes|..]; vm_compute; congruence. Qed.

Lemma NPDM_parse_accepts_witness :
  exists mask minor major,
    NPDM_parse sample_file = inr (metadata sample_file (mk_priority 28 59) mask minor major) /\ core_range 0 2 mask.
Proof.
  destruct (NPDM_parse_accepts sample_file (7 + Z.shiftl 59 4 + Z.shiftl 28 10 + Z.shiftl 2 24) sample_file_ok)
    as (mask & minor & major & E & Hr).
  - vm_compute. reflexivity.
  - assert (Hw : capability_words sample_file = [7 + Z.shiftl 59 4 + Z.shiftl 28 10 + Z.shiftl 2 24; 0x3FFF + Z.shiftl 3 19])
      by (vm_compute; reflexivity).
    rewrite Hw. repeat (apply Forall_cons; split); try apply Forall_nil; try done; intros _; vm_compute; reflexivity.
  - vm_compute. split; congruence.
  - vm_compute. split; congruence.
  - exists mask, minor, major. split; [exact E|exact Hr].
Defined.

Lemma NPDM_parse_safe_witness :
  exists n, NPDM_parse sample_file = inr n /\ npdm_coreMask n = 7 /\ npdm_majorVersion n = 3 /\ main_thread_ok n.
Proof.
  eexists. split; [vm_compute; reflexivity|]. split; [reflexivity|]. split; [reflexivity|].
  apply (proj2 (NPDM_parse_safe sample_file)). vm_compute. reflexivity.
Defined.
