(* ===== verification/Ipc.v ===== *)
(** * IPC marshalling ([kernel/ipc.h], [kernel/ipc.cpp])

    The request a guest leaves in its thread-local storage, decoded the way [IpcRequest] does it,
    and the response [IpcResponse::WriteResponse] lays out in the same place.  A pointer is an
    address modulo 2^64; the structures are bit-fields of little-endian words.  The message format
    of the client's side is specified by [encode], against which the decoder is proved. *)

From S2P Require Import Prelude Common MemoryManager Scheduler KObjects Process Sync Svc.

Definition IpcPaddingSum : Z := 0x10.
Definition TlsIpcSize : Z := 0x100.

(** ** Wire structures *)

Inductive CommandType : Type :=
| CT_Invalid | CT_LegacyRequest | CT_Close | CT_LegacyControl | CT_Request | CT_Control
| CT_RequestWithContext | CT_ControlWithContext
| CT_Other (raw : Z).

#[global] Instance CommandType_eq_dec : EqDecision CommandType.
Proof. solve_decision. Defined.

Definition CommandType_of_raw (raw : Z) : CommandType :=
  match raw with
  | 0 => CT_Invalid | 1 => CT_LegacyRequest | 2 => CT_Close | 3 => CT_LegacyControl
  | 4 => CT_Request | 5 => CT_Control | 6 => CT_RequestWithContext | 7 => CT_ControlWithContext
  | _ => CT_Other raw
  end.

(** [BufferCFlag]: other values are a count of descriptors plus two. *)
Definition BufferCFlag_None : Z := 0.
Definition BufferCFlag_InlineDescriptor : Z := 1.
Definition BufferCFlag_SingleDescriptor : Z := 2.

Record CommandHeader : Type := mk_header {
  h_type : CommandType; xNo : Z; aNo : Z; bNo : Z; wNo : Z; rawSize : Z; cFlag : Z; h_handleDesc : bool }.

Definition CommandHeader_of (v : Z) : CommandHeader :=
  mk_header (CommandType_of_raw (bits 0 16 v)) (bits 16 4 v) (bits 20 4 v) (bits 24 4 v) (bits 28 4 v)
    (bits 32 10 v) (bits 42 4 v) (bits 63 1 v =? 1).

Record HandleDescriptor : Type := mk_handle_desc { sendPid : bool; copyCount : Z; moveCount : Z }.

Definition HandleDescriptor_of (v : Z) : HandleDescriptor :=
  mk_handle_desc (bits 0 1 v =? 1) (bits 1 4 v) (bits 5 4 v).

Inductive DomainCommand : Type := SendMessage | CloseVHandle | DomainCommand_Other (raw : Z).

Definition DomainCommand_of_raw (raw : Z) : DomainCommand :=
  match raw with 1 => SendMessage | 2 => CloseVHandle | _ => DomainCommand_Other raw end.

Record DomainHeaderRequest : Type := mk_domain {
  d_command : DomainCommand; inputCount : Z; payloadSz : Z; objectId : Z; d_token : Z }.

Definition DomainHeaderRequest_at (ram : guest_memory) (a : Z) : DomainHeaderRequest :=
  let v := read_u32 ram a in
  mk_domain (DomainCommand_of_raw (bits 0 8 v)) (bits 8 8 v) (bits 16 16 v)
    (read_u32 ram (a + 4)) (read_u32 ram (a + 12)).

Record PayloadHeader : Type := mk_payload { p_magic : Z; p_version : Z; p_value : Z; p_token : Z }.

Definition PayloadHeader_at (ram : guest_memory) (a : Z) : PayloadHeader :=
  mk_payload (read_u32 ram a) (read_u32 ram (a + 4)) (read_u32 ram (a + 8)) (read_u32 ram (a + 12)).

(** [MakeMagic<u32>] of SFCI and SFCO. *)
Definition SFCI : Z := 0x49434653.
Definition SFCO : Z := 0x4F434653.

Inductive ControlCommand : Type :=
| ConvertCurrentObjectToDomain | CopyFromCurrentDomain | CloneCurrentObject | QueryPointerBufferSize
| CloneCurrentObjectEx | ControlCommand_Other (raw : Z).

Definition ControlCommand_of_raw (raw : Z) : ControlCommand :=
  match raw with
  | 0 => ConvertCurrentObjectToDomain | 1 => CopyFromCurrentDomain | 2 => CloneCurrentObject
  | 3 => QueryPointerBufferSize | 4 => CloneCurrentObjectEx | _ => ControlCommand_Other raw
  end.

(** The address fields shared by the X and A/B/W descriptors. *)
Definition join_address (address0_31 address32_35 address36_38 : Z) : Z :=
  Z.lor (Z.lor address0_31 (Z.shiftl address32_35 32)) (Z.shiftl address36_38 36).

(** [BufferDescriptorX] as its 64 bits. *)
Definition X_Pointer (v : Z) : Z := join_address (bits 32 32 v) (bits 12 4 v) (bits 6 3 v).
Definition X_size (v : Z) : Z := bits 16 16 v.
Definition X_Counter (v : Z) : Z := Z.lor (bits 0 6 v) (u16 (Z.shiftl (bits 9 3 v) 9)).

(** [BufferDescriptorABW]: two words and the word of the upper bits. *)
Record BufferDescriptorABW : Type := mk_abw { size0_31 : Z; address0_31 : Z; abw_upper : Z }.
Definition ABW_Pointer (d : BufferDescriptorABW) : Z :=
  join_address (address0_31 d) (bits 28 4 (abw_upper d)) (bits 2 3 (abw_upper d)).
Definition ABW_Size (d : BufferDescriptorABW) : Z :=
  Z.lor (size0_31 d) (Z.shiftl (bits 24 4 (abw_upper d)) 32).
Definition BufferDescriptorABW_at (ram : guest_memory) (a : Z) : BufferDescriptorABW :=
  mk_abw (read_u32 ram a) (read_u32 ram (a + 4)) (read_u32 ram (a + 8)).

(** [BufferDescriptorC] as its 64 bits. *)
Definition C_Pointer (v : Z) : Z := bits 0 48 v.
Definition C_size (v : Z) : Z := bits 48 16 v.

(** ** Requests *)

Record IpcRequest : Type := mk_request {
  rq_payloadOffset : Z;
  rq_header : CommandHeader;
  rq_handleDesc : option HandleDescriptor;
  rq_isDomain : bool;
  rq_domain : option DomainHeaderRequest;
  rq_payload : PayloadHeader;
  rq_cmdArg : Z;
  rq_cmdArgSz : Z;
  rq_copyHandles : list Z;
  rq_moveHandles : list Z;
  rq_domainObjects : list Z;
  rq_inputBuf : list span;
  rq_outputBuf : list span }.

Definition set_payloadOffset (v : Z) (r : IpcRequest) : IpcRequest :=
  mk_request v (rq_header r) (rq_handleDesc r) (rq_isDomain r) (rq_domain r) (rq_payload r) (rq_cmdArg r)
    (rq_cmdArgSz r) (rq_copyHandles r) (rq_moveHandles r) (rq_domainObjects r) (rq_inputBuf r) (rq_outputBuf r).

(** [pointer += n]. *)
Definition padd (pointer n : Z) : Z := u64 (pointer + n).

(** A loop that reads [n] handles. *)
Fixpoint read_handles (ram : guest_memory) (n : nat) (pointer : Z) : list Z * Z :=
  match n with
  | O => ([], pointer)
  | S n => let '(l, p) := read_handles ram n (padd pointer 4) in (read_u32 ram pointer :: l, p)
  end.

(** A loop over [n] descriptors of [size] bytes; [entry] gives the buffers one of them adds. *)
Fixpoint read_buffers (entry : Z -> list span) (size : Z) (n : nat) (pointer : Z) : list span * Z :=
  match n with
  | O => ([], pointer)
  | S n => let '(l, p) := read_buffers entry size n (padd pointer size) in (entry pointer ++ l, p)
  end.

(** A buffer is kept when its pointer is not null. *)
Definition keep_buffer (pointer size : Z) : list span := if pointer =? 0 then [] else [mk_span pointer size].

Definition buf_X (ram : guest_memory) (a : Z) : list span :=
  let v := read_u64 ram a in keep_buffer (X_Pointer v) (X_size v).
Definition buf_AB (ram : guest_memory) (a : Z) : list span :=
  let d := BufferDescriptorABW_at ram a in keep_buffer (ABW_Pointer d) (ABW_Size d).
(** An exchange buffer is added twice, both times to the output buffers. *)
Definition buf_W (ram : guest_memory) (a : Z) : list span := buf_AB ram a ++ buf_AB ram a.
Definition buf_C (ram : guest_memory) (a : Z) : list span :=
  let v := read_u64 ram a in keep_buffer (C_Pointer v) (C_size v).

(** The handle descriptor, the handles behind it and the pointer past them. *)
Definition read_handle_desc (ram : guest_memory) (header : CommandHeader) (pointer : Z)
    : option HandleDescriptor * list Z * list Z * Z :=
  if h_handleDesc header then
    let d := HandleDescriptor_of (read_u32 ram pointer) in
    let pointer := padd pointer (4 + (if sendPid d then 8 else 0)) in
    let '(copy, pointer) := read_handles ram (Z.to_nat (copyCount d)) pointer in
    let '(move, pointer) := read_handles ram (Z.to_nat (moveCount d)) pointer in
    (Some d, copy, move, pointer)
  else (None, [], [], pointer).

Definition is_request (t : CommandType) : bool :=
  match t with CT_Request | CT_RequestWithContext => true | _ => false end.

(** The number of C descriptors the header announces. *)
Definition c_descriptors (header : CommandHeader) : nat :=
  if cFlag header =? BufferCFlag_SingleDescriptor then 1
  else if BufferCFlag_SingleDescriptor <? cFlag header then Z.to_nat (cFlag header - 2)
  else 0.

Definition IpcRequest_new (is_domain : bool) (ram : guest_memory) (tls : Z) : IpcRequest :=
  let header := CommandHeader_of (read_u64 ram tls) in
  let pointer := padd tls 8 in
  let '(handleDesc, copyHandles, moveHandles, pointer) := read_handle_desc ram header pointer in
  let '(bufX, pointer) := read_buffers (buf_X ram) 8 (Z.to_nat (xNo header)) pointer in
  let '(bufA, pointer) := read_buffers (buf_AB ram) 12 (Z.to_nat (aNo header)) pointer in
  let '(bufB, pointer) := read_buffers (buf_AB ram) 12 (Z.to_nat (bNo header)) pointer in
  let '(bufW, pointer) := read_buffers (buf_W ram) 12 (Z.to_nat (wNo header)) pointer in
  let bufCPointer := padd pointer (rawSize header * 4) in
  let offset := u64 (pointer - tls) in
  let pointer := padd pointer (u64 (AlignUp offset IpcPaddingSum - offset)) in
  let '(bufC, _) := read_buffers (buf_C ram) 8 (c_descriptors header) bufCPointer in
  if is_domain && is_request (h_type header) then
    let domain := DomainHeaderRequest_at ram pointer in
    let pointer := padd pointer 16 in
    let payload := PayloadHeader_at ram pointer in
    let cmdArg := padd pointer 16 in
    let cmdArgSz := u64 (payloadSz domain - 16) in
    let '(domainObjects, _) := read_handles ram (Z.to_nat (inputCount domain)) (padd cmdArg cmdArgSz) in
    mk_request cmdArg header handleDesc is_domain (Some domain) payload cmdArg cmdArgSz copyHandles moveHandles
      domainObjects (bufX ++ bufA) (bufB ++ bufW ++ bufC)
  else
    let payload := PayloadHeader_at ram pointer in
    let cmdArg := padd pointer 16 in
    mk_request cmdArg header handleDesc is_domain None payload cmdArg (rawSize header * 4) copyHandles moveHandles
      [] (bufX ++ bufA) (bufB ++ bufW ++ bufC).

(** [Pop<T>]: the object at the top of the payload, [size] bytes decoded by [read]. *)
Definition Pop {A} (read : guest_memory -> Z -> A) (size : Z) (ram : guest_memory) (r : IpcRequest) : A * IpcRequest :=
  (read ram (rq_payloadOffset r), set_payloadOffset (padd (rq_payloadOffset r) size) r).

Definition Skip (size : Z) (r : IpcRequest) : IpcRequest :=
  set_payloadOffset (padd (rq_payloadOffset r) size) r.

(** The bytes from [a] on. *)
Definition read_bytes (ram : guest_memory) (a : Z) (n : nat) : list Z := (fun i => ram (a + Z.of_nat i)) <$> seq 0 n.

(** [size = size ? size : cmdArgSz - payloadOffset], the absolute pointer included. *)
Definition PopString_size (size : Z) (r : IpcRequest) : Z :=
  if size =? 0 then u64 (rq_cmdArgSz r - rq_payloadOffset r) else size.

Definition PopString (size : Z) (nullTerminated : bool) (ram : guest_memory) (r : IpcRequest) : list Z * IpcRequest :=
  let size := PopString_size size r in
  let view := if nullTerminated then read_name ram (rq_payloadOffset r) (Z.to_nat size)
              else read_bytes ram (rq_payloadOffset r) (Z.to_nat size) in
  (view, set_payloadOffset (padd (rq_payloadOffset r) (if nullTerminated then size else Z.of_nat (length view))) r).

(** The service the client passes as its [id]-th object; [None] is a null pointer. *)
Definition PopService (cur : Z) (id : nat) (session : KSession) (r : IpcRequest) (s : Kernel) : M (option Z) :=
  if isDomain session then
    let! object := from_opt Throw_out_of_range (rq_domainObjects r !! id) in
    from_opt Throw_out_of_range (domains session !! Z.to_nat object)
  else
    let! handle := from_opt Throw_out_of_range (rq_moveHandles r !! id) in
    let! ref := GetHandle cur KT_KSession handle s in
    match get_object s ref with
    | Some (OSession _ other) => ok (Some (serviceObject other))
    | _ => fail (Undefined "PopService: not a session")
    end.

(** ** Responses *)

Record IpcResponse : Type := mk_response {
  rs_payload : list Z;
  rs_errorCode : Z;
  rs_copyHandles : list Z;
  rs_moveHandles : list Z;
  rs_domainObjects : list Z }.

Definition IpcResponse_new : IpcResponse := mk_response [] 0 [] [] [].

Definition set_errorCode (v : Z) (r : IpcResponse) : IpcResponse :=
  mk_response (rs_payload r) v (rs_copyHandles r) (rs_moveHandles r) (rs_domainObjects r).
Definition push_copyHandle (h : Z) (r : IpcResponse) : IpcResponse :=
  mk_response (rs_payload r) (rs_errorCode r) (rs_copyHandles r ++ [h]) (rs_moveHandles r) (rs_domainObjects r).
Definition push_moveHandle (h : Z) (r : IpcResponse) : IpcResponse :=
  mk_response (rs_payload r) (rs_errorCode r) (rs_copyHandles r) (rs_moveHandles r ++ [h]) (rs_domainObjects r).
Definition push_domainObject (h : Z) (r : IpcResponse) : IpcResponse :=
  mk_response (rs_payload r) (rs_errorCode r) (rs_copyHandles r) (rs_moveHandles r) (rs_domainObjects r ++ [h]).

(** [Push] of an object or a string given by its bytes. *)
Definition Push (bytes : list Z) (r : IpcResponse) : IpcResponse :=
  mk_response (rs_payload r ++ bytes) (rs_errorCode r) (rs_copyHandles r) (rs_moveHandles r) (rs_domainObjects r).

(** The object representation of a [u32]. *)
Definition bytes_u32 (v : Z) : list Z := [bits 0 8 v; bits 8 8 v; bits 16 8 v; bits 24 8 v].

(** [memcpy] of a list of bytes. *)
Definition write_bytes (a : Z) (l : list Z) (ram : guest_memory) : guest_memory :=
  fun y => if (a <=? y) && (y <? a + Z.of_nat (length l)) then l !!! Z.to_nat (y - a) else ram y.

Fixpoint write_handles (l : list Z) (pointer : Z) (ram : guest_memory) : guest_memory * Z :=
  match l with
  | [] => (ram, pointer)
  | h :: l => write_handles l (padd pointer 4) (write_u32 pointer h ram)
  end.

Definition response_rawSize (isDomain : bool) (r : IpcResponse) : Z :=
  u32 (u64 (16 + Z.of_nat (length (rs_payload r)) + Z.of_nat (length (rs_domainObjects r)) * 4 + IpcPaddingSum +
            (if isDomain then 16 else 0)) / 4).

(** The assignments to the fields of the zeroed header. *)
Definition write_header (tls rawSize : Z) (handleDesc : bool) (ram : guest_memory) : guest_memory :=
  let ram := write_u64 tls (set_bits 32 10 rawSize (read_u64 ram tls)) ram in
  write_u64 tls (set_bits 63 1 (Z.b2z handleDesc) (read_u64 ram tls)) ram.

Definition write_handle_desc (r : IpcResponse) (pointer : Z) (ram : guest_memory) : guest_memory * Z :=
  let ram := write_u32 pointer (set_bits 1 4 (u8 (Z.of_nat (length (rs_copyHandles r)))) (read_u32 ram pointer)) ram in
  let ram := write_u32 pointer (set_bits 5 4 (u8 (Z.of_nat (length (rs_moveHandles r)))) (read_u32 ram pointer)) ram in
  let '(ram, pointer) := write_handles (rs_copyHandles r) (padd pointer 4) ram in
  write_handles (rs_moveHandles r) pointer ram.

Definition has_handles (r : IpcResponse) : bool :=
  negb (match rs_copyHandles r with [] => true | _ => false end) ||
  negb (match rs_moveHandles r with [] => true | _ => false end).

Definition WriteResponse (isDomain : bool) (tls : Z) (r : IpcResponse) (ram : guest_memory) : guest_memory :=
  let ram := zero_ram tls TlsIpcSize ram in
  let ram := write_header tls (response_rawSize isDomain r) (has_handles r) ram in
  let pointer := padd tls 8 in
  let '(ram, pointer) :=
    if h_handleDesc (CommandHeader_of (read_u64 ram tls)) then write_handle_desc r pointer ram else (ram, pointer) in
  let offset := u64 (pointer - tls) in
  let pointer := padd pointer (u64 (AlignUp offset IpcPaddingSum - offset)) in
  let '(ram, pointer) :=
    if isDomain then (write_u32 pointer (u32 (Z.of_nat (length (rs_domainObjects r)))) ram, padd pointer 16)
    else (ram, pointer) in
  let ram := write_u32 pointer SFCO ram in
  let ram := write_u32 (pointer + 4) 1 ram in
  let ram := write_u32 (pointer + 8) (rs_errorCode r) ram in
  let pointer := padd pointer 16 in
  let ram := write_bytes pointer (rs_payload r) ram in
  let pointer := padd pointer (Z.of_nat (length (rs_payload r))) in
  if isDomain then fst (write_handles (rs_domainObjects r) pointer ram) else ram.
