(* ===== verification/IpcFormat.v ===== *)
(** * The IPC message format

    The layout of a request as a client writes it, as a list of 32-bit words, and the proof that
    [IpcRequest_new] decodes every well-formed request; the layout of the responses of
    [WriteResponse] in the same terms. *)

From S2P Require Import Prelude Common MemoryManager Scheduler KObjects Process Sync Svc Ipc.

(** ** Bit-fields packed into a word *)

(** Fields of a width and a value, the lowest first. *)
Fixpoint pack (fs : list (Z * Z)) : Z :=
  match fs with [] => 0 | (n, v) :: fs => v + 2 ^ n * pack fs end.

Definition width (fs : list (Z * Z)) : Z := fold_right (fun f t => fst f + t) 0 fs.

Definition field_fits (f : Z * Z) : Prop := 0 <= fst f /\ 0 <= snd f < 2 ^ fst f.

Lemma width_nonneg fs : Forall field_fits fs -> 0 <= width fs.
Proof. induction 1 as [|[n v] fs [Hn _] _ IH]; simpl in *; lia. Qed.

Lemma pack_range fs : Forall field_fits fs -> 0 <= pack fs < 2 ^ width fs.
Proof.
  induction 1 as [|[n v] fs [Hn Hv] Hfs IH]; simpl in *; [done|].
  pose proof (width_nonneg _ Hfs). rewrite Z.pow_add_r by lia. nia.
Qed.

Lemma bits_pack_skip n v fs s m :
  field_fits (n, v) -> n <= s -> 0 <= m -> bits s m (v + 2 ^ n * fs) = bits (s - n) m fs.
Proof.
  intros [Hn Hv] Hs Hm. simpl in *. rewrite !bits_div_mod by lia. f_equal.
  replace s with (n + (s - n)) at 1 by lia. rewrite Z.pow_add_r, <- Z.div_div by lia. f_equal.
  rewrite (Z.mul_comm (2 ^ n)), Z.div_add, Z.div_small by lia. lia.
Qed.

Lemma bits_pack_head n v fs : field_fits (n, v) -> bits 0 n (v + 2 ^ n * fs) = v.
Proof.
  intros [Hn Hv]. simpl in *. rewrite bits_div_mod, Z.pow_0_r, Z.div_1_r by lia.
  rewrite (Z.mul_comm (2 ^ n)), Z.mod_add, Z.mod_small by lia. done.
Qed.

(** A field is read back at its position. *)
Lemma bits_pack i fs n v s :
  fs !! i = Some (n, v) -> width (take i fs) = s -> Forall field_fits fs -> bits s n (pack fs) = v.
Proof.
  revert fs s. induction i as [|i IH]; intros [|[m u] fs] s Hi Hs Hf; simplify_eq/=.
  - apply bits_pack_head. by inversion Hf.
  - inversion Hf as [|? ? Hm Hf']; subst. destruct Hm as [Hm Hu]. simpl in *.
    assert (Hn : 0 <= n) by (rewrite Forall_forall in Hf'; apply (Hf' (n, v)); by eapply list_elem_of_lookup_2).
    pose proof (width_nonneg (take i fs) ltac:(by apply Forall_take)).
    rewrite bits_pack_skip by (done || lia). apply IH; [done|lia|done].
Qed.

(** The three pieces of an address. *)
Lemma join_address_split a :
  0 <= a < 2 ^ 39 -> join_address (bits 0 32 a) (bits 32 4 a) (bits 36 3 a) = a.
Proof.
  intros Ha. unfold join_address. apply Z.bits_inj'. intros i Hi.
  rewrite !Z.lor_spec, !Z.shiftl_spec, testbit_bits, Z.add_0_r by lia.
  destruct (Z_lt_le_dec i 32); [rewrite !(Z.testbit_neg_r _ (i - _)) by lia; destruct (Z.ltb_spec i 32); [by rewrite !orb_false_r|lia]|].
  destruct (Z.ltb_spec i 32); [lia|]. rewrite testbit_bits by lia. replace (i - 32 + 32) with i by lia.
  destruct (Z_lt_le_dec i 36).
  { rewrite (Z.testbit_neg_r _ (i - 36)) by lia. destruct (Z.ltb_spec (i - 32) 4); [by rewrite orb_false_r|lia]. }
  destruct (Z.ltb_spec (i - 32) 4); [lia|]. rewrite testbit_bits by lia. replace (i - 36 + 36) with i by lia. simpl.
  destruct (Z.ltb_spec (i - 36) 3); [done|]. symmetry. apply (testbit_high a 39); lia.
Qed.

Lemma lor_split n m a : 0 <= n -> 0 <= m -> 0 <= a < 2 ^ (n + m) -> Z.lor (bits 0 n a) (Z.shiftl (bits n m a) n) = a.
Proof.
  intros Hn Hm Ha. apply Z.bits_inj'. intros i Hi.
  rewrite Z.lor_spec, Z.shiftl_spec, testbit_bits, Z.add_0_r by lia.
  destruct (Z.ltb_spec i n); [rewrite (Z.testbit_neg_r _ (i - n)) by lia; by rewrite orb_false_r|].
  rewrite testbit_bits by lia. replace (i - n + n) with i by lia.
  destruct (Z.ltb_spec (i - n) m); [done|]. symmetry. apply (testbit_high a (n + m)); lia.
Qed.

Lemma add_split n m a : 0 <= n -> 0 <= m -> 0 <= a < 2 ^ (n + m) -> bits 0 n a + Z.shiftl (bits n m a) n = a.
Proof.
  intros Hn Hm Ha. rewrite Z.shiftl_mul_pow2, !bits_div_mod, Z.pow_0_r, Z.div_1_r by lia.
  rewrite (Z.mod_small (a / 2 ^ n)); [pose proof (Z.div_mod a (2 ^ n)); lia|].
  rewrite Z.pow_add_r in Ha by lia. split; [apply Z.div_pos; lia|apply Z.div_lt_upper_bound; lia].
Qed.

(** ** Words in memory *)

Definition holds (ram : guest_memory) (a : Z) (l : list Z) : Prop :=
  forall i v, l !! i = Some v -> read_u32 ram (a + 4 * Z.of_nat i) = v.

Definition words_u64 (v : Z) : list Z := [bits 0 32 v; bits 32 32 v].

Lemma holds_app ram a l l' : holds ram a (l ++ l') <-> holds ram a l /\ holds ram (a + 4 * Z.of_nat (length l)) l'.
Proof.
  split.
  - intros H. split; intros i v Hi.
    + apply H. by apply lookup_app_l_Some.
    + rewrite <- Z.add_assoc, <- Z.mul_add_distr_l, <- Nat2Z.inj_add. apply H. rewrite lookup_app_r by lia.
      by replace (length l + i - length l)%nat with i by lia.
  - intros [H1 H2] i v Hi. apply lookup_app_Some in Hi as [Hi|[Hl Hi]]; [by apply H1|].
    rewrite <- (H2 _ _ Hi). f_equal. lia.
Qed.

Lemma holds_cons ram a v l : holds ram a (v :: l) <-> read_u32 ram a = v /\ holds ram (a + 4) l.
Proof.
  change (v :: l) with ([v] ++ l). rewrite holds_app. change (4 * Z.of_nat (length [v])) with 4.
  apply and_iff_compat_r. split.
  - intros H. rewrite <- (H 0%nat v eq_refl). f_equal. lia.
  - intros H [|i] u Hu; [|done]. injection Hu as <-. rewrite <- H. f_equal. lia.
Qed.

Lemma holds_u64 ram a v : 0 <= v < 2 ^ 64 -> holds ram a (words_u64 v) -> read_u64 ram a = v.
Proof.
  intros Hv [H1 [H2 _]%holds_cons]%holds_cons. unfold read_u64. rewrite H1, H2. by apply (add_split 32 32).
Qed.

Lemma padd_small p n : 0 <= p + n < 2 ^ 64 -> padd p n = p + n.
Proof. apply wrap_small. Qed.

Lemma read_handles_spec ram l p :
  0 <= p -> p + 4 * Z.of_nat (length l) < 2 ^ 64 -> holds ram p l ->
  read_handles ram (length l) p = (l, p + 4 * Z.of_nat (length l)).
Proof.
  revert p. induction l as [|h l IH]; intros p H0 H1 H; simpl length in *; simpl.
  - f_equal. lia.
  - apply holds_cons in H as [Hh H]. rewrite padd_small, IH, Hh by (done || lia). f_equal. lia.
Qed.

(** A loop over descriptors, each of which decodes to its buffers. *)
Lemma read_buffers_spec {A} (enc : A -> list Z) (out : A -> list span) (n : nat) ram entry items p :
  Forall (fun it => length (enc it) = n /\ forall q, holds ram q (enc it) -> entry q = out it) items ->
  0 <= p -> p + 4 * Z.of_nat (n * length items) < 2 ^ 64 -> holds ram p (concat (enc <$> items)) ->
  read_buffers entry (4 * Z.of_nat n) (length items) p =
    (concat (out <$> items), p + 4 * Z.of_nat (n * length items)).
Proof.
  intros Hall. revert p. induction Hall as [|it items [Hl Hit] _ IH]; intros p H0 H1 H; simpl length in *; simpl.
  - f_equal. lia.
  - apply holds_app in H as [Hh H]. rewrite Hl in H. rewrite padd_small, IH by (done || lia).
    rewrite (Hit p Hh). f_equal. lia.
Qed.

(** ** Requests as a client writes them *)

(** The part of a request to an object of a domain. *)
Record DomainPart : Type := mk_domain_part {
  dp_command : Z; dp_objectId : Z; dp_token : Z; dp_objects : list Z }.

(** X descriptors are a counter, an address and a size; the others an address and a size.
    [ms_single] announces one C descriptor by its own flag. *)
Record Message : Type := mk_message {
  ms_type : Z;
  ms_pid : option Z;
  ms_copy : list Z;
  ms_move : list Z;
  ms_x : list (Z * Z * Z);
  ms_a : list (Z * Z);
  ms_b : list (Z * Z);
  ms_w : list (Z * Z);
  ms_c : list (Z * Z);
  ms_single : bool;
  ms_domain : option DomainPart;
  ms_payload : PayloadHeader;
  ms_args : list Z }.

Definition len {A} (l : list A) : Z := Z.of_nat (length l).

Definition is_nil {A} (l : list A) : bool := match l with [] => true | _ => false end.

Definition has_desc (m : Message) : bool :=
  bool_decide (is_Some (ms_pid m)) || negb (is_nil (ms_copy m)) || negb (is_nil (ms_move m)).

Definition c_flag (m : Message) : Z := if ms_single m then 2 else if is_nil (ms_c m) then 0 else len (ms_c m) + 2.

Definition handle_desc_words (m : Message) : list Z :=
  if has_desc m then
    pack [(1, Z.b2z (bool_decide (is_Some (ms_pid m)))); (4, len (ms_copy m)); (4, len (ms_move m)); (23, 0)] ::
    match ms_pid m with Some pid => words_u64 pid | None => [] end ++ ms_copy m ++ ms_move m
  else [].

Definition X_words (d : Z * Z * Z) : list Z :=
  let '(counter, address, size) := d in
  words_u64 (pack [(6, bits 0 6 counter); (3, bits 36 3 address); (3, bits 9 3 counter); (4, bits 32 4 address);
                   (16, size); (32, bits 0 32 address)]).

Definition ABW_words (d : Z * Z) : list Z :=
  let '(address, size) := d in
  [bits 0 32 size; bits 0 32 address;
   pack [(2, 0); (3, bits 36 3 address); (19, 0); (4, bits 32 4 size); (4, bits 32 4 address)]].

Definition C_words (d : Z * Z) : list Z := words_u64 (pack [(48, fst d); (16, snd d)]).

Definition payload_words (p : PayloadHeader) : list Z := [p_magic p; p_version p; p_value p; p_token p].

(** The words between the descriptors and the payload, which is aligned to 16 bytes. *)
Definition pad (n : nat) : nat := ((4 - n mod 4) mod 4)%nat.

Definition domain_words (m : Message) : list Z :=
  match ms_domain m with
  | Some d => [pack [(8, dp_command d); (8, len (dp_objects d)); (16, 16 + 4 * len (ms_args m))]; dp_objectId d; 0; dp_token d]
  | None => []
  end.

Definition domain_objects (m : Message) : list Z := match ms_domain m with Some d => dp_objects d | None => [] end.

Definition body (m : Message) : list Z :=
  domain_words m ++ payload_words (ms_payload m) ++ ms_args m ++ domain_objects m.

Definition descriptors (m : Message) : list Z :=
  handle_desc_words m ++ concat (X_words <$> ms_x m) ++ concat (ABW_words <$> ms_a m) ++
  concat (ABW_words <$> ms_b m) ++ concat (ABW_words <$> ms_w m).

(** The raw data section: the padding in front of and behind it makes up 16 bytes. *)
Definition prefix_length (m : Message) : nat := 2 + length (descriptors m).
Definition raw (m : Message) : list Z :=
  replicate (pad (prefix_length m)) 0 ++ body m ++ replicate (4 - pad (prefix_length m)) 0.

Definition header_word (m : Message) : Z :=
  pack [(16, ms_type m); (4, len (ms_x m)); (4, len (ms_a m)); (4, len (ms_b m)); (4, len (ms_w m));
        (10, len (raw m)); (4, c_flag m); (17, 0); (1, Z.b2z (has_desc m))].

Definition encode (m : Message) : list Z :=
  words_u64 (header_word m) ++ descriptors m ++ raw m ++ concat (C_words <$> ms_c m).

Definition address_ok (n k : Z) (d : Z * Z) : Prop := 0 <= fst d < 2 ^ n /\ 0 <= snd d < 2 ^ k.

Record message_ok (m : Message) : Prop := mk_message_ok {
  mo_type : 0 <= ms_type m < 2 ^ 16;
  mo_copy : (length (ms_copy m) < 16)%nat;
  mo_move : (length (ms_move m) < 16)%nat;
  mo_x : (length (ms_x m) < 16)%nat;
  mo_a : (length (ms_a m) < 16)%nat;
  mo_b : (length (ms_b m) < 16)%nat;
  mo_w : (length (ms_w m) < 16)%nat;
  mo_x_ok : Forall (fun d => address_ok 39 16 (d.1.2, d.2)) (ms_x m);
  mo_a_ok : Forall (address_ok 39 36) (ms_a m);
  mo_b_ok : Forall (address_ok 39 36) (ms_b m);
  mo_w_ok : Forall (address_ok 39 36) (ms_w m);
  mo_c_ok : Forall (address_ok 48 16) (ms_c m);
  mo_raw : (length (raw m) < 1024)%nat;
  mo_c : if ms_single m then length (ms_c m) = 1%nat else (length (ms_c m) < 14)%nat;
  mo_domain : match ms_domain m with
              | Some d => 0 <= dp_command d < 2 ^ 8 /\ (length (dp_objects d) < 256)%nat /\
                          is_request (CommandType_of_raw (ms_type m)) = true
              | None => True
              end }.

(** What the decoder makes of a message in a session of the given kind. *)
Definition message_header (m : Message) : CommandHeader :=
  mk_header (CommandType_of_raw (ms_type m)) (len (ms_x m)) (len (ms_a m)) (len (ms_b m)) (len (ms_w m))
    (len (raw m)) (c_flag m) (has_desc m).

Definition message_handle_desc (m : Message) : option HandleDescriptor :=
  if has_desc m
  then Some (mk_handle_desc (bool_decide (is_Some (ms_pid m))) (len (ms_copy m)) (len (ms_move m))) else None.

Definition keep (d : Z * Z) : list span := keep_buffer (fst d) (snd d).

Definition message_input (m : Message) : list span :=
  concat ((fun d => keep (d.1.2, d.2)) <$> ms_x m) ++ concat (keep <$> ms_a m).
Definition message_output (m : Message) : list span :=
  concat (keep <$> ms_b m) ++ concat ((fun d => keep d ++ keep d) <$> ms_w m) ++ concat (keep <$> ms_c m).

Definition body_address (m : Message) (tls : Z) : Z :=
  tls + 4 * Z.of_nat (prefix_length m + pad (prefix_length m)).

Definition decoded (m : Message) (is_domain : bool) (tls : Z) : IpcRequest :=
  let p := body_address m tls in
  match ms_domain m with
  | Some d =>
      mk_request (p + 32) (message_header m) (message_handle_desc m) is_domain
        (Some (mk_domain (DomainCommand_of_raw (dp_command d)) (len (dp_objects d)) (16 + 4 * len (ms_args m))
                 (dp_objectId d) (dp_token d)))
        (ms_payload m) (p + 32) (4 * len (ms_args m)) (ms_copy m) (ms_move m) (dp_objects d)
        (message_input m) (message_output m)
  | None =>
      mk_request (p + 16) (message_header m) (message_handle_desc m) is_domain None
        (ms_payload m) (p + 16) (4 * len (raw m)) (ms_copy m) (ms_move m) []
        (message_input m) (message_output m)
  end.

(** ** Decoding *)

Ltac solve_fits :=
  repeat (apply Forall_cons; split); [..|apply Forall_nil];
  unfold field_fits; simpl fst; simpl snd;
  try (split; [lia|]); try (apply bits_range; lia); unfold len in *; try lia.

Lemma b2z_fits b : 0 <= Z.b2z b < 2 ^ 1.
Proof. destruct b; simpl; lia. Qed.

Lemma length_concat_const {A B} (f : A -> list B) n l :
  Forall (fun a => length (f a) = n) l -> length (concat (f <$> l)) = (n * length l)%nat.
Proof. induction 1 as [|a l Ha _ IH]; [simpl; lia|]. rewrite fmap_cons. cbn [concat]. rewrite length_app, Ha, IH. simpl. lia. Qed.

Lemma X_words_length d : length (X_words d) = 2%nat.
Proof. by destruct d as [[c a] s]. Qed.
Lemma ABW_words_length d : length (ABW_words d) = 3%nat.
Proof. by destruct d as [a s]. Qed.

Lemma X_decodes ram q d :
  address_ok 39 16 (d.1.2, d.2) -> holds ram q (X_words d) -> buf_X ram q = keep (d.1.2, d.2).
Proof.
  destruct d as [[c a] s]. intros [Ha Hs] H. simpl in *. unfold buf_X.
  set (fs := [(6, bits 0 6 c); (3, bits 36 3 a); (3, bits 9 3 c); (4, bits 32 4 a); (16, s); (32, bits 0 32 a)]) in *.
  assert (Hf : Forall field_fits fs) by solve_fits.
  rewrite (holds_u64 ram q (pack fs)) by (exact (pack_range fs Hf) || exact H). unfold X_Pointer, X_size.
  rewrite (bits_pack 5 fs 32 _ 32), (bits_pack 3 fs 4 _ 12), (bits_pack 1 fs 3 _ 6), (bits_pack 4 fs 16 _ 16) by done.
  by rewrite join_address_split.
Qed.

Lemma ABW_decodes ram q d : address_ok 39 36 d -> holds ram q (ABW_words d) -> buf_AB ram q = keep d.
Proof.
  destruct d as [a s]. intros [Ha Hs] H. simpl fst in *. simpl snd in *. unfold buf_AB, ABW_words in *.
  apply holds_cons in H as [H1 [H2 [H3 _]%holds_cons]%holds_cons]. rewrite <- Z.add_assoc in H3.
  unfold BufferDescriptorABW_at. rewrite H1, H2. change (4 + 4) with 8 in H3. rewrite H3.
  unfold ABW_Pointer, ABW_Size. cbn [size0_31 address0_31 abw_upper].
  set (fs := [(2, 0); (3, bits 36 3 a); (19, 0); (4, bits 32 4 s); (4, bits 32 4 a)]).
  assert (Hf : Forall field_fits fs) by solve_fits.
  rewrite (bits_pack 4 fs 4 _ 28), (bits_pack 3 fs 4 _ 24), (bits_pack 1 fs 3 _ 2) by done.
  by rewrite join_address_split, (lor_split 32 4) by done.
Qed.

Lemma C_decodes ram q d : address_ok 48 16 d -> holds ram q (C_words d) -> buf_C ram q = keep d.
Proof.
  destruct d as [a s]. intros [Ha Hs] H. simpl fst in *. simpl snd in *. unfold buf_C, C_words in *.
  set (fs := [(48, a); (16, s)]) in *. assert (Hf : Forall field_fits fs) by solve_fits.
  rewrite (holds_u64 ram q (pack fs)) by (exact (pack_range fs Hf) || exact H). unfold C_Pointer, C_size.
  by rewrite (bits_pack 0 fs 48 _ 0), (bits_pack 1 fs 16 _ 48) by done.
Qed.

Lemma c_flag_range m : message_ok m -> 0 <= c_flag m < 16.
Proof.
  intros H. pose proof (mo_c _ H) as Hc. unfold c_flag, len. destruct (ms_single m); [lia|].
  destruct (is_nil (ms_c m)); lia.
Qed.

Lemma header_fits m : message_ok m -> Forall field_fits
  [(16, ms_type m); (4, len (ms_x m)); (4, len (ms_a m)); (4, len (ms_b m)); (4, len (ms_w m));
   (10, len (raw m)); (4, c_flag m); (17, 0); (1, Z.b2z (has_desc m))].
Proof.
  intros H. pose proof (c_flag_range m H). destruct H. solve_fits. apply b2z_fits.
Qed.

Lemma b2z_eqb b : (Z.b2z b =? 1) = b.
Proof. by destruct b. Qed.

Lemma header_decodes m : message_ok m -> CommandHeader_of (header_word m) = message_header m.
Proof.
  intros H. pose proof (header_fits m H) as Hf. unfold CommandHeader_of, header_word, message_header.
  match goal with |- context [pack ?l] => set (fs := l) in * end.
  rewrite (bits_pack 0 fs 16 _ 0), (bits_pack 1 fs 4 _ 16), (bits_pack 2 fs 4 _ 20), (bits_pack 3 fs 4 _ 24),
    (bits_pack 4 fs 4 _ 28), (bits_pack 5 fs 10 _ 32), (bits_pack 6 fs 4 _ 42), (bits_pack 8 fs 1 _ 63), b2z_eqb by done.
  done.
Qed.

Lemma handle_desc_decodes m ram p :
  message_ok m -> 0 <= p -> p + 2 ^ 12 < 2 ^ 64 -> holds ram p (handle_desc_words m) ->
  read_handle_desc ram (message_header m) p =
    (message_handle_desc m, ms_copy m, ms_move m, p + 4 * Z.of_nat (length (handle_desc_words m))).
Proof.
  intros H Hp0 Hp. pose proof (mo_copy _ H). pose proof (mo_move _ H).
  unfold read_handle_desc, handle_desc_words, message_handle_desc, message_header, h_handleDesc.
  destruct (has_desc m) eqn:Ed.
  2:{ intros _. unfold has_desc in Ed. destruct (ms_copy m), (ms_move m); simpl in *; rewrite ?orb_true_r in Ed; try done.
      by rewrite Z.mul_0_r, Z.add_0_r. }
  match goal with |- context [pack ?l] => set (fs := l) in * end.
  assert (Hf : Forall field_fits fs) by (solve_fits; apply b2z_fits).
  intros [-> Hh]%holds_cons. apply holds_app in Hh as [_ Hh]. apply holds_app in Hh as [Hc Hm].
  unfold HandleDescriptor_of.
  rewrite (bits_pack 0 fs 1 _ 0), (bits_pack 1 fs 4 _ 1), (bits_pack 2 fs 4 _ 5), b2z_eqb by done.
  cbn [sendPid copyCount moveCount]. unfold len. rewrite !Nat2Z.id.
  set (k := match ms_pid m with Some pid => words_u64 pid | None => [] end) in *.
  assert (Hk : (if bool_decide (is_Some (ms_pid m)) then 8 else 0) = 4 * Z.of_nat (length k)).
  { unfold k. by destruct (ms_pid m). }
  assert (Hkb : (length k <= 2)%nat) by (unfold k; destruct (ms_pid m); simpl; lia).
  rewrite Hk, padd_small by lia. rewrite <- Z.add_assoc in Hc. rewrite <- (Z.add_assoc p 4) in Hm.
  rewrite (read_handles_spec _ (ms_copy m)) by (done || lia). cbv beta iota.
  rewrite (read_handles_spec _ (ms_move m)) by (done || lia).
  f_equal. rewrite length_cons, !length_app. lia.
Qed.

Lemma align_pad n : Z.of_nat n < 2 ^ 16 -> AlignUp (4 * Z.of_nat n) 16 = 4 * Z.of_nat (n + pad n).
Proof.
  intros Hn. rewrite (AlignUp_spec _ 4) by lia. unfold pad. change (2 ^ 4) with 16.
  pose proof (Nat.div_mod_eq n 4) as En. pose proof (Nat.mod_upper_bound n 4 ltac:(lia)) as Hr.
  set (q := (n / 4)%nat) in *. set (r := (n mod 4)%nat) in *. clearbody q r. subst n.
  assert (Hd : (r = 0 \/ r = 1 \/ r = 2 \/ r = 3)%nat) by lia.
  destruct Hd as [->|[->|[->| ->]]]; cbn [Nat.sub Nat.modulo Nat.divmod fst snd];
    match goal with |- context [?t mod 16] =>
      pose proof (Z.mod_pos_bound t 16 ltac:(lia)); pose proof (Z.div_mod t 16 ltac:(lia)); lia end.
Qed.

Lemma pad_bound n : (pad n < 4)%nat.
Proof. unfold pad. apply Nat.mod_upper_bound. lia. Qed.

Lemma payload_decodes ram a p l : holds ram a (payload_words p ++ l) -> PayloadHeader_at ram a = p.
Proof.
  intros [H _]%holds_app. apply holds_cons in H as [H1 [H2 [H3 [H4 _]%holds_cons]%holds_cons]%holds_cons].
  unfold PayloadHeader_at. rewrite <- !Z.add_assoc in *. change (4 + (4 + 4)) with 12 in H4. change (4 + 4) with 8 in H3.
  rewrite H1, H2, H3, H4. by destruct p.
Qed.

Lemma domain_decodes ram a m d :
  ms_domain m = Some d -> message_ok m -> holds ram a (domain_words m) ->
  DomainHeaderRequest_at ram a =
    mk_domain (DomainCommand_of_raw (dp_command d)) (len (dp_objects d)) (16 + 4 * len (ms_args m)) (dp_objectId d) (dp_token d).
Proof.
  intros Ed H Hh. pose proof (mo_domain _ H) as Hd. pose proof (mo_raw _ H) as Hr. rewrite Ed in Hd.
  destruct Hd as (Hc & Ho & _). unfold raw, body in Hr. rewrite !length_app in Hr.
  unfold domain_words in Hh. rewrite Ed in Hh.
  apply holds_cons in Hh as [H1 [H2 [_ [H4 _]%holds_cons]%holds_cons]%holds_cons].
  rewrite <- !Z.add_assoc in *. change (4 + (4 + 4)) with 12 in H4.
  unfold DomainHeaderRequest_at. rewrite H1, H2, H4.
  match goal with |- context [pack ?l] => set (fs := l) in * end.
  assert (Hf : Forall field_fits fs) by solve_fits.
  by rewrite (bits_pack 0 fs 8 _ 0), (bits_pack 1 fs 8 _ 8), (bits_pack 2 fs 16 _ 16) by done.
Qed.

Lemma c_descriptors_length m : message_ok m -> c_descriptors (message_header m) = length (ms_c m).
Proof.
  intros H. pose proof (mo_c _ H) as Hc. unfold c_descriptors, message_header, c_flag, cFlag, BufferCFlag_SingleDescriptor, len.
  destruct (ms_single m); [by rewrite Hc|]. destruct (ms_c m) as [|c l] eqn:E; [done|]. cbn [is_nil].
  rewrite length_cons. destruct (Z.eqb_spec (Z.of_nat (S (length l)) + 2) 2); [lia|].
  destruct (Z.ltb_spec 2 (Z.of_nat (S (length l)) + 2)); lia.
Qed.

Lemma descriptors_length m :
  length (descriptors m) =
    (length (handle_desc_words m) + 2 * length (ms_x m) + 3 * length (ms_a m) + 3 * length (ms_b m) + 3 * length (ms_w m))%nat.
Proof.
  unfold descriptors. rewrite !length_app, (length_concat_const X_words 2), !(length_concat_const ABW_words 3);
    [lia|apply Forall_true; intros; apply X_words_length || apply ABW_words_length..].
Qed.

Lemma handle_desc_words_length m : message_ok m -> (length (handle_desc_words m) <= 33)%nat.
Proof.
  intros H. destruct H. unfold handle_desc_words. destruct (has_desc m); simpl; [|lia].
  rewrite !length_app. destruct (ms_pid m); simpl; lia.
Qed.

Lemma prefix_length_bound m : message_ok m -> (prefix_length m <= 200)%nat.
Proof.
  intros H. pose proof (handle_desc_words_length m H). unfold prefix_length. rewrite descriptors_length. destruct H. lia.
Qed.

(** The whole of the descriptors, decoded one kind after the other. *)
Lemma descriptors_decode m ram p :
  message_ok m -> 0 <= p -> p + 2 ^ 12 < 2 ^ 64 -> holds ram p (descriptors m) ->
  exists p1 p2 p3 p4,
    read_handle_desc ram (message_header m) p = (message_handle_desc m, ms_copy m, ms_move m, p1) /\
    read_buffers (buf_X ram) 8 (length (ms_x m)) p1 = (concat ((fun d => keep (d.1.2, d.2)) <$> ms_x m), p2) /\
    read_buffers (buf_AB ram) 12 (length (ms_a m)) p2 = (concat (keep <$> ms_a m), p3) /\
    read_buffers (buf_AB ram) 12 (length (ms_b m)) p3 = (concat (keep <$> ms_b m), p4) /\
    read_buffers (buf_W ram) 12 (length (ms_w m)) p4 =
      (concat ((fun d => keep d ++ keep d) <$> ms_w m), p + 4 * Z.of_nat (length (descriptors m))).
Proof.
  intros H Hp0 Hp Hh. pose proof (prefix_length_bound m H) as Hb. unfold prefix_length in Hb. rewrite descriptors_length in *.
  unfold descriptors in Hh. apply holds_app in Hh as [Hd Hh]. apply holds_app in Hh as [Hx Hh].
  apply holds_app in Hh as [Ha Hh]. apply holds_app in Hh as [Hbb Hw].
  rewrite (length_concat_const X_words 2) in * by (apply Forall_true; intros; apply X_words_length).
  rewrite !(length_concat_const ABW_words 3) in * by (apply Forall_true; intros; apply ABW_words_length).
  eexists _, _, _, _. split; [by apply handle_desc_decodes|].
  assert (Hxs : Forall (fun d => length (X_words d) = 2%nat /\ forall q, holds ram q (X_words d) -> buf_X ram q = keep (d.1.2, d.2)) (ms_x m)).
  { eapply Forall_impl; [exact (mo_x_ok m H)|]. intros d Hok. split; [apply X_words_length|]. intros q. by apply X_decodes. }
  assert (Habw : forall l, Forall (address_ok 39 36) l ->
    Forall (fun d => length (ABW_words d) = 3%nat /\ forall q, holds ram q (ABW_words d) -> buf_AB ram q = keep d) l).
  { intros l Hl. eapply Forall_impl; [exact Hl|]. intros d Hok. split; [apply ABW_words_length|]. intros q. by apply ABW_decodes. }
  split; [apply (read_buffers_spec X_words _ 2 ram); [done|lia..|done]|].
  split; [apply (read_buffers_spec ABW_words _ 3 ram); [by apply Habw, mo_a_ok|lia..|done]|].
  split; [apply (read_buffers_spec ABW_words _ 3 ram); [by apply Habw, mo_b_ok|lia..|done]|].
  etrans; [apply (read_buffers_spec ABW_words (fun d => keep d ++ keep d) 3 ram); [|lia..|exact Hw]|f_equal; lia].
  eapply Forall_impl; [apply Habw, mo_w_ok, H|]. intros d [Hl Hq]. split; [done|].
  intros q Hh. unfold buf_W. by rewrite Hq.
Qed.

(** The payload section, from its aligned start. *)
Definition read_body (is_domain : bool) (ram : guest_memory) (m : Message) (bufX bufA bufB bufW bufC : list span) (p : Z) : IpcRequest :=
  let header := message_header m in
  if is_domain && is_request (h_type header) then
    let domain := DomainHeaderRequest_at ram p in
    let pointer := padd p 16 in
    let payload := PayloadHeader_at ram pointer in
    let cmdArg := padd pointer 16 in
    let cmdArgSz := u64 (payloadSz domain - 16) in
    let '(domainObjects, _) := read_handles ram (Z.to_nat (inputCount domain)) (padd cmdArg cmdArgSz) in
    mk_request cmdArg header (message_handle_desc m) is_domain (Some domain) payload cmdArg cmdArgSz (ms_copy m) (ms_move m)
      domainObjects (bufX ++ bufA) (bufB ++ bufW ++ bufC)
  else
    let payload := PayloadHeader_at ram p in
    let cmdArg := padd p 16 in
    mk_request cmdArg header (message_handle_desc m) is_domain None payload cmdArg (rawSize header * 4) (ms_copy m) (ms_move m)
      [] (bufX ++ bufA) (bufB ++ bufW ++ bufC).

(** A message for a session of the given kind: requests to a domain carry a domain header. *)
Definition for_session (is_domain : bool) (m : Message) : Prop :=
  match ms_domain m with
  | Some _ => is_domain = true
  | None => is_domain && is_request (CommandType_of_raw (ms_type m)) = false
  end.

Lemma body_decodes is_domain m ram tls bufX bufA bufB bufW bufC :
  message_ok m -> for_session is_domain m -> 0 <= tls -> tls + 2 ^ 13 < 2 ^ 64 ->
  bufX ++ bufA = message_input m -> bufB ++ bufW ++ bufC = message_output m ->
  holds ram (body_address m tls) (body m) ->
  read_body is_domain ram m bufX bufA bufB bufW bufC (body_address m tls) = decoded m is_domain tls.
Proof.
  intros H Hs H0 H1 Hin Hout Hb. pose proof (mo_raw m H) as Hraw. pose proof (prefix_length_bound m H).
  pose proof (pad_bound (prefix_length m)). pose proof (mo_domain m H) as Hd.
  assert (Hp : tls <= body_address m tls <= tls + 2 ^ 10) by (unfold body_address; lia).
  unfold raw in Hraw. rewrite !length_app in Hraw.
  unfold read_body, decoded. rewrite Hin, Hout. unfold for_session in Hs. simpl h_type. simpl rawSize.
  set (p := body_address m tls) in *. unfold body in Hb.
  destruct (ms_domain m) as [d|] eqn:Ed.
  - subst is_domain. destruct Hd as (_ & Ho & ->). apply holds_app in Hb as [Hdw Hb].
    rewrite (domain_decodes ram p m d Ed H Hdw).
    unfold domain_words, domain_objects in Hb. rewrite Ed in Hb. change (4 * Z.of_nat (length _)) with 16 in Hb.
    unfold body, domain_words, domain_objects in Hraw. rewrite Ed, !length_app in Hraw. simpl length in Hraw.
    rewrite (padd_small p 16) by lia. rewrite (payload_decodes _ _ _ _ Hb).
    apply holds_app in Hb as [_ Hb]. apply holds_app in Hb as [_ Hb].
    change (4 * Z.of_nat (length (payload_words _))) with 16 in Hb.
    cbn [payloadSz inputCount andb]. unfold len in *. rewrite (wrap_small 64) by lia.
    rewrite (padd_small (p + 16) 16) by lia. rewrite padd_small by lia. rewrite Nat2Z.id.
    replace (p + 16 + 16 + (16 + 4 * Z.of_nat (length (ms_args m)) - 16))
      with (p + 16 + 16 + 4 * Z.of_nat (length (ms_args m))) by lia.
    rewrite (read_handles_spec ram (dp_objects d)) by (done || lia).
    f_equal; lia.
  - rewrite Hs. unfold domain_words in Hb. rewrite Ed in Hb. rewrite (payload_decodes _ _ _ _ Hb), padd_small by lia.
    f_equal. lia.
Qed.

Lemma IpcRequest_new_decoded is_domain m ram tls :
  message_ok m -> for_session is_domain m -> 0 <= tls -> tls + 2 ^ 13 < 2 ^ 64 ->
  holds ram tls (encode m) ->
  IpcRequest_new is_domain ram tls = decoded m is_domain tls.
Proof.
  intros H Hs H0 H1 Hh. pose proof (prefix_length_bound m H) as Hpl. pose proof (mo_raw m H) as Hraw.
  apply holds_app in Hh as [Hhead Hh]. apply holds_app in Hh as [Hdesc Hh]. apply holds_app in Hh as [Hr Hc].
  change (4 * Z.of_nat (length (words_u64 _))) with 8 in *.
  destruct (descriptors_decode m ram (tls + 8) H ltac:(lia) ltac:(lia) Hdesc) as (p1 & p2 & p3 & p4 & E1 & E2 & E3 & E4 & E5).
  unfold IpcRequest_new. rewrite (holds_u64 _ _ (header_word m)) by (apply (pack_range _ (header_fits m H)) || done).
  rewrite (header_decodes m H), (padd_small tls 8) by lia. rewrite E1. cbv beta iota.
  change (Z.to_nat (xNo (message_header m))) with (Z.to_nat (len (ms_x m))).
  change (Z.to_nat (aNo (message_header m))) with (Z.to_nat (len (ms_a m))).
  change (Z.to_nat (bNo (message_header m))) with (Z.to_nat (len (ms_b m))).
  change (Z.to_nat (wNo (message_header m))) with (Z.to_nat (len (ms_w m))).
  unfold len. rewrite !Nat2Z.id, E2, E3, E4, E5. cbv beta iota. clear E1 E2 E3 E4 E5.
  assert (Ep : tls + 8 + 4 * Z.of_nat (length (descriptors m)) = tls + 4 * Z.of_nat (prefix_length m)) by (unfold prefix_length; lia).
  rewrite Ep in Hr, Hc |- *.
  replace (tls + 4 * Z.of_nat (prefix_length m) - tls) with (4 * Z.of_nat (prefix_length m)) by lia.
  pose proof (pad_bound (prefix_length m)) as Hpad.
  rewrite (wrap_small 64 (4 * _)) by lia. unfold IpcPaddingSum. rewrite align_pad by lia. rewrite (wrap_small 64) by lia.
  rewrite (padd_small _ (_ - _)) by lia.
  replace (tls + 4 * Z.of_nat (prefix_length m) + (4 * Z.of_nat (prefix_length m + pad (prefix_length m)) - 4 * Z.of_nat (prefix_length m)))
    with (body_address m tls) by (unfold body_address; lia).
  rewrite (c_descriptors_length m H). cbn [rawSize message_header]. unfold len. rewrite padd_small by lia.
  pose proof (mo_c m H) as Hcl. rewrite (Z.mul_comm 4 (Z.of_nat (length (raw m)))) in Hc.
  assert (length (ms_c m) < 14)%nat by (destruct (ms_single m); lia).
  change 8 with (4 * Z.of_nat 2) at 1. rewrite (read_buffers_spec C_words keep 2 ram); [|..|exact Hc]; [|..|lia]; [| |lia].
  2:{ eapply Forall_impl; [apply (mo_c_ok m H)|]. intros d Hok. split; [done|]. intros q. by apply C_decodes. }
  change (read_body is_domain ram m (concat ((fun d => keep (d.1.2, d.2)) <$> ms_x m)) (concat (keep <$> ms_a m))
    (concat (keep <$> ms_b m)) (concat ((fun d => keep d ++ keep d) <$> ms_w m)) (concat (keep <$> ms_c m))
    (body_address m tls) = decoded m is_domain tls).
  apply body_decodes; try done. unfold raw in Hr. apply holds_app in Hr as [_ Hr]. apply holds_app in Hr as [Hr _].
  rewrite length_replicate in Hr. unfold body_address.
  replace (4 * Z.of_nat (prefix_length m + pad (prefix_length m)))
    with (4 * Z.of_nat (prefix_length m) + 4 * Z.of_nat (pad (prefix_length m))) by lia.
  by rewrite Z.add_assoc.
Qed.

(** C13: The decoder inverts the format.  From a thread-local area that holds a well-formed request
    (at most 15 handles of each kind, 13 C descriptors, which the flag of the header can announce, and
    15 descriptors of each other kind, raw data of less than 4 KiB, 39-bit buffer addresses), written for a session of the kind the request is read for,
    [IpcRequest] recovers every part: the header, the handles, the buffers with a non-null address
    in order (an exchange buffer twice), the domain header with its objects, the payload header,
    and the address of the arguments.  The size it reports for the arguments is exact in a domain
    and the whole raw data section otherwise. *)
Theorem IpcRequest_decodes is_domain m ram tls :
  message_ok m -> for_session is_domain m -> 0 <= tls -> tls + 2 ^ 13 < 2 ^ 64 ->
  holds ram tls (encode m) ->
  IpcRequest_new is_domain ram tls = decoded m is_domain tls.
Proof. exact (IpcRequest_new_decoded is_domain m ram tls). Qed.

(** ** Responses *)

(** Memory that differs in a range only. *)
Definition only_changes (lo hi : Z) (ram ram' : guest_memory) : Prop :=
  forall y, y < lo \/ hi <= y -> ram' y = ram y.

Lemma only_changes_trans lo hi lo' hi' ram ram' ram'' :
  only_changes lo hi ram ram' -> only_changes lo' hi' ram' ram'' ->
  only_changes (Z.min lo lo') (Z.max hi hi') ram ram''.
Proof. intros H H' y Hy. rewrite H', H by lia. done. Qed.

Lemma only_changes_weaken lo hi lo' hi' ram ram' :
  only_changes lo hi ram ram' -> lo' <= lo -> hi <= hi' -> only_changes lo' hi' ram ram'.
Proof. intros H Hl Hh y Hy. apply H. lia. Qed.

Lemma read_u32_only lo hi ram ram' a :
  only_changes lo hi ram ram' -> a + 4 <= lo \/ hi <= a -> read_u32 ram' a = read_u32 ram a.
Proof. intros H Ha. unfold read_u32. rewrite !H by lia. done. Qed.

Lemma read_u64_only lo hi ram ram' a :
  only_changes lo hi ram ram' -> a + 8 <= lo \/ hi <= a -> read_u64 ram' a = read_u64 ram a.
Proof. intros H Ha. unfold read_u64. rewrite !(read_u32_only lo hi ram ram') by (done || lia). done. Qed.

Lemma holds_only lo hi ram ram' a l :
  only_changes lo hi ram ram' -> a + 4 * Z.of_nat (length l) <= lo \/ hi <= a -> holds ram a l -> holds ram' a l.
Proof.
  intros H Ha Hh i v Hi. rewrite (read_u32_only lo hi ram ram'); [by apply Hh|done|].
  apply lookup_lt_Some in Hi. lia.
Qed.

Lemma write_u32_only a v ram : only_changes a (a + 4) ram (write_u32 a v ram).
Proof. intros y Hy. unfold write_u32. zcases; done || lia. Qed.

Lemma write_bytes_only a l ram : only_changes a (a + Z.of_nat (length l)) ram (write_bytes a l ram).
Proof. intros y Hy. unfold write_bytes. zcases; done || lia. Qed.

Lemma write_u64_only a v ram : only_changes a (a + 8) ram (write_u64 a v ram).
Proof.
  unfold write_u64. eapply only_changes_weaken; [eapply only_changes_trans; apply write_u32_only|lia|lia].
Qed.

Lemma read_write_bytes a l ram : read_bytes (write_bytes a l ram) a (length l) = l.
Proof.
  apply list_eq. intros i. unfold read_bytes. rewrite list_lookup_fmap.
  destruct (decide (i < length l)%nat) as [Hi|Hi].
  - rewrite lookup_seq_lt by lia. simpl. unfold write_bytes.
    assert ((a <=? a + Z.of_nat i) && (a + Z.of_nat i <? a + Z.of_nat (length l)) = true) as -> by (apply andb_true_iff; lia).
    replace (Z.to_nat (a + Z.of_nat i - a)) with i by lia.
    destruct (lookup_lt_is_Some_2 l i Hi) as [v Hv]. by rewrite (list_lookup_total_correct _ _ _ Hv).
  - rewrite lookup_seq_ge, lookup_ge_None_2 by lia. done.
Qed.

Lemma read_bytes_only lo hi ram ram' a n :
  only_changes lo hi ram ram' -> a + Z.of_nat n <= lo \/ hi <= a -> read_bytes ram' a n = read_bytes ram a n.
Proof.
  intros H Ha. apply list_fmap_ext. intros i y Hy. apply lookup_seq in Hy as [-> Hy]. apply H. lia.
Qed.

Definition u32_ok (v : Z) : Prop := 0 <= v < 2 ^ 32.

Lemma write_handles_spec l p ram :
  Forall u32_ok l -> 0 <= p -> p + 4 * Z.of_nat (length l) < 2 ^ 64 ->
  exists ram', write_handles l p ram = (ram', p + 4 * Z.of_nat (length l)) /\ holds ram' p l /\
    only_changes p (p + 4 * Z.of_nat (length l)) ram ram'.
Proof.
  intros Hl. revert p ram. induction Hl as [|h l Hh _ IH]; intros p ram H0 H1; simpl length in *.
  - exists ram. simpl. split; [f_equal; lia|]. split; [intros ? ? ?; done|done].
  - simpl. rewrite padd_small by lia.
    destruct (IH (p + 4) (write_u32 p h ram) ltac:(lia) ltac:(lia)) as (ram' & -> & Hr & Ho).
    exists ram'. split; [f_equal; lia|]. split.
    + apply holds_cons. split; [|done]. rewrite (read_u32_only _ _ _ _ _ Ho) by lia. by apply read_write_u32.
    + eapply only_changes_weaken; [eapply only_changes_trans; [apply write_u32_only|exact Ho]|lia|lia].
Qed.

Lemma zero_u32 a n ram y : a <= y -> y + 4 <= a + n -> read_u32 (zero_ram a n ram) y = 0.
Proof.
  intros. unfold read_u32, zero_ram.
  repeat match goal with |- context [if ?b then _ else _] => replace b with true by (symmetry; apply andb_true_iff; lia) end.
  done.
Qed.

Lemma zero_u64 a n ram y : a <= y -> y + 8 <= a + n -> read_u64 (zero_ram a n ram) y = 0.
Proof. intros. unfold read_u64. by rewrite !zero_u32 by lia. Qed.

Lemma zero_only a n ram : only_changes a (a + n) ram (zero_ram a n ram).
Proof. intros y Hy. unfold zero_ram. zcases; done || lia. Qed.

(** A field written above the bits in use is added. *)
Lemma set_bits_above s n v z : 0 <= s -> 0 <= n -> 0 <= z < 2 ^ s -> set_bits s n v z = z + 2 ^ s * (v mod 2 ^ n).
Proof.
  intros Hs Hn Hz. unfold set_bits. rewrite Z.land_ones by lia. set (u := v mod 2 ^ n).
  assert (Z.ldiff z (Z.shiftl (Z.ones n) s) = z) as ->.
  { apply Z.bits_inj'. intros i Hi. rewrite Z.ldiff_spec, Z.shiftl_spec by lia. destruct (Z_lt_le_dec i s).
    - rewrite (Z.testbit_neg_r _ (i - s)) by lia. apply andb_true_r.
    - by rewrite (testbit_high z s) by lia. }
  assert (Hd : Z.land z (Z.shiftl u s) = 0).
  { apply Z.bits_inj'. intros i Hi. rewrite Z.land_spec, Z.shiftl_spec, Z.testbit_0_l by lia. destruct (Z_lt_le_dec i s).
    - rewrite (Z.testbit_neg_r _ (i - s)) by lia. apply andb_false_r.
    - by rewrite (testbit_high z s) by lia. }
  rewrite <- Z.lxor_lor, <- Z.add_nocarry_lxor, Z.shiftl_mul_pow2 by (done || lia). lia.
Qed.

(** The header of a response on a zeroed area. *)
Definition response_header (rawSize : Z) (handles : bool) : CommandHeader :=
  mk_header CT_Invalid 0 0 0 0 (rawSize mod 2 ^ 10) 0 handles.

Lemma write_header_spec tls raw handles ram :
  read_u64 ram tls = 0 ->
  exists v, read_u64 (write_header tls raw handles ram) tls = v /\ 0 <= v < 2 ^ 64 /\
    CommandHeader_of v = response_header raw handles.
Proof.
  intros H0. unfold write_header. rewrite H0.
  pose proof (set_bits_range 32 10 raw 0 64 ltac:(lia) ltac:(lia) ltac:(lia) ltac:(lia)) as R1.
  rewrite (read_write_u64 tls (set_bits 32 10 raw 0)) by done.
  pose proof (set_bits_range 63 1 (Z.b2z handles) _ 64 ltac:(lia) ltac:(lia) ltac:(lia) R1) as R2.
  rewrite read_write_u64 by done. eexists. split; [done|]. split; [done|]. unfold CommandHeader_of, response_header.
  rewrite !(bits_set_bits_other 63) by lia. rewrite bits_set_bits_same by lia.
  rewrite !(bits_set_bits_other 32 10 _ _ 0), !(bits_set_bits_other 32 10 _ _ 16), !(bits_set_bits_other 32 10 _ _ 20),
    !(bits_set_bits_other 32 10 _ _ 24), !(bits_set_bits_other 32 10 _ _ 28), !(bits_set_bits_other 32 10 _ _ 42) by lia.
  rewrite bits_set_bits_same, Z.land_ones by lia. by destruct handles.
Qed.

Lemma write_header_only tls raw handles ram : only_changes tls (tls + 8) ram (write_header tls raw handles ram).
Proof.
  unfold write_header. eapply only_changes_weaken; [eapply only_changes_trans; apply write_u64_only|lia|lia].
Qed.

(** The handles of a response as those of a message. *)
Definition response_message (r : IpcResponse) : Message :=
  mk_message 0 None (rs_copyHandles r) (rs_moveHandles r) [] [] [] [] [] false None (mk_payload 0 0 0 0) [].

Record response_ok (r : IpcResponse) : Prop := mk_response_ok {
  ro_copy : (length (rs_copyHandles r) < 16)%nat;
  ro_move : (length (rs_moveHandles r) < 16)%nat;
  ro_copy_ok : Forall u32_ok (rs_copyHandles r);
  ro_move_ok : Forall u32_ok (rs_moveHandles r);
  ro_objects_ok : Forall u32_ok (rs_domainObjects r);
  ro_error : u32_ok (rs_errorCode r);
  ro_size : Z.of_nat (length (rs_payload r)) + 4 * Z.of_nat (length (rs_domainObjects r)) < 2 ^ 32 }.

Lemma response_message_ok r : response_ok r -> message_ok (response_message r).
Proof.
  intros H. destruct H. split; simpl; try done; try lia. unfold raw. rewrite !length_app, !length_replicate. simpl.
  pose proof (pad_bound (prefix_length (response_message r))). simpl in *. lia.
Qed.

Lemma has_handles_desc r : has_desc (response_message r) = has_handles r.
Proof. done. Qed.

(** The word of the handle descriptor. *)
Lemma desc_word c n :
  0 <= c < 16 -> 0 <= n < 16 ->
  set_bits 5 4 n (set_bits 1 4 c 0) = pack [(1, 0); (4, c); (4, n); (23, 0)].
Proof.
  intros Hc Hn. rewrite (set_bits_above 1) by lia. rewrite (set_bits_above 5) by (rewrite ?Z.mod_small by lia; lia).
  rewrite !Z.mod_small by lia. simpl pack. lia.
Qed.

Lemma write_handle_desc_spec r p ram :
  response_ok r -> has_handles r = true -> 0 <= p -> p + 2 ^ 12 < 2 ^ 64 -> read_u32 ram p = 0 ->
  exists ram' n, n = (1 + length (rs_copyHandles r) + length (rs_moveHandles r))%nat /\
    write_handle_desc r p ram = (ram', p + 4 * Z.of_nat n) /\
    holds ram' p (handle_desc_words (response_message r)) /\ length (handle_desc_words (response_message r)) = n /\
    only_changes p (p + 4 * Z.of_nat n) ram ram'.
Proof.
  intros H Hh H0 H1 Hz. destruct H as [Hc Hm Hco Hmo _ _ _]. unfold write_handle_desc. rewrite Hz.
  rewrite !(wrap_small 8) by lia.
  rewrite (read_write_u32 p (set_bits 1 4 _ 0)) by (apply set_bits_range; lia).
  rewrite desc_word by lia. set (fs := [(1, 0); (4, _); (4, _); (23, 0)]).
  assert (Hf : Forall field_fits fs) by solve_fits. pose proof (pack_range fs Hf) as Rf.
  set (ram1 := write_u32 p (pack fs) _).
  assert (O1 : only_changes p (p + 4) ram ram1).
  { eapply only_changes_weaken; [eapply only_changes_trans; apply write_u32_only|lia|lia]. }
  rewrite padd_small by lia.
  destruct (write_handles_spec (rs_copyHandles r) (p + 4) ram1 Hco ltac:(lia) ltac:(lia)) as (ram2 & -> & Hh2 & O2).
  destruct (write_handles_spec (rs_moveHandles r) (p + 4 + 4 * Z.of_nat (length (rs_copyHandles r))) ram2 Hmo ltac:(lia) ltac:(lia))
    as (ram3 & -> & Hh3 & O3).
  eexists ram3, _. split; [done|]. split; [f_equal; lia|].
  assert (Hw : handle_desc_words (response_message r) = pack fs :: rs_copyHandles r ++ rs_moveHandles r).
  { unfold handle_desc_words. by rewrite has_handles_desc, Hh. }
  rewrite Hw. split; [|split; [rewrite length_cons, length_app; lia|]].
  - apply holds_cons. split.
    + rewrite (read_u32_only _ _ _ _ _ O3), (read_u32_only _ _ _ _ _ O2) by lia. by apply read_write_u32.
    + apply holds_app. split; [|done]. eapply holds_only; [exact O3|lia|done].
  - eapply only_changes_weaken;
      [eapply only_changes_trans; [eapply only_changes_trans; [exact O1|exact O2]|exact O3]|lia|lia].
Qed.

Lemma response_prefix_length r :
  prefix_length (response_message r) = (2 + length (handle_desc_words (response_message r)))%nat.
Proof. unfold prefix_length. rewrite descriptors_length. simpl. lia. Qed.

(** The area after the header and the handles are written. *)
Lemma write_prefix_spec tls r raw ram :
  response_ok r -> 0 <= tls -> tls + 2 ^ 13 < 2 ^ 64 ->
  let ram1 := write_header tls raw (has_handles r) (zero_ram tls TlsIpcSize ram) in
  let n := prefix_length (response_message r) in
  exists v ram2, read_u64 ram1 tls = v /\ CommandHeader_of v = response_header raw (has_handles r) /\
    (if has_handles r then write_handle_desc r (tls + 8) ram1 else (ram1, tls + 8)) = (ram2, tls + 4 * Z.of_nat n) /\
    read_u64 ram2 tls = v /\ holds ram2 (tls + 8) (handle_desc_words (response_message r)) /\ (n <= 33)%nat /\
    (forall a, tls + 4 * Z.of_nat n <= a -> a + 4 <= tls + 256 -> read_u32 ram2 a = 0) /\
    only_changes tls (tls + 256) ram ram2.
Proof.
  intros H H0 H1 ram1 n. unfold TlsIpcSize in *.
  destruct (write_header_spec tls raw (has_handles r) (zero_ram tls 256 ram)) as (v & Ev & _ & Hv); [apply zero_u64; lia|].
  fold ram1 in Ev. pose proof (write_header_only tls raw (has_handles r) (zero_ram tls 256 ram)) as Oh. fold ram1 in Oh.
  assert (Z1 : forall a, tls + 8 <= a -> a + 4 <= tls + 256 -> read_u32 ram1 a = 0).
  { intros a Ha Ha'. rewrite (read_u32_only _ _ _ _ _ Oh) by lia. apply zero_u32; lia. }
  assert (O1 : only_changes tls (tls + 256) ram ram1).
  { eapply only_changes_weaken; [eapply only_changes_trans; [apply zero_only|exact Oh]|lia|lia]. }
  exists v. unfold n. rewrite response_prefix_length. destruct (has_handles r) eqn:Eh.
  - destruct (write_handle_desc_spec r (tls + 8) ram1 H Eh ltac:(lia) ltac:(lia) (Z1 (tls + 8) ltac:(lia) ltac:(lia)))
      as (ram2 & k & Ek & E2 & Hh & El & O2). rewrite El. pose proof (ro_copy r H). pose proof (ro_move r H).
    exists ram2. split; [done|]. split; [done|]. split; [rewrite E2; f_equal; lia|].
    split; [by rewrite (read_u64_only _ _ _ _ _ O2) by lia|]. split; [done|]. split; [lia|]. split.
    + intros a Ha Ha'. rewrite (read_u32_only _ _ _ _ _ O2) by lia. apply Z1; lia.
    + eapply only_changes_weaken; [eapply only_changes_trans; [exact O1|exact O2]|lia|lia].
  - assert (Ew : handle_desc_words (response_message r) = []).
    { unfold handle_desc_words. by rewrite has_handles_desc, Eh. }
    rewrite Ew. exists ram1. split; [done|]. split; [done|]. split; [f_equal; simpl; lia|]. split; [done|].
    split; [by intros i u Hi|]. split; [simpl; lia|]. split; [|done]. intros a Ha Ha'. apply Z1; simpl in *; lia.
Qed.

(** Everything [WriteResponse] leaves in memory. *)
Record written (isDomain : bool) (tls : Z) (r : IpcResponse) (ram ram' : guest_memory) : Prop := mk_written {
  wr_header : CommandHeader_of (read_u64 ram' tls) = response_header (response_rawSize isDomain r) (has_handles r);
  wr_handles : holds ram' (tls + 8) (handle_desc_words (response_message r));
  wr_objects : isDomain = true ->
    let b := body_address (response_message r) tls in
    read_u32 ram' b = len (rs_domainObjects r) /\
    holds ram' (b + 32 + len (rs_payload r)) (rs_domainObjects r);
  wr_payload : PayloadHeader_at ram' (body_address (response_message r) tls + (if isDomain then 16 else 0)) =
    mk_payload SFCO 1 (rs_errorCode r) 0;
  wr_data : read_bytes ram' (body_address (response_message r) tls + (if isDomain then 32 else 16)) (length (rs_payload r)) =
    rs_payload r;
  wr_frame : only_changes tls
    (Z.max (tls + 256) (body_address (response_message r) tls + (if isDomain then 32 else 16) + len (rs_payload r) +
       (if isDomain then 4 * len (rs_domainObjects r) else 0))) ram ram' }.

Definition write_tail (p : Z) (r : IpcResponse) (ram : guest_memory) : guest_memory :=
  write_bytes (p + 16) (rs_payload r) (write_u32 (p + 8) (rs_errorCode r) (write_u32 (p + 4) 1 (write_u32 p SFCO ram))).

Lemma write_tail_spec p r ram :
  response_ok r -> read_u32 ram (p + 12) = 0 ->
  let ram' := write_tail p r ram in
  PayloadHeader_at ram' p = mk_payload SFCO 1 (rs_errorCode r) 0 /\
  read_bytes ram' (p + 16) (length (rs_payload r)) = rs_payload r /\
  only_changes p (p + 16 + len (rs_payload r)) ram ram'.
Proof.
  intros H Hz ram'. unfold ram', write_tail.
  pose proof (write_bytes_only (p + 16) (rs_payload r) (write_u32 (p + 8) (rs_errorCode r) (write_u32 (p + 4) 1 (write_u32 p SFCO ram)))) as Ob.
  split; [|split].
  - unfold PayloadHeader_at. rewrite !(read_u32_only _ _ _ _ _ Ob) by lia.
    rewrite (read_write_u32_other (p + 8) p), (read_write_u32_other (p + 8) (p + 4)), (read_write_u32_other (p + 8) (p + 12)),
      (read_write_u32_other (p + 4) p), (read_write_u32_other (p + 4) (p + 12)), (read_write_u32_other p (p + 12)) by lia.
    rewrite !read_write_u32 by (apply (ro_error r H) || done). by rewrite Hz.
  - apply read_write_bytes.
  - eapply only_changes_weaken; [eapply only_changes_trans; [|exact Ob]|..].
    + eapply only_changes_trans; [eapply only_changes_trans|]; apply write_u32_only.
    + lia.
    + unfold len. lia.
Qed.

Lemma WriteResponse_written isDomain tls r ram :
  response_ok r -> 0 <= tls -> tls + 2 ^ 33 < 2 ^ 64 -> written isDomain tls r ram (WriteResponse isDomain tls r ram).
Proof.
  intros H H0 H1. unfold WriteResponse.
  destruct (write_prefix_spec tls r (response_rawSize isDomain r) ram H H0 ltac:(lia))
    as (v & ram2 & Ev & Hv & E2 & Ev2 & Hh & Hn & Hz & O2).
  rewrite Ev, Hv. simpl h_handleDesc. rewrite (padd_small tls 8) by lia. rewrite E2. cbv beta iota.
  set (n := prefix_length (response_message r)) in *. pose proof (pad_bound n) as Hpad.
  replace (tls + 4 * Z.of_nat n - tls) with (4 * Z.of_nat n) by lia.
  rewrite (wrap_small 64 (4 * _)) by lia. unfold IpcPaddingSum. rewrite align_pad by lia. rewrite (wrap_small 64) by lia.
  rewrite (padd_small _ (_ - _)) by lia.
  set (b := body_address (response_message r) tls).
  assert (Eb : tls + 4 * Z.of_nat n + (4 * Z.of_nat (n + pad n) - 4 * Z.of_nat n) = b) by (unfold b, body_address; fold n; lia).
  assert (Bb : tls + 4 * Z.of_nat n <= b <= tls + 144) by (unfold b, body_address; fold n; lia). rewrite Eb.
  assert (El : tls + 8 + 4 * Z.of_nat (length (handle_desc_words (response_message r))) = tls + 4 * Z.of_nat n).
  { unfold n. rewrite response_prefix_length. lia. }
  pose proof (ro_size r H) as Hsz. destruct isDomain.
  - rewrite (padd_small b 16) by lia. rewrite (padd_small (b + 16) 16) by lia. rewrite padd_small by lia.
    set (ram4 := write_u32 b _ ram2). assert (O4 : only_changes b (b + 4) ram2 ram4) by apply write_u32_only.
    destruct (write_tail_spec (b + 16) r ram4 H) as (Hp & Hd & Ot).
    { rewrite (read_u32_only _ _ _ _ _ O4) by lia. apply Hz; lia. }
    fold (write_tail (b + 16) r ram4). set (ram6 := write_tail (b + 16) r ram4) in *.
    destruct (write_handles_spec (rs_domainObjects r) (b + 16 + 16 + Z.of_nat (length (rs_payload r))) ram6
      (ro_objects_ok r H) ltac:(lia) ltac:(lia)) as (ram7 & -> & Hho & O7). simpl fst. unfold len in *.
    pose proof (only_changes_trans _ _ _ _ _ _ _ Ot O7) as O67.
    pose proof (only_changes_trans _ _ _ _ _ _ _ O4 O67) as O47.
    pose proof (only_changes_trans _ _ _ _ _ _ _ O2 O47) as Oall.
    assert (Hc : read_u32 ram4 b = Z.of_nat (length (rs_domainObjects r))).
    { unfold ram4. rewrite wrap_small by lia. apply read_write_u32. lia. }
    split; fold b.
    + rewrite (read_u64_only _ _ _ _ _ O47), Ev2 by lia. exact Hv.
    + eapply holds_only; [exact O47|lia|exact Hh].
    + intros _ b'. subst b'. split; [rewrite (read_u32_only _ _ _ _ _ O67) by lia; exact Hc|].
      unfold len. by replace (b + 32) with (b + 16 + 16) by lia.
    + rewrite <- Hp. unfold PayloadHeader_at. rewrite !(read_u32_only _ _ _ _ _ O7) by lia. done.
    + replace (b + 32) with (b + 16 + 16) by lia. rewrite (read_bytes_only _ _ _ _ _ _ O7) by lia. exact Hd.
    + eapply only_changes_weaken; [exact Oall|lia|unfold len; lia].
  - rewrite (padd_small b 16) by lia. destruct (write_tail_spec b r ram2 H) as (Hp & Hd & Ot); [apply Hz; lia|].
    fold (write_tail b r ram2). set (ram6 := write_tail b r ram2) in *.
    pose proof (only_changes_trans _ _ _ _ _ _ _ O2 Ot) as Oall.
    split; fold b.
    + rewrite (read_u64_only _ _ _ _ _ Ot), Ev2 by lia. exact Hv.
    + eapply holds_only; [exact Ot|lia|exact Hh].
    + done.
    + by rewrite Z.add_0_r.
    + exact Hd.
    + eapply only_changes_weaken; [exact Oall|lia|unfold len in *; lia].
Qed.

(** A reader of the area finds the handles and no buffers, and the payload header (or the domain
    header in front of it) at the aligned address. *)
Lemma response_request tls r ram isDomain rawSize :
  response_ok r -> 0 <= tls -> tls + 2 ^ 13 < 2 ^ 64 ->
  CommandHeader_of (read_u64 ram tls) = response_header rawSize (has_handles r) ->
  holds ram (tls + 8) (handle_desc_words (response_message r)) ->
  let q := IpcRequest_new isDomain ram tls in
  rq_copyHandles q = rs_copyHandles r /\ rq_moveHandles q = rs_moveHandles r /\ rq_inputBuf q = [] /\ rq_outputBuf q = [] /\
  rq_cmdArg q = body_address (response_message r) tls + 16 /\
  rq_payload q = PayloadHeader_at ram (body_address (response_message r) tls).
Proof.
  intros H H0 H1 Hh Hd q. pose proof (response_message_ok r H) as Hm. pose proof (prefix_length_bound _ Hm) as Hb.
  pose proof (handle_desc_decodes _ ram (tls + 8) Hm ltac:(lia) ltac:(lia) Hd) as E.
  assert (E' : read_handle_desc ram (response_header rawSize (has_handles r)) (tls + 8) =
    (message_handle_desc (response_message r), rs_copyHandles r, rs_moveHandles r,
     tls + 4 * Z.of_nat (prefix_length (response_message r)))).
  { etrans; [exact E|]. f_equal. rewrite response_prefix_length. lia. }
  pose proof (pad_bound (prefix_length (response_message r))) as Hp.
  unfold q, IpcRequest_new. rewrite Hh, (padd_small tls 8) by lia. rewrite E'.
  cbn -[prefix_length body_address pad AlignUp padd u64]. change (Z.to_nat 0) with 0%nat. rewrite andb_false_r.
  cbn -[prefix_length body_address pad AlignUp padd u64].
  set (n := prefix_length (response_message r)) in *.
  replace (tls + 4 * Z.of_nat n - tls) with (4 * Z.of_nat n) by lia.
  rewrite (wrap_small 64 (4 * _)) by lia. unfold IpcPaddingSum. rewrite align_pad by lia. rewrite (wrap_small 64) by lia.
  rewrite (padd_small _ (_ - _)) by lia. rewrite padd_small by lia. unfold body_address. fold n.
  repeat split; [lia|]. f_equal. lia.
Qed.

(** C38: A response reads back.  What [WriteResponse] leaves in the thread-local area is read back by
    the decoder of requests: the copied and moved handles in order and no buffers; behind them the
    payload header with the response magic, version 1 and the error code, and the payload bytes;
    in a domain, the number of objects in front of the payload header and the objects behind the
    payload.  No byte outside the 0x100 bytes of the area changes, unless the payload is so long
    that the response itself reaches past them. *)
Theorem WriteResponse_reads_back isDomain tls r ram :
  response_ok r -> 0 <= tls -> tls + 2 ^ 33 < 2 ^ 64 ->
  let ram' := WriteResponse isDomain tls r ram in
  let q := IpcRequest_new false ram' tls in
  let a := rq_cmdArg q - (if isDomain then 0 else 16) in
  rq_copyHandles q = rs_copyHandles r /\ rq_moveHandles q = rs_moveHandles r /\
  rq_inputBuf q = [] /\ rq_outputBuf q = [] /\
  PayloadHeader_at ram' a = mk_payload SFCO 1 (rs_errorCode r) 0 /\
  read_bytes ram' (a + 16) (length (rs_payload r)) = rs_payload r /\
  (isDomain = true ->
   p_magic (rq_payload q) = len (rs_domainObjects r) /\
   fst (read_handles ram' (length (rs_domainObjects r)) (a + 16 + len (rs_payload r))) = rs_domainObjects r) /\
  only_changes tls
    (Z.max (tls + TlsIpcSize)
       (a + 16 + len (rs_payload r) + (if isDomain then 4 * len (rs_domainObjects r) else 0))) ram ram'.
Proof.
  intros H H0 H1 ram' q a. destruct (WriteResponse_written isDomain tls r ram H H0 H1) as [Wh Wd Wo Wp Wb Wf].
  fold ram' in Wh, Wd, Wo, Wp, Wb, Wf.
  destruct (response_request tls r ram' false _ H H0 ltac:(lia) Wh Wd) as (Hc & Hm & Hi & Ho & Ha & Hp). fold q in Hc, Hm, Hi, Ho, Ha, Hp.
  assert (Ea : a = body_address (response_message r) tls + (if isDomain then 16 else 0)) by (unfold a; rewrite Ha; destruct isDomain; lia).
  assert (Ea' : a + 16 = body_address (response_message r) tls + (if isDomain then 32 else 16)) by (rewrite Ea; destruct isDomain; lia).
  rewrite Ea', Ea. repeat (split; [done|]). split; [|done]. intros ->. destruct (Wo eq_refl) as [Wn Wob].
  split; [by rewrite Hp|]. pose proof (ro_size r H). unfold len in *.
  pose proof (prefix_length_bound _ (response_message_ok r H)). pose proof (pad_bound (prefix_length (response_message r))).
  rewrite read_handles_spec; [done|unfold body_address; lia..|exact Wob].
Qed.

(** A request to object 1 of a domain with one of everything. *)
Definition sample_message : Message :=
  mk_message 4 (Some 81) [0xD001] [0xD002; 0xD003] [(0x3F, 0x7123456789, 0x20)] [(0x4000001000, 0x900000000)]
    [(0x2000, 0x10); (0, 0x10)] [(0x5000001000, 8)] [(0x800000100000, 0x40)] true
    (Some (mk_domain_part 1 1 7 [3; 4])) (mk_payload SFCI 0 12 0) [0xDEADBEEF].

Lemma sample_message_ok : message_ok sample_message.
Proof.
  assert (Hr : length (raw sample_message) = 15%nat) by reflexivity.
  split; [..|rewrite Hr; lia| |]; unfold sample_message; cbn [ms_type ms_copy ms_move ms_x ms_a ms_b ms_w ms_c ms_single ms_domain];
    try (repeat (apply Forall_cons; split); try by apply Forall_nil); unfold address_ok; simpl; lia || (repeat split; lia).
Qed.

Lemma sample_encode_ok : Forall u32_ok (encode sample_message).
Proof.
  assert (E : encode sample_message =
    ltac:(let l := eval vm_compute in (encode sample_message) in exact l)) by (vm_compute; reflexivity).
  rewrite E. repeat (apply Forall_cons; split; [unfold u32_ok; lia|]). apply Forall_nil. done.
Qed.

Lemma IpcRequest_decodes_witness :
  exists ram, let q := IpcRequest_new true ram 0x800000000 in
    rq_copyHandles q = [0xD001] /\ rq_moveHandles q = [0xD002; 0xD003] /\ rq_domainObjects q = [3; 4] /\
    rq_inputBuf q = [mk_span 0x7123456789 0x20; mk_span 0x4000001000 0x900000000] /\
    rq_outputBuf q = [mk_span 0x2000 0x10; mk_span 0x5000001000 8; mk_span 0x5000001000 8; mk_span 0x800000100000 0x40] /\
    rq_cmdArgSz q = 4.
Proof.
  destruct (write_handles_spec (encode sample_message) 0x800000000 (fun _ => 0) sample_encode_ok ltac:(lia) ltac:(vm_compute; reflexivity))
    as (ram & _ & Hh & _).
  exists ram. rewrite (IpcRequest_decodes true sample_message ram 0x800000000 sample_message_ok eq_refl ltac:(lia) ltac:(lia) Hh).
  vm_compute. repeat split.
Defined.

Definition sample_response : IpcResponse := mk_response [1; 2; 3] 0x202 [0xD004] [0xD005; 0xD006] [5; 9].

Lemma sample_response_ok : response_ok sample_response.
Proof.
  split; try (simpl; lia); try (repeat (apply Forall_cons; split; [vm_compute; intuition congruence|]); by apply Forall_nil);
    vm_compute; intuition congruence.
Qed.

Lemma WriteResponse_reads_back_witness :
  let ram' := WriteResponse true 0x800000000 sample_response (fun _ => 0) in
  let q := IpcRequest_new false ram' 0x800000000 in
  rq_copyHandles q = [0xD004] /\ rq_moveHandles q = [0xD005; 0xD006] /\ p_magic (rq_payload q) = 2.
Proof.
  destruct (WriteResponse_reads_back true 0x800000000 sample_response (fun _ => 0) sample_response_ok ltac:(lia) ltac:(lia))
    as (H1 & H2 & _ & _ & _ & _ & H3 & _).
  split; [exact H1|]. split; [exact H2|]. exact (proj1 (H3 eq_refl)).
Defined.
