(* ===== verification/Services.v ===== *)
(** * The service manager ([services/serviceman.cpp], [services/base_service.cpp],
    [services/sm/IUserInterface.cpp])

    Sessions, domains and the dispatch of IPC requests to services.  The services other than sm:
    are an interface, [Services]: what their constructors do to the kernel and which function
    answers a command; what the manager needs of them is [ServiceLaws].  The handler of a request
    is what [svc_SendSyncRequest] takes as its argument. *)

From S2P Require Import Prelude Common MemoryManager Scheduler KObjects Process Sync Svc Ipc IpcFormat.

(** [MakeMagic<u64>]. *)
Fixpoint MakeMagic_from (offset : Z) (string : string) : Z :=
  match string with
  | EmptyString => 0
  | String character string =>
      Z.lor (u64 (Z.shiftl (Z.of_N (Ascii.N_of_ascii character)) offset)) (MakeMagic_from (offset + 8) string)
  end.

Definition MakeMagic (string : string) : Z := MakeMagic_from 0 string.

(** A service function: given the session, the request and the response so far, the kernel, the
    response and the result code. *)
Definition service_function : Type := Z -> IpcRequest -> IpcResponse -> Kernel -> M (Kernel * IpcResponse * Z).

(** The services behind the manager: the constructor of the service with a name gives a new
    service identity; a service answers command ids by its table. *)
Class Services : Type := {
  construct : Z -> Kernel -> M (Kernel * Z);
  other_functions : Z -> Z -> option service_function;
  smUserInterface : Z }.

(** The names the switch of [CreateOrGetService] knows. *)
Definition service_names : list string :=
  ["fatal:u"; "set"; "set:sys"; "apm"; "appletOE"; "appletAE"; "audin:u"; "audout:u"; "audren:u"; "hwopus"; "hid"; "irs";
   "time:s"; "time:su"; "time:a"; "time:r"; "time:u"; "ectx:w"; "ectx:aw"; "fsp-srv"; "nvdrv"; "nvdrv:a"; "dispdrv"; "vi:u";
   "vi:s"; "vi:m"; "pl:u"; "aoc:u"; "pctl"; "pctl:a"; "pctl:s"; "pctl:r"; "lm"; "acc:u0"; "friend:u"; "nfp:user"; "nifm:u";
   "bsd:u"; "csrng"; "ssl"; "prepo:u"; "mm:u"; "bcat:u"; "bt"; "btm:u"; "nim:eca"].

Definition known_service (name : Z) : bool := bool_decide (name ∈ (MakeMagic <$> service_names)).

Definition InvalidServiceName : Z := Result 21 6.

(** ** Sessions *)

Definition get_session (ref : Z) (s : Kernel) : M (KSyncObject * KSession) :=
  match get_object s ref with
  | Some (OSession o session) => ok (o, session)
  | _ => fail (Undefined "not a session")
  end.

Definition put_session (ref : Z) (o : KSyncObject) (session : KSession) (s : Kernel) : Kernel :=
  put_object ref (OSession o session) s.

Definition new_session (service : Z) : KObject := OSession (mk_sync false []) (mk_session service [] 0 true false).

Section manager.
Context `{Services}.

Definition CreateOrGetService (name : Z) (s : Kernel) : M (Kernel * Z) :=
  match k_services s !! name with
  | Some service => ok (s, service)
  | None =>
      if known_service name then
        let! (s, service) := construct name s in
        ok (set_k_services (<[name := service]> (k_services s)) s, service)
      else fail Throw_out_of_range
  end.

(** The new object of a domain or the handle of a new session. *)
Definition RegisterService (service ref : Z) (response : IpcResponse) (s : Kernel) : M (Kernel * IpcResponse) :=
  let! (o, session) := get_session ref s in
  if isDomain session then
    let handle := handleIndex session in
    let session := mk_session (serviceObject session) (domains session ++ [Some service]) (u32 (handle + 1))
                     (isOpen session) (isDomain session) in
    ok (put_session ref o session s, push_domainObject handle response)
  else
    let! (s, _, handle) := NewHandle (fun _ s => ok (new_object (new_session service) s)) s in
    ok (s, push_moveHandle handle response).

Definition NewService (name ref : Z) (response : IpcResponse) (s : Kernel) : M (Kernel * IpcResponse * Z) :=
  let! (s, service) := CreateOrGetService name s in
  let! (s, response) := RegisterService service ref response s in
  ok (s, response, service).

(** [std::erase_if] of the entries that name the service. *)
Definition erase_service (service : Z) (s : Kernel) : Kernel :=
  set_k_services (filter (fun e => e.2 <> service) (k_services s)) s.

Definition erase_domain (s : Kernel) (service : option Z) : Kernel :=
  match service with Some service => erase_service service s | None => s end.

Definition CloseSession (cur handle : Z) (s : Kernel) : M Kernel :=
  let! ref := GetHandle cur KT_KSession handle s in
  let! (o, session) := get_session ref s in
  if isOpen session then
    let s := if isDomain session then fold_left erase_domain (domains session) s
             else erase_service (serviceObject session) s in
    ok (put_session ref o (mk_session (serviceObject session) (domains session) (handleIndex session) false (isDomain session)) s)
  else ok s.

(** ** sm: *)

Definition sm_Initialize : service_function := fun ref request response s => ok (s, response, Success).

Definition sm_GetService : service_function := fun ref request response s =>
  let '(name, request) := Pop read_u64 8 (k_ram s) request in
  if name =? 0 then ok (s, response, InvalidServiceName)
  else
    match NewService name ref response s with
    | inl Throw_out_of_range => ok (s, response, InvalidServiceName)
    | inl f => fail f
    | inr (s, response, _) => ok (s, response, Success)
    end.

Definition sm_functions (id : Z) : option service_function :=
  match id with 0 => Some sm_Initialize | 1 => Some sm_GetService | _ => None end.

Definition GetServiceFunction (service id : Z) : option service_function :=
  if service =? smUserInterface then sm_functions id else other_functions service id.

(** ** Dispatch *)

(** A command without a function is answered with success; any other exception than
    [skyline::exception] is turned into one. *)
Definition HandleRequest (service ref : Z) (request : IpcRequest) (response : IpcResponse) (s : Kernel)
    : M (Kernel * IpcResponse * Z) :=
  match GetServiceFunction service (p_value (rq_payload request)) with
  | None => ok (s, response, Success)
  | Some function =>
      match function ref request response s with
      | inl Throw_out_of_range => fail (Throw "exception in a service")
      | r => r
      end
  end.

Definition respond (isDomain : bool) (tls : Z) (response : IpcResponse) (s : Kernel) : Kernel :=
  set_k_ram (WriteResponse isDomain tls response (k_ram s)) s.

(** The request of a domain session. *)
Definition domain_request (ref : Z) (domain : DomainHeaderRequest) (request : IpcRequest) (response : IpcResponse) (s : Kernel)
    : M (Kernel * IpcResponse) :=
  let! (o, session) := get_session ref s in
  match domains session !! Z.to_nat (objectId domain) with
  | None => fail (Throw "Invalid object ID was used with domain request")
  | Some None => fail (Throw "Domain request used an expired handle")
  | Some (Some service) =>
      match d_command domain with
      | SendMessage =>
          let! (s, response, result) := HandleRequest service ref request response s in
          ok (s, set_errorCode result response)
      | CloseVHandle =>
          let s := erase_service service s in
          let session := mk_session (serviceObject session) (<[Z.to_nat (objectId domain) := None]> (domains session))
                           (handleIndex session) (isOpen session) (isDomain session) in
          ok (put_session ref o session s, response)
      | DomainCommand_Other _ => ok (s, response)
      end
  end.

Definition control_request (ref : Z) (request : IpcRequest) (response : IpcResponse) (s : Kernel) : M (Kernel * IpcResponse) :=
  let! (o, session) := get_session ref s in
  match ControlCommand_of_raw (p_value (rq_payload request)) with
  | ConvertCurrentObjectToDomain =>
      let '(session, handle) := ConvertDomain session in
      ok (put_session ref o session s, Push (bytes_u32 handle) response)
  | CloneCurrentObject | CloneCurrentObjectEx =>
      let '(s, handle) := InsertItem ref s in ok (s, push_moveHandle handle response)
  | QueryPointerBufferSize => ok (s, Push (bytes_u32 0x1000) response)
  | CopyFromCurrentDomain | ControlCommand_Other _ => fail (Throw "Unknown Control Command")
  end.

(** [cur] and [tls] are the calling thread and its thread-local area. *)
Definition SyncRequestHandler (cur tls handle : Z) (s : Kernel) : M Kernel :=
  let! ref := GetHandle cur KT_KSession handle s in
  let! (o, session) := get_session ref s in
  if isOpen session then
    let request := IpcRequest_new (isDomain session) (k_ram s) tls in
    let response := IpcResponse_new in
    match h_type (rq_header request) with
    | CT_Request | CT_RequestWithContext =>
        let! (s, response) :=
          match isDomain session, rq_domain request with
          | true, Some domain => domain_request ref domain request response s
          | true, None => fail (Undefined "null domain header")
          | false, _ =>
              let! (s, response, result) := HandleRequest (serviceObject session) ref request response s in
              ok (s, set_errorCode result response)
          end in
        let! (o, session) := get_session ref s in
        ok (respond (isDomain session) tls response s)
    | CT_Control | CT_ControlWithContext =>
        let! (s, response) := control_request ref request response s in ok (respond false tls response s)
    | CT_Close => CloseSession cur handle s
    | _ => fail (Throw "Unimplemented IPC message type")
    end
  else ok s.

End manager.

(** ** Virtual handles *)

(** The next virtual handle of a session is the number of objects of its domain. *)
Definition session_ok (session : KSession) : Prop := handleIndex session = u32 (len (domains session)).

Definition sessions_ok (s : Kernel) : Prop :=
  forall ref o session, get_object s ref = Some (OSession o session) -> session_ok session.

(** What code outside of the manager does to sessions.  It may register a service with the manager,
    or change the kernel in any way (memory, threads, other objects, the table of handles, the map of
    services) that leaves every session object there is with its contents and makes no new one. *)
Inductive service_effect : Kernel -> Kernel -> Prop :=
| se_register service ref r s s' r' : RegisterService service ref r s = inr (s', r') -> service_effect s s'
| se_apart s s' :
    (forall ref o session, get_object s' ref = Some (OSession o session) -> exists o', get_object s ref = Some (OSession o' session)) ->
    service_effect s s'.

(** What the manager relies on: constructors and service functions are sequences of such effects.  In
    the code the objects, the handles and the domain of a session are members that only the service
    manager and the session itself write; services call [RegisterService] of the manager. *)
Class ServiceLaws `{Services} : Prop := {
  construct_effect name s s' service : construct name s = inr (s', service) -> rtc service_effect s s';
  function_effect service id f ref q r s s' r' v :
    other_functions service id = Some f -> f ref q r s = inr (s', r', v) -> rtc service_effect s s' }.

Lemma sessions_ok_put ref o session s : sessions_ok s -> session_ok session -> sessions_ok (put_session ref o session s).
Proof.
  intros Hs Hn ref' o' session'. unfold get_object, put_session, put_object. simpl.
  destruct (decide (ref = ref')) as [->|]; [rewrite lookup_insert_eq; congruence|].
  rewrite lookup_insert_ne by done. apply Hs.
Qed.

Lemma sessions_ok_objects s s' : k_objects s' = k_objects s -> sessions_ok s -> sessions_ok s'.
Proof. intros E Hs ref o session. unfold get_object. rewrite E. apply Hs. Qed.

Lemma get_session_ok ref s o session : get_session ref s = inr (o, session) <-> get_object s ref = Some (OSession o session).
Proof.
  unfold get_session. destruct (get_object s ref) as [[]|]; split; intros E; try done; by injection E as -> ->.
Qed.

Lemma session_ok_push service session :
  session_ok session ->
  session_ok (mk_session (serviceObject session) (domains session ++ [Some service]) (u32 (handleIndex session + 1))
                (isOpen session) (isDomain session)).
Proof.
  unfold session_ok, len. simpl. intros ->. rewrite length_app. simpl. unfold wrap. rewrite Zplus_mod_idemp_l. f_equal. lia.
Qed.

Lemma session_ok_new service : session_ok (mk_session service [] 0 true false).
Proof. done. Qed.

Lemma NewHandle_session_ok service s s' item handle :
  NewHandle (fun _ s => ok (new_object (new_session service) s)) s = inr (s', item, handle) -> sessions_ok s -> sessions_ok s'.
Proof.
  unfold NewHandle. cbn [bindM ok]. unfold push_handle. intros E Hs. injection E as <- _ _.
  intros ref o session. unfold get_object. simpl.
  destruct (decide (ref = k_next s)) as [->|]; [rewrite lookup_insert_eq; by intros [= <- <-]|].
  rewrite lookup_insert_ne by done. apply Hs.
Qed.

Lemma RegisterService_sessions service ref r s s' r' :
  RegisterService service ref r s = inr (s', r') -> sessions_ok s -> sessions_ok s'.
Proof.
  unfold RegisterService. intros E Hs. apply bindM_ok in E as ([o session] & Eo & E). apply get_session_ok in Eo.
  destruct (isDomain session) eqn:Ed.
  - injection E as <- _. apply sessions_ok_put; [done|]. rewrite <- Ed. apply session_ok_push. by eapply Hs.
  - apply bindM_ok in E as ([[s1 item] handle] & En & E). injection E as <- _. by eapply NewHandle_session_ok.
Qed.

(** Each effect keeps the invariant: the manager's by its code, the others as they touch no session. *)
Lemma service_effects_sessions s s' : rtc service_effect s s' -> sessions_ok s -> sessions_ok s'.
Proof.
  induction 1 as [|s1 s2 s3 He _ IH]; [done|]. intros Hs. apply IH. destruct He as [service ref r s s' r' E|s s' Hsame].
  - by eapply RegisterService_sessions.
  - intros ref o session Ho. destruct (Hsame ref o session Ho) as [o' Ho']. by eapply Hs.
Qed.

Section laws.
Context `{ServiceLaws}.

Lemma NewService_sessions name ref r s s' r' service :
  NewService name ref r s = inr (s', r', service) -> sessions_ok s -> sessions_ok s'.
Proof.
  unfold NewService. intros E Hs. apply bindM_ok in E as ([s1 sv] & Ec & E). apply bindM_ok in E as ([s2 r2] & Er & E).
  injection E as <- <- <-. eapply RegisterService_sessions; [exact Er|]. unfold CreateOrGetService in Ec.
  destruct (k_services s !! name); [injection Ec as <- <-; done|]. destruct (known_service name); [|done].
  apply bindM_ok in Ec as ([s3 sv'] & Ec & E). injection E as <- <-.
  eapply sessions_ok_objects; [|eapply service_effects_sessions; [by eapply construct_effect|done]]. done.
Qed.

Lemma sm_functions_sessions id f ref q r s s' r' v :
  sm_functions id = Some f -> f ref q r s = inr (s', r', v) -> sessions_ok s -> sessions_ok s'.
Proof.
  unfold sm_functions. intros Ef E Hs. destruct id as [|[]|]; try done; injection Ef as <-.
  - by injection E as <- <- <-.
  - unfold sm_GetService, Pop in E. destruct (_ =? 0); [by injection E as <- <- <-|].
    destruct (NewService _ ref r s) as [[]|[[s1 r1] sv]] eqn:En; try done; [by injection E as <- <- <-|].
    injection E as <- <- <-. by eapply NewService_sessions.
Qed.

Lemma HandleRequest_sessions service ref q r s s' r' v :
  HandleRequest service ref q r s = inr (s', r', v) -> sessions_ok s -> sessions_ok s'.
Proof.
  unfold HandleRequest, GetServiceFunction. destruct (service =? smUserInterface);
    [destruct (sm_functions _) as [f|] eqn:Ef|destruct (other_functions _ _) as [f|] eqn:Ef];
    try (by intros [= <- <- <-]); destruct (f ref q r s) as [[]|[[s1 r1] v1]] eqn:E; try done; intros [= <- <- <-].
  - by eapply sm_functions_sessions.
  - eapply service_effects_sessions. by eapply function_effect.
Qed.

Lemma erase_domains_objects l s : k_objects (fold_left erase_domain l s) = k_objects s.
Proof. revert s. induction l as [|[service|] l IH]; intros s; simpl; [done|by rewrite IH|by apply IH]. Qed.

Lemma CloseSession_sessions cur handle s s' : CloseSession cur handle s = inr s' -> sessions_ok s -> sessions_ok s'.
Proof.
  unfold CloseSession. intros E Hs. apply bindM_ok in E as (ref & _ & E).
  apply bindM_ok in E as ([o session] & Eo & E). apply get_session_ok in Eo. pose proof (Hs _ _ _ Eo) as Hok.
  destruct (isOpen session); [|by injection E as <-]. injection E as <-. apply sessions_ok_put; [|done].
  eapply sessions_ok_objects; [|exact Hs]. destruct (isDomain session); [apply erase_domains_objects|done].
Qed.

Lemma domain_request_sessions ref d q r s s' r' :
  domain_request ref d q r s = inr (s', r') -> sessions_ok s -> sessions_ok s'.
Proof.
  unfold domain_request. intros E Hs. apply bindM_ok in E as ([o session] & Eo & E). apply get_session_ok in Eo.
  pose proof (Hs _ _ _ Eo) as Hok. destruct (domains session !! _) as [[service|]|]; try done. destruct (d_command d).
  - apply bindM_ok in E as ([[s1 r1] v] & E1 & E). injection E as <- <-. by eapply HandleRequest_sessions.
  - injection E as <- <-. apply sessions_ok_put; [by eapply sessions_ok_objects|].
    unfold session_ok, len in *. simpl. by rewrite length_insert.
  - by injection E as <- <-.
Qed.

Lemma control_request_sessions ref q r s s' r' :
  control_request ref q r s = inr (s', r') -> sessions_ok s -> sessions_ok s'.
Proof.
  unfold control_request. intros E Hs. apply bindM_ok in E as ([o session] & Eo & E). apply get_session_ok in Eo.
  pose proof (Hs _ _ _ Eo) as Hok.
  destruct (ControlCommand_of_raw _); try done; injection E as <- <-; try (by eapply sessions_ok_objects); try done.
  apply sessions_ok_put; [done|]. by apply (session_ok_push (serviceObject session)) in Hok.
Qed.

Lemma SyncRequestHandler_sessions cur tls handle s s' :
  SyncRequestHandler cur tls handle s = inr s' -> sessions_ok s -> sessions_ok s'.
Proof.
  unfold SyncRequestHandler. intros E Hs. apply bindM_ok in E as (ref & _ & E).
  apply bindM_ok in E as ([o session] & _ & E). destruct (isOpen session); [|by injection E as <-].
  assert (Hreq : forall m, (forall s1 r1, m = inr (s1, r1) -> sessions_ok s1) ->
    bindM m (fun '(s, response) => let! (o, session) := get_session ref s in ok (respond (isDomain session) tls response s)) = inr s' ->
    sessions_ok s').
  { intros m Hm Em. apply bindM_ok in Em as ([s1 r1] & E1 & Em). apply bindM_ok in Em as ([o2 session2] & _ & Em).
    injection Em as <-. eapply sessions_ok_objects; [|by eapply Hm]. done. }
  assert (Hsend : forall s1 r1, match isDomain session, rq_domain (IpcRequest_new (isDomain session) (k_ram s) tls) with
    | true, Some domain => domain_request ref domain (IpcRequest_new (isDomain session) (k_ram s) tls) IpcResponse_new s
    | true, None => fail (Undefined "null domain header")
    | false, _ => let! (s, response, result) :=
        HandleRequest (serviceObject session) ref (IpcRequest_new (isDomain session) (k_ram s) tls) IpcResponse_new s in
        ok (s, set_errorCode result response)
    end = inr (s1, r1) -> sessions_ok s1).
  { intros s1 r1. destruct (isDomain session); [destruct (rq_domain _); [|done]|].
    - intros E1. by eapply domain_request_sessions.
    - intros E1. apply bindM_ok in E1 as ([[s2 r2] v] & E2 & E1). injection E1 as <- <-. by eapply HandleRequest_sessions. }
  destruct (h_type _); try done; try (by eapply Hreq; [exact Hsend|exact E]).
  - by eapply CloseSession_sessions.
  - apply bindM_ok in E as ([s1 r1] & E1 & E). injection E as <-.
    eapply sessions_ok_objects; [|by eapply control_request_sessions]. done.
  - apply bindM_ok in E as ([s1 r1] & E1 & E). injection E as <-.
    eapply sessions_ok_objects; [|by eapply control_request_sessions]. done.
Qed.

(** What guest threads do to sessions: connect to a port, send a request, and write to memory in
    between. *)
Inductive session_step : Kernel -> Kernel -> Prop :=
| ss_connect r s s' r' e : svc_ConnectToNamedPort smUserInterface s r = inr (s', r', e) -> session_step s s'
| ss_request cur tls handle s s' : SyncRequestHandler cur tls handle s = inr s' -> session_step s s'
| ss_memory ram s : session_step s (set_k_ram ram s).

(** C33: Virtual handles stay in step with the domain.  Along any history of connections and requests
    (conversion to a domain, service requests, closing of objects, clones, closing of the session),
    the next virtual handle of every session is the number of objects its domain has had.  The
    manager, sm: and the conversion, cloning and closing of sessions are the code; of the other
    services it is assumed that what their constructors and functions do is a sequence of
    registrations with the manager and of changes that leave every session as it is
    ([ServiceLaws]), not that they keep the invariant: that a registration keeps it is proved. *)
Theorem requests_keep_sessions s s' : sessions_ok s -> rtc session_step s s' -> sessions_ok s'.
Proof.
  intros Hs Hr. revert Hs. induction Hr as [|s1 s2 s3 Hstep _ IH]; [done|]. intros Hs. apply IH. clear IH.
  destruct Hstep as [r s s' r' e E|cur tls handle s s' E|ram s].
  - unfold svc_ConnectToNamedPort in E. destruct (name_ge _ _); [|by injection E as <- <- <-].
    apply bindM_ok in E as ([[s1 item] handle] & E1 & E). injection E as <- <- <-. by eapply NewHandle_session_ok.
  - by eapply SyncRequestHandler_sessions.
  - by eapply sessions_ok_objects.
Qed.

End laws.

(** ** Registered services *)

Section registered.
Context `{Services}.

Lemma get_session_put ref o session s : get_session ref (put_session ref o session s) = inr (o, session).
Proof. apply get_session_ok. unfold get_object, put_session, put_object. simpl. by rewrite lookup_insert_eq. Qed.

(** A lookup depends on the table and the kinds of the objects. *)
Lemma GetHandle_types cur type h s s' :
  k_handles s' = k_handles s -> (forall ref, objectType <$> get_object s' ref = objectType <$> get_object s ref) ->
  GetHandle cur type h s' = GetHandle cur type h s.
Proof.
  intros Hh Ho. unfold GetHandle, handles_at. rewrite Hh. destruct (_ && _); [done|]. destruct (_ && _); [done|].
  destruct (k_handles s !! _) as [[ref|]|]; try done. cbn [from_opt bindM]. specialize (Ho ref).
  destruct (get_object s' ref), (get_object s ref); simplify_eq/=; [|done]. by rewrite Ho.
Qed.

Lemma put_session_types ref o session o' session' s ref' :
  get_object s ref = Some (OSession o session) ->
  objectType <$> get_object (put_session ref o' session' s) ref' = objectType <$> get_object s ref'.
Proof.
  intros Ho. unfold get_object, put_session, put_object in *. simpl.
  destruct (decide (ref' = ref)) as [->|]; [by rewrite lookup_insert_eq, Ho|by rewrite lookup_insert_ne].
Qed.

(** A registered service is reachable.  In a domain the response carries a new virtual handle
    that leads to the service, and every other virtual handle leads where it did.  Outside a domain
    the response carries a handle to a new open session of the service, and every handle that
    could be looked up before gives the same object, unchanged. *)
Theorem RegisterService_resolves cur service ref r s o session :
  kernel_ok s -> sessions_ok s -> table_room s -> get_object s ref = Some (OSession o session) ->
  len (domains session) < 2 ^ 32 ->
  exists s' r', RegisterService service ref r s = inr (s', r') /\
    if isDomain session then
      exists session', get_session ref s' = inr (o, session') /\ rs_domainObjects r' = rs_domainObjects r ++ [len (domains session)] /\
        domains session' !! Z.to_nat (len (domains session)) = Some (Some service) /\
        forall i x, domains session !! i = Some x -> domains session' !! i = Some x
    else
      exists handle item, rs_moveHandles r' = rs_moveHandles r ++ [handle] /\ GetHandle cur KT_KSession handle s' = inr item /\
        get_object s' item = Some (new_session service) /\
        forall type h ref' obj, GetHandle cur type h s = inr ref' -> get_object s ref' = Some obj ->
          GetHandle cur type h s' = inr ref' /\ get_object s' ref' = Some obj.
Proof.
  intros Hk Hs Hroom Ho Hlen. pose proof (Hs _ _ _ Ho) as Hok. unfold RegisterService.
  rewrite (proj2 (get_session_ok ref s o session) Ho). cbn [bindM]. destruct (isDomain session) eqn:Ed.
  - eexists _, _. split; [done|]. eexists. split; [apply get_session_put|]. unfold session_ok in Hok.
    rewrite Hok, wrap_small by (unfold len in *; lia). simpl. split; [done|]. unfold len. rewrite Nat2Z.id.
    split; [by rewrite lookup_app_r, Nat.sub_diag by lia|]. intros i y Hi. by apply lookup_app_l_Some.
  - unfold NewHandle. cbn [bindM ok]. set (s1 := (new_object (new_session service) s).1).
    assert (Hr1 : table_room s1) by done. pose proof (push_handle_found (k_next s) s1 Hr1) as (P1 & P2 & P3).
    pose proof (handles_at_app (k_next s) s1) as Happ.
    change (new_object (new_session service) s) with (s1, k_next s). cbn iota beta.
    destruct (push_handle (k_next s) s1) as [s2 h] eqn:E. simpl in P1, P2, P3, Happ. cbn [bindM].
    assert (Eo : k_objects s2 = <[k_next s := new_session service]> (k_objects s)).
    { change s2 with (s2, h).1. by rewrite <- E. }
    assert (Hfresh : forall ref' obj, get_object s ref' = Some obj -> get_object s2 ref' = Some obj).
    { intros ref' obj Hg. unfold get_object. rewrite Eo, lookup_insert_ne; [done|].
      pose proof (ko_fresh s Hk ref' (mk_is_Some _ _ Hg)). lia. }
    assert (Hnew : get_object s2 (k_next s) = Some (new_session service)) by (unfold get_object; by rewrite Eo, lookup_insert_eq).
    eexists _, _. split; [done|]. exists h, (k_next s). split; [done|]. split; [by eapply GetHandle_table|]. split; [done|].
    intros type h' ref' obj Hg Hobj. split; [|by apply Hfresh].
    unfold GetHandle in Hg |- *. destruct (_ && _); [done|]. destruct (_ && _); [done|].
    apply bindM_ok in Hg as (y & Ey & Hg). rewrite (Happ h' y Ey). cbn [bindM]. destruct y as [ref''|]; [|done].
    destruct (get_object s ref'') as [obj'|] eqn:Eg; [|done]. by rewrite (Hfresh _ _ Eg).
Qed.

(** ** Conversations *)

Lemma SyncRequestHandler_control cur tls handle ref o session s m s1 r1 :
  GetHandle cur KT_KSession handle s = inr ref -> get_object s ref = Some (OSession o session) -> isOpen session = true ->
  message_ok m -> ms_type m = 5 -> ms_domain m = None -> 0 <= tls -> tls + 2 ^ 13 < 2 ^ 64 -> holds (k_ram s) tls (encode m) ->
  control_request ref (decoded m (isDomain session) tls) IpcResponse_new s = inr (s1, r1) ->
  SyncRequestHandler cur tls handle s = inr (respond false tls r1 s1).
Proof.
  intros Hg Ho Hopen Hm Ht Hd H0 H1 Hh E. unfold SyncRequestHandler. rewrite Hg. cbn [bindM].
  rewrite (proj2 (get_session_ok ref s o session) Ho). cbn [bindM]. rewrite Hopen.
  rewrite (IpcRequest_new_decoded (isDomain session) m) by (done || by unfold for_session; rewrite Hd, Ht, andb_false_r).
  assert (Eh : h_type (rq_header (decoded m (isDomain session) tls)) = CT_Control).
  { unfold decoded. rewrite Hd. simpl. by rewrite Ht. }
  rewrite Eh, E. done.
Qed.

Lemma SyncRequestHandler_domain cur tls handle ref o session s m d s1 r1 o1 session1 :
  GetHandle cur KT_KSession handle s = inr ref -> get_object s ref = Some (OSession o session) -> isOpen session = true ->
  isDomain session = true -> message_ok m -> ms_domain m = Some d -> 0 <= tls -> tls + 2 ^ 13 < 2 ^ 64 ->
  holds (k_ram s) tls (encode m) ->
  (forall h, rq_domain (decoded m true tls) = Some h -> domain_request ref h (decoded m true tls) IpcResponse_new s = inr (s1, r1)) ->
  get_session ref s1 = inr (o1, session1) ->
  SyncRequestHandler cur tls handle s = inr (respond (isDomain session1) tls r1 s1).
Proof.
  intros Hg Ho Hopen Hdom Hm Hd H0 H1 Hh E Hs1. unfold SyncRequestHandler. rewrite Hg. cbn [bindM].
  rewrite (proj2 (get_session_ok ref s o session) Ho). cbn [bindM]. rewrite Hopen, Hdom.
  rewrite (IpcRequest_new_decoded true m) by (done || by unfold for_session; rewrite Hd).
  pose proof (mo_domain m Hm) as Hreq. rewrite Hd in Hreq. destruct Hreq as (_ & _ & Hreq).
  assert (Eh : h_type (rq_header (decoded m true tls)) = CommandType_of_raw (ms_type m)) by (unfold decoded; by rewrite Hd).
  assert (Er : exists h, rq_domain (decoded m true tls) = Some h) by (unfold decoded; rewrite Hd; by eexists).
  destruct Er as [h Er]. rewrite Eh, Er. rewrite (E h Er). cbn [bindM].
  destruct (CommandType_of_raw (ms_type m)); try done; by rewrite Hs1.
Qed.

(** A session converted to a domain keeps serving.  On an open session with room in its domain,
    the control message that converts it is answered with a virtual handle in the payload; from
    then on, a message to that object of the domain, whatever the guest wrote in between, calls the
    function of the same service for the command, on the decoded request, and the result code and
    the response of the function are written back. *)
Theorem convert_then_request cur tls handle ref o session s m1 :
  sessions_ok s -> GetHandle cur KT_KSession handle s = inr ref -> get_object s ref = Some (OSession o session) ->
  isOpen session = true -> len (domains session) < 2 ^ 32 -> 0 <= tls -> tls + 2 ^ 33 < 2 ^ 64 ->
  message_ok m1 -> ms_type m1 = 5 -> ms_domain m1 = None -> p_value (ms_payload m1) = 0 -> holds (k_ram s) tls (encode m1) ->
  exists s1, SyncRequestHandler cur tls handle s = inr s1 /\
    (let q := IpcRequest_new false (k_ram s1) tls in
     PayloadHeader_at (k_ram s1) (rq_cmdArg q - 16) = mk_payload SFCO 1 0 0 /\
     read_bytes (k_ram s1) (rq_cmdArg q) 4 = bytes_u32 (len (domains session))) /\
    forall ram2 m2 d f s2 r2 v o2 session2,
      message_ok m2 -> ms_domain m2 = Some d -> dp_command d = 1 -> dp_objectId d = len (domains session) ->
      holds ram2 tls (encode m2) ->
      GetServiceFunction (serviceObject session) (p_value (ms_payload m2)) = Some f ->
      f ref (decoded m2 true tls) IpcResponse_new (set_k_ram ram2 s1) = inr (s2, r2, v) ->
      get_session ref s2 = inr (o2, session2) ->
      SyncRequestHandler cur tls handle (set_k_ram ram2 s1) = inr (respond (isDomain session2) tls (set_errorCode v r2) s2).
Proof.
  intros Hs Hg Ho Hopen Hlen H0 H1 Hm1 Ht Hd1 Hv Hh1. pose proof (Hs _ _ _ Ho) as Hok. unfold session_ok in Hok.
  rewrite wrap_small in Hok by (unfold len in *; lia).
  set (session1 := (ConvertDomain session).1).
  set (r1 := Push (bytes_u32 (handleIndex session)) IpcResponse_new).
  set (s1 := put_session ref o session1 s).
  assert (Ec : control_request ref (decoded m1 (isDomain session) tls) IpcResponse_new s = inr (s1, r1)).
  { unfold control_request. rewrite (proj2 (get_session_ok ref s o session) Ho). cbn [bindM].
    assert (p_value (rq_payload (decoded m1 (isDomain session) tls)) = 0) as -> by (unfold decoded; by rewrite Hd1). done. }
  eexists. split; [eapply (SyncRequestHandler_control cur tls handle ref o session s m1); try done; lia|].
  assert (Hr1 : response_ok r1) by (split; simpl; try lia; try done; unfold u32_ok; simpl; lia).
  destruct (WriteResponse_written false tls r1 (k_ram s1) Hr1 H0 ltac:(lia)) as [Wh Wd _ Wp Wb _].
  destruct (response_request tls r1 _ false _ Hr1 H0 ltac:(lia) Wh Wd) as (_ & _ & _ & _ & Ha & _).
  split.
  - cbv zeta. change (k_ram (respond false tls r1 s1)) with (WriteResponse false tls r1 (k_ram s1)). rewrite Ha, Z.add_simpl_r. rewrite Z.add_0_r in Wp. split; [exact Wp|]. rewrite <- Hok. exact Wb.
  - intros ram2 m2 d f s2 r2 v o2 session2 Hm2 Hd2 Hcmd Hobj Hh2 Hf Ef Hs2.
    assert (Ho1 : get_object s1 ref = Some (OSession o session1)) by apply get_session_ok, get_session_put.
    eapply (SyncRequestHandler_domain cur tls handle ref o session1); try done; [|lia|].
    + rewrite <- Hg. apply GetHandle_types; [done|]. intros ref'. exact (put_session_types ref o session o session1 s ref' Ho).
    + intros h Eh. unfold decoded in Eh. rewrite Hd2 in Eh. injection Eh as <-. unfold domain_request.
      change (get_session ref _) with (get_session ref s1). rewrite (proj2 (get_session_ok ref s1 o session1) Ho1). cbn [bindM objectId d_command].
      rewrite Hobj, Hcmd. unfold session1. simpl domains. unfold len. rewrite Nat2Z.id, lookup_app_r, Nat.sub_diag by lia. simpl lookup.
      change (DomainCommand_of_raw 1) with SendMessage. cbv iota. unfold HandleRequest.
      assert (rq_payload (decoded m2 true tls) = ms_payload m2) as -> by (unfold decoded; by rewrite Hd2).
      rewrite Hf, Ef. done.
Qed.

End registered.

(** A clone is the same session.  The control command that duplicates a session returns a handle
    to the object itself: when the original handle is closed by a message, a request on the clone
    is dropped, without an answer. *)
Theorem clone_shares_closing `{Services} cur tls handle ref o session q r s :
  GetHandle cur KT_KSession handle s = inr ref -> get_object s ref = Some (OSession o session) -> isOpen session = true ->
  table_room s -> p_value (rq_payload q) = 2 ->
  exists s1 r1 clone s2, control_request ref q r s = inr (s1, r1) /\ rs_moveHandles r1 = rs_moveHandles r ++ [clone] /\
    CloseSession cur handle s1 = inr s2 /\ SyncRequestHandler cur tls clone s2 = inr s2.
Proof.
  intros Hg Ho Hopen Hroom Hq. unfold control_request. rewrite (proj2 (get_session_ok ref s o session) Ho). cbn [bindM].
  rewrite Hq. change (ControlCommand_of_raw 2) with CloneCurrentObject. cbv iota. unfold InsertItem.
  pose proof (push_handle_found ref s Hroom) as (P1 & P2 & P3). pose proof (handles_at_app ref s handle) as Happ.
  destruct (push_handle ref s) as [s1 clone] eqn:E. simpl in P1, P2, P3, Happ.
  assert (Eo : k_objects s1 = k_objects s) by (change s1 with (s1, clone).1; by rewrite <- E).
  assert (Hg1 : GetHandle cur KT_KSession handle s1 = inr ref) by (eapply GetHandle_keeps; [exact Eo|exact Happ|exact Hg]).
  assert (Ho1 : get_object s1 ref = Some (OSession o session)) by (unfold get_object; by rewrite Eo).
  assert (Hc1 : GetHandle cur KT_KSession clone s1 = inr ref) by (by eapply GetHandle_table).
  eexists s1, _, clone, _. split; [done|]. split; [done|]. unfold CloseSession. rewrite Hg1. cbn [bindM].
  rewrite (proj2 (get_session_ok ref s1 o session) Ho1). cbn [bindM]. rewrite Hopen. split; [done|].
  set (session' := mk_session (serviceObject session) (domains session) (handleIndex session) false (isDomain session)).
  set (s1' := if isDomain session then fold_left erase_domain (domains session) s1 else erase_service (serviceObject session) s1).
  assert (Hs1' : k_objects s1' = k_objects s1 /\ k_handles s1' = k_handles s1).
  { unfold s1'. destruct (isDomain session); [|done]. split; [apply erase_domains_objects|]. generalize (domains session) as l.
    clear. intros l. revert s1. induction l as [|[service|] l IH]; intros s1; simpl; [done|by rewrite IH|by apply IH]. }
  assert (Hc2 : GetHandle cur KT_KSession clone (put_session ref o session' s1') = inr ref).
  { rewrite <- Hc1. apply GetHandle_types; [apply Hs1'|]. intros ref'.
    rewrite (put_session_types ref o session) by (unfold get_object; by rewrite (proj1 Hs1')). unfold get_object. by rewrite (proj1 Hs1'). }
  unfold SyncRequestHandler. rewrite Hc2. cbn [bindM]. rewrite get_session_put. done.
Qed.

(** ** Examples *)

(** Every service answers command 12 with two bytes and command 13 with a new service. *)
#[local] Instance sample_services : Services := {|
  construct name s := ok (set_k_next (k_next s + 1) s, k_next s);
  other_functions service id :=
    if id =? 12 then Some (fun ref q r s => ok (s, Push [1; 2] r, Success))
    else if id =? 13 then Some (fun ref q r s => let! (s, r) := RegisterService 77 ref r s in ok (s, r, Success))
    else None;
  smUserInterface := 1000 |}.

#[local] Instance sample_laws : ServiceLaws.
Proof.
  split.
  - intros name s s' service E. injection E as <- _. apply rtc_once, se_apart. intros ref o session Ho. by exists o.
  - intros service id f ref q r s s' r' v. simpl. destruct (id =? 12); [|destruct (id =? 13); [|done]]; intros [= <-] E.
    + injection E as <- _ _. apply rtc_refl.
    + apply bindM_ok in E as ([s1 r1] & E1 & E). injection E as <- _ _. by eapply rtc_once, se_register.
Qed.

(** A kernel with a session of service 7 under the first handle. *)
Definition sample_session : KSession := mk_session 7 [] 0 true false.
Definition sample_connected : Kernel :=
  set_k_handles [Some 1] (set_k_next 2 (set_k_objects
    (<[1 := OSession (mk_sync false []) sample_session]> (k_objects sample_kernel)) sample_kernel)).

Lemma sample_connected_ok : sessions_ok sample_connected.
Proof.
  intros ref o session. unfold get_object. simpl. intros [[<- [= <- <-]]|[_ [_ E]%lookup_singleton_Some]]%lookup_insert_Some; done.
Qed.

Lemma sample_connected_kernel : kernel_ok sample_connected.
Proof.
  pose proof sample_kernel_ok as [H1 H2 H3 H4]. split; [exact H1|exact H2|..].
  - intros ref o. unfold get_object. simpl. intros [[<- <-]|[_ Hl]]%lookup_insert_Some; [done|]. exact (H3 ref o Hl).
  - intros ref. unfold get_object. simpl. intros [o [[<- _]|[_ Hl]]%lookup_insert_Some]; simpl; [lia|].
    pose proof (H4 ref (mk_is_Some _ _ Hl)). simpl in *. lia.
Qed.

(** The control message that converts a session. *)
Definition sample_convert : Message :=
  mk_message 5 None [] [] [] [] [] [] [] false None (mk_payload SFCI 0 0 0) [].

Lemma sample_convert_ok : message_ok sample_convert.
Proof.
  assert (Hr : length (raw sample_convert) = 8%nat) by reflexivity.
  split; [..|rewrite Hr; lia| |]; simpl; lia || done.
Qed.

Lemma sample_convert_words : Forall u32_ok (encode sample_convert).
Proof.
  assert (E : encode sample_convert = [5; 8; 0; 0; SFCI; 0; 0; 0; 0; 0]) by (vm_compute; reflexivity).
  rewrite E. repeat (apply Forall_cons; split; [unfold u32_ok, SFCI; lia|]). by apply Forall_nil.
Qed.

Lemma sample_convert_ram : exists ram, holds ram 0x800000000 (encode sample_convert).
Proof.
  destruct (write_handles_spec (encode sample_convert) 0x800000000 (fun _ => 0) sample_convert_words ltac:(lia) ltac:(vm_compute; reflexivity))
    as (ram & _ & Hh & _). by exists ram.
Qed.

Lemma requests_keep_sessions_witness :
  exists ram s', SyncRequestHandler 5 0x800000000 0xD000 (set_k_ram ram sample_connected) = inr s' /\ sessions_ok s'.
Proof.
  destruct sample_convert_ram as [ram Hh].
  pose proof (SyncRequestHandler_control 5 0x800000000 0xD000 1 (mk_sync false []) sample_session (set_k_ram ram sample_connected)
    sample_convert _ _ eq_refl eq_refl eq_refl sample_convert_ok eq_refl eq_refl ltac:(lia) ltac:(lia) Hh eq_refl) as E.
  eexists ram, _. split; [exact E|].
  apply (requests_keep_sessions sample_connected); [exact sample_connected_ok|].
  eapply rtc_l; [apply (ss_memory ram)|]. eapply rtc_l; [|apply rtc_refl]. eapply ss_request. exact E.
Defined.

Lemma RegisterService_resolves_witness :
  exists s' r' item, RegisterService 9 1 IpcResponse_new sample_connected = inr (s', r') /\
    rs_moveHandles r' = [0xD001] /\ GetHandle 5 KT_KSession 0xD001 s' = inr item /\ get_object s' item = Some (new_session 9).
Proof.
  destruct (RegisterService_resolves 5 9 1 IpcResponse_new sample_connected (mk_sync false []) sample_session
    sample_connected_kernel sample_connected_ok ltac:(vm_compute; reflexivity) eq_refl ltac:(vm_compute; reflexivity))
    as (s' & r' & E & handle & item & Hm & Hg & Ho & _).
  assert (Hh : handle = 0xD001) by (vm_compute in E; injection E as _ <-; simpl in Hm; by injection Hm as <-).
  exists s', r', item. rewrite Hh in Hm, Hg. split; [exact E|]. split; [exact Hm|]. split; [exact Hg|exact Ho].
Defined.

Lemma convert_then_request_witness :
  exists ram s1, SyncRequestHandler 5 0x800000000 0xD000 (set_k_ram ram sample_connected) = inr s1 /\
    read_bytes (k_ram s1) (rq_cmdArg (IpcRequest_new false (k_ram s1) 0x800000000)) 4 = [0; 0; 0; 0].
Proof.
  destruct sample_convert_ram as [ram Hh].
  destruct (convert_then_request 5 0x800000000 0xD000 1 (mk_sync false []) sample_session (set_k_ram ram sample_connected) sample_convert
    sample_connected_ok eq_refl eq_refl eq_refl ltac:(vm_compute; reflexivity) ltac:(lia) ltac:(lia) sample_convert_ok eq_refl eq_refl
    eq_refl Hh) as (s1 & E & [_ Hb] & _).
  exists ram, s1. split; [exact E|exact Hb].
Defined.
