(* ===== verification/Macro.v ===== *)
(** * The macro interpreter ([soc/gm20b/macro/macro_interpreter.{h,cpp}], [soc/gm20b/engines/engine.{h,cpp}])

    Macros are small programs the GPU runs to expand one method call into many.  The interpreter
    has eight registers, a carry flag, a method address and an argument stream, and calls back into
    the engine it runs for, which is the interface [MacroEngine].  The macro memory belongs to the
    channel and the engine's methods write to it, so a call from a macro may change the code that
    runs.  A position is an index into the macro code; reading code or arguments past their end is
    undefined, and so are the shifts and signed additions the language leaves undefined. *)

From S2P Require Import Prelude.

(** ** Instructions *)

Inductive Operation : Type :=
| AluRegister | AddImmediate | BitfieldReplace | BitfieldExtractShiftLeftImmediate
| BitfieldExtractShiftLeftRegister | ReadImmediate | Branch | Operation_Other (raw : Z).

Inductive AssignmentOperation : Type :=
| IgnoreAndFetch | Move | MoveAndSetMethod | FetchAndSend | MoveAndSend | FetchAndSetMethod
| MoveAndSetMethodThenFetchAndSend | MoveAndSetMethodThenSendHigh.

Inductive AluOperation : Type :=
| Add | AddWithCarry | Subtract | SubtractWithBorrow | BitwiseXor | BitwiseOr | BitwiseAnd
| BitwiseAndNot | BitwiseNand | AluOperation_Other (raw : Z).

(** The fields of an instruction word. *)
Definition op_operation (raw : Z) : Operation :=
  match bits 0 3 raw with
  | 0 => AluRegister | 1 => AddImmediate | 2 => BitfieldReplace | 3 => BitfieldExtractShiftLeftImmediate
  | 4 => BitfieldExtractShiftLeftRegister | 5 => ReadImmediate | 7 => Branch | r => Operation_Other r
  end.

Definition op_assignment (raw : Z) : AssignmentOperation :=
  match bits 4 3 raw with
  | 0 => IgnoreAndFetch | 1 => Move | 2 => MoveAndSetMethod | 3 => FetchAndSend | 4 => MoveAndSend
  | 5 => FetchAndSetMethod | 6 => MoveAndSetMethodThenFetchAndSend | _ => MoveAndSetMethodThenSendHigh
  end.

Definition op_branchNonZero (raw : Z) : bool := bit raw 4.
Definition op_noDelay (raw : Z) : bool := bit raw 5.
Definition op_exit (raw : Z) : bool := bit raw 7.
Definition op_dest (raw : Z) : Z := bits 8 3 raw.
Definition op_srcA (raw : Z) : Z := bits 11 3 raw.
Definition op_srcB (raw : Z) : Z := bits 14 3 raw.

Definition op_alu (raw : Z) : AluOperation :=
  match bits 17 5 raw with
  | 0 => Add | 1 => AddWithCarry | 2 => Subtract | 3 => SubtractWithBorrow | 8 => BitwiseXor | 9 => BitwiseOr
  | 10 => BitwiseAnd | 11 => BitwiseAndNot | 12 => BitwiseNand | r => AluOperation_Other r
  end.

Definition op_immediate (raw : Z) : Z := swrap 18 (bits 14 18 raw).
Definition op_srcBit (raw : Z) : Z := bits 17 5 raw.
Definition op_size (raw : Z) : Z := bits 22 5 raw.
Definition op_destBit (raw : Z) : Z := bits 27 5 raw.

(** [(1 << size) - 1] in [int]: the subtraction overflows for a size of 31. *)
Definition GetMask (raw : Z) : M Z :=
  if op_size raw =? 31 then fail (Undefined "GetMask: signed overflow") else ok (Z.shiftl 1 (op_size raw) - 1).

(** ** State *)

(** The macro memory of a channel: the code and the position of each macro in it. *)
Record MacroState : Type := mk_macro_state {
  macroCode : list Z;
  macroPositions : list Z }.

(** The engine a macro runs for; a call may also write the macro memory. *)
Class MacroEngine (E : Type) : Type := {
  CallMethodFromMacro : Z -> Z -> MacroState * E -> M (MacroState * E);
  ReadMethodFromMacro : Z -> E -> M Z }.

Record Macro (E : Type) : Type := mk_macro {
  mc_opcode : Z;
  mc_registers : list Z;
  mc_argument : nat;
  mc_method : Z;
  mc_carry : bool;
  mc_state : MacroState;
  mc_engine : E }.
Arguments mk_macro {E}.
Arguments mc_opcode {E}.
Arguments mc_registers {E}.
Arguments mc_argument {E}.
Arguments mc_method {E}.
Arguments mc_carry {E}.
Arguments mc_state {E}.
Arguments mc_engine {E}.

Definition set_opcode {E} (v : Z) (m : Macro E) : Macro E :=
  mk_macro v (mc_registers m) (mc_argument m) (mc_method m) (mc_carry m) (mc_state m) (mc_engine m).
Definition set_registers {E} (v : list Z) (m : Macro E) : Macro E :=
  mk_macro (mc_opcode m) v (mc_argument m) (mc_method m) (mc_carry m) (mc_state m) (mc_engine m).
Definition set_argument {E} (v : nat) (m : Macro E) : Macro E :=
  mk_macro (mc_opcode m) (mc_registers m) v (mc_method m) (mc_carry m) (mc_state m) (mc_engine m).
Definition set_method {E} (v : Z) (m : Macro E) : Macro E :=
  mk_macro (mc_opcode m) (mc_registers m) (mc_argument m) v (mc_carry m) (mc_state m) (mc_engine m).
Definition set_carry {E} (v : bool) (m : Macro E) : Macro E :=
  mk_macro (mc_opcode m) (mc_registers m) (mc_argument m) (mc_method m) v (mc_state m) (mc_engine m).
Definition set_target {E} (v : MacroState * E) (m : Macro E) : Macro E :=
  mk_macro (mc_opcode m) (mc_registers m) (mc_argument m) (mc_method m) (mc_carry m) (fst v) (snd v).

Definition reg {E} (m : Macro E) (i : Z) : Z := mc_registers m !!! Z.to_nat i.

(** [MethodAddress]: twelve bits of address and six of increment. *)
Definition method_address (raw : Z) : Z := bits 0 12 raw.
Definition method_increment (raw : Z) : Z := bits 12 6 raw.

(** ** Arithmetic *)

(** The result and the carry flag; a missing case falls off the end of the function. *)
Definition HandleAlu (operation : AluOperation) (srcA srcB : Z) (carryFlag : bool) : M (Z * bool) :=
  match operation with
  | Add => let result := srcA + srcB in ok (u32 result, negb (Z.shiftr result 32 =? 0))
  | AddWithCarry =>
      let result := srcA + srcB + Z.b2z carryFlag in ok (u32 result, negb (Z.shiftr result 32 =? 0))
  | Subtract => let result := u64 (srcA - srcB) in ok (u32 result, negb (Z.land result 0xFFFFFFFF =? 0))
  | SubtractWithBorrow =>
      let result := u64 (srcA - srcB - Z.b2z (negb carryFlag)) in ok (u32 result, negb (Z.land result 0xFFFFFFFF =? 0))
  | BitwiseXor => ok (Z.lxor srcA srcB, carryFlag)
  | BitwiseOr => ok (Z.lor srcA srcB, carryFlag)
  | BitwiseAnd => ok (Z.land srcA srcB, carryFlag)
  | BitwiseAndNot => ok (Z.land srcA (u32 (Z.lnot srcB)), carryFlag)
  | BitwiseNand => ok (u32 (Z.lnot (Z.land srcA srcB)), carryFlag)
  | AluOperation_Other _ => fail (Undefined "HandleAlu: no return value")
  end.

(** [static_cast<u32>(static_cast<i32>(a) + immediate)]. *)
Definition add_immediate (a immediate : Z) : M Z :=
  let sum := swrap 32 a + immediate in
  if (- 2 ^ 31 <=? sum) && (sum <? 2 ^ 31) then ok (u32 sum) else fail (Undefined "signed overflow").

(** Shifts of a [u32] by a [u32]. *)
Definition shr_u32 (a n : Z) : M Z := if n <? 32 then ok (Z.shiftr a n) else fail (Undefined "shift").
Definition shl_u32 (a n : Z) : M Z := if n <? 32 then ok (u32 (Z.shiftl a n)) else fail (Undefined "shift").

Definition bitfield_replace (raw src dest : Z) : M Z :=
  let! mask := GetMask raw in
  let src := Z.land (Z.shiftr src (op_srcBit raw)) mask in
  let dest := Z.land dest (u32 (Z.lnot (u32 (Z.shiftl mask (op_destBit raw))))) in
  ok (Z.lor dest (u32 (Z.shiftl src (op_destBit raw)))).

(** ** Execution *)

Section interpreter.
Context {E : Type} `{MacroEngine E} (args : list Z).

(** Register 0 is never written. *)
Definition WriteRegister (r value : Z) (m : Macro E) : Macro E :=
  if r =? 0 then m else set_registers (<[Z.to_nat r := value]> (mc_registers m)) m.

(** [*argument++]. *)
Definition fetch (m : Macro E) : M (Macro E * Z) :=
  let! v := from_opt (Undefined "argument past the end") (args !! mc_argument m) in
  ok (set_argument (S (mc_argument m)) m, v).

Definition Send (argument : Z) (m : Macro E) : M (Macro E) :=
  let! target := CallMethodFromMacro (method_address (mc_method m)) argument (mc_state m, mc_engine m) in
  let address := method_address (mc_method m) + method_increment (mc_method m) in
  ok (set_method (set_bits 0 12 address (mc_method m)) (set_target target m)).

Definition HandleAssignment (operation : AssignmentOperation) (r result : Z) (m : Macro E) : M (Macro E) :=
  match operation with
  | IgnoreAndFetch => let! (m, v) := fetch m in ok (WriteRegister r v m)
  | Move => ok (WriteRegister r result m)
  | MoveAndSetMethod => ok (set_method result (WriteRegister r result m))
  | FetchAndSend => let! (m, v) := fetch m in Send result (WriteRegister r v m)
  | MoveAndSend => Send result (WriteRegister r result m)
  | FetchAndSetMethod => let! (m, v) := fetch m in ok (set_method result (WriteRegister r v m))
  | MoveAndSetMethodThenFetchAndSend =>
      let m := set_method result (WriteRegister r result m) in
      let! (m, v) := fetch m in Send v m
  | MoveAndSetMethodThenSendHigh =>
      let m := set_method result (WriteRegister r result m) in Send (method_increment (mc_method m)) m
  end.

(** The value an instruction other than a branch computes. *)
Definition compute (raw : Z) (m : Macro E) : M (Macro E * Z) :=
  let a := reg m (op_srcA raw) in
  let b := reg m (op_srcB raw) in
  match op_operation raw with
  | AluRegister => let! (v, carry) := HandleAlu (op_alu raw) a b (mc_carry m) in ok (set_carry carry m, v)
  | AddImmediate => let! v := add_immediate a (op_immediate raw) in ok (m, v)
  | BitfieldReplace => let! v := bitfield_replace raw b a in ok (m, v)
  | BitfieldExtractShiftLeftImmediate =>
      let! v := shr_u32 b a in
      let! mask := GetMask raw in
      ok (m, u32 (Z.shiftl (Z.land v mask) (op_destBit raw)))
  | BitfieldExtractShiftLeftRegister =>
      let! mask := GetMask raw in
      let! v := shl_u32 (Z.land (Z.shiftr b (op_srcBit raw)) mask) a in
      ok (m, v)
  | ReadImmediate =>
      let! method := add_immediate a (op_immediate raw) in
      let! v := ReadMethodFromMacro method (mc_engine m) in
      ok (m, v)
  | Branch | Operation_Other _ => fail (Throw "Unknown MME opcode encountered")
  end.

(** The instruction at the current position. *)
Definition code_at (m : Macro E) : M Z :=
  if 0 <=? mc_opcode m then from_opt (Undefined "macro code past the end") (macroCode (mc_state m) !! Z.to_nat (mc_opcode m))
  else fail (Undefined "macro code before the start").

Definition branch_taken (raw : Z) (m : Macro E) : bool :=
  let zero := reg m (op_srcA raw) =? 0 in if op_branchNonZero raw then negb zero else zero.

(** The end of [Step], on the instruction as it is then: the exit with its delay slot, the delayed target or the next instruction. *)
Definition advance (slot : Z -> Macro E -> M (Macro E * bool)) (delayed : option Z) (raw : Z) (m : Macro E) : M (Macro E * bool) :=
  match delayed with
  | None =>
      if op_exit raw then
        let m := set_opcode (mc_opcode m + 1) m in
        let! (m, _) := slot (mc_opcode m) m in ok (m, false)
      else ok (set_opcode (mc_opcode m + 1) m, true)
  | Some target => ok (set_opcode target m, true)
  end.

(** One instruction; [slot] runs the instruction in a delay slot, given the target. *)
Definition Step_with (slot : Z -> Macro E -> M (Macro E * bool)) (delayed : option Z) (m : Macro E) : M (Macro E * bool) :=
  let! raw := code_at m in
  match op_operation raw with
  | Branch =>
      match delayed with
      | Some _ => fail (Throw "Cannot branch while inside a delay slot")
      | None =>
          if branch_taken raw m then
            let target := mc_opcode m + op_immediate raw in
            if op_noDelay raw then ok (set_opcode target m, true)
            else slot target (set_opcode (mc_opcode m + 1) m)
          else advance slot None raw m
      end
  | _ =>
      let! (m, v) := compute raw m in
      let! m := HandleAssignment (op_assignment raw) (op_dest raw) v m in
      let! raw := code_at m in
      advance slot delayed raw m
  end.

(** In a delay slot neither a branch nor an exit steps again. *)
Definition Step_slot (target : Z) (m : Macro E) : M (Macro E * bool) :=
  Step_with (fun _ _ => fail (Undefined "nested delay slot")) (Some target) m.

Definition Step (m : Macro E) : M (Macro E * bool) := Step_with Step_slot None m.

(** [while (Step());]. *)
Fixpoint run (fuel : nat) (m : Macro E) : M (Macro E) :=
  match fuel with
  | O => fail (Suspended "macro")
  | S fuel => let! (m, more) := Step m in if more then run fuel m else ok m
  end.

Definition Execute (fuel : nat) (offset : Z) (target : MacroState * E) : M (Macro E) :=
  let m := mk_macro offset (replicate 8 0) 0%nat 0 false (fst target) (snd target) in
  let! (m, v) := fetch m in
  run fuel (set_registers (<[1%nat := v]> (mc_registers m)) m).

End interpreter.

(** ** Pending macros *)

(** [size_t index] is all ones while no macro is pending. *)
Record MacroInvocation : Type := mk_invocation {
  inv_index : Z;
  inv_arguments : list Z }.

Definition invocation_Valid (i : MacroInvocation) : bool := negb (inv_index i =? 2 ^ 64 - 1).
Definition invocation_Reset : MacroInvocation := mk_invocation (2 ^ 64 - 1) [].

Record MacroEngineBase (E : Type) : Type := mk_engine_base {
  eb_state : MacroState;
  eb_invocation : MacroInvocation;
  eb_engine : E }.
Arguments mk_engine_base {E}.
Arguments eb_state {E}.
Arguments eb_invocation {E}.
Arguments eb_engine {E}.

Section calls.
Context {E : Type} `{MacroEngine E}.

(** Executes the pending macro and resets the invocation. *)
Definition run_invocation (fuel : nat) (b : MacroEngineBase E) : M (MacroEngineBase E) :=
  let i := eb_invocation b in
  let! position := from_opt (Undefined "macroPositions") (macroPositions (eb_state b) !! Z.to_nat (inv_index i)) in
  let! m := Execute (inv_arguments i) fuel position (eb_state b, eb_engine b) in
  ok (mk_engine_base (mc_state m) invocation_Reset (mc_engine m)).

Definition HandleMacroCall (fuel : nat) (macroMethodOffset argument : Z) (lastCall : bool) (b : MacroEngineBase E) :
    M (MacroEngineBase E) :=
  let! b :=
    if negb (bit macroMethodOffset 0) then
      let! b := if invocation_Valid (eb_invocation b) then run_invocation fuel b else ok b in
      let index := (macroMethodOffset / 2) mod Z.of_nat (length (macroPositions (eb_state b))) in
      ok (mk_engine_base (eb_state b) (mk_invocation index (inv_arguments (eb_invocation b))) (eb_engine b))
    else ok b in
  let i := eb_invocation b in
  let b := mk_engine_base (eb_state b) (mk_invocation (inv_index i) (inv_arguments i ++ [argument])) (eb_engine b) in
  if lastCall && invocation_Valid (eb_invocation b) then run_invocation fuel b else ok b.

End calls.

(** ** Uploading macros *)

(** The pointers of the MME register block. *)
Record MME : Type := mk_mme {
  instructionRamPointer : Z;
  startAddressRamPointer : Z }.

(** The [instructionRamLoad] method: stores a word and advances, wrapping at the end. *)
Definition load_instruction (st : MME * MacroState) (word : Z) : M (MME * MacroState) :=
  let (mme, ms) := st in
  let size := Z.of_nat (length (macroCode ms)) in
  if size <=? instructionRamPointer mme then fail (Throw "Macro memory is full!")
  else
    ok (mk_mme ((instructionRamPointer mme + 1) mod size) (startAddressRamPointer mme),
        mk_macro_state (<[Z.to_nat (instructionRamPointer mme) := word]> (macroCode ms)) (macroPositions ms)).

(** The [startAddressRamLoad] method. *)
Definition load_start_address (st : MME * MacroState) (word : Z) : M (MME * MacroState) :=
  let (mme, ms) := st in
  if Z.of_nat (length (macroPositions ms)) <=? startAddressRamPointer mme then fail (Throw "Maximum amount of macros reached!")
  else
    ok (mk_mme (instructionRamPointer mme) (startAddressRamPointer mme + 1),
        mk_macro_state (macroCode ms) (<[Z.to_nat (startAddressRamPointer mme) := word]> (macroPositions ms))).

(** ** Loop-free macros *)

(** The macro between [lo] and [hi] has no loop: its branches go forward and not past [hi], where
    an instruction that is not a branch exits. *)
Definition forward_at (code : list Z) (hi i : Z) : bool :=
  match code !! Z.to_nat i with
  | None => false
  | Some raw =>
      match op_operation raw with
      | Branch => (i <? hi) && (0 <? op_immediate raw) && (i + op_immediate raw <=? hi)
      | _ => (i <? hi) || op_exit raw
      end
  end.

Definition loop_free (code : list Z) (lo hi : Z) : bool :=
  (0 <=? lo) && (lo <=? hi) && forallb (fun k => forward_at code hi (lo + Z.of_nat k)) (seq 0 (Z.to_nat (hi - lo + 1))).

(** ** Well-formed states *)

Definition is_u32 (v : Z) : Prop := 0 <= v < 2 ^ 32.

(** Eight registers of 32 bits, the first of them zero, and a 32-bit method address. *)
Record macro_ok {E} (m : Macro E) : Prop := mk_macro_ok {
  mo_length : length (mc_registers m) = 8%nat;
  mo_words : Forall is_u32 (mc_registers m);
  mo_zero : reg m 0 = 0;
  mo_method : is_u32 (mc_method m) }.

(** What the interpreter relies on: the engine returns 32-bit values. *)
Class MacroEngineLaws (E : Type) `{MacroEngine E} : Prop := {
  read_u32_value method e v : ReadMethodFromMacro method e = inr v -> is_u32 v }.

Lemma u32_is_u32 z : is_u32 (u32 z).
Proof. apply wrap_range. lia. Qed.

Lemma inr_pair {A B} (a a' : A) (b b' : B) : @inr fault (A * B) (a, b) = inr (a', b') -> a = a' /\ b = b'.
Proof. by intros [= -> ->]. Qed.

Lemma HandleAlu_u32 operation a b c v c' :
  is_u32 a -> is_u32 b -> HandleAlu operation a b c = inr (v, c') -> is_u32 v.
Proof.
  intros Ha Hb E. unfold HandleAlu, ok in E.
  destruct operation; [apply inr_pair in E as [<- _]..|done]; try apply u32_is_u32; unfold is_u32 in *.
  - by apply lxor_range.
  - by apply lor_range.
  - apply land_range; [lia|done|lia].
  - apply land_range; [lia|done|]. pose proof (u32_is_u32 (Z.lnot b)) as [? _]. done.
Qed.

Lemma GetMask_ok raw mask : GetMask raw = inr mask -> mask = Z.ones (op_size raw) /\ 0 <= op_size raw < 31.
Proof.
  unfold GetMask. pose proof (bits_range 22 5 raw ltac:(lia)) as Hr. fold (op_size raw) in Hr.
  destruct (Z.eqb_spec (op_size raw) 31); [done|]. intros [= <-]. split; [|lia].
  rewrite Z.ones_equiv, Z.shiftl_1_l. lia.
Qed.

Lemma bitfield_replace_u32 raw src dest v : is_u32 dest -> bitfield_replace raw src dest = inr v -> is_u32 v.
Proof.
  intros Hd E. apply bindM_ok in E as (mask & _ & E). injection E as <-.
  apply lor_range; [lia|apply land_range; [lia|done|apply u32_is_u32]|apply u32_is_u32].
Qed.

(** [Add] and [AddWithCarry] chain to an addition of 64-bit numbers in two words. *)
Lemma add_chain lo1 hi1 lo2 hi2 carry :
  is_u32 lo1 -> is_u32 hi1 -> is_u32 lo2 -> is_u32 hi2 ->
  exists lo hi c c', HandleAlu Add lo1 lo2 carry = inr (lo, c) /\ HandleAlu AddWithCarry hi1 hi2 c = inr (hi, c') /\
    Z.b2z c' * 2 ^ 64 + hi * 2 ^ 32 + lo = (hi1 * 2 ^ 32 + lo1) + (hi2 * 2 ^ 32 + lo2).
Proof.
  unfold is_u32. intros. do 4 eexists. split; [reflexivity|]. split; [reflexivity|].
  assert (Hc : forall z, 0 <= z < 2 ^ 33 -> Z.b2z (negb (Z.shiftr z 32 =? 0)) * 2 ^ 32 + u32 z = z).
  { intros z Hz. rewrite Z.shiftr_div_pow2 by lia. unfold u32, wrap. pose proof (Z.div_mod z (2 ^ 32) ltac:(lia)).
    pose proof (Z.mod_pos_bound z (2 ^ 32) ltac:(lia)). destruct (Z.eqb_spec (z / 2 ^ 32) 0); cbn [negb Z.b2z]; nia. }
  pose proof (Hc (lo1 + lo2) ltac:(lia)) as H1'. set (b := Z.b2z _) in *.
  assert (Hb : 0 <= b <= 1) by (unfold b; destruct (negb _); cbn; lia).
  pose proof (Hc (hi1 + hi2 + b) ltac:(lia)) as H2'. lia.
Qed.

(** Subtraction leaves the carry flag at whether the difference is zero, where the borrow is meant:
    the difference of 0x100000001 and 1 in two words comes out as zero. *)
Lemma subtract_chain_loses_word :
  exists lo hi c c', HandleAlu Subtract 1 1 false = inr (lo, c) /\ HandleAlu SubtractWithBorrow 1 0 c = inr (hi, c') /\
    lo = 0 /\ hi = 0.
Proof. by repeat eexists. Qed.

Section step.
Context {E : Type} `{MacroEngineLaws E} (args : list Z) (Hargs : Forall is_u32 args).

Lemma reg_u32 (m : Macro E) r : macro_ok m -> 0 <= r < 8 -> is_u32 (reg m r).
Proof.
  intros Hm Hr. unfold reg. pose proof (mo_length m Hm). pose proof (mo_words m Hm) as Hw.
  assert (Hi : (Z.to_nat r < length (mc_registers m))%nat) by lia. apply lookup_lt_is_Some_2 in Hi as [v Hv].
  rewrite (list_lookup_total_correct _ _ _ Hv). rewrite Forall_forall in Hw. apply Hw. by eapply list_elem_of_lookup_2.
Qed.

Lemma WriteRegister_ok r v (m : Macro E) : macro_ok m -> 0 <= r -> is_u32 v -> macro_ok (WriteRegister r v m).
Proof.
  intros Hm Hr Hv. unfold WriteRegister. destruct (Z.eqb_spec r 0); [done|]. destruct Hm as [H1 H2 H3 H4]. split; simpl; try done.
  - by rewrite length_insert.
  - by apply Forall_insert.
  - unfold reg in *. simpl in *. destruct (Z.to_nat r) as [|k] eqn:Ek; [lia|]. by destruct (mc_registers m).
Qed.

Lemma fetch_ok (m m' : Macro E) v : macro_ok m -> fetch args m = inr (m', v) -> macro_ok m' /\ is_u32 v.
Proof.
  intros Hm E1. apply bindM_ok in E1 as (u & Eu & E1). apply inr_pair in E1 as [<- <-].
  split; [by destruct Hm|]. destruct (args !! mc_argument m) as [w|] eqn:Ew; [|done]. injection Eu as <-.
  rewrite Forall_forall in Hargs. apply Hargs. by eapply list_elem_of_lookup_2.
Qed.

Lemma set_method_ok v (m : Macro E) : macro_ok m -> is_u32 v -> macro_ok (set_method v m).
Proof. by intros [H1 H2 H3 H4]. Qed.

Lemma Send_ok v (m m' : Macro E) : macro_ok m -> Send v m = inr m' -> macro_ok m'.
Proof.
  intros Hm E1. apply bindM_ok in E1 as (e & _ & E1). injection E1 as <-. apply set_method_ok; [by destruct Hm|].
  apply set_bits_range; [lia..|]. by apply mo_method.
Qed.

Lemma HandleAssignment_ok operation r v (m m' : Macro E) :
  macro_ok m -> 0 <= r -> is_u32 v -> HandleAssignment args operation r v m = inr m' -> macro_ok m'.
Proof.
  intros Hm Hr Hv.
  assert (Hf : forall k, (let! (m, u) := fetch args m in k m u) = inr m' ->
    exists m1 u, macro_ok m1 /\ is_u32 u /\ k m1 u = inr m').
  { intros k Ek. apply bindM_ok in Ek as ([m1 u] & Ef & Ek). destruct (fetch_ok m m1 u Hm Ef). by exists m1, u. }
  unfold HandleAssignment. destruct operation; intros E1.
  - apply Hf in E1 as (m1 & u & H1 & Hu & E1). injection E1 as <-. by apply WriteRegister_ok.
  - injection E1 as <-. by apply WriteRegister_ok.
  - injection E1 as <-. apply set_method_ok; [by apply WriteRegister_ok|done].
  - apply Hf in E1 as (m1 & u & H1 & Hu & E1). eapply Send_ok; [|exact E1]. by apply WriteRegister_ok.
  - eapply Send_ok; [|exact E1]. by apply WriteRegister_ok.
  - apply Hf in E1 as (m1 & u & H1 & Hu & E1). injection E1 as <-. apply set_method_ok; [|done]. by apply WriteRegister_ok.
  - apply bindM_ok in E1 as ([m1 u] & Ef & E1).
    eapply fetch_ok in Ef as [H1 _]; [|apply set_method_ok; [by apply WriteRegister_ok|done]]. by eapply Send_ok.
  - eapply Send_ok; [|exact E1]. apply set_method_ok; [by apply WriteRegister_ok|done].
Qed.

Lemma field_reg s raw : 0 <= bits s 3 raw < 8.
Proof. apply bits_range. lia. Qed.

Lemma compute_ok raw (m m' : Macro E) v : macro_ok m -> compute raw m = inr (m', v) -> macro_ok m' /\ is_u32 v.
Proof.
  intros Hm. pose proof (reg_u32 m (op_srcA raw) Hm (field_reg 11 raw)) as Ha.
  pose proof (reg_u32 m (op_srcB raw) Hm (field_reg 14 raw)) as Hb.
  unfold compute. destruct (op_operation raw); intros E1; try done; apply bindM_ok in E1 as (u & Eu & E1).
  - destruct u as [u c]. apply inr_pair in E1 as [<- <-]. split; [by destruct Hm|]. exact (HandleAlu_u32 _ _ _ _ _ _ Ha Hb Eu).
  - apply inr_pair in E1 as [<- <-]. split; [done|]. unfold add_immediate in Eu. destruct (_ && _); [|done].
    injection Eu as <-. apply u32_is_u32.
  - apply inr_pair in E1 as [<- <-]. split; [done|]. exact (bitfield_replace_u32 _ _ _ _ Ha Eu).
  - apply bindM_ok in E1 as (mask & _ & E1). apply inr_pair in E1 as [<- <-]. split; [done|apply u32_is_u32].
  - apply bindM_ok in E1 as (w & Ew & E1). apply inr_pair in E1 as [<- <-]. split; [done|]. unfold shl_u32 in Ew.
    destruct (_ <? _); [|done]. injection Ew as <-. apply u32_is_u32.
  - apply bindM_ok in E1 as (w & Ew & E1). apply inr_pair in E1 as [<- <-]. split; [done|]. by eapply read_u32_value.
Qed.

Lemma Step_with_ok slot delayed (m m' : Macro E) b :
  (forall target m m' b, macro_ok m -> slot target m = inr (m', b) -> macro_ok m') ->
  macro_ok m -> Step_with args slot delayed m = inr (m', b) -> macro_ok m'.
Proof.
  intros Hslot Hm E1.
  assert (Hset : forall p (m : Macro E), macro_ok m -> macro_ok (set_opcode p m)) by (intros p m0 [H1 H2 H3 H4]; by split).
  assert (Hadv : forall d raw (m : Macro E), macro_ok m -> advance slot d raw m = inr (m', b) -> macro_ok m').
  { intros d raw m0 Hm0 Ea. unfold advance in Ea. destruct d; [by apply inr_pair in Ea as [<- _]; apply Hset|].
    destruct (op_exit raw); [|apply inr_pair in Ea as [<- _]; by apply Hset].
    apply bindM_ok in Ea as ([m1 b1] & E2 & Ea). apply inr_pair in Ea as [<- _]. eapply Hslot; [|exact E2]. by apply Hset. }
  unfold Step_with in E1. apply bindM_ok in E1 as (raw & _ & E1).
  assert (Hexec : (let! (m, v) := compute raw m in
     let! m := HandleAssignment args (op_assignment raw) (op_dest raw) v m in
     let! raw := code_at m in advance slot delayed raw m) = inr (m', b) -> macro_ok m').
  { intros Ec. apply bindM_ok in Ec as ([m1 v] & E2 & Ec). destruct (compute_ok raw m m1 v Hm E2).
    apply bindM_ok in Ec as (m2 & E3 & Ec). apply bindM_ok in Ec as (raw' & _ & Ec). eapply Hadv; [|exact Ec]. eapply HandleAssignment_ok; [..|exact E3]; try done.
    apply (field_reg 8 raw). }
  destruct (op_operation raw); try (by apply Hexec). destruct delayed; [done|].
  destruct (branch_taken raw m); [|by eapply Hadv]. destruct (op_noDelay raw).
  - apply inr_pair in E1 as [<- _]. by apply Hset.
  - eapply Hslot; [|exact E1]. by apply Hset.
Qed.

Lemma Step_ok (m m' : Macro E) b : macro_ok m -> Step args m = inr (m', b) -> macro_ok m'.
Proof.
  apply Step_with_ok. intros target m0 m1 b1. apply Step_with_ok. done.
Qed.

Lemma run_ok fuel (m m' : Macro E) : macro_ok m -> run args fuel m = inr m' -> macro_ok m'.
Proof.
  revert m. induction fuel as [|fuel IH]; intros m Hm E1; [done|]. simpl in E1.
  apply bindM_ok in E1 as ([m1 b] & E2 & E1). pose proof (Step_ok m m1 b Hm E2). destruct b; [by eapply IH|by injection E1 as <-].
Qed.

(** C40: The registers of a macro stay well formed.  Whatever the macro code, with 32-bit arguments and
    an engine that returns 32-bit values, a macro that finishes leaves eight 32-bit registers, the
    zero register at zero and a 32-bit method address. *)
Theorem Execute_keeps_registers fuel offset (target : MacroState * E) m' :
  Execute args fuel offset target = inr m' -> macro_ok m'.
Proof.
  intros E1. apply bindM_ok in E1 as ([m1 v] & Ef & E1).
  assert (Hinit : macro_ok (mk_macro offset (replicate 8 0) 0%nat 0 false (fst target) (snd target))).
  { split; try done. simpl. repeat (apply Forall_cons; split; [by split|]). by apply Forall_nil. }
  destruct (fetch_ok _ m1 v Hinit Ef) as [[H1 H2 H3 H4] Hv]. eapply run_ok; [|exact E1]. split; simpl; try done.
  - by rewrite length_insert.
  - by apply Forall_insert.
  - unfold reg in *. simpl in *. by destruct (mc_registers m1).
Qed.

End step.

(** ** Termination *)

Section termination.
Context {E : Type} `{MacroEngine E} (args : list Z).

(** Two states at the same place of the same code. *)
Definition same_place (m m' : Macro E) : Prop :=
  mc_opcode m' = mc_opcode m /\ macroCode (mc_state m') = macroCode (mc_state m).

(** Calls return and leave the macro code alone. *)
Hypothesis calls_return : forall method argument target, terminates (CallMethodFromMacro method argument target).
Hypothesis calls_keep_code : forall method argument target target',
  CallMethodFromMacro method argument target = inr target' -> macroCode (fst target') = macroCode (fst target).
Hypothesis reads_return : forall method e, terminates (ReadMethodFromMacro method e).

Lemma from_opt_terminates {A} site (o : option A) : terminates (from_opt (Undefined site) o).
Proof. by destruct o. Qed.

Lemma fetch_terminates (m : Macro E) : terminates (fetch args m).
Proof. apply terminates_bind; [apply from_opt_terminates|done]. Qed.

Lemma Send_terminates v (m : Macro E) : terminates (Send v m).
Proof. by apply terminates_bind. Qed.

Lemma HandleAssignment_terminates operation r v (m : Macro E) : terminates (HandleAssignment args operation r v m).
Proof.
  unfold HandleAssignment. destruct operation; try done; try apply Send_terminates;
    (apply terminates_bind; [apply fetch_terminates|]; intros [m1 u] _); try done; apply Send_terminates.
Qed.

Lemma compute_terminates raw (m : Macro E) : terminates (compute raw m).
Proof.
  assert (Hmask : terminates (GetMask raw)) by (unfold GetMask; by destruct (_ =? _)).
  assert (Hadd : forall a b, terminates (add_immediate a b)) by (intros; unfold add_immediate; by destruct (_ && _)).
  assert (Hshr : forall a b, terminates (shr_u32 a b)) by (intros; unfold shr_u32; destruct (_ <? _); exact I).
  assert (Hshl : forall a b, terminates (shl_u32 a b)) by (intros; unfold shl_u32; destruct (_ <? _); exact I).
  assert (Halu : forall o a b c, terminates (HandleAlu o a b c)) by (intros []; intros; exact I).
  unfold compute, bitfield_replace. destruct (op_operation raw);
    repeat match goal with
    | |- terminates (fail _) => exact I
    | |- terminates (ok _) => exact I
    | |- terminates (bindM _ _) => apply terminates_bind; [|intros ? _]
    | |- terminates (GetMask _) => exact Hmask
    | |- terminates (add_immediate _ _) => apply Hadd
    | |- terminates (shr_u32 _ _) => apply Hshr
    | |- terminates (shl_u32 _ _) => apply Hshl
    | |- terminates (HandleAlu _ _ _ _) => apply Halu
    | |- terminates (ReadMethodFromMacro _ _) => apply reads_return
    | |- terminates (let (_, _) := ?p in _) => destruct p
    end.
Qed.

Lemma same_place_trans m1 m2 m3 : same_place m1 m2 -> same_place m2 m3 -> same_place m1 m3.
Proof. intros [] []. split; congruence. Qed.

Lemma fetch_place (m m' : Macro E) v : fetch args m = inr (m', v) -> same_place m m'.
Proof. intros E1. apply bindM_ok in E1 as (u & _ & E1). by apply inr_pair in E1 as [<- _]. Qed.

Lemma WriteRegister_place r v (m : Macro E) : same_place m (WriteRegister r v m).
Proof. unfold WriteRegister. by destruct (_ =? _). Qed.

Lemma Send_place v (m m' : Macro E) : Send v m = inr m' -> same_place m m'.
Proof.
  intros E1. apply bindM_ok in E1 as (target & Et & E1). injection E1 as <-. split; [done|].
  by apply calls_keep_code in Et.
Qed.

Lemma HandleAssignment_place operation r v (m m' : Macro E) :
  HandleAssignment args operation r v m = inr m' -> same_place m m'.
Proof.
  assert (Hw : forall v m, same_place m (WriteRegister r v m)) by (intros; apply WriteRegister_place).
  assert (Hm : forall u (m : Macro E), same_place m (set_method u m)) by done.
  unfold HandleAssignment. destruct operation; intros E1;
    repeat match goal with
    | E : bindM (fetch _ _) _ = _ |- _ => apply bindM_ok in E as ([? ?] & Ef & E); apply fetch_place in Ef
    | E : Send _ _ = _ |- _ => apply Send_place in E
    | E : ok _ = _ |- _ => injection E as <-
    end; eauto 6 using same_place_trans.
Qed.

Lemma compute_place raw (m m' : Macro E) v : compute raw m = inr (m', v) -> same_place m m'.
Proof.
  unfold compute. destruct (op_operation raw); intros E1; try done;
    repeat match goal with E : bindM _ _ = _ |- _ => apply bindM_ok in E as ([] & _ & E) || apply bindM_ok in E as (? & _ & E) end;
    by apply inr_pair in E1 as [<- _].
Qed.

Lemma code_at_terminates (m : Macro E) : terminates (code_at m).
Proof. unfold code_at. destruct (_ <=? _); [apply from_opt_terminates|exact I]. Qed.

Lemma code_at_place (m m' : Macro E) : same_place m m' -> code_at m' = code_at m.
Proof. intros [Ho Hc]. unfold code_at. by rewrite Ho, Hc. Qed.

Lemma advance_terminates slot delayed raw (m : Macro E) :
  (forall target m, terminates (slot target m)) -> terminates (advance slot delayed raw m).
Proof.
  intros Hs. unfold advance. destruct delayed; [exact I|]. destruct (op_exit raw); [|exact I].
  apply terminates_bind; [apply Hs|by intros []].
Qed.

Lemma Step_with_terminates slot delayed (m : Macro E) :
  (forall target m, terminates (slot target m)) -> terminates (Step_with args slot delayed m).
Proof.
  intros Hs. apply terminates_bind; [apply code_at_terminates|]. intros raw _.
  assert (Hexec : terminates (let! (m, v) := compute raw m in
    let! m := HandleAssignment args (op_assignment raw) (op_dest raw) v m in
    let! raw := code_at m in advance slot delayed raw m)).
  { apply terminates_bind; [apply compute_terminates|]. intros [m1 v] _.
    apply terminates_bind; [apply HandleAssignment_terminates|]. intros m2 _.
    apply terminates_bind; [apply code_at_terminates|]. intros raw' _. by apply advance_terminates. }
  destruct (op_operation raw); try exact Hexec. destruct delayed; [exact I|].
  destruct (branch_taken raw m); [|by apply advance_terminates]. destruct (op_noDelay raw); [exact I|apply Hs].
Qed.

Lemma Step_slot_terminates target (m : Macro E) : terminates (Step_slot args target m).
Proof. by apply Step_with_terminates. Qed.

(** An instruction other than a branch stays in place until it advances. *)
Lemma exec_place slot delayed raw (m : Macro E) r :
  code_at m = inr raw ->
  (let! (m, v) := compute raw m in
   let! m := HandleAssignment args (op_assignment raw) (op_dest raw) v m in
   let! raw := code_at m in advance slot delayed raw m) = inr r ->
  exists m1, same_place m m1 /\ advance slot delayed raw m1 = inr r.
Proof.
  intros Hraw E1. apply bindM_ok in E1 as ([m1 v] & Ec & E1). apply bindM_ok in E1 as (m2 & Ea & E1).
  apply bindM_ok in E1 as (raw' & Er & E1). apply compute_place in Ec. apply HandleAssignment_place in Ea.
  pose proof (same_place_trans _ _ _ Ec Ea) as Hp. rewrite (code_at_place _ _ Hp), Hraw in Er. injection Er as <-.
  by exists m2.
Qed.

Lemma Step_slot_place target (m m' : Macro E) b :
  Step_slot args target m = inr (m', b) -> mc_opcode m' = target /\ macroCode (mc_state m') = macroCode (mc_state m).
Proof.
  intros E1. apply bindM_ok in E1 as (raw & Hraw & E1).
  destruct (op_operation raw); [eapply exec_place in E1 as (m1 & [_ Hc] & E1); [|exact Hraw];
    apply inr_pair in E1 as [<- _]; by split..|done|].
  eapply exec_place in E1 as (m1 & [_ Hc] & E1); [|exact Hraw]. apply inr_pair in E1 as [<- _]. by split.
Qed.

(** A step of a loop-free macro that does not end it moves forward. *)
Lemma Step_forward hi (m m' : Macro E) :
  0 <= mc_opcode m <= hi -> forward_at (macroCode (mc_state m)) hi (mc_opcode m) = true -> Step args m = inr (m', true) ->
  macroCode (mc_state m') = macroCode (mc_state m) /\ mc_opcode m < mc_opcode m' <= hi.
Proof.
  intros Hpc Hf E1. apply bindM_ok in E1 as (raw & Hraw & E1).
  assert (Hat : macroCode (mc_state m) !! Z.to_nat (mc_opcode m) = Some raw).
  { unfold code_at in Hraw. destruct (_ <=? _); [|done]. destruct (_ !! _); [|done]. by injection Hraw as <-. }
  unfold forward_at in Hf. rewrite Hat in Hf.
  assert (Hadv : forall m1, same_place m m1 -> (mc_opcode m <? hi) || op_exit raw = true ->
    advance (Step_slot args) None raw m1 = inr (m', true) ->
    macroCode (mc_state m') = macroCode (mc_state m) /\ mc_opcode m < mc_opcode m' <= hi).
  { intros m1 [Ho Hc] Hlt Ea. unfold advance in Ea. destruct (op_exit raw).
    - apply bindM_ok in Ea as ([m2 b] & _ & Ea). by apply inr_pair in Ea as [_ Hb].
    - apply inr_pair in Ea as [<- _]. simpl. rewrite orb_false_r in Hlt. apply Z.ltb_lt in Hlt. split; [done|lia]. }
  destruct (op_operation raw); try (eapply exec_place in E1 as (m1 & Hp & E1); [|exact Hraw]; by eapply Hadv).
  apply andb_true_iff in Hf as [Hf Hle]. apply andb_true_iff in Hf as [Hlt Hpos].
  apply Z.ltb_lt in Hlt, Hpos. apply Z.leb_le in Hle. destruct (branch_taken raw m).
  - destruct (op_noDelay raw); [apply inr_pair in E1 as [<- _]; simpl; split; [done|lia]|].
    apply Step_slot_place in E1 as [Ho Hc]. rewrite Ho, Hc. split; [done|lia].
  - apply (Hadv m); [done| |done]. by rewrite (proj2 (Z.ltb_lt _ _) Hlt).
Qed.

Lemma loop_free_at code lo hi i : loop_free code lo hi = true -> lo <= i <= hi -> 0 <= i /\ forward_at code hi i = true.
Proof.
  unfold loop_free. intros Hl Hi. apply andb_true_iff in Hl as [Hl Hf]. apply andb_true_iff in Hl as [H0 _].
  apply Z.leb_le in H0. split; [lia|]. rewrite forallb_forall in Hf.
  specialize (Hf (Z.to_nat (i - lo))). replace (lo + Z.of_nat (Z.to_nat (i - lo))) with i in Hf by lia.
  apply Hf, in_seq. lia.
Qed.

(** Enough fuel decides the run: more fuel gives the same result. *)
Lemma run_loop_free lo hi fuel (m : Macro E) :
  loop_free (macroCode (mc_state m)) lo hi = true -> lo <= mc_opcode m <= hi -> (Z.to_nat (hi - mc_opcode m) < fuel)%nat ->
  terminates (run args fuel m) /\ run args fuel m = run args (S (Z.to_nat (hi - lo))) m.
Proof.
  intros Hl. assert (Hgen : forall f1 f2 m', macroCode (mc_state m') = macroCode (mc_state m) -> lo <= mc_opcode m' <= hi ->
    (Z.to_nat (hi - mc_opcode m') < f1)%nat -> (Z.to_nat (hi - mc_opcode m') < f2)%nat ->
    terminates (run args f1 m') /\ run args f1 m' = run args f2 m').
  { induction f1 as [|f1 IH]; intros [|f2] m' Hc Hpc H1 H2; [lia..|]. simpl.
    destruct (Step args m') as [f|[m2 [|]]] eqn:Es; simpl.
    - split; [|done]. assert (Ht : terminates (Step args m')) by (apply Step_with_terminates, Step_slot_terminates).
      by rewrite Es in Ht.
    - destruct (loop_free_at _ _ _ _ Hl Hpc) as [H0 Hf]. rewrite <- Hc in Hf.
      destruct (Step_forward hi m' m2 ltac:(lia) Hf Es) as [Hc2 Hpc2]. apply IH; [congruence|lia..].
    - done. }
  intros Hpc Hfuel. apply Hgen; [done|lia..].
Qed.

(** C37: Loop-free macros terminate.  When the macro at [offset] has no loop up to [hi] (its branches go
    forward, delay slots included, and the instruction at [hi] exits) and the engine's methods
    return and leave the code alone, one instruction per position is enough: with at least that
    fuel the execution ends, by exiting or by a fault of its own, and more fuel does not change
    what it does. *)
Theorem Execute_loop_free_terminates fuel offset hi (target : MacroState * E) :
  loop_free (macroCode (fst target)) offset hi = true -> (Z.to_nat (hi - offset) < fuel)%nat ->
  terminates (Execute args fuel offset target) /\
  Execute args fuel offset target = Execute args (S (Z.to_nat (hi - offset))) offset target.
Proof.
  intros Hl Hfuel. unfold Execute.
  destruct (fetch args _) as [f|[m v]] eqn:Ef; simpl.
  - split; [|done]. pose proof (fetch_terminates (mk_macro offset (replicate 8 0) 0 0 false (fst target) (snd target))) as Ht.
    by rewrite Ef in Ht.
  - apply fetch_place in Ef as [Ho Hc]. simpl in Ho, Hc. unfold loop_free in Hl. pose proof Hl as Hl'.
    apply andb_true_iff in Hl as [Hl _]. apply andb_true_iff in Hl as [_ Hl]. apply Z.leb_le in Hl.
    apply (run_loop_free offset hi); cbn [mc_opcode mc_state set_registers]; rewrite ?Ho, ?Hc; [done|lia..].
Qed.

End termination.

(** ** Uploading and calling *)

(** The calls that a packet of one header and the words [argument :: rest] makes to macro [k]: the
    first starts the macro, the others go to the odd method behind it, the last is marked. *)
Fixpoint argument_calls (offset : Z) (rest : list Z) : list (Z * Z * bool) :=
  match rest with
  | [] => []
  | [a] => [(offset, a, true)]
  | a :: rest => (offset, a, false) :: argument_calls offset rest
  end.

Definition packet_calls (k argument : Z) (rest : list Z) : list (Z * Z * bool) :=
  match rest with
  | [] => [(2 * k, argument, true)]
  | _ => (2 * k, argument, false) :: argument_calls (2 * k + 1) rest
  end.

Section upload.
Context {E : Type} `{MacroEngine E}.

Definition macro_call (fuel : nat) (b : MacroEngineBase E) (call : Z * Z * bool) : M (MacroEngineBase E) :=
  let '(offset, argument, last) := call in HandleMacroCall fuel offset argument last b.

Lemma load_instructions ws p k ms :
  0 <= p -> p + Z.of_nat (length ws) <= Z.of_nat (length (macroCode ms)) ->
  exists p', foldM load_instruction ws (mk_mme p k, ms) =
    inr (mk_mme p' k, mk_macro_state (list_inserts (Z.to_nat p) ws (macroCode ms)) (macroPositions ms)).
Proof.
  revert p ms. induction ws as [|w ws IH]; intros p ms Hp Hl; simpl in *; [exists p; by destruct ms|].
  destruct (Z.leb_spec (Z.of_nat (length (macroCode ms))) p); [lia|]. simpl.
  destruct ws as [|w' ws]; [by eexists|]. rewrite Z.mod_small by (simpl in Hl; lia).
  edestruct (IH (p + 1)) as [p' ->]; simpl; [lia|rewrite length_insert; simpl in Hl; lia|]. exists p'.
  replace (Z.to_nat (p + 1)) with (S (Z.to_nat p)) by lia. do 3 f_equal.
  symmetry. apply (list_insert_inserts_lt (macroCode ms) (Z.to_nat p) (S (Z.to_nat p)) w (w' :: ws)). lia.
Qed.

Lemma odd_call fuel k a last ms i acc (e : E) :
  HandleMacroCall fuel (2 * k + 1) a last (mk_engine_base ms (mk_invocation i acc) e) =
  let b := mk_engine_base ms (mk_invocation i (acc ++ [a])) e in
  if last && invocation_Valid (eb_invocation b) then run_invocation fuel b else ok b.
Proof. unfold HandleMacroCall. rewrite Z.testbit_odd_0. done. Qed.

Lemma even_call fuel k a last ms (e : E) :
  0 <= k < Z.of_nat (length (macroPositions ms)) ->
  HandleMacroCall fuel (2 * k) a last (mk_engine_base ms invocation_Reset e) =
  let b := mk_engine_base ms (mk_invocation k [a]) e in
  if last && invocation_Valid (eb_invocation b) then run_invocation fuel b else ok b.
Proof.
  intros Hk. unfold HandleMacroCall. rewrite Z.testbit_even_0. cbn [negb eb_invocation].
  change (invocation_Valid invocation_Reset) with false. cbn [bindM ok eb_state eb_invocation eb_engine]. replace (2 * k / 2) with k by (symmetry; rewrite Z.mul_comm; by apply Z.div_mul).
  by rewrite Z.mod_small by lia.
Qed.

Lemma odd_calls fuel k rest ms i acc (e : E) :
  rest <> [] -> i <> 2 ^ 64 - 1 ->
  foldM (macro_call fuel) (argument_calls (2 * k + 1) rest) (mk_engine_base ms (mk_invocation i acc) e) =
  run_invocation fuel (mk_engine_base ms (mk_invocation i (acc ++ rest)) e).
Proof.
  intros Hr Hi. revert acc. induction rest as [|a [|a' rest] IH]; intros acc; [done| |].
  - cbn [argument_calls foldM macro_call]. rewrite odd_call. cbn [andb eb_invocation]. unfold invocation_Valid.
    cbn [inv_index]. apply Z.eqb_neq in Hi. rewrite Hi. cbn [negb]. by destruct (run_invocation _ _).
  - change (argument_calls (2 * k + 1) (a :: a' :: rest)) with ((2 * k + 1, a, false) :: argument_calls (2 * k + 1) (a' :: rest)).
    cbn [foldM macro_call]. rewrite odd_call. cbn [andb bindM ok]. rewrite IH by done. by rewrite <- app_assoc.
Qed.

(** Uploaded macros run.  Writing the words of a program through [instructionRamLoad] from position
    [p] on and [p] through [startAddressRamLoad] for macro [k] puts the program there and nothing
    else in the code; a packet to macro [k] then executes the code at [p] once, with all the words
    of the packet as arguments in order, and leaves no macro pending. *)
Theorem uploaded_macro_runs ws p k ms :
  0 <= p -> p + Z.of_nat (length ws) <= Z.of_nat (length (macroCode ms)) -> 0 <= k < Z.of_nat (length (macroPositions ms)) ->
  k <> 2 ^ 64 - 1 ->
  exists mme mme' ms1 ms',
    foldM load_instruction ws (mk_mme p k, ms) = inr (mme, ms1) /\ load_start_address (mme, ms1) p = inr (mme', ms') /\
    (forall i w, ws !! i = Some w -> macroCode ms' !! (Z.to_nat p + i)%nat = Some w) /\
    (forall i, (i < Z.to_nat p \/ Z.to_nat p + length ws <= i)%nat -> macroCode ms' !! i = macroCode ms !! i) /\
    forall fuel argument rest (e : E),
      foldM (macro_call fuel) (packet_calls k argument rest) (mk_engine_base ms' invocation_Reset e) =
      let! m := Execute (argument :: rest) fuel p (ms', e) in
      ok (mk_engine_base (mc_state m) invocation_Reset (mc_engine m)).
Proof.
  intros Hp Hl Hk Hk'. destruct (load_instructions ws p k ms Hp Hl) as [p' Hload].
  do 4 eexists. split; [exact Hload|]. cbn [load_start_address startAddressRamPointer macroPositions].
  destruct (Z.leb_spec (Z.of_nat (length (macroPositions ms))) k); [lia|]. split; [reflexivity|]. cbn [macroCode].
  split.
  { intros i w Hw. pose proof (lookup_lt_Some _ _ _ Hw). rewrite list_lookup_inserts by lia.
    by replace (Z.to_nat p + i - Z.to_nat p)%nat with i by lia. }
  split; [intros i [Hi|Hi]; [by apply list_lookup_inserts_lt|by apply list_lookup_inserts_ge]|].
  intros fuel argument rest e.
  assert (Hrun : forall l, run_invocation fuel (mk_engine_base (mk_macro_state (list_inserts (Z.to_nat p) ws (macroCode ms))
    (<[Z.to_nat k := p]> (macroPositions ms))) (mk_invocation k l) e) =
    let! m := Execute l fuel p (mk_macro_state (list_inserts (Z.to_nat p) ws (macroCode ms))
      (<[Z.to_nat k := p]> (macroPositions ms)), e) in
    ok (mk_engine_base (mc_state m) invocation_Reset (mc_engine m))).
  { intros l. unfold run_invocation. cbn [eb_invocation eb_state inv_index macroPositions].
    rewrite list_lookup_insert_eq by lia. reflexivity. }
  unfold packet_calls. destruct rest as [|a rest]; cbn [foldM macro_call];
    (rewrite even_call; [|cbn [macroPositions]; by rewrite length_insert]); cbn [andb eb_invocation bindM ok].
  - unfold invocation_Valid. cbn [inv_index]. apply Z.eqb_neq in Hk'. rewrite Hk'. cbn [negb].
    rewrite Hrun. by destruct (Execute _ _ _ _).
  - rewrite odd_calls by done. apply Hrun.
Qed.

End upload.

(** ** Examples *)

(** An engine that records its calls and reads back the last value written to a method. *)
#[global] Instance recorder : MacroEngine (list (Z * Z)) := {
  CallMethodFromMacro method argument target := ok (fst target, snd target ++ [(method, argument)]);
  ReadMethodFromMacro method e := ok (u32 (default 0 (snd <$> find (fun c => fst c =? method) (reverse e)))) }.

#[global] Instance recorder_laws : MacroEngineLaws (list (Z * Z)).
Proof. split. intros method e v Hv. injection Hv as <-. apply u32_is_u32. Qed.

(** A macro that calls method 0x123 with its arguments added as pairs of 64-bit numbers: it sends
    the low and the high word of the sum to consecutive methods.  Registers 1 and 2 hold the first
    number, 3 and 4 the second. *)
Definition add64_macro : list Z :=
  [ 0x00000201;        (* r2 = argument *)
    0x00000301;        (* r3 = argument *)
    0x00000401;        (* r4 = argument *)
    Z.shiftl 0x1123 14 + 0x21;   (* method = 0x123, increment 1 *)
    Z.shiftl 3 14 + Z.shiftl 1 11 + 0x40;                    (* send r1 + r3 *)
    Z.shiftl 1 17 + Z.shiftl 4 14 + Z.shiftl 2 11 + 0xC0;    (* send r2 + r4 + carry, exit *)
    0x00000011 ].      (* delay slot *)

Definition empty_macros : MacroState := mk_macro_state (replicate 64 0) (replicate 4 0).

Lemma Execute_keeps_registers_witness :
  exists m, Execute [0xFFFFFFFF; 1; 1; 2] 10 0 (mk_macro_state add64_macro [], []) = inr m /\
    mc_engine m = [(0x123, 0); (0x124, 4)] /\ macro_ok m.
Proof.
  eexists. split; [vm_compute; reflexivity|]. split; [reflexivity|].
  eapply (Execute_keeps_registers [0xFFFFFFFF; 1; 1; 2]) with (fuel := 10%nat) (offset := 0) (target := (mk_macro_state add64_macro [], []));
    [|vm_compute; reflexivity]. repeat (apply Forall_cons; split; [by split|]). by apply Forall_nil.
Defined.

Lemma Execute_loop_free_terminates_witness :
  loop_free add64_macro 0 5 = true /\ terminates (Execute [1; 2] 6 0 (mk_macro_state add64_macro [], [])).
Proof.
  split; [reflexivity|].
  apply (Execute_loop_free_terminates [1; 2]) with (hi := 5); try done; [|vm_compute; lia].
  intros method argument target target' Hc. by injection Hc as <-.
Defined.

Lemma uploaded_macro_runs_witness :
  exists mme mme' ms1 ms',
    foldM load_instruction add64_macro (mk_mme 16 3, empty_macros) = inr (mme, ms1) /\
    load_start_address (mme, ms1) 16 = inr (mme', ms') /\
    macroCode ms' !! 18%nat = Some 0x00000401 /\
    foldM (macro_call 10) (packet_calls 3 0xFFFFFFFF [1; 1; 2]) (mk_engine_base ms' invocation_Reset []) =
      let! m := Execute [0xFFFFFFFF; 1; 1; 2] 10 16 (ms', []) in
      ok (mk_engine_base (mc_state m) invocation_Reset (mc_engine m)).
Proof.
  destruct (uploaded_macro_runs (E := list (Z * Z)) add64_macro 16 3 empty_macros ltac:(lia) ltac:(vm_compute; discriminate)
    ltac:(vm_compute; split; [discriminate|reflexivity]) ltac:(lia)) as (mme & mme' & ms1 & ms' & H1 & H2 & H3 & _ & H4).
  exists mme, mme', ms1, ms'. split; [exact H1|]. split; [exact H2|]. split; [exact (H3 2%nat 0x00000401 eq_refl)|].
  apply H4.
Defined.
