(* ===== verification/Gpfifo.v ===== *)
(** * The pushbuffer decoder ([soc/gm20b/gpfifo.{h,cpp}])

    A channel's GPFIFO hands the decoder one entry after another, each naming a buffer of words.
    The words are packets: a header with an address, a subchannel and a count, and then that many
    arguments, which may continue in the buffer of the next entry.  The decoder turns them into
    method calls on the engines of the channel.  Its control flow never looks at what a call did,
    so a run is the sequence of the calls it makes, in order, and how it ends; an exception of an
    engine ends the run after the call that raised it.  The memory that holds the buffers is the
    parameter [gmmu_Read]. *)

From S2P Require Import Prelude Macro.

(** ** Headers and entries *)

Inductive SubchannelId : Type :=
| ThreeD | Compute | Inline2Mem | TwoD | Copy | Software0 | Software1 | Software2.

#[global] Instance SubchannelId_eq_dec : EqDecision SubchannelId.
Proof. solve_decision. Defined.

Inductive SecOp : Type :=
| Grp0UseTert | IncMethod | Grp2UseTert | NonIncMethod | ImmdDataMethod | OneIncMethod | Reserved6 | EndPbSegment.

Definition methodAddress (raw : Z) : Z := bits 0 12 raw.

Definition methodSubChannel (raw : Z) : SubchannelId :=
  match bits 13 3 raw with
  | 0 => ThreeD | 1 => Compute | 2 => Inline2Mem | 3 => TwoD | 4 => Copy | 5 => Software0 | 6 => Software1 | _ => Software2
  end.

Definition methodCount (raw : Z) : Z := bits 16 13 raw.
Definition immdData (raw : Z) : Z := bits 16 13 raw.

Definition secOp (raw : Z) : SecOp :=
  match bits 29 3 raw with
  | 0 => Grp0UseTert | 1 => IncMethod | 2 => Grp2UseTert | 3 => NonIncMethod | 4 => ImmdDataMethod
  | 5 => OneIncMethod | 6 => Reserved6 | _ => EndPbSegment
  end.

(** [engine::EngineMethodsEnd] and [engine::GPFIFO::RegisterCount]. *)
Definition EngineMethodsEnd : Z := 0xE00.
Definition GPFIFO_RegisterCount : Z := 0x40.

(** A method that touches neither macros nor GPFIFO registers. *)
Definition Pure (raw : Z) : bool :=
  let size := match secOp raw with NonIncMethod | ImmdDataMethod => 0 | OneIncMethod => 1 | _ => methodCount raw end in
  let end_ := wrap 16 (methodAddress raw + size) in
  (end_ <? EngineMethodsEnd) && (GPFIFO_RegisterCount <=? methodAddress raw).

(** The two words of an entry; the fetch, privilege, level and sync fields are not read. *)
Record GpEntry : Type := mk_gp_entry {
  ge_entry0 : Z;
  ge_entry1 : Z }.

Definition ge_get (e : GpEntry) : Z := bits 2 30 (ge_entry0 e).
Definition ge_getHi (e : GpEntry) : Z := bits 0 8 (ge_entry1 e).
Definition ge_opcode (e : GpEntry) : Z := bits 0 8 (ge_entry1 e).
Definition ge_size (e : GpEntry) : Z := bits 10 21 (ge_entry1 e).

Definition GpEntry_new (gpuAddress pSize : Z) : GpEntry :=
  let entry1 := set_bits 0 8 (wrap 8 (Z.shiftr gpuAddress 32)) 0 in
  let entry0 := set_bits 2 30 (u32 (Z.shiftr gpuAddress 2)) 0 in
  mk_gp_entry entry0 (set_bits 10 21 pSize entry1).

Definition GpEntry_Address (e : GpEntry) : Z := Z.lor (Z.shiftl (ge_getHi e) 32) (Z.shiftl (ge_get e) 2).

(** ** Calls *)

Inductive Engine : Type :=
| Gpfifo_engine | Maxwell3D | KeplerCompute | Inline2Memory | Fermi2D | MaxwellDma.

Inductive Call : Type :=
| CallMethod (engine : Engine) (method argument : Z)
| CallMethodBatchNonInc (engine : Engine) (method : Z) (arguments : list Z)
| CallMacro (engine : Engine) (macroMethodOffset argument : Z) (lastCall : bool)
| FlushEngineState.

(** A run: the calls made and how it ended. *)
Definition W (A : Type) : Type := (list Call * M A)%type.

Definition retW {A} (a : A) : W A := ([], ok a).
Definition failW {A} (f : fault) : W A := ([], fail f).
Definition emit (calls : list Call) : W unit := (calls, ok tt).
Definition bindW {A B} (c : W A) (k : A -> W B) : W B :=
  match c with
  | (calls, inl f) => (calls, inl f)
  | (calls, inr a) => let (calls', r) := k a in (calls ++ calls', r)
  end.

Notation "'let*' x ':=' c 'in' k" := (bindW c (fun x => k))
  (at level 10, x pattern, c at level 100, k at level 200) : skyline_scope.

(** Other subchannels only log a warning; [Copy] has no [break]. *)
Definition SendPure (method argument : Z) (subChannel : SubchannelId) : list Call :=
  match subChannel with
  | ThreeD => [CallMethod Maxwell3D method argument]
  | Compute => [CallMethod KeplerCompute method argument]
  | Inline2Mem => [CallMethod Inline2Memory method argument]
  | Copy => [CallMethod MaxwellDma method argument; CallMethod Fermi2D method argument]
  | TwoD => [CallMethod Fermi2D method argument]
  | _ => []
  end.

Definition SendFull (method argument : Z) (subChannel : SubchannelId) (lastCall : bool) : list Call :=
  if method <? GPFIFO_RegisterCount then [CallMethod Gpfifo_engine method argument]
  else if method <? EngineMethodsEnd then SendPure method argument subChannel
  else match subChannel with
       | ThreeD => [CallMacro Maxwell3D (method - EngineMethodsEnd) argument lastCall]
       | TwoD => [CallMacro Fermi2D (method - EngineMethodsEnd) argument lastCall]
       | _ => []
       end.

Definition SendPureBatchNonInc (method : Z) (arguments : list Z) (subChannel : SubchannelId) : list Call :=
  match subChannel with
  | ThreeD => [CallMethodBatchNonInc Maxwell3D method arguments]
  | Compute => [CallMethodBatchNonInc KeplerCompute method arguments]
  | Inline2Mem => [CallMethodBatchNonInc Inline2Memory method arguments]
  | Copy => [CallMethodBatchNonInc MaxwellDma method arguments]
  | _ => []
  end.

(** ** Split methods *)

Inductive ResumeKind : Type := NonInc | Inc | OneInc.

Record MethodResumeState : Type := mk_resume {
  rs_remaining : Z;
  rs_address : Z;
  rs_subChannel : SubchannelId;
  rs_state : ResumeKind }.

Definition resumeState_init : MethodResumeState := mk_resume 0 0 ThreeD NonInc.

(** One [SendFull] of the pending method; [step] is what the address advances by. *)
Definition resume_send (step : Z) (state : ResumeKind) (rs : MethodResumeState) (word : Z) : list Call * MethodResumeState :=
  let remaining := u32 (rs_remaining rs - 1) in
  (SendFull (rs_address rs) word (rs_subChannel rs) (remaining =? 0),
   mk_resume remaining (u32 (rs_address rs + step)) (rs_subChannel rs) state).

(** [while (entry != end && resumeState.remaining)]. *)
Fixpoint resume_loop (step : Z) (rs : MethodResumeState) (entries : list Z) : list Call * (MethodResumeState * list Z) :=
  match entries with
  | [] => ([], (rs, []))
  | word :: rest =>
      if rs_remaining rs =? 0 then ([], (rs, entries))
      else
        let (calls, rs) := resume_send step (rs_state rs) rs word in
        let (calls', r) := resume_loop step rs rest in (calls ++ calls', r)
  end.

Definition resumeSplitMethod (rs : MethodResumeState) (entries : list Z) : W (MethodResumeState * list Z) :=
  match rs_state rs with
  | Inc => let (calls, r) := resume_loop 1 rs entries in (calls, ok r)
  | OneInc =>
      match entries with
      | [] => failW (Undefined "pushbuffer read past the end")
      | word :: rest =>
          let (calls, rs) := resume_send 1 NonInc rs word in
          let (calls', r) := resume_loop 0 rs rest in (calls ++ calls', ok r)
      end
  | NonInc => let (calls, r) := resume_loop 0 rs entries in (calls, ok r)
  end.

(** ** Packets *)

Definition methodOffset (state : ResumeKind) (i : Z) : Z :=
  match state with
  | Inc => i
  | OneInc => if i =? 0 then 0 else 1
  | NonInc => 0
  end.

Definition BatchCutoff : Z := 4.

(** The method calls of a pure packet go to the 3D engine or by subchannel. *)
Definition send_one (threeDOnly : bool) (method argument : Z) (subChannel : SubchannelId) : list Call :=
  if threeDOnly then [CallMethod Maxwell3D method argument] else SendPure method argument subChannel.

Definition send_batch (threeDOnly : bool) (method : Z) (arguments : list Z) (subChannel : SubchannelId) : list Call :=
  if threeDOnly then [CallMethodBatchNonInc Maxwell3D method arguments] else SendPureBatchNonInc method arguments subChannel.

(** The loops over [i] with [*++entry], and its body. *)
Fixpoint dispatch_loop (body : Z -> Z -> list Call) (i : Z) (arguments : list Z) : list Call :=
  match arguments with
  | [] => []
  | argument :: rest => body i argument ++ dispatch_loop body (i + 1) rest
  end.

Definition pure_calls (threeDOnly : bool) (state : ResumeKind) (raw : Z) (arguments : list Z) : list Call :=
  let loop := dispatch_loop
    (fun i argument => send_one threeDOnly (methodAddress raw + methodOffset state i) argument (methodSubChannel raw)) 0 arguments in
  match state with
  | NonInc =>
      if BatchCutoff <? methodCount raw then send_batch threeDOnly (methodAddress raw) arguments (methodSubChannel raw) else loop
  | OneInc =>
      if BatchCutoff + 1 <? methodCount raw then
        match arguments with
        | [] => []
        | argument :: rest =>
            send_one threeDOnly (methodAddress raw) argument (methodSubChannel raw) ++
            send_batch threeDOnly (methodAddress raw + 1) rest (methodSubChannel raw)
        end
      else loop
  | Inc => loop
  end.

Definition full_calls (state : ResumeKind) (raw : Z) (arguments : list Z) : list Call :=
  dispatch_loop (fun i argument =>
    SendFull (methodAddress raw + methodOffset state i) argument (methodSubChannel raw) (i =? methodCount raw - 1)) 0 arguments.

(** The result is the resume state, the words left and whether the buffer ended. *)
Definition dispatchCalls (threeDOnly : bool) (state : ResumeKind) (raw : Z) (rest : list Z) (rs : MethodResumeState) :
    W (MethodResumeState * list Z * bool) :=
  let count := Z.to_nat (methodCount raw) in
  if methodCount raw <=? Z.of_nat (length rest) then
    let arguments := take count rest in
    let* _ := emit (if Pure raw then pure_calls threeDOnly state raw arguments else full_calls state raw arguments) in
    retW (rs, drop count rest, false)
  else
    let rs := mk_resume (methodCount raw) (methodAddress raw) (methodSubChannel raw) state in
    let* (rs, rest) := resumeSplitMethod rs rest in
    retW (rs, rest, true).

Definition processMethod (threeDOnly : bool) (raw : Z) (rest : list Z) (rs : MethodResumeState) :
    W (MethodResumeState * list Z * bool) :=
  match secOp raw with
  | IncMethod => dispatchCalls threeDOnly Inc raw rest rs
  | NonIncMethod => dispatchCalls threeDOnly NonInc raw rest rs
  | OneIncMethod => dispatchCalls threeDOnly OneInc raw rest rs
  | ImmdDataMethod =>
      let* _ := emit (if Pure raw then send_one threeDOnly (methodAddress raw) (immdData raw) (methodSubChannel raw)
                      else SendFull (methodAddress raw) (immdData raw) (methodSubChannel raw) true) in
      retW (rs, rest, false)
  | EndPbSegment => retW (rs, rest, true)
  | _ => failW (Throw "Unsupported pushbuffer method SecOp")
  end.

Definition hitEnd (raw : Z) (rest : list Z) (rs : MethodResumeState) : W (MethodResumeState * list Z * bool) :=
  match methodSubChannel raw with
  | ThreeD => processMethod true raw rest rs
  | _ => let* _ := emit [FlushEngineState] in processMethod false raw rest rs
  end.

(** The loop over the words; the number of words bounds the packets. *)
Fixpoint process_loop (fuel : nat) (entries : list Z) (rs : MethodResumeState) : W MethodResumeState :=
  match entries with
  | [] => retW rs
  | raw :: rest =>
      match fuel with
      | O => failW (Suspended "pushbuffer")
      | S fuel =>
          if raw =? 0 then process_loop fuel rest rs
          else
            let* (rs, rest, end_) := hitEnd raw rest rs in
            if end_ : bool then retW rs else process_loop fuel rest rs
      end
  end.

(** [Process] on the words of the buffer. *)
Definition process_buffer (pushBufferData : list Z) (rs : MethodResumeState) : W MethodResumeState :=
  let* (rs, entries) := if rs_remaining rs =? 0 then retW (rs, pushBufferData) else resumeSplitMethod rs pushBufferData in
  let* rs := process_loop (length entries) entries rs in
  let* _ := emit [FlushEngineState] in
  retW rs.

(** A control entry has no words and does nothing. *)
Definition Process (gmmu_Read : Z -> Z -> M (list Z)) (gpEntry : GpEntry) (rs : MethodResumeState) : W MethodResumeState :=
  if ge_size gpEntry =? 0 then retW rs
  else
    let* pushBufferData := ([], gmmu_Read (GpEntry_Address gpEntry) (ge_size gpEntry)) in
    process_buffer pushBufferData rs.

(** [Run]: the entries of the queue in order, each with the memory as it is then. *)
Fixpoint Run (entries : list (GpEntry * (Z -> Z -> M (list Z)))) (rs : MethodResumeState) : W MethodResumeState :=
  match entries with
  | [] => retW rs
  | (gpEntry, gmmu_Read) :: rest => let* rs := Process gmmu_Read gpEntry rs in Run rest rs
  end.

(** ** The word stream *)

(** What the decoder promises, one word at a time: a word belongs to the pending method, if there
    is one, and is a header otherwise.  [None] is the state without a pending method.  The flag of
    the result says that the segment was ended and the rest of the buffer dropped.  A buffer must
    not end right behind the header of a [OneInc] packet with arguments. *)
Definition pending (rs : MethodResumeState) : option MethodResumeState :=
  if rs_remaining rs =? 0 then None else Some rs.

Definition take_word (rs : MethodResumeState) : MethodResumeState :=
  mk_resume (rs_remaining rs - 1)
    (match rs_state rs with NonInc => rs_address rs | _ => rs_address rs + 1 end)
    (rs_subChannel rs)
    (match rs_state rs with OneInc => NonInc | k => k end).

Definition open_packet (raw : Z) (state : ResumeKind) : option MethodResumeState :=
  pending (mk_resume (methodCount raw) (methodAddress raw) (methodSubChannel raw) state).

Fixpoint stream (p : option MethodResumeState) (words : list Z) : W (option MethodResumeState * bool) :=
  match words with
  | [] =>
      match p with
      | Some (mk_resume _ _ _ OneInc) => failW (Undefined "pushbuffer read past the end")
      | _ => retW (p, false)
      end
  | word :: rest =>
      match p with
      | Some rs =>
          let* _ := emit (SendFull (rs_address rs) word (rs_subChannel rs) (rs_remaining rs =? 1)) in
          stream (pending (take_word rs)) rest
      | None =>
          if word =? 0 then stream None rest
          else
            match secOp word with
            | IncMethod => stream (open_packet word Inc) rest
            | NonIncMethod => stream (open_packet word NonInc) rest
            | OneIncMethod => stream (open_packet word OneInc) rest
            | ImmdDataMethod =>
                let* _ := emit (SendFull (methodAddress word) (immdData word) (methodSubChannel word) true) in
                stream None rest
            | EndPbSegment => retW (None, true)
            | _ => failW (Throw "Unsupported pushbuffer method SecOp")
            end
      end
  end.

(** What an engine sees of a run: batches are single calls in order, and flushing does not count.
    Method calls to the 2D and the copy engine are left out, because their batches differ from
    their single calls. *)
Definition expand (c : Call) : list Call :=
  match c with
  | CallMethodBatchNonInc e method arguments => CallMethod e method <$> arguments
  | FlushEngineState => []
  | c => [c]
  end.

Definition observed (c : Call) : bool :=
  match c with CallMethod (Fermi2D | MaxwellDma) _ _ => false | _ => true end.

Definition visible (calls : list Call) : list Call := List.filter observed (calls ≫= expand).

(** A run seen through [visible], with what it returns mapped by [f]. *)
Definition view {A B} (f : A -> B) (c : W A) : W B :=
  (visible (fst c), match snd c with inl e => inl e | inr a => inr (f a) end).

(** ** Runs *)

Lemma bindW_ret {A B} (a : A) (k : A -> W B) : bindW (retW a) k = k a.
Proof. simpl. by destruct (k a). Qed.

Lemma bindW_assoc {A B C} (c : W A) (k : A -> W B) (h : B -> W C) :
  bindW (bindW c k) h = bindW c (fun a => bindW (k a) h).
Proof.
  destruct c as [cs [f|a]]; simpl; [done|]. destruct (k a) as [cs' [f|b]]; simpl; [done|].
  destruct (h b). by rewrite app_assoc.
Qed.

Lemma bind_emit {B} calls (k : unit -> W B) : bindW (emit calls) k = (calls ++ fst (k tt), snd (k tt)).
Proof. simpl. by destruct (k tt). Qed.

Lemma visible_app cs cs' : visible (cs ++ cs') = visible cs ++ visible cs'.
Proof. unfold visible. by rewrite bind_app, List.filter_app. Qed.

Lemma view_emit {A B} (f : A -> B) calls (k : unit -> W A) :
  view f (bindW (emit calls) k) = (visible calls ++ fst (view f (k tt)), snd (view f (k tt))).
Proof. rewrite bind_emit. unfold view. simpl. by rewrite visible_app. Qed.

(** ** Split methods follow the stream *)

Record resume_ok (rs : MethodResumeState) : Prop := mk_resume_ok {
  ro_remaining : 0 <= rs_remaining rs;
  ro_address : 0 <= rs_address rs;
  ro_bound : rs_address rs + rs_remaining rs < 2 ^ 32 }.

Lemma take_word_ok rs : resume_ok rs -> rs_remaining rs <> 0 -> resume_ok (take_word rs).
Proof. intros [] ?. split; simpl; destruct (rs_state rs); lia. Qed.

Lemma resume_send_spec step rs word :
  resume_ok rs -> rs_remaining rs <> 0 -> step = match rs_state rs with NonInc => 0 | _ => 1 end ->
  resume_send step (match rs_state rs with OneInc => NonInc | k => k end) rs word =
  (SendFull (rs_address rs) word (rs_subChannel rs) (rs_remaining rs =? 1), take_word rs).
Proof.
  intros [] Hr ->. unfold resume_send, take_word. rewrite !wrap_small by (destruct (rs_state rs); lia).
  f_equal; [|by destruct (rs_state rs); rewrite ?Z.add_0_r]. f_equal.
  destruct (Z.eqb_spec (rs_remaining rs - 1) 0), (Z.eqb_spec (rs_remaining rs) 1); done || lia.
Qed.

Lemma pending_Some rs : rs_remaining rs <> 0 -> pending rs = Some rs.
Proof. unfold pending. intros H. by apply Z.eqb_neq in H as ->. Qed.

Lemma pending_None rs : rs_remaining rs = 0 -> pending rs = None.
Proof. unfold pending. by intros ->. Qed.

(** The loops of [resumeSplitMethod] take the words the stream gives to the pending method. *)
Lemma resume_loop_stream step rs ws :
  resume_ok rs -> rs_state rs <> OneInc -> step = match rs_state rs with NonInc => 0 | _ => 1 end ->
  exists calls rs' ws', resume_loop step rs ws = (calls, (rs', ws')) /\
    stream (pending rs) ws = (calls ++ fst (stream (pending rs') ws'), snd (stream (pending rs') ws')) /\
    resume_ok rs' /\ rs_state rs' <> OneInc /\ (rs_remaining rs' = 0 \/ ws' = []) /\
    Z.of_nat (length ws') - rs_remaining rs' = Z.of_nat (length ws) - rs_remaining rs.
Proof.
  revert rs. induction ws as [|w ws IH]; intros rs Hok Hk Hs; cbn [resume_loop].
  - exists [], rs, []. split; [done|]. split; [by destruct (stream _ _)|]. auto with lia.
  - destruct (Z.eqb_spec (rs_remaining rs) 0) as [H0|H0].
    + exists [], rs, (w :: ws). split; [done|]. split; [by destruct (stream _ _)|]. auto with lia.
    + assert (Hst : match rs_state rs with OneInc => NonInc | k => k end = rs_state rs) by by destruct (rs_state rs).
      pose proof (resume_send_spec step rs w Hok H0 Hs) as Hsend. rewrite Hst in Hsend. rewrite Hsend.
      destruct (IH (take_word rs)) as (calls & rs' & ws' & Hl & He & Hok' & Hk' & Hend & Hlen);
        [by apply take_word_ok|simpl; by rewrite Hst|simpl; by rewrite Hst|].
      rewrite Hl. eexists _, rs', ws'. split; [reflexivity|].
      split; [|do 3 (split; [done|]); cbn [take_word rs_remaining length] in *; lia].
      rewrite pending_Some by done. cbn [stream]. rewrite bind_emit, He. simpl. by rewrite app_assoc.
Qed.

Lemma resumeSplitMethod_stream rs ws :
  resume_ok rs -> rs_remaining rs <> 0 ->
  stream (Some rs) ws = (let* (rs', ws') := resumeSplitMethod rs ws in stream (pending rs') ws') /\
  forall rs' ws', snd (resumeSplitMethod rs ws) = inr (rs', ws') ->
    resume_ok rs' /\ rs_state rs' <> OneInc /\ (rs_remaining rs' = 0 \/ ws' = []) /\
    Z.of_nat (length ws') - rs_remaining rs' = Z.of_nat (length ws) - rs_remaining rs.
Proof.
  intros Hok H0. rewrite <- (pending_Some rs H0). unfold resumeSplitMethod.
  assert (Hloop : forall step, rs_state rs <> OneInc -> step = match rs_state rs with NonInc => 0 | _ => 1 end ->
    stream (pending rs) ws = (let* (rs', ws') := let (calls, r) := resume_loop step rs ws in (calls, ok r) in stream (pending rs') ws') /\
    forall rs' ws', snd (let (calls, r) := resume_loop step rs ws in (calls, ok r)) = inr (rs', ws') ->
    resume_ok rs' /\ rs_state rs' <> OneInc /\ (rs_remaining rs' = 0 \/ ws' = []) /\
    Z.of_nat (length ws') - rs_remaining rs' = Z.of_nat (length ws) - rs_remaining rs).
  { intros step Hk Hs. destruct (resume_loop_stream step rs ws Hok Hk Hs) as (calls & rs1 & ws1 & -> & -> & H).
    split; [simpl; by destruct (stream _ _)|]. intros rs' ws' [= <- <-]. done. }
  destruct (rs_state rs) eqn:Ek; [by apply Hloop..|]. destruct ws as [|w ws].
  - rewrite pending_Some by done. destruct rs. simpl in Ek. subst. done.
  - pose proof (resume_send_spec 1 rs w Hok H0) as Hsend. rewrite Ek in Hsend. rewrite Hsend by done.
    destruct (resume_loop_stream 0 (take_word rs) ws) as (calls & rs1 & ws1 & -> & Hst & Hok1 & Hk1 & Hor & Hlen);
      [by apply take_word_ok|simpl; by rewrite Ek..|].
    split; [|intros rs' ws' [= <- <-]; do 3 (split; [done|]); cbn [take_word rs_remaining length] in *; lia].
    rewrite pending_Some by done. cbn [stream]. rewrite bind_emit, Hst. simpl.
    destruct (stream _ ws1). by rewrite app_assoc.
Qed.

(** ** Packets follow the stream *)

(** The pending method after [i] of [n] arguments. *)
Definition state_at (st : ResumeKind) (n addr : Z) (sub : SubchannelId) (i : Z) : MethodResumeState :=
  mk_resume (n - i) (addr + methodOffset st i) sub (match st with OneInc => if i =? 0 then OneInc else NonInc | k => k end).

Lemma take_word_state_at st n addr sub i : 0 <= i -> take_word (state_at st n addr sub i) = state_at st n addr sub (i + 1).
Proof.
  intros Hi. unfold take_word, state_at, methodOffset. simpl.
  destruct st; simpl; [f_equal; lia..|]. destruct (Z.eqb_spec i 0), (Z.eqb_spec (i + 1) 0); try lia; f_equal; lia.
Qed.

Lemma stream_arguments st n addr sub args rest : forall i,
  0 <= i -> Z.of_nat (length args) = n - i ->
  stream (pending (state_at st n addr sub i)) (args ++ rest) =
  (dispatch_loop (fun i a => SendFull (addr + methodOffset st i) a sub (i =? n - 1)) i args ++ fst (stream None rest),
   snd (stream None rest)).
Proof.
  induction args as [|a args IH]; intros i Hi Hn; simpl length in Hn.
  - rewrite pending_None by (simpl; lia). simpl. by destruct (stream None rest).
  - rewrite pending_Some by (simpl; lia). simpl app. cbn [stream]. rewrite bind_emit, take_word_state_at by done.
    rewrite IH by lia. cbn [dispatch_loop fst snd state_at rs_address rs_subChannel rs_remaining]. rewrite <- app_assoc.
    replace (n - i =? 1) with (i =? n - 1); [done|].
    destruct (Z.eqb_spec i (n - 1)), (Z.eqb_spec (n - i) 1); done || lia.
Qed.

Definition packet_kind (raw : Z) (st : ResumeKind) : Prop :=
  secOp raw = match st with Inc => IncMethod | NonInc => NonIncMethod | OneInc => OneIncMethod end.

Definition three_d_only (raw : Z) (t : bool) : Prop := t = bool_decide (methodSubChannel raw = ThreeD).

Lemma header_range raw : 0 <= methodAddress raw < 2 ^ 12 /\ 0 <= methodCount raw < 2 ^ 13.
Proof. split; apply bits_range; lia. Qed.

Lemma send_one_full t method argument raw last :
  three_d_only raw t -> GPFIFO_RegisterCount <= method < EngineMethodsEnd ->
  send_one t method argument (methodSubChannel raw) = SendFull method argument (methodSubChannel raw) last.
Proof.
  intros -> [H1 H2]. unfold send_one, SendFull. apply Z.ltb_ge in H1 as ->. apply Z.ltb_lt in H2 as ->.
  by destruct (methodSubChannel raw).
Qed.

Lemma dispatch_loop_ext f g args : forall i,
  (forall k a, i <= k < i + Z.of_nat (length args) -> f k a = g k a) -> dispatch_loop f i args = dispatch_loop g i args.
Proof.
  induction args as [|a args IH]; intros i H; [done|]. simpl in *. f_equal; [apply H; lia|].
  apply IH. intros. apply H. lia.
Qed.

Lemma Pure_range raw st i :
  packet_kind raw st -> Pure raw = true -> 0 <= i < methodCount raw ->
  GPFIFO_RegisterCount <= methodAddress raw + methodOffset st i < EngineMethodsEnd.
Proof.
  intros Hk Hp Hi. unfold packet_kind in Hk. destruct (header_range raw). unfold Pure in Hp. rewrite Hk in Hp.
  apply andb_true_iff in Hp as [H1 H2]. apply Z.leb_le in H2. apply Z.ltb_lt in H1. unfold methodOffset.
  destruct st; rewrite wrap_small in H1 by lia; [lia..|]. destruct (i =? 0); lia.
Qed.

(** Without batching the fast path makes the calls of the slow path. *)
Lemma pure_loop_full t st raw args :
  three_d_only raw t -> packet_kind raw st -> Pure raw = true -> Z.of_nat (length args) = methodCount raw ->
  dispatch_loop (fun i a => send_one t (methodAddress raw + methodOffset st i) a (methodSubChannel raw)) 0 args =
  full_calls st raw args.
Proof.
  intros Ht Hk Hp Hn. apply dispatch_loop_ext. intros i a Hi. apply send_one_full; [done|]. by apply Pure_range; [..|lia].
Qed.

Lemma batch_visible t method args raw :
  three_d_only raw t ->
  visible (send_batch t method args (methodSubChannel raw)) =
  visible (dispatch_loop (fun _ a => send_one t method a (methodSubChannel raw)) 0 args).
Proof.
  unfold three_d_only. intros Ht. subst t. generalize 0 as i. unfold send_batch, send_one.
  induction args as [|a args IH]; intros i.
  - by destruct (methodSubChannel raw).
  - simpl dispatch_loop. rewrite visible_app, <- (IH (i + 1)). by destruct (methodSubChannel raw).
Qed.

Lemma pure_calls_visible t st raw args :
  three_d_only raw t -> packet_kind raw st -> Pure raw = true -> Z.of_nat (length args) = methodCount raw ->
  visible (pure_calls t st raw args) = visible (full_calls st raw args).
Proof.
  intros Ht Hk Hp Hn. rewrite <- (pure_loop_full t st raw args) by done. unfold pure_calls. destruct st; [|done|].
  - destruct (_ <? _); [|done]. rewrite batch_visible by done. f_equal. apply dispatch_loop_ext. intros. simpl.
    by rewrite Z.add_0_r.
  - destruct (_ <? _); [|done]. destruct args as [|a args]; [done|]. simpl dispatch_loop. rewrite !visible_app, Z.add_0_r. f_equal.
    rewrite batch_visible by done. f_equal.
    assert (Hj : forall i j, 0 < i -> dispatch_loop (fun _ a => send_one t (methodAddress raw + 1) a (methodSubChannel raw)) j args =
      dispatch_loop (fun i a => send_one t (methodAddress raw + (if i =? 0 then 0 else 1)) a (methodSubChannel raw)) i args).
    { clear. induction args as [|a args IH]; intros i j Hi; [done|]. simpl. destruct (Z.eqb_spec i 0); [lia|].
      f_equal. apply IH. lia. }
    apply Hj. lia.
Qed.

(** How the run [c] of a packet, begun in [rs] with [rest] behind its header, matches a run [s] of
    the stream: the same calls and, when the buffer goes on, the stream goes on from what is left. *)
Definition follows (rs : MethodResumeState) (rest : list Z) (c : W (MethodResumeState * list Z * bool))
    (s : W (option MethodResumeState * bool)) : Prop :=
  match snd c with
  | inl f => view fst s = (visible (fst c), inl f)
  | inr (rs', rest', end_) =>
      if end_ : bool then view fst s = (visible (fst c), inr (pending rs')) /\ resume_ok rs'
      else rs' = rs /\ (length rest' <= length rest)%nat /\
        view fst s = (visible (fst c) ++ fst (view fst (stream None rest')), snd (view fst (stream None rest')))
  end.

Lemma stream_end rs : rs_state rs <> OneInc -> stream (pending rs) [] = retW (pending rs, false).
Proof. intros Hk. unfold pending. destruct (_ =? _); [done|]. destruct rs as [? ? ? []]; done. Qed.

Lemma dispatchCalls_follows t st raw rest rs :
  three_d_only raw t -> packet_kind raw st -> follows rs rest (dispatchCalls t st raw rest rs) (stream (open_packet raw st) rest).
Proof.
  intros Ht Hk. destruct (header_range raw) as [Ha Hc]. unfold dispatchCalls, follows.
  destruct (Z.leb_spec (methodCount raw) (Z.of_nat (length rest))) as [Hle|Hgt].
  - cbn [fst snd]. split; [done|]. split; [rewrite length_drop; lia|].
    rewrite <- (take_drop (Z.to_nat (methodCount raw)) rest) at 1. set (args := take _ rest). set (rest' := drop _ rest).
    assert (Hn : Z.of_nat (length args) = methodCount raw) by (unfold args; rewrite length_take; lia).
    pose proof (stream_arguments st (methodCount raw) (methodAddress raw) (methodSubChannel raw) args rest' 0 ltac:(lia) ltac:(lia)) as Hs.
    replace (state_at st (methodCount raw) (methodAddress raw) (methodSubChannel raw) 0) with
      (mk_resume (methodCount raw) (methodAddress raw) (methodSubChannel raw) st) in Hs
      by (unfold state_at; destruct st; simpl; f_equal; lia).
    fold (open_packet raw st) in Hs. rewrite Hs. unfold view. cbn [fst snd bindW emit retW]. rewrite !visible_app, app_nil_r. f_equal. f_equal.
    fold (full_calls st raw args). destruct (Pure raw) eqn:Hp; [|done]. symmetry. by apply pure_calls_visible.
  - set (rs0 := mk_resume (methodCount raw) (methodAddress raw) (methodSubChannel raw) st).
    assert (Hr0 : rs_remaining rs0 <> 0) by (simpl; lia).
    destruct (resumeSplitMethod_stream rs0 rest) as [Hs Hend]; [split; simpl; lia|done|].
    unfold open_packet. fold rs0. rewrite pending_Some, Hs by done.
    destruct (resumeSplitMethod rs0 rest) as [calls [f|[rs' rest']]] eqn:Er; simpl; [done|].
    destruct (Hend rs' rest' eq_refl) as (Hok & Hk' & Hor & Hlen). rewrite app_nil_r. simpl in Hlen.
    assert (rest' = []) as -> by (destruct Hor as [Hor|]; [lia|done]). split; [|done].
    rewrite stream_end by done. simpl. unfold view. simpl. by rewrite app_nil_r.
Qed.

Lemma processMethod_follows t raw rest rs :
  three_d_only raw t -> rs_remaining rs = 0 -> resume_ok rs -> raw <> 0 ->
  follows rs rest (processMethod t raw rest rs) (stream None (raw :: rest)).
Proof.
  intros Ht H0 Hok Hraw. unfold processMethod. cbn [stream]. apply Z.eqb_neq in Hraw. rewrite Hraw.
  destruct (secOp raw) eqn:Eop; try (apply dispatchCalls_follows; [assumption|exact Eop]); try exact eq_refl.
  - unfold follows. simpl. split; [done|]. split; [done|]. rewrite app_nil_r.
    destruct (stream None rest) as [cs r]. unfold view. simpl. rewrite visible_app. do 3 f_equal.
    destruct (Pure raw) eqn:Hp; [|done]. symmetry. apply send_one_full; [done|].
    unfold Pure in Hp. rewrite Eop in Hp. apply andb_true_iff in Hp as [H1 H2]. apply Z.leb_le in H2. apply Z.ltb_lt in H1.
    destruct (header_range raw). rewrite Z.add_0_r, wrap_small in H1 by lia. done.
  - unfold follows. simpl. by rewrite pending_None.
Qed.

Lemma hitEnd_follows raw rest rs :
  rs_remaining rs = 0 -> resume_ok rs -> raw <> 0 -> follows rs rest (hitEnd raw rest rs) (stream None (raw :: rest)).
Proof.
  intros H0 Hok Hraw. unfold hitEnd.
  assert (Hf : forall t, three_d_only raw t ->
    follows rs rest (let* _ := emit [FlushEngineState] in processMethod t raw rest rs) (stream None (raw :: rest))).
  { intros t Ht. rewrite bind_emit. by apply (processMethod_follows t raw rest rs). }
  assert (Ht : three_d_only raw (bool_decide (methodSubChannel raw = ThreeD))) by reflexivity.
  destruct (methodSubChannel raw); [exact (processMethod_follows _ raw rest rs Ht H0 Hok Hraw)|exact (Hf _ Ht)..].
Qed.

Lemma process_loop_stream fuel ws rs :
  (length ws <= fuel)%nat -> rs_remaining rs = 0 \/ ws = [] -> rs_remaining rs = 0 \/ rs_state rs <> OneInc -> resume_ok rs ->
  view pending (process_loop fuel ws rs) = view fst (stream (pending rs) ws) /\
  forall rs', snd (process_loop fuel ws rs) = inr rs' -> resume_ok rs'.
Proof.
  revert ws rs. induction fuel as [|fuel IH]; intros [|raw rest] rs Hl Hor Hk Hok; simpl in Hl; try lia.
  1, 2: split; [|by intros rs' [= <-]]; destruct Hk; [rewrite pending_None by done|rewrite stream_end by done];
    unfold view; simpl; rewrite ?pending_None by done; done.
  destruct Hor as [H0|?]; [|done]. rewrite pending_None by done. cbn [process_loop].
  destruct (Z.eqb_spec raw 0) as [->|Hraw].
  - cbn [stream]. rewrite <- (pending_None rs) by done. apply IH; auto. lia.
  - pose proof (hitEnd_follows raw rest rs H0 Hok Hraw) as Hf. unfold follows in Hf.
    destruct (hitEnd raw rest rs) as [cs [f|[[rs' rest'] [|]]]]; cbn [snd fst] in Hf; simpl bindW.
    + by rewrite Hf.
    + destruct Hf as [-> Hok']. split; [unfold view; simpl; by rewrite app_nil_r|by intros rs'' [= <-]].
    + destruct Hf as (-> & Hlen & ->).
      destruct (IH rest' rs ltac:(lia) (or_introl H0) (or_introl H0) Hok) as [IH1 IH2]. rewrite pending_None in IH1 by done.
      destruct (process_loop fuel rest' rs) as [cs' r]. cbn [snd] in IH2. rewrite <- IH1.
      split; [|done]. unfold view. simpl. by rewrite visible_app.
Qed.

Lemma process_buffer_stream ws rs :
  resume_ok rs ->
  view pending (process_buffer ws rs) = view fst (stream (pending rs) ws) /\
  forall rs', snd (process_buffer ws rs) = inr rs' -> resume_ok rs'.
Proof.
  intros Hok.
  assert (Hend : forall c : W MethodResumeState, view pending (let* rs := c in let* _ := emit [FlushEngineState] in retW rs) = view pending c /\
    forall r, snd (let* rs := c in let* _ := emit [FlushEngineState] in retW rs) = inr r -> snd c = inr r).
  { intros [cs [f|r]]; simpl; [done|]. split; [|done]. unfold view. simpl. by rewrite visible_app, app_nil_r. }
  unfold process_buffer. destruct (Z.eqb_spec (rs_remaining rs) 0) as [H0|H0].
  - rewrite bindW_ret. destruct (Hend (process_loop (length ws) ws rs)) as [-> Hr].
    destruct (process_loop_stream (length ws) ws rs (le_n _) (or_introl H0) (or_introl H0) Hok) as [-> Hp]. eauto.
  - destruct (resumeSplitMethod_stream rs ws Hok H0) as [Hs Hafter]. rewrite pending_Some, Hs by done.
    destruct (resumeSplitMethod rs ws) as [cs [f|[rs1 ws1]]]; [done|].
    destruct (Hafter rs1 ws1 eq_refl) as (Hok1 & Hk1 & Hor1 & _). cbn [bindW].
    destruct (Hend (process_loop (length ws1) ws1 rs1)) as [Hv Hr].
    destruct (process_loop_stream (length ws1) ws1 rs1 (le_n _) Hor1 (or_intror Hk1) Hok1) as [Hp Hq]. rewrite Hp in Hv.
    set (c := bindW (process_loop _ _ _) _) in *. set (s := stream (pending rs1) ws1) in *.
    destruct c as [cs1 r1], s as [cs2 r2]. unfold view in *. simpl in *. injection Hv as Hv1 Hv2.
    rewrite !visible_app, Hv1, Hv2. split; [done|]. intros rs' Hrs. by apply Hq, Hr.
Qed.

Lemma Process_buffer read e rs ws :
  ge_size e <> 0 -> read (GpEntry_Address e) (ge_size e) = inr ws -> Process read e rs = process_buffer ws rs.
Proof.
  intros Hs Hr. unfold Process. apply Z.eqb_neq in Hs. rewrite Hs, Hr. cbn [bindW]. by destruct (process_buffer ws rs).
Qed.

(** C2: The decoder implements the word stream.  On any buffer and any pending method, [Process] makes
    exactly the calls the word-by-word reading makes, in the same order, with batched calls read
    as single calls (calls to the 2D and copy engines' methods aside); it fails exactly when and how that reading
    fails, and otherwise the method left pending is the one the stream has pending, well formed
    for the next entry. *)
Theorem Process_refines_stream read e rs ws :
  resume_ok rs -> ge_size e <> 0 -> read (GpEntry_Address e) (ge_size e) = inr ws ->
  view pending (Process read e rs) = view fst (stream (pending rs) ws) /\
  forall rs', snd (Process read e rs) = inr rs' -> resume_ok rs'.
Proof. intros Hok Hs Hr. rewrite (Process_buffer read e rs ws) by done. by apply process_buffer_stream. Qed.

Lemma stream_app ws1 ws2 p cs p1 :
  stream p ws1 = (cs, inr (p1, false)) ->
  stream p (ws1 ++ ws2) = (cs ++ fst (stream p1 ws2), snd (stream p1 ws2)).
Proof.
  revert p cs. induction ws1 as [|w ws1 IH]; intros p cs Hs.
  - assert (Hp : ([], inr (p, false)) = (cs, @inr fault _ (p1, false))) by (destruct p as [[? ? ? []]|]; done).
    injection Hp as <- <-. simpl. by destruct (stream p ws2).
  - assert (Hemit : forall calls q, (let* _ := emit calls in stream q ws1) = (cs, inr (p1, false)) ->
      (let* _ := emit calls in stream q (ws1 ++ ws2)) = (cs ++ fst (stream p1 ws2), snd (stream p1 ws2))).
    { intros calls q Hq. rewrite bind_emit in *. destruct (stream q ws1) as [cs1 r] eqn:Eq. simpl in Hq. injection Hq as <- ->.
      rewrite (IH q cs1 Eq). simpl. by rewrite app_assoc. }
    simpl app. cbn [stream] in *. destruct p as [rs|]; [by apply Hemit|]. destruct (w =? 0); [by apply IH|].
    destruct (secOp w); try done; try (by apply IH). by apply Hemit.
Qed.

(** Where a buffer is cut does not matter.  When the words of one entry are handed over as two
    entries instead, cut anywhere (between packets, behind a header or between the arguments of a
    packet), then unless the first part ends the segment or is refused, the decoder makes the same
    calls and ends the same way. *)
Theorem Process_split read e e1 e2 rs ws1 ws2 p1 :
  resume_ok rs -> ge_size e <> 0 -> ge_size e1 <> 0 -> ge_size e2 <> 0 ->
  read (GpEntry_Address e) (ge_size e) = inr (ws1 ++ ws2) ->
  read (GpEntry_Address e1) (ge_size e1) = inr ws1 -> read (GpEntry_Address e2) (ge_size e2) = inr ws2 ->
  snd (stream (pending rs) ws1) = inr (p1, false) ->
  view pending (let* rs := Process read e1 rs in Process read e2 rs) = view pending (Process read e rs).
Proof.
  intros Hok He He1 He2 Hr Hr1 Hr2 Hs. rewrite (Process_buffer read e rs _ He Hr), (Process_buffer read e1 rs _ He1 Hr1).
  destruct (process_buffer_stream (ws1 ++ ws2) rs Hok) as [-> _].
  destruct (process_buffer_stream ws1 rs Hok) as [Hv Hok1].
  destruct (stream (pending rs) ws1) as [cs r] eqn:Es. simpl in Hs. subst r.
  rewrite (stream_app ws1 ws2 _ cs p1) by done.
  destruct (process_buffer ws1 rs) as [cs1 [f|rs1]]; [done|]. cbn [bindW]. injection Hv as Hcs Hp.
  rewrite (Process_buffer read e2 rs1 _ He2 Hr2). destruct (process_buffer_stream ws2 rs1 (Hok1 rs1 eq_refl)) as [Hv2 _].
  rewrite Hp in Hv2. destruct (process_buffer ws2 rs1) as [cs2 r2], (stream p1 ws2) as [cs3 r3]. unfold view in *. simpl in *.
  injection Hv2 as H1 H2. by rewrite !visible_app, Hcs, H1, H2.
Qed.

(** ** Flushing *)

(** Whether the 3D engine has had calls since it was last flushed, and [None] once another engine
    was called while it had. *)
Definition engine_of (c : Call) : option Engine :=
  match c with
  | CallMethod e _ _ | CallMethodBatchNonInc e _ _ | CallMacro e _ _ _ => Some e
  | FlushEngineState => None
  end.

Definition flush_step (dirty : option bool) (c : Call) : option bool :=
  match dirty with
  | None => None
  | Some d =>
      match engine_of c with
      | None => Some false
      | Some Maxwell3D => Some true
      | Some Gpfifo_engine => Some d
      | Some _ => if d then None else Some false
      end
  end.

Definition flush_check (d : bool) (calls : list Call) : option bool := foldl flush_step (Some d) calls.

(** The calls a packet for a subchannel may make. *)
Definition call_for (sub : SubchannelId) (c : Call) : Prop :=
  match engine_of c with
  | None => False
  | Some Gpfifo_engine => True
  | Some Maxwell3D => sub = ThreeD
  | Some _ => sub <> ThreeD
  end.

Lemma SendPure_for method argument sub : Forall (call_for sub) (SendPure method argument sub).
Proof. destruct sub; repeat (apply Forall_cons; split; [done|]); apply Forall_nil; done. Qed.

Lemma SendFull_for method argument sub last : Forall (call_for sub) (SendFull method argument sub last).
Proof.
  unfold SendFull. destruct (_ <? _); [by apply Forall_singleton|]. destruct (_ <? _); [apply SendPure_for|].
  destruct sub; try apply Forall_nil; try done; by apply Forall_singleton.
Qed.

Lemma resume_loop_for step rs ws : Forall (call_for (rs_subChannel rs)) (fst (resume_loop step rs ws)).
Proof.
  revert rs. induction ws as [|w ws IH]; intros rs; cbn [resume_loop]; [by apply Forall_nil|].
  destruct (_ =? _); [by apply Forall_nil|]. unfold resume_send.
  match goal with |- context [resume_loop step ?r ws] => specialize (IH r); destruct (resume_loop step r ws) as [cs r'] end.
  cbn [fst rs_subChannel] in *. apply Forall_app. split; [apply SendFull_for|done].
Qed.

Lemma resumeSplitMethod_for rs ws : Forall (call_for (rs_subChannel rs)) (fst (resumeSplitMethod rs ws)).
Proof.
  unfold resumeSplitMethod. pose proof (fun step => resume_loop_for step rs ws) as Hl. destruct (rs_state rs).
  - specialize (Hl 0). by destruct (resume_loop 0 rs ws).
  - specialize (Hl 1). by destruct (resume_loop 1 rs ws).
  - destruct ws as [|w ws]; [by apply Forall_nil|]. unfold resume_send.
    match goal with |- context [resume_loop 0 ?r ws] => pose proof (resume_loop_for 0 r ws) as H; destruct (resume_loop 0 r ws) as [cs r'] end.
    cbn [fst rs_subChannel] in *. apply Forall_app. split; [apply SendFull_for|done].
Qed.

Lemma dispatch_loop_for sub body i args :
  (forall i a, Forall (call_for sub) (body i a)) -> Forall (call_for sub) (dispatch_loop body i args).
Proof.
  intros Hb. revert i. induction args as [|a args IH]; intros i; [by apply Forall_nil|]. simpl. apply Forall_app. by split.
Qed.

Lemma send_one_for raw t method argument :
  three_d_only raw t -> Forall (call_for (methodSubChannel raw)) (send_one t method argument (methodSubChannel raw)).
Proof.
  intros Ht. unfold three_d_only in Ht. subst t. unfold send_one.
  destruct (methodSubChannel raw) eqn:Es; simpl; try (apply (SendPure_for method argument)); by apply Forall_singleton.
Qed.

Lemma send_batch_for raw t method args :
  three_d_only raw t -> Forall (call_for (methodSubChannel raw)) (send_batch t method args (methodSubChannel raw)).
Proof.
  intros Ht. unfold three_d_only in Ht. subst t. unfold send_batch, SendPureBatchNonInc.
  destruct (methodSubChannel raw) eqn:Es; simpl; try apply Forall_nil; try done; by apply Forall_singleton.
Qed.

Lemma dispatchCalls_for raw t st rest rs :
  three_d_only raw t -> Forall (call_for (methodSubChannel raw)) (fst (dispatchCalls t st raw rest rs)).
Proof.
  intros Ht. unfold dispatchCalls. destruct (_ <=? _).
  - simpl. rewrite app_nil_r. destruct (Pure raw); [|apply dispatch_loop_for; intros; apply SendFull_for].
    assert (Hl : forall args, Forall (call_for (methodSubChannel raw)) (dispatch_loop (fun i argument =>
      send_one t (methodAddress raw + methodOffset st i) argument (methodSubChannel raw)) 0 args))
      by (intros; apply dispatch_loop_for; intros; by apply send_one_for).
    unfold pure_calls. destruct st; try done; destruct (_ <? _); try done; [by apply send_batch_for|].
    destruct (take _ rest); [by apply Forall_nil|]. apply Forall_app. split; [by apply send_one_for|by apply send_batch_for].
  - set (rs0 := mk_resume _ _ _ _). pose proof (resumeSplitMethod_for rs0 rest) as H.
    destruct (resumeSplitMethod rs0 rest) as [cs [f|[rs' rest']]]; simpl in *; [done|]. by rewrite app_nil_r.
Qed.

Lemma processMethod_for raw t rest rs :
  three_d_only raw t -> Forall (call_for (methodSubChannel raw)) (fst (processMethod t raw rest rs)).
Proof.
  intros Ht. unfold processMethod.
  destruct (secOp raw); try (by apply dispatchCalls_for); try (by apply Forall_nil). simpl. rewrite app_nil_r.
  destruct (Pure raw); [by apply send_one_for|apply SendFull_for].
Qed.

Lemma flush_check_app d cs cs' : flush_check d (cs ++ cs') = match flush_check d cs with Some d' => flush_check d' cs' | None => None end.
Proof.
  unfold flush_check. rewrite foldl_app. destruct (foldl flush_step (Some d) cs); [done|]. by induction cs'.
Qed.

(** The calls of a packet keep the check going when the engine is clean or the packet is for 3D. *)
Lemma flush_check_for sub d cs : Forall (call_for sub) cs -> sub = ThreeD \/ d = false -> is_Some (flush_check d cs).
Proof.
  intros Hf. revert d. induction Hf as [|c cs Hc Hf IH]; intros d Hd; [by eexists|].
  change (flush_check d (c :: cs)) with (foldl flush_step (flush_step (Some d) c) cs). unfold call_for in Hc.
  simpl. destruct (engine_of c) as [[]|]; try done; try (apply (IH d); done).
  all: try (destruct Hd as [?| ->]; [by subst|]; apply (IH false); by right).
  apply (IH true). by left.
Qed.

Lemma process_loop_flush fuel ws rs d : is_Some (flush_check d (fst (process_loop fuel ws rs))).
Proof.
  revert ws rs d. induction fuel as [|fuel IH]; intros [|raw rest] rs d; cbn [process_loop]; try by eexists.
  destruct (raw =? 0); [apply IH|].
  assert (Hh : is_Some (flush_check d (fst (hitEnd raw rest rs)))).
  { unfold hitEnd. assert (Ht : three_d_only raw (bool_decide (methodSubChannel raw = ThreeD))) by reflexivity.
    pose proof (processMethod_for raw _ rest rs Ht) as Hf. destruct (methodSubChannel raw);
      [apply (flush_check_for ThreeD); [exact Hf|by left]|rewrite bind_emit; cbn [fst];
       eapply (flush_check_for _ false); [exact Hf|by right]..]. }
  destruct (hitEnd raw rest rs) as [cs [f|[[rs' rest'] []]]]; cbn [bindW fst] in *; [done| |].
  - simpl. by rewrite app_nil_r.
  - destruct Hh as [d' Hd']. specialize (IH rest' rs' d'). destruct (process_loop fuel rest' rs') as [cs' r]. cbn [fst] in *.
    rewrite flush_check_app, Hd'. done.
Qed.

Lemma process_buffer_flush ws rs :
  is_Some (flush_check false (fst (process_buffer ws rs))) /\
  (is_ok (snd (process_buffer ws rs)) = true -> flush_check false (fst (process_buffer ws rs)) = Some false).
Proof.
  unfold process_buffer.
  assert (Hfirst : forall c : W (MethodResumeState * list Z), is_Some (flush_check false (fst c)) ->
    let run := let* (rs, entries) := c in let* rs := process_loop (length entries) entries rs in
               let* _ := emit [FlushEngineState] in retW rs in
    is_Some (flush_check false (fst run)) /\ (is_ok (snd run) = true -> flush_check false (fst run) = Some false)).
  { intros [cs [f|[rs1 ws1]]] [d Hd]; cbn [fst] in Hd; cbn [bindW fst snd]; [by rewrite Hd|].
    destruct (process_loop_flush (length ws1) ws1 rs1 d) as [d' Hd'].
    destruct (process_loop (length ws1) ws1 rs1) as [cs' [f|rs2]]; simpl in *; rewrite flush_check_app, Hd; [by rewrite Hd'|].
    rewrite flush_check_app, Hd'. by split. }
  destruct (_ =? _); apply Hfirst; [by eexists|]. eapply flush_check_for; [apply resumeSplitMethod_for|by right].
Qed.

Lemma Process_flush read e rs :
  is_Some (flush_check false (fst (Process read e rs))) /\
  (is_ok (snd (Process read e rs)) = true -> flush_check false (fst (Process read e rs)) = Some false).
Proof.
  unfold Process. destruct (_ =? _); [split; [by eexists|done]|]. destruct (read _ _) as [f|ws]; [split; [by eexists|done]|].
  cbn [bindW]. pose proof (process_buffer_flush ws rs). by destruct (process_buffer ws rs).
Qed.

(** No engine overtakes the 3D engine.  In a run over any entries, from any pending method, every
    call to the compute, inline-to-memory, 2D or copy engine comes at a point where the 3D engine
    has had no call since it was last flushed. *)
Theorem Run_flushes_3d entries rs : is_Some (flush_check false (fst (Run entries rs))).
Proof.
  revert rs. induction entries as [|[e read] entries IH]; intros rs; [by eexists|]. cbn [Run].
  destruct (Process_flush read e rs) as [Hs Hc]. destruct (Process read e rs) as [cs [f|rs1]]; [done|]. cbn [bindW fst snd is_ok] in *.
  specialize (IH rs1). destruct (Run entries rs1) as [cs' r]. cbn [fst] in *. by rewrite flush_check_app, Hc.
Qed.

(** ** Entries and macro packets *)

(** The address of an entry is the one it was made with: word aligned and of 40 bits. *)
Lemma GpEntry_Address_new a n :
  0 <= a < 2 ^ 40 -> a mod 4 = 0 -> 0 <= n < 2 ^ 21 ->
  GpEntry_Address (GpEntry_new a n) = a /\ ge_size (GpEntry_new a n) = n.
Proof.
  intros Ha H4 Hn. unfold GpEntry_Address, GpEntry_new, ge_getHi, ge_get, ge_size. cbn [ge_entry0 ge_entry1].
  rewrite bits_set_bits_other by lia. rewrite !bits_set_bits_same by lia. rewrite !Z.land_ones by lia.
  split; [|by apply Z.mod_small]. rewrite !Z.shiftr_div_pow2 by lia. unfold wrap.
  rewrite Z.mod_mod by lia. rewrite (Z.mod_small (a / 2 ^ 32) (2 ^ 8)) by (split; [apply Z.div_pos; lia|apply Z.div_lt_upper_bound; lia]).
  assert (Hget : (a / 2 ^ 2) mod 2 ^ 32 mod 2 ^ 30 * 2 ^ 2 = a mod 2 ^ 32).
  { pose proof (Z.div_mod a 4 ltac:(lia)). change (2 ^ 2) with 4. change (2 ^ 32) with (4 * 2 ^ 30) at 2.
    rewrite Z.mod_mod_divide by (by exists 4). rewrite Z.rem_mul_r by lia. lia. }
  rewrite (Z.shiftl_mul_pow2 _ 2), Hget by lia. rewrite lor_shiftl_add by (try apply Z.mod_pos_bound; lia).
  pose proof (Z.div_mod a (2 ^ 32) ltac:(lia)). lia.
Qed.

(** A packet of kind [OneInc] for the 3D engine whose method is that of macro [k] makes the calls
    that start the macro and pass it its arguments. *)
Lemma Process_macro_packet raw argument rest k :
  secOp raw = OneIncMethod -> methodSubChannel raw = ThreeD -> methodAddress raw = EngineMethodsEnd + 2 * k -> 0 <= k ->
  methodCount raw = Z.of_nat (length (argument :: rest)) ->
  process_buffer (raw :: argument :: rest) resumeState_init =
  (((fun '(offset, a, last) => CallMacro Maxwell3D offset a last) <$> packet_calls k argument rest) ++ [FlushEngineState], inr resumeState_init).
Proof.
  intros Ho Hs Ha Hk Hc. unfold process_buffer. change (rs_remaining resumeState_init =? 0) with true.
  cbv beta iota. rewrite bindW_ret.
  assert (Hraw : raw <> 0) by (intros ->; done). cbn [length process_loop]. apply Z.eqb_neq in Hraw. rewrite Hraw.
  unfold hitEnd, processMethod. rewrite Hs, Ho. unfold dispatchCalls. rewrite Hc, Z.leb_refl, Nat2Z.id, take_ge, drop_ge by done.
  assert (Hpure : Pure raw = false).
  { unfold Pure. rewrite Ho. destruct (header_range raw). rewrite wrap_small, (proj2 (Z.ltb_ge _ _)) by (unfold EngineMethodsEnd in *; lia). done. }
  rewrite Hpure. unfold full_calls. rewrite Hs, Ha.
  assert (Hsend : forall o a last, 0 <= o -> SendFull (EngineMethodsEnd + o) a ThreeD last = [CallMacro Maxwell3D o a last]).
  { intros o a last Hoff. unfold SendFull, GPFIFO_RegisterCount, EngineMethodsEnd.
    rewrite !(proj2 (Z.ltb_ge _ _)) by lia. do 2 f_equal. lia. }
  assert (Hloop : forall l i n, 0 < i -> n = i + Z.of_nat (length l) ->
    dispatch_loop (fun i a => SendFull (EngineMethodsEnd + 2 * k + (if i =? 0 then 0 else 1)) a ThreeD (i =? n - 1)) i l =
    (fun '(offset, a, last) => CallMacro Maxwell3D offset a last) <$> argument_calls (2 * k + 1) l).
  { induction l as [|a l IH]; intros i n Hi Hn; [done|]. simpl length in Hn. cbn [dispatch_loop].
    rewrite (IH (i + 1) n) by lia. destruct (Z.eqb_spec i 0); [lia|]. rewrite <- Z.add_assoc, Hsend by lia.
    destruct l as [|a' l]; simpl length in Hn.
    - by rewrite (proj2 (Z.eqb_eq i (n - 1))) by lia.
    - by rewrite (proj2 (Z.eqb_neq i (n - 1))) by lia. }
  cbn [dispatch_loop methodOffset]. rewrite Z.eqb_refl, Z.add_0_r, Hsend by lia. rewrite Hc, Hloop by (simpl length; lia).
  unfold packet_calls. destruct rest as [|a rest]; [done|]. simpl length.
  rewrite (proj2 (Z.eqb_neq 0 _)) by lia. cbn [emit bindW retW]. simpl. by rewrite !app_nil_r.
Qed.

(** ** Behaviour at the edges *)

(** A header word, for examples. *)
Definition header (op sub count address : Z) : Z := Z.shiftl op 29 + Z.shiftl count 16 + Z.shiftl sub 13 + address.

(** A packet of five words for one method of the 2D engine is dropped, one of four is not. *)
Lemma TwoD_batch_dropped :
  fst (process_buffer (header 3 3 5 0x100 :: [1; 2; 3; 4; 5]) resumeState_init) = [FlushEngineState; FlushEngineState] /\
  length (fst (process_buffer (header 3 3 4 0x100 :: [1; 2; 3; 4]) resumeState_init)) = 6%nat.
Proof. done. Qed.

(** A single method call to the copy engine reaches the 2D engine too, a batch does not. *)
Lemma Copy_reaches_2d :
  SendPure 0x100 7 Copy = [CallMethod MaxwellDma 0x100 7; CallMethod Fermi2D 0x100 7] /\
  SendPureBatchNonInc 0x100 [7] Copy = [CallMethodBatchNonInc MaxwellDma 0x100 [7]].
Proof. done. Qed.

(** A buffer that ends behind the header of a [OneInc] packet is read past its end. *)
Lemma OneInc_header_last : snd (process_buffer [header 5 0 2 0x100] resumeState_init) = inl (Undefined "pushbuffer read past the end").
Proof. done. Qed.

(** A memory that holds one buffer, for examples. *)
Definition example_read (buffers : list (Z * list Z)) (address size : Z) : M (list Z) :=
  from_opt (Throw "unmapped") (snd <$> find (fun b => fst b =? address) buffers).

Definition example_words : list Z := [header 1 0 2 0x100; 11; 12; header 3 1 6 0x200; 1; 2; 3; 4; 5; 6; header 5 0 2 0xE04; 8; 9].

Lemma Process_refines_stream_witness :
  resume_ok resumeState_init /\
  view pending (Process (example_read [(0x1000, example_words)]) (GpEntry_new 0x1000 13) resumeState_init) =
  ([CallMethod Maxwell3D 0x100 11; CallMethod Maxwell3D 0x101 12; CallMethod KeplerCompute 0x200 1;
    CallMethod KeplerCompute 0x200 2; CallMethod KeplerCompute 0x200 3; CallMethod KeplerCompute 0x200 4;
    CallMethod KeplerCompute 0x200 5; CallMethod KeplerCompute 0x200 6; CallMacro Maxwell3D 4 8 false; CallMacro Maxwell3D 5 9 true],
   inr None).
Proof.
  assert (Hok : resume_ok resumeState_init) by (split; simpl; lia). split; [exact Hok|].
  etransitivity; [apply (Process_refines_stream _ _ _ example_words Hok); [vm_compute; lia|reflexivity]|reflexivity].
Defined.

Lemma Process_split_witness :
  let read := example_read [(0x1000, example_words); (0x2000, take 6 example_words); (0x3000, drop 6 example_words)] in
  view pending (let* rs := Process read (GpEntry_new 0x2000 6) resumeState_init in Process read (GpEntry_new 0x3000 7) rs) =
  view pending (Process read (GpEntry_new 0x1000 13) resumeState_init).
Proof.
  intros read.
  apply (Process_split read _ _ _ _ (take 6 example_words) (drop 6 example_words) (Some (mk_resume 4 0x200 Compute NonInc)));
    [split; simpl; lia|vm_compute; lia..|reflexivity|reflexivity|reflexivity|reflexivity].
Defined.
