(* ===== verification/AddressSpace.v ===== *)
(** * The flat address space map ([common/address_space.{h,inc}])

    [FlatAddressSpaceMap] keeps a sorted vector of blocks; a block holds from its address up to the
    next block's, and is mapped or not.  The GPU's and the SoC's memory managers and the allocators
    of the nvdrv services are instances of it.  An iterator is modelled by the two lists it
    separates, so that the surgery the code does on the vector is list surgery here.  A block's
    physical address is zero when it is unmapped; the allocators use one for true. *)

From S2P Require Import Prelude Common.

(** ** Blocks *)

Record Block : Type := mk_block {
  b_virt : Z;
  b_phys : Z;
  b_extra : bool }.

#[global] Instance Block_eq_dec : EqDecision Block.
Proof. solve_decision. Defined.

Definition UnmappedVa : Z := 0.
Definition UnmappedPa : Z := 0.

Definition Mapped (b : Block) : bool := negb (b_phys b =? UnmappedPa).
Definition Unmapped (b : Block) : bool := b_phys b =? UnmappedPa.

(** The parameters of the class template: the width of [VaType] and [PaContigSplit]. *)
Record AsParams : Type := mk_as_params {
  va_width : Z;
  PaContigSplit : bool }.

(** The map, with the calls made to [unmapCallback]. *)
Record AsMap : Type := mk_as_map {
  as_blocks : list Block;
  as_vaLimit : Z;
  as_unmaps : list (Z * Z) }.

Definition VaMaximum (AddressSpaceBits : Z) : Z := 2 ^ (AddressSpaceBits - 1) + (2 ^ (AddressSpaceBits - 1) - 1).

Definition AsMap_new (AddressSpaceBits vaLimit : Z) : M AsMap :=
  if VaMaximum AddressSpaceBits <? vaLimit then fail (Throw "Invalid VA limit!")
  else ok (mk_as_map [mk_block UnmappedVa UnmappedPa false] vaLimit []).

(** [std::lower_bound(blocks, virt)] on the sorted vector: the blocks before it and from it on. *)
Definition lower_bound (virt : Z) (blocks : list Block) : list Block * list Block :=
  split_at (fun b => virt <=? b_virt b) blocks.

(** [std::upper_bound(blocks, virt)]. *)
Definition upper_bound_virt (virt : Z) (blocks : list Block) : list Block * list Block :=
  split_at (fun b => virt <? b_virt b) blocks.

(** Walking backwards while blocks start at or after [virt]. *)
Definition walk_back (virt : Z) (blocks : list Block) : list Block * list Block :=
  let (back, front) := split_at (fun b => b_virt b <? virt) (reverse blocks) in (reverse front, reverse back).

Section map.
Context (P : AsParams).

Definition finish_map (m : AsMap) (virt size : Z) (blocks : list Block) : M AsMap :=
  ok (mk_as_map blocks (as_vaLimit m) (as_unmaps m ++ [(virt, size)])).

(** The part of [MapLocked] after the tail is in place: [post] begins with [blockEndSuccessor]. *)
Definition map_start (m : AsMap) (virt phys size : Z) (extraInfo : bool) (virtEnd : Z) (pre post : list Block) : M AsMap :=
  let (before, between) := walk_back virt pre in
  match before with
  | [] => fail (Undefined "before the first block")
  | _ =>
      match between ++ post with
      | [] => fail (Undefined "past the last block")
      | blockStartSuccessor :: _ =>
          if virtEnd <? b_virt blockStartSuccessor then fail (Throw "Unsorted block in AS map")
          else if b_virt blockStartSuccessor =? virtEnd then
            finish_map m virt size (before ++ mk_block virt phys extraInfo :: between ++ post)
          else
            match between with
            | [] => fail (Undefined "erase of an invalid range")
            | _ => finish_map m virt size (before ++ mk_block virt phys extraInfo :: post)
            end
      end
  end.

Definition MapLocked (virt phys size : Z) (extraInfo : bool) (m : AsMap) : M AsMap :=
  let virtEnd := wrap (va_width P) (virt + size) in
  if as_vaLimit m <? virtEnd then fail (Throw "Trying to map a block past the VA limit")
  else
    let (pre, post) := lower_bound virtEnd (as_blocks m) in
    match unsnoc pre with
    | None => fail (Throw "Trying to map a block before the VA start")
    | Some (pre', blockEndPredecessor) =>
        match post with
        | blockEndSuccessor :: _ =>
            if negb (b_virt blockEndSuccessor =? virtEnd) then
              let tailPhys :=
                if negb (PaContigSplit P) || Unmapped blockEndPredecessor then b_phys blockEndPredecessor
                else b_phys blockEndPredecessor + virtEnd - b_virt blockEndPredecessor in
              let tail := mk_block virtEnd tailPhys (b_extra blockEndPredecessor) in
              if virt <=? b_virt blockEndPredecessor then
                map_start m virt phys size extraInfo virtEnd pre' (tail :: post)
              else finish_map m virt size (pre ++ mk_block virt phys extraInfo :: tail :: post)
            else map_start m virt phys size extraInfo virtEnd pre post
        | [] =>
            if negb (bool_decide (pre' = [])) && (virt <=? b_virt blockEndPredecessor) then
              map_start m virt phys size extraInfo virtEnd pre'
                [mk_block virtEnd (b_phys blockEndPredecessor) (b_extra blockEndPredecessor)]
            else finish_map m virt size (pre ++ [mk_block virt phys extraInfo; mk_block virtEnd UnmappedPa false])
        end
    end.

(** [eraseBlocksWithEndUnmapped]: the vector is [before ++ unmappedEnd :: after]. *)
Definition eraseBlocksWithEndUnmapped (m : AsMap) (virt size : Z) (before : list Block) (unmappedEnd : Block) (after : list Block) : M AsMap :=
  let (first, between) := walk_back virt (before ++ [unmappedEnd]) in
  match unsnoc first with
  | None => fail (Undefined "before the first block")
  | Some (_, blockStartPredecessor) =>
      match unsnoc between with
      | None =>
          match after with
          | [] => finish_map m virt size first
          | _ => fail (Throw "Multiple contiguous unmapped regions are unsupported!")
          end
      | Some (erased, _) =>
          if Unmapped blockStartPredecessor then
            match after with
            | eraseEnd :: _ =>
                if Unmapped eraseEnd then fail (Throw "Multiple contiguous unmapped regions are unsupported!")
                else finish_map m virt size (first ++ after)
            | [] => finish_map m virt size first
            end
          else
            match erased with
            | [] => fail (Throw "Multiple contiguous unmapped regions are unsupported!")
            | _ => finish_map m virt size (first ++ mk_block virt (b_phys unmappedEnd) (b_extra unmappedEnd) :: after)
            end
      end
  end.

(** The part of [UnmapLocked] after the tail is in place: the vector is
    [pre ++ blockEndSuccessor :: post] and [blockEndPredecessor] is the last of [pre]. *)
Definition unmap_start (m : AsMap) (virt size virtEnd : Z) (pre : list Block) (blockEndSuccessor : Block) (post : list Block) : M AsMap :=
  let (before, between) := walk_back virt (pre ++ [blockEndSuccessor]) in
  match unsnoc before with
  | None => fail (Undefined "before the first block")
  | Some (_, blockStartPredecessor) =>
      match between ++ post with
      | [] => fail (Undefined "past the last block")
      | blockStartSuccessor :: _ =>
          if virtEnd <? b_virt blockStartSuccessor then fail (Throw "Unsorted block in AS map")
          else if b_virt blockStartSuccessor =? virtEnd then
            if Mapped blockStartPredecessor then
              finish_map m virt size (before ++ mk_block virt UnmappedPa false :: between ++ post)
            else finish_map m virt size (before ++ between ++ post)
          else
            match unsnoc between with
            | None => fail (Undefined "erase of an invalid range")
            | Some (erased, _) =>
                if Unmapped blockStartPredecessor then
                  match unsnoc erased with
                  | None => fail (Undefined "erase of an invalid range")
                  | Some (_, blockEndPredecessor) =>
                      finish_map m virt size (before ++ blockEndPredecessor :: blockEndSuccessor :: post)
                  end
                else
                  finish_map m virt size
                    (before ++ mk_block virt UnmappedPa (b_extra blockStartSuccessor) :: blockEndSuccessor :: post)
            end
      end
  end.

Definition UnmapLocked (virt size : Z) (m : AsMap) : M AsMap :=
  let virtEnd := wrap (va_width P) (virt + size) in
  if as_vaLimit m <? virtEnd then fail (Throw "Trying to map a block past the VA limit")
  else
    let (pre, post) := lower_bound virtEnd (as_blocks m) in
    match unsnoc pre with
    | None => fail (Throw "Trying to unmap a block before the VA start")
    | Some (pre', blockEndPredecessor) =>
        if Unmapped blockEndPredecessor then
          if virt <? b_virt blockEndPredecessor then
            eraseBlocksWithEndUnmapped m virt size pre' blockEndPredecessor post
          else finish_map m virt size (as_blocks m)
        else
          match post with
          | [] => fail (Undefined "past the last block")
          | blockEndSuccessor :: post' =>
              if (b_virt blockEndSuccessor =? virtEnd) && Unmapped blockEndSuccessor then
                eraseBlocksWithEndUnmapped m virt size pre blockEndSuccessor post'
              else if negb (b_virt blockEndSuccessor =? virtEnd) then
                let tailPhys :=
                  if PaContigSplit P then b_phys blockEndPredecessor + virtEnd - b_virt blockEndPredecessor
                  else b_phys blockEndPredecessor in
                let tail := mk_block virtEnd tailPhys (b_extra blockEndPredecessor) in
                if virt <=? b_virt blockEndPredecessor then unmap_start m virt size virtEnd pre' tail post
                else finish_map m virt size (pre ++ mk_block virt UnmappedPa false :: tail :: post)
              else unmap_start m virt size virtEnd pre blockEndSuccessor post'
          end
    end.

End map.

(** ** The allocator *)

(** [FlatAllocator] over [VaType] of [va_width] bits, with [bool] physical addresses. *)
Record FlatAllocator : Type := mk_allocator {
  al_map : AsMap;
  al_currentLinearAllocEnd : Z;
  al_vaStart : Z }.

Definition allocator_params (width : Z) : AsParams := mk_as_params width false.

Definition FlatAllocator_new (AddressSpaceBits vaStart vaLimit : Z) : M FlatAllocator :=
  let! m := AsMap_new AddressSpaceBits vaLimit in
  ok (mk_allocator m vaStart vaStart).

(** The loop of the linear pass, from [allocEndPredecessor] and the blocks behind it. *)
Fixpoint skip_fixed (width size vaLimit : Z) (pred : Block) (succs : list Block) : Z :=
  match succs with
  | [] => UnmappedVa
  | succ :: rest =>
      if (wrap width (b_virt succ - b_virt pred) <? size) || Mapped pred then b_virt pred
      else
        match rest with
        | [] =>
            let allocEnd := wrap width (b_virt succ + size) in
            if (b_virt succ <=? allocEnd) && (allocEnd <=? vaLimit) then b_virt succ else UnmappedVa
        | _ => skip_fixed width size vaLimit succ rest
        end
  end.

(** The search for a gap, from the first block on. *)
Fixpoint search_gap (width size : Z) (pred : Block) (succs : list Block) : option Z :=
  match succs with
  | [] => None
  | succ :: rest =>
      if (wrap width (b_virt succ - b_virt pred) <? size) || Mapped pred then search_gap width size succ rest
      else Some (b_virt pred)
  end.

Definition linear_start (width size : Z) (a : FlatAllocator) : M Z :=
  let vaLimit := as_vaLimit (al_map a) in
  let allocEnd := wrap width (al_currentLinearAllocEnd a + size) in
  if (al_currentLinearAllocEnd a <=? allocEnd) && (allocEnd <=? vaLimit) then
    let (pre, post) := lower_bound allocEnd (as_blocks (al_map a)) in
    match unsnoc pre with
    | None => fail (Throw "First block in AS map is invalid!")
    | Some (_, allocEndPredecessor) =>
        if b_virt allocEndPredecessor <=? al_currentLinearAllocEnd a then ok (al_currentLinearAllocEnd a)
        else ok (skip_fixed width size vaLimit allocEndPredecessor post)
    end
  else ok UnmappedVa.

(** A result of zero says that the address space is full. *)
Definition Allocate (width size : Z) (a : FlatAllocator) : M (FlatAllocator * Z) :=
  let! allocStart := linear_start width size a in
  if negb (allocStart =? UnmappedVa) then
    let! m := MapLocked (allocator_params width) allocStart 1 size false (al_map a) in
    ok (mk_allocator m (wrap width (allocStart + size)) (al_vaStart a), allocStart)
  else
    match as_blocks (al_map a) with
    | first :: (_ :: _ :: _) as succs =>
        match search_gap width size first (tail (as_blocks (al_map a))) with
        | None => ok (a, 0)
        | Some allocStart =>
            let! m := MapLocked (allocator_params width) allocStart 1 size false (al_map a) in
            ok (mk_allocator m (al_currentLinearAllocEnd a) (al_vaStart a), allocStart)
        end
    | _ => fail (Throw "Unexpected allocator state!")
    end.

Definition AllocateFixed (width virt size : Z) (a : FlatAllocator) : M FlatAllocator :=
  let! m := MapLocked (allocator_params width) virt 1 size false (al_map a) in
  ok (mk_allocator m (al_currentLinearAllocEnd a) (al_vaStart a)).

Definition Allocator_Free (width virt size : Z) (a : FlatAllocator) : M FlatAllocator :=
  let! m := UnmapLocked (allocator_params width) virt size (al_map a) in
  ok (mk_allocator m (al_currentLinearAllocEnd a) (al_vaStart a)).

(** ** What a map holds *)

(** The block an address is in: the last one that starts at or before it. *)
Fixpoint block_at (blocks : list Block) (a : Z) : option Block :=
  match blocks with
  | [] => None
  | b :: rest =>
      match block_at rest a with
      | Some x => Some x
      | None => if b_virt b <=? a then Some b else None
      end
  end.

(** What a block says of an address: the physical address and the extra information. *)
Definition cell (contig : bool) (b : Block) (a : Z) : option (Z * bool) :=
  if Unmapped b then None else Some (if contig then b_phys b + (a - b_virt b) else b_phys b, b_extra b).

Definition translate (contig : bool) (blocks : list Block) (a : Z) : option (Z * bool) :=
  match block_at blocks a with Some b => cell contig b a | None => None end.

(** Neighbours are in order and not both unmapped. *)
Definition adj (x y : Block) : Prop := b_virt x < b_virt y /\ (Unmapped x = false \/ Unmapped y = false).

Fixpoint path (b : Block) (l : list Block) : Prop :=
  match l with [] => True | x :: r => adj b x /\ path x r end.

Definition end_of (b : Block) (l : list Block) : Block := default b (last l).

(** A well-formed vector: it begins with an unmapped block at zero and ends with an unmapped
    block, is sorted, and unmapped blocks are as large as they can be. *)
Definition blocks_ok (blocks : list Block) : Prop :=
  match blocks with
  | [] => False
  | f :: r => b_virt f = 0 /\ Unmapped f = true /\ path f r /\ Unmapped (end_of f r) = true /\ Forall (fun b => 0 <= b_phys b) (f :: r)
  end.

Record as_ok (P : AsParams) (m : AsMap) : Prop := mk_as_ok {
  ao_blocks : blocks_ok (as_blocks m);
  ao_limit : 0 <= as_vaLimit m < 2 ^ va_width P }.

(** ** Lists of blocks *)

Lemma end_of_app b l1 l2 : end_of b (l1 ++ l2) = end_of (end_of b l1) l2.
Proof. unfold end_of. rewrite last_app. by destruct (last l2). Qed.

Lemma end_of_snoc b l x : end_of b (l ++ [x]) = x.
Proof. rewrite end_of_app. done. Qed.

Lemma end_of_cons b x l : end_of b (x :: l) = end_of x l.
Proof. exact (end_of_app b [x] l). Qed.

Lemma path_app b l1 l2 : path b (l1 ++ l2) <-> path b l1 /\ path (end_of b l1) l2.
Proof.
  revert b. induction l1 as [|x l1 IH]; intros b; simpl; [tauto|]. rewrite IH, end_of_cons. tauto.
Qed.

Lemma path_above b l : path b l -> Forall (fun x => b_virt b < b_virt x) l.
Proof.
  revert b. induction l as [|x l IH]; intros b; [constructor|]. intros [[Hlt _] Hp]. constructor; [done|].
  eapply Forall_impl; [by apply IH|]. simpl. lia.
Qed.

Lemma path_end_above b l : path b l -> b_virt b <= b_virt (end_of b l).
Proof.
  intros Hp. apply path_above in Hp. unfold end_of. destruct (last l) as [x|] eqn:E; simpl; [|lia].
  apply last_Some in E as [l' ->]. apply Forall_app in Hp as [_ Hp]. inversion Hp. lia.
Qed.

Lemma end_below v b l : Forall (fun x => b_virt x < v) (b :: l) -> b_virt (end_of b l) < v.
Proof.
  intros Hf. unfold end_of. destruct (last l) as [x|] eqn:E; simpl; [|by inversion Hf].
  apply last_Some in E as [l' ->]. inversion Hf as [|? ? _ H]; subst. apply Forall_app in H as [_ H]. by inversion H.
Qed.

(** A sorted list is cut at an address into the blocks below and those from it on. *)
Lemma cut_rest v f r1 x r2 : path f (r1 ++ x :: r2) -> v <= b_virt x -> Forall (fun b => v <= b_virt b) (x :: r2).
Proof.
  intros Hp Hx. apply path_app in Hp as [_ [_ Hp]]. constructor; [done|].
  eapply Forall_impl; [by apply path_above|]. simpl. lia.
Qed.

Lemma cut_unique v l1 l2 l1' l2' :
  l1 ++ l2 = l1' ++ l2' -> Forall (fun b => b_virt b < v) l1 -> Forall (fun b => v <= b_virt b) l2 ->
  Forall (fun b => b_virt b < v) l1' -> Forall (fun b => v <= b_virt b) l2' -> l1 = l1' /\ l2 = l2'.
Proof.
  revert l1'. induction l1 as [|x l1 IH]; intros [|y l1'] Heq H1 H2 H1' H2'; simpl in *.
  - done.
  - subst l2. inversion H2. inversion H1'. simpl in *. lia.
  - subst l2'. inversion H2'. inversion H1. simpl in *. lia.
  - injection Heq as -> Heq. inversion H1. inversion H1'. subst. destruct (IH l1' Heq) as [-> ->]; done.
Qed.

Lemma lower_bound_spec v f r :
  path f r -> b_virt f < v ->
  exists r1 r2, lower_bound v (f :: r) = (f :: r1, r2) /\ r = r1 ++ r2 /\
    Forall (fun b => b_virt b < v) (f :: r1) /\ Forall (fun b => v <= b_virt b) r2.
Proof.
  intros Hp Hf. unfold lower_bound. cbn [split_at]. destruct (Z.leb_spec v (b_virt f)); [lia|].
  destruct (split_at _ r) as [r1 r2] eqn:Es. exists r1, r2. pose proof (split_at_app _ _ _ _ Es) as ->.
  split; [done|]. split; [done|]. split.
  - constructor; [done|]. eapply Forall_impl; [by eapply split_at_prefix|]. simpl. intros b Hb. by apply Z.leb_gt in Hb.
  - destruct r2 as [|x r2]; [constructor|]. apply split_at_head in Es. apply Z.leb_le in Es. by eapply cut_rest.
Qed.

Lemma walk_back_spec v f r :
  path f r -> b_virt f < v ->
  exists r1 r2, walk_back v (f :: r) = (f :: r1, r2) /\ r = r1 ++ r2 /\
    Forall (fun b => b_virt b < v) (f :: r1) /\ Forall (fun b => v <= b_virt b) r2.
Proof.
  intros Hp Hf. unfold walk_back. destruct (split_at _ _) as [back front] eqn:Es.
  pose proof (split_at_app _ _ _ _ Es) as Ha. apply (f_equal reverse) in Ha.
  rewrite reverse_involutive, reverse_app in Ha. pose proof (split_at_prefix _ _ _ _ Es) as Hback.
  assert (Hge : Forall (fun b => v <= b_virt b) (reverse back)).
  { apply Forall_reverse. eapply Forall_impl; [exact Hback|]. simpl. intros b Hb. by apply Z.ltb_ge in Hb. }
  destruct front as [|x front].
  - simpl in Ha. rewrite <- Ha in Hge. inversion Hge. simpl in *. lia.
  - apply split_at_head in Es. apply Z.ltb_lt in Es. rewrite reverse_cons in *.
    destruct (reverse front) as [|g rf] eqn:Er; simpl in Ha.
    + injection Ha as <- ->. exists [], (reverse back). simpl. repeat split; try done. constructor; [done|constructor].
    + injection Ha as <- ->. exists (rf ++ [x]), (reverse back). split; [done|]. split; [done|]. split; [|done].
      apply path_app in Hp as [Hp _]. constructor; [done|]. apply Forall_app. split; [|by constructor].
      apply path_app in Hp as [Hp [[Hx _] _]]. clear -Hp Hx Es.
      revert f Hp Hx. induction rf as [|y rf IH]; intros f Hp Hx; constructor.
      * destruct Hp as [_ Hp]. rewrite end_of_cons in Hx. apply path_end_above in Hp. simpl. lia.
      * apply (IH y); [apply Hp|by rewrite end_of_cons in Hx].
Qed.

Lemma block_at_app l1 l2 a :
  block_at (l1 ++ l2) a = match block_at l2 a with Some b => Some b | None => block_at l1 a end.
Proof.
  induction l1 as [|b l1 IH]; simpl; [by destruct (block_at l2 a)|]. rewrite IH. by destruct (block_at l2 a).
Qed.

Lemma block_at_above l a : Forall (fun b => a < b_virt b) l -> block_at l a = None.
Proof.
  induction 1 as [|b l Hb Hl IH]; [done|]. simpl. rewrite IH. destruct (Z.leb_spec (b_virt b) a); [lia|done].
Qed.

Lemma block_at_end f l a : b_virt (end_of f l) <= a -> block_at (f :: l) a = Some (end_of f l).
Proof.
  intros Ha. destruct (last l) as [x|] eqn:E.
  - apply last_Some in E as [l' ->]. rewrite end_of_snoc in *. change (f :: l' ++ [x]) with ((f :: l') ++ [x]).
    rewrite block_at_app. simpl. by destruct (Z.leb_spec (b_virt x) a); [|lia].
  - apply last_None in E as ->. simpl in *. unfold end_of in *. simpl in *. by destruct (Z.leb_spec (b_virt f) a); [|lia].
Qed.

Lemma block_at_some b l a : b_virt b <= a -> exists x, block_at (b :: l) a = Some x.
Proof. intros Hb. simpl. destruct (block_at l a); [by eexists|]. destruct (Z.leb_spec (b_virt b) a); [by eexists|lia]. Qed.

(** ** Mapping *)

Section refine.
Context (P : AsParams).

(** The tail put behind a change that ends at [virtEnd] inside block [p]: nothing when a block
    starts there already, else a block that goes on where [p] is cut. *)
Definition tail_ok (virtEnd : Z) (p : Block) (post tl : list Block) : Prop :=
  (tl = [] /\ exists s post', post = s :: post' /\ b_virt s = virtEnd) \/
  (exists t, tl = [t] /\ b_virt t = virtEnd /\ Unmapped t = Unmapped p /\ 0 <= b_phys t /\
    (forall a, virtEnd <= a -> cell (PaContigSplit P) t a = cell (PaContigSplit P) p a) /\
    (post = [] -> Unmapped t = true) /\ Forall (fun b => virtEnd < b_virt b) post).

(** How the vector is cut by the range from [virt] to [virtEnd]. *)
Record cut (blocks : list Block) (virt virtEnd : Z) (f : Block) (r11 r12 post : list Block) : Prop := mk_cut {
  cut_eq : blocks = f :: r11 ++ r12 ++ post;
  cut_before : Forall (fun b => b_virt b < virt) (f :: r11);
  cut_between : Forall (fun b => virt <= b_virt b < virtEnd) r12;
  cut_post : Forall (fun b => virtEnd <= b_virt b) post }.

Lemma split_cell virtEnd p :
  0 <= b_phys p ->
  let t := mk_block virtEnd (if negb (PaContigSplit P) || Unmapped p then b_phys p else b_phys p + virtEnd - b_virt p) (b_extra p) in
  b_virt p <= virtEnd ->
  Unmapped t = Unmapped p /\ 0 <= b_phys t /\ forall a, cell (PaContigSplit P) t a = cell (PaContigSplit P) p a.
Proof.
  intros Hp t Hv. unfold t, cell, Unmapped, UnmappedPa. cbn [b_phys b_virt b_extra].
  destruct (PaContigSplit P), (Z.eqb_spec (b_phys p) 0) as [H0|H0]; cbn [negb orb].
  - by rewrite H0.
  - destruct (Z.eqb_spec (b_phys p + virtEnd - b_virt p) 0); [lia|]. split; [done|]. split; [lia|]. intros a. do 2 f_equal. lia.
  - by rewrite H0.
  - destruct (Z.eqb_spec (b_phys p) 0); [lia|]. done.
Qed.

Lemma unsnoc_end f r :
  exists pre, unsnoc (f :: r) = Some (pre, end_of f r) /\
    ((pre = [] /\ r = []) \/ exists r', pre = f :: r' /\ r = r' ++ [end_of f r]).
Proof.
  destruct (last r) as [x|] eqn:El.
  - apply last_Some in El as [l' ->]. exists (f :: l'). rewrite end_of_snoc. split; [exact (unsnoc_snoc (f :: l') x)|].
    right. by exists l'.
  - apply last_None in El as ->. exists []. split; [done|by left].
Qed.

(** [map_start] puts the new block before the blocks from [virtEnd] on. *)
Lemma map_start_spec m virt phys size extra virtEnd f r1 s post :
  path f r1 -> b_virt f < virt -> virt < virtEnd -> Forall (fun b => b_virt b < virtEnd) (f :: r1) -> b_virt s = virtEnd ->
  exists r11 r12, r1 = r11 ++ r12 /\ Forall (fun b => b_virt b < virt) (f :: r11) /\
    Forall (fun b => virt <= b_virt b < virtEnd) r12 /\
    map_start m virt phys size extra virtEnd (f :: r1) (s :: post) =
    finish_map m virt size (f :: r11 ++ mk_block virt phys extra :: s :: post).
Proof.
  intros Hp Hf Hv Hlt Hs. destruct (walk_back_spec virt f r1 Hp Hf) as (r11 & r12 & Hw & -> & H1 & H2).
  exists r11, r12. split; [done|]. split; [done|].
  assert (H12 : Forall (fun b => virt <= b_virt b < virtEnd) r12).
  { inversion Hlt as [|? ? _ Hr]; subst. apply Forall_app in Hr as [_ Hr]. apply Forall_and. by split. }
  split; [done|]. unfold map_start. rewrite Hw. destruct r12 as [|y r12]; simpl.
  - rewrite Hs, Z.ltb_irrefl, Z.eqb_refl. done.
  - inversion H12 as [|? ? Hy _]; subst. destruct (Z.ltb_spec (b_virt s) (b_virt y)); [lia|].
    destruct (Z.eqb_spec (b_virt y) (b_virt s)); [lia|]. done.
Qed.

Lemma MapLocked_shape virt phys size extra m :
  as_ok P m -> 0 < virt -> 0 < size -> virt + size <= as_vaLimit m ->
  exists f r11 r12 post tl, cut (as_blocks m) virt (virt + size) f r11 r12 post /\
    tail_ok (virt + size) (end_of f (r11 ++ r12)) post tl /\
    MapLocked P virt phys size extra m = finish_map m virt size (f :: r11 ++ mk_block virt phys extra :: tl ++ post).
Proof.
  intros [Hb Hlim] Hvirt Hsize Hend. unfold MapLocked. rewrite wrap_small by lia. set (virtEnd := virt + size) in *.
  destruct (Z.ltb_spec (as_vaLimit m) virtEnd); [lia|].
  destruct (as_blocks m) as [|f r] eqn:Em; [done|]. destruct Hb as (Hf & Hun & Hp & Hlast & Hphys).
  destruct (lower_bound_spec virtEnd f r Hp ltac:(lia)) as (r1 & post & Hlb & -> & Hlt & Hge). rewrite Hlb.
  pose proof (proj1 (path_app _ _ _) Hp) as [Hp1 Hp2].
  assert (Hphys_end : 0 <= b_phys (end_of f r1)).
  { unfold end_of. destruct (last r1) as [x|] eqn:El; simpl; [|by inversion Hphys].
    apply last_Some in El as [l' ->]. rewrite Forall_forall in Hphys. apply Hphys. set_solver. }
  pose proof (end_below virtEnd f r1 Hlt) as Hpe.
  (* the block before the end is cut by the tail *)
  assert (Hreuse : forall r1' p tl, r1 = r1' ++ [p] -> virt <= b_virt p -> b_virt tl = virtEnd ->
    tail_ok virtEnd p post [tl] ->
    exists f0 r11 r12 post0 tl0, cut (f :: r1 ++ post) virt virtEnd f0 r11 r12 post0 /\
      tail_ok virtEnd (end_of f0 (r11 ++ r12)) post0 tl0 /\
      map_start m virt phys size extra virtEnd (f :: r1') (tl :: post) =
      finish_map m virt size (f0 :: r11 ++ mk_block virt phys extra :: tl0 ++ post0)).
  { intros r1' p tl -> Hvp Htl Htok. apply path_app in Hp1 as [Hp1 _].
    destruct (map_start_spec m virt phys size extra virtEnd f r1' tl post) as (r11 & r12 & -> & H1 & H2 & Hms); try done; [lia..| |].
    - change (f :: r1' ++ [p]) with ((f :: r1') ++ [p]) in Hlt. by apply Forall_app in Hlt as [? _].
    - exists f, r11, (r12 ++ [p]), post, [tl]. split; [split; try done|].
      + by rewrite <- !app_assoc.
      + apply Forall_app. split; [done|]. constructor; [|constructor]. rewrite end_of_snoc in Hpe. lia.
      + split; [|done]. by rewrite app_assoc, end_of_snoc. }
  (* the new blocks go between two old ones *)
  assert (Hinsert : forall tl, b_virt (end_of f r1) < virt -> tail_ok virtEnd (end_of f r1) post [tl] ->
    exists f0 r11 r12 post0 tl0, cut (f :: r1 ++ post) virt virtEnd f0 r11 r12 post0 /\
      tail_ok virtEnd (end_of f0 (r11 ++ r12)) post0 tl0 /\
      finish_map m virt size ((f :: r1) ++ mk_block virt phys extra :: tl :: post) =
      finish_map m virt size (f0 :: r11 ++ mk_block virt phys extra :: tl0 ++ post0)).
  { intros tl Hlow Htok. exists f, r1, [], post, [tl]. split; [split; try done|].
    - destruct (walk_back_spec virt f r1 Hp1 ltac:(lia)) as (r11 & r12 & _ & -> & H1 & H2).
      destruct (last r12) as [x|] eqn:El; [|apply last_None in El as ->; by rewrite app_nil_r].
      apply last_Some in El as [l' ->]. rewrite app_assoc, end_of_snoc in Hlow. apply Forall_app in H2 as [_ H2].
      inversion H2. lia.
    - split; [by rewrite app_nil_r|done]. }
  assert (Hvp : virt <= b_virt (end_of f r1) -> exists r1', r1 = r1' ++ [end_of f r1]).
  { destruct (last r1) as [x|] eqn:El; [|apply last_None in El as ->; unfold end_of; simpl; lia].
    apply last_Some in El as [l' ->]. rewrite end_of_snoc. by exists l'. }
  destruct (unsnoc_end f r1) as (pre' & -> & Hpre). destruct post as [|s post].
  - rewrite app_nil_r in Hlast.
    assert (Htok : forall extra', tail_ok virtEnd (end_of f r1) [] [mk_block virtEnd UnmappedPa extra']).
    { intros extra'. right. eexists. split; [done|]. split; [done|]. split; [by rewrite Hlast|]. split; [done|].
      split; [intros a _; unfold cell; by rewrite Hlast|]. split; [done|constructor]. }
    assert (Hph : b_phys (end_of f r1) = UnmappedPa) by by apply Z.eqb_eq in Hlast.
    destruct (negb (bool_decide (pre' = [])) && _) eqn:Ec.
    + apply andb_true_iff in Ec as [_ Ec]. apply Z.leb_le in Ec. destruct (Hvp Ec) as [r1' Hr1'].
      destruct Hpre as [[-> Hnil]|(r2 & -> & Hr2)]; [rewrite Hnil in Hr1'; by destruct r1'|].
      rewrite Hph. eapply Hreuse; [exact Hr2|done|done|apply Htok].
    + apply Hinsert; [|apply Htok]. destruct Hpre as [[-> ->]|(r2 & -> & Hr2)]; [unfold end_of; simpl; lia|].
      rewrite bool_decide_false in Ec by done. simpl in Ec. by apply Z.leb_gt in Ec.
  - destruct (Z.eqb_spec (b_virt s) virtEnd) as [Hs|Hs]; cbn [negb].
    + destruct (map_start_spec m virt phys size extra virtEnd f r1 s post) as (r11 & r12 & Hr & H1 & H2 & Hms); try done; [lia..|].
      exists f, r11, r12, (s :: post), []. split; [split; try done; by rewrite Hr, <- app_assoc|]. split; [|done].
      left. split; [done|]. by exists s, post.
    + set (t := mk_block virtEnd _ _).
      assert (Htok : tail_ok virtEnd (end_of f r1) (s :: post) [t]).
      { right. exists t. destruct (split_cell virtEnd (end_of f r1) Hphys_end ltac:(lia)) as (H1 & H2 & H3).
        split; [done|]. split; [done|]. split; [done|]. split; [done|]. split; [intros a _; apply H3|]. split; [done|].
        inversion Hge as [|? ? Hs' _]; subst. apply path_app in Hp as [_ [_ Hp]].
        constructor; [lia|]. eapply Forall_impl; [by apply path_above|]. simpl. lia. }
      destruct (Z.leb_spec virt (b_virt (end_of f r1))) as [Hle|Hgt]; [|by apply Hinsert].
      destruct (Hvp Hle) as [r1' Hr1']. destruct Hpre as [[-> Hnil]|(r2 & -> & Hr2)]; [rewrite Hnil in Hr1'; by destruct r1'|].
      by eapply Hreuse.
Qed.

Lemma replaced_view blocks virt virtEnd f r11 r12 post tl n a :
  cut blocks virt virtEnd f r11 r12 post -> virt < virtEnd -> tail_ok virtEnd (end_of f (r11 ++ r12)) post tl -> b_virt n = virt ->
  translate (PaContigSplit P) (f :: r11 ++ n :: tl ++ post) a =
  if (virt <=? a) && (a <? virtEnd) then cell (PaContigSplit P) n a else translate (PaContigSplit P) blocks a.
Proof.
  intros [-> H1 H2 H3] Hv Ht Hn. unfold translate. change (f :: r11 ++ n :: tl ++ post) with ((f :: r11) ++ n :: tl ++ post).
  change (f :: r11 ++ r12 ++ post) with ((f :: r11) ++ r12 ++ post).
  assert (Htl : Forall (fun b => virtEnd <= b_virt b) tl).
  { destruct Ht as [[-> _]|(t & -> & Htv & _)]; constructor; [lia|constructor]. }
  rewrite !(block_at_app (f :: r11)). destruct (Z.leb_spec virt a) as [Hva|Hva]; cbn [andb].
  - destruct (Z.ltb_spec a virtEnd) as [Hae|Hae].
    + simpl. rewrite block_at_above; [by destruct (Z.leb_spec (b_virt n) a); [|lia]|].
      apply Forall_app. split; (eapply Forall_impl; [eassumption|]); simpl; lia.
    + rewrite (block_at_app r12). cbn [block_at]. rewrite block_at_app. destruct (block_at post a) as [b|] eqn:Eb; [done|].
      destruct Ht as [[-> (s & post' & -> & Hs)]|(t & -> & Htv & _ & _ & Hcell & _)].
      * destruct (block_at_some s post' a ltac:(lia)) as [x Hx]. congruence.
      * simpl. destruct (Z.leb_spec (b_virt t) a); [|lia].
        assert (Hlt : b_virt (end_of f (r11 ++ r12)) < virtEnd).
        { apply end_below. change (f :: r11 ++ r12) with ((f :: r11) ++ r12). apply Forall_app. split;
            (eapply Forall_impl; [eassumption|]); simpl; lia. }
        pose proof (block_at_end f (r11 ++ r12) a ltac:(lia)) as He. change (f :: r11 ++ r12) with ((f :: r11) ++ r12) in He.
        rewrite block_at_app in He. simpl in He. rewrite He. by apply Hcell.
  - rewrite (block_at_above (n :: tl ++ post)); [|constructor; [lia|apply Forall_app; split; (eapply Forall_impl; [eassumption|]); simpl; lia]].
    rewrite (block_at_above (r12 ++ post)); [done|]. apply Forall_app. split; (eapply Forall_impl; [eassumption|]); simpl; lia.
Qed.

(** The block behind a change. *)
Definition mapped_next (l : list Block) : Prop := match l with [] => False | b :: _ => Unmapped b = false end.

Lemma replaced_ok blocks virt virtEnd f r11 r12 post tl n :
  blocks_ok blocks -> cut blocks virt virtEnd f r11 r12 post -> virt < virtEnd ->
  tail_ok virtEnd (end_of f (r11 ++ r12)) post tl -> b_virt n = virt -> 0 <= b_phys n ->
  Unmapped n = false \/ (Unmapped (end_of f r11) = false /\ mapped_next (tl ++ post)) ->
  blocks_ok (f :: r11 ++ n :: tl ++ post).
Proof.
  intros Hok [-> H1 H2 H3] Hv Ht Hn Hph Hm. destruct Hok as (Hf & Hun & Hp & Hlast & Hphys).
  pose proof (proj1 (path_app _ _ _) Hp) as [Hp1 Hp2]. rewrite app_assoc in Hp. pose proof (proj1 (path_app _ _ _) Hp) as [_ Hp3].
  rewrite app_assoc, end_of_app in Hlast.
  split; [done|]. split; [done|]. split; [|split].
  - apply path_app. split; [done|]. split.
    + split; [rewrite Hn; by apply end_below|]. destruct Hm as [Hm|[Hm _]]; auto.
    + destruct Ht as [[-> (s & post' & -> & Hs)]|(t & -> & Htv & Hum & _ & _ & _ & Hab)]; simpl.
      * destruct Hp3 as [_ Hp3]. split; [|done]. split; [lia|]. destruct Hm as [Hm|[_ Hm]]; auto.
      * split; [split; [lia|]; destruct Hm as [Hm|[_ Hm]]; auto|]. destruct post as [|s post]; [done|].
        destruct Hp3 as [[_ Hadj] Hp3]. split; [|done]. rewrite <- Hum in Hadj. inversion Hab. split; [lia|done].
  - rewrite end_of_app, end_of_cons, end_of_app.
    destruct Ht as [[-> (s & post' & -> & Hs)]|(t & -> & Htv & Hum & _ & _ & Hnil & Hab)].
    + rewrite end_of_cons in *. done.
    + destruct post as [|s post]; [simpl; by apply Hnil|]. rewrite end_of_cons in *. done.
  - change (f :: r11 ++ n :: tl ++ post) with ((f :: r11) ++ n :: tl ++ post).
    change (f :: r11 ++ r12 ++ post) with ((f :: r11) ++ r12 ++ post) in Hphys.
    apply Forall_app in Hphys as [Hq1 Hq]. apply Forall_app in Hq as [_ Hq2]. apply Forall_app. split; [done|].
    constructor; [done|]. apply Forall_app. split; [|done].
    destruct Ht as [[-> _]|(t & -> & _ & _ & Ht & _)]; constructor; [done|constructor].
Qed.

Lemma MapLocked_view virt phys size extra m :
  as_ok P m -> 0 < virt -> 0 < size -> virt + size <= as_vaLimit m -> 0 < phys ->
  exists m', MapLocked P virt phys size extra m = inr m' /\ as_ok P m' /\ as_vaLimit m' = as_vaLimit m /\
    as_unmaps m' = as_unmaps m ++ [(virt, size)] /\
    forall a, translate (PaContigSplit P) (as_blocks m') a =
      if (virt <=? a) && (a <? virt + size) then Some (if PaContigSplit P then phys + (a - virt) else phys, extra)
      else translate (PaContigSplit P) (as_blocks m) a.
Proof.
  intros Hok Hv Hs Hl Hph. destruct (MapLocked_shape virt phys size extra m Hok Hv Hs Hl) as (f & r11 & r12 & post & tl & Hc & Ht & ->).
  eexists. split; [reflexivity|]. assert (Hun : Unmapped (mk_block virt phys extra) = false) by (unfold Unmapped; simpl; apply Z.eqb_neq; unfold UnmappedPa; lia).
  split; [|split; [done|]; split; [done|]].
  - destruct Hok as [Hb Hlim]. split; [|done]. cbn [as_blocks]. eapply replaced_ok; try eassumption; [lia|done|simpl; lia|by left].
  - intros a. cbn [as_blocks]. rewrite (replaced_view (as_blocks m) virt (virt + size) f r11 r12 post tl) by (done || lia).
    unfold cell at 1. rewrite Hun. done.
Qed.

(** ** Unmapping *)

(** How an unmap leaves the blocks: [rest] follows the range and the block before it is [q]. *)
Definition cleared (virt : Z) (f : Block) (r11 rest result : list Block) : Prop :=
  (Unmapped (end_of f r11) = false /\ exists e, result = f :: r11 ++ mk_block virt UnmappedPa e :: rest) \/
  (Unmapped (end_of f r11) = true /\ result = f :: r11 ++ rest).

(** The unmapped block the range ends in or is followed by, which is merged with it. *)
Definition merged (virtEnd : Z) (r12 post rest : list Block) : Prop :=
  exists u, Unmapped u = true /\ ((exists r', r12 = r' ++ [u]) /\ rest = post \/ post = u :: rest /\ b_virt u = virtEnd).

Lemma erase_spec m virt size f r11 r12 u after :
  path f (r11 ++ r12) -> b_virt f < virt -> Forall (fun b => b_virt b < virt) (f :: r11) ->
  Forall (fun b => virt <= b_virt b) r12 -> virt <= b_virt u -> path (end_of f (r11 ++ r12)) (u :: after) -> Unmapped u = true ->
  (Unmapped (end_of f r11) = false -> r12 <> []) ->
  exists result, eraseBlocksWithEndUnmapped m virt size (f :: r11 ++ r12) u after = finish_map m virt size result /\
    cleared virt f r11 after result.
Proof.
  intros Hp Hf H1 H2 Hu Hpu Hun Hne. unfold eraseBlocksWithEndUnmapped.
  assert (Hw : walk_back virt ((f :: r11 ++ r12) ++ [u]) = (f :: r11, r12 ++ [u])).
  { simpl. destruct (walk_back_spec virt f ((r11 ++ r12) ++ [u])) as (s1 & s2 & Hw & Heq & Hs1 & Hs2); [|done|].
    - apply path_app. split; [done|]. by destruct Hpu as [Hpu _].
    - rewrite Hw. destruct (cut_unique virt r11 (r12 ++ [u]) s1 s2) as [-> ->]; [by rewrite <- Heq, app_assoc|..|done].
      + by inversion H1.
      + apply Forall_app. split; [done|by constructor].
      + by inversion Hs1.
      + done. }
  rewrite Hw. destruct (unsnoc_end f r11) as (pre & -> & _). rewrite unsnoc_snoc. unfold cleared.
  destruct (Unmapped (end_of f r11)) eqn:Eq.
  - exists (f :: r11 ++ after). split; [|by right]. destruct after as [|x after]; [by rewrite app_nil_r|].
    destruct Hpu as [_ [[_ [Hm|Hm]] _]]; [congruence|]. by rewrite Hm.
  - destruct r12 as [|y r12]; [by destruct Hne|]. eexists. split; [reflexivity|]. left. split; [done|].
    exists (b_extra u). apply Z.eqb_eq in Hun. by rewrite Hun.
Qed.

Lemma unmap_start_spec m virt size virtEnd f r11 r12 s post :
  path f (r11 ++ r12) -> b_virt f < virt -> virt < virtEnd -> Forall (fun b => b_virt b < virt) (f :: r11) ->
  Forall (fun b => virt <= b_virt b < virtEnd) r12 -> b_virt s = virtEnd ->
  adj (end_of f (r11 ++ r12)) s -> (Unmapped (end_of f r11) = true -> r12 = []) ->
  exists result, unmap_start m virt size virtEnd (f :: r11 ++ r12) s post = finish_map m virt size result /\
    cleared virt f r11 (s :: post) result.
Proof.
  intros Hp Hf Hv H1 H2 Hs Hadj Hne. unfold unmap_start.
  assert (H2' : Forall (fun b => virt <= b_virt b) r12) by (eapply Forall_impl; [exact H2|]; simpl; lia).
  assert (Hw : walk_back virt ((f :: r11 ++ r12) ++ [s]) = (f :: r11, r12 ++ [s])).
  { simpl. destruct (walk_back_spec virt f ((r11 ++ r12) ++ [s])) as (s1 & s2 & Hw & Heq & Hs1 & Hs2); [by apply path_app|done|].
    rewrite Hw. destruct (cut_unique virt r11 (r12 ++ [s]) s1 s2) as [-> ->]; [by rewrite <- Heq, app_assoc|..|done].
    - by inversion H1.
    - apply Forall_app. split; [done|constructor; [lia|constructor]].
    - by inversion Hs1.
    - done. }
  rewrite Hw. destruct (unsnoc_end f r11) as (pre & -> & _). unfold cleared, Mapped.
  destruct r12 as [|y r12]; simpl.
  - rewrite Hs, Z.ltb_irrefl, Z.eqb_refl. fold (Unmapped (end_of f r11)).
    destruct (Unmapped (end_of f r11)) eqn:Eq; simpl; eexists; (split; [reflexivity|]); [by right|].
    left. split; [done|]. by exists false.
  - inversion H2 as [|? ? Hy _]; subst. destruct (Z.ltb_spec (b_virt s) (b_virt y)); [lia|].
    destruct (Z.eqb_spec (b_virt y) (b_virt s)); [lia|]. change (y :: r12 ++ [s]) with ((y :: r12) ++ [s]). rewrite unsnoc_snoc.
    destruct (Unmapped (end_of f r11)) eqn:Eq; [by specialize (Hne eq_refl)|]. eexists. split; [reflexivity|]. left.
    split; [done|]. by exists (b_extra y).
Qed.

Lemma block_at_before f r11 X virt :
  Forall (fun b => b_virt b < virt) (f :: r11) -> Forall (fun b => virt <= b_virt b) X ->
  block_at (f :: r11 ++ X) (virt - 1) = Some (end_of f r11).
Proof.
  intros H1 H2. change (f :: r11 ++ X) with ((f :: r11) ++ X). rewrite block_at_app.
  rewrite block_at_above by (eapply Forall_impl; [exact H2|]; simpl; lia). apply block_at_end. apply end_below in H1. lia.
Qed.

(** The two ranges [UnmapLocked] does not handle: one between an unmapped and a mapped address,
    and one that takes the end off a mapped block that an unmapped one follows. *)
Definition unmap_handles (blocks : list Block) (virt virtEnd : Z) : Prop :=
  (translate (PaContigSplit P) blocks (virt - 1) <> None \/ translate (PaContigSplit P) blocks virtEnd = None) /\
  forall x b, virt < x <= virtEnd -> block_at blocks (virt - 1) = Some b -> block_at blocks (x - 1) = Some b ->
    Unmapped b = false -> translate (PaContigSplit P) blocks x <> None.

(** The block behind the block before the range is mapped, when that one is. *)
Lemma unmap_handles_next f r11 u X virt virtEnd :
  unmap_handles (f :: r11 ++ u :: X) virt virtEnd -> path f (r11 ++ u :: X) ->
  Forall (fun b => b_virt b < virt) (f :: r11) -> virt < b_virt u <= virtEnd -> Unmapped u = true ->
  Unmapped (end_of f r11) = true.
Proof.
  intros [_ Hx] Hp H1 Hu Hun. destruct (Unmapped (end_of f r11)) eqn:Eq; [done|]. exfalso.
  apply path_app in Hp as [_ [_ Hp]]. apply path_above in Hp.
  apply (Hx (b_virt u) (end_of f r11)); [lia|..|done|].
  - apply block_at_before; [done|]. constructor; [lia|]. eapply Forall_impl; [exact Hp|]. simpl. lia.
  - apply block_at_before; [eapply Forall_impl; [exact H1|]; simpl; lia|]. constructor; [lia|].
    eapply Forall_impl; [exact Hp|]. simpl. lia.
  - unfold translate. change (f :: r11 ++ u :: X) with ((f :: r11) ++ u :: X). rewrite block_at_app. simpl.
    rewrite block_at_above by exact Hp. rewrite Z.leb_refl. unfold cell. by rewrite Hun.
Qed.

Lemma UnmapLocked_shape virt size m :
  as_ok P m -> 0 < virt -> 0 < size -> virt + size <= as_vaLimit m -> unmap_handles (as_blocks m) virt (virt + size) ->
  exists f r11 r12 post result, cut (as_blocks m) virt (virt + size) f r11 r12 post /\
    UnmapLocked P virt size m = finish_map m virt size result /\
    ((result = as_blocks m /\ Unmapped (end_of f (r11 ++ r12)) = true /\ b_virt (end_of f (r11 ++ r12)) <= virt) \/
     (exists tl, tail_ok (virt + size) (end_of f (r11 ++ r12)) post tl /\ mapped_next (tl ++ post) /\ cleared virt f r11 (tl ++ post) result) \/
     (exists rest, merged (virt + size) r12 post rest /\ cleared virt f r11 rest result)).
Proof.
  intros [Hb Hlim] Hvirt Hsize Hend Hh. unfold UnmapLocked. rewrite wrap_small by lia. set (virtEnd := virt + size) in *.
  destruct (Z.ltb_spec (as_vaLimit m) virtEnd); [lia|].
  destruct (as_blocks m) as [|f r] eqn:Em; [done|]. destruct Hb as (Hf & Hun & Hp & Hlast & Hphys).
  destruct (lower_bound_spec virtEnd f r Hp ltac:(lia)) as (r1 & post & Hlb & -> & Hlt & Hge). rewrite Hlb.
  pose proof (proj1 (path_app _ _ _) Hp) as [Hp1 Hp2].
  destruct (walk_back_spec virt f r1 Hp1 ltac:(lia)) as (r11 & r12 & _ & -> & H1 & H2).
  assert (H12 : Forall (fun b => virt <= b_virt b < virtEnd) r12).
  { inversion Hlt as [|? ? _ Hr]; subst. apply Forall_app in Hr as [_ Hr]. apply Forall_and. by split. }
  assert (Hcut : cut (f :: (r11 ++ r12) ++ post) virt virtEnd f r11 r12 post) by (split; try done; by rewrite <- app_assoc).
  pose proof (end_below virtEnd f (r11 ++ r12) Hlt) as Hpe.
  destruct (unsnoc_end f (r11 ++ r12)) as (pre' & -> & Hpre). remember (end_of f (r11 ++ r12)) as p eqn:Hpdef.
  assert (Hin : virt <= b_virt p -> exists r', r12 = r' ++ [p] /\ pre' = f :: r11 ++ r').
  { intros Hvp. destruct (last r12) as [x|] eqn:El.
    - apply last_Some in El as [l' ->]. assert (p = x) as -> by (by rewrite Hpdef, app_assoc, end_of_snoc).
      exists l'. split; [done|]. destruct Hpre as [[-> Hn]|(r' & -> & Hr)]; [by destruct r11, l'|].
      rewrite app_assoc in Hr. apply app_inj_tail in Hr as [-> _]. done.
    - apply last_None in El as ->. rewrite Hpdef, app_nil_r in Hvp. pose proof (end_below _ _ _ H1). lia. }
  assert (Hq : Unmapped p = false -> translate (PaContigSplit P) (f :: (r11 ++ r12) ++ post) virtEnd <> None -> Unmapped (end_of f r11) = false).
  { intros _ Hm. destruct Hh as [[Hh|Hh] _]; [|done]. destruct (Unmapped (end_of f r11)) eqn:Eq; [|done]. exfalso. apply Hh.
    unfold translate. rewrite <- app_assoc, block_at_before; [unfold cell; by rewrite Eq|done|].
    apply Forall_app. split; [done|]. eapply Forall_impl; [exact Hge|]. simpl. lia. }
  destruct (Unmapped p) eqn:Ep.
  - destruct (Z.ltb_spec virt (b_virt p)) as [Hvp|Hvp].
    + destruct (Hin ltac:(lia)) as (r' & -> & ->). rewrite app_assoc in Hp1. apply path_app in Hp1 as [Hp1 Hpp].
      apply Forall_app in H2 as [H2 _]. rewrite <- !app_assoc in Hp. simpl in Hp. rewrite (app_assoc r11) in Hp.
      pose proof (proj1 (path_app _ _ _) Hp) as [_ Hpu].
      destruct (erase_spec m virt size f r11 r' p post) as (result & -> & Hc); try done; [lia..| |].
      * intros Hmq ->. rewrite app_nil_r in Hp. rewrite (unmap_handles_next f r11 p post virt virtEnd) in Hmq; try done; [|lia].
        by rewrite <- !app_assoc in Hh.
      * exists f, r11, (r' ++ [p]), post, result. split; [done|]. split; [done|]. right. right. exists post. split; [|done].
        exists p. split; [done|]. left. split; [by exists r'|done].
    + exists f, r11, r12, post, (f :: (r11 ++ r12) ++ post). split; [done|]. split; [done|]. left. by rewrite <- Hpdef.
  - destruct post as [|s post]; [rewrite app_nil_r, <- Hpdef in Hlast; congruence|].
    destruct Hp2 as [Hadj Hp2]. assert (Hs0 : virtEnd <= b_virt s) by by inversion Hge.
    pose proof Hadj as Hadj'. rewrite Hpdef in Hadj'.
    destruct (Z.eqb_spec (b_virt s) virtEnd) as [Hs|Hs]; cbn [negb andb].
    + destruct (Unmapped s) eqn:Es.
      * destruct (erase_spec m virt size f r11 r12 s post) as (result & -> & Hc); try done; [lia..| |].
        -- intros Hmq ->. rewrite (unmap_handles_next f r11 s post virt virtEnd) in Hmq; try done; [by rewrite app_nil_r in Hh|by rewrite app_nil_r in Hp|lia].
        -- exists f, r11, r12, (s :: post), result. split; [done|]. split; [done|]. right. right. exists post. split; [|done].
           exists s. split; [done|]. by right.
      * assert (Hmq : Unmapped (end_of f r11) = false).
        { apply Hq; [done|]. unfold translate. change (f :: (r11 ++ r12) ++ s :: post) with ((f :: r11 ++ r12) ++ s :: post).
          rewrite block_at_app. simpl. rewrite block_at_above; [|eapply Forall_impl; [by apply path_above|]; simpl; lia].
          destruct (Z.leb_spec (b_virt s) virtEnd); [|lia]. unfold cell. by rewrite Es. }
        destruct (unmap_start_spec m virt size virtEnd f r11 r12 s post) as (result & -> & Hc); try done; [lia..|congruence|].
        exists f, r11, r12, (s :: post), result. split; [done|]. split; [done|]. right. left. exists []. split; [|done].
        left. split; [done|]. by exists s, post.
    + set (t := mk_block virtEnd _ _).
      assert (Hphys_end : 0 <= b_phys p).
      { rewrite Hpdef. unfold end_of. destruct (last (r11 ++ r12)) as [x|] eqn:El; simpl; [|by inversion Hphys].
        apply last_Some in El as [l' El]. rewrite El in Hphys. rewrite Forall_forall in Hphys. apply Hphys. set_solver. }
      destruct (split_cell virtEnd p Hphys_end ltac:(lia)) as (Ht1 & Ht2 & Ht3).
      assert (Ht : mk_block virtEnd (if negb (PaContigSplit P) || Unmapped p then b_phys p else b_phys p + virtEnd - b_virt p) (b_extra p) = t)
        by (unfold t; rewrite Ep; by destruct (PaContigSplit P)).
      rewrite Ht in *. assert (Htok : tail_ok virtEnd p (s :: post) [t]).
      { right. exists t. do 4 (split; [done|]). split; [intros a _; apply Ht3|]. split; [done|].
        constructor; [lia|]. eapply Forall_impl; [by apply path_above|]. simpl. lia. }
      assert (Hmt : mapped_next ([t] ++ s :: post)) by (simpl; congruence).
      assert (Hmq : Unmapped (end_of f r11) = false).
      { apply Hq; [done|]. unfold translate. change (f :: (r11 ++ r12) ++ s :: post) with ((f :: r11 ++ r12) ++ s :: post).
        rewrite block_at_app, block_at_above; [|constructor; [lia|]; eapply Forall_impl; [by apply path_above|]; simpl; lia].
        rewrite block_at_end by (rewrite <- Hpdef; lia). rewrite <- Hpdef. unfold cell. by rewrite Ep. }
      destruct (Z.leb_spec virt (b_virt p)) as [Hvp|Hvp].
      * destruct (Hin Hvp) as (r' & -> & ->). rewrite app_assoc in Hp1. apply path_app in Hp1 as [Hp1 Hpp].
        pose proof H12 as H12'. apply Forall_app in H12' as [H12' _].
        destruct (unmap_start_spec m virt size virtEnd f r11 r' t (s :: post)) as (result & -> & Hc); try done; [lia..| |congruence|].
        -- destruct Hpp as [[Hlt' _] _]. split; [unfold t; simpl; lia|]. right. congruence.
        -- exists f, r11, (r' ++ [p]), (s :: post), result. split; [done|]. split; [done|]. right. left. rewrite <- Hpdef. by exists [t].
      * eexists f, r11, r12, (s :: post), _. split; [done|]. split; [reflexivity|]. right. left. exists [t]. rewrite <- Hpdef.
        split; [done|]. split; [done|]. left. split; [done|]. exists false.
        assert (r12 = []) as ->; [|by rewrite app_nil_r].
        destruct (last r12) as [x|] eqn:El; [|by apply last_None in El]. exfalso. apply last_Some in El as [l' ->].
        rewrite Hpdef, app_assoc, end_of_snoc in Hvp. apply Forall_app in H2 as [_ H2]. inversion H2. lia.
Qed.

Lemma drop_unmapped c l x u X a :
  Unmapped x = true -> Unmapped u = true -> b_virt x <= b_virt u ->
  translate c (l ++ x :: u :: X) a = translate c (l ++ x :: X) a.
Proof.
  intros Hx Hu Hv. unfold translate. rewrite !block_at_app. simpl. destruct (block_at X a); [done|].
  destruct (Z.leb_spec (b_virt u) a), (Z.leb_spec (b_virt x) a); try lia; try done. unfold cell. by rewrite Hx, Hu.
Qed.

Lemma cleared_view c virt f r11 rest result a :
  cleared virt f r11 rest result -> Forall (fun b => b_virt b < virt) (f :: r11) ->
  translate c result a = translate c (f :: r11 ++ mk_block virt UnmappedPa false :: rest) a.
Proof.
  intros [[_ [e ->]]|[Hq ->]] H1.
  - unfold translate. change (f :: r11 ++ ?x) with ((f :: r11) ++ x). rewrite !block_at_app. simpl.
    destruct (block_at rest a); [done|]. by destruct (_ <=? _).
  - pose proof (end_below _ _ _ H1) as He. destruct (last r11) as [x|] eqn:El.
    + apply last_Some in El as [l' ->]. rewrite end_of_snoc in *. rewrite <- !app_assoc. simpl.
      symmetry. apply (drop_unmapped c (f :: l') x); [done|done|simpl; lia].
    + apply last_None in El as ->. simpl. symmetry. apply (drop_unmapped c [] f); [done|done|]. unfold end_of in He. simpl in *. lia.
Qed.

Lemma cleared_ok blocks virt virtEnd f r11 r12 post rest result :
  blocks_ok blocks -> cut blocks virt virtEnd f r11 r12 post -> cleared virt f r11 rest result ->
  Forall (fun b => 0 <= b_phys b) rest ->
  match rest with [] => True | x :: X => Unmapped x = false /\ virt < b_virt x /\ path x X /\ Unmapped (end_of x X) = true end ->
  blocks_ok result.
Proof.
  intros Hok [-> H1 H2 H3] Hc Hph Hr. destruct Hok as (Hf & Hun & Hp & Hlast & Hphys).
  apply path_app in Hp as [Hp1 _]. change (f :: r11 ++ r12 ++ post) with ((f :: r11) ++ r12 ++ post) in Hphys.
  apply Forall_app in Hphys as [Hph1 _]. pose proof (end_below _ _ _ H1) as He.
  destruct Hc as [[Hq [e ->]]|[Hq ->]]; (split; [done|]; split; [done|]).
  - split; [|split].
    + apply path_app. split; [done|]. simpl. split; [split; [done|by left]|]. destruct rest as [|x X]; [done|].
      destruct Hr as (Hm & Hv & Hpx & _). split; [split; [done|by right]|done].
    + rewrite end_of_app, end_of_cons. destruct rest as [|x X]; [done|]. rewrite end_of_cons. apply Hr.
    + change (f :: r11 ++ ?y) with ((f :: r11) ++ y). apply Forall_app. split; [done|]. by constructor.
  - split; [|split].
    + apply path_app. split; [done|]. destruct rest as [|x X]; [done|]. destruct Hr as (Hm & Hv & Hpx & _).
      split; [split; [lia|by right]|done].
    + rewrite end_of_app. destruct rest as [|x X]; [done|]. rewrite end_of_cons. apply Hr.
    + change (f :: r11 ++ ?y) with ((f :: r11) ++ y). apply Forall_app. by split.
Qed.

Lemma tail_rest blocks virt virtEnd f r11 r12 post tl :
  blocks_ok blocks -> cut blocks virt virtEnd f r11 r12 post -> virt < virtEnd ->
  tail_ok virtEnd (end_of f (r11 ++ r12)) post tl ->
  Forall (fun b => 0 <= b_phys b) (tl ++ post) /\
  match tl ++ post with [] => True | x :: X => virt < b_virt x /\ path x X /\ Unmapped (end_of x X) = true end.
Proof.
  intros Hok [-> H1 H2 H3] Hv Ht. destruct Hok as (Hf & Hun & Hp & Hlast & Hphys).
  change (f :: r11 ++ r12 ++ post) with ((f :: r11) ++ r12 ++ post) in Hphys.
  apply Forall_app in Hphys as [_ Hphys]. apply Forall_app in Hphys as [_ Hphys].
  rewrite app_assoc in Hp, Hlast. apply path_app in Hp as [_ Hp]. rewrite end_of_app in Hlast.
  destruct Ht as [[-> (s & post' & -> & Hs)]|(t & -> & Htv & Hum & Htp & _ & Hnil & Hab)]; simpl.
  - split; [done|]. rewrite end_of_cons in Hlast. destruct Hp as [_ Hp]. split; [lia|done].
  - split; [by constructor|]. split; [lia|]. destruct post as [|s post]; [split; [done|by apply Hnil]|].
    rewrite end_of_cons in *. destruct Hp as [[_ Hadj] Hp]. rewrite <- Hum in Hadj. inversion Hab. split; [|done].
    split; [split; [lia|done]|done].
Qed.

Lemma merged_rest blocks virt virtEnd f r11 r12 post rest :
  blocks_ok blocks -> cut blocks virt virtEnd f r11 r12 post -> virt < virtEnd -> merged virtEnd r12 post rest ->
  Forall (fun b => 0 <= b_phys b) rest /\
  match rest with [] => True | x :: X => Unmapped x = false /\ virt < b_virt x /\ path x X /\ Unmapped (end_of x X) = true end.
Proof.
  intros Hok [-> H1 H2 H3] Hv (u & Hu & Hm). destruct Hok as (Hf & Hun & Hp & Hlast & Hphys).
  change (f :: r11 ++ r12 ++ post) with ((f :: r11) ++ r12 ++ post) in Hphys.
  apply Forall_app in Hphys as [_ Hphys]. apply Forall_app in Hphys as [_ Hphys].
  assert (Hgo : forall b l, path f (l ++ b :: rest) -> Unmapped (end_of f (l ++ b :: rest)) = true -> Unmapped b = true -> virt <= b_virt b ->
    match rest with [] => True | x :: X => Unmapped x = false /\ virt < b_virt x /\ path x X /\ Unmapped (end_of x X) = true end).
  { intros b l Hpb Hend Hb Hvb. apply path_app in Hpb as [_ [_ Hpb]]. rewrite end_of_app, end_of_cons in Hend.
    destruct rest as [|x X]; [done|]. destruct Hpb as [[Hlt [Ha|Ha]] Hpx]; [congruence|]. rewrite end_of_cons in Hend.
    repeat split; try done. lia. }
  destruct Hm as [[(r' & ->) ->]|[-> Hub]].
  - split; [done|]. rewrite <- app_assoc in Hp, Hlast. rewrite app_assoc in Hp, Hlast. apply (Hgo u (r11 ++ r')); try done.
    apply Forall_app in H2 as [_ H2]. inversion H2. lia.
  - split; [by inversion Hphys|]. rewrite app_assoc in Hp, Hlast. apply (Hgo u (r11 ++ r12)); try done. lia.
Qed.

Lemma merged_view blocks virt virtEnd f r11 r12 post rest a :
  blocks_ok blocks -> cut blocks virt virtEnd f r11 r12 post -> virt < virtEnd -> merged virtEnd r12 post rest ->
  translate (PaContigSplit P) (f :: r11 ++ mk_block virt UnmappedPa false :: rest) a =
  if (virt <=? a) && (a <? virtEnd) then None else translate (PaContigSplit P) blocks a.
Proof.
  intros Hok Hcut Hv (u & Hu & Hm). set (n := mk_block virt UnmappedPa false).
  assert (Hview : forall tl, tail_ok virtEnd (end_of f (r11 ++ r12)) post tl ->
    translate (PaContigSplit P) (f :: r11 ++ n :: tl ++ post) a =
    if (virt <=? a) && (a <? virtEnd) then None else translate (PaContigSplit P) blocks a).
  { intros tl Htl. by rewrite (replaced_view blocks virt virtEnd f r11 r12 post tl n a). }
  destruct Hm as [[(r' & ->) ->]|[-> Hub]].
  - rewrite app_assoc, end_of_snoc in Hview. destruct post as [|s post].
    + rewrite <- (Hview [mk_block virtEnd UnmappedPa false]).
      * symmetry. apply (drop_unmapped _ (f :: r11) n); [done|done|simpl; lia].
      * right. eexists. split; [done|]. split; [done|]. split; [by rewrite Hu|]. split; [done|].
        split; [intros; unfold cell; by rewrite Hu|]. split; [done|constructor].
    + destruct (Z.eq_dec (b_virt s) virtEnd) as [Hs|Hs].
      * rewrite <- (Hview []); [done|]. left. split; [done|]. by exists s, post.
      * rewrite <- (Hview [mk_block virtEnd UnmappedPa false]).
        -- symmetry. apply (drop_unmapped _ (f :: r11) n); [done|done|simpl; lia].
        -- right. eexists. split; [done|]. split; [done|]. split; [by rewrite Hu|]. split; [done|].
           split; [intros; unfold cell; by rewrite Hu|]. split; [done|]. destruct Hcut as [-> _ _ H3].
           destruct Hok as (_ & _ & Hp & _). rewrite app_assoc in Hp. apply path_app in Hp as [_ [_ Hp]].
           inversion H3. constructor; [lia|]. eapply Forall_impl; [by apply path_above|]. simpl. lia.
  - rewrite <- (Hview []); [|left; split; [done|]; by exists u, rest].
    symmetry. apply (drop_unmapped _ (f :: r11) n); [done|done|simpl; lia].
Qed.

Lemma UnmapLocked_view virt size m :
  as_ok P m -> 0 < virt -> 0 < size -> virt + size <= as_vaLimit m -> unmap_handles (as_blocks m) virt (virt + size) ->
  exists m', UnmapLocked P virt size m = inr m' /\ as_ok P m' /\ as_vaLimit m' = as_vaLimit m /\
    as_unmaps m' = as_unmaps m ++ [(virt, size)] /\
    forall a, translate (PaContigSplit P) (as_blocks m') a =
      if (virt <=? a) && (a <? virt + size) then None else translate (PaContigSplit P) (as_blocks m) a.
Proof.
  intros Hok Hv Hs Hl Hh. destruct (UnmapLocked_shape virt size m Hok Hv Hs Hl Hh) as (f & r11 & r12 & post & result & Hc & -> & Hcase).
  destruct Hok as [Hb Hlim]. eexists. split; [reflexivity|]. cbn [as_blocks as_vaLimit as_unmaps].
  assert (Hgoal : blocks_ok result /\ forall a, translate (PaContigSplit P) result a =
    if (virt <=? a) && (a <? virt + size) then None else translate (PaContigSplit P) (as_blocks m) a);
    [|destruct Hgoal as [H1 H2]; split; [by split|done]].
  destruct Hcase as [(-> & Hp & Hvp)|[(tl & Ht & Hm & Hcl)|(rest & Hm & Hcl)]].
  - split; [done|]. intros a. destruct (Z.leb_spec virt a), (Z.ltb_spec a (virt + size)); try done. simpl.
    destruct Hc as [-> H1 H2 H3]. unfold translate. rewrite app_assoc.
    change (f :: (r11 ++ r12) ++ post) with ((f :: r11 ++ r12) ++ post).
    rewrite block_at_app, block_at_above, block_at_end by (lia || (eapply Forall_impl; [exact H3|]; simpl; lia)).
    unfold cell. by rewrite Hp.
  - destruct (tail_rest _ _ _ _ _ _ _ _ Hb Hc ltac:(lia) Ht) as [Hph Hr]. split.
    + eapply cleared_ok; try eassumption. unfold mapped_next in Hm. destruct (tl ++ post); [done|]. by split.
    + intros a. rewrite (cleared_view _ virt f r11 _ _ a Hcl) by apply Hc.
      by rewrite (replaced_view _ _ _ _ _ _ _ _ _ _ Hc ltac:(lia) Ht).
  - destruct (merged_rest _ _ _ _ _ _ _ _ Hb Hc ltac:(lia) Hm) as [Hph Hr]. split.
    + by eapply cleared_ok.
    + intros a. rewrite (cleared_view _ virt f r11 _ _ a Hcl) by apply Hc. apply (merged_view _ _ _ _ _ _ _ _ _ Hb Hc ltac:(lia) Hm).
Qed.

(** ** The abstract address space

    What a map promises its users is a partial function from addresses, which mapping and
    unmapping override on a range. *)
Definition address_space : Type := Z -> option (Z * bool).

Definition in_range (virt size a : Z) : bool := (virt <=? a) && (a <? virt + size).

Definition abs_map (virt phys size : Z) (extra : bool) (f : address_space) : address_space := fun a =>
  if in_range virt size a then Some (if PaContigSplit P then phys + (a - virt) else phys, extra) else f a.

Definition abs_unmap (virt size : Z) (f : address_space) : address_space := fun a =>
  if in_range virt size a then None else f a.

Record represents (m : AsMap) (f : address_space) : Prop := mk_represents {
  rp_ok : as_ok P m;
  rp_view : forall a, translate (PaContigSplit P) (as_blocks m) a = f a }.

(** A range the map can hold: above zero and inside the limit. *)
Definition fits (m : AsMap) (virt size : Z) : Prop := 0 < virt /\ 0 < size /\ virt + size <= as_vaLimit m.

(** C3: [MapLocked] refines mapping: on a map that represents an address space, with room for the
    range, it succeeds, and the map then represents the address space overridden on exactly that
    range (contiguously, where the map is contiguous), whatever was mapped there, overlapped or
    split; the limit stays, and the callback is told of the range. *)
Theorem MapLocked_refines virt phys size extra m f :
  represents m f -> fits m virt size -> 0 < phys ->
  exists m', MapLocked P virt phys size extra m = inr m' /\ represents m' (abs_map virt phys size extra f) /\
    as_vaLimit m' = as_vaLimit m /\ as_unmaps m' = as_unmaps m ++ [(virt, size)].
Proof.
  intros [Hok Hf] (Hv & Hs & Hl) Hph. destruct (MapLocked_view virt phys size extra m) as (m' & Hm & Hok' & Hlim & Hun & Hview); [done..|].
  exists m'. split; [done|]. split; [|done]. split; [done|]. intros a. unfold abs_map, in_range. rewrite Hview. by destruct (_ && _).
Qed.

(** C4: [UnmapLocked] refines unmapping: on the ranges it handles it succeeds, and the map then
    represents the address space without exactly that range, with unmapped blocks merged. *)
Theorem UnmapLocked_refines virt size m f :
  represents m f -> fits m virt size -> unmap_handles (as_blocks m) virt (virt + size) ->
  exists m', UnmapLocked P virt size m = inr m' /\ represents m' (abs_unmap virt size f) /\
    as_vaLimit m' = as_vaLimit m /\ as_unmaps m' = as_unmaps m ++ [(virt, size)].
Proof.
  intros [Hok Hf] (Hv & Hs & Hl) Hh. destruct (UnmapLocked_view virt size m) as (m' & Hm & Hok' & Hlim & Hun & Hview); [done..|].
  exists m'. split; [done|]. split; [|done]. split; [done|]. intros a. unfold abs_unmap, in_range. rewrite Hview. by destruct (_ && _).
Qed.

End refine.

(** ** Consequences and limits *)

(** A range in free space can be mapped and unmapped without a trace. *)
Lemma Map_Unmap_roundtrip P virt phys size extra m :
  as_ok P m -> 0 < virt -> 0 < size -> virt + size <= as_vaLimit m -> 0 < phys ->
  (forall a, virt - 1 <= a <= virt + size -> translate (PaContigSplit P) (as_blocks m) a = None) ->
  exists m' m'', MapLocked P virt phys size extra m = inr m' /\ UnmapLocked P virt size m' = inr m'' /\ as_ok P m'' /\
    forall a, translate (PaContigSplit P) (as_blocks m'') a = translate (PaContigSplit P) (as_blocks m) a.
Proof.
  intros Hok Hv Hs Hl Hph Hfree. destruct (MapLocked_view P virt phys size extra m Hok Hv Hs Hl Hph) as (m' & Hm & Hok' & Hlim & _ & Hview).
  assert (Hout : forall a, (virt <=? a) && (a <? virt + size) = false -> translate (PaContigSplit P) (as_blocks m') a = translate (PaContigSplit P) (as_blocks m) a).
  { intros a Ha. by rewrite Hview, Ha. }
  assert (Hh : unmap_handles P (as_blocks m') virt (virt + size)).
  { split.
    - right. rewrite Hout; [apply Hfree; lia|]. destruct (Z.ltb_spec (virt + size) (virt + size)); [lia|]. apply andb_false_r.
    - intros x b Hx Hb _ Hbm. exfalso. pose proof (Hout (virt - 1)) as Ho. unfold translate at 1 in Ho. rewrite Hb in Ho.
      rewrite Hfree in Ho by lia. unfold cell in Ho. rewrite Hbm in Ho.
      discriminate Ho. destruct (Z.leb_spec virt (virt - 1)); [lia|done]. }
  destruct (UnmapLocked_view P virt size m' Hok' Hv Hs ltac:(lia) Hh) as (m'' & Hu & Hok'' & _ & _ & Hview').
  exists m', m''. repeat (split; [done|]). intros a. rewrite Hview'.
  destruct ((virt <=? a) && (a <? virt + size)) eqn:Ea; [|by apply Hout].
  apply andb_true_iff in Ea as [H1 H2]. apply Z.leb_le in H1. apply Z.ltb_lt in H2. symmetry. apply Hfree. lia.
Qed.

Definition example_blocks : list Block :=
  [mk_block 0 0 false; mk_block 0x1000 0x10000 false; mk_block 0x2000 0x20000 false; mk_block 0x3000 0 false].

(** Unmapping the first of two mappings that follow each other does nothing. *)
Lemma Unmap_first_of_two :
  UnmapLocked (mk_as_params 32 true) 0x1000 0x1000 (mk_as_map example_blocks 0xFFFFFFFF []) =
  inr (mk_as_map example_blocks 0xFFFFFFFF [(0x1000, 0x1000)]).
Proof. done. Qed.

(** Unmapping the end of a mapping that nothing follows is refused. *)
Lemma Unmap_end_refused :
  UnmapLocked (mk_as_params 32 true) 0x2800 0x800 (mk_as_map example_blocks 0xFFFFFFFF []) =
  inl (Throw "Multiple contiguous unmapped regions are unsupported!").
Proof. done. Qed.

(** ** The allocator hands out free ranges *)

(** Nothing is allocated from the end of the linear pass on, as long as ranges are only allocated
    by [Allocate]. *)
Record alloc_ok (width : Z) (a : FlatAllocator) : Prop := mk_alloc_ok {
  lo_map : as_ok (allocator_params width) (al_map a);
  lo_start : 0 < al_currentLinearAllocEnd a <= as_vaLimit (al_map a);
  lo_free : forall x, al_currentLinearAllocEnd a <= x -> translate false (as_blocks (al_map a)) x = None }.

(** The gap below the first allocation, which is not meant to be used. *)
Definition first_gap (a : FlatAllocator) : Z :=
  match as_blocks (al_map a) with _ :: s :: _ => b_virt s | _ => 0 end.

Lemma lookup_cut f r x : path f r -> In x r -> exists l X, r = l ++ x :: X /\ Forall (fun b => b_virt b < b_virt x) (f :: l) /\
  Forall (fun b => b_virt x < b_virt b) X.
Proof.
  intros Hp Hx. apply in_split in Hx as (l & X & ->). exists l, X. split; [done|].
  apply path_app in Hp as [Hp1 [[Hlt _] Hp2]]. split; [|by apply path_above].
  revert f Hp1 Hlt. induction l as [|y l IH]; intros f Hp1 Hlt; [by constructor|].
  rewrite end_of_cons in Hlt. destruct Hp1 as [[Hfy _] Hp1]. pose proof (path_end_above _ _ Hp1).
  constructor; [lia|]. by apply IH.
Qed.

Lemma blocks_below_linear width a : alloc_ok width a -> Forall (fun b => b_virt b <= al_currentLinearAllocEnd a) (as_blocks (al_map a)).
Proof.
  intros [[Hb _] Hs Hfree]. destruct (as_blocks (al_map a)) as [|f r]; [done|]. destruct Hb as (Hf & Hun & Hp & _).
  constructor; [lia|]. apply List.Forall_forall. intros x Hx. destruct (lookup_cut f r x Hp Hx) as (l & X & -> & H1 & H2).
  destruct (Z_le_gt_dec (b_virt x) (al_currentLinearAllocEnd a)) as [|Hgt]; [done|]. exfalso.
  pose proof (Hfree (b_virt x) ltac:(lia)) as Hx1. pose proof (Hfree (b_virt x - 1) ltac:(lia)) as Hx2. unfold translate in *.
  rewrite block_at_before in Hx2; [|done|constructor; [lia|eapply Forall_impl; [exact H2|]; simpl; lia]].
  change (f :: l ++ x :: X) with ((f :: l) ++ x :: X) in Hx1. rewrite block_at_app in Hx1. simpl in Hx1.
  rewrite block_at_above in Hx1 by done. rewrite Z.leb_refl in Hx1. unfold cell in *.
  apply path_app in Hp as [_ [[_ [Ha|Ha]] _]]; rewrite Ha in *; done.
Qed.

(** The linear pass takes its end when there is room. *)
Lemma linear_start_ok width size a :
  alloc_ok width a -> 0 < size < 2 ^ width ->
  linear_start width size a =
  ok (if al_currentLinearAllocEnd a + size <=? as_vaLimit (al_map a) then al_currentLinearAllocEnd a else UnmappedVa).
Proof.
  intros Hok Hs. pose proof (blocks_below_linear _ _ Hok) as Hbl. destruct Hok as [[Hb Hlim] Hst Hfree]. simpl in Hlim. unfold linear_start.
  destruct (Z.leb_spec (al_currentLinearAllocEnd a + size) (as_vaLimit (al_map a))) as [Hle|Hgt].
  - rewrite wrap_small by lia. rewrite (proj2 (Z.leb_le _ _)), (proj2 (Z.leb_le _ _)) by lia. cbn [andb].
    destruct (as_blocks (al_map a)) as [|f r]; [done|]. destruct Hb as (Hf & Hun & Hp & _).
    destruct (lower_bound_spec (al_currentLinearAllocEnd a + size) f r Hp ltac:(lia)) as (r1 & post & -> & -> & _).
    destruct (unsnoc_end f r1) as (pre & -> & _). rewrite (proj2 (Z.leb_le _ _)); [done|].
    unfold end_of. rewrite Forall_forall in Hbl. destruct (last r1) as [x|] eqn:El; apply Hbl; [|set_solver].
    apply last_Some in El as [l' ->]. set_solver.
  - destruct (_ && _) eqn:Ec; [|done]. exfalso. apply andb_true_iff in Ec as [H1 H2]. apply Z.leb_le in H1, H2. unfold wrap in *.
    destruct (Z_lt_le_dec (al_currentLinearAllocEnd a + size) (2 ^ width)); [rewrite Z.mod_small in * by lia; lia|].
    rewrite (Z.mod_eq (al_currentLinearAllocEnd a + size)) in H1 by lia.
    assert ((al_currentLinearAllocEnd a + size) / 2 ^ width = 1) by (symmetry; apply Z.div_unique with (r := al_currentLinearAllocEnd a + size - 2 ^ width); lia).
    nia.
Qed.

Lemma search_gap_spec width size f r s :
  path f r -> 0 <= b_virt f -> Forall (fun b => b_virt b < 2 ^ width) r -> search_gap width size f r = Some s ->
  exists l b y X, f :: r = l ++ b :: y :: X /\ b_virt b = s /\ Unmapped b = true /\ s + size <= b_virt y.
Proof.
  revert f. induction r as [|x r IH]; intros f Hp Hf Hw Hs; [done|]. simpl in Hs. destruct Hp as [[Hlt _] Hp].
  inversion Hw as [|? ? Hx Hw']; subst. rewrite wrap_small in Hs by lia.
  destruct ((b_virt x - b_virt f <? size) || Mapped f) eqn:Ec.
  - destruct (IH x) as (l & b & y & X & Hr & Hb); [done|lia|done|done|]. exists (f :: l), b, y, X. by rewrite Hr.
  - injection Hs as <-. apply orb_false_iff in Ec as [H1 H2]. apply Z.ltb_ge in H1. apply negb_false_iff in H2.
    exists [], f, x, r. repeat (split; [done|]). lia.
Qed.

(** A gap between two blocks is free. *)
Lemma gap_free c l b y X a :
  blocks_ok (l ++ b :: y :: X) -> Unmapped b = true -> b_virt b <= a < b_virt y -> translate c (l ++ b :: y :: X) a = None.
Proof.
  intros Hok Hb Ha. assert (Hp : path b (y :: X)).
  { destruct l as [|f l]; simpl in Hok; destruct Hok as (_ & _ & Hp & _); [done|]. by apply path_app in Hp as [_ [_ Hp]]. }
  unfold translate. rewrite block_at_app. cbn [block_at].
  replace (match block_at X a with Some x => Some x | None => if b_virt y <=? a then Some y else None end) with (block_at (y :: X) a) by done.
  rewrite (block_at_above (y :: X)).
  - destruct (Z.leb_spec (b_virt b) a); [|lia]. unfold cell. by rewrite Hb.
  - constructor; [lia|]. destruct Hp as [_ Hp]. eapply Forall_impl; [by apply path_above|]. simpl. lia.
Qed.

(** What [Allocate] promises of the range at [r]: it was free, lies in the address space, and is the
    only thing that changes. *)
Definition allocated (size r : Z) (a a' : FlatAllocator) : Prop :=
  0 < r /\ r + size <= as_vaLimit (al_map a) /\
  (forall x, r <= x < r + size -> translate false (as_blocks (al_map a)) x = None) /\
  forall x, translate false (as_blocks (al_map a')) x =
    if (r <=? x) && (x <? r + size) then Some (1, false) else translate false (as_blocks (al_map a)) x.

Lemma map_free width size r end_ a :
  alloc_ok width a -> 0 < size -> 0 < r -> r + size <= as_vaLimit (al_map a) -> r + size <= end_ -> al_currentLinearAllocEnd a <= end_ <= as_vaLimit (al_map a) ->
  (forall x, r <= x < r + size -> translate false (as_blocks (al_map a)) x = None) ->
  exists m, MapLocked (allocator_params width) r 1 size false (al_map a) = inr m /\
    let a' := mk_allocator m end_ (al_vaStart a) in alloc_ok width a' /\ allocated size r a a'.
Proof.
  intros Hok Hs Hr Hl He Hcur Hfree. destruct Hok as [Hmap Hst Hlin].
  destruct (MapLocked_view (allocator_params width) r 1 size false (al_map a) Hmap Hr Hs Hl ltac:(lia)) as (m & Hm & Hok' & Hlim & _ & Hview).
  exists m. split; [done|]. cbn [allocator_params PaContigSplit] in Hview. split.
  - split; cbn [al_map al_currentLinearAllocEnd]; [done|rewrite Hlim; lia|].
    intros x Hx. rewrite Hview. destruct (Z.ltb_spec x (r + size)); [lia|]. rewrite andb_false_r. apply Hlin. lia.
  - by split.
Qed.

(** While the linear pass has room it gives the next range. *)
Lemma Allocate_linear width size a :
  alloc_ok width a -> 0 < size < 2 ^ width -> al_currentLinearAllocEnd a + size <= as_vaLimit (al_map a) ->
  exists a', Allocate width size a = inr (a', al_currentLinearAllocEnd a) /\ alloc_ok width a' /\
    allocated size (al_currentLinearAllocEnd a) a a'.
Proof.
  intros Hok Hs Hle. unfold Allocate. rewrite linear_start_ok by done. cbn [ok bindM]. pose proof Hok as [[Hb Hlim] Hst Hlin].
  destruct (Z.leb_spec (al_currentLinearAllocEnd a + size) (as_vaLimit (al_map a))); [|lia].
  destruct (Z.eqb_spec (al_currentLinearAllocEnd a) UnmappedVa); [unfold UnmappedVa in *; lia|]. cbn [negb]. simpl in Hlim.
  rewrite wrap_small by lia.
  destruct (map_free width size (al_currentLinearAllocEnd a) (al_currentLinearAllocEnd a + size) a) as (m & Hm & Hok' & Hal); try done; [lia..| |].
  - intros x Hx. apply Hlin. lia.
  - rewrite Hm. by eexists.
Qed.

(** Allocations do not overlap.  While ranges are only handed out by [Allocate] and the gap below
    the first one is too small to be taken, [Allocate] either gives a range that was entirely
    free and inside the address space, marks exactly that range and keeps the allocator well
    formed, or reports a full address space without changing anything; only with fewer than
    three blocks it throws, and it does the latter two only when the linear pass has run out. *)
Theorem Allocate_hands_out_free width size a :
  alloc_ok width a -> 0 < size < 2 ^ width -> first_gap a < size ->
  match Allocate width size a with
  | inr (a', r) =>
      (r <> 0 /\ alloc_ok width a' /\ allocated size r a a') \/
      (r = 0 /\ a' = a /\ as_vaLimit (al_map a) < al_currentLinearAllocEnd a + size)
  | inl f => f = Throw "Unexpected allocator state!" /\ as_vaLimit (al_map a) < al_currentLinearAllocEnd a + size /\
      (length (as_blocks (al_map a)) <= 2)%nat
  end.
Proof.
  intros Hok Hs Hgap.
  destruct (Z.leb_spec (al_currentLinearAllocEnd a + size) (as_vaLimit (al_map a))) as [Hle|Hgt].
  { destruct (Allocate_linear width size a) as (a' & -> & Hok' & Hal); [done..|]. left. destruct Hok as [_ Hst _]. split; [lia|done]. }
  unfold Allocate. rewrite linear_start_ok by done. cbn [ok bindM]. pose proof Hok as [[Hb Hlim] Hst Hlin].
  destruct (Z.leb_spec (al_currentLinearAllocEnd a + size) (as_vaLimit (al_map a))); [lia|].
  - rewrite Z.eqb_refl. cbn [negb]. pose proof (blocks_below_linear _ _ Hok) as Hbl.
    destruct (as_blocks (al_map a)) as [|f [|s1 [|s2 r]]] eqn:Eb;
      [done|split; [done|]; split; [lia|simpl; lia]..|]. cbn [tail].
    destruct (search_gap width size f (s1 :: s2 :: r)) as [s|] eqn:Eg; [|by right].
    pose proof Hb as (Hf & _ & Hp & _). simpl in Hlim. apply search_gap_spec in Eg as (l & b & y & X & Heq & <- & Hun & Hfit); [|done|lia|].
    2: { inversion Hbl as [|? ? _ Hbl']; subst. eapply Forall_impl; [exact Hbl'|]. simpl. lia. }
    assert (Hy : b_virt y <= al_currentLinearAllocEnd a) by (rewrite Heq in Hbl; rewrite Forall_forall in Hbl; apply Hbl; set_solver).
    assert (Hb0 : 0 < b_virt b).
    { destruct l as [|f' l]; simpl in Heq.
      - injection Heq as <- <- _. unfold first_gap in Hgap. rewrite Eb in Hgap. lia.
      - injection Heq as _ Heq. assert (Hin : In b (s1 :: s2 :: r)) by (rewrite Heq; apply in_elt). apply path_above in Hp.
        rewrite List.Forall_forall in Hp. specialize (Hp b Hin). simpl in Hp. lia. }
    destruct (map_free width size (b_virt b) (al_currentLinearAllocEnd a) a) as (m & Hm & Hok' & Hal); try done; [lia..| |].
    + intros x Hx. rewrite Eb, Heq. rewrite Heq in Hb. apply gap_free; [done|done|lia].
    + rewrite Hm. cbn [bindM ok]. left. split; [lia|done].
Qed.

(** Freeing a range the map handles keeps the allocator well formed. *)
Lemma Allocator_Free_ok width virt size a :
  alloc_ok width a -> 0 < virt -> 0 < size -> virt + size <= as_vaLimit (al_map a) ->
  unmap_handles (allocator_params width) (as_blocks (al_map a)) virt (virt + size) ->
  exists a', Allocator_Free width virt size a = inr a' /\ alloc_ok width a' /\
    forall x, translate false (as_blocks (al_map a')) x =
      if (virt <=? x) && (x <? virt + size) then None else translate false (as_blocks (al_map a)) x.
Proof.
  intros [Hmap Hst Hlin] Hv Hs Hl Hh.
  destruct (UnmapLocked_view (allocator_params width) virt size (al_map a) Hmap Hv Hs Hl Hh) as (m & Hm & Hok & Hlim & _ & Hview).
  unfold Allocator_Free. rewrite Hm. eexists. split; [reflexivity|]. cbn [allocator_params PaContigSplit] in Hview.
  split; [|done]. split; cbn [al_map al_currentLinearAllocEnd]; [done|by rewrite Hlim|].
  intros x Hx. rewrite Hview. destruct (_ && _); [done|]. by apply Hlin.
Qed.

Definition example_allocator : FlatAllocator := mk_allocator (mk_as_map [mk_block 0 0 false] 0x10000 []) 0x1000 0x1000.

(** Behind a fixed allocation the linear pass hands the allocated range out again. *)
Lemma Allocate_overlaps_fixed :
  (let! a := AllocateFixed 32 0x2000 0x1000 example_allocator in let! (_, r) := Allocate 32 0x2000 a in ok r) = inr 0x2000.
Proof. done. Qed.

(** Freeing the first of two allocations does nothing. *)
Lemma Free_first_leaks :
  (let! (a, r) := Allocate 32 0x1000 example_allocator in let! (a, _) := Allocate 32 0x1000 a in
   let! a' := Allocator_Free 32 r 0x1000 a in ok (bool_decide (as_blocks (al_map a') = as_blocks (al_map a)))) = inr true.
Proof. done. Qed.

(** Once the linear pass has run out, a small allocation is placed at zero, below the start of the
    allocator, and the map walks before its first block. *)
Lemma Allocate_below_start :
  (let! (a, _) := Allocate 32 0x8000 example_allocator in let! (a, _) := Allocate 32 0x7000 a in
   let! (_, r) := Allocate 32 0x800 a in ok r) = inl (Undefined "before the first block").
Proof. done. Qed.

(** ** Witnesses *)

Definition example_params : AsParams := mk_as_params 32 true.
Definition example_map : AsMap := mk_as_map example_blocks 0xFFFFFFFF [].

Lemma example_map_ok : as_ok example_params example_map.
Proof.
  assert (Hadj : forall x y, b_virt x < b_virt y -> Mapped x || Mapped y = true -> adj x y).
  { intros x y Hv Hm. split; [done|]. apply orb_true_iff in Hm as [Hm|Hm]; apply negb_true_iff in Hm; auto. }
  split; [|simpl; lia]. split; [done|]. split; [done|]. split.
  - repeat (split; [apply Hadj; [simpl; lia|done]|]). done.
  - split; [done|]. repeat (constructor; [simpl; lia|]). constructor.
Qed.

Lemma example_represents : represents example_params example_map (translate true example_blocks).
Proof. split; [exact example_map_ok|done]. Qed.

Lemma MapLocked_refines_witness :
  exists m', MapLocked example_params 0x1800 0x90000 0x1000 true example_map = inr m' /\ as_ok example_params m' /\
    translate true (as_blocks m') 0x1FFF = Some (0x907FF, true) /\ translate true (as_blocks m') 0x2800 = Some (0x20800, false).
Proof.
  destruct (MapLocked_refines example_params 0x1800 0x90000 0x1000 true example_map _ example_represents) as (m' & H1 & [H2 H3] & _);
    [repeat split; simpl; lia|lia|].
  exists m'. split; [exact H1|]. split; [exact H2|]. split; [exact (H3 0x1FFF)|exact (H3 0x2800)].
Defined.

Lemma UnmapLocked_refines_witness :
  exists m', UnmapLocked example_params 0x2000 0x1000 example_map = inr m' /\ as_ok example_params m' /\
    translate true (as_blocks m') 0x2800 = None /\ translate true (as_blocks m') 0x1800 = Some (0x10800, false).
Proof.
  destruct (UnmapLocked_refines example_params 0x2000 0x1000 example_map _ example_represents) as (m' & H1 & [H2 H3] & _);
    [repeat split; simpl; lia| |].
  - split; [left; discriminate|]. intros x b Hx Hb Hb' _. exfalso. simpl in Hb. injection Hb as <-. cbn [as_blocks example_map example_blocks block_at b_virt] in Hb'.
    destruct (Z.leb_spec 0x3000 (x - 1)); [discriminate Hb'|]. destruct (Z.leb_spec 0x2000 (x - 1)); [discriminate Hb'|lia].
  - exists m'. split; [exact H1|]. split; [exact H2|]. split; [exact (H3 0x2800)|exact (H3 0x1800)].
Defined.

Lemma Allocate_hands_out_free_witness :
  alloc_ok 32 example_allocator /\ exists a', Allocate 32 0x2000 example_allocator = inr (a', 0x1000) /\ allocated 0x2000 0x1000 example_allocator a'.
Proof.
  assert (Hok : alloc_ok 32 example_allocator).
  { split; simpl; [|lia|].
    - split; simpl; [|lia]. repeat split; try done. constructor; [done|constructor].
    - intros x Hx. unfold translate. simpl. by destruct (0 <=? x). }
  split; [exact Hok|]. pose proof (Allocate_hands_out_free 32 0x2000 example_allocator Hok ltac:(lia) eq_refl) as H.
  destruct (Allocate 32 0x2000 example_allocator) as [f|[a' r]] eqn:E; [discriminate E|].
  assert (r = 0x1000) as -> by (vm_compute in E; by injection E as <- <-).
  exists a'. split; [done|]. destruct H as [(_ & _ & H)|[H _]]; [exact H|discriminate H].
Defined.
