(* ===== verification/FlatMemory.v ===== *)
(** * The flat memory manager ([FlatMemoryManager] of [common/address_space.{h,inc}])

    The memory managers of the GPU and the SoC: a contiguous address space map over host pointers,
    with reads, writes and copies that go block by block.  Host memory is a function from addresses
    to bytes.  A sparse block reads as zeroes and ignores writes.  The functions look at the block
    behind the current one for its size, which is undefined for the last block. *)

From S2P Require Import Prelude AddressSpace.

Definition host_ram : Type := Z -> Z.

Definition SparseMapSize : Z := 0x400000000.

(** [memcpy] to host memory. *)
Definition write_list (p : Z) (l : list Z) (ram : host_ram) : host_ram :=
  fun x => if (p <=? x) && (x <? p + Z.of_nat (length l)) then default 0 (l !! Z.to_nat (x - p)) else ram x.

Section manager.
Context (width : Z).

(** The loop over the blocks of a range: [body] gets the block, the pointer and the size of the
    part of the range in it. *)
Fixpoint each_block {S : Type} (body : Block -> Z -> Z -> S -> M S) (pred : Block) (succs : list Block) (virt size : Z) (s : S) : M S :=
  match succs with
  | [] => fail (Undefined "past the last block")
  | succ :: rest =>
      let n := Z.min (wrap width (b_virt succ - virt)) size in
      if size =? 0 then ok s
      else
        let! s := body pred (b_phys pred + (virt - b_virt pred)) n s in
        if size - n =? 0 then ok s else each_block body succ rest (b_virt succ) (size - n) s
  end.

(** The start of every function: the block of [virt] and those behind it. *)
Definition from_block {S : Type} (body : Block -> Z -> Z -> S -> M S) (blocks : list Block) (virt size : Z) (s : S) : M S :=
  let (pre, succs) := upper_bound_virt virt blocks in
  match unsnoc pre with
  | None => fail (Undefined "before the first block")
  | Some (_, pred) => each_block body pred succs virt size s
  end.

Definition TranslateRange (sparseMap : Z) (blocks : list Block) (virt size : Z) : M (list (Z * Z)) :=
  from_block (fun b phys n ranges =>
    if b_extra b then
      if SparseMapSize <? n then fail (Throw "Size of the sparse map is too small") else ok (ranges ++ [(sparseMap, n)])
    else ok (ranges ++ [(phys, n)])) blocks virt size [].

(** The bytes read. *)
Definition Mm_Read (blocks : list Block) (ram : host_ram) (virt size : Z) : M (list Z) :=
  from_block (fun b phys n destination =>
    if b_phys b =? 0 then fail (Throw "Page fault")
    else if b_extra b then ok (destination ++ replicate (Z.to_nat n) 0)
    else ok (destination ++ (ram <$> seqZ phys n))) blocks virt size [].

(** The memory after the write, with what is left of the source. *)
Definition Mm_Write (blocks : list Block) (virt : Z) (source : list Z) (ram : host_ram) : M host_ram :=
  let! (ram, _) := from_block (fun b phys n '(ram, source) =>
    if b_phys b =? 0 then fail (Throw "Page fault")
    else if b_extra b then ok (ram, drop (Z.to_nat n) source)
    else ok (write_list phys (take (Z.to_nat n) source) ram, drop (Z.to_nat n) source)) blocks virt (Z.of_nat (length source)) (ram, source) in
  ok ram.

(** One side of a copy: the block, the blocks behind it, the pointer and what is left of the block. *)
Record Cursor : Type := mk_cursor {
  cu_block : Block;
  cu_succs : list Block;
  cu_phys : Z;
  cu_remaining : Z }.

Definition cursor_at (blocks : list Block) (virt : Z) : M Cursor :=
  let (pre, succs) := upper_bound_virt virt blocks in
  match unsnoc pre, succs with
  | None, _ => fail (Undefined "before the first block")
  | _, [] => fail (Undefined "past the last block")
  | Some (_, pred), succ :: _ => ok (mk_cursor pred succs (b_phys pred + (virt - b_virt pred)) (wrap width (b_virt succ - virt)))
  end.

(** Moving on when a block is used up. *)
Definition cursor_next (c : Cursor) : M Cursor :=
  if cu_remaining c =? 0 then
    match cu_succs c with
    | pred :: (succ :: _) as succs => ok (mk_cursor pred (tail (cu_succs c)) (b_phys pred) (wrap width (b_virt succ - b_virt pred)))
    | _ => fail (Undefined "past the last block")
    end
  else ok c.

Definition cursor_advance (n : Z) (c : Cursor) : Cursor :=
  mk_cursor (cu_block c) (cu_succs c) (cu_phys c + n) (cu_remaining c - n).

Fixpoint copy_loop (fuel : nat) (src dst : Cursor) (size : Z) (ram : host_ram) : M host_ram :=
  match fuel with
  | O => fail (Suspended "copy")
  | S fuel =>
      if size =? 0 then ok ram
      else
        let n := Z.min (Z.min (cu_remaining src) (cu_remaining dst)) size in
        if b_phys (cu_block src) =? 0 then fail (Throw "Page fault")
        else if b_phys (cu_block dst) =? 0 then fail (Throw "Page fault")
        else
          let ram :=
            if b_extra (cu_block src) then write_list (cu_phys dst) (replicate (Z.to_nat n) 0) ram
            else write_list (cu_phys dst) (ram <$> seqZ (cu_phys src) n) ram in
          let size := size - n in
          if size =? 0 then ok ram
          else
            let! src := cursor_next (cursor_advance n src) in
            let! dst := cursor_next (cursor_advance n dst) in
            copy_loop fuel src dst size ram
  end.

(** Every step uses up a block of one of the sides or ends the copy. *)
Definition Mm_Copy (blocks : list Block) (dst src size : Z) (ram : host_ram) : M host_ram :=
  let! src := cursor_at blocks src in
  let! dst := cursor_at blocks dst in
  copy_loop (S (2 * length blocks)) src dst size ram.

End manager.

(** ** Ranges *)

(** The byte an address reads as. *)
Definition byte_at (blocks : list Block) (ram : host_ram) (a : Z) : Z :=
  match translate true blocks a with
  | Some (p, false) => ram p
  | _ => 0
  end.

Lemma seqZ_ext {B} (f g : Z -> B) a b n : (forall i, 0 <= i < n -> f (a + i) = g (b + i)) -> f <$> seqZ a n = g <$> seqZ b n.
Proof.
  intros Hf. unfold seqZ. rewrite <- !list_fmap_compose. apply list_fmap_ext. intros i x Hx. simpl.
  apply lookup_seq in Hx as [-> Hi]. replace (Z.of_nat (0 + i) + a) with (a + Z.of_nat i) by lia.
  replace (Z.of_nat (0 + i) + b) with (b + Z.of_nat i) by lia. apply Hf. lia.
Qed.

Section loops.
Context (width : Z).

Lemma translate_from pre b l a : b_virt b <= a -> translate true (pre ++ b :: l) a = translate true (b :: l) a.
Proof.
  intros Hb. unfold translate. rewrite block_at_app. destruct (block_at_some b l a Hb) as [x Hx]. by rewrite Hx.
Qed.

Lemma translate_first b s l a : path b (s :: l) -> b_virt b <= a < b_virt s -> translate true (b :: s :: l) a = cell true b a.
Proof.
  intros Hp Ha. unfold translate. change (b :: s :: l) with ([b] ++ s :: l). rewrite block_at_app, block_at_above.
  - simpl. by destruct (Z.leb_spec (b_virt b) a); [|lia].
  - constructor; [lia|]. destruct Hp as [_ Hp]. eapply Forall_impl; [by apply path_above|]. simpl. lia.
Qed.

(** Reasoning about the loop over a mapped range: an invariant on the address reached that each
    part of a block extends. *)
Lemma each_block_inv {S : Type} (body : Block -> Z -> Z -> S -> M S) (T : Z -> option (Z * bool)) (I : Z -> S -> Prop) first last_ :
  (forall b v n s, I v s -> first <= v -> 0 < n -> v + n <= last_ -> Unmapped b = false -> b_virt b <= v ->
    (forall a, v <= a < v + n -> T a = cell true b a) ->
    exists s', body b (b_phys b + (v - b_virt b)) n s = inr s' /\ I (v + n) s') ->
  forall succs pred virt s,
  path pred succs -> Unmapped (end_of pred succs) = true -> Forall (fun b => b_virt b < 2 ^ width) succs -> 0 <= virt ->
  b_virt pred <= virt < last_ -> first <= virt -> match succs with [] => True | x :: _ => virt < b_virt x end ->
  (forall a, b_virt pred <= a -> T a = translate true (pred :: succs) a) -> (forall a, virt <= a < last_ -> T a <> None) ->
  I virt s -> exists s', each_block width body pred succs virt (last_ - virt) s = inr s' /\ I last_ s'.
Proof.
  intros Hbody. induction succs as [|x succs IH]; intros pred virt s Hp Hend Hw Hv Hpv Hf Hx HT Hm HI.
  - exfalso. apply (Hm virt); [lia|]. rewrite HT by lia. unfold translate. simpl.
    destruct (Z.leb_spec (b_virt pred) virt); [|lia]. unfold cell. unfold end_of in Hend. simpl in Hend. by rewrite Hend.
  - cbn [each_block]. inversion Hw as [|? ? Hxw Hw']; subst. rewrite wrap_small by lia.
    set (n := Z.min (b_virt x - virt) (last_ - virt)). destruct (Z.eqb_spec (last_ - virt) 0); [lia|].
    assert (Hcell : forall a, virt <= a < virt + n -> T a = cell true pred a).
    { intros a Ha. rewrite HT by lia. apply translate_first; [done|lia]. }
    assert (Hum : Unmapped pred = false).
    { pose proof (Hm virt ltac:(lia)) as Hmv. rewrite Hcell in Hmv by lia. unfold cell in Hmv. by destruct (Unmapped pred). }
    destruct (Hbody pred virt n s) as (s' & -> & HI'); try done; [lia..|]. cbn [bindM].
    destruct (Z.eqb_spec (last_ - virt - n) 0).
    + exists s'. split; [done|]. by replace last_ with (virt + n) by lia.
    + assert (Hn : n = b_virt x - virt) by lia. destruct Hp as [[Hlt _] Hp]. rewrite end_of_cons in Hend.
      replace (last_ - virt - n) with (last_ - b_virt x) by lia. apply IH; try done; try lia.
      * destruct succs as [|y succs]; [done|]. by destruct Hp as [[? _] _].
      * intros a Ha. rewrite HT by lia. by apply (translate_from [pred]).
      * intros a Ha. apply Hm. lia.
      * by replace (b_virt x) with (virt + n) by lia.
Qed.

Lemma from_block_inv {S : Type} (body : Block -> Z -> Z -> S -> M S) (I : Z -> S -> Prop) blocks virt size s :
  blocks_ok blocks -> Forall (fun b => b_virt b < 2 ^ width) blocks -> 0 <= virt -> 0 < size ->
  (forall a, virt <= a < virt + size -> translate true blocks a <> None) ->
  (forall b v n s, I v s -> virt <= v -> 0 < n -> v + n <= virt + size -> Unmapped b = false -> b_virt b <= v ->
    (forall a, v <= a < v + n -> translate true blocks a = cell true b a) ->
    exists s', body b (b_phys b + (v - b_virt b)) n s = inr s' /\ I (v + n) s') ->
  I virt s -> exists s', from_block width body blocks virt size s = inr s' /\ I (virt + size) s'.
Proof.
  intros Hok Hw Hv Hs Hm Hbody HI. destruct blocks as [|f r]; [done|]. destruct Hok as (Hf & Hun & Hp & Hend & _).
  unfold from_block. replace (upper_bound_virt virt (f :: r)) with (lower_bound (virt + 1) (f :: r)).
  2: { apply split_at_ext. intros b. destruct (Z.leb_spec (virt + 1) (b_virt b)), (Z.ltb_spec virt (b_virt b)); done || lia. }
  destruct (lower_bound_spec (virt + 1) f r Hp ltac:(lia)) as (r1 & r2 & -> & -> & Hlt & Hge).
  apply path_app in Hp as [Hp1 Hp2]. rewrite end_of_app in Hend. pose proof (end_below _ _ _ Hlt) as Hpred.
  assert (Hsplit : exists pre, f :: r1 ++ r2 = pre ++ end_of f r1 :: r2).
  { destruct (last r1) as [x|] eqn:El; [|apply last_None in El as ->; by exists []].
    apply last_Some in El as [l ->]. rewrite end_of_snoc. exists (f :: l). by rewrite <- app_assoc. }
  destruct Hsplit as [pre Hpre]. destruct (unsnoc_end f r1) as (pre' & -> & _).
  assert (Hw2 : Forall (fun b => b_virt b < 2 ^ width) r2).
  { inversion Hw as [|? ? _ Hw']; subst. by apply Forall_app in Hw' as [_ ?]. }
  destruct (each_block_inv body (translate true (f :: r1 ++ r2)) I virt (virt + size) Hbody r2 (end_of f r1) virt s)
    as (s' & He & HI'); try done; try lia.
  - destruct r2; [done|]. inversion Hge. lia.
  - intros a Ha. rewrite Hpre. by apply translate_from.
  - exists s'. split; [|done]. by replace size with (virt + size - virt) at 1 by lia.
Qed.
(** The blocks start inside the width of an address. *)
Definition blocks_fit (blocks : list Block) : Prop := Forall (fun b => b_virt b < 2 ^ width) blocks.

Lemma byte_at_cell blocks ram b a :
  translate true blocks a = cell true b a -> Unmapped b = false ->
  byte_at blocks ram a = if b_extra b then 0 else ram (b_phys b + (a - b_virt b)).
Proof. intros Ht Hb. unfold byte_at. rewrite Ht. unfold cell. rewrite Hb. by destruct (b_extra b). Qed.

Lemma Read_gathers_mapped blocks ram virt size :
  blocks_ok blocks -> blocks_fit blocks -> 0 <= virt -> 0 < size ->
  (forall a, virt <= a < virt + size -> translate true blocks a <> None) ->
  Mm_Read width blocks ram virt size = inr (byte_at blocks ram <$> seqZ virt size).
Proof.
  intros Hok Hw Hv Hs Hm. unfold Mm_Read. set (body := fun b phys n destination => _).
  destruct (from_block_inv body (fun v (l : list Z) => virt <= v /\ l = byte_at blocks ram <$> seqZ virt (v - virt)) blocks virt size [])
    as (l & -> & _ & ->); try done.
  - intros b v n l [Hvv ->] _ Hn Hle Hb Hbv Hcell. unfold body. unfold Unmapped, UnmappedPa in Hb. rewrite Hb.
    exists (byte_at blocks ram <$> seqZ virt (v + n - virt)). split; [|split; [lia|done]].
    replace (v + n - virt) with ((v - virt) + n) by lia. rewrite seqZ_app, fmap_app by lia. replace (virt + (v - virt)) with v by lia.
    destruct (b_extra b) eqn:Ex; unfold ok; do 2 f_equal.
    + rewrite (seqZ_ext (byte_at blocks ram) (fun _ => 0) v v n).
      * rewrite const_fmap with (y := 0) by done. by rewrite length_seqZ.
      * intros i Hi. rewrite (byte_at_cell blocks ram b) by (done || apply Hcell; lia). by rewrite Ex.
    + apply seqZ_ext. intros i Hi. rewrite (byte_at_cell blocks ram b) by (done || apply Hcell; lia). rewrite Ex. f_equal. lia.
  - by rewrite Z.sub_diag.
  - by replace (virt + size - virt) with size by lia.
Qed.

(** Writing a range without sparse blocks whose addresses go to different places. *)
Lemma Write_spec blocks ram virt source phys :
  blocks_ok blocks -> blocks_fit blocks -> 0 <= virt -> source <> [] ->
  (forall a, virt <= a < virt + Z.of_nat (length source) -> translate true blocks a = Some (phys a, false)) ->
  (forall a a', virt <= a < virt + Z.of_nat (length source) -> virt <= a' < virt + Z.of_nat (length source) -> phys a = phys a' -> a = a') ->
  exists ram', Mm_Write width blocks virt source ram = inr ram' /\
    (forall a, virt <= a < virt + Z.of_nat (length source) -> ram' (phys a) = default 0 (source !! Z.to_nat (a - virt))) /\
    forall x, (forall a, virt <= a < virt + Z.of_nat (length source) -> phys a <> x) -> ram' x = ram x.
Proof.
  intros Hok Hw Hv Hne Ht Hinj. set (size := Z.of_nat (length source)) in *.
  assert (Hsize : 0 < size) by (destruct source; [done|simpl in *; lia]).
  unfold Mm_Write. fold size. set (body := fun b p n '(ram, source) => _).
  destruct (from_block_inv body (fun v '(ram', l) => virt <= v /\ l = drop (Z.to_nat (v - virt)) source /\
    (forall a, virt <= a < v -> ram' (phys a) = default 0 (source !! Z.to_nat (a - virt))) /\
    forall x, (forall a, virt <= a < v -> phys a <> x) -> ram' x = ram x) blocks virt size (ram, source)) as ([ram' l] & -> & _ & _ & H1 & H2); try done.
  - intros a Ha. by rewrite Ht.
  - intros b v n [ram0 l] (Hvv & -> & H1 & H2) _ Hn Hle Hb Hbv Hcell. unfold body. unfold Unmapped, UnmappedPa in Hb. rewrite Hb.
    assert (Hphys : forall a, v <= a < v + n -> b_extra b = false /\ phys a = b_phys b + (a - b_virt b)).
    { intros a Ha. pose proof (Hcell a Ha) as Hc. rewrite Ht in Hc by lia. unfold cell, Unmapped, UnmappedPa in Hc.
      rewrite Hb in Hc. by injection Hc as -> ->. }
    rewrite (proj1 (Hphys v ltac:(lia))). eexists. split; [reflexivity|]. split; [lia|]. split.
    { rewrite drop_drop. f_equal. lia. }
    assert (Hlen : Z.of_nat (length (take (Z.to_nat n) (drop (Z.to_nat (v - virt)) source))) = n).
    { rewrite length_take, length_drop. unfold size in *. lia. }
    split.
    + intros a Ha. unfold write_list. rewrite Hlen. destruct (Z_lt_le_dec a v).
      * destruct ((_ <=? _) && _) eqn:Ec; [|apply H1; lia]. exfalso. apply andb_true_iff in Ec as [Hc1 Hc2].
        apply Z.leb_le in Hc1. apply Z.ltb_lt in Hc2.
        set (a' := v + (phys a - (b_phys b + (v - b_virt b)))). assert (Ha' : v <= a' < v + n) by lia.
        assert (a = a') by (apply Hinj; [lia|lia|]; rewrite (proj2 (Hphys a' Ha')); lia). lia.
      * rewrite (proj2 (Hphys a ltac:(lia))). rewrite (proj2 (Z.leb_le _ _)), (proj2 (Z.ltb_lt _ _)) by lia. cbn [andb].
        rewrite lookup_take_lt by lia. rewrite lookup_drop. do 2 f_equal. lia.
    + intros x Hx. unfold write_list. rewrite Hlen. destruct ((_ <=? _) && _) eqn:Ec; [|apply H2; intros a Ha; apply Hx; lia].
      exfalso. apply andb_true_iff in Ec as [Hc1 Hc2]. apply Z.leb_le in Hc1. apply Z.ltb_lt in Hc2.
      set (a' := v + (x - (b_phys b + (v - b_virt b)))). assert (Ha' : v <= a' < v + n) by lia.
      apply (Hx a'); [lia|]. rewrite (proj2 (Hphys a' Ha')). lia.
  - split; [lia|]. split; [by rewrite Z.sub_diag|]. split; [lia|done].
  - exists ram'. done.
Qed.

(** What is written through the map is read back.  For a range of mapped, not sparse addresses that
    go to different places, however many blocks it crosses, [Write] succeeds, a [Read] of the
    same range gives the bytes written, and no other host memory changes. *)
Theorem Write_Read_roundtrip blocks ram virt source phys :
  blocks_ok blocks -> blocks_fit blocks -> 0 <= virt -> source <> [] ->
  (forall a, virt <= a < virt + Z.of_nat (length source) -> translate true blocks a = Some (phys a, false)) ->
  (forall a a', virt <= a < virt + Z.of_nat (length source) -> virt <= a' < virt + Z.of_nat (length source) -> phys a = phys a' -> a = a') ->
  exists ram', Mm_Write width blocks virt source ram = inr ram' /\
    Mm_Read width blocks ram' virt (Z.of_nat (length source)) = inr source /\
    forall x, (forall a, virt <= a < virt + Z.of_nat (length source) -> phys a <> x) -> ram' x = ram x.
Proof.
  intros Hok Hw Hv Hne Ht Hinj. destruct (Write_spec blocks ram virt source phys Hok Hw Hv Hne Ht Hinj) as (ram' & Hwr & H1 & H2).
  exists ram'. split; [done|]. split; [|done]. rewrite Read_gathers_mapped; try done.
  - f_equal. apply list_eq. intros i. rewrite list_lookup_fmap. destruct (decide (i < length source)%nat) as [Hi|Hi].
    + rewrite lookup_seqZ_lt by lia. simpl. unfold byte_at. rewrite Ht by lia. rewrite H1 by lia.
      replace (Z.to_nat (virt + Z.of_nat i - virt)) with i by lia. apply lookup_lt_is_Some_2 in Hi as [x Hx]. by rewrite Hx.
    + rewrite lookup_seqZ_ge by lia. symmetry. apply lookup_ge_None_2. lia.
  - destruct source; [done|]. simpl. lia.
  - intros a Ha. by rewrite Ht.
Qed.

(** A loop whose body fails on unmapped blocks fails on a range that is not all mapped. *)
Lemma each_block_fails {S : Type} (body : Block -> Z -> Z -> S -> M S) :
  (forall b p n s, Unmapped b = true -> is_ok (body b p n s) = false) ->
  forall succs pred virt size s, path pred succs -> Forall (fun b => b_virt b < 2 ^ width) succs -> 0 <= virt -> 0 < size ->
  b_virt pred <= virt -> match succs with [] => True | x :: _ => virt < b_virt x end ->
  (exists a, virt <= a < virt + size /\ translate true (pred :: succs) a = None) ->
  is_ok (each_block width body pred succs virt size s) = false.
Proof.
  intros Hbody. induction succs as [|x succs IH]; intros pred virt size s Hp Hw Hv Hs Hpv Hx (a & Ha & Hu); [done|].
  cbn [each_block]. inversion Hw as [|? ? Hxw Hw']; subst. rewrite wrap_small by lia. destruct (Z.eqb_spec size 0); [lia|].
  destruct (Unmapped pred) eqn:Eu.
  - pose proof (Hbody pred (b_phys pred + (virt - b_virt pred)) (Z.min (b_virt x - virt) size) s Eu) as Hb. by destruct (body _ _ _ _).
  - assert (Hxa : b_virt x <= a).
    { destruct (Z_lt_le_dec a (b_virt x)); [|done]. rewrite translate_first in Hu by (done || lia). unfold cell in Hu. by rewrite Eu in Hu. }
    destruct (body _ _ _ _) as [f|s']; [done|]. cbn [bindM]. destruct (Z.eqb_spec (size - Z.min (b_virt x - virt) size) 0); [lia|].
    destruct Hp as [[Hlt _] Hp]. apply IH; try done; try lia.
    + destruct succs as [|y succs]; [done|]. by destruct Hp as [[? _] _].
    + exists a. split; [lia|]. by rewrite <- (translate_from [pred]).
Qed.

(** When any address of the range is unmapped, [Read] does not succeed: it stops with the page fault
    or, at the last block, which is unmapped to the end of the space, by walking past it.  What it
    has copied up to there stays in the buffer of its caller. *)
Theorem Read_refuses_unmapped blocks ram virt size a :
  blocks_ok blocks -> blocks_fit blocks -> 0 <= virt -> virt <= a < virt + size -> translate true blocks a = None ->
  is_ok (Mm_Read width blocks ram virt size) = false.
Proof.
  intros Hok Hw Hv Ha Hu. destruct blocks as [|f r]; [done|]. destruct Hok as (Hf & _ & Hp & _). unfold Mm_Read, from_block.
  replace (upper_bound_virt virt (f :: r)) with (lower_bound (virt + 1) (f :: r)).
  2: { apply split_at_ext. intros b. destruct (Z.leb_spec (virt + 1) (b_virt b)), (Z.ltb_spec virt (b_virt b)); done || lia. }
  destruct (lower_bound_spec (virt + 1) f r Hp ltac:(lia)) as (r1 & r2 & -> & -> & Hlt & Hge).
  apply path_app in Hp as [Hp1 Hp2]. pose proof (end_below _ _ _ Hlt) as Hpred. destruct (unsnoc_end f r1) as (pre' & -> & _).
  apply each_block_fails; try done; try lia.
  - intros b p n s Hb. unfold Unmapped, UnmappedPa in Hb. by rewrite Hb.
  - inversion Hw as [|? ? _ Hw']; subst. by apply Forall_app in Hw' as [_ ?].
  - destruct r2; [done|]. inversion Hge. lia.
  - exists a. split; [done|]. destruct (last r1) as [x|] eqn:El.
    + apply last_Some in El as [l ->]. rewrite end_of_snoc in *. rewrite <- app_assoc in Hu. simpl in Hu.
      change (f :: l ++ x :: r2) with ((f :: l) ++ x :: r2) in Hu. by rewrite translate_from in Hu by lia.
    + by apply last_None in El as ->.
Qed.

(** A copy comes to an end: each round uses up a block. *)
Lemma copy_loop_terminates fuel src dst size ram :
  (length (cu_succs src) + length (cu_succs dst) < fuel)%nat -> terminates (copy_loop width fuel src dst size ram).
Proof.
  revert src dst size ram. induction fuel as [|fuel IH]; intros src dst size ram Hf; [lia|]. cbn [copy_loop].
  destruct (_ =? 0); [exact I|]. destruct (_ =? 0); [exact I|]. destruct (_ =? 0); [exact I|].
  set (n := Z.min _ _). destruct (Z.eqb_spec (size - n) 0); [exact I|].
  assert (Hnext : forall c, terminates (cursor_next width c)).
  { intros c. unfold cursor_next. destruct (_ =? 0); [|exact I]. destruct (cu_succs c) as [|? [|]]; exact I. }
  assert (Hlen : forall c c', cursor_next width c = inr c' ->
    (length (cu_succs c') <= length (cu_succs c) /\ ((cu_remaining c = 0)%Z -> length (cu_succs c') < length (cu_succs c)))%nat).
  { intros c c' Hc. unfold cursor_next in Hc. destruct (Z.eqb_spec (cu_remaining c) 0).
    - destruct (cu_succs c) as [|x [|y l]] eqn:Ec; [done..|]. injection Hc as <-. simpl. lia.
    - injection Hc as <-. split; lia. }
  apply terminates_bind; [apply Hnext|]. intros src' Es. apply terminates_bind; [apply Hnext|]. intros dst' Ed.
  apply Hlen in Es as [Hs1 Hs2], Ed as [Hd1 Hd2]. apply IH. simpl in *.
  destruct (Z.eq_dec (cu_remaining src - n) 0) as [H0|H0]; [specialize (Hs2 H0); lia|].
  specialize (Hd2 ltac:(lia)). lia.
Qed.

Lemma Mm_Copy_terminates blocks dst src size ram : terminates (Mm_Copy width blocks dst src size ram).
Proof.
  assert (Hc : forall v c, cursor_at width blocks v = inr c -> (length (cu_succs c) <= length blocks)%nat).
  { intros v c Hc. unfold cursor_at in Hc. destruct (upper_bound_virt v blocks) as [pre succs] eqn:Eu.
    apply split_at_app in Eu as ->. destruct (unsnoc pre) as [[]|]; [|done]. destruct succs; [done|]. injection Hc as <-.
    rewrite length_app. simpl. lia. }
  assert (Ht : forall v, terminates (cursor_at width blocks v)).
  { intros v. unfold cursor_at. destruct (upper_bound_virt v blocks) as [pre [|]]; destruct (unsnoc pre) as [[]|]; exact I. }
  apply terminates_bind; [apply Ht|]. intros c1 H1. apply terminates_bind; [apply Ht|]. intros c2 H2.
  apply copy_loop_terminates. apply Hc in H1, H2. lia.
Qed.

(** ** Copies *)

(** A cursor that stands at [v]; at the end of its block if [v] is the start of the next one. *)
Record cursor_ok (blocks : list Block) (v : Z) (c : Cursor) : Prop := mk_cursor_ok {
  cu_split : exists pre, blocks = pre ++ cu_block c :: cu_succs c;
  cu_start : b_virt (cu_block c) <= v;
  cu_pointer : cu_phys c = b_phys (cu_block c) + (v - b_virt (cu_block c));
  cu_end : exists x rest, cu_succs c = x :: rest /\ v <= b_virt x /\ cu_remaining c = b_virt x - v }.

Lemma blocks_ok_split f r pre b succs :
  blocks_ok (f :: r) -> f :: r = pre ++ b :: succs -> 0 <= b_virt b /\ path b succs /\ Unmapped (end_of b succs) = true.
Proof.
  intros (Hf & _ & Hp & Hend & _) E. destruct pre as [|f' pre].
  - injection E as -> ->. split; [lia|]. by split.
  - injection E as -> ->. apply path_app in Hp as [Hp1 Hp2]. rewrite end_of_app, end_of_cons in Hend. cbn [path] in Hp2. destruct Hp2 as [[Hlt _] Hp2].
    split; [|by split]. pose proof (path_above _ _ Hp1) as Ha. destruct (last pre) as [x|] eqn:El.
    + apply last_Some in El as [l ->]. rewrite end_of_snoc in Hlt. apply Forall_app in Ha as [_ Ha]. inversion Ha; subst. lia.
    + apply last_None in El as ->. unfold end_of in Hlt. simpl in Hlt. lia.
Qed.

Lemma cursor_cell blocks v c a :
  blocks_ok blocks -> cursor_ok blocks v c -> v <= a < v + cu_remaining c -> translate true blocks a = cell true (cu_block c) a.
Proof.
  intros Hok [[pre E] Hs _ (x & rest & Ex & _ & Hr)] Ha. destruct blocks as [|f r]; [done|].
  destruct (blocks_ok_split f r pre _ _ Hok E) as (_ & Hp & _). rewrite E, translate_from, Ex by lia. rewrite Ex in Hp. apply translate_first; [done|lia].
Qed.

Lemma cursor_at_ok blocks v :
  blocks_ok blocks -> blocks_fit blocks -> 0 <= v -> translate true blocks v <> None ->
  exists c, cursor_at width blocks v = inr c /\ cursor_ok blocks v c /\ 0 < cu_remaining c.
Proof.
  intros Hok Hw Hv Hm. destruct blocks as [|f r]; [done|]. pose proof Hok as (Hf & Hun & Hp & Hend & _).
  unfold cursor_at. replace (upper_bound_virt v (f :: r)) with (lower_bound (v + 1) (f :: r)).
  2: { apply split_at_ext. intros b. destruct (Z.leb_spec (v + 1) (b_virt b)), (Z.ltb_spec v (b_virt b)); done || lia. }
  destruct (lower_bound_spec (v + 1) f r Hp ltac:(lia)) as (r1 & r2 & -> & -> & Hlt & Hge).
  pose proof (end_below _ _ _ Hlt) as Hpred. destruct (unsnoc_end f r1) as (pre' & -> & Hpre').
  assert (Hsplit : exists pre, f :: r1 ++ r2 = pre ++ end_of f r1 :: r2).
  { destruct (last r1) as [x|] eqn:El; [|apply last_None in El as ->; by exists []].
    apply last_Some in El as [l ->]. rewrite end_of_snoc. exists (f :: l). by rewrite <- app_assoc. }
  destruct Hsplit as [pre Hpre]. destruct (blocks_ok_split _ _ _ _ _ Hok Hpre) as (H0 & Hp2 & He2). destruct r2 as [|x r2].
  - exfalso. apply Hm. rewrite Hpre, translate_from by lia. unfold translate. simpl. destruct (Z.leb_spec (b_virt (end_of f r1)) v); [|lia].
    unfold cell. unfold end_of at 1 in He2. simpl in He2. by rewrite He2.
  - eexists. split; [reflexivity|]. inversion Hge; subst. inversion Hw as [|? ? _ Hw']; subst. apply Forall_app in Hw' as [_ Hw']. inversion Hw'; subst.
    cbn [cu_remaining]. rewrite wrap_small by lia. split; [|lia]. split; cbn [cu_block cu_succs cu_phys cu_remaining]; [by exists pre|lia|done|].
    exists x, r2. split; [done|]. split; [lia|done].
Qed.

Lemma cursor_next_ok blocks v c :
  blocks_ok blocks -> blocks_fit blocks -> cursor_ok blocks v c -> translate true blocks v <> None ->
  exists c', cursor_next width c = inr c' /\ cursor_ok blocks v c' /\ 0 < cu_remaining c' /\
    (length (cu_succs c') <= length (cu_succs c))%nat /\ (cu_remaining c = 0 -> (length (cu_succs c') < length (cu_succs c))%nat).
Proof.
  intros Hok Hw Hc Hm. pose proof Hc as [[pre E] Hs Hph (x & rest & Ex & Hx & Hr)]. unfold cursor_next. destruct (Z.eqb_spec (cu_remaining c) 0).
  - destruct blocks as [|f r]; [done|]. destruct (blocks_ok_split f r pre _ _ Hok E) as (H0 & Hp & Hend). rewrite Ex in *. destruct rest as [|y rest].
    + exfalso. apply Hm. rewrite E. change (cu_block c :: [x]) with ([cu_block c] ++ [x]). rewrite app_assoc, translate_from by lia. unfold translate. simpl.
      destruct (Z.leb_spec (b_virt x) v); [|lia]. unfold cell. unfold end_of in Hend. simpl in Hend. by rewrite Hend.
    + destruct Hp as [_ [[Hlt _] _]]. unfold blocks_fit in Hw. rewrite E in Hw. apply Forall_app in Hw as [_ Hw].
      inversion Hw as [|? ? _ Hw1]; subst. inversion Hw1 as [|? ? Hx1 Hw2]; subst. inversion Hw2 as [|? ? Hy1 _]; subst.
      destruct (blocks_ok_split f r (pre ++ [cu_block c]) x (y :: rest) Hok) as (Hx0 & _); [by rewrite <- app_assoc|].
      eexists. split; [reflexivity|]. cbn [cu_remaining cu_succs tail length]. rewrite wrap_small by lia. split; [|split; [lia|split; [|intros _]; lia]].
      split; cbn [cu_block cu_succs cu_phys cu_remaining tail]; [|lia|lia|].
      * exists (pre ++ [cu_block c]). by rewrite <- app_assoc.
      * exists y, rest. split; [done|]. lia.
  - exists c. split; [done|]. split; [done|]. split; [lia|]. split; [lia|done].
Qed.

Lemma cursor_advance_ok blocks v c n : 0 <= n <= cu_remaining c -> cursor_ok blocks v c -> cursor_ok blocks (v + n) (cursor_advance n c).
Proof.
  intros Hn [Hp Hs Hph (x & rest & Ex & Hx & Hr)]. split; cbn [cu_block cu_succs cu_phys cu_remaining cursor_advance]; [done|lia|lia|].
  exists x, rest. split; [done|]. lia.
Qed.

(** What a copy leaves in host memory: the bytes the source read as, at the places [phys] of the
    destination, and everything else as it was. *)
Definition copied (blocks : list Block) (phys : Z -> Z) (dst src size : Z) (ram ram' : host_ram) : Prop :=
  (forall i, 0 <= i < size -> ram' (phys (dst + i)) = byte_at blocks ram (src + i)) /\
  forall x, (forall i, 0 <= i < size -> phys (dst + i) <> x) -> ram' x = ram x.

(** A source and a destination that a copy can be made between: both mapped, the destination to
    ordinary memory, each address to its own place and to none that the source uses. *)
Record copyable (blocks : list Block) (phys : Z -> Z) (dst src size : Z) : Prop := mk_copyable {
  cy_src : forall i, 0 <= i < size -> translate true blocks (src + i) <> None;
  cy_dst : forall i, 0 <= i < size -> translate true blocks (dst + i) = Some (phys (dst + i), false);
  cy_inj : forall i j, 0 <= i < size -> 0 <= j < size -> phys (dst + i) = phys (dst + j) -> i = j;
  cy_apart : forall i j p, 0 <= i < size -> 0 <= j < size -> translate true blocks (src + i) = Some (p, false) -> p <> phys (dst + j) }.

Lemma copyable_later blocks phys dst src size n :
  0 <= n <= size -> copyable blocks phys dst src size -> copyable blocks phys (dst + n) (src + n) (size - n).
Proof.
  intros Hn [H1 H2 H3 H4]. split.
  - intros i Hi. replace (src + n + i) with (src + (n + i)) by lia. apply H1. lia.
  - intros i Hi. replace (dst + n + i) with (dst + (n + i)) by lia. apply H2. lia.
  - intros i j Hi Hj. replace (dst + n + i) with (dst + (n + i)) by lia. replace (dst + n + j) with (dst + (n + j)) by lia.
    intros E. apply H3 in E; lia.
  - intros i j p Hi Hj. replace (dst + n + j) with (dst + (n + j)) by lia. replace (src + n + i) with (src + (n + i)) by lia. apply H4; lia.
Qed.

(** One part of a copy followed by the rest of it. *)
Lemma copied_step blocks phys dst src size n ram ram1 ram2 :
  0 <= n <= size -> copyable blocks phys dst src size ->
  copied blocks phys dst src n ram ram1 -> copied blocks phys (dst + n) (src + n) (size - n) ram1 ram2 -> copied blocks phys dst src size ram ram2.
Proof.
  intros Hn Hc [A1 A2] [B1 B2]. split.
  - intros i Hi. destruct (Z_lt_le_dec i n).
    + rewrite B2; [apply A1; lia|]. intros j Hj E. replace (dst + n + j) with (dst + (n + j)) in E by lia. apply (cy_inj _ _ _ _ _ Hc) in E; lia.
    + replace (dst + i) with (dst + n + (i - n)) by lia. rewrite B1 by lia. replace (src + n + (i - n)) with (src + i) by lia.
      unfold byte_at. destruct (translate true blocks (src + i)) as [[p []]|] eqn:Et; [done| |done]. apply A2. intros j Hj E. eapply (cy_apart _ _ _ _ _ Hc i j); try done; lia.
  - intros x Hx. rewrite B2, A2; [done| |]; intros i Hi E.
    + apply (Hx i); [lia|done].
    + apply (Hx (n + i)); [lia|]. by replace (dst + (n + i)) with (dst + n + i) by lia.
Qed.

Lemma copy_part blocks phys d s n src dst ram :
  blocks_ok blocks -> cursor_ok blocks s src -> cursor_ok blocks d dst -> 0 < n -> n <= cu_remaining src -> n <= cu_remaining dst ->
  (forall i, 0 <= i < n -> translate true blocks (s + i) <> None) -> (forall i, 0 <= i < n -> translate true blocks (d + i) = Some (phys (d + i), false)) ->
  (b_phys (cu_block src) =? 0) = false /\ (b_phys (cu_block dst) =? 0) = false /\
  copied blocks phys d s n ram
    (if b_extra (cu_block src) then write_list (cu_phys dst) (replicate (Z.to_nat n) 0) ram
     else write_list (cu_phys dst) (ram <$> seqZ (cu_phys src) n) ram).
Proof.
  intros Hok Hs Hd Hn Hns Hnd Hms Hmd.
  assert (Cs : forall i, 0 <= i < n -> translate true blocks (s + i) = cell true (cu_block src) (s + i)) by (intros i Hi; apply (cursor_cell _ s); try done; lia).
  assert (Cd : forall i, 0 <= i < n -> translate true blocks (d + i) = cell true (cu_block dst) (d + i)) by (intros i Hi; apply (cursor_cell _ d); try done; lia).
  assert (Us : Unmapped (cu_block src) = false).
  { pose proof (Hms 0 ltac:(lia)) as Hm. rewrite Cs in Hm by lia. unfold cell in Hm. by destruct (Unmapped _). }
  assert (Pd : forall i, 0 <= i < n -> phys (d + i) = cu_phys dst + i).
  { intros i Hi. pose proof (Hmd i Hi) as Hm. rewrite Cd in Hm by lia. unfold cell in Hm. destruct (Unmapped (cu_block dst)); [done|]. injection Hm as <- _.
    rewrite (cu_pointer _ _ _ Hd). lia. }
  assert (Ud : Unmapped (cu_block dst) = false).
  { pose proof (Hmd 0 ltac:(lia)) as Hm. rewrite Cd in Hm by lia. unfold cell in Hm. by destruct (Unmapped (cu_block dst)). }
  split; [exact Us|]. split; [exact Ud|].
  assert (Hw : forall l, length l = Z.to_nat n -> (forall i, 0 <= i < n -> l !! Z.to_nat i = Some (byte_at blocks ram (s + i))) ->
    copied blocks phys d s n ram (write_list (cu_phys dst) l ram)).
  { intros l Hl Hat. unfold write_list. rewrite Hl, Z2Nat.id by lia. split.
    - intros i Hi. rewrite Pd by lia. destruct (Z.leb_spec (cu_phys dst) (cu_phys dst + i)); [|lia]. destruct (Z.ltb_spec (cu_phys dst + i) (cu_phys dst + n)); [|lia].
      cbn [andb]. replace (cu_phys dst + i - cu_phys dst) with i by lia. by rewrite Hat.
    - intros x Hx. destruct (Z.leb_spec (cu_phys dst) x), (Z.ltb_spec x (cu_phys dst + n)); cbn [andb]; try done. exfalso.
      apply (Hx (x - cu_phys dst)); [lia|]. rewrite Pd by lia. lia. }
  assert (Hb : forall i, 0 <= i < n -> byte_at blocks ram (s + i) = if b_extra (cu_block src) then 0 else ram (cu_phys src + i)).
  { intros i Hi. rewrite (byte_at_cell blocks ram (cu_block src)) by (done || by apply Cs). destruct (b_extra _); [done|]. f_equal.
    rewrite (cu_pointer _ _ _ Hs). lia. }
  destruct (b_extra (cu_block src)); apply Hw.
  - by rewrite length_replicate.
  - intros i Hi. rewrite Hb by done. rewrite lookup_replicate_2 by lia. done.
  - by rewrite length_fmap, length_seqZ.
  - intros i Hi. rewrite Hb, list_lookup_fmap, lookup_seqZ_lt by lia. simpl. do 2 f_equal. lia.
Qed.

Lemma copy_loop_spec blocks phys : blocks_ok blocks -> blocks_fit blocks -> forall fuel src dst s d size ram,
  cursor_ok blocks s src -> cursor_ok blocks d dst -> 0 < cu_remaining src -> 0 < cu_remaining dst -> 0 <= size ->
  (length (cu_succs src) + length (cu_succs dst) < fuel)%nat -> copyable blocks phys d s size ->
  exists ram', copy_loop width fuel src dst size ram = inr ram' /\ copied blocks phys d s size ram ram'.
Proof.
  intros Hok Hw. induction fuel as [|fuel IH]; intros src dst s d size ram Hs Hd Rs Rd Hsize Hf Hc; [lia|]. cbn [copy_loop].
  destruct (Z.eqb_spec size 0) as [->|Hne].
  { exists ram. split; [done|]. split; [intros i Hi; lia|done]. }
  set (n := Z.min _ _). destruct (copy_part blocks phys d s n src dst ram Hok Hs Hd) as (-> & -> & Hp); [lia..| | |].
  { intros i Hi. apply (cy_src _ _ _ _ _ Hc). lia. }
  { intros i Hi. apply (cy_dst _ _ _ _ _ Hc). lia. }
  set (ram1 := if b_extra (cu_block src) then _ else _) in *. destruct (Z.eqb_spec (size - n) 0) as [E|E].
  { exists ram1. split; [done|]. by replace size with n by lia. }
  destruct (cursor_next_ok blocks (s + n) (cursor_advance n src) Hok Hw) as (src' & -> & Hs' & Rs' & Ls & Ls').
  { apply cursor_advance_ok; [lia|done]. } { apply (cy_src _ _ _ _ _ Hc). lia. }
  destruct (cursor_next_ok blocks (d + n) (cursor_advance n dst) Hok Hw) as (dst' & -> & Hd' & Rd' & Ld & Ld').
  { apply cursor_advance_ok; [lia|done]. } { rewrite (cy_dst _ _ _ _ _ Hc); [done|lia]. }
  cbn [bindM cursor_advance cu_succs cu_remaining] in *.
  destruct (IH src' dst' (s + n) (d + n) (size - n) ram1 Hs' Hd' Rs' Rd') as (ram' & HE & HC); [lia| |by apply copyable_later; [lia|]|].
  { destruct (Z.eq_dec (cu_remaining src - n) 0) as [H0|H0]; [specialize (Ls' H0); lia|]. specialize (Ld' ltac:(lia)). lia. }
  exists ram'. split; [done|]. apply (copied_step blocks phys d s size n ram ram1); [lia|done..].
Qed.

(** A copy moves the bytes, however the two ranges are cut into blocks. *)
Lemma Copy_spec blocks phys dst src size ram :
  blocks_ok blocks -> blocks_fit blocks -> 0 <= dst -> 0 <= src -> 0 < size -> copyable blocks phys dst src size ->
  exists ram', Mm_Copy width blocks dst src size ram = inr ram' /\ copied blocks phys dst src size ram ram'.
Proof.
  intros Hok Hw Hd Hs Hsize Hc. unfold Mm_Copy. pose proof (cy_src _ _ _ _ _ Hc 0 ltac:(lia)) as Ms. pose proof (cy_dst _ _ _ _ _ Hc 0 ltac:(lia)) as Md.
  rewrite Z.add_0_r in Ms, Md. destruct (cursor_at_ok blocks src Hok Hw Hs Ms) as (cs & -> & Cs & Rs).
  destruct (cursor_at_ok blocks dst Hok Hw Hd) as (cd & -> & Cd & Rd); [by rewrite Md|]. cbn [bindM].
  apply copy_loop_spec; try done; [lia|]. destruct (cu_split _ _ _ Cs) as [pre1 E1], (cu_split _ _ _ Cd) as [pre2 E2].
  apply (f_equal length) in E1, E2. rewrite length_app in E1, E2. simpl in E1, E2. lia.
Qed.

End loops.

(** Writes skip sparse blocks; a copy into one goes to the address that only marks it. *)
Lemma Copy_into_sparse :
  let blocks := [mk_block 0 0 false; mk_block 0x1000 0x5000 false; mk_block 0x2000 0xCAFEBABE true; mk_block 0x3000 0 false] in
  match Mm_Write 64 blocks 0x2000 [9] (fun _ => 7), Mm_Copy 64 blocks 0x2000 0x1000 1 (fun a => if a =? 0x5000 then 9 else 7) with
  | inr written, inr copied => written 0xCAFEBABE = 7 /\ copied 0xCAFEBABE = 9
  | _, _ => False
  end.
Proof. done. Qed.

(** ** Witnesses *)

Lemma example_blocks_ok : blocks_ok example_blocks.
Proof. exact (ao_blocks _ _ example_map_ok). Qed.

Lemma example_blocks_fit : blocks_fit 32 example_blocks.
Proof. repeat (constructor; [simpl; lia|]). constructor. Qed.

(** Four bytes across the border of two blocks. *)
Lemma Write_Read_roundtrip_witness :
  exists ram', Mm_Write 32 example_blocks 0x1FFE [1; 2; 3; 4] (fun _ => 0) = inr ram' /\
    Mm_Read 32 example_blocks ram' 0x1FFE 4 = inr [1; 2; 3; 4] /\ ram' 0x11000 = 0.
Proof.
  set (phys a := if a <? 0x2000 then 0xF000 + a else 0x1E000 + a).
  destruct (Write_Read_roundtrip 32 example_blocks (fun _ => 0) 0x1FFE [1; 2; 3; 4] phys example_blocks_ok example_blocks_fit)
    as (ram' & H1 & H2 & H3).
  - lia.
  - discriminate.
  - intros a Ha. simpl in Ha. assert (a = 0x1FFE \/ a = 0x1FFF \/ a = 0x2000 \/ a = 0x2001) as [-> | [-> | [-> | ->]]] by lia; reflexivity.
  - intros a a' Ha Ha'. simpl in Ha, Ha'. unfold phys. destruct (Z.ltb_spec a 0x2000), (Z.ltb_spec a' 0x2000); lia.
  - exists ram'. split; [exact H1|]. split; [exact H2|]. apply H3. intros a Ha. simpl in Ha. unfold phys. destruct (Z.ltb_spec a 0x2000); lia.
Defined.

Lemma Read_refuses_unmapped_witness : is_ok (Mm_Read 32 example_blocks (fun _ => 0) 0x800 0x1000) = false.
Proof.
  apply (Read_refuses_unmapped 32 example_blocks (fun _ => 0) 0x800 0x1000 0x900 example_blocks_ok example_blocks_fit); [lia|lia|reflexivity].
Defined.
