(* ===== verification/NvMap.v ===== *)
(** * nvmap ([services/nvdrv/core/nvmap.{h,cpp}], [services/nvdrv/devices/nvmap.cpp])

    Handles to blocks of guest memory, counted twice: by the guest's duplicates and by the
    emulator's own.  A handle object is a location of [nm_objects], which never shrinks; the map of
    handles and the unmap queue own locations, so that an object outlives its map entry while the
    queue still holds it.  A handle is pinned into the address space of the SMMU for the engines
    behind it; an unpinned handle stays mapped and waits in the unmap queue until its range is
    needed.  Locks make every operation one step. *)

From S2P Require Import Prelude Common AddressSpace.

Inductive PosixResult : Type :=
| Posix_Success | Posix_NotPermitted | Posix_TryAgain | Posix_Busy | Posix_FileExists | Posix_InvalidArgument
| Posix_InappropriateIoctlForDevice | Posix_FunctionNotImplemented | Posix_NotSupported | Posix_TimedOut.

#[global] Instance PosixResult_eq_dec : EqDecision PosixResult.
Proof. solve_decision. Defined.

Definition posix_code (r : PosixResult) : Z :=
  match r with
  | Posix_Success => 0 | Posix_NotPermitted => 1 | Posix_TryAgain => 11 | Posix_Busy => 16 | Posix_FileExists => 17
  | Posix_InvalidArgument => 22 | Posix_InappropriateIoctlForDevice => 25 | Posix_FunctionNotImplemented => 38
  | Posix_NotSupported => 95 | Posix_TimedOut => 110
  end.

(** Signed counters, whose overflow is undefined. *)
Definition i32_inc (v : Z) : M Z := if v <? 2 ^ 31 - 1 then ok (v + 1) else fail (Undefined "signed overflow").
Definition i32_dec (v : Z) : M Z := if - 2 ^ 31 <? v then ok (v - 1) else fail (Undefined "signed overflow").

(** ** Handles *)

(** [h_queued] says whether [unmapQueueEntry] is set. *)
Record Handle : Type := mk_handle {
  h_align : Z;
  h_size : Z;
  h_alignedSize : Z;
  h_origSize : Z;
  h_dupes : Z;
  h_internalDupes : Z;
  h_id : Z;
  h_pins : Z;
  h_pinVirtAddress : Z;
  h_queued : bool;
  h_mapUncached : bool;
  h_keepUncachedAfterFree : bool;
  h_address : Z;
  h_isSharedMemMapped : bool;
  h_kind : Z;
  h_allocated : bool }.

Definition set_h_origSize (v : Z) (h : Handle) : Handle :=
  mk_handle (h_align h) (h_size h) (h_alignedSize h) v (h_dupes h) (h_internalDupes h) (h_id h) (h_pins h)
    (h_pinVirtAddress h) (h_queued h) (h_mapUncached h) (h_keepUncachedAfterFree h) (h_address h) (h_isSharedMemMapped
    h) (h_kind h) (h_allocated h).
Definition set_h_dupes (v : Z) (h : Handle) : Handle :=
  mk_handle (h_align h) (h_size h) (h_alignedSize h) (h_origSize h) v (h_internalDupes h) (h_id h) (h_pins h)
    (h_pinVirtAddress h) (h_queued h) (h_mapUncached h) (h_keepUncachedAfterFree h) (h_address h) (h_isSharedMemMapped
    h) (h_kind h) (h_allocated h).
Definition set_h_internalDupes (v : Z) (h : Handle) : Handle :=
  mk_handle (h_align h) (h_size h) (h_alignedSize h) (h_origSize h) (h_dupes h) v (h_id h) (h_pins h)
    (h_pinVirtAddress h) (h_queued h) (h_mapUncached h) (h_keepUncachedAfterFree h) (h_address h) (h_isSharedMemMapped
    h) (h_kind h) (h_allocated h).
Definition set_h_pins (v : Z) (h : Handle) : Handle :=
  mk_handle (h_align h) (h_size h) (h_alignedSize h) (h_origSize h) (h_dupes h) (h_internalDupes h) (h_id h) v
    (h_pinVirtAddress h) (h_queued h) (h_mapUncached h) (h_keepUncachedAfterFree h) (h_address h) (h_isSharedMemMapped
    h) (h_kind h) (h_allocated h).
Definition set_h_pinVirtAddress (v : Z) (h : Handle) : Handle :=
  mk_handle (h_align h) (h_size h) (h_alignedSize h) (h_origSize h) (h_dupes h) (h_internalDupes h) (h_id h) (h_pins
    h) v (h_queued h) (h_mapUncached h) (h_keepUncachedAfterFree h) (h_address h) (h_isSharedMemMapped h) (h_kind h)
    (h_allocated h).
Definition set_h_queued (v : bool) (h : Handle) : Handle :=
  mk_handle (h_align h) (h_size h) (h_alignedSize h) (h_origSize h) (h_dupes h) (h_internalDupes h) (h_id h) (h_pins
    h) (h_pinVirtAddress h) v (h_mapUncached h) (h_keepUncachedAfterFree h) (h_address h) (h_isSharedMemMapped h)
    (h_kind h) (h_allocated h).
Definition set_h_isSharedMemMapped (v : bool) (h : Handle) : Handle :=
  mk_handle (h_align h) (h_size h) (h_alignedSize h) (h_origSize h) (h_dupes h) (h_internalDupes h) (h_id h) (h_pins
    h) (h_pinVirtAddress h) (h_queued h) (h_mapUncached h) (h_keepUncachedAfterFree h) (h_address h) v (h_kind h)
    (h_allocated h).

Definition Handle_new (size id : Z) : Handle :=
  mk_handle 0 size size size 1 0 id 0 0 false false false 0 false 0 false.

(** [Flags] as the word of the ioctl: [mapUncached] is bit 0. *)
Definition flag_mapUncached (flags : Z) : bool := bit flags 0.

Definition Handle_Alloc (pFlags pAlign pKind pAddress : Z) (h : Handle) : M (Handle * PosixResult) :=
  if h_allocated h then ok (h, Posix_NotPermitted)
  else if pAddress =? 0 then fail (Throw "Mapping nvmap handles without a CPU side address is unimplemented!")
  else
    let align := if pAlign <? PAGE_SIZE then PAGE_SIZE else pAlign in
    let size := AlignUp (h_size h) PAGE_SIZE in
    ok (mk_handle align size (AlignUp size align) (h_origSize h) (h_dupes h) (h_internalDupes h) (h_id h) (h_pins h)
          (h_pinVirtAddress h) (h_queued h) (flag_mapUncached pFlags) false pAddress (h_isSharedMemMapped h) pKind true,
        Posix_Success).

Definition Handle_Duplicate (internalSession : bool) (h : Handle) : M (Handle * PosixResult) :=
  if negb (h_allocated h) then ok (h, Posix_InvalidArgument)
  else if internalSession then
    let! n := i32_inc (h_internalDupes h) in ok (set_h_internalDupes n h, Posix_Success)
  else let! n := i32_inc (h_dupes h) in ok (set_h_dupes n h, Posix_Success).

Definition Handle_GetPointer (h : Handle) : M (Handle * Z) :=
  if h_address h =? 0 then fail (Throw "Cannot get a pointer to the memory of an unallocated handle!")
  else ok (set_h_isSharedMemMapped true h, h_address h).

(** ** The handle map *)

Record NvMap : Type := mk_nvmap {
  nm_objects : list Handle;
  nm_handles : gmap Z nat;
  nm_unmapQueue : list nat;
  nm_smmuAllocator : FlatAllocator;
  nm_smmu : AsMap;
  nm_nextHandleId : Z }.

Definition smmu_params : AsParams := mk_as_params 32 true.
Definition HandleIdIncrement : Z := 4.

Definition NvMap_new : M NvMap :=
  let! a := FlatAllocator_new 32 PAGE_SIZE (VaMaximum 32) in
  let! smmu := AsMap_new 32 (VaMaximum 32) in
  ok (mk_nvmap [] ∅ [] a smmu HandleIdIncrement).

(** The object at a location is always there for a location that was handed out. *)
Definition deref (l : nat) (n : NvMap) : M Handle := from_opt (Undefined "dangling handle") (nm_objects n !! l).

Definition store (l : nat) (h : Handle) (n : NvMap) : NvMap :=
  mk_nvmap (<[l := h]> (nm_objects n)) (nm_handles n) (nm_unmapQueue n) (nm_smmuAllocator n) (nm_smmu n) (nm_nextHandleId n).
Definition set_nm_handles (v : gmap Z nat) (n : NvMap) : NvMap :=
  mk_nvmap (nm_objects n) v (nm_unmapQueue n) (nm_smmuAllocator n) (nm_smmu n) (nm_nextHandleId n).
Definition set_nm_unmapQueue (v : list nat) (n : NvMap) : NvMap :=
  mk_nvmap (nm_objects n) (nm_handles n) v (nm_smmuAllocator n) (nm_smmu n) (nm_nextHandleId n).
Definition set_nm_smmu (a : FlatAllocator) (m : AsMap) (n : NvMap) : NvMap :=
  mk_nvmap (nm_objects n) (nm_handles n) (nm_unmapQueue n) a m (nm_nextHandleId n).

(** [emplace] leaves an entry that is already there. *)
Definition AddHandle (id : Z) (l : nat) (n : NvMap) : NvMap :=
  match nm_handles n !! id with Some _ => n | None => set_nm_handles (<[id := l]> (nm_handles n)) n end.

Definition NvMap_GetHandle (handle : Z) (n : NvMap) : option nat := nm_handles n !! handle.

(** Removing the queue entry of an object: it has at most one. *)
Definition erase_entry (l : nat) (n : NvMap) : NvMap := set_nm_unmapQueue (filter (fun x => x <> l) (nm_unmapQueue n)) n.

Definition UnmapHandle (l : nat) (n : NvMap) : M NvMap :=
  let! h := deref l n in
  let '(n, h) := if h_queued h then (erase_entry l n, set_h_queued false h) else (n, h) in
  let size := u32 (h_alignedSize h) in
  let! smmu := UnmapLocked smmu_params (h_pinVirtAddress h) size (nm_smmu n) in
  let! a := Allocator_Free 32 (h_pinVirtAddress h) size (nm_smmuAllocator n) in
  ok (store l (set_h_pinVirtAddress 0 h) (set_nm_smmu a smmu n)).

Definition TryRemoveHandle (h : Handle) (n : NvMap) : NvMap * bool :=
  if (h_dupes h =? 0) && (h_internalDupes h =? 0) then (set_nm_handles (delete (h_id h) (nm_handles n)) n, true)
  else (n, false).

Definition CreateHandle (size : Z) (n : NvMap) : NvMap * (PosixResult + nat) :=
  if size =? 0 then (n, inl Posix_InvalidArgument)
  else
    let id := nm_nextHandleId n in
    let l := length (nm_objects n) in
    let n := mk_nvmap (nm_objects n ++ [Handle_new size id]) (nm_handles n) (nm_unmapQueue n) (nm_smmuAllocator n) (nm_smmu n)
               (u32 (id + HandleIdIncrement)) in
    (AddHandle id l n, inr l).

(** The allocation loop of [PinHandle] for the object at [l]; [fuel] bounds its turns. *)
Fixpoint pin_allocate (fuel : nat) (l : nat) (n : NvMap) : M (NvMap * Z) :=
  match fuel with
  | O => fail (Suspended "PinHandle")
  | S fuel =>
      let! h := deref l n in
      let! (a, address) := Allocate 32 (u32 (h_alignedSize h)) (nm_smmuAllocator n) in
      let n := set_nm_smmu a (nm_smmu n) n in
      if negb (address =? 0) then ok (n, address)
      else
        match nm_unmapQueue n with
        | [] => fail (Undefined "front of an empty list")
        | freeHandleDesc :: _ =>
            let! n := if negb (h_pinVirtAddress h =? 0) then UnmapHandle freeHandleDesc n else ok n in
            pin_allocate fuel l n
        end
  end.

Definition PinHandle (fuel : nat) (handle : Z) (n : NvMap) : M (NvMap * Z) :=
  match NvMap_GetHandle handle n with
  | None => ok (n, 0)
  | Some l =>
      let! h := deref l n in
      if negb (h_pins h =? 0) then
        let! p := i32_inc (h_pins h) in ok (store l (set_h_pins p h) n, h_pinVirtAddress h)
      else if h_queued h then
        let! p := i32_inc (h_pins h) in
        ok (store l (set_h_pins p (set_h_queued false h)) (erase_entry l n), h_pinVirtAddress h)
      else
        let! (n, address) := pin_allocate fuel l n in
        let! h := deref l n in
        let! smmu := MapLocked smmu_params address (h_address h) (u32 (h_alignedSize h)) false (nm_smmu n) in
        let! p := i32_inc (h_pins h) in
        ok (store l (set_h_pins p (set_h_pinVirtAddress address h)) (set_nm_smmu (nm_smmuAllocator n) smmu n), address)
  end.

Definition UnpinHandle (handle : Z) (n : NvMap) : M NvMap :=
  match NvMap_GetHandle handle n with
  | None => ok n
  | Some l =>
      let! h := deref l n in
      let! p := i32_dec (h_pins h) in
      if p <? 0 then ok (store l (set_h_pins p h) n)
      else if p =? 0 then ok (store l (set_h_queued true (set_h_pins p h)) (set_nm_unmapQueue (nm_unmapQueue n ++ [l]) n))
      else ok (store l (set_h_pins p h) n)
  end.

Record FreeInfo : Type := mk_free_info {
  fi_address : Z;
  fi_size : Z;
  fi_wasUncached : bool }.

(** Whether the weak pointer to the object at [l] has expired: neither the map nor the queue owns
    it, and [held] says that nothing outside does. *)
Definition expired (l : nat) (held : bool) (n : NvMap) : bool :=
  negb held && negb (existsb (fun p => Nat.eqb (snd p) l) (map_to_list (nm_handles n))) && negb (bool_decide (l ∈ nm_unmapQueue n)).

(** The counters of [FreeHandle]. *)
Definition drop_reference (l : nat) (internalSession : bool) (n : NvMap) : M NvMap :=
  let! h := deref l n in
  if internalSession then
    let! d := i32_dec (h_internalDupes h) in ok (store l (set_h_internalDupes d h) n)
  else
    let! d := i32_dec (h_dupes h) in
    let h := set_h_dupes d h in
    let n := store l h n in
    if d <? 0 then ok n
    else if d =? 0 then
      let! n := if negb (h_pinVirtAddress h =? 0) then UnmapHandle l n else ok n in
      let! h := deref l n in
      ok (store l (set_h_pins 0 h) n)
    else ok n.

Definition FreeHandle (handle : Z) (internalSession held : bool) (n : NvMap) : M (NvMap * option FreeInfo) :=
  match NvMap_GetHandle handle n with
  | None => ok (n, None)
  | Some l =>
      let! n := drop_reference l internalSession n in
      let! h := deref l n in
      let (n, _) := TryRemoveHandle h n in
      ok (n, Some (mk_free_info (if expired l held n then h_address h else 0) (h_size h) (h_mapUncached h)))
  end.

(** ** The device *)

Definition has_single_bit (z : Z) : bool := negb (z =? 0) && (Z.land z (z - 1) =? 0).

(** An operation gives its result and the values it assigns to its outputs. *)
Definition dev_Create (size : Z) (n : NvMap) : M (NvMap * (PosixResult * option Z)) :=
  match CreateHandle (u32 (AlignUp size PAGE_SIZE)) n with
  | (n, inl r) => ok (n, (r, None))
  | (n, inr l) => let! h := deref l n in ok (store l (set_h_origSize size h) n, (Posix_Success, Some (h_id h)))
  end.

Definition dev_FromId (internalSession : bool) (id : Z) (n : NvMap) : M (NvMap * (PosixResult * option Z)) :=
  if id =? 0 then ok (n, (Posix_InvalidArgument, None))
  else
    match NvMap_GetHandle id n with
    | None => ok (n, (Posix_InvalidArgument, None))
    | Some l =>
        let! h := deref l n in
        let! (h, result) := Handle_Duplicate internalSession h in
        ok (store l h n, (result, if bool_decide (result = Posix_Success) then Some id else None))
    end.

(** The second component of the result is the alignment passed back. *)
Definition dev_Alloc (handle flags align kind address : Z) (n : NvMap) : M (NvMap * (PosixResult * Z)) :=
  if handle =? 0 then ok (n, (Posix_InvalidArgument, align))
  else if negb (has_single_bit align) then ok (n, (Posix_InvalidArgument, align))
  else
    let align := if align <? PAGE_SIZE then PAGE_SIZE else align in
    match NvMap_GetHandle handle n with
    | None => ok (n, (Posix_InvalidArgument, align))
    | Some l =>
        let! h := deref l n in
        let! (h, result) := Handle_Alloc flags align kind address h in
        ok (store l h n, (result, align))
    end.

Definition dev_Free (internalSession held : bool) (handle : Z) (n : NvMap) : M (NvMap * (PosixResult * option (Z * Z * Z))) :=
  if handle =? 0 then ok (n, (Posix_Success, None))
  else
    let! (n, freeInfo) := FreeHandle handle internalSession held n in
    ok (n, (Posix_Success,
      match freeInfo with
      | Some i => Some (fi_address i, u32 (fi_size i), Z.b2z (fi_wasUncached i))
      | None => None
      end)).

Definition dev_Param (handle param : Z) (n : NvMap) : M (PosixResult * option Z) :=
  if handle =? 0 then ok (Posix_InvalidArgument, None)
  else
    match NvMap_GetHandle handle n with
    | None => ok (Posix_InvalidArgument, None)
    | Some l =>
        let! h := deref l n in
        ok match param with
           | 1 => (Posix_Success, Some (u32 (h_origSize h)))
           | 2 => (Posix_Success, Some (u32 (h_align h)))
           | 3 => (Posix_Success, Some (u32 (- posix_code Posix_InvalidArgument)))
           | 4 => (Posix_Success, Some (if h_allocated h then 0x40000000 else 0))
           | 5 => (Posix_Success, Some (h_kind h))
           | 6 => (Posix_Success, Some (Z.b2z (h_isSharedMemMapped h)))
           | _ => (Posix_InvalidArgument, None)
           end
    end.

Definition dev_GetId (handle : Z) (n : NvMap) : M (PosixResult * option Z) :=
  if handle =? 0 then ok (Posix_InvalidArgument, None)
  else
    match NvMap_GetHandle handle n with
    | None => ok (Posix_NotPermitted, None)
    | Some l => let! h := deref l n in ok (Posix_Success, Some (h_id h))
    end.

(** ** The invariant

    A handle is in the unmap queue exactly when its entry is set, a queued handle is not pinned,
    and exactly the pinned and the queued handles are mapped. *)
Record object_ok (h : Handle) : Prop := mk_object_ok {
  ob_queued : h_queued h = true -> h_pins h <= 0;
  ob_mapped : h_pinVirtAddress h <> 0 <-> h_queued h = true \/ 1 <= h_pins h }.

Record nm_ok (n : NvMap) : Prop := mk_nm_ok {
  no_handles : forall id l, nm_handles n !! id = Some l -> exists h, nm_objects n !! l = Some h /\ h_id h = id;
  no_nodup : NoDup (nm_unmapQueue n);
  no_queue : forall l, l ∈ nm_unmapQueue n <-> exists h, nm_objects n !! l = Some h /\ h_queued h = true;
  no_objects : forall l h, nm_objects n !! l = Some h -> object_ok h }.

Lemma deref_ok l n h : deref l n = inr h <-> nm_objects n !! l = Some h.
Proof. unfold deref, from_opt. destruct (nm_objects n !! l); naive_solver. Qed.

Lemma store_lookup l h h' n : nm_objects n !! l = Some h -> nm_objects (store l h' n) !! l = Some h'.
Proof. intros Hl. simpl. apply list_lookup_insert_eq. by eapply lookup_lt_Some. Qed.

Lemma store_lookup_ne l k h n : l <> k -> nm_objects (store l h n) !! k = nm_objects n !! k.
Proof. intros Hl. simpl. by apply list_lookup_insert_ne. Qed.

(** Writing an object back with queue [q], which agrees with the object's entry and with the old
    queue elsewhere. *)
Lemma store_ok l h h' q n :
  nm_ok n -> nm_objects n !! l = Some h -> h_id h' = h_id h -> object_ok h' -> NoDup q ->
  (l ∈ q <-> h_queued h' = true) -> (forall k, k <> l -> k ∈ q <-> k ∈ nm_unmapQueue n) ->
  nm_ok (store l h' (set_nm_unmapQueue q n)).
Proof.
  intros [Hh Hn Hq Ho] Hl Hid Hok Hnd Hself Hother.
  assert (Hlk : forall k, nm_objects (store l h' (set_nm_unmapQueue q n)) !! k = if decide (k = l) then Some h' else nm_objects n !! k).
  { intros k. destruct (decide (k = l)) as [->|Hk]; [by eapply (store_lookup l h h' (set_nm_unmapQueue q n))|].
    by apply (store_lookup_ne l k h' (set_nm_unmapQueue q n)). }
  split.
  - intros id k Hk. rewrite Hlk. destruct (Hh id k Hk) as (h0 & H0 & H1). destruct (decide (k = l)) as [->|]; naive_solver.
  - done.
  - intros k. rewrite Hlk. simpl. destruct (decide (k = l)) as [->|Hk]; [naive_solver|]. rewrite (Hother k Hk). apply Hq.
  - intros k h0. rewrite Hlk. destruct (decide (k = l)); [naive_solver|apply Ho].
Qed.

Lemma store_same_queue_ok l h h' n :
  nm_ok n -> nm_objects n !! l = Some h -> h_id h' = h_id h -> h_queued h' = h_queued h -> object_ok h' -> nm_ok (store l h' n).
Proof.
  intros Hok Hl Hid Hq Ho. pose proof Hok as [_ Hnd Hqu _].
  replace (store l h' n) with (store l h' (set_nm_unmapQueue (nm_unmapQueue n) n)) by (by destruct n).
  eapply store_ok; try done. rewrite Hqu, Hq. naive_solver.
Qed.

Lemma erase_store_ok l h h' n :
  nm_ok n -> nm_objects n !! l = Some h -> h_id h' = h_id h -> h_queued h' = false -> object_ok h' ->
  nm_ok (store l h' (erase_entry l n)).
Proof.
  intros Hok Hl Hid Hq Ho. eapply store_ok; try done.
  - apply NoDup_filter, Hok.
  - rewrite list_elem_of_filter, Hq. naive_solver.
  - intros k Hk. rewrite list_elem_of_filter. naive_solver.
Qed.

Lemma enqueue_store_ok l h h' n :
  nm_ok n -> nm_objects n !! l = Some h -> h_queued h = false -> h_id h' = h_id h -> h_queued h' = true -> object_ok h' ->
  nm_ok (store l h' (set_nm_unmapQueue (nm_unmapQueue n ++ [l]) n)).
Proof.
  intros Hok Hl Hf Hid Hq Ho. pose proof Hok as [_ Hnd Hqu _]. eapply store_ok; try done.
  - apply NoDup_app. split; [done|]. split; [|apply NoDup_singleton].
    intros k Hk. rewrite list_elem_of_singleton. intros ->. apply Hqu in Hk as (h0 & H0 & H1). congruence.
  - rewrite elem_of_app, list_elem_of_singleton. naive_solver.
  - intros k Hk. rewrite elem_of_app, list_elem_of_singleton. naive_solver.
Qed.

Lemma set_smmu_ok a m n : nm_ok (set_nm_smmu a m n) <-> nm_ok n.
Proof. split; intros [? ? ? ?]; by split. Qed.

Definition unmapped (h : Handle) : Handle := set_h_pinVirtAddress 0 (set_h_queued false h).

(** Unmapping leaves the object without an address and without an entry. *)
Lemma UnmapHandle_shape l n h n' :
  nm_ok n -> nm_objects n !! l = Some h -> UnmapHandle l n = inr n' ->
  exists a m, n' = store l (unmapped h) (set_nm_smmu a m (erase_entry l n)).
Proof.
  intros Hok Hl Hu. unfold UnmapHandle in Hu. apply deref_ok in Hl as Hd. rewrite Hd in Hu. cbn [bindM] in Hu.
  destruct (h_queued h) eqn:Hq; inv_ok; eexists _, _.
  - done.
  - replace (unmapped h) with (set_h_pinVirtAddress 0 h) by (destruct h; simpl in Hq; by subst).
    replace (erase_entry l n) with n; [done|]. destruct n as [ob hs q a m i]. unfold erase_entry, set_nm_unmapQueue. simpl. f_equal.
    assert (Hnot : l ∉ q). { intros Hin. apply (no_queue _ Hok) in Hin as (h0 & Hl0 & Hq0). simpl in *. congruence. }
    clear -Hnot. induction q as [|x q IH]; [done|]. rewrite filter_cons_True by set_solver. f_equal. apply IH. set_solver.
Qed.

Lemma unmapped_store_ok l h h' a m n :
  nm_ok n -> nm_objects n !! l = Some h -> h_id h' = h_id h -> h_queued h' = false -> h_pinVirtAddress h' = 0 -> h_pins h' <= 0 ->
  nm_ok (store l h' (set_nm_smmu a m (erase_entry l n))).
Proof.
  intros Hok Hl Hid Hq Hv Hp. apply (set_smmu_ok a m (store l h' (erase_entry l n))).
  eapply erase_store_ok; try done. split; [congruence|]. rewrite Hq, Hv. split; [done|]. intros [?|?]; [done|lia].
Qed.

Lemma AddHandle_ok id l h n : nm_ok n -> nm_objects n !! l = Some h -> h_id h = id -> nm_ok (AddHandle id l n).
Proof.
  intros Hok Hl Hid. unfold AddHandle. destruct (nm_handles n !! id) eqn:E; [done|]. destruct Hok as [Hh Hn Hq Ho].
  split; [|done..]. intros id' k. simpl. rewrite lookup_insert. destruct (decide (id = id')); naive_solver.
Qed.

Lemma Handle_new_ok size id : object_ok (Handle_new size id).
Proof. split; simpl; [done|]. split; [done|]. intros [?|?]; [done|lia]. Qed.

Lemma CreateHandle_ok size n : nm_ok n -> nm_ok (fst (CreateHandle size n)).
Proof.
  intros Hok. unfold CreateHandle. destruct (size =? 0); [done|]. simpl. eapply (AddHandle_ok _ _ (Handle_new size (nm_nextHandleId n))).
  - destruct Hok as [Hh Hn Hq Ho]. split; simpl; [|done| |].
    + intros id l Hl. destruct (Hh id l Hl) as (h & H0 & H1). exists h. split; [|done]. by apply lookup_app_l_Some.
    + intros l. rewrite Hq. split; intros (h & Hl & Hqd); exists h; split; try done; [by apply lookup_app_l_Some|].
      apply lookup_app_Some in Hl as [Hl|[_ Hl]]; [done|]. apply list_lookup_singleton_Some in Hl as [_ <-]. discriminate Hqd.
    + intros l h Hl. apply lookup_app_Some in Hl as [Hl|[_ Hl]]; [by eapply Ho|].
      apply list_lookup_singleton_Some in Hl as [_ <-]. apply Handle_new_ok.
  - simpl. by rewrite lookup_app_r, Nat.sub_diag.
  - done.
Qed.

Lemma i32_inc_ok v v' : i32_inc v = inr v' -> v' = v + 1.
Proof. unfold i32_inc. destruct (_ <? _); intros; by inv_ok. Qed.

Lemma i32_dec_ok v v' : i32_dec v = inr v' -> v' = v - 1.
Proof. unfold i32_dec. destruct (_ <? _); intros; by inv_ok. Qed.

Lemma pin_allocate_ok fuel l n n' address :
  nm_ok n -> pin_allocate fuel l n = inr (n', address) ->
  nm_ok n' /\ address <> 0 /\ nm_handles n' = nm_handles n /\
  forall h, nm_objects n !! l = Some h -> h_queued h = false -> nm_objects n' !! l = Some h.
Proof.
  revert n. induction fuel as [|fuel IH]; intros n Hok; simpl; [done|]. intros Hp.
  apply bindM_ok in Hp as (h & Hd & Hp). apply bindM_ok in Hp as ([a r] & Ha & Hp).
  destruct (Z.eqb_spec r 0) as [->|Hr]; cbn [negb] in Hp.
  2: { inv_ok. split; [by apply set_smmu_ok|done]. }
  assert (Hok1 : nm_ok (set_nm_smmu a (nm_smmu n) n)) by (by apply set_smmu_ok).
  destruct (nm_unmapQueue n) as [|k q] eqn:Eq; [done|].
  destruct (Z.eqb_spec (h_pinVirtAddress h) 0) as [Hv|Hv]; cbn [negb] in Hp.
  { apply IH in Hp; done. }
  apply bindM_ok in Hp as (n1 & Hu & Hp).
  assert (Hk : k ∈ nm_unmapQueue (set_nm_smmu a (nm_smmu n) n)) by (simpl; rewrite Eq; set_solver).
  apply (no_queue _ Hok1) in Hk as (h0 & H0 & Hq0). destruct (no_objects _ Hok1 _ _ H0) as [Hpin _].
  destruct (UnmapHandle_shape _ _ _ _ Hok1 H0 Hu) as (a' & m' & ->).
  apply IH in Hp; [|eapply unmapped_store_ok; try done; by apply Hpin].
  destruct Hp as (H1 & H2 & H3 & H4). split; [done|]. split; [done|]. split; [done|].
  intros h1 Hl1 Hq1. apply H4; [|done]. destruct (decide (k = l)) as [->|Hkl]; [simpl in H0; congruence|].
  simpl. by rewrite list_lookup_insert_ne.
Qed.

Lemma PinHandle_ok fuel handle n n' address : nm_ok n -> PinHandle fuel handle n = inr (n', address) -> nm_ok n'.
Proof.
  intros Hok Hp. unfold PinHandle in Hp. destruct (NvMap_GetHandle handle n) as [l|]; [|by inv_ok].
  apply bindM_ok in Hp as (h & Hd & Hp). apply deref_ok in Hd. pose proof (no_objects _ Hok _ _ Hd) as [Hq Hm].
  destruct (Z.eqb_spec (h_pins h) 0) as [H0|H0]; cbn [negb] in Hp.
  - destruct (h_queued h) eqn:Eq.
    + apply bindM_ok in Hp as (p & Hi & Hp). apply i32_inc_ok in Hi. inv_ok. eapply erase_store_ok; try done.
      split; simpl; [done|]. rewrite Hm. split; [right; lia|by left].
    + apply bindM_ok in Hp as ([n1 r] & Ha & Hp). apply pin_allocate_ok in Ha as (Hok1 & Hr & _ & Hsame); [|done].
      apply bindM_ok in Hp as (h1 & Hd1 & Hp). apply deref_ok in Hd1. rewrite (Hsame h Hd Eq) in Hd1. injection Hd1 as <-.
      apply bindM_ok in Hp as (m & Hmap & Hp). apply bindM_ok in Hp as (p & Hi & Hp). apply i32_inc_ok in Hi. inv_ok.
      eapply store_same_queue_ok; [by apply set_smmu_ok|simpl; by apply Hsame|done|done|].
      split; simpl; [congruence|]. split; [right; lia|done].
  - apply bindM_ok in Hp as (p & Hi & Hp). apply i32_inc_ok in Hi. inv_ok. eapply store_same_queue_ok; try done.
    split; simpl.
    + intros Hqq. specialize (Hq Hqq). lia.
    + rewrite Hm. split; (intros [?|?]; [by left|right; lia]).
Qed.

Lemma UnpinHandle_ok handle n n' : nm_ok n -> UnpinHandle handle n = inr n' -> nm_ok n'.
Proof.
  intros Hok Hp. unfold UnpinHandle in Hp. destruct (NvMap_GetHandle handle n) as [l|]; [|by inv_ok].
  apply bindM_ok in Hp as (h & Hd & Hp). apply deref_ok in Hd. pose proof (no_objects _ Hok _ _ Hd) as [Hq Hm].
  apply bindM_ok in Hp as (p & Hi & Hp). apply i32_dec_ok in Hi.
  destruct (Z.ltb_spec p 0); [|destruct (Z.eqb_spec p 0)]; inv_ok.
  - eapply store_same_queue_ok; try done. split; simpl; [lia|]. rewrite Hm. split; (intros [?|?]; [by left|lia]).
  - assert (Eq : h_queued h = false) by (destruct (h_queued h); [specialize (Hq eq_refl); lia|done]).
    eapply enqueue_store_ok; try done. split; simpl; [lia|]. rewrite Hm. split; [by left|]. intros _. right. lia.
  - eapply store_same_queue_ok; try done. split; simpl; [intros Hqq; specialize (Hq Hqq); lia|].
    rewrite Hm. split; (intros [?|?]; [by left|right; lia]).
Qed.

(** Changing the counters of an object keeps the invariant. *)
Lemma counters_ok l h d i n :
  nm_ok n -> nm_objects n !! l = Some h -> nm_ok (store l (set_h_dupes d (set_h_internalDupes i h)) n).
Proof. intros Hok Hl. eapply store_same_queue_ok; try done. destruct (no_objects _ Hok _ _ Hl). by split. Qed.

Lemma drop_reference_ok l internal n n' : nm_ok n -> drop_reference l internal n = inr n' -> nm_ok n'.
Proof.
  intros Hok Hp. unfold drop_reference in Hp. apply bindM_ok in Hp as (h & Hd & Hp). apply deref_ok in Hd.
  assert (Hc : forall d, nm_ok (store l (set_h_dupes d h) n)).
  { intros d. replace (set_h_dupes d h) with (set_h_dupes d (set_h_internalDupes (h_internalDupes h) h)) by (by destruct h).
    by eapply counters_ok. }
  destruct internal; apply bindM_ok in Hp as (d & Hi & Hp).
  - inv_ok. replace (set_h_internalDupes d h) with (set_h_dupes (h_dupes h) (set_h_internalDupes d h)) by (by destruct h).
    by eapply counters_ok.
  - specialize (Hc d). destruct (d <? 0); [by inv_ok|]. destruct (d =? 0); [|by inv_ok].
    apply bindM_ok in Hp as (n1 & Hu & Hp). apply bindM_ok in Hp as (h1 & Hd1 & Hp). apply deref_ok in Hd1. inv_ok.
    pose proof (store_lookup l h (set_h_dupes d h) n Hd) as Hl.
    destruct (Z.eqb_spec (h_pinVirtAddress (set_h_dupes d h)) 0) as [Hv|Hv]; cbn [negb] in Hu.
    + injection Hu as <-. rewrite Hl in Hd1. injection Hd1 as <-. eapply store_same_queue_ok; try done.
      destruct (no_objects _ Hc _ _ Hl) as [Hq Hm]. split; simpl; [done|]. simpl in *. split; [done|].
      intros [Hqq|?]; [apply Hm; by left|lia].
    + destruct (UnmapHandle_shape _ _ _ _ Hc Hl Hu) as (a & m & ->).
      rewrite (store_lookup l (set_h_dupes d h)) in Hd1 by exact Hl. injection Hd1 as <-.
      unfold store at 1. simpl. rewrite list_insert_insert_eq.
      exact (unmapped_store_ok l (set_h_dupes d h) (set_h_pins 0 (unmapped (set_h_dupes d h))) a m _ Hc Hl eq_refl eq_refl eq_refl ltac:(simpl; lia)).
Qed.

Lemma FreeHandle_ok handle internal held n r : nm_ok n -> FreeHandle handle internal held n = inr r -> nm_ok (fst r).
Proof.
  intros Hok Hp. unfold FreeHandle in Hp. destruct (NvMap_GetHandle handle n) as [l|]; [|by inv_ok].
  apply bindM_ok in Hp as (n1 & Hdr & Hp). apply bindM_ok in Hp as (h & Hd & Hp). apply drop_reference_ok in Hdr; [|done].
  unfold TryRemoveHandle in Hp. destruct (_ && _); inv_ok; [|done]. destruct Hdr as [Hh Hn Hq Ho]. split; [|done..].
  simpl. intros id k Hk. apply lookup_delete_Some in Hk as [_ Hk]. by apply Hh.
Qed.

(** ** Every operation keeps the invariant *)

(** The operations of the device and the ones the emulator itself uses: pinning, for command
    submission, and taking a pointer. *)
Inductive nvmap_step : NvMap -> NvMap -> Prop :=
| step_create size n n' r : dev_Create size n = inr (n', r) -> nvmap_step n n'
| step_from_id internal id n n' r : dev_FromId internal id n = inr (n', r) -> nvmap_step n n'
| step_alloc handle flags align kind address n n' r : dev_Alloc handle flags align kind address n = inr (n', r) -> nvmap_step n n'
| step_free internal held handle n n' r : dev_Free internal held handle n = inr (n', r) -> nvmap_step n n'
| step_pin fuel handle n n' r : PinHandle fuel handle n = inr (n', r) -> nvmap_step n n'
| step_unpin handle n n' : UnpinHandle handle n = inr n' -> nvmap_step n n'
| step_pointer l h h' p n : deref l n = inr h -> Handle_GetPointer h = inr (h', p) -> nvmap_step n (store l h' n).

(** An update that leaves identity, pins and queue entry alone keeps the invariant. *)
Lemma update_ok l h h' n :
  nm_ok n -> deref l n = inr h ->
  h_id h' = h_id h -> h_queued h' = h_queued h -> h_pins h' = h_pins h -> h_pinVirtAddress h' = h_pinVirtAddress h ->
  nm_ok (store l h' n).
Proof.
  intros Hok Hd Hi Hq Hp Hv. apply deref_ok in Hd. eapply store_same_queue_ok; try done.
  destruct (no_objects _ Hok _ _ Hd) as [H1 H2]. split; by rewrite ?Hq, ?Hp, ?Hv.
Qed.

Lemma nvmap_step_ok n n' : nm_ok n -> nvmap_step n n' -> nm_ok n'.
Proof.
  intros Hok Hs. destruct Hs as [size n n' r Hs|internal id n n' r Hs|handle flags align kind address n n' r Hs|internal held handle n n' r Hs
    |fuel handle n n' r Hs|handle n n' Hs|l h h' p n Hd Hs].
  - unfold dev_Create in Hs. pose proof (CreateHandle_ok (u32 (AlignUp size PAGE_SIZE)) n Hok) as Hc.
    destruct (CreateHandle _ n) as [n1 [e|l]]; [by inv_ok|]. apply bindM_ok in Hs as (h & Hd & Hs). inv_ok. by eapply update_ok.
  - unfold dev_FromId in Hs. destruct (id =? 0); [by inv_ok|]. destruct (NvMap_GetHandle id n) as [l|]; [|by inv_ok].
    apply bindM_ok in Hs as (h & Hd & Hs). apply bindM_ok in Hs as ([h1 r1] & Hdup & Hs). inv_ok.
    unfold Handle_Duplicate in Hdup. destruct (h_allocated h), internal; cbn [negb] in Hdup; inv_ok; by eapply update_ok.
  - unfold dev_Alloc in Hs. destruct (handle =? 0); [by inv_ok|]. destruct (negb _); [by inv_ok|]. cbv zeta in Hs.
    destruct (NvMap_GetHandle handle n) as [l|]; [|by inv_ok].
    apply bindM_ok in Hs as (h & Hd & Hs). apply bindM_ok in Hs as ([h1 r1] & Hal & Hs). inv_ok.
    unfold Handle_Alloc in Hal. destruct (h_allocated h); [inv_ok; by eapply update_ok|]. destruct (address =? 0); [done|]. cbv zeta in Hal.
    inv_ok. by eapply update_ok.
  - unfold dev_Free in Hs. destruct (handle =? 0); [by inv_ok|]. apply bindM_ok in Hs as ([n1 i] & Hf & Hs). inv_ok.
    by apply FreeHandle_ok in Hf.
  - by eapply PinHandle_ok.
  - by eapply UnpinHandle_ok.
  - unfold Handle_GetPointer in Hs. destruct (h_address h =? 0); [done|]. inv_ok. by eapply update_ok.
Qed.

Lemma NvMap_new_ok n : NvMap_new = inr n -> nm_ok n.
Proof. intros Hn. vm_compute in Hn. injection Hn as <-. split; simpl; [done|constructor| |done]. intros l. split; [by intros ?%elem_of_nil|]. by intros (? & ? & _). Qed.

(** C34: The handles of every reachable state are consistent: identifiers name their own objects, a
    handle waits in the unmap queue once and only unpinned, and exactly the pinned and the waiting
    handles have an address in the SMMU. *)
Theorem nvmap_reachable_ok n0 n : NvMap_new = inr n0 -> rtc nvmap_step n0 n -> nm_ok n.
Proof.
  intros Hn Hr. apply NvMap_new_ok in Hn. induction Hr as [|n n1 n2 Hs _ IH]; [done|]. apply IH. by eapply nvmap_step_ok.
Qed.

(** ** Reference counting *)

(** Freeing a handle once per session in the list, with what each call reports. *)
Fixpoint free_all (handle : Z) (sessions : list bool) (n : NvMap) : M (NvMap * list (option FreeInfo)) :=
  match sessions with
  | [] => ok (n, [])
  | internal :: rest =>
      let! (n, i) := FreeHandle handle internal false n in
      let! (n, infos) := free_all handle rest n in
      ok (n, i :: infos)
  end.

Definition count_sessions (b : bool) (sessions : list bool) : Z := Z.of_nat (count_occ Bool.bool_dec sessions b).

Definition released (h : Handle) (address : Z) : option FreeInfo := Some (mk_free_info address (h_size h) (h_mapUncached h)).

(** An object is in the map under its own identifier only. *)
Lemma sole_entry handle id l n : nm_ok n -> nm_handles n !! handle = Some l -> nm_handles n !! id = Some l -> id = handle.
Proof.
  intros Hok H1 H2. destruct (no_handles _ Hok _ _ H1) as (h1 & Hl1 & <-), (no_handles _ Hok _ _ H2) as (h2 & Hl2 & <-).
  rewrite Hl1 in Hl2. by injection Hl2 as ->.
Qed.

Lemma expired_owned handle l held n : NvMap_GetHandle handle n = Some l -> expired l held n = false.
Proof.
  intros Hg. unfold expired. assert (existsb (fun p : Z * nat => Nat.eqb p.2 l) (map_to_list (nm_handles n)) = true) as ->.
  { apply existsb_exists. exists (handle, l). split; [|apply Nat.eqb_refl]. apply list_elem_of_In. by apply elem_of_map_to_list. }
  by rewrite andb_false_r.
Qed.

Lemma expired_free l n :
  (forall id, nm_handles n !! id <> Some l) -> l ∉ nm_unmapQueue n -> expired l false n = true.
Proof.
  intros Hn Hq. unfold expired. apply andb_true_iff. split; [apply andb_true_iff; split; [done|]|by apply negb_true_iff, bool_decide_eq_false].
  apply negb_true_iff. destruct (existsb _ _) eqn:E; [|done]. exfalso. apply existsb_exists in E as ((id, k) & Hin & Hk).
  apply Nat.eqb_eq in Hk as Hk'. simpl in Hk'. subst. apply list_elem_of_In, elem_of_map_to_list in Hin. by apply (Hn id).
Qed.

(** One call on an unmapped handle that has references of the session left. *)
Lemma FreeHandle_counts handle l h (internal : bool) n :
  nm_ok n -> nm_handles n !! handle = Some l -> nm_objects n !! l = Some h -> h_pinVirtAddress h = 0 ->
  0 < (if internal then h_internalDupes h else h_dupes h) < 2 ^ 31 ->
  exists (h' : Handle) (n' : NvMap), FreeHandle handle internal false n =
      inr (n', released h (if (h_dupes h' =? 0) && (h_internalDupes h' =? 0) then h_address h else 0)) /\
    nm_ok n' /\ nm_objects n' !! l = Some h' /\ h_pinVirtAddress h' = 0 /\
    h_address h' = h_address h /\ h_size h' = h_size h /\ h_mapUncached h' = h_mapUncached h /\
    h_dupes h' = h_dupes h - Z.b2z (negb internal) /\ h_internalDupes h' = h_internalDupes h - Z.b2z internal /\
    nm_handles n' = if (h_dupes h' =? 0) && (h_internalDupes h' =? 0) then delete handle (nm_handles n) else nm_handles n.
Proof.
  intros Hok Hg Hl Hv Hc. destruct (no_handles _ Hok _ _ Hg) as (h0 & Hl0 & Hid). assert (h0 = h) by congruence. subst h0.
  assert (Hdrop : exists h', drop_reference l internal n = inr (store l h' n) /\ h_pinVirtAddress h' = 0 /\ h_queued h' = h_queued h /\
    h_id h' = h_id h /\ h_address h' = h_address h /\ h_size h' = h_size h /\ h_mapUncached h' = h_mapUncached h /\
    h_dupes h' = h_dupes h - Z.b2z (negb internal) /\ h_internalDupes h' = h_internalDupes h - Z.b2z internal).
  { unfold drop_reference. apply deref_ok in Hl as Hd. rewrite Hd. cbn [bindM].
    destruct internal; unfold i32_dec; destruct (Z.ltb_spec (- 2 ^ 31) (h_internalDupes h)), (Z.ltb_spec (- 2 ^ 31) (h_dupes h)); try lia; cbn [bindM ok].
    1,2: eexists; split; [reflexivity|]; cbn [Z.b2z negb]; rewrite Z.sub_0_r; done.
    all: destruct (Z.ltb_spec (h_dupes h - 1) 0); [lia|]; destruct (Z.eqb_spec (h_dupes h - 1) 0); cbn [Z.b2z negb];
      [|eexists; split; [reflexivity|]; rewrite Z.sub_0_r; done].
    all: cbn [h_pinVirtAddress set_h_dupes]; rewrite Hv; cbn [negb Z.eqb bindM ok];
      rewrite (proj2 (deref_ok l _ _) (store_lookup l h _ n Hl)); cbn [bindM];
      unfold store at 1; cbn [nm_objects store nm_handles nm_unmapQueue nm_smmuAllocator nm_smmu nm_nextHandleId];
      rewrite list_insert_insert_eq; eexists; split; [reflexivity|]; rewrite Z.sub_0_r; done. }
  destruct Hdrop as (h' & Hdrop & Hv' & Hq' & Hid' & Ha' & Hs' & Hu' & Hd' & Hi').
  pose proof (drop_reference_ok _ _ _ _ Hok Hdrop) as Hok'. pose proof (store_lookup l h h' n Hl) as Hl'.
  unfold FreeHandle. change (NvMap_GetHandle handle n) with (nm_handles n !! handle). rewrite Hg, Hdrop. cbn [bindM].
  rewrite (proj2 (deref_ok l _ _) Hl'). cbn [bindM]. unfold TryRemoveHandle, released. rewrite <- Ha', <- Hs', <- Hu'.
  destruct ((h_dupes h' =? 0) && (h_internalDupes h' =? 0)) eqn:Elast.
  - rewrite expired_free.
    + eexists h', _. rewrite Elast. split; [reflexivity|]. simpl. rewrite Hid', Hid. split; [|done].
      destruct Hok' as [Hh Hn Hq Ho]. split; [|done..]. simpl. intros id k Hk. apply lookup_delete_Some in Hk as [_ Hk]. by apply Hh.
    + simpl. rewrite Hid', Hid. intros id Hk. apply lookup_delete_Some in Hk as [Hne Hk]. apply (sole_entry handle id l n Hok Hg) in Hk. congruence.
    + intros Hin. apply (no_queue _ Hok') in Hin as (h1 & H1 & Hq1). rewrite Hl' in H1. injection H1 as <-.
      apply (proj2 (ob_mapped _ (no_objects _ Hok' _ _ Hl'))); [by left|done].
  - rewrite (expired_owned handle) by done. eexists h', _. rewrite Elast. split; [reflexivity|]. done.
Qed.

(** A handle lives as long as it has references.  Freed once for each of its guest and internal
    references, in any order, an unmapped handle stays in the map up to the last call, which alone
    removes it and reports its address; the other calls report address zero, and no other handle
    is touched. *)
Theorem last_free_releases handle l h sessions n :
  nm_ok n -> nm_handles n !! handle = Some l -> nm_objects n !! l = Some h -> h_pinVirtAddress h = 0 ->
  h_dupes h = count_sessions false sessions -> h_internalDupes h = count_sessions true sessions ->
  sessions <> [] -> Z.of_nat (length sessions) < 2 ^ 31 ->
  exists n', free_all handle sessions n =
      inr (n', replicate (length sessions - 1) (released h 0) ++ [released h (h_address h)]) /\
    nm_ok n' /\ nm_handles n' = delete handle (nm_handles n).
Proof.
  revert h n. induction sessions as [|b rest IH]; intros h n Hok Hg Hl Hv Hd Hi Hne Hlen; [done|]. clear Hne.
  assert (Hpos : forall c, 0 <= count_sessions c rest <= Z.of_nat (length rest)).
  { intros c. unfold count_sessions. pose proof (count_occ_bound Bool.bool_dec c rest). lia. }
  pose proof (Hpos true) as Ht. pose proof (Hpos false) as Hf. cbn [length] in Hlen.
  assert (Hcons : forall c, count_sessions c (b :: rest) = count_sessions c rest + Z.b2z (eqb b c)).
  { intros c. unfold count_sessions. destruct b, c; simpl; lia. }
  rewrite Hcons in Hd, Hi.
  destruct (FreeHandle_counts handle l h b n Hok Hg Hl Hv) as (h' & n1 & Hfree & Hok1 & Hl1 & Hv1 & Ha & Hs & Hu & Hd1 & Hi1 & Hmap).
  { destruct b; simpl in *; lia. }
  assert (Hd2 : h_dupes h' = count_sessions false rest) by (destruct b; simpl in *; lia).
  assert (Hi2 : h_internalDupes h' = count_sessions true rest) by (destruct b; simpl in *; lia).
  cbn [free_all]. rewrite Hfree. cbn [bindM]. destruct rest as [|c rest].
  - rewrite Hd2, Hi2 in *. simpl in *. by eexists.
  - assert ((h_dupes h' =? 0) && (h_internalDupes h' =? 0) = false) as Hnz.
    { rewrite Hd2, Hi2. apply andb_false_iff. clear. unfold count_sessions. destruct c; simpl; [right|left]; lia. }
    rewrite Hnz in *. destruct (IH h' n1 Hok1) as (n' & Hall & Hok' & Hm'); [by rewrite Hmap|done..|lia|].
    rewrite Hall. cbn [bindM]. exists n'. unfold released in *. rewrite Ha, Hs, Hu in *. rewrite <- Hmap.
    replace (length (b :: c :: rest) - 1)%nat with (S (length (c :: rest) - 1)) by (simpl; lia). done.
Qed.

(** ** The internal references of the handles in the map *)

Definition internal_refs (n : NvMap) (id : Z) : option Z :=
  match nm_handles n !! id with Some l => h_internalDupes <$> nm_objects n !! l | None => None end.

Definition same_refs (n n' : NvMap) : Prop := forall id, internal_refs n' id = internal_refs n id.

Lemma store_refs l h h' n : nm_objects n !! l = Some h -> h_internalDupes h' = h_internalDupes h -> same_refs n (store l h' n).
Proof.
  intros Hl Hi id. unfold internal_refs. change (nm_handles (store l h' n)) with (nm_handles n). destruct (nm_handles n !! id) as [k|]; [|done].
  destruct (decide (l = k)) as [->|Hk]; [by rewrite (store_lookup k h), Hl; simpl; f_equal|by rewrite store_lookup_ne].
Qed.

Lemma UnmapHandle_refs l n h n' : nm_ok n -> nm_objects n !! l = Some h -> UnmapHandle l n = inr n' -> same_refs n n'.
Proof.
  intros Hok Hl Hu. destruct (UnmapHandle_shape _ _ _ _ Hok Hl Hu) as (a & m & ->). intros id.
  exact (store_refs l h (unmapped h) (set_nm_smmu a m (erase_entry l n)) Hl eq_refl id).
Qed.

Lemma pin_allocate_refs fuel l n n' address : nm_ok n -> pin_allocate fuel l n = inr (n', address) -> same_refs n n'.
Proof.
  revert n. induction fuel as [|fuel IH]; intros n Hok; simpl; [done|]. intros Hp.
  apply bindM_ok in Hp as (h & Hd & Hp). apply bindM_ok in Hp as ([a r] & Ha & Hp).
  assert (Hok1 : nm_ok (set_nm_smmu a (nm_smmu n) n)) by (by apply set_smmu_ok).
  destruct (negb (r =? 0)); [by inv_ok|]. destruct (nm_unmapQueue n) as [|k q] eqn:Eq; [done|].
  destruct (negb (h_pinVirtAddress h =? 0)); [|exact (IH _ Hok1 Hp)].
  apply bindM_ok in Hp as (n1 & Hu & Hp).
  assert (Hk : k ∈ nm_unmapQueue (set_nm_smmu a (nm_smmu n) n)) by (simpl; rewrite Eq; set_solver).
  apply (no_queue _ Hok1) in Hk as (h0 & H0 & Hq0). destruct (no_objects _ Hok1 _ _ H0) as [Hpin _].
  pose proof (UnmapHandle_refs _ _ _ _ Hok1 H0 Hu) as Hr. destruct (UnmapHandle_shape _ _ _ _ Hok1 H0 Hu) as (a' & m' & ->).
  apply IH in Hp; [|eapply unmapped_store_ok; try done; by apply Hpin]. intros id. rewrite Hp. apply Hr.
Qed.

Lemma PinHandle_refs fuel handle n n' address : nm_ok n -> PinHandle fuel handle n = inr (n', address) -> same_refs n n'.
Proof.
  intros Hok Hp. unfold PinHandle in Hp. destruct (NvMap_GetHandle handle n) as [l|]; [|by inv_ok].
  apply bindM_ok in Hp as (h & Hd & Hp). apply deref_ok in Hd. destruct (negb (h_pins h =? 0)).
  - apply bindM_ok in Hp as (v & _ & Hp). injection Hp as <- <-. by eapply store_refs.
  - destruct (h_queued h) eqn:Eq.
    + apply bindM_ok in Hp as (v & _ & Hp). injection Hp as <- <-. by eapply (store_refs l h _ (erase_entry l n)).
    + apply bindM_ok in Hp as ([n1 r] & Ha & Hp). pose proof (pin_allocate_refs _ _ _ _ _ Hok Ha) as Hr.
      apply pin_allocate_ok in Ha as (_ & _ & _ & Hsame); [|done].
      apply bindM_ok in Hp as (h1 & Hd1 & Hp). apply deref_ok in Hd1. apply bindM_ok in Hp as (m & _ & Hp).
      apply bindM_ok in Hp as (v & _ & Hp). injection Hp as <- <-. intros id. rewrite <- Hr.
      by apply (store_refs l h1 (set_h_pins v (set_h_pinVirtAddress r h1)) (set_nm_smmu (nm_smmuAllocator n1) m n1)).
Qed.

Lemma UnpinHandle_refs handle n n' : UnpinHandle handle n = inr n' -> same_refs n n'.
Proof.
  intros Hp. unfold UnpinHandle in Hp. destruct (NvMap_GetHandle handle n) as [l|]; [|by inv_ok].
  apply bindM_ok in Hp as (h & Hd & Hp). apply deref_ok in Hd. apply bindM_ok in Hp as (v & _ & Hp).
  destruct (v <? 0); [|destruct (v =? 0)]; injection Hp as <-; [by eapply store_refs| |by eapply store_refs].
  by apply (store_refs l h (set_h_queued true (set_h_pins v h)) (set_nm_unmapQueue (nm_unmapQueue n ++ [l]) n)).
Qed.

(** Dropping a guest reference leaves the internal ones alone. *)
Lemma drop_guest_refs l n n' : nm_ok n -> drop_reference l false n = inr n' -> same_refs n n' /\ nm_handles n' = nm_handles n.
Proof.
  intros Hok Hp. unfold drop_reference in Hp. apply bindM_ok in Hp as (h & Hd & Hp). apply deref_ok in Hd.
  apply bindM_ok in Hp as (d & _ & Hp). pose proof (store_refs l h (set_h_dupes d h) n Hd eq_refl) as H1.
  destruct (d <? 0); [by injection Hp as <-|]. destruct (d =? 0); [|by injection Hp as <-].
  apply bindM_ok in Hp as (n1 & Hu & Hp). apply bindM_ok in Hp as (h1 & Hd1 & Hp). apply deref_ok in Hd1. injection Hp as <-.
  assert (Hn1 : same_refs n n1 /\ nm_handles n1 = nm_handles n).
  { destruct (negb _); [|by injection Hu as <-]. pose proof (store_lookup l h (set_h_dupes d h) n Hd) as Hl.
    assert (Hc : nm_ok (store l (set_h_dupes d h) n)).
    { replace (set_h_dupes d h) with (set_h_dupes d (set_h_internalDupes (h_internalDupes h) h)) by (by destruct h). by eapply counters_ok. }
    pose proof (UnmapHandle_refs _ _ _ _ Hc Hl Hu) as H2. destruct (UnmapHandle_shape _ _ _ _ Hc Hl Hu) as (a & m & ->).
    split; [|done]. intros id. by rewrite H2, H1. }
  destruct Hn1 as [Hr Hh]. split; [|done]. intros id. rewrite <- Hr. by eapply store_refs.
Qed.

(** A guest's free removes only a handle without internal references. *)
Lemma FreeHandle_guest_refs handle held n r id :
  nm_ok n -> FreeHandle handle false held n = inr r ->
  internal_refs (fst r) id = internal_refs n id \/ (internal_refs n id = Some 0 /\ internal_refs (fst r) id = None).
Proof.
  intros Hok Hp. unfold FreeHandle in Hp. destruct (NvMap_GetHandle handle n) as [l|] eqn:Hg; [|injection Hp as <-; by left].
  apply bindM_ok in Hp as (n1 & Hdr & Hp). pose proof (drop_reference_ok _ _ _ _ Hok Hdr) as Hok1.
  destruct (drop_guest_refs _ _ _ Hok Hdr) as [Hr Hh].
  apply bindM_ok in Hp as (h & Hd & Hp). apply deref_ok in Hd. unfold TryRemoveHandle in Hp.
  destruct ((h_dupes h =? 0) && (h_internalDupes h =? 0)) eqn:Ez; injection Hp as <-; [|left; apply Hr].
  assert (Hl1 : nm_handles n1 !! handle = Some l) by (by rewrite Hh).
  destruct (no_handles _ Hok1 _ _ Hl1) as (h0 & H0 & Hid). assert (h0 = h) as -> by congruence.
  cbn [fst]. destruct (decide (id = handle)) as [->|Hne].
  - right. apply andb_true_iff in Ez as [_ Ez]. apply Z.eqb_eq in Ez. rewrite <- Hr. unfold internal_refs at 1. rewrite Hl1, Hd.
    split; [by simpl; rewrite Ez|]. unfold internal_refs. simpl. by rewrite Hid, lookup_delete_eq.
  - left. rewrite <- Hr. unfold internal_refs. simpl. by rewrite Hid, lookup_delete_ne.
Qed.

(** Freeing an internal reference drops one, and the handle with its last reference of any kind. *)
Lemma FreeHandle_internal_refs handle held n r k :
  nm_ok n -> internal_refs n handle = Some k -> FreeHandle handle true held n = inr r ->
  (internal_refs (fst r) handle = Some (k - 1) \/ (k = 1 /\ internal_refs (fst r) handle = None)) /\
  forall id, id <> handle -> internal_refs (fst r) id = internal_refs n id.
Proof.
  intros Hok Hk Hp. unfold internal_refs in Hk. unfold FreeHandle, NvMap_GetHandle in Hp. destruct (nm_handles n !! handle) as [l|] eqn:Hg; [|done].
  destruct (nm_objects n !! l) as [h|] eqn:Hl; [|done]. injection Hk as <-.
  apply bindM_ok in Hp as (n1 & Hdr & Hp). unfold drop_reference in Hdr. rewrite (proj2 (deref_ok l n h) Hl) in Hdr. cbn [bindM] in Hdr.
  apply bindM_ok in Hdr as (d & Hi & Hdr). apply i32_dec_ok in Hi. injection Hdr as <-.
  pose proof (store_lookup l h (set_h_internalDupes d h) n Hl) as Hl1.
  rewrite (proj2 (deref_ok l _ _) Hl1) in Hp. cbn [bindM] in Hp.
  destruct (no_handles _ Hok _ _ Hg) as (h0 & H0 & Hid). assert (h0 = h) as -> by congruence.
  assert (Hother : forall id, id <> handle -> internal_refs (store l (set_h_internalDupes d h) n) id = internal_refs n id).
  { intros id Hne. unfold internal_refs. change (nm_handles (store l (set_h_internalDupes d h) n)) with (nm_handles n).
    destruct (nm_handles n !! id) as [j|] eqn:Ej; [|done]. rewrite store_lookup_ne; [done|]. intros <-.
    apply Hne. by eapply sole_entry. }
  unfold TryRemoveHandle in Hp. destruct (_ && _) eqn:Ez; injection Hp as <-; cbn [fst].
  - apply andb_true_iff in Ez as [_ Ez]. apply Z.eqb_eq in Ez. simpl in Ez. split.
    + right. split; [lia|]. unfold internal_refs. simpl. by rewrite Hid, lookup_delete_eq.
    + intros id Hne. rewrite <- (Hother id Hne). unfold internal_refs. simpl. by rewrite Hid, lookup_delete_ne.
  - split; [|exact Hother]. left. unfold internal_refs. change (nm_handles (store l (set_h_internalDupes d h) n)) with (nm_handles n).
    rewrite Hg, Hl1. simpl. by subst.
Qed.

(** The steps a guest can cause, whose sessions are never internal. *)
Inductive guest_step : NvMap -> NvMap -> Prop :=
| guest_create size n n' r : dev_Create size n = inr (n', r) -> guest_step n n'
| guest_from_id id n n' r : dev_FromId false id n = inr (n', r) -> guest_step n n'
| guest_alloc handle flags align kind address n n' r : dev_Alloc handle flags align kind address n = inr (n', r) -> guest_step n n'
| guest_free held handle n n' r : dev_Free false held handle n = inr (n', r) -> guest_step n n'
| guest_pin fuel handle n n' r : PinHandle fuel handle n = inr (n', r) -> guest_step n n'
| guest_unpin handle n n' : UnpinHandle handle n = inr n' -> guest_step n n'.

Lemma guest_step_ok n n' : nm_ok n -> guest_step n n' -> nm_ok n'.
Proof.
  intros Hok Hg. apply (nvmap_step_ok n n' Hok). destruct Hg; [by eapply step_create|by eapply step_from_id|by eapply step_alloc|by eapply step_free|by eapply step_pin|by eapply step_unpin].
Qed.

Lemma CreateHandle_refs size n id : nm_ok n ->
  internal_refs (fst (CreateHandle size n)) id = internal_refs n id \/
  (internal_refs n id = None /\ internal_refs (fst (CreateHandle size n)) id = Some 0).
Proof.
  intros Hok. unfold CreateHandle. destruct (size =? 0); [by left|]. cbn [fst]. unfold AddHandle. cbn [nm_handles].
  assert (Hkeep : forall hs : gmap Z nat, hs !! id = nm_handles n !! id ->
    internal_refs (mk_nvmap (nm_objects n ++ [Handle_new size (nm_nextHandleId n)]) hs (nm_unmapQueue n) (nm_smmuAllocator n) (nm_smmu n)
      (u32 (nm_nextHandleId n + HandleIdIncrement))) id = internal_refs n id).
  { intros hs Hhs. unfold internal_refs. cbn [nm_handles nm_objects]. rewrite Hhs. destruct (nm_handles n !! id) as [l|] eqn:El; [|done].
    destruct (no_handles _ Hok _ _ El) as (h & Hl & _). rewrite Hl. by rewrite (lookup_app_l_Some _ _ _ _ Hl). }
  destruct (nm_handles n !! nm_nextHandleId n) as [l|] eqn:En; [left; by apply Hkeep|].
  destruct (decide (id = nm_nextHandleId n)) as [->|Hne].
  - right. unfold internal_refs at 1. rewrite En. split; [done|]. unfold internal_refs. simpl. rewrite lookup_insert_eq.
    by rewrite lookup_app_r, Nat.sub_diag by lia.
  - left. apply Hkeep. by rewrite lookup_insert_ne.
Qed.

(** A guest neither adds nor drops internal references: it can only create handles without any
    and remove such handles. *)
Lemma guest_refs n n' id : nm_ok n -> guest_step n n' ->
  internal_refs n' id = internal_refs n id \/ (internal_refs n id = None /\ internal_refs n' id = Some 0) \/
  (internal_refs n id = Some 0 /\ internal_refs n' id = None).
Proof.
  intros Hok Hs. destruct Hs as [size n n' r Hs|id' n n' r Hs|handle flags align kind address n n' r Hs|held handle n n' r Hs|fuel handle n n' r Hs|handle n n' Hs].
  - unfold dev_Create in Hs. pose proof (CreateHandle_refs (u32 (AlignUp size PAGE_SIZE)) n id Hok) as Hc.
    destruct (CreateHandle _ n) as [n1 [e|l]]; cbn [fst] in Hc; [injection Hs as <- <-; tauto|].
    apply bindM_ok in Hs as (h & Hd & Hs). apply deref_ok in Hd. injection Hs as <- <-.
    rewrite (store_refs l h (set_h_origSize size h) n1 Hd eq_refl id). tauto.
  - left. unfold dev_FromId in Hs. destruct (id' =? 0); [by injection Hs as <-|]. destruct (NvMap_GetHandle id' n) as [l|]; [|by injection Hs as <-].
    apply bindM_ok in Hs as (h & Hd & Hs). apply deref_ok in Hd. apply bindM_ok in Hs as ([h1 r1] & Hdup & Hs). injection Hs as <- <-.
    apply (store_refs l h); [done|]. unfold Handle_Duplicate in Hdup. destruct (h_allocated h); cbn [negb] in Hdup; inv_ok; done.
  - left. unfold dev_Alloc in Hs. destruct (handle =? 0); [by injection Hs as <-|]. destruct (negb _); [by injection Hs as <-|]. cbv zeta in Hs.
    destruct (NvMap_GetHandle handle n) as [l|]; [|by injection Hs as <-].
    apply bindM_ok in Hs as (h & Hd & Hs). apply deref_ok in Hd. apply bindM_ok in Hs as ([h1 r1] & Hal & Hs). injection Hs as <- <-.
    apply (store_refs l h); [done|]. unfold Handle_Alloc in Hal. destruct (h_allocated h); [by inv_ok|]. destruct (address =? 0); [done|]. cbv zeta in Hal. by inv_ok.
  - unfold dev_Free in Hs. destruct (handle =? 0); [left; by injection Hs as <-|]. apply bindM_ok in Hs as ([n1 i] & Hf & Hs). injection Hs as <- <-.
    pose proof (FreeHandle_guest_refs _ _ _ _ id Hok Hf) as Hr. cbn [fst] in Hr. tauto.
  - left. by eapply PinHandle_refs.
  - left. by eapply UnpinHandle_refs.
Qed.

(** ** Pinning *)

(** Pinning maps a handle into the SMMU.  Where the SMMU allocator has room, pinning an unpinned
    handle that is not waiting gives it the next range, in which the SMMU then translates to the
    handle's memory, and every other address as before; unpinning and pinning it again gives the
    same address without touching the SMMU. *)
Theorem PinHandle_maps fuel handle l h n :
  nm_ok n -> nm_handles n !! handle = Some l -> nm_objects n !! l = Some h -> h_pins h = 0 -> h_queued h = false ->
  alloc_ok 32 (nm_smmuAllocator n) -> as_ok smmu_params (nm_smmu n) ->
  as_vaLimit (al_map (nm_smmuAllocator n)) <= as_vaLimit (nm_smmu n) ->
  0 < u32 (h_alignedSize h) -> 0 < h_address h ->
  let address := al_currentLinearAllocEnd (nm_smmuAllocator n) in
  address + u32 (h_alignedSize h) <= as_vaLimit (al_map (nm_smmuAllocator n)) ->
  exists n1 n2 n3, PinHandle (S fuel) handle n = inr (n1, address) /\
    UnpinHandle handle n1 = inr n2 /\ PinHandle 0 handle n2 = inr (n3, address) /\ nm_smmu n3 = nm_smmu n1 /\
    forall a, translate true (as_blocks (nm_smmu n1)) a =
      if (address <=? a) && (a <? address + u32 (h_alignedSize h)) then Some (h_address h + (a - address), false)
      else translate true (as_blocks (nm_smmu n)) a.
Proof.
  intros Hok Hg Hl Hp Hq Ha Hm Hlim Hs Haddr address Hroom. pose proof (wrap_range 32 (h_alignedSize h) ltac:(lia)) as Hu.
  destruct (Allocate_linear 32 (u32 (h_alignedSize h)) (nm_smmuAllocator n)) as (a' & Hal & Hok' & Hr & _); [done|lia|done|]. fold address in Hal, Hr.
  destruct (MapLocked_view smmu_params address (h_address h) (u32 (h_alignedSize h)) false (nm_smmu n)) as (m' & Hmap & _ & _ & _ & Hview); [done|lia..|].
  assert (Hpin : PinHandle (S fuel) handle n = inr (store l (set_h_pins 1 (set_h_pinVirtAddress address h)) (set_nm_smmu a' m' n), address)).
  { unfold PinHandle. change (NvMap_GetHandle handle n) with (nm_handles n !! handle). rewrite Hg, (proj2 (deref_ok l n h) Hl). cbn [bindM].
    rewrite Hp, Hq. cbn [Z.eqb negb pin_allocate]. rewrite (proj2 (deref_ok l n h) Hl). cbn [bindM]. rewrite Hal. cbn [bindM].
    destruct (Z.eqb_spec address 0); [lia|]. cbn [negb ok bindM]. rewrite (proj2 (deref_ok l (set_nm_smmu a' (nm_smmu n) n) h) Hl). cbn [bindM].
    cbn [nm_smmu set_nm_smmu]. rewrite Hmap. cbn [bindM]. by rewrite Hp. }
  pose proof (PinHandle_ok _ _ _ _ _ Hok Hpin) as Hok1.
  set (n1 := store l (set_h_pins 1 (set_h_pinVirtAddress address h)) (set_nm_smmu a' m' n)) in *.
  assert (Hl1 : nm_objects n1 !! l = Some (set_h_pins 1 (set_h_pinVirtAddress address h))) by (by eapply (store_lookup l h)).
  set (n2 := store l (set_h_queued true (set_h_pins 0 (set_h_pinVirtAddress address h))) (set_nm_unmapQueue (nm_unmapQueue n1 ++ [l]) n1)).
  assert (Hun : UnpinHandle handle n1 = inr n2).
  { unfold UnpinHandle. change (NvMap_GetHandle handle n1) with (nm_handles n !! handle). by rewrite Hg, (proj2 (deref_ok l n1 _) Hl1). }
  assert (Hl2 : nm_objects n2 !! l = Some (set_h_queued true (set_h_pins 0 (set_h_pinVirtAddress address h)))).
  { by eapply (store_lookup l (set_h_pins 1 (set_h_pinVirtAddress address h))). }
  eexists n1, n2, _. split; [done|]. split; [done|]. split; [|split; [|exact Hview]].
  - unfold PinHandle. change (NvMap_GetHandle handle n2) with (nm_handles n !! handle). by rewrite Hg, (proj2 (deref_ok l n2 _) Hl2).
  - done.
Qed.

(** When the SMMU allocator is full, pinning an unmapped handle does not free the waiting handles,
    since the loop tests the address of the handle being pinned, and never returns. *)
Lemma PinHandle_never_frees fuel handle l h n :
  nm_ok n -> nm_handles n !! handle = Some l -> nm_objects n !! l = Some h -> h_pins h = 0 -> h_queued h = false ->
  Allocate 32 (u32 (h_alignedSize h)) (nm_smmuAllocator n) = inr (nm_smmuAllocator n, 0) ->
  PinHandle fuel handle n =
    inl (if (fuel =? 0)%nat then Suspended "PinHandle"
         else if decide (nm_unmapQueue n = []) then Undefined "front of an empty list" else Suspended "PinHandle").
Proof.
  intros Hok Hg Hl Hp Hq Hfull.
  assert (Hv : h_pinVirtAddress h = 0).
  { destruct (Z.eq_dec (h_pinVirtAddress h) 0) as [|Hv]; [done|]. apply (ob_mapped _ (no_objects _ Hok _ _ Hl)) in Hv as [Hv|Hv]; [congruence|lia]. }
  assert (Hloop : pin_allocate fuel l n = inl (if (fuel =? 0)%nat then Suspended "PinHandle"
    else if decide (nm_unmapQueue n = []) then Undefined "front of an empty list" else Suspended "PinHandle")).
  { induction fuel as [|fuel IH]; [done|]. cbn [pin_allocate]. rewrite (proj2 (deref_ok l n h) Hl). cbn [bindM]. rewrite Hfull. cbn [bindM].
    replace (set_nm_smmu (nm_smmuAllocator n) (nm_smmu n) n) with n by (by destruct n). cbn [Z.eqb negb].
    destruct (nm_unmapQueue n) as [|k q]; [done|]. rewrite Hv. cbn [Z.eqb negb bindM ok]. rewrite IH. by destruct fuel. }
  unfold PinHandle. change (NvMap_GetHandle handle n) with (nm_handles n !! handle). rewrite Hg, (proj2 (deref_ok l n h) Hl). cbn [bindM].
  rewrite Hp, Hq. cbn [Z.eqb negb]. by rewrite Hloop.
Qed.

(** ** Witnesses: a handle of two pages, allocated and shared with the emulator *)

Definition example_created : M NvMap := let! n := NvMap_new in let! (n, _) := dev_Create 0x1800 n in ok n.
Definition example_allocated : M NvMap := let! n := example_created in let! (n, _) := dev_Alloc 4 0 0x1000 0 0x7000000 n in ok n.
Definition example_shared : M NvMap := let! n := example_allocated in let! (n, _) := dev_FromId true 4 n in ok n.

Definition value {A} (m : M A) (d : A) : A := match m with inr a => a | inl _ => d end.
Definition no_nvmap : NvMap := mk_nvmap [] ∅ [] (mk_allocator (mk_as_map [] 0 []) 0 0) (mk_as_map [] 0 []) 0.

Lemma nvmap_reachable_ok_witness : nm_ok (value example_shared no_nvmap).
Proof.
  apply (nvmap_reachable_ok (value NvMap_new no_nvmap)); [vm_compute; reflexivity|].
  eapply rtc_l; [eapply (step_create 0x1800 _ (value example_created no_nvmap)); vm_compute; reflexivity|].
  eapply rtc_l; [eapply (step_alloc 4 0 0x1000 0 0x7000000 _ (value example_allocated no_nvmap)); vm_compute; reflexivity|].
  eapply rtc_l; [eapply (step_from_id true 4 _ (value example_shared no_nvmap)); vm_compute; reflexivity|]. apply rtc_refl.
Defined.

Definition example_handle : Handle := mk_handle 0x1000 0x2000 0x2000 0x1800 1 1 4 0 0 false false false 0x7000000 false 0 true.

Lemma example_shared_ok : nm_ok (value example_shared no_nvmap).
Proof.
  assert (H0 : NvMap_new = inr (value NvMap_new no_nvmap)) by (vm_compute; reflexivity). apply NvMap_new_ok in H0.
  assert (H1 : nm_ok (value example_created no_nvmap)) by (eapply nvmap_step_ok; [exact H0|]; eapply (step_create 0x1800); vm_compute; reflexivity).
  assert (H2 : nm_ok (value example_allocated no_nvmap)) by (eapply nvmap_step_ok; [exact H1|]; eapply (step_alloc 4 0 0x1000 0 0x7000000); vm_compute; reflexivity).
  eapply nvmap_step_ok; [exact H2|]. eapply (step_from_id true 4); vm_compute; reflexivity.
Qed.

Lemma last_free_releases_witness :
  exists n', free_all 4 [true; false] (value example_shared no_nvmap) =
    inr (n', [released example_handle 0; released example_handle 0x7000000]) /\ nm_ok n'.
Proof.
  destruct (last_free_releases 4 0 example_handle [true; false] (value example_shared no_nvmap) example_shared_ok) as (n' & H1 & H2 & _);
    try (vm_compute; reflexivity); try discriminate.
  exists n'. split; [exact H1|exact H2].
Defined.

Lemma example_allocator_ok : alloc_ok 32 (mk_allocator (mk_as_map [mk_block 0 0 false] 0xFFFFFFFF []) 0x1000 0x1000).
Proof.
  split; cbn [al_map al_currentLinearAllocEnd as_vaLimit as_blocks]; [|lia|].
  - split; cbn [as_vaLimit as_blocks va_width allocator_params]; [|lia]. repeat split. constructor; [done|constructor].
  - intros x Hx. unfold translate. simpl. by destruct (0 <=? x).
Qed.

Lemma PinHandle_maps_witness :
  exists n1, PinHandle 1 4 (value example_shared no_nvmap) = inr (n1, 0x1000) /\
    translate true (as_blocks (nm_smmu n1)) 0x2345 = Some (0x7001345, false).
Proof.
  assert (Ea : nm_smmuAllocator (value example_shared no_nvmap) = mk_allocator (mk_as_map [mk_block 0 0 false] 0xFFFFFFFF []) 0x1000 0x1000)
    by (vm_compute; reflexivity).
  assert (Em : nm_smmu (value example_shared no_nvmap) = mk_as_map [mk_block 0 0 false] 0xFFFFFFFF []) by (vm_compute; reflexivity).
  pose proof (PinHandle_maps 0 4 0 example_handle (value example_shared no_nvmap) example_shared_ok eq_refl eq_refl eq_refl eq_refl) as H.
  rewrite Ea, Em in H.
  pose proof (lo_map _ _ example_allocator_ok) as [Hb Hl].
  destruct (H example_allocator_ok (mk_as_ok smmu_params _ Hb Hl) ltac:(simpl; lia) eq_refl eq_refl ltac:(vm_compute; discriminate))
    as (n1 & _ & _ & H1 & _ & _ & _ & H2).
  exists n1. split; [exact H1|exact (H2 0x2345)].
Defined.
