(* ===== verification/Layout.v ===== *)
(** * Texture layouts ([gpu/texture/layout.{h,cpp}])

    Guest textures are stored block-linear: rows of blocks (ROBs), blocks of GOBs of 64 bytes by 8
    lines, and inside a GOB sectors of 16 bytes in a swizzled order.  The emulator converts them to
    and from linear images with [CopyBlockLinearInternal], whose loops visit the sectors in the
    order of the block-linear image.  Which bytes are copied where depends on the dimensions only,
    so a conversion is the sequence of the [memcpy]s it makes, applied in one direction or in the
    other; pointers are offsets from the start of the image. *)

From S2P Require Import Prelude Common.

(** ** Dimensions and formats *)

Record Dimensions : Type := mk_dimensions {
  d_width : Z;
  d_height : Z;
  d_depth : Z }.

(** The part of [FormatBase] the layout depends on. *)
Record FormatBase : Type := mk_format {
  f_bpb : Z;
  f_blockHeight : Z;
  f_blockWidth : Z }.

Definition Format_GetSize (f : FormatBase) (width height depth : Z) : Z :=
  u64 (DivideCeil width (f_blockWidth f) * DivideCeil height (f_blockHeight f) * f_bpb f * depth).

Inductive TileConfig : Type :=
| TileLinear
| TilePitch (pitch : Z)
| TileBlock (blockHeight blockDepth : Z).

#[global] Instance Dimensions_eq_dec : EqDecision Dimensions.
Proof. solve_decision. Defined.
#[global] Instance FormatBase_eq_dec : EqDecision FormatBase.
Proof. solve_decision. Defined.
#[global] Instance TileConfig_eq_dec : EqDecision TileConfig.
Proof. solve_decision. Defined.

Definition SectorWidth : Z := 16.
Definition SectorHeight : Z := 2.
Definition GobWidth : Z := 64.
Definition GobHeight : Z := 8.
Definition SectorLinesInGob : Z := (GobWidth / SectorWidth) * GobHeight.

(** ** Sizes *)

Definition GetBlockLinearLayerSize (dimensions : Dimensions)
    (formatBlockWidth formatBlockHeight formatBpb gobBlockHeight gobBlockDepth : Z) : Z :=
  let robLineWidth := DivideCeil (d_width dimensions) formatBlockWidth in
  let robLineBytes := AlignUp (u64 (robLineWidth * formatBpb)) GobWidth in
  let robHeight := u64 (GobHeight * gobBlockHeight) in
  let surfaceHeightLines := DivideCeil (d_height dimensions) formatBlockHeight in
  let surfaceHeightRobs := DivideCeil surfaceHeightLines robHeight in
  let robDepth := u32 (AlignUp (d_depth dimensions) gobBlockDepth) in
  u64 (robLineBytes * robHeight * surfaceHeightRobs * robDepth).

(** [std::bit_ceil]. *)
Definition bit_ceil (z : Z) : Z := if z <=? 1 then 1 else 2 ^ Z.log2_up z.

Definition CalculateBlockGobs (blockGobs surfaceGobs : Z) : Z :=
  if blockGobs <? surfaceGobs then blockGobs else bit_ceil surfaceGobs.

(** The loop over the levels of the mipmapped [GetBlockLinearLayerSize]. *)
Fixpoint sum_levels (levelCount : nat) (gobsWidth gobsHeight gobsDepth gobBlockHeight gobBlockDepth totalSize : Z) : Z :=
  match levelCount with
  | O => totalSize
  | S levelCount =>
      let totalSize := u64 (totalSize +
        (GobWidth * gobsWidth) * (GobHeight * AlignUp gobsHeight gobBlockHeight) * AlignUp gobsDepth gobBlockDepth) in
      let gobsWidth := Z.max (gobsWidth / 2) 1 in
      let gobsHeight := Z.max (gobsHeight / 2) 1 in
      let gobsDepth := Z.max (gobsDepth / 2) 1 in
      sum_levels levelCount gobsWidth gobsHeight gobsDepth
        (CalculateBlockGobs gobBlockHeight gobsHeight) (CalculateBlockGobs gobBlockDepth gobsDepth) totalSize
  end.

Definition gobs_width (dimensions : Dimensions) (formatBlockWidth formatBpb : Z) : Z :=
  DivideCeil (u64 (DivideCeil (d_width dimensions) formatBlockWidth * formatBpb)) GobWidth.
Definition gobs_height (dimensions : Dimensions) (formatBlockHeight : Z) : Z :=
  DivideCeil (DivideCeil (d_height dimensions) formatBlockHeight) GobHeight.

Definition GetBlockLinearLayerSize_levels (dimensions : Dimensions)
    (formatBlockHeight formatBlockWidth formatBpb gobBlockHeight gobBlockDepth : Z) (levelCount : nat) (isMultiLayer : bool) : Z :=
  let layerAlignment := u64 (GobWidth * GobHeight * gobBlockHeight * gobBlockDepth) in
  let totalSize := sum_levels levelCount (gobs_width dimensions formatBlockWidth formatBpb) (gobs_height dimensions formatBlockHeight)
    (d_depth dimensions) gobBlockHeight gobBlockDepth 0 in
  if isMultiLayer then AlignUp totalSize layerAlignment else totalSize.

Record MipLevelLayout : Type := mk_mip_level {
  ml_dimensions : Dimensions;
  ml_linearSize : Z;
  ml_targetLinearSize : Z;
  ml_blockLinearSize : Z;
  ml_blockHeight : Z;
  ml_blockDepth : Z }.

Fixpoint mip_levels (levelCount : nat) (dimensions : Dimensions)
    (formatBlockHeight formatBlockWidth formatBpb targetFormatBlockHeight targetFormatBlockWidth targetFormatBpb : Z)
    (gobsWidth gobsHeight gobBlockHeight gobBlockDepth : Z) : list MipLevelLayout :=
  match levelCount with
  | O => []
  | S levelCount =>
      let linearSize := u64 (DivideCeil (d_width dimensions) formatBlockWidth * formatBpb *
        DivideCeil (d_height dimensions) formatBlockHeight * d_depth dimensions) in
      let targetLinearSize :=
        if targetFormatBpb =? 0 then linearSize
        else u64 (DivideCeil (d_width dimensions) targetFormatBlockWidth * formatBpb *
          DivideCeil (d_height dimensions) targetFormatBlockHeight * d_depth dimensions) in
      let level := mk_mip_level dimensions linearSize targetLinearSize
        (u64 ((GobWidth * gobsWidth) * (GobHeight * AlignUp gobsHeight gobBlockHeight) * u32 (AlignUp (d_depth dimensions) gobBlockDepth)))
        gobBlockHeight gobBlockDepth in
      let gobsWidth := Z.max (gobsWidth / 2) 1 in
      let gobsHeight := Z.max (gobsHeight / 2) 1 in
      let dimensions := mk_dimensions (Z.max (d_width dimensions / 2) 1) (Z.max (d_height dimensions / 2) 1) (Z.max (d_depth dimensions / 2) 1) in
      level :: mip_levels levelCount dimensions formatBlockHeight formatBlockWidth formatBpb
        targetFormatBlockHeight targetFormatBlockWidth targetFormatBpb gobsWidth gobsHeight
        (CalculateBlockGobs gobBlockHeight gobsHeight) (CalculateBlockGobs gobBlockDepth (d_depth dimensions))
  end.

Definition GetBlockLinearMipLayout (dimensions : Dimensions)
    (formatBlockHeight formatBlockWidth formatBpb targetFormatBlockHeight targetFormatBlockWidth targetFormatBpb : Z)
    (gobBlockHeight gobBlockDepth : Z) (levelCount : nat) : list MipLevelLayout :=
  mip_levels levelCount dimensions formatBlockHeight formatBlockWidth formatBpb
    targetFormatBlockHeight targetFormatBlockWidth targetFormatBpb
    (gobs_width dimensions formatBlockWidth formatBpb) (gobs_height dimensions formatBlockHeight) gobBlockHeight gobBlockDepth.

(** [GuestTexture::GetLayerStride] for a texture without a hint. *)
Definition GetLayerStride (layerStride : Z) (dimensions : Dimensions) (f : FormatBase) (tileConfig : TileConfig)
    (mipLevelCount : nat) (layerCount : Z) : Z :=
  if negb (layerStride =? 0) then layerStride
  else
    match tileConfig with
    | TileLinear => u32 (Format_GetSize f (d_width dimensions) (d_height dimensions) (d_depth dimensions))
    | TilePitch pitch => u32 (d_height dimensions * pitch)
    | TileBlock blockHeight blockDepth =>
        u32 (GetBlockLinearLayerSize_levels dimensions (f_blockHeight f) (f_blockWidth f) (f_bpb f) blockHeight blockDepth mipLevelCount (1 <? layerCount))
    end.

(** ** The copies of a conversion *)

Record CopyOp : Type := mk_copy {
  cp_linear : Z;
  cp_block : Z;
  cp_size : Z }.

(** A loop whose body makes copies and moves the sector pointer. *)
Fixpoint for_each (f : Z -> Z -> list CopyOp * Z) (l : list Z) (sector : Z) : list CopyOp * Z :=
  match l with
  | [] => ([], sector)
  | i :: l =>
      let (c1, sector) := f i sector in
      let (c2, sector) := for_each f l sector in
      (c1 ++ c2, sector)
  end.

(** The Morton order of the sectors of a GOB. *)
Definition sector_x (index : Z) : Z := Z.lor (Z.land (Z.shiftl index 3) 16) (Z.land (Z.shiftl index 1) 32).
Definition sector_y (index : Z) : Z := Z.lor (Z.land (Z.shiftr index 1) 6) (Z.land index 1).

Section copy.
Context (formatBpb robWidthUnalignedBytes blockDepth blockPaddingZ gobYOffset gobZOffset blockPaddingOffset : Z).

(** [copySector] for whole blocks. *)
Definition copy_sector (linearSector xT sector : Z) : list CopyOp * Z :=
  ([mk_copy linearSector sector SectorWidth], sector + SectorWidth).

(** [copySector] for the block that is cut off at the right: pixel by pixel. *)
Fixpoint copy_pixels (fuel : nat) (pixelOffset linearSector xT sector : Z) : list CopyOp * Z :=
  match fuel with
  | O => ([], sector)
  | S fuel =>
      if pixelOffset <? SectorWidth then
        let c1 := if xT <? blockPaddingOffset then [mk_copy (linearSector + pixelOffset) sector formatBpb] else [] in
        let (c2, sector) := copy_pixels fuel (pixelOffset + formatBpb) linearSector (xT + formatBpb) (sector + formatBpb) in
        (c1 ++ c2, sector)
      else ([], sector)
  end.

Definition copy_partial_sector (linearSector xT sector : Z) : list CopyOp * Z :=
  copy_pixels (Z.to_nat SectorWidth) 0 linearSector xT sector.

(** [extent] is [blockExtentY] in the last ROB. *)
Definition deswizzleGob (copySector : Z -> Z -> Z -> list CopyOp * Z) (extent : option Z) (blockHeight linearGob gobY sector : Z) : list CopyOp * Z :=
  for_each (fun index sector =>
    let xT := sector_x index in
    let yT := sector_y index in
    match extent with
    | None => copySector (linearGob + yT * robWidthUnalignedBytes + xT) xT sector
    | Some blockExtentY =>
        if negb (gobY =? blockHeight - 1) || (yT <? blockExtentY) then
          copySector (linearGob + yT * robWidthUnalignedBytes + xT) xT sector
        else ([], sector + SectorWidth)
    end) (seqZ 0 SectorLinesInGob) sector.

Definition deswizzleBlock (copySector : Z -> Z -> Z -> list CopyOp * Z) (extent : option Z) (blockHeight linearBlock sector : Z) : list CopyOp * Z :=
  let (copies, sector) :=
    for_each (fun gobZ sector =>
      for_each (fun gobY sector =>
        deswizzleGob copySector extent blockHeight (linearBlock + gobZ * gobZOffset + gobY * gobYOffset) gobY sector)
        (seqZ 0 blockHeight) sector) (seqZ 0 blockDepth) sector in
  (copies, sector + blockPaddingZ).

Definition deswizzleRob (extent : option Z) (blockHeight blockPaddingY robWidthBlocks : Z) (hasPaddingBlock : bool) (linearRob sector : Z) : list CopyOp * Z :=
  let (c1, sector) :=
    for_each (fun block sector =>
      let (copies, sector) := deswizzleBlock copy_sector extent blockHeight (linearRob + block * GobWidth) sector in
      (copies, match extent with Some _ => sector + blockPaddingY | None => sector end))
      (seqZ 0 robWidthBlocks) sector in
  if hasPaddingBlock then
    let (c2, sector) := deswizzleBlock copy_partial_sector extent blockHeight (linearRob + robWidthBlocks * GobWidth) sector in
    (c1 ++ c2, sector)
  else (c1, sector).

End copy.

Definition CopyBlockLinearInternal (dimensions : Dimensions)
    (formatBlockWidth formatBlockHeight formatBpb gobBlockHeight gobBlockDepth : Z) : list CopyOp :=
  let robWidthUnalignedBytes := u64 ((d_width dimensions / formatBlockWidth) * formatBpb) in
  let robWidthBytes := AlignUp robWidthUnalignedBytes GobWidth in
  let robWidthBlocks := robWidthUnalignedBytes / GobWidth in
  let robHeight := u64 (GobHeight * gobBlockHeight) in
  let surfaceHeightLines := d_height dimensions / formatBlockHeight in
  let surfaceHeightRobs := surfaceHeightLines / robHeight in
  let blockDepth := Z.min (d_depth dimensions) gobBlockDepth in
  let blockPaddingZ := u64 (SectorWidth * SectorHeight * gobBlockHeight * (gobBlockDepth - blockDepth)) in
  let hasPaddingBlock := negb (robWidthUnalignedBytes =? robWidthBytes) in
  let blockPaddingOffset := if hasPaddingBlock then GobWidth - (robWidthBytes - robWidthUnalignedBytes) else 0 in
  let robBytes := robWidthUnalignedBytes * robHeight in
  let gobYOffset := robWidthUnalignedBytes * GobHeight in
  let gobZOffset := robWidthUnalignedBytes * surfaceHeightLines in
  let rob extent blockHeight blockPaddingY :=
    deswizzleRob formatBpb robWidthUnalignedBytes blockDepth blockPaddingZ gobYOffset gobZOffset blockPaddingOffset
      extent blockHeight blockPaddingY robWidthBlocks hasPaddingBlock in
  let (c1, sector) := for_each (fun r sector => rob None gobBlockHeight 0 (r * robBytes) sector) (seqZ 0 surfaceHeightRobs) 0 in
  if negb (surfaceHeightLines mod robHeight =? 0) then
    let blockHeight := (AlignUp surfaceHeightLines GobHeight - surfaceHeightRobs * robHeight) / GobHeight in
    let alignedSurfaceLines := DivideCeil (d_height dimensions) formatBlockHeight in
    let blockExtentY :=
      if IsAligned alignedSurfaceLines GobHeight then GobHeight else alignedSurfaceLines - AlignDown alignedSurfaceLines GobHeight in
    c1 ++ fst (rob (Some blockExtentY) blockHeight ((gobBlockHeight - blockHeight) * (SectorWidth * SectorWidth * SectorHeight))
      (surfaceHeightRobs * robBytes) sector)
  else c1.

(** ** The conversions *)

(** [memcpy] of [n] bytes between two images that do not overlap. *)
Definition memcpy (dst src : Z -> Z) (d s n : Z) : Z -> Z :=
  fun a => if (d <=? a) && (a <? d + n) then src (s + (a - d)) else dst a.

Definition to_linear (blockLinear : Z -> Z) (linear : Z -> Z) (c : CopyOp) : Z -> Z :=
  memcpy linear blockLinear (cp_linear c) (cp_block c) (cp_size c).
Definition to_block_linear (linear : Z -> Z) (blockLinear : Z -> Z) (c : CopyOp) : Z -> Z :=
  memcpy blockLinear linear (cp_block c) (cp_linear c) (cp_size c).

Definition CopyBlockLinearToLinear (dimensions : Dimensions)
    (formatBlockWidth formatBlockHeight formatBpb gobBlockHeight gobBlockDepth : Z) (blockLinear linear : Z -> Z) : Z -> Z :=
  fold_left (to_linear blockLinear)
    (CopyBlockLinearInternal dimensions formatBlockWidth formatBlockHeight formatBpb gobBlockHeight gobBlockDepth) linear.

Definition CopyLinearToBlockLinear (dimensions : Dimensions)
    (formatBlockWidth formatBlockHeight formatBpb gobBlockHeight gobBlockDepth : Z) (linear blockLinear : Z -> Z) : Z -> Z :=
  fold_left (to_block_linear linear)
    (CopyBlockLinearInternal dimensions formatBlockWidth formatBlockHeight formatBpb gobBlockHeight gobBlockDepth) blockLinear.

(** The line copies of the pitch-linear conversions. *)
Definition pitch_copies (f : FormatBase) (dimensions : Dimensions) (pitch : Z) : list CopyOp :=
  let sizeLine := Format_GetSize f (d_width dimensions) 1 1 in
  map (fun line => mk_copy (line * sizeLine) (line * pitch) sizeLine) (seqZ 0 (d_height dimensions)).

Definition CopyPitchLinearToLinear (f : FormatBase) (dimensions : Dimensions) (pitch : Z) (guestInput linearOutput : Z -> Z) : Z -> Z :=
  fold_left (to_linear guestInput) (pitch_copies f dimensions pitch) linearOutput.
Definition CopyLinearToPitchLinear (f : FormatBase) (dimensions : Dimensions) (pitch : Z) (linearInput guestOutput : Z -> Z) : Z -> Z :=
  fold_left (to_block_linear linearInput) (pitch_copies f dimensions pitch) guestOutput.

(** ** Loops *)

(** A loop whose body always moves the sector pointer by [k]. *)
Lemma for_each_stride f m n k s :
  0 <= n -> (forall i s, m <= i < m + n -> snd (f i s) = s + k) ->
  snd (for_each f (seqZ m n) s) = s + n * k /\
  forall c, In c (fst (for_each f (seqZ m n) s)) <-> exists i, m <= i < m + n /\ In c (fst (f i (s + (i - m) * k))).
Proof.
  intros Hn. revert m s. pattern n. apply natlike_ind; [|clear n Hn; intros n Hn IH|done]; intros m s Hk.
  - rewrite seqZ_nil by lia. simpl. split; [lia|]. intros c. split; [done|]. intros (i & Hi & _). lia.
  - rewrite seqZ_cons by lia. cbn [for_each]. pose proof (Hk m s ltac:(lia)) as Hm.
    destruct (f m s) as [c1 s1] eqn:Ef. simpl in Hm. subst s1.
    destruct (IH (Z.succ m) (s + k)) as [Hs Hc]; [intros i t Hi; apply Hk; lia|]. replace (Z.pred (Z.succ n)) with n by lia.
    destruct (for_each f (seqZ (Z.succ m) n) (s + k)) as [c2 s2]. cbn [fst snd] in *. split; [lia|].
    intros c. rewrite in_app_iff, Hc. split.
    + intros [H|(i & Hi & H)].
      * exists m. split; [lia|]. replace (s + (m - m) * k) with s by lia. by rewrite Ef.
      * exists i. split; [lia|]. by replace (s + (i - m) * k) with (s + k + (i - Z.succ m) * k) by lia.
    + intros (i & Hi & H). destruct (Z.eq_dec i m) as [->|].
      * left. replace (s + (m - m) * k) with s in H by lia. by rewrite Ef in H.
      * right. exists i. split; [lia|]. by replace (s + k + (i - Z.succ m) * k) with (s + (i - m) * k) by lia.
Qed.

Corollary for_each_0 f n k s :
  0 <= n -> (forall i s, 0 <= i < n -> snd (f i s) = s + k) ->
  snd (for_each f (seqZ 0 n) s) = s + n * k /\
  forall c, In c (fst (for_each f (seqZ 0 n) s)) <-> exists i, 0 <= i < n /\ In c (fst (f i (s + i * k))).
Proof.
  intros Hn Hf. destruct (for_each_stride f 0 n k s) as [Hs Hc]; [lia|done|]. split; [done|]. intros c. rewrite Hc.
  split; intros (i & Hi & H); exists i; (split; [lia|]); [by rewrite Z.sub_0_r in H|by rewrite Z.sub_0_r].
Qed.

(** ** The reference: where a byte of a line is in the block-linear image *)

(** The offset of byte [x] of line [y] inside a GOB (Tegra X1 TRM, 20.1). *)
Definition gob_offset (x y : Z) : Z :=
  (x / 32) * 256 + (y / 2) * 64 + ((x / 16) mod 2) * 32 + (y mod 2) * 16 + x mod 16.

(** The offset of byte [x] of line [y] in an image [gobsPerRow] GOBs wide, of blocks
    [blockHeight] GOBs high. *)
Definition swizzle (gobsPerRow blockHeight x y : Z) : Z :=
  (((y / (GobHeight * blockHeight)) * gobsPerRow + x / GobWidth) * blockHeight + (y / GobHeight) mod blockHeight) * 512 +
  gob_offset (x mod GobWidth) (y mod GobHeight).

(** The sectors of a GOB, checked one by one. *)
Definition sector_ok (index k : Z) : bool :=
  (gob_offset (sector_x index + k) (sector_y index) =? index * 16 + k) && (0 <=? sector_x index) && (sector_x index + 16 <=? 64) &&
  (sector_x index mod 16 =? 0) && (0 <=? sector_y index) && (sector_y index <? 8).

Lemma sectors_checked : forallb (fun index => forallb (sector_ok index) (seqZ 0 16)) (seqZ 0 32) = true.
Proof. vm_compute. reflexivity. Qed.

Lemma sector_spec index k : 0 <= index < 32 -> 0 <= k < 16 ->
  gob_offset (sector_x index + k) (sector_y index) = index * 16 + k /\ 0 <= sector_x index <= 48 /\ sector_x index mod 16 = 0 /\ 0 <= sector_y index < 8.
Proof.
  intros Hi Hk. pose proof sectors_checked as H. rewrite forallb_forall in H. specialize (H index ltac:(apply list_elem_of_In, elem_of_seqZ; lia)).
  rewrite forallb_forall in H. specialize (H k ltac:(apply list_elem_of_In, elem_of_seqZ; lia)). unfold sector_ok in H.
  repeat (apply andb_true_iff in H as [H ?]). lia.
Qed.

Definition sector_of (x y : Z) : Z := gob_offset x y / 16.

Lemma gob_checked : forallb (fun x => forallb (fun y =>
  let i := sector_of x y in (0 <=? i) && (i <? 32) && (sector_x i =? x - x mod 16) && (sector_y i =? y)) (seqZ 0 8)) (seqZ 0 64) = true.
Proof. vm_compute. reflexivity. Qed.

Lemma gob_sector x y : 0 <= x < 64 -> 0 <= y < 8 ->
  exists index, 0 <= index < 32 /\ sector_x index = x - x mod 16 /\ sector_y index = y.
Proof.
  intros Hx Hy. exists (sector_of x y). pose proof gob_checked as H. rewrite forallb_forall in H.
  specialize (H x ltac:(apply list_elem_of_In, elem_of_seqZ; lia)). rewrite forallb_forall in H.
  specialize (H y ltac:(apply list_elem_of_In, elem_of_seqZ; lia)). cbv zeta in H.
  repeat (apply andb_true_iff in H as [H ?]). lia.
Qed.

(** ** Which bytes a sequence of copies moves *)

Definition moves (cs : list CopyOp) (l b : Z) : Prop :=
  exists c k, In c cs /\ 0 <= k < cp_size c /\ l = cp_linear c + k /\ b = cp_block c + k.

Lemma moves_app c1 c2 l b : moves (c1 ++ c2) l b <-> moves c1 l b \/ moves c2 l b.
Proof.
  unfold moves. split.
  - intros (c & k & Hin & H). apply in_app_iff in Hin as [Hin|Hin]; [left|right]; by exists c, k.
  - intros [(c & k & Hin & H)|(c & k & Hin & H)]; exists c, k; (split; [apply in_app_iff; auto|done]).
Qed.

Lemma moves_nil l b : ~ moves [] l b.
Proof. by intros (c & k & [] & _). Qed.

Lemma moves_one c l b : moves [c] l b <-> exists k, 0 <= k < cp_size c /\ l = cp_linear c + k /\ b = cp_block c + k.
Proof. unfold moves. split; [intros (c' & k & [->|[]] & H); by exists k|]. intros (k & H). exists c, k. split; [by left|done]. Qed.

Lemma moves_for_each f n k s :
  0 <= n -> (forall i s, 0 <= i < n -> snd (f i s) = s + k) ->
  snd (for_each f (seqZ 0 n) s) = s + n * k /\
  forall l b, moves (fst (for_each f (seqZ 0 n) s)) l b <-> exists i, 0 <= i < n /\ moves (fst (f i (s + i * k))) l b.
Proof.
  intros Hn Hf. destruct (for_each_0 f n k s Hn Hf) as [Hs Hc]. split; [done|]. intros l b. unfold moves. split.
  - intros (c & j & Hin & H). apply Hc in Hin as (i & Hi & Hin). exists i. split; [done|]. by exists c, j.
  - intros (i & Hi & c & j & Hin & H). exists c, j. split; [|done]. apply Hc. by exists i.
Qed.

Section moved.
Context (bpb W pad : Z) (Hbpb : 0 < bpb) (Hdiv : 16 mod bpb = 0) (Hpad : pad mod bpb = 0).

(** What [copySector] has to do: move the bytes of a sector left of column [lim]. *)
Definition copies_sector (copySector : Z -> Z -> Z -> list CopyOp * Z) (lim : Z) : Prop :=
  forall linear x s, x mod 16 = 0 -> 0 <= x <= 48 -> snd (copySector linear x s) = s + 16 /\
    forall l b, moves (fst (copySector linear x s)) l b <-> exists k, 0 <= k < 16 /\ x + k < lim /\ l = linear + k /\ b = s + k.

Lemma copy_sector_moves : copies_sector copy_sector 64.
Proof.
  intros linear x s _ Hx. split; [done|]. intros l b. unfold copy_sector. cbn [fst]. rewrite moves_one. cbn [cp_size cp_linear cp_block]. unfold SectorWidth.
  split; intros (k & H); exists k; lia.
Qed.

Lemma multiple_step x y : x mod bpb = 0 -> y mod bpb = 0 -> x < y -> x + bpb <= y.
Proof.
  intros Hx Hy Hlt. apply Z.mod_divide in Hx as [a ->]; [|lia]. apply Z.mod_divide in Hy as [c ->]; [|lia].
  assert (a < c) by (apply (Z.mul_lt_mono_pos_r bpb); lia). nia.
Qed.

Lemma copy_pixels_moves fuel p linear x s :
  0 <= p <= 16 -> p mod bpb = 0 -> x mod bpb = 0 -> 16 - p <= Z.of_nat fuel ->
  snd (copy_pixels bpb pad fuel p linear x s) = s + (16 - p) /\
  forall l b, moves (fst (copy_pixels bpb pad fuel p linear x s)) l b <->
    exists k, p <= k < 16 /\ x + (k - p) < pad /\ l = linear + k /\ b = s + (k - p).
Proof.
  revert p x s. induction fuel as [|fuel IH]; intros p x s Hp Hpm Hx Hf; cbn [copy_pixels].
  { split; [simpl; lia|]. intros l b. split; [by intros ?%moves_nil|]. intros (k & Hk & _). lia. }
  unfold SectorWidth. destruct (Z.ltb_spec p 16) as [Hlt|Hge].
  2: { split; [simpl; lia|]. intros l b. split; [by intros ?%moves_nil|]. intros (k & Hk & _). lia. }
  pose proof (multiple_step p 16 Hpm Hdiv Hlt) as Hstep.
  assert (Hadd : forall z, z mod bpb = 0 -> (z + bpb) mod bpb = 0).
  { intros z Hz. apply Z.mod_divide in Hz as [a ->]; [|lia]. apply Z.mod_divide; [lia|]. exists (a + 1). lia. }
  destruct (IH (p + bpb) (x + bpb) (s + bpb) ltac:(lia) (Hadd _ Hpm) (Hadd _ Hx) ltac:(lia)) as [Hs Hm].
  destruct (copy_pixels bpb pad fuel (p + bpb) linear (x + bpb) (s + bpb)) as [c2 s2]. cbn [fst snd] in *. split; [lia|].
  intros l b. rewrite moves_app, Hm. destruct (Z.ltb_spec x pad) as [Hxp|Hxp].
  - pose proof (multiple_step x pad Hx Hpad Hxp) as Hxs. rewrite moves_one. cbn [cp_size cp_linear cp_block]. split.
    + intros [(k & Hk & -> & ->)|(k & Hk & Hkp & -> & ->)]; [exists (p + k)|exists k]; lia.
    + intros (k & Hk & Hkp & -> & ->). destruct (Z.lt_ge_cases k (p + bpb)); [left; exists (k - p)|right; exists k]; lia.
  - split; [intros [[]%moves_nil|(k & Hk & Hkp & _)]; lia|]. intros (k & Hk & Hkp & _). lia.
Qed.

Lemma copy_partial_moves : copies_sector (copy_partial_sector bpb pad) pad.
Proof.
  intros linear x s Hx _. assert (Hxm : x mod bpb = 0).
  { apply Z.mod_divide in Hx as [a ->]; [|lia]. apply Z.mod_divide in Hdiv as [c Hc]; [|lia]. apply Z.mod_divide; [lia|]. exists (a * c). rewrite Hc. ring. }
  destruct (copy_pixels_moves (Z.to_nat SectorWidth) 0 linear x s) as [Hs Hm]; [lia|by rewrite Z.mod_0_l by lia|done|unfold SectorWidth; lia|].
  unfold copy_partial_sector. split; [lia|]. intros l b. rewrite Hm. split; intros (k & H); exists k; lia.
Qed.

(** The lines of a GOB that belong to the image. *)
Definition shown (extent : option Z) (blockHeight gobY y : Z) : Prop :=
  match extent with None => True | Some e => gobY <> blockHeight - 1 \/ y < e end.

Lemma gob_moves copySector lim extent blockHeight linearGob gobY s :
  copies_sector copySector lim -> lim <= 64 ->
  snd (deswizzleGob W copySector extent blockHeight linearGob gobY s) = s + 512 /\
  forall l b, moves (fst (deswizzleGob W copySector extent blockHeight linearGob gobY s)) l b <->
    exists x y, 0 <= x < lim /\ 0 <= y < 8 /\ shown extent blockHeight gobY y /\ l = linearGob + y * W + x /\ b = s + gob_offset x y.
Proof.
  intros Hcs Hlim. unfold deswizzleGob. change SectorLinesInGob with 32.
  set (f := fun index sector => _).
  assert (Hf : forall i s, 0 <= i < 32 -> snd (f i s) = s + 16 /\ forall l b, moves (fst (f i s)) l b <->
    shown extent blockHeight gobY (sector_y i) /\ exists k, 0 <= k < 16 /\ sector_x i + k < lim /\
      l = linearGob + sector_y i * W + (sector_x i + k) /\ b = s + k).
  { intros i t Hi. destruct (sector_spec i 0 Hi ltac:(lia)) as (_ & Hx & Hxm & Hy).
    destruct (Hcs (linearGob + sector_y i * W + sector_x i) (sector_x i) t Hxm Hx) as [H1 H2].
    assert (Hall : forall l b, moves (fst (copySector (linearGob + sector_y i * W + sector_x i) (sector_x i) t)) l b <->
      exists k, 0 <= k < 16 /\ sector_x i + k < lim /\ l = linearGob + sector_y i * W + (sector_x i + k) /\ b = t + k).
    { intros l b. rewrite H2. split; intros (k & H); exists k; lia. }
    unfold f, shown. destruct extent as [e|]; [|split; [done|]; intros l b; rewrite Hall; naive_solver].
    destruct (Z.eqb_spec gobY (blockHeight - 1)); cbn [negb orb]; [|split; [done|]; intros l b; rewrite Hall; naive_solver].
    destruct (Z.ltb_spec (sector_y i) e); [split; [done|]; intros l b; rewrite Hall; naive_solver|].
    split; [done|]. intros l b. split; [by intros ?%moves_nil|]. intros [[?|?] _]; [done|lia]. }
  destruct (moves_for_each f 32 16 s) as [Hs Hm]; [lia|intros i t Hi; by apply Hf|]. split; [rewrite Hs; lia|].
  intros l b. rewrite Hm. split.
  - intros (i & Hi & Hmv). apply Hf in Hmv as (Hsh & k & Hk & Hlt & -> & ->); [|done].
    destruct (sector_spec i k Hi Hk) as (Hg & Hx & _ & Hy). exists (sector_x i + k), (sector_y i). repeat (split; [done || lia|]). lia.
  - intros (x & y & Hx & Hy & Hsh & -> & ->). destruct (gob_sector x y) as (i & Hi & Hsx & Hsy); [lia|lia|].
    pose proof (Z.mod_pos_bound x 16 ltac:(lia)) as Hk. destruct (sector_spec i (x mod 16) Hi Hk) as (Hg & _).
    rewrite Hsx, Hsy in Hg. replace (x - x mod 16 + x mod 16) with x in Hg by lia.
    exists i. split; [done|]. apply Hf; [done|]. rewrite Hsy, Hsx. split; [done|]. exists (x mod 16). lia.
Qed.

(** The lines a block shows. *)
Definition shown_lines (extent : option Z) (blockHeight : Z) : Z :=
  match extent with None => 8 * blockHeight | Some e => 8 * (blockHeight - 1) + e end.

Lemma shown_spec extent blockHeight y :
  0 <= y < 8 * blockHeight -> (forall e, extent = Some e -> 1 <= e <= 8) ->
  shown extent blockHeight (y / 8) (y mod 8) <-> y < shown_lines extent blockHeight.
Proof.
  intros Hy He. unfold shown, shown_lines. destruct extent as [e|]; [|lia]. specialize (He e eq_refl).
  pose proof (Z.div_mod y 8 ltac:(lia)). pose proof (Z.mod_pos_bound y 8 ltac:(lia)). lia.
Qed.

Lemma block_moves copySector lim extent blockHeight gobZOffset linearBlock s :
  copies_sector copySector lim -> lim <= 64 -> 0 <= blockHeight -> (forall e, extent = Some e -> 1 <= e <= 8) ->
  snd (deswizzleBlock W 1 0 (W * 8) gobZOffset copySector extent blockHeight linearBlock s) = s + blockHeight * 512 /\
  forall l b, moves (fst (deswizzleBlock W 1 0 (W * 8) gobZOffset copySector extent blockHeight linearBlock s)) l b <->
    exists x y, 0 <= x < lim /\ 0 <= y < shown_lines extent blockHeight /\ l = linearBlock + y * W + x /\
      b = s + (y / 8) * 512 + gob_offset x (y mod 8).
Proof.
  intros Hcs Hlim Hbh He. unfold deswizzleBlock. change (seqZ 0 1) with [0]. cbn [for_each].
  rewrite Z.mul_0_l, Z.add_0_r.
  destruct (moves_for_each (fun gobY sector => deswizzleGob W copySector extent blockHeight (linearBlock + gobY * (W * 8)) gobY sector)
    blockHeight 512 s) as [Hs Hm]; [done|intros i t Hi; by apply (gob_moves copySector lim)|].
  destruct (for_each _ (seqZ 0 blockHeight) s) as [c t]. cbn [fst snd] in *. rewrite app_nil_r. split; [lia|].
  intros l b. rewrite Hm. split.
  - intros (g & Hg & Hmv). apply (gob_moves copySector lim) in Hmv as (x & y & Hx & Hy & Hsh & -> & ->); [|done|done].
    exists x, (g * 8 + y). rewrite Z.div_add_l, Z.div_small, Z.add_0_r by lia.
    rewrite (Z.add_comm (g * 8) y), Z.mod_add, Z.mod_small by lia. split; [done|].
    split; [|split; lia]. split; [lia|]. apply (shown_spec extent blockHeight (y + g * 8)); [lia|done|].
    rewrite Z.div_add, Z.div_small, Z.mod_add, Z.mod_small by lia. done.
  - intros (x & y & Hx & Hy & -> & ->).
    assert (Hy8 : y < 8 * blockHeight) by (unfold shown_lines in Hy; destruct extent as [e|]; [specialize (He e eq_refl)|]; lia).
    exists (y / 8). pose proof (Z.div_mod y 8 ltac:(lia)). pose proof (Z.mod_pos_bound y 8 ltac:(lia)). split; [lia|].
    apply (gob_moves copySector lim); [done|done|]. exists x, (y mod 8). split; [done|]. split; [done|].
    split; [apply shown_spec; [lia|exact He|lia]|]. split; [|lia]. rewrite H at 1. ring.
Qed.

Definition padded : bool := negb (pad =? 0).

Definition gobs_per_row : Z := W / 64 + Z.b2z padded.

Lemma rob_moves extent blockHeight blockPaddingY gobZOffset linearRob s :
  0 <= W -> pad = W mod 64 -> 0 <= blockHeight -> (forall e, extent = Some e -> 1 <= e <= 8) ->
  let K := blockHeight * 512 + match extent with Some _ => blockPaddingY | None => 0 end in
  let rob := deswizzleRob bpb W 1 0 (W * 8) gobZOffset pad extent blockHeight blockPaddingY (W / 64) padded linearRob s in
  (extent = None -> snd rob = s + gobs_per_row * K) /\
  forall l b, moves (fst rob) l b <->
    exists x y, 0 <= x < W /\ 0 <= y < shown_lines extent blockHeight /\ l = linearRob + y * W + x /\
      b = s + (x / 64) * K + (y / 8) * 512 + gob_offset (x mod 64) (y mod 8).
Proof.
  intros HW Hp Hbh He K rob. pose proof (Z.div_mod W 64 ltac:(lia)) as HWd. pose proof (Z.mod_pos_bound W 64 ltac:(lia)) as HWm.
  pose proof (Z.div_pos W 64 HW ltac:(lia)) as Hnb. rewrite <- Hp in HWd, HWm.
  subst rob. unfold deswizzleRob. set (f := fun block sector => _).
  assert (Hf : forall i t, snd (f i t) = t + K /\ forall l b, moves (fst (f i t)) l b <->
    exists x y, 0 <= x < 64 /\ 0 <= y < shown_lines extent blockHeight /\ l = linearRob + i * 64 + y * W + x /\
      b = t + (y / 8) * 512 + gob_offset x (y mod 8)).
  { intros i t. destruct (block_moves copy_sector 64 extent blockHeight gobZOffset (linearRob + i * 64) t) as [H1 H2];
      [apply copy_sector_moves|lia|done|done|].
    unfold f, GobWidth. destruct (deswizzleBlock _ _ _ _ _ _ _ _ _ t) as [c t']. cbn [fst snd] in *. split; [|done].
    unfold K. destruct extent; lia. }
  destruct (moves_for_each f (W / 64) K s) as [Hs Hm]; [done|intros i t _; apply Hf|].
  destruct (for_each f (seqZ 0 (W / 64)) s) as [c1 s1]. cbn [fst snd] in Hs, Hm. subst s1.
  assert (Hwhole : forall l b, moves c1 l b <-> exists x y, 0 <= x < W / 64 * 64 /\ 0 <= y < shown_lines extent blockHeight /\
    l = linearRob + y * W + x /\ b = s + (x / 64) * K + (y / 8) * 512 + gob_offset (x mod 64) (y mod 8)).
  { intros l b. rewrite Hm. split.
    - intros (i & Hi & Hmv). apply Hf in Hmv as (x & y & Hx & Hy & -> & ->). exists (i * 64 + x), y.
      rewrite Z.div_add_l, (Z.div_small x) by lia. rewrite (Z.add_comm (i * 64) x), Z.mod_add, (Z.mod_small x) by lia. lia.
    - intros (x & y & Hx & Hy & -> & ->). exists (x / 64). pose proof (Z.div_mod x 64 ltac:(lia)). pose proof (Z.mod_pos_bound x 64 ltac:(lia)).
      split; [lia|]. apply Hf. exists (x mod 64), y. lia. }
  unfold gobs_per_row, padded in *. destruct (Z.eqb_spec pad 0) as [Hp0|Hp0]; cbn [negb Z.b2z].
  - split; [simpl; lia|]. intros l b. cbn [fst]. rewrite Hwhole. replace (W / 64 * 64) with W by lia. done.
  - destruct (block_moves (copy_partial_sector bpb pad) pad extent blockHeight gobZOffset (linearRob + W / 64 * 64) (s + W / 64 * K)) as [H1 H2];
      [apply copy_partial_moves|lia|done|done|].
    unfold GobWidth. destruct (deswizzleBlock _ _ _ _ _ _ _ _ _ (s + W / 64 * K)) as [c2 s2]. cbn [fst snd] in *. split.
    + intros ->. unfold K in *. lia.
    + intros l b. rewrite moves_app, Hwhole, H2. split.
      * intros [(x & y & Hx & Hy & -> & ->)|(x & y & Hx & Hy & -> & ->)]; [exists x, y; lia|]. exists (W / 64 * 64 + x), y.
        rewrite Z.div_add_l, (Z.div_small x) by lia. rewrite (Z.add_comm (W / 64 * 64) x), Z.mod_add, (Z.mod_small x) by lia. lia.
      * intros (x & y & Hx & Hy & -> & ->). destruct (Z.lt_ge_cases x (W / 64 * 64)) as [Hlt|Hge]; [left; exists x, y; lia|right].
        exists (x - W / 64 * 64), y. assert (Hd : x = W / 64 * 64 + (x - W / 64 * 64)) by lia.
        assert (Hxd : x / 64 = W / 64) by (rewrite Hd, Z.div_add_l, (Z.div_small (x - W / 64 * 64)) by lia; lia).
        assert (Hxm : x mod 64 = x - W / 64 * 64) by (rewrite Z.mod_eq by lia; lia).
        rewrite Hxd, Hxm. lia.
Qed.

End moved.

(** ** Two-dimensional surfaces *)

(** A surface with one slice, of whole format blocks, whose pixels do not straddle sectors. *)
Record surface_2d (d : Dimensions) (formatBlockWidth formatBlockHeight formatBpb gobBlockHeight : Z) : Prop := mk_surface {
  sf_depth : d_depth d = 1;
  sf_width : 0 <= d_width d < 2 ^ 32;
  sf_height : 0 <= d_height d < 2 ^ 32;
  sf_blockWidth : 0 < formatBlockWidth;
  sf_blockHeight : 0 < formatBlockHeight;
  sf_whole : d_height d mod formatBlockHeight = 0;
  sf_bpb : 0 < formatBpb;
  sf_sector : 16 mod formatBpb = 0;
  sf_gobs : 0 < gobBlockHeight < 2 ^ 32 }.

(** The bytes of a line and the lines of a surface. *)
Definition line_bytes (d : Dimensions) (formatBlockWidth formatBpb : Z) : Z := (d_width d / formatBlockWidth) * formatBpb.
Definition lines (d : Dimensions) (formatBlockHeight : Z) : Z := d_height d / formatBlockHeight.

(** Where the byte at offset [l] of the linear image is in the block-linear image. *)
Definition block_linear_offset (W gobBlockHeight l : Z) : Z :=
  swizzle (gobs_per_row W (W mod 64)) gobBlockHeight (l mod W) (l / W).

Lemma swizzle_rob nb h x r y : 0 < h -> 0 <= y < 8 * h ->
  swizzle nb h x (r * (8 * h) + y) = r * (nb * (h * 512)) + (x / 64) * (h * 512) + (y / 8) * 512 + gob_offset (x mod 64) (y mod 8).
Proof.
  intros Hh Hy. unfold swizzle, GobHeight, GobWidth. rewrite Z.div_add_l, (Z.div_small y) by lia.
  replace (r * (8 * h) + y) with (y + (r * h) * 8) by ring. rewrite Z.div_add, Z.mod_add by lia.
  rewrite Z.mod_add, (Z.mod_small (y / 8)) by (try split; try apply Z.div_pos; try apply Z.div_lt_upper_bound; lia). ring.
Qed.

Lemma align64 W : 0 <= W -> W + 64 <= 2 ^ 64 ->
  negb (W =? AlignUp W GobWidth) = padded (W mod 64) /\
  (if negb (W =? AlignUp W GobWidth) then GobWidth - (AlignUp W GobWidth - W) else 0) = W mod 64.
Proof.
  intros HW Hb. unfold GobWidth.
  assert (AlignUp W 64 = (W + 64 - 1) - (W + 64 - 1) mod 64) as -> by (apply (AlignUp_spec W 6); lia).
  pose proof (Z.div_mod W 64 ltac:(lia)) as Hd. pose proof (Z.mod_pos_bound W 64 ltac:(lia)) as Hm.
  assert (Hmod : (W + 64 - 1) mod 64 = if decide (W mod 64 = 0) then 63 else W mod 64 - 1).
  { destruct (decide (W mod 64 = 0)) as [H0|H0]; symmetry.
    - apply (Z.mod_unique _ _ (W / 64)); lia.
    - apply (Z.mod_unique _ _ (W / 64 + 1)); lia. }
  rewrite Hmod. unfold padded. destruct (decide (W mod 64 = 0)) as [H0|H0].
  - rewrite H0. replace (W + 64 - 1 - 63) with W by lia. by rewrite Z.eqb_refl.
  - destruct (Z.eqb_spec W (W + 64 - 1 - (W mod 64 - 1))); [lia|]. destruct (Z.eqb_spec (W mod 64) 0); [lia|]. cbn [negb]. split; [done|lia].
Qed.

Section surface.
Context (d : Dimensions) (fbw fbh bpb h : Z) (Hsf : surface_2d d fbw fbh bpb h).

Abbreviation W := (line_bytes d fbw bpb).
Abbreviation Ht := (lines d fbh).
Abbreviation nb := (gobs_per_row W (W mod 64)).

Lemma W_range : 0 <= W < 2 ^ 37.
Proof.
  destruct Hsf. unfold line_bytes. assert (bpb <= 16).
  { destruct (Z.le_gt_cases bpb 16) as [|Hgt]; [done|]. rewrite Z.mod_small in sf_sector0 by lia. lia. }
  assert (0 <= d_width d / fbw <= d_width d).
  { split; [apply Z.div_pos; lia|]. apply Z.div_le_upper_bound; [lia|]. nia. }
  nia.
Qed.

Lemma pad_multiple : (W mod 64) mod bpb = 0.
Proof.
  destruct Hsf as [_ _ _ _ _ _ Hb Hs _]. apply Z.mod_divide in Hs as [c Hc]; [|lia].
  rewrite (Z.mod_eq W 64) by lia. apply Z.mod_divide; [lia|]. unfold line_bytes.
  exists (d_width d / fbw - 4 * c * (W / 64)). unfold line_bytes. replace 64 with (4 * (c * bpb)) at 1 by lia. ring.
Qed.

Lemma whole_lines : DivideCeil (d_height d) fbh = Ht.
Proof.
  destruct Hsf as [_ _ Hht _ Hfbh Hwh _ _ _]. unfold DivideCeil, lines. apply Z.mod_divide in Hwh as [q ->]; [|lia].
  rewrite Z.div_mul by lia. symmetry. apply (Z.div_unique _ _ _ (fbh - 1)); lia.
Qed.

(** The first ROBs, which are complete. *)
Lemma robs_moves R gz :
  0 <= R ->
  let rob r s := deswizzleRob bpb W 1 0 (W * 8) gz (W mod 64) None h 0 (W / 64) (padded (W mod 64)) (r * (W * (8 * h))) s in
  snd (for_each rob (seqZ 0 R) 0) = R * (nb * (h * 512)) /\
  forall l b, moves (fst (for_each rob (seqZ 0 R) 0)) l b <->
    exists x y, 0 <= x < W /\ 0 <= y < R * (8 * h) /\ l = y * W + x /\ b = swizzle nb h x y.
Proof.
  intros HR rob. pose proof W_range as HW. destruct Hsf as [_ _ _ _ _ _ Hb Hs Hg].
  assert (Hrob : forall r s, snd (rob r s) = s + nb * (h * 512) /\ forall l b, moves (fst (rob r s)) l b <->
    exists x y, 0 <= x < W /\ 0 <= y < 8 * h /\ l = r * (W * (8 * h)) + y * W + x /\
      b = s + (x / 64) * (h * 512) + (y / 8) * 512 + gob_offset (x mod 64) (y mod 8)).
  { intros r s. destruct (rob_moves bpb W (W mod 64) Hb Hs pad_multiple None h 0 gz (r * (W * (8 * h))) s) as [H1 H2]; [lia|done|lia|done|].
    rewrite Z.add_0_r in H1, H2. split; [by apply H1|done]. }
  destruct (moves_for_each rob R (nb * (h * 512)) 0) as [Hsn Hm]; [done|intros; apply Hrob|]. split; [lia|].
  intros l b. rewrite Hm. split.
  - intros (r & Hr & Hmv). apply Hrob in Hmv as (x & y & Hx & Hy & -> & ->). exists x, (r * (8 * h) + y).
    split; [done|]. split; [nia|]. split; [ring|]. rewrite swizzle_rob by lia. lia.
  - intros (x & y & Hx & Hy & -> & ->). pose proof (Z.div_mod y (8 * h) ltac:(lia)) as Hd. pose proof (Z.mod_pos_bound y (8 * h) ltac:(lia)) as Hmo.
    exists (y / (8 * h)). split; [split; [apply Z.div_pos; lia|apply Z.div_lt_upper_bound; lia]|].
    apply Hrob. exists x, (y mod (8 * h)). split; [done|]. split; [done|].
    split; [rewrite Hd at 1; ring|]. rewrite Hd at 1. rewrite (Z.mul_comm (8 * h)), swizzle_rob by lia. lia.
Qed.

(** The height of the last ROB in GOBs and in lines of its last GOB. *)
Lemma last_rob R rem : Ht = R * (8 * h) + rem -> 0 < rem < 8 * h -> 0 <= R ->
  let blockHeight := (AlignUp Ht GobHeight - R * (8 * h)) / GobHeight in
  let e := if IsAligned Ht GobHeight then GobHeight else Ht - AlignDown Ht GobHeight in
  0 <= blockHeight <= h /\ 1 <= e <= 8 /\ shown_lines (Some e) blockHeight = rem.
Proof.
  intros HH Hrem HR blockHeight e. assert (HHr : 0 <= Ht < 2 ^ 32).
  { destruct Hsf. unfold lines. split; [apply Z.div_pos; lia|]. apply Z.div_lt_upper_bound; [lia|]. nia. }
  assert (HA : AlignUp Ht GobHeight = (Ht + 8 - 1) - (Ht + 8 - 1) mod 8) by (apply (AlignUp_spec Ht 3); lia).
  assert (HD : AlignDown Ht GobHeight = Ht - Ht mod 8) by (apply (AlignDown_spec Ht 3); lia).
  assert (HI : IsAligned Ht GobHeight = true <-> Ht mod 8 = 0) by (apply (IsAligned_pow2 Ht 3); lia).
  pose proof (Z.mod_pos_bound Ht 8 ltac:(lia)) as Hm. pose proof (Z.div_mod Ht 8 ltac:(lia)) as Hd.
  assert (HHm : Ht mod 8 = rem mod 8) by (rewrite HH; replace (R * (8 * h) + rem) with (rem + R * h * 8) by ring; by rewrite Z.mod_add by lia).
  pose proof (Z.div_mod rem 8 ltac:(lia)) as Hdr.
  assert (He : e = if decide (rem mod 8 = 0) then 8 else rem mod 8).
  { unfold e, GobHeight in *. destruct (decide (rem mod 8 = 0)).
    - rewrite (proj2 HI) by lia. done.
    - destruct (IsAligned Ht 8); [exfalso; apply n; rewrite <- HHm; by apply HI|]. lia. }
  assert (Hb : blockHeight = rem / 8 + if decide (rem mod 8 = 0) then 0 else 1).
  { unfold blockHeight. rewrite HA. unfold GobHeight. symmetry. destruct (decide (rem mod 8 = 0)) as [H0|H0].
    - assert ((Ht + 8 - 1) mod 8 = 7) as -> by (symmetry; apply (Z.mod_unique _ _ (Ht / 8)); lia).
      apply (Z.div_unique _ _ _ 0); lia.
    - assert ((Ht + 8 - 1) mod 8 = Ht mod 8 - 1) as -> by (symmetry; apply (Z.mod_unique _ _ (Ht / 8 + 1)); lia).
      apply (Z.div_unique _ _ _ 0); lia. }
  rewrite He, Hb. unfold shown_lines. destruct (decide (rem mod 8 = 0)) as [H0|H0]; lia.
Qed.

(** A conversion moves exactly the bytes of the image, each to its place. *)
Lemma surface_moves l b :
  moves (CopyBlockLinearInternal d fbw fbh bpb h 1) l b <->
  exists x y, 0 <= x < W /\ 0 <= y < Ht /\ l = y * W + x /\ b = swizzle nb h x y.
Proof.
  pose proof W_range as HW. pose proof Hsf as [Hdep _ Hht _ Hfbh _ Hb Hs Hg].
  unfold CopyBlockLinearInternal. rewrite Hdep. change (Z.min 1 1) with 1. replace (1 - 1) with 0 by lia. rewrite Z.mul_0_r.
  change (wrap 64 0) with 0. fold (line_bytes d fbw bpb). fold (lines d fbh). rewrite (wrap_small 64 W) by lia.
  rewrite (wrap_small 64 (GobHeight * h)) by (unfold GobHeight; lia).
  destruct (align64 W ltac:(lia) ltac:(lia)) as [HA1 HA2]. rewrite HA2, HA1. change GobHeight with 8. change GobWidth with 64.
  assert (HHr : 0 <= Ht) by (unfold lines; apply Z.div_pos; lia).
  pose proof (Z.div_mod Ht (8 * h) ltac:(lia)) as HHd. pose proof (Z.mod_pos_bound Ht (8 * h) ltac:(lia)) as HHm.
  assert (HR : 0 <= Ht / (8 * h)) by (apply Z.div_pos; lia).
  destruct (robs_moves (Ht / (8 * h)) (W * Ht) HR) as [Hsn Hmv].
  destruct (for_each _ (seqZ 0 (Ht / (8 * h))) 0) as [c1 s1]. cbn [fst snd] in Hsn, Hmv. subst s1.
  destruct (Z.eqb_spec (Ht mod (8 * h)) 0) as [H0|H0]; cbn [negb].
  { rewrite Hmv. by replace (Ht / (8 * h) * (8 * h)) with Ht by lia. }
  rewrite whole_lines. destruct (last_rob (Ht / (8 * h)) (Ht mod (8 * h)) ltac:(lia) ltac:(lia) HR) as (Hbh & He & Hsh). cbv zeta in Hsh, Hbh, He.
  change GobHeight with 8 in *. set (bh := (AlignUp Ht 8 - Ht / (8 * h) * (8 * h)) / 8) in *.
  set (e := if IsAligned Ht 8 then 8 else Ht - AlignDown Ht 8) in *.
  destruct (rob_moves bpb W (W mod 64) Hb Hs pad_multiple (Some e) bh ((h - bh) * 512) (W * Ht) (Ht / (8 * h) * (W * (8 * h)))
    (Ht / (8 * h) * (nb * (h * 512)))) as [_ Hlast]; [lia|done|lia|by intros ? [= <-]|].
  change (SectorWidth * SectorWidth * SectorHeight) with 512.
  rewrite moves_app, Hmv, Hlast, Hsh. replace (bh * 512 + (h - bh) * 512) with (h * 512) by lia. split.
  - intros [(x & y & Hx & Hy & -> & ->)|(x & y & Hx & Hy & -> & ->)]; [exists x, y; repeat split; lia|].
    exists x, (Ht / (8 * h) * (8 * h) + y). split; [done|]. split; [lia|]. split; [ring|]. rewrite swizzle_rob by lia. lia.
  - intros (x & y & Hx & Hy & -> & ->). destruct (Z.lt_ge_cases y (Ht / (8 * h) * (8 * h))) as [Hlt|Hge]; [left; exists x, y; repeat split; lia|right].
    exists x, (y - Ht / (8 * h) * (8 * h)). split; [done|]. split; [lia|]. split; [ring|].
    replace y with (Ht / (8 * h) * (8 * h) + (y - Ht / (8 * h) * (8 * h))) at 1 by ring. rewrite swizzle_rob by lia. lia.
Qed.

End surface.

(** ** Applying copies *)

Definition covers (a : Z) (c : CopyOp) : bool := (cp_linear c <=? a) && (a <? cp_linear c + cp_size c).
Definition covered (cs : list CopyOp) (a : Z) : bool := existsb (covers a) cs.

Lemma covered_moves cs a : covered cs a = true <-> exists b, moves cs a b.
Proof.
  unfold covered, covers. rewrite existsb_exists. split.
  - intros (c & Hc & Ha). exists (cp_block c + (a - cp_linear c)). exists c, (a - cp_linear c). split; [done|]. lia.
  - intros (b & c & k & Hc & Hk & -> & ->). exists c. split; [done|]. lia.
Qed.

(** Copies that agree on where each byte comes from gather the image. *)
Lemma copies_gather cs src ref dst a :
  (forall l b, moves cs l b -> b = ref l) ->
  fold_left (to_linear src) cs dst a = if covered cs a then src (ref a) else dst a.
Proof.
  revert dst. induction cs as [|c cs IH]; intros dst Href; [done|]. cbn [fold_left covered existsb].
  rewrite IH by (intros l b Hm; apply Href; change (c :: cs) with ([c] ++ cs); apply moves_app; by right).
  change (existsb (covers a) cs) with (covered cs a). destruct (covered cs a); [by rewrite orb_true_r|]. rewrite orb_false_r.
  unfold to_linear, memcpy. change ((cp_linear c <=? a) && (a <? cp_linear c + cp_size c)) with (covers a c).
  destruct (covers a c) eqn:Ec; [|done]. f_equal. apply Href. unfold covers in Ec.
  exists c, (a - cp_linear c). split; [by left|]. lia.
Qed.

Definition swap (c : CopyOp) : CopyOp := mk_copy (cp_block c) (cp_linear c) (cp_size c).

Lemma moves_swap cs l b : moves (map swap cs) l b <-> moves cs b l.
Proof.
  unfold moves. split.
  - intros (c & k & Hc & H). apply in_map_iff in Hc as (c' & <- & Hc). exists c', k. simpl in H. naive_solver.
  - intros (c & k & Hc & H). exists (swap c), k. split; [by apply in_map|]. simpl. naive_solver.
Qed.

Lemma to_block_linear_swap src cs dst : fold_left (to_block_linear src) cs dst = fold_left (to_linear src) (map swap cs) dst.
Proof. revert dst. induction cs as [|c cs IH]; intros dst; [done|]. apply IH. Qed.

(** ** The inverse of the swizzle *)

Definition gob_x (o : Z) : Z := (o / 256) * 32 + ((o / 32) mod 2) * 16 + o mod 16.
Definition gob_y (o : Z) : Z := ((o / 64) mod 4) * 2 + (o / 16) mod 2.

Lemma gob_inverse_checked : forallb (fun x => forallb (fun y =>
  let o := gob_offset x y in (0 <=? o) && (o <? 512) && (gob_x o =? x) && (gob_y o =? y)) (seqZ 0 8)) (seqZ 0 64) = true.
Proof. vm_compute. reflexivity. Qed.

Lemma gob_inverse x y : 0 <= x < 64 -> 0 <= y < 8 ->
  0 <= gob_offset x y < 512 /\ gob_x (gob_offset x y) = x /\ gob_y (gob_offset x y) = y.
Proof.
  intros Hx Hy. pose proof gob_inverse_checked as H. rewrite forallb_forall in H.
  specialize (H x ltac:(apply list_elem_of_In, elem_of_seqZ; lia)). rewrite forallb_forall in H.
  specialize (H y ltac:(apply list_elem_of_In, elem_of_seqZ; lia)). cbv zeta in H.
  repeat (apply andb_true_iff in H as [H ?]). lia.
Qed.

(** A number in mixed radix has its digits. *)
Lemma digits a k b : 0 <= b < k -> (a * k + b) / k = a /\ (a * k + b) mod k = b.
Proof. intros Hb. split; [rewrite Z.div_add_l, Z.div_small by lia; lia|]. rewrite Z.add_comm, Z.mod_add, Z.mod_small by lia. done. Qed.

Definition unswizzle (nb h b : Z) : Z * Z :=
  let o := b mod 512 in
  let t := b / 512 in
  (((t / h) mod nb) * 64 + gob_x o, ((t / h) / nb) * (8 * h) + (t mod h) * 8 + gob_y o).

Lemma unswizzle_swizzle nb h x y : 0 < h -> 0 <= x -> x / 64 < nb -> 0 <= y -> unswizzle nb h (swizzle nb h x y) = (x, y).
Proof.
  intros Hh Hx Hn Hy. unfold unswizzle, swizzle. change GobHeight with 8. change GobWidth with 64.
  pose proof (Z.mod_pos_bound x 64 ltac:(lia)) as Hxm. pose proof (Z.mod_pos_bound y 8 ltac:(lia)) as Hym.
  destruct (gob_inverse (x mod 64) (y mod 8) Hxm Hym) as (Ho & Hgx & Hgy). pose proof (Z.mod_pos_bound (y / 8) h ltac:(lia)) as Hgm.
  destruct (digits ((y / (8 * h) * nb + x / 64) * h + (y / 8) mod h) 512 _ Ho) as [-> ->].
  destruct (digits (y / (8 * h) * nb + x / 64) h _ Hgm) as [-> ->].
  destruct (digits (y / (8 * h)) nb (x / 64)) as [-> ->]; [split; [apply Z.div_pos|]; lia|].
  rewrite Hgx, Hgy. f_equal; [pose proof (Z.div_mod x 64 ltac:(lia)); lia|].
  pose proof (Z.div_mod (y / 8) h ltac:(lia)) as Hd. rewrite Z.div_div in Hd by lia. pose proof (Z.div_mod y 8 ltac:(lia)). nia.
Qed.

(** ** What the conversions do *)

Section conversions.
Context (d : Dimensions) (fbw fbh bpb h : Z) (Hsf : surface_2d d fbw fbh bpb h).

Abbreviation W := (line_bytes d fbw bpb).
Abbreviation Ht := (lines d fbh).

Lemma gobs_cover x : 0 <= x < W -> x / 64 < gobs_per_row W (W mod 64).
Proof.
  intros Hx. pose proof (Z.div_mod W 64 ltac:(lia)) as Hd. pose proof (Z.mod_pos_bound W 64 ltac:(lia)) as Hm.
  unfold gobs_per_row, padded. apply Z.div_lt_upper_bound; [lia|]. destruct (Z.eqb_spec (W mod 64) 0); simpl; lia.
Qed.

Lemma position l x y : 0 <= x < W -> l = y * W + x -> l mod W = x /\ l / W = y.
Proof. intros Hx ->. destruct (digits y W x Hx) as [-> ->]. done. Qed.

Lemma moved_offset l b : moves (CopyBlockLinearInternal d fbw fbh bpb h 1) l b -> b = block_linear_offset W h l.
Proof.
  intros Hm. apply surface_moves in Hm as (x & y & Hx & Hy & Hl & ->); [|done]. unfold block_linear_offset.
  by destruct (position l x y Hx Hl) as [-> ->].
Qed.

Lemma moved_range l : (exists b, moves (CopyBlockLinearInternal d fbw fbh bpb h 1) l b) <-> 0 <= l < W * Ht.
Proof.
  split.
  - intros [b Hm]. apply surface_moves in Hm as (x & y & Hx & Hy & -> & _); [|done]. nia.
  - intros Hl. assert (0 < W).
    { pose proof (W_range _ _ _ _ _ Hsf). destruct (Z.eq_dec W 0) as [E|]; [rewrite E in Hl; lia|lia]. }
    exists (block_linear_offset W h l).
    apply surface_moves; [done|]. exists (l mod W), (l / W). split; [apply Z.mod_pos_bound; lia|].
    split; [split; [apply Z.div_pos; lia|apply Z.div_lt_upper_bound; lia]|].
    split; [|done]. pose proof (Z.div_mod l W ltac:(lia)). lia.
Qed.

Lemma moved_back l l' b :
  moves (CopyBlockLinearInternal d fbw fbh bpb h 1) l b -> moves (CopyBlockLinearInternal d fbw fbh bpb h 1) l' b -> l = l'.
Proof.
  intros H1 H2. apply surface_moves in H1 as (x & y & Hx & Hy & -> & ->); [|done].
  apply surface_moves in H2 as (x' & y' & Hx' & Hy' & -> & Heq); [|done]. pose proof (sf_gobs _ _ _ _ _ Hsf) as Hg.
  pose proof (unswizzle_swizzle (gobs_per_row W (W mod 64)) h x y ltac:(lia) ltac:(lia) (gobs_cover x Hx) ltac:(lia)) as Hu.
  rewrite Heq, unswizzle_swizzle in Hu by (try apply gobs_cover; lia). by injection Hu as -> ->.
Qed.

Lemma to_linear_gathers blockLinear linear a :
  CopyBlockLinearToLinear d fbw fbh bpb h 1 blockLinear linear a =
  if (0 <=? a) && (a <? W * Ht) then blockLinear (block_linear_offset W h a) else linear a.
Proof.
  unfold CopyBlockLinearToLinear. rewrite (copies_gather _ _ (block_linear_offset W h)) by apply moved_offset.
  pose proof (covered_moves (CopyBlockLinearInternal d fbw fbh bpb h 1) a) as Hc. rewrite moved_range in Hc.
  destruct (covered _ a), (Z.leb_spec 0 a) as [Ha0|Ha0], (Z.ltb_spec a (W * Ht)) as [Ha1|Ha1]; try done; exfalso.
  all: first [pose proof (proj1 Hc eq_refl) as Hr; lia | discriminate (proj2 Hc ltac:(lia))].
Qed.

(** The linear image of a two-dimensional surface is the block-linear one read in line order: byte
    [x] of line [y] comes from the place the hardware's block-linear addressing gives it, also for
    a width that is not a multiple of a GOB, and nothing outside the image is written.  The surface
    consists of whole lines of format blocks, whose bytes divide a sector ([surface_2d]); the
    others are in [partial_blocks_dropped] and [twelve_byte_pixels_drift]. *)
Theorem deswizzle_reads_in_line_order blockLinear linear a :
  CopyBlockLinearToLinear d fbw fbh bpb h 1 blockLinear linear a =
  if (0 <=? a) && (a <? W * Ht) then blockLinear (swizzle (gobs_per_row W (W mod 64)) h (a mod W) (a / W)) else linear a.
Proof. exact (to_linear_gathers blockLinear linear a). Qed.

Lemma swizzle_writes linear blockLinear l :
  0 <= l < W * Ht -> CopyLinearToBlockLinear d fbw fbh bpb h 1 linear blockLinear (block_linear_offset W h l) = linear l.
Proof.
  intros Hl. apply moved_range in Hl as [b Hm]. pose proof (moved_offset l b Hm) as ->.
  set (back b := let (x, y) := unswizzle (gobs_per_row W (W mod 64)) h b in y * W + x).
  assert (Hback : forall l b, moves (map swap (CopyBlockLinearInternal d fbw fbh bpb h 1)) l b -> b = back l).
  { intros b l' Hsw. apply (proj1 (moves_swap _ _ _)) in Hsw. apply surface_moves in Hsw as (x & y & Hx & Hy & -> & ->); [|done].
    unfold back. pose proof (sf_gobs _ _ _ _ _ Hsf). rewrite unswizzle_swizzle by (try apply gobs_cover; lia). done. }
  unfold CopyLinearToBlockLinear. rewrite to_block_linear_swap, (copies_gather _ _ back) by exact Hback.
  apply (proj2 (moves_swap _ _ _)) in Hm. rewrite <- (Hback _ _ Hm).
  by rewrite (proj2 (covered_moves _ _) (ex_intro _ l Hm)).
Qed.

(** Converting a linear image to the block-linear layout and back gives the image again. *)
Theorem swizzle_deswizzle_roundtrip linear blockLinear linear' a :
  0 <= a < W * Ht ->
  CopyBlockLinearToLinear d fbw fbh bpb h 1 (CopyLinearToBlockLinear d fbw fbh bpb h 1 linear blockLinear) linear' a = linear a.
Proof.
  intros Ha. rewrite to_linear_gathers. destruct (Z.leb_spec 0 a) as [Ha0|], (Z.ltb_spec a (W * Ht)) as [Ha1|]; try lia. cbn [andb]. by apply swizzle_writes.
Qed.

Lemma swizzle_bound x y : 0 <= x < W -> 0 <= y < Ht ->
  0 <= swizzle (gobs_per_row W (W mod 64)) h x y < gobs_per_row W (W mod 64) * 64 * (8 * h * DivideCeil Ht (8 * h)).
Proof.
  intros Hx Hy. pose proof (gobs_cover x Hx) as Hxn. pose proof (sf_gobs _ _ _ _ _ Hsf) as Hg. set (n := gobs_per_row W (W mod 64)) in *.
  unfold swizzle. change GobHeight with 8. change GobWidth with 64.
  pose proof (Z.mod_pos_bound x 64 ltac:(lia)) as Hxm. pose proof (Z.mod_pos_bound y 8 ltac:(lia)) as Hym.
  destruct (gob_inverse (x mod 64) (y mod 8) Hxm Hym) as (Ho & _ & _). pose proof (Z.mod_pos_bound (y / 8) h ltac:(lia)) as Hgm.
  pose proof (Z.div_pos x 64 ltac:(lia) ltac:(lia)) as Hx0. pose proof (Z.div_pos y (8 * h) ltac:(lia) ltac:(lia)) as Hr0.
  assert (Hr : y / (8 * h) + 1 <= DivideCeil Ht (8 * h)).
  { unfold DivideCeil. replace (Ht + 8 * h - 1) with (Ht - 1 + 1 * (8 * h)) by ring. rewrite Z.div_add by lia.
    pose proof (Z.div_le_mono y (Ht - 1) (8 * h) ltac:(lia) ltac:(lia)). lia. }
  set (r := y / (8 * h)) in *. set (D := DivideCeil Ht (8 * h)) in *. set (g := (y / 8) mod h) in *. set (o := gob_offset _ _) in *.
  assert (H1 : r * n + x / 64 + 1 <= D * n) by nia.
  assert (H2 : (r * n + x / 64) * h + g + 1 <= D * n * h) by nia. split; [nia|]. nia.
Qed.

Lemma layer_width : gobs_per_row W (W mod 64) * 64 <= AlignUp (DivideCeil (d_width d) fbw * bpb) 64 /\ 0 <= DivideCeil (d_width d) fbw * bpb < 2 ^ 38.
Proof.
  pose proof (W_range _ _ _ _ _ Hsf) as HW. pose proof Hsf as [_ Hw _ Hfw _ _ Hb Hs _].
  assert (bpb <= 16). { destruct (Z.le_gt_cases bpb 16) as [|Hgt]; [done|]. rewrite Z.mod_small in Hs by lia. lia. }
  assert (Hq : d_width d / fbw <= DivideCeil (d_width d) fbw <= d_width d).
  { unfold DivideCeil. split; [apply Z.div_le_mono; lia|].
    destruct (Z.eq_dec (d_width d) 0) as [->|]; [rewrite Z.div_small; lia|]. apply Z.div_le_upper_bound; [lia|]. nia. }
  assert (0 <= d_width d / fbw) by (apply Z.div_pos; lia).
  assert (Hv : W <= DivideCeil (d_width d) fbw * bpb < 2 ^ 38) by (unfold line_bytes in *; nia). split; [|lia].
  assert (AlignUp (DivideCeil (d_width d) fbw * bpb) 64 = (DivideCeil (d_width d) fbw * bpb + 64 - 1) - (DivideCeil (d_width d) fbw * bpb + 64 - 1) mod 64)
    as -> by (apply (AlignUp_spec _ 6); lia).
  set (v := DivideCeil (d_width d) fbw * bpb) in *. pose proof (Z.div_mod (v + 64 - 1) 64 ltac:(lia)). pose proof (Z.div_mod W 64 ltac:(lia)).
  pose proof (Z.mod_pos_bound W 64 ltac:(lia)). pose proof (Z.mod_pos_bound (v + 64 - 1) 64 ltac:(lia)).
  unfold gobs_per_row, padded. destruct (Z.eqb_spec (W mod 64) 0); cbn [negb Z.b2z]; lia.
Qed.

(** A conversion stays inside the images: it reads and writes only the [W * Ht] bytes of the linear
    image and the bytes of the layer as [GetBlockLinearLayerSize] counts them, where that size
    fits its type. *)
Theorem conversion_in_bounds c :
  AlignUp (DivideCeil (d_width d) fbw * bpb) 64 * (8 * h * DivideCeil Ht (8 * h)) < 2 ^ 64 ->
  In c (CopyBlockLinearInternal d fbw fbh bpb h 1) -> 0 < cp_size c ->
  0 <= cp_linear c /\ cp_linear c + cp_size c <= W * Ht /\
  0 <= cp_block c /\ cp_block c + cp_size c <= GetBlockLinearLayerSize d fbw fbh bpb h 1.
Proof.
  intros Hfit Hc Hsz. set (cs := CopyBlockLinearInternal d fbw fbh bpb h 1) in *. destruct layer_width as [Hlw Hv].
  assert (Hall : forall k, 0 <= k < cp_size c -> moves cs (cp_linear c + k) (cp_block c + k)) by (intros k Hk; by exists c, k).
  pose proof (Hall 0 ltac:(lia)) as H0. pose proof (Hall (cp_size c - 1) ltac:(lia)) as H1.
  pose proof (proj1 (moved_range (cp_linear c + 0)) (ex_intro _ _ H0)) as Hl0.
  pose proof (proj1 (moved_range (cp_linear c + (cp_size c - 1))) (ex_intro _ _ H1)) as Hl1.
  apply surface_moves in H0 as (x0 & y0 & Hx0 & Hy0 & _ & Hb0); [|done]. apply surface_moves in H1 as (x1 & y1 & Hx1 & Hy1 & _ & Hb1); [|done].
  pose proof (swizzle_bound x0 y0 Hx0 Hy0). pose proof (swizzle_bound x1 y1 Hx1 Hy1).
  split; [lia|]. split; [lia|]. split; [lia|].
  pose proof Hsf as [Hdep _ Hht _ _ _ _ _ Hg].
  assert (HDp : 0 <= DivideCeil Ht (8 * h)) by (apply Z.div_pos; lia).
  unfold GetBlockLinearLayerSize. rewrite Hdep, (whole_lines _ _ _ _ _ Hsf). change (u32 (AlignUp 1 1)) with 1. change GobHeight with 8. change GobWidth with 64.
  rewrite (wrap_small 64 (8 * h)), (wrap_small 64 (DivideCeil (d_width d) fbw * bpb)) by lia. rewrite Z.mul_1_r.
  assert (Hn : 0 <= gobs_per_row W (W mod 64)).
  { unfold gobs_per_row. pose proof (Z.div_pos W 64 ltac:(lia) ltac:(lia)). destruct (padded (W mod 64)); cbn [Z.b2z]; lia. }
  assert (HA : gobs_per_row W (W mod 64) * 64 * (8 * h * DivideCeil Ht (8 * h)) <=
    AlignUp (DivideCeil (d_width d) fbw * bpb) 64 * (8 * h * DivideCeil Ht (8 * h))) by (apply Z.mul_le_mono_nonneg_r; nia).
  rewrite <- Z.mul_assoc, wrap_small by lia. lia.
Qed.

End conversions.

(** ** Mipmaps *)

Lemma AlignUp_bound value multiple : 0 <= value -> 0 < multiple -> value + multiple <= 2 ^ 64 -> 0 <= AlignUp value multiple <= value + multiple - 1.
Proof.
  intros Hv Hm Hb. unfold AlignUp. rewrite (wrap_small 64 (multiple - 1)), (wrap_small 64 (value + (multiple - 1))) by lia.
  set (m := u64 (Z.lnot (multiple - 1))). pose proof (wrap_range 64 (Z.lnot (multiple - 1)) ltac:(lia)) as Hr. fold m in Hr.
  split; [apply Z.land_nonneg; lia|]. set (a := value + (multiple - 1)) in *.
  assert (Hd : a - Z.land a m = Z.ldiff a (Z.land a m)).
  { apply Z.sub_nocarry_ldiff. apply Z.bits_inj'. intros i _. rewrite Z.ldiff_spec, Z.land_spec, Z.bits_0. by destruct (bit a i), (bit m i). }
  assert (0 <= Z.ldiff a (Z.land a m)) by (apply Z.ldiff_nonneg; lia). lia.
Qed.

Lemma bit_ceil_bound z : 1 <= z -> 1 <= bit_ceil z < 2 * z.
Proof.
  intros Hz. unfold bit_ceil. destruct (Z.leb_spec z 1); [lia|]. pose proof (Z.log2_up_spec z ltac:(lia)) as [Hl _].
  pose proof (Z.log2_up_pos z ltac:(lia)). replace (Z.log2_up z) with (Z.succ (Z.pred (Z.log2_up z))) by lia.
  rewrite Z.pow_succ_r by lia. pose proof (Z.pow_pos_nonneg 2 (Z.pred (Z.log2_up z)) ltac:(lia) ltac:(lia)). lia.
Qed.

Definition sum_sizes (l : list MipLevelLayout) : Z := foldr (fun m n => ml_blockLinearSize m + n) 0 l.

(** The levels of [GetBlockLinearMipLayout] add up to the layer as [GetBlockLinearLayerSize]
    counts it. *)
Lemma mip_levels_fill levelCount d fbh fbw bpb th tw tb gw gh h dp total :
  0 <= d_depth d <= 2 ^ 30 -> 0 < dp <= 2 ^ 30 ->
  u64 (total + sum_sizes (mip_levels levelCount d fbh fbw bpb th tw tb gw gh h dp)) =
  u64 (sum_levels levelCount gw gh (d_depth d) h dp total).
Proof.
  revert d gw gh h dp total. induction levelCount as [|n IH]; intros d gw gh h dp total Hd Hdp; cbn [mip_levels sum_levels]; [by rewrite Z.add_0_r|].
  assert (Hd2 : d_depth d / 2 <= 2 ^ 29) by (apply Z.div_le_upper_bound; lia).
  set (dn := mk_dimensions (Z.max (d_width d / 2) 1) (Z.max (d_height d / 2) 1) (Z.max (d_depth d / 2) 1)).
  change (Z.max (d_depth d / 2) 1) with (d_depth dn). rewrite <- (IH dn).
  - cbn [sum_sizes foldr ml_blockLinearSize]. pose proof (AlignUp_bound (d_depth d) dp ltac:(lia) ltac:(lia) ltac:(lia)).
    rewrite (wrap_small 32 (AlignUp (d_depth d) dp)) by lia. unfold sum_sizes.
    match goal with |- u64 (_ + (_ + ?r)) = _ => generalize r end. intros rest.
    unfold wrap. rewrite Z.add_assoc, <- (Z.add_mod_idemp_l (_ + _ mod _)), Z.add_mod_idemp_r by lia. done.
  - pose proof (Z.div_pos (d_depth d) 2). simpl. lia.
  - unfold CalculateBlockGobs. cbn [d_depth dn]. destruct (Z.ltb_spec dp (Z.max (d_depth d / 2) 1)); [lia|].
    pose proof (bit_ceil_bound (Z.max (d_depth d / 2) 1) ltac:(lia)). lia.
Qed.

(** ** Limits *)

(** A block of a volume deeper than the surface is 1024 bytes here, but the second one is looked
    for 32 bytes after the first slice of the first. *)
Lemma depth_padding_too_small :
  In (mk_copy 64 544 16) (CopyBlockLinearInternal (mk_dimensions 128 8 1) 1 1 1 1 2) /\ swizzle 2 1 64 0 * 2 = 1024.
Proof. split; [|done]. vm_compute. tauto. Qed.

(** Of a volume deeper than a block, only the slices of the first block are converted. *)
Lemma deep_volume_cut :
  Forall (fun c => cp_linear c < 64 * 8) (CopyBlockLinearInternal (mk_dimensions 64 8 2) 1 1 1 1 1).
Proof. apply (bool_decide_unpack _). vm_compute. exact I. Qed.

(** Format blocks that are not complete are counted in the size of the layer but not converted. *)
Lemma partial_blocks_dropped :
  CopyBlockLinearInternal (mk_dimensions 2 2 1) 4 4 16 1 1 = [] /\ GetBlockLinearLayerSize (mk_dimensions 2 2 1) 4 4 16 1 1 = 512.
Proof. done. Qed.

(** Pixels of twelve bytes move the sector pointer by 24 bytes per sector of 16. *)
Lemma twelve_byte_pixels_drift :
  nth 1 (CopyBlockLinearInternal (mk_dimensions 1 2 1) 1 1 12 1 1) (mk_copy 0 0 0) = mk_copy 12 24 12 /\ swizzle 1 1 0 1 = 16.
Proof. done. Qed.

(** ** Witnesses: twenty by twelve pixels of four bytes *)

Definition example_dimensions : Dimensions := mk_dimensions 20 12 1.

Lemma example_surface : surface_2d example_dimensions 1 1 4 1.
Proof. split; simpl; lia || done. Qed.

Lemma deswizzle_reads_in_line_order_witness :
  CopyBlockLinearToLinear example_dimensions 1 1 4 1 1 (fun a => a) (fun _ => 0) 100 = 52.
Proof. exact (deswizzle_reads_in_line_order example_dimensions 1 1 4 1 example_surface (fun a => a) (fun _ => 0) 100). Defined.

Lemma swizzle_deswizzle_roundtrip_witness :
  CopyBlockLinearToLinear example_dimensions 1 1 4 1 1
    (CopyLinearToBlockLinear example_dimensions 1 1 4 1 1 (fun a => a mod 256) (fun _ => 0)) (fun _ => 0) 959 = 191.
Proof.
  pose proof (swizzle_deswizzle_roundtrip example_dimensions 1 1 4 1 example_surface (fun a => a mod 256) (fun _ => 0) (fun _ => 0) 959) as H.
  rewrite H; [reflexivity|]. split; [discriminate|reflexivity].
Defined.

Lemma conversion_in_bounds_witness :
  cp_block (mk_copy 16 32 16) + 16 <= GetBlockLinearLayerSize example_dimensions 1 1 4 1 1.
Proof.
  apply (conversion_in_bounds example_dimensions 1 1 4 1 example_surface (mk_copy 16 32 16)); [vm_compute; reflexivity|vm_compute; tauto|reflexivity].
Defined.
