(* ===== verification/Host1x.v ===== *)
(** * Host1x ([soc/host1x.h], [soc/host1x/*], [services/nvdrv/core/syncpoint_manager.*])

    Syncpoints count completed work; waiters are told when a threshold is reached.  An increment
    adds to the counter before it takes the lock under which waiters are kept, so the counter may
    run ahead of the waiters: the operations are defined first as they run alone, and then the
    steps between which they can interleave.  The command FIFO of a channel decodes the gathers a
    guest submits and calls the methods of the classes behind it.  The syncpoint manager hands out
    syncpoints and tracks how far they can go. *)

From stdpp Require Import sorting.
From S2P Require Import Prelude.

(** ** Syncpoints *)

(** A waiter is a node of the list of waiters, told apart by [w_id]; [w_callback] names what is
    called, and nothing is called for a thread that waits on the condition variable. *)
Record Waiter : Type := mk_waiter {
  w_threshold : Z;
  w_callback : option nat;
  w_id : nat }.

Record Syncpoint : Type := mk_syncpoint {
  sp_value : Z;
  sp_waiters : list Waiter;
  sp_next : nat }.

Definition SyncpointCount : nat := 192.

Definition Syncpoint_new : Syncpoint := mk_syncpoint 0 [] 0.

(** The list stays sorted by threshold: a waiter goes behind the ones it does not precede. *)
Definition insert_waiter (w : Waiter) (l : list Waiter) : list Waiter :=
  let (before, after) := split_at (fun x => w_threshold w <? w_threshold x) l in before ++ w :: after.

(** The waiters an increment to [readValue] releases, and the rest. *)
Definition drain (readValue : Z) (l : list Waiter) : list Waiter * list Waiter :=
  split_at (fun w => readValue <? w_threshold w) l.

(** Gives the handle of the waiter, or calls the callback at once. *)
Definition RegisterWaiter (threshold : Z) (callback : nat) (sp : Syncpoint) : Syncpoint * option nat * list nat :=
  if threshold <=? sp_value sp then (sp, None, [callback])
  else
    (mk_syncpoint (sp_value sp) (insert_waiter (mk_waiter threshold (Some callback) (sp_next sp)) (sp_waiters sp)) (S (sp_next sp)),
     Some (sp_next sp), []).

(** A handle that is not in the list is ignored. *)
Definition DeregisterWaiter (waiter : nat) (sp : Syncpoint) : Syncpoint :=
  mk_syncpoint (sp_value sp) (filter (fun w => w_id w <> waiter) (sp_waiters sp)) (sp_next sp).

(** The new value and the callbacks called, in order. *)
Definition Increment (sp : Syncpoint) : Syncpoint * Z * list nat :=
  let readValue := u32 (sp_value sp + 1) in
  let (released, rest) := drain readValue (sp_waiters sp) in
  (mk_syncpoint readValue rest (sp_next sp), readValue, omap w_callback released).

(** [Wait] up to the point where the thread blocks: the value it returns, if it does not. *)
Definition Wait_begin (threshold : Z) (sp : Syncpoint) : Syncpoint * option bool :=
  if threshold <=? sp_value sp then (sp, Some false)
  else
    (mk_syncpoint (sp_value sp) (insert_waiter (mk_waiter threshold None (sp_next sp)) (sp_waiters sp)) (S (sp_next sp)), None).

(** What a blocked [Wait] returns when it is woken or its timeout passes; [None] means it goes on
    waiting. *)
Definition Wait_resume (threshold : Z) (timedOut : bool) (sp : Syncpoint) : option bool :=
  if threshold <=? sp_value sp then Some true else if timedOut then Some false else None.

(** ** Interleaving *)

(** Increments between their atomic addition and the lock are in [ss_pending]; [ss_lock] is a
    registration that has seen the value below its threshold and is about to insert its waiter.
    [ss_fired], [ss_cancelled] and [ss_registered] record the identities of the waiters that were
    called, deregistered and registered. *)
Record SpState : Type := mk_sp_state {
  ss_value : Z;
  ss_waiters : list Waiter;
  ss_pending : list Z;
  ss_lock : option Waiter;
  ss_fired : list nat;
  ss_cancelled : list nat;
  ss_registered : list nat }.

Definition SpState_new : SpState := mk_sp_state 0 [] [] None [] [] [].

Inductive sp_step : SpState -> SpState -> Prop :=
| sp_add v ws p lk f c r :
    sp_step (mk_sp_state v ws p lk f c r) (mk_sp_state (u32 (v + 1)) ws (p ++ [u32 (v + 1)]) lk f c r)
| sp_release v ws p1 n p2 f c r :
    sp_step (mk_sp_state v ws (p1 ++ n :: p2) None f c r)
      (mk_sp_state v (snd (drain n ws)) (p1 ++ p2) None (f ++ map w_id (fst (drain n ws))) c r)
| sp_register_now v ws p lk f c r threshold k :
    threshold <= v -> k ∉ r -> sp_step (mk_sp_state v ws p lk f c r) (mk_sp_state v ws p lk (f ++ [k]) c (r ++ [k]))
| sp_register_check v ws p f c r threshold cb k :
    v < threshold -> k ∉ r ->
    sp_step (mk_sp_state v ws p None f c r) (mk_sp_state v ws p (Some (mk_waiter threshold cb k)) f c (r ++ [k]))
| sp_register_insert v ws p w f c r :
    sp_step (mk_sp_state v ws p (Some w) f c r) (mk_sp_state v (insert_waiter w ws) p None f c r)
| sp_deregister v ws p f c r k :
    sp_step (mk_sp_state v ws p None f c r)
      (mk_sp_state v (filter (fun w => w_id w <> k) ws) p None f (c ++ map w_id (filter (fun w => w_id w = k) ws)) r).

(** ** The syncpoint manager *)

Record SyncpointInfo : Type := mk_sp_info {
  si_counterMin : Z;
  si_counterMax : Z;
  si_interfaceManaged : bool;
  si_reserved : bool }.

Abbreviation SyncpointManager := (list SyncpointInfo).

Definition at_info (id : Z) (m : SyncpointManager) : M SyncpointInfo := from_opt Throw_out_of_range (m !! Z.to_nat id).

Definition ReserveSyncpoint (id : Z) (clientManaged : bool) (m : SyncpointManager) : M (SyncpointManager * Z) :=
  let! i := at_info id m in
  if si_reserved i then fail (Throw "Requested syncpoint is in use")
  else ok (<[Z.to_nat id := mk_sp_info (si_counterMin i) (si_counterMax i) clientManaged true]> m, id).

(** The first free syncpoint from [i] on. *)
Fixpoint find_free (i : Z) (l : list SyncpointInfo) : option Z :=
  match l with
  | [] => None
  | x :: l => if negb (si_reserved x) then Some i else find_free (i + 1) l
  end.

Definition FindFreeSyncpoint (m : SyncpointManager) : M Z :=
  from_opt (Throw "Failed to find a free syncpoint!") (find_free 1 (tail m)).

Definition AllocateSyncpoint (clientManaged : bool) (m : SyncpointManager) : M (SyncpointManager * Z) :=
  let! id := FindFreeSyncpoint m in ReserveSyncpoint id clientManaged m.

Definition ChannelSyncpoints : list Z := [0x0; 0xC; 0x0; 0x36; 0x0; 0x37; 0x0].

Definition SyncpointManager_new : M SyncpointManager :=
  let! (m, _) := ReserveSyncpoint 26 true (replicate SyncpointCount (mk_sp_info 0 0 false false)) in
  let! (m, _) := ReserveSyncpoint 27 true m in
  foldM (fun m id => if id =? 0 then ok m else let! (m, _) := ReserveSyncpoint id false m in ok m) ChannelSyncpoints m.

Definition IsSyncpointAllocated (id : Z) (m : SyncpointManager) : M bool :=
  if id <=? Z.of_nat SyncpointCount then
    let! i := from_opt (Undefined "past the end of the array") (m !! Z.to_nat id) in ok (si_reserved i)
  else ok false.

Definition HasSyncpointExpired (id threshold : Z) (m : SyncpointManager) : M bool :=
  let! i := at_info id m in
  if negb (si_reserved i) then fail (Throw "Cannot check the expiry status of an unreserved syncpoint!")
  else if si_interfaceManaged i then ok (0 <=? i32 (u32 (si_counterMin i - threshold)))
  else ok (u32 (si_counterMin i - threshold) <=? u32 (si_counterMax i - threshold)).

Definition IncrementSyncpointMaxExt (id amount : Z) (m : SyncpointManager) : M (SyncpointManager * Z) :=
  let! i := at_info id m in
  if negb (si_reserved i) then fail (Throw "Cannot increment an unreserved syncpoint!")
  else
    let v := u32 (si_counterMax i + amount) in
    ok (<[Z.to_nat id := mk_sp_info (si_counterMin i) v (si_interfaceManaged i) true]> m, v).

Definition ReadSyncpointMinValue (id : Z) (m : SyncpointManager) : M Z :=
  let! i := at_info id m in
  if negb (si_reserved i) then fail (Throw "Cannot read an unreserved syncpoint!") else ok (si_counterMin i).

(** [syncpoints] are the hardware's. *)
Definition at_syncpoint (id : Z) (syncpoints : list Syncpoint) : M Syncpoint := from_opt Throw_out_of_range (syncpoints !! Z.to_nat id).

Definition UpdateMin (id : Z) (syncpoints : list Syncpoint) (m : SyncpointManager) : M (SyncpointManager * Z) :=
  let! i := at_info id m in
  if negb (si_reserved i) then fail (Throw "Cannot update an unreserved syncpoint!")
  else
    let! sp := at_syncpoint id syncpoints in
    ok (<[Z.to_nat id := mk_sp_info (sp_value sp) (si_counterMax i) (si_interfaceManaged i) true]> m, sp_value sp).

Record Fence : Type := mk_fence { fence_id : Z; fence_threshold : Z }.

Definition GetSyncpointFence (id : Z) (m : SyncpointManager) : M Fence :=
  let! i := at_info id m in
  if negb (si_reserved i) then fail (Throw "Cannot access an unreserved syncpoint!") else ok (mk_fence id (si_counterMax i)).

(** ** Classes *)

Definition ClassHost1x : Z := 0x1.
Definition ClassVIC : Z := 0x5D.
Definition ClassNvDec : Z := 0xF0.

Definition incr_index (raw : Z) : Z := bits 0 8 raw.
Definition incr_condition (raw : Z) : Z := bits 8 8 raw.

(** What a channel's classes keep, the syncpoints they share with the other channels, and the
    callbacks their increments have called. *)
Record Channel : Type := mk_channel {
  ch_payload : Z;
  ch_nvdecMethod : Z;
  ch_vicMethod : Z;
  ch_syncpoints : list Syncpoint;
  ch_called : list nat }.

Definition increment (id : Z) (c : Channel) : M Channel :=
  let! sp := at_syncpoint id (ch_syncpoints c) in
  let '(sp', _, called) := Increment sp in
  ok (mk_channel (ch_payload c) (ch_nvdecMethod c) (ch_vicMethod c) (<[Z.to_nat id := sp']> (ch_syncpoints c)) (ch_called c ++ called)).

(** A wait without a timeout suspends the channel until the threshold is reached. *)
Definition Host1xClass_CallMethod (method argument : Z) (c : Channel) : M Channel :=
  match method with
  | 0 => increment (incr_index argument) c
  | 0x4E => ok (mk_channel argument (ch_nvdecMethod c) (ch_vicMethod c) (ch_syncpoints c) (ch_called c))
  | 0x50 =>
      let! sp := at_syncpoint (bits 0 8 argument) (ch_syncpoints c) in
      if ch_payload c <=? sp_value sp then ok c else fail (Suspended "Wait syncpoint")
  | _ => ok c
  end.

(** The host interface of a device: increments for finished operations are submitted at once, so
    its queue is empty between calls; the devices themselves are not implemented. *)
Definition TegraHostInterface_CallMethod (set_method : Z -> Channel -> Channel) (method argument : Z) (c : Channel) : M Channel :=
  match method with
  | 0 => if (incr_condition argument =? 0) || (incr_condition argument =? 1) then increment (incr_index argument) c else ok c
  | 0x10 => ok (set_method argument c)
  | _ => ok c
  end.

Definition set_nvdecMethod (v : Z) (c : Channel) : Channel := mk_channel (ch_payload c) v (ch_vicMethod c) (ch_syncpoints c) (ch_called c).
Definition set_vicMethod (v : Z) (c : Channel) : Channel := mk_channel (ch_payload c) (ch_nvdecMethod c) v (ch_syncpoints c) (ch_called c).

(** ** The command FIFO *)

Definition Fifo_Send (targetClass method argument : Z) (c : Channel) : M Channel :=
  if targetClass =? ClassHost1x then Host1xClass_CallMethod method argument c
  else if targetClass =? ClassNvDec then TegraHostInterface_CallMethod set_nvdecMethod method argument c
  else if targetClass =? ClassVIC then TegraHostInterface_CallMethod set_vicMethod method argument c
  else ok c.

Definition hdr_immdData (raw : Z) : Z := bits 0 12 raw.
Definition hdr_methodCount (raw : Z) : Z := bits 0 16 raw.
Definition hdr_offsetMask (raw : Z) : Z := bits 0 16 raw.
Definition hdr_classMethodMask (raw : Z) : Z := bits 0 6 raw.
Definition hdr_classId (raw : Z) : Z := bits 6 10 raw.
Definition hdr_methodAddress (raw : Z) : Z := bits 16 12 raw.
Definition hdr_opcode (raw : Z) : Z := bits 28 4 raw.

(** The methods of the set bits of a mask of [n] bits. *)
Definition masked (address mask n : Z) : list Z := map (fun i => address + i) (filter (fun i => bit mask i = true) (seqZ 0 n)).

(** One argument from the gather for each method. *)
Fixpoint send_methods (targetClass : Z) (methods : list Z) (words : list Z) (c : Channel) : M (list Z * Channel) :=
  match methods with
  | [] => ok (words, c)
  | method :: methods =>
      match words with
      | [] => fail (Undefined "past the end of the gather")
      | argument :: words => let! c := Fifo_Send targetClass method argument c in send_methods targetClass methods words c
      end
  end.

(** The packets of a gather; [fuel] bounds their number. *)
Fixpoint process_words (fuel : nat) (targetClass : Z) (words : list Z) (c : Channel) : M Channel :=
  match words with
  | [] => ok c
  | raw :: words =>
      match fuel with
      | O => fail (Suspended "Process")
      | S fuel =>
          let address := hdr_methodAddress raw in
          match hdr_opcode raw with
          | 0 =>
              let targetClass := hdr_classId raw in
              let! (words, c) := send_methods targetClass (masked address (hdr_classMethodMask raw) 8) words c in
              process_words fuel targetClass words c
          | 1 =>
              let! (words, c) := send_methods targetClass (map (fun i => address + i) (seqZ 0 (hdr_methodCount raw))) words c in
              process_words fuel targetClass words c
          | 2 =>
              let! (words, c) := send_methods targetClass (map (fun _ => address) (seqZ 0 (hdr_methodCount raw))) words c in
              process_words fuel targetClass words c
          | 3 =>
              let! (words, c) := send_methods targetClass (masked address (hdr_offsetMask raw) 16) words c in
              process_words fuel targetClass words c
          | 4 => let! c := Fifo_Send targetClass address (hdr_immdData raw) c in process_words fuel targetClass words c
          | _ => fail (Throw "Unimplemented Host1x command FIFO opcode")
          end
      end
  end.

Definition ChannelCommandFifo_Process (gather : list Z) (c : Channel) : M Channel := process_words (length gather) ClassHost1x gather c.

(** ** No wakeup is lost *)

Definition ascending : list Waiter -> Prop := StronglySorted (fun x y => w_threshold x <= w_threshold y).

(** A waiter is still to be released: its threshold is ahead of the counter, or an increment that
    reaches it has not taken the lock yet. *)
Definition awaited (v : Z) (pending : list Z) (w : Waiter) : Prop := v < w_threshold w \/ exists n, n ∈ pending /\ w_threshold w <= n.

Definition lock_ids (lk : option Waiter) : list nat := match lk with Some w => [w_id w] | None => [] end.

Record sp_ok (s : SpState) : Prop := mk_sp_ok {
  so_sorted : ascending (ss_waiters s);
  so_awaited : Forall (awaited (ss_value s) (ss_pending s)) (ss_waiters s);
  so_lock : forall w, ss_lock s = Some w -> awaited (ss_value s) (ss_pending s) w;
  so_nodup : NoDup (ss_registered s);
  so_once : ss_registered s ≡ₚ ss_fired s ++ map w_id (ss_waiters s) ++ lock_ids (ss_lock s) ++ ss_cancelled s }.

Lemma ascending_app l1 l2 : ascending (l1 ++ l2) <-> ascending l1 /\ ascending l2 /\ forall x y, x ∈ l1 -> y ∈ l2 -> w_threshold x <= w_threshold y.
Proof. unfold ascending. rewrite StronglySorted_app. naive_solver. Qed.

Lemma insert_waiter_perm w l : insert_waiter w l ≡ₚ w :: l.
Proof.
  unfold insert_waiter. destruct (split_at _ l) as [b a] eqn:E. apply split_at_app in E as ->. by rewrite Permutation_middle.
Qed.

Lemma insert_waiter_sorted w l : ascending l -> ascending (insert_waiter w l).
Proof.
  intros Hl. unfold insert_waiter. destruct (split_at _ l) as [b a] eqn:E. pose proof (split_at_app _ _ _ _ E) as ->.
  pose proof (split_at_prefix _ _ _ _ E) as Hb. apply ascending_app in Hl as (Hb1 & Ha & Hba).
  assert (Hw : Forall (fun x => w_threshold w <= w_threshold x) a).
  { destruct a as [|x a]; [constructor|]. pose proof (split_at_head _ _ _ _ _ E) as Hx. apply Z.ltb_lt in Hx.
    apply StronglySorted_inv in Ha as [_ Hxa]. constructor; [lia|]. eapply Forall_impl; [exact Hxa|]. simpl. lia. }
  apply ascending_app. split; [done|]. split; [by constructor|]. intros x y Hx Hy. apply elem_of_cons in Hy as [->|Hy]; [|by apply Hba].
  rewrite Forall_forall in Hb. specialize (Hb x Hx). apply Z.ltb_ge in Hb. lia.
Qed.

Lemma drain_spec n l : ascending l ->
  l = fst (drain n l) ++ snd (drain n l) /\ Forall (fun w => w_threshold w <= n) (fst (drain n l)) /\ Forall (fun w => n < w_threshold w) (snd (drain n l)).
Proof.
  intros Hl. unfold drain. destruct (split_at _ l) as [b a] eqn:E. cbn [fst snd]. pose proof (split_at_app _ _ _ _ E) as ->.
  split; [done|]. split.
  - eapply Forall_impl; [exact (split_at_prefix _ _ _ _ E)|]. simpl. intros w Hw. apply Z.ltb_ge in Hw. lia.
  - destruct a as [|x a]; [constructor|]. pose proof (split_at_head _ _ _ _ _ E) as Hx. apply Z.ltb_lt in Hx.
    apply ascending_app in Hl as (_ & Ha & _). apply StronglySorted_inv in Ha as [_ Hxa]. constructor; [lia|].
    eapply Forall_impl; [exact Hxa|]. simpl. lia.
Qed.

Lemma awaited_add v p w : awaited v p w -> awaited (u32 (v + 1)) (p ++ [u32 (v + 1)]) w.
Proof.
  unfold awaited. intros [H|(n & Hn & H)]; [|right; exists n; set_solver].
  destruct (Z.lt_ge_cases (u32 (v + 1)) (w_threshold w)); [by left|]. right. exists (u32 (v + 1)). split; [set_solver|done].
Qed.

Lemma ids_filter (k : nat) ws : map w_id ws ≡ₚ map w_id (filter (fun w => w_id w <> k) ws) ++ map w_id (filter (fun w => w_id w = k) ws).
Proof.
  induction ws as [|w ws IH]; [done|]. simpl. destruct (decide (w_id w = k)) as [E|E].
  - rewrite filter_cons_False, filter_cons_True by (try done; congruence). simpl. rewrite IH at 1. apply Permutation_middle.
  - rewrite filter_cons_True, filter_cons_False by done. simpl. by rewrite IH at 1.
Qed.

Lemma ascending_filter (P : Waiter -> Prop) `{!forall x, Decision (P x)} l : ascending l -> ascending (filter P l).
Proof.
  induction 1 as [|x l Hl IH Hx]; [constructor|]. rewrite filter_cons. destruct (decide (P x)); [|done].
  constructor; [done|]. rewrite Forall_forall in *. intros y Hy. apply list_elem_of_filter in Hy as [_ Hy]. by apply Hx.
Qed.

Lemma sp_step_ok s s' : sp_ok s -> sp_step s s' -> sp_ok s'.
Proof.
  intros [Hs Ha Hl Hn Ho] Hst. destruct Hst as [v ws p lk f c r|v ws p1 n p2 f c r|v ws p lk f c r threshold k Hv Hk
    |v ws p f c r threshold cb k Hv Hk|v ws p w f c r|v ws p f c r k]; simpl in *.
  - split; simpl; try done.
    + eapply Forall_impl; [exact Ha|]. intros w. apply awaited_add.
    + intros w Hw. by apply awaited_add, Hl.
  - destruct (drain_spec n ws Hs) as (Hsplit & Hfst & Hsnd). split; simpl; try done.
    + rewrite Hsplit in Hs. by apply ascending_app in Hs as (_ & ? & _).
    + rewrite Hsplit in Ha. apply Forall_app in Ha as [_ Ha]. rewrite Forall_forall in *. intros w Hw.
      destruct (Ha w Hw) as [?|(m & Hm & Hle)]; [by left|]. right. exists m. split; [|done]. specialize (Hsnd w Hw).
      assert (m <> n) by lia. set_solver.
    + rewrite Ho. rewrite Hsplit at 1. rewrite map_app, <- !app_assoc. done.
  - split; simpl; try done.
    + apply NoDup_app. split; [done|]. split; [set_solver|apply NoDup_singleton].
    + rewrite Ho. solve_Permutation.
  - split; simpl; try done.
    + intros w [= <-]. by left.
    + apply NoDup_app. split; [done|]. split; [set_solver|apply NoDup_singleton].
    + rewrite Ho. solve_Permutation.
  - split; simpl; try done.
    + by apply insert_waiter_sorted.
    + rewrite insert_waiter_perm. constructor; [by apply Hl|done].
    + rewrite Ho, insert_waiter_perm. simpl. solve_Permutation.
  - split; simpl; try done.
    + by apply ascending_filter.
    + rewrite Forall_forall in *. intros w Hw. apply list_elem_of_filter in Hw as [_ Hw]. by apply Ha.
    + rewrite Ho, (ids_filter k ws). simpl. solve_Permutation.
Qed.

Lemma sp_reachable_ok s : rtc sp_step SpState_new s -> sp_ok s.
Proof.
  intros Hr. assert (H0 : sp_ok SpState_new).
  { split; simpl; try done; [constructor..|]. constructor. }
  remember SpState_new as s0. clear Heqs0. induction Hr as [|s0 s1 s2 Hs _ IH]; [done|]. apply IH. by eapply sp_step_ok.
Qed.

(** C12: No wakeup is lost and none is doubled, however increments, registrations and cancellations
    interleave: once no increment is between its addition and the lock, and no registration holds
    the lock, every waiter left waits for a value the counter has not reached, and each
    registration has been called exactly once, or cancelled, or is still waiting. *)
Theorem no_lost_wakeup s :
  rtc sp_step SpState_new s -> ss_pending s = [] -> ss_lock s = None ->
  Forall (fun w => ss_value s < w_threshold w) (ss_waiters s) /\
  NoDup (ss_fired s ++ map w_id (ss_waiters s) ++ ss_cancelled s) /\
  ss_registered s ≡ₚ ss_fired s ++ map w_id (ss_waiters s) ++ ss_cancelled s.
Proof.
  intros Hr Hp Hl. destruct (sp_reachable_ok s Hr) as [_ Ha _ Hn Ho]. rewrite Hp in Ha. rewrite Hl in Ho. simpl in Ho.
  split; [|split; [by rewrite <- Ho|done]]. eapply Forall_impl; [exact Ha|]. intros w [?|(n & Hin & _)]; [done|]. by apply elem_of_nil in Hin.
Qed.

(** An increment that nothing interleaves with is the addition followed by the release. *)
Lemma Increment_steps v ws next f c r :
  let '(sp, n, _) := Increment (mk_syncpoint v ws next) in
  rtc sp_step (mk_sp_state v ws [] None f c r)
    (mk_sp_state (sp_value sp) (sp_waiters sp) [] None (f ++ map w_id (fst (drain n ws))) c r).
Proof.
  unfold Increment. simpl. destruct (drain (u32 (v + 1)) ws) as [released rest] eqn:E. simpl.
  eapply rtc_l; [apply sp_add|]. eapply rtc_l; [apply (sp_release _ _ [] (u32 (v + 1)) [])|]. rewrite E. apply rtc_refl.
Qed.

(** A fence is pending exactly while its threshold is ahead of the last known value and within
    what has been submitted, also when the counters wrap around. *)
Theorem HasSyncpointExpired_spec id threshold m i :
  m !! Z.to_nat id = Some i -> si_reserved i = true -> si_interfaceManaged i = false ->
  HasSyncpointExpired id threshold m =
  inr (negb ((1 <=? u32 (threshold - si_counterMin i)) && (u32 (threshold - si_counterMin i) <=? u32 (si_counterMax i - si_counterMin i)))).
Proof.
  intros Hi Hr Hm. unfold HasSyncpointExpired, at_info. rewrite Hi. cbn [from_opt bindM]. rewrite Hr, Hm. cbn [negb]. unfold ok. f_equal.
  generalize (si_counterMin i) (si_counterMax i). intros lo hi. unfold wrap. set (W := 2 ^ 32). assert (HW : 0 < W) by done.
  pose proof (Z.mod_pos_bound (threshold - lo) W HW) as Hk. pose proof (Z.mod_pos_bound (hi - lo) W HW) as Hd.
  assert (E1 : (lo - threshold) mod W = if decide ((threshold - lo) mod W = 0) then 0 else W - (threshold - lo) mod W).
  { replace (lo - threshold) with (- (threshold - lo)) by ring. destruct (decide ((threshold - lo) mod W = 0)) as [E|E].
    - apply Z.mod_opp_l_z; lia.
    - apply Z.mod_opp_l_nz; lia. }
  assert (E2 : (hi - threshold) mod W = ((hi - lo) mod W - (threshold - lo) mod W) mod W).
  { rewrite <- Zminus_mod. f_equal. ring. }
  rewrite E1, E2. set (k := (threshold - lo) mod W) in *. set (d := (hi - lo) mod W) in *. destruct (decide (k = 0)) as [->|Hk0].
  - rewrite Z.sub_0_r, (Z.mod_small d) by lia. destruct (Z.leb_spec 0 d); [done|lia].
  - destruct (Z.leb_spec 1 k), (Z.leb_spec k d); try lia; cbn [andb negb].
    + rewrite (Z.mod_small (d - k)) by lia. apply Z.leb_gt. lia.
    + assert ((d - k) mod W = d - k + W) as -> by (symmetry; apply (Z.mod_unique _ _ (-1)); lia). apply Z.leb_le. lia.
Qed.

(** ** Handing out syncpoints *)

Lemma find_free_spec i l id : find_free i l = Some id -> exists k x, id = i + Z.of_nat k /\ l !! k = Some x /\ si_reserved x = false.
Proof.
  revert i. induction l as [|x l IH]; intros i; simpl; [done|]. destruct (si_reserved x) eqn:E; simpl.
  - intros H. apply IH in H as (k & y & -> & Hk & Hy). exists (S k), y. split; [lia|done].
  - intros [= <-]. exists O, x. split; [lia|done].
Qed.

(** An allocated syncpoint was free, is never syncpoint zero, and is reserved from then on, while
    the others are as before; with a free syncpoint allocation succeeds. *)
Lemma AllocateSyncpoint_fresh clientManaged m m' id :
  AllocateSyncpoint clientManaged m = inr (m', id) ->
  1 <= id < Z.of_nat (length m) /\ (exists i, m !! Z.to_nat id = Some i /\ si_reserved i = false) /\
  (exists i, m' !! Z.to_nat id = Some i /\ si_reserved i = true /\ si_interfaceManaged i = clientManaged) /\
  forall k, k <> Z.to_nat id -> m' !! k = m !! k.
Proof.
  intros H. apply bindM_ok in H as (i & Hf & H). unfold FindFreeSyncpoint, from_opt in Hf. destruct (find_free 1 (tail m)) as [j|] eqn:Ef; [|done].
  injection Hf as ->. apply find_free_spec in Ef as (k & x & -> & Hk & Hx). unfold ReserveSyncpoint, at_info in H.
  replace (Z.to_nat (1 + Z.of_nat k)) with (S k) in * by lia.
  destruct m as [|y m]; [done|]. simpl tail in Hk. assert (Hsk : (y :: m) !! S k = Some x) by done.
  rewrite Hsk in H. cbn [from_opt bindM] in H. rewrite Hx in H. inv_ok. pose proof (lookup_lt_Some _ _ _ Hk) as Hlt.
  replace (Z.to_nat (1 + Z.of_nat k)) with (S k) by lia. split; [simpl; lia|]. split; [by exists x|]. split.
  - eexists. simpl. split; [by apply list_lookup_insert_eq|done].
  - intros [|j] Hj; [done|]. simpl. apply list_lookup_insert_ne. congruence.
Qed.

(** The array has syncpoints 0 to 191, but 192 is let through. *)
Lemma IsSyncpointAllocated_past_end m : SyncpointManager_new = inr m -> is_ok (IsSyncpointAllocated 192 m) = false.
Proof. intros H. vm_compute in H. injection H as <-. vm_compute. done. Qed.

(** A wait whose threshold has been reached already reports the value of a timeout. *)
Lemma Wait_reached_reports_timeout threshold sp : threshold <= sp_value sp -> snd (Wait_begin threshold sp) = Some false.
Proof. intros H. unfold Wait_begin. by destruct (Z.leb_spec threshold (sp_value sp)); [|lia]. Qed.

(** ** The command stream *)

Inductive Packet : Type :=
| PSetClass (classId address mask : Z) (args : list Z)
| PIncr (address : Z) (args : list Z)
| PNonIncr (address : Z) (args : list Z)
| PMask (address mask : Z) (args : list Z)
| PImm (address data : Z).

Definition header (opcode address low : Z) : Z := opcode * 2 ^ 28 + address * 2 ^ 16 + low.

(** The words of a packet, after the TRM. *)
Definition encode (p : Packet) : list Z :=
  match p with
  | PSetClass classId address mask args => header 0 address (classId * 2 ^ 6 + mask) :: args
  | PIncr address args => header 1 address (Z.of_nat (length args)) :: args
  | PNonIncr address args => header 2 address (Z.of_nat (length args)) :: args
  | PMask address mask args => header 3 address mask :: args
  | PImm address data => [header 4 address data]
  end.

(** The methods a packet calls, with their arguments. *)
Definition packet_calls (p : Packet) : list (Z * Z) :=
  match p with
  | PSetClass _ address mask args => zip (masked address mask 8) args
  | PIncr address args => zip (map (fun i => address + i) (seqZ 0 (Z.of_nat (length args)))) args
  | PNonIncr address args => map (fun a => (address, a)) args
  | PMask address mask args => zip (masked address mask 16) args
  | PImm address data => [(address, data)]
  end.

Definition class_after (targetClass : Z) (p : Packet) : Z := match p with PSetClass c _ _ _ => c | _ => targetClass end.

Definition call_all (targetClass : Z) (calls : list (Z * Z)) (c : Channel) : M Channel :=
  foldM (fun c call => Fifo_Send targetClass (fst call) (snd call) c) calls c.

(** What a sequence of packets means. *)
Fixpoint run_packets (targetClass : Z) (ps : list Packet) (c : Channel) : M Channel :=
  match ps with
  | [] => ok c
  | p :: ps => let! c := call_all (class_after targetClass p) (packet_calls p) c in run_packets (class_after targetClass p) ps c
  end.

(** Fields in range, and as many arguments as the packet calls methods. *)
Definition packet_ok (p : Packet) : Prop :=
  match p with
  | PSetClass classId address mask args =>
      0 <= classId < 2 ^ 10 /\ 0 <= address < 2 ^ 12 /\ 0 <= mask < 2 ^ 6 /\ length args = length (masked address mask 8)
  | PIncr address args | PNonIncr address args => 0 <= address < 2 ^ 12 /\ Z.of_nat (length args) < 2 ^ 16
  | PMask address mask args => 0 <= address < 2 ^ 12 /\ 0 <= mask < 2 ^ 16 /\ length args = length (masked address mask 16)
  | PImm address data => 0 <= address < 2 ^ 12 /\ 0 <= data < 2 ^ 12
  end.

Lemma header_fields op address low : 0 <= op < 16 -> 0 <= address < 2 ^ 12 -> 0 <= low < 2 ^ 16 ->
  hdr_opcode (header op address low) = op /\ hdr_methodAddress (header op address low) = address /\ hdr_methodCount (header op address low) = low /\
  hdr_classMethodMask (header op address low) = low mod 2 ^ 6 /\ hdr_classId (header op address low) = low / 2 ^ 6 /\
  hdr_immdData (header op address low) = low mod 2 ^ 12.
Proof.
  intros Ho Ha Hl. unfold hdr_opcode, hdr_methodAddress, hdr_methodCount, hdr_classMethodMask, hdr_classId, hdr_immdData, header.
  rewrite !bits_div_mod by lia. repeat split; Z.to_euclidean_division_equations; lia.
Qed.

Lemma send_methods_zip targetClass methods args rest c :
  length methods = length args ->
  send_methods targetClass methods (args ++ rest) c = (let! c := call_all targetClass (zip methods args) c in ok (rest, c)).
Proof.
  revert args c. induction methods as [|m ms IH]; intros [|a args] c Hl; try done. cbn [send_methods app zip zip_with call_all foldM fst snd].
  destruct (Fifo_Send targetClass m a c) as [f|c']; [done|]. cbn [bindM]. apply IH. by injection Hl.
Qed.

Lemma zip_const (address : Z) (l : list Z) (args : list Z) : length l = length args ->
  zip (map (fun _ => address) l) args = map (fun a => (address, a)) args.
Proof. revert args. induction l as [|x l IH]; intros [|a args] Hl; try done. simpl. f_equal. apply IH. by injection Hl. Qed.

Lemma process_packet fuel targetClass p rest c :
  packet_ok p ->
  process_words (S fuel) targetClass (encode p ++ rest) c =
  (let! c := call_all (class_after targetClass p) (packet_calls p) c in process_words fuel (class_after targetClass p) rest c).
Proof.
  intros Hp. destruct p as [classId address mask args|address args|address args|address mask args|address data]; simpl in Hp; cbn [encode app process_words class_after packet_calls].
  - destruct Hp as (Hc & Ha & Hm & Hl).
    destruct (header_fields 0 address (classId * 2 ^ 6 + mask)) as (-> & -> & _ & -> & -> & _); [lia..|].
    rewrite Z.add_comm, Z.div_add, Z.mod_add, Z.div_small, Z.mod_small, Z.add_0_l by lia.
    rewrite send_methods_zip by done. by destruct (call_all _ _ _).
  - destruct Hp as (Ha & Hl). destruct (header_fields 1 address (Z.of_nat (length args))) as (-> & -> & -> & _); [lia..|].
    rewrite send_methods_zip by (rewrite length_map, length_seqZ; lia). by destruct (call_all _ _ _).
  - destruct Hp as (Ha & Hl). destruct (header_fields 2 address (Z.of_nat (length args))) as (-> & -> & -> & _); [lia..|].
    rewrite send_methods_zip by (rewrite length_map, length_seqZ; lia). rewrite zip_const by (rewrite length_seqZ; lia). by destruct (call_all _ _ _).
  - destruct Hp as (Ha & Hm & Hl). destruct (header_fields 3 address mask) as (-> & -> & Hmask & _); [lia..|].
    change (hdr_offsetMask ?r) with (hdr_methodCount r). rewrite Hmask, send_methods_zip by done. by destruct (call_all _ _ _).
  - destruct Hp as (Ha & Hd). destruct (header_fields 4 address data) as (-> & -> & _ & _ & _ & ->); [lia..|].
    rewrite Z.mod_small by lia. unfold call_all. cbn [foldM fst snd]. by destruct (Fifo_Send targetClass address data c).
Qed.

Lemma process_packets fuel targetClass ps c :
  Forall packet_ok ps -> (length ps <= fuel)%nat -> process_words fuel targetClass (concat (map encode ps)) c = run_packets targetClass ps c.
Proof.
  revert fuel targetClass c. induction ps as [|p ps IH]; intros fuel targetClass c Hok Hf; [by destruct fuel|].
  inversion Hok as [|? ? Hp Hps]; subst. destruct fuel as [|fuel]; [simpl in Hf; lia|]. cbn [map concat run_packets].
  rewrite process_packet by done. destruct (call_all _ _ c) as [f|c']; [done|]. cbn [bindM]. apply IH; [done|simpl in Hf; lia].
Qed.

Lemma encode_length ps : (length ps <= length (concat (map encode ps)))%nat.
Proof. induction ps as [|p ps IH]; [done|]. cbn [map concat]. rewrite length_app. destruct p; simpl; lia. Qed.

(** The command FIFO decodes what the format encodes: a gather made of packets calls exactly the
    methods of the packets on the classes they select, with their arguments and in order,
    starting at the host1x class, up to the first call that faults or waits. *)
Theorem Process_decodes_packets ps c :
  Forall packet_ok ps -> ChannelCommandFifo_Process (concat (map encode ps)) c = run_packets ClassHost1x ps c.
Proof. intros Hok. apply process_packets; [done|apply encode_length]. Qed.

(** ** Witnesses *)

(** A registration that has checked the value is overtaken by an increment, and is still called. *)
Lemma no_lost_wakeup_witness :
  exists s, rtc sp_step SpState_new s /\ ss_fired s = [0%nat] /\ NoDup (ss_fired s ++ map w_id (ss_waiters s) ++ ss_cancelled s).
Proof.
  assert (Hr : rtc sp_step SpState_new (mk_sp_state 1 [] [] None [0%nat] [] [0%nat])).
  { eapply rtc_l; [apply (sp_register_check 0 [] [] [] [] [] 1 (Some 7%nat) 0%nat); [lia|set_solver]|].
    eapply rtc_l; [apply sp_add|]. eapply rtc_l; [apply sp_register_insert|].
    eapply rtc_l; [apply (sp_release _ _ [] _ [])|]. apply rtc_refl. }
  eexists. split; [exact Hr|]. split; [reflexivity|]. exact (proj1 (proj2 (no_lost_wakeup _ Hr eq_refl eq_refl))).
Defined.

Lemma HasSyncpointExpired_spec_witness :
  HasSyncpointExpired 1 2 [mk_sp_info 0 0 false false; mk_sp_info 4294967295 3 false true] = inr false.
Proof.
  exact (HasSyncpointExpired_spec 1 2 [mk_sp_info 0 0 false false; mk_sp_info 4294967295 3 false true] _ eq_refl eq_refl eq_refl).
Defined.

Definition example_channel : Channel := mk_channel 0 0 0 (replicate SyncpointCount Syncpoint_new) [].

Lemma Process_decodes_packets_witness :
  ChannelCommandFifo_Process (concat (map encode [PSetClass ClassVIC 0x10 3 [0x200; 0]; PNonIncr 0 [12; 12]])) example_channel =
  run_packets ClassHost1x [PSetClass ClassVIC 0x10 3 [0x200; 0]; PNonIncr 0 [12; 12]] example_channel.
Proof.
  apply (Process_decodes_packets [PSetClass ClassVIC 0x10 3 [0x200; 0]; PNonIncr 0 [12; 12]] example_channel).
  constructor; [|constructor; [|constructor]]; repeat split; vm_compute; (reflexivity || discriminate).
Defined.
