(* ===== verification/BufferQueue.v ===== *)
(** * The buffer queue ([services/hosbinder/GraphicBufferProducer.{h,cpp}], [parcel.{h,cpp}],
    [android_types.h])

    The producer's end of the queue of frame buffers, as the guest calls it through binder
    transactions.  A slot goes from free to dequeued, while the guest draws into its buffer, and
    back to free when the buffer is queued, which presents it at once, or cancelled.  A buffer that
    has been queued has a texture, which keeps an internal duplicate of the nvmap handle its memory
    comes from; the handles are those of [NvMap].  Structures that cross the boundary to the guest
    are kept as their bytes. *)

From S2P Require Import Prelude Common AddressSpace NvMap Layout Host1x.

(** ** Structures in guest memory *)

(** The little-endian value of [n] bytes at an offset. *)
Fixpoint le_value (l : list Z) : Z := match l with [] => 0 | b :: l => b + 256 * le_value l end.
Definition field (l : list Z) (offset n : nat) : Z := le_value (take n (drop offset l)).

Definition u32_bytes (v : Z) : list Z := map (fun i => bits (8 * i) 8 v) (seqZ 0 4).

Definition GraphicBuffer : Type := list Z.
Definition GraphicBuffer_size : nat := 0x16C.

Definition gb_magic (b : GraphicBuffer) : Z := field b 0 4.
Definition gb_width (b : GraphicBuffer) : Z := field b 4 4.
Definition gb_height (b : GraphicBuffer) : Z := field b 8 4.
Definition gb_format (b : GraphicBuffer) : Z := i32 (field b 0x10 4).
Definition gb_usage (b : GraphicBuffer) : Z := field b 0x14 4.
Definition gb_intCount (b : GraphicBuffer) : Z := field b 0x24 4.

(** [graphicHandle], at 0x28. *)
Definition gh_nvmapId (b : GraphicBuffer) : Z := field b (0x28 + 4) 4.
Definition gh_magic (b : GraphicBuffer) : Z := field b (0x28 + 0xC) 4.
Definition gh_format (b : GraphicBuffer) : Z := i32 (field b (0x28 + 0x1C) 4).
Definition gh_surfaceCount (b : GraphicBuffer) : Z := field b (0x28 + 0x2C) 4.

(** [graphicHandle.surfaces[0]], at 0x34 of the handle. *)
Definition surface_base : nat := 0x28 + 0x34.
Definition surface_width (b : GraphicBuffer) : Z := field b surface_base 4.
Definition surface_height (b : GraphicBuffer) : Z := field b (surface_base + 4) 4.
Definition surface_layout (b : GraphicBuffer) : Z := field b (surface_base + 0x10) 4.
Definition surface_pitch (b : GraphicBuffer) : Z := field b (surface_base + 0x14) 4.
Definition surface_nvmapHandle (b : GraphicBuffer) : Z := field b (surface_base + 0x18) 4.
Definition surface_offset (b : GraphicBuffer) : Z := field b (surface_base + 0x1C) 4.
Definition surface_blockHeightLog2 (b : GraphicBuffer) : Z := field b (surface_base + 0x24) 4.
Definition surface_scanFormat (b : GraphicBuffer) : Z := field b (surface_base + 0x28) 4.
Definition surface_size (b : GraphicBuffer) : Z := field b (surface_base + 0x38) 8.

Definition GraphicBuffer_Magic : Z := 0x47424652.
Definition NvGraphicHandle_Magic : Z := 0xDAFFCAFF.
Definition NvGraphicHandle_ints : Z := 0x144 / 4.

Definition LayoutPitch : Z := 1.
Definition LayoutTiled : Z := 2.
Definition LayoutBlocklinear : Z := 3.
Definition ScanProgressive : Z := 0.

(** ** Status codes *)

Inductive AndroidStatus : Type :=
| Status_Ok | Status_UnknownError | Status_NoMemory | Status_InvalidOperation | Status_BadValue | Status_BadType | Status_NameNotFound
| Status_PermissionDenied | Status_NoInit | Status_AlreadyExists | Status_DeadObject | Status_FailedTransaction | Status_JParksBrokeIt
| Status_BadIndex | Status_NotEnoughData | Status_WouldBlock | Status_TimedOut | Status_UnknownTransaction | Status_FdsNotAllowed | Status_Busy.

#[global] Instance AndroidStatus_eq_dec : EqDecision AndroidStatus.
Proof. solve_decision. Defined.

Definition status_code (s : AndroidStatus) : Z :=
  match s with
  | Status_Ok => 0 | Status_UnknownError => - 2 ^ 31 | Status_NoMemory => -12 | Status_InvalidOperation => -38 | Status_BadValue => -22
  | Status_BadType => - 2 ^ 31 + 1 | Status_NameNotFound => -2 | Status_PermissionDenied => -1 | Status_NoInit => -19
  | Status_AlreadyExists => -17 | Status_DeadObject => -32 | Status_FailedTransaction => - 2 ^ 31 + 2 | Status_JParksBrokeIt => -32
  | Status_BadIndex => -75 | Status_NotEnoughData => -61 | Status_WouldBlock => -11 | Status_TimedOut => -110
  | Status_UnknownTransaction => -74 | Status_FdsNotAllowed => - 2 ^ 31 + 7 | Status_Busy => -16
  end.

(** ** Fences *)

Record AndroidFence : Type := mk_android_fence {
  af_fenceCount : Z;
  af_fences : list Fence }.

Definition InvalidFenceId : Z := 0xFFFFFFFF.

Definition AndroidFence_new : AndroidFence :=
  mk_android_fence 0 [mk_fence InvalidFenceId 0; mk_fence 0 0; mk_fence 0 0; mk_fence 0 0].

(** Waiting for the fences; a fence that has not been reached blocks. *)
Definition AndroidFence_Wait (f : AndroidFence) (syncpoints : list Syncpoint) : M unit :=
  if 4 <? af_fenceCount f then fail (Throw "Wait has larger fence count than storage size")
  else
    foldM (fun _ fence =>
      if fence_id fence =? InvalidFenceId then ok tt
      else
        let! sp := at_syncpoint (fence_id fence) syncpoints in
        if fence_threshold fence <=? sp_value sp then ok tt else fail (Suspended "Wait"))
      (take (Z.to_nat (af_fenceCount f)) (af_fences f)) tt.

Record AndroidRect : Type := mk_rect {
  rc_left : Z;
  rc_top : Z;
  rc_right : Z;
  rc_bottom : Z }.

(** ** Textures and frames *)

Inductive GpuFormat : Type := R8G8B8A8Unorm | B8G8R8A8Unorm | R5G6B5Unorm.

Definition format_base (f : GpuFormat) : FormatBase :=
  match f with R8G8B8A8Unorm | B8G8R8A8Unorm => mk_format 4 1 1 | R5G6B5Unorm => mk_format 2 1 1 end.

(** A texture by its guest descriptor. *)
Record GuestTexture : Type := mk_guest_texture {
  gt_mapping : span;
  gt_dimensions : Dimensions;
  gt_format : GpuFormat;
  gt_tileConfig : TileConfig }.

(** What is handed to the presentation engine. *)
Record Frame : Type := mk_frame {
  fr_texture : GuestTexture;
  fr_timestamp : Z;
  fr_swapInterval : Z;
  fr_crop : AndroidRect;
  fr_scalingMode : Z;
  fr_transform : Z }.

(** ** Slots *)

Inductive BufferState : Type := Slot_Free | Slot_Dequeued | Slot_Queued | Slot_Acquired.

#[global] Instance BufferState_eq_dec : EqDecision BufferState.
Proof. solve_decision. Defined.

Record BufferSlot : Type := mk_slot {
  bs_state : BufferState;
  bs_frameNumber : Z;
  bs_wasBufferRequested : bool;
  bs_isPreallocated : bool;
  bs_texture : option GuestTexture;
  bs_graphicBuffer : option GraphicBuffer }.

Definition BufferSlot_new : BufferSlot := mk_slot Slot_Free 0 false false None None.

Definition MaxSlotCount : Z := 16.

(** [gp_nvMap] is the object the queue shares with the rest of the nvdrv services; [gp_signals]
    counts the signals of [bufferEvent], [gp_frames] are the frames presented. *)
Record GraphicBufferProducer : Type := mk_producer {
  gp_queue : list BufferSlot;
  gp_activeSlotCount : Z;
  gp_preallocatedBufferCount : Z;
  gp_defaultWidth : Z;
  gp_defaultHeight : Z;
  gp_defaultFormat : Z;
  gp_connectedApi : Z;
  gp_frameNumber : Z;
  gp_nvMap : NvMap;
  gp_signals : nat;
  gp_frames : list Frame }.

Definition GraphicBufferProducer_new (nvMap : NvMap) : GraphicBufferProducer :=
  mk_producer (replicate 16 BufferSlot_new) 0 0 1 1 1 0 0 nvMap 0 [].

Definition set_gp_queue (v : list BufferSlot) (p : GraphicBufferProducer) : GraphicBufferProducer :=
  mk_producer v (gp_activeSlotCount p) (gp_preallocatedBufferCount p) (gp_defaultWidth p) (gp_defaultHeight p) (gp_defaultFormat p)
    (gp_connectedApi p) (gp_frameNumber p) (gp_nvMap p) (gp_signals p) (gp_frames p).
Definition set_gp_nvMap (v : NvMap) (p : GraphicBufferProducer) : GraphicBufferProducer :=
  mk_producer (gp_queue p) (gp_activeSlotCount p) (gp_preallocatedBufferCount p) (gp_defaultWidth p) (gp_defaultHeight p) (gp_defaultFormat p)
    (gp_connectedApi p) (gp_frameNumber p) v (gp_signals p) (gp_frames p).
Definition set_gp_activeSlotCount (v : Z) (p : GraphicBufferProducer) : GraphicBufferProducer :=
  mk_producer (gp_queue p) v (gp_preallocatedBufferCount p) (gp_defaultWidth p) (gp_defaultHeight p) (gp_defaultFormat p)
    (gp_connectedApi p) (gp_frameNumber p) (gp_nvMap p) (gp_signals p) (gp_frames p).
Definition set_gp_connectedApi (v : Z) (p : GraphicBufferProducer) : GraphicBufferProducer :=
  mk_producer (gp_queue p) (gp_activeSlotCount p) (gp_preallocatedBufferCount p) (gp_defaultWidth p) (gp_defaultHeight p) (gp_defaultFormat p)
    v (gp_frameNumber p) (gp_nvMap p) (gp_signals p) (gp_frames p).
Definition set_gp_defaults (width height format : Z) (p : GraphicBufferProducer) : GraphicBufferProducer :=
  mk_producer (gp_queue p) (gp_activeSlotCount p) (gp_preallocatedBufferCount p) width height format
    (gp_connectedApi p) (gp_frameNumber p) (gp_nvMap p) (gp_signals p) (gp_frames p).
Definition signal_event (p : GraphicBufferProducer) : GraphicBufferProducer :=
  mk_producer (gp_queue p) (gp_activeSlotCount p) (gp_preallocatedBufferCount p) (gp_defaultWidth p) (gp_defaultHeight p) (gp_defaultFormat p)
    (gp_connectedApi p) (gp_frameNumber p) (gp_nvMap p) (S (gp_signals p)) (gp_frames p).

(** Presenting a frame, which advances the frame number. *)
Definition present (f : Frame) (p : GraphicBufferProducer) : GraphicBufferProducer :=
  mk_producer (gp_queue p) (gp_activeSlotCount p) (gp_preallocatedBufferCount p) (gp_defaultWidth p) (gp_defaultHeight p) (gp_defaultFormat p)
    (gp_connectedApi p) (u64 (gp_frameNumber p + 1)) (gp_nvMap p) (gp_signals p) (gp_frames p ++ [f]).

(** A slot of the array, by a signed index that has been checked. *)
Definition get_slot (slot : Z) (p : GraphicBufferProducer) : M BufferSlot :=
  from_opt (Undefined "past the end of the queue") (gp_queue p !! Z.to_nat slot).
Definition put_slot (slot : Z) (s : BufferSlot) (p : GraphicBufferProducer) : GraphicBufferProducer :=
  set_gp_queue (<[Z.to_nat slot := s]> (gp_queue p)) p.

Definition in_queue (slot : Z) : bool := negb (slot <? 0) && (slot <? MaxSlotCount).

(** The counts the attaching operations recompute. *)
Definition count_slots (f : BufferSlot -> bool) (l : list BufferSlot) : Z := Z.of_nat (length (filter (fun s => f s = true) l)).
Definition has_buffer (s : BufferSlot) : bool := match bs_graphicBuffer s with Some _ => true | None => false end.
Definition is_preallocated (s : BufferSlot) : bool := has_buffer s && bs_isPreallocated s.

Definition recount (p : GraphicBufferProducer) : GraphicBufferProducer :=
  mk_producer (gp_queue p) (u8 (count_slots has_buffer (gp_queue p))) (u8 (count_slots is_preallocated (gp_queue p)))
    (gp_defaultWidth p) (gp_defaultHeight p) (gp_defaultFormat p) (gp_connectedApi p) (gp_frameNumber p) (gp_nvMap p) (gp_signals p) (gp_frames p).

(** ** Handles of buffers *)

Definition buffer_handle (b : GraphicBuffer) : Z := if negb (surface_nvmapHandle b =? 0) then surface_nvmapHandle b else gh_nvmapId b.

Definition FreeGraphicBufferNvMap (b : GraphicBuffer) (n : NvMap) : M NvMap :=
  let! (n, _) := FreeHandle (buffer_handle b) true false n in ok n.

(** A slot that drops its texture drops the duplicate of the handle with it. *)
Definition release_texture (s : BufferSlot) (n : NvMap) : M NvMap :=
  match bs_texture s with
  | None => ok n
  | Some _ =>
      match bs_graphicBuffer s with
      | None => fail (Undefined "null graphic buffer")
      | Some b => FreeGraphicBufferNvMap b n
      end
  end.

Definition UnusedFrameNumber : Z := 2 ^ 32 - 1.

(** A slot without its buffer. *)
Definition clear_slot (s : BufferSlot) : BufferSlot :=
  mk_slot Slot_Free UnusedFrameNumber (bs_wasBufferRequested s) (bs_isPreallocated s) None None.

(** Clearing every slot, as [SetBufferCount] and [Disconnect] do. *)
Fixpoint clear_slots (l : list BufferSlot) (n : NvMap) : M (list BufferSlot * NvMap) :=
  match l with
  | [] => ok ([], n)
  | s :: l =>
      let! n := release_texture s n in
      let! (l, n) := clear_slots l n in
      ok (clear_slot s :: l, n)
  end.

(** Scanning for the slot with the lowest frame number among those that satisfy [p]. *)
Fixpoint oldest (p : BufferSlot -> bool) (i : nat) (l : list BufferSlot) (best : option (nat * Z)) : option nat :=
  match l with
  | [] => fst <$> best
  | s :: l =>
      let best :=
        if p s then
          match best with
          | None => Some (i, bs_frameNumber s)
          | Some (_, n) => if bs_frameNumber s <? n then Some (i, bs_frameNumber s) else best
          end
        else best in
      oldest p (S i) l best
  end.

Definition is_free (s : BufferSlot) : bool := bool_decide (bs_state s = Slot_Free).
Definition is_dequeued (s : BufferSlot) : bool := bool_decide (bs_state s = Slot_Dequeued).

(** ** Operations

    [transformHint] is what the presentation engine reports. *)

Definition RequestBuffer (slot : Z) (p : GraphicBufferProducer) : M (GraphicBufferProducer * (AndroidStatus * option GraphicBuffer)) :=
  if negb (in_queue slot) then ok (p, (Status_BadValue, None))
  else
    let! s := get_slot slot p in
    ok (put_slot slot (mk_slot (bs_state s) (bs_frameNumber s) true (bs_isPreallocated s) (bs_texture s) (bs_graphicBuffer s)) p,
        (Status_Ok, bs_graphicBuffer s)).

Definition SetBufferCount (count : Z) (p : GraphicBufferProducer) : M (GraphicBufferProducer * AndroidStatus) :=
  if MaxSlotCount <=? count then ok (p, Status_BadValue)
  else if existsb is_dequeued (gp_queue p) then ok (p, Status_BadValue)
  else if count =? 0 then ok (signal_event (set_gp_activeSlotCount 0 p), Status_Ok)
  else
    let! p :=
      if gp_preallocatedBufferCount p =? 0 then
        let! (q, n) := clear_slots (gp_queue p) (gp_nvMap p) in ok (set_gp_nvMap n (set_gp_queue q p))
      else ok p in
    ok (signal_event (set_gp_activeSlotCount (u8 count) p), Status_Ok).

(** The slot it reports, the fence, and the status.  The slot is reported also by the failures
    after it was found. *)
Definition DequeueBuffer (async : bool) (width height format usage slot : Z) (p : GraphicBufferProducer)
    : M (GraphicBufferProducer * (AndroidStatus * Z * option AndroidFence)) :=
  if negb (width =? 0) && (height =? 0) || (width =? 0) && negb (height =? 0) then ok (p, (Status_BadValue, slot, None))
  else
    match oldest is_free 0 (take (Z.to_nat (gp_activeSlotCount p)) (gp_queue p)) None with
    | None => ok (p, (if async then Status_WouldBlock else Status_InvalidOperation, -1, None))
    | Some i =>
        let slot := Z.of_nat i in
        let width := if negb (width =? 0) then width else gp_defaultWidth p in
        let height := if negb (height =? 0) then height else gp_defaultHeight p in
        let format := if negb (format =? 0) then format else gp_defaultFormat p in
        let! s := get_slot slot p in
        match bs_graphicBuffer s with
        | None => ok (p, (Status_NoMemory, slot, None))
        | Some b =>
            if negb (gh_format b =? format) || negb (surface_width b =? width) || negb (surface_height b =? height) ||
               negb (Z.land (gb_usage b) usage =? usage)
            then ok (p, (Status_NoInit, slot, None))
            else
              ok (put_slot slot (mk_slot Slot_Dequeued (bs_frameNumber s) (bs_wasBufferRequested s) (bs_isPreallocated s) (bs_texture s) (Some b)) p,
                  (Status_Ok, slot, Some AndroidFence_new))
        end
    end.

Definition DetachBuffer (slot : Z) (p : GraphicBufferProducer) : M (GraphicBufferProducer * AndroidStatus) :=
  if negb (in_queue slot) then ok (p, Status_BadValue)
  else
    let! s := get_slot slot p in
    if negb (is_dequeued s) then ok (p, Status_BadValue)
    else if negb (bs_wasBufferRequested s) then ok (p, Status_BadValue)
    else
      let! n := release_texture s (gp_nvMap p) in
      ok (signal_event (put_slot slot (clear_slot s) (set_gp_nvMap n p)), Status_Ok).

Definition DetachNextBuffer (p : GraphicBufferProducer)
    : M (GraphicBufferProducer * (AndroidStatus * option GraphicBuffer * option AndroidFence)) :=
  match oldest (fun s => is_free s && has_buffer s) 0 (gp_queue p) None with
  | None => ok (p, (Status_NoMemory, None, None))
  | Some i =>
      let! s := get_slot (Z.of_nat i) p in
      let! n := release_texture s (gp_nvMap p) in
      ok (signal_event (put_slot (Z.of_nat i) (clear_slot s) (set_gp_nvMap n p)), (Status_Ok, bs_graphicBuffer s, Some AndroidFence_new))
  end.

(** The checks on a buffer that is attached or preallocated. *)
Definition check_buffer (b : GraphicBuffer) : M unit :=
  if negb (gb_magic b =? GraphicBuffer_Magic) then fail (Throw "Unexpected GraphicBuffer magic")
  else if negb (gb_intCount b =? NvGraphicHandle_ints) then fail (Throw "Unexpected GraphicBuffer native_handle integer count")
  else if negb (gh_magic b =? NvGraphicHandle_Magic) then fail (Throw "Unexpected NvGraphicHandle magic")
  else if gh_surfaceCount b <? 1 then fail (Throw "At least one surface is required in a buffer")
  else if 1 <? gh_surfaceCount b then fail (Throw "Multi-planar surfaces are not supported")
  else if negb (surface_scanFormat b =? ScanProgressive) then fail (Throw "Non-Progressive surfaces are not supported")
  else if surface_layout b =? LayoutTiled then fail (Throw "Legacy 16Bx16 tiled surfaces are not supported")
  else ok tt.

Definition AttachBuffer (b : GraphicBuffer) (p : GraphicBufferProducer) : M (GraphicBufferProducer * (AndroidStatus * option Z)) :=
  match oldest is_free 0 (gp_queue p) None with
  | None => ok (p, (Status_NoMemory, None))
  | Some i =>
      let! _ := check_buffer b in
      let! s := get_slot (Z.of_nat i) p in
      let! n := release_texture s (gp_nvMap p) in
      let p := put_slot (Z.of_nat i) (mk_slot Slot_Dequeued (bs_frameNumber s) true false None (Some b)) (set_gp_nvMap n p) in
      ok (recount p, (Status_Ok, Some (Z.of_nat i)))
  end.

(** The number of queued buffers; the loop runs over [activeSlotCount] slots. *)
Definition GetPendingBufferCount (p : GraphicBufferProducer) : M Z :=
  if MaxSlotCount <? gp_activeSlotCount p then fail (Undefined "past the end of the queue")
  else ok (count_slots (fun s => bool_decide (bs_state s = Slot_Queued)) (take (Z.to_nat (gp_activeSlotCount p)) (gp_queue p))).

Definition texture_format (format : Z) : M GpuFormat :=
  match format with
  | 1 | 2 => ok R8G8B8A8Unorm
  | 5 => ok B8G8R8A8Unorm
  | 4 => ok R5G6B5Unorm
  | _ => fail (Throw "Unknown format in buffer")
  end.

Definition texture_tiling (b : GraphicBuffer) : M TileConfig :=
  if surface_layout b =? LayoutBlocklinear then
    if surface_blockHeightLog2 b <? 32 then ok (TileBlock (u8 (u32 (2 ^ surface_blockHeightLog2 b))) 1)
    else fail (Undefined "shift past the width")
  else if surface_layout b =? LayoutPitch then ok (TilePitch (surface_pitch b))
  else if surface_layout b =? LayoutTiled then fail (Throw "Legacy 16Bx16 tiled surfaces are not supported")
  else ok TileLinear.

(** The texture of a buffer that is queued for the first time, with a duplicate of its handle. *)
Definition create_texture (b : GraphicBuffer) (n : NvMap) : M (NvMap * GuestTexture) :=
  if negb (gh_magic b =? NvGraphicHandle_Magic) then fail (Throw "Unexpected NvGraphicHandle magic")
  else if gh_surfaceCount b <? 1 then fail (Throw "At least one surface is required in a buffer")
  else if 1 <? gh_surfaceCount b then fail (Throw "Multi-planar surfaces are not supported")
  else
    let! format := texture_format (gh_format b) in
    if negb (surface_scanFormat b =? ScanProgressive) then fail (Throw "Non-Progressive surfaces are not supported")
    else
      let! l := from_opt (Undefined "null handle") (NvMap_GetHandle (buffer_handle b) n) in
      let! h := deref l n in
      let! (h, err) := Handle_Duplicate true h in
      if negb (bool_decide (err = Posix_Success)) then fail (Throw "Failed to duplicate graphic buffer NvMap handle")
      else if u64 (h_origSize h - surface_offset b) <? surface_size b then fail (Throw "Surface doesn't fit into NvMap mapping")
      else
        let! tileConfig := texture_tiling b in
        let dimensions := mk_dimensions (surface_width b) (surface_height b) 1 in
        let! (h, pointer) := Handle_GetPointer h in
        let stride := GetLayerStride 0 dimensions (format_base format) tileConfig 1 1 in
        ok (store l h n, mk_guest_texture (mk_span (pointer + surface_offset b) stride) dimensions format tileConfig).

(** The transforms: combinations of the low three bits, or the inverted display. *)
Definition valid_transform (transform : Z) : bool := (0 <=? transform) && (transform <=? 8).

Definition crop_fits (b : GraphicBuffer) (crop : AndroidRect) : bool :=
  negb ((gb_width b <? u32 (rc_right crop - rc_left crop)) || (gb_height b <? u32 (rc_bottom crop - rc_top crop))).

(** What [QueueBuffer] and [Connect] report. *)
Record QueueOutput : Type := mk_queue_output {
  qo_width : Z;
  qo_height : Z;
  qo_transformHint : Z;
  qo_pendingBufferCount : Z }.

Definition NoOutput : QueueOutput := mk_queue_output 0 0 0 0.

Definition queue_output (transformHint : Z) (p : GraphicBufferProducer) : M QueueOutput :=
  let! pending := GetPendingBufferCount p in
  ok (mk_queue_output (gp_defaultWidth p) (gp_defaultHeight p) transformHint pending).

Definition QueueBuffer (transformHint : Z) (syncpoints : list Syncpoint) (slot timestamp : Z) (isAutoTimestamp : bool) (crop : AndroidRect)
    (scalingMode transform stickyTransform swapInterval : Z) (fence : AndroidFence) (p : GraphicBufferProducer)
    : M (GraphicBufferProducer * (AndroidStatus * QueueOutput)) :=
  if 3 <? scalingMode then ok (p, (Status_BadValue, NoOutput))
  else if negb (in_queue slot) then ok (p, (Status_BadValue, NoOutput))
  else
    let! s := get_slot slot p in
    if negb (is_dequeued s) then ok (p, (Status_BadValue, NoOutput))
    else
      let! b := from_opt (Undefined "null graphic buffer") (bs_graphicBuffer s) in
      let requested texture := mk_slot Slot_Dequeued (bs_frameNumber s) true (bs_isPreallocated s) texture (Some b) in
      if negb (crop_fits b crop) then ok (put_slot slot (requested (bs_texture s)) p, (Status_BadValue, NoOutput))
      else
        let! (n, texture) :=
          match bs_texture s with
          | Some t => ok (gp_nvMap p, t)
          | None => create_texture b (gp_nvMap p)
          end in
        if negb (valid_transform transform) then fail (Throw "Application attempting to perform unknown transformation")
        else if negb (valid_transform stickyTransform) then fail (Throw "Application attempting to perform unknown sticky transformation")
        else
          let! _ := AndroidFence_Wait fence syncpoints in
          let p := present (mk_frame texture (if isAutoTimestamp then 0 else timestamp) swapInterval crop scalingMode transform) (set_gp_nvMap n p) in
          let s := mk_slot Slot_Free (gp_frameNumber p) true (bs_isPreallocated s) (Some texture) (Some b) in
          let p := signal_event (put_slot slot s p) in
          let! out := queue_output transformHint p in
          ok (p, (Status_Ok, out)).

Definition CancelBuffer (syncpoints : list Syncpoint) (slot : Z) (fence : AndroidFence) (p : GraphicBufferProducer) : M GraphicBufferProducer :=
  if negb (in_queue slot) then ok p
  else
    let! s := get_slot slot p in
    if negb (is_dequeued s) then ok p
    else
      let! _ := AndroidFence_Wait fence syncpoints in
      ok (signal_event (put_slot slot (mk_slot Slot_Free 0 (bs_wasBufferRequested s) (bs_isPreallocated s) (bs_texture s) (bs_graphicBuffer s)) p)).

Definition Query (query : Z) (p : GraphicBufferProducer) : AndroidStatus * Z :=
  match query with
  | 0 => (Status_Ok, gp_defaultWidth p)
  | 1 => (Status_Ok, gp_defaultHeight p)
  | 2 => (Status_Ok, u32 (gp_defaultFormat p))
  | 3 => (Status_Ok, 0)
  | 9 => (Status_Ok, 0)
  | 10 => (Status_Ok, 0)
  | 11 => (Status_Ok, 0)
  | 12 => (Status_Ok, gp_activeSlotCount p)
  | _ => (Status_BadValue, 0)
  end.

Definition known_api (api : Z) : bool := (1 <=? api) && (api <=? 4).

Definition Connect (transformHint api : Z) (p : GraphicBufferProducer) : M (GraphicBufferProducer * (AndroidStatus * QueueOutput)) :=
  if negb (gp_connectedApi p =? 0) then ok (p, (Status_BadValue, NoOutput))
  else if negb (known_api api) then ok (p, (Status_BadValue, NoOutput))
  else
    let p := set_gp_connectedApi api p in
    let! out := queue_output transformHint p in
    ok (p, (Status_Ok, out)).

Definition Disconnect (api : Z) (p : GraphicBufferProducer) : M (GraphicBufferProducer * AndroidStatus) :=
  if negb (known_api api) then ok (p, Status_BadValue)
  else if negb (api =? gp_connectedApi p) then ok (p, Status_BadValue)
  else
    let! (q, n) := clear_slots (gp_queue p) (gp_nvMap p) in
    ok (set_gp_nvMap n (set_gp_queue q (set_gp_connectedApi 0 p)), Status_Ok).

Definition SetPreallocatedBuffer (slot : Z) (graphicBuffer : option GraphicBuffer) (p : GraphicBufferProducer)
    : M (GraphicBufferProducer * AndroidStatus) :=
  if negb (in_queue slot) then ok (p, Status_BadValue)
  else
    let! s := get_slot slot p in
    let! n := release_texture s (gp_nvMap p) in
    let p := put_slot slot (mk_slot Slot_Free 0 false (match graphicBuffer with Some _ => true | None => false end) None graphicBuffer)
      (set_gp_nvMap n p) in
    let! p :=
      match graphicBuffer with
      | Some b => let! _ := check_buffer b in ok (set_gp_defaults (gb_width b) (gb_height b) (gb_format b) p)
      | None => ok p
      end in
    ok (signal_event (recount p), Status_Ok).

(** ** Parcels *)

Record Parcel : Type := mk_parcel {
  pc_data : list Z;
  pc_objects : list Z;
  pc_dataOffset : nat }.

Definition ParcelHeader_size : Z := 0x10.
Definition tokenLength : Z := 0x50.

(** [n] bytes of the buffer at an offset the header gives. *)
Definition copy_out (buffer : list Z) (offset n : Z) : M (list Z) :=
  if offset + n <=? Z.of_nat (length buffer) then ok (take (Z.to_nat n) (drop (Z.to_nat offset) buffer))
  else fail (Undefined "past the end of the buffer").

Definition Parcel_read (buffer : list Z) (hasToken : bool) : M Parcel :=
  if Z.of_nat (length buffer) <? ParcelHeader_size then fail (Throw "span size less than type size")
  else
    let dataSize := field buffer 0 4 in
    let dataOffset := field buffer 4 4 in
    let objectsSize := field buffer 8 4 in
    let objectsOffset := field buffer 12 4 in
    if Z.of_nat (length buffer) <? ParcelHeader_size + dataSize + objectsSize then
      fail (Throw "The size of the parcel according to the header exceeds the specified size")
    else
      let token := if hasToken then tokenLength else 0 in
      let! data := copy_out buffer (dataOffset + token) (u32 (dataSize - token)) in
      let! objects := copy_out buffer objectsOffset objectsSize in
      ok (mk_parcel data objects 0).

Definition Parcel_new : Parcel := mk_parcel [] [] 0.

(** The bytes of the next item. *)
Definition Pop_bytes (n : nat) (pc : Parcel) : M (list Z * Parcel) :=
  if Nat.leb (pc_dataOffset pc + n) (length (pc_data pc)) then
    ok (take n (drop (pc_dataOffset pc) (pc_data pc)), mk_parcel (pc_data pc) (pc_objects pc) (pc_dataOffset pc + n))
  else fail (Undefined "past the end of the parcel").

Definition Parcel_Pop (n : nat) (pc : Parcel) : M (Z * Parcel) := let! (l, pc) := Pop_bytes n pc in ok (le_value l, pc).
Definition Pop_i32 (pc : Parcel) : M (Z * Parcel) := let! (v, pc) := Parcel_Pop 4 pc in ok (i32 v, pc).

Definition PopOptionalFlattenable (n : nat) (pc : Parcel) : M (option (list Z) * Parcel) :=
  let! (hasObject, pc) := Parcel_Pop 4 pc in
  if negb (hasObject =? 0) then
    let! (size, pc) := Parcel_Pop 8 pc in
    if negb (size =? Z.of_nat n) then fail (Throw "Popping flattenable of the wrong size")
    else let! (l, pc) := Pop_bytes n pc in ok (Some l, pc)
  else ok (None, pc).

Definition Parcel_Push (l : list Z) (pc : Parcel) : Parcel := mk_parcel (pc_data pc ++ l) (pc_objects pc) (pc_dataOffset pc).
Definition Push_u32 (v : Z) (pc : Parcel) : Parcel := Parcel_Push (u32_bytes v) pc.
Definition Push_status (s : AndroidStatus) (pc : Parcel) : Parcel := Push_u32 (u32 (status_code s)) pc.

Definition PushOptionalFlattenable (object : option (list Z)) (pc : Parcel) : Parcel :=
  match object with
  | None => Push_u32 0 pc
  | Some l => Parcel_Push l (Push_u32 0 (Push_u32 (Z.of_nat (length l)) (Push_u32 1 pc)))
  end.

Definition PushObject (l : list Z) (pc : Parcel) : Parcel := mk_parcel (pc_data pc) (pc_objects pc ++ l) (pc_dataOffset pc).

(** The buffer with the parcel written at its start, and the size of the parcel. *)
Definition WriteParcel (buffer : list Z) (pc : Parcel) : M (list Z * Z) :=
  let dataSize := u32 (Z.of_nat (length (pc_data pc))) in
  let objectsSize := u32 (Z.of_nat (length (pc_objects pc))) in
  let objectsOffset := u32 (ParcelHeader_size + Z.of_nat (length (pc_data pc))) in
  let totalSize := ParcelHeader_size + dataSize + objectsSize in
  if Z.of_nat (length buffer) <? totalSize then fail (Throw "The size of the parcel exceeds maxSize")
  else
    let l := u32_bytes dataSize ++ u32_bytes ParcelHeader_size ++ u32_bytes objectsSize ++ u32_bytes objectsOffset ++ pc_data pc ++ pc_objects pc in
    ok (l ++ drop (length l) buffer, totalSize).

(** The bytes of a fence: the count and four pairs. *)
Definition AndroidFence_size : nat := 36.
Definition AndroidFence_bytes (f : AndroidFence) : list Z :=
  u32_bytes (af_fenceCount f) ++ concat (map (fun x => u32_bytes (fence_id x) ++ u32_bytes (fence_threshold x)) (af_fences f)).
Definition AndroidFence_read (l : list Z) : AndroidFence :=
  mk_android_fence (field l 0 4) (map (fun i => mk_fence (field l (4 + 8 * i) 4) (field l (8 + 8 * i) 4)) (seq 0 4)).

Definition Push_output (out : QueueOutput) (pc : Parcel) : Parcel :=
  Push_u32 (qo_pendingBufferCount out) (Push_u32 (qo_transformHint out) (Push_u32 (qo_height out) (Push_u32 (qo_width out) pc))).

(** ** Transactions

    The arguments of a call are taken from the parcel from left to right. *)
Definition QueueBufferInputSize : Z := 0x54.

Definition OnTransact (transformHint : Z) (syncpoints : list Syncpoint) (code : Z) (pc out : Parcel) (p : GraphicBufferProducer)
    : M (GraphicBufferProducer * Parcel) :=
  match code with
  | 1 =>
      let! (slot, _) := Pop_i32 pc in
      let! (p, (result, buffer)) := RequestBuffer slot p in
      ok (p, Push_status result (PushOptionalFlattenable buffer out))
  | 2 =>
      let! (count, _) := Pop_i32 pc in
      let! (p, result) := SetBufferCount count p in
      ok (p, Push_status result out)
  | 3 =>
      let! (async, pc) := Parcel_Pop 4 pc in
      let! (width, pc) := Parcel_Pop 4 pc in
      let! (height, pc) := Parcel_Pop 4 pc in
      let! (format, pc) := Pop_i32 pc in
      let! (usage, _) := Parcel_Pop 4 pc in
      let! (p, (result, slot, fence)) := DequeueBuffer (negb (async =? 0)) width height format usage 0 p in
      ok (p, Push_status result (PushOptionalFlattenable (AndroidFence_bytes <$> fence) (Push_u32 (u32 slot) out)))
  | 4 =>
      let! (slot, _) := Pop_i32 pc in
      let! (p, result) := DetachBuffer slot p in
      ok (p, Push_status result out)
  | 5 =>
      let! (p, (result, buffer, fence)) := DetachNextBuffer p in
      ok (p, Push_status result (PushOptionalFlattenable (AndroidFence_bytes <$> fence) (PushOptionalFlattenable buffer out)))
  | 6 =>
      let! (buffer, _) := Pop_bytes GraphicBuffer_size pc in
      let! (p, (result, slot)) := AttachBuffer buffer p in
      ok (p, Push_status result (Push_u32 (default 0 slot) out))
  | 7 =>
      let! (slot, pc) := Pop_i32 pc in
      let! (size, pc) := Parcel_Pop 8 pc in
      if negb (size =? QueueBufferInputSize) then fail (Throw "The size of QueueBufferInput in the Parcel doesn't match the expected size")
      else
        let! (timestamp, pc) := Parcel_Pop 8 pc in
        let! (isAutoTimestamp, pc) := Parcel_Pop 4 pc in
        let! (cropLeft, pc) := Parcel_Pop 4 pc in
        let! (cropTop, pc) := Parcel_Pop 4 pc in
        let! (cropRight, pc) := Parcel_Pop 4 pc in
        let! (cropBottom, pc) := Parcel_Pop 4 pc in
        let! (scalingMode, pc) := Parcel_Pop 4 pc in
        let! (transform, pc) := Parcel_Pop 4 pc in
        let! (stickyTransform, pc) := Parcel_Pop 4 pc in
        let! (_, pc) := Parcel_Pop 4 pc in
        let! (swapInterval, pc) := Parcel_Pop 4 pc in
        let! (fence, _) := Pop_bytes AndroidFence_size pc in
        let! (p, (result, output)) := QueueBuffer transformHint syncpoints slot (i64 timestamp) (negb (isAutoTimestamp =? 0))
          (mk_rect cropLeft cropTop cropRight cropBottom) scalingMode transform stickyTransform swapInterval (AndroidFence_read fence) p in
        ok (p, Push_status result (Push_output output out))
  | 8 =>
      let! (slot, pc) := Pop_i32 pc in
      let! (fence, _) := Pop_bytes AndroidFence_size pc in
      let! p := CancelBuffer syncpoints slot (AndroidFence_read fence) p in
      ok (p, out)
  | 9 =>
      let! (query, _) := Parcel_Pop 4 pc in
      let (result, value) := Query query p in
      ok (p, Push_status result (Push_u32 value out))
  | 10 =>
      let! (hasProducerListener, pc) := Parcel_Pop 4 pc in
      if negb (hasProducerListener =? 0) then fail (Throw "Callbacks using IProducerListener are not supported")
      else
        let! (api, pc) := Parcel_Pop 4 pc in
        let! _ := Parcel_Pop 4 pc in
        let! (p, (result, output)) := Connect transformHint api p in
        ok (p, Push_status result (Push_output output out))
  | 11 =>
      let! (api, _) := Parcel_Pop 4 pc in
      let! (p, result) := Disconnect api p in
      ok (p, Push_status result out)
  | 14 =>
      let! (slot, pc) := Pop_i32 pc in
      let! (buffer, _) := PopOptionalFlattenable GraphicBuffer_size pc in
      let! (p, result) := SetPreallocatedBuffer slot buffer p in
      ok (p, Push_status result out)
  | _ => fail (Throw "An unimplemented transaction was called")
  end.

(** ** References: textures and handles *)

(** Whether a slot holds a reference to a handle. *)
Definition slot_refs (id : Z) (s : BufferSlot) : Z :=
  match bs_texture s, bs_graphicBuffer s with
  | Some _, Some b => if buffer_handle b =? id then 1 else 0
  | _, _ => 0
  end.

Definition textures_of (id : Z) (q : list BufferSlot) : Z := foldr (fun s n => slot_refs id s + n) 0 q.

(** The internal references of each handle in the map are the textures over it, and a handle that
    is not in the map has no texture. *)
Definition balanced (q : list BufferSlot) (n : NvMap) : Prop := forall id,
  match internal_refs n id with Some k => k = textures_of id q | None => textures_of id q = 0 end.

Record slot_ok (s : BufferSlot) : Prop := mk_slot_ok {
  sl_state : bs_state s = Slot_Free \/ bs_state s = Slot_Dequeued;
  sl_texture : bs_graphicBuffer s = None -> bs_texture s = None;
  sl_dequeued : bs_graphicBuffer s = None -> bs_state s = Slot_Free }.

Record queue_ok (q : list BufferSlot) (n : NvMap) : Prop := mk_queue_ok {
  po_length : length q = 16%nat;
  po_slots : Forall slot_ok q;
  po_nvMap : nm_ok n;
  po_balanced : balanced q n }.

Definition producer_ok (p : GraphicBufferProducer) : Prop := queue_ok (gp_queue p) (gp_nvMap p).

Lemma slot_refs_nonneg id s : 0 <= slot_refs id s.
Proof. unfold slot_refs. destruct (bs_texture s), (bs_graphicBuffer s); try lia. destruct (_ =? _); lia. Qed.

Lemma textures_app id l1 l2 : textures_of id (l1 ++ l2) = textures_of id l1 + textures_of id l2.
Proof. induction l1 as [|s l1 IH]; simpl; [done|]. unfold textures_of in *. simpl. rewrite IH. lia. Qed.

Lemma textures_nonneg id l : 0 <= textures_of id l.
Proof. induction l as [|s l IH]; [done|]. unfold textures_of in *. simpl. pose proof (slot_refs_nonneg id s). lia. Qed.

Lemma textures_insert id q i s s' : q !! i = Some s -> textures_of id (<[i := s']> q) = textures_of id q - slot_refs id s + slot_refs id s'.
Proof.
  intros Hi. pose proof (lookup_lt_Some _ _ _ Hi) as Hlt. rewrite insert_take_drop by done.
  rewrite <- (take_drop_middle q i s Hi) at 3. rewrite !textures_app. unfold textures_of. simpl. lia.
Qed.

(** Releasing the texture of a slot and replacing the slot by one without a texture. *)
Lemma release_balanced q i s s' n n' :
  nm_ok n -> balanced q n -> q !! i = Some s -> slot_ok s -> bs_texture s' = None -> release_texture s n = inr n' ->
  nm_ok n' /\ balanced (<[i := s']> q) n'.
Proof.
  intros Hok Hb Hi Hs Ht Hr. assert (H0 : forall id, slot_refs id s' = 0) by (intros id; unfold slot_refs; by rewrite Ht).
  unfold release_texture in Hr. destruct (bs_texture s) as [t|] eqn:Et.
  - destruct (bs_graphicBuffer s) as [b|] eqn:Eb; [|done]. unfold FreeGraphicBufferNvMap in Hr.
    apply bindM_ok in Hr as ([n1 info] & Hf & Hr). injection Hr as <-. pose proof (FreeHandle_ok _ _ _ _ _ Hok Hf) as Hok'. split; [done|].
    assert (Hsr : forall id, slot_refs id s = if buffer_handle b =? id then 1 else 0) by (intros id; unfold slot_refs; by rewrite Et, Eb).
    assert (Hpos : 1 <= textures_of (buffer_handle b) q).
    { rewrite <- (take_drop_middle q i s Hi), textures_app. unfold textures_of at 2. simpl. rewrite Hsr, Z.eqb_refl.
      pose proof (textures_nonneg (buffer_handle b) (take i q)). pose proof (textures_nonneg (buffer_handle b) (drop (S i) q)).
      unfold textures_of in *. lia. }
    pose proof (Hb (buffer_handle b)) as Hbal. destruct (internal_refs n (buffer_handle b)) as [k|] eqn:Ek; [|lia]. subst k.
    destruct (FreeHandle_internal_refs _ _ _ _ _ Hok Ek Hf) as [Hself Hother]. cbn [fst] in *. intros id.
    rewrite (textures_insert id q i s s' Hi), H0, Hsr. destruct (Z.eqb_spec (buffer_handle b) id) as [<-|Hne].
    + destruct Hself as [->|[E ->]]; lia.
    + rewrite Hother by done. specialize (Hb id). destruct (internal_refs n id); lia.
  - injection Hr as <-. split; [done|]. intros id. rewrite (textures_insert id q i s s' Hi), H0.
    assert (slot_refs id s = 0) as -> by (unfold slot_refs; by rewrite Et). specialize (Hb id). destruct (internal_refs n id); lia.
Qed.

Lemma clear_slots_balanced pre l n l' n' :
  nm_ok n -> balanced (pre ++ l) n -> Forall slot_ok l -> clear_slots l n = inr (l', n') ->
  l' = map clear_slot l /\ nm_ok n' /\ balanced (pre ++ l') n'.
Proof.
  revert pre n l'. induction l as [|s l IH]; intros pre n l' Hok Hb Hs Hc; simpl in Hc; [by injection Hc as <- <-|].
  inversion Hs as [|? ? Hs1 Hs2]; subst. apply bindM_ok in Hc as (n1 & Hr & Hc). apply bindM_ok in Hc as ([l1 n2] & Hc & He). injection He as <- <-.
  destruct (release_balanced (pre ++ s :: l) (length pre) s (clear_slot s) n n1) as [Hok1 Hb1]; try done.
  { by rewrite lookup_app_r, Nat.sub_diag. }
  rewrite insert_app_r_alt, Nat.sub_diag in Hb1 by done. simpl in Hb1.
  replace (pre ++ clear_slot s :: l) with ((pre ++ [clear_slot s]) ++ l) in Hb1 by (by rewrite <- app_assoc).
  destruct (IH (pre ++ [clear_slot s]) n1 l1 Hok1 Hb1 Hs2 Hc) as (-> & Hok2 & Hb2). split; [done|]. split; [done|]. by rewrite <- app_assoc in Hb2.
Qed.

(** Creating the texture of a slot takes one reference. *)
Lemma create_balanced q i s s' b t n n' :
  nm_ok n -> balanced q n -> q !! i = Some s -> bs_texture s = None -> bs_texture s' = Some t -> bs_graphicBuffer s' = Some b ->
  create_texture b n = inr (n', t) -> nm_ok n' /\ balanced (<[i := s']> q) n'.
Proof.
  intros Hok Hb Hi Ht Ht' Hb' Hc. unfold create_texture in Hc. repeat (destruct (negb _); [done|]). destruct (_ <? 1); [done|]. destruct (1 <? _); [done|].
  apply bindM_ok in Hc as (f & _ & Hc). destruct (negb _); [done|]. apply bindM_ok in Hc as (l & Hg & Hc). apply bindM_ok in Hc as (h & Hd & Hc).
  apply bindM_ok in Hc as ([h1 err] & Hdup & Hc). destruct (bool_decide (err = Posix_Success)) eqn:Eerr; [|done]. apply bool_decide_eq_true in Eerr as ->. cbn [negb] in Hc.
  destruct (_ <? _); [done|]. apply bindM_ok in Hc as (tc & _ & Hc). apply bindM_ok in Hc as ([h2 ptr] & Hp & Hc). injection Hc as <- _.
  unfold NvMap_GetHandle in Hg. destruct (nm_handles n !! buffer_handle b) as [l0|] eqn:Hl; [|done]. injection Hg as ->. apply deref_ok in Hd as Hlk.
  assert (Hh1 : h_internalDupes h1 = h_internalDupes h + 1 /\ h_id h1 = h_id h /\ h_queued h1 = h_queued h /\ h_pins h1 = h_pins h /\ h_pinVirtAddress h1 = h_pinVirtAddress h).
  { unfold Handle_Duplicate in Hdup. destruct (h_allocated h); [|done]. cbn [negb] in Hdup. apply bindM_ok in Hdup as (k & Hk & Hdup). apply i32_inc_ok in Hk.
    injection Hdup as <-. by subst. }
  assert (Hh2 : h_internalDupes h2 = h_internalDupes h + 1 /\ h_id h2 = h_id h /\ h_queued h2 = h_queued h /\ h_pins h2 = h_pins h /\ h_pinVirtAddress h2 = h_pinVirtAddress h).
  { unfold Handle_GetPointer in Hp. destruct (_ =? _); [done|]. by injection Hp as <- _. }
  destruct Hh2 as (Hi2 & Hid2 & Hq2 & Hp2 & Hv2). split; [by eapply update_ok|].
  destruct (no_handles _ Hok _ _ Hl) as (h0 & H0 & Hid0). assert (h0 = h) as -> by congruence.
  intros id. rewrite (textures_insert id q i s s' Hi). unfold slot_refs. rewrite Ht, Ht', Hb'. specialize (Hb id). unfold internal_refs in *.
  change (nm_handles (store l h2 n)) with (nm_handles n). destruct (Z.eqb_spec (buffer_handle b) id) as [<-|Hne].
  - rewrite Hl in *. rewrite (store_lookup l h) by done. rewrite Hlk in Hb. simpl in *. lia.
  - destruct (nm_handles n !! id) as [k|] eqn:Ek; [|lia]. rewrite store_lookup_ne; [destruct (nm_objects n !! k); simpl in *; lia|].
    intros <-. apply Hne. symmetry. by eapply sole_entry.
Qed.

(** ** Every operation keeps the invariant *)

Lemma get_slot_ok slot p s : producer_ok p -> get_slot slot p = inr s -> gp_queue p !! Z.to_nat slot = Some s /\ slot_ok s.
Proof.
  intros [_ Hs _ _] Hg. unfold get_slot, from_opt in Hg. destruct (gp_queue p !! Z.to_nat slot) as [s0|] eqn:E; [|done]. injection Hg as ->.
  split; [done|]. rewrite Forall_lookup in Hs. by eapply Hs.
Qed.

Lemma insert_slots_ok q i s : Forall slot_ok q -> slot_ok s -> Forall slot_ok (<[i := s]> q).
Proof. intros Hq Hs. by apply Forall_insert. Qed.

(** Replacing a slot by one with the same buffer and texture. *)
Lemma update_slot_ok q n i s s' :
  queue_ok q n -> q !! i = Some s -> bs_texture s' = bs_texture s -> bs_graphicBuffer s' = bs_graphicBuffer s -> slot_ok s' -> queue_ok (<[i := s']> q) n.
Proof.
  intros [Hl Hs Hn Hb] Hi Ht Hg Hs'. split; [by rewrite length_insert|by apply insert_slots_ok|done|].
  intros id. rewrite (textures_insert id q i s s' Hi). unfold slot_refs. rewrite Ht, Hg. specialize (Hb id). destruct (internal_refs n id); lia.
Qed.

(** Releasing the texture of a slot and replacing the slot. *)
Lemma replace_slot_ok q n n' i s s' :
  queue_ok q n -> q !! i = Some s -> slot_ok s' -> bs_texture s' = None -> release_texture s n = inr n' -> queue_ok (<[i := s']> q) n'.
Proof.
  intros [Hl Hs Hn Hb] Hi Hs' Ht Hr. assert (Hsi : slot_ok s) by (rewrite Forall_lookup in Hs; by eapply Hs).
  destruct (release_balanced q i s s' n n') as [Hn' Hb']; try done. split; [by rewrite length_insert|by apply insert_slots_ok|done|done].
Qed.

Lemma clear_slot_ok s : slot_ok (clear_slot s).
Proof. split; simpl; auto. Qed.

Lemma clear_all_ok q n q' n' : queue_ok q n -> clear_slots q n = inr (q', n') -> queue_ok q' n'.
Proof.
  intros [Hl Hs Hn Hb] Hc. destruct (clear_slots_balanced [] q n q' n') as (-> & Hn' & Hb'); try done.
  split; [by rewrite length_map|apply Forall_map, Forall_forall; intros s _; apply clear_slot_ok|done|done].
Qed.

Lemma oldest_spec p i l best r : oldest p i l best = Some r ->
  (exists n, best = Some (r, n) /\ forall k s, l !! k = Some s -> p s = true -> n <= bs_frameNumber s) \/
  (exists k s, r = (i + k)%nat /\ l !! k = Some s /\ p s = true /\ (forall b n, best = Some (b, n) -> bs_frameNumber s < n) /\
    forall k' s', l !! k' = Some s' -> p s' = true -> bs_frameNumber s <= bs_frameNumber s').
Proof.
  revert i best. induction l as [|s l IH]; intros i best; simpl.
  - destruct best as [[b n]|]; [|done]. intros [= <-]. left. exists n. split; [done|]. intros k s' Hk. by rewrite lookup_nil in Hk.
  - intros Ho. apply IH in Ho as [(n & Hb & Hmin)|(k & s1 & -> & Hk & Hp & Hlt & Hmin)].
    + destruct (p s) eqn:Ep.
      * destruct best as [[b m]|].
        -- destruct (Z.ltb_spec (bs_frameNumber s) m) as [Hlt|Hge]; injection Hb as <- <-.
           ++ right. exists O, s. split; [lia|]. split; [done|]. split; [done|]. split; [intros ? ? [= <- <-]; done|].
              intros [|k'] s' Hk' Hp'; [by injection Hk' as <-|by apply (Hmin k')].
           ++ left. exists m. split; [done|]. intros [|k'] s' Hk' Hp'; [by injection Hk' as <-|by apply (Hmin k')].
        -- injection Hb as <- <-. right. exists O, s. split; [lia|]. split; [done|]. split; [done|]. split; [done|].
           intros [|k'] s' Hk' Hp'; [by injection Hk' as <-|by apply (Hmin k')].
      * left. exists n. split; [done|]. intros [|k'] s' Hk' Hp'; [injection Hk' as <-; congruence|by apply (Hmin k')].
    + right. exists (S k), s1. split; [lia|]. split; [done|]. split; [done|]. split.
      * intros b n ->. destruct (p s); [|by apply (Hlt b)]. destruct (Z.ltb_spec (bs_frameNumber s) n); [|by apply (Hlt b)].
        specialize (Hlt i _ eq_refl). lia.
      * intros [|k'] s' Hk' Hp'; [|by apply (Hmin k')]. injection Hk' as <-. rewrite Hp' in Hlt. destruct best as [[b n]|].
        -- destruct (Z.ltb_spec (bs_frameNumber s) n); [specialize (Hlt i _ eq_refl); lia|specialize (Hlt b _ eq_refl); lia].
        -- specialize (Hlt i _ eq_refl). lia.
Qed.

(** The slot found from nothing: it satisfies [p] and none that does is older. *)
Lemma oldest_found p l r : oldest p 0 l None = Some r ->
  exists s, l !! r = Some s /\ p s = true /\ forall k s', l !! k = Some s' -> p s' = true -> bs_frameNumber s <= bs_frameNumber s'.
Proof.
  intros Ho. apply oldest_spec in Ho as [(n & [=] & _)|(k & s & -> & Hk & Hp & _ & Hmin)]. by exists s.
Qed.

Lemma oldest_start p i l n : oldest p i l (Some n) <> None.
Proof.
  revert i n. induction l as [|s l IH]; intros i [b n]; [done|]. cbn [oldest]. destruct (p s); [|apply IH]. destruct (_ <? _); apply IH.
Qed.

Lemma oldest_none p i l : oldest p i l None = None -> forall k s, l !! k = Some s -> p s <> true.
Proof.
  revert i. induction l as [|s l IH]; intros i H k s' Hk; [by rewrite lookup_nil in Hk|]. cbn [oldest] in H.
  destruct (p s) eqn:Ep; [by apply oldest_start in H|]. destruct k as [|k]; [injection Hk as <-; congruence|by eapply IH].
Qed.

Lemma RequestBuffer_ok slot p p' r : producer_ok p -> RequestBuffer slot p = inr (p', r) -> producer_ok p'.
Proof.
  intros Hok H. unfold RequestBuffer in H. destruct (negb _); [by injection H as <-|]. apply bindM_ok in H as (s & Hg & H). injection H as <- _.
  destruct (get_slot_ok _ _ _ Hok Hg) as [Hi [H1 H2 H3]]. by eapply update_slot_ok.
Qed.

Lemma SetBufferCount_ok count p p' r : producer_ok p -> SetBufferCount count p = inr (p', r) -> producer_ok p'.
Proof.
  intros Hok H. unfold SetBufferCount in H. destruct (_ <=? count); [by injection H as <-|]. destruct (existsb _ _); [by injection H as <-|].
  destruct (count =? 0); [by injection H as <-|]. apply bindM_ok in H as (p1 & Hp & H). injection H as <- _.
  change (producer_ok p1). destruct (_ =? 0); [|by injection Hp as <-]. apply bindM_ok in Hp as ([q n] & Hc & Hp). injection Hp as <-.
  exact (clear_all_ok _ _ _ _ Hok Hc).
Qed.

Lemma DequeueBuffer_ok async width height format usage slot p p' r :
  producer_ok p -> DequeueBuffer async width height format usage slot p = inr (p', r) -> producer_ok p'.
Proof.
  intros Hok H. unfold DequeueBuffer in H. destruct (_ || _); [by injection H as <-|]. destruct (oldest _ _ _ _) as [i|]; [|by injection H as <-]. cbv zeta in H.
  apply bindM_ok in H as (s & Hg & H). destruct (get_slot_ok _ _ _ Hok Hg) as [Hi [H1 H2 H3]].
  destruct (bs_graphicBuffer s) as [b|] eqn:Eb; [|by injection H as <-]. destruct (_ || _); [by injection H as <-|]. injection H as <- _.
  eapply update_slot_ok; [exact Hok|exact Hi|done|by rewrite Eb|]. split; simpl; [by right|done|done].
Qed.

Lemma DetachBuffer_ok slot p p' r : producer_ok p -> DetachBuffer slot p = inr (p', r) -> producer_ok p'.
Proof.
  intros Hok H. unfold DetachBuffer in H. destruct (negb _); [by injection H as <-|]. apply bindM_ok in H as (s & Hg & H).
  destruct (get_slot_ok _ _ _ Hok Hg) as [Hi _]. destruct (negb _); [by injection H as <-|]. destruct (negb _); [by injection H as <-|].
  apply bindM_ok in H as (n & Hr & H). injection H as <- _. exact (replace_slot_ok _ _ _ _ _ _ Hok Hi (clear_slot_ok s) eq_refl Hr).
Qed.

Lemma DetachNextBuffer_ok p p' r : producer_ok p -> DetachNextBuffer p = inr (p', r) -> producer_ok p'.
Proof.
  intros Hok H. unfold DetachNextBuffer in H. destruct (oldest _ _ _ _) as [i|]; [|by injection H as <-]. apply bindM_ok in H as (s & Hg & H).
  destruct (get_slot_ok _ _ _ Hok Hg) as [Hi _]. apply bindM_ok in H as (n & Hr & H). injection H as <- _.
  exact (replace_slot_ok _ _ _ _ _ _ Hok Hi (clear_slot_ok s) eq_refl Hr).
Qed.

Lemma AttachBuffer_ok b p p' r : producer_ok p -> AttachBuffer b p = inr (p', r) -> producer_ok p'.
Proof.
  intros Hok H. unfold AttachBuffer in H. destruct (oldest _ _ _ _) as [i|]; [|by injection H as <-]. apply bindM_ok in H as ([] & _ & H).
  apply bindM_ok in H as (s & Hg & H). destruct (get_slot_ok _ _ _ Hok Hg) as [Hi _]. apply bindM_ok in H as (n & Hr & H). injection H as <- _.
  refine (replace_slot_ok _ _ _ _ _ (mk_slot Slot_Dequeued (bs_frameNumber s) true false None (Some b)) Hok Hi _ eq_refl Hr).
  split; simpl; [by right|done|done].
Qed.

Lemma QueueBuffer_ok hint sps slot timestamp auto crop mode transform sticky swap fence p p' r :
  producer_ok p -> QueueBuffer hint sps slot timestamp auto crop mode transform sticky swap fence p = inr (p', r) -> producer_ok p'.
Proof.
  intros Hok H. unfold QueueBuffer in H. destruct (3 <? mode); [by injection H as <-|]. destruct (negb _); [by injection H as <-|].
  apply bindM_ok in H as (s & Hg & H). destruct (get_slot_ok _ _ _ Hok Hg) as [Hi [H1 H2 H3]]. destruct (negb _); [by injection H as <-|].
  apply bindM_ok in H as (b & Hb & H). destruct (bs_graphicBuffer s) as [b0|] eqn:Eb; [|done]. injection Hb as ->.
  destruct (negb _).
  { injection H as <- _. eapply update_slot_ok; [exact Hok|exact Hi|done|by rewrite Eb|]. split; simpl; [by right|done|done]. }
  apply bindM_ok in H as ([n t] & Ht & H). destruct (negb _); [done|]. destruct (negb _); [done|].
  apply bindM_ok in H as ([] & _ & H). cbv zeta in H. apply bindM_ok in H as (out & _ & H). injection H as <- _.
  set (s' := mk_slot Slot_Free _ true _ (Some t) (Some b)). assert (Hs' : slot_ok s') by (split; simpl; auto; done).
  change (queue_ok (<[Z.to_nat slot := s']> (gp_queue p)) n). destruct (bs_texture s) as [t0|] eqn:Et.
  - injection Ht as <- <-. eapply update_slot_ok; [exact Hok|exact Hi|by rewrite Et|by rewrite Eb|done].
  - destruct Hok as [Hl Hs Hn Hbal]. destruct (create_balanced _ _ _ s' _ _ _ _ Hn Hbal Hi Et eq_refl eq_refl Ht) as [Hn' Hb'].
    split; [by rewrite length_insert|by apply insert_slots_ok|done|done].
Qed.

Lemma CancelBuffer_ok sps slot fence p p' : producer_ok p -> CancelBuffer sps slot fence p = inr p' -> producer_ok p'.
Proof.
  intros Hok H. unfold CancelBuffer in H. destruct (negb _); [by injection H as <-|]. apply bindM_ok in H as (s & Hg & H).
  destruct (get_slot_ok _ _ _ Hok Hg) as [Hi [H1 H2 H3]]. destruct (negb _); [by injection H as <-|]. apply bindM_ok in H as ([] & _ & H). injection H as <-.
  eapply update_slot_ok; [exact Hok|exact Hi|done|done|]. split; simpl; auto.
Qed.

Lemma Connect_ok hint api p p' r : producer_ok p -> Connect hint api p = inr (p', r) -> producer_ok p'.
Proof.
  intros Hok H. unfold Connect in H. destruct (negb _); [by injection H as <-|]. destruct (negb _); [by injection H as <-|].
  cbv zeta in H. apply bindM_ok in H as (out & _ & H). by injection H as <-.
Qed.

Lemma Disconnect_ok api p p' r : producer_ok p -> Disconnect api p = inr (p', r) -> producer_ok p'.
Proof.
  intros Hok H. unfold Disconnect in H. destruct (negb _); [by injection H as <-|]. destruct (negb _); [by injection H as <-|].
  apply bindM_ok in H as ([q n] & Hc & H). injection H as <- _. exact (clear_all_ok _ _ _ _ Hok Hc).
Qed.

Lemma SetPreallocatedBuffer_ok slot b p p' r : producer_ok p -> SetPreallocatedBuffer slot b p = inr (p', r) -> producer_ok p'.
Proof.
  intros Hok H. unfold SetPreallocatedBuffer in H. destruct (negb _); [by injection H as <-|]. apply bindM_ok in H as (s & Hg & H).
  destruct (get_slot_ok _ _ _ Hok Hg) as [Hi _]. apply bindM_ok in H as (n & Hr & H). cbv zeta in H. apply bindM_ok in H as (p1 & Hp & H).
  injection H as <- _. change (producer_ok p1). set (s' := mk_slot Slot_Free 0 false _ None b) in Hp.
  assert (Hq : queue_ok (<[Z.to_nat slot := s']> (gp_queue p)) n) by (eapply replace_slot_ok; try done; split; simpl; auto).
  destruct b as [b|]; [apply bindM_ok in Hp as ([] & _ & Hp)|]; by injection Hp as <-.
Qed.

(** The calls of the producer, and what the guest does with its handles in between. *)
Inductive bq_step : GraphicBufferProducer -> GraphicBufferProducer -> Prop :=
| bq_request slot p p' r : RequestBuffer slot p = inr (p', r) -> bq_step p p'
| bq_count count p p' r : SetBufferCount count p = inr (p', r) -> bq_step p p'
| bq_dequeue async width height format usage slot p p' r : DequeueBuffer async width height format usage slot p = inr (p', r) -> bq_step p p'
| bq_detach slot p p' r : DetachBuffer slot p = inr (p', r) -> bq_step p p'
| bq_detach_next p p' r : DetachNextBuffer p = inr (p', r) -> bq_step p p'
| bq_attach b p p' r : AttachBuffer b p = inr (p', r) -> bq_step p p'
| bq_queue hint sps slot timestamp auto crop mode transform sticky swap fence p p' r :
    QueueBuffer hint sps slot timestamp auto crop mode transform sticky swap fence p = inr (p', r) -> bq_step p p'
| bq_cancel sps slot fence p p' : CancelBuffer sps slot fence p = inr p' -> bq_step p p'
| bq_connect hint api p p' r : Connect hint api p = inr (p', r) -> bq_step p p'
| bq_disconnect api p p' r : Disconnect api p = inr (p', r) -> bq_step p p'
| bq_preallocate slot b p p' r : SetPreallocatedBuffer slot b p = inr (p', r) -> bq_step p p'
| bq_guest p n : guest_step (gp_nvMap p) n -> bq_step p (set_gp_nvMap n p).

Lemma guest_keeps_ok p n : producer_ok p -> guest_step (gp_nvMap p) n -> producer_ok (set_gp_nvMap n p).
Proof.
  intros [Hl Hs Hn Hb] Hg. split; [done|done|by eapply guest_step_ok|]. intros id. specialize (Hb id). simpl.
  destruct (guest_refs _ _ id Hn Hg) as [->|[[E ->]|[E ->]]]; [done|rewrite E in Hb; lia|rewrite E in Hb; lia].
Qed.

Lemma bq_step_ok p p' : producer_ok p -> bq_step p p' -> producer_ok p'.
Proof.
  intros Hok Hs. destruct Hs as [slot p p' r H|count p p' r H|async w h f u slot p p' r H|slot p p' r H|p p' r H|b p p' r H
    |hint sps slot ts auto crop mode tr st sw fence p p' r H|sps slot fence p p' H|hint api p p' r H|api p p' r H|slot b p p' r H|p n H].
  - by eapply RequestBuffer_ok.
  - by eapply SetBufferCount_ok.
  - by eapply DequeueBuffer_ok.
  - by eapply DetachBuffer_ok.
  - by eapply DetachNextBuffer_ok.
  - by eapply AttachBuffer_ok.
  - by eapply QueueBuffer_ok.
  - by eapply CancelBuffer_ok.
  - by eapply Connect_ok.
  - by eapply Disconnect_ok.
  - by eapply SetPreallocatedBuffer_ok.
  - by apply guest_keeps_ok.
Qed.

(** A transaction is one call of the producer, or leaves it as it was. *)
Ltac unbind H :=
  repeat (let r := fresh "r" in let E := fresh "E" in
    apply bindM_ok in H as (r & E & H); repeat (match goal with a : (_ * _)%type |- _ => let x := fresh "x" in let y := fresh "y" in destruct a as [x y] end); cbn beta iota in H;
    try (let C := fresh "C" in destruct (negb _) eqn:C in H; [discriminate H|])).

Ltac the_call :=
  match goal with
  | E : RequestBuffer _ _ = inr _ |- _ => eapply bq_request; exact E
  | E : SetBufferCount _ _ = inr _ |- _ => eapply bq_count; exact E
  | E : DequeueBuffer _ _ _ _ _ _ _ = inr _ |- _ => eapply bq_dequeue; exact E
  | E : DetachBuffer _ _ = inr _ |- _ => eapply bq_detach; exact E
  | E : DetachNextBuffer _ = inr _ |- _ => eapply bq_detach_next; exact E
  | E : AttachBuffer _ _ = inr _ |- _ => eapply bq_attach; exact E
  | E : QueueBuffer _ _ _ _ _ _ _ _ _ _ _ _ = inr _ |- _ => eapply bq_queue; exact E
  | E : CancelBuffer _ _ _ _ = inr _ |- _ => eapply bq_cancel; exact E
  | E : Connect _ _ _ = inr _ |- _ => eapply bq_connect; exact E
  | E : Disconnect _ _ = inr _ |- _ => eapply bq_disconnect; exact E
  | E : SetPreallocatedBuffer _ _ _ = inr _ |- _ => eapply bq_preallocate; exact E
  end.

Lemma OnTransact_step hint sps code pc out p p' out' : OnTransact hint sps code pc out p = inr (p', out') -> p' = p \/ bq_step p p'.
Proof.
  unfold OnTransact. intros H. destruct code as [|c|c]; [done| |done].
  destruct c as [[[[c|c|]|[c|c|]|]|[[c|c|]|[c|c|]|]|]|[[[c|c|]|[c|c|]|]|[[c|c|]|[c|c|]|]|]|]; try discriminate H.
  all: unbind H; try (destruct (Query _ _)); injection H as <- _; first [right; the_call|by left].
Qed.

(** What the guest can do: transactions, and the handles it creates, allocates and frees. *)
Inductive binder_step : GraphicBufferProducer -> GraphicBufferProducer -> Prop :=
| binder_transact hint sps code pc out p p' out' : OnTransact hint sps code pc out p = inr (p', out') -> binder_step p p'
| binder_guest p n : guest_step (gp_nvMap p) n -> binder_step p (set_gp_nvMap n p).

Lemma binder_step_ok p p' : producer_ok p -> binder_step p p' -> producer_ok p'.
Proof.
  intros Hok Hs. destruct Hs as [hint sps code pc out p p' out' H|p n H]; [|by apply guest_keeps_ok].
  apply OnTransact_step in H as [->|H]; [done|by eapply bq_step_ok].
Qed.

Lemma producer_new_ok n : NvMap_new = inr n -> producer_ok (GraphicBufferProducer_new n).
Proof.
  intros Hn. pose proof (NvMap_new_ok n Hn) as Hok. split; [done| |done|].
  - apply Forall_replicate. split; simpl; auto.
  - intros id. change (gp_nvMap (GraphicBufferProducer_new n)) with n. assert (E : internal_refs n id = None).
    { unfold NvMap_new in Hn. apply bindM_ok in Hn as (a & _ & Hn). apply bindM_ok in Hn as (m & _ & Hn). injection Hn as <-.
      unfold internal_refs. cbn [nm_handles]. by rewrite lookup_empty. }
    by rewrite E.
Qed.

Lemma texture_counted id q i s : q !! i = Some s -> slot_refs id s <= textures_of id q.
Proof.
  intros Hi. rewrite <- (take_drop_middle q i s Hi), textures_app. unfold textures_of at 2. simpl.
  pose proof (textures_nonneg id (take i q)). pose proof (textures_nonneg id (drop (S i) q)). unfold textures_of in *. lia.
Qed.

(** C6: Textures keep their memory.  Along any history of binder transactions, interleaved with the guest
    creating, allocating and freeing nvmap handles, the queue keeps its sixteen slots, each free or
    dequeued, and every slot that holds a texture holds the buffer it was made from, whose handle is
    still in the map; the handle has exactly one internal reference for each texture over it, so the
    guest cannot free the memory under a texture and no reference is leaked. *)
Theorem bq_keeps_handles n p :
  NvMap_new = inr n -> rtc binder_step (GraphicBufferProducer_new n) p ->
  length (gp_queue p) = 16%nat /\
  Forall (fun s => bs_state s = Slot_Free \/ bs_state s = Slot_Dequeued) (gp_queue p) /\
  forall i s t, gp_queue p !! i = Some s -> bs_texture s = Some t ->
    exists b, bs_graphicBuffer s = Some b /\
      internal_refs (gp_nvMap p) (buffer_handle b) = Some (textures_of (buffer_handle b) (gp_queue p)) /\
      1 <= textures_of (buffer_handle b) (gp_queue p).
Proof.
  intros Hn Hr. assert (Hok : producer_ok p).
  { pose proof (producer_new_ok n Hn) as H0. clear Hn. induction Hr as [|p1 p2 p3 Hs _ IH]; [done|]. apply IH. by eapply binder_step_ok. }
  destruct Hok as [Hl Hs Hnm Hb]. split; [done|]. split; [eapply Forall_impl; [exact Hs|]; by intros s []|].
  intros i s t Hi Ht. rewrite Forall_lookup in Hs. pose proof (Hs i s Hi) as [_ Htb _].
  destruct (bs_graphicBuffer s) as [b|] eqn:Eb; [|specialize (Htb eq_refl); congruence]. exists b. split; [done|].
  pose proof (texture_counted (buffer_handle b) _ _ _ Hi) as Hc. unfold slot_refs in Hc at 1. rewrite Ht, Eb, Z.eqb_refl in Hc.
  specialize (Hb (buffer_handle b)). destruct (internal_refs _ _) as [k|]; [|lia]. by subst.
Qed.

(** Dequeueing takes the oldest free buffer.  On success the slot reported is active, was free, has a
    buffer, and no free active slot has a lower frame number; it becomes dequeued, nothing else
    changes, and the fence returned is one that needs no wait.  On failure the queue is unchanged and
    no fence is returned, and the statuses that report that nothing is free are returned only when no
    active slot is free. *)
Theorem DequeueBuffer_oldest async width height format usage slot p p' status slot' fence :
  DequeueBuffer async width height format usage slot p = inr (p', (status, slot', fence)) ->
  if decide (status = Status_Ok) then
    exists s b, gp_queue p !! Z.to_nat slot' = Some s /\ 0 <= slot' < gp_activeSlotCount p /\
      bs_state s = Slot_Free /\ bs_graphicBuffer s = Some b /\
      (forall k s', (k < Z.to_nat (gp_activeSlotCount p))%nat -> gp_queue p !! k = Some s' -> bs_state s' = Slot_Free ->
        bs_frameNumber s <= bs_frameNumber s') /\
      p' = put_slot slot' (mk_slot Slot_Dequeued (bs_frameNumber s) (bs_wasBufferRequested s) (bs_isPreallocated s) (bs_texture s) (Some b)) p /\
      fence = Some AndroidFence_new
  else
    p' = p /\ fence = None /\
    (status = Status_InvalidOperation \/ status = Status_WouldBlock ->
      forall k s', (k < Z.to_nat (gp_activeSlotCount p))%nat -> gp_queue p !! k = Some s' -> bs_state s' <> Slot_Free).
Proof.
  intros H. unfold DequeueBuffer in H. destruct (_ || _).
  { injection H as <- <- _ <-. cbn. split; [done|]. split; [done|]. by intros []. }
  destruct (oldest _ _ _ _) as [i|] eqn:Eo.
  2:{ injection H as <- <- _ <-. destruct (decide _) as [E|_]; [by destruct async|]. split; [done|]. split; [done|]. intros _ k s' Hk Hs' Hf.
      apply (oldest_none _ _ _ Eo k s'); [by rewrite lookup_take_lt|]. unfold is_free. by rewrite bool_decide_eq_true. }
  apply oldest_found in Eo as (s & Hi & Hp & Hmin). apply lookup_take_Some in Hi as [Hi Hlt]. unfold is_free in Hp. apply bool_decide_eq_true in Hp.
  cbv zeta in H. unfold get_slot in H. rewrite Nat2Z.id, Hi in H. cbn [from_opt bindM] in H.
  destruct (bs_graphicBuffer s) as [b|] eqn:Eb; [|injection H as <- <- _ <-; cbn; split; [done|]; split; [done|]; by intros []].
  destruct (_ || _); injection H as <- <- <- <-; cbn; [split; [done|]; split; [done|]; by intros []|].
  exists s, b. rewrite Nat2Z.id. do 2 (split; [done || lia|]). do 2 (split; [done|]). split; [|done].
  intros k s' Hk Hs' Hf. apply (Hmin k); [by rewrite lookup_take_lt|]. unfold is_free. by rewrite bool_decide_eq_true.
Qed.

(** ** Parcels are read back *)

Lemma field_app_l l1 l2 offset n : (offset + n <= length l1)%nat -> field (l1 ++ l2) offset n = field l1 offset n.
Proof. intros H. unfold field. by rewrite drop_app_le, take_app_le by (rewrite ?length_drop; lia). Qed.

Lemma field_app_r l1 l2 offset n : length l1 = offset -> field (l1 ++ l2) offset n = field l2 0 n.
Proof. intros <-. unfold field. by rewrite drop_app_length. Qed.

Lemma le_value_u32 v : 0 <= v < 2 ^ 32 -> le_value (u32_bytes v) = v.
Proof.
  intros Hv. change (u32_bytes v) with [bits 0 8 v; bits 8 8 v; bits 16 8 v; bits 24 8 v]. unfold bits, le_value.
  rewrite !Z.land_ones, !Z.shiftr_div_pow2 by lia. change (2 ^ 8) with 256.
  change (2 ^ 0) with 1. change (2 ^ 16) with 65536. change (2 ^ 24) with 16777216. Z.div_mod_to_equations. lia.
Qed.

Lemma u32_bytes_length v : length (u32_bytes v) = 4%nat.
Proof. done. Qed.

Lemma field_u32 v l : 0 <= v < 2 ^ 32 -> field (u32_bytes v ++ l) 0 4 = v.
Proof. intros Hv. rewrite field_app_l by (rewrite u32_bytes_length; lia). by apply le_value_u32. Qed.

(** A parcel that is written to a buffer that holds it is read back, with its read position at the
    start; the rest of the buffer is not touched. *)
Lemma WriteParcel_read pc buffer :
  Z.of_nat (length (pc_data pc) + length (pc_objects pc)) + ParcelHeader_size < 2 ^ 32 ->
  Z.of_nat (length (pc_data pc) + length (pc_objects pc)) + ParcelHeader_size <= Z.of_nat (length buffer) ->
  exists buffer' size, WriteParcel buffer pc = inr (buffer', size) /\ length buffer' = length buffer /\
    drop (Z.to_nat size) buffer' = drop (Z.to_nat size) buffer /\
    Parcel_read buffer' false = inr (mk_parcel (pc_data pc) (pc_objects pc) 0).
Proof.
  destruct pc as [data objects offset]. cbn [pc_data pc_objects]. unfold ParcelHeader_size. intros Hw Hb. unfold WriteParcel, ParcelHeader_size. cbn [pc_data pc_objects].
  rewrite !(wrap_small 32) by lia. destruct (Z.ltb_spec (Z.of_nat (length buffer)) (16 + Z.of_nat (length data) + Z.of_nat (length objects))); [lia|].
  set (header := u32_bytes (Z.of_nat (length data)) ++ u32_bytes 16 ++ u32_bytes (Z.of_nat (length objects)) ++ u32_bytes (16 + Z.of_nat (length data))).
  replace (u32_bytes (Z.of_nat (length data)) ++ _) with (header ++ data ++ objects) by (subst header; by rewrite <- !app_assoc).
  assert (Hh : length header = 16%nat) by done. set (rest := drop _ buffer).
  assert (Hr : (length rest = length buffer - (16 + length data + length objects))%nat) by (subst rest; rewrite length_drop, !length_app, Hh; lia).
  eexists _, _. split; [done|]. split; [rewrite !length_app, Hh; lia|]. split.
  { rewrite drop_app_ge by (rewrite !length_app, Hh; lia). subst rest. rewrite drop_drop. f_equal. rewrite !length_app, Hh. lia. }
  assert (Hf : field header 0 4 = Z.of_nat (length data) /\ field header 4 4 = 16 /\ field header 8 4 = Z.of_nat (length objects) /\
      field header 12 4 = 16 + Z.of_nat (length data)).
  { subst header. split; [by apply field_u32; lia|]. rewrite (field_app_r _ _ 4) by done. split; [by apply field_u32; lia|].
    rewrite !app_assoc, <- app_assoc. rewrite (field_app_r _ _ 8) by done. split; [by apply field_u32; lia|].
    rewrite !app_assoc. rewrite (field_app_r _ _ 12) by done. rewrite <- (app_nil_r (u32_bytes _)). apply field_u32. lia. }
  destruct Hf as (F0 & F4 & F8 & F12). unfold Parcel_read, ParcelHeader_size, copy_out. rewrite <- !app_assoc.
  rewrite !field_app_l, F0, F4, F8, F12 by (rewrite Hh; lia). rewrite !length_app, Hh, Hr. cbv zeta. rewrite Z.add_0_r, Z.sub_0_r, (wrap_small 32), !Nat2Z.id by lia.
  replace (Z.to_nat (16 + Z.of_nat (length data))) with (16 + length data)%nat by lia.
  do 2 rewrite (proj2 (Z.ltb_ge _ _)) by lia.
  do 2 (rewrite (proj2 (Z.leb_le _ _)) by lia; cbn [bindM ok]).
  change (Z.to_nat 16) with 16%nat. rewrite <- Hh, drop_app_length, take_app_length, <- length_app, app_assoc, drop_app_length. by rewrite take_app_length.
Qed.

(** ** What the counts do not follow *)

(** A negative count passes the test against the maximum and is truncated to a byte: the active
    slots then reach past the queue, which the next call that reports the pending buffers walks. *)
Lemma SetBufferCount_negative n hint api : known_api api = true ->
  exists p, SetBufferCount (-1) (GraphicBufferProducer_new n) = inr (p, Status_Ok) /\ gp_activeSlotCount p = 255 /\
    Connect hint api p = inl (Undefined "past the end of the queue").
Proof. intros Ha. eexists. split; [reflexivity|]. split; [reflexivity|]. unfold Connect. by rewrite Ha. Qed.

(** Disconnecting frees every slot, but it does not signal the event that tells of free buffers, and
    the counts of active and preallocated slots stay as they were. *)
Lemma Disconnect_keeps_counts api p p' : producer_ok p -> Disconnect api p = inr (p', Status_Ok) ->
  Forall (fun s => bs_state s = Slot_Free /\ bs_graphicBuffer s = None) (gp_queue p') /\
  gp_signals p' = gp_signals p /\ gp_activeSlotCount p' = gp_activeSlotCount p /\ gp_preallocatedBufferCount p' = gp_preallocatedBufferCount p.
Proof.
  intros [Hl Hs Hn Hb] H. unfold Disconnect in H. destruct (negb _); [done|]. destruct (negb _); [done|].
  apply bindM_ok in H as ([q m] & Hc & H). injection H as <-. destruct (clear_slots_balanced [] _ _ _ _ Hn Hb Hs Hc) as (-> & _ & _).
  split; [|done]. apply Forall_map, Forall_forall. by intros s _.
Qed.

(** No slot is ever queued, so the pending count that is reported is zero. *)
Lemma pending_zero p k : producer_ok p -> GetPendingBufferCount p = inr k -> k = 0.
Proof.
  intros [_ Hs _ _] H. unfold GetPendingBufferCount in H. destruct (_ <? _); [done|]. injection H as <-. unfold count_slots.
  assert (E : forall l : list BufferSlot, Forall slot_ok l -> filter (fun s => bool_decide (bs_state s = Slot_Queued) = true) l = []).
  { induction 1 as [|s l [Hst _ _] _ IH]; [done|]. rewrite filter_cons_False; [done|]. destruct Hst as [->| ->]; by rewrite bool_decide_eq_true. }
  rewrite E; [done|]. by apply Forall_take.
Qed.

(** ** Witnesses: a buffer of 32x8 pixels in the handle of two pages *)

Definition put_field (offset : nat) (v : Z) (l : list Z) : list Z := take offset l ++ u32_bytes v ++ drop (offset + 4) l.

Definition example_buffer : GraphicBuffer :=
  put_field (surface_base + 0x38) 0x400 (put_field (surface_base + 0x18) 4 (put_field (surface_base + 0x14) 128 (put_field (surface_base + 0x10) 1
  (put_field (surface_base + 4) 8 (put_field surface_base 32 (put_field (0x28 + 0x2C) 1 (put_field (0x28 + 0x1C) 1 (put_field (0x28 + 0xC) NvGraphicHandle_Magic
  (put_field 0x24 NvGraphicHandle_ints (put_field 0x10 1 (put_field 8 8 (put_field 4 32 (put_field 0 GraphicBuffer_Magic (replicate GraphicBuffer_size 0)))))))))))))).

Definition message (l : list Z) : Parcel := mk_parcel l [] 0.

(** The transactions: preallocate slot 0, dequeue it, queue it. *)
Definition example_preallocate : Parcel := message (u32_bytes 0 ++ u32_bytes 1 ++ u32_bytes 0x16C ++ u32_bytes 0 ++ example_buffer).
Definition example_dequeue : Parcel := message (u32_bytes 0 ++ u32_bytes 0 ++ u32_bytes 0 ++ u32_bytes 0 ++ u32_bytes 0).
Definition example_queue : Parcel :=
  message (u32_bytes 0 ++ u32_bytes 0x54 ++ u32_bytes 0 ++ replicate 8 0 ++ u32_bytes 1 ++ u32_bytes 0 ++ u32_bytes 0 ++ u32_bytes 32 ++ u32_bytes 8 ++
    u32_bytes 0 ++ u32_bytes 0 ++ u32_bytes 0 ++ u32_bytes 0 ++ u32_bytes 1 ++ AndroidFence_bytes AndroidFence_new).

Definition example_producer : GraphicBufferProducer := GraphicBufferProducer_new (value NvMap_new no_nvmap).
Definition example_with_created : GraphicBufferProducer := set_gp_nvMap (value example_created no_nvmap) example_producer.
Definition example_with_handle : GraphicBufferProducer := set_gp_nvMap (value example_allocated no_nvmap) example_with_created.
Definition transact (code : Z) (pc : Parcel) (p : GraphicBufferProducer) : GraphicBufferProducer :=
  fst (value (OnTransact 0 [] code pc Parcel_new p) (p, Parcel_new)).
Definition example_prepared : GraphicBufferProducer := transact 14 example_preallocate example_with_handle.
Definition example_dequeued : GraphicBufferProducer := transact 3 example_dequeue example_prepared.
Definition example_presented : GraphicBufferProducer := transact 7 example_queue example_dequeued.

Definition accepted (code : Z) (pc : Parcel) (p : GraphicBufferProducer) : bool :=
  match OnTransact 0 [] code pc Parcel_new p with inr _ => true | inl _ => false end.

Lemma accepted_step code pc p : accepted code pc p = true -> binder_step p (transact code pc p).
Proof.
  unfold accepted, transact. destruct (OnTransact _ _ _ _ _ _) as [f|[p' out]] eqn:E; [done|]. intros _. by eapply binder_transact.
Qed.

Lemma bq_keeps_handles_witness :
  internal_refs (gp_nvMap example_presented) 4 = Some (textures_of 4 (gp_queue example_presented)) /\ 1 <= textures_of 4 (gp_queue example_presented).
Proof.
  destruct (bq_keeps_handles (value NvMap_new no_nvmap) example_presented) as (_ & _ & H); [vm_compute; reflexivity| |].
  - apply (rtc_l _ _ example_with_created); [apply (binder_guest _ (value example_created no_nvmap)); eapply (guest_create 0x1800); vm_compute; reflexivity|].
    apply (rtc_l _ _ example_with_handle); [apply (binder_guest _ (value example_allocated no_nvmap)); eapply (guest_alloc 4 0 0x1000 0 0x7000000); vm_compute; reflexivity|].
    apply (rtc_l _ _ example_prepared); [apply (accepted_step 14 example_preallocate); vm_compute; reflexivity|].
    apply (rtc_l _ _ example_dequeued); [apply (accepted_step 3 example_dequeue); vm_compute; reflexivity|].
    apply (rtc_l _ _ example_presented); [apply (accepted_step 7 example_queue); vm_compute; reflexivity|]. apply rtc_refl.
  - destruct (H 0%nat (default BufferSlot_new (gp_queue example_presented !! 0%nat))
      (default (mk_guest_texture (mk_span 0 0) (mk_dimensions 0 0 0) R8G8B8A8Unorm TileLinear)
        (bs_texture (default BufferSlot_new (gp_queue example_presented !! 0%nat))))) as (b & Hb & Hr); [vm_compute; reflexivity..|].
    assert (Eb : buffer_handle b = 4) by (vm_compute in Hb; injection Hb as <-; vm_compute; reflexivity). by rewrite Eb in Hr.
Defined.

Lemma DequeueBuffer_oldest_witness : exists s b, gp_queue example_prepared !! 0%nat = Some s /\ bs_state s = Slot_Free /\ bs_graphicBuffer s = Some b.
Proof.
  assert (H : DequeueBuffer false 0 0 0 0 0 example_prepared = inr (example_dequeued, (Status_Ok, 0, Some AndroidFence_new))) by (vm_compute; reflexivity).
  destruct (DequeueBuffer_oldest _ _ _ _ _ _ _ _ _ _ _ H) as (s & b & H1 & _ & H2 & H3 & _).
  exists s, b. split; [exact H1|]. split; [exact H2|exact H3].
Defined.
