(* ===== verification/Nce.v ===== *)
(** * Patching of guest code ([nce.cpp], [nce/instructions.h])

    Guest code runs natively, except for the instructions that would leave it: supervisor calls,
    accesses to the thread pointers and reads of the timer.  [GetPatchData] finds them and counts
    the room their replacements need, [PatchCode] writes a [.patch] section in front of the code
    and replaces each of them by a branch to its trampoline.  The trampolines are checked against a
    small interpreter for the instructions they consist of: running one does to the guest what the
    instruction it replaces is meant to do. *)

From S2P Require Import Prelude Common.

(** ** Encodings

    The bit-fields of an instruction, from the lowest bit, each with its width. *)

Fixpoint pack (fields : list (Z * Z)) : Z :=
  match fields with
  | [] => 0
  | (width, v) :: fields => Z.lor (Z.shiftl (pack fields) width) (Z.land v (Z.ones width))
  end.

Definition Brk (value : Z) : Z := pack [(5, 0); (16, value); (11, 0x6A1)].
Definition Brk_Verify (raw : Z) : bool := (bits 0 5 raw =? 0) && (bits 21 11 raw =? 0x6A1).

Definition Svc_Verify (raw : Z) : bool := (bits 0 5 raw =? 1) && (bits 21 11 raw =? 0x6A0).
Definition svc_imm (raw : Z) : Z := bits 5 16 raw.

Definition Mrs (srcReg destReg : Z) : Z := pack [(5, destReg); (15, srcReg); (12, 0xD53)].
Definition Mrs_Verify (raw : Z) : bool := bits 20 12 raw =? 0xD53.
Definition mrs_destReg (raw : Z) : Z := bits 0 5 raw.
Definition mrs_srcReg (raw : Z) : Z := bits 5 15 raw.

Definition Msr_Verify (raw : Z) : bool := bits 20 12 raw =? 0xD51.
Definition msr_srcReg (raw : Z) : Z := bits 0 5 raw.
Definition msr_destReg (raw : Z) : Z := bits 5 15 raw.

Definition B (offset : Z) (negate : bool) : Z := pack [(26, if negate then - offset else offset); (6, 0x5)].
Definition B_Offset (raw : Z) : Z := swrap 26 (bits 0 26 raw) * 4.
Definition B_Verify (raw : Z) : bool := bits 26 6 raw =? 0x5.

Definition BL (offset : Z) : Z := pack [(26, offset); (6, 0x25)].
Definition BL_Offset (raw : Z) : Z := swrap 26 (bits 0 26 raw) * 4.
Definition BL_Verify (raw : Z) : bool := bits 26 6 raw =? 0x25.

Definition Movz (sf destReg imm16 shift : Z) : Z := pack [(5, destReg); (16, imm16); (2, shift); (8, 0xA5); (1, sf)].
Definition Movz_Verify (raw : Z) : bool := bits 23 8 raw =? 0xA5.
Definition Movk (sf destReg imm16 shift : Z) : Z := pack [(5, destReg); (16, imm16); (2, shift); (8, 0xE5); (1, sf)].
Definition Movk_Verify (raw : Z) : bool := bits 23 8 raw =? 0xE5.

(** The moves for the half-words of a value, with 0 where none is needed. *)
Fixpoint move_halves (destination value : Z) (zeroed : bool) (halves : list Z) : list Z :=
  match halves with
  | [] => []
  | offset :: halves =>
      let offsetValue := bits (16 * offset) 16 value in
      if negb (offsetValue =? 0) then
        (if zeroed then Movk 1 destination offsetValue offset else Movz 1 destination offsetValue offset)
          :: move_halves destination value true halves
      else 0 :: move_halves destination value zeroed halves
  end.

Definition MoveRegister (halves destination value : Z) : list Z := move_halves destination value false (seqZ 0 halves).

Definition Mov (sf destReg srcReg : Z) : Z := pack [(5, destReg); (5, 0x1F); (6, 0); (5, srcReg); (10, 0x150); (1, sf)].
Definition Mov_Verify (raw : Z) : bool := (bits 5 5 raw =? 0x1F) && (bits 21 10 raw =? 0x150).

Definition Ldr_set_destReg (destReg raw : Z) : Z := set_bits 0 5 destReg raw.

(** ** Finding the instructions *)

Definition MainSvcTrampolineSize : Z := 17.
Definition TpidrEl0 : Z := 0x5E82.
Definition TpidrroEl0 : Z := 0x5E83.
Definition CntfrqEl0 : Z := 0x5F00.
Definition CntpctEl0 : Z := 0x5F01.
Definition CntvctEl0 : Z := 0x5F02.
Definition TegraX1Freq : Z := 19200000.

Definition SaveCtxSize : Z := 34.
Definition LoadCtxSize : Z := 34.
Definition RescaleClockSize : Z := 16.

Definition is_tls (srcReg : Z) : bool := (srcReg =? TpidrroEl0) || (srcReg =? TpidrEl0).

(** The words an instruction needs in the [.patch] section; [None] if it stays as it is. *)
Definition patch_words (rescaleClock : bool) (raw : Z) : option Z :=
  if Svc_Verify raw then Some 7
  else if Mrs_Verify raw then
    if is_tls (mrs_srcReg raw) then Some (if negb (mrs_destReg raw =? 0) then 6 else 3)
    else if rescaleClock then
      if mrs_srcReg raw =? CntpctEl0 then Some (RescaleClockSize + 3)
      else if mrs_srcReg raw =? CntfrqEl0 then Some 3 else None
    else if mrs_srcReg raw =? CntpctEl0 then Some 0 else None
  else if Msr_Verify raw && (msr_destReg raw =? TpidrEl0) then Some 6
  else None.

Record PatchData : Type := mk_patch_data {
  pd_size : Z;
  pd_offsets : list Z }.

(** The loop over the code from the instruction at [offset] on. *)
Fixpoint scan (rescaleClock : bool) (offset : Z) (text : list Z) (size : Z) (offsets : list Z) : Z * list Z :=
  match text with
  | [] => (size, offsets)
  | raw :: text =>
      match patch_words rescaleClock raw with
      | Some n => scan rescaleClock (offset + 1) text (size + n) (offsets ++ [offset])
      | None => scan rescaleClock (offset + 1) text size offsets
      end
  end.

(** [frequency] is what the counter-frequency register of the host reads. *)
Definition GetPatchData (frequency : Z) (text : list Z) : PatchData :=
  let (size, offsets) := scan (negb (frequency =? TegraX1Freq)) 0 text (SaveCtxSize + LoadCtxSize + MainSvcTrampolineSize) [] in
  mk_patch_data (AlignUp (u64 (size * 4)) PAGE_SIZE) offsets.

(** ** Writing the trampolines

    A word of the section may depend on its position, in words from the start of the section. *)

Definition Emit : Type := Z -> Z.
Definition word (w : Z) : Emit := fun _ => w.

Fixpoint emit (pos : Z) (l : list Emit) : list Z :=
  match l with
  | [] => []
  | f :: l => f pos :: emit (pos + 1) l
  end.

Section patching.
(** The routines of [guest.S], the address of [NCE::SvcHandler], and the words in the section. *)
Context (SaveCtx LoadCtx RescaleClock : list Z) (SvcHandlerAddress : Z) (rescaleClock : bool) (endWords : Z).

Definition endOffset (pos : Z) : Z := u64 (endWords - pos).
Definition startOffset (pos : Z) : Z := u64 (- pos).

Definition MainSvcTrampoline : list Z :=
  [0xF90007FE; 0xD53BD041; 0xF9415022; 0xD51BD042; 0x910003E2; 0xF9415423; 0x9100007F; 0xA9BF0BE1] ++
  filter (fun mov => mov <> 0) (MoveRegister 4 2 SvcHandlerAddress) ++
  [0xD63F0040; 0xA8C10BE1; 0xD51BD041; 0x9100005F; 0xF94007FE; 0xD65F03C0].

(** The branch back to the instruction after the one at [offset]. *)
Definition branch_back (offset : Z) : Emit := fun pos => B (i32 (u64 (endOffset pos + offset + 1))) false.

(** The branch that replaces the instruction at [offset]. *)
Definition branch_to (offset pos : Z) : Z := B (i32 (u64 (endOffset pos + offset))) true.

Definition svc_trampoline (raw offset : Z) : list Emit :=
  [word 0xF81F0FFE;
   (fun pos => BL (i32 (startOffset pos)));
   word (Movz 0 0 (u16 (svc_imm raw)) 0);
   (fun pos => BL (i32 (u64 (startOffset pos + SaveCtxSize))));
   (fun pos => BL (i32 (u64 (startOffset pos + SaveCtxSize + MainSvcTrampolineSize))));
   word 0xF84107FE;
   branch_back offset].

Definition tls_load_trampoline (raw offset : Z) : list Emit :=
  (if negb (mrs_destReg raw =? 0) then [word 0xF81F0FE0] else []) ++
  [word 0xD53BD040; word (if mrs_srcReg raw =? TpidrroEl0 then 0xF9415800 else 0xF9415C00)] ++
  (if negb (mrs_destReg raw =? 0) then [word (Mov 1 (mrs_destReg raw) 0); word 0xF84107E0] else []) ++
  [branch_back offset].

Definition counter_trampoline (raw offset : Z) : list Emit :=
  map word RescaleClock ++ [word (Ldr_set_destReg (mrs_destReg raw) 0xF94003E0); word 0x910083FF; branch_back offset].

Definition frequency_trampoline (raw offset : Z) : list Emit :=
  map word (MoveRegister 2 (mrs_destReg raw) TegraX1Freq) ++ [branch_back offset].

(** The test for free scratch registers looks at the [Mrs] view of the instruction. *)
Definition tls_store_trampoline (raw offset : Z) : list Emit :=
  let x0x1 := negb (mrs_srcReg raw =? 0) && negb (mrs_srcReg raw =? 1) in
  [word (if x0x1 then 0xA9BF07E0 else 0xA9BF0FE2);
   word (if x0x1 then 0xD53BD040 else 0xD53BD042);
   word (Mov 1 (if x0x1 then 1 else 3) (msr_srcReg raw));
   word (if x0x1 then 0xF9015C01 else 0xF9015C03);
   word (if x0x1 then 0xA8C107E0 else 0xA8C10FE2);
   branch_back offset].

(** What replaces the instruction [raw] at [offset] when the next free word is at [pos], and the
    trampoline written there. *)
Definition patch_instruction (raw offset pos : Z) : Z * list Z :=
  let jump l := (branch_to offset pos, emit pos l) in
  if Svc_Verify raw then jump (svc_trampoline raw offset)
  else if Mrs_Verify raw then
    if is_tls (mrs_srcReg raw) then jump (tls_load_trampoline raw offset)
    else if rescaleClock then
      if mrs_srcReg raw =? CntpctEl0 then jump (counter_trampoline raw offset)
      else if mrs_srcReg raw =? CntfrqEl0 then jump (frequency_trampoline raw offset) else (raw, [])
    else if mrs_srcReg raw =? CntpctEl0 then (Mrs CntvctEl0 (mrs_destReg raw), []) else (raw, [])
  else if Msr_Verify raw && (msr_destReg raw =? TpidrEl0) then jump (tls_store_trampoline raw offset)
  else (raw, []).

Fixpoint patch_loop (offsets : list Z) (text patch : list Z) : M (list Z * list Z) :=
  match offsets with
  | [] => ok (text, patch)
  | offset :: offsets =>
      let! raw := from_opt (Undefined "past the end of the code") (text !! Z.to_nat offset) in
      let (instruction, words) := patch_instruction raw offset (Z.of_nat (length patch)) in
      patch_loop offsets (<[Z.to_nat offset := instruction]> text) (patch ++ words)
  end.

Definition patch_header : list Z := SaveCtx ++ MainSvcTrampoline ++ LoadCtx.
End patching.

Definition PatchCode (SaveCtx LoadCtx RescaleClock : list Z) (SvcHandlerAddress frequency patchSize : Z) (offsets text : list Z) : M (list Z * list Z) :=
  patch_loop RescaleClock (negb (frequency =? TegraX1Freq)) (patchSize / 4) offsets text (patch_header SaveCtx LoadCtx SvcHandlerAddress).

(** ** The instructions of the trampolines

    The subset of the architecture the trampolines use: 64-bit loads and stores of one register
    or a pair, moves, an addition of an immediate, accesses to system registers and branches.  In an
    operand position register 31 is the zero register, as a base of a load, store or addition it is
    the stack pointer. *)

Inductive Instr : Type :=
| IStrPre (t n imm : Z) | ILdrPost (t n imm : Z)
| IStrOff (t n imm : Z) | ILdrOff (t n imm : Z)
| IStpPre (t t2 n imm : Z) | ILdpPost (t t2 n imm : Z)
| IMov (d m : Z) | IMovz (sf d imm hw : Z) | IMovk (sf d imm hw : Z)
| IAddImm (d n imm : Z)
| IMrs (d sys : Z) | IMsr (sys t : Z)
| IB (offset : Z) | IBL (offset : Z) | IBlr (n : Z) | IRet (n : Z).

#[global] Instance Instr_eq_dec : EqDecision Instr.
Proof. solve_decision. Defined.

Definition decode (raw : Z) : option Instr :=
  let d := bits 0 5 raw in
  let n := bits 5 5 raw in
  let imm9 := swrap 9 (bits 12 9 raw) in
  let imm12 := 8 * bits 10 12 raw in
  let imm7 := 8 * swrap 7 (bits 15 7 raw) in
  let t2 := bits 10 5 raw in
  let imm16 := bits 5 16 raw in
  let hw := bits 21 2 raw in
  if (bits 21 11 raw =? 0x7C0) && (bits 10 2 raw =? 3) then Some (IStrPre d n imm9)
  else if (bits 21 11 raw =? 0x7C2) && (bits 10 2 raw =? 1) then Some (ILdrPost d n imm9)
  else if bits 22 10 raw =? 0x3E4 then Some (IStrOff d n imm12)
  else if bits 22 10 raw =? 0x3E5 then Some (ILdrOff d n imm12)
  else if bits 22 10 raw =? 0x2A6 then Some (IStpPre d t2 n imm7)
  else if bits 22 10 raw =? 0x2A3 then Some (ILdpPost d t2 n imm7)
  else if (bits 21 11 raw =? 0x550) && (bits 5 11 raw =? 0x1F) then Some (IMov d (bits 16 5 raw))
  else if bits 23 8 raw =? 0xA5 then Some (IMovz (bits 31 1 raw) d imm16 hw)
  else if bits 23 8 raw =? 0xE5 then Some (IMovk (bits 31 1 raw) d imm16 hw)
  else if bits 22 10 raw =? 0x244 then Some (IAddImm d n (bits 10 12 raw))
  else if bits 20 12 raw =? 0xD53 then Some (IMrs d (bits 5 15 raw))
  else if bits 20 12 raw =? 0xD51 then Some (IMsr (bits 5 15 raw) d)
  else if bits 26 6 raw =? 0x05 then Some (IB (4 * swrap 26 (bits 0 26 raw)))
  else if bits 26 6 raw =? 0x25 then Some (IBL (4 * swrap 26 (bits 0 26 raw)))
  else if (bits 10 22 raw =? 0x358FC0) && (d =? 0) then Some (IBlr n)
  else if (bits 10 22 raw =? 0x3597C0) && (d =? 0) then Some (IRet n)
  else None.

(** The state of the processor; memory is addressed in cells of eight bytes by their first address. *)
Record Cpu : Type := mk_cpu {
  cpu_x : Z -> Z;
  cpu_sp : Z;
  cpu_pc : Z;
  cpu_tpidr : Z;
  cpu_mem : Z -> Z }.

Definition upd (f : Z -> Z) (k v : Z) : Z -> Z := fun i => if i =? k then v else f i.

Definition rd (c : Cpu) (r : Z) : Z := if r =? 31 then 0 else cpu_x c r.
Definition wr (r v : Z) (c : Cpu) : Cpu := if r =? 31 then c else mk_cpu (upd (cpu_x c) r v) (cpu_sp c) (cpu_pc c) (cpu_tpidr c) (cpu_mem c).
Definition rd_sp (c : Cpu) (r : Z) : Z := if r =? 31 then cpu_sp c else cpu_x c r.
Definition wr_sp (r v : Z) (c : Cpu) : Cpu :=
  if r =? 31 then mk_cpu (cpu_x c) v (cpu_pc c) (cpu_tpidr c) (cpu_mem c)
  else mk_cpu (upd (cpu_x c) r v) (cpu_sp c) (cpu_pc c) (cpu_tpidr c) (cpu_mem c).
Definition load (c : Cpu) (a : Z) : Z := cpu_mem c (u64 a).
Definition store (a v : Z) (c : Cpu) : Cpu := mk_cpu (cpu_x c) (cpu_sp c) (cpu_pc c) (cpu_tpidr c) (upd (cpu_mem c) (u64 a) v).
Definition set_pc (v : Z) (c : Cpu) : Cpu := mk_cpu (cpu_x c) (cpu_sp c) (u64 v) (cpu_tpidr c) (cpu_mem c).
Definition set_tpidr (v : Z) (c : Cpu) : Cpu := mk_cpu (cpu_x c) (cpu_sp c) (cpu_pc c) v (cpu_mem c).
Definition next (c : Cpu) : Cpu := set_pc (cpu_pc c + 4) c.

Section machine.
(** The system registers other than the thread pointer, and the code in memory. *)
Context (sysreg : Z -> Z) (fetch : Z -> option Z).

Definition execute (i : Instr) (c : Cpu) : Cpu :=
  match i with
  | IStrPre t n imm => let a := u64 (rd_sp c n + imm) in next (wr_sp n a (store a (rd c t) c))
  | ILdrPost t n imm => let a := rd_sp c n in next (wr_sp n (u64 (a + imm)) (wr t (load c a) c))
  | IStrOff t n imm => next (store (rd_sp c n + imm) (rd c t) c)
  | ILdrOff t n imm => next (wr t (load c (rd_sp c n + imm)) c)
  | IStpPre t t2 n imm => let a := u64 (rd_sp c n + imm) in next (wr_sp n a (store (a + 8) (rd c t2) (store a (rd c t) c)))
  | ILdpPost t t2 n imm => let a := rd_sp c n in next (wr_sp n (u64 (a + imm)) (wr t2 (load c (a + 8)) (wr t (load c a) c)))
  | IMov d m => next (wr d (rd c m) c)
  | IMovz _ d imm hw => next (wr d (Z.shiftl imm (16 * hw)) c)
  | IMovk sf d imm hw => next (wr d (wrap (if sf =? 0 then 32 else 64) (set_bits (16 * hw) 16 imm (rd c d))) c)
  | IAddImm d n imm => next (wr_sp d (u64 (rd_sp c n + imm)) c)
  | IMrs d sys => next (wr d (if sys =? TpidrEl0 then cpu_tpidr c else sysreg sys) c)
  | IMsr sys t => next (if sys =? TpidrEl0 then set_tpidr (rd c t) c else c)
  | IB offset => set_pc (cpu_pc c + offset) c
  | IBL offset => set_pc (cpu_pc c + offset) (wr 30 (u64 (cpu_pc c + 4)) c)
  | IBlr n => set_pc (rd c n) (wr 30 (u64 (cpu_pc c + 4)) c)
  | IRet n => set_pc (rd c n) c
  end.

Definition cpu_step (c : Cpu) : option Cpu :=
  match fetch (cpu_pc c) with Some raw => (fun i => execute i c) <$> decode raw | None => None end.

Fixpoint cpu_run (n : nat) (c : Cpu) : option Cpu :=
  match n with
  | O => Some c
  | S n => match cpu_step c with Some c' => cpu_run n c' | None => None end
  end.
End machine.

(** ** What an instruction of the guest is meant to do

    The thread context, to which the thread pointer of the host points while the guest runs, holds
    the thread pointers of the guest. *)
Definition ctx_tpidrroEl0 : Z := 0x2B0.
Definition ctx_tpidrEl0 : Z := 0x2B8.

Definition guest_effect (sysreg : Z -> Z) (rescaleClock : bool) (raw : Z) (c : Cpu) : option Cpu :=
  if Mrs_Verify raw then
    if mrs_srcReg raw =? TpidrroEl0 then Some (next (wr (mrs_destReg raw) (load c (cpu_tpidr c + ctx_tpidrroEl0)) c))
    else if mrs_srcReg raw =? TpidrEl0 then Some (next (wr (mrs_destReg raw) (load c (cpu_tpidr c + ctx_tpidrEl0)) c))
    else if (mrs_srcReg raw =? CntfrqEl0) && rescaleClock then Some (next (wr (mrs_destReg raw) TegraX1Freq c))
    else if (mrs_srcReg raw =? CntpctEl0) && negb rescaleClock then Some (next (wr (mrs_destReg raw) (sysreg CntvctEl0) c))
    else None
  else if Msr_Verify raw && (msr_destReg raw =? TpidrEl0) then Some (next (store (cpu_tpidr c + ctx_tpidrEl0) (rd c (msr_srcReg raw)) c))
  else None.

(** States that agree but for the sixteen bytes below the stack pointer, which the trampolines use
    and which the guest must expect to change. *)
Record same_but_scratch (sp : Z) (c c' : Cpu) : Prop := mk_same {
  sb_x : forall r, 0 <= r < 31 -> cpu_x c r = cpu_x c' r;
  sb_sp : cpu_sp c = cpu_sp c';
  sb_pc : cpu_pc c = cpu_pc c';
  sb_tpidr : cpu_tpidr c = cpu_tpidr c';
  sb_mem : forall a, a <> u64 (sp - 16) -> a <> u64 (sp - 8) -> cpu_mem c a = cpu_mem c' a }.

Lemma same_refl sp c : same_but_scratch sp c c.
Proof. by split. Qed.

(** The section and the code behind it, from the address [base] on. *)
Definition loaded (base endWords : Z) (text patch : list Z) (a : Z) : option Z :=
  if negb ((a - base) mod 4 =? 0) then None
  else
    let i := (a - base) / 4 in
    if i <? 0 then None else if i <? endWords then patch !! Z.to_nat i else text !! Z.to_nat (i - endWords).

(** ** Encoding lemmas *)

Lemma pack_cons w v fs : 0 <= w -> pack ((w, v) :: fs) = pack fs * 2 ^ w + v mod 2 ^ w.
Proof. intros Hw. cbn [pack]. rewrite Z.land_ones by done. apply lor_shiftl_add; [done|]. apply Z.mod_pos_bound. lia. Qed.

Lemma bits_pack_first w v fs : 0 <= w -> bits 0 w (pack ((w, v) :: fs)) = v mod 2 ^ w.
Proof.
  intros Hw. rewrite bits_div_mod, pack_cons by lia. change (2 ^ 0) with 1. rewrite Z.div_1_r, Z.add_comm, Z.mod_add by lia. apply Z.mod_mod. lia.
Qed.

Lemma bits_pack_tail s n w v fs : 0 <= w -> w <= s -> 0 <= n -> bits s n (pack ((w, v) :: fs)) = bits (s - w) n (pack fs).
Proof.
  intros Hw Hs Hn. rewrite !bits_div_mod, pack_cons by lia. replace (2 ^ s) with (2 ^ w * 2 ^ (s - w)) by (rewrite <- Z.pow_add_r; f_equal; lia).
  rewrite <- Z.div_div by lia. rewrite Z.div_add_l by lia. rewrite (Z.div_small (v mod 2 ^ w)), Z.add_0_r by (apply Z.mod_pos_bound; lia). done.
Qed.

(** The upper part of a field. *)
Lemma bits_upper s n m z : 0 <= s -> 0 <= m <= n -> bits (s + m) (n - m) z = bits s n z / 2 ^ m.
Proof.
  intros Hs Hm. rewrite !bits_div_mod by lia. rewrite Z.pow_add_r, <- Z.div_div by lia.
  replace (2 ^ n) with (2 ^ m * 2 ^ (n - m)) by (rewrite <- Z.pow_add_r; f_equal; lia).
  rewrite Z.rem_mul_r by lia. rewrite Z.add_comm, Z.mul_comm, Z.div_add_l by lia. rewrite (Z.div_small (_ mod 2 ^ m)); [lia|]. apply Z.mod_pos_bound. lia.
Qed.

Lemma swrap_mod w z : 0 < w -> swrap w (z mod 2 ^ w) = swrap w z.
Proof. intros Hw. unfold swrap. by rewrite Z.mod_mod by lia. Qed.

(** The tests that precede the one for branches look at fields that include the top six bits. *)
Lemma decode_top6 raw k : bits 26 6 raw = k -> k = 0x05 \/ k = 0x25 ->
  decode raw = Some (if k =? 0x05 then IB (4 * swrap 26 (bits 0 26 raw)) else IBL (4 * swrap 26 (bits 0 26 raw))).
Proof.
  intros Hk Hor.
  assert (H21 : bits 26 6 raw = bits 21 11 raw / 32) by exact (bits_upper 21 11 5 raw ltac:(lia) ltac:(lia)).
  assert (H22 : bits 26 6 raw = bits 22 10 raw / 16) by exact (bits_upper 22 10 4 raw ltac:(lia) ltac:(lia)).
  assert (H20 : bits 26 6 raw = bits 20 12 raw / 64) by exact (bits_upper 20 12 6 raw ltac:(lia) ltac:(lia)).
  assert (H23 : bits 26 5 raw = bits 23 8 raw / 8) by exact (bits_upper 23 8 3 raw ltac:(lia) ltac:(lia)).
  assert (H31 : bits 26 5 raw = k mod 32).
  { rewrite <- Hk, !bits_div_mod by lia. change (2 ^ 6) with (32 * 2). change (2 ^ 5) with 32. rewrite Z.rem_mul_r by lia. rewrite (Z.mul_comm 32), Z.mod_add by lia.
    by rewrite Z.mod_mod by lia. }
  rewrite Hk in H21, H22, H20. rewrite H31 in H23. clear H31. unfold decode.
  repeat match goal with
  | |- context [bits ?s ?n raw =? ?v] =>
      lazymatch s with 26 => fail | 10 => fail | _ => idtac end;
      destruct (Z.eqb_spec (bits s n raw) v) as [E|_];
      [exfalso; first [rewrite E in H21; clear -H21 Hor|rewrite E in H22; clear -H22 Hor|rewrite E in H20; clear -H20 Hor|rewrite E in H23; clear -H23 Hor];
       destruct Hor; subst k; discriminate|cbn [andb]]
  end.
  rewrite Hk. by destruct Hor as [-> | ->].
Qed.

Lemma decode_B offset negate : decode (B offset negate) = Some (IB (4 * swrap 26 (if negate then - offset else offset))).
Proof.
  unfold B. set (o := if negate then _ else _). assert (Ht : bits 26 6 (pack [(26, o); (6, 0x5)]) = 0x05) by (rewrite bits_pack_tail by lia; reflexivity).
  rewrite (decode_top6 _ 0x05 Ht) by (by left). cbn [Z.eqb Pos.eqb]. by rewrite bits_pack_first, swrap_mod by lia.
Qed.

Lemma decode_BL offset : decode (BL offset) = Some (IBL (4 * swrap 26 offset)).
Proof.
  unfold BL. assert (Ht : bits 26 6 (pack [(26, offset); (6, 0x25)]) = 0x25) by (rewrite bits_pack_tail by lia; reflexivity).
  rewrite (decode_top6 _ 0x25 Ht) by (by right). cbn [Z.eqb Pos.eqb]. by rewrite bits_pack_first, swrap_mod by lia.
Qed.

(** Facts about all registers are checked one by one. *)
Lemma registers_checked (f : Z -> bool) : forallb f (seqZ 0 32) = true -> forall r, 0 <= r < 32 -> f r = true.
Proof. intros H r Hr. rewrite forallb_forall in H. apply H. rewrite <- list_elem_of_In, elem_of_seqZ. lia. Qed.

Lemma decode_Mov d m : 0 <= d < 32 -> 0 <= m < 32 -> decode (Mov 1 d m) = Some (IMov d m).
Proof.
  intros Hd Hm. apply (proj1 (bool_decide_eq_true _)).
  refine (registers_checked (fun d => bool_decide (decode (Mov 1 d m) = Some (IMov d m))) _ d Hd).
  refine (registers_checked (fun m => forallb (fun d => bool_decide (decode (Mov 1 d m) = Some (IMov d m))) (seqZ 0 32)) _ m Hm).
  vm_compute. reflexivity.
Qed.

Lemma decode_frequency d : 0 <= d < 32 ->
  map decode (MoveRegister 2 d TegraX1Freq) = [Some (IMovz 1 d 0xF800 0); Some (IMovk 1 d 0x0124 1)].
Proof.
  intros Hd. apply (proj1 (bool_decide_eq_true _)).
  refine (registers_checked (fun d => bool_decide (map decode (MoveRegister 2 d TegraX1Freq) = [Some (IMovz 1 d 0xF800 0); Some (IMovk 1 d 0x0124 1)])) _ d Hd).
  vm_compute. reflexivity.
Qed.

Lemma decode_Mrs d : 0 <= d < 32 -> decode (Mrs CntvctEl0 d) = Some (IMrs d CntvctEl0).
Proof.
  intros Hd. apply (proj1 (bool_decide_eq_true _)).
  refine (registers_checked (fun d => bool_decide (decode (Mrs CntvctEl0 d) = Some (IMrs d CntvctEl0))) _ d Hd). vm_compute. reflexivity.
Qed.

(** ** Where the trampolines are *)

Lemma emit_length pos l : length (emit pos l) = length l.
Proof. revert pos. induction l as [|f l IH]; intros pos; [done|]. simpl. by rewrite IH. Qed.

Lemma emit_app pos l1 l2 : emit pos (l1 ++ l2) = emit pos l1 ++ emit (pos + Z.of_nat (length l1)) l2.
Proof.
  revert pos. induction l1 as [|f l1 IH]; intros pos; [by rewrite Z.add_0_r|]. cbn [app emit]. rewrite IH. do 3 f_equal. simpl. lia.
Qed.

Lemma emit_words pos l : emit pos (map word l) = l.
Proof. revert pos. induction l as [|w l IH]; intros pos; [done|]. simpl. by rewrite IH. Qed.

Section layout.
Context (SaveCtx LoadCtx RescaleClock : list Z) (SvcHandlerAddress : Z) (rescaleClock : bool) (endWords : Z).
Local Abbreviation patch_instruction := (patch_instruction RescaleClock rescaleClock endWords).
Local Abbreviation patch_loop := (patch_loop RescaleClock rescaleClock endWords).

(** A trampoline is as long as [GetPatchData] counted. *)
Lemma patch_instruction_length raw offset pos : length RescaleClock = 16%nat ->
  Z.of_nat (length (snd (patch_instruction raw offset pos))) = default 0 (patch_words rescaleClock raw).
Proof.
  intros Hr. unfold Nce.patch_instruction, patch_words. destruct (Svc_Verify raw); [done|].
  destruct (Mrs_Verify raw); [|destruct (Msr_Verify raw && _); [|done]; cbn [snd]; by rewrite emit_length].
  destruct (is_tls _). { cbn [snd default]. rewrite emit_length. unfold tls_load_trampoline. by destruct (negb _). }
  destruct rescaleClock; [|by destruct (_ =? _)]. destruct (mrs_srcReg raw =? CntpctEl0).
  { cbn [snd default]. rewrite emit_length. unfold counter_trampoline. by rewrite length_app, length_map, Hr. }
  destruct (mrs_srcReg raw =? CntfrqEl0); [|done]. cbn [snd default]. rewrite emit_length. unfold frequency_trampoline.
  rewrite length_app, length_map. assert (Hl : length (MoveRegister 2 (mrs_destReg raw) TegraX1Freq) = 2%nat) by reflexivity. by rewrite Hl.
Qed.

(** Every offset gets a place of its own behind what was written before, and the rest of the code is
    not touched. *)
Lemma patch_loop_spec offsets text patch :
  NoDup offsets -> Forall (fun o => 0 <= o < Z.of_nat (length text)) offsets ->
  exists text' words, patch_loop offsets text patch = inr (text', patch ++ words) /\ length text' = length text /\
    (forall o, 0 <= o -> o ∉ offsets -> text' !! Z.to_nat o = text !! Z.to_nat o) /\
    (forall o, o ∈ offsets -> exists raw pos, text !! Z.to_nat o = Some raw /\ (length patch <= pos)%nat /\
      text' !! Z.to_nat o = Some (fst (patch_instruction raw o (Z.of_nat pos))) /\
      forall i w, snd (patch_instruction raw o (Z.of_nat pos)) !! i = Some w -> (patch ++ words) !! (pos + i)%nat = Some w) /\
    (length RescaleClock = 16%nat ->
      Z.of_nat (length words) = foldr (fun o n => default 0 (text !! Z.to_nat o ≫= patch_words rescaleClock) + n) 0 offsets).
Proof.
  revert text patch. induction offsets as [|o offsets IH]; intros text patch Hnd Hin.
  - exists text, []. split; [by rewrite app_nil_r|]. split; [done|]. split; [done|]. split; [intros o Ho; by apply elem_of_nil in Ho|done].
  - apply NoDup_cons in Hnd as [Hno Hnd]. inversion Hin as [|? ? Ho Hin']; subst. destruct (lookup_lt_is_Some_2 text (Z.to_nat o)) as [raw Hraw]; [lia|].
    cbn [Nce.patch_loop]. rewrite Hraw. cbn [from_opt bindM].
    destruct (patch_instruction raw o (Z.of_nat (length patch))) as [instruction ws] eqn:Ep.
    destruct (IH (<[Z.to_nat o := instruction]> text) (patch ++ ws) Hnd) as (text' & words & Hl & Hlen & Hout & Hat & Hsum).
    { by rewrite length_insert. }
    exists text', (ws ++ words). rewrite app_assoc. split; [done|]. split; [by rewrite Hlen, length_insert|].
    assert (Hne : forall o', 0 <= o' -> o' <> o -> (<[Z.to_nat o := instruction]> text) !! Z.to_nat o' = text !! Z.to_nat o').
    { intros o' H0 H. apply list_lookup_insert_ne. lia. }
    split; [|split].
    + intros o' H0 Ho'. apply not_elem_of_cons in Ho' as [H1 H2]. rewrite (Hout o' H0 H2). by apply Hne.
    + intros o' [->|Ho']%elem_of_cons.
      * exists raw, (length patch). split; [done|]. split; [lia|]. rewrite Ep. cbn [fst snd]. split.
        -- rewrite (Hout o) by (done || lia). apply list_lookup_insert_eq. lia.
        -- intros i w Hi. rewrite <- app_assoc. rewrite lookup_app_r by lia. replace (length patch + i - length patch)%nat with i by lia.
           rewrite lookup_app_l; [done|]. by eapply lookup_lt_Some.
      * rewrite Forall_forall in Hin'. pose proof (Hin' o' Ho') as Hr'. destruct (Hat o' Ho') as (raw' & pos & H1 & H2 & H3 & H4).
        rewrite Hne in H1 by (first [lia|intros ->; done]). exists raw', pos. split; [done|]. split; [rewrite length_app in H2; lia|]. done.
    + intros Hr. rewrite length_app, Nat2Z.inj_add, Hsum by done. cbn [foldr]. rewrite Hraw. cbn [mbind option_bind].
      rewrite <- (patch_instruction_length raw o (Z.of_nat (length patch)) Hr), Ep. cbn [snd]. f_equal.
      clear -Hno Hne Hin'. induction offsets as [|o' l IHl]; [done|]. apply not_elem_of_cons in Hno as [H1 H2]. inversion Hin'; subst. cbn [foldr].
      rewrite IHl by done. f_equal. rewrite Hne by (first [lia|congruence]). done.
Qed.
End layout.

(** [GetPatchData] finds the instructions that need a patch, in order and each once, and adds up the
    words they need. *)
Lemma scan_spec r text off size offs : exists new,
  scan r off text size offs =
    (size + foldr (fun o n => default 0 (text !! Z.to_nat (o - off) ≫= patch_words r) + n) 0 new, offs ++ new) /\
  NoDup new /\ Forall (fun o => off <= o < off + Z.of_nat (length text)) new /\
  forall o raw, off <= o -> text !! Z.to_nat (o - off) = Some raw -> (o ∈ new <-> is_Some (patch_words r raw)).
Proof.
  revert off size offs. induction text as [|raw text IH]; intros off size offs.
  - exists []. split; [cbn [scan foldr]; by rewrite Z.add_0_r, app_nil_r|]. split; [constructor|]. split; [constructor|].
    intros o w _ H. by rewrite lookup_nil in H.
  - assert (Hsh : forall o, off + 1 <= o -> (raw :: text) !! Z.to_nat (o - off) = text !! Z.to_nat (o - (off + 1))).
    { intros o Ho. replace (Z.to_nat (o - off)) with (S (Z.to_nat (o - (off + 1)))) by lia. done. }
    assert (Hfold : forall l, Forall (fun o => off + 1 <= o < off + 1 + Z.of_nat (length text)) l ->
      foldr (fun o n => default 0 (text !! Z.to_nat (o - (off + 1)) ≫= patch_words r) + n) 0 l =
      foldr (fun o n => default 0 ((raw :: text) !! Z.to_nat (o - off) ≫= patch_words r) + n) 0 l).
    { induction 1 as [|o l Ho _ IHl]; [done|]. cbn [foldr]. rewrite IHl, Hsh by lia. done. }
    assert (Hout : forall new, Forall (fun o => off + 1 <= o < off + 1 + Z.of_nat (length text)) new -> off ∉ new).
    { intros new Hr Hin. rewrite Forall_forall in Hr. pose proof (Hr off Hin). lia. }
    cbn [scan]. destruct (patch_words r raw) as [n|] eqn:Ew.
    + destruct (IH (off + 1) (size + n) (offs ++ [off])) as (new & Hs & Hnd & Hr & Hiff). exists (off :: new). rewrite Hs. split.
      { f_equal; [|by rewrite <- app_assoc]. cbn [foldr]. rewrite Hfold, Z.sub_diag by done. change ((raw :: text) !! Z.to_nat 0) with (Some raw). cbn [mbind option_bind]. rewrite Ew. change (default 0 (Some n)) with n. lia. }
      split; [constructor; [by apply Hout|done]|]. split.
      { constructor; [simpl; lia|]. eapply Forall_impl; [exact Hr|]. simpl. lia. }
      intros o w Ho Hw. rewrite elem_of_cons. destruct (decide (o = off)) as [->|Hne].
      * rewrite Z.sub_diag in Hw. injection Hw as <-. rewrite Ew. split; [by eexists|by left].
      * rewrite Hsh in Hw by lia. rewrite <- (Hiff o w) by (done || lia). split; [intros [|]; done|by right].
    + destruct (IH (off + 1) size offs) as (new & Hs & Hnd & Hr & Hiff). exists new. rewrite Hs. split; [by rewrite Hfold|].
      split; [done|]. split; [eapply Forall_impl; [exact Hr|]; simpl; lia|].
      intros o w Ho Hw. destruct (decide (o = off)) as [->|Hne].
      * rewrite Z.sub_diag in Hw. injection Hw as <-. rewrite Ew. split; [intros H; by apply Hout in H|by intros []].
      * rewrite Hsh in Hw by lia. apply Hiff; [lia|done].
Qed.

(** The moves of an address whose fourth half-word is zero and whose others are not. *)
Definition plain_address (a : Z) : Prop :=
  bits 0 16 a <> 0 /\ bits 16 16 a <> 0 /\ bits 32 16 a <> 0 /\ bits 48 16 a = 0.

Lemma Mov_nonzero sf d imm hw : Movz sf d imm hw <> 0 /\ Movk sf d imm hw <> 0.
Proof.
  unfold Movz, Movk. split; intros E; apply (f_equal (bits 23 8)) in E; do 3 rewrite bits_pack_tail in E by lia; rewrite bits_pack_first in E by lia; discriminate E.
Qed.

Lemma MainSvcTrampoline_length a : plain_address a -> length (MainSvcTrampoline a) = 17%nat.
Proof.
  intros (H0 & H1 & H2 & H3). unfold MainSvcTrampoline, MoveRegister. change (seqZ 0 4) with [0; 1; 2; 3]. cbn [move_halves].
  change (16 * 0) with 0. change (16 * 1) with 16. change (16 * 2) with 32. change (16 * 3) with 48.
  apply Z.eqb_neq in H0, H1, H2. rewrite H0, H1, H2, H3. cbn [negb Z.eqb].
  pose proof (fun d imm hw => proj1 (Mov_nonzero 1 d imm hw)) as Hz. pose proof (fun d imm hw => proj2 (Mov_nonzero 1 d imm hw)) as Hk.
  generalize dependent (Movk 1). generalize dependent (Movz 1). intros fz Hz fk Hk. rewrite !length_app.
  rewrite (filter_cons_True (fun mov => mov <> 0) _ _ (Hz _ _ _)), !(filter_cons_True (fun mov => mov <> 0) _ _ (Hk _ _ _)), filter_cons_False by (intros H; by apply H). done.
Qed.

Lemma patch_words_bound r raw n : patch_words r raw = Some n -> 0 <= n <= 19.
Proof.
  unfold patch_words, RescaleClockSize. destruct (Svc_Verify raw); [intros [= <-]; lia|]. destruct (Mrs_Verify raw).
  - destruct (is_tls _); [destruct (negb _); intros [= <-]; lia|]. destruct r; destruct (mrs_srcReg raw =? CntpctEl0); try destruct (mrs_srcReg raw =? CntfrqEl0); first [intros [= <-]; lia|done].
  - destruct (_ && _); [intros [= <-]; lia|done].
Qed.

Lemma patch_sum_bound r (f : Z -> option Z) l :
  0 <= foldr (fun o n => default 0 (f o ≫= patch_words r) + n) 0 l <= 19 * Z.of_nat (length l).
Proof.
  induction l as [|o l IH]; [simpl; lia|]. cbn [foldr length]. assert (0 <= default 0 (f o ≫= patch_words r) <= 19); [|lia].
  destruct (f o) as [raw|]; [|simpl; lia]. cbn [mbind option_bind]. destruct (patch_words r raw) as [n|] eqn:E; [|simpl; lia].
  by apply patch_words_bound in E.
Qed.

Lemma offsets_length (l : list Z) off n : NoDup l -> Forall (fun o => off <= o < off + Z.of_nat n) l -> (length l <= n)%nat.
Proof.
  intros Hnd Hr.
  assert (H : (length l <= length (seqZ off (Z.of_nat n)))%nat).
  { apply submseteq_length, NoDup_submseteq; [done|]. intros o Ho. rewrite Forall_forall in Hr. apply elem_of_seqZ. by apply Hr. }
  rewrite length_seqZ in H. lia.
Qed.

(** A page-aligned size that covers [4 * n] bytes. *)
Lemma patch_size_covers n : 0 <= n < 2 ^ 61 -> 4 * n <= AlignUp (u64 (n * 4)) PAGE_SIZE /\ AlignUp (u64 (n * 4)) PAGE_SIZE mod 4096 = 0 /\ AlignUp (u64 (n * 4)) PAGE_SIZE < 4 * n + 4096.
Proof.
  intros Hn. rewrite wrap_small by lia. change PAGE_SIZE with (2 ^ 12). rewrite AlignUp_spec by lia. change (2 ^ 12) with 4096.
  pose proof (Z.mod_pos_bound (n * 4 + 4096 - 1) 4096 ltac:(lia)). split; [lia|]. split; [|lia].
  rewrite Zminus_mod_idemp_r, Z.sub_diag. done.
Qed.

Section fits.
Context (SaveCtx LoadCtx RescaleClock : list Z) (SvcHandlerAddress frequency : Z) (text : list Z).
Hypothesis HSave : length SaveCtx = 34%nat.
Hypothesis HLoad : length LoadCtx = 34%nat.
Hypothesis HRescale : length RescaleClock = 16%nat.
Hypothesis Haddress : plain_address SvcHandlerAddress.
Hypothesis Htext : Z.of_nat (length text) < 2 ^ 48.

Local Abbreviation rescale := (negb (frequency =? TegraX1Freq)).
Local Abbreviation pd := (GetPatchData frequency text).
Local Abbreviation endWords := (pd_size pd / 4).

(** The code and the section [PatchCode] produces from what [GetPatchData] found. *)
Lemma PatchCode_spec : exists text' patch,
  PatchCode SaveCtx LoadCtx RescaleClock SvcHandlerAddress frequency (pd_size pd) (pd_offsets pd) text = inr (text', patch) /\
  4 * Z.of_nat (length patch) <= pd_size pd /\ pd_size pd mod 4096 = 0 /\ length text' = length text /\
  (exists trampolines, patch = patch_header SaveCtx LoadCtx SvcHandlerAddress ++ trampolines) /\
  (forall o raw, text !! o = Some raw -> patch_words rescale raw = None -> text' !! o = Some raw) /\
  (forall o raw, text !! o = Some raw -> is_Some (patch_words rescale raw) -> exists pos,
    text' !! o = Some (fst (patch_instruction RescaleClock rescale endWords raw (Z.of_nat o) (Z.of_nat pos))) /\
    forall i w, snd (patch_instruction RescaleClock rescale endWords raw (Z.of_nat o) (Z.of_nat pos)) !! i = Some w -> patch !! (pos + i)%nat = Some w).
Proof.
  unfold GetPatchData. destruct (scan_spec rescale text 0 (SaveCtxSize + LoadCtxSize + MainSvcTrampolineSize) []) as (new & -> & Hnd & Hr & Hiff).
  cbn [pd_size pd_offsets app]. rewrite Z.add_0_l in Hr. set (total := SaveCtxSize + LoadCtxSize + MainSvcTrampolineSize + _).
  pose proof (patch_sum_bound rescale (fun o => text !! Z.to_nat (o - 0)) new) as Hs. cbn beta in Hs.
  pose proof (offsets_length new 0 (length text) Hnd Hr) as Hl.
  destruct (patch_size_covers total) as (Hc1 & Hc2 & _).
  { subst total. unfold SaveCtxSize, LoadCtxSize, MainSvcTrampolineSize. lia. }
  unfold PatchCode. destruct (patch_loop_spec RescaleClock rescale (AlignUp (u64 (total * 4)) PAGE_SIZE / 4) new text (patch_header SaveCtx LoadCtx SvcHandlerAddress) Hnd Hr)
    as (text' & words & Hp & Hlen & Hout & Hat & Hsum).
  exists text', (patch_header SaveCtx LoadCtx SvcHandlerAddress ++ words). split; [exact Hp|]. split.
  { rewrite length_app, Nat2Z.inj_add, (Hsum HRescale). unfold patch_header. rewrite !length_app, HSave, HLoad, (MainSvcTrampoline_length _ Haddress).
    assert (E : foldr (fun o n => default 0 (text !! Z.to_nat o ≫= patch_words rescale) + n) 0 new =
      foldr (fun o n => default 0 (text !! Z.to_nat (o - 0) ≫= patch_words rescale) + n) 0 new).
    { clear. induction new as [|o l IH]; [done|]. cbn [foldr]. by rewrite IH, Z.sub_0_r. }
    rewrite E. subst total. unfold SaveCtxSize, LoadCtxSize, MainSvcTrampolineSize in *. lia. }
  split; [done|]. split; [done|]. split; [by eexists|]. split.
  - intros o raw Ho Hn. pose proof (Hout (Z.of_nat o) ltac:(lia)) as H. rewrite Nat2Z.id in H. rewrite H, Ho; [done|].
    intros Hin. apply (Hiff (Z.of_nat o) raw) in Hin as [k Hk]; [congruence|lia|]. by rewrite Z.sub_0_r, Nat2Z.id.
  - intros o raw Ho Hn. destruct (Hat (Z.of_nat o)) as (raw' & pos & H1 & _ & H2 & H3).
    { apply (Hiff (Z.of_nat o) raw); [lia|by rewrite Z.sub_0_r, Nat2Z.id|done]. }
    rewrite Nat2Z.id in H1, H2. assert (raw' = raw) as -> by congruence. by exists pos.
Qed.
End fits.

(** ** Running a trampoline *)

Definition straight (i : Instr) : bool :=
  match i with IB _ | IBL _ | IBlr _ | IRet _ => false | _ => true end.

Lemma wr_pc r v c : cpu_pc (wr r v c) = cpu_pc c.
Proof. unfold wr. by destruct (_ =? _). Qed.
Lemma wr_sp_pc r v c : cpu_pc (wr_sp r v c) = cpu_pc c.
Proof. unfold wr_sp. by destruct (_ =? _). Qed.

Lemma straight_pc sysreg i c : straight i = true -> cpu_pc (execute sysreg i c) = u64 (cpu_pc c + 4).
Proof.
  intros Hs. destruct i; try discriminate Hs; unfold execute, next; cbn [set_pc cpu_pc]; rewrite ?wr_sp_pc, ?wr_pc; try done.
  by destruct (_ =? _).
Qed.

Definition run_list (sysreg : Z -> Z) (ins : list Instr) (c : Cpu) : Cpu := fold_left (fun c i => execute sysreg i c) ins c.

Lemma cpu_run_app sysreg fetch n m c c' : cpu_run sysreg fetch n c = Some c' -> cpu_run sysreg fetch (n + m) c = cpu_run sysreg fetch m c'.
Proof.
  revert c. induction n as [|n IH]; intros c H; [by injection H as <-|]. cbn [cpu_run Nat.add] in *. destruct (cpu_step _ _ c); [by apply IH|done].
Qed.

Section running.
Context (sysreg : Z -> Z) (base endWords : Z) (text patch : list Z).
Hypothesis Hbase : 0 <= base.
Hypothesis Hend : Z.of_nat (length patch) <= endWords.
Hypothesis Hlimit : base + 4 * (endWords + Z.of_nat (length text)) < 2 ^ 64.
Local Abbreviation fetch := (loaded base endWords text patch).
Local Abbreviation at_word k := (base + 4 * k).

Lemma fetch_patch pos w : patch !! pos = Some w -> fetch (at_word (Z.of_nat pos)) = Some w.
Proof.
  intros H. pose proof (lookup_lt_Some _ _ _ H). unfold loaded. replace (at_word (Z.of_nat pos) - base) with (Z.of_nat pos * 4) by lia.
  rewrite Z.mod_mul, Z.div_mul by lia. cbn [Z.eqb negb]. destruct (Z.ltb_spec (Z.of_nat pos) 0); [lia|].
  destruct (Z.ltb_spec (Z.of_nat pos) endWords); [|lia]. by rewrite Nat2Z.id.
Qed.

Lemma fetch_text o w : text !! o = Some w -> fetch (at_word (endWords + Z.of_nat o)) = Some w.
Proof.
  intros H. unfold loaded. replace (at_word (endWords + Z.of_nat o) - base) with ((endWords + Z.of_nat o) * 4) by lia.
  rewrite Z.mod_mul, Z.div_mul by lia. cbn [Z.eqb negb]. destruct (Z.ltb_spec (endWords + Z.of_nat o) 0); [lia|].
  destruct (Z.ltb_spec (endWords + Z.of_nat o) endWords); [lia|]. by replace (Z.to_nat (endWords + Z.of_nat o - endWords)) with o by lia.
Qed.

(** Instructions that do not branch run one after the other. *)
Lemma run_straight ins pos c :
  cpu_pc c = at_word (Z.of_nat pos) -> Forall (fun i => straight i = true) ins ->
  (forall k i, ins !! k = Some i -> exists w, patch !! (pos + k)%nat = Some w /\ decode w = Some i) ->
  cpu_run sysreg fetch (length ins) c = Some (run_list sysreg ins c) /\ cpu_pc (run_list sysreg ins c) = at_word (Z.of_nat (pos + length ins)).
Proof.
  revert pos c. induction ins as [|i ins IH]; intros pos c Hpc Hs Hw; [split; [done|]; simpl; by rewrite Nat.add_0_r|].
  inversion Hs as [|? ? Hi Hs']; subst. destruct (Hw 0%nat i eq_refl) as (w & Hp & Hd). rewrite Nat.add_0_r in Hp.
  pose proof (lookup_lt_Some _ _ _ Hp) as Hlt. cbn [length cpu_run run_list fold_left]. unfold cpu_step. rewrite Hpc, (fetch_patch _ _ Hp), Hd. cbn [fmap option_fmap option_map].
  destruct (IH (S pos) (execute sysreg i c)) as [H1 H2].
  - rewrite straight_pc, Hpc, wrap_small by (done || lia). lia.
  - done.
  - intros k j Hk. destruct (Hw (S k) j Hk) as (w' & Hw' & Hd'). exists w'. split; [|done]. by replace (S pos + k)%nat with (pos + S k)%nat by lia.
  - split; [exact H1|]. unfold run_list in *. rewrite H2. do 2 f_equal. lia.
Qed.

(** A trampoline: the branch to it, its instructions, and the branch back behind the patched one. *)
Lemma run_trampoline o pos ins c :
  cpu_pc c = at_word (endWords + Z.of_nat o) -> (pos + length ins < length patch)%nat -> (o < length text)%nat -> endWords + Z.of_nat (length text) < 2 ^ 25 ->
  text !! o = Some (branch_to endWords (Z.of_nat o) (Z.of_nat pos)) ->
  Forall (fun i => straight i = true) ins ->
  (forall k i, ins !! k = Some i -> exists w, patch !! (pos + k)%nat = Some w /\ decode w = Some i) ->
  patch !! (pos + length ins)%nat = Some (branch_back endWords (Z.of_nat o) (Z.of_nat (pos + length ins))) ->
  cpu_run sysreg fetch (S (length ins + 1)) c =
    Some (set_pc (at_word (endWords + Z.of_nat o + 1)) (run_list sysreg ins (set_pc (at_word (Z.of_nat pos)) c))).
Proof.
  intros Hpc Hlen Ho Hrange Ht Hs Hw Hb. cbn [cpu_run]. unfold cpu_step at 1. rewrite Hpc, (fetch_text _ _ Ht). unfold branch_to at 1. rewrite decode_B.
  cbn [fmap option_fmap option_map execute]. rewrite Hpc. unfold endOffset.
  rewrite (wrap_small 64 (endWords - Z.of_nat pos)), (wrap_small 64 (endWords - Z.of_nat pos + Z.of_nat o)) by lia.
  rewrite (swrap_small 32), (swrap_small 26) by lia.
  replace (at_word (endWords + Z.of_nat o) + 4 * - (endWords - Z.of_nat pos + Z.of_nat o)) with (at_word (Z.of_nat pos)) by lia.
  destruct (run_straight ins pos (set_pc (at_word (Z.of_nat pos)) c)) as [Hr Hpc'].
  { cbn [set_pc cpu_pc]. apply wrap_small. lia. }
  { done. } { done. }
  erewrite cpu_run_app by exact Hr. cbn [cpu_run]. unfold cpu_step. rewrite Hpc', (fetch_patch _ _ Hb). unfold branch_back. rewrite decode_B.
  cbn [fmap option_fmap option_map execute]. rewrite Hpc'. unfold endOffset.
  rewrite (wrap_small 64 (endWords - Z.of_nat (pos + length ins))), (wrap_small 64 (endWords - Z.of_nat (pos + length ins) + Z.of_nat o + 1)) by lia.
  rewrite (swrap_small 32), (swrap_small 26) by lia. do 2 f_equal. lia.
Qed.
End running.

(** ** What the trampolines do *)

Lemma u64_back a : 0 <= a < 2 ^ 64 -> u64 (u64 (a + -16) + 16) = a.
Proof. intros Ha. unfold wrap. rewrite Zplus_mod_idemp_l. replace (a + -16 + 16) with a by lia. by apply Z.mod_small. Qed.

Lemma u64_sub8 a : u64 (u64 (a + -16) + 8) = u64 (a - 8).
Proof. unfold wrap. rewrite Zplus_mod_idemp_l. f_equal. lia. Qed.

Lemma u64_sub8_ne a : u64 (a - 8) <> u64 (a - 16).
Proof.
  intros E. unfold wrap in E. assert (H : ((a - 8) - (a - 16)) mod 2 ^ 64 = 0) by (rewrite Zminus_mod, E, Z.sub_diag; done).
  replace (a - 8 - (a - 16)) with 8 in H by lia. discriminate H.
Qed.

Lemma upd_eq f k v : upd f k v k = v.
Proof. unfold upd. by rewrite Z.eqb_refl. Qed.

Lemma upd_ne f k v i : i <> k -> upd f k v i = f i.
Proof. intros H. unfold upd. by rewrite (proj2 (Z.eqb_neq i k) H). Qed.

(** The instructions on a symbolic state. *)
Section effects.
Context (sysreg : Z -> Z) (x : Z -> Z) (sp pc tp : Z) (mem : Z -> Z).
Local Abbreviation c0 := (mk_cpu x sp pc tp mem).
Local Abbreviation x' d v := (if d =? 31 then x else upd x d v).
Local Abbreviation rx r := (if r =? 31 then 0 else x r).

Lemma ex_str_pre t imm : execute sysreg (IStrPre t 31 imm) c0 = mk_cpu x (u64 (sp + imm)) (u64 (pc + 4)) tp (upd mem (u64 (sp + imm)) (rx t)).
Proof. unfold execute, store, rd. simpl. by rewrite wrap_idemp. Qed.
Lemma ex_ldr_post t imm : execute sysreg (ILdrPost t 31 imm) c0 = mk_cpu (x' t (mem (u64 sp))) (u64 (sp + imm)) (u64 (pc + 4)) tp mem.
Proof. unfold execute, wr, load. simpl. by destruct (t =? 31). Qed.
Lemma ex_stp_pre t t2 imm : execute sysreg (IStpPre t t2 31 imm) c0 =
  mk_cpu x (u64 (sp + imm)) (u64 (pc + 4)) tp (upd (upd mem (u64 (sp + imm)) (rx t)) (u64 (u64 (sp + imm) + 8)) (rx t2)).
Proof. unfold execute, store, rd. simpl. by rewrite wrap_idemp. Qed.
Lemma ex_ldp_post t t2 imm : execute sysreg (ILdpPost t t2 31 imm) c0 =
  mk_cpu (if t2 =? 31 then x' t (mem (u64 sp)) else upd (x' t (mem (u64 sp))) t2 (mem (u64 (sp + 8)))) (u64 (sp + imm)) (u64 (pc + 4)) tp mem.
Proof. unfold execute, wr, load. simpl. by destruct (t =? 31), (t2 =? 31). Qed.
Lemma ex_ldr_off t n imm : n <> 31 -> execute sysreg (ILdrOff t n imm) c0 = mk_cpu (x' t (mem (u64 (x n + imm)))) sp (u64 (pc + 4)) tp mem.
Proof. intros H. unfold execute, wr, load, rd_sp. simpl. rewrite (proj2 (Z.eqb_neq n 31) H). by destruct (t =? 31). Qed.
Lemma ex_str_off t n imm : n <> 31 -> execute sysreg (IStrOff t n imm) c0 = mk_cpu x sp (u64 (pc + 4)) tp (upd mem (u64 (x n + imm)) (rx t)).
Proof. intros H. unfold execute, store, rd, rd_sp. simpl. by rewrite (proj2 (Z.eqb_neq n 31) H). Qed.
Lemma ex_mov d m : execute sysreg (IMov d m) c0 = mk_cpu (x' d (rx m)) sp (u64 (pc + 4)) tp mem.
Proof. unfold execute, wr, rd. simpl. by destruct (d =? 31). Qed.
Lemma ex_mrs d sys : execute sysreg (IMrs d sys) c0 = mk_cpu (x' d (if sys =? TpidrEl0 then tp else sysreg sys)) sp (u64 (pc + 4)) tp mem.
Proof. unfold execute, wr. simpl. by destruct (d =? 31). Qed.
Lemma ex_movz sf d imm hw : execute sysreg (IMovz sf d imm hw) c0 = mk_cpu (x' d (Z.shiftl imm (16 * hw))) sp (u64 (pc + 4)) tp mem.
Proof. unfold execute, wr. simpl. by destruct (d =? 31). Qed.
Lemma ex_movk sf d imm hw : execute sysreg (IMovk sf d imm hw) c0 =
  mk_cpu (x' d (wrap (if sf =? 0 then 32 else 64) (set_bits (16 * hw) 16 imm (rx d)))) sp (u64 (pc + 4)) tp mem.
Proof. unfold execute, wr, rd. simpl. by destruct (d =? 31). Qed.
Lemma ex_set_pc v : set_pc v c0 = mk_cpu x sp (u64 v) tp mem.
Proof. done. Qed.
End effects.

(** Runs the instructions of a trampoline from the first to the last. *)
Ltac run_cpu :=
  cbn [run_list fold_left];
  repeat (first [rewrite ex_set_pc|rewrite ex_str_pre|rewrite ex_ldr_post|rewrite ex_stp_pre|rewrite ex_ldp_post|rewrite ex_mov|rewrite ex_mrs|rewrite ex_movz|rewrite ex_movk
    |rewrite ex_ldr_off by done|rewrite ex_str_off by done]; cbn [Z.eqb Pos.eqb]; rewrite ?(Z.eqb_refl TpidrEl0)).

Ltac scratch_cell := repeat (rewrite upd_ne; [|rewrite ?u64_sub8; first [assumption|congruence]]); reflexivity.
Ltac compare_registers :=
  unfold upd; repeat match goal with |- context [?a =? ?b] => destruct (Z.eqb_spec a b); subst; try congruence end; first [reflexivity|congruence|lia].

Definition tls_load_ins (d off : Z) : list Instr :=
  (if negb (d =? 0) then [IStrPre 0 31 (-16)] else []) ++ [IMrs 0 TpidrEl0; ILdrOff 0 0 off] ++
  (if negb (d =? 0) then [IMov d 0; ILdrPost 0 31 16] else []).

Lemma tls_load_effect sysreg d off p q c :
  0 <= d < 32 -> 0 <= cpu_sp c < 2 ^ 64 -> u64 (cpu_tpidr c + off) <> u64 (cpu_sp c - 16) ->
  same_but_scratch (cpu_sp c) (set_pc q (run_list sysreg (tls_load_ins d off) (set_pc p c))) (set_pc q (wr d (load c (cpu_tpidr c + off)) c)).
Proof.
  intros Hd Hsp Hne. destruct c as [x sp pc tp mem]. cbn [cpu_sp cpu_tpidr] in *. unfold tls_load_ins.
  replace (sp - 16) with (sp + -16) in Hne by lia. destruct (Z.eqb_spec d 0) as [->|Hd0]; cbn [negb app run_list fold_left].
  - run_cpu. unfold wr, load. cbn [Z.eqb cpu_x cpu_sp cpu_pc cpu_tpidr cpu_mem]. rewrite ex_set_pc.
    split; cbn [cpu_x cpu_sp cpu_pc cpu_tpidr cpu_mem]; intros; rewrite ?upd_eq; try done. unfold upd. by destruct (_ =? 0).
  - run_cpu. rewrite (wrap_idemp 64 (sp + -16)), !upd_eq, u64_back by done. rewrite (upd_ne mem _ _ (u64 (tp + off))) by done.
    unfold wr, load. cbn [Z.eqb cpu_x cpu_sp cpu_pc cpu_tpidr cpu_mem].
    destruct (Z.eqb_spec d 31); rewrite ex_set_pc; split; cbn [cpu_x cpu_sp cpu_pc cpu_tpidr cpu_mem]; intros; try done.
    all: first [scratch_cell|compare_registers].
Qed.

Definition tls_store_ins (s : Z) : list Instr :=
  [IStpPre 0 1 31 (-16); IMrs 0 TpidrEl0; IMov 1 s; IStrOff 1 0 ctx_tpidrEl0; ILdpPost 0 1 31 16].

Lemma tls_store_effect sysreg s p q c :
  0 <= s < 32 -> s <> 0 -> 0 <= cpu_sp c < 2 ^ 64 ->
  u64 (cpu_tpidr c + ctx_tpidrEl0) <> u64 (cpu_sp c - 16) -> u64 (cpu_tpidr c + ctx_tpidrEl0) <> u64 (cpu_sp c - 8) ->
  same_but_scratch (cpu_sp c) (set_pc q (run_list sysreg (tls_store_ins s) (set_pc p c))) (set_pc q (store (cpu_tpidr c + ctx_tpidrEl0) (rd c s) c)).
Proof.
  intros Hs Hs0 Hsp Hne1 Hne2. destruct c as [x sp pc tp mem]. cbn [cpu_sp cpu_tpidr] in *. unfold tls_store_ins.
  replace (sp - 16) with (sp + -16) in Hne1 by lia. pose proof (u64_sub8_ne sp) as Hne3. replace (sp - 16) with (sp + -16) in Hne3 by lia.
  run_cpu. rewrite (wrap_idemp 64 (sp + -16)), u64_sub8, u64_back by done. rewrite !upd_eq, (upd_ne _ 1 _ 0), upd_eq by done.
  rewrite (upd_ne _ (u64 (tp + ctx_tpidrEl0)) _ (u64 (sp + -16))), (upd_ne _ (u64 (tp + ctx_tpidrEl0)) _ (u64 (sp - 8))) by congruence.
  rewrite upd_eq, (upd_ne _ (u64 (sp - 8)) _ (u64 (sp + -16))), upd_eq by congruence.
  unfold store, rd. cbn [cpu_x cpu_sp cpu_pc cpu_tpidr cpu_mem]. rewrite ex_set_pc.
  split; cbn [cpu_x cpu_sp cpu_pc cpu_tpidr cpu_mem]; intros; try done.
  - compare_registers.
  - destruct (decide (a = u64 (tp + ctx_tpidrEl0))) as [->|Ha]; [|scratch_cell].
    rewrite !upd_eq. destruct (Z.eqb_spec s 31); [done|]. by rewrite upd_ne.
Qed.

Definition frequency_ins (d : Z) : list Instr := [IMovz 1 d 0xF800 0; IMovk 1 d 0x0124 1].

Lemma frequency_effect sysreg d p q c : 0 <= d < 32 ->
  same_but_scratch (cpu_sp c) (set_pc q (run_list sysreg (frequency_ins d) (set_pc p c))) (set_pc q (wr d TegraX1Freq c)).
Proof.
  intros Hd. destruct c as [x sp pc tp mem]. unfold frequency_ins. run_cpu. unfold wr. cbn [cpu_x cpu_sp cpu_pc cpu_tpidr cpu_mem].
  destruct (Z.eqb_spec d 31) as [->|Hd31]; rewrite ex_set_pc; split; cbn [cpu_x cpu_sp cpu_pc cpu_tpidr cpu_mem]; intros; try done.
  rewrite upd_eq. unfold upd. destruct (Z.eqb_spec r d); [|done]. done.
Qed.

Lemma svc_not_system raw : Mrs_Verify raw = true \/ Msr_Verify raw = true -> Svc_Verify raw = false.
Proof.
  assert (H : bits 21 11 raw = bits 20 12 raw / 2) by exact (bits_upper 20 12 1 raw ltac:(lia) ltac:(lia)).
  unfold Mrs_Verify, Msr_Verify, Svc_Verify. intros [E|E]; apply Z.eqb_eq in E; rewrite E in H; rewrite H; apply andb_false_r.
Qed.

Lemma mrs_not_msr raw : Msr_Verify raw = true -> Mrs_Verify raw = false.
Proof. unfold Mrs_Verify, Msr_Verify. intros E. apply Z.eqb_eq in E. by rewrite E. Qed.

(** The cells of the thread context are not the ones below the stack pointer. *)
Definition context_apart (c : Cpu) : Prop := forall off, off = ctx_tpidrroEl0 \/ off = ctx_tpidrEl0 ->
  u64 (cpu_tpidr c + off) <> u64 (cpu_sp c - 16) /\ u64 (cpu_tpidr c + off) <> u64 (cpu_sp c - 8).

(** The words of a list of emitters decode to given instructions, followed by the branch back. *)
Lemma emit_decodes endWords o (patch : list Z) pos ems ins :
  map (fun e => decode (e 0)) ems = map Some ins -> Forall (fun e : Emit => forall p, e p = e 0) ems ->
  (forall i w, emit (Z.of_nat pos) (ems ++ [branch_back endWords o]) !! i = Some w -> patch !! (pos + i)%nat = Some w) ->
  (forall k i, ins !! k = Some i -> exists w, patch !! (pos + k)%nat = Some w /\ decode w = Some i) /\
  patch !! (pos + length ins)%nat = Some (branch_back endWords o (Z.of_nat (pos + length ins))).
Proof.
  unfold Emit in *. intros Hd Hc Hp. assert (Hl : length ems = length ins) by (by apply (f_equal length) in Hd; rewrite !length_map in Hd).
  rewrite emit_app in Hp. assert (He : forall p, emit p ems = map (fun e : Z -> Z => e 0) ems).
  { clear -Hc. induction Hc as [|e l He _ IH]; intros p; [done|]. cbn [emit map]. by rewrite IH, He. }
  rewrite He in Hp. split.
  - intros k i Hk. pose proof (f_equal (fun l => l !! k) Hd) as E. cbn beta in E. rewrite !list_lookup_fmap, Hk in E.
    destruct (ems !! k) as [e|] eqn:Ee; [|done]. injection E as E. exists (e 0). split; [|done]. apply Hp. rewrite lookup_app_l.
    + change (map (fun e : Z -> Z => e 0) ems) with ((fun e : Z -> Z => e 0) <$> ems). by rewrite list_lookup_fmap, Ee.
    + rewrite length_map. by eapply lookup_lt_Some.
  - apply Hp. rewrite lookup_app_r by (rewrite length_map; lia). rewrite length_map, Hl, Nat.sub_diag.
    assert (E : Z.of_nat (pos + length ins) = Z.of_nat pos + Z.of_nat (length ems)) by lia. by rewrite E.
Qed.

Lemma pd_size_nonneg frequency text : 0 <= pd_size (GetPatchData frequency text).
Proof.
  unfold GetPatchData. destruct (scan _ _ _ _ _) as [n offs]. cbn [pd_size]. unfold AlignUp. apply Z.land_nonneg. left. apply wrap_range. lia.
Qed.

(** The words of the trampolines before the branch back. *)
Definition tls_load_ems (raw : Z) : list Emit :=
  (if negb (mrs_destReg raw =? 0) then [word 0xF81F0FE0] else []) ++
  [word 0xD53BD040; word (if mrs_srcReg raw =? TpidrroEl0 then 0xF9415800 else 0xF9415C00)] ++
  (if negb (mrs_destReg raw =? 0) then [word (Mov 1 (mrs_destReg raw) 0); word 0xF84107E0] else []).

Definition tls_store_ems (raw : Z) : list Emit :=
  [word 0xA9BF07E0; word 0xD53BD040; word (Mov 1 1 (msr_srcReg raw)); word 0xF9015C01; word 0xA8C107E0].

Lemma tls_load_decodes raw off :
  off = (if mrs_srcReg raw =? TpidrroEl0 then ctx_tpidrroEl0 else ctx_tpidrEl0) ->
  map (fun e : Emit => decode (e 0)) (tls_load_ems raw) = map Some (tls_load_ins (mrs_destReg raw) off) /\
  Forall (fun e : Emit => forall p, e p = e 0) (tls_load_ems raw) /\ Forall (fun i => straight i = true) (tls_load_ins (mrs_destReg raw) off).
Proof.
  intros ->. unfold tls_load_ems, tls_load_ins. pose proof (bits_range 0 5 raw ltac:(lia)) as Hr. fold (mrs_destReg raw) in Hr. change (2 ^ 5) with 32 in Hr.
  pose proof (decode_Mov (mrs_destReg raw) 0 Hr ltac:(lia)) as Hm.
  destruct (mrs_destReg raw =? 0); cbn [negb app]; (split; [|split; repeat first [apply List.Forall_nil|apply List.Forall_cons|done]]); cbn [map]; unfold word; rewrite ?Hm; by destruct (mrs_srcReg raw =? TpidrroEl0).
Qed.

Lemma tls_store_decodes raw :
  map (fun e : Emit => decode (e 0)) (tls_store_ems raw) = map Some (tls_store_ins (msr_srcReg raw)) /\
  Forall (fun e : Emit => forall p, e p = e 0) (tls_store_ems raw) /\ Forall (fun i => straight i = true) (tls_store_ins (msr_srcReg raw)).
Proof.
  pose proof (bits_range 0 5 raw ltac:(lia)) as Hr. change (2 ^ 5) with 32 in Hr. pose proof (decode_Mov 1 (msr_srcReg raw) ltac:(lia) Hr) as Hm.
  unfold tls_store_ems, tls_store_ins. split; [|split; repeat first [apply List.Forall_nil|apply List.Forall_cons|done]]. cbn [map]. unfold word. by rewrite Hm.
Qed.

Section patched.
Context (RescaleClock : list Z) (rescaleClock : bool) (endWords : Z) (raw o pos : Z).
Local Abbreviation patched := (patch_instruction RescaleClock rescaleClock endWords raw o pos).
Local Abbreviation jump ems := (branch_to endWords o pos, emit pos (ems ++ [branch_back endWords o])).

Lemma patched_tls_load : Mrs_Verify raw = true -> is_tls (mrs_srcReg raw) = true ->
  patched = jump (tls_load_ems raw) /\ is_Some (patch_words rescaleClock raw).
Proof.
  intros Hm Ht. unfold patch_instruction, patch_words. rewrite svc_not_system, Hm, Ht by (by left). split; [|by eexists].
  unfold tls_load_trampoline, tls_load_ems. by rewrite <- !app_assoc.
Qed.

Lemma patched_frequency : Mrs_Verify raw = true -> mrs_srcReg raw = CntfrqEl0 -> rescaleClock = true ->
  patched = jump (map word (MoveRegister 2 (mrs_destReg raw) TegraX1Freq)) /\ is_Some (patch_words rescaleClock raw).
Proof.
  intros Hm Hs ->. unfold patch_instruction, patch_words. rewrite svc_not_system, Hm, Hs by (by left). split; [done|by eexists].
Qed.

Lemma patched_counter : Mrs_Verify raw = true -> mrs_srcReg raw = CntpctEl0 -> rescaleClock = false ->
  patched = (Mrs CntvctEl0 (mrs_destReg raw), []) /\ is_Some (patch_words rescaleClock raw).
Proof.
  intros Hm Hs ->. unfold patch_instruction, patch_words. rewrite svc_not_system, Hm, Hs by (by left). split; [done|by eexists].
Qed.

Lemma patched_tls_store : Msr_Verify raw = true -> msr_destReg raw = TpidrEl0 ->
  patched = jump (tls_store_ems raw) /\ is_Some (patch_words rescaleClock raw).
Proof.
  intros Hm Hd. unfold patch_instruction, patch_words. rewrite svc_not_system, (mrs_not_msr raw Hm), Hm, Hd by (by right). split; [|by eexists].
  unfold tls_store_trampoline. change (mrs_srcReg raw) with (msr_destReg raw). by rewrite Hd.
Qed.
End patched.

Lemma swrap_wrap w k z : 0 < w <= k -> swrap w (wrap k z) = swrap w z.
Proof.
  intros Hw. unfold swrap, wrap. assert (E : (z mod 2 ^ k) mod 2 ^ w = z mod 2 ^ w); [|by rewrite E].
  rewrite (Z.mod_eq z (2 ^ k)) by lia. replace (2 ^ k) with (2 ^ (k - w) * 2 ^ w) at 1 by (rewrite <- Z.pow_add_r by lia; f_equal; lia).
  replace (z - _) with (z + - (2 ^ (k - w) * (z / 2 ^ k)) * 2 ^ w) by lia. by rewrite Z.mod_add by lia.
Qed.

(** A short distance survives the unsigned arithmetic and the conversions. *)
Lemma short_distance a b : - 2 ^ 25 <= a + b < 2 ^ 25 -> swrap 26 (i32 (u64 (u64 a + b))) = a + b.
Proof.
  intros H. rewrite (swrap_wrap 32 64) by lia. replace (i32 (u64 a + b)) with (i32 (a + b)); [by rewrite (swrap_small 32), (swrap_small 26) by lia|].
  rewrite <- (swrap_wrap 32 64 (a + b)), <- (swrap_wrap 32 64 (u64 a + b)) by lia. unfold wrap at 1 2 3. by rewrite Zplus_mod_idemp_l.
Qed.

Lemma decode_svc_id raw : decode (Movz 0 0 (u16 (svc_imm raw)) 0) = Some (IMovz 0 0 (svc_imm raw) 0).
Proof.
  pose proof (bits_range 5 16 raw ltac:(lia)) as Hr. fold (svc_imm raw) in Hr. rewrite (wrap_small 16) by done. generalize dependent (svc_imm raw). intros v Hv.
  unfold Movz. set (r := pack _).
  assert (F : bits 0 5 r = 0 /\ bits 5 16 r = v /\ bits 21 2 r = 0 /\ bits 21 11 r = 0x294 /\ bits 22 10 r = 0x14A /\ bits 23 8 r = 0xA5 /\ bits 31 1 r = 0).
  { subst r. split; [by rewrite bits_pack_first|]. rewrite (bits_pack_tail 5) by lia. change (5 - 5) with 0. rewrite bits_pack_first, Z.mod_small by lia. split; [done|].
    rewrite !(bits_pack_tail _ _ 5), !(bits_pack_tail _ _ 16) by lia. done. }
  destruct F as (F1 & F2 & F3 & F4 & F5 & F6 & F7). unfold decode. rewrite F1, F2, F3, F4, F5, F6, F7. done.
Qed.

Section simulation.
Context (SaveCtx LoadCtx RescaleClock : list Z) (SvcHandlerAddress frequency : Z) (sysreg : Z -> Z) (base : Z) (text : list Z).
Hypothesis HSave : length SaveCtx = 34%nat.
Hypothesis HLoad : length LoadCtx = 34%nat.
Hypothesis HRescale : length RescaleClock = 16%nat.
Hypothesis Haddress : plain_address SvcHandlerAddress.
Local Abbreviation rescale := (negb (frequency =? TegraX1Freq)).
Local Abbreviation size := (pd_size (GetPatchData frequency text)).
Hypothesis Hbase : 0 <= base.
Hypothesis Hrange : size / 4 + Z.of_nat (length text) < 2 ^ 25.
Hypothesis Hlimit : base + size + 4 * Z.of_nat (length text) < 2 ^ 64.

Local Abbreviation patched raw o pos := (patch_instruction RescaleClock rescale (size / 4) raw (Z.of_nat o) (Z.of_nat pos)).

Lemma size_words : 0 <= size / 4 /\ Z.of_nat (length text) < 2 ^ 48.
Proof. pose proof (pd_size_nonneg frequency text) as Hs0. pose proof (Z.div_pos size 4 Hs0 ltac:(lia)). lia. Qed.

Lemma size_multiple : size mod 4096 = 0 -> size = 4 * (size / 4).
Proof.
  intros Hsz. rewrite (Z.div_mod size 4) at 1 by lia. pose proof (Z.div_mod size 4096 ltac:(lia)) as E. rewrite Hsz in E. rewrite E at 2.
  replace (4096 * (size / 4096) + 0) with (1024 * (size / 4096) * 4) by lia. rewrite Z.mod_mul by lia. lia.
Qed.

(** A patched instruction whose trampoline has the effect it should have. *)
Lemma trampoline_simulates text' patch o raw pos ems ins c c2 :
  length text' = length text -> 4 * Z.of_nat (length patch) <= size -> size mod 4096 = 0 ->
  text' !! o = Some (fst (patched raw o pos)) ->
  (forall i w, snd (patched raw o pos) !! i = Some w -> patch !! (pos + i)%nat = Some w) ->
  patched raw o pos = (branch_to (size / 4) (Z.of_nat o) (Z.of_nat pos), emit (Z.of_nat pos) (ems ++ [branch_back (size / 4) (Z.of_nat o)])) ->
  map (fun e => decode (e 0)) ems = map Some ins -> Forall (fun e : Emit => forall p, e p = e 0) ems -> Forall (fun i => straight i = true) ins ->
  cpu_pc c = base + size + 4 * Z.of_nat o ->
  (forall p q, same_but_scratch (cpu_sp c) (set_pc q (run_list sysreg ins (set_pc p c))) (set_pc q c2)) ->
  exists n c', cpu_run sysreg (loaded base (size / 4) text' patch) n c = Some c' /\ same_but_scratch (cpu_sp c) c' (set_pc (cpu_pc c + 4) c2).
Proof.
  intros Hlen Hfit Hsz H1 H2 E Hd Hc Hst Hpc Heff. rewrite E in H1, H2. cbn [fst snd] in H1, H2. pose proof (size_multiple Hsz) as Hm. pose proof size_words as [Hs1 _].
  destruct (emit_decodes _ _ _ _ _ _ Hd Hc H2) as [Hk Hb]. pose proof (lookup_lt_Some _ _ _ Hb). pose proof (lookup_lt_Some _ _ _ H1).
  eexists _, _. split.
  - apply (run_trampoline sysreg base (size / 4) text' patch) with (o := o) (pos := pos) (ins := ins); rewrite ?Hlen; try done; lia.
  - replace (base + 4 * (size / 4 + Z.of_nat o + 1)) with (cpu_pc c + 4) by lia. apply Heff.
Qed.

Lemma frequency_decodes d : 0 <= d < 32 -> map (fun e : Emit => decode (e 0)) (map word (MoveRegister 2 d TegraX1Freq)) = map Some (frequency_ins d).
Proof. intros Hd. rewrite map_map. exact (decode_frequency d Hd). Qed.

(** C5: Patched code does what the guest's code means.  For an access to a thread pointer, a read of the
    counter frequency on a host with another frequency, or a read of the counter on a host with the
    same one: running the patched code from the instruction reaches the next one in the state in
    which the thread context, the frequency of the Tegra X1 or the virtual counter have taken the
    place of the system register.  All other registers, the stack pointer and memory are as they were,
    but for the sixteen bytes below the stack pointer.  Stores to the thread pointer from [X0] are
    excluded. *)
Theorem patched_code_simulates o raw c c1 :
  text !! o = Some raw -> guest_effect sysreg rescale raw c = Some c1 -> (Msr_Verify raw = true -> msr_srcReg raw <> 0) ->
  cpu_pc c = base + size + 4 * Z.of_nat o -> 0 <= cpu_sp c < 2 ^ 64 -> context_apart c ->
  exists text' patch n c', PatchCode SaveCtx LoadCtx RescaleClock SvcHandlerAddress frequency size (pd_offsets (GetPatchData frequency text)) text = inr (text', patch) /\
    cpu_run sysreg (loaded base (size / 4) text' patch) n c = Some c' /\ same_but_scratch (cpu_sp c) c' c1.
Proof.
  intros Ho Hg Hx0 Hpc Hsp Hap. pose proof size_words as [Hs1 Hs2].
  destruct (PatchCode_spec SaveCtx LoadCtx RescaleClock SvcHandlerAddress frequency text HSave HLoad HRescale Haddress Hs2) as (text' & patch & HP & Hfit & Hsz & Hlen & _ & _ & Hat).
  exists text', patch. cut (exists n c', cpu_run sysreg (loaded base (size / 4) text' patch) n c = Some c' /\ same_but_scratch (cpu_sp c) c' c1).
  { intros (n & c' & H1 & H2). by exists n, c'. }
  pose proof (bits_range 0 5 raw ltac:(lia)) as Hreg. change (2 ^ 5) with 32 in Hreg.
  unfold guest_effect, next in Hg. destruct (Mrs_Verify raw) eqn:Emrs.
  - assert (Htls : forall off, is_tls (mrs_srcReg raw) = true -> off = (if mrs_srcReg raw =? TpidrroEl0 then ctx_tpidrroEl0 else ctx_tpidrEl0) ->
      exists n c', cpu_run sysreg (loaded base (size / 4) text' patch) n c = Some c' /\
        same_but_scratch (cpu_sp c) c' (set_pc (cpu_pc c + 4) (wr (mrs_destReg raw) (load c (cpu_tpidr c + off)) c))).
    { intros off Ht Hoff. destruct (Hat o raw Ho) as (pos & H1 & H2); [by apply (patched_tls_load RescaleClock rescale 0 raw 0 0)|].
      destruct (tls_load_decodes raw off Hoff) as (D1 & D2 & D3).
      refine (trampoline_simulates text' patch o raw pos _ _ _ _ Hlen Hfit Hsz H1 H2 _ D1 D2 D3 Hpc _); [by apply patched_tls_load|].
      intros p q. apply tls_load_effect; [done|done|]. apply Hap. subst off. destruct (_ =? _); [by left|by right]. }
    destruct (Z.eqb_spec (mrs_srcReg raw) TpidrroEl0) as [Esrc|Esrc].
    { injection Hg as <-. rewrite wr_pc. apply Htls; [unfold is_tls; by rewrite Esrc|done]. }
    destruct (Z.eqb_spec (mrs_srcReg raw) TpidrEl0) as [Esrc2|Esrc2].
    { injection Hg as <-. rewrite wr_pc. apply Htls; [unfold is_tls; by rewrite Esrc2|done]. }
    destruct (Z.eqb_spec (mrs_srcReg raw) CntfrqEl0) as [Esrc3|Esrc3].
    + rewrite Esrc3 in Hg. destruct rescale eqn:Er in Hg; cbn [andb] in Hg; [|discriminate Hg]. injection Hg as <-. rewrite wr_pc.
      destruct (Hat o raw Ho) as (pos & H1 & H2); [by apply (patched_frequency RescaleClock rescale 0 raw 0 0)|].
      refine (trampoline_simulates text' patch o raw pos _ _ _ _ Hlen Hfit Hsz H1 H2 _ (frequency_decodes _ Hreg) _ _ Hpc _).
      * by apply patched_frequency.
      * apply Forall_map, Forall_forall. by intros w _ p.
      * repeat first [apply List.Forall_nil|apply List.Forall_cons|done].
      * intros p q. by apply frequency_effect.
    + cbn [andb] in Hg. destruct (Z.eqb_spec (mrs_srcReg raw) CntpctEl0) as [Esrc4|]; [|discriminate Hg].
      destruct rescale eqn:Er in Hg; cbn [andb negb] in Hg; [discriminate Hg|]. injection Hg as <-. rewrite wr_pc.
      destruct (Hat o raw Ho) as (pos & H1 & _); [by apply (patched_counter RescaleClock rescale 0 raw 0 0)|].
      destruct (patched_counter RescaleClock rescale (size / 4) raw (Z.of_nat o) (Z.of_nat pos) Emrs Esrc4 Er) as [E _]. rewrite E in H1. cbn [fst] in H1.
      exists 1%nat. eexists. split; [|apply same_refl]. cbn [cpu_run]. unfold cpu_step. pose proof (size_multiple Hsz) as Hm.
      replace (cpu_pc c) with (base + 4 * (size / 4 + Z.of_nat o)) at 1 by lia. rewrite (fetch_text base (size / 4) text' patch ltac:(lia) o _ H1), (decode_Mrs (mrs_destReg raw) Hreg). cbn [fmap option_fmap option_map execute]. unfold next. by rewrite wr_pc.
  - destruct (Msr_Verify raw) eqn:Emsr; [|discriminate Hg]. destruct (Z.eqb_spec (msr_destReg raw) TpidrEl0) as [Ed|]; [|discriminate Hg].
    injection Hg as <-. destruct (Hat o raw Ho) as (pos & H1 & H2); [by apply (patched_tls_store RescaleClock rescale 0 raw 0 0)|].
    destruct (tls_store_decodes raw) as (D1 & D2 & D3). cbn [cpu_pc store].
    refine (trampoline_simulates text' patch o raw pos _ _ _ _ Hlen Hfit Hsz H1 H2 _ D1 D2 D3 Hpc _); [by apply patched_tls_store|].
    intros p q. apply tls_store_effect; [done|by apply Hx0|done|..]; apply Hap; by right.
Qed.

(** C30: The [.patch] section is large enough and nothing else changes.  With the instructions that
    [GetPatchData] found, [PatchCode] never reads past the code, writes no more words than the section
    has, and leaves every instruction as it was for which no patch was counted; each of the others
    becomes a single word. *)
Theorem patch_section_fits : exists text' patch,
  PatchCode SaveCtx LoadCtx RescaleClock SvcHandlerAddress frequency size (pd_offsets (GetPatchData frequency text)) text = inr (text', patch) /\
  4 * Z.of_nat (length patch) <= size /\ size mod PAGE_SIZE = 0 /\ length text' = length text /\
  forall o raw, text !! o = Some raw -> patch_words rescale raw = None -> text' !! o = Some raw.
Proof.
  destruct (PatchCode_spec SaveCtx LoadCtx RescaleClock SvcHandlerAddress frequency text HSave HLoad HRescale Haddress (proj2 size_words))
    as (text' & patch & H1 & H2 & H3 & H4 & _ & H5 & _).
  by exists text', patch.
Qed.

(** A supervisor call saves the guest's registers, loads its number and calls the handler.  The
    instruction becomes a branch to a trampoline that keeps the link register on the stack, calls
    [SaveCtx], moves the number of the call to [W0], calls the main trampoline and [LoadCtx], each at
    the place where the section has it, restores the link register and branches to the instruction
    behind the call.  A list of words and their targets, in words from the start of the section. *)
Theorem svc_trampoline_calls o raw : text !! o = Some raw -> Svc_Verify raw = true ->
  exists text' patch pos,
  PatchCode SaveCtx LoadCtx RescaleClock SvcHandlerAddress frequency size (pd_offsets (GetPatchData frequency text)) text = inr (text', patch) /\
  (fun w => decode w) <$> text' !! o = Some (Some (IB (4 * (pos - (size / 4 + Z.of_nat o))))) /\
  map decode (take 7 (drop (Z.to_nat pos) patch)) = map Some
    [IStrPre 30 31 (-16); IBL (4 * (0 - (pos + 1))); IMovz 0 0 (svc_imm raw) 0; IBL (4 * (34 - (pos + 3))); IBL (4 * (51 - (pos + 4)));
     ILdrPost 30 31 16; IB (4 * (size / 4 + Z.of_nat o + 1 - (pos + 6)))] /\
  take 34 patch = SaveCtx /\ take 17 (drop 34 patch) = MainSvcTrampoline SvcHandlerAddress /\ take 34 (drop 51 patch) = LoadCtx.
Proof.
  clear Hbase Hlimit. intros Ho Hsvc. pose proof size_words as [Hs1 Hs2]. pose proof (MainSvcTrampoline_length _ Haddress) as HMain.
  destruct (PatchCode_spec SaveCtx LoadCtx RescaleClock SvcHandlerAddress frequency text HSave HLoad HRescale Haddress Hs2)
    as (text' & patch & HP & Hfit & Hsz & Hlen & [tr Htr] & _ & Hat).
  assert (Hw : is_Some (patch_words rescale raw)) by (unfold patch_words; rewrite Hsvc; by eexists).
  destruct (Hat o raw Ho Hw) as (pos & H1 & H2). unfold patch_instruction in H1, H2. rewrite Hsvc in H1, H2. cbn [fst snd] in H1, H2.
  exists text', patch, (Z.of_nat pos). split; [done|]. pose proof (size_multiple Hsz) as Hm. pose proof (lookup_lt_Some _ _ _ Ho) as Hot.
  assert (Hpos : (pos + 7 <= length patch)%nat).
  { pose proof (H2 6%nat _ eq_refl) as H6. apply lookup_lt_Some in H6. lia. }
  split; [|split].
  - rewrite H1. cbn [fmap option_fmap option_map]. unfold branch_to, endOffset. rewrite decode_B.
    rewrite (wrap_small 64 (size / 4 - Z.of_nat pos)), wrap_small, (swrap_small 32), (swrap_small 26) by lia. do 3 f_equal. lia.
  - assert (Ht : take 7 (drop pos patch) = emit (Z.of_nat pos) (svc_trampoline (size / 4) raw (Z.of_nat o))).
    { apply list_eq. intros i. destruct (decide (i < 7)%nat) as [Hi|Hi].
      - destruct (lookup_lt_is_Some_2 (emit (Z.of_nat pos) (svc_trampoline (size / 4) raw (Z.of_nat o))) i) as [w Hwi]; [by rewrite emit_length|].
        rewrite lookup_take_lt, lookup_drop, Hwi by done. by apply H2.
      - rewrite lookup_take_ge by lia. symmetry. apply lookup_ge_None_2. rewrite emit_length. simpl. lia. }
    rewrite Nat2Z.id, Ht. unfold svc_trampoline, word, branch_back, startOffset, endOffset, SaveCtxSize, MainSvcTrampolineSize. cbn [emit map].
    rewrite !decode_BL, decode_B, decode_svc_id.
    pose proof (short_distance (- (Z.of_nat pos + 1)) 0) as D0. rewrite !Z.add_0_r, wrap_idemp in D0. rewrite D0 by lia.
    rewrite <- !Z.add_assoc. rewrite !short_distance by lia. repeat f_equal; lia.
  - subst patch. unfold patch_header. rewrite <- !app_assoc. rewrite take_app_length', drop_app_length', take_app_length' by done.
    split; [done|]. split; [done|]. rewrite (app_assoc SaveCtx), drop_app_length', take_app_length'; [done|done|]. by rewrite length_app, HSave, HMain.
Qed.
End simulation.

(** ** Limits *)

(** A store to the thread pointer from [X0] stores the address of the thread context: the scratch
    registers are chosen by the system register, which is never 0 or 1, so [X0] is overwritten
    before it is read. *)
Lemma tls_store_from_x0 sysreg p q c :
  0 <= cpu_sp c < 2 ^ 64 -> context_apart c ->
  load (set_pc q (run_list sysreg (tls_store_ins 0) (set_pc p c))) (cpu_tpidr c + ctx_tpidrEl0) = cpu_tpidr c.
Proof.
  intros Hsp Hap. destruct (Hap ctx_tpidrEl0 (or_intror eq_refl)) as [H1 H2]. destruct c as [x sp pc tp mem]. cbn [cpu_sp cpu_tpidr] in *.
  unfold tls_store_ins. run_cpu. unfold load, set_pc. cbn [cpu_mem cpu_tpidr]. by rewrite !upd_eq.
Qed.

(** When a half-word of the handler's address is zero, its move is left out and the main trampoline
    is shorter than the 17 words the calls of [LoadCtx] skip. *)
Lemma MainSvcTrampoline_short : length (MainSvcTrampoline 0x7F120000A000) = 16%nat.
Proof. vm_compute. reflexivity. Qed.

(** ** Witnesses *)

Definition nops (n : nat) : list Z := replicate n 0xD503201F.
Definition example_handler : Z := 0x7F1234567890.
(** Three instructions: [MRS X3, TPIDRRO_EL0], [SVC #0x21] and [RET]. *)
Definition example_text : list Z := [0xD53BD063; 0xD4000421; 0xD65F03C0].
Definition example_cpu : Cpu := mk_cpu (fun r => 100 + r) 0x20000 0x9000 0x30000 (fun a => a + 1).

Lemma example_plain : plain_address example_handler.
Proof. vm_compute. repeat split; first [discriminate|reflexivity]. Qed.

Lemma example_size frequency : frequency = TegraX1Freq \/ frequency = 24000000 -> GetPatchData frequency example_text = mk_patch_data 4096 [0; 1].
Proof. intros [->| ->]; vm_compute; reflexivity. Qed.

Lemma patched_code_simulates_witness :
  exists text' patch n c',
    PatchCode (nops 34) (nops 34) (nops 16) example_handler TegraX1Freq 4096 [0; 1] example_text = inr (text', patch) /\
    cpu_run (fun _ => 0) (loaded 0x8000 (4096 / 4) text' patch) n example_cpu = Some c' /\ cpu_x c' 3 = 0x302B1 /\ cpu_x c' 4 = 104 /\ cpu_pc c' = 0x9004.
Proof.
  pose proof (patched_code_simulates (nops 34) (nops 34) (nops 16) example_handler TegraX1Freq (fun _ => 0) 0x8000 example_text eq_refl eq_refl eq_refl example_plain) as H.
  rewrite (example_size TegraX1Freq (or_introl eq_refl)) in H. cbn [pd_size pd_offsets] in H.
  destruct (H ltac:(lia) ltac:(vm_compute; reflexivity) ltac:(vm_compute; reflexivity) 0%nat 0xD53BD063 example_cpu (next (wr 3 0x302B1 example_cpu)))
    as (text' & patch & n & c' & H1 & H2 & [Hx _ Hpc _ _]); [reflexivity|reflexivity|discriminate|reflexivity|vm_compute; split; [discriminate|reflexivity]| |].
  - intros off [->| ->]; vm_compute; split; discriminate.
  - exists text', patch, n, c'. split; [exact H1|]. split; [exact H2|].
    split; [rewrite Hx by lia; reflexivity|]. split; [rewrite Hx by lia; reflexivity|]. rewrite Hpc. reflexivity.
Defined.

Lemma patch_section_fits_witness :
  exists text' patch, PatchCode (nops 34) (nops 34) (nops 16) example_handler 24000000 4096 [0; 1] example_text = inr (text', patch) /\
    4 * Z.of_nat (length patch) <= 4096 /\ text' !! 2%nat = Some 0xD65F03C0.
Proof.
  pose proof (patch_section_fits (nops 34) (nops 34) (nops 16) example_handler 24000000 example_text eq_refl eq_refl eq_refl example_plain) as H.
  rewrite (example_size 24000000 (or_intror eq_refl)) in H. cbn [pd_size pd_offsets] in H.
  destruct (H ltac:(vm_compute; reflexivity)) as (text' & patch & H1 & H2 & _ & _ & H3).
  exists text', patch. split; [exact H1|]. split; [exact H2|]. apply (H3 2%nat); reflexivity.
Defined.

Lemma svc_trampoline_calls_witness :
  exists text' patch pos, PatchCode (nops 34) (nops 34) (nops 16) example_handler TegraX1Freq 4096 [0; 1] example_text = inr (text', patch) /\
    map decode (take 7 (drop (Z.to_nat pos) patch)) = map Some
      [IStrPre 30 31 (-16); IBL (4 * (0 - (pos + 1))); IMovz 0 0 0x21 0; IBL (4 * (34 - (pos + 3))); IBL (4 * (51 - (pos + 4)));
       ILdrPost 30 31 16; IB (4 * (4096 / 4 + Z.of_nat 1 + 1 - (pos + 6)))].
Proof.
  pose proof (svc_trampoline_calls (nops 34) (nops 34) (nops 16) example_handler TegraX1Freq example_text eq_refl eq_refl eq_refl example_plain) as H.
  rewrite (example_size TegraX1Freq (or_introl eq_refl)) in H. cbn [pd_size pd_offsets] in H.
  destruct (H ltac:(vm_compute; reflexivity) 1%nat 0xD4000421 eq_refl eq_refl) as (text' & patch & pos & H1 & _ & H2 & _).
  exists text', patch, pos. split; [exact H1|exact H2].
Defined.
