(* ===== verification/IntervalMap.v ===== *)
(** * The interval map ([common/interval_map.h])

    Groups of intervals with a value each, looked up by address range.  A handle of a group is an
    iterator into a list of the source and a number here; the vector of entries holds every interval
    of every group, and references to the values of groups are the handles. *)

From S2P Require Import Prelude Common.

Record Interval : Type := mk_interval {
  iv_start : Z;
  iv_end : Z }.

#[global] Instance Interval_eq_dec : EqDecision Interval.
Proof. solve_decision. Defined.

Definition Interval_Size (i : Interval) : Z := u64 (iv_end i - iv_start i).
Definition Interval_Align (alignment : Z) (i : Interval) : Interval :=
  mk_interval (AlignDown (iv_start i) alignment) (AlignUp (iv_end i) alignment).

Record Entry : Type := mk_entry {
  en_interval : Interval;
  en_group : nat }.

Definition en_start (e : Entry) : Z := iv_start (en_interval e).
Definition en_end (e : Entry) : Z := iv_end (en_interval e).

(** [std::lower_bound] of an address among the starts. *)
Definition lower_bound_by {A} (start : A -> Z) (l : list A) (address : Z) : nat := upper_bound (fun x => negb (start x <? address)) l.

Definition emplace {A} (l : list A) (pos : nat) (x : A) : list A := take pos l ++ x :: drop pos l.

Section interval_map.
Context {V : Type}.

Record EntryGroup : Type := mk_group {
  eg_intervals : list Interval;
  eg_value : V }.

Record IntervalMap : Type := mk_interval_map {
  im_groups : gmap nat EntryGroup;
  im_entries : list Entry;
  im_next : nat }.

Definition IntervalMap_new : IntervalMap := mk_interval_map ∅ [] 0.

Definition IsGroupInEntries (group : nat) (entries : list nat) : bool := existsb (fun g => (g =? group)%nat) entries.

(** The intervals are placed by their ends. *)
Definition Insert_intervals (intervals : list Interval) (value : V) (m : IntervalMap) : IntervalMap * nat :=
  let group := im_next m in
  let entries := fold_left (fun entries i => emplace entries (lower_bound_by en_start entries (iv_end i)) (mk_entry i group)) intervals (im_entries m) in
  (mk_interval_map (<[group := mk_group intervals value]> (im_groups m)) entries (S group), group).

Definition Insert_interval (start end' : Z) (value : V) (m : IntervalMap) : IntervalMap * nat :=
  Insert_intervals [mk_interval start end'] value m.

(** The regions are placed by their starts. *)
Definition region_interval (region : span) : Interval := mk_interval (sp_data region) (u64 (sp_data region + sp_size region)).

Definition place (group : nat) (entries : list Entry) (region : span) : list Entry :=
  emplace entries (lower_bound_by en_start entries (sp_data region)) (mk_entry (region_interval region) group).

Definition Insert (regions : list span) (value : V) (m : IntervalMap) : IntervalMap * nat :=
  let group := im_next m in
  (mk_interval_map (<[group := mk_group (map region_interval regions) value]> (im_groups m)) (fold_left (place group) regions (im_entries m)) (S group), group).

Definition Remove (group : nat) (m : IntervalMap) : IntervalMap :=
  mk_interval_map (delete group (im_groups m)) (filter (fun e => en_group e <> group) (im_entries m)) (im_next m).

(** The entries a loop visits that walks back from the lower bound of [address] while [go] holds. *)
Fixpoint take_while {A} (go : A -> bool) (l : list A) : list A :=
  match l with
  | [] => []
  | x :: l => if go x then x :: take_while go l else []
  end.

Definition walk (address : Z) (go : Entry -> bool) (m : IntervalMap) : list Entry :=
  take_while go (reverse (take (lower_bound_by en_start (im_entries m) address) (im_entries m))).

Definition Get (address : Z) (m : IntervalMap) : option nat :=
  en_group <$> List.find (fun e => address <? en_end e) (walk address (fun e => en_start e <=? address) m).

(** The entries before the end of an interval. *)
Definition walk_range (i : Interval) (m : IntervalMap) : list Entry := walk (iv_end i) (fun e => en_start e <? iv_end i) m.

Definition overlaps (i : Interval) (e : Entry) : bool := iv_start i <? en_end e.

Definition GetRange (i : Interval) (m : IntervalMap) : list nat :=
  fold_left (fun result e => if overlaps i e && negb (IsGroupInEntries (en_group e) result) then result ++ [en_group e] else result) (walk_range i m) [].

Definition group_intervals (m : IntervalMap) (group : nat) : list Interval :=
  match im_groups m !! group with Some g => eg_intervals g | None => [] end.

Definition add_interval (key : Interval -> Z) (i : Interval) (l : list Interval) : list Interval := emplace l (lower_bound_by iv_start l (key i)) i.

(** Whether only entries of the given groups lie on an interval. *)
Definition exclusive (m : IntervalMap) (i : Interval) (groups : list nat) : bool :=
  negb (existsb (fun e => overlaps i e && negb (IsGroupInEntries (en_group e) groups)) (walk_range i m)).

Section recursive_range.
Context (Alignment : Z) (m : IntervalMap).

(** The state of the loops: the groups found and the intervals they cover. *)
Definition Query : Type := (list nat * list Interval)%type.

(** The exclusive intervals of a group that was found on an interval of [group]. *)
Definition recurse_intervals (group recursed : nat) (intervals : list Interval) : list Interval :=
  fold_left (fun intervals i2 =>
    let aligned2 := Interval_Align Alignment i2 in
    if exclusive m aligned2 [recursed; group] then add_interval iv_end aligned2 intervals else intervals)
    (group_intervals m recursed) intervals.

Definition recurse_entries (group : nat) (aligned : Interval) (q : Query) : Query :=
  fold_left (fun '(found, intervals) e =>
    if overlaps aligned e && negb (en_group e =? group)%nat && negb (IsGroupInEntries (en_group e) found)
    then (found ++ [en_group e], recurse_intervals group (en_group e) intervals)
    else (found, intervals)) (walk_range aligned m) q.

Definition visit_interval (exclusiveEntry : bool) (e : Entry) (q : Query) (i : Interval) : Query :=
  let aligned := Interval_Align Alignment i in
  if exclusiveEntry || bool_decide (i = en_interval e) then
    let '(found, intervals) := recurse_entries (en_group e) aligned q in (found, add_interval iv_start aligned intervals)
  else
    let '(found, intervals) := q in
    if exclusive m aligned [en_group e] then (found, add_interval iv_start aligned intervals) else (found, intervals).

Definition visit_entry (exclusiveEntry : bool) (i : Interval) (q : Query) (e : Entry) : Query :=
  let '(found, intervals) := q in
  if overlaps i e && negb (IsGroupInEntries (en_group e) found) then
    fold_left (visit_interval exclusiveEntry e) (group_intervals m (en_group e)) (found ++ [en_group e], intervals)
  else q.

Fixpoint coalesce_from (it : Interval) (l : list Interval) : list Interval :=
  match l with
  | [] => [it]
  | next :: l =>
      if iv_start next <=? iv_end it then
        coalesce_from (mk_interval (if iv_start next <? iv_start it then iv_start next else iv_start it)
                                   (if iv_end it <? iv_end next then iv_end next else iv_end it)) l
      else it :: coalesce_from next l
  end.

Definition coalesce (l : list Interval) : list Interval := match l with [] => [] | i :: l => coalesce_from i l end.

Definition GetAlignedRecursiveRange (i : Interval) : Query :=
  let i := Interval_Align Alignment i in
  let pos := lower_bound_by en_start (im_entries m) (iv_end i) in
  let exclusiveEntry := (pos <=? 1)%nat || match im_entries m !! (pos - 2)%nat with Some e => iv_end i <=? en_start e | None => false end in
  let '(found, intervals) := fold_left (visit_entry exclusiveEntry i) (walk_range i m) ([], []) in
  (found, coalesce intervals).

Definition GetAlignedRecursiveRange_address (address : Z) : Query := GetAlignedRecursiveRange (mk_interval address (u64 (address + 1))).
End recursive_range.
End interval_map.

(** ** Searching *)

(** On any list the binary search ends between an element that fails the test and one that passes. *)
Lemma upper_bound_local {A} (p : A -> bool) l :
  (upper_bound p l <= length l)%nat /\
  (forall x, (0 < upper_bound p l)%nat -> l !! (upper_bound p l - 1)%nat = Some x -> p x = false) /\
  (forall x, l !! upper_bound p l = Some x -> p x = true).
Proof.
  unfold upper_bound. cut (forall fuel first len, (len <= fuel)%nat -> (first + len <= length l)%nat ->
    (forall x, (0 < first)%nat -> l !! (first - 1)%nat = Some x -> p x = false) -> (forall x, l !! (first + len)%nat = Some x -> p x = true) ->
    (upper_bound_from fuel p l first len <= length l)%nat /\
    (forall x, (0 < upper_bound_from fuel p l first len)%nat -> l !! (upper_bound_from fuel p l first len - 1)%nat = Some x -> p x = false) /\
    (forall x, l !! upper_bound_from fuel p l first len = Some x -> p x = true)).
  { intros H. apply H; [lia|lia|lia|]. intros x Hx. apply lookup_lt_Some in Hx. lia. }
  induction fuel as [|fuel IH]; intros first len Hf Hl H1 H2; cbn [upper_bound_from].
  { replace len with 0%nat in * by lia. rewrite Nat.add_0_r in H2. split; [lia|done]. }
  destruct (Nat.eqb_spec len 0) as [->|Hne]; [rewrite Nat.add_0_r in H2; split; [lia|done]|].
  pose proof (Nat.div2_decr len (len - 1) ltac:(lia)) as Hd. remember (Nat.div2 len) as half eqn:Ehalf. clear Ehalf.
  destruct (l !! (first + half)%nat) as [x|] eqn:Ex; [|apply lookup_ge_None in Ex; lia]. destruct (p x) eqn:Epx.
  - apply IH; [lia|lia|done|]. intros y Hy. congruence.
  - apply IH; [lia|lia| |].
    + intros y _ Hy. replace (first + half + 1 - 1)%nat with (first + half)%nat in Hy by lia. congruence.
    + intros y Hy. apply H2. by replace (first + half + 1 + (len - half - 1))%nat with (first + len)%nat in Hy by lia.
Qed.

Lemma take_while_all {A} (go : A -> bool) l : Forall (fun x => go x = true) l -> take_while go l = l.
Proof. induction 1 as [|x l Hx _ IH]; [done|]. simpl. by rewrite Hx, IH. Qed.

Lemma emplace_elem {A} (l : list A) pos x y : y ∈ emplace l pos x <-> y = x \/ y ∈ l.
Proof.
  unfold emplace. rewrite elem_of_app, elem_of_cons. rewrite <- (take_drop pos l) at 3. rewrite elem_of_app. tauto.
Qed.

Lemma IsGroupInEntries_spec g l : IsGroupInEntries g l = true <-> g ∈ l.
Proof.
  unfold IsGroupInEntries. rewrite existsb_exists. split.
  - intros (x & Hx & E). apply Nat.eqb_eq in E as ->. by apply list_elem_of_In.
  - intros H. exists g. split; [by apply list_elem_of_In|]. apply Nat.eqb_refl.
Qed.

Section lookups.
Context {V : Type}.
Implicit Types (m : @IntervalMap V).

(** The entries are sorted by their starts. *)
Definition sorted (l : list Entry) : Prop := forall i j e e', (i <= j)%nat -> l !! i = Some e -> l !! j = Some e' -> en_start e <= en_start e'.

Lemma sorted_partitioned l address : sorted l -> partitioned (fun e => negb (en_start e <? address)) l.
Proof. intros Hs i j x y Hij Hx Hy. pose proof (Hs i j x y Hij Hx Hy). rewrite !negb_true_iff, !Z.ltb_ge. lia. Qed.

Lemma sorted_emplace l e : sorted l -> sorted (emplace l (lower_bound_by en_start l (en_start e)) e).
Proof.
  intros Hs. destruct (upper_bound_spec _ _ (sorted_partitioned l (en_start e) Hs)) as (Hle & Hlo & Hhi). fold (lower_bound_by en_start l (en_start e)) in *.
  set (k := lower_bound_by en_start l (en_start e)) in *. unfold emplace.
  assert (Hl : forall i x, (take k l ++ e :: drop k l) !! i = Some x ->
    (i < k)%nat /\ l !! i = Some x /\ en_start x < en_start e \/ i = k /\ x = e \/ (k < i)%nat /\ l !! (i - 1)%nat = Some x /\ en_start e <= en_start x).
  { intros i x Hx. destruct (lt_eq_lt_dec i k) as [[Hi| ->]|Hi].
    - left. rewrite lookup_app_l, lookup_take_lt in Hx by (rewrite ?length_take; lia). split; [done|]. split; [done|]. pose proof (Hlo i x Hi Hx) as H.
      apply negb_false_iff, Z.ltb_lt in H. done.
    - right; left. rewrite lookup_app_r, length_take, Nat.min_l, Nat.sub_diag in Hx by (rewrite ?length_take; lia). by injection Hx as <-.
    - right; right. rewrite lookup_app_r in Hx by (rewrite length_take; lia). rewrite length_take, Nat.min_l in Hx by lia.
      replace (i - k)%nat with (S (i - k - 1)) in Hx by lia. change ((e :: drop k l) !! S (i - k - 1)) with (drop k l !! (i - k - 1)%nat) in Hx. rewrite lookup_drop in Hx.
      replace (k + (i - k - 1))%nat with (i - 1)%nat in Hx by lia. split; [done|]. split; [done|]. pose proof (Hhi (i - 1)%nat x ltac:(lia) Hx) as H.
      apply negb_true_iff, Z.ltb_ge in H. done. }
  intros i j x y Hij Hx Hy. apply Hl in Hx, Hy.
  destruct Hx as [(? & Hx & ?)|[(? & ->)|(? & Hx & ?)]], Hy as [(? & Hy & ?)|[(? & ->)|(? & Hy & ?)]]; try lia.
  - exact (Hs i j x y Hij Hx Hy).
  - exact (Hs (i - 1)%nat (j - 1)%nat x y ltac:(lia) Hx Hy).
Qed.

Lemma sorted_filter (P : Entry -> Prop) `{!forall e, Decision (P e)} l : sorted l -> sorted (filter P l).
Proof.
  induction l as [|e l IH]; intros Hs; [done|].
  assert (Hs' : sorted l) by (intros i j x y Hij Hx Hy; apply (Hs (S i) (S j) x y); [lia|done|done]).
  destruct (decide (P e)) as [HP|HP]; [|rewrite filter_cons_False by done; by apply IH]. rewrite filter_cons_True by done.
  intros [|i] [|j] x y Hij Hx Hy; [by simplify_eq|injection Hx as <-|lia|exact (IH Hs' i j x y ltac:(lia) Hx Hy)].
  assert (Hin : y ∈ l) by (change (filter P l !! j = Some y) in Hy; apply list_elem_of_lookup_2 in Hy; by apply list_elem_of_filter in Hy as [_ ?]).
  apply list_elem_of_lookup in Hin as [k Hk]. exact (Hs O (S k) e y ltac:(lia) eq_refl Hk).
Qed.

Lemma walk_range_spec i m e : sorted (im_entries m) -> e ∈ walk_range i m <-> e ∈ im_entries m /\ en_start e < iv_end i.
Proof.
  intros Hs. destruct (upper_bound_spec _ _ (sorted_partitioned _ (iv_end i) Hs)) as (Hle & Hlo & Hhi).
  unfold walk_range, walk, lower_bound_by. set (k := upper_bound _ (im_entries m)) in *.
  assert (Hin : forall x, x ∈ take k (im_entries m) <-> x ∈ im_entries m /\ en_start x < iv_end i).
  { intros x. rewrite !list_elem_of_lookup. split.
    - intros [j Hj]. apply lookup_take_Some in Hj as [Hj Hlt]. split; [by exists j|]. pose proof (Hlo j x Hlt Hj) as H. by apply negb_false_iff, Z.ltb_lt in H.
    - intros [[j Hj] Hx]. exists j. rewrite lookup_take_lt; [done|]. destruct (decide (j < k)%nat) as [|Hge]; [done|].
      pose proof (Hhi j x ltac:(lia) Hj) as H. apply negb_true_iff, Z.ltb_ge in H. lia. }
  rewrite take_while_all; [by rewrite elem_of_reverse|]. apply Forall_forall. intros x Hx. apply elem_of_reverse, Hin in Hx as [_ Hx]. by apply Z.ltb_lt.
Qed.

(** An entry lies on an interval. *)
Definition on_interval (i : Interval) (e : Entry) : Prop := en_start e < iv_end i /\ iv_start i < en_end e.

(** ** [GetRange] finds the groups on an interval, each once *)
Lemma GetRange_spec i m g : sorted (im_entries m) ->
  (g ∈ GetRange i m <-> exists e, e ∈ im_entries m /\ en_group e = g /\ on_interval i e) /\ NoDup (GetRange i m).
Proof.
  intros Hs. unfold GetRange. cut (forall l found, NoDup found ->
    (g ∈ fold_left (fun result e => if overlaps i e && negb (IsGroupInEntries (en_group e) result) then result ++ [en_group e] else result) l found <->
      g ∈ found \/ exists e, e ∈ l /\ en_group e = g /\ iv_start i < en_end e) /\
    NoDup (fold_left (fun result e => if overlaps i e && negb (IsGroupInEntries (en_group e) result) then result ++ [en_group e] else result) l found)).
  { intros H. destruct (H (walk_range i m) [] ltac:(constructor)) as [H1 H2]. split; [|done]. rewrite H1. split.
    - intros [Hn|(e & He & Hg & Ho)]; [by apply elem_of_nil in Hn|]. apply (walk_range_spec i m e Hs) in He as [He Hlt]. exists e. by repeat split.
    - intros (e & He & Hg & Hlt & Ho). right. exists e. split; [by apply (walk_range_spec i m e Hs)|]. done. }
  induction l as [|e l IH]; intros found Hnd; cbn [fold_left].
  { split; [|done]. split; [by left|intros [|(e & He & _)]; [done|by apply elem_of_nil in He]]. }
  unfold overlaps at 2 4. destruct (Z.ltb_spec (iv_start i) (en_end e)) as [Ho|Ho]; cbn [andb].
  - destruct (IsGroupInEntries (en_group e) found) eqn:Eg; cbn [negb].
    + apply IsGroupInEntries_spec in Eg. destruct (IH found Hnd) as [H1 H2]. split; [|done]. rewrite H1. split.
      * intros [H|(x & Hx & H)]; [by left|]. right. exists x. split; [by right|done].
      * intros [H|(x & Hx & H)]; [by left|]. apply elem_of_cons in Hx as [->|Hx]; [left; by destruct H as [<- _]|]. right. by exists x.
    + destruct (IH (found ++ [en_group e])) as [H1 H2].
      { apply NoDup_app. split; [done|]. split; [|apply NoDup_singleton]. intros x Hx ->%list_elem_of_singleton. apply IsGroupInEntries_spec in Hx. congruence. }
      split; [|done]. rewrite H1, elem_of_app, list_elem_of_singleton. split.
      * intros [[H| ->]|(x & Hx & H)]; [by left|right; exists e; split; [by left|done]|]. right. exists x. split; [by right|done].
      * intros [H|(x & Hx & H)]; [by left; left|]. apply elem_of_cons in Hx as [->|Hx]; [left; right; by destruct H|]. right. by exists x.
  - destruct (IH found Hnd) as [H1 H2]. split; [|done]. rewrite H1. split.
    + intros [H|(x & Hx & H)]; [by left|]. right. exists x. split; [by right|done].
    + intros [H|(x & Hx & H)]; [by left|]. apply elem_of_cons in Hx as [->|Hx]; [destruct H; lia|]. right. by exists x.
Qed.

(** ** The recursive range *)

Context (Alignment : Z).

(** Every entry on the interval belongs to one of the groups. *)
Definition safe m (found : list nat) (i : Interval) : Prop := forall e, e ∈ im_entries m -> on_interval i e -> en_group e ∈ found.

Lemma safe_mono m found found' i : found ⊆ found' -> safe m found i -> safe m found' i.
Proof. intros Hf Hs e He Ho. apply Hf. by apply Hs. Qed.

(** Neighbours in the list of intervals do not lie apart with the later one first. *)
Fixpoint chained (l : list Interval) : Prop :=
  match l with
  | i :: (j :: _) as l' => iv_start i <= iv_end j /\ chained l'
  | _ => True
  end.

Definition proper (i : Interval) : Prop := iv_start i <= iv_end i.

Lemma chained_app l1 l2 : chained l1 -> chained l2 ->
  (forall x y, last l1 = Some x -> head l2 = Some y -> iv_start x <= iv_end y) -> chained (l1 ++ l2).
Proof.
  induction l1 as [|a l1 IH]; intros H1 H2 H; [done|]. destruct l1 as [|b l1].
  - destruct l2 as [|c l2]; [done|]. split; [by apply H|done].
  - destruct H1 as [Hab H1]. split; [done|]. apply IH; [done|done|]. intros x y Hx Hy. by apply H.
Qed.

Lemma chained_split l1 l2 : chained (l1 ++ l2) -> chained l1 /\ chained l2.
Proof.
  induction l1 as [|a l1 IH]; [done|]. destruct l1 as [|b l1]; cbn [app].
  - destruct l2 as [|c l2]; [done|]. by intros [_ H].
  - intros [Hab H]. destruct (IH H) as [H1 H2]. done.
Qed.

Lemma add_interval_chained key i l :
  Forall proper l -> proper i -> iv_start i <= key i <= iv_end i -> chained l -> chained (add_interval key i l).
Proof.
  intros Hp Hi Hk Hc. unfold add_interval, emplace, lower_bound_by. destruct (upper_bound_local (fun x => negb (iv_start x <? key i)) l) as (Hle & Hlo & Hhi).
  set (k := upper_bound _ l) in *. rewrite <- (take_drop k l) in Hc at 1. apply chained_split in Hc as [H1 H2]. apply chained_app; [done| |].
  - destruct (drop k l) as [|y l'] eqn:Ed; [done|]. split; [|done].
    assert (Hy : l !! k = Some y) by (rewrite <- (Nat.add_0_r k), <- lookup_drop, Ed; done).
    pose proof (Hhi y Hy) as H. apply negb_true_iff, Z.ltb_ge in H. rewrite Forall_lookup in Hp. pose proof (Hp k y Hy) as Hpy. unfold proper in Hpy. lia.
  - intros x y Hx Hy. injection Hy as <-. rewrite last_lookup, length_take, Nat.min_l in Hx by lia.
    apply lookup_take_Some in Hx as [Hx Hlt]. pose proof (Hlo x ltac:(lia)) as H. replace (k - 1)%nat with (pred k) in H by lia. specialize (H Hx).
    apply negb_false_iff, Z.ltb_lt in H. lia.
Qed.

(** An interval of one of the groups. *)
Definition known m (i : Interval) : Prop := exists g, i ∈ group_intervals m g.

(** What holds of the groups and intervals found so far. *)
Record query_ok m (q : Query) : Prop := mk_query_ok {
  qo_safe : Forall (safe m (fst q)) (snd q);
  qo_proper : Forall proper (snd q);
  qo_aligned : Forall (fun i => exists j, known m j /\ i = Interval_Align Alignment j) (snd q);
  qo_chained : chained (snd q) }.

Lemma query_ok_more m found found' intervals : found ⊆ found' -> query_ok m (found, intervals) -> query_ok m (found', intervals).
Proof. intros Hf [H1 H2 H3 H4]. split; [|done|done|done]. eapply Forall_impl; [exact H1|]. intros i. by apply safe_mono. Qed.

Lemma add_interval_ok m key found intervals i :
  (key = iv_start \/ key = iv_end) -> known m i -> proper (Interval_Align Alignment i) -> safe m found (Interval_Align Alignment i) ->
  query_ok m (found, intervals) -> query_ok m (found, add_interval key (Interval_Align Alignment i) intervals).
Proof.
  intros Hk Hi Hp Hs [H1 H2 H3 H4]. cbn [fst snd] in *.
  assert (Hall : forall (P : Interval -> Prop), Forall P intervals -> P (Interval_Align Alignment i) -> Forall P (add_interval key (Interval_Align Alignment i) intervals)).
  { intros P HP Hpi. rewrite Forall_forall in *. intros x Hx. apply emplace_elem in Hx as [->|Hx]; [done|by apply HP]. }
  split; cbn [fst snd]; [by apply Hall|by apply Hall|apply Hall; [done|by exists i]|].
  apply add_interval_chained; [done|done| |done]. unfold proper in Hp. destruct Hk as [->| ->]; lia.
Qed.

Lemma exclusive_safe m i groups found : sorted (im_entries m) -> exclusive m i groups = true -> groups ⊆ found -> safe m found i.
Proof.
  intros Hs Hx Hg e He [Hlt Ho]. apply Hg. apply IsGroupInEntries_spec. unfold exclusive in Hx. apply negb_true_iff in Hx.
  destruct (IsGroupInEntries (en_group e) groups) eqn:E; [done|]. exfalso. rewrite <- not_true_iff_false in Hx. apply Hx. apply existsb_exists. exists e.
  split; [apply list_elem_of_In, (walk_range_spec i m e Hs); done|]. rewrite E. unfold overlaps. by rewrite (proj2 (Z.ltb_lt _ _) Ho).
Qed.

(** Growth of a query. *)
Definition grows (q q' : Query) : Prop := fst q ⊆ fst q' /\ snd q ⊆ snd q'.

Lemma grows_refl q : grows q q.
Proof. by split. Qed.
Lemma grows_trans q1 q2 q3 : grows q1 q2 -> grows q2 q3 -> grows q1 q3.
Proof. intros [H1 H2] [H3 H4]. split; by etrans. Qed.

Lemma add_interval_grows key i found intervals : grows (found, intervals) (found, add_interval key i intervals).
Proof. split; [done|]. intros x Hx. apply emplace_elem. by right. Qed.

(** A loop that keeps an invariant of the query, only adds to it, and establishes [R] for every
    element it visits. *)
Lemma fold_query {A} (f : Query -> A -> Query) (P : Query -> Prop) (R : A -> Query -> Prop) l q :
  (forall q x, x ∈ l -> P q -> P (f q x) /\ grows q (f q x) /\ R x (f q x)) ->
  (forall x q q', R x q -> grows q q' -> R x q') ->
  P q -> P (fold_left f l q) /\ grows q (fold_left f l q) /\ forall x, x ∈ l -> R x (fold_left f l q).
Proof.
  revert q. induction l as [|x l IH]; intros q Hf HR HP; cbn [fold_left].
  { split; [done|]. split; [apply grows_refl|]. intros x Hx. by apply elem_of_nil in Hx. }
  destruct (Hf q x ltac:(by left) HP) as (HP1 & Hg1 & HR1). destruct (IH (f q x)) as (HP2 & Hg2 & HR2); [|done|done|].
  { intros q' y Hy. apply Hf. by right. }
  split; [done|]. split; [by eapply grows_trans|]. intros y [->|Hy]%elem_of_cons; [by eapply HR|by apply HR2].
Qed.

Section range.
Context (m : @IntervalMap V).
Hypothesis Hsorted : sorted (im_entries m).
Hypothesis Hproper : forall i, known m i -> proper (Interval_Align Alignment i).

Lemma recurse_intervals_ok group recursed found intervals :
  group ∈ found -> recursed ∈ found -> query_ok m (found, intervals) ->
  query_ok m (found, recurse_intervals Alignment m group recursed intervals) /\ intervals ⊆ recurse_intervals Alignment m group recursed intervals.
Proof.
  intros Hg Hr. unfold recurse_intervals. set (l := group_intervals m recursed).
  assert (Hl : forall i, i ∈ l -> known m i) by (intros i Hi; by exists recursed).
  clearbody l. revert intervals. induction l as [|i l IH]; intros intervals Hq; [done|]. cbn [fold_left].
  destruct (exclusive m (Interval_Align Alignment i) [recursed; group]) eqn:Ex.
  - destruct (IH ltac:(intros j Hj; apply Hl; by right) (add_interval iv_end (Interval_Align Alignment i) intervals)) as [H1 H2].
    { apply add_interval_ok; [by right|apply Hl; by left|apply Hproper, Hl; by left| |done]. eapply exclusive_safe; [done|exact Ex|].
      intros x [->|[->|Hx%elem_of_nil]%elem_of_cons]%elem_of_cons; done. }
    split; [done|]. etrans; [|exact H2]. apply (add_interval_grows iv_end _ found).
  - apply IH; [|done]. intros j Hj. apply Hl. by right.
Qed.

Lemma recurse_entries_ok group aligned q :
  group ∈ fst q -> query_ok m q ->
  let q' := recurse_entries Alignment m group aligned q in query_ok m q' /\ grows q q' /\ safe m (fst q') aligned.
Proof.
  intros Hg Hq. unfold recurse_entries.
  destruct (fold_query (fun '(found, intervals) e =>
    if overlaps aligned e && negb (en_group e =? group)%nat && negb (IsGroupInEntries (en_group e) found)
    then (found ++ [en_group e], recurse_intervals Alignment m group (en_group e) intervals)
    else (found, intervals)) (fun q => query_ok m q /\ group ∈ fst q) (fun e q => overlaps aligned e = true -> en_group e ∈ fst q) (walk_range aligned m) q)
    as ([H1 _] & H2 & H3).
  - intros [found intervals] e _ [Hok Hgr]. cbn [fst] in Hgr. destruct (overlaps aligned e) eqn:Eo; cbn [andb]; [|split; [done|split; [apply grows_refl|done]]].
    destruct (Nat.eqb_spec (en_group e) group) as [->|Hne]; cbn [andb negb]; [split; [done|split; [apply grows_refl|done]]|].
    destruct (IsGroupInEntries (en_group e) found) eqn:Ein; cbn [negb].
    + apply IsGroupInEntries_spec in Ein. split; [done|]. split; [apply grows_refl|done].
    + assert (Hsub : found ⊆ found ++ [en_group e]) by (intros x Hx; apply elem_of_app; by left).
      destruct (recurse_intervals_ok group (en_group e) (found ++ [en_group e]) intervals) as [Hr1 Hr2].
      { by apply Hsub. } { apply elem_of_app. right. by left. } { by eapply query_ok_more. }
      split; [split; [done|by apply Hsub]|]. split; [split; [done|done]|]. intros _. apply elem_of_app. right. by left.
  - intros e q1 q2 H [Hf _] Ho. apply Hf. by apply H.
  - done.
  - split; [done|]. split; [done|]. intros e He [Hlt Ho]. apply (H3 e); [by apply (walk_range_spec aligned m e Hsorted)|]. by apply Z.ltb_lt.
Qed.

Lemma visit_interval_ok exclusiveEntry e q i :
  known m i -> en_group e ∈ fst q -> query_ok m q ->
  let q' := visit_interval Alignment m exclusiveEntry e q i in
  query_ok m q' /\ grows q q' /\ (i = en_interval e -> Interval_Align Alignment i ∈ snd q').
Proof.
  intros Hi Hg Hq. pose proof (Hproper i Hi) as Hp. unfold visit_interval. destruct (exclusiveEntry || bool_decide (i = en_interval e)) eqn:Ec.
  - destruct (recurse_entries_ok (en_group e) (Interval_Align Alignment i) q Hg Hq) as (H1 & H2 & H3).
    destruct (recurse_entries Alignment m (en_group e) (Interval_Align Alignment i) q) as [found intervals]. cbn [fst] in H3.
    split; [apply add_interval_ok; [by left|done|done|done|done]|]. split; [eapply grows_trans; [exact H2|apply add_interval_grows]|].
    intros _. apply emplace_elem. by left.
  - apply orb_false_iff in Ec as [_ Ec]. apply bool_decide_eq_false in Ec. destruct q as [found intervals]. cbn [fst] in Hg.
    destruct (exclusive m (Interval_Align Alignment i) [en_group e]) eqn:Ex; [|split; [done|split; [apply grows_refl|done]]].
    split; [|split; [apply add_interval_grows|done]]. apply add_interval_ok; [by left|done|done| |done]. eapply exclusive_safe; [done|exact Ex|].
    intros x [->|Hx%elem_of_nil]%elem_of_cons; done.
Qed.

Hypothesis Hentries : forall e, e ∈ im_entries m -> en_interval e ∈ group_intervals m (en_group e).

(** An entry on the interval is among those covered. *)
Definition covered (i : Interval) (q : Query) : Prop :=
  exists e, e ∈ im_entries m /\ on_interval i e /\ Interval_Align Alignment (en_interval e) ∈ snd q.

Lemma covered_grows i q q' : covered i q -> grows q q' -> covered i q'.
Proof. intros (e & He & Ho & Hc) [_ Hs]. exists e. split; [done|]. split; [done|]. by apply Hs. Qed.

Lemma visit_entry_ok exclusiveEntry i q e :
  e ∈ walk_range i m -> query_ok m q /\ (fst q <> [] -> covered i q) ->
  let q' := visit_entry Alignment m exclusiveEntry i q e in
  (query_ok m q' /\ (fst q' <> [] -> covered i q')) /\ grows q q' /\ (overlaps i e = true -> en_group e ∈ fst q').
Proof.
  intros He [Hq Hc]. apply (walk_range_spec i m e Hsorted) in He as [He Hlt]. destruct q as [found intervals]. unfold visit_entry.
  destruct (overlaps i e) eqn:Eo; cbn [andb]; [|split; [done|split; [apply grows_refl|done]]].
  destruct (IsGroupInEntries (en_group e) found) eqn:Ein; cbn [negb].
  { apply IsGroupInEntries_spec in Ein. split; [done|]. split; [apply grows_refl|done]. }
  set (q1 := (found ++ [en_group e], intervals)).
  assert (Hsub : found ⊆ found ++ [en_group e]) by (intros x Hx; apply elem_of_app; by left).
  destruct (fold_query (visit_interval Alignment m exclusiveEntry e) (fun q => query_ok m q /\ en_group e ∈ fst q)
    (fun j q => j = en_interval e -> Interval_Align Alignment j ∈ snd q) (group_intervals m (en_group e)) q1) as ([H1 H1'] & H2 & H3).
  - intros q j Hj [Hok Hg]. destruct (visit_interval_ok exclusiveEntry e q j ltac:(by eexists) Hg Hok) as (A & B & C). split; [|done]. split; [done|]. by apply B.
  - intros j q q' H [_ Hs] Hj. apply Hs. by apply H.
  - split; [by eapply query_ok_more|]. apply elem_of_app. right. by left.
  - split; [split; [done|]|split; [|done]].
    + intros _. exists e. split; [done|]. split; [split; [done|by apply Z.ltb_lt]|]. apply H3; [by apply Hentries|done].
    + eapply grows_trans; [|exact H2]. split; [exact Hsub|done].
Qed.

Lemma coalesce_from_spec it l :
  chained (it :: l) -> Forall proper (it :: l) ->
  (forall a, (exists j, j ∈ coalesce_from it l /\ iv_start j <= a < iv_end j) <-> exists j, j ∈ it :: l /\ iv_start j <= a < iv_end j) /\
  (forall P : Z -> Prop, Forall (fun j => P (iv_start j) /\ P (iv_end j)) (it :: l) -> Forall (fun j => P (iv_start j) /\ P (iv_end j)) (coalesce_from it l)) /\
  Forall proper (coalesce_from it l).
Proof.
  revert it. induction l as [|next l IH]; intros it Hc Hp; [done|]. cbn [coalesce_from]. destruct Hc as [Hin Hc].
  inversion Hp as [|? ? Hp1 Hp2]; subst. inversion Hp2 as [|? ? Hp3 Hp4]; subst. unfold proper in Hp1, Hp3.
  destruct (Z.leb_spec (iv_start next) (iv_end it)) as [Hle|Hgt].
  - set (merged := mk_interval _ _). assert (Hms : iv_start merged = Z.min (iv_start it) (iv_start next)) by (subst merged; simpl; zcase; lia).
    assert (Hme : iv_end merged = Z.max (iv_end it) (iv_end next)) by (subst merged; simpl; zcase; lia).
    destruct (IH merged) as (H1 & H2 & H3).
    { destruct l as [|k l]; [done|]. destruct Hc as [Hk Hc]. split; [lia|done]. }
    { constructor; [unfold proper; lia|done]. }
    split; [|split; [|done]].
    + intros a. rewrite H1. split.
      * intros (j & [->|Hj]%elem_of_cons & Ha); [|exists j; split; [by do 2 right|done]].
        destruct (decide (iv_start it <= a < iv_end it)); [exists it; split; [by left|done]|]. exists next. split; [right; by left|lia].
      * intros (j & [->|[->|Hj]%elem_of_cons]%elem_of_cons & Ha); [exists merged; split; [by left|lia]..|]. exists j. split; [by right|done].
    + intros P HP. apply H2. inversion HP as [|? ? [] HP']; subst. inversion HP' as [|? ? [] HP'']; subst. constructor; [|done].
      subst merged. simpl. split; by zcase.
  - destruct (IH next Hc Hp2) as (H1 & H2 & H3). split; [|split; [|by constructor]].
    + intros a. split.
      * intros (j & [->|Hj]%elem_of_cons & Ha); [exists it; split; [by left|done]|]. destruct (proj1 (H1 a)) as (k & Hk & Hka); [by exists j|]. exists k. split; [by right|done].
      * intros (j & [->|Hj]%elem_of_cons & Ha); [exists it; split; [by left|done]|]. destruct (proj2 (H1 a)) as (k & Hk & Hka); [by exists j|]. exists k. split; [by right|done].
    + intros P HP. inversion HP as [|? ? HP1 HP']; subst. constructor; [done|]. by apply H2.
Qed.

(** The intervals found are unions of aligned intervals on which every entry belongs to a group that
    was found; every entry on the interval looked up is found, and one of those is covered. *)
Lemma GetAlignedRecursiveRange_ok i0 :
  let i := Interval_Align Alignment i0 in
  let '(found, intervals) := GetAlignedRecursiveRange Alignment m i0 in
  exists pieces, query_ok m (found, pieces) /\ safe m found i /\ (found <> [] -> covered i (found, pieces)) /\
    (forall a, (exists j, j ∈ intervals /\ iv_start j <= a < iv_end j) <-> exists j, j ∈ pieces /\ iv_start j <= a < iv_end j) /\
    (forall P : Z -> Prop, Forall (fun j => P (iv_start j) /\ P (iv_end j)) pieces -> Forall (fun j => P (iv_start j) /\ P (iv_end j)) intervals) /\
    Forall proper intervals.
Proof.
  intros i. unfold GetAlignedRecursiveRange. fold i. set (x := _ || _).
  destruct (fold_query (visit_entry Alignment m x i) (fun q => query_ok m q /\ (fst q <> [] -> covered i q))
    (fun e q => overlaps i e = true -> en_group e ∈ fst q) (walk_range i m) ([], [])) as ([H1 H2] & _ & H3).
  - intros q e He Hq. by apply visit_entry_ok.
  - intros e q q' H [Hf _] Ho. apply Hf. by apply H.
  - split; [|done]. split; cbn [fst snd]; constructor || done.
  - destruct (fold_left (visit_entry Alignment m x i) (walk_range i m) ([], [])) as [found pieces]. cbn [fst snd] in *. exists pieces.
    split; [done|]. split; [|split; [done|]].
    + intros e He [Hlt Ho]. apply (H3 e); [by apply (walk_range_spec i m e Hsorted)|]. by apply Z.ltb_lt.
    + destruct H1 as [_ Hp _ Hc]. cbn [snd] in *. destruct pieces as [|p pieces]; [done|]. by apply coalesce_from_spec.
Qed.
End range.
End lookups.
