(* ===== verification/Traps.v ===== *)
(** * Traps on guest memory ([nce.h], [nce.cpp] from [ReprotectIntervals] on)

    Parts of the emulator that cache guest memory, such as textures, ask to be called before the
    guest reads or writes it.  A trap is a group of intervals in the [IntervalMap] with the
    protection it needs; the pages under it are protected on the host so that an access faults, and
    the fault handler calls the traps back and lifts the protection.  What is proved is that no
    access a trap needs to see gets past it. *)

From S2P Require Import Prelude Common IntervalMap.

Inductive TrapProtection : Type := TrapNone | TrapWriteOnly | TrapReadWrite.

#[global] Instance TrapProtection_eq_dec : EqDecision TrapProtection.
Proof. solve_decision. Defined.

Definition protection_level (p : TrapProtection) : Z := match p with TrapNone => 0 | TrapWriteOnly => 1 | TrapReadWrite => 2 end.

(** The value of a group is its protection; its two callbacks are named by the group. *)
Definition TrapMap : Type := @IntervalMap TrapProtection.

(** [nce_pages] gives the protection of each page of the host, [nce_freed] the memory paged out and
    [nce_calls] the callbacks made, with whether it was the one for writes. *)
Record Nce : Type := mk_nce {
  nce_trapMap : TrapMap;
  nce_pages : Z -> Z;
  nce_freed : list span;
  nce_calls : list (nat * bool) }.

Definition PROT_NONE : Z := 0.
Definition PROT_READ : Z := 1.
Definition PROT_WRITE : Z := 2.
Definition PROT_EXEC : Z := 4.

(** The protection of the pages that the bytes from a page boundary on touch. *)
Definition mprotect (start size prot : Z) (pages : Z -> Z) : Z -> Z :=
  if negb (start mod PAGE_SIZE =? 0) then pages
  else fun k => if (start / PAGE_SIZE <=? k) && (k <? start / PAGE_SIZE + DivideCeil size PAGE_SIZE) then prot else pages k.

Definition set_pages (f : (Z -> Z) -> Z -> Z) (n : Nce) : Nce := mk_nce (nce_trapMap n) (f (nce_pages n)) (nce_freed n) (nce_calls n).

Definition protection_of (m : TrapMap) (g : nat) : TrapProtection := match im_groups m !! g with Some group => eg_value group | None => TrapNone end.

Definition set_protection (g : nat) (p : TrapProtection) (m : TrapMap) : TrapMap :=
  mk_interval_map (alter (fun group => mk_group (eg_intervals group) p) g (im_groups m)) (im_entries m) (im_next m).

(** ** Reprotecting *)

(** The loop over the entries of a region, which leaves at the first that needs everything trapped. *)
Fixpoint lowest_protection (m : TrapMap) (entries : list nat) (lowest : TrapProtection) : Z :=
  match entries with
  | [] => match lowest with TrapNone => Z.lor (Z.lor PROT_READ PROT_WRITE) PROT_EXEC | TrapWriteOnly => Z.lor PROT_READ PROT_EXEC | TrapReadWrite => PROT_NONE end
  | g :: entries =>
      let p := protection_of m g in
      if protection_level lowest <? protection_level p then
        if bool_decide (p = TrapReadWrite) then PROT_NONE else lowest_protection m entries p
      else lowest_protection m entries lowest
  end.

Definition region_protection (m : TrapMap) (protection : TrapProtection) (region : Interval) : Z :=
  match protection with
  | TrapNone => lowest_protection m (GetRange region m) TrapNone
  | TrapWriteOnly =>
      if existsb (fun g => bool_decide (protection_of m g = TrapReadWrite)) (GetRange region m) then PROT_NONE else Z.lor PROT_READ PROT_EXEC
  | TrapReadWrite => PROT_NONE
  end.

Definition reprotect_region (m : TrapMap) (protection : TrapProtection) (pages : Z -> Z) (i : Interval) : Z -> Z :=
  let region := Interval_Align PAGE_SIZE i in
  mprotect (iv_start region) (Interval_Size region) (region_protection m protection region) pages.

(** What of an interval is paged out: the pages inside, if there is more than one. *)
Definition pageout (i : Interval) : list span :=
  let freeStart := AlignUp (iv_start i) PAGE_SIZE in
  let freeSize := i64 (AlignDown (iv_end i) PAGE_SIZE - freeStart) in
  if PAGE_SIZE <? freeSize then [mk_span freeStart freeSize] else [].

Definition ReprotectIntervals (intervals : list Interval) (protection : TrapProtection) (n : Nce) : Nce :=
  let pages := fold_left (reprotect_region (nce_trapMap n) protection) intervals (nce_pages n) in
  let freed := if bool_decide (protection = TrapReadWrite) then concat (map pageout intervals) else [] in
  mk_nce (nce_trapMap n) pages (nce_freed n ++ freed) (nce_calls n).

(** ** Faults *)

(** The callbacks of a write: every group that is protected is called and needs no protection any more. *)
Definition write_callback (n : Nce) (g : nat) : Nce :=
  if bool_decide (protection_of (nce_trapMap n) g = TrapNone) then n
  else mk_nce (set_protection g TrapNone (nce_trapMap n)) (nce_pages n) (nce_freed n) (nce_calls n ++ [(g, true)]).

(** The callbacks of a read, with the flag [allNone]. *)
Definition read_callback (s : Nce * bool) (g : nat) : Nce * bool :=
  let '(n, allNone) := s in
  let p := protection_of (nce_trapMap n) g in
  if protection_level p <? protection_level TrapReadWrite then (n, allNone && bool_decide (p = TrapNone))
  else (mk_nce (set_protection g TrapWriteOnly (nce_trapMap n)) (nce_pages n) (nce_freed n) (nce_calls n ++ [(g, false)]), allNone).

Definition TrapHandler (address : Z) (write : bool) (n : Nce) : Nce * bool :=
  let '(entries, intervals) := GetAlignedRecursiveRange_address PAGE_SIZE (nce_trapMap n) address in
  match entries with
  | [] => (n, false)
  | _ =>
      let '(n, write) := if write then (fold_left write_callback entries n, true) else fold_left read_callback entries (n, true) in
      let permission := Z.lor (Z.lor PROT_READ (if write then PROT_WRITE else 0)) PROT_EXEC in
      (set_pages (fun pages => fold_left (fun pages i => mprotect (iv_start i) (Interval_Size i) permission pages) intervals pages) n, true)
  end.

(** ** Managing traps *)

Definition trap_protection (writeOnly : bool) : TrapProtection := if writeOnly then TrapWriteOnly else TrapReadWrite.

Definition set_trapMap (m : TrapMap) (n : Nce) : Nce := mk_nce m (nce_pages n) (nce_freed n) (nce_calls n).

Definition TrapRegions (regions : list span) (writeOnly : bool) (n : Nce) : Nce * nat :=
  let protection := trap_protection writeOnly in
  let '(m, handle) := Insert regions protection (nce_trapMap n) in
  (ReprotectIntervals (group_intervals m handle) protection (set_trapMap m n), handle).

Definition RetrapRegions (handle : nat) (writeOnly : bool) (n : Nce) : Nce :=
  let protection := trap_protection writeOnly in
  ReprotectIntervals (group_intervals (nce_trapMap n) handle) protection (set_trapMap (set_protection handle protection (nce_trapMap n)) n).

Definition RemoveTrap (handle : nat) (n : Nce) : Nce :=
  ReprotectIntervals (group_intervals (nce_trapMap n) handle) TrapNone (set_trapMap (set_protection handle TrapNone (nce_trapMap n)) n).

Definition DeleteTrap (handle : nat) (n : Nce) : Nce :=
  let n := RemoveTrap handle n in set_trapMap (Remove handle (nce_trapMap n)) n.

(** ** Pages *)

Definition page (k : Z) : Interval := mk_interval (k * PAGE_SIZE) ((k + 1) * PAGE_SIZE).

(** Intervals of user memory. *)
Definition valid (i : Interval) : Prop := 0 <= iv_start i /\ iv_start i <= iv_end i /\ iv_end i < 2 ^ 63.

Definition first_page (i : Interval) : Z := iv_start i / PAGE_SIZE.
Definition last_page (i : Interval) : Z := DivideCeil (iv_end i) PAGE_SIZE.

Lemma align_valid i : valid i -> Interval_Align PAGE_SIZE i = mk_interval (first_page i * PAGE_SIZE) (last_page i * PAGE_SIZE).
Proof.
  intros (H0 & H1 & H2). unfold Interval_Align, first_page, last_page, DivideCeil. change PAGE_SIZE with (2 ^ 12).
  rewrite AlignDown_spec, AlignUp_spec by lia. change (2 ^ 12) with 4096.
  pose proof (Z.div_mod (iv_start i) 4096). pose proof (Z.div_mod (iv_end i + 4096 - 1) 4096). f_equal; lia.
Qed.

Lemma pages_order i : valid i -> 0 <= first_page i <= last_page i /\ last_page i * PAGE_SIZE < 2 ^ 63 + 4096.
Proof.
  intros (H0 & H1 & H2). unfold first_page, last_page, DivideCeil, PAGE_SIZE. pose proof (Z.div_pos (iv_start i) 4096).
  pose proof (Z.div_le_mono (iv_start i) (iv_end i + 4096 - 1) 4096). pose proof (Z.mul_div_le (iv_end i + 4096 - 1) 4096). lia.
Qed.

Lemma align_proper i : valid i -> proper (Interval_Align PAGE_SIZE i).
Proof. intros Hv. rewrite align_valid by done. pose proof (pages_order i Hv). unfold proper, PAGE_SIZE in *. simpl. lia. Qed.

(** An entry lies on a page if the page is one of its interval's. *)
Lemma on_page k e : on_interval (page k) e <-> first_page (en_interval e) <= k < last_page (en_interval e).
Proof.
  unfold on_interval, page, first_page, last_page, DivideCeil, en_start, en_end, PAGE_SIZE. cbn [iv_start iv_end].
  pose proof (Z.div_mod (iv_start (en_interval e)) 4096 ltac:(lia)). pose proof (Z.mod_pos_bound (iv_start (en_interval e)) 4096 ltac:(lia)).
  pose proof (Z.div_mod (iv_end (en_interval e) + 4096 - 1) 4096 ltac:(lia)). pose proof (Z.mod_pos_bound (iv_end (en_interval e) + 4096 - 1) 4096 ltac:(lia)). lia.
Qed.

Lemma mprotect_pages a b prot pages k : 0 <= a <= b -> b * PAGE_SIZE < 2 ^ 64 ->
  mprotect (a * PAGE_SIZE) (Interval_Size (mk_interval (a * PAGE_SIZE) (b * PAGE_SIZE))) prot pages k = if (a <=? k) && (k <? b) then prot else pages k.
Proof.
  intros Ha Hb. unfold mprotect, Interval_Size, PAGE_SIZE in *. cbn [iv_start iv_end]. rewrite Z.mod_mul, Z.div_mul by lia. cbn [Z.eqb negb].
  rewrite wrap_small by lia. unfold DivideCeil. replace (b * 4096 - a * 4096 + 4096 - 1) with (4095 + (b - a) * 4096) by lia. rewrite Z.div_add by lia.
  change (4095 / 4096) with 0. by replace (a + (0 + (b - a))) with b by lia.
Qed.

(** ** What the pages must trap *)

Section soundness.

(** Whether the traps that only need to see writes are considered. *)
Context (writes : bool).

Definition allows (prot : Z) (p : TrapProtection) : Prop :=
  match p with
  | TrapNone => True
  | TrapWriteOnly => writes = true -> bit prot 1 = false
  | TrapReadWrite => prot = PROT_NONE
  end.

Definition adequate (m : TrapMap) (prot k : Z) : Prop :=
  forall e, e ∈ im_entries m -> on_interval (page k) e -> allows prot (protection_of m (en_group e)).

Record map_ok (m : TrapMap) : Prop := mk_map_ok {
  mo_sorted : sorted (im_entries m);
  mo_entries : forall e, e ∈ im_entries m -> en_interval e ∈ group_intervals m (en_group e);
  mo_valid : forall g i, i ∈ group_intervals m g -> valid i;
  mo_fresh : forall g, is_Some (im_groups m !! g) -> (g < im_next m)%nat }.

Record trap_ok (n : Nce) : Prop := mk_trap_ok {
  to_map : map_ok (nce_trapMap n);
  to_pages : forall k, adequate (nce_trapMap n) (nce_pages n k) k }.

Lemma lowest_protection_allows m entries lowest :
  allows (lowest_protection m entries lowest) lowest /\ forall g, g ∈ entries -> allows (lowest_protection m entries lowest) (protection_of m g).
Proof.
  assert (Hmono : forall prot p p', protection_level p <= protection_level p' -> allows prot p' -> allows prot p).
  { intros prot [] []; simpl; try done; try lia. by intros _ ->. }
  revert lowest. induction entries as [|g entries IH]; intros lowest; cbn [lowest_protection].
  { split; [by destruct lowest|]. intros g Hg. by apply elem_of_nil in Hg. }
  destruct (Z.ltb_spec (protection_level lowest) (protection_level (protection_of m g))) as [Hlt|Hge].
  - case_bool_decide as E.
    + split; [by destruct lowest|]. intros g' _. by destruct (protection_of m g').
    + destruct (IH (protection_of m g)) as [H1 H2]. split; [eapply Hmono; [|exact H1]; lia|]. intros g' [->|Hg]%elem_of_cons; [done|by apply H2].
  - destruct (IH lowest) as [H1 H2]. split; [done|]. intros g' [->|Hg]%elem_of_cons; [|by apply H2]. eapply Hmono; [|exact H1]. lia.
Qed.

Lemma region_protection_allows m p region e : sorted (im_entries m) -> e ∈ im_entries m -> on_interval region e ->
  allows (region_protection m p region) (protection_of m (en_group e)).
Proof.
  intros Hs He Ho. assert (Hin : en_group e ∈ GetRange region m) by (apply GetRange_spec; [done|]; by exists e).
  destruct p; cbn [region_protection].
  - by apply lowest_protection_allows.
  - destruct (existsb _ _) eqn:Ex; [by destruct (protection_of m (en_group e))|].
    destruct (protection_of m (en_group e)) eqn:E; [done|done|]. exfalso. rewrite <- not_true_iff_false in Ex. apply Ex, existsb_exists.
    exists (en_group e). split; [by apply list_elem_of_In|]. by rewrite bool_decide_eq_true.
  - by destruct (protection_of m (en_group e)).
Qed.

(** Reprotecting a region: its pages get a protection that every entry on them allows. *)
Lemma reprotect_region_pages m p pages i k : valid i ->
  reprotect_region m p pages i k =
    if (first_page i <=? k) && (k <? last_page i) then region_protection m p (Interval_Align PAGE_SIZE i) else pages k.
Proof.
  intros Hv. pose proof (pages_order i Hv) as [Ho Hl]. unfold reprotect_region. rewrite align_valid by done. cbn [iv_start]. apply mprotect_pages; [lia|].
  unfold PAGE_SIZE in *. lia.
Qed.

Lemma page_in_align i k e : valid i -> first_page i <= k < last_page i -> on_interval (page k) e -> on_interval (Interval_Align PAGE_SIZE i) e.
Proof. intros Hv Hk [H1 H2]. rewrite align_valid by done. unfold on_interval, page, PAGE_SIZE in *. cbn [iv_start iv_end] in *. lia. Qed.

Lemma reprotect_adequate m p intervals pages :
  sorted (im_entries m) -> Forall valid intervals ->
  (forall k, (forall i, i ∈ intervals -> ~ first_page i <= k < last_page i) -> adequate m (pages k) k) ->
  forall k, adequate m (fold_left (reprotect_region m p) intervals pages k) k.
Proof.
  intros Hs. revert pages. induction intervals as [|i l IH]; intros pages Hv Hp; cbn [fold_left]; [intros k; apply Hp; intros i Hi; by apply elem_of_nil in Hi|].
  inversion Hv as [|? ? Hvi Hvl]; subst. apply IH; [done|]. intros k Hk e He Ho. rewrite reprotect_region_pages by done.
  destruct (Z.leb_spec (first_page i) k), (Z.ltb_spec k (last_page i)); cbn [andb].
  1: { apply region_protection_allows; [done|done|]. by apply (page_in_align i k). }
  all: apply (Hp k); [|done|done]; intros j [->|Hj]%elem_of_cons; [lia|by apply Hk].
Qed.

(** ** The operations keep the invariant *)

Lemma group_intervals_set m g p g' : group_intervals (set_protection g p m) g' = group_intervals m g'.
Proof.
  unfold group_intervals, set_protection. cbn [im_groups]. destruct (decide (g = g')) as [->|Hne].
  - rewrite lookup_alter_eq. by destruct (im_groups m !! g').
  - by rewrite lookup_alter_ne.
Qed.

Lemma protection_of_set m g p g' : protection_of (set_protection g p m) g' = if decide (g = g' /\ is_Some (im_groups m !! g')) then p else protection_of m g'.
Proof.
  unfold protection_of, set_protection. cbn [im_groups]. destruct (decide (g = g')) as [->|Hne].
  - rewrite lookup_alter_eq. destruct (im_groups m !! g') as [x|] eqn:E.
    + rewrite decide_True; [done|]. split; [done|by eexists].
    + rewrite decide_False; [done|]. intros [_ [y Hy]]. done.
  - rewrite lookup_alter_ne, decide_False by naive_solver. done.
Qed.

Lemma set_protection_ok m g p : map_ok m -> map_ok (set_protection g p m).
Proof.
  intros [H1 H2 H3 H4]. split; [done| | |].
  - intros e He. rewrite group_intervals_set. by apply H2.
  - intros g' i. rewrite group_intervals_set. apply H3.
  - intros g' [x Hx]. apply H4. unfold set_protection in Hx. cbn [im_groups] in Hx. destruct (decide (g = g')) as [->|Hne].
    + rewrite lookup_alter_eq in Hx. destruct (im_groups m !! g'); [by eexists|done].
    + rewrite lookup_alter_ne in Hx by done. by eexists.
Qed.

Lemma place_spec group regions entries :
  sorted entries -> sorted (fold_left (place group) regions entries) /\
  forall e, e ∈ fold_left (place group) regions entries <-> e ∈ entries \/ exists r, r ∈ regions /\ e = mk_entry (region_interval r) group.
Proof.
  revert entries. induction regions as [|r l IH]; intros entries Hs; cbn [fold_left].
  { split; [done|]. intros e. split; [by left|]. intros [|(r & Hr & _)]; [done|by apply elem_of_nil in Hr]. }
  destruct (IH (place group entries r)) as [H1 H2].
  { exact (sorted_emplace entries (mk_entry (region_interval r) group) Hs). }
  split; [done|]. intros e. rewrite H2. unfold place at 1. rewrite emplace_elem. split.
  - intros [[->|He]|(r' & Hr & ->)]; [right; exists r; split; [by left|done]|by left|]. right. exists r'. split; [by right|done].
  - intros [He|(r' & [->|Hr]%elem_of_cons & ->)]; [by left; right|left; by left|]. right. by exists r'.
Qed.

Definition valid_region (r : span) : Prop := 0 <= sp_data r /\ 0 <= sp_size r /\ sp_data r + sp_size r < 2 ^ 63.

Lemma region_valid r : valid_region r -> valid (region_interval r).
Proof. intros (H0 & H1 & H2). unfold valid, region_interval. cbn [iv_start iv_end]. rewrite wrap_small by lia. lia. Qed.

Lemma Insert_ok regions p m m' g :
  map_ok m -> Forall valid_region regions -> Insert regions p m = (m', g) ->
  map_ok m' /\ group_intervals m' g = map region_interval regions /\
  (forall e, e ∈ im_entries m' -> e ∈ im_entries m /\ en_group e <> g \/ en_group e = g /\ en_interval e ∈ map region_interval regions) /\
  forall g', g' <> g -> protection_of m' g' = protection_of m g'.
Proof.
  intros [H1 H2 H3 H4] Hr HI. unfold Insert in HI. injection HI as <- <-. set (g := im_next m).
  destruct (place_spec g regions (im_entries m) H1) as [Hs Hin]. rewrite Forall_forall in Hr.
  assert (Hlt : forall e, e ∈ im_entries m -> en_group e <> g).
  { intros e He E. pose proof (H2 e He) as Hi. unfold group_intervals in Hi. destruct (im_groups m !! en_group e) as [x|] eqn:Ex; [|by apply elem_of_nil in Hi].
    pose proof (H4 (en_group e) ltac:(by eexists)). unfold g in E. lia. }
  assert (Hgi : forall g', g' <> g -> group_intervals (mk_interval_map (<[g := mk_group (map region_interval regions) p]> (im_groups m)) (fold_left (place g) regions (im_entries m)) (S g)) g' = group_intervals m g').
  { intros g' Hne. unfold group_intervals. cbn [im_groups]. by rewrite lookup_insert_ne. }
  assert (Hgg : group_intervals (mk_interval_map (<[g := mk_group (map region_interval regions) p]> (im_groups m)) (fold_left (place g) regions (im_entries m)) (S g)) g = map region_interval regions).
  { unfold group_intervals. cbn [im_groups]. by rewrite lookup_insert_eq. }
  split; [split|split; [done|split]]; cbn [im_entries im_groups im_next].
  - done.
  - intros e He. apply Hin in He as [He|(r & Hr' & ->)]; [rewrite Hgi by (by apply Hlt); by apply H2|]. cbn [en_group en_interval]. rewrite Hgg.
    by apply list_elem_of_fmap_2.
  - intros g' i Hi. destruct (decide (g' = g)) as [->|Hne]; [|rewrite Hgi in Hi by done; by eapply H3]. rewrite Hgg in Hi.
    apply list_elem_of_fmap in Hi as (r & -> & Hr'). by apply region_valid, Hr.
  - intros g' [x Hx]. destruct (decide (g' = g)) as [->|Hne]; [lia|]. rewrite lookup_insert_ne in Hx by done. pose proof (H4 g' ltac:(by eexists)). unfold g. lia.
  - intros e He. apply Hin in He as [He|(r & Hr' & ->)]; [left; split; [done|by apply Hlt]|]. right. split; [done|]. cbn [en_interval]. by apply list_elem_of_fmap_2.
  - intros g' Hne. unfold protection_of. cbn [im_groups]. by rewrite lookup_insert_ne.
Qed.

Lemma TrapRegions_ok regions writeOnly n n' g : trap_ok n -> Forall valid_region regions -> TrapRegions regions writeOnly n = (n', g) -> trap_ok n'.
Proof.
  intros [Hm Hp] Hr HT. unfold TrapRegions in HT. destruct (Insert regions (trap_protection writeOnly) (nce_trapMap n)) as [m h] eqn:EI. injection HT as <- <-.
  destruct (Insert_ok _ _ _ _ _ Hm Hr EI) as (Hm' & Hg & Hin & Hprot). split; [done|]. cbn [ReprotectIntervals nce_trapMap nce_pages set_trapMap].
  apply reprotect_adequate; [apply Hm'|rewrite Forall_forall; intros i Hi; by eapply (mo_valid m Hm')|].
  intros k Hk e He Ho. destruct (Hin e He) as [[He' Hne]|[Eg Ei]].
  - rewrite Hprot by done. by apply (Hp k e).
  - exfalso. rewrite <- Hg in Ei. apply (Hk _ Ei). by apply on_page.
Qed.

(** Changing the protection of a group and reprotecting its intervals. *)
Lemma retrap_ok handle p n : trap_ok n ->
  trap_ok (ReprotectIntervals (group_intervals (nce_trapMap n) handle) p (set_trapMap (set_protection handle p (nce_trapMap n)) n)).
Proof.
  intros [Hm Hp]. pose proof (set_protection_ok (nce_trapMap n) handle p Hm) as Hm'. split; [done|].
  cbn [ReprotectIntervals nce_trapMap nce_pages set_trapMap].
  apply reprotect_adequate; [apply Hm'|rewrite Forall_forall; intros i Hi; by eapply (mo_valid _ Hm)|].
  intros k Hk e He Ho. rewrite protection_of_set. destruct (decide _) as [[-> _]|_]; [|by apply (Hp k e)].
  exfalso. apply (Hk (en_interval e)); [by apply (mo_entries _ Hm)|by apply on_page].
Qed.

Lemma DeleteTrap_ok handle n : trap_ok n -> trap_ok (DeleteTrap handle n).
Proof.
  intros Hok. unfold DeleteTrap, RemoveTrap. apply (retrap_ok handle TrapNone) in Hok.
  set (n1 := ReprotectIntervals _ _ _) in *. clearbody n1. destruct Hok as [[H1 H2 H3 H4] Hp].
  assert (Hgi : forall g, g <> handle -> group_intervals (Remove handle (nce_trapMap n1)) g = group_intervals (nce_trapMap n1) g).
  { intros g Hne. unfold group_intervals, Remove. cbn [im_groups]. by rewrite lookup_delete_ne. }
  assert (Hin : forall e, e ∈ im_entries (Remove handle (nce_trapMap n1)) -> en_group e <> handle /\ e ∈ im_entries (nce_trapMap n1)).
  { intros e He. by apply list_elem_of_filter in He. }
  split; [split|]; cbn [set_trapMap nce_trapMap nce_pages].
  - by apply sorted_filter.
  - intros e He. apply Hin in He as [Hne He]. rewrite Hgi by done. by apply H2.
  - intros g i Hi. destruct (decide (g = handle)) as [->|Hne]; [|rewrite Hgi in Hi by done; by eapply H3].
    unfold group_intervals, Remove in Hi. cbn [im_groups] in Hi. rewrite lookup_delete_eq in Hi. by apply elem_of_nil in Hi.
  - intros g [x Hx]. unfold Remove in Hx. cbn [im_groups] in Hx. apply lookup_delete_Some in Hx as [_ Hx]. apply H4. by eexists.
  - intros k e He Ho. apply Hin in He as [Hne He]. assert (E : protection_of (Remove handle (nce_trapMap n1)) (en_group e) = protection_of (nce_trapMap n1) (en_group e)).
    { unfold protection_of, Remove. cbn [im_groups]. by rewrite lookup_delete_ne. }
    rewrite E. by apply (Hp k e).
Qed.

(** ** Faults keep the invariant *)

Definition covers_page (intervals : list Interval) (k : Z) : bool :=
  existsb (fun i => (iv_start i <=? k * PAGE_SIZE) && (k * PAGE_SIZE <? iv_end i)) intervals.

Lemma covers_page_spec intervals k : covers_page intervals k = true <-> exists i, i ∈ intervals /\ iv_start i <= k * PAGE_SIZE < iv_end i.
Proof.
  unfold covers_page. rewrite existsb_exists. split.
  - intros (i & Hi & H). apply andb_true_iff in H as [H1%Z.leb_le H2%Z.ltb_lt]. exists i. split; [by apply list_elem_of_In|done].
  - intros (i & Hi & H1 & H2). exists i. split; [by apply list_elem_of_In|]. apply andb_true_iff. split; [by apply Z.leb_le|by apply Z.ltb_lt].
Qed.

(** The end points of the intervals of a query. *)
Definition page_bound (a : Z) : Prop := exists k, 0 <= k /\ a = k * PAGE_SIZE /\ a < 2 ^ 64.

Lemma mprotect_intervals intervals prot pages k :
  Forall (fun i => page_bound (iv_start i) /\ page_bound (iv_end i)) intervals -> Forall proper intervals ->
  fold_left (fun pages i => mprotect (iv_start i) (Interval_Size i) prot pages) intervals pages k = if covers_page intervals k then prot else pages k.
Proof.
  revert pages. induction intervals as [|[s e] l IH]; intros pages Hb Hp; [done|]. cbn [fold_left].
  inversion Hb as [|? ? [(a & Ha0 & Ha & _) (b & Hb0 & Hbe & Hb')] Hbl]; subst. inversion Hp as [|? ? Hp1 Hpl]; subst. cbn [iv_start iv_end] in *. subst s e.
  rewrite IH by done. unfold proper, PAGE_SIZE in *. cbn [iv_start iv_end] in *.
  rewrite mprotect_pages by (unfold PAGE_SIZE; lia). unfold covers_page, PAGE_SIZE. cbn [existsb iv_start iv_end].
  replace (a * 4096 <=? k * 4096) with (a <=? k) by (repeat zcase; lia || done). replace (k * 4096 <? b * 4096) with (k <? b) by (repeat zcase; lia || done).
  destruct ((a <=? k) && (k <? b)), (existsb _ l); done.
Qed.

Lemma handler_range m address found intervals :
  map_ok m -> 0 <= address -> address + 1 < 2 ^ 63 -> GetAlignedRecursiveRange_address PAGE_SIZE m address = (found, intervals) ->
  Forall (fun i => page_bound (iv_start i) /\ page_bound (iv_end i)) intervals /\ Forall proper intervals /\
  (forall k e, covers_page intervals k = true -> e ∈ im_entries m -> on_interval (page k) e -> en_group e ∈ found) /\
  (forall e, e ∈ im_entries m -> on_interval (page (address / PAGE_SIZE)) e -> en_group e ∈ found) /\
  (found <> [] -> covers_page intervals (address / PAGE_SIZE) = true /\ exists e, e ∈ im_entries m /\ on_interval (page (address / PAGE_SIZE)) e).
Proof.
  intros [H1 H2 H3 H4] Ha0 Ha Hr. unfold GetAlignedRecursiveRange_address in Hr.
  assert (Hk : forall i, known m i -> valid i) by (intros i [g Hg]; by eapply H3).
  assert (Hpage : Interval_Align PAGE_SIZE (mk_interval address (u64 (address + 1))) = page (address / PAGE_SIZE)).
  { rewrite wrap_small by lia. rewrite align_valid by (unfold valid; simpl; lia). unfold first_page, last_page, page, DivideCeil, PAGE_SIZE. cbn [iv_start iv_end].
    replace (address + 1 + 4096 - 1) with (address + 1 * 4096) by lia. by rewrite Z.div_add by lia. }
  pose proof (GetAlignedRecursiveRange_ok PAGE_SIZE m H1 (fun i Hi => align_proper i (Hk i Hi)) H2 (mk_interval address (u64 (address + 1)))) as Hok.
  rewrite Hr, Hpage in Hok. destruct Hok as (pieces & [Hs _ Hal _] & Hsafe & Hcov & Hunion & HP & Hp). cbn [fst snd] in *.
  assert (Hpiece : forall j, j ∈ pieces -> exists i, valid i /\ j = mk_interval (first_page i * PAGE_SIZE) (last_page i * PAGE_SIZE)).
  { intros j Hj. rewrite Forall_forall in Hal. destruct (Hal j Hj) as (i & Hi & ->). exists i. split; [by apply Hk|]. apply align_valid. by apply Hk. }
  split; [|split; [done|split; [|split; [done|]]]].
  - apply HP. apply Forall_forall. intros j Hj. destruct (Hpiece j Hj) as (i & Hi & ->). pose proof (pages_order i Hi). unfold page_bound, PAGE_SIZE in *. cbn [iv_start iv_end].
    split; eexists; (split; [|split; [done|]]); lia.
  - intros k e Hc He Ho. apply covers_page_spec, Hunion in Hc as (j & Hj & Hjk). rewrite Forall_forall in Hs. apply (Hs j Hj e He).
    destruct (Hpiece j Hj) as (i & Hi & ->). unfold on_interval, page, PAGE_SIZE in *. cbn [iv_start iv_end] in *. lia.
  - intros Hne. destruct (Hcov Hne) as (e & He & Ho & Hin). cbn [snd] in Hin. split; [|by exists e]. apply covers_page_spec, Hunion. eexists. split; [exact Hin|].
    pose proof (H3 _ _ (H2 e He)) as Hv. rewrite align_valid by done. apply on_page in Ho. unfold PAGE_SIZE in *. cbn [iv_start iv_end]. lia.
Qed.

(** What the callbacks of a fault change. *)
Lemma write_callbacks found n : map_ok (nce_trapMap n) ->
  let n' := fold_left write_callback found n in
  map_ok (nce_trapMap n') /\ im_entries (nce_trapMap n') = im_entries (nce_trapMap n) /\ nce_pages n' = nce_pages n /\
  forall g, protection_of (nce_trapMap n') g = if decide (g ∈ found) then TrapNone else protection_of (nce_trapMap n) g.
Proof.
  revert n. induction found as [|h found IH]; intros n Hm; cbn [fold_left]; [done|].
  assert (Hstep : map_ok (nce_trapMap (write_callback n h)) /\ im_entries (nce_trapMap (write_callback n h)) = im_entries (nce_trapMap n) /\
    nce_pages (write_callback n h) = nce_pages n /\
    forall g, protection_of (nce_trapMap (write_callback n h)) g = if decide (g = h) then TrapNone else protection_of (nce_trapMap n) g).
  { unfold write_callback. case_bool_decide as E.
    - do 3 (split; [done|]). intros g. by destruct (decide (g = h)) as [->|].
    - split; [by apply set_protection_ok|]. do 2 (split; [done|]). intros g. cbn [nce_trapMap]. rewrite protection_of_set.
      destruct (decide (g = h)) as [->|]; destruct (decide _) as [[? Hg]|Hg]; try congruence. unfold protection_of.
      destruct (im_groups (nce_trapMap n) !! h) eqn:El; [|done]. exfalso. apply Hg. split; [done|by eexists]. }
  destruct Hstep as (A & B & C & D). destruct (IH _ A) as (A' & B' & C' & D'). split; [done|]. split; [congruence|]. split; [congruence|].
  intros g. rewrite D', D. destruct (decide (g = h)) as [->|].
  - rewrite (decide_True _ _ (P := h ∈ h :: found)) by (by left). by destruct (decide _).
  - destruct (decide (g ∈ found)) as [Hin|Hin]; [rewrite decide_True by (by right); done|]. rewrite decide_False; [done|]. by intros [->|?]%elem_of_cons.
Qed.

(** A read leaves no group that was found with everything trapped, and the flag is only kept if no
    group needed its writes trapped before. *)
Lemma read_callbacks found n allNone : map_ok (nce_trapMap n) ->
  let '(n', allNone') := fold_left read_callback found (n, allNone) in
  map_ok (nce_trapMap n') /\ im_entries (nce_trapMap n') = im_entries (nce_trapMap n) /\ nce_pages n' = nce_pages n /\
  (forall g, protection_of (nce_trapMap n') g =
     if decide (g ∈ found /\ protection_of (nce_trapMap n) g = TrapReadWrite) then TrapWriteOnly else protection_of (nce_trapMap n) g) /\
  (allNone' = true -> forall g, g ∈ found -> protection_of (nce_trapMap n) g <> TrapWriteOnly).
Proof.
  revert n allNone. induction found as [|h found IH]; intros n allNone Hm; cbn [fold_left].
  { do 3 (split; [done|]). split; [|intros _ g Hg; by apply elem_of_nil in Hg]. intros g. rewrite decide_False; [done|]. by intros [Hg%elem_of_nil _]. }
  cbn [read_callback]. destruct (Z.ltb_spec (protection_level (protection_of (nce_trapMap n) h)) (protection_level TrapReadWrite)) as [Hlt|Hge].
  - set (a := allNone && _). specialize (IH n a Hm). destruct (fold_left read_callback found (n, a)) as [n' a'] eqn:Ef. destruct IH as (A & B & C & D & F).
    do 3 (split; [done|]). split.
    + intros g. rewrite D. destruct (decide (g = h)) as [->|Hne].
      * rewrite !decide_False; [done| |]; intros [_ E]; rewrite E in Hlt; simpl in Hlt; lia.
      * destruct (decide (g ∈ found /\ _)) as [[? ?]|Hn]; [rewrite decide_True; [done|by split; [right|]]|].
        rewrite decide_False; [done|]. intros [[->|Hg]%elem_of_cons ?]; [done|]. by apply Hn.
    + intros Ha g [->|Hg]%elem_of_cons E; [|by apply (F Ha g Hg)]. assert (Ea : a = false) by (unfold a; rewrite E; by destruct allNone).
      assert (Hf : forall l s, snd s = false -> snd (fold_left read_callback l s) = false).
      { induction l as [|x l IHl]; intros [n0 b] Hb; [done|]. cbn [fold_left]. apply IHl. cbn [snd] in Hb. subst b. cbn [read_callback]. by destruct (_ <? _). }
      specialize (Hf found (n, a) Ea). rewrite Ef in Hf. simpl in Hf. congruence.
  - assert (E : protection_of (nce_trapMap n) h = TrapReadWrite) by (destruct (protection_of (nce_trapMap n) h); simpl in Hge; [lia|lia|done]).
    set (n1 := mk_nce _ _ _ _). specialize (IH n1 allNone (set_protection_ok _ h TrapWriteOnly Hm)).
    assert (Hp1 : forall g, protection_of (nce_trapMap n1) g = if decide (g = h) then TrapWriteOnly else protection_of (nce_trapMap n) g).
    { intros g. unfold n1. cbn [nce_trapMap]. rewrite protection_of_set. destruct (decide (g = h)) as [->|]; destruct (decide _) as [[? Hg]|Hg]; try congruence.
      exfalso. unfold protection_of in E. destruct (im_groups (nce_trapMap n) !! h) eqn:El; [|done]. apply Hg. split; [done|by eexists]. }
    destruct (fold_left read_callback found (n1, allNone)) as [n' a']. destruct IH as (A & B & C & D & F).
    do 3 (split; [done|]). split.
    + intros g. rewrite D, !Hp1. destruct (decide (g = h)) as [->|Hne].
      * rewrite decide_False by (by intros [_ ?]). rewrite decide_True; [done|]. split; [by left|done].
      * destruct (decide (g ∈ found /\ _)) as [[? ?]|Hn]; [rewrite decide_True; [done|by split; [right|]]|].
        rewrite decide_False; [done|]. intros [[->|Hg]%elem_of_cons ?]; [done|]. by apply Hn.
    + intros Ha g [->|Hg]%elem_of_cons; [by rewrite E|]. specialize (F Ha g Hg). rewrite Hp1 in F. by destruct (decide (g = h)).
Qed.

(** Whether a read may be let through as the code does: some group that was found needs its writes
    trapped already, or none needs anything. *)
Definition read_fault_safe (address : Z) (n : Nce) : bool :=
  let found := fst (GetAlignedRecursiveRange_address PAGE_SIZE (nce_trapMap n) address) in
  existsb (fun g => bool_decide (protection_of (nce_trapMap n) g = TrapWriteOnly)) found ||
  forallb (fun g => bool_decide (protection_of (nce_trapMap n) g = TrapNone)) found.

Lemma existsb_elem {A} (f : A -> bool) l : existsb f l = true <-> exists x, x ∈ l /\ f x = true.
Proof. rewrite existsb_exists. by setoid_rewrite list_elem_of_In. Qed.

Lemma forallb_elem {A} (f : A -> bool) l : forallb f l = true <-> forall x, x ∈ l -> f x = true.
Proof. rewrite forallb_forall. by setoid_rewrite list_elem_of_In. Qed.

Lemma TrapHandler_write_ok address n : trap_ok n -> 0 <= address -> address + 1 < 2 ^ 63 -> trap_ok (fst (TrapHandler address true n)).
Proof.
  intros [Hm Hp] Ha0 Ha. unfold TrapHandler. destruct (GetAlignedRecursiveRange_address PAGE_SIZE (nce_trapMap n) address) as [found intervals] eqn:Er.
  destruct (handler_range _ _ _ _ Hm Ha0 Ha Er) as (Hb & Hpr & Hsafe & _ & _). destruct found as [|g0 found'] eqn:Ef; [done|]. rewrite <- Ef in *. clear Ef.
  destruct (write_callbacks found n Hm) as (A & B & C & D). split; [done|]. cbn [fst set_pages nce_trapMap nce_pages].
  intros k e. rewrite B, D, C, mprotect_intervals by done. intros He Ho. destruct (decide (en_group e ∈ found)) as [|Hn]; [done|].
  destruct (covers_page intervals k) eqn:Ec; [|by apply (Hp k e)]. exfalso. apply Hn. by apply (Hsafe k e).
Qed.

Lemma TrapHandler_read_ok address n : trap_ok n -> 0 <= address -> address + 1 < 2 ^ 63 ->
  (writes = true -> read_fault_safe address n = true) -> trap_ok (fst (TrapHandler address false n)).
Proof.
  intros [Hm Hp] Ha0 Ha Hsf. unfold read_fault_safe in Hsf. unfold TrapHandler.
  destruct (GetAlignedRecursiveRange_address PAGE_SIZE (nce_trapMap n) address) as [found intervals] eqn:Er. cbn [fst] in Hsf.
  destruct (handler_range _ _ _ _ Hm Ha0 Ha Er) as (Hb & Hpr & Hsafe & _ & _). destruct found as [|g0 found'] eqn:Ef; [done|]. rewrite <- Ef in *. clear Ef.
  pose proof (read_callbacks found n true Hm) as Hrc. destruct (fold_left read_callback found (n, true)) as [n' all]. destruct Hrc as (A & B & C & D & F).
  split; [done|]. cbn [fst set_pages nce_trapMap nce_pages]. intros k e. rewrite B, D, C, mprotect_intervals by done. intros He Ho.
  destruct (covers_page intervals k) eqn:Ec.
  - pose proof (Hsafe k e Ec He Ho) as Hin. destruct (protection_of (nce_trapMap n) (en_group e)) eqn:Eg.
    1: by rewrite decide_False by (by intros [_ ?]).
    1: { rewrite decide_False by (by intros [_ ?]). destruct all; [|done]. by destruct (F eq_refl _ Hin). }
    rewrite decide_True by done. intros Hw. destruct all; [|done]. exfalso. apply orb_true_iff in Hsf as [H|H]; [| |done].
    + apply existsb_elem in H as (g & Hg & Hgw). apply bool_decide_eq_true in Hgw. by apply (F eq_refl g Hg).
    + rewrite forallb_elem in H. specialize (H _ Hin). apply bool_decide_eq_true in H. congruence.
  - specialize (Hp k e He Ho). destruct (decide _) as [[_ E]|_]; [|done]. rewrite E in Hp. intros _. simpl in Hp. by rewrite Hp.
Qed.

Lemma TrapHandler_range_entries address n : map_ok (nce_trapMap n) -> 0 <= address -> address + 1 < 2 ^ 63 ->
  fst (GetAlignedRecursiveRange_address PAGE_SIZE (nce_trapMap n) address) <> [] <->
  exists e, e ∈ im_entries (nce_trapMap n) /\ first_page (en_interval e) <= address / PAGE_SIZE < last_page (en_interval e).
Proof.
  intros Hm Ha0 Ha. destruct (GetAlignedRecursiveRange_address PAGE_SIZE (nce_trapMap n) address) as [found intervals] eqn:Er. cbn [fst].
  destruct (handler_range _ _ _ _ Hm Ha0 Ha Er) as (_ & _ & _ & Hin & Hcov). split.
  - intros Hne. destruct (Hcov Hne) as (_ & e & He & Ho). exists e. split; [done|by apply on_page].
  - intros (e & He & Hk) ->. apply on_page, (Hin e He) in Hk. by apply elem_of_nil in Hk.
Qed.

(** ** Runs *)

Inductive trap_step : Nce -> Nce -> Prop :=
  | step_trap regions writeOnly n n' g : Forall valid_region regions -> TrapRegions regions writeOnly n = (n', g) -> trap_step n n'
  | step_retrap handle writeOnly n : trap_step n (RetrapRegions handle writeOnly n)
  | step_remove handle n : trap_step n (RemoveTrap handle n)
  | step_delete handle n : trap_step n (DeleteTrap handle n)
  | step_write address n : 0 <= address -> address + 1 < 2 ^ 63 -> trap_step n (fst (TrapHandler address true n))
  | step_read address n : 0 <= address -> address + 1 < 2 ^ 63 ->
      (writes = true -> read_fault_safe address n = true) -> trap_step n (fst (TrapHandler address false n)).

Definition Nce_new : Nce := mk_nce IntervalMap_new (fun _ => Z.lor (Z.lor PROT_READ PROT_WRITE) PROT_EXEC) [] [].

Lemma trap_step_ok n n' : trap_step n n' -> trap_ok n -> trap_ok n'.
Proof.
  intros [] Hok; [by eapply TrapRegions_ok|by apply retrap_ok|by apply retrap_ok|by apply DeleteTrap_ok|by apply TrapHandler_write_ok|by apply TrapHandler_read_ok].
Qed.

Lemma trap_ok_new : trap_ok Nce_new.
Proof.
  split; [split|]; cbn.
  - intros i j e e' _ He. by rewrite lookup_nil in He.
  - intros e He. by apply elem_of_nil in He.
  - intros g i Hi. unfold group_intervals in Hi. cbn [im_groups Nce_new nce_trapMap IntervalMap_new] in Hi. rewrite lookup_empty in Hi. by apply elem_of_nil in Hi.
  - intros g [x Hx]. rewrite lookup_empty in Hx. done.
  - intros k e He. by apply elem_of_nil in He.
Qed.
Lemma reachable_ok n n' : rtc trap_step n n' -> trap_ok n -> trap_ok n'.
Proof. induction 1 as [|n1 n2 n3 Hs _ IH]; intros Hok; [done|]. by apply IH, (trap_step_ok n1). Qed.
End soundness.

(** ** Theorems *)

(** C8: from a state without traps, however traps are set, renewed, removed and deleted and faults are
    handled, a page with a trap that needs to see reads cannot be accessed at all, so an access gets
    to the handler.  A page with a trap that needs to see writes cannot be written, as long as no
    read fault came when the groups found all needed everything trapped or nothing and some the former. *)
Theorem traps_sound writes n k e :
  rtc (trap_step writes) Nce_new n -> e ∈ im_entries (nce_trapMap n) -> first_page (en_interval e) <= k < last_page (en_interval e) ->
  match protection_of (nce_trapMap n) (en_group e) with
  | TrapNone => True
  | TrapWriteOnly => writes = true -> bit (nce_pages n k) 1 = false
  | TrapReadWrite => nce_pages n k = PROT_NONE
  end.
Proof.
  intros Hr He Hk. pose proof (reachable_ok writes _ _ Hr (trap_ok_new writes)) as Hok.
  by apply (to_pages writes n Hok k e), on_page.
Qed.

Definition sample_regions : list span := [mk_span 0x10010 0x2000; mk_span 0x20000 0x100].
Definition sample_nce : Nce := fst (TrapRegions sample_regions true (fst (TrapRegions [mk_span 0x11000 0x20] false Nce_new))).

Lemma traps_sound_witness : bit (nce_pages (fst (TrapHandler 0x11004 false sample_nce)) 17) 1 = false.
Proof.
  assert (Hv : forall a s, 0 <= a -> 0 <= s -> a + s < 2 ^ 63 -> valid_region (mk_span a s)) by (intros; by repeat split).
  refine (traps_sound true (fst (TrapHandler 0x11004 false sample_nce)) 17 (mk_entry (mk_interval 0x10010 0x12010) 1) _ _ _ eq_refl).
  - apply rtc_r with sample_nce; [|by apply step_read].
    apply rtc_r with (fst (TrapRegions [mk_span 0x11000 0x20] false Nce_new)).
    + eapply rtc_r; [apply rtc_refl|]. eapply (step_trap true [mk_span 0x11000 0x20] false _ _ 0); [|reflexivity]. constructor; [by apply Hv|constructor].
    + eapply (step_trap true sample_regions true _ _ 1); [|reflexivity]. constructor; [by apply Hv|]. constructor; [by apply Hv|constructor].
  - left.
  - vm_compute. split; [discriminate|reflexivity].
Defined.

(** C32: a fault is resolved: if an entry lies on the page of the address the handler claims the fault
    and afterwards the page can be read, and written if the fault was a write, so that the access
    succeeds when it is made again; if there is no such entry nothing changes and it is passed on. *)
Theorem TrapHandler_resolves writes address write n :
  trap_ok writes n -> 0 <= address -> address + 1 < 2 ^ 63 ->
  let '(n', handled) := TrapHandler address write n in
  (handled = true <-> exists e, e ∈ im_entries (nce_trapMap n) /\ first_page (en_interval e) <= address / PAGE_SIZE < last_page (en_interval e)) /\
  (handled = false -> n' = n) /\
  (handled = true -> bit (nce_pages n' (address / PAGE_SIZE)) 0 = true /\ (write = true -> bit (nce_pages n' (address / PAGE_SIZE)) 1 = true)).
Proof.
  intros [Hm Hp] Ha0 Ha. pose proof (TrapHandler_range_entries address n Hm Ha0 Ha) as Hent. unfold TrapHandler.
  destruct (GetAlignedRecursiveRange_address PAGE_SIZE (nce_trapMap n) address) as [found intervals] eqn:Er. cbn [fst] in Hent.
  destruct (handler_range _ _ _ _ Hm Ha0 Ha Er) as (Hb & Hpr & _ & _ & Hcov). destruct found as [|g0 found'] eqn:Ef.
  { split; [|done]. split; [done|]. intros He. by apply Hent in He. }
  rewrite <- Ef in *. assert (Hne : found <> []) by (by rewrite Ef). clear Ef. destruct (Hcov Hne) as [Hcp _].
  destruct (if write then _ else _) as [n1 w] eqn:Ew. assert (Hw : write = true -> w = true) by (intros ->; by injection Ew).
  split; [split; [intros _; by apply Hent|done]|]. split; [done|]. intros _. cbn [set_pages nce_pages]. rewrite mprotect_intervals, Hcp by done.
  split; [by destruct w|]. intros E. by rewrite (Hw E).
Qed.

Lemma TrapHandler_resolves_witness : bit (nce_pages (fst (TrapHandler 0x11004 true sample_nce)) 17) 1 = true.
Proof.
  assert (Hv : forall a s, 0 <= a -> 0 <= s -> a + s < 2 ^ 63 -> valid_region (mk_span a s)) by (intros; by repeat split).
  assert (Hok : trap_ok true sample_nce).
  { eapply TrapRegions_ok; [eapply (TrapRegions_ok true [mk_span 0x11000 0x20] false); [apply trap_ok_new| |reflexivity]| |reflexivity]; repeat (constructor; try by apply Hv). }
  pose proof (TrapHandler_resolves true 0x11004 true sample_nce Hok ltac:(lia) ltac:(lia)) as H.
  destruct (TrapHandler 0x11004 true sample_nce) as [n' handled] eqn:E. destruct H as ([_ H1] & _ & H2). cbn [fst].
  apply H2; [|reflexivity]. apply H1. exists (mk_entry (mk_interval 0x10010 0x12010) 1). split; [left|]. vm_compute. split; [discriminate|reflexivity].
Defined.

(** A read fault on memory whose only trap needs to see reads and writes makes the page writable,
    although the trap then still needs to see writes. *)
Lemma read_fault_unprotects :
  let n := fst (TrapHandler 0x10000 false (fst (TrapRegions [mk_span 0x10000 0x1000] false Nce_new))) in
  protection_of (nce_trapMap n) 0 = TrapWriteOnly /\ bit (nce_pages n 16) 1 = true.
Proof. vm_compute. by split. Qed.
