(* ===== verification/NvHost.v ===== *)
(** * /dev/nvhost-ctrl ([services/nvdrv/devices/nvhost/ctrl.{h,cpp}])

    A guest waits on a fence through a syncpoint event: an event of the device is registered as a
    waiter of the syncpoint, and the callback of the waiter signals the kernel event that the guest
    got for it.  The device owns its events, so the callbacks refer to objects that a guest can ask
    to free: what is proved is that no callback is left behind and that exactly the events whose
    threshold is reached are signalled.  An event object and the kernel event made with it share one
    number, and the waiters of the syncpoints are the device's and threads that block. *)

From S2P Require Import Prelude Host1x NvMap.

Inductive EventState : Type := Ev_Available | Ev_Waiting | Ev_Cancelling | Ev_Signalling | Ev_Signalled | Ev_Cancelled.

#[global] Instance EventState_eq_dec : EqDecision EventState.
Proof. solve_decision. Defined.

Record SyncpointEvent : Type := mk_event {
  se_waiterHandle : option nat;
  se_state : EventState;
  se_fence : Fence;
  se_event : nat }.

(** [ct_kevents] says of each kernel event whether it is signalled. *)
Record Ctrl : Type := mk_ctrl {
  ct_events : list (option SyncpointEvent);
  ct_kevents : gmap nat bool;
  ct_syncpoints : list Syncpoint;
  ct_manager : SyncpointManager;
  ct_next : nat }.

Definition SyncpointEventCount : nat := 64.

Definition set_events (l : list (option SyncpointEvent)) (c : Ctrl) : Ctrl := mk_ctrl l (ct_kevents c) (ct_syncpoints c) (ct_manager c) (ct_next c).
Definition set_kevent (id : nat) (b : bool) (c : Ctrl) : Ctrl := mk_ctrl (ct_events c) (<[id := b]> (ct_kevents c)) (ct_syncpoints c) (ct_manager c) (ct_next c).
Definition set_syncpoint (id : Z) (sp : Syncpoint) (c : Ctrl) : Ctrl :=
  mk_ctrl (ct_events c) (ct_kevents c) (<[Z.to_nat id := sp]> (ct_syncpoints c)) (ct_manager c) (ct_next c).
Definition set_manager (m : SyncpointManager) (c : Ctrl) : Ctrl := mk_ctrl (ct_events c) (ct_kevents c) (ct_syncpoints c) m (ct_next c).
Definition set_slot (slot : nat) (e : option SyncpointEvent) (c : Ctrl) : Ctrl := set_events (<[slot := e]> (ct_events c)) c.

Definition set_state (s : EventState) (e : SyncpointEvent) : SyncpointEvent := mk_event (se_waiterHandle e) s (se_fence e) (se_event e).
Definition set_handle (h : option nat) (e : SyncpointEvent) : SyncpointEvent := mk_event h (se_state e) (se_fence e) (se_event e).

(** ** Values *)

(** The two layouts of [SyncpointEventValue]. *)
Definition value_partialSlot (v : Z) : Z := bits 0 4 v.
Definition value_syncpointId (v : Z) : Z := bits 4 28 v.
Definition value_slot (v : Z) : Z := bits 0 16 v.
Definition value_syncpointIdForAllocation (v : Z) : Z := bits 16 12 v.
Definition value_eventAllocated (v : Z) : bool := bit v 28.

(** The value a wait that was registered gives back. *)
Definition event_value (allocate : bool) (id slot : Z) : Z :=
  let v := if allocate then set_bits 28 1 1 (set_bits 16 12 (u16 id) 0) else set_bits 4 28 id 0 in
  Z.lor v slot.

(** ** Events *)

Definition SyncpointEvent_new (slot : nat) (c : Ctrl) : Ctrl :=
  let id := ct_next c in
  mk_ctrl (<[slot := Some (mk_event None Ev_Available (mk_fence 0 0) id)]> (ct_events c)) (<[id := false]> (ct_kevents c))
    (ct_syncpoints c) (ct_manager c) (S id).

(** The slot of an event; a callback of an event that is gone uses freed memory. *)
Definition has_id (id : nat) (o : option SyncpointEvent) : Prop := se_event <$> o = Some id.

#[global] Instance has_id_dec id o : Decision (has_id id o).
Proof. unfold has_id. apply _. Defined.

Definition find_event (id : nat) (c : Ctrl) : M (nat * SyncpointEvent) :=
  match list_find (has_id id) (ct_events c) with
  | Some (slot, Some e) => ok (slot, e)
  | _ => fail (Undefined "callback of a freed event")
  end.

(** The exchange of the state, and whether the event was waited on. *)
Definition Signal_exchange (id : nat) (c : Ctrl) : M (Ctrl * bool) :=
  let! (slot, e) := find_event id c in
  ok (set_slot slot (Some (set_state Ev_Signalling e)) c, bool_decide (se_state e = Ev_Waiting)).

Definition Signal_finish (id : nat) (waiting : bool) (c : Ctrl) : M Ctrl :=
  let! (slot, e) := find_event id c in
  let c := if waiting then set_kevent id true c else c in
  ok (set_slot slot (Some (set_state Ev_Signalled e)) c).

Definition SyncpointEvent_Signal (c : Ctrl) (id : nat) : M Ctrl :=
  let! (c, waiting) := Signal_exchange id c in Signal_finish id waiting c.

Definition SyncpointEvent_Cancel (slot : nat) (e : SyncpointEvent) (c : Ctrl) : M Ctrl :=
  let! sp := at_syncpoint (fence_id (se_fence e)) (ct_syncpoints c) in
  let sp := match se_waiterHandle e with Some h => DeregisterWaiter h sp | None => sp end in
  ok (set_slot slot (Some (set_handle None e)) (set_syncpoint (fence_id (se_fence e)) sp c)).

Definition SyncpointEvent_RegisterWaiter (fence : Fence) (slot : nat) (e : SyncpointEvent) (c : Ctrl) : M Ctrl :=
  let c := set_slot slot (Some (mk_event (se_waiterHandle e) Ev_Waiting fence (se_event e))) c in
  let! sp := at_syncpoint (fence_id fence) (ct_syncpoints c) in
  let '(sp, handle, called) := RegisterWaiter (fence_threshold fence) (se_event e) sp in
  let! c := foldM SyncpointEvent_Signal called (set_syncpoint (fence_id fence) sp c) in
  ok (set_events (alter (fmap (set_handle handle)) slot (ct_events c)) c).

Definition IsInUse (e : SyncpointEvent) : bool :=
  match se_state e with Ev_Waiting | Ev_Cancelling | Ev_Signalling => true | _ => false end.

(** The hardware's increment, with the callbacks it makes. *)
Definition Ctrl_Increment (id : Z) (c : Ctrl) : M Ctrl :=
  let! sp := at_syncpoint id (ct_syncpoints c) in
  let '(sp, _, called) := Increment sp in
  foldM SyncpointEvent_Signal called (set_syncpoint id sp c).

(** ** The calls of the device *)

(** The loop over the slots: the slot of an event of the syncpoint, or the last event that is not
    in use and the first slot that is empty. *)
Fixpoint find_slots (syncpointId : Z) (i : nat) (l : list (option SyncpointEvent)) (eventSlot freeSlot : nat) : nat + nat * nat :=
  match l with
  | [] => inr (eventSlot, freeSlot)
  | Some e :: l =>
      if negb (IsInUse e) then
        if fence_id (se_fence e) =? syncpointId then inl i else find_slots syncpointId (S i) l i freeSlot
      else find_slots syncpointId (S i) l eventSlot freeSlot
  | None :: l => find_slots syncpointId (S i) l eventSlot (if (freeSlot =? SyncpointEventCount)%nat then i else freeSlot)
  end.

Definition FindFreeSyncpointEvent (syncpointId : Z) (c : Ctrl) : M (Ctrl * nat) :=
  match find_slots syncpointId 0 (ct_events c) SyncpointEventCount SyncpointEventCount with
  | inl slot => ok (c, slot)
  | inr (eventSlot, freeSlot) =>
      if (freeSlot <? SyncpointEventCount)%nat then ok (SyncpointEvent_new freeSlot c, freeSlot)
      else if (eventSlot <? SyncpointEventCount)%nat then ok (c, eventSlot)
      else fail (Throw "Failed to find a free nvhost event!")
  end.

(** The value is an argument that the call changes. *)
Definition SyncpointWaitEventImpl (fence : Fence) (timeout value : Z) (allocate : bool) (c : Ctrl) : M (Ctrl * Z * PosixResult) :=
  if Z.of_nat SyncpointCount <=? fence_id fence then ok (c, value, Posix_InvalidArgument)
  else if fence_threshold fence =? 0 then
    let! _ := IsSyncpointAllocated (fence_id fence) (ct_manager c) in ok (c, value, Posix_Success)
  else
    let! signalled := HasSyncpointExpired (fence_id fence) (fence_threshold fence) (ct_manager c) in
    if (signalled : bool) then
      let! v := ReadSyncpointMinValue (fence_id fence) (ct_manager c) in ok (c, v, Posix_Success)
    else
      let! (m, minVal) := UpdateMin (fence_id fence) (ct_syncpoints c) (ct_manager c) in
      let c := set_manager m c in
      let! signalled := HasSyncpointExpired (fence_id fence) (fence_threshold fence) m in
      if (signalled : bool) then ok (c, minVal, Posix_Success)
      else if timeout =? 0 then ok (c, value, Posix_TryAgain)
      else
        let! (c, value, slot) :=
          if allocate then let! (c, slot) := FindFreeSyncpointEvent (fence_id fence) c in ok (c, 0, Z.of_nat slot) else ok (c, value, value) in
        if Z.of_nat SyncpointEventCount <=? slot then ok (c, value, Posix_InvalidArgument)
        else
          match ct_events c !! Z.to_nat slot with
          | Some (Some e) =>
              if negb (IsInUse e) then
                let! c := SyncpointEvent_RegisterWaiter fence (Z.to_nat slot) e c in
                ok (c, event_value allocate (fence_id fence) slot, Posix_TryAgain)
              else ok (c, value, Posix_InvalidArgument)
          | _ => ok (c, value, Posix_InvalidArgument)
          end.

Definition SyncpointFreeEventLocked (slot : Z) (c : Ctrl) : Ctrl * PosixResult :=
  if Z.of_nat SyncpointEventCount <=? slot then (c, Posix_InvalidArgument)
  else
    match ct_events c !! Z.to_nat slot with
    | Some (Some e) => if IsInUse e then (c, Posix_Busy) else (set_slot (Z.to_nat slot) None c, Posix_Success)
    | _ => (c, Posix_Success)
    end.

Definition SyncpointClearEventWait (value : Z) (c : Ctrl) : M (Ctrl * PosixResult) :=
  let slot := value_slot value in
  if Z.of_nat SyncpointEventCount <=? slot then ok (c, Posix_InvalidArgument)
  else
    match ct_events c !! Z.to_nat slot with
    | Some (Some e) =>
        let e' := set_state Ev_Cancelling e in
        let c := set_slot (Z.to_nat slot) (Some e') c in
        let! c :=
          if bool_decide (se_state e = Ev_Waiting) then
            let! c := SyncpointEvent_Cancel (Z.to_nat slot) e' c in
            let! (m, _) := UpdateMin (fence_id (se_fence e)) (ct_syncpoints c) (ct_manager c) in
            ok (set_manager m c)
          else ok c in
        ok (set_kevent (se_event e) false (set_events (alter (fmap (set_state Ev_Cancelled)) (Z.to_nat slot) (ct_events c)) c), Posix_Success)
    | _ => ok (c, Posix_InvalidArgument)
    end.

Definition SyncpointWaitEvent (fence : Fence) (timeout value : Z) (c : Ctrl) : M (Ctrl * Z * PosixResult) := SyncpointWaitEventImpl fence timeout value true c.
Definition SyncpointWaitEventSingle (fence : Fence) (timeout value : Z) (c : Ctrl) : M (Ctrl * Z * PosixResult) :=
  SyncpointWaitEventImpl fence timeout value false c.

Definition SyncpointAllocateEvent (slot : Z) (c : Ctrl) : Ctrl * PosixResult :=
  if Z.of_nat SyncpointEventCount <=? slot then (c, Posix_InvalidArgument)
  else
    match ct_events c !! Z.to_nat slot with
    | Some (Some _) =>
        let (c, err) := SyncpointFreeEventLocked slot c in
        if bool_decide (err = Posix_Success) then (SyncpointEvent_new (Z.to_nat slot) c, Posix_Success) else (c, err)
    | _ => (SyncpointEvent_new (Z.to_nat slot) c, Posix_Success)
    end.

Definition SyncpointFreeEvent (slot : Z) (c : Ctrl) : Ctrl * PosixResult := SyncpointFreeEventLocked slot c.

Definition SyncpointFreeEventBatch (bitmask : Z) (c : Ctrl) : Ctrl * PosixResult :=
  fold_left (fun '(c, err) i =>
    if bit bitmask i then
      let (c, freeErr) := SyncpointFreeEventLocked i c in (c, if bool_decide (freeErr = Posix_Success) then err else freeErr)
    else (c, err)) (seqZ 0 64) (c, Posix_Success).

Definition QueryEvent (value : Z) (c : Ctrl) : option nat :=
  let slot := if value_eventAllocated value then value_partialSlot value else value_slot value in
  if Z.of_nat SyncpointEventCount <=? slot then None
  else
    let syncpointId := if value_eventAllocated value then value_syncpointIdForAllocation value else value_syncpointId value in
    match ct_events c !! Z.to_nat slot with
    | Some (Some e) => if fence_id (se_fence e) =? syncpointId then Some (se_event e) else None
    | _ => None
    end.

(** ** No callback is left behind *)

Definition event_at (c : Ctrl) (i : nat) (e : SyncpointEvent) : Prop := ct_events c !! i = Some (Some e).

Definition idle (e : SyncpointEvent) : Prop := se_state e = Ev_Available \/ se_state e = Ev_Signalled \/ se_state e = Ev_Cancelled.

(** The waiter of an event is in the list of its syncpoint. *)
Definition is_registered (c : Ctrl) (e : SyncpointEvent) : Prop :=
  0 <= fence_id (se_fence e) /\
  exists sp h, ct_syncpoints c !! Z.to_nat (fence_id (se_fence e)) = Some sp /\ se_waiterHandle e = Some h /\
    mk_waiter (fence_threshold (se_fence e)) (Some (se_event e)) h ∈ sp_waiters sp.

(** The waiter is that of an event that waits. *)
Definition is_owned (c : Ctrl) (k : nat) (w : Waiter) (id : nat) : Prop :=
  exists i e, event_at c i e /\ se_event e = id /\ se_state e = Ev_Waiting /\ fence_id (se_fence e) = Z.of_nat k /\
    fence_threshold (se_fence e) = w_threshold w /\ se_waiterHandle e = Some (w_id w).

Record syncpoint_ok (sp : Syncpoint) : Prop := mk_syncpoint_ok {
  sk_sorted : ascending (sp_waiters sp);
  sk_ahead : forall w, w ∈ sp_waiters sp -> sp_value sp < w_threshold w;
  sk_ids : NoDup (map w_id (sp_waiters sp));
  sk_fresh : forall w, w ∈ sp_waiters sp -> (w_id w < sp_next sp)%nat }.

(** [pending] are the events whose waiters were taken off and whose callbacks are still to be made. *)
Record ctrl_inv (pending : list nat) (c : Ctrl) : Prop := mk_ctrl_inv {
  ci_len : length (ct_events c) = SyncpointEventCount;
  ci_ids : forall i j e e', event_at c i e -> event_at c j e' -> se_event e = se_event e' -> i = j;
  ci_fresh : forall i e, event_at c i e -> (se_event e < ct_next c)%nat;
  ci_state : forall i e, event_at c i e -> se_state e = Ev_Waiting \/ idle e;
  ci_waiting : forall i e, event_at c i e -> se_state e = Ev_Waiting -> se_event e ∈ pending \/ is_registered c e;
  ci_waiters : forall k sp w id, ct_syncpoints c !! k = Some sp -> w ∈ sp_waiters sp -> w_callback w = Some id -> id ∉ pending /\ is_owned c k w id;
  ci_nodup : NoDup pending;
  ci_pending : forall id, id ∈ pending -> exists i e, event_at c i e /\ se_event e = id /\ se_state e = Ev_Waiting;
  ci_sps : forall k sp, ct_syncpoints c !! k = Some sp -> syncpoint_ok sp }.

Lemma find_event_ok pending c i e : ctrl_inv pending c -> event_at c i e -> find_event (se_event e) c = ok (i, e).
Proof.
  intros Hi He. unfold find_event. assert (E : list_find (has_id (se_event e)) (ct_events c) = Some (i, Some e)); [|by rewrite E].
  apply list_find_Some. split; [exact He|]. split; [done|]. intros j o Hj Hlt Hid. destruct o as [e'|]; [|done]. injection Hid as Hid.
  pose proof (ci_ids _ _ Hi j i e' e Hj He Hid). lia.
Qed.

Lemma event_at_insert c i j o e : (i < length (ct_events c))%nat ->
  event_at (set_slot i o c) j e <-> j = i /\ o = Some e \/ j <> i /\ event_at c j e.
Proof.
  intros Hlt. unfold event_at, set_slot, set_events. cbn [ct_events]. destruct (decide (j = i)) as [->|Hne].
  - rewrite list_lookup_insert_eq by done. naive_solver.
  - rewrite list_lookup_insert_ne by done. naive_solver.
Qed.

Lemma event_at_lt pending c i e : ctrl_inv pending c -> event_at c i e -> (i < length (ct_events c))%nat.
Proof. intros _ He. by apply lookup_lt_Some in He. Qed.

(** Replacing what a slot holds when no event waits in it. *)
Lemma inv_set_slot pending c i o ks next :
  ctrl_inv pending c -> (i < SyncpointEventCount)%nat -> (forall e, event_at c i e -> se_state e <> Ev_Waiting) -> (ct_next c <= next)%nat ->
  (forall e, o = Some e -> idle e /\ (se_event e < next)%nat /\ forall j e', j <> i -> event_at c j e' -> se_event e' <> se_event e) ->
  forall m, ctrl_inv pending (mk_ctrl (<[i := o]> (ct_events c)) ks (ct_syncpoints c) m next).
Proof.
  intros [H1 H2 H3 H4 H5 H6 H7 H8 H9] Hi Hw Hn Ho m.
  assert (Hat : forall j e, event_at (mk_ctrl (<[i := o]> (ct_events c)) ks (ct_syncpoints c) m next) j e <-> j = i /\ o = Some e \/ j <> i /\ event_at c j e).
  { intros j e. apply event_at_insert. rewrite H1. lia. }
  assert (Hkeep : forall j e, event_at c j e -> se_state e = Ev_Waiting -> event_at (mk_ctrl (<[i := o]> (ct_events c)) ks (ct_syncpoints c) m next) j e).
  { intros j e He Hs. apply Hat. right. split; [|done]. intros ->. by apply (Hw e He). }
  split; cbn [ct_syncpoints ct_events ct_next]; try done.
  - by rewrite length_insert.
  - intros j k e e' He He' E. apply Hat in He as [[-> ->]|[Hj He]], He' as [[-> Ho']|[Hk He']].
    + done.
    + destruct (Ho e eq_refl) as (_ & _ & Hd). by destruct (Hd k e' Hk He').
    + subst o. destruct (Ho e' eq_refl) as (_ & _ & Hd). by destruct (Hd j e Hj He).
    + exact (H2 j k e e' He He' E).
  - intros j e He. apply Hat in He as [[-> ->]|[Hj He]]; [by apply (Ho e)|]. pose proof (H3 j e He). lia.
  - intros j e He. apply Hat in He as [[-> ->]|[Hj He]]; [right; by apply (Ho e)|by eapply H4].
  - intros j e He Hs. apply Hat in He as [[-> ->]|[Hj He]]; [|by eapply H5]. destruct (Ho e eq_refl) as ([E|[E|E]] & _); congruence.
  - intros k sp w id Hsp Hin Hc. destruct (H6 k sp w id Hsp Hin Hc) as [Hp (j & e & He & Hid & Hs & Hr)]. split; [done|]. exists j, e.
    split; [by apply Hkeep|done].
  - intros id Hid. destruct (H8 id Hid) as (j & e & He & E & Hs). exists j, e. split; [by apply Hkeep|done].
Qed.

(** A callback that is due finds its event. *)
Lemma Signal_ok id pending c : ctrl_inv (id :: pending) c ->
  exists i e, event_at c i e /\ se_event e = id /\ se_state e = Ev_Waiting /\
    SyncpointEvent_Signal c id = ok (set_slot i (Some (set_state Ev_Signalled e)) (set_kevent id true c)) /\
    ctrl_inv pending (set_slot i (Some (set_state Ev_Signalled e)) (set_kevent id true c)).
Proof.
  intros Hi. destruct (ci_pending _ _ Hi id ltac:(by left)) as (i & e & He & Hid & Hs). exists i, e. do 3 (split; [done|]).
  pose proof (event_at_lt _ _ _ _ Hi He) as Hlt. destruct Hi as [H1 H2 H3 H4 H5 H6 H7 H8 H9].
  assert (Hat : forall o c' j e', ct_events c' = <[i := o]> (ct_events c) -> event_at c' j e' <-> j = i /\ o = Some e' \/ j <> i /\ event_at c j e').
  { intros o c' j e' E. rewrite <- (event_at_insert c i j o e' Hlt). unfold event_at, set_slot. by rewrite E. }
  split.
  - unfold SyncpointEvent_Signal, Signal_exchange. rewrite <- Hid. assert (Hf : find_event (se_event e) c = ok (i, e)) by (eapply find_event_ok; [by split|done]).
    rewrite Hf. cbn [bindM ok]. rewrite bool_decide_eq_true_2 by done. unfold Signal_finish.
    assert (Hf2 : find_event (se_event e) (set_slot i (Some (set_state Ev_Signalling e)) c) = ok (i, set_state Ev_Signalling e)).
    { unfold find_event. assert (E : list_find (has_id (se_event e)) (ct_events (set_slot i (Some (set_state Ev_Signalling e)) c)) = Some (i, Some (set_state Ev_Signalling e))); [|by rewrite E].
      apply list_find_Some. cbn [set_slot set_events ct_events]. split; [by apply list_lookup_insert_eq|]. split; [done|]. intros j o Hj Hlt' Ho.
      rewrite list_lookup_insert_ne in Hj by lia. destruct o as [e'|]; [|done]. injection Ho as Ho. pose proof (H2 j i e' e Hj He Ho). lia. }
    rewrite Hf2. cbn [bindM ok]. f_equal. unfold set_slot, set_events, set_kevent. cbn [ct_events ct_kevents ct_syncpoints ct_manager ct_next].
    by rewrite list_insert_insert_eq.
  - apply NoDup_cons in H7 as [Hnin Hnd]. set (c' := set_slot _ _ _). assert (Ec : ct_events c' = <[i := Some (set_state Ev_Signalled e)]> (ct_events c)) by done.
    assert (Hsame : forall j e', event_at c' j e' -> se_state e' = Ev_Waiting -> j <> i /\ event_at c j e').
    { intros j e' He' Hs'. apply (Hat _ _ _ _ Ec) in He' as [[-> E]|?]; [|done]. by injection E as <-. }
    assert (Hkeep : forall j e', event_at c j e' -> se_event e' <> id -> event_at c' j e').
    { intros j e' He' Hne. apply (Hat _ _ _ _ Ec). right. split; [|done]. intros ->. unfold event_at in *. congruence. }
    split; try done.
    + rewrite Ec. by rewrite length_insert.
    + intros j k e1 e2 He1 He2 E. apply (Hat _ _ _ _ Ec) in He1 as [[-> E1]|[Hj He1]], He2 as [[-> E2]|[Hk He2]]; simplify_eq; try done.
      * by destruct (Hk (H2 k i e2 e He2 He (eq_sym E))).
      * by destruct (Hj (H2 j i e1 e He1 He E)).
      * by eapply H2.
    + intros j e' He'. apply (Hat _ _ _ _ Ec) in He' as [[-> E]|[_ He']]; [injection E as <-; exact (H3 i e He)|by eapply H3].
    + intros j e' He'. apply (Hat _ _ _ _ Ec) in He' as [[-> E]|[_ He']]; [injection E as <-; by do 2 right; left|by eapply H4].
    + intros j e' He' Hs'. destruct (Hsame j e' He' Hs') as [Hj He0]. destruct (H5 j e' He0 Hs') as [[Hh|Hp]%elem_of_cons|Hr]; [|by left|by right].
      exfalso. apply Hj. apply (H2 j i e' e); congruence.
    + intros k sp w id' Hsp Hin Hc. destruct (H6 k sp w id' Hsp Hin Hc) as [Hp (j & e' & He' & E & Hr)]. apply not_elem_of_cons in Hp as [Hne Hp]. split; [done|].
      exists j, e'. split; [|done]. apply Hkeep; congruence.
    + intros id' Hid'. destruct (H8 id' ltac:(by right)) as (j & e' & He' & E & Hs'). exists j, e'. split; [|done]. apply Hkeep; [done|]. intros E'. apply Hnin. congruence.
Qed.

(** The events among [called], signalled. *)
Definition signal_in (called : list nat) (e : SyncpointEvent) : SyncpointEvent := if decide (se_event e ∈ called) then set_state Ev_Signalled e else e.

Lemma signal_all called c : ctrl_inv called c ->
  exists c', foldM SyncpointEvent_Signal called c = ok c' /\ ctrl_inv [] c' /\ ct_syncpoints c' = ct_syncpoints c /\ ct_manager c' = ct_manager c /\
    (forall i, ct_events c' !! i = fmap (fmap (signal_in called)) (ct_events c !! i)) /\
    forall id, ct_kevents c' !! id = if decide (id ∈ called) then Some true else ct_kevents c !! id.
Proof.
  revert c. induction called as [|id called IH]; intros c Hi.
  { exists c. do 4 (split; [done|]). split; [|done]. intros i. by destruct (ct_events c !! i) as [[e|]|]. }
  destruct (Signal_ok id called c Hi) as (i & e & He & Hid & Hs & HS & Hi'). set (c1 := set_slot _ _ _) in *.
  destruct (IH c1 Hi') as (c' & HF & Hc' & H1 & H2 & H3 & H4). exists c'. cbn [foldM]. rewrite HS. cbn [bindM ok]. do 4 (split; [done|]). split.
  - intros j. rewrite H3. unfold c1. cbn [set_slot set_events ct_events set_kevent]. destruct (decide (j = i)) as [->|Hne].
    + rewrite list_lookup_insert_eq by (by apply lookup_lt_Some in He). unfold event_at in He. rewrite He. cbn. unfold signal_in. cbn [set_state se_event].
      rewrite (decide_True _ _ (P := se_event e ∈ id :: called)) by (rewrite Hid; by left). by destruct (decide _).
    + rewrite list_lookup_insert_ne by done. destruct (ct_events c !! j) as [[e'|]|] eqn:Ej; [|done|done]. cbn. do 2 f_equal. unfold signal_in.
      destruct (decide (se_event e' ∈ called)) as [Hin|Hin]; [by rewrite decide_True by (by right)|]. rewrite decide_False; [done|].
      intros [E|?]%elem_of_cons; [|done]. apply Hne. apply (ci_ids _ _ Hi j i e' e Ej He). congruence.
  - intros id'. rewrite H4. unfold c1. cbn [set_slot set_events ct_kevents set_kevent]. destruct (decide (id' ∈ called)) as [Hin|Hin].
    + by rewrite decide_True by (by right).
    + destruct (decide (id' = id)) as [->|Hne]; [rewrite decide_True by (by left); by rewrite lookup_insert_eq|].
      rewrite decide_False by (by intros [->|?]%elem_of_cons). by rewrite lookup_insert_ne.
Qed.

Lemma NoDup_omap_callback l : NoDup (map w_id l) ->
  (forall w w' id, w ∈ l -> w' ∈ l -> w_callback w = Some id -> w_callback w' = Some id -> w_id w = w_id w') -> NoDup (omap w_callback l).
Proof.
  induction l as [|w l IH]; intros Hnd Hinj; [constructor|]. cbn [map] in Hnd. apply NoDup_cons in Hnd as [Hnin Hnd]. cbn [omap list_omap].
  assert (HIH : NoDup (omap w_callback l)) by (apply IH; [done|]; intros w1 w2 id H1 H2; apply Hinj; by right).
  destruct (w_callback w) as [id|] eqn:E; [|done]. constructor; [|done]. intros (w' & Hw' & E')%list_elem_of_omap.
  apply Hnin. rewrite (Hinj w w' id); [by apply list_elem_of_fmap_2|by left|by right|done|done].
Qed.

(** What an increment releases. *)
Lemma Increment_spec sp sp' v called : syncpoint_ok sp -> Increment sp = (sp', v, called) ->
  v = u32 (sp_value sp + 1) /\ sp_value sp' = v /\ syncpoint_ok sp' /\
  (forall w, w ∈ sp_waiters sp' <-> w ∈ sp_waiters sp /\ v < w_threshold w) /\
  exists released, called = omap w_callback released /\ NoDup (map w_id released) /\ forall w, w ∈ released <-> w ∈ sp_waiters sp /\ w_threshold w <= v.
Proof.
  intros [S1 S2 S3 S4] HI. unfold Increment in HI. destruct (drain (u32 (sp_value sp + 1)) (sp_waiters sp)) as [released rest] eqn:Ed. injection HI as <- <- <-.
  destruct (drain_spec (u32 (sp_value sp + 1)) (sp_waiters sp) S1) as (Eapp & Hrel & Hrest). rewrite Ed in Eapp, Hrel, Hrest. cbn [fst snd] in *.
  rewrite Forall_forall in Hrel, Hrest. cbn [sp_value sp_waiters]. rewrite Eapp in S1, S3. rewrite map_app in S3. apply NoDup_app in S3 as (N1 & N2 & N3).
  assert (Hiff : forall w, w ∈ rest <-> w ∈ sp_waiters sp /\ u32 (sp_value sp + 1) < w_threshold w).
  { intros w. rewrite Eapp, elem_of_app. split; [intros Hw; split; [by right|by apply Hrest]|]. intros [[Hw|Hw] Ht]; [|done]. specialize (Hrel w Hw). simpl in Hrel. lia. }
  do 2 (split; [done|]). split; [split; cbn [sp_value sp_waiters sp_next]|split; [done|]].
  - by apply ascending_app in S1 as (_ & ? & _).
  - intros w Hw. by apply Hrest.
  - done.
  - intros w Hw. apply S4. by apply Hiff in Hw as [? _].
  - exists released. split; [done|]. split; [done|]. intros w. rewrite Eapp, elem_of_app. split; [intros Hw; split; [by left|by apply Hrel]|].
    intros [[Hw|Hw] Ht]; [done|]. specialize (Hrest w Hw). simpl in Hrest. lia.
Qed.

Lemma set_syncpoint_lookup id sp sp0 c k sp' : 0 <= id -> ct_syncpoints c !! Z.to_nat id = Some sp0 ->
  ct_syncpoints (set_syncpoint id sp c) !! k = Some sp' <-> Z.of_nat k = id /\ sp' = sp \/ Z.of_nat k <> id /\ ct_syncpoints c !! k = Some sp'.
Proof.
  intros Hid Hsp. cbn [set_syncpoint ct_syncpoints]. destruct (decide (k = Z.to_nat id)) as [->|Hne].
  - rewrite list_lookup_insert_eq by (by eapply lookup_lt_Some). split; [intros [= <-]; left; split; [lia|done]|]. intros [[_ ->]|[? _]]; [done|lia].
  - rewrite list_lookup_insert_ne by lia. split; [intros ?; right; split; [lia|done]|]. intros [[? _]|[_ ?]]; [lia|done].
Qed.

(** Which events an increment signals. *)
Definition reached (id v : Z) (e : SyncpointEvent) : Prop :=
  se_state e = Ev_Waiting /\ fence_id (se_fence e) = id /\ fence_threshold (se_fence e) <= v.

#[global] Instance reached_dec id v e : Decision (reached id v e).
Proof. unfold reached. apply _. Defined.

Lemma Increment_inv id c sp : ctrl_inv [] c -> 0 <= id -> ct_syncpoints c !! Z.to_nat id = Some sp ->
  let '(sp', v, called) := Increment sp in
  ctrl_inv called (set_syncpoint id sp' c) /\ forall i e, event_at c i e -> se_event e ∈ called <-> reached id v e.
Proof.
  intros [H1 H2 H3 H4 H5 H6 H7 H8 H9] Hid Hsp. destruct (Increment sp) as [[sp' v] called] eqn:EI.
  destruct (Increment_spec sp sp' v called (H9 _ _ Hsp) EI) as (Hv & Hv' & Hok & Hrest & released & -> & Hnd & Hrel).
  assert (Hown : forall w id', w ∈ released -> w_callback w = Some id' -> is_owned c (Z.to_nat id) w id').
  { intros w id' Hw Hc. apply Hrel in Hw as [Hw _]. by apply (H6 _ _ _ _ Hsp Hw Hc). }
  assert (Hiff : forall i e, event_at c i e -> se_event e ∈ omap w_callback released <-> reached id v e).
  { intros i e He. rewrite list_elem_of_omap. split.
    - intros (w & Hw & Hc). destruct (Hown w _ Hw Hc) as (j & e' & He' & E & Hs & Hf & Ht & _). assert (e' = e) as ->.
      { pose proof (H2 j i e' e He' He E). subst j. unfold event_at in *. congruence. }
      split; [done|]. split; [lia|]. rewrite Ht. by apply Hrel.
    - intros (Hs & Hf & Ht). destruct (H5 i e He Hs) as [Hn|(_ & sp0 & h & Hsp0 & Hh & Hin)]; [by apply elem_of_nil in Hn|].
      rewrite Hf, Hsp in Hsp0. injection Hsp0 as <-. eexists. split; [apply Hrel; split; [exact Hin|done]|done]. }
  split; [|done]. assert (Hev : forall i e, event_at (set_syncpoint id sp' c) i e <-> event_at c i e) by done.
  split; [done|done|done|done| | | | |].
  - intros i e He Hs. destruct (decide (se_event e ∈ omap w_callback released)) as [|Hnc]; [by left|]. right.
    destruct (H5 i e He Hs) as [Hn|(H0 & sp0 & h & Hsp0 & Hh & Hin)]; [by apply elem_of_nil in Hn|]. split; [done|].
    destruct (decide (fence_id (se_fence e) = id)) as [Ef|Ef].
    + exists sp', h. split; [|split; [done|]].
      * apply (set_syncpoint_lookup id sp' sp c _ _ Hid Hsp). left. split; [lia|done].
      * rewrite Ef, Hsp in Hsp0. injection Hsp0 as <-. apply Hrest. split; [done|]. cbn [w_threshold]. destruct (Z.lt_ge_cases v (fence_threshold (se_fence e))); [done|].
        exfalso. apply Hnc. by apply (Hiff i e He).
    + exists sp0, h. split; [|done]. apply (set_syncpoint_lookup id sp' sp c _ _ Hid Hsp). right. split; [lia|done].
  - intros k sp0 w id' Hsp0 Hw Hc. apply (set_syncpoint_lookup id sp' sp c _ _ Hid Hsp) in Hsp0 as [[Hk ->]|[Hk Hsp0]].
    + apply Hrest in Hw as [Hw Ht]. assert (Z.to_nat id = k) as <- by lia. destruct (H6 _ _ _ _ Hsp Hw Hc) as [_ Ho]. split; [|exact Ho].
      intros (w' & Hw' & Hc')%list_elem_of_omap. destruct Ho as (i & e & He & E & Hs & Hf & Hth & Hh). destruct (Hown w' _ Hw' Hc') as (j & e' & He' & E' & _ & _ & Hth' & _).
      assert (e' = e) as -> by (pose proof (H2 j i e' e He' He ltac:(congruence)); subst j; unfold event_at in *; congruence).
      apply Hrel in Hw' as [_ Ht']. lia.
    + destruct (H6 _ _ _ _ Hsp0 Hw Hc) as [_ Ho]. split; [|exact Ho].
      intros (w' & Hw' & Hc')%list_elem_of_omap. destruct Ho as (i & e & He & E & Hs & Hf & _). destruct (Hown w' _ Hw' Hc') as (j & e' & He' & E' & _ & Hf' & _).
      assert (e' = e) as -> by (pose proof (H2 j i e' e He' He ltac:(congruence)); subst j; unfold event_at in *; congruence). lia.
  - apply NoDup_omap_callback; [done|]. intros w w' id' Hw Hw' Hc Hc'. destruct (Hown w id' Hw Hc) as (i & e & He & E & _ & _ & _ & Hh).
    destruct (Hown w' id' Hw' Hc') as (j & e' & He' & E' & _ & _ & _ & Hh'). pose proof (H2 j i e' e He' He ltac:(congruence)). subst j. unfold event_at in *. congruence.
  - intros id' (w & Hw & Hc)%list_elem_of_omap. destruct (Hown w id' Hw Hc) as (i & e & He & E & Hs & _). by exists i, e.
  - intros k sp0 Hsp0. apply (set_syncpoint_lookup id sp' sp c _ _ Hid Hsp) in Hsp0 as [[_ ->]|[_ Hsp0]]; [done|by eapply H9].
Qed.

Lemma idle_not_in_use e : IsInUse e = false -> se_state e = Ev_Waiting \/ idle e -> idle e.
Proof. unfold IsInUse, idle. destruct (se_state e); naive_solver. Qed.

Lemma idle_not_waiting e : idle e -> se_state e <> Ev_Waiting.
Proof. intros [E|[E|E]]; congruence. Qed.

(** The waiter of a registration goes into the list with a fresh number. *)
Lemma insert_waiter_ok threshold id sp : syncpoint_ok sp -> sp_value sp < threshold ->
  syncpoint_ok (mk_syncpoint (sp_value sp) (insert_waiter (mk_waiter threshold (Some id) (sp_next sp)) (sp_waiters sp)) (S (sp_next sp))) /\
  forall w, w ∈ insert_waiter (mk_waiter threshold (Some id) (sp_next sp)) (sp_waiters sp) <-> w = mk_waiter threshold (Some id) (sp_next sp) \/ w ∈ sp_waiters sp.
Proof.
  intros [S1 S2 S3 S4] Ht. set (w0 := mk_waiter _ _ _). pose proof (insert_waiter_perm w0 (sp_waiters sp)) as Hp.
  assert (Hin : forall w, w ∈ insert_waiter w0 (sp_waiters sp) <-> w = w0 \/ w ∈ sp_waiters sp) by (intros w; rewrite Hp; apply elem_of_cons).
  split; [|done]. split; cbn [sp_waiters sp_value sp_next].
  - by apply insert_waiter_sorted.
  - intros w Hw. apply Hin in Hw as [->|Hw]; [done|by apply S2].
  - rewrite Hp. cbn [map]. constructor; [|done]. intros (w & E & Hw)%list_elem_of_fmap. specialize (S4 w Hw). cbn [w_id w0] in E. lia.
  - intros w Hw. apply Hin in Hw as [->|Hw]; [cbn; lia|]. specialize (S4 w Hw). lia.
Qed.

Lemma RegisterWaiter_inv fence slot e c sp :
  ctrl_inv [] c -> event_at c slot e -> idle e -> 0 <= fence_id fence -> ct_syncpoints c !! Z.to_nat (fence_id fence) = Some sp ->
  exists c', SyncpointEvent_RegisterWaiter fence slot e c = ok c' /\ ctrl_inv [] c' /\
    exists e', event_at c' slot e' /\ se_event e' = se_event e /\ se_fence e' = fence.
Proof.
  intros Hi He Hidle Hf Hsp. pose proof (event_at_lt _ _ _ _ Hi He) as Hlt. unfold SyncpointEvent_RegisterWaiter. unfold at_syncpoint at 1.
  set (e1 := mk_event (se_waiterHandle e) Ev_Waiting fence (se_event e)). cbn [set_slot set_events ct_syncpoints]. rewrite Hsp. cbn [from_opt bindM ok].
  unfold RegisterWaiter. destruct Hi as [H1 H2 H3 H4 H5 H6 H7 H8 H9].
  assert (Hother : forall k sp0 w id, ct_syncpoints c !! k = Some sp0 -> w ∈ sp_waiters sp0 -> w_callback w = Some id ->
    id <> se_event e /\ exists i e', i <> slot /\ event_at c i e' /\ se_event e' = id /\ se_state e' = Ev_Waiting /\ fence_id (se_fence e') = Z.of_nat k /\
      fence_threshold (se_fence e') = w_threshold w /\ se_waiterHandle e' = Some (w_id w)).
  { intros k sp0 w id Hk Hw Hc. destruct (H6 _ _ _ _ Hk Hw Hc) as [_ (i & e' & He' & E & Hs & Hr)]. assert (Hne : i <> slot).
    { intros ->. unfold event_at in *. assert (e' = e) as -> by congruence. by apply (idle_not_waiting e). }
    split; [|by exists i, e']. intros ->. apply Hne. by apply (H2 i slot e' e). }
  assert (Hat : forall o c' j e', ct_events c' = <[slot := o]> (ct_events c) -> event_at c' j e' <-> j = slot /\ o = Some e' \/ j <> slot /\ event_at c j e').
  { intros o c' j e' E. rewrite <- (event_at_insert c slot j o e' Hlt). unfold event_at, set_slot. by rewrite E. }
  assert (Hids : forall o c', ct_events c' = <[slot := o]> (ct_events c) -> (forall x, o = Some x -> se_event x = se_event e) ->
    forall i j x x', event_at c' i x -> event_at c' j x' -> se_event x = se_event x' -> i = j).
  { intros o c' E Ho i j x x' Hx Hx' Eq. apply (Hat o c' _ _ E) in Hx as [[-> Ex]|[Hi Hx]], Hx' as [[-> Ex']|[Hj Hx']]; [done| | |by eapply H2].
    - symmetry. apply (H2 j slot x' e Hx' He). rewrite <- Eq. by apply Ho.
    - apply (H2 i slot x e Hx He). rewrite Eq. by apply Ho. }
  destruct (Z.leb_spec (fence_threshold fence) (sp_value sp)) as [Hle|Hgt].
  - cbn beta iota. set (c1 := set_syncpoint (fence_id fence) sp _).
    assert (Esp : ct_syncpoints c1 = ct_syncpoints c) by (unfold c1; cbn; by apply list_insert_id).
    assert (Ev : ct_events c1 = <[slot := Some e1]> (ct_events c)) by done.
    assert (Hi1 : ctrl_inv [se_event e] c1).
    { split.
      - by rewrite Ev, length_insert.
      - apply (Hids (Some e1) c1 Ev). by intros x [= <-].
      - intros i x Hx. apply (Hat _ _ _ _ Ev) in Hx as [[-> [= <-]]|[_ Hx]]; [exact (H3 slot e He)|by apply (H3 i)].
      - intros i x Hx. apply (Hat _ _ _ _ Ev) in Hx as [[-> [= <-]]|[_ Hx]]; [by left|by apply (H4 i)].
      - intros i x Hx Hs. apply (Hat _ _ _ _ Ev) in Hx as [[-> [= <-]]|[_ Hx]]; [left; by left|]. right. unfold is_registered. rewrite Esp.
        destruct (H5 i x Hx Hs) as [Hn|Hr]; [by apply elem_of_nil in Hn|done].
      - intros k sp0 w id. rewrite Esp. intros Hk Hw Hc. destruct (Hother k sp0 w id Hk Hw Hc) as [Hne (i & x & Hi & Hx & Hr)].
        split; [by rewrite list_elem_of_singleton|]. exists i, x. split; [|done]. apply (Hat _ _ _ _ Ev). by right.
      - apply NoDup_singleton.
      - intros id ->%list_elem_of_singleton. exists slot, e1. split; [|done]. apply (Hat _ _ _ _ Ev). by left.
      - intros k sp0. rewrite Esp. apply H9. }
    destruct (signal_all [se_event e] c1 Hi1) as (c2 & HF & Hi2 & E1 & E2 & E3 & E4). rewrite HF. cbn [bindM ok].
    assert (He2 : event_at c2 slot (set_state Ev_Signalled e1)).
    { unfold event_at. rewrite E3, Ev, list_lookup_insert_eq by done. cbn. unfold signal_in. by rewrite decide_True by (by left). }
    assert (Ea : alter (fmap (set_handle None)) slot (ct_events c2) = <[slot := Some (set_handle None (set_state Ev_Signalled e1))]> (ct_events c2)).
    { apply list_eq. intros j. destruct (decide (j = slot)) as [->|Hne].
      - rewrite list_lookup_alter_eq, list_lookup_insert_eq by (by apply lookup_lt_Some in He2). by rewrite He2.
      - by rewrite list_lookup_alter_ne, list_lookup_insert_ne by done. }
    eexists. split; [reflexivity|]. unfold set_events. rewrite Ea. split.
    + apply inv_set_slot; [done|rewrite H1 in Hlt; lia| |lia|].
      * intros x Hx. unfold event_at in *. assert (x = set_state Ev_Signalled e1) as -> by congruence. done.
      * intros x [= <-]. split; [by right; left|]. split; [exact (ci_fresh _ _ Hi2 _ _ He2)|]. intros j x Hj Hx E. apply Hj. by apply (ci_ids _ _ Hi2 _ _ _ _ Hx He2).
    + exists (set_handle None (set_state Ev_Signalled e1)). split; [|by split]. unfold event_at. cbn [ct_events]. apply list_lookup_insert_eq. by apply lookup_lt_Some in He2.
  - cbn beta iota. cbn [foldM bindM ok]. destruct (insert_waiter_ok (fence_threshold fence) (se_event e) sp (H9 _ _ Hsp) Hgt) as [Hok Hin].
    set (sp' := mk_syncpoint _ _ _) in *. set (e2 := mk_event (Some (sp_next sp)) Ev_Waiting fence (se_event e)).
    eexists. split; [reflexivity|]. set (c' := set_events _ _).
    assert (Ev : ct_events c' = <[slot := Some e2]> (ct_events c)).
    { unfold c'. cbn [set_syncpoint set_slot set_events ct_events]. apply list_eq. intros j. destruct (decide (j = slot)) as [->|Hne].
      - by rewrite list_lookup_alter_eq, !list_lookup_insert_eq by done.
      - by rewrite list_lookup_alter_ne, !list_lookup_insert_ne by done. }
    assert (Hsps : forall k sp0, ct_syncpoints c' !! k = Some sp0 <-> Z.of_nat k = fence_id fence /\ sp0 = sp' \/ Z.of_nat k <> fence_id fence /\ ct_syncpoints c !! k = Some sp0).
    { intros k sp0. exact (set_syncpoint_lookup (fence_id fence) sp' sp c k sp0 Hf Hsp). }
    assert (Hwat : event_at c' slot e2) by (apply (Hat _ _ _ _ Ev); by left).
    split; [split|by exists e2].
    + by rewrite Ev, length_insert.
    + apply (Hids (Some e2) c' Ev). by intros x [= <-].
    + intros i x Hx. apply (Hat _ _ _ _ Ev) in Hx as [[-> [= <-]]|[_ Hx]]; [exact (H3 slot e He)|by apply (H3 i)].
    + intros i x Hx. apply (Hat _ _ _ _ Ev) in Hx as [[-> [= <-]]|[_ Hx]]; [by left|by apply (H4 i)].
    + intros i x Hx Hs. right. apply (Hat _ _ _ _ Ev) in Hx as [[-> [= <-]]|[_ Hx]].
      * split; [done|]. exists sp', (sp_next sp). split; [apply Hsps; left; cbn [se_fence e2]; split; [lia|done]|]. split; [done|]. apply Hin. by left.
      * destruct (H5 i x Hx Hs) as [Hn|(H0 & sp0 & h & Hk & Hh & Hw)]; [by apply elem_of_nil in Hn|]. split; [done|].
        destruct (decide (fence_id (se_fence x) = fence_id fence)) as [Ef|Ef].
        -- exists sp', h. split; [apply Hsps; left; split; [lia|done]|]. split; [done|]. apply Hin. right. rewrite Ef, Hsp in Hk. by injection Hk as <-.
        -- exists sp0, h. split; [apply Hsps; right; split; [lia|done]|done].
    + intros k sp0 w id Hk Hw Hc. split; [apply not_elem_of_nil|]. apply Hsps in Hk as [[Hk ->]|[Hk Hk']].
      * apply Hin in Hw as [->|Hw]; [cbn in Hc; injection Hc as <-; by exists slot, e2|]. assert (Z.to_nat (fence_id fence) = k) as Ek by lia. rewrite Ek in Hsp.
        destruct (Hother _ _ _ _ Hsp Hw Hc) as [_ (i & x & Hi & Hx & Hr)]. exists i, x. split; [|done]. apply (Hat _ _ _ _ Ev). by right.
      * destruct (Hother _ _ _ _ Hk' Hw Hc) as [_ (i & x & Hi & Hx & Hr)]. exists i, x. split; [|done]. apply (Hat _ _ _ _ Ev). by right.
    + constructor.
    + intros id Hid. by apply elem_of_nil in Hid.
    + intros k sp0 Hk. apply Hsps in Hk as [[_ ->]|[_ Hk]]; [done|by eapply H9].
Qed.

Lemma SyncpointEvent_new_inv slot c :
  ctrl_inv [] c -> (slot < SyncpointEventCount)%nat -> (forall e, event_at c slot e -> se_state e <> Ev_Waiting) -> ctrl_inv [] (SyncpointEvent_new slot c).
Proof.
  intros Hi Hlt Hw. unfold SyncpointEvent_new. apply inv_set_slot; [done|done|done|lia|]. intros e [= <-]. split; [by left|]. split; [cbn; lia|].
  intros j e' _ He' E. pose proof (ci_fresh _ _ Hi j e' He') as Hf. cbn in E. lia.
Qed.

Lemma find_slots_spec syncpointId l i eventSlot freeSlot :
  match find_slots syncpointId i l eventSlot freeSlot with
  | inl slot => exists k e, slot = (i + k)%nat /\ l !! k = Some (Some e) /\ IsInUse e = false
  | inr (eventSlot', freeSlot') =>
      (eventSlot' = eventSlot \/ exists k e, eventSlot' = (i + k)%nat /\ l !! k = Some (Some e) /\ IsInUse e = false) /\
      (freeSlot' = freeSlot \/ exists k, freeSlot' = (i + k)%nat /\ l !! k = Some None)
  end.
Proof.
  revert i eventSlot freeSlot. induction l as [|o l IH]; intros i eventSlot freeSlot; cbn [find_slots]; [by split; left|].
  assert (Hshift : forall ev fr, match find_slots syncpointId (S i) l ev fr with
    | inl slot => exists k e, slot = (i + k)%nat /\ (o :: l) !! k = Some (Some e) /\ IsInUse e = false
    | inr (eventSlot', freeSlot') =>
        (eventSlot' = ev \/ exists k e, eventSlot' = (i + k)%nat /\ (o :: l) !! k = Some (Some e) /\ IsInUse e = false) /\
        (freeSlot' = fr \/ exists k, freeSlot' = (i + k)%nat /\ (o :: l) !! k = Some None) end).
  { intros ev fr. specialize (IH (S i) ev fr). destruct (find_slots syncpointId (S i) l ev fr) as [slot|[ev' fr']].
    - destruct IH as (k & e & -> & Hk & Hu). exists (S k), e. split; [lia|done].
    - destruct IH as [[->|(k & e & -> & Hk & Hu)] [->|(k' & -> & Hk')]]; (split; [try by left|try by left]).
      all: try (right; exists (S k), e; split; [lia|done]). all: right; exists (S k'); split; [lia|done]. }
  destruct o as [e|].
  - destruct (IsInUse e) eqn:Eu; cbn [negb]; [apply Hshift|]. destruct (fence_id (se_fence e) =? syncpointId); [exists O, e; split; [lia|done]|].
    specialize (Hshift i freeSlot). destruct (find_slots _ _ _ _ _) as [|[ev' fr']]; [done|]. destruct Hshift as [[->|?] ?]; (split; [|done]); [|by right].
    right. exists O, e. split; [lia|done].
  - specialize (Hshift eventSlot (if (freeSlot =? SyncpointEventCount)%nat then i else freeSlot)). destruct (find_slots _ _ _ _ _) as [|[ev' fr']]; [done|].
    destruct Hshift as [? [->|?]]; (split; [done|]); [|by right]. destruct (freeSlot =? SyncpointEventCount)%nat; [|by left]. right. exists O. split; [lia|done].
Qed.

(** The slot that is found holds an event that is not in use. *)
Lemma FindFreeSyncpointEvent_inv syncpointId c c' slot : ctrl_inv [] c -> FindFreeSyncpointEvent syncpointId c = ok (c', slot) ->
  ctrl_inv [] c' /\ (slot < SyncpointEventCount)%nat /\ ct_syncpoints c' = ct_syncpoints c /\ exists e, event_at c' slot e /\ idle e.
Proof.
  intros Hi HF. unfold FindFreeSyncpointEvent in HF. pose proof (find_slots_spec syncpointId (ct_events c) 0 SyncpointEventCount SyncpointEventCount) as Hs.
  assert (Hev : forall k e, ct_events c !! k = Some (Some e) -> IsInUse e = false -> (k < SyncpointEventCount)%nat /\ idle e).
  { intros k e Hk Hu. split; [rewrite <- (ci_len _ _ Hi); by eapply lookup_lt_Some|]. apply idle_not_in_use; [done|]. by apply (ci_state _ _ Hi k). }
  destruct (find_slots _ _ _ _ _) as [s|[ev fr]].
  - destruct Hs as (k & e & -> & Hk & Hu). injection HF as <- <-. destruct (Hev k e Hk Hu). cbn [Nat.add]. do 3 (split; [done|]). by exists e.
  - destruct Hs as [Hs1 Hs2]. destruct (Nat.ltb_spec fr SyncpointEventCount) as [Hlt|Hge].
    + injection HF as <- <-. destruct Hs2 as [->|(k & -> & Hk)]; [lia|]. split; [apply SyncpointEvent_new_inv; [done|done|]|].
      { intros e He. cbn [Nat.add] in He. unfold event_at in He. congruence. }
      split; [done|]. split; [done|]. exists (mk_event None Ev_Available (mk_fence 0 0) (ct_next c)). split; [|by left]. unfold event_at, SyncpointEvent_new. cbn [ct_events]. apply list_lookup_insert_eq. rewrite (ci_len _ _ Hi). lia.
    + destruct (Nat.ltb_spec ev SyncpointEventCount) as [Hlt|]; [|done]. injection HF as <- <-. destruct Hs1 as [->|(k & e & -> & Hk & Hu)]; [lia|].
      destruct (Hev k e Hk Hu). cbn [Nat.add]. do 3 (split; [done|]). by exists e.
Qed.

Lemma ctrl_inv_manager pending c m : ctrl_inv pending c -> ctrl_inv pending (set_manager m c).
Proof. by intros [H1 H2 H3 H4 H5 H6 H7 H8 H9]. Qed.

(** Only the events and the syncpoints matter. *)
Lemma ctrl_inv_same pending c c' : ct_events c' = ct_events c -> ct_syncpoints c' = ct_syncpoints c -> ct_next c' = ct_next c -> ctrl_inv pending c -> ctrl_inv pending c'.
Proof. destruct c, c'. cbn. intros -> -> -> [H1 H2 H3 H4 H5 H6 H7 H8 H9]. by split. Qed.

Lemma SyncpointWaitEventImpl_inv fence timeout value allocate c c' v r :
  ctrl_inv [] c -> 0 <= fence_id fence -> SyncpointWaitEventImpl fence timeout value allocate c = ok (c', v, r) -> ctrl_inv [] c'.
Proof.
  intros Hi Hf HW. unfold SyncpointWaitEventImpl in HW. destruct (_ <=? _); [by injection HW as <- _ _|]. destruct (_ =? 0).
  { apply bindM_ok in HW as (? & _ & HW). by injection HW as <- _ _. }
  apply bindM_ok in HW as (signalled & _ & HW). destruct signalled; [apply bindM_ok in HW as (? & _ & HW); by injection HW as <- _ _|].
  apply bindM_ok in HW as ([m minVal] & HU & HW). apply bindM_ok in HW as (signalled & _ & HW).
  destruct signalled; [injection HW as <- _ _; by apply ctrl_inv_manager|]. destruct (timeout =? 0); [injection HW as <- _ _; by apply ctrl_inv_manager|].
  assert (Hsp : exists sp, ct_syncpoints c !! Z.to_nat (fence_id fence) = Some sp).
  { unfold UpdateMin in HU. apply bindM_ok in HU as (i & _ & HU). destruct (negb _); [done|]. apply bindM_ok in HU as (sp & HU & _). exists sp.
    unfold at_syncpoint in HU. destruct (ct_syncpoints c !! _); [by injection HU as ->|done]. }
  destruct Hsp as [sp Hsp]. apply bindM_ok in HW as ([[c1 value1] slot] & HA & HW).
  assert (Hi1 : ctrl_inv [] c1 /\ ct_syncpoints c1 = ct_syncpoints c).
  { destruct allocate; [|injection HA as <- _ _; split; [by apply ctrl_inv_manager|done]]. apply bindM_ok in HA as ([c0 s0] & HF & HA). injection HA as <- _ _.
    apply FindFreeSyncpointEvent_inv in HF as (? & _ & ? & _); [done|by apply ctrl_inv_manager]. }
  destruct Hi1 as [Hi1 Es]. destruct (_ <=? slot); [by injection HW as <- _ _|]. destruct (ct_events c1 !! Z.to_nat slot) as [[e|]|] eqn:Ee; [|by injection HW as <- _ _..].
  destruct (IsInUse e) eqn:Eu; cbn [negb] in HW; [by injection HW as <- _ _|]. apply bindM_ok in HW as (c2 & HR & HW). injection HW as <- _ _.
  rewrite <- Es in Hsp. destruct (RegisterWaiter_inv fence (Z.to_nat slot) e c1 sp Hi1 Ee) as (c3 & E & Hi3 & _); [|done|done|rewrite E in HR; by injection HR as <-].
  apply idle_not_in_use; [done|]. by apply (ci_state _ _ Hi1 (Z.to_nat slot)).
Qed.

Lemma SyncpointFreeEventLocked_inv slot c : ctrl_inv [] c -> ctrl_inv [] (fst (SyncpointFreeEventLocked slot c)).
Proof.
  intros Hi. unfold SyncpointFreeEventLocked. destruct (Z.leb_spec (Z.of_nat SyncpointEventCount) slot); [done|].
  destruct (ct_events c !! Z.to_nat slot) as [[e|]|] eqn:Ee; [|done|done]. destruct (IsInUse e) eqn:Eu; [done|]. cbn [fst].
  apply inv_set_slot; [done| | |lia|done].
  - rewrite <- (ci_len _ _ Hi). by eapply lookup_lt_Some.
  - intros e' He'. unfold event_at in He'. assert (e' = e) as -> by congruence. apply idle_not_waiting, idle_not_in_use; [done|]. by apply (ci_state _ _ Hi (Z.to_nat slot)).
Qed.

Lemma SyncpointAllocateEvent_inv slot c : ctrl_inv [] c -> 0 <= slot -> ctrl_inv [] (fst (SyncpointAllocateEvent slot c)).
Proof.
  intros Hi H0. unfold SyncpointAllocateEvent. destruct (Z.leb_spec (Z.of_nat SyncpointEventCount) slot) as [|Hlt]; [done|].
  destruct (ct_events c !! Z.to_nat slot) as [[e|]|] eqn:Ee.
  - pose proof (SyncpointFreeEventLocked_inv slot c Hi) as Hi'. unfold SyncpointFreeEventLocked in *. rewrite (proj2 (Z.leb_gt _ _) Hlt), Ee in *.
    destruct (IsInUse e); cbn [fst] in *; [by rewrite bool_decide_eq_false_2|]. rewrite bool_decide_eq_true_2 by done. cbn [fst].
    apply SyncpointEvent_new_inv; [done|lia|]. intros e' He'. unfold event_at, set_slot, set_events in He'. cbn [ct_events] in He'.
    rewrite list_lookup_insert_eq in He' by (by eapply lookup_lt_Some). done.
  - cbn [fst]. apply SyncpointEvent_new_inv; [done|lia|]. intros e He. unfold event_at in He. congruence.
  - apply lookup_ge_None in Ee. rewrite (ci_len _ _ Hi) in Ee. lia.
Qed.

Lemma SyncpointFreeEventBatch_inv bitmask c : ctrl_inv [] c -> ctrl_inv [] (fst (SyncpointFreeEventBatch bitmask c)).
Proof.
  unfold SyncpointFreeEventBatch. match goal with |- context [fold_left ?g _ _] => set (f := g) end. cut (forall l s, ctrl_inv [] (fst s) -> ctrl_inv [] (fst (fold_left f l s))).
  { intros H Hi. by apply H. }
  induction l as [|i l IH]; intros [c' err] Hi; [done|]. cbn [fold_left]. apply IH. unfold f. destruct (bit bitmask i); [|done].
  pose proof (SyncpointFreeEventLocked_inv i c' Hi) as Hi'. by destruct (SyncpointFreeEventLocked i c').
Qed.

Lemma NoDup_map_inj {A B} (f : A -> B) l x y : NoDup (map f l) -> x ∈ l -> y ∈ l -> f x = f y -> x = y.
Proof.
  induction l as [|a l IH]; intros Hnd Hx Hy E; [by apply elem_of_nil in Hx|]. cbn [map] in Hnd. apply NoDup_cons in Hnd as [Hnin Hnd].
  apply elem_of_cons in Hx as [->|Hx], Hy as [->|Hy]; [done| | |by apply IH].
  - exfalso. apply Hnin. rewrite E. by apply list_elem_of_fmap_2.
  - exfalso. apply Hnin. rewrite <- E. by apply list_elem_of_fmap_2.
Qed.

Lemma alter_insert_events f slot e (l : list (option SyncpointEvent)) : (slot < length l)%nat -> alter (fmap f) slot (<[slot := Some e]> l) = <[slot := Some (f e)]> l.
Proof.
  intros Hlt. apply list_eq. intros j. destruct (decide (j = slot)) as [->|Hne].
  - by rewrite list_lookup_alter_eq, !list_lookup_insert_eq by done.
  - by rewrite list_lookup_alter_ne, !list_lookup_insert_ne by done.
Qed.

(** An event that waits is cleared together with its waiter. *)
Lemma cancel_inv c slot e sp h ks m :
  ctrl_inv [] c -> event_at c slot e -> se_state e = Ev_Waiting -> 0 <= fence_id (se_fence e) ->
  ct_syncpoints c !! Z.to_nat (fence_id (se_fence e)) = Some sp -> se_waiterHandle e = Some h ->
  mk_waiter (fence_threshold (se_fence e)) (Some (se_event e)) h ∈ sp_waiters sp ->
  ctrl_inv [] (mk_ctrl (<[slot := Some (mk_event None Ev_Cancelled (se_fence e) (se_event e))]> (ct_events c)) ks
    (<[Z.to_nat (fence_id (se_fence e)) := DeregisterWaiter h sp]> (ct_syncpoints c)) m (ct_next c)).
Proof.
  intros Hi He Hs Hf Hsp Hh Hw. pose proof (event_at_lt _ _ _ _ Hi He) as Hlt. destruct Hi as [H1 H2 H3 H4 H5 H6 H7 H8 H9].
  set (e' := mk_event None _ _ _). set (c' := mk_ctrl _ _ _ _ _). pose proof (H9 _ _ Hsp) as [S1 S2 S3 S4].
  assert (Hat : forall j x, event_at c' j x <-> j = slot /\ Some e' = Some x \/ j <> slot /\ event_at c j x) by (intros j x; by apply (event_at_insert c slot j (Some e') x)).
  assert (Hsps : forall k sp0, ct_syncpoints c' !! k = Some sp0 <->
    Z.of_nat k = fence_id (se_fence e) /\ sp0 = DeregisterWaiter h sp \/ Z.of_nat k <> fence_id (se_fence e) /\ ct_syncpoints c !! k = Some sp0).
  { intros k sp0. exact (set_syncpoint_lookup _ (DeregisterWaiter h sp) sp c k sp0 Hf Hsp). }
  assert (Hdr : forall w, w ∈ sp_waiters (DeregisterWaiter h sp) <-> w_id w <> h /\ w ∈ sp_waiters sp) by (intros w; exact (list_elem_of_filter _ _ w)).
  assert (Hown : forall k sp0 w id, ct_syncpoints c !! k = Some sp0 -> w ∈ sp_waiters sp0 -> w_callback w = Some id -> Z.of_nat k <> fence_id (se_fence e) \/ w_id w <> h ->
    is_owned c' k w id).
  { intros k sp0 w id Hk Hin Hc Hne. destruct (H6 _ _ _ _ Hk Hin Hc) as [_ (j & x & Hx & E & Hsx & Hfx & Htx & Hhx)]. exists j, x. split; [|done]. apply Hat. right.
    split; [|done]. intros ->. unfold event_at in *. assert (x = e) as -> by congruence. destruct Hne; [congruence|]. congruence. }
  split.
  - unfold c'. cbn [ct_events]. by rewrite length_insert.
  - intros i j x y Hx Hy E. apply Hat in Hx as [[-> [= <-]]|[Hi Hx]], Hy as [[-> [= <-]]|[Hj Hy]]; [done| | |by eapply H2].
    + by destruct (Hj (H2 j slot y e Hy He (eq_sym E))).
    + by destruct (Hi (H2 i slot x e Hx He E)).
  - intros i x Hx. apply Hat in Hx as [[-> [= <-]]|[_ Hx]]; [exact (H3 slot e He)|by apply (H3 i)].
  - intros i x Hx. apply Hat in Hx as [[-> [= <-]]|[_ Hx]]; [by right; right; right|by apply (H4 i)].
  - intros i x Hx Hsx. apply Hat in Hx as [[-> [= <-]]|[Hne Hx]]; [done|]. right. destruct (H5 i x Hx Hsx) as [Hn|(H0 & sp0 & h0 & Hk & Hh0 & Hin)]; [by apply elem_of_nil in Hn|].
    split; [done|]. destruct (decide (fence_id (se_fence x) = fence_id (se_fence e))) as [Ef|Ef].
    + exists (DeregisterWaiter h sp), h0. split; [apply Hsps; left; split; [lia|done]|]. split; [done|]. rewrite Ef, Hsp in Hk. injection Hk as <-. apply Hdr. split; [|done].
      cbn [w_id]. intros ->. apply Hne, (H2 i slot x e Hx He).
      assert (Eq : mk_waiter (fence_threshold (se_fence x)) (Some (se_event x)) h = mk_waiter (fence_threshold (se_fence e)) (Some (se_event e)) h); [|congruence].
      by apply (NoDup_map_inj w_id (sp_waiters sp)).
    + exists sp0, h0. split; [apply Hsps; right; split; [lia|done]|done].
  - intros k sp0 w id Hk Hin Hc. split; [apply not_elem_of_nil|]. apply Hsps in Hk as [[Hk ->]|[Hk Hk']].
    + apply Hdr in Hin as [Hne Hin]. assert (Z.to_nat (fence_id (se_fence e)) = k) as Ek by lia. rewrite Ek in Hsp. apply (Hown k sp); [done|done|done|by right].
    + apply (Hown k sp0); [done|done|done|by left].
  - constructor.
  - intros id Hid. by apply elem_of_nil in Hid.
  - intros k sp0 Hk. apply Hsps in Hk as [[_ ->]|[_ Hk]]; [|by eapply H9]. split; cbn [DeregisterWaiter sp_waiters sp_value sp_next].
    + by apply ascending_filter.
    + intros w [_ Hin]%list_elem_of_filter. by apply S2.
    + rewrite (ids_filter h) in S3. by apply NoDup_app in S3 as [? _].
    + intros w [_ Hin]%list_elem_of_filter. by apply S4.
Qed.

Lemma SyncpointClearEventWait_inv value c c' r : ctrl_inv [] c -> SyncpointClearEventWait value c = ok (c', r) -> ctrl_inv [] c'.
Proof.
  intros Hi HC. unfold SyncpointClearEventWait in HC. destruct (Z.leb_spec (Z.of_nat SyncpointEventCount) (value_slot value)) as [|Hlt]; [by injection HC as <- _|].
  destruct (ct_events c !! Z.to_nat (value_slot value)) as [[e|]|] eqn:Ee; [|by injection HC as <- _..]. set (slot := Z.to_nat (value_slot value)) in *.
  pose proof (event_at_lt _ _ _ _ Hi Ee) as Hl. case_bool_decide as Es.
  - unfold SyncpointEvent_Cancel in HC. cbn [set_state se_fence se_waiterHandle] in HC. cbn [set_slot set_events ct_syncpoints] in HC.
    destruct (ci_waiting _ _ Hi slot e Ee Es) as [Hn|(H0 & sp & h & Hsp & Hh & Hw)]; [by apply elem_of_nil in Hn|].
    unfold at_syncpoint at 1 in HC. rewrite Hsp, Hh in HC. cbn [from_opt bindM ok] in HC.
    apply bindM_ok in HC as (c1 & HU & HC). apply bindM_ok in HU as ([m v] & HU & HU1). injection HU1 as <-. injection HC as <- _.
    cbn [set_manager set_syncpoint set_slot set_events set_kevent ct_events ct_kevents ct_syncpoints ct_next].
    rewrite list_insert_insert_eq, alter_insert_events by done. by apply (cancel_inv c slot e sp h).
  - cbn [bindM ok] in HC. injection HC as <- _. unfold set_kevent, set_events, set_slot, set_events. cbn [ct_events ct_kevents ct_syncpoints ct_manager ct_next].
    rewrite alter_insert_events by done. apply inv_set_slot; [done|unfold slot, SyncpointEventCount in *; rewrite (ci_len _ _ Hi) in Hl; done| |lia|].
    + intros x Hx. unfold event_at in Hx. congruence.
    + intros x [= <-]. split; [by right; right|]. split; [exact (ci_fresh _ _ Hi _ _ Ee)|]. intros j x Hj Hx E. apply Hj. by apply (ci_ids _ _ Hi _ _ _ _ Hx Ee).
Qed.

(** ** Runs *)

Inductive ctrl_step : Ctrl -> Ctrl -> Prop :=
  | step_increment id c c' : 0 <= id -> Ctrl_Increment id c = ok c' -> ctrl_step c c'
  | step_wait fence timeout value allocate c c' v r :
      0 <= fence_id fence -> SyncpointWaitEventImpl fence timeout value allocate c = ok (c', v, r) -> ctrl_step c c'
  | step_clear value c c' r : SyncpointClearEventWait value c = ok (c', r) -> ctrl_step c c'
  | step_allocate slot c : 0 <= slot -> ctrl_step c (fst (SyncpointAllocateEvent slot c))
  | step_free slot c : ctrl_step c (fst (SyncpointFreeEvent slot c))
  | step_free_batch bitmask c : ctrl_step c (fst (SyncpointFreeEventBatch bitmask c)).

Definition Ctrl_new (m : SyncpointManager) : Ctrl := mk_ctrl (replicate SyncpointEventCount None) ∅ (replicate SyncpointCount Syncpoint_new) m 0.

Lemma Ctrl_new_inv m : ctrl_inv [] (Ctrl_new m).
Proof.
  assert (Hno : forall i e, ~ event_at (Ctrl_new m) i e) by (intros i e [He _]%lookup_replicate; done).
  assert (Hsp : forall k sp, ct_syncpoints (Ctrl_new m) !! k = Some sp -> sp = Syncpoint_new) by (by intros k sp [-> _]%lookup_replicate).
  split; try (intros i e He; by destruct (Hno i e)); try done.
  - intros i j e e' He. by destruct (Hno i e).
  - intros k sp w id Hk Hw. apply Hsp in Hk as ->. by apply elem_of_nil in Hw.
  - constructor.
  - intros id Hid. by apply elem_of_nil in Hid.
  - intros k sp Hk. apply Hsp in Hk as ->. split; [constructor|intros w Hw; by apply elem_of_nil in Hw|constructor|intros w Hw; by apply elem_of_nil in Hw].
Qed.

Lemma Ctrl_Increment_ok id c sp : ctrl_inv [] c -> 0 <= id -> ct_syncpoints c !! Z.to_nat id = Some sp ->
  exists c', Ctrl_Increment id c = ok c' /\ ctrl_inv [] c' /\
    (forall i e, event_at c i e -> event_at c' i (if decide (reached id (u32 (sp_value sp + 1)) e) then set_state Ev_Signalled e else e)) /\
    (forall i e, event_at c i e -> ct_kevents c' !! se_event e = if decide (reached id (u32 (sp_value sp + 1)) e) then Some true else ct_kevents c !! se_event e) /\
    sp_value <$> ct_syncpoints c' !! Z.to_nat id = Some (u32 (sp_value sp + 1)).
Proof.
  intros Hi H0 Hsp. pose proof (Increment_inv id c sp Hi H0 Hsp) as HI. unfold Ctrl_Increment, at_syncpoint. rewrite Hsp. cbn [from_opt bindM ok].
  destruct (Increment sp) as [[sp' v] called] eqn:EI. destruct HI as [Hi1 Hiff].
  destruct (Increment_spec sp sp' v called (ci_sps _ _ Hi _ _ Hsp) EI) as (-> & Hv & _).
  destruct (signal_all called _ Hi1) as (c' & HF & Hi2 & E1 & _ & E3 & E4). exists c'. split; [done|]. split; [done|]. split; [|split].
  - intros i e He. unfold event_at. rewrite E3. cbn [set_syncpoint ct_events]. unfold event_at in He. rewrite He. cbn. do 2 f_equal. unfold signal_in.
    destruct (decide (se_event e ∈ called)) as [Hin|Hin], (decide (reached _ _ e)) as [Hr|Hr]; try done; exfalso; [by apply Hr, (Hiff i)|by apply Hin, (Hiff i)].
  - intros i e He. rewrite E4. cbn [set_syncpoint ct_kevents].
    destruct (decide (se_event e ∈ called)) as [Hin|Hin], (decide (reached _ _ e)) as [Hr|Hr]; try done; exfalso; [by apply Hr, (Hiff i)|by apply Hin, (Hiff i)].
  - rewrite E1. cbn [set_syncpoint ct_syncpoints]. rewrite list_lookup_insert_eq by (by eapply lookup_lt_Some). cbn. by rewrite Hv.
Qed.

Lemma ctrl_step_inv c c' : ctrl_step c c' -> ctrl_inv [] c -> ctrl_inv [] c'.
Proof.
  intros [id c0 c1 H0 HI|fence timeout value allocate c0 c1 v r H0 HW|value c0 c1 r HC|slot c0 H0|slot c0|bitmask c0] Hi.
  - assert (Hsp : exists sp, ct_syncpoints c0 !! Z.to_nat id = Some sp).
    { unfold Ctrl_Increment, at_syncpoint in HI. destruct (ct_syncpoints c0 !! Z.to_nat id) as [sp|]; [by exists sp|done]. }
    destruct Hsp as [sp Hsp]. destruct (Ctrl_Increment_ok id c0 sp Hi H0 Hsp) as (c2 & E & Hi2 & _). rewrite E in HI. by injection HI as <-.
  - by eapply SyncpointWaitEventImpl_inv.
  - by eapply SyncpointClearEventWait_inv.
  - by apply SyncpointAllocateEvent_inv.
  - by apply SyncpointFreeEventLocked_inv.
  - by apply SyncpointFreeEventBatch_inv.
Qed.

Lemma ctrl_reachable_inv c c' : rtc ctrl_step c c' -> ctrl_inv [] c -> ctrl_inv [] c'.
Proof. induction 1 as [|c1 c2 c3 Hs _ IH]; intros Hi; [done|]. by apply IH, (ctrl_step_inv c1). Qed.

(** ** Theorems *)

(** However a guest waits on fences, clears, allocates and frees events while the hardware
    increments syncpoints, every waiter with a callback belongs to an event that the device still
    has and that waits for exactly that syncpoint and threshold, every event that waits has its
    waiter in the list of the syncpoint, and so an increment does not call back a freed event.
    A step of the hardware is an increment with all of its callbacks, which the code does not
    serialise with the guest's calls: [signal_races_free] is what can happen in between. *)
Theorem ctrl_callbacks_sound m c :
  rtc ctrl_step (Ctrl_new m) c ->
  (forall k sp w id, ct_syncpoints c !! k = Some sp -> w ∈ sp_waiters sp -> w_callback w = Some id -> is_owned c k w id) /\
  (forall i e, event_at c i e -> se_state e = Ev_Waiting -> is_registered c e) /\
  forall id sp, 0 <= id -> ct_syncpoints c !! Z.to_nat id = Some sp -> exists c', Ctrl_Increment id c = ok c'.
Proof.
  intros Hr. pose proof (ctrl_reachable_inv _ _ Hr (Ctrl_new_inv m)) as Hi. split; [|split].
  - intros k sp w id Hk Hw Hc. by apply (ci_waiters _ _ Hi k sp w id).
  - intros i e He Hs. destruct (ci_waiting _ _ Hi i e He Hs) as [Hn|]; [by apply elem_of_nil in Hn|done].
  - intros id sp H0 Hsp. destruct (Ctrl_Increment_ok id c sp Hi H0 Hsp) as (c' & E & _). by exists c'.
Qed.

Definition sample_manager : SyncpointManager := match SyncpointManager_new with inr m => m | inl _ => [] end.
Definition sample_wait : Ctrl :=
  match SyncpointWaitEvent (mk_fence 26 1) (-1) 0 (Ctrl_new sample_manager) with inr (c, _, _) => c | inl _ => Ctrl_new sample_manager end.

Lemma ctrl_callbacks_sound_witness : exists c', Ctrl_Increment 26 sample_wait = ok c'.
Proof.
  refine (proj2 (proj2 (ctrl_callbacks_sound sample_manager sample_wait _)) 26 _ _ _); [|lia|vm_compute; reflexivity].
  apply rtc_once. eapply (step_wait (mk_fence 26 1) (-1) 0 true _ _ _ _ ltac:(done)). vm_compute. reflexivity.
Defined.

(** an increment of a syncpoint signals exactly the events that wait for that syncpoint with a
    threshold the new value has reached: those become signalled and so do their kernel events, and
    every other event and its kernel event stay as they were. *)
Theorem Ctrl_Increment_signals_reached id c sp :
  ctrl_inv [] c -> 0 <= id -> ct_syncpoints c !! Z.to_nat id = Some sp ->
  exists c', Ctrl_Increment id c = ok c' /\ sp_value <$> ct_syncpoints c' !! Z.to_nat id = Some (u32 (sp_value sp + 1)) /\
    forall i e, event_at c i e ->
      if decide (se_state e = Ev_Waiting /\ fence_id (se_fence e) = id /\ fence_threshold (se_fence e) <= u32 (sp_value sp + 1))
      then event_at c' i (set_state Ev_Signalled e) /\ ct_kevents c' !! se_event e = Some true
      else event_at c' i e /\ ct_kevents c' !! se_event e = ct_kevents c !! se_event e.
Proof.
  intros Hi H0 Hsp. destruct (Ctrl_Increment_ok id c sp Hi H0 Hsp) as (c' & E & _ & H1 & H2 & H3). exists c'. split; [done|]. split; [done|].
  intros i e He. specialize (H1 i e He). specialize (H2 i e He). unfold reached in H1, H2. by destruct (decide _).
Qed.

Lemma Ctrl_Increment_signals_reached_witness :
  exists c', Ctrl_Increment 26 sample_wait = ok c' /\ event_at c' 0 (mk_event (Some 0%nat) Ev_Signalled (mk_fence 26 1) 0) /\ ct_kevents c' !! 0%nat = Some true.
Proof.
  assert (Hi : ctrl_inv [] sample_wait).
  { apply (ctrl_reachable_inv (Ctrl_new sample_manager)); [|apply Ctrl_new_inv]. apply rtc_once. eapply (step_wait (mk_fence 26 1) (-1) 0 true _ _ _ _ ltac:(done)). vm_compute. reflexivity. }
  destruct (Ctrl_Increment_signals_reached 26 sample_wait (mk_syncpoint 0 [mk_waiter 1 (Some 0%nat) 0] 1) Hi ltac:(lia) ltac:(vm_compute; reflexivity))
    as (c' & E & _ & H). exists c'. split; [exact E|]. specialize (H 0%nat (mk_event (Some 0%nat) Ev_Waiting (mk_fence 26 1) 0) ltac:(vm_compute; reflexivity)).
  rewrite decide_True in H by (vm_compute; repeat split; discriminate). exact H.
Defined.

(** The fields of the value of a registered wait. *)
Definition value_fields (id slot : Z) : bool :=
  let v := event_value true id slot in
  value_eventAllocated v && (value_slot v =? slot) && (value_syncpointIdForAllocation v =? id) && (value_partialSlot v =? slot mod 16).

Lemma event_value_fields id slot : 0 <= id < 192 -> 0 <= slot < 64 -> value_fields id slot = true.
Proof.
  intros Hid Hslot. assert (H : forallb (fun id => forallb (value_fields id) (seqZ 0 64)) (seqZ 0 192) = true) by (vm_compute; reflexivity).
  rewrite forallb_forall in H. specialize (H id ltac:(apply list_elem_of_In, elem_of_seqZ; lia)).
  rewrite forallb_forall in H. apply H. apply list_elem_of_In, elem_of_seqZ. lia.
Qed.

(** the value that a registered wait on a fence gives back names its event, so that the guest
    can get the kernel event for it, if the event is in one of the first sixteen slots. *)
Theorem SyncpointWaitEvent_QueryEvent fence timeout value c c' v :
  ctrl_inv [] c -> 0 <= fence_id fence -> timeout <> 0 -> SyncpointWaitEvent fence timeout value c = ok (c', v, Posix_TryAgain) -> value_slot v < 16 ->
  exists e, event_at c' (Z.to_nat (value_slot v)) e /\ se_fence e = fence /\ QueryEvent v c' = Some (se_event e).
Proof.
  intros Hi Hf Ht HW Hv. unfold SyncpointWaitEvent, SyncpointWaitEventImpl in HW. destruct (Z.leb_spec (Z.of_nat SyncpointCount) (fence_id fence)) as [|Hc]; [done|].
  destruct (_ =? 0); [by apply bindM_ok in HW as (? & _ & HW)|]. apply bindM_ok in HW as (signalled & _ & HW).
  destruct signalled; [by apply bindM_ok in HW as (? & _ & HW)|]. apply bindM_ok in HW as ([m minVal] & HU & HW). apply bindM_ok in HW as (signalled & _ & HW).
  destruct signalled; [done|]. rewrite (proj2 (Z.eqb_neq timeout 0) Ht) in HW. apply bindM_ok in HW as ([[c1 value1] slot] & HA & HW).
  apply bindM_ok in HA as ([c0 s0] & HF & HA). injection HA as <- <- <-.
  assert (Hsp : exists sp, ct_syncpoints c !! Z.to_nat (fence_id fence) = Some sp).
  { unfold UpdateMin in HU. apply bindM_ok in HU as (i & _ & HU). destruct (negb _); [done|]. apply bindM_ok in HU as (sp & HU & _). exists sp.
    unfold at_syncpoint in HU. destruct (ct_syncpoints c !! _); [by injection HU as ->|done]. }
  destruct Hsp as [sp Hsp]. apply FindFreeSyncpointEvent_inv in HF as (Hi0 & Hs0 & Es & e & He & Hidle); [|by apply ctrl_inv_manager].
  rewrite (proj2 (Z.leb_gt _ _)) in HW by lia. rewrite Nat2Z.id in HW. unfold event_at in He. rewrite He in HW.
  destruct (IsInUse e) eqn:Eu; cbn [negb] in HW; [done|]. apply bindM_ok in HW as (c2 & HR & HW). injection HW as <- <-.
  cbn [set_manager ct_syncpoints] in Es. rewrite <- Es in Hsp. destruct (RegisterWaiter_inv fence s0 e c0 sp Hi0 He Hidle Hf Hsp) as (c3 & E & _ & e' & He' & Hid & Hfe).
  rewrite E in HR. injection HR as <-. unfold SyncpointCount, SyncpointEventCount in *. pose proof (event_value_fields (fence_id fence) (Z.of_nat s0) ltac:(lia) ltac:(lia)) as Hb.
  unfold value_fields in Hb. rewrite !andb_true_iff, !Z.eqb_eq in Hb. destruct Hb as [[[B1 B2] B3] B4]. rewrite B2 in Hv |- *. exists e'.
  rewrite Nat2Z.id. split; [done|]. split; [done|]. unfold QueryEvent. rewrite B1, B3, B4, Z.mod_small by lia. unfold SyncpointEventCount.
  rewrite (proj2 (Z.leb_gt _ _)) by lia. unfold event_at in He'. rewrite Nat2Z.id, He', Hfe, Z.eqb_refl. done.
Qed.

Lemma SyncpointWaitEvent_QueryEvent_witness : QueryEvent (event_value true 26 0) sample_wait = Some 0%nat.
Proof.
  destruct (SyncpointWaitEvent_QueryEvent (mk_fence 26 1) (-1) 0 (Ctrl_new sample_manager) sample_wait (event_value true 26 0) (Ctrl_new_inv _))
    as (e & He & _ & HQ); [done|done|vm_compute; reflexivity|vm_compute; reflexivity|]. rewrite HQ. vm_compute in He. by injection He as <-.
Defined.

(** [n] waits on the syncpoint, each with a fence further on, and what the last gave back. *)
Fixpoint waits (n : nat) (c : Ctrl) : M (Ctrl * Z) :=
  match n with
  | O => ok (c, 0)
  | S n =>
      let! (c, _) := waits n c in
      let! (c, v, _) := SyncpointWaitEvent (mk_fence 26 (Z.of_nat n + 1)) (-1) 0 c in ok (c, v)
  end.

(** The seventeenth event that waits is in a slot that its value cannot name: the event that the
    value gives is that of the first slot. *)
Lemma QueryEvent_other_event :
  match waits 17 (Ctrl_new sample_manager) with inr (c, v) => value_slot v = 16 /\ QueryEvent v c = Some 0%nat | inl _ => False end.
Proof. vm_compute. by split. Qed.

(** A signal that has exchanged the state of an event is overtaken by a guest that clears and frees
    the event: the rest of the signal then uses freed memory. *)
Lemma signal_races_free :
  match Signal_exchange 0 sample_wait with
  | inr (c, waiting) =>
      match SyncpointClearEventWait 0 c with
      | inr (c, Posix_Success) =>
          let (c, r) := SyncpointFreeEvent 0 c in r = Posix_Success /\ Signal_finish 0 waiting c = inl (Undefined "callback of a freed event")
      | _ => False
      end
  | inl _ => False
  end.
Proof. vm_compute. by split. Qed.
