(* ===== verification/AsGpu.v ===== *)
(** * /dev/nvhost-as-gpu ([services/nvdrv/devices/nvhost/as_gpu.{h,cpp}], [soc/gm20b/gmmu.h])

    A GPU address space: two allocators of pages, for small and for big ones, the translation of the
    GMMU, the buffers that are mapped and the ranges that a guest has set aside for mappings at
    fixed addresses.  What is proved joins the components below: a buffer of an nvmap handle is
    mapped so that the GPU sees its bytes and nothing else changes.  A mapping is never changed once
    it is made, so that the pointers to it that are shared are values here. *)

From S2P Require Import Prelude Common AddressSpace NvMap.

Record Mapping : Type := mk_mapping {
  mp_ptr : Z;
  mp_offset : Z;
  mp_size : Z;
  mp_fixed : bool;
  mp_bigPage : bool;
  mp_sparseAlloc : bool }.

Record Allocation : Type := mk_allocation {
  an_size : Z;
  an_mappings : list Mapping;
  an_pageSize : Z;
  an_sparse : bool }.

Definition VM_PageSize : Z := 0x1000.
Definition VM_PageSizeBits : Z := 12.
Definition SupportedBigPageSizes : Z := 0x30000.
Definition DefaultBigPageSize : Z := 0x20000.
Definition VaStartShift : Z := 10.
Definition DefaultVaSplit : Z := 2 ^ 34.
Definition DefaultVaRange : Z := 2 ^ 37.

(** Both allocators exist when the address space is initialised. *)
Record VM : Type := mk_vm {
  vm_bigPageSize : Z;
  vm_bigPageSizeBits : Z;
  vm_vaRangeStart : Z;
  vm_vaRangeSplit : Z;
  vm_vaRangeEnd : Z;
  vm_allocators : option (FlatAllocator * FlatAllocator) }.

Definition VM_new : VM := mk_vm DefaultBigPageSize 17 (u32 (Z.shiftl DefaultBigPageSize VaStartShift)) DefaultVaSplit DefaultVaRange None.

(** The context of the address space is the map of its GMMU. *)
Record AsGpu : Type := mk_as_gpu {
  ag_mappingMap : gmap Z Mapping;
  ag_allocationMap : gmap Z Allocation;
  ag_vm : VM;
  ag_gmmu : AsMap }.

Definition gmmu_params : AsParams := mk_as_params 64 true.
Definition GMMU_new : AsMap := mk_as_map [mk_block UnmappedVa UnmappedPa false] (VaMaximum 40) [].
Definition SparsePlaceholderAddress : Z := 0xCAFEBABE.

Definition AsGpu_new : AsGpu := mk_as_gpu ∅ ∅ VM_new GMMU_new.

Definition set_gmmu (m : AsMap) (s : AsGpu) : AsGpu := mk_as_gpu (ag_mappingMap s) (ag_allocationMap s) (ag_vm s) m.
Definition set_vm (vm : VM) (s : AsGpu) : AsGpu := mk_as_gpu (ag_mappingMap s) (ag_allocationMap s) vm (ag_gmmu s).
Definition set_mappings (m : gmap Z Mapping) (s : AsGpu) : AsGpu := mk_as_gpu m (ag_allocationMap s) (ag_vm s) (ag_gmmu s).
Definition set_allocations (m : gmap Z Allocation) (s : AsGpu) : AsGpu := mk_as_gpu (ag_mappingMap s) m (ag_vm s) (ag_gmmu s).

(** One of the two allocators, and replacing it. *)
Definition allocator (big : bool) (vm : VM) : M FlatAllocator :=
  match vm_allocators vm with Some (small, bigPage) => ok (if big then bigPage else small) | None => fail (Undefined "null allocator") end.

Definition set_allocator (big : bool) (a : FlatAllocator) (vm : VM) : VM :=
  mk_vm (vm_bigPageSize vm) (vm_bigPageSizeBits vm) (vm_vaRangeStart vm) (vm_vaRangeSplit vm) (vm_vaRangeEnd vm)
    ((fun '(small, bigPage) => if big then (small, a) else (a, bigPage)) <$> vm_allocators vm).

Definition pageSizeBits (big : bool) (vm : VM) : Z := if big then vm_bigPageSizeBits vm else VM_PageSizeBits.

Definition initialised (s : AsGpu) : bool := bool_decide (is_Some (vm_allocators (ag_vm s))).

(** The flags of a mapping. *)
Definition flag_fixed (flags : Z) : bool := bit flags 0.
Definition flag_sparse (flags : Z) : bool := bit flags 1.
Definition flag_remap (flags : Z) : bool := bit flags 8.

(** ** Setting ranges aside *)

(** The offset is an argument that the call changes. *)
Definition AllocSpace (pages pageSize flags offset : Z) (s : AsGpu) : M (AsGpu * Z * PosixResult) :=
  let vm := ag_vm s in
  if negb (initialised s) then ok (s, offset, Posix_InvalidArgument)
  else if negb (pageSize =? VM_PageSize) && negb (pageSize =? vm_bigPageSize vm) then ok (s, offset, Posix_InvalidArgument)
  else if negb (pageSize =? vm_bigPageSize vm) && flag_sparse flags then ok (s, offset, Posix_FunctionNotImplemented)
  else
    let big := negb (pageSize =? VM_PageSize) in
    let! a := allocator big vm in
    let! (a, offset) :=
      if flag_fixed flags then
        let! a := AllocateFixed 32 (u32 (Z.shiftr offset (pageSizeBits big vm))) pages a in ok (a, offset)
      else
        let! (a, page) := Allocate 32 pages a in
        let offset := u64 (Z.shiftl page (pageSizeBits big vm)) in
        if offset =? 0 then fail (Throw "Failed to allocate free space in the GPU AS!") else ok (a, offset) in
    let size := pages * pageSize in
    let! gmmu := if flag_sparse flags then MapLocked gmmu_params offset SparsePlaceholderAddress size true (ag_gmmu s) else ok (ag_gmmu s) in
    ok (mk_as_gpu (ag_mappingMap s) (<[offset := mk_allocation size [] pageSize (flag_sparse flags)]> (ag_allocationMap s)) (set_allocator big a vm) gmmu,
        offset, Posix_Success).

(** What a mapping is taken away with, for [FreeMappingLocked] and [UnmapBuffer]. *)
Definition free_mapping (offset : Z) (mapping : Mapping) (s : AsGpu) : M AsGpu :=
  let vm := ag_vm s in
  let! vm :=
    if negb (mp_fixed mapping) then
      let bits := pageSizeBits (mp_bigPage mapping) vm in
      let! a := allocator (mp_bigPage mapping) vm in
      let! a := Allocator_Free 32 (u32 (Z.shiftr (mp_offset mapping) bits)) (u32 (Z.shiftr (mp_size mapping) bits)) a in
      ok (set_allocator (mp_bigPage mapping) a vm)
    else ok vm in
  let! gmmu :=
    if mp_sparseAlloc mapping then MapLocked gmmu_params offset SparsePlaceholderAddress (mp_size mapping) true (ag_gmmu s)
    else UnmapLocked gmmu_params offset (mp_size mapping) (ag_gmmu s) in
  ok (mk_as_gpu (delete offset (ag_mappingMap s)) (ag_allocationMap s) vm gmmu).

(** The loop of [FreeSpace]; a mapping that is not there throws, which ends the loop and is caught. *)
Fixpoint free_mappings (l : list Mapping) (s : AsGpu) : M (AsGpu * bool) :=
  match l with
  | [] => ok (s, true)
  | mapping :: l =>
      match ag_mappingMap s !! mp_offset mapping with
      | Some m => let! s := free_mapping (mp_offset mapping) m s in free_mappings l s
      | None => ok (s, false)
      end
  end.

(** The subscript makes an entry where there is none. *)
Definition FreeSpace (offset pages pageSize : Z) (s : AsGpu) : M (AsGpu * PosixResult) :=
  if negb (initialised s) then ok (s, Posix_InvalidArgument)
  else
    let allocation := default (mk_allocation 0 [] 0 false) (ag_allocationMap s !! offset) in
    let s := set_allocations (<[offset := allocation]> (ag_allocationMap s)) s in
    if negb (an_pageSize allocation =? pageSize) || negb (an_size allocation =? pages * pageSize) then ok (s, Posix_InvalidArgument)
    else
      let! (s, found) := free_mappings (an_mappings allocation) s in
      if negb found then ok (s, Posix_InvalidArgument)
      else
        let! gmmu := if an_sparse allocation then UnmapLocked gmmu_params offset (an_size allocation) (ag_gmmu s) else ok (ag_gmmu s) in
        let s := set_gmmu gmmu s in
        let big := negb (pageSize =? VM_PageSize) in
        let bits := pageSizeBits big (ag_vm s) in
        let! a := allocator big (ag_vm s) in
        let! a := Allocator_Free 32 (u32 (Z.shiftr offset bits)) (u32 (Z.shiftr (an_size allocation) bits)) a in
        ok (set_allocations (delete offset (ag_allocationMap s)) (set_vm (set_allocator big a (ag_vm s)) s), Posix_Success).

(** ** Mapping buffers *)

Definition UnmapBuffer (offset : Z) (s : AsGpu) : M (AsGpu * PosixResult) :=
  if negb (initialised s) then ok (s, Posix_InvalidArgument)
  else
    match ag_mappingMap s !! offset with
    | Some mapping => let! s := free_mapping offset mapping s in ok (s, Posix_Success)
    | None => ok (s, Posix_Success)
    end.

(** The allocation before the upper bound of an offset. *)
Definition alloc_below (offset : Z) (m : gmap Z Allocation) : option (Z * Allocation) :=
  foldr (fun '(k, a) best => if k <=? offset then match best with Some (k', _) => if k' <? k then Some (k, a) else best | None => Some (k, a) end else best)
    None (map_to_list m).

Definition inside (alloc : option (Z * Allocation)) (offset size : Z) : bool :=
  match alloc with Some (base, a) => u64 (u64 (offset - base) + size) <=? an_size a | None => false end.

Definition MapBufferEx_remap (bufferOffset mappingSize offset : Z) (s : AsGpu) : M (AsGpu * Z * PosixResult) :=
  match ag_mappingMap s !! offset with
  | None => ok (s, offset, Posix_InvalidArgument)
  | Some mapping =>
      if mp_size mapping <? mappingSize then ok (s, offset, Posix_InvalidArgument)
      else
        let! gmmu := MapLocked gmmu_params (u64 (offset + bufferOffset)) (u64 (mp_ptr mapping + bufferOffset)) mappingSize false (ag_gmmu s) in
        ok (set_gmmu gmmu s, offset, Posix_Success)
  end.

Definition MapBufferEx_fixed (cpuPtr size offset : Z) (s : AsGpu) : M (AsGpu * Z * PosixResult) :=
  match alloc_below offset (ag_allocationMap s) with
  | Some (base, a) =>
      if inside (Some (base, a)) offset size then
        let! gmmu := MapLocked gmmu_params offset cpuPtr size false (ag_gmmu s) in
        let mapping := mk_mapping cpuPtr offset size true false (an_sparse a) in
        ok (mk_as_gpu (<[offset := mapping]> (ag_mappingMap s))
              (<[base := mk_allocation (an_size a) (an_mappings a ++ [mapping]) (an_pageSize a) (an_sparse a)]> (ag_allocationMap s)) (ag_vm s) gmmu,
            offset, Posix_Success)
      else fail (Throw "Cannot perform a fixed mapping into an unallocated region!")
  | None => fail (Throw "Cannot perform a fixed mapping into an unallocated region!")
  end.

Definition MapBufferEx_anywhere (align cpuPtr size : Z) (s : AsGpu) : M (AsGpu * Z * PosixResult) :=
  let vm := ag_vm s in
  let! bigPage :=
    if IsAligned align (vm_bigPageSize vm) then ok true
    else if IsAligned align VM_PageSize then ok false
    else fail (Throw "Invalid handle alignment") in
  let! a := allocator bigPage vm in
  let pageSize := if bigPage then vm_bigPageSize vm else VM_PageSize in
  let bits := pageSizeBits bigPage vm in
  let! (a, page) := Allocate 32 (u32 (Z.shiftr (AlignUp size pageSize) bits)) a in
  let offset := u64 (Z.shiftl page bits) in
  if offset =? 0 then fail (Throw "Failed to allocate free space in the GPU AS!")
  else
    let! gmmu := MapLocked gmmu_params offset cpuPtr size false (ag_gmmu s) in
    ok (mk_as_gpu (<[offset := mk_mapping cpuPtr offset size false bigPage false]> (ag_mappingMap s)) (ag_allocationMap s) (set_allocator bigPage a vm) gmmu,
        offset, Posix_Success).

Definition MapBufferEx (flags handle bufferOffset mappingSize offset : Z) (n : NvMap) (s : AsGpu) : M (AsGpu * Z * PosixResult) :=
  if negb (initialised s) then ok (s, offset, Posix_InvalidArgument)
  else if flag_remap flags then MapBufferEx_remap bufferOffset mappingSize offset s
  else
    match NvMap_GetHandle handle n with
    | None => ok (s, offset, Posix_InvalidArgument)
    | Some l =>
        let! h := deref l n in
        let cpuPtr := u64 (h_address h + bufferOffset) in
        let size := if mappingSize =? 0 then h_origSize h else mappingSize in
        if flag_fixed flags then MapBufferEx_fixed cpuPtr size offset s else MapBufferEx_anywhere (h_align h) cpuPtr size s
    end.

(** ** Regions *)

Record VaRegion : Type := mk_va_region {
  vr_offset : Z;
  vr_pageSize : Z;
  vr_pages : Z }.

(** The offsets are shifted at the width of the allocators. *)
Definition GetVaRegions (s : AsGpu) : PosixResult * option (VaRegion * VaRegion) :=
  match vm_allocators (ag_vm s) with
  | None => (Posix_InvalidArgument, None)
  | Some (small, big) =>
      (Posix_Success,
       Some (mk_va_region (u32 (Z.shiftl (al_vaStart small) VM_PageSizeBits)) VM_PageSize (u32 (as_vaLimit (al_map small) - al_vaStart small)),
             mk_va_region (u32 (Z.shiftl (al_vaStart big) (vm_bigPageSizeBits (ag_vm s)))) (vm_bigPageSize (ag_vm s))
               (u32 (as_vaLimit (al_map big) - al_vaStart big))))
  end.

Definition countr_zero (x : Z) : Z := Z.log2 (Z.land x (- x)).

Definition AllocAsEx (bigPageSize vaRangeStart vaRangeEnd vaRangeSplit : Z) (s : AsGpu) : M (AsGpu * PosixResult) :=
  let vm := ag_vm s in
  if initialised s then fail (Throw "Cannot initialise an address space twice!")
  else if negb (bigPageSize =? 0) && negb (has_single_bit bigPageSize) then ok (s, Posix_InvalidArgument)
  else if negb (bigPageSize =? 0) && (Z.land bigPageSize SupportedBigPageSizes =? 0) then ok (s, Posix_InvalidArgument)
  else
    let '(bigPageSize, bigPageSizeBits, start) :=
      if negb (bigPageSize =? 0) then (bigPageSize, countr_zero bigPageSize, u32 (Z.shiftl bigPageSize VaStartShift))
      else (vm_bigPageSize vm, vm_bigPageSizeBits vm, vm_vaRangeStart vm) in
    let '(start, split, end') :=
      if negb (vaRangeStart =? 0) then (vaRangeStart, vaRangeSplit, vaRangeEnd) else (start, vm_vaRangeSplit vm, vm_vaRangeEnd vm) in
    let! small := FlatAllocator_new 32 (u32 (Z.shiftr start VM_PageSizeBits)) (u32 (Z.shiftr split VM_PageSizeBits)) in
    let! big := FlatAllocator_new 32 (u32 (Z.shiftr split bigPageSizeBits)) (u32 (Z.shiftr (u64 (end' - split)) bigPageSizeBits)) in
    ok (mk_as_gpu (ag_mappingMap s) (ag_allocationMap s) (mk_vm bigPageSize bigPageSizeBits start split end' (Some (small, big))) GMMU_new, Posix_Success).

(** ** Remapping *)

Record RemapEntry : Type := mk_remap_entry {
  re_handle : Z;
  re_handleOffsetBigPages : Z;
  re_asOffsetBigPages : Z;
  re_bigPages : Z }.

(** The loop keeps what it has remapped when it leaves at an entry that cannot be. *)
Fixpoint Remap_entries (entries : list RemapEntry) (n : NvMap) (s : AsGpu) : M (AsGpu * PosixResult) :=
  match entries with
  | [] => ok (s, Posix_Success)
  | entry :: entries =>
      let bits := vm_bigPageSizeBits (ag_vm s) in
      let virtAddr := Z.shiftl (re_asOffsetBigPages entry) bits in
      let size := Z.shiftl (re_bigPages entry) bits in
      match alloc_below virtAddr (ag_allocationMap s) with
      | Some (base, a) =>
          if negb (inside (Some (base, a)) virtAddr size) then ok (s, Posix_InvalidArgument)
          else if negb (an_sparse a) then ok (s, Posix_InvalidArgument)
          else if re_handle entry =? 0 then
            let! gmmu := MapLocked gmmu_params virtAddr SparsePlaceholderAddress size true (ag_gmmu s) in Remap_entries entries n (set_gmmu gmmu s)
          else
            match NvMap_GetHandle (re_handle entry) n with
            | None => ok (s, Posix_InvalidArgument)
            | Some l =>
                let! h := deref l n in
                let cpuPtr := u64 (h_address h + Z.shiftl (re_handleOffsetBigPages entry) bits) in
                let! gmmu := MapLocked gmmu_params virtAddr cpuPtr size false (ag_gmmu s) in Remap_entries entries n (set_gmmu gmmu s)
            end
      | None => ok (s, Posix_InvalidArgument)
      end
  end.

Definition AsGpu_Remap (entries : list RemapEntry) (n : NvMap) (s : AsGpu) : M (AsGpu * PosixResult) :=
  if negb (initialised s) then ok (s, Posix_InvalidArgument) else Remap_entries entries n s.

(** ** What a mapping does *)

Definition gmmu_translate (s : AsGpu) (a : Z) : option (Z * bool) := translate true (as_blocks (ag_gmmu s)) a.

(** The address space is initialised, its maps are well formed and every page of its allocators is
    inside the GMMU's range. *)
Record as_gpu_ok (s : AsGpu) (small big : FlatAllocator) : Prop := mk_as_gpu_ok {
  go_allocators : vm_allocators (ag_vm s) = Some (small, big);
  go_small : alloc_ok 32 small;
  go_big : alloc_ok 32 big;
  go_bits : vm_bigPageSize (ag_vm s) = 2 ^ vm_bigPageSizeBits (ag_vm s) /\ 12 < vm_bigPageSizeBits (ag_vm s) <= 17;
  go_gmmu : as_ok gmmu_params (ag_gmmu s);
  go_small_fits : as_vaLimit (al_map small) * 2 ^ 12 <= as_vaLimit (ag_gmmu s);
  go_big_fits : as_vaLimit (al_map big) * 2 ^ vm_bigPageSizeBits (ag_vm s) <= as_vaLimit (ag_gmmu s) }.

(** The number of pages of a size. *)
Lemma pages_of size bits : 0 < size -> size + 2 ^ bits < 2 ^ 64 -> 0 <= bits < 64 -> size <= Z.shiftr (AlignUp size (2 ^ bits)) bits * 2 ^ bits < size + 2 ^ bits.
Proof.
  intros Hs Hl Hb. pose proof (Z.pow_pos_nonneg 2 bits ltac:(lia) ltac:(lia)) as Hp. rewrite AlignUp_spec, Z.shiftr_div_pow2 by lia.
  pose proof (Z.div_mod (size + 2 ^ bits - 1) (2 ^ bits) ltac:(lia)) as Hd. pose proof (Z.mod_pos_bound (size + 2 ^ bits - 1) (2 ^ bits) ltac:(lia)).
  set (q := (size + 2 ^ bits - 1) / 2 ^ bits) in *. replace (size + 2 ^ bits - 1 - (size + 2 ^ bits - 1) mod 2 ^ bits) with (q * 2 ^ bits) by lia.
  rewrite Z.div_mul by lia. lia.
Qed.

Lemma block_at_le blocks a b : block_at blocks a = Some b -> b_virt b <= a.
Proof.
  induction blocks as [|x l IH]; [done|]. cbn [block_at]. destruct (block_at l a); [by intros [= ->]; apply IH|]. destruct (Z.leb_spec (b_virt x) a); [by intros [= <-]|done].
Qed.

(** The range that was just mapped is one block. *)
Lemma MapLocked_block_at P virt phys size extra m m' a :
  as_ok P m -> 0 < virt -> 0 < size -> virt + size <= as_vaLimit m -> MapLocked P virt phys size extra m = inr m' -> virt <= a < virt + size ->
  block_at (as_blocks m') a = Some (mk_block virt phys extra).
Proof.
  intros Hok Hv Hs Hl HM Ha. destruct (MapLocked_shape P virt phys size extra m Hok Hv Hs Hl) as (f & r11 & r12 & post & tl & [_ Hb _ Hp] & Ht & E).
  rewrite HM in E. injection E as ->. cbn [as_blocks]. change (f :: r11 ++ ?x :: tl ++ post) with ((f :: r11) ++ [x] ++ (tl ++ post)). rewrite (block_at_app (f :: r11)), (block_at_app [_]), (block_at_above (tl ++ post)).
  - cbn [block_at b_virt]. destruct (Z.leb_spec virt a); [done|lia].
  - apply Forall_app. split; [|eapply Forall_impl; [exact Hp|]; simpl; lia]. destruct Ht as [[-> _]|(t & -> & Ht & _)]; constructor; [lia|constructor].
Qed.

(** A range that was mapped where nothing was is unmapped again without a trace. *)
Lemma map_then_unmap P virt phys size extra m m' :
  as_ok P m -> 0 < virt -> 0 < size -> virt + size <= as_vaLimit m -> 0 < phys ->
  (forall a, virt <= a < virt + size -> translate (PaContigSplit P) (as_blocks m) a = None) ->
  translate (PaContigSplit P) (as_blocks m) (virt - 1) <> None \/ translate (PaContigSplit P) (as_blocks m) (virt + size) = None ->
  MapLocked P virt phys size extra m = inr m' ->
  exists m'', UnmapLocked P virt size m' = inr m'' /\ as_ok P m'' /\ as_vaLimit m'' = as_vaLimit m /\
    forall a, translate (PaContigSplit P) (as_blocks m'') a = translate (PaContigSplit P) (as_blocks m) a.
Proof.
  intros Hok Hv Hs Hl Hph Hfree Hn HM. destruct (MapLocked_view P virt phys size extra m Hok Hv Hs Hl Hph) as (m1 & E & Hok' & Hlim & _ & Hview).
  rewrite HM in E. injection E as <-.
  assert (Hout : forall a, (virt <=? a) && (a <? virt + size) = false -> translate (PaContigSplit P) (as_blocks m') a = translate (PaContigSplit P) (as_blocks m) a).
  { intros a Ha. by rewrite Hview, Ha. }
  assert (Hh : unmap_handles P (as_blocks m') virt (virt + size)).
  { split.
    - rewrite !Hout; [done| |]; destruct (Z.leb_spec virt (virt - 1)), (Z.leb_spec virt (virt + size)), (Z.ltb_spec (virt + size) (virt + size)); try lia; try done; apply andb_false_r.
    - intros x b Hx Hb Hb' _. exfalso. rewrite (MapLocked_block_at P virt phys size extra m m' (x - 1)) in Hb' by (done || lia). injection Hb' as <-.
      apply block_at_le in Hb. cbn [b_virt] in Hb. lia. }
  destruct (UnmapLocked_view P virt size m' Hok' Hv Hs ltac:(lia) Hh) as (m'' & Hu & Hok'' & Hlim' & _ & Hview').
  exists m''. split; [done|]. split; [done|]. split; [congruence|]. intros a. rewrite Hview'.
  destruct ((virt <=? a) && (a <? virt + size)) eqn:Ea; [|by apply Hout].
  apply andb_true_iff in Ea as [H1%Z.leb_le H2%Z.ltb_lt]. symmetry. by apply Hfree.
Qed.

(** ** Mapping anywhere *)

Definition mapping_size (mappingSize : Z) (h : Handle) : Z := if mappingSize =? 0 then h_origSize h else mappingSize.
Definition page_count (big : bool) (size : Z) (s : AsGpu) : Z := Z.shiftr (AlignUp size (2 ^ pageSizeBits big (ag_vm s))) (pageSizeBits big (ag_vm s)).

Section anywhere.
Context (s : AsGpu) (small bigPage : FlatAllocator) (Hok : as_gpu_ok s small bigPage).
Context (big : bool) (align cpuPtr size : Z).

Let a := if big then bigPage else small.
Let bits := pageSizeBits big (ag_vm s).
Let pages := page_count big size s.
Let page := al_currentLinearAllocEnd a.

(** The page size is the one the alignment of the handle asks for, and the linear pass has room. *)
Hypothesis Halign : IsAligned align (vm_bigPageSize (ag_vm s)) = big /\ (big = false -> IsAligned align VM_PageSize = true).
Hypothesis Hptr : 0 < cpuPtr.
Hypothesis Hsize : 0 < size < 2 ^ 40.
Hypothesis Hroom : page + pages <= as_vaLimit (al_map a).

Lemma anywhere_facts :
  alloc_ok 32 a /\ 12 <= bits <= 17 /\ 0 < pages < 2 ^ 32 /\ size <= pages * 2 ^ bits < size + 2 ^ bits /\ 0 < page < 2 ^ 32 /\
  as_vaLimit (al_map a) * 2 ^ bits <= as_vaLimit (ag_gmmu s) < 2 ^ 64 /\ allocator big (ag_vm s) = ok a /\ (if big then vm_bigPageSize (ag_vm s) else VM_PageSize) = 2 ^ bits.
Proof.
  destruct Hok as [Ha Hs Hb [Hpb Hbb] Hg Hsf Hbf]. assert (Hbits : 12 <= bits <= 17) by (unfold bits, pageSizeBits, VM_PageSizeBits; destruct big; lia).
  assert (Hp : 2 ^ 12 <= 2 ^ bits <= 2 ^ 17) by (split; apply Z.pow_le_mono_r; lia).
  assert (Hpages : size <= pages * 2 ^ bits < size + 2 ^ bits) by (exact (pages_of size bits ltac:(lia) ltac:(lia) ltac:(lia))).
  assert (Haok : alloc_ok 32 a) by (unfold a; by destruct big). destruct Haok as [[Hbl Hl] Hst Hfr]. simpl in Hl. fold page in Hst.
  assert (Hpc : 0 < pages < 2 ^ 32) by (clear -Hpages Hp Hsize; clearbody pages; generalize dependent (2 ^ bits); intros p H1 H2; split; nia).
  split; [by split|]. split; [done|]. split; [done|]. split; [done|]. split; [lia|]. split; [|split].
  - split; [|apply Hg]. unfold a, bits, pageSizeBits, VM_PageSizeBits. by destruct big.
  - unfold allocator. rewrite Ha. done.
  - unfold bits, pageSizeBits, VM_PageSize, VM_PageSizeBits. by destruct big.
Qed.

Lemma anywhere_maps :
  exists a' gmmu', MapBufferEx_anywhere align cpuPtr size s =
      ok (mk_as_gpu (<[page * 2 ^ bits := mk_mapping cpuPtr (page * 2 ^ bits) size false big false]> (ag_mappingMap s)) (ag_allocationMap s)
            (set_allocator big a' (ag_vm s)) gmmu', page * 2 ^ bits, Posix_Success) /\
    MapLocked (allocator_params 32) page 1 pages false (al_map a) = inr (al_map a') /\ al_currentLinearAllocEnd a' = page + pages /\
    alloc_ok 32 a' /\ allocated pages page a a' /\
    MapLocked gmmu_params (page * 2 ^ bits) cpuPtr size false (ag_gmmu s) = inr gmmu' /\ as_ok gmmu_params gmmu' /\ as_vaLimit gmmu' = as_vaLimit (ag_gmmu s) /\
    0 < page * 2 ^ bits /\ page * 2 ^ bits + size <= as_vaLimit (ag_gmmu s).
Proof.
  destruct anywhere_facts as (Haok & Hbits & Hpages & Hsz & Hpage & [Hlim Hg64] & Hal & Hps). destruct Halign as [Hb Hsm].
  destruct (Allocate_linear 32 pages a Haok ltac:(lia) Hroom) as (a' & HA & Haok' & Halloc). fold page in HA.
  assert (Hp : 2 ^ 12 <= 2 ^ bits <= 2 ^ 17) by (split; apply Z.pow_le_mono_r; lia).
  assert (Hoff : 0 < page * 2 ^ bits /\ page * 2 ^ bits + size <= as_vaLimit (ag_gmmu s)) by (split; nia).
  destruct (MapLocked_view gmmu_params (page * 2 ^ bits) cpuPtr size false (ag_gmmu s) (go_gmmu _ _ _ Hok) ltac:(lia) ltac:(lia) ltac:(lia) Hptr)
    as (g' & HM & Hgok & Hgl & _ & _).
  exists a', g'. split.
  - unfold MapBufferEx_anywhere. rewrite Hb. assert (Hbp : (if big then ok true else if IsAligned align VM_PageSize then ok false else fail (Throw "Invalid handle alignment")) = ok big).
    { destruct big; [done|]. by rewrite Hsm. }
    rewrite Hbp. cbn [bindM ok]. rewrite Hal. cbn [bindM ok]. rewrite Hps. fold bits. change (Z.shiftr (AlignUp size (2 ^ bits)) bits) with pages. rewrite (wrap_small 32 pages) by lia.
    rewrite HA. cbn [bindM ok]. rewrite Z.shiftl_mul_pow2, wrap_small by lia. destruct (Z.eqb_spec (page * 2 ^ bits) 0); [lia|]. rewrite HM. done.
  - assert (HM' : MapLocked (allocator_params 32) page 1 pages false (al_map a) = inr (al_map a') /\ al_currentLinearAllocEnd a' = page + pages).
    { unfold Allocate in HA. rewrite linear_start_ok in HA by (done || lia). fold page in HA. destruct (Z.leb_spec (page + pages) (as_vaLimit (al_map a))); [|lia].
      cbn [bindM ok] in HA. destruct (Z.eqb_spec page UnmappedVa); [unfold UnmappedVa in *; lia|]. cbn [negb] in HA.
      destruct (MapLocked (allocator_params 32) page 1 pages false (al_map a)) as [|mm] eqn:E; [done|]. cbn [bindM ok] in HA. injection HA as <-. cbn [al_map al_currentLinearAllocEnd].
      split; [done|]. apply wrap_small. destruct Haok as [[_ Hl2] _ _]. simpl in Hl2. lia. }
    destruct HM' as [HM1 HM2]. do 2 (split; [done|]). split; [done|]. split; [done|]. do 3 (split; [done|]). done.
Qed.
End anywhere.

Lemma MapBufferEx_anywhere_eq flags handle bufferOffset mappingSize offset n s small bigPage l h :
  as_gpu_ok s small bigPage -> flag_remap flags = false -> flag_fixed flags = false -> NvMap_GetHandle handle n = Some l -> deref l n = ok h ->
  MapBufferEx flags handle bufferOffset mappingSize offset n s =
    MapBufferEx_anywhere (h_align h) (u64 (h_address h + bufferOffset)) (mapping_size mappingSize h) s.
Proof.
  intros Hok Hr Hf Hh Hd. unfold MapBufferEx, initialised. rewrite bool_decide_eq_true_2 by (rewrite (go_allocators _ _ _ Hok); by eexists).
  cbn [negb]. rewrite Hr, Hh, Hd. cbn [bindM ok]. rewrite Hf. done.
Qed.

(** What a call that maps a handle anywhere needs: the alignment of the handle gives the page size,
    and the linear pass of that allocator has room for the pages. *)
Record mappable (flags handle bufferOffset mappingSize : Z) (n : NvMap) (s : AsGpu) (small bigPage : FlatAllocator) (big : bool) (h : Handle) : Prop := mk_mappable {
  ma_flags : flag_remap flags = false /\ flag_fixed flags = false;
  ma_handle : exists l, NvMap_GetHandle handle n = Some l /\ deref l n = ok h;
  ma_align : IsAligned (h_align h) (vm_bigPageSize (ag_vm s)) = big /\ (big = false -> IsAligned (h_align h) VM_PageSize = true);
  ma_ptr : 0 < u64 (h_address h + bufferOffset);
  ma_size : 0 < mapping_size mappingSize h < 2 ^ 40;
  ma_room : let a := if big then bigPage else small in
    al_currentLinearAllocEnd a + page_count big (mapping_size mappingSize h) s <= as_vaLimit (al_map a) }.

(** C9: mapping a buffer of an nvmap handle anywhere succeeds and gives the address behind the last
    one that was handed out, as long as the linear pass of the allocator goes on: the pages left
    behind that address are enough, and none of them is taken.  Through the GMMU the GPU then sees,
    at each of the buffer's addresses, the byte of the handle's memory at that place, and every
    other address translates as before; the pages the buffer is in were free and are the only ones
    that are taken, and the address space stays well formed, so that the next mapping may follow.
    Not covered are address spaces in which the guest has reserved a fixed range ahead of the
    linear pass (AllocSpace at a given address), where the allocator hands out taken pages
    ([Allocate_overlaps_fixed]), the search for a gap once the linear pass has run out
    ([Allocate_below_start]), sizes of 2^40 bytes and more, and memory at address 0. *)
Theorem MapBufferEx_translates flags handle bufferOffset mappingSize offset0 n s small bigPage big h :
  as_gpu_ok s small bigPage -> mappable flags handle bufferOffset mappingSize n s small bigPage big h ->
  let a := if big then bigPage else small in
  let size := mapping_size mappingSize h in
  let offset := al_currentLinearAllocEnd a * 2 ^ pageSizeBits big (ag_vm s) in
  exists s' a', MapBufferEx flags handle bufferOffset mappingSize offset0 n s = inr (s', offset, Posix_Success) /\
    (forall x, gmmu_translate s' x =
       if (offset <=? x) && (x <? offset + size) then Some (u64 (h_address h + bufferOffset) + (x - offset), false) else gmmu_translate s x) /\
    allocated (page_count big size s) (al_currentLinearAllocEnd a) a a' /\
    as_gpu_ok s' (if big then small else a') (if big then a' else bigPage).
Proof.
  intros Hok [[Hr Hf] (l & Hl & Hd) Hal Hp Hs Hroom] a size offset.
  destruct (anywhere_maps s small bigPage Hok big (h_align h) (u64 (h_address h + bufferOffset)) size Hal Hp Hs Hroom)
    as (a' & g' & HM & HA & _ & Haok & Halloc & HG & Hgok & Hgl & H0 & Hend).
  rewrite (MapBufferEx_anywhere_eq flags handle bufferOffset mappingSize offset0 n s small bigPage l h) by done. fold size in HM |- *. rewrite HM.
  eexists _, a'. split; [reflexivity|]. split; [|split; [done|]].
  - intros x. unfold gmmu_translate. cbn [ag_gmmu]. destruct (MapLocked_view gmmu_params _ _ _ false (ag_gmmu s) (go_gmmu _ _ _ Hok) H0 (proj1 Hs) Hend Hp)
      as (g & E & _ & _ & _ & Hview). fold size in E. rewrite HG in E. injection E as <-. apply Hview.
  - assert (Hlim : as_vaLimit (al_map a') = as_vaLimit (al_map (if big then bigPage else small))).
    { destruct (anywhere_facts s small bigPage Hok big (h_align h) size Hal Hs Hroom) as ([Hmap _ _] & _ & Hpg & _ & Hpos & _).
      destruct (MapLocked_view (allocator_params 32) _ 1 _ false _ Hmap (proj1 Hpos) (proj1 Hpg) Hroom ltac:(lia)) as (m & E & _ & E' & _). rewrite HA in E. by injection E as ->. }
    destruct Hok as [Ha Hsm Hbg Hb Hg Hsf Hbf]. split; cbn [ag_vm ag_gmmu set_allocator vm_allocators vm_bigPageSize vm_bigPageSizeBits]; [|destruct big; done|destruct big; done|done|done| |].
    + rewrite Ha. by destruct big.
    + rewrite Hgl. destruct big; [done|]. by rewrite Hlim.
    + rewrite Hgl. destruct big; [|done]. by rewrite Hlim.
Qed.

(** a buffer that was mapped anywhere, with a size of whole pages and where nothing was mapped,
    is taken away without a trace: unmapping its address succeeds, the GPU sees what it saw before
    the mapping, the pages are free again and the address names no mapping. *)
Theorem MapBufferEx_UnmapBuffer_roundtrip flags handle bufferOffset mappingSize offset0 n s small bigPage big h s' offset r :
  as_gpu_ok s small bigPage -> mappable flags handle bufferOffset mappingSize n s small bigPage big h ->
  MapBufferEx flags handle bufferOffset mappingSize offset0 n s = inr (s', offset, r) ->
  (2 ^ pageSizeBits big (ag_vm s) | mapping_size mappingSize h) ->
  (forall x, offset <= x <= offset + mapping_size mappingSize h -> gmmu_translate s x = None) ->
  exists s'' a'', UnmapBuffer offset s' = inr (s'', Posix_Success) /\
    (forall x, gmmu_translate s'' x = gmmu_translate s x) /\
    vm_allocators (ag_vm s'') = Some (if big then (small, a'') else (a'', bigPage)) /\
    (forall x, translate false (as_blocks (al_map a'')) x = translate false (as_blocks (al_map (if big then bigPage else small))) x) /\
    ag_mappingMap s'' = delete offset (ag_mappingMap s).
Proof.
  intros Hok [[Hr Hf] (l & Hl & Hd) Hal Hp Hs Hroom] HM Hdiv Hfree. set (size := mapping_size mappingSize h) in *. set (a := if big then bigPage else small) in *.
  set (bits := pageSizeBits big (ag_vm s)) in *.
  destruct (anywhere_maps s small bigPage Hok big (h_align h) (u64 (h_address h + bufferOffset)) size Hal Hp Hs Hroom)
    as (a' & g' & HM' & HA & Hcur & Haok & Halloc & HG & Hgok & Hgl & H0 & Hend).
  rewrite (MapBufferEx_anywhere_eq flags handle bufferOffset mappingSize offset0 n s small bigPage l h) in HM by done. fold size in HM. rewrite HM' in HM. injection HM as <- <- <-.
  fold a bits in HA, H0, Hend, HG, Hfree |- *. set (page := al_currentLinearAllocEnd a) in *. set (pages := page_count big size s) in *.
  destruct (anywhere_facts s small bigPage Hok big (h_align h) size Hal Hs Hroom) as ([Hmap Hst Hlin] & Hbits & Hpg & Hsz & Hpos & Hlm & _). fold a bits pages page in Hmap, Hst, Hlin, Hbits, Hpg, Hsz, Hpos.
  assert (Hpw : 2 ^ 12 <= 2 ^ bits <= 2 ^ 17) by (split; apply Z.pow_le_mono_r; lia).
  assert (Epages : Z.shiftr size bits = pages).
  { rewrite Z.shiftr_div_pow2 by lia. destruct Hdiv as [k Hk]. fold bits in Hk. rewrite Hk, Z.div_mul by lia. nia. }
  destruct (map_then_unmap gmmu_params (page * 2 ^ bits) (u64 (h_address h + bufferOffset)) size false (ag_gmmu s) g' (go_gmmu _ _ _ Hok) H0 (proj1 Hs) Hend Hp)
    as (g'' & HU & _ & _ & Hv); [intros x Hx; apply Hfree; lia|right; apply Hfree; lia|done|].
  destruct (map_then_unmap (allocator_params 32) page 1 pages false (al_map a) (al_map a') Hmap) as (m'' & HU' & _ & _ & Hv'); [lia|lia|done|lia| | |done|].
  { intros x Hx. apply Hlin. lia. } { right. apply Hlin. lia. }
  eexists _, (mk_allocator m'' _ _). unfold UnmapBuffer, initialised. cbn [ag_vm ag_mappingMap set_allocator vm_allocators]. rewrite (go_allocators _ _ _ Hok). cbn [fmap option_fmap option_map].
  rewrite bool_decide_eq_true_2 by (by eexists). cbn [negb]. rewrite lookup_insert_eq. unfold free_mapping. cbn [mp_fixed mp_bigPage mp_offset mp_size mp_sparseAlloc negb ag_vm ag_gmmu ag_mappingMap].
  unfold allocator. cbn [set_allocator vm_allocators]. rewrite (go_allocators _ _ _ Hok). cbn [fmap option_fmap option_map].
  change (pageSizeBits big (set_allocator big a' (ag_vm s))) with bits. rewrite Epages, Z.shiftr_div_pow2, Z.div_mul, !wrap_small by lia.
  assert (Ea : (let (sm, bp) := (let '(sm, bp) := (small, bigPage) in if big then (sm, a') else (a', bp)) in if big then bp else sm) = a') by (by destruct big).
  cbn beta iota in Ea. cbn [bindM ok]. destruct big; cbn [bindM ok]; unfold Allocator_Free; rewrite HU'; cbn [bindM ok]; rewrite HU; cbn [bindM ok].
  all: (split; [reflexivity|]); (split; [exact Hv|]); (split; [cbn [ag_vm set_allocator vm_allocators]; rewrite ?(go_allocators _ _ _ Hok); reflexivity|]);
    (split; [exact Hv'|]); cbn [ag_mappingMap]; apply delete_insert_eq.
Qed.

(** ** Witnesses *)

Definition sample_as : AsGpu := match AllocAsEx 0 0 0 0 AsGpu_new with inr (s, _) => s | inl _ => AsGpu_new end.
Definition sample_small : FlatAllocator := mk_allocator (mk_as_map [mk_block 0 0 false] (2 ^ 22) []) 0x8000 0x8000.
Definition sample_big : FlatAllocator := mk_allocator (mk_as_map [mk_block 0 0 false] (2 ^ 20 - 2 ^ 17) []) (2 ^ 17) (2 ^ 17).

Definition sample_handle (align : Z) : Handle := mk_handle align 0x3000 0x3000 0x3000 1 0 4 0 0 false false false 0x7000000000 false 0 true.
Definition sample_nvmap (align : Z) : NvMap :=
  mk_nvmap [sample_handle align] {[4 := 0%nat]} [] sample_small (mk_as_map [mk_block 0 0 false] (VaMaximum 32) []) 8.

Lemma fresh_alloc_ok limit start : 0 < start <= limit -> limit < 2 ^ 32 -> alloc_ok 32 (mk_allocator (mk_as_map [mk_block 0 0 false] limit []) start start).
Proof.
  intros Hs Hl. split; cbn [al_map as_blocks as_vaLimit al_currentLinearAllocEnd].
  - split; cbn [as_blocks as_vaLimit]; [|unfold allocator_params; cbn [va_width]; lia]. split; [done|]. split; [done|]. split; [done|]. split; [done|]. by repeat constructor.
  - lia.
  - intros x _. unfold translate. cbn [block_at b_virt]. by destruct (0 <=? x).
Qed.

Lemma sample_as_ok : as_gpu_ok sample_as sample_small sample_big.
Proof.
  split; [reflexivity|apply fresh_alloc_ok; lia|apply fresh_alloc_ok; lia| | | |].
  - vm_compute. by repeat split.
  - split; [|vm_compute; by split]. split; [done|]. split; [done|]. split; [done|]. split; [done|]. by repeat constructor.
  - vm_compute. discriminate.
  - vm_compute. discriminate.
Qed.

Lemma sample_buffer_mappable : mappable 0 4 0x10 0 (sample_nvmap 0x1000) sample_as sample_small sample_big false (sample_handle 0x1000).
Proof.
  split; [done|exists 0%nat; by split|by split|done|by split|]. vm_compute. discriminate.
Qed.

Lemma MapBufferEx_translates_witness :
  exists s', MapBufferEx 0 4 0x10 0 0 (sample_nvmap 0x1000) sample_as = inr (s', 0x8000000, Posix_Success) /\
    gmmu_translate s' 0x8000004 = Some (0x7000000014, false) /\ gmmu_translate s' 0x8003000 = None.
Proof.
  destruct (MapBufferEx_translates 0 4 0x10 0 0 (sample_nvmap 0x1000) sample_as sample_small sample_big false (sample_handle 0x1000) sample_as_ok sample_buffer_mappable)
    as (s' & a' & HM & Ht & _). exists s'. split; [exact HM|]. split; [exact (Ht 0x8000004)|exact (Ht 0x8003000)].
Defined.

Lemma MapBufferEx_UnmapBuffer_roundtrip_witness :
  exists s' s'', MapBufferEx 0 4 0x10 0 0 (sample_nvmap 0x1000) sample_as = inr (s', 0x8000000, Posix_Success) /\
    UnmapBuffer 0x8000000 s' = inr (s'', Posix_Success) /\ gmmu_translate s'' 0x8000004 = None.
Proof.
  destruct (MapBufferEx 0 4 0x10 0 0 (sample_nvmap 0x1000) sample_as) as [f|[[s' o] r]] eqn:E; [discriminate E|].
  assert (Eo : o = 0x8000000 /\ r = Posix_Success) by (vm_compute in E; by injection E as _ <- <-). destruct Eo as [-> ->].
  destruct (MapBufferEx_UnmapBuffer_roundtrip 0 4 0x10 0 0 (sample_nvmap 0x1000) sample_as sample_small sample_big false (sample_handle 0x1000) s' 0x8000000 Posix_Success
    sample_as_ok sample_buffer_mappable E) as (s'' & a'' & HU & Ht & _).
  - exists 3. reflexivity.
  - intros x Hx. unfold gmmu_translate. change (as_blocks (ag_gmmu sample_as)) with [mk_block 0 0 false]. unfold translate. cbn [block_at b_virt]. by destruct (0 <=? x).
  - exists s', s''. split; [reflexivity|]. split; [exact HU|]. rewrite (Ht 0x8000004). reflexivity.
Defined.

(** ** Limits *)

(** A range of one big page that is set aside at a fixed address. *)
Definition sample_space : M AsGpu := let! (s, _, _) := AllocSpace 4 0x20000 1 0x400000000 sample_as in ok s.

(** Once a fixed mapping has been unmapped, the range it was in can never be given back: the range
    still lists the mapping, which is not found. *)
Lemma FreeSpace_after_UnmapBuffer :
  (let! s := sample_space in
   let! (s, _, _) := MapBufferEx 1 4 0 0 0x400000000 (sample_nvmap 0x1000) s in
   let! (s, _) := UnmapBuffer 0x400000000 s in
   let! (s, r) := FreeSpace 0x400000000 4 0x20000 s in ok r) = inr Posix_InvalidArgument.
Proof. vm_compute. reflexivity. Qed.

(** Freeing an address inside a range is refused, but leaves an empty entry behind that takes the
    rest of the range away from later fixed mappings. *)
Lemma FreeSpace_leaves_entry :
  (let! s := sample_space in let! (_, _, r) := MapBufferEx 1 4 0 0 0x400020000 (sample_nvmap 0x1000) s in ok r) = inr Posix_Success /\
  (let! s := sample_space in let! (s, r) := FreeSpace 0x400010000 1 0x20000 s in
   let! (_, _, _) := MapBufferEx 1 4 0 0 0x400020000 (sample_nvmap 0x1000) s in ok r) = inl (Throw "Cannot perform a fixed mapping into an unallocated region!").
Proof. split; vm_compute; reflexivity. Qed.

(** A buffer that does not fill its last page leaves that page allocated. *)
Lemma UnmapBuffer_leaks_page :
  (let! (s, _, _) := MapBufferEx 0 4 0 0x1800 0 (sample_nvmap 0x1000) sample_as in
   let! (s, _) := UnmapBuffer 0x8000000 s in
   let! a := allocator false (ag_vm s) in ok (translate false (as_blocks (al_map a)) 0x8001)) = inr (Some (1, false)).
Proof. vm_compute. reflexivity. Qed.

(** The region of big pages is said to begin at zero: its start is shifted out of 32 bits. *)
Lemma GetVaRegions_big_offset :
  match GetVaRegions sample_as with (_, Some (_, big)) => vr_offset big = 0 | _ => False end.
Proof. vm_compute. reflexivity. Qed.

(** Remapping checks the size against the mapping but not where it begins. *)
Lemma remap_past_mapping :
  (let! (s, _, _) := MapBufferEx 0 4 0 0x3000 0 (sample_nvmap 0x1000) sample_as in
   let! (s, _, r) := MapBufferEx 0x100 4 0x100000 0x3000 0x8000000 (sample_nvmap 0x1000) s in ok (r, gmmu_translate s 0x8100000)) =
  inr (Posix_Success, Some (0x7000100000, false)).
Proof. vm_compute. reflexivity. Qed.
