(* ===== verification/GpuChannel.v ===== *)
(** * GPU channels ([services/nvdrv/devices/nvhost/gpu_channel.{h,cpp}], [soc/gm20b/engines/gpfifo.{h,cpp}])

    A guest submits lists of commands through a channel and gets a fence back.  The device brackets
    the guest's commands with commands of its own, in memory that it maps into the GPU address
    space: before them a wait for the fence the guest gave, behind them two increments of the
    channel's syncpoint.  The GPFIFO engine carries out these commands.  What is proved goes through
    the pushbuffer decoder: the fence that a submission returns is reached when its commands are
    done, and a wait holds the channel until its fence is reached. *)

From S2P Require Import Prelude Common Host1x AddressSpace FlatMemory NvMap Gpfifo AsGpu.

(** ** The GPFIFO engine *)

(** The registers, the syncpoints of the system with the callbacks their increments made, and the
    memory behind the GMMU. *)
Record GpfifoEngine : Type := mk_gpfifo_engine {
  gf_registers : list Z;
  gf_syncpoints : list Syncpoint;
  gf_called : list nat;
  gf_blocks : list Block;
  gf_ram : host_ram }.

Definition GpfifoEngine_new (syncpoints : list Syncpoint) (blocks : list Block) (ram : host_ram) : GpfifoEngine :=
  mk_gpfifo_engine (replicate 0x40 0) syncpoints [] blocks ram.

Definition gf_reg (r : nat) (g : GpfifoEngine) : Z := default 0 (gf_registers g !! r).
Definition set_gf_ram (ram : host_ram) (g : GpfifoEngine) : GpfifoEngine :=
  mk_gpfifo_engine (gf_registers g) (gf_syncpoints g) (gf_called g) (gf_blocks g) ram.

Definition sync_operation (action : Z) : Z := bits 0 1 action.
Definition sync_index (action : Z) : Z := bits 8 12 action.

Definition sem_operation (action : Z) : Z := bits 0 5 action.
Definition sem_releaseSize (action : Z) : Z := bits 24 1 action.
Definition sem_reduction (action : Z) : Z := bits 27 4 action.
Definition sem_format (action : Z) : Z := bits 31 1 action.

(** A wait without a timeout holds the channel until the threshold is reached. *)
Definition sync_action (action : Z) (g : GpfifoEngine) : M GpfifoEngine :=
  let! sp := at_syncpoint (sync_index action) (gf_syncpoints g) in
  if sync_operation action =? 1 then
    let '(sp, _, called) := Increment sp in
    ok (mk_gpfifo_engine (gf_registers g) (<[Z.to_nat (sync_index action) := sp]> (gf_syncpoints g)) (gf_called g ++ called) (gf_blocks g) (gf_ram g))
  else if gf_reg 0x1C g <=? sp_value sp then ok g else fail (Suspended "Wait syncpoint").

(** Little-endian words of [n] bytes. *)
Definition bytes_of (n : nat) (v : Z) : list Z := map (fun i => bits (8 * Z.of_nat i) 8 v) (seq 0 n).
Definition word_of (l : list Z) : Z := foldr (fun b v => b + 256 * v) 0 l.

Definition reduce_value (reduction origVal payload : Z) (isSigned : bool) : M Z :=
  match reduction with
  | 0 => ok (if isSigned then u32 (Z.min (i32 origVal) (i32 payload)) else Z.min origVal payload)
  | 1 => ok (if isSigned then u32 (Z.max (i32 origVal) (i32 payload)) else Z.max origVal payload)
  | 2 => ok (Z.lxor origVal payload)
  | 3 => ok (Z.land origVal payload)
  | 4 => ok (Z.lor origVal payload)
  | 5 =>
      if isSigned then
        let v := i32 origVal + i32 payload in
        if (- 2 ^ 31 <=? v) && (v <? 2 ^ 31) then ok (u32 v) else fail (Undefined "signed overflow")
      else ok (u32 (origVal + payload))
  | 6 => ok (if payload <=? origVal then 0 else u32 (origVal + 1))
  | 7 => ok (if (origVal =? 0) || (payload <? origVal) then payload else origVal - 1)
  | _ => fail (Undefined "reduction")
  end.

Definition sem_address (g : GpfifoEngine) : Z := Z.lor (Z.shiftl (gf_reg 4 g) 32) (gf_reg 5 g).

(** [time] is the GPU time. *)
Definition sem_action (time action : Z) (g : GpfifoEngine) : M GpfifoEngine :=
  let address := sem_address g in
  let payload := gf_reg 6 g in
  let! ram :=
    if sem_releaseSize action =? 0 then
      let! ram := Mm_Write 64 (gf_blocks g) (u64 (address + 4)) (bytes_of 4 0) (gf_ram g) in
      Mm_Write 64 (gf_blocks g) (u64 (address + 8)) (bytes_of 8 time) ram
    else ok (gf_ram g) in
  if sem_operation action =? 2 then
    let! ram := Mm_Write 64 (gf_blocks g) address (bytes_of 4 payload) ram in ok (set_gf_ram ram g)
  else if sem_operation action =? 16 then
    let! orig := Mm_Read 64 (gf_blocks g) ram address 4 in
    let! val := reduce_value (sem_reduction (gf_reg 7 g)) (word_of orig) payload (sem_format action =? 0) in
    let! ram := Mm_Write 64 (gf_blocks g) address (bytes_of 4 val) ram in ok (set_gf_ram ram g)
  else ok (set_gf_ram ram g).

Definition GPFIFO_CallMethod (time method argument : Z) (g : GpfifoEngine) : M GpfifoEngine :=
  let g := mk_gpfifo_engine (<[Z.to_nat method := argument]> (gf_registers g)) (gf_syncpoints g) (gf_called g) (gf_blocks g) (gf_ram g) in
  if method =? 0x1D then sync_action argument g
  else if method =? 7 then sem_action time argument g
  else ok g.

(** The calls of a run that go to this engine; the others do not touch its state. *)
Definition exec_calls (time : Z) (calls : list Call) (g : GpfifoEngine) : M GpfifoEngine :=
  foldM (fun g c => match c with CallMethod Gpfifo_engine method argument => GPFIFO_CallMethod time method argument g | _ => ok g end) calls g.

(** ** The device *)

(** [gc_gpfifo] are the entries pushed to the channel's GPFIFO once it is allocated. *)
Record GpuChannel : Type := mk_gpu_channel {
  gc_syncpoint : Z;
  gc_userData : Z;
  gc_bound : bool;
  gc_gpfifo : option (list GpEntry);
  gc_pushBufferAddr : Z;
  gc_pushBufferMemoryOffset : nat;
  gc_pushBufferMemory : list Z }.

Definition GpuChannel_new (m : SyncpointManager) : M (SyncpointManager * GpuChannel) :=
  let! (m, id) := AllocateSyncpoint false m in ok (m, mk_gpu_channel id 0 false None 0 0 []).

Definition SyncpointWaitCmdLen : nat := 4.
Definition AddSyncpointWaitCmd (fence : Fence) : list Z :=
  [0x2001001C; fence_threshold fence; 0x2001001D; u32 (Z.lor (Z.shiftl (fence_id fence) 8) 0x10)].

Definition SyncpointIncrCmdMaxLen : nat := 8.
Definition AddSyncpointIncrCmd (fence : Fence) (wfi : bool) : list Z :=
  (if wfi then [0x2001001E; 0] else []) ++
  [0x2001001C; 0; 0x2001001D; u32 (Z.lor (Z.shiftl (fence_id fence) 8) 1); 0x2001001D; u32 (Z.lor (Z.shiftl (fence_id fence) 8) 1)].

(** Commands of the device: they are written to its memory at the offset, which starts over when
    the end is near, and an entry of [len] words is pushed for them. *)
Definition push_commands (commands : list Z) (len : nat) (c : GpuChannel) : M GpuChannel :=
  match gc_gpfifo c with
  | None => fail (Undefined "null channel context")
  | Some q =>
      let offset := if (length (gc_pushBufferMemory c) <=? gc_pushBufferMemoryOffset c + len)%nat then O else gc_pushBufferMemoryOffset c in
      if (length (gc_pushBufferMemory c) <? offset + len)%nat then fail (Undefined "subspan past the end")
      else
        let memory := take offset (gc_pushBufferMemory c) ++ commands ++ drop (offset + length commands) (gc_pushBufferMemory c) in
        let entry := GpEntry_new (u64 (gc_pushBufferAddr c + Z.of_nat offset * 4)) (Z.of_nat len) in
        ok (mk_gpu_channel (gc_syncpoint c) (gc_userData c) (gc_bound c) (Some (q ++ [entry])) (gc_pushBufferAddr c) (offset + len) memory)
  end.

Definition push_entries (entries : list GpEntry) (c : GpuChannel) : M GpuChannel :=
  match gc_gpfifo c with
  | None => fail (Undefined "null channel context")
  | Some q =>
      ok (mk_gpu_channel (gc_syncpoint c) (gc_userData c) (gc_bound c) (Some (q ++ entries)) (gc_pushBufferAddr c) (gc_pushBufferMemoryOffset c) (gc_pushBufferMemory c))
  end.

Definition sf_fenceWait (flags : Z) : bool := bit flags 0.
Definition sf_fenceIncrement (flags : Z) : bool := bit flags 1.
Definition sf_suppressWfi (flags : Z) : bool := bit flags 4.
Definition sf_incrementWithValue (flags : Z) : bool := bit flags 8.

(** The flags and the fence are arguments that the call changes. *)
Definition SubmitGpfifo (numEntries flags : Z) (fence : Fence) (gpEntries : list GpEntry) (m : SyncpointManager) (c : GpuChannel) :
    M (SyncpointManager * GpuChannel * Z * Fence * PosixResult) :=
  if Z.of_nat (length gpEntries) <? numEntries then fail (Throw "GpEntry size mismatch!")
  else if sf_fenceWait flags && sf_incrementWithValue flags then ok (m, c, flags, fence, Posix_InvalidArgument)
  else
    let! c :=
      if sf_fenceWait flags then
        let! signalled := HasSyncpointExpired (fence_id fence) (fence_threshold fence) m in
        if (signalled : bool) then ok c else push_commands (AddSyncpointWaitCmd fence) SyncpointWaitCmdLen c
      else ok c in
    let increment := u32 ((if sf_fenceIncrement flags then 2 else 0) + (if sf_incrementWithValue flags then fence_threshold fence else 0)) in
    let! (m, threshold) := IncrementSyncpointMaxExt (gc_syncpoint c) increment m in
    let fence := mk_fence (gc_syncpoint c) threshold in
    let! c := push_entries (take (Z.to_nat numEntries) gpEntries) c in
    let! c := if sf_fenceIncrement flags then push_commands (AddSyncpointIncrCmd fence (negb (sf_suppressWfi flags))) SyncpointIncrCmdMaxLen c else ok c in
    ok (m, c, 0, fence, Posix_Success).

(** [memory] is where the host puts the memory of the pushbuffer. *)
Definition AllocGpfifoEx2 (memory numEntries : Z) (m : SyncpointManager) (s : AsGpu) (c : GpuChannel) : M (AsGpu * GpuChannel * option Fence * PosixResult) :=
  if negb (gc_bound c) then ok (s, c, None, Posix_InvalidArgument)
  else
    match gc_gpfifo c with
    | Some _ => ok (s, c, None, Posix_FileExists)
    | None =>
        let! fence := GetSyncpointFence (gc_syncpoint c) m in
        let pushBufferWords := numEntries * Z.of_nat SyncpointIncrCmdMaxLen + numEntries * Z.of_nat SyncpointWaitCmdLen in
        let! a := allocator false (ag_vm s) in
        let! (a, page) := Allocate 32 (u32 (Z.shiftr (u32 pushBufferWords) VM_PageSizeBits + 1)) a in
        let pushBufferAddr := u64 (Z.shiftl page VM_PageSizeBits) in
        if pushBufferAddr =? 0 then fail (Throw "Failed to allocate channel pushbuffer!")
        else
          let! gmmu := MapLocked gmmu_params pushBufferAddr memory (pushBufferWords * 4) false (ag_gmmu s) in
          ok (set_gmmu gmmu (set_vm (set_allocator false a (ag_vm s)) s),
              mk_gpu_channel (gc_syncpoint c) (gc_userData c) true (Some []) pushBufferAddr 0 (replicate (Z.to_nat pushBufferWords) 0), Some fence, Posix_Success)
    end.

(** Binding an address space to a channel. *)
Definition BindChannel (s : AsGpu) (c : GpuChannel) : GpuChannel * PosixResult :=
  if negb (initialised s) then (c, Posix_InvalidArgument)
  else if gc_bound c then (c, Posix_InvalidArgument)
  else
    (mk_gpu_channel (gc_syncpoint c) (gc_userData c) true (gc_gpfifo c) (gc_pushBufferAddr c) (gc_pushBufferMemoryOffset c) (gc_pushBufferMemory c), Posix_Success).

Definition SetUserData (userData : Z) (c : GpuChannel) : GpuChannel * PosixResult :=
  (mk_gpu_channel (gc_syncpoint c) userData (gc_bound c) (gc_gpfifo c) (gc_pushBufferAddr c) (gc_pushBufferMemoryOffset c) (gc_pushBufferMemory c), Posix_Success).
Definition GetUserData (c : GpuChannel) : Z * PosixResult := (gc_userData c, Posix_Success).

(** What the GPU reads of the device's memory, and what the channel does with one of its entries. *)
Definition read_commands (c : GpuChannel) (address size : Z) : M (list Z) :=
  ok (take (Z.to_nat size) (drop (Z.to_nat ((address - gc_pushBufferAddr c) / 4)) (gc_pushBufferMemory c))).

Definition run_entry (time : Z) (c : GpuChannel) (entry : GpEntry) (g : GpfifoEngine) : M GpfifoEngine :=
  let (calls, r) := Process (read_commands c) entry resumeState_init in
  let! _ := r in exec_calls time calls g.

(** ** The commands the device adds *)

(** A channel that is allocated, with memory for its commands that entries can name. *)
Record channel_ok (c : GpuChannel) : Prop := mk_channel_ok {
  co_syncpoint : 0 <= gc_syncpoint c < 192;
  co_addr : 0 <= gc_pushBufferAddr c /\ gc_pushBufferAddr c mod 4 = 0 /\ gc_pushBufferAddr c + Z.of_nat (length (gc_pushBufferMemory c)) * 4 < 2 ^ 40;
  co_memory : (12 <= length (gc_pushBufferMemory c))%nat }.

(** Pushing commands of the full length: the entry that is pushed reads exactly them. *)
Lemma push_commands_spec commands len c q : channel_ok c -> gc_gpfifo c = Some q -> length commands = len -> (0 < len <= 12)%nat ->
  exists c' entry, push_commands commands len c = ok c' /\ gc_gpfifo c' = Some (q ++ [entry]) /\ gc_syncpoint c' = gc_syncpoint c /\
    channel_ok c' /\ ge_size entry = Z.of_nat len /\ read_commands c' (GpEntry_Address entry) (Z.of_nat len) = ok commands.
Proof.
  intros [Hs (Ha0 & Ha4 & Ha) Hm] Hq Hlen Hl. unfold push_commands. rewrite Hq.
  set (offset := if (_ <=? _)%nat then O else _). assert (Hoff : (offset + len <= length (gc_pushBufferMemory c))%nat).
  { unfold offset. destruct (Nat.leb_spec (length (gc_pushBufferMemory c)) (gc_pushBufferMemoryOffset c + len)); lia. }
  rewrite (proj2 (Nat.ltb_ge _ _)) by lia. clearbody offset.
  set (memory := take offset _ ++ _). assert (Hml : length memory = length (gc_pushBufferMemory c)) by (unfold memory; rewrite !length_app, length_take, length_drop; lia).
  rewrite wrap_small by lia.
  destruct (GpEntry_Address_new (gc_pushBufferAddr c + Z.of_nat offset * 4) (Z.of_nat len)) as [Ea Es]; [lia|rewrite Z.mod_add by lia; done|lia|].
  eexists _, _. split; [reflexivity|]. cbn [gc_gpfifo gc_syncpoint gc_pushBufferMemory gc_pushBufferAddr]. do 2 (split; [done|]). split; [|split; [done|]].
  - split; cbn [gc_syncpoint gc_pushBufferAddr gc_pushBufferMemory]; [done|by rewrite Hml|by rewrite Hml].
  - unfold read_commands. cbn [gc_pushBufferAddr gc_pushBufferMemory]. rewrite Ea. replace (gc_pushBufferAddr c + Z.of_nat offset * 4 - gc_pushBufferAddr c) with (Z.of_nat offset * 4) by lia.
    rewrite Z.div_mul, !Nat2Z.id by lia. f_equal. unfold memory. rewrite drop_app_length' by (rewrite length_take; lia). by apply take_app_length'.
Qed.

(** What the fields of the actions are. *)
Definition action_fields (id : Z) : bool :=
  let incr := u32 (Z.lor (Z.shiftl id 8) 1) in
  let wait := u32 (Z.lor (Z.shiftl id 8) 0x10) in
  (sync_operation incr =? 1) && (sync_index incr =? id) && (sync_operation wait =? 0) && (sync_index wait =? id).

Lemma action_fields_ok id : 0 <= id < 192 -> action_fields id = true.
Proof.
  intros Hid. assert (H : forallb action_fields (seqZ 0 192) = true) by (vm_compute; reflexivity).
  rewrite forallb_forall in H. apply H, list_elem_of_In, elem_of_seqZ. lia.
Qed.

Lemma decode_incr a : process_buffer [0x2001001E; 0; 0x2001001C; 0; 0x2001001D; a; 0x2001001D; a] resumeState_init =
  ([CallMethod Gpfifo_engine 0x1E 0; CallMethod Gpfifo_engine 0x1C 0; CallMethod Gpfifo_engine 0x1D a; CallMethod Gpfifo_engine 0x1D a; FlushEngineState], inr resumeState_init).
Proof. vm_compute. reflexivity. Qed.

Lemma decode_wait t a : process_buffer [0x2001001C; t; 0x2001001D; a] resumeState_init =
  ([CallMethod Gpfifo_engine 0x1C t; CallMethod Gpfifo_engine 0x1D a; FlushEngineState], inr resumeState_init).
Proof. vm_compute. reflexivity. Qed.

Lemma run_entry_decoded time c entry g words calls : ge_size entry <> 0 -> read_commands c (GpEntry_Address entry) (ge_size entry) = ok words ->
  process_buffer words resumeState_init = (calls, inr resumeState_init) -> run_entry time c entry g = exec_calls time calls g.
Proof.
  intros Hs Hr Hp. unfold run_entry, Process. rewrite (proj2 (Z.eqb_neq _ _) Hs), Hr. cbn [ok bindW]. rewrite Hp. done.
Qed.

(** An increment adds one to the value of its syncpoint and leaves the others alone. *)
Lemma sync_incr id g sp : 0 <= id < 192 -> gf_syncpoints g !! Z.to_nat id = Some sp ->
  exists g' sp', sync_action (u32 (Z.lor (Z.shiftl id 8) 1)) g = ok g' /\ gf_registers g' = gf_registers g /\ gf_syncpoints g' = <[Z.to_nat id := sp']> (gf_syncpoints g) /\
    sp_value sp' = u32 (sp_value sp + 1) /\ gf_ram g' = gf_ram g.
Proof.
  intros Hid Hsp. pose proof (action_fields_ok id Hid) as Hf. unfold action_fields in Hf. rewrite !andb_true_iff, !Z.eqb_eq in Hf. destruct Hf as [[[H1 H2] _] _].
  unfold sync_action, at_syncpoint. rewrite H2, Hsp. cbn [from_opt bindM ok]. rewrite H1. cbn [Z.eqb Pos.eqb].
  destruct (Increment sp) as [[sp' v] called] eqn:E. eexists _, sp'. split; [reflexivity|]. do 2 (split; [done|]). split; [|done].
  unfold Increment in E. destruct (drain _ _). by injection E as <- _ _.
Qed.

(** The whole increment command adds two. *)
Lemma exec_incr time id g sp : 0 <= id < 192 -> gf_syncpoints g !! Z.to_nat id = Some sp ->
  let a := u32 (Z.lor (Z.shiftl id 8) 1) in
  exists g', exec_calls time [CallMethod Gpfifo_engine 0x1E 0; CallMethod Gpfifo_engine 0x1C 0; CallMethod Gpfifo_engine 0x1D a; CallMethod Gpfifo_engine 0x1D a; FlushEngineState] g = ok g' /\
    sp_value <$> gf_syncpoints g' !! Z.to_nat id = Some (u32 (sp_value sp + 2)) /\
    (forall k, k <> Z.to_nat id -> gf_syncpoints g' !! k = gf_syncpoints g !! k) /\ gf_ram g' = gf_ram g.
Proof.
  intros Hid Hsp a. pose proof (sync_incr id) as HI. fold a in HI. unfold exec_calls. cbn [foldM]. unfold GPFIFO_CallMethod at 1 2. cbn [Z.eqb Pos.eqb bindM ok]. unfold GPFIFO_CallMethod at 1. cbn [Z.eqb Pos.eqb]. set (g1 := mk_gpfifo_engine _ _ _ _ _).
  destruct (HI g1 sp Hid Hsp) as (g2 & sp2 & -> & _ & E2 & V2 & R2). cbn [bindM ok]. unfold GPFIFO_CallMethod at 1. cbn [Z.eqb Pos.eqb]. set (g3 := mk_gpfifo_engine _ _ _ _ _).
  assert (Hsp3 : gf_syncpoints g3 !! Z.to_nat id = Some sp2).
  { unfold g3. cbn [gf_syncpoints]. rewrite E2. apply list_lookup_insert_eq. unfold g1. cbn [gf_syncpoints]. by eapply lookup_lt_Some. }
  destruct (HI g3 sp2 Hid Hsp3) as (g4 & sp4 & -> & _ & E4 & V4 & R4). cbn [bindM ok]. exists g4. split; [done|]. split; [|split].
  - rewrite E4, list_lookup_insert_eq by (by eapply lookup_lt_Some). cbn. f_equal. rewrite V4, V2. unfold wrap. rewrite Zplus_mod_idemp_l. f_equal. lia.
  - intros k Hk. rewrite E4, list_lookup_insert_ne by done. unfold g3. cbn [gf_syncpoints]. by rewrite E2, list_lookup_insert_ne by done.
  - rewrite R4. unfold g3. cbn [gf_ram]. by rewrite R2.
Qed.

Lemma exec_wait time fence g sp : 0 <= fence_id fence < 192 -> length (gf_registers g) = 0x40%nat -> gf_syncpoints g !! Z.to_nat (fence_id fence) = Some sp ->
  let r := exec_calls time [CallMethod Gpfifo_engine 0x1C (fence_threshold fence);
    CallMethod Gpfifo_engine 0x1D (u32 (Z.lor (Z.shiftl (fence_id fence) 8) 0x10)); FlushEngineState] g in
  if fence_threshold fence <=? sp_value sp then exists g', r = ok g' /\ gf_syncpoints g' = gf_syncpoints g /\ gf_ram g' = gf_ram g
  else r = fail (Suspended "Wait syncpoint").
Proof.
  intros Hid Hr Hsp. pose proof (action_fields_ok _ Hid) as Hf. unfold action_fields in Hf. rewrite !andb_true_iff, !Z.eqb_eq in Hf. destruct Hf as [[_ H1] H2].
  unfold exec_calls. cbn [foldM]. unfold GPFIFO_CallMethod. cbn [Z.eqb Pos.eqb bindM ok gf_registers gf_syncpoints gf_called gf_blocks gf_ram]. unfold sync_action, at_syncpoint.
  cbn [gf_syncpoints]. rewrite H2, Hsp. cbn [from_opt bindM ok]. rewrite H1. cbn [Z.eqb Pos.eqb]. unfold gf_reg. cbn [gf_registers].
  rewrite list_lookup_insert_ne by lia. change (Z.to_nat 0x1C) with 0x1C%nat. rewrite list_lookup_insert_eq by lia. cbn [default from_option].
  unfold id. destruct (fence_threshold fence <=? sp_value sp); cbn [bindM ok fail]; [|done]. eexists. split; [reflexivity|]. done.
Qed.

(** The first half of a submission: at most one entry, the wait, goes in front of the guest's. *)
Definition push_wait (flags : Z) (fence : Fence) (m : SyncpointManager) (c : GpuChannel) : M GpuChannel :=
  if sf_fenceWait flags then
    let! signalled := HasSyncpointExpired (fence_id fence) (fence_threshold fence) m in
    if (signalled : bool) then ok c else push_commands (AddSyncpointWaitCmd fence) SyncpointWaitCmdLen c
  else ok c.

Lemma push_wait_spec flags fence m c q :
  channel_ok c -> gc_gpfifo c = Some q -> (sf_fenceWait flags = true -> exists b, HasSyncpointExpired (fence_id fence) (fence_threshold fence) m = ok b) ->
  exists c' waits, push_wait flags fence m c = ok c' /\ gc_gpfifo c' = Some (q ++ waits) /\ gc_syncpoint c' = gc_syncpoint c /\ channel_ok c' /\
    (length waits <= 1)%nat /\ (sf_fenceWait flags = false -> waits = []).
Proof.
  intros Hok Hq Hx. unfold push_wait. destruct (sf_fenceWait flags); [|exists c, []; rewrite app_nil_r; split_and!; simpl; (done || lia)].
  destruct (Hx eq_refl) as [b ->]. cbn [bindM ok]. destruct b; [exists c, []; rewrite app_nil_r; split_and!; simpl; (done || lia)|].
  destruct (push_commands_spec (AddSyncpointWaitCmd fence) SyncpointWaitCmdLen c q Hok Hq eq_refl ltac:(unfold SyncpointWaitCmdLen; lia)) as (c1 & entry & HP & Hg & Hs & Hok1 & _).
  exists c1, [entry]. split_and!; simpl; (done || lia).
Qed.

(** How far the guest's own commands raise the syncpoint of the channel. *)
Definition guest_increments (flags : Z) (fence : Fence) : Z := if sf_incrementWithValue flags then fence_threshold fence else 0.

(** C10: the fence of a submission is reached.  Submitting a list of entries to a channel that is
    allocated, asking for a fence (fenceIncrement), pushes at most one entry that waits for the
    guest's fence, the entries, and one entry behind them, and gives a fence of the channel's
    syncpoint, two above what it could reach before and what the guest says that its own commands
    add (incrementWithValue).  When the channel gets to the last entry, the decoder and the engine
    raise that syncpoint by two and no other, so that if everything submitted before is done the
    syncpoint is then exactly at the fence.  It is so for submissions with the wait for idle: with
    suppressWfi the last entry runs two words of an older command, which can be one more increment
    ([suppressWfi_increments_again]).  A fence to wait for names an allocated syncpoint, and a
    submission that is to wait and to add a value is refused, so it is left out. *)
Theorem SubmitGpfifo_fence_reached flags fence gpEntries m c q i :
  channel_ok c -> gc_gpfifo c = Some q -> m !! Z.to_nat (gc_syncpoint c) = Some i -> si_reserved i = true ->
  (sf_fenceWait flags = true -> exists b, HasSyncpointExpired (fence_id fence) (fence_threshold fence) m = ok b) ->
  sf_fenceIncrement flags = true -> sf_fenceWait flags && sf_incrementWithValue flags = false -> sf_suppressWfi flags = false ->
  exists m' c' waits entry fence', SubmitGpfifo (Z.of_nat (length gpEntries)) flags fence gpEntries m c = inr (m', c', 0, fence', Posix_Success) /\
    fence' = mk_fence (gc_syncpoint c) (u32 (si_counterMax i + guest_increments flags fence + 2)) /\ gc_gpfifo c' = Some (q ++ waits ++ gpEntries ++ [entry]) /\
    (length waits <= 1)%nat /\ (sf_fenceWait flags = false -> waits = []) /\ channel_ok c' /\
    forall time g sp, gf_syncpoints g !! Z.to_nat (gc_syncpoint c) = Some sp ->
      exists g', run_entry time c' entry g = inr g' /\
        sp_value <$> gf_syncpoints g' !! Z.to_nat (gc_syncpoint c) = Some (u32 (sp_value sp + 2)) /\
        (sp_value sp = u32 (si_counterMax i + guest_increments flags fence) -> sp_value <$> gf_syncpoints g' !! Z.to_nat (gc_syncpoint c) = Some (fence_threshold fence')) /\
        forall k, k <> Z.to_nat (gc_syncpoint c) -> gf_syncpoints g' !! k = gf_syncpoints g !! k.
Proof.
  intros Hok Hq Hm Hres F1 F2 F3 F4. destruct (push_wait_spec flags fence m c q Hok Hq F1) as (c0 & waits & HW & Hq0 & Hs0 & Hok0 & Hl & Hno).
  unfold SubmitGpfifo. rewrite Z.ltb_irrefl, F2, F3, F4. fold (push_wait flags fence m c). rewrite HW. cbn [bindM ok negb].
  unfold IncrementSyncpointMaxExt, at_info. rewrite Hs0, Hm. cbn [from_opt bindM ok]. rewrite Hres. cbn [negb bindM ok]. fold (guest_increments flags fence).
  assert (Einc : u32 (si_counterMax i + u32 (2 + guest_increments flags fence)) = u32 (si_counterMax i + guest_increments flags fence + 2)).
  { unfold wrap. rewrite Zplus_mod_idemp_r. f_equal. lia. }
  rewrite Einc.
  unfold push_entries. rewrite Hq0, Nat2Z.id, take_ge by done. cbn [bindM ok]. set (c1 := mk_gpu_channel _ _ _ _ _ _ _).
  set (fence' := mk_fence (gc_syncpoint c) (u32 (si_counterMax i + guest_increments flags fence + 2))). assert (Hok1 : channel_ok c1) by (by destruct Hok0).
  destruct (push_commands_spec (AddSyncpointIncrCmd fence' true) SyncpointIncrCmdMaxLen c1 ((q ++ waits) ++ gpEntries) Hok1 eq_refl eq_refl ltac:(unfold SyncpointIncrCmdMaxLen; lia)) as (c' & entry & HP & Hg & Hs & Hok' & Hsz & Hread).
  rewrite HP. cbn [bindM ok]. eexists _, c', waits, entry, fence'. split; [reflexivity|]. split; [done|]. split; [by rewrite Hg, <- !app_assoc|]. do 3 (split; [done|]).
  intros time g sp Hsp. rewrite <- Hsz in Hread.
  rewrite (run_entry_decoded time c' entry g _ _ ltac:(by rewrite Hsz) Hread (decode_incr _)).
  destruct (exec_incr time (gc_syncpoint c) g sp (co_syncpoint _ Hok) Hsp) as (g' & HE & V & Ho & _). exists g'. split; [exact HE|]. split; [done|]. split; [|done].
  intros E. rewrite V. cbn [fence_threshold fence']. rewrite E. unfold wrap. by rewrite Zplus_mod_idemp_l.
Qed.

(** a submission that is to wait for a fence puts a wait in front of its entries, unless the
    fence is known to be reached: when the channel gets to it, it goes on if the syncpoint has
    reached the threshold, and stops until it has otherwise. *)
Theorem SubmitGpfifo_waits flags fence gpEntries m c q i :
  channel_ok c -> gc_gpfifo c = Some q -> m !! Z.to_nat (gc_syncpoint c) = Some i -> si_reserved i = true -> 0 <= fence_id fence < 192 ->
  sf_fenceWait flags = true -> sf_fenceIncrement flags = false -> sf_incrementWithValue flags = false ->
  HasSyncpointExpired (fence_id fence) (fence_threshold fence) m = ok false ->
  exists m' c' entry fence', SubmitGpfifo (Z.of_nat (length gpEntries)) flags fence gpEntries m c = inr (m', c', 0, fence', Posix_Success) /\
    gc_gpfifo c' = Some (q ++ entry :: gpEntries) /\
    forall time g sp, length (gf_registers g) = 0x40%nat -> gf_syncpoints g !! Z.to_nat (fence_id fence) = Some sp ->
      if fence_threshold fence <=? sp_value sp then exists g', run_entry time c' entry g = inr g' /\ gf_syncpoints g' = gf_syncpoints g /\ gf_ram g' = gf_ram g
      else run_entry time c' entry g = inl (Suspended "Wait syncpoint").
Proof.
  intros Hok Hq Hm Hres Hid F1 F2 F3 Hx. unfold SubmitGpfifo. rewrite Z.ltb_irrefl, F1, F2, F3, Hx. cbn [andb bindM ok negb].
  destruct (push_commands_spec (AddSyncpointWaitCmd fence) SyncpointWaitCmdLen c q Hok Hq eq_refl ltac:(unfold SyncpointWaitCmdLen; lia)) as (c1 & entry & HP & Hg & Hs & Hok1 & Hsz & Hread).
  rewrite HP. cbn [bindM ok]. unfold IncrementSyncpointMaxExt, at_info. rewrite Hs, Hm. cbn [from_opt bindM ok]. rewrite Hres. cbn [negb bindM ok].
  unfold push_entries. rewrite Hg, Nat2Z.id, take_ge by done. cbn [bindM ok]. eexists _, _, entry, _. split; [reflexivity|]. cbn [gc_gpfifo].
  split; [by rewrite <- app_assoc|]. intros time g sp Hr Hsp. rewrite <- Hsz in Hread. set (c2 := mk_gpu_channel _ _ _ _ _ _ _).
  change (read_commands c1) with (read_commands c2) in Hread.
  rewrite (run_entry_decoded time c2 entry g (AddSyncpointWaitCmd fence) _ ltac:(by rewrite Hsz) Hread (decode_wait _ _)). by apply exec_wait.
Qed.

(** ** Witnesses *)

Definition sample_manager : SyncpointManager := match SyncpointManager_new with inr m => m | inl _ => [] end.

(** A channel with sixteen entries, on the address space of the examples. *)
Definition sample_channel : M (SyncpointManager * AsGpu * GpuChannel) :=
  let! (m, c) := GpuChannel_new sample_manager in
  let (c, _) := BindChannel sample_as c in
  let! (s, c, _, _) := AllocGpfifoEx2 0x7100000000 16 m sample_as c in ok (m, s, c).

Definition allocated_channel : GpuChannel := mk_gpu_channel 1 0 true (Some []) 0x8000000 0 (replicate 192 0).
Definition allocated_manager : SyncpointManager := <[1%nat := mk_sp_info 0 0 false true]> sample_manager.

Lemma sample_channel_eq : match sample_channel with inr (m, _, c) => m = allocated_manager /\ c = allocated_channel | inl _ => False end.
Proof. vm_compute. by split. Qed.

Lemma allocated_channel_ok : channel_ok allocated_channel.
Proof. split; [done|vm_compute; by repeat split|vm_compute; lia]. Qed.

Definition sample_engine : GpfifoEngine := GpfifoEngine_new (replicate SyncpointCount Syncpoint_new) [] (fun _ => 0).

Lemma SubmitGpfifo_fence_reached_witness :
  exists m' c' wait entry, SubmitGpfifo 1 3 (mk_fence 26 3) [GpEntry_new 0x9000000 4] allocated_manager allocated_channel = inr (m', c', 0, mk_fence 1 2, Posix_Success) /\
    gc_gpfifo c' = Some [wait; GpEntry_new 0x9000000 4; entry] /\
    exists g', run_entry 0 c' entry sample_engine = inr g' /\ sp_value <$> gf_syncpoints g' !! 1%nat = Some 2.
Proof.
  destruct (SubmitGpfifo_fence_reached 3 (mk_fence 26 3) [GpEntry_new 0x9000000 4] allocated_manager allocated_channel [] (mk_sp_info 0 0 false true)
    allocated_channel_ok eq_refl eq_refl eq_refl (fun _ => ex_intro _ false eq_refl) eq_refl eq_refl eq_refl) as (m' & c' & waits & entry & fence' & HS & -> & Hq & Hl & _ & _ & Hrun).
  destruct waits as [|wait [|]]; [exfalso; vm_compute in HS; injection HS as <- <-; discriminate Hq| |simpl in Hl; lia].
  exists m', c', wait, entry. split; [exact HS|]. split; [exact Hq|]. destruct (Hrun 0 sample_engine Syncpoint_new eq_refl) as (g' & HR & V & _). exists g'. split; [exact HR|exact V].
Defined.

Lemma SubmitGpfifo_waits_witness :
  exists m' c' entry fence', SubmitGpfifo 1 1 (mk_fence 26 3) [GpEntry_new 0x9000000 4] allocated_manager allocated_channel = inr (m', c', 0, fence', Posix_Success) /\
    gc_gpfifo c' = Some [entry; GpEntry_new 0x9000000 4] /\ run_entry 0 c' entry sample_engine = inl (Suspended "Wait syncpoint").
Proof.
  destruct (SubmitGpfifo_waits 1 (mk_fence 26 3) [GpEntry_new 0x9000000 4] allocated_manager allocated_channel [] (mk_sp_info 0 0 false true)
    allocated_channel_ok eq_refl eq_refl eq_refl ltac:(cbn; lia) eq_refl eq_refl eq_refl eq_refl) as (m' & c' & entry & fence' & HS & Hq & Hrun).
  exists m', c', entry, fence'. split; [exact HS|]. split; [exact Hq|]. exact (Hrun 0 sample_engine Syncpoint_new eq_refl eq_refl).
Defined.

(** ** Limits *)

(** The pages that are taken for the device's commands are counted in words, so the range that is
    mapped for them goes on over pages that the next mapping gets. *)
Lemma AllocGpfifoEx2_overlaps :
  (let! (m, c) := GpuChannel_new sample_manager in
   let (c, _) := BindChannel sample_as c in
   let! (s, c, _, _) := AllocGpfifoEx2 0x7100000000 0x800 m sample_as c in
   let! (s', offset, _) := MapBufferEx 0 4 0 0 0 (sample_nvmap 0x1000) s in ok (offset, gmmu_translate s offset)) = inr (0x8007000, Some (0x7100007000, false)).
Proof. vm_compute. reflexivity. Qed.

(** When the wait for idle is left out two words of the entry are left from before: on memory that
    was used for an increment they are one more increment. *)
Lemma suppressWfi_increments_again :
  (let! (m, c, _, _, _) := SubmitGpfifo 0 2 (mk_fence 0 0) [] allocated_manager (mk_gpu_channel 1 0 true (Some []) 0x8000000 0 (replicate 12 0)) in
   let! (m, c, _, fence, _) := SubmitGpfifo 0 0x12 (mk_fence 0 0) [] m c in
   let! g := match gc_gpfifo c with Some [_; entry] => run_entry 0 c entry sample_engine | _ => ok sample_engine end in
   ok (sp_value <$> gf_syncpoints g !! 1%nat)) = inr (Some 3).
Proof. vm_compute. reflexivity. Qed.

(** A semaphore acquire, which is not implemented, writes the time behind the semaphore. *)
Lemma acquire_writes_time :
  (let! g := exec_calls 0x77 [CallMethod Gpfifo_engine 5 0x1000; CallMethod Gpfifo_engine 7 1]
     (GpfifoEngine_new [] [mk_block 0 0 false; mk_block 0x1000 0x50000 false; mk_block 0x2000 0 false] (fun _ => 9)) in
   ok (gf_ram g 0x50008)) = inr 0x77.
Proof. vm_compute. reflexivity. Qed.
