(* ===== verification/NvDrv.v ===== *)
(** * The nvdrv service ([services/nvdrv/INvDrvServices.cpp], [driver.cpp], [types.h], [devices/deserialisation/*])

    A guest opens devices by path, and calls them by ioctls: a word that describes the call and a
    buffer with its arguments.  The service checks the buffers against the description, the driver
    finds the device and the device finds the call and takes the arguments out of the buffer by a
    list of their types.  The calls of every device are listed here with their argument types, and
    what is proved is that whatever the guest says, the arguments of a call of fixed size lie inside
    the buffer.  A buffer is the list of its bytes. *)

From S2P Require Import Prelude Common Host1x AddressSpace NvMap.

(** ** Descriptions of calls *)

(** [IoctlDescriptor]. *)
Definition io_function (raw : Z) : Z := bits 0 8 raw.
Definition io_magic (raw : Z) : Z := bits 8 8 raw.
Definition io_size (raw : Z) : Z := bits 16 14 raw.
Definition io_in (raw : Z) : bool := bit raw 30.
Definition io_out (raw : Z) : bool := bit raw 31.

(** The template types of arguments, with the sizes of what they stand for. *)
Inductive ArgType : Type :=
| AIn (size : Z)
| AInOut (size : Z)
| AOut (size : Z)
| APad (bytes : Z)
| ASave (size slot : Z)
| ASlotSizeSpan (size slot : Z)
| AAutoSizeSpan (size : Z).

(** A call of a device; [None] is the size of one of variable length. *)
Record IoctlCase : Type := mk_case {
  ic_out : bool;
  ic_in : bool;
  ic_size : option Z;
  ic_magic : Z;
  ic_function : Z;
  ic_args : list ArgType }.

Definition case_Raw (c : IoctlCase) : Z :=
  let raw := Z.lor (ic_function c) (Z.shiftl (ic_magic c) 8) in
  let raw := Z.lor raw (Z.shiftl (default 0 (ic_size c)) 16) in
  let raw := Z.lor raw (Z.shiftl (if ic_in c then 1 else 0) 30) in
  Z.lor raw (Z.shiftl (if ic_out c then 1 else 0) 31).

(** Where an argument lies in the buffer: its offset and its size. *)
Definition Place : Type := (Z * Z)%type.

Definition read_le (l : list Z) : Z := foldr (fun b v => b + 256 * v) 0 l.

(** Taking a part of the buffer is not checked, so one past its end is undefined. *)
Definition subspan (buffer : list Z) (offset size : Z) : M (list Z) :=
  if offset + size <=? Z.of_nat (length buffer) then ok (take (Z.to_nat size) (drop (Z.to_nat offset) buffer)) else fail (Undefined "argument past the end of the buffer").

Definition NumSaveSlots : nat := 10.

Fixpoint DecodeArgumentsImpl (args : list ArgType) (buffer : list Z) (offset : Z) (saveSlots : list Z) : M (list Place) :=
  match args with
  | [] => ok []
  | AAutoSizeSpan size :: _ =>
      let! _ := subspan buffer offset 0 in
      let count := (Z.of_nat (length buffer) - offset) / size in ok [(offset, count * size)]
  | APad bytes :: args => DecodeArgumentsImpl args buffer (offset + bytes) saveSlots
  | ASave size slot :: args =>
      let! v := subspan buffer offset size in
      DecodeArgumentsImpl args buffer (offset + size) (<[Z.to_nat slot := read_le v]> saveSlots)
  | ASlotSizeSpan size slot :: args =>
      let bytes := default 0 (saveSlots !! Z.to_nat slot) * size in
      let! _ := subspan buffer offset bytes in
      let! places := DecodeArgumentsImpl args buffer (offset + bytes) saveSlots in ok ((offset, bytes) :: places)
  | AIn size :: args | AInOut size :: args | AOut size :: args =>
      let! _ := subspan buffer offset size in
      let! places := DecodeArgumentsImpl args buffer (offset + size) saveSlots in ok ((offset, size) :: places)
  end.

Definition DecodeArguments (args : list ArgType) (buffer : list Z) : M (list Place) := DecodeArgumentsImpl args buffer 0 (replicate NumSaveSlots 0).

(** ** The devices *)

Inductive DeviceKind : Type := Dev_NvMap | Dev_Ctrl | Dev_AsGpu | Dev_CtrlGpu | Dev_GpuChannel | Dev_NvJpg | Dev_Vic | Dev_NvDec.

#[global] Instance DeviceKind_eq_dec : EqDecision DeviceKind.
Proof. solve_decision. Defined.

Definition IN_ (size magic function : Z) (args : list ArgType) : IoctlCase := mk_case false true (Some size) magic function args.
Definition OUT_ (size magic function : Z) (args : list ArgType) : IoctlCase := mk_case true false (Some size) magic function args.
Definition INOUT_ (size magic function : Z) (args : list ArgType) : IoctlCase := mk_case true true (Some size) magic function args.
Definition VARIABLE_ (magic function : Z) (args : list ArgType) : IoctlCase := mk_case true true None magic function args.

Definition NvMap_cases : list IoctlCase :=
  [INOUT_ 0x8 1 0x1 [AIn 4; AOut 4];
   INOUT_ 0x8 1 0x3 [AIn 4; AOut 4];
   INOUT_ 0x20 1 0x4 [AIn 4; AIn 4; AIn 4; AInOut 4; AIn 1; APad 7; AIn 8];
   INOUT_ 0x18 1 0x5 [AIn 4; APad 4; AOut 8; AOut 4; AOut 4];
   INOUT_ 0xC 1 0x9 [AIn 4; AIn 4; AOut 4];
   INOUT_ 0x8 1 0xE [AOut 4; AIn 4]].

Definition Ctrl_cases : list IoctlCase :=
  [INOUT_ 0x4 0 0x1C [AIn 4];
   INOUT_ 0x10 0 0x1D [AIn 8; AIn 4; AInOut 4];
   INOUT_ 0x10 0 0x1E [AIn 8; AIn 4; AInOut 4];
   INOUT_ 0x4 0 0x1F [AIn 4];
   INOUT_ 0x4 0 0x20 [AIn 4];
   INOUT_ 0x8 0 0x21 [AIn 8];
   INOUT_ 0x183 0 0x1B []].

Definition AsGpu_cases : list IoctlCase :=
  [IN_ 0x4 0x41 0x1 [AIn 4];
   INOUT_ 0x18 0x41 0x2 [AIn 4; AIn 4; AIn 4; APad 4; AInOut 8];
   INOUT_ 0x10 0x41 0x3 [AIn 8; AIn 4; AIn 4];
   INOUT_ 0x8 0x41 0x5 [AIn 8];
   INOUT_ 0x28 0x41 0x6 [AIn 4; AIn 4; AIn 4; APad 4; AIn 8; AIn 8; AInOut 8];
   INOUT_ 0x40 0x41 0x8 [AIn 8; AInOut 4; APad 4; AOut 0x30];
   IN_ 0x28 0x41 0x9 [AIn 4; AIn 4; AIn 4; APad 4; AIn 8; AIn 8; AIn 8];
   VARIABLE_ 0x41 0x14 [AAutoSizeSpan 0x14]].

Definition CtrlGpu_cases : list IoctlCase :=
  [OUT_ 0x4 0x47 0x1 [AOut 4];
   OUT_ 0x28 0x47 0x2 [AOut 0x28];
   IN_ 0x2C 0x47 0x3 [AIn 16; AIn 16; AIn 4; AIn 4; AIn 4];
   INOUT_ 0xB0 0x47 0x5 [AInOut 8; AIn 8; AOut 0xA0];
   INOUT_ 0x18 0x47 0x6 [AIn 4; APad 12; AOut 4];
   OUT_ 0x8 0x47 0x14 [AOut 4; AOut 4]].

Definition GpuChannel_cases : list IoctlCase :=
  [IN_ 0x4 0x48 0x1 [AIn 4];
   IN_ 0x4 0x48 0x3 [AIn 4];
   INOUT_ 0x10 0x48 0x9 [AIn 4; AIn 4; AOut 8];
   INOUT_ 0x10 0x48 0xB [AIn 8; AIn 4];
   INOUT_ 0x18 0x48 0xC [AIn 8; AIn 8; AIn 4];
   IN_ 0x4 0x48 0xD [AIn 4];
   INOUT_ 0x20 0x48 0x1A [AIn 4; AIn 4; AIn 4; AOut 8];
   INOUT_ 0x4 0x48 0x1D [AIn 4];
   IN_ 0x8 0x47 0x14 [AIn 8];
   OUT_ 0x8 0x47 0x15 [AOut 8];
   VARIABLE_ 0x48 0x8 [AIn 8; AIn 4; AInOut 4; AInOut 8; AAutoSizeSpan 8]].

Definition Host1xChannel_cases : list IoctlCase :=
  [IN_ 0x4 0x48 0x1 [AIn 4];
   INOUT_ 0x8 0 0x2 [AIn 4; AOut 4];
   INOUT_ 0x8 0 0x3 [AIn 4; AOut 4];
   IN_ 0x4 0 0x7 [AIn 4];
   VARIABLE_ 0 0x1 [ASave 4 0; ASave 4 1; ASave 4 2; ASave 4 3; ASlotSizeSpan 12 0; ASlotSizeSpan 16 1; ASlotSizeSpan 4 1; ASlotSizeSpan 20 2; ASlotSizeSpan 4 3];
   VARIABLE_ 0 0x9 [ASave 4 0; APad 4; AIn 1; APad 3; ASlotSizeSpan 8 0];
   VARIABLE_ 0 0xA [ASave 4 0; APad 4; AIn 1; APad 3; ASlotSizeSpan 8 0]].

Definition device_cases (d : DeviceKind) : list IoctlCase :=
  match d with
  | Dev_NvMap => NvMap_cases
  | Dev_Ctrl => Ctrl_cases
  | Dev_AsGpu => AsGpu_cases
  | Dev_CtrlGpu => CtrlGpu_cases
  | Dev_GpuChannel => GpuChannel_cases
  | Dev_NvJpg | Dev_Vic | Dev_NvDec => Host1xChannel_cases
  end.

(** The calls with an inline buffer. *)
Definition inline2_cases (d : DeviceKind) : list IoctlCase :=
  match d with Dev_GpuChannel => [INOUT_ 0x18 0x48 0x1B [AIn 8; AIn 4; AInOut 4; AInOut 8]] | _ => [] end.

Definition inline3_cases (d : DeviceKind) : list IoctlCase :=
  match d with
  | Dev_AsGpu => [INOUT_ 0x40 0x41 0x8 [AIn 8; AInOut 4; APad 4; AOut 0x30]]
  | Dev_CtrlGpu => [INOUT_ 0xB0 0x47 0x5 [AInOut 8; AIn 8; AOut 0xA0]; INOUT_ 0x18 0x47 0x6 [AIn 4; APad 12; AOut 4]]
  | _ => []
  end.

Definition is_fixed (c : IoctlCase) : bool := match ic_size c with Some _ => true | None => false end.

Definition find_case (raw : Z) (l : list IoctlCase) : option IoctlCase := List.find (fun c => case_Raw c =? raw) l.

(** The switch over the word, and the one over the word without its size. *)
Definition dispatch (cases : list IoctlCase) (raw : Z) : option IoctlCase :=
  match find_case raw (filter (fun c => is_fixed c = true) cases) with
  | Some c => Some c
  | None => find_case (set_bits 16 14 0 raw) (filter (fun c => is_fixed c = false) cases)
  end.

(** A case gets the part of the buffer its size says, if it has one. *)
Definition decode_case (c : IoctlCase) (buffer : list Z) : M (list Place) :=
  match ic_size c with
  | Some size => let! b := subspan buffer 0 size in DecodeArguments (ic_args c) b
  | None => DecodeArguments (ic_args c) buffer
  end.

(** The call that an ioctl reaches and its arguments, or the result without one. *)
Definition device_Ioctl (cases : list IoctlCase) (raw : Z) (buffer : list Z) : M (PosixResult + IoctlCase * list Place) :=
  match dispatch cases raw with
  | None => ok (inl Posix_InappropriateIoctlForDevice)
  | Some c => let! places := decode_case c buffer in ok (inr (c, places))
  end.

(** ** Sessions and the driver *)

Record SessionPermissions : Type := mk_permissions {
  AccessGpu : bool;
  AccessVic : bool;
  AccessVideoDecoder : bool;
  AccessJpeg : bool }.

Definition ApplicationSessionPermissions : SessionPermissions := mk_permissions true true true false.
Definition AppletSessionPermissions : SessionPermissions := mk_permissions true true true true.

(** The device of a path, for a session that may use it. *)
Definition path_device (path : string) (perms : SessionPermissions) : option DeviceKind :=
  if String.eqb path "/dev/nvmap" then Some Dev_NvMap
  else if String.eqb path "/dev/nvhost-ctrl" then Some Dev_Ctrl
  else if AccessGpu perms && String.eqb path "/dev/nvhost-as-gpu" then Some Dev_AsGpu
  else if AccessGpu perms && String.eqb path "/dev/nvhost-ctrl-gpu" then Some Dev_CtrlGpu
  else if AccessGpu perms && String.eqb path "/dev/nvhost-gpu" then Some Dev_GpuChannel
  else if AccessJpeg perms && String.eqb path "/dev/nvhost-nvjpg" then Some Dev_NvJpg
  else if AccessVic perms && String.eqb path "/dev/nvhost-vic" then Some Dev_Vic
  else if AccessVideoDecoder perms && String.eqb path "/dev/nvhost-nvdec" then Some Dev_NvDec
  else None.

Definition NvResult_Success : Z := 0.
Definition NvResult_NotSupported : Z := 2.
Definition NvResult_Timeout : Z := 5.
Definition NvResult_InvalidSize : Z := 0xA.
Definition NvResult_BadValue : Z := 0xB.
Definition NvResult_Busy : Z := 0xE.
Definition NvResult_FileOperationFailed : Z := 0x30003.
Definition NvResult_IoctlFailed : Z := 0x3000F.
Definition NvResult_AccessDenied : Z := 0x30010.

(** The open devices, each with the permissions of its session. *)
Abbreviation Driver := (gmap Z (DeviceKind * SessionPermissions)).

(** [emplace] leaves a device that is already there. *)
Definition OpenDevice (path : string) (fd : Z) (perms : SessionPermissions) (d : Driver) : Driver * Z :=
  match path_device path perms with
  | Some k => (match d !! fd with Some _ => d | None => <[fd := (k, perms)]> d end, NvResult_Success)
  | None => (d, NvResult_FileOperationFailed)
  end.

Definition ConvertResult (result : PosixResult) : M Z :=
  match result with
  | Posix_Success => ok NvResult_Success
  | Posix_NotPermitted => ok NvResult_AccessDenied
  | Posix_TryAgain => ok NvResult_Timeout
  | Posix_Busy => ok NvResult_Busy
  | Posix_InvalidArgument => ok NvResult_BadValue
  | Posix_InappropriateIoctlForDevice => ok NvResult_IoctlFailed
  | Posix_NotSupported => ok NvResult_NotSupported
  | Posix_TimedOut => ok NvResult_Timeout
  | _ => fail (Throw "Unhandled POSIX result!")
  end.

Definition CloseDevice (fd : Z) (d : Driver) : Driver := delete fd d.

(** A service keeps the next descriptor it gives. *)
Record INvDrvServices : Type := mk_nvdrv {
  nv_nextFdIndex : Z;
  nv_perms : SessionPermissions }.

Definition INvDrvServices_new (perms : SessionPermissions) : INvDrvServices := mk_nvdrv 1 perms.

Definition SessionFdLimit : Z := 128.
Definition InvalidFileDescriptor : Z := -1.

(** The descriptor and the result that are given back. *)
Definition Nv_Open (path : string) (s : INvDrvServices) (d : Driver) : INvDrvServices * Driver * Z * Z :=
  if String.eqb path "" || (nv_nextFdIndex s =? SessionFdLimit) then (s, d, InvalidFileDescriptor, NvResult_FileOperationFailed)
  else
    let (d, err) := OpenDevice path (nv_nextFdIndex s) (nv_perms s) d in
    if negb (err =? NvResult_Success) then (s, d, InvalidFileDescriptor, err)
    else (mk_nvdrv (nv_nextFdIndex s + 1) (nv_perms s), d, nv_nextFdIndex s, NvResult_Success).

Definition Nv_Close (fd : Z) (d : Driver) : Driver * Z := (CloseDevice fd d, NvResult_Success).

(** The buffer of an ioctl, or the result. *)
Definition GetMainIoctlBuffer (raw : Z) (inBuf outBuf : list Z) : Z + list Z :=
  let size := io_size raw in
  if io_in raw && (Z.of_nat (length inBuf) <? size) then inl NvResult_InvalidSize
  else if io_out raw && (Z.of_nat (length outBuf) <? size) then inl NvResult_InvalidSize
  else if io_in raw && io_out raw then
    if (length outBuf <? length inBuf)%nat then inl NvResult_InvalidSize
    else
      let n := if size =? 0 then length inBuf else Z.to_nat size in inr (take n inBuf ++ drop n outBuf)
  else inr (if io_out raw then outBuf else inBuf).

(** An ioctl up to the call of the device, for one of the lists of cases of a device. *)
Definition Nv_Ioctl (cases : DeviceKind -> list IoctlCase) (fd raw : Z) (inBuf outBuf : list Z) (d : Driver) : M (Z + IoctlCase * list Place) :=
  match GetMainIoctlBuffer raw inBuf outBuf with
  | inl err => ok (inl err)
  | inr buffer =>
      match d !! fd with
      | None => fail (Throw "Ioctl was called with invalid fd")
      | Some (k, _) =>
          let! r := device_Ioctl (cases k) raw buffer in
          match r with inl err => let! e := ConvertResult err in ok (inl e) | inr call => ok (inr call) end
      end
  end.

(** ** Host1x channels *)

Record SubmitCmdBuf : Type := mk_cmd_buf {
  sc_mem : Z;
  sc_offset : Z;
  sc_words : Z }.

(** The increments of a submission: the new maximum of each is given back as far as there is room. *)
Fixpoint submit_incrs (incrs : list (Z * Z)) (room : nat) (m : SyncpointManager) : M (SyncpointManager * list Z) :=
  match incrs with
  | [] => ok (m, [])
  | (syncpointId, numIncrs) :: incrs =>
      let! (m, max) := IncrementSyncpointMaxExt syncpointId numIncrs m in
      let! (m, thresholds) := submit_incrs incrs (pred room) m in
      ok (m, match room with O => thresholds | S _ => max :: thresholds end)
  end.

(** The gathers pushed to the channel: where each begins and its words. *)
Fixpoint submit_gathers (cmdBufs : list SubmitCmdBuf) (n : NvMap) : M (list (Z * Z)) :=
  match cmdBufs with
  | [] => ok []
  | b :: cmdBufs =>
      match NvMap_GetHandle (sc_mem b) n with
      | None => fail (Throw "Invalid handle passed for a command buffer!")
      | Some l => let! h := deref l n in let! gathers := submit_gathers cmdBufs n in ok ((u64 (h_address h + sc_offset b), sc_words b) :: gathers)
      end
  end.

Definition Host1x_Submit (cmdBufs : list SubmitCmdBuf) (relocs : nat) (incrs : list (Z * Z)) (fenceThresholds : nat) (m : SyncpointManager) (n : NvMap) :
    M (SyncpointManager * list Z * list (Z * Z) * PosixResult) :=
  if (length incrs <? fenceThresholds)%nat then ok (m, [], [], Posix_InvalidArgument)
  else if negb (relocs =? 0)%nat then fail (Throw "Relocations are unimplemented!")
  else
    let! (m, thresholds) := submit_incrs incrs fenceThresholds m in
    let! gathers := submit_gathers cmdBufs n in ok (m, thresholds, gathers, Posix_Success).

(** The entry of each kind of channel in the table of their syncpoints. *)
Definition channel_index (d : DeviceKind) : option nat :=
  match d with Dev_Vic => Some 1%nat | Dev_NvDec => Some 3%nat | Dev_NvJpg => Some 5%nat | _ => None end.

Definition Host1x_GetSyncpoint (d : DeviceKind) (channelSyncpointIdx : Z) : M Z :=
  if 0 <? channelSyncpointIdx then fail (Throw "Multiple channel syncpoints are unimplemented!")
  else
    let id := default 0 (channel_index d ≫= fun i => ChannelSyncpoints !! i) in
    if id =? 0 then fail (Throw "Requested syncpoint for a channel with none specified!") else ok id.

(** The addresses the handles are pinned at; [fuel] is that of the pins. *)
Fixpoint Host1x_MapBuffer (fuel : nat) (handles : list Z) (n : NvMap) : M (NvMap * list Z) :=
  match handles with
  | [] => ok (n, [])
  | handle :: handles =>
      let! (n, address) := PinHandle fuel handle n in
      let! (n, addresses) := Host1x_MapBuffer fuel handles n in ok (n, address :: addresses)
  end.

Definition Host1x_UnmapBuffer (handles : list Z) (n : NvMap) : M NvMap := foldM (fun n handle => UnpinHandle handle n) handles n.

(** ** Arguments of fixed size *)

Definition simple_size (a : ArgType) : option Z :=
  match a with AIn size | AInOut size | AOut size | APad size => Some size | _ => None end.

(** The size of a list of arguments of fixed size. *)
Fixpoint simple_sizes (args : list ArgType) : option Z :=
  match args with
  | [] => Some 0
  | a :: args => match simple_size a, simple_sizes args with Some n, Some m => if 0 <=? n then Some (n + m) else None | _, _ => None end
  end.

(** The word of a case says what the case says, and its arguments fit its size. *)
Definition case_good (c : IoctlCase) : bool :=
  match ic_size c with
  | None => true
  | Some size =>
      (0 <=? size) && (io_size (case_Raw c) =? size) && Bool.eqb (io_in (case_Raw c)) (ic_in c) && Bool.eqb (io_out (case_Raw c)) (ic_out c) && (ic_in c || ic_out c) &&
      match simple_sizes (ic_args c) with Some n => n <=? size | None => false end
  end.

Definition all_tables : list (list IoctlCase) :=
  let kinds := [Dev_NvMap; Dev_Ctrl; Dev_AsGpu; Dev_CtrlGpu; Dev_GpuChannel; Dev_NvJpg; Dev_Vic; Dev_NvDec] in
  map device_cases kinds ++ map inline2_cases kinds ++ map inline3_cases kinds.

Lemma tables_good : forallb (forallb case_good) all_tables = true.
Proof. vm_compute. reflexivity. Qed.

Lemma table_case_good cases c : cases ∈ all_tables -> c ∈ cases -> case_good c = true.
Proof.
  intros Ht Hc. pose proof tables_good as H. rewrite forallb_forall in H. specialize (H cases ltac:(by apply list_elem_of_In)).
  rewrite forallb_forall in H. by apply H, list_elem_of_In.
Qed.

Lemma subspan_inside buffer offset size : offset + size <= Z.of_nat (length buffer) -> exists b, subspan buffer offset size = ok b.
Proof. intros H. unfold subspan. rewrite (proj2 (Z.leb_le _ _) H). by eexists. Qed.

(** Arguments are taken one behind the other. *)
Lemma decode_simple args buffer offset slots n : simple_sizes args = Some n -> 0 <= offset -> offset + n <= Z.of_nat (length buffer) ->
  0 <= n /\ exists places, DecodeArgumentsImpl args buffer offset slots = ok places /\ Forall (fun '(o, k) => offset <= o /\ 0 <= k /\ o + k <= offset + n) places.
Proof.
  revert offset n. induction args as [|a args IH]; intros offset n Hs H0 Hl; cbn [simple_sizes] in Hs.
  { injection Hs as <-. split; [lia|]. exists []. split; [done|constructor]. }
  destruct (simple_size a) as [k|] eqn:Ea; [|done]. destruct (simple_sizes args) as [r|] eqn:Er; [|done]. destruct (Z.leb_spec 0 k); [|done]. injection Hs as <-.
  assert (Hr : 0 <= r).
  { clear -Er. revert r Er. induction args as [|x args IH]; intros r Er; cbn [simple_sizes] in Er; [injection Er as <-; lia|].
    destruct (simple_size x); [|done]. destruct (simple_sizes args) as [r'|]; [|done]. destruct (Z.leb_spec 0 z); [|done]. injection Er as <-. specialize (IH r' eq_refl). lia. }
  destruct (IH (offset + k) r eq_refl ltac:(lia) ltac:(lia)) as (_ & places & HD & HF). split; [lia|].
  assert (HF' : Forall (fun '(o, n) => offset <= o /\ 0 <= n /\ o + n <= offset + (k + r)) places).
  { eapply Forall_impl; [exact HF|]. intros [o n] (? & ? & ?). lia. }
  destruct (subspan_inside buffer offset k ltac:(lia)) as [b Hb].
  destruct a; cbn [simple_size] in Ea; try discriminate Ea; injection Ea as ->; cbn [DecodeArgumentsImpl]; rewrite ?Hb; cbn [bindM ok]; rewrite HD; cbn [bindM ok].
  all: eexists; split; [reflexivity|]; first [done | constructor; [lia|done]].
Qed.

(** The buffer is as large as the word says. *)
Lemma GetMainIoctlBuffer_length raw inBuf outBuf buffer : io_in raw || io_out raw = true -> 0 <= io_size raw ->
  GetMainIoctlBuffer raw inBuf outBuf = inr buffer -> io_size raw <= Z.of_nat (length buffer).
Proof.
  intros Hd H0. unfold GetMainIoctlBuffer. destruct (io_in raw) eqn:Ei, (io_out raw) eqn:Eo; cbn [andb]; try done.
  - destruct (Z.ltb_spec (Z.of_nat (length inBuf)) (io_size raw)); [done|]. destruct (Z.ltb_spec (Z.of_nat (length outBuf)) (io_size raw)); [done|].
    destruct (Nat.ltb_spec (length outBuf) (length inBuf)); [done|]. intros [= <-]. rewrite length_app, length_take, length_drop. destruct (io_size raw =? 0) eqn:E; [apply Z.eqb_eq in E; lia|lia].
  - destruct (Z.ltb_spec (Z.of_nat (length inBuf)) (io_size raw)); [done|]. by intros [= <-].
  - destruct (Z.ltb_spec (Z.of_nat (length outBuf)) (io_size raw)); [done|]. by intros [= <-].
Qed.

Lemma dispatch_fixed cases raw c : dispatch cases raw = Some c -> is_fixed c = true -> c ∈ cases /\ case_Raw c = raw.
Proof.
  intros HD Hf. unfold dispatch, find_case in HD. destruct (List.find _ (filter (fun c => is_fixed c = true) cases)) as [c'|] eqn:E.
  - injection HD as ->. apply List.find_some in E as [Hin Hr%Z.eqb_eq]. apply list_elem_of_In, list_elem_of_filter in Hin as [_ ?]. done.
  - apply List.find_some in HD as [Hin _]. apply list_elem_of_In, list_elem_of_filter in Hin as [? _]. congruence.
Qed.

(** ** Theorems *)

(** C31: whatever word and buffers a guest gives to an ioctl of any device, if the buffers pass the
    check of the service and the word is that of a call of fixed size, then the arguments of the
    call are taken out of the buffer and every one of them lies inside it. *)
Theorem ioctl_arguments_inside cases raw inBuf outBuf buffer c :
  cases ∈ all_tables -> GetMainIoctlBuffer raw inBuf outBuf = inr buffer -> dispatch cases raw = Some c -> is_fixed c = true ->
  exists places, device_Ioctl cases raw buffer = inr (inr (c, places)) /\
    Forall (fun '(o, n) => 0 <= o /\ 0 <= n /\ o + n <= Z.of_nat (length buffer)) places.
Proof.
  intros Ht HB HD Hf. destruct (dispatch_fixed cases raw c HD Hf) as [Hin Hraw]. pose proof (table_case_good cases c Ht Hin) as Hg. unfold case_good in Hg.
  unfold is_fixed in Hf. destruct (ic_size c) as [size|] eqn:Es; [|done]. rewrite Hraw, !andb_true_iff in Hg. destruct Hg as [[[[[H0 H1] H2] H3] H4] H5].
  apply Z.leb_le in H0. apply Z.eqb_eq in H1. apply Bool.eqb_prop in H2, H3. destruct (simple_sizes (ic_args c)) as [n|] eqn:En; [|done]. apply Z.leb_le in H5.
  pose proof (GetMainIoctlBuffer_length raw inBuf outBuf buffer ltac:(by rewrite H2, H3) ltac:(lia) HB) as Hlen.
  unfold device_Ioctl. rewrite HD. unfold decode_case. rewrite Es. unfold subspan at 1. rewrite (proj2 (Z.leb_le _ _)) by lia. cbn [bindM ok].
  set (b := take _ _). assert (Hb : Z.of_nat (length b) = size) by (unfold b; rewrite length_take, length_drop; lia).
  destruct (decode_simple (ic_args c) b 0 (replicate NumSaveSlots 0) n En ltac:(lia) ltac:(lia)) as (_ & places & HP & HF).
  unfold DecodeArguments. rewrite HP. cbn [bindM ok]. exists places. split; [done|]. eapply Forall_impl; [exact HF|]. intros [o k] (? & ? & ?). lia.
Qed.

Lemma ioctl_arguments_inside_witness :
  exists places, device_Ioctl Ctrl_cases 0xC010001D (replicate 16 7) = inr (inr (INOUT_ 0x10 0 0x1D [AIn 8; AIn 4; AInOut 4], places)) /\
    Forall (fun '(o, n) => 0 <= o /\ 0 <= n /\ o + n <= 16) places.
Proof.
  refine (ioctl_arguments_inside Ctrl_cases 0xC010001D (replicate 16 7) (replicate 16 0) (replicate 16 7) _ _ eq_refl eq_refl eq_refl).
  right. left.
Defined.

(** ** Descriptors *)

Inductive session_step : INvDrvServices * Driver -> INvDrvServices * Driver -> Prop :=
| step_open path s d s' d' fd err : Nv_Open path s d = (s', d', fd, err) -> session_step (s, d) (s', d')
| step_close fd s d : session_step (s, d) (s, fst (Nv_Close fd d)).

(** The descriptors of a driver that only one service uses are below the next one it gives. *)
Definition fds_ok (p : INvDrvServices * Driver) : Prop := forall fd, is_Some (snd p !! fd) -> fd < nv_nextFdIndex (fst p).

Lemma Nv_Open_ok path s d s' d' fd err : fds_ok (s, d) -> Nv_Open path s d = (s', d', fd, err) ->
  fds_ok (s', d') /\
  ((err = NvResult_Success /\ d !! fd = None /\ nv_nextFdIndex s' = fd + 1 /\ exists k, path_device path (nv_perms s) = Some k /\ d' = <[fd := (k, nv_perms s)]> d) \/
   (err <> NvResult_Success /\ s' = s /\ d' = d)).
Proof.
  intros Hok HO. unfold Nv_Open, OpenDevice in HO. destruct (String.eqb path "" || (nv_nextFdIndex s =? SessionFdLimit)).
  { injection HO as <- <- <- <-. split; [done|by right]. }
  destruct (path_device path (nv_perms s)) as [k|] eqn:Ek; cbn in HO; injection HO as <- <- <- <-; [|split; [done|by right]].
  assert (Hn : d !! nv_nextFdIndex s = None).
  { destruct (d !! nv_nextFdIndex s) eqn:E; [|done]. pose proof (Hok (nv_nextFdIndex s) ltac:(by eexists)). simpl in *. lia. }
  rewrite Hn. split.
  - intros fd' [x Hx]. cbn [fst snd nv_nextFdIndex] in *. destruct (decide (fd' = nv_nextFdIndex s)) as [->|Hne]; [lia|]. rewrite lookup_insert_ne in Hx by done.
    pose proof (Hok fd' ltac:(by eexists)). simpl in *. lia.
  - left. do 3 (split; [done|]). by exists k.
Qed.

Lemma session_step_ok p q : session_step p q -> fds_ok p -> fds_ok q.
Proof.
  intros [path s d s' d' fd err HO|fd s d] Hok; [by eapply Nv_Open_ok|]. intros fd' [x Hx]. cbn [fst snd Nv_Close] in Hx. unfold CloseDevice in Hx. apply lookup_delete_Some in Hx as [_ Hx]. apply Hok. by eexists.
Qed.

(** when one service uses the driver, however devices were opened and closed before, opening a
    path gives a descriptor that was not in use and that then names the device of the path with the
    permissions of the session, and leaves the other descriptors alone; it fails, changing nothing,
    for a path that is not a device or one that the session may not use. *)
Theorem Nv_Open_names_device perms s d path s' d' fd err :
  rtc session_step (INvDrvServices_new perms, ∅) (s, d) -> Nv_Open path s d = (s', d', fd, err) ->
  match path_device path (nv_perms s) with
  | Some k => err = NvResult_Success -> d !! fd = None /\ d' = <[fd := (k, nv_perms s)]> d
  | None => err <> NvResult_Success /\ d' = d
  end.
Proof.
  intros Hr HO. assert (Hok : fds_ok (s, d)).
  { assert (H0 : fds_ok (INvDrvServices_new perms, ∅)) by (intros fd' [x Hx]; cbn in Hx; by rewrite lookup_empty in Hx).
    revert Hr H0. generalize (INvDrvServices_new perms, ∅ : Driver). intros p Hr. induction Hr as [|p q r Hs _ IH]; [done|]. intros H0. by apply IH, (session_step_ok p). }
  destruct (Nv_Open_ok path s d s' d' fd err Hok HO) as [_ [(-> & Hn & _ & k & Hk & ->)|(He & -> & ->)]].
  - rewrite Hk. done.
  - destruct (path_device path (nv_perms s)); done.
Qed.

Lemma Nv_Open_names_device_witness :
  snd (fst (fst (Nv_Open "/dev/nvhost-ctrl" (INvDrvServices_new ApplicationSessionPermissions) ∅))) = {[1 := (Dev_Ctrl, ApplicationSessionPermissions)]}.
Proof.
  pose proof (Nv_Open_names_device ApplicationSessionPermissions (INvDrvServices_new ApplicationSessionPermissions) ∅ "/dev/nvhost-ctrl" _ _ _ _
    (rtc_refl _ _) (eq_refl (Nv_Open "/dev/nvhost-ctrl" (INvDrvServices_new ApplicationSessionPermissions) ∅))) as H.
  cbv beta iota in H. exact (proj2 (H eq_refl)).
Defined.

(** ** Limits *)

(** The services [nvdrv] and [nvdrv:a] share the driver but not the next descriptor: the second
    device that is opened is the first one's. *)
Lemma sessions_share_descriptors :
  let '(_, d, _, _) := Nv_Open "/dev/nvhost-gpu" (INvDrvServices_new ApplicationSessionPermissions) ∅ in
  let '(_, d, fd, err) := Nv_Open "/dev/nvhost-nvjpg" (INvDrvServices_new AppletSessionPermissions) d in
  err = NvResult_Success /\ fst <$> d !! fd = Some Dev_GpuChannel.
Proof. vm_compute. by split. Qed.

(** The counts in a call of variable length are not checked against the buffer. *)
Lemma Submit_reads_past_buffer :
  device_Ioctl Host1xChannel_cases 0xC0100001 ([1; 0; 0; 0] ++ replicate 12 0) = inl (Undefined "argument past the end of the buffer").
Proof. vm_compute. reflexivity. Qed.

(** Two results that devices give are not converted but thrown. *)
Lemma ConvertResult_throws : is_ok (ConvertResult Posix_FileExists) = false /\ is_ok (ConvertResult Posix_FunctionNotImplemented) = false.
Proof. by split. Qed.
