(* ===== verification/I2m.v ===== *)
(** * Inline uploads ([soc/gm20b/engines/inline2memory.{h,cpp}], [kepler_compute.cpp])

    The inline-to-memory block takes words out of the command stream and writes them to GPU memory:
    its registers say how many and where, the write to [launchDma] makes room for them and each
    write to [loadInlineData] brings one; the last one completes the upload.  The block is shared by
    the engine of its own and by the compute engine, whose registers place it at the same offset.
    The decoder hands a run of words for one method over as a batch, and the engines have a path of
    their own for that.  Memory is that of the channel's address space, whose blocks are [blocks]. *)

From S2P Require Import Prelude Common AddressSpace FlatMemory Macro Gpfifo GpuChannel.

(** ** The block *)

(** The registers of the engine, the words collected, how many of them are there, and host memory. *)
Record I2m : Type := mk_i2m {
  im_registers : list Z;
  im_buffer : list Z;
  im_writeOffset : Z;
  im_ram : host_ram }.

Definition I2m_new (ram : host_ram) : I2m := mk_i2m (replicate (Z.to_nat EngineMethodsEnd) 0) [] 0 ram.

Definition im_reg (r : nat) (g : I2m) : Z := default 0 (im_registers g !! r).

Definition i2m_lineLengthIn (g : I2m) : Z := im_reg 0x60 g.
Definition i2m_lineCount (g : I2m) : Z := im_reg 0x61 g.
Definition i2m_offsetOut (g : I2m) : Z := Z.lor (Z.shiftl (im_reg 0x62 g) 32) (im_reg 0x63 g).
Definition i2m_layout (g : I2m) : Z := bits 0 1 (im_reg 0x6C g).
Definition i2m_completion (g : I2m) : Z := bits 4 2 (im_reg 0x6C g).

(** [std::vector::resize]. *)
Definition resize (n : nat) (l : list Z) : list Z := take n l ++ replicate (n - length l) 0.

Definition words_bytes (l : list Z) : list Z := l ≫= bytes_of 4.

(** The arithmetic is that of 32-bit integers. *)
Definition targetSizeWords (lineCount lineLengthIn : Z) : Z := u32 (lineCount * u32 (AlignUp lineLengthIn 4)) / 4.

Section engine.
Context (blocks : list Block).

Definition I2m_LaunchDma (g : I2m) : I2m :=
  mk_i2m (im_registers g) (resize (Z.to_nat (targetSizeWords (i2m_lineCount g) (i2m_lineLengthIn g))) (im_buffer g)) 0 (im_ram g).

Definition CompleteDma (g : I2m) : M I2m :=
  if i2m_completion g =? 2 then fail (Throw "Semaphore release on I2M completion is not supported!")
  else if (i2m_layout g =? 1) && (i2m_lineCount g =? 1) then
    let! ram := Mm_Write 64 blocks (i2m_offsetOut g) (words_bytes (im_buffer g)) (im_ram g) in
    ok (mk_i2m (im_registers g) (im_buffer g) (im_writeOffset g) ram)
  else ok g.

Definition finish_load (g : I2m) : M I2m := if im_writeOffset g =? Z.of_nat (length (im_buffer g)) then CompleteDma g else ok g.

Definition LoadInlineData (value : Z) (g : I2m) : M I2m :=
  if Z.of_nat (length (im_buffer g)) <=? im_writeOffset g then fail (Throw "Inline data load overflow!")
  else finish_load (mk_i2m (im_registers g) (<[Z.to_nat (im_writeOffset g) := value]> (im_buffer g)) (u32 (im_writeOffset g + 1)) (im_ram g)).

Definition LoadInlineData_batch (data : list Z) (g : I2m) : M I2m :=
  if Z.of_nat (length (im_buffer g)) <? im_writeOffset g + Z.of_nat (length data) then fail (Throw "Inline data load overflow!")
  else
    let o := Z.to_nat (im_writeOffset g) in
    finish_load (mk_i2m (im_registers g) (take o (im_buffer g) ++ data ++ drop (o + length data) (im_buffer g))
      (u32 (im_writeOffset g + Z.of_nat (length data))) (im_ram g)).

(** ** The engines *)

Definition set_register (method argument : Z) (g : I2m) : I2m :=
  mk_i2m (<[Z.to_nat method := argument]> (im_registers g)) (im_buffer g) (im_writeOffset g) (im_ram g).

Definition I2m_HandleMethod (method argument : Z) (g : I2m) : M I2m :=
  let g := set_register method argument g in
  if method =? 0x6C then ok (I2m_LaunchDma g)
  else if method =? 0x6D then LoadInlineData argument g
  else ok g.

Definition I2m_CallMethodBatchNonInc (method : Z) (arguments : list Z) (g : I2m) : M I2m :=
  if method =? 0x6D then LoadInlineData_batch arguments g
  else foldM (fun g argument => I2m_HandleMethod method argument g) arguments g.

(** The compute engine has the block among its registers; its semaphores are not supported and a
    launch of a kernel only logs. *)
Definition Compute_HandleMethod (method argument : Z) (g : I2m) : M I2m :=
  let g := set_register method argument g in
  if method =? 0x6C then ok (I2m_LaunchDma g)
  else if method =? 0x6D then LoadInlineData argument g
  else if method =? 0x6C3 then fail (Throw "Compute semaphores are unimplemented!")
  else ok g.

Definition Compute_CallMethodBatchNonInc (method : Z) (arguments : list Z) (g : I2m) : M I2m :=
  if method =? 0x6D then LoadInlineData_batch arguments g
  else foldM (fun g argument => Compute_HandleMethod method argument g) arguments g.

(** The calls of a run that go to one of the two engines; the others do not touch its state. *)
Definition i2m_call (e : Engine) (g : I2m) (c : Call) : M I2m :=
  match e, c with
  | Inline2Memory, CallMethod Inline2Memory method argument => I2m_HandleMethod method argument g
  | Inline2Memory, CallMethodBatchNonInc Inline2Memory method arguments => I2m_CallMethodBatchNonInc method arguments g
  | KeplerCompute, CallMethod KeplerCompute method argument => Compute_HandleMethod method argument g
  | KeplerCompute, CallMethodBatchNonInc KeplerCompute method arguments => Compute_CallMethodBatchNonInc method arguments g
  | _, _ => ok g
  end.

Definition exec_i2m (e : Engine) (calls : list Call) (g : I2m) : M I2m := foldM (i2m_call e) calls g.

(** ** Batches *)

(** States that differ in what was last written to [loadInlineData] only, which nothing reads. *)
Definition i2m_equiv (g g' : I2m) : Prop :=
  im_buffer g = im_buffer g' /\ im_writeOffset g = im_writeOffset g' /\ im_ram g = im_ram g' /\
  <[0x6D%nat := 0]> (im_registers g) = <[0x6D%nat := 0]> (im_registers g').

#[global] Instance i2m_equiv_equivalence : Equivalence i2m_equiv.
Proof.
  split.
  - intros g. by repeat split.
  - intros g g' (? & ? & ? & ?). by repeat split.
  - intros g g' g'' (? & ? & ? & ?) (? & ? & ? & ?). repeat split; by etrans.
Qed.

(** Results that are equivalent states, or the same failure. *)
Definition equivM (r r' : M I2m) : Prop :=
  match r, r' with
  | inr g, inr g' => i2m_equiv g g'
  | inl f, inl f' => f = f'
  | _, _ => False
  end.

#[global] Instance equivM_equivalence : Equivalence equivM.
Proof.
  split.
  - intros [f|g]; simpl; [done|reflexivity].
  - intros [f|g] [f'|g']; simpl; [done..|]. by symmetry.
  - intros [f|g] [f'|g'] [f''|g'']; simpl; try done; [congruence|]. by etrans.
Qed.

Lemma equiv_reg r g g' : r <> 0x6D%nat -> i2m_equiv g g' -> im_reg r g = im_reg r g'.
Proof.
  intros Hr (_ & _ & _ & E). unfold im_reg. apply (f_equal (fun l => l !! r)) in E. rewrite !list_lookup_insert_ne in E by done. by rewrite E.
Qed.

Lemma equiv_set method argument g g' : i2m_equiv g g' -> i2m_equiv (set_register method argument g) (set_register method argument g').
Proof.
  intros (H1 & H2 & H3 & E). repeat split; try done. cbn [set_register im_registers]. destruct (decide (Z.to_nat method = 0x6D%nat)) as [->|Hne].
  - apply list_eq. intros i. destruct (decide (i = 0x6D%nat)) as [->|Hi].
    + apply (f_equal (fun l => length l)) in E. rewrite !length_insert in E.
      destruct (decide (0x6D < length (im_registers g))%nat); [rewrite !list_lookup_insert_eq by (rewrite ?length_insert; lia); done|].
      rewrite !lookup_ge_None_2 by (rewrite !length_insert; lia). done.
    + apply (f_equal (fun l => l !! i)) in E. rewrite !list_lookup_insert_ne in E by done. by rewrite !list_lookup_insert_ne by done.
  - rewrite !(list_insert_insert_ne _ _ (Z.to_nat method)) by done. by rewrite E.
Qed.

#[local] Instance CompleteDma_proper : Proper (i2m_equiv ==> equivM) CompleteDma.
Proof.
  intros g g' E. pose proof E as (H1 & H2 & H3 & H4). unfold CompleteDma, i2m_completion, i2m_layout, i2m_lineCount, i2m_offsetOut.
  rewrite !(fun r H => equiv_reg r g g' H E) by done. rewrite H1, H3. destruct (_ =? 2); [done|]. destruct (_ && _); [|exact E].
  destruct (Mm_Write _ _ _ _ _); [done|]. by repeat split.
Qed.

Lemma equiv_finish g g' : i2m_equiv g g' -> equivM (finish_load g) (finish_load g').
Proof. intros E. pose proof E as (H1 & H2 & _). unfold finish_load. rewrite H1, H2. destruct (_ =? _); [by rewrite E|exact E]. Qed.

Lemma equiv_load value g g' : i2m_equiv g g' -> equivM (LoadInlineData value g) (LoadInlineData value g').
Proof.
  intros (H1 & H2 & H3 & H4). unfold LoadInlineData. rewrite H1, H2, H3. destruct (_ <=? _); [done|]. apply equiv_finish. by repeat split.
Qed.

Lemma equiv_load_batch data g g' : i2m_equiv g g' -> equivM (LoadInlineData_batch data g) (LoadInlineData_batch data g').
Proof.
  intros (H1 & H2 & H3 & H4). unfold LoadInlineData_batch. rewrite H1, H2, H3. destruct (_ <? _); [done|]. apply equiv_finish. by repeat split.
Qed.

Lemma equiv_launch g g' : i2m_equiv g g' -> i2m_equiv (I2m_LaunchDma g) (I2m_LaunchDma g').
Proof.
  intros E. unfold I2m_LaunchDma, i2m_lineCount, i2m_lineLengthIn. rewrite !(fun r H => equiv_reg r g g' H E) by done.
  destruct E as (H1 & H2 & H3 & H4). rewrite H1, H3. by repeat split.
Qed.

Lemma equiv_method method argument g g' : i2m_equiv g g' -> equivM (I2m_HandleMethod method argument g) (I2m_HandleMethod method argument g').
Proof.
  intros E. apply (equiv_set method argument) in E. unfold I2m_HandleMethod. destruct (_ =? _); [by apply equiv_launch|].
  destruct (_ =? _); [by apply equiv_load|done].
Qed.

Lemma equiv_compute method argument g g' : i2m_equiv g g' -> equivM (Compute_HandleMethod method argument g) (Compute_HandleMethod method argument g').
Proof.
  intros E. apply (equiv_set method argument) in E. unfold Compute_HandleMethod. destruct (_ =? _); [by apply equiv_launch|].
  destruct (_ =? _); [by apply equiv_load|]. by destruct (_ =? _).
Qed.

Lemma equiv_foldM {A} (f : I2m -> A -> M I2m) l : (forall a g g', i2m_equiv g g' -> equivM (f g a) (f g' a)) ->
  forall g g', i2m_equiv g g' -> equivM (foldM f l g) (foldM f l g').
Proof.
  intros Hf. induction l as [|a l IH]; intros g g' E; [done|]. cbn [foldM]. specialize (Hf a g g' E).
  destruct (f g a), (f g' a); cbn [bindM equivM] in *; try done. by apply IH.
Qed.

Lemma equiv_call e c g g' : i2m_equiv g g' -> equivM (i2m_call e g c) (i2m_call e g' c).
Proof.
  intros E. destruct e, c as [[] ? ?|[] method ?|? ? ? ?|]; try exact E; cbn [i2m_call]; try (by apply equiv_method); try (by apply equiv_compute).
  - unfold Compute_CallMethodBatchNonInc. destruct (_ =? _); [by apply equiv_load_batch|]. apply equiv_foldM; [|done]. intros. by apply equiv_compute.
  - unfold I2m_CallMethodBatchNonInc. destruct (_ =? _); [by apply equiv_load_batch|]. apply equiv_foldM; [|done]. intros. by apply equiv_method.
Qed.

(** The offset and the size are those of a 32-bit counter and a buffer it can count. *)
Record i2m_ok (g : I2m) : Prop := mk_i2m_ok {
  io_offset : 0 <= im_writeOffset g;
  io_length : Z.of_nat (length (im_buffer g)) < 2 ^ 32 }.

Lemma finish_load_keeps g g' : finish_load g = inr g' -> im_buffer g' = im_buffer g /\ im_writeOffset g' = im_writeOffset g.
Proof.
  unfold finish_load, CompleteDma. intros H. destruct (_ =? Z.of_nat _); [|by injection H as <-]. destruct (_ =? 2); [done|]. destruct (_ && _); [|by injection H as <-].
  apply bindM_ok in H as (ram & _ & H). by injection H as <-.
Qed.

Lemma load_keeps value g g' : i2m_ok g -> LoadInlineData value g = inr g' ->
  length (im_buffer g') = length (im_buffer g) /\ im_writeOffset g' = im_writeOffset g + 1 /\ im_writeOffset g < Z.of_nat (length (im_buffer g)).
Proof.
  intros [H0 H1] H. unfold LoadInlineData in H. destruct (Z.leb_spec (Z.of_nat (length (im_buffer g))) (im_writeOffset g)); [done|].
  apply finish_load_keeps in H as [-> ->]. cbn [im_buffer im_writeOffset]. rewrite length_insert. split; [done|]. split; [|done]. apply wrap_small. lia.
Qed.

Lemma load_ok value g g' : i2m_ok g -> LoadInlineData value g = inr g' -> i2m_ok g'.
Proof. intros Hok H. destruct (load_keeps _ _ _ Hok H) as (E1 & E2 & E3). destruct Hok. split; [lia|by rewrite E1]. Qed.

Lemma loads_fit data : forall g g', i2m_ok g -> foldM (fun g v => LoadInlineData v g) data g = inr g' ->
  data <> [] -> im_writeOffset g + Z.of_nat (length data) <= Z.of_nat (length (im_buffer g)).
Proof.
  induction data as [|v data IH]; intros g g' Hok H Hne; [done|]. cbn [foldM] in H. apply bindM_ok in H as (g1 & H1 & H).
  destruct (load_keeps _ _ _ Hok H1) as (E1 & E2 & E3). destruct data as [|v' data]; [simpl; lia|].
  specialize (IH g1 g' (load_ok _ _ _ Hok H1) H ltac:(done)). rewrite E1, E2 in IH. simpl length in *. lia.
Qed.

(** A batch that fits does what its words do one by one. *)
Lemma load_batch_singles data : forall g, i2m_ok g -> data <> [] -> im_writeOffset g + Z.of_nat (length data) <= Z.of_nat (length (im_buffer g)) ->
  LoadInlineData_batch data g = foldM (fun g v => LoadInlineData v g) data g.
Proof.
  induction data as [|v data IH]; intros g Hok Hne Hfit; [done|]. cbn [foldM]. pose proof Hok as [H0 H1]. simpl length in Hfit.
  unfold LoadInlineData_batch at 1, LoadInlineData at 1. rewrite (proj2 (Z.ltb_ge _ _)) by (simpl length; lia). rewrite (proj2 (Z.leb_gt _ _)) by lia.
  assert (Hi : <[Z.to_nat (im_writeOffset g) := v]> (im_buffer g) = take (Z.to_nat (im_writeOffset g)) (im_buffer g) ++ v :: drop (Z.to_nat (im_writeOffset g) + 1) (im_buffer g)).
  { rewrite insert_take_drop by lia. by rewrite Nat.add_1_r. }
  destruct data as [|v' data].
  - simpl length. rewrite Hi. cbn [app]. change (Z.of_nat 1) with 1. by destruct (finish_load _).
  - unfold finish_load at 2. cbn [im_writeOffset im_buffer]. rewrite length_insert, !wrap_small by (simpl length in *; lia).
    rewrite (proj2 (Z.eqb_neq _ _)) by (simpl length in *; lia). cbn [bindM ok]. rewrite <- IH; [|split; cbn [im_writeOffset im_buffer]; rewrite ?length_insert; lia|done|].
    2: { cbn [im_writeOffset im_buffer]. rewrite length_insert. simpl length in *. lia. }
    unfold LoadInlineData_batch. cbn [im_writeOffset im_buffer im_registers im_ram]. rewrite length_insert, (proj2 (Z.ltb_ge _ _)) by (simpl length in *; lia).
    rewrite Hi. set (o := Z.to_nat (im_writeOffset g)). replace (Z.to_nat (im_writeOffset g + 1)) with (S o) by lia.
    assert (Hlen : length (take o (im_buffer g)) = o) by (rewrite length_take; lia). f_equal. f_equal.
    + rewrite take_app, Hlen, (take_ge (take o _)) by lia. replace (S o - o)%nat with 1%nat by lia. cbn [take].
      rewrite drop_app, Hlen, (drop_ge (take o _)) by lia. replace (S o + length (v' :: data) - o)%nat with (S (length (v' :: data))) by lia. cbn [drop app].
      rewrite drop_drop, <- app_assoc, take_0. cbn [app]. replace (o + length (v :: v' :: data))%nat with (o + 1 + length (v' :: data))%nat by (simpl length; lia). done.
    + symmetry. rewrite wrap_small by (simpl length in *; lia). simpl length. lia.
Qed.

Lemma equiv_set_load v g : i2m_equiv (set_register 0x6D v g) g.
Proof. repeat split; try done. cbn [set_register im_registers]. by rewrite list_insert_insert_eq. Qed.

Lemma singles_equiv handle data :
  (forall v g, handle 0x6D v g = LoadInlineData v (set_register 0x6D v g)) ->
  forall g, equivM (foldM (fun g v => handle 0x6D v g) data g) (foldM (fun g v => LoadInlineData v g) data g).
Proof.
  intros Hh. induction data as [|v data IH]; intros g; [reflexivity|]. cbn [foldM]. rewrite Hh. pose proof (equiv_load v _ g (equiv_set_load v g)) as E.
  destruct (LoadInlineData v (set_register 0x6D v g)) as [f|g1], (LoadInlineData v g) as [f'|g2]; cbn [bindM equivM] in *; try done.
  etrans; [apply IH|]. apply equiv_foldM; [|done]. intros. by apply equiv_load.
Qed.

(** A batch against its words, when those go through. *)
Lemma batch_equiv handle data g g1 :
  (forall v g, handle 0x6D v g = LoadInlineData v (set_register 0x6D v g)) -> i2m_ok g -> data <> [] ->
  foldM (fun g v => handle 0x6D v g) data g = inr g1 -> exists g2, LoadInlineData_batch data g = inr g2 /\ i2m_equiv g2 g1.
Proof.
  intros Hh Hok Hne H. pose proof (singles_equiv handle data Hh g) as E. rewrite H in E.
  destruct (foldM (fun g v => LoadInlineData v g) data g) as [|g2] eqn:E2; [done|]. exists g2. split; [|by symmetry].
  rewrite load_batch_singles; [done|done|done|]. by eapply loads_fit.
Qed.

Lemma length_resize n l : length (resize n l) = n.
Proof. unfold resize. rewrite length_app, length_take, length_replicate. lia. Qed.

Lemma launch_ok g : i2m_ok (I2m_LaunchDma g).
Proof.
  split; cbn [I2m_LaunchDma im_writeOffset im_buffer]; [lia|]. rewrite length_resize. unfold targetSizeWords.
  pose proof (wrap_range 32 (i2m_lineCount g * u32 (AlignUp (i2m_lineLengthIn g) 4)) ltac:(lia)) as Hw. fold (u32 (i2m_lineCount g * u32 (AlignUp (i2m_lineLengthIn g) 4))) in Hw.
  pose proof (Z.div_lt_upper_bound _ 4 (2 ^ 32) ltac:(lia) (Z.lt_le_trans _ _ (4 * 2 ^ 32) (proj2 Hw) ltac:(lia))). lia.
Qed.

Lemma handle_ok method argument g g' : i2m_ok g -> I2m_HandleMethod method argument g = inr g' -> i2m_ok g'.
Proof.
  intros Hok H. unfold I2m_HandleMethod in H. assert (Hs : i2m_ok (set_register method argument g)) by by destruct Hok.
  destruct (_ =? 0x6C); [injection H as <-; apply launch_ok|]. destruct (_ =? 0x6D); [by eapply load_ok|by injection H as <-].
Qed.

Lemma compute_kept method argument g g' : i2m_ok g -> Compute_HandleMethod method argument g = inr g' -> i2m_ok g'.
Proof.
  intros Hok H. unfold Compute_HandleMethod in H. assert (Hs : i2m_ok (set_register method argument g)) by by destruct Hok.
  destruct (_ =? 0x6C); [injection H as <-; apply launch_ok|]. destruct (_ =? 0x6D); [by eapply load_ok|]. destruct (_ =? 0x6C3); [done|by injection H as <-].
Qed.

Lemma foldM_ok {A} (f : I2m -> A -> M I2m) l : (forall a g g', i2m_ok g -> f g a = inr g' -> i2m_ok g') -> forall g g', i2m_ok g -> foldM f l g = inr g' -> i2m_ok g'.
Proof.
  intros Hf. induction l as [|a l IH]; intros g g' Hok H; [by injection H as <-|]. cbn [foldM] in H. apply bindM_ok in H as (g1 & H1 & H). eauto.
Qed.

Lemma foldM_map {A B S} (f : S -> B -> M S) (h : A -> B) l (s : S) : foldM f (h <$> l) s = foldM (fun s a => f s (h a)) l s.
Proof. revert s. induction l as [|a l IH]; intros s; [done|]. simpl. destruct (f s (h a)); [done|]. apply IH. Qed.

Definition batch_nonempty (c : Call) : Prop := match c with CallMethodBatchNonInc _ _ [] => False | _ => True end.

Lemma observed_singles e method args :
  List.filter observed (CallMethod e method <$> args) = match e with Fermi2D | MaxwellDma => [] | _ => CallMethod e method <$> args end.
Proof. induction args as [|a args IH]; [by destruct e|]. destruct e; rewrite fmap_cons; cbn [List.filter observed]; by rewrite IH. Qed.

(** A call against what is visible of it. *)
Lemma visible_call e c g g1 :
  batch_nonempty c -> i2m_ok g -> exec_i2m e (visible [c]) g = inr g1 -> i2m_ok g1 /\ exists g2, i2m_call e g c = inr g2 /\ i2m_equiv g2 g1.
Proof.
  intros Hne Hok H. assert (Hsame : exec_i2m e (visible [c]) g = i2m_call e g c -> (forall g', i2m_call e g c = inr g' -> i2m_ok g') ->
    i2m_ok g1 /\ exists g2, i2m_call e g c = inr g2 /\ i2m_equiv g2 g1).
  { intros E Hk. rewrite H in E. split; [by apply Hk|]. exists g1. split; [done|reflexivity]. }
  unfold exec_i2m in *. destruct c as [e' method argument|e' method args|e' off argument last|].
  - apply Hsame; [|intros g'; destruct e, e'; cbn [i2m_call]; intros H'; try (by injection H' as <-); by eauto using handle_ok, compute_kept].
    destruct e, e'; try done; cbn [visible expand observed mbind list_bind List.filter app foldM]; [by destruct (i2m_call KeplerCompute g _)|by destruct (i2m_call Inline2Memory g _)].
  - assert (E : visible [CallMethodBatchNonInc e' method args] = match e' with Fermi2D | MaxwellDma => [] | _ => CallMethod e' method <$> args end).
    { unfold visible. cbn [mbind list_bind expand]. rewrite app_nil_r. apply observed_singles. }
    rewrite E in *. assert (Hargs : args <> []) by (by destruct args). clear Hne.
    assert (Hother : (forall m a g, i2m_call e g (CallMethod e' m a) = ok g) -> i2m_call e g (CallMethodBatchNonInc e' method args) = ok g ->
      i2m_ok g1 /\ exists g2, i2m_call e g (CallMethodBatchNonInc e' method args) = inr g2 /\ i2m_equiv g2 g1).
    { intros H1 H2. assert (g1 = g) as ->; [|split; [done|]; exists g; split; [done|reflexivity]].
      assert (Hid : forall l g', foldM (i2m_call e) (CallMethod e' method <$> l) g' = ok g').
      { induction l as [|a l IH]; intros g'; [done|]. simpl. rewrite H1. apply IH. }
      destruct e'; try (rewrite Hid in H); by injection H. }
    destruct e, e'; try (by apply Hother); clear Hother.
    + rewrite foldM_map in H. cbn [i2m_call] in *. split.
      { eapply foldM_ok in H; [done| |done]. intros. by eapply compute_kept. }
      unfold Compute_CallMethodBatchNonInc. destruct (Z.eqb_spec method 0x6D) as [->|]; [|exists g1; split; [done|reflexivity]].
      by apply (batch_equiv Compute_HandleMethod).
    + rewrite foldM_map in H. cbn [i2m_call] in *. split.
      { eapply foldM_ok in H; [done| |done]. intros. by eapply handle_ok. }
      unfold I2m_CallMethodBatchNonInc. destruct (Z.eqb_spec method 0x6D) as [->|]; [|exists g1; split; [done|reflexivity]].
      by apply (batch_equiv I2m_HandleMethod).
  - apply Hsame; [by destruct e, e'|]. intros g' H'. destruct e; by injection H' as <-.
  - apply Hsame; [by destruct e|]. intros g' H'. destruct e; by injection H' as <-.
Qed.

(** The engine cannot tell the calls of a run from the single calls that are visible of it. *)
Lemma exec_visible e cs : forall g g1, Forall batch_nonempty cs -> i2m_ok g -> exec_i2m e (visible cs) g = inr g1 ->
  exists g2, exec_i2m e cs g = inr g2 /\ i2m_equiv g2 g1.
Proof.
  induction cs as [|c cs IH]; intros g g1 Hne Hok H; [exists g; injection H as <-; split; [done|reflexivity]|].
  inversion Hne as [|? ? Hc Hcs]; subst. change (c :: cs) with ([c] ++ cs) in H. rewrite visible_app in H. unfold exec_i2m in H. rewrite foldM_app in H.
  apply bindM_ok in H as (g' & H1 & H2). destruct (visible_call e c g g' Hc Hok H1) as (Hok' & g2 & E2 & Q2). destruct (IH g' g1 Hcs Hok' H2) as (g3 & E3 & Q3).
  unfold exec_i2m in *. cbn [foldM]. rewrite E2. cbn [bindM]. pose proof (equiv_foldM (i2m_call e) cs (fun c => equiv_call e c) g2 g' Q2) as Q. rewrite E3 in Q.
  destruct (foldM (i2m_call e) cs g2) as [|g4]; [done|]. exists g4. split; [done|]. by etrans.
Qed.

End engine.

(** ** The decoder's batches *)

Lemma bindW_calls {A B} (P : Call -> Prop) (c : W A) (k : A -> W B) :
  Forall P (fst c) -> (forall a, snd c = inr a -> Forall P (fst (k a))) -> Forall P (fst (bindW c k)).
Proof.
  destruct c as [cs [f|a]]; cbn [fst snd bindW]; intros Hc Hk; [done|]. specialize (Hk a eq_refl). destruct (k a). cbn [fst] in *. apply Forall_app. by split.
Qed.

Lemma SendPure_nonempty method argument sub : Forall batch_nonempty (SendPure method argument sub).
Proof. destruct sub; repeat constructor. Qed.

Lemma SendFull_nonempty method argument sub last : Forall batch_nonempty (SendFull method argument sub last).
Proof.
  unfold SendFull. destruct (_ <? _); [repeat constructor|]. destruct (_ <? _); [apply SendPure_nonempty|]. destruct sub; repeat constructor.
Qed.

#[local] Hint Resolve SendPure_nonempty SendFull_nonempty : sky.

Lemma resume_loop_nonempty step ws : forall rs, Forall batch_nonempty (fst (resume_loop step rs ws)).
Proof.
  induction ws as [|w ws IH]; intros rs; cbn [resume_loop]; [constructor|]. destruct (_ =? _); [constructor|]. unfold resume_send.
  match goal with |- context [resume_loop step ?r ws] => specialize (IH r); destruct (resume_loop step r ws) as [cs r'] end.
  cbn [fst] in *. apply Forall_app. split; [apply SendFull_nonempty|done].
Qed.

Lemma resumeSplitMethod_nonempty rs ws : Forall batch_nonempty (fst (resumeSplitMethod rs ws)).
Proof.
  unfold resumeSplitMethod. pose proof (fun step => resume_loop_nonempty step ws rs) as Hl. destruct (rs_state rs).
  - specialize (Hl 0). by destruct (resume_loop 0 rs ws).
  - specialize (Hl 1). by destruct (resume_loop 1 rs ws).
  - destruct ws as [|w ws]; [constructor|]. unfold resume_send.
    match goal with |- context [resume_loop 0 ?r ws] => pose proof (resume_loop_nonempty 0 ws r) as H; destruct (resume_loop 0 r ws) as [cs r'] end.
    cbn [fst] in *. apply Forall_app. split; [apply SendFull_nonempty|done].
Qed.

Lemma dispatch_loop_nonempty body args : (forall i a, Forall batch_nonempty (body i a)) -> forall i, Forall batch_nonempty (dispatch_loop body i args).
Proof. intros Hb. induction args as [|a args IH]; intros i; [constructor|]. simpl. apply Forall_app. by split. Qed.

Lemma send_one_nonempty t method argument sub : Forall batch_nonempty (send_one t method argument sub).
Proof. unfold send_one. destruct t; [repeat constructor|apply SendPure_nonempty]. Qed.

Lemma send_batch_nonempty t method args sub : args <> [] -> Forall batch_nonempty (send_batch t method args sub).
Proof. intros Ha. unfold send_batch. destruct args; [done|]. destruct t, sub; repeat constructor. Qed.

Lemma pure_calls_nonempty t st raw args : Z.of_nat (length args) = methodCount raw -> Forall batch_nonempty (pure_calls t st raw args).
Proof.
  intros Hn. unfold pure_calls, BatchCutoff. assert (Hl : Forall batch_nonempty (dispatch_loop (fun i argument =>
    send_one t (methodAddress raw + methodOffset st i) argument (methodSubChannel raw)) 0 args)).
  { apply dispatch_loop_nonempty. intros. apply send_one_nonempty. }
  destruct st; [|done|].
  - destruct (Z.ltb_spec 4 (methodCount raw)); [|done]. apply send_batch_nonempty. intros ->. simpl in Hn. lia.
  - destruct (Z.ltb_spec (4 + 1) (methodCount raw)); [|done]. destruct args as [|a args]; [constructor|]. apply Forall_app. split; [apply send_one_nonempty|].
    apply send_batch_nonempty. intros ->. simpl in Hn. lia.
Qed.

Lemma dispatchCalls_nonempty t st raw rest rs : Forall batch_nonempty (fst (dispatchCalls t st raw rest rs)).
Proof.
  unfold dispatchCalls. destruct (header_range raw) as [_ Hc]. destruct (Z.leb_spec (methodCount raw) (Z.of_nat (length rest))).
  - rewrite bind_emit. cbn [fst retW]. rewrite app_nil_r. destruct (Pure raw); [apply pure_calls_nonempty; rewrite length_take; lia|].
    unfold full_calls. apply dispatch_loop_nonempty. intros. apply SendFull_nonempty.
  - apply bindW_calls; [apply resumeSplitMethod_nonempty|]. intros [rs' rest'] _. constructor.
Qed.

Lemma process_loop_nonempty fuel : forall ws rs, Forall batch_nonempty (fst (process_loop fuel ws rs)).
Proof.
  induction fuel as [|fuel IH]; intros [|raw rest] rs; cbn [process_loop]; try constructor. destruct (_ =? 0); [apply IH|].
  assert (Hm : forall t, Forall batch_nonempty (fst (processMethod t raw rest rs))).
  { intros t. unfold processMethod. destruct (secOp raw); try apply dispatchCalls_nonempty; try constructor. rewrite bind_emit. cbn [fst retW]. rewrite app_nil_r.
    destruct (Pure raw); [apply send_one_nonempty|apply SendFull_nonempty]. }
  apply bindW_calls.
  - unfold hitEnd. destruct (methodSubChannel raw); [apply Hm|..]; rewrite bind_emit; (constructor; [done|apply Hm]).
  - intros [[rs' rest'] []] _; [constructor|apply IH].
Qed.

Lemma process_buffer_nonempty ws rs : Forall batch_nonempty (fst (process_buffer ws rs)).
Proof.
  unfold process_buffer. apply bindW_calls.
  - destruct (_ =? 0); [constructor|apply resumeSplitMethod_nonempty].
  - intros [rs' entries] _. apply bindW_calls; [apply process_loop_nonempty|]. intros rs'' _. by constructor.
Qed.

(** ** Theorems *)

Lemma i2m_follows blocks e ws rs g g1 :
  resume_ok rs -> i2m_ok g -> exec_i2m blocks e (visible (fst (stream (pending rs) ws))) g = inr g1 ->
  exists g2, exec_i2m blocks e (fst (process_buffer ws rs)) g = inr g2 /\ i2m_equiv g2 g1.
Proof.
  intros Hrs Hok H. destruct (process_buffer_stream ws rs Hrs) as [Hv _]. apply (f_equal fst) in Hv. unfold view in Hv. cbn [fst] in Hv. rewrite <- Hv in H.
  apply exec_visible; [apply process_buffer_nonempty|done|done].
Qed.

(** uploads do not depend on how the decoder hands the words over.  On any buffer of commands
    and any method left pending, if the words taken one at a time make the inline-to-memory engine,
    or the block in the compute engine, reach a state, then the calls that the decoder really
    makes, with their batches, bring it to the same state, memory included, but for the last value
    of the data register, which nothing reads. *)
Theorem i2m_follows_stream blocks e ws rs g g1 :
  resume_ok rs -> i2m_ok g -> exec_i2m blocks e (visible (fst (stream (pending rs) ws))) g = inr g1 ->
  exists g2, exec_i2m blocks e (fst (process_buffer ws rs)) g = inr g2 /\ i2m_equiv g2 g1.
Proof. exact (i2m_follows blocks e ws rs g g1). Qed.

(** *** An upload *)

Lemma upload_header_fields op sub count address :
  0 <= op < 8 -> 0 <= sub < 8 -> 0 <= count < 2 ^ 13 -> 0 <= address < 2 ^ 12 ->
  methodAddress (header op sub count address) = address /\ bits 13 3 (header op sub count address) = sub /\
  methodCount (header op sub count address) = count /\ bits 29 3 (header op sub count address) = op.
Proof.
  intros Ho Hs Hc Ha. unfold header, methodAddress, methodCount. rewrite !Z.shiftl_mul_pow2 by lia. rewrite !bits_div_mod by lia.
  change (2 ^ 29) with 536870912. change (2 ^ 16) with 65536. change (2 ^ 13) with 8192 in *. change (2 ^ 12) with 4096 in *. change (2 ^ 3) with 8. change (2 ^ 0) with 1.
  repeat split; rewrite ?Z.div_1_r; Z.div_mod_to_equations; lia.
Qed.

Lemma stream_packet op sub count address args rest st :
  secOp (header op sub count address) = match st with Inc => IncMethod | NonInc => NonIncMethod | OneInc => OneIncMethod end ->
  0 < op < 8 -> 0 <= sub < 8 -> 0 <= count < 2 ^ 13 -> 0 <= address < 2 ^ 12 -> Z.of_nat (length args) = count ->
  stream None (header op sub count address :: args ++ rest) =
  (dispatch_loop (fun i a => SendFull (address + methodOffset st i) a (methodSubChannel (header op sub count address)) (i =? count - 1)) 0 args ++ fst (stream None rest),
   snd (stream None rest)).
Proof.
  intros Hop Ho Hs Hc Ha Hn. destruct (upload_header_fields op sub count address ltac:(lia) Hs Hc Ha) as (E1 & E2 & E3 & E4).
  assert (Hne : header op sub count address =? 0 = false).
  { apply Z.eqb_neq. intros E. rewrite E in E4. vm_compute in E4. lia. }
  pose proof (stream_arguments st count address (methodSubChannel (header op sub count address)) args rest 0 ltac:(lia) ltac:(lia)) as Hst.
  replace (state_at st count address (methodSubChannel (header op sub count address)) 0) with (mk_resume count address (methodSubChannel (header op sub count address)) st) in Hst
    by (unfold state_at; destruct st; simpl; f_equal; lia).
  cbn [stream]. rewrite Hne, Hop. unfold open_packet. rewrite E1, E3. destruct st; exact Hst.
Qed.

(** The commands of an upload of [len] bytes to the address [hi], [lo]. *)
Definition upload_words (len hi lo launch : Z) (data : list Z) : list Z :=
  [header 1 2 4 0x60; len; 1; hi; lo; header 1 2 1 0x6C; launch; header 3 2 (Z.of_nat (length data)) 0x6D] ++ data.

Definition i2m_write (method argument : Z) : Call := CallMethod Inline2Memory method argument.

Lemma upload_loads data n : forall i, dispatch_loop (fun i a => SendFull (0x6D + methodOffset NonInc i) a Inline2Mem (i =? n - 1)) i data = i2m_write 0x6D <$> data.
Proof. induction data as [|a data IH]; intros i; [done|]. cbn [dispatch_loop fmap list_fmap]. by rewrite IH. Qed.

Lemma upload_stream len hi lo launch data :
  Z.of_nat (length data) < 2 ^ 13 ->
  visible (fst (stream None (upload_words len hi lo launch data))) =
  [i2m_write 0x60 len; i2m_write 0x61 1; i2m_write 0x62 hi; i2m_write 0x63 lo; i2m_write 0x6C launch] ++ (i2m_write 0x6D <$> data).
Proof.
  intros Hn. unfold upload_words.
  destruct (upload_header_fields 3 2 (Z.of_nat (length data)) 0x6D) as (_ & E2 & _ & E4); [lia..|].
  replace (_ ++ data) with (header 1 2 4 0x60 :: [len; 1; hi; lo] ++ (header 1 2 1 0x6C :: [launch] ++ (header 3 2 (Z.of_nat (length data)) 0x6D :: data ++ [])))
    by (by rewrite app_nil_r).
  rewrite (stream_packet 1 2 4 0x60 [len; 1; hi; lo] _ Inc) by (done || lia). rewrite (stream_packet 1 2 1 0x6C [launch] _ Inc) by (done || lia).
  rewrite (stream_packet 3 2 (Z.of_nat (length data)) 0x6D data [] NonInc); [|unfold secOp; by rewrite E4|lia..]. cbn [fst stream].
  replace (methodSubChannel (header 3 2 (Z.of_nat (length data)) 0x6D)) with Inline2Mem by (unfold methodSubChannel; by rewrite E2).
  rewrite upload_loads, !visible_app. change (fst (retW (None, false))) with (@nil Call). rewrite app_assoc, app_nil_r. f_equal.
  unfold visible. rewrite <- (observed_singles Inline2Memory 0x6D data) at 2. f_equal. clear. induction data as [|a data IH]; [done|]. simpl. by f_equal.
Qed.

Lemma length_words_bytes l : length (words_bytes l) = (4 * length l)%nat.
Proof. induction l as [|w l IH]; [done|]. unfold words_bytes in *. rewrite bind_cons, length_app, IH. simpl. lia. Qed.

(** Byte [i] of the words. *)
Lemma lookup_words_bytes l i w : 0 <= i -> l !! Z.to_nat (i / 4) = Some w -> words_bytes l !! Z.to_nat i = Some (bits (8 * (i mod 4)) 8 w).
Proof.
  revert i. induction l as [|x l IH]; intros i Hi Hw; [done|]. unfold words_bytes in *. rewrite bind_cons. destruct (Z_lt_le_dec i 4).
  - rewrite Z.div_small in Hw by lia. injection Hw as ->. rewrite Z.mod_small by lia. assert (i = 0 \/ i = 1 \/ i = 2 \/ i = 3) as [->|[->|[->| ->]]] by lia; done.
  - rewrite lookup_app_r by (simpl; lia). replace (length (bytes_of 4 x)) with 4%nat by done. replace (Z.to_nat i - 4)%nat with (Z.to_nat (i - 4)) by lia.
    replace (i mod 4) with ((i - 4) mod 4) by (Z.div_mod_to_equations; lia). apply IH; [lia|]. replace (Z.to_nat (i / 4)) with (S (Z.to_nat ((i - 4) / 4))) in Hw by (Z.div_mod_to_equations; lia). done.
Qed.

Lemma targetSizeWords_line len : 0 <= len -> len + 4 <= 2 ^ 32 -> targetSizeWords 1 len = (len + 3) / 4.
Proof.
  intros H0 H1. unfold targetSizeWords. change (AlignUp len 4) with (AlignUp len (2 ^ 2)). rewrite Z.mul_1_l, (AlignUp_spec len 2) by lia. change (2 ^ 2) with 4.
  replace (len + 4 - 1) with (len + 3) by lia. pose proof (Z.mod_pos_bound (len + 3) 4 ltac:(lia)) as Hm.
  rewrite !wrap_small by (rewrite ?wrap_small; lia). Z.div_mod_to_equations. lia.
Qed.

Section upload.
Context (blocks : list Block) (len hi lo launch : Z) (data : list Z) (g : I2m).
Hypothesis (Hregs : length (im_registers g) = Z.to_nat EngineMethodsEnd) (Hlen : 0 < len /\ len + 4 <= 2 ^ 32).
Hypothesis (Hdata : Z.of_nat (length data) = (len + 3) / 4).

(** The block after the launch. *)
Definition launched : I2m :=
  I2m_LaunchDma (set_register 0x6C launch (set_register 0x63 lo (set_register 0x62 hi (set_register 0x61 1 (set_register 0x60 len g))))).

Lemma launched_regs : i2m_lineCount launched = 1 /\ i2m_lineLengthIn launched = len /\ im_reg 0x62 launched = hi /\ im_reg 0x63 launched = lo /\ im_reg 0x6C launched = launch.
Proof.
  unfold i2m_lineCount, i2m_lineLengthIn, im_reg, launched, I2m_LaunchDma, set_register. cbn [im_registers].
  assert (0x6D < length (im_registers g))%nat by (rewrite Hregs; apply Nat.ltb_lt; vm_compute; reflexivity).
  change (Z.to_nat 0x60) with 0x60%nat. change (Z.to_nat 0x61) with 0x61%nat. change (Z.to_nat 0x62) with 0x62%nat. change (Z.to_nat 0x63) with 0x63%nat. change (Z.to_nat 0x6C) with 0x6C%nat.
  repeat split; repeat (rewrite list_lookup_insert_ne by lia); by rewrite list_lookup_insert_eq by (rewrite ?length_insert; lia).
Qed.

Lemma launched_buffer : im_writeOffset launched = 0 /\ length (im_buffer launched) = length data /\ im_ram launched = im_ram g.
Proof.
  split; [done|]. split; [|done]. destruct launched_regs as (E1 & E2 & _). unfold launched in *. set (g0 := set_register 0x6C launch _) in *.
  cbn [I2m_LaunchDma im_buffer]. rewrite length_resize. change (i2m_lineCount g0 = 1) in E1. change (i2m_lineLengthIn g0 = len) in E2. rewrite E1, E2, targetSizeWords_line by lia. lia.
Qed.

Lemma uploads_written ram' :
  bits 0 1 launch = 1 -> bits 4 2 launch <> 2 -> 0 < Z.of_nat (length data) -> Z.of_nat (length data) < 2 ^ 32 ->
  Mm_Write 64 blocks (Z.lor (Z.shiftl hi 32) lo) (words_bytes data) (im_ram g) = inr ram' ->
  exists g1, exec_i2m blocks Inline2Memory ([i2m_write 0x60 len; i2m_write 0x61 1; i2m_write 0x62 hi; i2m_write 0x63 lo; i2m_write 0x6C launch] ++ (i2m_write 0x6D <$> data)) g = inr g1 /\
    im_ram g1 = ram'.
Proof.
  intros Hp Hc H0 H32 HW. unfold exec_i2m. rewrite foldM_app. cbn [foldM i2m_write i2m_call I2m_HandleMethod Z.eqb Pos.eqb bindM ok]. fold launched.
  unfold i2m_write. rewrite foldM_map. cbn [i2m_call]. pose proof (singles_equiv blocks (I2m_HandleMethod blocks) data ltac:(done) launched) as E.
  destruct launched_buffer as (B1 & B2 & B3). destruct launched_regs as (R1 & R2 & R3 & R4 & R5).
  rewrite <- (load_batch_singles blocks data launched) in E; [|by split; lia|by intros ->|lia].
  assert (HL : LoadInlineData_batch blocks data launched = inr (mk_i2m (im_registers launched) data (Z.of_nat (length data)) ram')).
  { unfold LoadInlineData_batch. rewrite B1, B2, (proj2 (Z.ltb_ge _ _)) by lia. change (Z.to_nat 0) with 0%nat. rewrite take_0, Nat.add_0_l, drop_ge, app_nil_r by lia.
    rewrite wrap_small by lia. rewrite Z.add_0_l. unfold finish_load. cbn [im_writeOffset im_buffer app]. rewrite Z.eqb_refl. unfold CompleteDma.
    set (g2 := mk_i2m _ _ _ _). change (i2m_completion g2) with (bits 4 2 (im_reg 0x6C launched)). change (i2m_layout g2) with (bits 0 1 (im_reg 0x6C launched)).
    change (i2m_lineCount g2) with (i2m_lineCount launched). change (i2m_offsetOut g2) with (Z.lor (Z.shiftl (im_reg 0x62 launched) 32) (im_reg 0x63 launched)).
    rewrite R1, R3, R4, R5, Hp, (proj2 (Z.eqb_neq _ 2) Hc). cbn [Z.eqb Pos.eqb andb]. subst g2. cbn [im_ram im_buffer]. rewrite B3, HW. done. }
  rewrite HL in E. destruct (foldM _ data launched) as [f|g1]; [done|]. exists g1. split; [done|]. by destruct E as (_ & _ & E & _).
Qed.

End upload.

(** data sent inline reaches memory.  For commands that set up a line of [len] bytes at an
    address, launch with the pitch layout and without a semaphore, and send the words of the data,
    the engine that executes what the decoder makes of them writes each byte of the words to the
    place where the GPU's address space has its address, and nothing else. *)
Theorem i2m_upload blocks len hi lo launch data phys g :
  blocks_ok blocks -> blocks_fit 64 blocks -> length (im_registers g) = Z.to_nat EngineMethodsEnd -> i2m_ok g ->
  0 < len -> 0 <= hi < 2 ^ 8 -> 0 <= lo < 2 ^ 32 -> bits 0 1 launch = 1 -> bits 4 2 launch <> 2 ->
  Z.of_nat (length data) = (len + 3) / 4 -> Z.of_nat (length data) < 2 ^ 13 ->
  let address := hi * 2 ^ 32 + lo in
  (forall a, address <= a < address + 4 * Z.of_nat (length data) -> translate true blocks a = Some (phys a, false)) ->
  (forall a a', address <= a < address + 4 * Z.of_nat (length data) -> address <= a' < address + 4 * Z.of_nat (length data) -> phys a = phys a' -> a = a') ->
  exists g', exec_i2m blocks Inline2Memory (fst (process_buffer (upload_words len hi lo launch data) resumeState_init)) g = inr g' /\
    (forall i w, 0 <= i -> data !! Z.to_nat (i / 4) = Some w -> im_ram g' (phys (address + i)) = bits (8 * (i mod 4)) 8 w) /\
    forall x, (forall a, address <= a < address + 4 * Z.of_nat (length data) -> phys a <> x) -> im_ram g' x = im_ram g x.
Proof.
  intros Hb Hw Hr Hok Hl Hhi Hlo Hp Hc Hn Hn13 address Ht Hinj.
  assert (Hsize : Z.of_nat (length (words_bytes data)) = 4 * Z.of_nat (length data)) by (rewrite length_words_bytes; lia).
  assert (Hd : 0 < Z.of_nat (length data)) by (rewrite Hn; Z.div_mod_to_equations; lia).
  destruct (Write_spec 64 blocks (im_ram g) address (words_bytes data) phys Hb Hw) as (ram' & HW & H1 & H2); [lia| |by rewrite Hsize..|].
  { intros E. rewrite E in Hsize. simpl in Hsize. lia. }
  destruct (uploads_written blocks len hi lo launch data g Hr) with (ram' := ram') as (g1 & E1 & Er); try done; try lia.
  { Z.div_mod_to_equations. lia. }
  { unfold address in HW. by rewrite lor_shiftl_add by lia. }
  rewrite <- upload_stream in E1 by done.
  destruct (i2m_follows blocks Inline2Memory (upload_words len hi lo launch data) resumeState_init g g1) as (g2 & E2 & Q); [by split|done|exact E1|].
  exists g2. split; [done|]. destruct Q as (_ & _ & Q & _). rewrite Q, Er, Hsize in *. split; [|exact H2].
  intros i w Hi Hw'. assert (Hi4 : i < 4 * Z.of_nat (length data)) by (apply lookup_lt_Some in Hw'; Z.div_mod_to_equations; lia).
  rewrite H1 by lia. replace (address + i - address) with i by lia. by rewrite (lookup_words_bytes data i w).
Qed.

(** ** Behaviour at the edges *)

Definition upload_blocks : list Block := [mk_block 0 0 false; mk_block 0x10000 0x500000 false; mk_block 0x20000 0 false].

Definition upload_engine : I2m := I2m_new (fun _ => 7).

(** A line is written in whole words: an upload of one byte writes four. *)
Lemma upload_writes_padding :
  match exec_i2m upload_blocks Inline2Memory (fst (process_buffer (upload_words 1 0 0x10000 1 [0xAB]) resumeState_init)) upload_engine with
  | inr g => im_ram g <$> [0x500000; 0x500001; 0x500003; 0x500004] = [0xAB; 0; 0; 7]
  | inl _ => False
  end.
Proof. vm_compute. reflexivity. Qed.

(** Lines after the first are not uploaded; the words are dropped. *)
Lemma upload_of_lines_dropped :
  match exec_i2m upload_blocks Inline2Memory
    [i2m_write 0x60 4; i2m_write 0x61 2; i2m_write 0x62 0; i2m_write 0x63 0x10000; i2m_write 0x6C 1; i2m_write 0x6D 1; i2m_write 0x6D 2] upload_engine with
  | inr g => im_ram g 0x500000 = 7
  | inl _ => False
  end.
Proof. vm_compute. reflexivity. Qed.

(** ** Witnesses *)

Definition compute_words : list Z := [header 1 1 4 0x60; 20; 1; 0; 0x10010; header 1 1 1 0x6C; 1; header 3 1 5 0x6D; 1; 2; 3; 4; 5].

Lemma result_of {A} (P : A -> Prop) (r : M A) : match r with inr a => P a | inl _ => False end -> exists a, r = inr a /\ P a.
Proof. destruct r as [f|a]; [done|]. intros H. by exists a. Qed.

Lemma i2m_follows_stream_witness : exists g2,
  exec_i2m upload_blocks KeplerCompute (fst (process_buffer compute_words resumeState_init)) upload_engine = inr g2 /\ im_ram g2 0x500014 = 2.
Proof.
  destruct (result_of (fun g => im_ram g 0x500014 = 2) (exec_i2m upload_blocks KeplerCompute (visible (fst (stream (pending resumeState_init) compute_words))) upload_engine))
    as (g1 & E1 & H1); [vm_compute; reflexivity|].
  destruct (i2m_follows_stream upload_blocks KeplerCompute compute_words resumeState_init upload_engine g1 ltac:(by split) ltac:(by split) E1) as (g2 & E2 & (_ & _ & Q & _)).
  exists g2. split; [exact E2|]. by rewrite Q.
Defined.

Lemma i2m_upload_witness : exists g',
  exec_i2m upload_blocks Inline2Memory (fst (process_buffer (upload_words 19 0 0x10000 1 [1; 2; 3; 4; 0xAABBCCDD]) resumeState_init)) upload_engine = inr g' /\
  im_ram g' 0x500012 = 0xBB.
Proof.
  destruct (i2m_upload upload_blocks 19 0 0x10000 1 [1; 2; 3; 4; 0xAABBCCDD] (fun a => a - 0x10000 + 0x500000) upload_engine) as (g' & E & H1 & _); try done.
  - repeat split; try done; try (by left); try (by right). repeat constructor; done.
  - repeat constructor.
  - intros a Ha. cbn [length Z.of_nat] in Ha. unfold translate, upload_blocks. cbn [block_at b_virt]. destruct (Z.leb_spec 0x20000 a); [lia|]. destruct (Z.leb_spec 0x10000 a); [|lia]. cbn. do 2 f_equal. lia.
  - intros a a' _ _. lia.
  - exists g'. split; [done|]. apply (H1 18 0xAABBCCDD); [lia|done].
Defined.
