(* ===== verification/Dma.v ===== *)
(** * The copy engine ([soc/gm20b/engines/maxwell_dma.{h,cpp}])

    The DMA engine copies buffers, and textures between the pitch and the block-linear layout, when
    its launch register is written, and releases a semaphore behind the copy.  A copy of a texture
    works on host pointers: each image has to lie in one piece of memory.  Its conversions are the
    lists of copies of [Layout], made one after the other on the one memory both images are in. *)

From S2P Require Import Prelude Common AddressSpace FlatMemory Layout Macro Gpfifo GpuChannel.

(** ** Registers *)

Record Dma : Type := mk_dma {
  dm_registers : list Z;
  dm_ram : host_ram }.

Definition Dma_new (ram : host_ram) : Dma := mk_dma (replicate (Z.to_nat EngineMethodsEnd) 0) ram.

Definition dm_reg (r : nat) (g : Dma) : Z := default 0 (dm_registers g !! r).
Definition dm_address (r : nat) (g : Dma) : Z := Z.lor (Z.shiftl (dm_reg r g) 32) (dm_reg (r + 1) g).

Definition dma_semaphoreType (launch : Z) : Z := bits 3 2 launch.
Definition dma_srcPitch (launch : Z) : bool := bit launch 7.
Definition dma_dstPitch (launch : Z) : bool := bit launch 8.
Definition dma_multiLineEnable (launch : Z) : bool := bit launch 9.
Definition dma_remapEnable (launch : Z) : bool := bit launch 10.

Definition dma_offsetIn (g : Dma) : Z := dm_address 0x100 g.
Definition dma_offsetOut (g : Dma) : Z := dm_address 0x102 g.
Definition dma_pitchIn (g : Dma) : Z := dm_reg 0x104 g.
Definition dma_pitchOut (g : Dma) : Z := dm_reg 0x105 g.
Definition dma_lineLengthIn (g : Dma) : Z := dm_reg 0x106 g.
Definition dma_lineCount (g : Dma) : Z := dm_reg 0x107 g.

(** The fields of the remap register follow an address in its struct, which puts them two words on. *)
Definition ComponentSize (g : Dma) : Z := bits 16 2 (dm_reg 0x1C4 g) + 1.
Definition NumSrcComponents (g : Dma) : Z := bits 20 2 (dm_reg 0x1C4 g) + 1.
Definition bytesPerPixel (g : Dma) : Z := ComponentSize g * NumSrcComponents g.

(** A surface, [base] being its first register. *)
Record Surface : Type := mk_dma_surface {
  su_blockWidth : Z;
  su_blockHeight : Z;
  su_blockDepth : Z;
  su_width : Z;
  su_height : Z;
  su_depth : Z;
  su_layer : Z;
  su_originX : Z;
  su_originY : Z }.

Definition dma_surface (base : nat) (g : Dma) : Surface :=
  let r i := dm_reg (base + i) g in
  mk_dma_surface (wrap 8 (2 ^ bits 0 4 (r 0%nat))) (wrap 8 (2 ^ bits 4 4 (r 0%nat))) (wrap 8 (2 ^ bits 8 4 (r 0%nat)))
    (r 1%nat) (r 2%nat) (r 3%nat) (r 4%nat) (bits 0 16 (r 5%nat)) (bits 16 16 (r 5%nat)).

Definition dstSurface (g : Dma) : Surface := dma_surface 0x1C3 g.
Definition srcSurface (g : Dma) : Surface := dma_surface 0x1CA g.

(** ** Copies *)

(** One copy of a conversion between two images of one memory. *)
Definition copy_to_block (linear block : Z) (ram : host_ram) (c : CopyOp) : host_ram :=
  write_list (block + cp_block c) (ram <$> seqZ (linear + cp_linear c) (cp_size c)) ram.
Definition copy_to_linear (linear block : Z) (ram : host_ram) (c : CopyOp) : host_ram :=
  write_list (linear + cp_linear c) (ram <$> seqZ (block + cp_block c) (cp_size c)) ram.

Section engine.
Context (sparseMap : Z) (blocks : list Block).

Definition set_ram (ram : host_ram) (g : Dma) : Dma := mk_dma (dm_registers g) ram.

(** [time] is the GPU time. *)
Definition ReleaseSemaphore (time : Z) (g : Dma) : M Dma :=
  let address := dm_address 0x90 g in
  let payload := dm_reg 0x92 g in
  match dma_semaphoreType (dm_reg 0xC0 g) with
  | 1 => let! ram := Mm_Write 64 blocks address (bytes_of 4 payload) (dm_ram g) in ok (set_ram ram g)
  | 2 =>
      let! ram := Mm_Write 64 blocks (u64 (address + 8)) (bytes_of 8 time) (dm_ram g) in
      let! ram := Mm_Write 64 blocks address (bytes_of 8 payload) ram in ok (set_ram ram g)
  | _ => ok g
  end.

(** The part of a range, if it is one piece of memory. *)
Definition single_range (virt size : Z) : M (option Z) :=
  let! ranges := TranslateRange 64 sparseMap blocks virt size in
  ok (match ranges with [(p, _)] => Some p | _ => None end).

Definition CopyPitchToBlockLinear (g : Dma) : M Dma :=
  let s := dstSurface g in
  if (1 <? su_blockDepth s) || (1 <? su_depth s) then ok g
  else if negb (su_blockWidth s =? 1) then ok g
  else if negb (u32 (bytesPerPixel g * dma_lineLengthIn g) =? dma_pitchIn g) then ok g
  else if negb (su_originX s =? 0) || negb (su_originY s =? 0) then ok g
  else
    let srcStride := u32 (dma_lineLengthIn g * dma_lineCount g * bytesPerPixel g) in
    let! src := single_range (dma_offsetIn g) srcStride in
    match src with
    | None => ok g
    | Some src =>
        let dstDimensions := mk_dimensions (dma_lineLengthIn g) (su_height s) (su_depth s) in
        let dstLayerStride := GetBlockLinearLayerSize dstDimensions 1 1 (bytesPerPixel g) (su_blockHeight s) (su_blockDepth s) in
        let dstLayerAddress := u64 (dma_offsetOut g + su_layer s * dstLayerStride) in
        let! dst := single_range dstLayerAddress dstLayerStride in
        match dst with
        | None => ok g
        | Some dst =>
            ok (set_ram (fold_left (copy_to_block src dst)
              (CopyBlockLinearInternal dstDimensions 1 1 (bytesPerPixel g) (su_blockHeight s) (su_blockDepth s)) (dm_ram g)) g)
        end
    end.

Definition CopyBlockLinearToPitch (g : Dma) : M Dma :=
  let s := srcSurface g in
  if (1 <? su_blockDepth s) || (1 <? su_depth s) then ok g
  else if negb (su_blockWidth s =? 1) then ok g
  else if negb (u32 (bytesPerPixel g * dma_lineLengthIn g) =? dma_pitchOut g) then ok g
  else if negb (su_originX s =? 0) || negb (su_originY s =? 0) then ok g
  else
    let srcDimensions := mk_dimensions (dma_lineLengthIn g) (su_height s) (su_depth s) in
    let srcStride := GetBlockLinearLayerSize srcDimensions 1 1 (bytesPerPixel g) (su_blockHeight s) (su_blockDepth s) in
    let! src := single_range (dma_offsetIn g) srcStride in
    match src with
    | None => ok g
    | Some src =>
        let dstStride := u32 (dma_lineLengthIn g * dma_lineCount g * bytesPerPixel g) in
        let! dst := single_range (dma_offsetOut g) dstStride in
        match dst with
        | None => ok g
        | Some dst =>
            ok (set_ram (fold_left (copy_to_linear dst src)
              (CopyBlockLinearInternal srcDimensions 1 1 (bytesPerPixel g) (su_blockHeight s) (su_blockDepth s)) (dm_ram g)) g)
        end
    end.

Definition Dma_LaunchDma (time : Z) (g : Dma) : M Dma :=
  let launch := dm_reg 0xC0 g in
  if dma_lineLengthIn g =? 0 then ok g
  else if dma_remapEnable launch then ok g
  else
    let! g :=
      if dma_multiLineEnable launch then
        if dma_srcPitch launch && negb (dma_dstPitch launch) then CopyPitchToBlockLinear g
        else if negb (dma_srcPitch launch) && dma_dstPitch launch then CopyBlockLinearToPitch g
        else ok g
      else let! ram := Mm_Copy 64 blocks (dma_offsetOut g) (dma_offsetIn g) (dma_lineLengthIn g) (dm_ram g) in ok (set_ram ram g) in
    ReleaseSemaphore time g.

Definition Dma_HandleMethod (time method argument : Z) (g : Dma) : M Dma :=
  let g := mk_dma (<[Z.to_nat method := argument]> (dm_registers g)) (dm_ram g) in
  if method =? 0xC0 then Dma_LaunchDma time g else ok g.

Definition Dma_CallMethodBatchNonInc (time method : Z) (arguments : list Z) (g : Dma) : M Dma :=
  foldM (fun g argument => Dma_HandleMethod time method argument g) arguments g.

(** The calls of a run that go to this engine; the others do not touch its state. *)
Definition exec_dma (time : Z) (calls : list Call) (g : Dma) : M Dma :=
  foldM (fun g c => match c with
    | CallMethod MaxwellDma method argument => Dma_HandleMethod time method argument g
    | CallMethodBatchNonInc MaxwellDma method arguments => Dma_CallMethodBatchNonInc time method arguments g
    | _ => ok g
    end) calls g.

End engine.

(** ** Conversions inside one memory *)

Lemma write_seq (ram : host_ram) d s n x :
  write_list d (ram <$> seqZ s n) ram x = if (d <=? x) && (x <? d + n) then ram (s + (x - d)) else ram x.
Proof.
  unfold write_list. rewrite length_fmap, length_seqZ.
  destruct (Z.leb_spec d x), (Z.ltb_spec x (d + n)), (Z.ltb_spec x (d + Z.of_nat (Z.to_nat n))); cbn [andb]; try done; try lia.
  rewrite list_lookup_fmap, lookup_seqZ_lt by lia. simpl. f_equal. lia.
Qed.

(** Two areas of memory that a conversion reads and writes, and that do not overlap. *)
Definition areas_apart (linear lsize block bsize : Z) : Prop := linear + lsize <= block \/ block + bsize <= linear.

Definition inside_areas (lsize bsize : Z) (c : CopyOp) : Prop :=
  0 < cp_size c -> 0 <= cp_linear c /\ cp_linear c + cp_size c <= lsize /\ 0 <= cp_block c /\ cp_block c + cp_size c <= bsize.

(** A conversion in one memory is that between two memories. *)
Lemma copy_to_block_apart linear lsize block bsize cs : areas_apart linear lsize block bsize -> Forall (inside_areas lsize bsize) cs ->
  forall ram, (forall b, fold_left (copy_to_block linear block) cs ram (block + b) = fold_left (to_block_linear (fun l => ram (linear + l))) cs (fun b => ram (block + b)) b) /\
    forall x, ~ (block <= x < block + bsize) -> fold_left (copy_to_block linear block) cs ram x = ram x.
Proof.
  intros Hap. induction cs as [|c cs IH]; intros Hin ram; [done|]. inversion Hin as [|? ? Hc Hin']; subst. cbn [fold_left].
  specialize (IH Hin' (copy_to_block linear block ram c)) as [IH1 IH2].
  assert (Hstep : forall x, copy_to_block linear block ram c x = if (block + cp_block c <=? x) && (x <? block + cp_block c + cp_size c) then ram (linear + cp_linear c + (x - (block + cp_block c))) else ram x).
  { intros x. apply write_seq. }
  split.
  - intros b. rewrite IH1.
    assert (Hsrc : forall l, 0 <= l < lsize -> copy_to_block linear block ram c (linear + l) = ram (linear + l)).
    { intros l Hl. rewrite Hstep. destruct (Z.leb_spec (block + cp_block c) (linear + l)), (Z.ltb_spec (linear + l) (block + cp_block c + cp_size c)); cbn [andb]; try done.
      exfalso. destruct (Hc ltac:(lia)) as (? & ? & ? & ?), Hap; lia. }
    assert (Hext : forall cs s s' d d', Forall (inside_areas lsize bsize) cs -> (forall l, 0 <= l < lsize -> s l = s' l) -> (forall b, d b = d' b) ->
      forall b, fold_left (to_block_linear s) cs d b = fold_left (to_block_linear s') cs d' b).
    { clear. induction cs as [|c cs IH]; intros s s' d d' Hin Hs Hd b; [done|]. inversion Hin as [|? ? Hc Hin']; subst. cbn [fold_left]. apply IH; [done..|].
      intros b'. unfold to_block_linear, memcpy. destruct (Z.leb_spec (cp_block c) b'), (Z.ltb_spec b' (cp_block c + cp_size c)); cbn [andb]; try done.
      destruct (Hc ltac:(lia)) as (? & ? & ? & ?). apply Hs. lia. }
    apply Hext; [done|done|]. intros b'. rewrite Hstep. unfold to_block_linear, memcpy.
    destruct (Z.leb_spec (cp_block c) b'), (Z.leb_spec (block + cp_block c) (block + b')); try lia;
      destruct (Z.ltb_spec b' (cp_block c + cp_size c)), (Z.ltb_spec (block + b') (block + cp_block c + cp_size c)); try lia; cbn [andb]; try done. f_equal. lia.
  - intros x Hx. rewrite IH2 by done. rewrite Hstep. destruct (Z.leb_spec (block + cp_block c) x), (Z.ltb_spec x (block + cp_block c + cp_size c)); cbn [andb]; try done.
    destruct (Hc ltac:(lia)) as (? & ? & ? & ?). lia.
Qed.

Lemma swap_swap cs : map swap (map swap cs) = cs.
Proof. rewrite map_map. induction cs as [|[] cs IH]; [done|]. simpl. by f_equal. Qed.

Lemma copy_to_linear_apart linear lsize block bsize cs : areas_apart linear lsize block bsize -> Forall (inside_areas lsize bsize) cs ->
  forall ram, (forall l, fold_left (copy_to_linear linear block) cs ram (linear + l) = fold_left (to_linear (fun b => ram (block + b))) cs (fun l => ram (linear + l)) l) /\
    forall x, ~ (linear <= x < linear + lsize) -> fold_left (copy_to_linear linear block) cs ram x = ram x.
Proof.
  intros Hap Hin ram. assert (E : forall cs ram, fold_left (copy_to_linear linear block) cs ram = fold_left (copy_to_block block linear) (map swap cs) ram).
  { clear. induction cs as [|c cs IH]; intros ram; [done|]. simpl. apply IH. }
  destruct (copy_to_block_apart block bsize linear lsize (map swap cs)) with (ram := ram) as [H1 H2].
  - destruct Hap; [by right|by left].
  - apply Forall_forall. intros c Hc. apply list_elem_of_In, in_map_iff in Hc as (c' & <- & Hc'). rewrite Forall_forall in Hin. intros H.
    destruct (Hin c' ltac:(by apply list_elem_of_In) H) as (? & ? & ? & ?). by repeat split.
  - split.
    + intros l. rewrite E, H1, to_block_linear_swap, swap_swap. done.
    + intros x Hx. rewrite E. by apply H2.
Qed.

(** ** Texture copies *)

(** What a copy of a texture that the engine supports is like, [s] being the block-linear side and
    [pitch] the bytes of a line of the other. *)
Record texture_copy (g : Dma) (s : Surface) (pitch : Z) : Prop := mk_texture_copy {
  tc_blockWidth : su_blockWidth s = 1;
  tc_blockDepth : su_blockDepth s = 1;
  tc_depth : su_depth s = 1;
  tc_origin : su_originX s = 0 /\ su_originY s = 0;
  tc_length : 0 < dma_lineLengthIn g < 2 ^ 32;
  tc_height : 0 <= su_height s < 2 ^ 31;
  tc_gobs : 0 < su_blockHeight s < 2 ^ 8;
  tc_pixel : 16 mod bytesPerPixel g = 0;
  tc_pitch : pitch = bytesPerPixel g * dma_lineLengthIn g /\ pitch < 2 ^ 32 }.

Definition texture_size (g : Dma) (s : Surface) : Z :=
  GetBlockLinearLayerSize (mk_dimensions (dma_lineLengthIn g) (su_height s) (su_depth s)) 1 1 (bytesPerPixel g) (su_blockHeight s) (su_blockDepth s).

Section texture.
Context (g : Dma) (s : Surface) (pitch : Z) (Htc : texture_copy g s pitch).
Let d : Dimensions := mk_dimensions (dma_lineLengthIn g) (su_height s) (su_depth s).

Lemma bytesPerPixel_pos : 0 < bytesPerPixel g.
Proof.
  unfold bytesPerPixel, ComponentSize, NumSrcComponents. pose proof (bits_range 16 2 (dm_reg 0x1C4 g) ltac:(lia)). pose proof (bits_range 20 2 (dm_reg 0x1C4 g) ltac:(lia)). nia.
Qed.

Lemma texture_surface : surface_2d d 1 1 (bytesPerPixel g) (su_blockHeight s).
Proof.
  pose proof bytesPerPixel_pos. destruct Htc as [_ _ H3 _ H5 H6 H7 H8 _]. unfold d. split; cbn [d_width d_height d_depth]; try done; try lia. apply Z.mod_1_r.
Qed.

Lemma texture_line : line_bytes d 1 (bytesPerPixel g) = pitch.
Proof. destruct (tc_pitch _ _ _ Htc) as [-> _]. unfold line_bytes, d. cbn [d_width]. rewrite Z.div_1_r. lia. Qed.

Lemma texture_lines : lines d 1 = su_height s.
Proof. unfold lines, d. cbn [d_height]. apply Z.div_1_r. Qed.

Lemma texture_inside : Forall (inside_areas (pitch * su_height s) (texture_size g s)) (CopyBlockLinearInternal d 1 1 (bytesPerPixel g) (su_blockHeight s) (su_blockDepth s)).
Proof.
  apply Forall_forall. intros c Hc Hsize. unfold texture_size. fold d. rewrite (tc_blockDepth _ _ _ Htc) in *. rewrite <- texture_line, <- texture_lines.
  apply (conversion_in_bounds d 1 1 (bytesPerPixel g) (su_blockHeight s) texture_surface c); [|by apply list_elem_of_In|done].
  assert (HW : DivideCeil (d_width d) 1 * bytesPerPixel g = pitch).
  { destruct (tc_pitch _ _ _ Htc) as [-> _]. unfold DivideCeil, d. cbn [d_width]. rewrite Z.div_1_r. lia. }
  rewrite HW, texture_lines. pose proof (tc_gobs _ _ _ Htc) as Hg. pose proof (tc_height _ _ _ Htc) as Hh. pose proof (tc_length _ _ _ Htc). pose proof bytesPerPixel_pos.
  destruct (tc_pitch _ _ _ Htc) as [Ep Hp]. pose proof (AlignUp_bound pitch 64 ltac:(nia) ltac:(lia) ltac:(lia)) as Ha.
  set (b := 8 * su_blockHeight s) in *. assert (Hd : b * DivideCeil (su_height s) b <= su_height s + b - 1).
  { unfold DivideCeil. apply Z.mul_div_le. lia. }
  assert (0 <= b * DivideCeil (su_height s) b) by (apply Z.mul_nonneg_nonneg; [lia|]; unfold DivideCeil; apply Z.div_pos; lia). nia.
Qed.

End texture.

(** ** Theorems *)

Lemma dm_reg_set r argument g :
  length (dm_registers g) = Z.to_nat EngineMethodsEnd ->
  dm_reg r (mk_dma (<[0xC0%nat := argument]> (dm_registers g)) (dm_ram g)) = if (r =? 0xC0)%nat then argument else dm_reg r g.
Proof.
  intros Hl. unfold dm_reg. cbn [dm_registers]. destruct (Nat.eqb_spec r 0xC0) as [->|]; [|by rewrite list_lookup_insert_ne by done].
  rewrite list_lookup_insert_eq; [done|]. rewrite Hl. apply Nat.ltb_lt. vm_compute. reflexivity.
Qed.

(** The state in which the launch runs. *)
Definition launching (launch : Z) (g : Dma) : Dma := mk_dma (<[0xC0%nat := launch]> (dm_registers g)) (dm_ram g).

Lemma launching_same launch g : length (dm_registers g) = Z.to_nat EngineMethodsEnd ->
  dm_reg 0xC0 (launching launch g) = launch /\ (forall r, r <> 0xC0%nat -> dm_reg r (launching launch g) = dm_reg r g).
Proof.
  intros Hl. split; [by apply (dm_reg_set 0xC0)|]. intros r Hr. unfold launching. rewrite (dm_reg_set r) by done. by rewrite (proj2 (Nat.eqb_neq _ _) Hr).
Qed.

Lemma launching_fields launch g : length (dm_registers g) = Z.to_nat EngineMethodsEnd ->
  dma_lineLengthIn (launching launch g) = dma_lineLengthIn g /\ dma_offsetIn (launching launch g) = dma_offsetIn g /\
  dma_offsetOut (launching launch g) = dma_offsetOut g /\ dm_address 0x90 (launching launch g) = dm_address 0x90 g /\ dm_reg 0x92 (launching launch g) = dm_reg 0x92 g.
Proof.
  intros Hl. destruct (launching_same launch g Hl) as [_ Er]. unfold dma_lineLengthIn, dma_offsetIn, dma_offsetOut, dm_address. by rewrite !Er by done.
Qed.

Lemma release_one blocks time ram g :
  dma_semaphoreType (dm_reg 0xC0 g) = 1 ->
  ReleaseSemaphore blocks time (set_ram ram g) = let! ram := Mm_Write 64 blocks (dm_address 0x90 g) (bytes_of 4 (dm_reg 0x92 g)) ram in ok (set_ram ram g).
Proof. intros Ht. unfold ReleaseSemaphore. change (dm_reg 0xC0 (set_ram ram g)) with (dm_reg 0xC0 g). by rewrite Ht. Qed.

(** a copy of a buffer moves the bytes and then releases its semaphore.  When the launch register
    is written for a copy of one line with a one-word semaphore, each byte of the destination is
    what the GPU read at that place of the source, the semaphore has its payload, and no other byte
    of memory changed, however the ranges are cut into mappings. *)
Theorem dma_copies sparseMap blocks time launch phys sphys g :
  blocks_ok blocks -> blocks_fit 64 blocks -> length (dm_registers g) = Z.to_nat EngineMethodsEnd ->
  dma_remapEnable launch = false -> dma_multiLineEnable launch = false -> dma_semaphoreType launch = 1 ->
  let dst := dma_offsetOut g in let src := dma_offsetIn g in let size := dma_lineLengthIn g in let sem := dm_address 0x90 g in
  0 <= dst -> 0 <= src -> 0 < size -> 0 <= sem -> copyable blocks phys dst src size ->
  (forall a, sem <= a < sem + 4 -> translate true blocks a = Some (sphys a, false)) ->
  (forall a a', sem <= a < sem + 4 -> sem <= a' < sem + 4 -> sphys a = sphys a' -> a = a') ->
  (forall a i, sem <= a < sem + 4 -> 0 <= i < size -> sphys a <> phys (dst + i)) ->
  exists g', Dma_HandleMethod sparseMap blocks time 0xC0 launch g = inr g' /\
    (forall i, 0 <= i < size -> dm_ram g' (phys (dst + i)) = byte_at blocks (dm_ram g) (src + i)) /\
    (forall j, 0 <= j < 4 -> dm_ram g' (sphys (sem + j)) = bits (8 * j) 8 (dm_reg 0x92 g)) /\
    forall x, (forall i, 0 <= i < size -> phys (dst + i) <> x) -> (forall a, sem <= a < sem + 4 -> sphys a <> x) -> dm_ram g' x = dm_ram g x.
Proof.
  intros Hb Hw Hl Hr Hm Ht dst src size sem H0 H1 H2 H3 Hc Hs Hsi Hap. unfold Dma_HandleMethod. change (Z.to_nat 0xC0) with 0xC0%nat. cbn [Z.eqb Pos.eqb].
  fold (launching launch g). destruct (launching_same launch g Hl) as [El _]. destruct (launching_fields launch g Hl) as (F1 & F2 & F3 & F4 & F5).
  unfold Dma_LaunchDma. rewrite El, F1, F2, F3, Hr, Hm. fold dst src size. rewrite (proj2 (Z.eqb_neq size 0)) by lia. change (dm_ram (launching launch g)) with (dm_ram g).
  destruct (Copy_spec 64 blocks phys dst src size (dm_ram g) Hb Hw H0 H1 H2 Hc) as (ram1 & -> & C1 & C2). cbn [bindM ok].
  rewrite release_one by (by rewrite El). rewrite F4, F5. fold sem.
  destruct (Write_spec 64 blocks ram1 sem (bytes_of 4 (dm_reg 0x92 g)) sphys Hb Hw H3 ltac:(done) Hs Hsi) as (ram2 & -> & D1 & D2).
  change (Z.of_nat (length (bytes_of 4 (dm_reg 0x92 g)))) with 4 in *. cbn [bindM ok]. eexists. split; [reflexivity|]. cbn [dm_ram set_ram]. split; [|split].
  - intros i Hi. rewrite D2; [by apply C1|]. intros a Ha. by apply Hap.
  - intros j Hj. rewrite D1 by lia. replace (sem + j - sem) with j by lia. assert (j = 0 \/ j = 1 \/ j = 2 \/ j = 3) as [->|[->|[->| ->]]] by lia; done.
  - intros x Hx1 Hx2. rewrite D2 by done. by apply C2.
Qed.

Lemma launching_textures launch g : length (dm_registers g) = Z.to_nat EngineMethodsEnd ->
  dma_lineCount (launching launch g) = dma_lineCount g /\ dma_pitchIn (launching launch g) = dma_pitchIn g /\ dma_pitchOut (launching launch g) = dma_pitchOut g /\
  bytesPerPixel (launching launch g) = bytesPerPixel g /\ dstSurface (launching launch g) = dstSurface g /\ srcSurface (launching launch g) = srcSurface g.
Proof.
  intros Hl. destruct (launching_same launch g Hl) as [_ Er]. unfold dma_lineCount, dma_pitchIn, dma_pitchOut, bytesPerPixel, ComponentSize, NumSrcComponents, dstSurface, srcSurface, dma_surface.
  by rewrite !Er by done.
Qed.

Lemma release_none blocks time g : dma_semaphoreType (dm_reg 0xC0 g) = 0 -> ReleaseSemaphore blocks time g = ok g.
Proof. intros Ht. unfold ReleaseSemaphore. by rewrite Ht. Qed.

(** The guards of the two conversions are passed. *)
Lemma texture_guards g s pitch : texture_copy g s pitch ->
  (1 <? su_blockDepth s) || (1 <? su_depth s) = false /\ negb (su_blockWidth s =? 1) = false /\
  negb (u32 (bytesPerPixel g * dma_lineLengthIn g) =? pitch) = false /\ negb (su_originX s =? 0) || negb (su_originY s =? 0) = false.
Proof.
  intros Htc. pose proof (bytesPerPixel_pos g). destruct Htc as [H1 H2 H3 [H4 H5] H6 _ _ _ [H7 H8]]. rewrite H1, H2, H3, H4, H5, H7. repeat split; try done.
  rewrite wrap_small by nia. by rewrite Z.eqb_refl.
Qed.

Lemma line_position W x y : 0 <= x < W -> (y * W + x) mod W = x /\ (y * W + x) / W = y.
Proof. intros Hx. split; [rewrite Z.add_comm, Z.mod_add, Z.mod_small by lia; lia|rewrite Z.add_comm, Z.div_add, Z.div_small by lia; lia]. Qed.

Definition swizzled (pitch blockHeight x y : Z) : Z := swizzle (gobs_per_row pitch (pitch mod 64)) blockHeight x y.

(** C23: a copy from the pitch to the block-linear layout puts every byte of the image where the
    hardware's block-linear addressing has it: byte [x] of line [y] of the source in memory is at
    its swizzled place in the destination afterwards, for each line of the surface, and nothing
    outside the destination's layer changes.  The copies it is about are those of one slice and
    one block in depth and width, at origin 0, with lines that follow each other without a gap, in
    pixels whose size divides a sector of 16 bytes, without remapping and without the release of a
    semaphore, where source and destination each lie in one piece of memory and apart.  Other
    shapes the engine refuses; pixels of 3, 6, 9 and 12 bytes it accepts, but their sectors drift
    ([Layout.twelve_byte_pixels_drift]), and a release also writes its semaphore (see
    [dma_copies]). *)
Theorem dma_swizzles sparseMap blocks time launch src dst g :
  length (dm_registers g) = Z.to_nat EngineMethodsEnd -> dma_remapEnable launch = false -> dma_multiLineEnable launch = true ->
  dma_srcPitch launch = true -> dma_dstPitch launch = false -> dma_semaphoreType launch = 0 ->
  let s := dstSurface g in let pitch := dma_pitchIn g in let size := texture_size g s in
  texture_copy g s pitch ->
  single_range sparseMap blocks (dma_offsetIn g) (u32 (dma_lineLengthIn g * dma_lineCount g * bytesPerPixel g)) = inr (Some src) ->
  single_range sparseMap blocks (u64 (dma_offsetOut g + su_layer s * size)) size = inr (Some dst) ->
  areas_apart src (pitch * su_height s) dst size ->
  exists g', Dma_HandleMethod sparseMap blocks time 0xC0 launch g = inr g' /\
    (forall x y, 0 <= x < pitch -> 0 <= y < su_height s -> dm_ram g' (dst + swizzled pitch (su_blockHeight s) x y) = dm_ram g (src + (y * pitch + x))) /\
    forall a, ~ (dst <= a < dst + size) -> dm_ram g' a = dm_ram g a.
Proof.
  intros Hl Hr Hm Hsp Hdp Ht s pitch size Htc HS HD Hap. unfold Dma_HandleMethod. change (Z.to_nat 0xC0) with 0xC0%nat. cbn [Z.eqb Pos.eqb].
  fold (launching launch g). destruct (launching_same launch g Hl) as [El _]. destruct (launching_fields launch g Hl) as (F1 & F2 & F3 & _).
  destruct (launching_textures launch g Hl) as (G1 & G2 & _ & G4 & G5 & _). pose proof (tc_length _ _ _ Htc).
  unfold Dma_LaunchDma. rewrite El, F1, Hr, Hm, Hsp, Hdp. rewrite (proj2 (Z.eqb_neq (dma_lineLengthIn g) 0)) by lia. cbn [andb negb].
  unfold CopyPitchToBlockLinear. rewrite F1, F2, F3, G1, G2, G4, G5. fold s pitch. destruct (texture_guards g s pitch Htc) as (-> & -> & -> & ->).
  rewrite HS. cbn [bindM ok]. fold (texture_size g s) size. rewrite HD. cbn [bindM ok]. rewrite release_none by (by rewrite <- El in Ht).
  destruct (copy_to_block_apart src (pitch * su_height s) dst size _ Hap (texture_inside g s pitch Htc) (dm_ram g)) as [H1 H2].
  eexists. split; [reflexivity|]. cbn [dm_ram set_ram]. change (dm_ram (launching launch g)) with (dm_ram g). split; [|exact H2].
  intros x y Hx Hy. rewrite H1. destruct (line_position pitch x y Hx) as [P1 P2].
  pose proof (swizzle_writes _ 1 1 (bytesPerPixel g) (su_blockHeight s) (texture_surface g s pitch Htc) (fun l => dm_ram g (src + l)) (fun b => dm_ram g (dst + b)) (y * pitch + x)) as HW.
  unfold block_linear_offset in HW. rewrite (texture_line g s pitch Htc), (texture_lines g s), P1, P2 in HW. rewrite (tc_blockDepth _ _ _ Htc). apply HW. nia.
Qed.

(** a copy from the block-linear to the pitch layout reads every byte of the image from where
    the hardware's block-linear addressing has it, and nothing outside the lines of the destination
    changes. *)
Theorem dma_deswizzles sparseMap blocks time launch src dst g :
  length (dm_registers g) = Z.to_nat EngineMethodsEnd -> dma_remapEnable launch = false -> dma_multiLineEnable launch = true ->
  dma_srcPitch launch = false -> dma_dstPitch launch = true -> dma_semaphoreType launch = 0 ->
  let s := srcSurface g in let pitch := dma_pitchOut g in let size := texture_size g s in
  texture_copy g s pitch ->
  single_range sparseMap blocks (dma_offsetIn g) size = inr (Some src) ->
  single_range sparseMap blocks (dma_offsetOut g) (u32 (dma_lineLengthIn g * dma_lineCount g * bytesPerPixel g)) = inr (Some dst) ->
  areas_apart dst (pitch * su_height s) src size ->
  exists g', Dma_HandleMethod sparseMap blocks time 0xC0 launch g = inr g' /\
    (forall x y, 0 <= x < pitch -> 0 <= y < su_height s -> dm_ram g' (dst + (y * pitch + x)) = dm_ram g (src + swizzled pitch (su_blockHeight s) x y)) /\
    forall a, ~ (dst <= a < dst + pitch * su_height s) -> dm_ram g' a = dm_ram g a.
Proof.
  intros Hl Hr Hm Hsp Hdp Ht s pitch size Htc HS HD Hap. unfold Dma_HandleMethod. change (Z.to_nat 0xC0) with 0xC0%nat. cbn [Z.eqb Pos.eqb].
  fold (launching launch g). destruct (launching_same launch g Hl) as [El _]. destruct (launching_fields launch g Hl) as (F1 & F2 & F3 & _).
  destruct (launching_textures launch g Hl) as (G1 & _ & G3 & G4 & _ & G6). pose proof (tc_length _ _ _ Htc).
  unfold Dma_LaunchDma. rewrite El, F1, Hr, Hm, Hsp, Hdp. rewrite (proj2 (Z.eqb_neq (dma_lineLengthIn g) 0)) by lia. cbn [andb negb].
  unfold CopyBlockLinearToPitch. rewrite F1, F2, F3, G1, G3, G4, G6. fold s pitch. destruct (texture_guards g s pitch Htc) as (-> & -> & -> & ->).
  fold (texture_size g s) size. rewrite HS. cbn [bindM ok]. rewrite HD. cbn [bindM ok]. rewrite release_none by (by rewrite <- El in Ht).
  destruct (copy_to_linear_apart dst (pitch * su_height s) src size _ Hap (texture_inside g s pitch Htc) (dm_ram g)) as [H1 H2].
  eexists. split; [reflexivity|]. cbn [dm_ram set_ram]. change (dm_ram (launching launch g)) with (dm_ram g). split; [|exact H2].
  intros x y Hx Hy. rewrite H1. destruct (line_position pitch x y Hx) as [P1 P2].
  pose proof (to_linear_gathers _ 1 1 (bytesPerPixel g) (su_blockHeight s) (texture_surface g s pitch Htc) (fun b => dm_ram g (src + b)) (fun l => dm_ram g (dst + l)) (y * pitch + x)) as HW.
  unfold block_linear_offset in HW. rewrite (texture_line g s pitch Htc), (texture_lines g s), P1, P2 in HW. rewrite (tc_blockDepth _ _ _ Htc). etrans; [exact HW|].
  rewrite (proj2 (Z.leb_le _ _)), (proj2 (Z.ltb_lt _ _)) by nia. done.
Qed.

(** ** Behaviour at the edges *)

Definition dma_with (registers : list (Z * Z)) (ram : host_ram) : Dma :=
  mk_dma (fold_left (fun l '(r, v) => <[Z.to_nat r := v]> l) registers (replicate (Z.to_nat EngineMethodsEnd) 0)) ram.

(** Two mappings of 64 KiB and their ends. *)
Definition dma_blocks : list Block :=
  [mk_block 0 0 false; mk_block 0x10000 0x500000 false; mk_block 0x20000 0 false; mk_block 0x40000 0x800000 false; mk_block 0x50000 0 false].

(** The component sizes come from the width of the destination, not from the remap register. *)
Lemma remap_reads_width :
  bytesPerPixel (dma_with [(0x1C2, 0x330000)] (fun _ => 0)) = 1 /\ bytesPerPixel (dma_with [(0x1C4, 0x330000)] (fun _ => 0)) = 16.
Proof. vm_compute. done. Qed.

(** A launch with nothing to copy does not release its semaphore, so who waits for it waits forever. *)
Lemma empty_copy_keeps_semaphore :
  match Dma_HandleMethod 0 dma_blocks 0 0xC0 8 (dma_with [(0x91, 0x10000); (0x92, 1)] (fun _ => 0)) with
  | inr g => dm_ram g 0x500000 = 0
  | inl _ => False
  end.
Proof. vm_compute. done. Qed.

(** The height of the surface counts, not the number of lines: a copy of one line of 64 bytes to
    the pitch layout writes eight. *)
Lemma deswizzle_past_lines :
  match Dma_HandleMethod 0 dma_blocks 0 0xC0 0x300
    (dma_with [(0x101, 0x10000); (0x103, 0x40000); (0x105, 64); (0x106, 64); (0x107, 1); (0x1CB, 64); (0x1CC, 8); (0x1CD, 1)] (fun a => if a <? 0x800000 then 5 else 0)) with
  | inr g => dm_ram g 0x800000 = 5 /\ dm_ram g (0x800000 + 64 * 7) = 5
  | inl _ => False
  end.
Proof. vm_compute. done. Qed.

(** The layer of a block-linear source is not looked at. *)
Lemma deswizzle_ignores_layer layer :
  let g := dma_with [(0x101, 0x10000); (0x103, 0x40000); (0x105, 64); (0x106, 64); (0x107, 8); (0x1CB, 64); (0x1CC, 8); (0x1CD, 1); (0x1CE, layer)] (fun a => a mod 251) in
  match Dma_HandleMethod 0 dma_blocks 0 0xC0 0x300 g with
  | inr g => dm_ram g 0x800000 = 0x500000 mod 251
  | inl _ => False
  end.
Proof. vm_compute. done. Qed.

(** ** Witnesses *)

Lemma dma_blocks_ok : blocks_ok dma_blocks.
Proof. repeat split; try done; try (by left); try (by right). repeat constructor; done. Qed.

Lemma dma_blocks_fit : blocks_fit 64 dma_blocks.
Proof. repeat constructor. Qed.

Lemma dma_translate a : 0x10000 <= a < 0x20000 -> translate true dma_blocks a = Some (a - 0x10000 + 0x500000, false).
Proof.
  intros Ha. unfold translate, dma_blocks. cbn [block_at b_virt]. destruct (Z.leb_spec 0x50000 a); [lia|]. destruct (Z.leb_spec 0x40000 a); [lia|].
  destruct (Z.leb_spec 0x20000 a); [lia|]. destruct (Z.leb_spec 0x10000 a); [|lia]. cbn. do 2 f_equal. lia.
Qed.

Definition copy_registers : list (Z * Z) := [(0x91, 0x10800); (0x92, 0x1234); (0x101, 0x10000); (0x103, 0x10100); (0x106, 0x10)].

Lemma dma_copies_witness : exists g',
  Dma_HandleMethod 0 dma_blocks 0 0xC0 8 (dma_with copy_registers (fun a => a mod 251)) = inr g' /\
  dm_ram g' 0x500105 = 0x500005 mod 251 /\ dm_ram g' 0x500801 = 0x12.
Proof.
  assert (Hf : let g := dma_with copy_registers (fun a => a mod 251) in length (dm_registers g) = Z.to_nat EngineMethodsEnd /\
    dma_offsetOut g = 0x10100 /\ dma_offsetIn g = 0x10000 /\ dma_lineLengthIn g = 0x10 /\ dm_address 0x90 g = 0x10800 /\ dm_reg 0x92 g = 0x1234) by (vm_compute; done).
  assert (Hm : dm_ram (dma_with copy_registers (fun a => a mod 251)) = fun a => a mod 251) by reflexivity.
  revert Hf Hm. generalize (dma_with copy_registers (fun a => a mod 251)). intros g (Fl & F1 & F2 & F3 & F4 & F5) Hm.
  pose proof (dma_copies 0 dma_blocks 0 8 (fun a => a - 0x10000 + 0x500000) (fun a => a - 0x10000 + 0x500000) g dma_blocks_ok dma_blocks_fit Fl eq_refl eq_refl eq_refl) as H.
  cbv zeta in H. rewrite F1, F2, F3, F4, F5, Hm in H. destruct H as (g' & E & H1 & H2 & _); [lia..| | | | |].
  - split.
    + intros i Hi. by rewrite dma_translate by lia.
    + intros i Hi. by rewrite dma_translate by lia.
    + intros. lia.
    + intros i j p Hi Hj. rewrite dma_translate by lia. intros [= <-]. lia.
  - intros a Ha. apply dma_translate. lia.
  - intros. lia.
  - intros. lia.
  - exists g'. split; [exact E|]. split; [|exact (H2 1 ltac:(lia))]. specialize (H1 5 ltac:(lia)). unfold byte_at in H1. rewrite dma_translate in H1 by lia. exact H1.
Defined.

(** An image of 80 bytes by 12 lines, in blocks of two GOBs. *)
Definition texture_registers (surface : Z) : list (Z * Z) :=
  [(0x101, 0x10000); (0x103, 0x40000); (0x104, 80); (0x105, 80); (0x106, 80); (0x107, 12); (surface, 0x10); (surface + 1, 80); (surface + 2, 12); (surface + 3, 1)].

Lemma dma_swizzles_witness : exists g',
  Dma_HandleMethod 0 dma_blocks 0 0xC0 0x280 (dma_with (texture_registers 0x1C3) (fun a => a mod 251)) = inr g' /\
  dm_ram g' (0x800000 + swizzled 80 2 70 9) = (0x500000 + (9 * 80 + 70)) mod 251.
Proof.
  destruct (dma_swizzles 0 dma_blocks 0 0x280 0x500000 0x800000 (dma_with (texture_registers 0x1C3) (fun a => a mod 251))) as (g' & E & H & _);
    [vm_compute; reflexivity..| |vm_compute; reflexivity|vm_compute; reflexivity|left; vm_compute; discriminate|].
  - split; vm_compute; try (split; (reflexivity || discriminate)); reflexivity.
  - exists g'. split; [exact E|]. apply (H 70 9); vm_compute; split; (reflexivity || discriminate).
Defined.

Lemma dma_deswizzles_witness : exists g',
  Dma_HandleMethod 0 dma_blocks 0 0xC0 0x300 (dma_with (texture_registers 0x1CA) (fun a => a mod 251)) = inr g' /\
  dm_ram g' (0x800000 + (9 * 80 + 70)) = (0x500000 + swizzled 80 2 70 9) mod 251.
Proof.
  destruct (dma_deswizzles 0 dma_blocks 0 0x300 0x500000 0x800000 (dma_with (texture_registers 0x1CA) (fun a => a mod 251))) as (g' & E & H & _);
    [vm_compute; reflexivity..| |vm_compute; reflexivity|vm_compute; reflexivity|right; vm_compute; discriminate|].
  - split; vm_compute; try (split; (reflexivity || discriminate)); reflexivity.
  - exists g'. split; [exact E|]. apply (H 70 9); vm_compute; split; (reflexivity || discriminate).
Defined.
