(* ===== verification/BcTables.v ===== *)
(** * Tables of the texture decoders ([gpu/texture/bc_decoder.cpp])

    The partition and anchor tables of the BC6H and BC7 formats, the layouts of the modes of a BC6H
    block and the modes of a BC7 block.  A partition assigns each of the sixteen texels of a block
    to a subset of endpoints; the anchor of a subset is the texel whose index has an implicit zero
    as its highest bit. *)

From S2P Require Import Prelude.

(** ** BC6H *)

Definition BC6H_PartitionTable2 : list (list Z) :=
  [[0; 0; 1; 1; 0; 0; 1; 1; 0; 0; 1; 1; 0; 0; 1; 1];
   [0; 0; 0; 1; 0; 0; 0; 1; 0; 0; 0; 1; 0; 0; 0; 1];
   [0; 1; 1; 1; 0; 1; 1; 1; 0; 1; 1; 1; 0; 1; 1; 1];
   [0; 0; 0; 1; 0; 0; 1; 1; 0; 0; 1; 1; 0; 1; 1; 1];
   [0; 0; 0; 0; 0; 0; 0; 1; 0; 0; 0; 1; 0; 0; 1; 1];
   [0; 0; 1; 1; 0; 1; 1; 1; 0; 1; 1; 1; 1; 1; 1; 1];
   [0; 0; 0; 1; 0; 0; 1; 1; 0; 1; 1; 1; 1; 1; 1; 1];
   [0; 0; 0; 0; 0; 0; 0; 1; 0; 0; 1; 1; 0; 1; 1; 1];
   [0; 0; 0; 0; 0; 0; 0; 0; 0; 0; 0; 1; 0; 0; 1; 1];
   [0; 0; 1; 1; 0; 1; 1; 1; 1; 1; 1; 1; 1; 1; 1; 1];
   [0; 0; 0; 0; 0; 0; 0; 1; 0; 1; 1; 1; 1; 1; 1; 1];
   [0; 0; 0; 0; 0; 0; 0; 0; 0; 0; 0; 1; 0; 1; 1; 1];
   [0; 0; 0; 1; 0; 1; 1; 1; 1; 1; 1; 1; 1; 1; 1; 1];
   [0; 0; 0; 0; 0; 0; 0; 0; 1; 1; 1; 1; 1; 1; 1; 1];
   [0; 0; 0; 0; 1; 1; 1; 1; 1; 1; 1; 1; 1; 1; 1; 1];
   [0; 0; 0; 0; 0; 0; 0; 0; 0; 0; 0; 0; 1; 1; 1; 1];
   [0; 0; 0; 0; 1; 0; 0; 0; 1; 1; 1; 0; 1; 1; 1; 1];
   [0; 1; 1; 1; 0; 0; 0; 1; 0; 0; 0; 0; 0; 0; 0; 0];
   [0; 0; 0; 0; 0; 0; 0; 0; 1; 0; 0; 0; 1; 1; 1; 0];
   [0; 1; 1; 1; 0; 0; 1; 1; 0; 0; 0; 1; 0; 0; 0; 0];
   [0; 0; 1; 1; 0; 0; 0; 1; 0; 0; 0; 0; 0; 0; 0; 0];
   [0; 0; 0; 0; 1; 0; 0; 0; 1; 1; 0; 0; 1; 1; 1; 0];
   [0; 0; 0; 0; 0; 0; 0; 0; 1; 0; 0; 0; 1; 1; 0; 0];
   [0; 1; 1; 1; 0; 0; 1; 1; 0; 0; 1; 1; 0; 0; 0; 1];
   [0; 0; 1; 1; 0; 0; 0; 1; 0; 0; 0; 1; 0; 0; 0; 0];
   [0; 0; 0; 0; 1; 0; 0; 0; 1; 0; 0; 0; 1; 1; 0; 0];
   [0; 1; 1; 0; 0; 1; 1; 0; 0; 1; 1; 0; 0; 1; 1; 0];
   [0; 0; 1; 1; 0; 1; 1; 0; 0; 1; 1; 0; 1; 1; 0; 0];
   [0; 0; 0; 1; 0; 1; 1; 1; 1; 1; 1; 0; 1; 0; 0; 0];
   [0; 0; 0; 0; 1; 1; 1; 1; 1; 1; 1; 1; 0; 0; 0; 0];
   [0; 1; 1; 1; 0; 0; 0; 1; 1; 0; 0; 0; 1; 1; 1; 0];
   [0; 0; 1; 1; 1; 0; 0; 1; 1; 0; 0; 1; 1; 1; 0; 0];
   [0; 1; 0; 1; 0; 1; 0; 1; 0; 1; 0; 1; 0; 1; 0; 1];
   [0; 0; 0; 0; 1; 1; 1; 1; 0; 0; 0; 0; 1; 1; 1; 1];
   [0; 1; 0; 1; 1; 0; 1; 0; 0; 1; 0; 1; 1; 0; 1; 0];
   [0; 0; 1; 1; 0; 0; 1; 1; 1; 1; 0; 0; 1; 1; 0; 0];
   [0; 0; 1; 1; 1; 1; 0; 0; 0; 0; 1; 1; 1; 1; 0; 0];
   [0; 1; 0; 1; 0; 1; 0; 1; 1; 0; 1; 0; 1; 0; 1; 0];
   [0; 1; 1; 0; 1; 0; 0; 1; 0; 1; 1; 0; 1; 0; 0; 1];
   [0; 1; 0; 1; 1; 0; 1; 0; 1; 0; 1; 0; 0; 1; 0; 1];
   [0; 1; 1; 1; 0; 0; 1; 1; 1; 1; 0; 0; 1; 1; 1; 0];
   [0; 0; 0; 1; 0; 0; 1; 1; 1; 1; 0; 0; 1; 0; 0; 0];
   [0; 0; 1; 1; 0; 0; 1; 0; 0; 1; 0; 0; 1; 1; 0; 0];
   [0; 0; 1; 1; 1; 0; 1; 1; 1; 1; 0; 1; 1; 1; 0; 0];
   [0; 1; 1; 0; 1; 0; 0; 1; 1; 0; 0; 1; 0; 1; 1; 0];
   [0; 0; 1; 1; 1; 1; 0; 0; 1; 1; 0; 0; 0; 0; 1; 1];
   [0; 1; 1; 0; 0; 1; 1; 0; 1; 0; 0; 1; 1; 0; 0; 1];
   [0; 0; 0; 0; 0; 1; 1; 0; 0; 1; 1; 0; 0; 0; 0; 0];
   [0; 1; 0; 0; 1; 1; 1; 0; 0; 1; 0; 0; 0; 0; 0; 0];
   [0; 0; 1; 0; 0; 1; 1; 1; 0; 0; 1; 0; 0; 0; 0; 0];
   [0; 0; 0; 0; 0; 0; 1; 0; 0; 1; 1; 1; 0; 0; 1; 0];
   [0; 0; 0; 0; 0; 1; 0; 0; 1; 1; 1; 0; 0; 1; 0; 0];
   [0; 1; 1; 0; 1; 1; 0; 0; 1; 0; 0; 1; 0; 0; 1; 1];
   [0; 0; 1; 1; 0; 1; 1; 0; 1; 1; 0; 0; 1; 0; 0; 1];
   [0; 1; 1; 0; 0; 0; 1; 1; 1; 0; 0; 1; 1; 1; 0; 0];
   [0; 0; 1; 1; 1; 0; 0; 1; 1; 1; 0; 0; 0; 1; 1; 0];
   [0; 1; 1; 0; 1; 1; 0; 0; 1; 1; 0; 0; 1; 0; 0; 1];
   [0; 1; 1; 0; 0; 0; 1; 1; 0; 0; 1; 1; 1; 0; 0; 1];
   [0; 1; 1; 1; 1; 1; 1; 0; 1; 0; 0; 0; 0; 0; 0; 1];
   [0; 0; 0; 1; 1; 0; 0; 0; 1; 1; 1; 0; 0; 1; 1; 1];
   [0; 0; 0; 0; 1; 1; 1; 1; 0; 0; 1; 1; 0; 0; 1; 1];
   [0; 0; 1; 1; 0; 0; 1; 1; 1; 1; 1; 1; 0; 0; 0; 0];
   [0; 0; 1; 0; 0; 0; 1; 0; 1; 1; 1; 0; 1; 1; 1; 0];
   [0; 1; 0; 0; 0; 1; 0; 0; 0; 1; 1; 1; 0; 1; 1; 1]].

Definition BC6H_AnchorTable2 : list Z :=
  [15; 15; 15; 15; 15; 15; 15; 15; 15; 15; 15; 15; 15; 15; 15; 15;
   15; 2; 8; 2; 2; 8; 8; 15; 2; 8; 2; 2; 8; 8; 2; 2;
   15; 15; 6; 8; 2; 8; 15; 15; 2; 8; 2; 2; 2; 15; 15; 6;
   6; 2; 6; 8; 15; 15; 2; 2; 15; 15; 15; 15; 15; 2; 2; 15].

Inductive ColorChannel : Type := ChR | ChG | ChB | ChNone.

(** [ModeDesc] with the delta bits of the three channels. *)
Record ModeDesc : Type := mk_mode_desc {
  md_number : Z;
  md_hasDelta : bool;
  md_partitionCount : Z;
  md_endpointBits : Z;
  md_deltaBits : list Z }.

(** [DataType]; the description of the mode comes with the entry for it. *)
Inductive DataType : Type :=
| DEndpoint (ep : nat)
| DMode (desc : ModeDesc)
| DPartition
| DEnd.

Record BlockDesc : Type := mk_desc {
  bd_type : DataType;
  bd_channel : ColorChannel;
  bd_MSB : Z;
  bd_LSB : Z }.

Definition blockDescs : list (list BlockDesc) :=
 [
  [mk_desc (DMode (mk_mode_desc 0 true 2 10 [5; 5; 5])) ChNone 1 0;
   mk_desc (DEndpoint 2) ChG 4 4; mk_desc (DEndpoint 2) ChB 4 4; mk_desc (DEndpoint 3) ChB 4 4; mk_desc (DEndpoint 0) ChR 9 0; mk_desc (DEndpoint 0) ChG 9 0;
   mk_desc (DEndpoint 0) ChB 9 0; mk_desc (DEndpoint 1) ChR 4 0; mk_desc (DEndpoint 3) ChG 4 4; mk_desc (DEndpoint 2) ChG 3 0; mk_desc (DEndpoint 1) ChG 4 0;
   mk_desc (DEndpoint 3) ChB 0 0; mk_desc (DEndpoint 3) ChG 3 0; mk_desc (DEndpoint 1) ChB 4 0; mk_desc (DEndpoint 3) ChB 1 1; mk_desc (DEndpoint 2) ChB 3 0;
   mk_desc (DEndpoint 2) ChR 4 0; mk_desc (DEndpoint 3) ChB 2 2; mk_desc (DEndpoint 3) ChR 4 0; mk_desc (DEndpoint 3) ChB 3 3; mk_desc DPartition ChNone 4 0;
   mk_desc DEnd ChNone 0 0];
  [mk_desc (DMode (mk_mode_desc 1 true 2 7 [6; 6; 6])) ChNone 1 0;
   mk_desc (DEndpoint 2) ChG 5 5; mk_desc (DEndpoint 3) ChG 5 4; mk_desc (DEndpoint 0) ChR 6 0; mk_desc (DEndpoint 3) ChB 1 0; mk_desc (DEndpoint 2) ChB 4 4;
   mk_desc (DEndpoint 0) ChG 6 0; mk_desc (DEndpoint 2) ChB 5 5; mk_desc (DEndpoint 3) ChB 2 2; mk_desc (DEndpoint 2) ChG 4 4; mk_desc (DEndpoint 0) ChB 6 0;
   mk_desc (DEndpoint 3) ChB 3 3; mk_desc (DEndpoint 3) ChB 5 5; mk_desc (DEndpoint 3) ChB 4 4; mk_desc (DEndpoint 1) ChR 5 0; mk_desc (DEndpoint 2) ChG 3 0;
   mk_desc (DEndpoint 1) ChG 5 0; mk_desc (DEndpoint 3) ChG 3 0; mk_desc (DEndpoint 1) ChB 5 0; mk_desc (DEndpoint 2) ChB 3 0; mk_desc (DEndpoint 2) ChR 5 0;
   mk_desc (DEndpoint 3) ChR 5 0; mk_desc DPartition ChNone 4 0; mk_desc DEnd ChNone 0 0];
  [mk_desc (DMode (mk_mode_desc 2 true 2 11 [5; 4; 4])) ChNone 4 0;
   mk_desc (DEndpoint 0) ChR 9 0; mk_desc (DEndpoint 0) ChG 9 0; mk_desc (DEndpoint 0) ChB 9 0; mk_desc (DEndpoint 1) ChR 4 0; mk_desc (DEndpoint 0) ChR 10 10;
   mk_desc (DEndpoint 2) ChG 3 0; mk_desc (DEndpoint 1) ChG 3 0; mk_desc (DEndpoint 0) ChG 10 10; mk_desc (DEndpoint 3) ChB 0 0; mk_desc (DEndpoint 3) ChG 3 0;
   mk_desc (DEndpoint 1) ChB 3 0; mk_desc (DEndpoint 0) ChB 10 10; mk_desc (DEndpoint 3) ChB 1 1; mk_desc (DEndpoint 2) ChB 3 0; mk_desc (DEndpoint 2) ChR 4 0;
   mk_desc (DEndpoint 3) ChB 2 2; mk_desc (DEndpoint 3) ChR 4 0; mk_desc (DEndpoint 3) ChB 3 3; mk_desc DPartition ChNone 4 0; mk_desc DEnd ChNone 0 0];
  [mk_desc (DMode (mk_mode_desc 3 false 1 10 [0; 0; 0])) ChNone 4 0;
   mk_desc (DEndpoint 0) ChR 9 0; mk_desc (DEndpoint 0) ChG 9 0; mk_desc (DEndpoint 0) ChB 9 0; mk_desc (DEndpoint 1) ChR 9 0; mk_desc (DEndpoint 1) ChG 9 0;
   mk_desc (DEndpoint 1) ChB 9 0; mk_desc DEnd ChNone 0 0];
  [mk_desc (DMode (mk_mode_desc 6 true 2 11 [4; 5; 4])) ChNone 4 0;
   mk_desc (DEndpoint 0) ChR 9 0; mk_desc (DEndpoint 0) ChG 9 0; mk_desc (DEndpoint 0) ChB 9 0; mk_desc (DEndpoint 1) ChR 3 0; mk_desc (DEndpoint 0) ChR 10 10;
   mk_desc (DEndpoint 3) ChG 4 4; mk_desc (DEndpoint 2) ChG 3 0; mk_desc (DEndpoint 1) ChG 4 0; mk_desc (DEndpoint 0) ChG 10 10; mk_desc (DEndpoint 3) ChG 3 0;
   mk_desc (DEndpoint 1) ChB 3 0; mk_desc (DEndpoint 0) ChB 10 10; mk_desc (DEndpoint 3) ChB 1 1; mk_desc (DEndpoint 2) ChB 3 0; mk_desc (DEndpoint 2) ChR 3 0;
   mk_desc (DEndpoint 3) ChB 0 0; mk_desc (DEndpoint 3) ChB 2 2; mk_desc (DEndpoint 3) ChR 3 0; mk_desc (DEndpoint 2) ChG 4 4; mk_desc (DEndpoint 3) ChB 3 3;
   mk_desc DPartition ChNone 4 0; mk_desc DEnd ChNone 0 0];
  [mk_desc (DMode (mk_mode_desc 7 true 1 11 [9; 9; 9])) ChNone 4 0;
   mk_desc (DEndpoint 0) ChR 9 0; mk_desc (DEndpoint 0) ChG 9 0; mk_desc (DEndpoint 0) ChB 9 0; mk_desc (DEndpoint 1) ChR 8 0; mk_desc (DEndpoint 0) ChR 10 10;
   mk_desc (DEndpoint 1) ChG 8 0; mk_desc (DEndpoint 0) ChG 10 10; mk_desc (DEndpoint 1) ChB 8 0; mk_desc (DEndpoint 0) ChB 10 10; mk_desc DEnd ChNone 0 0];
  [mk_desc (DMode (mk_mode_desc 10 true 2 11 [4; 4; 5])) ChNone 4 0;
   mk_desc (DEndpoint 0) ChR 9 0; mk_desc (DEndpoint 0) ChG 9 0; mk_desc (DEndpoint 0) ChB 9 0; mk_desc (DEndpoint 1) ChR 3 0; mk_desc (DEndpoint 0) ChR 10 10;
   mk_desc (DEndpoint 2) ChB 4 4; mk_desc (DEndpoint 2) ChG 3 0; mk_desc (DEndpoint 1) ChG 3 0; mk_desc (DEndpoint 0) ChG 10 10; mk_desc (DEndpoint 3) ChB 0 0;
   mk_desc (DEndpoint 3) ChG 3 0; mk_desc (DEndpoint 1) ChB 4 0; mk_desc (DEndpoint 0) ChB 10 10; mk_desc (DEndpoint 2) ChB 3 0; mk_desc (DEndpoint 2) ChR 3 0;
   mk_desc (DEndpoint 3) ChB 1 1; mk_desc (DEndpoint 3) ChB 2 2; mk_desc (DEndpoint 3) ChR 3 0; mk_desc (DEndpoint 3) ChB 4 4; mk_desc (DEndpoint 3) ChB 3 3;
   mk_desc DPartition ChNone 4 0; mk_desc DEnd ChNone 0 0];
  [mk_desc (DMode (mk_mode_desc 11 true 1 12 [8; 8; 8])) ChNone 4 0;
   mk_desc (DEndpoint 0) ChR 9 0; mk_desc (DEndpoint 0) ChG 9 0; mk_desc (DEndpoint 0) ChB 9 0; mk_desc (DEndpoint 1) ChR 7 0; mk_desc (DEndpoint 0) ChR 10 11;
   mk_desc (DEndpoint 1) ChG 7 0; mk_desc (DEndpoint 0) ChG 10 11; mk_desc (DEndpoint 1) ChB 7 0; mk_desc (DEndpoint 0) ChB 10 11; mk_desc DEnd ChNone 0 0];
  [mk_desc (DMode (mk_mode_desc 14 true 2 9 [5; 5; 5])) ChNone 4 0;
   mk_desc (DEndpoint 0) ChR 8 0; mk_desc (DEndpoint 2) ChB 4 4; mk_desc (DEndpoint 0) ChG 8 0; mk_desc (DEndpoint 2) ChG 4 4; mk_desc (DEndpoint 0) ChB 8 0;
   mk_desc (DEndpoint 3) ChB 4 4; mk_desc (DEndpoint 1) ChR 4 0; mk_desc (DEndpoint 3) ChG 4 4; mk_desc (DEndpoint 2) ChG 3 0; mk_desc (DEndpoint 1) ChG 4 0;
   mk_desc (DEndpoint 3) ChB 0 0; mk_desc (DEndpoint 3) ChG 3 0; mk_desc (DEndpoint 1) ChB 4 0; mk_desc (DEndpoint 3) ChB 1 1; mk_desc (DEndpoint 2) ChB 3 0;
   mk_desc (DEndpoint 2) ChR 4 0; mk_desc (DEndpoint 3) ChB 2 2; mk_desc (DEndpoint 3) ChR 4 0; mk_desc (DEndpoint 3) ChB 3 3; mk_desc DPartition ChNone 4 0;
   mk_desc DEnd ChNone 0 0];
  [mk_desc (DMode (mk_mode_desc 15 true 1 16 [4; 4; 4])) ChNone 4 0;
   mk_desc (DEndpoint 0) ChR 9 0; mk_desc (DEndpoint 0) ChG 9 0; mk_desc (DEndpoint 0) ChB 9 0; mk_desc (DEndpoint 1) ChR 3 0; mk_desc (DEndpoint 0) ChR 10 15;
   mk_desc (DEndpoint 1) ChG 3 0; mk_desc (DEndpoint 0) ChG 10 15; mk_desc (DEndpoint 1) ChB 3 0; mk_desc (DEndpoint 0) ChB 10 15; mk_desc DEnd ChNone 0 0];
  [mk_desc (DMode (mk_mode_desc 18 true 2 8 [6; 5; 5])) ChNone 4 0;
   mk_desc (DEndpoint 0) ChR 7 0; mk_desc (DEndpoint 3) ChG 4 4; mk_desc (DEndpoint 2) ChB 4 4; mk_desc (DEndpoint 0) ChG 7 0; mk_desc (DEndpoint 3) ChB 2 2;
   mk_desc (DEndpoint 2) ChG 4 4; mk_desc (DEndpoint 0) ChB 7 0; mk_desc (DEndpoint 3) ChB 3 3; mk_desc (DEndpoint 3) ChB 4 4; mk_desc (DEndpoint 1) ChR 5 0;
   mk_desc (DEndpoint 2) ChG 3 0; mk_desc (DEndpoint 1) ChG 4 0; mk_desc (DEndpoint 3) ChB 0 0; mk_desc (DEndpoint 3) ChG 3 0; mk_desc (DEndpoint 1) ChB 4 0;
   mk_desc (DEndpoint 3) ChB 1 1; mk_desc (DEndpoint 2) ChB 3 0; mk_desc (DEndpoint 2) ChR 5 0; mk_desc (DEndpoint 3) ChR 5 0; mk_desc DPartition ChNone 4 0;
   mk_desc DEnd ChNone 0 0];
  [mk_desc (DMode (mk_mode_desc 22 true 2 8 [5; 6; 5])) ChNone 4 0;
   mk_desc (DEndpoint 0) ChR 7 0; mk_desc (DEndpoint 3) ChB 0 0; mk_desc (DEndpoint 2) ChB 4 4; mk_desc (DEndpoint 0) ChG 7 0; mk_desc (DEndpoint 2) ChG 5 5;
   mk_desc (DEndpoint 2) ChG 4 4; mk_desc (DEndpoint 0) ChB 7 0; mk_desc (DEndpoint 3) ChG 5 5; mk_desc (DEndpoint 3) ChB 4 4; mk_desc (DEndpoint 1) ChR 4 0;
   mk_desc (DEndpoint 3) ChG 4 4; mk_desc (DEndpoint 2) ChG 3 0; mk_desc (DEndpoint 1) ChG 5 0; mk_desc (DEndpoint 3) ChG 3 0; mk_desc (DEndpoint 1) ChB 4 0;
   mk_desc (DEndpoint 3) ChB 1 1; mk_desc (DEndpoint 2) ChB 3 0; mk_desc (DEndpoint 2) ChR 4 0; mk_desc (DEndpoint 3) ChB 2 2; mk_desc (DEndpoint 3) ChR 4 0;
   mk_desc (DEndpoint 3) ChB 3 3; mk_desc DPartition ChNone 4 0; mk_desc DEnd ChNone 0 0];
  [mk_desc (DMode (mk_mode_desc 26 true 2 8 [5; 5; 6])) ChNone 4 0;
   mk_desc (DEndpoint 0) ChR 7 0; mk_desc (DEndpoint 3) ChB 1 1; mk_desc (DEndpoint 2) ChB 4 4; mk_desc (DEndpoint 0) ChG 7 0; mk_desc (DEndpoint 2) ChB 5 5;
   mk_desc (DEndpoint 2) ChG 4 4; mk_desc (DEndpoint 0) ChB 7 0; mk_desc (DEndpoint 3) ChB 5 5; mk_desc (DEndpoint 3) ChB 4 4; mk_desc (DEndpoint 1) ChR 4 0;
   mk_desc (DEndpoint 3) ChG 4 4; mk_desc (DEndpoint 2) ChG 3 0; mk_desc (DEndpoint 1) ChG 4 0; mk_desc (DEndpoint 3) ChB 0 0; mk_desc (DEndpoint 3) ChG 3 0;
   mk_desc (DEndpoint 1) ChB 5 0; mk_desc (DEndpoint 2) ChB 3 0; mk_desc (DEndpoint 2) ChR 4 0; mk_desc (DEndpoint 3) ChB 2 2; mk_desc (DEndpoint 3) ChR 4 0;
   mk_desc (DEndpoint 3) ChB 3 3; mk_desc DPartition ChNone 4 0; mk_desc DEnd ChNone 0 0];
  [mk_desc (DMode (mk_mode_desc 30 false 2 6 [0; 0; 0])) ChNone 4 0;
   mk_desc (DEndpoint 0) ChR 5 0; mk_desc (DEndpoint 3) ChG 4 4; mk_desc (DEndpoint 3) ChB 0 0; mk_desc (DEndpoint 3) ChB 1 1; mk_desc (DEndpoint 2) ChB 4 4;
   mk_desc (DEndpoint 0) ChG 5 0; mk_desc (DEndpoint 2) ChG 5 5; mk_desc (DEndpoint 2) ChB 5 5; mk_desc (DEndpoint 3) ChB 2 2; mk_desc (DEndpoint 2) ChG 4 4;
   mk_desc (DEndpoint 0) ChB 5 0; mk_desc (DEndpoint 3) ChG 5 5; mk_desc (DEndpoint 3) ChB 3 3; mk_desc (DEndpoint 3) ChB 5 5; mk_desc (DEndpoint 3) ChB 4 4;
   mk_desc (DEndpoint 1) ChR 5 0; mk_desc (DEndpoint 2) ChG 3 0; mk_desc (DEndpoint 1) ChG 5 0; mk_desc (DEndpoint 3) ChG 3 0; mk_desc (DEndpoint 1) ChB 5 0;
   mk_desc (DEndpoint 2) ChB 3 0; mk_desc (DEndpoint 2) ChR 5 0; mk_desc (DEndpoint 3) ChR 5 0; mk_desc DPartition ChNone 4 0; mk_desc DEnd ChNone 0 0]
 ].

(** ** BC7 *)

Record Mode : Type := mk_mode {
  mo_IDX : Z;
  mo_NS : Z;
  mo_PB : Z;
  mo_RB : Z;
  mo_ISB : Z;
  mo_CB : Z;
  mo_AB : Z;
  mo_EPB : Z;
  mo_SPB : Z;
  mo_IB : Z;
  mo_IBC : Z;
  mo_IB2 : Z }.

Definition Modes : list Mode :=
  [mk_mode 0 3 4 0 0 4 0 1 0 3 45 0;
   mk_mode 1 2 6 0 0 6 0 0 1 3 46 0;
   mk_mode 2 3 6 0 0 5 0 0 0 2 29 0;
   mk_mode 3 2 6 0 0 7 0 1 0 2 30 0;
   mk_mode 4 1 0 2 1 5 6 0 0 2 31 3;
   mk_mode 5 1 0 2 0 7 8 0 0 2 31 2;
   mk_mode 6 1 0 0 0 7 7 1 0 4 63 0;
   mk_mode 7 2 6 0 0 5 5 1 0 2 30 0;
   mk_mode (-1) 0 0 0 0 0 0 0 0 0 0 0].

Definition PartitionTable2 : list (list Z) :=
  [[0; 0; 1; 1; 0; 0; 1; 1; 0; 0; 1; 1; 0; 0; 1; 1];
   [0; 0; 0; 1; 0; 0; 0; 1; 0; 0; 0; 1; 0; 0; 0; 1];
   [0; 1; 1; 1; 0; 1; 1; 1; 0; 1; 1; 1; 0; 1; 1; 1];
   [0; 0; 0; 1; 0; 0; 1; 1; 0; 0; 1; 1; 0; 1; 1; 1];
   [0; 0; 0; 0; 0; 0; 0; 1; 0; 0; 0; 1; 0; 0; 1; 1];
   [0; 0; 1; 1; 0; 1; 1; 1; 0; 1; 1; 1; 1; 1; 1; 1];
   [0; 0; 0; 1; 0; 0; 1; 1; 0; 1; 1; 1; 1; 1; 1; 1];
   [0; 0; 0; 0; 0; 0; 0; 1; 0; 0; 1; 1; 0; 1; 1; 1];
   [0; 0; 0; 0; 0; 0; 0; 0; 0; 0; 0; 1; 0; 0; 1; 1];
   [0; 0; 1; 1; 0; 1; 1; 1; 1; 1; 1; 1; 1; 1; 1; 1];
   [0; 0; 0; 0; 0; 0; 0; 1; 0; 1; 1; 1; 1; 1; 1; 1];
   [0; 0; 0; 0; 0; 0; 0; 0; 0; 0; 0; 1; 0; 1; 1; 1];
   [0; 0; 0; 1; 0; 1; 1; 1; 1; 1; 1; 1; 1; 1; 1; 1];
   [0; 0; 0; 0; 0; 0; 0; 0; 1; 1; 1; 1; 1; 1; 1; 1];
   [0; 0; 0; 0; 1; 1; 1; 1; 1; 1; 1; 1; 1; 1; 1; 1];
   [0; 0; 0; 0; 0; 0; 0; 0; 0; 0; 0; 0; 1; 1; 1; 1];
   [0; 0; 0; 0; 1; 0; 0; 0; 1; 1; 1; 0; 1; 1; 1; 1];
   [0; 1; 1; 1; 0; 0; 0; 1; 0; 0; 0; 0; 0; 0; 0; 0];
   [0; 0; 0; 0; 0; 0; 0; 0; 1; 0; 0; 0; 1; 1; 1; 0];
   [0; 1; 1; 1; 0; 0; 1; 1; 0; 0; 0; 1; 0; 0; 0; 0];
   [0; 0; 1; 1; 0; 0; 0; 1; 0; 0; 0; 0; 0; 0; 0; 0];
   [0; 0; 0; 0; 1; 0; 0; 0; 1; 1; 0; 0; 1; 1; 1; 0];
   [0; 0; 0; 0; 0; 0; 0; 0; 1; 0; 0; 0; 1; 1; 0; 0];
   [0; 1; 1; 1; 0; 0; 1; 1; 0; 0; 1; 1; 0; 0; 0; 1];
   [0; 0; 1; 1; 0; 0; 0; 1; 0; 0; 0; 1; 0; 0; 0; 0];
   [0; 0; 0; 0; 1; 0; 0; 0; 1; 0; 0; 0; 1; 1; 0; 0];
   [0; 1; 1; 0; 0; 1; 1; 0; 0; 1; 1; 0; 0; 1; 1; 0];
   [0; 0; 1; 1; 0; 1; 1; 0; 0; 1; 1; 0; 1; 1; 0; 0];
   [0; 0; 0; 1; 0; 1; 1; 1; 1; 1; 1; 0; 1; 0; 0; 0];
   [0; 0; 0; 0; 1; 1; 1; 1; 1; 1; 1; 1; 0; 0; 0; 0];
   [0; 1; 1; 1; 0; 0; 0; 1; 1; 0; 0; 0; 1; 1; 1; 0];
   [0; 0; 1; 1; 1; 0; 0; 1; 1; 0; 0; 1; 1; 1; 0; 0];
   [0; 1; 0; 1; 0; 1; 0; 1; 0; 1; 0; 1; 0; 1; 0; 1];
   [0; 0; 0; 0; 1; 1; 1; 1; 0; 0; 0; 0; 1; 1; 1; 1];
   [0; 1; 0; 1; 1; 0; 1; 0; 0; 1; 0; 1; 1; 0; 1; 0];
   [0; 0; 1; 1; 0; 0; 1; 1; 1; 1; 0; 0; 1; 1; 0; 0];
   [0; 0; 1; 1; 1; 1; 0; 0; 0; 0; 1; 1; 1; 1; 0; 0];
   [0; 1; 0; 1; 0; 1; 0; 1; 1; 0; 1; 0; 1; 0; 1; 0];
   [0; 1; 1; 0; 1; 0; 0; 1; 0; 1; 1; 0; 1; 0; 0; 1];
   [0; 1; 0; 1; 1; 0; 1; 0; 1; 0; 1; 0; 0; 1; 0; 1];
   [0; 1; 1; 1; 0; 0; 1; 1; 1; 1; 0; 0; 1; 1; 1; 0];
   [0; 0; 0; 1; 0; 0; 1; 1; 1; 1; 0; 0; 1; 0; 0; 0];
   [0; 0; 1; 1; 0; 0; 1; 0; 0; 1; 0; 0; 1; 1; 0; 0];
   [0; 0; 1; 1; 1; 0; 1; 1; 1; 1; 0; 1; 1; 1; 0; 0];
   [0; 1; 1; 0; 1; 0; 0; 1; 1; 0; 0; 1; 0; 1; 1; 0];
   [0; 0; 1; 1; 1; 1; 0; 0; 1; 1; 0; 0; 0; 0; 1; 1];
   [0; 1; 1; 0; 0; 1; 1; 0; 1; 0; 0; 1; 1; 0; 0; 1];
   [0; 0; 0; 0; 0; 1; 1; 0; 0; 1; 1; 0; 0; 0; 0; 0];
   [0; 1; 0; 0; 1; 1; 1; 0; 0; 1; 0; 0; 0; 0; 0; 0];
   [0; 0; 1; 0; 0; 1; 1; 1; 0; 0; 1; 0; 0; 0; 0; 0];
   [0; 0; 0; 0; 0; 0; 1; 0; 0; 1; 1; 1; 0; 0; 1; 0];
   [0; 0; 0; 0; 0; 1; 0; 0; 1; 1; 1; 0; 0; 1; 0; 0];
   [0; 1; 1; 0; 1; 1; 0; 0; 1; 0; 0; 1; 0; 0; 1; 1];
   [0; 0; 1; 1; 0; 1; 1; 0; 1; 1; 0; 0; 1; 0; 0; 1];
   [0; 1; 1; 0; 0; 0; 1; 1; 1; 0; 0; 1; 1; 1; 0; 0];
   [0; 0; 1; 1; 1; 0; 0; 1; 1; 1; 0; 0; 0; 1; 1; 0];
   [0; 1; 1; 0; 1; 1; 0; 0; 1; 1; 0; 0; 1; 0; 0; 1];
   [0; 1; 1; 0; 0; 0; 1; 1; 0; 0; 1; 1; 1; 0; 0; 1];
   [0; 1; 1; 1; 1; 1; 1; 0; 1; 0; 0; 0; 0; 0; 0; 1];
   [0; 0; 0; 1; 1; 0; 0; 0; 1; 1; 1; 0; 0; 1; 1; 1];
   [0; 0; 0; 0; 1; 1; 1; 1; 0; 0; 1; 1; 0; 0; 1; 1];
   [0; 0; 1; 1; 0; 0; 1; 1; 1; 1; 1; 1; 0; 0; 0; 0];
   [0; 0; 1; 0; 0; 0; 1; 0; 1; 1; 1; 0; 1; 1; 1; 0];
   [0; 1; 0; 0; 0; 1; 0; 0; 0; 1; 1; 1; 0; 1; 1; 1]].

Definition PartitionTable3 : list (list Z) :=
  [[0; 0; 1; 1; 0; 0; 1; 1; 0; 2; 2; 1; 2; 2; 2; 2];
   [0; 0; 0; 1; 0; 0; 1; 1; 2; 2; 1; 1; 2; 2; 2; 1];
   [0; 0; 0; 0; 2; 0; 0; 1; 2; 2; 1; 1; 2; 2; 1; 1];
   [0; 2; 2; 2; 0; 0; 2; 2; 0; 0; 1; 1; 0; 1; 1; 1];
   [0; 0; 0; 0; 0; 0; 0; 0; 1; 1; 2; 2; 1; 1; 2; 2];
   [0; 0; 1; 1; 0; 0; 1; 1; 0; 0; 2; 2; 0; 0; 2; 2];
   [0; 0; 2; 2; 0; 0; 2; 2; 1; 1; 1; 1; 1; 1; 1; 1];
   [0; 0; 1; 1; 0; 0; 1; 1; 2; 2; 1; 1; 2; 2; 1; 1];
   [0; 0; 0; 0; 0; 0; 0; 0; 1; 1; 1; 1; 2; 2; 2; 2];
   [0; 0; 0; 0; 1; 1; 1; 1; 1; 1; 1; 1; 2; 2; 2; 2];
   [0; 0; 0; 0; 1; 1; 1; 1; 2; 2; 2; 2; 2; 2; 2; 2];
   [0; 0; 1; 2; 0; 0; 1; 2; 0; 0; 1; 2; 0; 0; 1; 2];
   [0; 1; 1; 2; 0; 1; 1; 2; 0; 1; 1; 2; 0; 1; 1; 2];
   [0; 1; 2; 2; 0; 1; 2; 2; 0; 1; 2; 2; 0; 1; 2; 2];
   [0; 0; 1; 1; 0; 1; 1; 2; 1; 1; 2; 2; 1; 2; 2; 2];
   [0; 0; 1; 1; 2; 0; 0; 1; 2; 2; 0; 0; 2; 2; 2; 0];
   [0; 0; 0; 1; 0; 0; 1; 1; 0; 1; 1; 2; 1; 1; 2; 2];
   [0; 1; 1; 1; 0; 0; 1; 1; 2; 0; 0; 1; 2; 2; 0; 0];
   [0; 0; 0; 0; 1; 1; 2; 2; 1; 1; 2; 2; 1; 1; 2; 2];
   [0; 0; 2; 2; 0; 0; 2; 2; 0; 0; 2; 2; 1; 1; 1; 1];
   [0; 1; 1; 1; 0; 1; 1; 1; 0; 2; 2; 2; 0; 2; 2; 2];
   [0; 0; 0; 1; 0; 0; 0; 1; 2; 2; 2; 1; 2; 2; 2; 1];
   [0; 0; 0; 0; 0; 0; 1; 1; 0; 1; 2; 2; 0; 1; 2; 2];
   [0; 0; 0; 0; 1; 1; 0; 0; 2; 2; 1; 0; 2; 2; 1; 0];
   [0; 1; 2; 2; 0; 1; 2; 2; 0; 0; 1; 1; 0; 0; 0; 0];
   [0; 0; 1; 2; 0; 0; 1; 2; 1; 1; 2; 2; 2; 2; 2; 2];
   [0; 1; 1; 0; 1; 2; 2; 1; 1; 2; 2; 1; 0; 1; 1; 0];
   [0; 0; 0; 0; 0; 1; 1; 0; 1; 2; 2; 1; 1; 2; 2; 1];
   [0; 0; 2; 2; 1; 1; 0; 2; 1; 1; 0; 2; 0; 0; 2; 2];
   [0; 1; 1; 0; 0; 1; 1; 0; 2; 0; 0; 2; 2; 2; 2; 2];
   [0; 0; 1; 1; 0; 1; 2; 2; 0; 1; 2; 2; 0; 0; 1; 1];
   [0; 0; 0; 0; 2; 0; 0; 0; 2; 2; 1; 1; 2; 2; 2; 1];
   [0; 0; 0; 0; 0; 0; 0; 2; 1; 1; 2; 2; 1; 2; 2; 2];
   [0; 2; 2; 2; 0; 0; 2; 2; 0; 0; 1; 2; 0; 0; 1; 1];
   [0; 0; 1; 1; 0; 0; 1; 2; 0; 0; 2; 2; 0; 2; 2; 2];
   [0; 1; 2; 0; 0; 1; 2; 0; 0; 1; 2; 0; 0; 1; 2; 0];
   [0; 0; 0; 0; 1; 1; 1; 1; 2; 2; 2; 2; 0; 0; 0; 0];
   [0; 1; 2; 0; 1; 2; 0; 1; 2; 0; 1; 2; 0; 1; 2; 0];
   [0; 1; 2; 0; 2; 0; 1; 2; 1; 2; 0; 1; 0; 1; 2; 0];
   [0; 0; 1; 1; 2; 2; 0; 0; 1; 1; 2; 2; 0; 0; 1; 1];
   [0; 0; 1; 1; 1; 1; 2; 2; 2; 2; 0; 0; 0; 0; 1; 1];
   [0; 1; 0; 1; 0; 1; 0; 1; 2; 2; 2; 2; 2; 2; 2; 2];
   [0; 0; 0; 0; 0; 0; 0; 0; 2; 1; 2; 1; 2; 1; 2; 1];
   [0; 0; 2; 2; 1; 1; 2; 2; 0; 0; 2; 2; 1; 1; 2; 2];
   [0; 0; 2; 2; 0; 0; 1; 1; 0; 0; 2; 2; 0; 0; 1; 1];
   [0; 2; 2; 0; 1; 2; 2; 1; 0; 2; 2; 0; 1; 2; 2; 1];
   [0; 1; 0; 1; 2; 2; 2; 2; 2; 2; 2; 2; 0; 1; 0; 1];
   [0; 0; 0; 0; 2; 1; 2; 1; 2; 1; 2; 1; 2; 1; 2; 1];
   [0; 1; 0; 1; 0; 1; 0; 1; 0; 1; 0; 1; 2; 2; 2; 2];
   [0; 2; 2; 2; 0; 1; 1; 1; 0; 2; 2; 2; 0; 1; 1; 1];
   [0; 0; 0; 2; 1; 1; 1; 2; 0; 0; 0; 2; 1; 1; 1; 2];
   [0; 0; 0; 0; 2; 1; 1; 2; 2; 1; 1; 2; 2; 1; 1; 2];
   [0; 2; 2; 2; 0; 1; 1; 1; 0; 1; 1; 1; 0; 2; 2; 2];
   [0; 0; 0; 2; 1; 1; 1; 2; 1; 1; 1; 2; 0; 0; 0; 2];
   [0; 1; 1; 0; 0; 1; 1; 0; 0; 1; 1; 0; 2; 2; 2; 2];
   [0; 0; 0; 0; 0; 0; 0; 0; 2; 1; 1; 2; 2; 1; 1; 2];
   [0; 1; 1; 0; 0; 1; 1; 0; 2; 2; 2; 2; 2; 2; 2; 2];
   [0; 0; 2; 2; 0; 0; 1; 1; 0; 0; 1; 1; 0; 0; 2; 2];
   [0; 0; 2; 2; 1; 1; 2; 2; 1; 1; 2; 2; 0; 0; 2; 2];
   [0; 0; 0; 0; 0; 0; 0; 0; 0; 0; 0; 0; 2; 1; 1; 2];
   [0; 0; 0; 2; 0; 0; 0; 1; 0; 0; 0; 2; 0; 0; 0; 1];
   [0; 2; 2; 2; 1; 2; 2; 2; 0; 2; 2; 2; 1; 2; 2; 2];
   [0; 1; 0; 1; 2; 2; 2; 2; 2; 2; 2; 2; 2; 2; 2; 2];
   [0; 1; 1; 1; 2; 0; 1; 1; 2; 2; 0; 1; 2; 2; 2; 0]].

Definition AnchorTable2 : list Z :=
  [15; 15; 15; 15; 15; 15; 15; 15; 15; 15; 15; 15; 15; 15; 15; 15;
   15; 2; 8; 2; 2; 8; 8; 15; 2; 8; 2; 2; 8; 8; 2; 2;
   15; 15; 6; 8; 2; 8; 15; 15; 2; 8; 2; 2; 2; 15; 15; 6;
   6; 2; 6; 8; 15; 15; 2; 2; 15; 15; 15; 15; 15; 2; 2; 15].

Definition AnchorTable3a : list Z :=
  [3; 3; 15; 15; 8; 3; 15; 15; 8; 8; 6; 6; 6; 5; 3; 3;
   3; 3; 8; 15; 3; 3; 6; 10; 5; 8; 8; 6; 8; 5; 15; 15;
   8; 15; 3; 5; 6; 10; 8; 15; 15; 3; 15; 5; 15; 15; 15; 15;
   3; 15; 5; 5; 5; 8; 5; 10; 5; 10; 8; 13; 15; 12; 3; 3].

Definition AnchorTable3b : list Z :=
  [15; 8; 8; 3; 15; 15; 3; 8; 15; 15; 15; 15; 15; 15; 15; 8;
   15; 8; 15; 3; 15; 8; 15; 8; 3; 15; 6; 10; 15; 15; 10; 8;
   15; 3; 15; 10; 10; 8; 9; 10; 6; 15; 8; 15; 3; 6; 6; 8;
   15; 3; 15; 15; 15; 15; 15; 15; 15; 15; 15; 15; 3; 15; 15; 8].

(** Lookups in the tables. *)
Definition table_at (l : list Z) (i : Z) : Z := default 0 (l !! Z.to_nat i).
Definition table2_at (l : list (list Z)) (i j : Z) : Z := table_at (default [] (l !! Z.to_nat i)) j.
