(* ===== verification/Bc.v ===== *)
(** * Decoders of the block-compressed textures BC1 to BC5 ([gpu/texture/bc_decoder.cpp])

    An image of [width] by [height] pixels is stored as rows of blocks of four by four texels.  The
    decoders walk over the blocks and write the pixels of a block that lie in the image to a linear
    image.  The source is a function from offsets to bytes, host memory is the one of
    [FlatMemory.v].  The coordinates and offsets are [size_t] in the code and numbers here: they stay
    below the size of an image in memory.

    The section [image] shows once for all formats what the loops over blocks and texels come to: a
    decoder whose blocks write the texels of [value] makes every pixel of the image the texel of its
    block, and changes nothing outside of the image. *)

From S2P Require Import Prelude AddressSpace FlatMemory.

(** A [for] loop that ends at the first value that fails its condition. *)
Fixpoint for_while {S : Type} (cond : Z -> bool) (body : Z -> S -> S) (l : list Z) (s : S) : S :=
  match l with
  | [] => s
  | i :: l => if cond i then for_while cond body l (body i s) else s
  end.

Definition BlockWidth : Z := 4.
Definition BlockHeight : Z := 4.

(** A little-endian number of [n] bytes at [p]. *)
Fixpoint load (n : nat) (src : Z -> Z) (p : Z) : Z :=
  match n with O => 0 | S n => src p + 256 * load n src (p + 1) end.

(** The bytes of a 32-bit number. *)
Definition word_bytes (v : Z) : list Z := map (fun i => bits (8 * i) 8 v) (seqZ 0 4).

(** The loops of a block over its texels: those in the image get the bytes of [texel] at [channel]
    of their pixel. *)
Definition each_texel (dst x y dstW dstH dstPitch dstBpp channel : Z) (texel : Z -> Z -> list Z) (ram : host_ram) : host_ram :=
  for_while (fun j => y + j <? dstH) (fun j ram =>
    for_while (fun i => x + i <? dstW) (fun i ram =>
      write_list (dst + channel + i * dstBpp + j * dstPitch) (texel i j) ram) (seqZ 0 BlockWidth) ram) (seqZ 0 BlockHeight) ram.

(** ** Colours *)

Record Color : Type := mk_color { co_0 : Z; co_1 : Z; co_2 : Z; co_3 : Z }.

(** [c[3] = 0xFF000000] as an [int]. *)
Definition Color_new : Color := mk_color 0 0 0 (i32 0xFF000000).

Definition extract565 (c565 : Z) (c : Color) : Color :=
  mk_color (Z.lor (Z.shiftl (Z.land c565 0x1F) 3) (Z.shiftr (Z.land c565 0x1C) 2))
           (Z.lor (Z.shiftr (Z.land c565 0x7E0) 3) (Z.shiftr (Z.land c565 0x600) 9))
           (Z.lor (Z.shiftr (Z.land c565 0xF800) 8) (Z.shiftr (Z.land c565 0xE000) 13))
           (co_3 c).

Definition pack8888 (c : Color) : Z :=
  u32 (Z.lor (Z.lor (Z.lor (Z.shiftl (Z.land (co_0 c) 0xFF) 16) (Z.shiftl (Z.land (co_1 c) 0xFF) 8)) (Z.land (co_2 c) 0xFF)) (co_3 c)).

Definition clearAlpha (c : Color) : Color := mk_color (co_0 c) (co_1 c) (co_2 c) 0.

Definition Color_map (f : Z -> Z) (c : Color) : Color := mk_color (f (co_0 c)) (f (co_1 c)) (f (co_2 c)) (f (co_3 c)).
Definition Color_mul (c : Color) (factor : Z) : Color := Color_map (fun v => v * factor) c.
(** The quotient of [int]s is truncated. *)
Definition Color_div (c : Color) (factor : Z) : Color := Color_map (fun v => Z.quot v factor) c.
Definition Color_shr (c : Color) (shift : Z) : Color := Color_map (fun v => Z.shiftr v shift) c.
Definition Color_add (c d : Color) : Color := mk_color (co_0 c + co_0 d) (co_1 c + co_1 d) (co_2 c + co_2 d) (co_3 c + co_3 d).

Record BC_color : Type := mk_bc_color { bc_c0 : Z; bc_c1 : Z; bc_idx : Z }.

Definition load_color (src : Z -> Z) (p : Z) : BC_color := mk_bc_color (load 2 src p) (load 2 src (p + 2)) (load 4 src (p + 4)).

Definition color_getIdx (b : BC_color) (i : Z) : Z :=
  let offset := Z.shiftl i 1 in
  Z.shiftr (Z.land (bc_idx b) (u32 (Z.shiftl 3 offset))) offset.

(** The four colours of a block. *)
Definition color_palette (hasAlphaChannel hasSeparateAlpha : bool) (b : BC_color) : list Color :=
  let c0 := extract565 (bc_c0 b) Color_new in
  let c1 := extract565 (bc_c1 b) Color_new in
  if hasSeparateAlpha || (bc_c1 b <? bc_c0 b) then
    [c0; c1; Color_div (Color_add (Color_mul c0 2) c1) 3; Color_div (Color_add (Color_mul c1 2) c0) 3]
  else
    [c0; c1; Color_shr (Color_add c0 c1) 1; if hasAlphaChannel then clearAlpha Color_new else Color_new].

Definition color_decode (b : BC_color) (dst x y dstW dstH dstPitch dstBpp : Z) (hasAlphaChannel hasSeparateAlpha : bool) (ram : host_ram) : host_ram :=
  let c := color_palette hasAlphaChannel hasSeparateAlpha b in
  each_texel dst x y dstW dstH dstPitch dstBpp 0 (fun i j =>
    word_bytes (pack8888 (default Color_new (c !! Z.to_nat (color_getIdx b (j * BlockHeight + i)))))) ram.

(** ** Channels *)

(** The index [i] is a [size_t], so that the sums are unsigned 64-bit numbers; the quotient is
    converted to an [int]. *)
Definition channel_mix (m n i c0 c1 : Z) : Z :=
  i32 (u64 (u64 (m - i) * u64 c0 + u64 (i - 1) * u64 c1) / n).

Definition channel_palette (isSigned : bool) (data : Z) : list Z :=
  let c0 := (if isSigned then i8 else u8) (Z.land data 0xFF) in
  let c1 := (if isSigned then i8 else u8) (Z.shiftr (Z.land data 0xFF00) 8) in
  if c1 <? c0 then [c0; c1] ++ map (fun i => channel_mix 8 7 i c0 c1) (seqZ 2 6)
  else [c0; c1] ++ map (fun i => channel_mix 6 5 i c0 c1) (seqZ 2 4) ++
       [if isSigned then -128 else 0; if isSigned then 127 else 255].

Definition channel_getIdx (data i : Z) : Z :=
  let offset := i * 3 + 16 in u8 (Z.shiftr (Z.land data (u64 (Z.shiftl 7 offset))) offset).

Definition channel_decode (data dst x y dstW dstH dstPitch dstBpp channel : Z) (isSigned : bool) (ram : host_ram) : host_ram :=
  let c := channel_palette isSigned data in
  each_texel dst x y dstW dstH dstPitch dstBpp channel (fun i j =>
    [u8 (default 0 (c !! Z.to_nat (channel_getIdx data (j * BlockHeight + i))))]) ram.

(** ** Four-bit alpha *)

Definition getAlpha (data i : Z) : Z :=
  let offset := Z.shiftl i 2 in
  let alpha := Z.shiftr (Z.land data (u64 (Z.shiftl 15 offset))) offset in
  u8 (Z.lor alpha (Z.shiftl alpha 4)).

Definition alpha_decode (data dst x y dstW dstH dstPitch dstBpp : Z) (ram : host_ram) : host_ram :=
  each_texel dst x y dstW dstH dstPitch dstBpp 3 (fun i j => [getAlpha data (j * BlockHeight + i)]) ram.

(** ** Images *)

Definition R8Bpp : Z := 1.
Definition R8g8Bpp : Z := 2.
Definition R8g8b8a8Bpp : Z := 4.
Definition R16g16b16a16Bpp : Z := 8.

(** The loops over the blocks: [block] is the offset of the block in the source, which grows by
    [blockSize] per block; a row of blocks is [rowStride] bytes of the destination long. *)
Definition each_block_of (blockSize rowStride bpp width height : Z) (decode : Z -> Z -> Z -> Z -> host_ram -> host_ram)
    (dst : Z) (ram : host_ram) : host_ram :=
  snd (fold_left (fun s r =>
    fold_left (fun '(block, ram) c =>
      (block + blockSize, decode block (dst + r * (BlockHeight * rowStride) + c * (BlockWidth * bpp)) (c * BlockWidth) (r * BlockHeight) ram))
      (seqZ 0 ((width + 3) / 4)) s)
    (seqZ 0 ((height + 3) / 4)) (0, ram)).

Section decoders.
Context (src : Z -> Z).

Definition DecodeBc1 (dst width height : Z) (hasAlphaChannel : bool) (ram : host_ram) : host_ram :=
  let pitch := R8g8b8a8Bpp * width in
  each_block_of 8 pitch R8g8b8a8Bpp width height (fun block dstRow x y ram =>
    color_decode (load_color src block) dstRow x y width height pitch R8g8b8a8Bpp hasAlphaChannel false ram) dst ram.

(** The rows of the destination are [width] bytes apart, not [pitch]. *)
Definition DecodeBc2 (dst width height : Z) (ram : host_ram) : host_ram :=
  each_block_of 16 width R8g8b8a8Bpp width height (fun block dstRow x y ram =>
    let ram := color_decode (load_color src (block + 8)) dstRow x y width height width R8g8b8a8Bpp false true ram in
    alpha_decode (load 8 src block) dstRow x y width height width R8g8b8a8Bpp ram) dst ram.

Definition DecodeBc3 (dst width height : Z) (ram : host_ram) : host_ram :=
  let pitch := R8g8b8a8Bpp * width in
  each_block_of 16 pitch R8g8b8a8Bpp width height (fun block dstRow x y ram =>
    let ram := color_decode (load_color src (block + 8)) dstRow x y width height pitch R8g8b8a8Bpp false true ram in
    channel_decode (load 8 src block) dstRow x y width height pitch R8g8b8a8Bpp 3 false ram) dst ram.

Definition DecodeBc4 (dst width height : Z) (isSigned : bool) (ram : host_ram) : host_ram :=
  let pitch := R8Bpp * width in
  each_block_of 8 pitch R8Bpp width height (fun block dstRow x y ram =>
    channel_decode (load 8 src block) dstRow x y width height pitch R8Bpp 0 isSigned ram) dst ram.

Definition DecodeBc5 (dst width height : Z) (isSigned : bool) (ram : host_ram) : host_ram :=
  let pitch := R8g8Bpp * width in
  each_block_of 16 pitch R8g8Bpp width height (fun block dstRow x y ram =>
    let ram := channel_decode (load 8 src block) dstRow x y width height pitch R8g8Bpp 0 isSigned ram in
    channel_decode (load 8 src (block + 8)) dstRow x y width height pitch R8g8Bpp 1 isSigned ram) dst ram.

End decoders.

(** ** What the loops come to *)

(** A loop whose condition is a bound that the values do not pass again. *)
Lemma for_while_bound {S : Type} (body : Z -> S -> S) n lim s m : 0 <= m <= n ->
  for_while (fun i => i <? lim) body (seqZ m (n - m)) s = fold_left (fun s i => body i s) (seqZ m (Z.min n lim - m)) s.
Proof.
  intros Hm. remember (Z.to_nat (n - m)) as k eqn:Ek. revert m s Hm Ek.
  induction k as [|k IH]; intros m s Hm Ek.
  - rewrite !seqZ_nil by lia. done.
  - rewrite seqZ_cons by lia. simpl. replace (Z.pred (n - m)) with (n - Z.succ m) by lia. destruct (Z.ltb_spec m lim).
    + rewrite IH by lia. rewrite (seqZ_cons m (Z.min n lim - m)) by lia. simpl. do 2 f_equal. lia.
    + rewrite seqZ_nil by lia. done.
Qed.

Lemma for_while_ext {S : Type} (c c' : Z -> bool) (body body' : Z -> S -> S) l s :
  (forall i, c i = c' i) -> (forall i s, body i s = body' i s) -> for_while c body l s = for_while c' body' l s.
Proof. intros Hc Hb. revert s. induction l as [|i l IH]; intros s; simpl; [done|]. rewrite Hc, Hb, IH. done. Qed.

Lemma fold_left_ext {A B : Type} (f g : A -> B -> A) l a : (forall a b, f a b = g a b) -> fold_left f l a = fold_left g l a.
Proof. intros H. revert a. induction l as [|b l IH]; intros a; simpl; [done|]. by rewrite H, IH. Qed.

(** A sequence of steps of which the step [o] sets the address [a], if it is set at all. *)
Lemma fold_owned {A : Type} `{EqDecision A} (step : host_ram -> A -> host_ram) (hit : Prop) `{Decision hit} (o : A) (v : Z) l ram a :
  (forall b ram, b ∈ l -> step ram b a = if decide (hit /\ o = b) then v else ram a) ->
  fold_left step l ram a = if decide (hit /\ o ∈ l) then v else ram a.
Proof.
  intros Hs. revert ram. induction l as [|b l IH]; intros ram; cbn [fold_left].
  - rewrite decide_False; [done|]. set_solver.
  - rewrite IH by (intros; apply Hs; set_solver). rewrite (Hs b) by set_solver.
    repeat case_decide; try done; set_solver.
Qed.

(** The blocks of a row of the image. *)
Definition columns (width : Z) : Z := (width + 3) / 4.

(** A memory [ram'] that holds an image at [dst] and is otherwise [ram]: [texel b i j] are the bytes
    of the texel [i], [j] of block [b]. *)
Definition holds_image (dst bpp width height : Z) (texel : Z -> Z -> Z -> list Z) (ram ram' : host_ram) : Prop :=
  (forall px py k, 0 <= px < width -> 0 <= py < height -> 0 <= k < bpp ->
     ram' (dst + bpp * (py * width + px) + k) = default 0 (texel (py / 4 * columns width + px / 4) (px mod 4) (py mod 4) !! Z.to_nat k)) /\
  (forall a, a < dst \/ dst + bpp * (width * height) <= a -> ram' a = ram a).

Lemma row_of_blocks (blockSize : Z) (decode : Z -> Z -> host_ram -> host_ram) n b ram : 0 <= n ->
  fold_left (fun '(block, ram) c => (block + blockSize, decode block c ram)) (seqZ 0 n) (b, ram) =
    (b + blockSize * n, fold_left (fun ram c => decode (b + blockSize * c) c ram) (seqZ 0 n) ram).
Proof.
  intros Hn. rewrite <- (Z2Nat.id n) by done. generalize (Z.to_nat n) as m. clear. intros m. induction m as [|m IH].
  - simpl. by rewrite Z.mul_0_r, Z.add_0_r.
  - rewrite seqZ_S, !fold_left_app, IH. simpl. f_equal. lia.
Qed.

(** The loops over the blocks with the offset of each block in the source. *)
Lemma each_block_of_fold blockSize rowStride bpp width height decode dst ram : 0 <= width -> 0 <= height ->
  each_block_of blockSize rowStride bpp width height decode dst ram =
    fold_left (fun ram r => fold_left (fun ram c =>
      decode (blockSize * (r * columns width + c)) (dst + r * (4 * rowStride) + c * (4 * bpp)) (c * 4) (r * 4) ram)
      (seqZ 0 (columns width)) ram) (seqZ 0 ((height + 3) / 4)) ram.
Proof.
  intros Hw Hh. unfold each_block_of, BlockHeight, BlockWidth. fold (columns width).
  assert (Hc : 0 <= columns width) by (apply Z.div_pos; lia). assert (Hr : 0 <= (height + 3) / 4) by (apply Z.div_pos; lia).
  revert Hr. generalize ((height + 3) / 4) as rows. intros rows Hr. rewrite <- (Z2Nat.id rows) by done.
  generalize (Z.to_nat rows) as m. intros m.
  match goal with |- snd ?l = ?r => assert (E : l = (blockSize * (Z.of_nat m * columns width), r)); [|by rewrite E] end.
  induction m as [|m IH]; [simpl; by rewrite Z.mul_0_r|].
  rewrite seqZ_S, !fold_left_app, IH. cbn [fold_left].
  rewrite (row_of_blocks blockSize (fun block c => decode block _ _ _)) by done. f_equal; [lia|].
  apply fold_left_ext. intros r c. f_equal. lia.
Qed.

Section image.
Context (dst bpp width height : Z) (Hbpp : 0 < bpp) (Hwidth : 0 < width).
Let pitch := bpp * width.

(** The pixel of an address and the offset of the address in it. *)
Definition pixel_x (a : Z) : Z := ((a - dst) mod pitch) / bpp.
Definition pixel_y (a : Z) : Z := (a - dst) / pitch.
Definition pixel_k (a : Z) : Z := (a - dst) mod bpp.

Lemma pixel_address a : a = dst + pixel_y a * pitch + pixel_x a * bpp + pixel_k a /\ 0 <= pixel_x a < width /\ 0 <= pixel_k a < bpp.
Proof.
  unfold pixel_x, pixel_y, pixel_k. assert (0 < pitch) by (unfold pitch in *; nia).
  pose proof (Z.div_mod (a - dst) pitch ltac:(lia)). pose proof (Z.mod_pos_bound (a - dst) pitch ltac:(lia)).
  pose proof (Z.div_mod ((a - dst) mod pitch) bpp ltac:(lia)) as E. pose proof (Z.mod_pos_bound (a - dst) bpp ltac:(lia)).
  assert (Em : ((a - dst) mod pitch) mod bpp = (a - dst) mod bpp).
  { apply Z.mod_mod_divide. exists width. unfold pitch. lia. }
  rewrite Em in E. repeat split; try lia; [apply Z.div_pos; lia|apply Z.div_lt_upper_bound; unfold pitch in *; lia].
Qed.

Lemma pixel_unique a x y k : 0 <= x < width -> 0 <= k < bpp -> a = dst + y * pitch + x * bpp + k ->
  pixel_x a = x /\ pixel_y a = y /\ pixel_k a = k.
Proof.
  intros Hx Hk E. destruct (pixel_address a) as (E' & Hx' & Hk').
  assert (Hp : 0 <= x * bpp + k < pitch) by (unfold pitch; nia).
  assert (Hy : pixel_y a = y) by (unfold pixel_y; symmetry; apply (Z.div_unique _ _ _ (x * bpp + k)); lia).
  rewrite Hy in E'. assert (pixel_x a * bpp + pixel_k a = x * bpp + k) by lia.
  assert (pixel_x a = x); [|lia].
  rewrite (Z.div_unique (x * bpp + k) bpp x k), (Z.div_unique (x * bpp + k) bpp (pixel_x a) (pixel_k a)); lia.
Qed.

Lemma write_pixel x y channel l ram a : 0 <= x < width -> 0 <= channel -> channel + Z.of_nat (length l) <= bpp ->
  write_list (dst + channel + x * bpp + y * pitch) l ram a =
    if decide (pixel_x a = x /\ pixel_y a = y /\ channel <= pixel_k a < channel + Z.of_nat (length l))
    then default 0 (l !! Z.to_nat (pixel_k a - channel)) else ram a.
Proof.
  intros Hx Hc Hl. unfold write_list. destruct (pixel_address a) as (E & Hx' & Hk). case_decide as Hd.
  - destruct Hd as (<- & <- & Hd). destruct (Z.leb_spec (dst + channel + pixel_x a * bpp + pixel_y a * pitch) a); [|lia].
    destruct (Z.ltb_spec a (dst + channel + pixel_x a * bpp + pixel_y a * pitch + Z.of_nat (length l))); [|lia].
    simpl. do 3 f_equal. lia.
  - destruct ((_ <=? _) && _) eqn:Eb; [|done]. exfalso. apply Hd. apply andb_prop in Eb as [?%Z.leb_le ?%Z.ltb_lt].
    destruct (pixel_unique a x y (a - (dst + x * bpp + y * pitch))) as (-> & -> & ->); lia.
Qed.

(** What the texel loops of a block do: [x] and [y] are the position of the block in the image. *)
Lemma each_texel_spec x y channel (n : Z) texel ram a :
  0 <= x -> 0 <= y -> 0 <= channel -> channel + n <= bpp -> (forall i j, Z.of_nat (length (texel i j)) = n) ->
  each_texel (dst + x * bpp + y * pitch) x y width height pitch bpp channel texel ram a =
    if decide (x <= pixel_x a < x + 4 /\ y <= pixel_y a < y + 4 /\ pixel_y a < height /\ channel <= pixel_k a < channel + n)
    then default 0 (texel (pixel_x a - x) (pixel_y a - y) !! Z.to_nat (pixel_k a - channel)) else ram a.
Proof.
  intros Hx Hy Hc Hn Ht. destruct (pixel_address a) as (_ & Hxa & _). unfold each_texel.
  rewrite (for_while_ext _ (fun j => j <? height - y) _ (fun j ram =>
    fold_left (fun ram i => write_list (dst + channel + (x + i) * bpp + (y + j) * pitch) (texel i j) ram) (seqZ 0 (Z.min 4 (width - x))) ram)).
  2:{ intros j. repeat zcase; lia. }
  2:{ intros j r. rewrite (for_while_ext _ (fun i => i <? width - x) _ (fun i ram =>
        write_list (dst + channel + (x + i) * bpp + (y + j) * pitch) (texel i j) ram)).
      - rewrite (for_while_bound _ 4 _ _ 0) by lia. by rewrite Z.sub_0_r.
      - intros i. repeat zcase; lia.
      - intros i r'. f_equal. lia. }
  rewrite (for_while_bound _ 4 _ _ 0) by lia. rewrite Z.sub_0_r.
  set (v := default 0 (texel (pixel_x a - x) (pixel_y a - y) !! Z.to_nat (pixel_k a - channel))).
  rewrite (fold_owned _ (x <= pixel_x a < x + 4 /\ channel <= pixel_k a < channel + n) (pixel_y a - y) v).
  - repeat case_decide; try done; rewrite ?elem_of_seqZ in *; lia.
  - intros j r Hj. apply elem_of_seqZ in Hj.
    rewrite (fold_owned _ (pixel_y a = y + j /\ channel <= pixel_k a < channel + n) (pixel_x a - x) v).
    + repeat case_decide; try done; rewrite ?elem_of_seqZ in *; lia.
    + intros i r' Hi. apply elem_of_seqZ in Hi. rewrite write_pixel by (rewrite ?Ht; lia). rewrite Ht.
      unfold v. repeat case_decide; try lia; try done. do 3 f_equal; [f_equal|]; lia.
Qed.

(** Blocks that write their texels make the loops over the blocks write the image. *)
Lemma image_written blockSize decode texel ram : 0 <= height ->
  (forall b x y ram a, 0 <= x -> 0 <= y ->
     decode (blockSize * b) (dst + x * bpp + y * pitch) x y ram a =
       if decide (x <= pixel_x a < x + 4 /\ y <= pixel_y a < y + 4 /\ pixel_y a < height)
       then default 0 (texel b (pixel_x a - x) (pixel_y a - y) !! Z.to_nat (pixel_k a)) else ram a) ->
  holds_image dst bpp width height texel ram (each_block_of blockSize pitch bpp width height decode dst ram).
Proof.
  intros Hh Hd. rewrite each_block_of_fold by lia.
  match goal with |- holds_image _ _ _ _ _ _ ?f => set (ram' := f) end.
  assert (E : forall a, ram' a = if decide (0 <= pixel_y a < height)
    then default 0 (texel (pixel_y a / 4 * columns width + pixel_x a / 4) (pixel_x a mod 4) (pixel_y a mod 4) !! Z.to_nat (pixel_k a)) else ram a).
  { intros a. set (v := default 0 _). destruct (pixel_address a) as (_ & Hx & _). unfold ram'.
    pose proof (Z.div_mod (pixel_x a) 4 ltac:(lia)). pose proof (Z.mod_pos_bound (pixel_x a) 4 ltac:(lia)).
    pose proof (Z.div_mod (pixel_y a) 4 ltac:(lia)). pose proof (Z.mod_pos_bound (pixel_y a) 4 ltac:(lia)).
    assert (Hcol : pixel_x a / 4 < columns width) by (unfold columns; apply Z.div_lt_upper_bound; [lia|]; pose proof (Z.div_mod (width + 3) 4 ltac:(lia)); pose proof (Z.mod_pos_bound (width + 3) 4 ltac:(lia)); lia).
    rewrite (fold_owned _ (pixel_y a < height) (pixel_y a / 4) v).
    - pose proof (Z.div_mod (height + 3) 4 ltac:(lia)). pose proof (Z.mod_pos_bound (height + 3) 4 ltac:(lia)).
      repeat case_decide; try done; rewrite ?elem_of_seqZ in *; lia.
    - intros r m Hr. apply elem_of_seqZ in Hr.
      rewrite (fold_owned _ (pixel_y a < height /\ pixel_y a / 4 = r) (pixel_x a / 4) v).
      + repeat case_decide; try done; rewrite ?elem_of_seqZ in *; lia.
      + intros c m' Hc. apply elem_of_seqZ in Hc.
        replace (dst + r * (4 * pitch) + c * (4 * bpp)) with (dst + (c * 4) * bpp + (r * 4) * pitch) by lia.
        rewrite Hd by lia. unfold v. repeat case_decide; try done; try lia.
        replace (pixel_x a / 4) with c by lia. replace (pixel_y a / 4) with r by lia.
        do 2 f_equal. f_equal; lia. }
  split.
  - intros px py k Hx Hy Hk. destruct (pixel_unique (dst + bpp * (py * width + px) + k) px py k) as (E1 & E2 & E3); [lia|lia|unfold pitch; lia|].
    rewrite E, E1, E2, E3. by rewrite decide_True by lia.
  - intros a Ha. rewrite E, decide_False; [done|]. destruct (pixel_address a) as (Ea & Hx & Hk).
    intros Hy. assert (0 <= pixel_x a * bpp + pixel_k a < pitch) by (unfold pitch; nia). assert (0 < pitch) by (unfold pitch; nia).
    assert (bpp * (width * height) = height * pitch) by (unfold pitch; lia). nia.
Qed.

End image.

(** ** The formats *)

#[local] Ltac Zify.zify_post_hook ::= Z.div_mod_to_equations.

Definition bytes (src : Z -> Z) : Prop := forall p, 0 <= src p < 256.

Lemma load_range src n p : bytes src -> 0 <= load n src p < 2 ^ (8 * Z.of_nat n).
Proof.
  intros Hs. revert p. induction n as [|n IH]; intros p; [simpl; lia|]. cbn [load].
  specialize (IH (p + 1)). specialize (Hs p). replace (8 * Z.of_nat (S n)) with (8 + 8 * Z.of_nat n) by lia.
  rewrite Z.pow_add_r by lia. lia.
Qed.

(** A texel of a BC1 block by its definition: the endpoints have five, six and five bits, which are
    repeated to fill eight; the other colours are thirds of the way, or the middle and black.  The
    bytes are red, green, blue and alpha. *)
Definition expand5 (v : Z) : Z := 8 * v + v / 4.
Definition expand6 (v : Z) : Z := 4 * v + v / 16.
Definition rgb565 (c : Z) : list Z := [expand5 (c / 2048); expand6 (c / 32 mod 64); expand5 (c mod 32)].

Definition color_texel (hasAlphaChannel hasSeparateAlpha : bool) (b : BC_color) (i j : Z) : list Z :=
  let four := hasSeparateAlpha || (bc_c1 b <? bc_c0 b) in
  let c0 := rgb565 (bc_c0 b) in
  let c1 := rgb565 (bc_c1 b) in
  match bits (2 * (4 * j + i)) 2 (bc_idx b) with
  | 0 => c0 ++ [255]
  | 1 => c1 ++ [255]
  | 2 => zip_with (fun a b => if four then (2 * a + b) / 3 else (a + b) / 2) c0 c1 ++ [255]
  | _ => if four then zip_with (fun a b => (a + 2 * b) / 3) c0 c1 ++ [255] else [0; 0; 0; if hasAlphaChannel then 0 else 255]
  end.

(** What the checks of all values of a small range give for one of them. *)
Lemma forallb_seqZ (f : Z -> bool) n x : forallb f (seqZ 0 n) = true -> 0 <= x < n -> f x = true.
Proof. intros H Hx. rewrite forallb_forall in H. apply H. apply list_elem_of_In, elem_of_seqZ. lia. Qed.

Definition extract565_ok (c : Z) : bool :=
  match extract565 c Color_new, rgb565 c with
  | mk_color b g r a, [r'; g'; b'] =>
      (r =? r') && (g =? g') && (b =? b') && (a =? -16777216) && (0 <=? r) && (r <? 256) && (0 <=? g) && (g <? 256) && (0 <=? b) && (b <? 256)
  | _, _ => false
  end.

Lemma extract565_checked : forallb (fun h => forallb (fun l => extract565_ok (256 * h + l)) (seqZ 0 256)) (seqZ 0 256) = true.
Proof. vm_compute. reflexivity. Qed.

Lemma extract565_spec c : 0 <= c < 2 ^ 16 -> exists r g b,
  extract565 c Color_new = mk_color b g r (-16777216) /\ rgb565 c = [r; g; b] /\ 0 <= r < 256 /\ 0 <= g < 256 /\ 0 <= b < 256.
Proof.
  intros Hc. assert (Hh : 0 <= c / 256 < 256) by lia. pose proof (forallb_seqZ _ _ _ extract565_checked Hh) as H.
  apply (forallb_seqZ _ _ (c mod 256)) in H; [|lia]. cbv beta in H. rewrite <- Z.div_mod in H by lia. unfold extract565_ok in H.
  destruct (extract565 c Color_new) as [b g r a]. destruct (rgb565 c) as [|r' [|g' [|b' [|]]]]; try done.
  rewrite !andb_true_iff, !Z.eqb_eq, !Z.leb_le, !Z.ltb_lt in H. destruct_and! H. subst. by exists r', g', b'.
Qed.

Lemma pack_bytes r g b a : 0 <= r < 256 -> 0 <= g < 256 -> 0 <= b < 256 -> a = 0 \/ a = -16777216 ->
  word_bytes (pack8888 (mk_color b g r a)) = [r; g; b; if a =? 0 then 0 else 255].
Proof.
  intros Hr Hg Hb Ha. unfold pack8888. cbn [co_0 co_1 co_2 co_3]. change 0xFF with (Z.ones 8).
  rewrite !(Z.land_ones _ 8), !Z.mod_small by lia.
  rewrite (lor_shiftl_add 16) by (rewrite ?Z.shiftl_mul_pow2; lia).
  replace (b * 2 ^ 16 + Z.shiftl g 8) with (Z.shiftl (b * 256 + g) 8) by (rewrite !Z.shiftl_mul_pow2; lia).
  rewrite lor_shiftl_add by lia. rewrite Z.lor_comm.
  change (word_bytes ?v) with [bits 0 8 v; bits 8 8 v; bits 16 8 v; bits 24 8 v].
  assert (E : Z.lor a ((b * 256 + g) * 2 ^ 8 + r) = a + ((b * 256 + g) * 2 ^ 8 + r)).
  { destruct Ha as [->| ->]; [by rewrite Z.lor_0_l|]. change (-16777216) with (Z.shiftl (-1) 24). rewrite lor_shiftl_add by lia. done. }
  rewrite E, !bits_div_mod by lia. unfold wrap. change (Z.ones 8) with 255.
  destruct Ha as [->| ->]; simpl (_ =? _); cbv iota; apply (f_equal4 (fun a b c d => [a; b; c; d])); lia.
Qed.

Lemma color_getIdx_bits b n : 0 <= n < 16 -> color_getIdx b n = bits (2 * n) 2 (bc_idx b).
Proof.
  intros Hn. unfold color_getIdx, bits. rewrite Z.shiftr_land, Z.shiftl_mul_pow2 by lia. change (2 ^ 1) with 2. rewrite (Z.mul_comm n).
  f_equal. apply Z.eqb_eq. by apply (forallb_seqZ (fun n => Z.shiftr (u32 (Z.shiftl 3 (2 * n))) (2 * n) =? Z.ones 2) 16).
Qed.

(** The bytes the code writes for a texel. *)
Lemma color_bytes hasAlphaChannel hasSeparateAlpha b i j : 0 <= bc_c0 b < 2 ^ 16 -> 0 <= bc_c1 b < 2 ^ 16 -> 0 <= i < 4 -> 0 <= j < 4 ->
  word_bytes (pack8888 (default Color_new (color_palette hasAlphaChannel hasSeparateAlpha b !! Z.to_nat (color_getIdx b (j * BlockHeight + i))))) =
    color_texel hasAlphaChannel hasSeparateAlpha b i j.
Proof.
  intros H0 H1 Hi Hj. unfold BlockHeight. rewrite color_getIdx_bits by lia. unfold color_texel, color_palette.
  replace (4 * j + i) with (j * 4 + i) by lia.
  destruct (extract565_spec (bc_c0 b) H0) as (r0 & g0 & b0 & -> & -> & ? & ? & ?).
  destruct (extract565_spec (bc_c1 b) H1) as (r1 & g1 & b1 & -> & -> & ? & ? & ?).
  pose proof (bits_range (2 * (j * 4 + i)) 2 (bc_idx b) ltac:(lia)) as Hx.
  assert (Hq : forall x y, 0 <= x < 256 -> 0 <= y < 256 -> Z.quot (x * 2 + y) 3 = (2 * x + y) / 3).
  { intros x y Hx' Hy'. rewrite Z.quot_div_nonneg by lia. f_equal. lia. }
  assert (Hh : forall x y, Z.shiftr (x + y) 1 = (x + y) / 2) by (intros; by rewrite Z.shiftr_div_pow2 by lia).
  unfold Color_div, Color_shr, Color_add, Color_mul, Color_map. cbn [co_0 co_1 co_2 co_3 zip_with app].
  change (Z.quot (-16777216 * 2 + -16777216) 3) with (-16777216). rewrite !Hq, !Hh by lia.
  change ((-16777216 + -16777216) / 2) with (-16777216).
  assert (Hx4 : bits (2 * (j * 4 + i)) 2 (bc_idx b) ∈ [0; 1; 2; 3]) by (rewrite !elem_of_cons; lia).
  rewrite !elem_of_cons, elem_of_nil in Hx4.
  destruct (hasSeparateAlpha || _), Hx4 as [E|[E|[E|[E|[]]]]]; rewrite E;
    [change (Z.to_nat _) with 0%nat|change (Z.to_nat _) with 1%nat|change (Z.to_nat _) with 2%nat|change (Z.to_nat _) with 3%nat
    |change (Z.to_nat _) with 0%nat|change (Z.to_nat _) with 1%nat|change (Z.to_nat _) with 2%nat|change (Z.to_nat _) with 3%nat]; simpl (default _ _).
  all: try (rewrite pack_bytes by lia; simpl; rewrite ?(Z.add_comm r0), ?(Z.add_comm g0), ?(Z.add_comm b0); reflexivity).
  destruct hasAlphaChannel; reflexivity.
Qed.

(** A texel of an unsigned channel block by its definition: two endpoints of eight bits, sixteen
    indices of three bits; the other values are sevenths of the way, or fifths, zero and 255. *)
Definition channel_texel (data i j : Z) : Z :=
  let c0 := data mod 256 in
  let c1 := data / 256 mod 256 in
  let n := bits (16 + 3 * (4 * j + i)) 3 data in
  if n =? 0 then c0
  else if n =? 1 then c1
  else if c1 <? c0 then ((8 - n) * c0 + (n - 1) * c1) / 7
  else if n =? 6 then 0
  else if n =? 7 then 255
  else ((6 - n) * c0 + (n - 1) * c1) / 5.

Lemma channel_getIdx_bits data n : 0 <= n < 16 -> channel_getIdx data n = bits (16 + 3 * n) 3 data.
Proof.
  intros Hn. unfold channel_getIdx. replace (n * 3 + 16) with (16 + 3 * n) by lia. rewrite Z.shiftr_land.
  replace (Z.shiftr (u64 (Z.shiftl 7 (16 + 3 * n))) (16 + 3 * n)) with (Z.ones 3).
  - fold (bits (16 + 3 * n) 3 data). pose proof (bits_range (16 + 3 * n) 3 data ltac:(lia)). apply wrap_small. lia.
  - symmetry. apply Z.eqb_eq. by apply (forallb_seqZ (fun n => Z.shiftr (u64 (Z.shiftl 7 (16 + 3 * n))) (16 + 3 * n) =? Z.ones 3) 16).
Qed.

Lemma channel_mix_spec m n i c0 c1 : 0 < n -> 0 <= i - 1 -> 0 <= m - i -> m <= 8 -> 0 <= c0 < 256 -> 0 <= c1 < 256 ->
  channel_mix m n i c0 c1 = ((m - i) * c0 + (i - 1) * c1) / n.
Proof.
  intros Hn Hi Hm Hm8 H0 H1. unfold channel_mix. rewrite !(wrap_small 64) by (rewrite ?wrap_small; nia).
  apply swrap_small; [lia|]. split; [|change (2 ^ (32 - 1)) with 2147483648; apply Z.div_lt_upper_bound; nia].
  pose proof (Z.div_pos ((m - i) * c0 + (i - 1) * c1) n ltac:(nia) ltac:(lia)). lia.
Qed.

Lemma channel_byte data i j : 0 <= i < 4 -> 0 <= j < 4 ->
  u8 (default 0 (channel_palette false data !! Z.to_nat (channel_getIdx data (j * BlockHeight + i)))) = channel_texel data i j.
Proof.
  intros Hi Hj. unfold BlockHeight. rewrite channel_getIdx_bits by lia. unfold channel_palette, channel_texel. cbv iota.
  replace (4 * j + i) with (j * 4 + i) by lia. set (n := bits _ 3 data).
  assert (Hn : 0 <= n < 8) by (apply (bits_range _ 3); lia). clearbody n.
  change 0xFF with (Z.ones 8). rewrite Z.land_ones by lia.
  assert (E1 : Z.shiftr (Z.land data 0xFF00) 8 = data / 256 mod 256).
  { rewrite Z.shiftr_land, Z.shiftr_div_pow2 by lia. change (Z.shiftr 0xFF00 8) with (Z.ones 8). by rewrite Z.land_ones by lia. }
  change (Z.ones 8) with 255 in *. rewrite E1. change (2 ^ 8) with 256. rewrite (wrap_small 8 (data mod 256)), (wrap_small 8 (data / 256 mod 256)) by lia.
  set (c0 := data mod 256). set (c1 := data / 256 mod 256). assert (H0 : 0 <= c0 < 256) by lia. assert (H1 : 0 <= c1 < 256) by lia. clearbody c0 c1.
  assert (Hn8 : n ∈ [0; 1; 2; 3; 4; 5; 6; 7]) by (rewrite !elem_of_cons; lia). clear Hn E1 Hi Hj i j.
  change (seqZ 2 6) with [2; 3; 4; 5; 6; 7]. change (seqZ 2 4) with [2; 3; 4; 5].
  rewrite !elem_of_cons, elem_of_nil in Hn8. destruct (Z.ltb_spec c1 c0); simpl map; rewrite !channel_mix_spec by lia.
  all: destruct Hn8 as [->|[->|[->|[->|[->|[->|[->|[->|[]]]]]]]]]; cbn -[Z.mul Z.add Z.sub Z.div wrap]; apply wrap_small; lia.
Qed.

Section formats.
Context (src : Z -> Z) (Hsrc : bytes src) (dst width height : Z) (Hwidth : 0 < width) (Hheight : 0 <= height).

Lemma load_color_range p : 0 <= bc_c0 (load_color src p) < 2 ^ 16 /\ 0 <= bc_c1 (load_color src p) < 2 ^ 16.
Proof. split; apply (load_range src 2); done. Qed.

Lemma color_decode_spec p x y hasAlphaChannel hasSeparateAlpha ram a : 0 <= x -> 0 <= y ->
  color_decode (load_color src p) (dst + x * 4 + y * (4 * width)) x y width height (4 * width) 4 hasAlphaChannel hasSeparateAlpha ram a =
    if decide (x <= pixel_x dst 4 width a < x + 4 /\ y <= pixel_y dst 4 width a < y + 4 /\ pixel_y dst 4 width a < height)
    then default 0 (color_texel hasAlphaChannel hasSeparateAlpha (load_color src p) (pixel_x dst 4 width a - x) (pixel_y dst 4 width a - y) !! Z.to_nat (pixel_k dst 4 a)) else ram a.
Proof.
  intros Hx Hy. unfold color_decode. pose proof (load_color_range p). destruct (pixel_address dst 4 width ltac:(lia) Hwidth a) as (_ & _ & Hk).
  rewrite (each_texel_spec dst 4 width height ltac:(lia) Hwidth _ _ 0 4) by done || lia.
  repeat case_decide; try lia. rewrite color_bytes, Z.sub_0_r by lia. done.
Qed.

Lemma channel_decode_spec bpp data x y channel ram a : 0 < bpp -> 0 <= channel < bpp -> 0 <= x -> 0 <= y ->
  channel_decode data (dst + x * bpp + y * (bpp * width)) x y width height (bpp * width) bpp channel false ram a =
    if decide (x <= pixel_x dst bpp width a < x + 4 /\ y <= pixel_y dst bpp width a < y + 4 /\ pixel_y dst bpp width a < height /\ pixel_k dst bpp a = channel)
    then channel_texel data (pixel_x dst bpp width a - x) (pixel_y dst bpp width a - y) else ram a.
Proof.
  intros Hb Hc Hx Hy. unfold channel_decode.
  rewrite (each_texel_spec dst bpp width height ltac:(lia) Hwidth _ _ channel 1) by done || lia.
  repeat case_decide; try lia. rewrite channel_byte by lia.
  replace (Z.to_nat _) with 0%nat by lia. done.
Qed.

(** The images of the four formats: a texel of BC1 is a colour, one of BC3 a colour with the alpha
    of a channel, those of BC4 and BC5 are one and two channels. *)
Lemma DecodeBc1_writes hasAlphaChannel ram :
  holds_image dst 4 width height (fun b => color_texel hasAlphaChannel false (load_color src (8 * b))) ram
    (DecodeBc1 src dst width height hasAlphaChannel ram).
Proof.
  apply image_written; [done|done|done|]. intros b x y r a Hx Hy. by apply color_decode_spec.
Qed.

Definition bc3_texel (b i j : Z) : list Z :=
  take 3 (color_texel false true (load_color src (16 * b + 8)) i j) ++ [channel_texel (load 8 src (16 * b)) i j].

Lemma color_texel_length hasAlphaChannel hasSeparateAlpha b i j : length (color_texel hasAlphaChannel hasSeparateAlpha b i j) = 4%nat.
Proof.
  unfold color_texel. pose proof (bits_range (2 * (4 * j + i)) 2 (bc_idx b) ltac:(lia)). destruct (bits _ _ _) as [|[p|[p|p|]|]|p]; try done.
  all: by destruct (_ || _).
Qed.

Lemma DecodeBc3_writes ram : holds_image dst 4 width height bc3_texel ram (DecodeBc3 src dst width height ram).
Proof.
  apply image_written; [done|done|done|]. intros b x y r a Hx Hy. unfold R8g8b8a8Bpp.
  rewrite channel_decode_spec, color_decode_spec by lia. unfold bc3_texel. destruct (pixel_address dst 4 width ltac:(lia) Hwidth a) as (_ & _ & Hk).
  pose proof (color_texel_length false true (load_color src (16 * b + 8)) (pixel_x dst 4 width a - x) (pixel_y dst 4 width a - y)) as Hl.
  repeat case_decide; try lia; try done.
  - replace (pixel_k dst 4 a) with 3 by lia. rewrite lookup_app_r by (rewrite length_take; lia). rewrite length_take. by rewrite Hl.
  - rewrite lookup_app_l by (rewrite length_take; lia). rewrite lookup_take_lt by lia. done.
Qed.

Lemma DecodeBc4_writes ram :
  holds_image dst 1 width height (fun b i j => [channel_texel (load 8 src (8 * b)) i j]) ram (DecodeBc4 src dst width height false ram).
Proof.
  apply image_written; [done|done|done|]. intros b x y r a Hx Hy. unfold R8Bpp. rewrite channel_decode_spec by lia.
  destruct (pixel_address dst 1 width ltac:(lia) Hwidth a) as (_ & _ & Hk).
  replace (pixel_k dst 1 a) with 0 by lia. repeat case_decide; try lia; done.
Qed.

Lemma DecodeBc5_writes ram :
  holds_image dst 2 width height (fun b i j => [channel_texel (load 8 src (16 * b)) i j; channel_texel (load 8 src (16 * b + 8)) i j]) ram
    (DecodeBc5 src dst width height false ram).
Proof.
  apply image_written; [done|done|done|]. intros b x y r a Hx Hy. unfold R8g8Bpp. rewrite !channel_decode_spec by lia.
  destruct (pixel_address dst 2 width ltac:(lia) Hwidth a) as (_ & _ & Hk).
  assert (Hk2 : pixel_k dst 2 a = 0 \/ pixel_k dst 2 a = 1) by lia.
  destruct Hk2 as [E|E]; rewrite E; repeat case_decide; try lia; done.
Qed.

End formats.

(** ** Results *)

(** C27: the decoders of BC1, BC3 and unsigned BC4 and BC5 images write every pixel of the image, and
    nothing else: the bytes of a pixel are those the format defines for its texel in its block, the
    two endpoints of the block or a mixture of them chosen by the index of the texel, also in the
    blocks that the right and lower border of the image cut off. *)
Theorem bc_images (src : Z -> Z) (dst width height : Z) (hasAlphaChannel : bool) (ram : host_ram) :
  bytes src -> 0 < width -> 0 <= height ->
  holds_image dst 4 width height (fun b => color_texel hasAlphaChannel false (load_color src (8 * b))) ram
    (DecodeBc1 src dst width height hasAlphaChannel ram) /\
  holds_image dst 4 width height (bc3_texel src) ram (DecodeBc3 src dst width height ram) /\
  holds_image dst 1 width height (fun b i j => [channel_texel (load 8 src (8 * b)) i j]) ram (DecodeBc4 src dst width height false ram) /\
  holds_image dst 2 width height (fun b i j => [channel_texel (load 8 src (16 * b)) i j; channel_texel (load 8 src (16 * b + 8)) i j]) ram
    (DecodeBc5 src dst width height false ram).
Proof.
  intros Hs Hw Hh. split; [by apply DecodeBc1_writes|]. split; [by apply DecodeBc3_writes|]. split; [by apply DecodeBc4_writes|by apply DecodeBc5_writes].
Qed.

(** A five by three image: two blocks, both cut off. *)
Definition example_source (p : Z) : Z := (p * 37 + 11) mod 256.

Lemma bc_images_witness :
  holds_image 64 4 5 3 (bc3_texel example_source) (fun _ => 0) (DecodeBc3 example_source 64 5 3 (fun _ => 0)).
Proof.
  refine (proj1 (proj2 (bc_images example_source 64 5 3 false (fun _ => 0) _ _ _))); [|lia|lia]. intros p. apply Z.mod_pos_bound. lia.
Defined.

(** The pixel at the right end of the first row, from the second block. *)
Lemma example_pixel : map (DecodeBc3 example_source 64 5 3 (fun _ => 0)) (seqZ (64 + 4 * 4) 4) = bc3_texel example_source 1 0 0.
Proof. vm_compute. reflexivity. Qed.

(** BC2 images are decoded with the width of the image as the distance of two rows, so that the rows
    overlap and most of the image is left as it was. *)
Lemma DecodeBc2_leaves_rows : map (DecodeBc2 (fun _ => 255) 0 4 4 (fun _ => 7)) (seqZ 28 36) = replicate 36 7.
Proof. vm_compute. reflexivity. Qed.

(** The values between the endpoints 0 and -7 of a signed channel: the sum -7 is divided by seven as
    an unsigned number. *)
Lemma signed_channel_wraps : map u8 (take 3 (channel_palette true 0xF900)) = [0; 0xF9; 0x91].
Proof. vm_compute. reflexivity. Qed.
