(* ===== verification/Bc6h.v ===== *)
(** * Decoder of BC6H textures ([BC6H] of [gpu/texture/bc_decoder.cpp])

    A block of 128 bits holds a mode, two or four endpoints of three channels whose bits lie in an
    order of their own in every mode ([BcTables.blockDescs]), the number of a partition of the
    texels, and the indices of the texels.  The decoder consumes the bits from the low end.  The
    checks that a release build leaves out ([ASSERT]) are lemmas here. *)

From S2P Require Import Prelude AddressSpace FlatMemory BcTables Bc.

(** 1.0 as a half float. *)
Definition halfFloat1 : Z := 0x3C00.

(** A [Color] in memory: red, green and blue with an alpha of one. *)
Definition half_bytes (v : Z) : list Z := [bits 0 8 v; bits 8 8 v].
Definition Color_bytes (channels : list Z) : list Z := concat (map half_bytes (channels ++ [halfFloat1])).

Definition extendSign (val size : Z) : Z :=
  let mask := u16 (Z.shiftl 1 (size - 1)) in Z.lxor val mask - mask.

(** The three channels of an endpoint with their sizes in bits. *)
Record RGBf : Type := mk_rgbf { rf_channel : list Z; rf_size : list Z; rf_isSigned : bool }.

Definition RGBf_new (isSigned : bool) : RGBf := mk_rgbf [0; 0; 0] [0; 0; 0] isSigned.

Definition RGBf_extendSign (e : RGBf) : RGBf :=
  mk_rgbf (zip_with (fun c size => u16 (extendSign c size)) (rf_channel e) (rf_size e)) (rf_size e) (rf_isSigned e).

Definition resolveDelta (base e : RGBf) : RGBf :=
  let channel := zip_with (fun '(b, size) c => u16 (Z.land (b + c) (Z.shiftl 1 size - 1))) (zip (rf_channel base) (rf_size base)) (rf_channel e) in
  let e := mk_rgbf channel (rf_size base) (rf_isSigned e) in
  if rf_isSigned e then RGBf_extendSign e else e.

(** A channel with its size. *)
Definition unquantizeUnsigned (c size : Z) : Z * Z :=
  if (15 <=? size) || (c =? 0) then (c, size)
  else if c =? Z.shiftl 1 size - 1 then (0xFFFF, 16)
  else (u16 (Z.shiftr (u32 (Z.shiftl c 16 + 0x8000)) size), 16).

Definition unquantizeSigned (c size : Z) : Z * Z :=
  if (16 <=? size) || (c =? 0) then (c, size)
  else
    let value := i16 c in
    let signBit := value <? 0 in
    let value := if signBit then i16 (- value) else value in
    let result := if Z.shiftl 1 (size - 1) - 1 <=? value then 0x7FFF else Z.shiftr (Z.shiftl value 15 + 0x4000) (size - 1) in
    let result := if signBit then - result else result in
    (u16 result, 16).

Definition unquantize (e : RGBf) : RGBf :=
  let cs := zip_with (if rf_isSigned e then unquantizeSigned else unquantizeUnsigned) (rf_channel e) (rf_size e) in
  mk_rgbf (map fst cs) (map snd cs) (rf_isSigned e).

(** ** The bits of a block *)

Record Data : Type := mk_data { da_low : Z; da_high : Z }.

Fixpoint reverse_bits (n : nat) (tmp bits : Z) : Z :=
  match n with
  | O => tmp
  | S n => reverse_bits n (Z.lor (Z.shiftl tmp 1) (Z.land bits 1)) (Z.shiftr bits 1)
  end.

Definition consumeBits (MSB LSB : Z) (d : Data) : Z * Data :=
  let reversed := MSB <? LSB in
  let '(MSB, LSB) := if reversed then (LSB, MSB) else (MSB, LSB) in
  let numBits := MSB - LSB + 1 in
  let mask := Z.shiftl 1 numBits - 1 in
  let bits := Z.land (da_low d) mask in
  let low := Z.lor (Z.shiftr (da_low d) numBits) (u64 (Z.shiftl (Z.land (da_high d) mask) (64 - numBits))) in
  let high := Z.shiftr (da_high d) numBits in
  let bits := if reversed then reverse_bits (Z.to_nat numBits) 0 bits else bits in
  (u32 (Z.shiftl bits LSB), mk_data low high).

(** ** Interpolation *)

Definition weights3 : list Z := [0; 9; 18; 27; 37; 46; 55; 64].
Definition weights4 : list Z := [0; 4; 9; 13; 17; 21; 26; 30; 34; 38; 43; 47; 51; 55; 60; 64].

(** One channel of the colour: the products are those of unsigned numbers, read as [int32_t]. *)
Definition interpolate_channel (isSigned : bool) (weight e0 e1 : Z) : Z :=
  let e0Channel := if isSigned then extendSign e0 16 else e0 in
  let e1Channel := if isSigned then extendSign e1 16 else e1 in
  let e0Value := i32 (u32 e0Channel * (64 - weight)) in
  let e1Value := i32 (u32 e1Channel * weight) in
  let tmp := u32 (Z.shiftr (e0Value + e1Value + 32) 6) in
  u16 (if isSigned then
         let tmp := if negb (Z.land tmp 0x80000000 =? 0) then Z.lor (Z.shiftr (u32 (u32 (u32 (Z.lnot tmp) + 1) * 31)) 5) 0x8000
                    else Z.shiftr (u32 (tmp * 31)) 5 in
         if tmp =? 0x8000 then 0 else tmp
       else Z.shiftr (u32 (tmp * 31)) 6).

Definition interpolate (e0 e1 : RGBf) (value numBits : Z) (isSigned : bool) : list Z :=
  let weight := table_at (if numBits =? 3 then weights3 else weights4) value in
  zip_with (interpolate_channel isSigned weight) (rf_channel e0) (rf_channel e1).

(** ** Modes *)

Definition modeToIndex (mode : Z) : Z :=
  if mode <=? 3 then mode
  else if negb (Z.land mode 2 =? 0) then
    if mode <=? 18 then mode / 2 + 1 + Z.land mode 1
    else if (mode =? 22) || (mode =? 26) || (mode =? 30) then mode / 4 + 6
    else -1
  else -1.

Definition channel_index (c : ColorChannel) : nat := match c with ChR => 0 | ChG => 1 | ChB => 2 | ChNone => 3 end.

(** What the first part of a block gives. *)
Record Header : Type := mk_header { hd_e : list RGBf; hd_partition : Z; hd_mode : ModeDesc }.

Definition set_sizes (size : list Z) (e : RGBf) : RGBf := mk_rgbf (rf_channel e) size (rf_isSigned e).
Definition or_channel (c : ColorChannel) (v : Z) (e : RGBf) : RGBf :=
  mk_rgbf (alter (fun x => u16 (Z.lor x v)) (channel_index c) (rf_channel e)) (rf_size e) (rf_isSigned e).

(** The loop over the description of the block. *)
Fixpoint read_descs (descs : list BlockDesc) (h : Header) (d : Data) : Header * Data :=
  match descs with
  | [] => (h, d)
  | desc :: descs =>
      match bd_type desc with
      | DEnd => (h, d)
      | DMode md =>
          let full := replicate 3 (md_endpointBits md) in
          let e := imap (fun i e => set_sizes (if (i =? 0)%nat then full else if md_hasDelta md then md_deltaBits md else full) e) (hd_e h) in
          read_descs descs (mk_header e (hd_partition h) md) d
      | DPartition =>
          let (v, d) := consumeBits (bd_MSB desc) (bd_LSB desc) d in
          read_descs descs (mk_header (hd_e h) (Z.lor (hd_partition h) v) (hd_mode h)) d
      | DEndpoint ep =>
          let (v, d) := consumeBits (bd_MSB desc) (bd_LSB desc) d in
          read_descs descs (mk_header (alter (or_channel (bd_channel desc) v) ep (hd_e h)) (hd_partition h) (hd_mode h)) d
      end
  end.

(** [ModeDesc()]. *)
Definition ModeDesc_new : ModeDesc := mk_mode_desc (-1) false 0 0 [0; 0; 0].

Definition read_header (isSigned : bool) (blockIndex : Z) (d : Data) : Header * Data :=
  read_descs (default [] (blockDescs !! Z.to_nat blockIndex)) (mk_header (replicate 4 (RGBf_new isSigned)) 0 ModeDesc_new) d.

(** Applies [f] to the endpoints from [first] to the last one of the mode. *)
Definition from_endpoint (first : nat) (md : ModeDesc) (f : RGBf -> RGBf) (e : list RGBf) : list RGBf :=
  imap (fun i x => if (first <=? i)%nat && (Z.of_nat i <? md_partitionCount md * 2) then f x else x) e.

(** The endpoints of the block from the bits read. *)
Definition endpoints (isSigned : bool) (h : Header) : list RGBf :=
  let md := hd_mode h in
  let e := if isSigned then from_endpoint 0 md RGBf_extendSign (hd_e h)
           else if md_hasDelta md then from_endpoint 1 md RGBf_extendSign (hd_e h) else hd_e h in
  let e := if md_hasDelta md then from_endpoint 1 md (resolveDelta (default (RGBf_new isSigned) (e !! 0%nat))) e else e in
  from_endpoint 0 md unquantize e.

(** ** Blocks *)

(** The loops over the texels: the bits of an index are consumed also where the texel is outside of
    the image. *)
Definition texels_decode (h : Header) (e : list RGBf) (dst dstX dstY dstWidth dstHeight dstPitch dstBpp : Z) (isSigned : bool)
    (d : Data) (ram : host_ram) : host_ram :=
  snd (fold_left (fun '(d, ram) pixelNum =>
    let y := pixelNum / 4 in
    let x := pixelNum mod 4 in
    let '(numBits, isAnchor, firstEndpoint) :=
      if md_partitionCount (hd_mode h) =? 1 then (4, pixelNum =? 0, 0)
      else (3, (pixelNum =? 0) || (pixelNum =? table_at BC6H_AnchorTable2 (hd_partition h)),
            table2_at BC6H_PartitionTable2 (hd_partition h) pixelNum * 2) in
    let (value, d) := consumeBits (numBits - Z.b2z isAnchor - 1) 0 d in
    if (dstHeight <=? y + dstY) || (dstWidth <=? x + dstX) then (d, ram)
    else
      let color := interpolate (default (RGBf_new isSigned) (e !! Z.to_nat firstEndpoint))
                               (default (RGBf_new isSigned) (e !! Z.to_nat (firstEndpoint + 1))) value numBits isSigned in
      (d, write_list (dst + dstBpp * x + dstPitch * y) (Color_bytes color) ram)) (seqZ 0 16) (d, ram)).

(** The index of the mode in the table and the bits behind it. *)
Definition read_mode (b : Data) : Z * Data :=
  let (v, data) := if Z.land (da_low b) 2 =? 0 then consumeBits 1 0 b else consumeBits 4 0 b in
  (modeToIndex (u8 v), data).

Definition block_decode (b : Data) (dst dstX dstY dstWidth dstHeight dstPitch dstBpp : Z) (isSigned : bool) (ram : host_ram) : host_ram :=
  let (blockIndex, data) := read_mode b in
  if blockIndex =? -1 then
    each_texel dst dstX dstY dstWidth dstHeight dstPitch 8 0 (fun _ _ => Color_bytes [0; 0; 0]) ram
  else
    let (h, data) := read_header isSigned blockIndex data in
    texels_decode h (endpoints isSigned h) dst dstX dstY dstWidth dstHeight dstPitch dstBpp isSigned data ram.

Definition load_block (src : Z -> Z) (p : Z) : Data := mk_data (load 8 src p) (load 8 src (p + 8)).

Definition DecodeBc6 (src : Z -> Z) (dst width height : Z) (isSigned : bool) (ram : host_ram) : host_ram :=
  let pitch := R16g16b16a16Bpp * width in
  each_block_of 16 pitch R16g16b16a16Bpp width height (fun block dstRow x y ram =>
    block_decode (load_block src block) dstRow x y width height pitch R16g16b16a16Bpp isSigned ram) dst ram.

(** ** The bits as a number of 128 bits *)

Definition num (d : Data) : Z := da_low d + 2 ^ 64 * da_high d.
Definition data_ok (d : Data) : Prop := 0 <= da_low d < 2 ^ 64 /\ 0 <= da_high d < 2 ^ 64.

Lemma num_range d : data_ok d -> 0 <= num d < 2 ^ 128.
Proof. intros [Hl Hh]. unfold num. change (2 ^ 128) with (2 ^ 64 * 2 ^ 64). lia. Qed.

Lemma reverse_bits_bit n tmp b i : 0 <= i ->
  bit (reverse_bits n tmp b) i = if i <? Z.of_nat n then bit b (Z.of_nat n - 1 - i) else bit tmp (i - Z.of_nat n).
Proof.
  revert tmp b. induction n as [|n IH]; intros tmp b Hi; cbn [reverse_bits].
  - destruct (Z.ltb_spec i (Z.of_nat 0)); [lia|]. by rewrite Z.sub_0_r.
  - rewrite IH by done. destruct (Z.ltb_spec i (Z.of_nat n)), (Z.ltb_spec i (Z.of_nat (S n))); try lia.
    + rewrite Z.shiftr_spec by lia. f_equal. lia.
    + replace (i - Z.of_nat n) with 0 by lia. replace (Z.of_nat (S n) - 1 - i) with 0 by lia.
      rewrite Z.lor_spec, Z.shiftl_spec_low, Z.land_spec by lia. simpl. by rewrite andb_true_r.
    + rewrite Z.lor_spec, Z.shiftl_spec, Z.land_spec by lia.
      rewrite (testbit_high 1 1 (i - Z.of_nat n)), andb_false_r, orb_false_r by lia. f_equal. lia.
Qed.

(** The bounds of a field, the low one first, and the bit of the block that a bit of the field is. *)
Definition lsb (MSB LSB : Z) : Z := Z.min MSB LSB.
Definition width_of (MSB LSB : Z) : Z := Z.max MSB LSB - Z.min MSB LSB + 1.
Definition in_field (MSB LSB i : Z) : bool := (Z.min MSB LSB <=? i) && (i <=? Z.max MSB LSB).
Definition field_source (MSB LSB i : Z) : Z := if MSB <? LSB then LSB - i else i - LSB.

Lemma reverse_bits_nonneg n tmp b : 0 <= tmp -> 0 <= reverse_bits n tmp b.
Proof.
  revert tmp b. induction n as [|n IH]; intros tmp b Ht; cbn [reverse_bits]; [done|]. apply IH.
  rewrite Z.lor_nonneg. split; [by apply Z.shiftl_nonneg|]. apply Z.land_nonneg. lia.
Qed.

Lemma consumed_bits n d : 0 < n < 64 -> data_ok d ->
  data_ok (mk_data (Z.lor (Z.shiftr (da_low d) n) (u64 (Z.shiftl (Z.land (da_high d) (Z.ones n)) (64 - n)))) (Z.shiftr (da_high d) n)) /\
  num (mk_data (Z.lor (Z.shiftr (da_low d) n) (u64 (Z.shiftl (Z.land (da_high d) (Z.ones n)) (64 - n)))) (Z.shiftr (da_high d) n)) = Z.shiftr (num d) n.
Proof.
  intros Hn [Hl Hh]. rewrite Z.land_ones, !Z.shiftr_div_pow2 by lia.
  assert (E64 : 2 ^ 64 = 2 ^ n * 2 ^ (64 - n)) by (rewrite <- Z.pow_add_r by lia; f_equal; lia).
  assert (Hp : 0 < 2 ^ n) by lia. assert (Hq : 0 < 2 ^ (64 - n)) by lia.
  pose proof (Z.mod_pos_bound (da_high d) (2 ^ n) Hp) as Hm. pose proof (Z.div_mod (da_high d) (2 ^ n) ltac:(lia)) as Hd.
  assert (Hs : u64 (Z.shiftl (da_high d mod 2 ^ n) (64 - n)) = Z.shiftl (da_high d mod 2 ^ n) (64 - n)).
  { apply wrap_small. rewrite Z.shiftl_mul_pow2 by lia. rewrite E64. nia. }
  assert (Hlo : 0 <= da_low d / 2 ^ n < 2 ^ (64 - n)).
  { split; [apply Z.div_pos; lia|]. apply Z.div_lt_upper_bound; [lia|]. rewrite <- E64. lia. }
  rewrite Hs, Z.lor_comm, lor_shiftl_add by lia. unfold num, data_ok. cbn [da_low da_high]. split; [split|].
  - rewrite E64. nia.
  - split; [apply Z.div_pos; lia|]. apply Z.div_lt_upper_bound; nia.
  - rewrite E64.
    replace (da_low d + 2 ^ n * 2 ^ (64 - n) * da_high d) with (2 ^ (64 - n) * da_high d * 2 ^ n + da_low d) by lia.
    rewrite Z.div_add_l by lia. set (q := da_high d / 2 ^ n) in *. set (m := da_high d mod 2 ^ n) in *. rewrite Hd. ring.
Qed.

(** A field is consumed: the bits of its value, and the block that is left. *)
Lemma consumeBits_spec MSB LSB d : 0 <= MSB <= 15 -> 0 <= LSB <= 15 -> data_ok d ->
  let (v, d') := consumeBits MSB LSB d in
  0 <= v < 2 ^ 16 /\ (forall i, 0 <= i -> bit v i = in_field MSB LSB i && bit (num d) (field_source MSB LSB i)) /\
  data_ok d' /\ num d' = Z.shiftr (num d) (width_of MSB LSB).
Proof.
  intros HM HL Hd. unfold consumeBits.
  assert (Ef : (if MSB <? LSB then (LSB, MSB) else (MSB, LSB)) = (Z.max MSB LSB, Z.min MSB LSB)) by (zcase; f_equal; lia).
  rewrite Ef. fold (width_of MSB LSB). set (n := width_of MSB LSB). assert (Hn : 0 < n <= 16) by (subst n; unfold width_of; lia).
  replace (Z.shiftl 1 n - 1) with (Z.ones n) by done.
  assert (Eb : forall i, 0 <= i -> bit (Z.land (da_low d) (Z.ones n)) i = (i <? n) && bit (num d) i).
  { intros i Hi. rewrite Z.land_spec, testbit_ones_range by lia. destruct (Z.leb_spec 0 i); [|lia]. simpl. rewrite andb_comm.
    destruct (Z.ltb_spec i n); [|done]. simpl. unfold num. rewrite Z.add_comm, Z.mul_comm, <- (lor_shiftl_add 64) by (destruct Hd; lia).
    by rewrite Z.lor_spec, Z.shiftl_spec_low by lia. }
  set (b := if MSB <? LSB then _ else _).
  assert (Hb : forall i, 0 <= i -> bit b i = (i <? n) && bit (num d) (if MSB <? LSB then n - 1 - i else i)).
  { intros i Hi. subst b. destruct (MSB <? LSB); [|by apply Eb]. rewrite reverse_bits_bit, Z2Nat.id by lia.
    destruct (Z.ltb_spec i n); [|by rewrite Z.testbit_0_l]. rewrite Eb by lia. destruct (Z.ltb_spec (n - 1 - i) n); [done|lia]. }
  assert (Hbn : 0 <= b). { subst b. destruct (MSB <? LSB); [by apply reverse_bits_nonneg|]. apply Z.land_nonneg. destruct Hd. lia. }
  assert (Hbr : 0 <= b < 2 ^ n). { apply range_by_bits; [lia|done|]. intros i Hi. rewrite Hb by lia. destruct (Z.ltb_spec i n); [lia|done]. }
  assert (Hv : 0 <= Z.shiftl b (Z.min MSB LSB) < 2 ^ 16).
  { rewrite Z.shiftl_mul_pow2 by lia. split; [lia|]. apply Z.lt_le_trans with (2 ^ n * 2 ^ Z.min MSB LSB); [nia|].
    rewrite <- Z.pow_add_r by lia. apply Z.pow_le_mono_r; unfold n, width_of; lia. }
  rewrite wrap_small by lia. split; [done|]. split; [|apply consumed_bits; [lia|done]].
  intros i Hi. unfold in_field, field_source. rewrite Z.shiftl_spec by done. destruct (Z.leb_spec (Z.min MSB LSB) i).
  - rewrite Hb by lia. subst n. unfold width_of. simpl. f_equal; [repeat zcase; lia|]. f_equal. zcase; lia.
  - apply Z.testbit_neg_r. lia.
Qed.

(** ** Headers *)

(** What a field of the description goes to. *)
Inductive Target : Type := TEndpoint (ep c : nat) | TPartition.
#[global] Instance Target_eq_dec : EqDecision Target.
Proof. solve_decision. Defined.

Definition target (desc : BlockDesc) : option Target :=
  match bd_type desc with
  | DEndpoint ep => Some (TEndpoint ep (channel_index (bd_channel desc)))
  | DPartition => Some TPartition
  | _ => None
  end.

Definition hd_get (h : Header) (t : Target) : Z :=
  match t with
  | TEndpoint ep c => default 0 (x ← hd_e h !! ep; rf_channel x !! c)
  | TPartition => hd_partition h
  end.

(** The fields of a description without the mode: their bits, their targets and their number. *)
Definition desc_ok (desc : BlockDesc) : bool :=
  (0 <=? bd_MSB desc) && (bd_MSB desc <=? 15) && (0 <=? bd_LSB desc) && (bd_LSB desc <=? 15) &&
  match bd_type desc with
  | DEndpoint ep => (ep <? 4)%nat && (channel_index (bd_channel desc) <? 3)%nat
  | DPartition => true
  | _ => false
  end.

Definition desc_width (desc : BlockDesc) : Z := width_of (bd_MSB desc) (bd_LSB desc).
Definition total_width (descs : list BlockDesc) : Z := foldr (fun desc n => desc_width desc + n) 0 descs.

Lemma desc_width_pos desc : 0 < desc_width desc.
Proof. unfold desc_width, width_of. lia. Qed.

Lemma total_width_nonneg descs : 0 <= total_width descs.
Proof. induction descs as [|desc descs IH]; cbn; [lia|]. pose proof (desc_width_pos desc). unfold total_width in IH. lia. Qed.

(** The bit [i] of the target [t] in the bits [v]. *)
Fixpoint header_bit (descs : list BlockDesc) (t : Target) (i v : Z) : bool :=
  match descs with
  | [] => false
  | desc :: descs =>
      (bool_decide (target desc = Some t) && in_field (bd_MSB desc) (bd_LSB desc) i && bit v (field_source (bd_MSB desc) (bd_LSB desc) i)) ||
      header_bit descs t i (Z.shiftr v (desc_width desc))
  end.

Definition header_shape (h : Header) : Prop :=
  length (hd_e h) = 4%nat /\ Forall (fun e => length (rf_channel e) = 3%nat) (hd_e h) /\ (forall t, 0 <= hd_get h t < 2 ^ 16).

(** Reading one field. *)
Definition read_field (desc : BlockDesc) (v : Z) (h : Header) : Header :=
  match bd_type desc with
  | DEndpoint ep => mk_header (alter (or_channel (bd_channel desc) v) ep (hd_e h)) (hd_partition h) (hd_mode h)
  | _ => mk_header (hd_e h) (Z.lor (hd_partition h) v) (hd_mode h)
  end.

Lemma read_descs_cons desc descs h d : desc_ok desc = true ->
  read_descs (desc :: descs) h d =
    let (v, d) := consumeBits (bd_MSB desc) (bd_LSB desc) d in read_descs descs (read_field desc v h) d.
Proof.
  intros Hok. cbn [read_descs]. unfold read_field, desc_ok in *. destruct (bd_type desc); rewrite ?andb_false_r in Hok; done.
Qed.

Lemma read_field_get desc v h t : desc_ok desc = true -> 0 <= v < 2 ^ 16 -> header_shape h ->
  hd_get (read_field desc v h) t = if decide (target desc = Some t) then Z.lor (hd_get h t) v else hd_get h t.
Proof.
  intros Hok Hv (Hl & Hc & Hg). unfold read_field, target, desc_ok in *. destruct desc as [ty ch M L]. cbn [bd_type bd_channel] in *.
  destruct ty as [ep|md| |]; rewrite ?andb_false_r in Hok; try done.
  - rewrite !andb_true_iff in Hok. destruct Hok as (_ & He & Hch). apply Nat.ltb_lt in He, Hch.
    destruct t as [ep' c'|]; cbn [hd_get hd_e hd_partition]; [|by rewrite decide_False].
    destruct (lookup_lt_is_Some_2 (hd_e h) ep ltac:(lia)) as [e Ee]. pose proof (Forall_lookup_1 _ _ _ _ Hc Ee) as Hce. simpl in Hce.
    destruct (decide (ep' = ep)) as [->|Hne]; [|rewrite list_lookup_alter_ne by congruence; rewrite decide_False by congruence; done].
    rewrite list_lookup_alter_eq, Ee. cbn [fmap option_fmap option_map mbind option_bind or_channel rf_channel].
    destruct (lookup_lt_is_Some_2 (rf_channel e) (channel_index ch) ltac:(lia)) as [x Ex].
    destruct (decide (c' = channel_index ch)) as [->|Hnc]; [|rewrite list_lookup_alter_ne by congruence; rewrite decide_False by congruence; done].
    rewrite list_lookup_alter_eq, Ex, decide_True by done. simpl.
    specialize (Hg (TEndpoint ep (channel_index ch))). simpl in Hg. rewrite Ee in Hg. simpl in Hg. rewrite Ex in Hg. simpl in Hg.
    apply wrap_small. apply lor_range; lia.
  - destruct t; cbn [hd_get hd_e hd_partition]; [by rewrite decide_False|by rewrite decide_True].
Qed.

Lemma read_field_shape desc v h : desc_ok desc = true -> 0 <= v < 2 ^ 16 -> header_shape h ->
  header_shape (read_field desc v h) /\ rf_size <$> hd_e (read_field desc v h) = rf_size <$> hd_e h /\ hd_mode (read_field desc v h) = hd_mode h.
Proof.
  intros Hok Hv Hs. split; [split; [|split]|].
  - destruct Hs as (Hl & _). unfold read_field. destruct (bd_type desc); cbn [hd_e]; by rewrite ?length_alter.
  - destruct Hs as (_ & Hc & _). unfold read_field. destruct (bd_type desc); cbn [hd_e]; try done. apply Forall_alter; [done|].
    intros x _ Hx. cbn [or_channel rf_channel]. by rewrite length_alter.
  - intros t. rewrite read_field_get by done. destruct Hs as (_ & _ & Hg). case_decide; [|done]. apply lor_range; [lia|done|done].
  - unfold read_field. destruct (bd_type desc); cbn [hd_e hd_mode]; split; try done.
    apply list_eq. intros i. rewrite !list_lookup_fmap. destruct (decide (i = ep)) as [->|]; [|by rewrite list_lookup_alter_ne].
    rewrite list_lookup_alter_eq. by destruct (hd_e h !! ep).
Qed.

(** Reading the fields of a description: every bit of an endpoint or the partition is the one the
    description gives, the sizes and the mode are kept, and the block is moved past the fields. *)
Lemma read_descs_spec descs h d : forallb desc_ok descs = true -> data_ok d -> header_shape h ->
  let (h', d') := read_descs descs h d in
  header_shape h' /\ rf_size <$> hd_e h' = rf_size <$> hd_e h /\ hd_mode h' = hd_mode h /\
  (forall t i, 0 <= i -> bit (hd_get h' t) i = bit (hd_get h t) i || header_bit descs t i (num d)) /\
  data_ok d' /\ num d' = Z.shiftr (num d) (total_width descs).
Proof.
  revert h d. induction descs as [|desc descs IH]; intros h d Hok Hd Hs.
  - simpl. split_and!; try done. intros t i _. by rewrite orb_false_r.
  - simpl in Hok. apply andb_prop in Hok as [Hdesc Hok]. rewrite read_descs_cons by done.
    assert (Hr : 0 <= bd_MSB desc <= 15 /\ 0 <= bd_LSB desc <= 15) by (unfold desc_ok in Hdesc; rewrite !andb_true_iff in Hdesc; lia).
    pose proof (consumeBits_spec (bd_MSB desc) (bd_LSB desc) d ltac:(lia) ltac:(lia) Hd) as Hc.
    destruct (consumeBits _ _ d) as [v d1]. destruct Hc as (Hv & Hb & Hd1 & E1).
    destruct (read_field_shape desc v h Hdesc Hv Hs) as (Hs1 & Hsz & Hm).
    specialize (IH (read_field desc v h) d1 Hok Hd1 Hs1). destruct (read_descs descs _ d1) as [h' d'].
    destruct IH as (H1 & H2 & H3 & H4 & H5 & H6). split_and!; [done|congruence|congruence| |done|].
    + intros t i Hi. rewrite H4, read_field_get, E1 by done. cbn [header_bit]. fold (desc_width desc).
      case_decide as Ht; [rewrite bool_decide_true by done|rewrite bool_decide_false by done; done].
      rewrite Z.lor_spec, Hb by done. simpl. by rewrite <- orb_assoc.
    + rewrite H6, E1. cbn [total_width foldr]. fold (total_width descs). by rewrite Z.shiftr_shiftr by apply total_width_nonneg.
Qed.

Definition covers (descs : list BlockDesc) (t : Target) (i : Z) : bool :=
  existsb (fun desc => bool_decide (target desc = Some t) && in_field (bd_MSB desc) (bd_LSB desc) i) descs.

(** ** The table of modes *)

(** The mode of a description and its fields. *)
Definition mode_of (m : Z) : ModeDesc :=
  match blockDescs !! Z.to_nat m with Some (mk_desc (DMode md) _ _ _ :: _) => md | _ => ModeDesc_new end.
Definition fields_of (m : Z) : list BlockDesc := removelast (tail (default [] (blockDescs !! Z.to_nat m))).

Definition mode_width (m : Z) : Z := if md_number (mode_of m) <? 2 then 2 else 5.
Definition header_width (m : Z) : Z := mode_width m + total_width (fields_of m).

(** The bits of a target in a mode. *)
Definition target_size (m : Z) (t : Target) : Z :=
  let md := mode_of m in
  match t with
  | TEndpoint ep c =>
      if (Z.of_nat ep <? 2 * md_partitionCount md) && (c <? 3)%nat then
        if (ep =? 0)%nat || negb (md_hasDelta md) then md_endpointBits md else default 0 (md_deltaBits md !! c)
      else 0
  | TPartition => if md_partitionCount md =? 2 then 5 else 0
  end.

Definition targets : list Target := TPartition :: flat_map (fun ep => map (TEndpoint ep) (seq 0 3)) (seq 0 4).

Definition mode_ok (m : Z) : bool :=
  forallb desc_ok (fields_of m) &&
  bool_decide (length (default [] (blockDescs !! Z.to_nat m)) = S (length (fields_of m) + 1)) &&
  (modeToIndex (md_number (mode_of m)) =? m) &&
  (if md_number (mode_of m) <? 2 then true else negb (Z.land (md_number (mode_of m)) 2 =? 0)) &&
  (0 <=? md_number (mode_of m)) && (md_number (mode_of m) <? 32) &&
  ((md_partitionCount (mode_of m) =? 1) || (md_partitionCount (mode_of m) =? 2)) &&
  (header_width m =? (if md_partitionCount (mode_of m) =? 1 then 65 else 82)) &&
  forallb (fun t => forallb (fun i => Bool.eqb (covers (fields_of m) t i) (i <? target_size m t)) (seqZ 0 17)) targets.

(** The table is right: the fields of every mode cover the bits of every endpoint and of the
    partition, and leave the bits of the indices. *)
Lemma modes_checked : forallb mode_ok (seqZ 0 14) = true.
Proof. vm_compute. reflexivity. Qed.

Lemma mode_ok_at m : 0 <= m < 14 -> mode_ok m = true.
Proof. intros Hm. by apply (forallb_seqZ mode_ok 14); [apply modes_checked|]. Qed.

Lemma fields_ok m : 0 <= m < 14 -> forallb desc_ok (fields_of m) = true.
Proof. intros Hm. pose proof (mode_ok_at m Hm) as H. unfold mode_ok in H. rewrite !andb_true_iff in H. tauto. Qed.

Lemma mode_facts m : 0 <= m < 14 ->
  modeToIndex (md_number (mode_of m)) = m /\ 0 <= md_number (mode_of m) < 32 /\
  (2 <= md_number (mode_of m) -> Z.land (md_number (mode_of m)) 2 <> 0) /\
  (md_partitionCount (mode_of m) = 1 /\ header_width m = 65 \/ md_partitionCount (mode_of m) = 2 /\ header_width m = 82).
Proof.
  intros Hm. pose proof (mode_ok_at m Hm) as H. unfold mode_ok in H. rewrite !andb_true_iff in H.
  destruct H as ((((((((_ & _) & H1) & H2) & H3) & H4) & H5) & H6) & _). apply Z.eqb_eq in H1. apply Z.leb_le in H3. apply Z.ltb_lt in H4.
  split; [done|]. split; [done|]. split.
  - intros H. destruct (Z.ltb_spec (md_number (mode_of m)) 2); [lia|]. intros E. by rewrite E in H2.
  - apply orb_prop in H5. destruct H5 as [E|E]; apply Z.eqb_eq in E, H6; rewrite E in H6; simpl in H6; lia.
Qed.

Lemma in_field_low MSB LSB i : 0 <= MSB <= 15 -> 0 <= LSB <= 15 -> in_field MSB LSB i = true -> i < 16.
Proof. unfold in_field. lia. Qed.

Lemma covers_low descs t i : forallb desc_ok descs = true -> covers descs t i = true -> i < 16.
Proof.
  intros Hok Hc. unfold covers in Hc. apply existsb_exists in Hc as (desc & Hin & Hd). apply andb_prop in Hd as [_ Hf].
  rewrite forallb_forall in Hok. specialize (Hok _ Hin). unfold desc_ok in Hok. rewrite !andb_true_iff in Hok.
  eapply in_field_low; [| |exact Hf]; lia.
Qed.

Lemma covers_spec m t i : 0 <= m < 14 -> t ∈ targets -> 0 <= i -> covers (fields_of m) t i = (i <? target_size m t).
Proof.
  intros Hm Ht Hi. pose proof (mode_ok_at m Hm) as H. unfold mode_ok in H. rewrite !andb_true_iff in H. destruct H as (_ & H).
  rewrite forallb_forall in H. apply list_elem_of_In in Ht. specialize (H _ Ht). pose proof (fields_ok m Hm) as Hf.
  assert (Hat : forall j, 0 <= j < 17 -> covers (fields_of m) t j = (j <? target_size m t)).
  { intros j Hj. apply Bool.eqb_prop. by apply (forallb_seqZ (fun j => Bool.eqb (covers (fields_of m) t j) (j <? target_size m t)) 17). }
  destruct (Z_lt_le_dec i 17); [by apply Hat|].
  assert (H16 : covers (fields_of m) t 16 = false). { destruct (covers (fields_of m) t 16) eqn:E; [|done]. apply covers_low in E; [lia|done]. }
  rewrite Hat in H16 by lia. apply Z.ltb_ge in H16. destruct (covers (fields_of m) t i) eqn:E; [apply covers_low in E; [lia|done]|].
  symmetry. apply Z.ltb_ge. lia.
Qed.

Lemma header_bit_covers descs t i v : header_bit descs t i v = true -> covers descs t i = true.
Proof.
  revert v. induction descs as [|desc descs IH]; intros v H; [done|]. cbn [header_bit] in H. unfold covers in *. cbn [existsb].
  apply orb_prop in H as [H|H]; [|by erewrite IH, orb_true_r by exact H]. rewrite !andb_true_iff in H. destruct H as [[H1 H2] _]. by rewrite H1, H2.
Qed.

Lemma mode_shape m : 0 <= m < 14 -> exists c M L last, bd_type last = DEnd /\
  blockDescs !! Z.to_nat m = Some (mk_desc (DMode (mode_of m)) c M L :: fields_of m ++ [last]).
Proof.
  intros Hm. assert (Hm14 : m ∈ seqZ 0 14) by (apply elem_of_seqZ; lia).
  change (seqZ 0 14) with [0; 1; 2; 3; 4; 5; 6; 7; 8; 9; 10; 11; 12; 13] in Hm14. rewrite !elem_of_cons, elem_of_nil in Hm14. clear Hm.
  destruct_or! Hm14; subst; try done; (do 4 eexists; split; [|vm_compute; reflexivity]; done).
Qed.

Lemma read_descs_end descs last h d : forallb desc_ok descs = true -> bd_type last = DEnd -> read_descs (descs ++ [last]) h d = read_descs descs h d.
Proof.
  intros Hok Hl. revert h d. induction descs as [|desc descs IH]; intros h d.
  - cbn [app read_descs]. by rewrite Hl.
  - cbn [forallb] in Hok. apply andb_prop in Hok as [Hd Hok]. cbn [app]. rewrite !read_descs_cons by done.
    destruct (consumeBits _ _ d). by apply IH.
Qed.

Lemma targets_spec ep c : (ep < 4)%nat -> (c < 3)%nat -> TEndpoint ep c ∈ targets.
Proof. intros He Hc. do 4 (destruct ep as [|ep]; [do 3 (destruct c as [|c]; [by apply (bool_decide_unpack _); vm_compute|]); lia|]). lia. Qed.

(** What the header of a block of mode [m] gives. *)
Lemma read_header_spec isSigned m d : 0 <= m < 14 -> data_ok d ->
  let (h, d') := read_header isSigned m d in
  hd_mode h = mode_of m /\ header_shape h /\
  rf_size <$> hd_e h = (fun ep => map (fun c => if (ep =? 0)%nat || negb (md_hasDelta (mode_of m)) then md_endpointBits (mode_of m) else default 0 (md_deltaBits (mode_of m) !! c)) (seq 0 3)) <$> seq 0 4 /\
  (forall t i, 0 <= i -> bit (hd_get h t) i = header_bit (fields_of m) t i (num d)) /\
  data_ok d' /\ num d' = Z.shiftr (num d) (total_width (fields_of m)).
Proof.
  intros Hm Hd. unfold read_header. destruct (mode_shape m Hm) as (c & M & L & last & Hl & ->). cbn [default id read_descs bd_type].
  rewrite read_descs_end by (apply fields_ok || done; lia).
  set (h0 := mk_header _ _ _).
  assert (Hs : header_shape h0).
  { subst h0. split; [done|]. split; [by repeat constructor|]. intros [ep c'|]; simpl; [|lia].
    do 4 (destruct ep as [|ep]; [do 3 (destruct c' as [|c']; [simpl; lia|]); simpl; lia|]). simpl. lia. }
  pose proof (read_descs_spec (fields_of m) h0 d (fields_ok m Hm) Hd Hs) as H. destruct (read_descs _ h0 d) as [h d'].
  destruct H as (H1 & H2 & H3 & H4 & H5 & H6). split_and!; try done.
  - rewrite H2. subst h0. cbn. pose proof (mode_ok_at m Hm). destruct (md_hasDelta (mode_of m)); [|done].
    cbn. assert (Hdb : length (md_deltaBits (mode_of m)) = 3%nat).
    { apply Nat.eqb_eq. apply (forallb_seqZ (fun m => length (md_deltaBits (mode_of m)) =? 3)%nat 14); [vm_compute; reflexivity|done]. }
    destruct (md_deltaBits (mode_of m)) as [|a [|b [|e [|]]]]; done.
  - intros t i Hi. rewrite H4 by done. replace (hd_get h0 t) with 0; [by rewrite Z.testbit_0_l|]. destruct t as [ep c'|]; [|done].
    simpl. do 4 (destruct ep as [|ep]; [do 3 (destruct c' as [|c']; [done|]); done|]). done.
Qed.

(** A field that starts at bit 0. *)
Lemma consumeBits_low n d : 1 <= n <= 16 -> data_ok d ->
  exists d', consumeBits (n - 1) 0 d = (bits 0 n (num d), d') /\ data_ok d' /\ num d' = Z.shiftr (num d) n.
Proof.
  intros Hn Hd. pose proof (consumeBits_spec (n - 1) 0 d ltac:(lia) ltac:(lia) Hd) as H. destruct (consumeBits _ _ d) as [v d'].
  destruct H as (Hv & Hb & Hd' & E). exists d'. split_and!; [|done|rewrite E; f_equal; unfold width_of; lia]. f_equal.
  apply Z.bits_inj'. intros i Hi. rewrite Hb, testbit_bits by lia. unfold in_field, field_source. destruct (Z.ltb_spec (n - 1) 0); [lia|].
  assert ((Z.min (n - 1) 0 <=? i) && (i <=? Z.max (n - 1) 0) = (i <? n)) as -> by (repeat zcase; lia). repeat f_equal; lia.
Qed.

Definition mode_number_ok (v : Z) : bool :=
  let m := modeToIndex v in (m =? -1) || ((0 <=? m) && (m <? 14) && (md_number (mode_of m) =? v)).

Lemma mode_numbers_checked : forallb mode_number_ok (seqZ 0 32) = true.
Proof. vm_compute. reflexivity. Qed.

(** The mode has two bits when the second one is clear, otherwise five. *)
Lemma read_mode_bits b : data_ok b -> exists n d,
  (n = 2 /\ bit (num b) 1 = false \/ n = 5 /\ bit (num b) 1 = true) /\
  read_mode b = (modeToIndex (bits 0 n (num b)), d) /\ data_ok d /\ num d = Z.shiftr (num b) n.
Proof.
  intros Hb. unfold read_mode.
  assert (E2 : Z.land (da_low b) 2 = 0 <-> bit (num b) 1 = false).
  { unfold num. rewrite Z.add_comm, Z.mul_comm, <- (lor_shiftl_add 64), Z.lor_spec, Z.shiftl_spec_low, orb_false_l by (destruct Hb; lia).
    split; intros H.
    - apply (f_equal (fun z => bit z 1)) in H. rewrite Z.land_spec, Z.testbit_0_l in H. by rewrite andb_true_r in H.
    - apply Z.bits_inj'. intros i Hi. rewrite Z.land_spec, Z.testbit_0_l. destruct (decide (i = 1)) as [->|]; [by rewrite H|].
      change 2 with (2 ^ 1). rewrite Z.pow2_bits_false by lia. apply andb_false_r. }
  assert (Hcase : exists n, (n = 2 /\ bit (num b) 1 = false \/ n = 5 /\ bit (num b) 1 = true) /\
    (if Z.land (da_low b) 2 =? 0 then consumeBits 1 0 b else consumeBits 4 0 b) = consumeBits (n - 1) 0 b).
  { destruct (Z.eqb_spec (Z.land (da_low b) 2) 0) as [E|E]; [exists 2|exists 5]; split; try done; [left|right]; split; try done; [by apply E2|].
    destruct (bit (num b) 1) eqn:Eb; [done|]. exfalso. tauto. }
  destruct Hcase as (n & Hn & ->). destruct (consumeBits_low n b ltac:(lia) Hb) as (d & -> & Hd & Ed).
  assert (Hr : 0 <= bits 0 n (num b) < 2 ^ n) by (apply bits_range; lia).
  exists n, d. rewrite (wrap_small 8) by (destruct Hn as [[-> _]|[-> _]]; lia). done.
Qed.

(** The mode of a block: none, or that of a description. *)
Lemma read_mode_spec b : data_ok b ->
  let (m, d) := read_mode b in
  data_ok d /\ (m = -1 \/ 0 <= m < 14 /\ num b = md_number (mode_of m) + 2 ^ mode_width m * num d).
Proof.
  intros Hb. destruct (read_mode_bits b Hb) as (n & d & Hn & -> & Hd & Ed).
  assert (Hr : 0 <= bits 0 n (num b) < 2 ^ n) by (apply bits_range; lia).
  assert (H32 : 0 <= bits 0 n (num b) < 32) by (destruct Hn as [[-> _]|[-> _]]; lia).
  split; [done|]. pose proof (forallb_seqZ _ _ _ mode_numbers_checked H32) as Hok. unfold mode_number_ok in Hok.
  apply orb_prop in Hok as [Hok|Hok]; [left; lia|right]. rewrite !andb_true_iff in Hok. destruct Hok as [Hm Hnum]. apply Z.eqb_eq in Hnum.
  split; [lia|]. rewrite Hnum, Ed, Z.shiftr_div_pow2 by lia. unfold mode_width. rewrite Hnum.
  assert (Hbit : bit (bits 0 n (num b)) 1 = bit (num b) 1) by (rewrite testbit_bits by lia; zcase; [done|lia]).
  assert (Hw : (if bits 0 n (num b) <? 2 then 2 else 5) = n).
  { destruct Hn as [[-> Hb1]|[-> Hb1]]; rewrite Hb1 in Hbit; match goal with |- context [?x <? 2] => destruct (Z.ltb_spec x 2) as [|Hge] end; try done; exfalso.
    - assert (bits 0 2 (num b) = 2 \/ bits 0 2 (num b) = 3) as [E|E] by lia; by rewrite E in Hbit.
    - rewrite (testbit_high _ 1) in Hbit by lia. done. }
  rewrite Hw, bits_div_mod by lia. change (2 ^ 0) with 1. rewrite Z.div_1_r. pose proof (Z.div_mod (num b) (2 ^ n) ltac:(lia)). lia.
Qed.

(** ** Endpoints *)

Definition rgb_ok (e : RGBf) : Prop :=
  length (rf_channel e) = 3%nat /\ length (rf_size e) = 3%nat /\ Forall (fun c => 0 <= c < 2 ^ 16) (rf_channel e).

Lemma RGBf_new_ok isSigned : rgb_ok (RGBf_new isSigned).
Proof. split_and!; [done|done|]. repeat constructor; lia. Qed.

Lemma Forall_zip_with {A B : Type} (P : Z -> Prop) (f : A -> B -> Z) la lb : (forall a b, a ∈ la -> P (f a b)) -> Forall P (zip_with f la lb).
Proof.
  intros H. revert lb. induction la as [|a la IH]; intros [|b lb]; simpl; try constructor.
  - apply H. left.
  - apply IH. intros a' b' Ha. apply H. by right.
Qed.

Lemma extendSign_ok e : rgb_ok e -> rgb_ok (RGBf_extendSign e).
Proof.
  intros (H1 & H2 & H3). split_and!; cbn [RGBf_extendSign rf_channel rf_size]; [rewrite length_zip_with; lia|done|].
  apply Forall_zip_with. intros. by apply wrap_range.
Qed.

Lemma resolveDelta_ok base e : rgb_ok base -> rgb_ok e -> rgb_ok (resolveDelta base e).
Proof.
  intros (H1 & H2 & H3) (H4 & H5 & H6). unfold resolveDelta.
  match goal with |- rgb_ok (if rf_isSigned ?x then _ else _) => assert (Hx : rgb_ok x) end.
  { split_and!; cbn [rf_channel rf_size]; [rewrite !length_zip_with; lia|done|]. apply Forall_zip_with. intros [b s] c _. by apply wrap_range. }
  destruct (rf_isSigned _); [by apply extendSign_ok|done].
Qed.

Lemma unquantize_channel isSigned c size : 0 <= c < 2 ^ 16 ->
  0 <= fst ((if isSigned : bool then unquantizeSigned else unquantizeUnsigned) c size) < 2 ^ 16.
Proof.
  intros Hc. destruct isSigned; [unfold unquantizeSigned|unfold unquantizeUnsigned].
  - destruct (_ || _); [done|]. by apply wrap_range.
  - destruct (_ || _); [done|]. destruct (c =? _); cbn [fst]; [lia|by apply wrap_range].
Qed.

Lemma unquantize_ok e : rgb_ok e -> rgb_ok (unquantize e).
Proof.
  intros (H1 & H2 & H3). split_and!; cbn [unquantize rf_channel rf_size]; rewrite ?length_map, ?length_zip_with; [lia|lia|].
  generalize dependent (rf_size e). generalize dependent (rf_channel e). intros cs _ Hcs ss _. revert ss.
  induction Hcs as [|c cs Hc _ IH]; intros [|s ss]; simpl; constructor; [by apply unquantize_channel|apply IH].
Qed.

Lemma from_endpoint_ok first md f e : (forall x, rgb_ok x -> rgb_ok (f x)) -> Forall rgb_ok e -> Forall rgb_ok (from_endpoint first md f e).
Proof.
  intros Hf He. unfold from_endpoint. apply Forall_lookup. intros i x Hx. rewrite list_lookup_imap in Hx. apply fmap_Some in Hx as (y & Hy & ->).
  pose proof (Forall_lookup_1 _ _ _ _ He Hy). destruct (_ && _); [by apply Hf|done].
Qed.

Lemma lookup_ok isSigned e i : Forall rgb_ok e -> rgb_ok (default (RGBf_new isSigned) (e !! i)).
Proof. intros He. destruct (e !! i) as [x|] eqn:E; [by apply (Forall_lookup_1 _ _ _ _ He E)|apply RGBf_new_ok]. Qed.

Lemma endpoints_ok isSigned h : Forall rgb_ok (hd_e h) -> Forall rgb_ok (endpoints isSigned h).
Proof.
  intros He. unfold endpoints. apply from_endpoint_ok; [apply unquantize_ok|].
  set (e := if isSigned then _ else _).
  assert (He' : Forall rgb_ok e) by (subst e; destruct isSigned; [|destruct (md_hasDelta _)]; try done; apply from_endpoint_ok; done || apply extendSign_ok).
  destruct (md_hasDelta _); [|done]. apply from_endpoint_ok; [|done]. intros x Hx. apply resolveDelta_ok; [by apply lookup_ok|done].
Qed.

Lemma header_rgb_ok isSigned m d : 0 <= m < 14 -> data_ok d -> Forall rgb_ok (hd_e (fst (read_header isSigned m d))).
Proof.
  intros Hm Hd. pose proof (read_header_spec isSigned m d Hm Hd) as H. destruct (read_header isSigned m d) as [h d']. cbn [fst].
  destruct H as (_ & (Hl & Hc & Hg) & Hs & _). apply Forall_lookup. intros ep e He. pose proof (Forall_lookup_1 _ _ _ _ Hc He) as Hce. simpl in Hce.
  split_and!; [done| |].
  - apply (f_equal (fun l => l !! ep)) in Hs. rewrite !list_lookup_fmap, He in Hs. pose proof (lookup_lt_Some _ _ _ He).
    rewrite lookup_seq_lt in Hs by lia. simpl in Hs. injection Hs as ->. done.
  - apply Forall_lookup. intros c v Hv. specialize (Hg (TEndpoint ep c)). simpl in Hg. rewrite He in Hg. simpl in Hg. by rewrite Hv in Hg.
Qed.

(** ** Indices *)

Definition anchor (h : Header) : Z := table_at BC6H_AnchorTable2 (hd_partition h).

(** Where the index of a texel lies behind the header: indices of four bits, or of three; the first
    one and that of the anchor lack their highest bit. *)
Definition index_offset (h : Header) (t : Z) : Z :=
  if md_partitionCount (hd_mode h) =? 1 then (if t =? 0 then 0 else 4 * t - 1)
  else 3 * t - Z.b2z (0 <? t) - Z.b2z (anchor h <? t).
Definition index_width (h : Header) (t : Z) : Z :=
  if md_partitionCount (hd_mode h) =? 1 then 4 - Z.b2z (t =? 0) else 3 - Z.b2z ((t =? 0) || (t =? anchor h)).

(** The colour of a texel given the number with the indices. *)
Definition texel_color (isSigned : bool) (h : Header) (e : list RGBf) (indices t : Z) : list Z :=
  let one := md_partitionCount (hd_mode h) =? 1 in
  let first := if one then 0 else table2_at BC6H_PartitionTable2 (hd_partition h) t * 2 in
  interpolate (default (RGBf_new isSigned) (e !! Z.to_nat first)) (default (RGBf_new isSigned) (e !! Z.to_nat (first + 1)))
    (bits (index_offset h t) (index_width h t) indices) (if one then 4 else 3) isSigned.

Lemma index_offset_succ h t : 0 <= t -> 0 < anchor h -> index_offset h (t + 1) = index_offset h t + index_width h t.
Proof. intros Ht Ha. unfold index_offset, index_width. destruct (_ =? 1); repeat (zcase; cbn [Z.b2z orb] in *); lia. Qed.

Lemma index_width_range h t : 1 <= index_width h t <= 4.
Proof. unfold index_width. destruct (_ =? 1); [destruct (_ =? 0)|destruct (_ || _)]; simpl; lia. Qed.

Lemma bits_shiftr v o s n : 0 <= s -> bits s n (Z.shiftr v o) = bits (o + s) n v.
Proof. intros Hs. unfold bits. by rewrite Z.shiftr_shiftr. Qed.

(** The loop over the texels reads every index at its place. *)
Lemma texels_decode_fold h e dst dstX dstY dstWidth dstHeight dstPitch dstBpp isSigned d ram : data_ok d -> 0 < anchor h ->
  texels_decode h e dst dstX dstY dstWidth dstHeight dstPitch dstBpp isSigned d ram =
    fold_left (fun ram t =>
      if (dstHeight <=? t / 4 + dstY) || (dstWidth <=? t mod 4 + dstX) then ram
      else write_list (dst + dstBpp * (t mod 4) + dstPitch * (t / 4)) (Color_bytes (texel_color isSigned h e (num d) t)) ram) (seqZ 0 16) ram.
Proof.
  intros Hd Ha. unfold texels_decode. change 16 with (Z.of_nat 16). generalize 16%nat as n. intros n.
  match goal with |- snd ?l = ?r => assert (E : exists dn, l = (dn, r) /\ data_ok dn /\ num dn = Z.shiftr (num d) (index_offset h (Z.of_nat n))) end.
  2:{ destruct E as (dn & -> & _). done. }
  assert (Ho : forall t, 0 <= t -> 0 <= index_offset h t).
  { intros t Ht. unfold index_offset. destruct (_ =? 1); repeat (zcase; cbn [Z.b2z]); lia. }
  induction n as [|n IH].
  - exists d. split; [done|]. split; [done|].
    change (Z.of_nat 0) with 0. assert (index_offset h 0 = 0) as -> by (unfold index_offset; destruct (_ =? 1); repeat (zcase; cbn [Z.b2z]); lia). by rewrite Z.shiftr_0_r.
  - destruct IH as (dn & IH & Hdn & En). rewrite seqZ_S, !fold_left_app, IH. cbn [fold_left]. set (t := 0 + Z.of_nat n).
    replace (Z.of_nat n) with t in En by (subst t; lia). assert (Ht : 0 <= t) by (subst t; lia).
    destruct (consumeBits_low (index_width h t) dn ltac:(pose proof (index_width_range h t); lia) Hdn) as (d' & Ec & Hd' & Ed').
    exists d'. replace (Z.of_nat (S n)) with (t + 1) by (subst t; lia). rewrite index_offset_succ by done.
    split; [|split; [done|rewrite Ed', En, Z.shiftr_shiftr; [done|pose proof (index_width_range h t); lia]]].
    rewrite En, bits_shiftr, Z.add_0_r in Ec by lia.
    unfold texel_color. unfold index_width in Ec at 1. unfold anchor in Ec. destruct (_ =? 1); cbv iota beta; rewrite Ec; destruct ((dstHeight <=? t / 4 + dstY) || (dstWidth <=? t mod 4 + dstX)); reflexivity.
Qed.

Lemma Color_bytes_length l : length l = 3%nat -> length (Color_bytes l) = 8%nat.
Proof. intros H. by destruct l as [|a [|b [|c [|]]]]. Qed.

Lemma interpolate_length isSigned e0 e1 v n : rgb_ok e0 -> rgb_ok e1 -> length (interpolate e0 e1 v n isSigned) = 3%nat.
Proof. intros (H0 & _) (H1 & _). unfold interpolate. rewrite length_zip_with. lia. Qed.

Lemma anchors_checked : forallb (fun p => 0 <? table_at BC6H_AnchorTable2 p) (seqZ 0 32) = true.
Proof. vm_compute. reflexivity. Qed.

(** ** Images *)

(** A texel of a block by its definition: black for a reserved mode; otherwise the interpolation of
    the two endpoints of its subset, with the index found at its place in the 128 bits. *)
Definition bc6_texel (isSigned : bool) (b : Data) (i j : Z) : list Z :=
  let (m, d) := read_mode b in
  if m =? -1 then Color_bytes [0; 0; 0]
  else
    let (h, _) := read_header isSigned m d in
    let start := if md_partitionCount (mode_of m) =? 1 then 65 else 82 in
    Color_bytes (texel_color isSigned h (endpoints isSigned h) (Z.shiftr (num b) start) (4 * j + i)).

Lemma partition_range isSigned m d : 0 <= m < 14 -> data_ok d -> 0 <= hd_partition (fst (read_header isSigned m d)) < 32.
Proof.
  intros Hm Hd. pose proof (read_header_spec isSigned m d Hm Hd) as H. destruct (read_header isSigned m d) as [h d']. cbn [fst].
  destruct H as (_ & (_ & _ & Hg) & _ & Hb & _). specialize (Hg TPartition). cbn [hd_get] in Hg. change 32 with (2 ^ 5). apply range_by_bits; [lia|lia|].
  intros i Hi. specialize (Hb TPartition i ltac:(lia)). cbn [hd_get] in Hb. rewrite Hb. destruct (header_bit _ _ _ _) eqn:E; [|done].
  apply header_bit_covers in E. rewrite covers_spec in E by (done || lia || left). unfold target_size in E. destruct (_ =? 2) in E; lia.
Qed.

Lemma after_header isSigned m b d : 0 <= m < 14 -> data_ok b -> data_ok d -> num b = md_number (mode_of m) + 2 ^ mode_width m * num d ->
  let (h, d') := read_header isSigned m d in
  hd_mode h = mode_of m /\ data_ok d' /\ num d' = Z.shiftr (num b) (if md_partitionCount (mode_of m) =? 1 then 65 else 82) /\
  Forall rgb_ok (hd_e h) /\ 0 < anchor h.
Proof.
  intros Hm Hb Hd E. pose proof (read_header_spec isSigned m d Hm Hd) as H. pose proof (header_rgb_ok isSigned m d Hm Hd) as He.
  pose proof (partition_range isSigned m d Hm Hd) as Hp. destruct (read_header isSigned m d) as [h d']. cbn [fst] in *.
  destruct H as (Hmd & _ & _ & _ & Hd' & En). split_and!; [done|done| |done|].
  - destruct (mode_facts m Hm) as (_ & Hn & _ & Hw).
    assert (Hlow : 0 <= md_number (mode_of m) < 2 ^ mode_width m) by (unfold mode_width; destruct (Z.ltb_spec (md_number (mode_of m)) 2); lia).
    assert (Hmw : 0 <= mode_width m) by (unfold mode_width; destruct (_ <? 2); lia).
    assert (Ed : num d = Z.shiftr (num b) (mode_width m)).
    { rewrite Z.shiftr_div_pow2, E, Z.add_comm, Z.mul_comm, Z.div_add_l, Z.div_small by lia. lia. }
    rewrite En, Ed, Z.shiftr_shiftr by apply total_width_nonneg. fold (header_width m). f_equal. destruct Hw as [[-> ->]|[-> ->]]; done.
  - unfold anchor. apply Z.ltb_lt. by apply (forallb_seqZ (fun p => 0 <? table_at BC6H_AnchorTable2 p) 32); [apply anchors_checked|].
Qed.

Section block.
Context (dst width height : Z) (Hwidth : 0 < width).
Let px a := pixel_x dst 8 width a.
Let py a := pixel_y dst 8 width a.

Lemma block_decode_spec isSigned b x y ram a : data_ok b -> 0 <= x -> 0 <= y ->
  block_decode b (dst + x * 8 + y * (8 * width)) x y width height (8 * width) 8 isSigned ram a =
    if decide (x <= px a < x + 4 /\ y <= py a < y + 4 /\ py a < height)
    then default 0 (bc6_texel isSigned b (px a - x) (py a - y) !! Z.to_nat (pixel_k dst 8 a)) else ram a.
Proof.
  intros Hb Hx Hy. unfold block_decode, bc6_texel. pose proof (read_mode_spec b Hb) as Hmode. destruct (read_mode b) as [m d].
  destruct Hmode as (Hd & Hm). destruct (pixel_address dst 8 width ltac:(lia) Hwidth a) as (_ & Hpx & Hk). fold (px a) in Hpx.
  destruct (Z.eqb_spec m (-1)) as [->|Hne].
  - rewrite (each_texel_spec dst 8 width height ltac:(lia) Hwidth _ _ 0 8) by done || lia. fold (px a) (py a).
    repeat case_decide; try lia; try done. by rewrite Z.sub_0_r.
  - destruct Hm as [?|[Hm E]]; [done|]. pose proof (after_header isSigned m b d Hm Hb Hd E) as Hh.
    destruct (read_header isSigned m d) as [h d']. destruct Hh as (Hmd & Hd' & En & He & Ha). rewrite texels_decode_fold, En by done.
    set (e := endpoints isSigned h). assert (He' : Forall rgb_ok e) by (by apply endpoints_ok).
    set (start := if _ =? 1 then _ else _).
    set (bytes t := Color_bytes (texel_color isSigned h e (Z.shiftr (num b) start) t)).
    assert (Hl : forall t, Z.of_nat (length (bytes t)) = 8).
    { intros t. subst bytes. cbv beta. rewrite Color_bytes_length; [done|]. unfold texel_color. apply interpolate_length; by apply lookup_ok. }
    rewrite (fold_owned _ (x <= px a < x + 4 /\ y <= py a < y + 4 /\ py a < height) (4 * (py a - y) + (px a - x))
      (default 0 (bytes (4 * (py a - y) + (px a - x)) !! Z.to_nat (pixel_k dst 8 a)))).
    + repeat case_decide; try done; rewrite ?elem_of_seqZ in *; lia.
    + intros t r Ht. apply elem_of_seqZ in Ht. pose proof (Z.div_mod t 4 ltac:(lia)). pose proof (Z.mod_pos_bound t 4 ltac:(lia)).
      fold (bytes t). destruct ((height <=? _) || _) eqn:Eo.
      * rewrite decide_False; [done|]. intros [(Hpx' & Hpy & Hh) Ho]. apply orb_prop in Eo. lia.
      * apply orb_false_iff in Eo as [Eh Ew]. replace (dst + x * 8 + y * (8 * width) + 8 * (t mod 4) + 8 * width * (t / 4)) with (dst + 0 + (x + t mod 4) * 8 + (y + t / 4) * (8 * width)) by lia.
        rewrite (write_pixel dst 8 width) by (rewrite ?Hl; lia). rewrite Hl. fold (px a) (py a).
        repeat case_decide; try lia; try done. rewrite Z.sub_0_r. do 3 f_equal. lia.
Qed.

End block.

(** ** The published layout *)

(** A row of the tables in which the format is published: the value of the mode field, the number of
    regions, whether all endpoints but the first are differences, where the bits of the endpoints
    [w], [x], [y] and [z] are in the block, for red, green and blue, the low bit first, and where
    those of the number of the partition [d] are. *)
Record Layout : Type := mk_layout {
  la_mode : Z;
  la_regions : Z;
  la_transformed : bool;
  la_endpoints : list (list (list Z));
  la_partition : list Z }.

Definition places_from (first count : Z) : list Z := seqZ first count.

Definition published_layouts : list Layout :=
 [
   mk_layout 0 2 true
     [[places_from 5 10; places_from 15 10; places_from 25 10]; [places_from 35 5; places_from 45 5; places_from 55 5];
      [places_from 65 5; places_from 41 4 ++ [2]; places_from 61 4 ++ [3]]; [places_from 71 5; places_from 51 4 ++ [40]; [50; 60; 70; 76; 4]]]
     (places_from 77 5);
   mk_layout 1 2 true
     [[places_from 5 7; places_from 15 7; places_from 25 7]; [places_from 35 6; places_from 45 6; places_from 55 6];
      [places_from 65 6; places_from 41 4 ++ [24; 2]; places_from 61 4 ++ [14; 22]]; [places_from 71 6; places_from 51 4 ++ [3; 4]; [12; 13; 23; 32; 34; 33]]]
     (places_from 77 5);
   mk_layout 2 2 true
     [[places_from 5 10 ++ [40]; places_from 15 10 ++ [49]; places_from 25 10 ++ [59]]; [places_from 35 5; places_from 45 4; places_from 55 4];
      [places_from 65 5; places_from 41 4; places_from 61 4]; [places_from 71 5; places_from 51 4; [50; 60; 70; 76]]]
     (places_from 77 5);
   mk_layout 6 2 true
     [[places_from 5 10 ++ [39]; places_from 15 10 ++ [50]; places_from 25 10 ++ [59]]; [places_from 35 4; places_from 45 5; places_from 55 4];
      [places_from 65 4; places_from 41 4 ++ [75]; places_from 61 4]; [places_from 71 4; places_from 51 4 ++ [40]; [69; 60; 70; 76]]]
     (places_from 77 5);
   mk_layout 10 2 true
     [[places_from 5 10 ++ [39]; places_from 15 10 ++ [49]; places_from 25 10 ++ [60]]; [places_from 35 4; places_from 45 4; places_from 55 5];
      [places_from 65 4; places_from 41 4; places_from 61 4 ++ [40]]; [places_from 71 4; places_from 51 4; [50; 69; 70; 76; 75]]]
     (places_from 77 5);
   mk_layout 14 2 true
     [[places_from 5 9; places_from 15 9; places_from 25 9]; [places_from 35 5; places_from 45 5; places_from 55 5];
      [places_from 65 5; places_from 41 4 ++ [24]; places_from 61 4 ++ [14]]; [places_from 71 5; places_from 51 4 ++ [40]; [50; 60; 70; 76; 34]]]
     (places_from 77 5);
   mk_layout 18 2 true
     [[places_from 5 8; places_from 15 8; places_from 25 8]; [places_from 35 6; places_from 45 5; places_from 55 5];
      [places_from 65 6; places_from 41 4 ++ [24]; places_from 61 4 ++ [14]]; [places_from 71 6; places_from 51 4 ++ [13]; [50; 60; 23; 33; 34]]]
     (places_from 77 5);
   mk_layout 22 2 true
     [[places_from 5 8; places_from 15 8; places_from 25 8]; [places_from 35 5; places_from 45 6; places_from 55 5];
      [places_from 65 5; places_from 41 4 ++ [24; 23]; places_from 61 4 ++ [14]]; [places_from 71 5; places_from 51 4 ++ [40; 33]; [13; 60; 70; 76; 34]]]
     (places_from 77 5);
   mk_layout 26 2 true
     [[places_from 5 8; places_from 15 8; places_from 25 8]; [places_from 35 5; places_from 45 5; places_from 55 6];
      [places_from 65 5; places_from 41 4 ++ [24]; places_from 61 4 ++ [14; 23]]; [places_from 71 5; places_from 51 4 ++ [40]; [50; 13; 70; 76; 34; 33]]]
     (places_from 77 5);
   mk_layout 30 2 false
     [[places_from 5 6; places_from 15 6; places_from 25 6]; [places_from 35 6; places_from 45 6; places_from 55 6];
      [places_from 65 6; places_from 41 4 ++ [24; 21]; places_from 61 4 ++ [14; 22]]; [places_from 71 6; places_from 51 4 ++ [11; 31]; [12; 13; 23; 32; 34; 33]]]
     (places_from 77 5);
   mk_layout 3 1 false
     [[places_from 5 10; places_from 15 10; places_from 25 10]; [places_from 35 10; places_from 45 10; places_from 55 10]] [];
   mk_layout 7 1 true
     [[places_from 5 10 ++ [44]; places_from 15 10 ++ [54]; places_from 25 10 ++ [64]]; [places_from 35 9; places_from 45 9; places_from 55 9]] [];
   mk_layout 11 1 true
     [[places_from 5 10 ++ [44; 43]; places_from 15 10 ++ [54; 53]; places_from 25 10 ++ [64; 63]]; [places_from 35 8; places_from 45 8; places_from 55 8]] [];
   mk_layout 15 1 true
     [[places_from 5 10 ++ [44; 43; 42; 41; 40; 39]; places_from 15 10 ++ [54; 53; 52; 51; 50; 49]; places_from 25 10 ++ [64; 63; 62; 61; 60; 59]]; [places_from 35 4; places_from 45 4; places_from 55 4]] []].

Definition la_positions (l : Layout) (t : Target) : list Z :=
  match t with
  | TEndpoint ep c => default [] (e ← la_endpoints l !! ep; e !! c)
  | TPartition => la_partition l
  end.

(** Where the indices begin. *)
Definition la_indices (l : Layout) : Z := if la_regions l =? 1 then 65 else 82.

(** The number with the bits of [v] at the given places. *)
Definition gather (places : list Z) (v : Z) : Z := foldr (fun p x => Z.b2z (bit v p) + 2 * x) 0 places.

(** The mode field has two bits when the second one is clear, otherwise five. *)
Definition mode_field (v : Z) : Z := bits 0 (if bit v 1 then 5 else 2) v.
Definition published_layout (v : Z) : option Layout := find (fun l => la_mode l =? mode_field v) published_layouts.

Lemma gather_bit places v i : 0 <= i -> bit (gather places v) i = default false (bit v <$> places !! Z.to_nat i).
Proof.
  revert i. induction places as [|p places IH]; intros i Hi; cbn [gather foldr]; [by rewrite Z.testbit_0_l|]. fold (gather places v).
  destruct (Z.eq_dec i 0) as [->|Hne].
  - by rewrite Z.add_b2z_double_bit0.
  - replace (Z.to_nat i) with (S (Z.to_nat (i - 1))) by lia. cbn [lookup list_lookup]. rewrite <- IH by lia.
    replace i with (Z.succ (i - 1)) at 1 by lia. rewrite Z.add_comm. destruct (bit v p); [apply Z.testbit_odd_succ|rewrite Z.add_0_r; apply Z.testbit_even_succ]; lia.
Qed.

(** Where the description of a mode has the bit [i] of a target, [o] bits having gone before. *)
Fixpoint sources (descs : list BlockDesc) (t : Target) (i o : Z) : list Z :=
  match descs with
  | [] => []
  | desc :: descs =>
      (if bool_decide (target desc = Some t) && in_field (bd_MSB desc) (bd_LSB desc) i then [o + field_source (bd_MSB desc) (bd_LSB desc) i] else []) ++
      sources descs t i (o + desc_width desc)
  end.

Lemma header_bit_sources descs t i v o : 0 <= o -> header_bit descs t i (Z.shiftr v o) = existsb (bit v) (sources descs t i o).
Proof.
  revert o. induction descs as [|desc descs IH]; intros o Ho; [done|]. cbn [header_bit sources]. rewrite existsb_app, Z.shiftr_shiftr by (pose proof (desc_width_pos desc); lia).
  rewrite IH by (pose proof (desc_width_pos desc); lia). f_equal. case_bool_decide; [|done]. cbn [andb].
  destruct (in_field _ _ i) eqn:Ei; [|done]. cbn [existsb andb]. rewrite orb_false_r. unfold in_field, field_source in *.
  rewrite Z.shiftr_spec by (zcase; lia). f_equal. lia.
Qed.

(** A row of the published tables agrees with the code's description of the mode. *)
Definition layout_ok (l : Layout) : bool :=
  let m := modeToIndex (la_mode l) in
  (0 <=? m) && (m <? 14) && (md_number (mode_of m) =? la_mode l) && Bool.eqb (md_hasDelta (mode_of m)) (la_transformed l) &&
  (md_partitionCount (mode_of m) =? la_regions l) && (header_width m =? la_indices l) &&
  forallb (fun t => (length (la_positions l t) <=? 16)%nat && (Z.of_nat (length (la_positions l t)) =? target_size m t) &&
    forallb (fun i => bool_decide (sources (fields_of m) t i (mode_width m) = option_list (la_positions l t !! Z.to_nat i))) (seqZ 0 17)) targets.

Lemma layouts_checked : forallb layout_ok published_layouts = true.
Proof. vm_compute. reflexivity. Qed.

(** A mode has a row in the tables or is reserved. *)
Definition mode_known (v : Z) : bool :=
  (modeToIndex v =? -1) || existsb (fun l => la_mode l =? v) published_layouts.

Lemma modes_known : forallb mode_known (seqZ 0 32) = true.
Proof. vm_compute. reflexivity. Qed.

Lemma mode_field_width v : (if mode_field v <? 2 then 2 else 5) = if bit v 1 then 5 else 2.
Proof.
  unfold mode_field. set (n := if bit v 1 then 5 else 2). assert (Hn : 2 <= n) by (subst n; destruct (bit v 1); lia).
  pose proof (bits_range 0 n v ltac:(lia)) as Hr. assert (Hb : bit (bits 0 n v) 1 = bit v 1) by (rewrite testbit_bits by lia; zcase; [done|lia]).
  subst n. destruct (bit v 1); match goal with |- context [?x <? 2] => destruct (Z.ltb_spec x 2) as [Hl|Hl] end; try done.
  - rewrite (testbit_high _ 1) in Hb by lia. done.
  - exfalso. assert (bits 0 2 v = 2 \/ bits 0 2 v = 3) as [E|E] by lia; by rewrite E in Hb.
Qed.

Lemma mode_field_read b : data_ok b -> exists d,
  0 <= mode_field (num b) < 32 /\ read_mode b = (modeToIndex (mode_field (num b)), d) /\ data_ok d /\ num d = Z.shiftr (num b) (if mode_field (num b) <? 2 then 2 else 5).
Proof.
  intros Hb. destruct (read_mode_bits b Hb) as (n & d & Hn & Hr & Hd & Ed). rewrite mode_field_width.
  assert (En : (if bit (num b) 1 then 5 else 2) = n) by (by destruct Hn as [[-> ->]|[-> ->]]).
  assert (0 <= bits 0 n (num b) < 2 ^ n) by (apply bits_range; lia).
  exists d. unfold mode_field. rewrite En. split_and!; try done; destruct Hn as [[-> _]|[-> _]]; lia.
Qed.

Lemma layout_facts l : l ∈ published_layouts ->
  let m := modeToIndex (la_mode l) in
  0 <= m < 14 /\ md_number (mode_of m) = la_mode l /\ md_hasDelta (mode_of m) = la_transformed l /\ md_partitionCount (mode_of m) = la_regions l /\
  header_width m = la_indices l /\
  (forall t, t ∈ targets -> (length (la_positions l t) <= 16)%nat /\ Z.of_nat (length (la_positions l t)) = target_size m t /\
    forall i, 0 <= i < 17 -> sources (fields_of m) t i (mode_width m) = option_list (la_positions l t !! Z.to_nat i)).
Proof.
  intros Hl m. pose proof layouts_checked as H. rewrite forallb_forall in H. apply list_elem_of_In in Hl. specialize (H l Hl). unfold layout_ok in H. fold m in H.
  rewrite !andb_true_iff in H. destruct H as ((((((H1 & H2) & H3) & H4) & H5) & H6) & H7). split; [lia|]. split; [lia|]. split; [by apply Bool.eqb_prop|].
  split; [lia|]. split; [lia|]. intros t Ht. rewrite forallb_forall in H7. apply list_elem_of_In in Ht. specialize (H7 t Ht). cbv beta in H7. rewrite !andb_true_iff in H7.
  destruct H7 as ((H7 & H8) & H9). split; [by apply Nat.leb_le|]. split; [lia|]. intros i Hi.
  pose proof (forallb_seqZ _ _ _ H9 Hi) as H10. cbv beta in H10. by apply bool_decide_eq_true_1 in H10.
Qed.

(** C25: the headers of BC6H blocks are read as the format is published.  [published_layouts] is the
    table of the format in the published form, which says for each mode where in the block each bit
    of each endpoint and of the partition is; it is not derived from the code's lists of fields.
    For every block, a mode field of two bits or five that is not in the table is refused;
    otherwise the code takes the mode with that number, regions and transform, every endpoint
    channel and the partition consist of exactly the bits of the block at the published places,
    also where they are stored in reverse, the sizes of the channels are the published ones, and
    the bits that are left are those of the indices. *)
Theorem bc6_header_layout (isSigned : bool) (b : Data) : data_ok b ->
  match published_layout (num b) with
  | None => fst (read_mode b) = -1
  | Some l => exists m d h d', read_mode b = (m, d) /\ read_header isSigned m d = (h, d') /\
      md_number (hd_mode h) = la_mode l /\ md_hasDelta (hd_mode h) = la_transformed l /\ md_partitionCount (hd_mode h) = la_regions l /\
      (forall t, t ∈ targets -> hd_get h t = gather (la_positions l t) (num b)) /\
      (forall ep c, Z.of_nat ep < 2 * la_regions l -> (c < 3)%nat ->
         (e ← hd_e h !! ep; rf_size e !! c) = Some (Z.of_nat (length (la_positions l (TEndpoint ep c))))) /\
      num d' = Z.shiftr (num b) (la_indices l)
  end.
Proof.
  intros Hb. destruct (mode_field_read b Hb) as (d & H32 & Hr & Hd & Ed). unfold published_layout. rewrite Hr.
  destruct (find _ published_layouts) as [l|] eqn:Ef.
  - apply find_some in Ef as [Hl Ev]. apply Z.eqb_eq in Ev. apply list_elem_of_In in Hl. rewrite <- Ev in *.
    destruct (layout_facts l Hl) as (Hm & F1 & F2 & F3 & F4 & F5). set (m := modeToIndex (la_mode l)) in *.
    change (num d = Z.shiftr (num b) (if la_mode l <? 2 then 2 else 5)) in Ed. rewrite <- F1 in Ed. fold (mode_width m) in Ed.
    assert (Hw : 0 <= mode_width m) by (unfold mode_width; destruct (_ <? 2); lia).
    pose proof (read_header_spec isSigned m d Hm Hd) as H. destruct (read_header isSigned m d) as [h d'] eqn:Eh. destruct H as (H1 & H2 & H3 & H4 & _ & H6).
    exists m, d, h, d'. rewrite H1. split_and!; try done.
    + intros t Ht. destruct (F5 t Ht) as (G1 & _ & G3). apply Z.bits_inj'. intros i Hi. rewrite H4, gather_bit, Ed, header_bit_sources by lia.
      destruct (Z_lt_le_dec i 17) as [Hi17|Hi17]; [rewrite G3 by lia; destruct (la_positions l t !! Z.to_nat i); simpl; [apply orb_false_r|done]|].
      rewrite <- header_bit_sources, lookup_ge_None_2 by lia. simpl. destruct (header_bit _ t i _) eqn:E; [|done].
      apply header_bit_covers, covers_low in E; [lia|by apply fields_ok].
    + intros ep c Hep Hc. rewrite <- F3 in Hep. destruct (mode_facts m Hm) as (_ & _ & _ & Hp). assert (He4 : (ep < 4)%nat) by lia.
      destruct (F5 _ (targets_spec ep c He4 Hc)) as (_ & -> & _). apply (f_equal (fun x => x !! ep)) in H3. rewrite !list_lookup_fmap, lookup_seq_lt in H3 by done.
      destruct (hd_e h !! ep) as [e|]; [|done]. injection H3 as E3. cbn [mbind option_bind]. rewrite E3. unfold target_size. rewrite (proj2 (Z.ltb_lt _ _)), (proj2 (Nat.ltb_lt _ _)) by done.
      do 3 (destruct c as [|c]; [done|]). lia.
    + rewrite H6, Ed, Z.shiftr_shiftr by apply total_width_nonneg. by rewrite <- F4.
  - cbn [fst]. pose proof (forallb_seqZ _ _ _ modes_known H32) as Hk. unfold mode_known in Hk. apply orb_prop in Hk as [Hk|Hk]; [lia|].
    apply existsb_exists in Hk as (l & Hl & Ev). by rewrite (find_none _ _ Ef l Hl) in Ev.
Qed.

(** A block of the mode with twelve-bit endpoints whose two high bits are reversed, and a block of a
    reserved mode. *)
Lemma bc6_header_layout_witness : exists m d h d',
  let b := mk_data (11 + 2 ^ 5 * 0x3FF + 2 ^ 43) 0 in
  read_mode b = (m, d) /\ read_header true m d = (h, d') /\ hd_get h (TEndpoint 0 0) = 0xBFF /\ num d' = 0 /\ fst (read_mode (mk_data 0x13 0)) = -1.
Proof.
  pose proof (bc6_header_layout true (mk_data (11 + 2 ^ 5 * 0x3FF + 2 ^ 43) 0) ltac:(split; cbn; lia)) as H.
  pose proof (bc6_header_layout true (mk_data 0x13 0) ltac:(split; cbn; lia)) as H'.
  destruct (published_layout (num (mk_data (11 + 2 ^ 5 * 0x3FF + 2 ^ 43) 0))) as [l|] eqn:El; vm_compute in El; [|discriminate El]. injection El as <-.
  destruct H as (m & d & h & d' & H1 & H2 & _ & _ & _ & H6 & _ & H8). exists m, d, h, d'. intros b. split; [exact H1|]. split; [exact H2|].
  split; [|split; [rewrite H8; reflexivity|exact H']].
  rewrite (H6 (TEndpoint 0 0)); [reflexivity|]. by apply (bool_decide_unpack _).
Defined.

(** ** Values *)

(** A value between zero and 65535 scaled to the finite half floats. *)
Definition finish (e : Z) : Z := e * 31 / 64.

Lemma interpolate_unsigned w e0 e1 : 0 <= w <= 64 -> 0 <= e0 < 2 ^ 16 -> 0 <= e1 < 2 ^ 16 ->
  interpolate_channel false w e0 e1 = finish ((e0 * (64 - w) + e1 * w + 32) / 64).
Proof.
  intros Hw H0 H1. unfold interpolate_channel, finish. rewrite !(wrap_small 32 e0), !(wrap_small 32 e1) by lia.
  assert (Ha : 0 <= e0 * (64 - w) <= 65535 * (64 - w)) by nia. assert (Hb : 0 <= e1 * w <= 65535 * w) by nia.
  rewrite !swrap_small by (change (2 ^ (32 - 1)) with 2147483648; lia). rewrite !Z.shiftr_div_pow2 by lia. change (2 ^ 6) with 64.
  set (s := e0 * (64 - w) + e1 * w + 32). assert (Hs : 0 <= s / 64 < 65536) by (split; [apply Z.div_pos; lia|apply Z.div_lt_upper_bound; lia]).
  rewrite !(wrap_small 32) by (rewrite ?wrap_small; lia). apply wrap_small. split; [apply Z.div_pos; lia|apply Z.div_lt_upper_bound; lia].
Qed.

(** The value of a channel lies between those of the endpoints. *)
Lemma interpolate_between w e0 e1 : 0 <= w <= 64 -> 0 <= e0 < 2 ^ 16 -> 0 <= e1 < 2 ^ 16 ->
  Z.min (finish e0) (finish e1) <= interpolate_channel false w e0 e1 <= Z.max (finish e0) (finish e1).
Proof.
  intros Hw H0 H1. rewrite interpolate_unsigned by done. set (v := (e0 * (64 - w) + e1 * w + 32) / 64).
  assert (Hv : Z.min e0 e1 <= v <= Z.max e0 e1).
  { subst v. split; [apply Z.div_le_lower_bound; nia|]. assert ((e0 * (64 - w) + e1 * w + 32) / 64 < Z.max e0 e1 + 1); [apply Z.div_lt_upper_bound; nia|lia]. }
  assert (Hmono : forall a b, a <= b -> finish a <= finish b) by (intros a b Hab; unfold finish; apply Z.div_le_mono; lia).
  destruct (Z_le_gt_dec e0 e1).
  - pose proof (Hmono e0 v ltac:(lia)). pose proof (Hmono v e1 ltac:(lia)). lia.
  - pose proof (Hmono e1 v ltac:(lia)). pose proof (Hmono v e0 ltac:(lia)). lia.
Qed.

Lemma finish_finite e : 0 <= e < 2 ^ 16 -> 0 <= finish e <= 0x7BFF.
Proof. intros He. unfold finish. split; [apply Z.div_pos; lia|]. apply Z.lt_succ_r. apply Z.div_lt_upper_bound; lia. Qed.

Lemma weights_range n v : 0 <= table_at (if n =? 3 then weights3 else weights4) v <= 64.
Proof.
  assert (H : Forall (fun w => 0 <= w <= 64) (if n =? 3 then weights3 else weights4)) by (destruct (n =? 3); repeat constructor; lia).
  unfold table_at. destruct (_ !! _) eqn:E; simpl; [|lia]. exact (Forall_lookup_1 _ _ _ _ H E).
Qed.

Lemma interpolate_finite e0 e1 v n : rgb_ok e0 -> rgb_ok e1 -> Forall (fun c => 0 <= c <= 0x7BFF) (interpolate e0 e1 v n false).
Proof.
  intros (_ & _ & H0) (_ & _ & H1). unfold interpolate. pose proof (weights_range n v) as Hw. set (w := table_at _ _) in *. clearbody w.
  revert H1. generalize (rf_channel e1) as l1. induction H0 as [|c0 l0 Hc0 _ IH]; intros l1 H1; [constructor|].
  destruct H1 as [|c1 l1 Hc1 H1]; [constructor|]. constructor; [|by apply IH].
  pose proof (interpolate_between w c0 c1 Hw Hc0 Hc1). pose proof (finish_finite c0 Hc0). pose proof (finish_finite c1 Hc1). lia.
Qed.

(** A signed endpoint of -32768, which only the mode with sixteen bits has, becomes minus infinity. *)
Lemma signed_lowest_is_infinite : interpolate_channel true 0 0x8000 0x8000 = 0xFC00.
Proof. reflexivity. Qed.

(** ** Results *)

Lemma load_block_ok src p : bytes src -> data_ok (load_block src p).
Proof. intros Hs. split; apply (load_range src 8); done. Qed.

(** C26: decoding a BC6H image writes every pixel of the image and nothing else: the pixel is the
    texel of its block, black where the mode is reserved, otherwise mixed from the two endpoints of
    the texel's subset by the index that lies at its place in the 128 bits of the block, which does
    not depend on what of the block is outside of the image.  In an unsigned image every channel is a
    finite half float. *)
Theorem bc6_image (src : Z -> Z) (dst width height : Z) (isSigned : bool) (ram : host_ram) :
  bytes src -> 0 < width -> 0 <= height ->
  holds_image dst 8 width height (fun b => bc6_texel isSigned (load_block src (16 * b))) ram (DecodeBc6 src dst width height isSigned ram) /\
  (forall b i j, exists r g b', bc6_texel false (load_block src (16 * b)) i j = Color_bytes [r; g; b'] /\
     0 <= r <= 0x7BFF /\ 0 <= g <= 0x7BFF /\ 0 <= b' <= 0x7BFF).
Proof.
  intros Hs Hw Hh. split.
  - apply image_written; [done|done|done|]. intros b x y r a Hx Hy. by apply block_decode_spec; [|apply load_block_ok| |].
  - intros b i j. unfold bc6_texel. pose proof (load_block_ok src (16 * b) Hs) as Hb. set (blk := load_block src (16 * b)) in *.
    pose proof (read_mode_spec blk Hb) as Hm. destruct (read_mode blk) as [m d]. destruct Hm as [Hd Hm].
    destruct (Z.eqb_spec m (-1)) as [->|Hne]; [exists 0, 0, 0; split; [done|lia]|]. destruct Hm as [?|[Hm _]]; [done|].
    pose proof (header_rgb_ok false m d Hm Hd) as He. destruct (read_header false m d) as [h d']. cbn [fst] in He. apply (endpoints_ok false) in He.
    unfold texel_color. match goal with |- context [Color_bytes (interpolate ?a ?b ?c ?d false)] => pose proof (interpolate_finite a b c d (lookup_ok _ _ _ He) (lookup_ok _ _ _ He)) as Hf; pose proof (interpolate_length false a b c d (lookup_ok _ _ _ He) (lookup_ok _ _ _ He)) as Hl; destruct (interpolate a b c d false) as [|r [|g [|b' [|]]]] end; try done.
    exists r, g, b'. split; [done|]. rewrite !Forall_cons in Hf. tauto.
Qed.

Lemma bc6_image_witness :
  holds_image 64 8 5 3 (fun b => bc6_texel false (load_block example_source (16 * b))) (fun _ => 0) (DecodeBc6 example_source 64 5 3 false (fun _ => 0)).
Proof.
  refine (proj1 (bc6_image example_source 64 5 3 false (fun _ => 0) _ _ _)); [|lia|lia]. intros p. apply Z.mod_pos_bound. lia.
Defined.

(** A pixel of the second block of that image. *)
Lemma bc6_example_pixel : map (DecodeBc6 example_source 64 5 3 false (fun _ => 0)) (seqZ (64 + 8 * 4) 8) = bc6_texel false (load_block example_source 16) 0 0.
Proof. vm_compute. reflexivity. Qed.
