(* ===== verification/Bc7.v ===== *)
(** * Decoder of BC7 textures ([BC7] of [gpu/texture/bc_decoder.cpp])

    A block of 128 bits holds its mode in unary, a partition of the texels into up to three subsets,
    a rotation of the channels, the endpoints of the subsets, bits shared by the channels of an
    endpoint, and one or two sets of indices.  The decoder takes every field by its place; the
    indices, of which those of the anchors are a bit shorter, are found by two running offsets. *)

From S2P Require Import Prelude AddressSpace FlatMemory BcTables Bc Bc6h.

(** ** Fields *)

Record Bitfield : Type := mk_bitfield { bf_offset : Z; bf_count : Z }.

Definition Then (b : Bitfield) (bits : Z) : Bitfield := mk_bitfield (bf_offset b + bf_count b) bits.

Section mode.
Context (m : Mode).

Definition NumColors : Z := mo_NS m * 2.
Definition Partition : Bitfield := mk_bitfield (mo_IDX m + 1) (mo_PB m).
Definition Rotation : Bitfield := Then Partition (mo_RB m).
Definition IndexSelection : Bitfield := Then Rotation (mo_ISB m).
Definition Red (idx : Z) : Bitfield := Then (Then IndexSelection (mo_CB m * idx)) (mo_CB m).
Definition Green (idx : Z) : Bitfield := Then (Then (Red (NumColors - 1)) (mo_CB m * idx)) (mo_CB m).
Definition Blue (idx : Z) : Bitfield := Then (Then (Green (NumColors - 1)) (mo_CB m * idx)) (mo_CB m).
Definition Alpha (idx : Z) : Bitfield := Then (Then (Blue (NumColors - 1)) (mo_AB m * idx)) (mo_AB m).
Definition EndpointPBit (idx : Z) : Bitfield := Then (Then (Alpha (NumColors - 1)) (mo_EPB m * idx)) (mo_EPB m).
Definition SharedPBit0 : Bitfield := Then (EndpointPBit (NumColors - 1)) (mo_SPB m).
Definition SharedPBit1 : Bitfield := Then SharedPBit0 (mo_SPB m).
Definition PrimaryIndex (offset count : Z) : Bitfield := Then (Then SharedPBit1 offset) count.
Definition SecondaryIndex (offset count : Z) : Bitfield := Then (Then SharedPBit1 (mo_IBC m + offset)) count.

End mode.

(** The block is the pair of 64-bit numbers of [Bc6h.Data]. *)
Definition Get (b : Data) (bf : Bitfield) : Z :=
  let mask := u64 (Z.shiftl 1 (bf_count bf)) - 1 in
  if bf_offset bf + bf_count bf <=? 64 then Z.land (Z.shiftr (da_low b) (bf_offset bf)) mask
  else if 64 <=? bf_offset bf then Z.land (Z.shiftr (da_high b) (bf_offset bf - 64)) mask
  else Z.land (Z.lor (Z.shiftr (da_low b) (bf_offset bf)) (u64 (Z.shiftl (da_high b) (64 - bf_offset bf)))) mask.

Definition Mode_invalid : Mode := mk_mode (-1) 0 0 0 0 0 0 0 0 0 0 0.
Definition Mode_at (i : Z) : Mode := default Mode_invalid (Modes !! Z.to_nat i).

Definition block_mode (b : Data) : Mode :=
  let low := da_low b in
  if negb (Z.land low 0x01 =? 0) then Mode_at 0
  else if negb (Z.land low 0x02 =? 0) then Mode_at 1
  else if negb (Z.land low 0x04 =? 0) then Mode_at 2
  else if negb (Z.land low 0x08 =? 0) then Mode_at 3
  else if negb (Z.land low 0x10 =? 0) then Mode_at 4
  else if negb (Z.land low 0x20 =? 0) then Mode_at 5
  else if negb (Z.land low 0x40 =? 0) then Mode_at 6
  else if negb (Z.land low 0x80 =? 0) then Mode_at 7
  else Mode_at 8.

(** ** Colours: the bytes are blue, green, red and alpha in memory *)

Record Color7 : Type := mk_color7 { c7_r : Z; c7_g : Z; c7_b : Z; c7_a : Z }.

Definition rgb_map (f : Z -> Z) (c : Color7) : Color7 := mk_color7 (f (c7_r c)) (f (c7_g c)) (f (c7_b c)) (c7_a c).
Definition rgb_shl (shift : Z) (c : Color7) : Color7 := rgb_map (fun v => u8 (Z.shiftl v shift)) c.
Definition rgb_or (bits : Z) (c : Color7) : Color7 := rgb_map (fun v => u8 (Z.lor v bits)) c.
(** [rgb | (rgb >> shift)]. *)
Definition rgb_or_shr (shift : Z) (c : Color7) : Color7 := rgb_map (fun v => u8 (Z.lor v (u8 (Z.shiftr v shift)))) c.
Definition alpha_map (f : Z -> Z) (c : Color7) : Color7 := mk_color7 (c7_r c) (c7_g c) (c7_b c) (f (c7_a c)).

Definition Color7_bytes (c : Color7) : list Z := [c7_b c; c7_g c; c7_r c; c7_a c].

(** ** Endpoints *)

Definition subset_new (b : Data) (m : Mode) (i : Z) : Color7 * Color7 :=
  let endpoint k := mk_color7 (u8 (Get b (Red m k))) (u8 (Get b (Green m k))) (u8 (Get b (Blue m k))) (if 0 <? mo_AB m then u8 (Get b (Alpha m k)) else 255) in
  (endpoint (i * 2 + 0), endpoint (i * 2 + 1)).

Definition add_shared_bits (b : Data) (m : Mode) (i : Z) (s : Color7 * Color7) : Color7 * Color7 :=
  if 0 <? mo_SPB m then
    let pbit := Get b (if i =? 0 then SharedPBit0 m else SharedPBit1 m) in
    (rgb_or pbit (rgb_shl 1 (fst s)), rgb_or pbit (rgb_shl 1 (snd s)))
  else s.

Definition add_endpoint_bit (m : Mode) (pbit : Z) (c : Color7) : Color7 :=
  let c := rgb_or pbit (rgb_shl 1 c) in
  if 0 <? mo_AB m then alpha_map (fun a => u8 (Z.lor (Z.shiftl a 1) pbit)) c else c.

Definition add_endpoint_bits (b : Data) (m : Mode) (i : Z) (s : Color7 * Color7) : Color7 * Color7 :=
  if 0 <? mo_EPB m then
    (add_endpoint_bit m (Get b (EndpointPBit m (i * 2 + 0))) (fst s), add_endpoint_bit m (Get b (EndpointPBit m (i * 2 + 1))) (snd s))
  else s.

Definition expand_color (m : Mode) (c : Color7) : Color7 :=
  let colorBits := mo_CB m + mo_SPB m + mo_EPB m in
  let alphaBits := mo_AB m + mo_SPB m + mo_EPB m in
  let c := rgb_or_shr colorBits (rgb_shl (8 - colorBits) c) in
  if 0 <? mo_AB m then
    alpha_map (fun a => let a := u8 (Z.shiftl a (8 - alphaBits)) in u8 (Z.lor a (Z.shiftr a alphaBits))) c
  else c.

Definition subsets (b : Data) (m : Mode) : list (Color7 * Color7) :=
  map (fun i =>
    let s := add_endpoint_bits b m i (add_shared_bits b m i (subset_new b m i)) in
    (expand_color m (fst s), expand_color m (snd s))) (seqZ 0 (mo_NS m)).

(** ** Indices *)

Definition subsetIndex (m : Mode) (partitionIdx texelIndex : Z) : Z :=
  if mo_NS m =? 2 then table2_at PartitionTable2 partitionIdx texelIndex
  else if mo_NS m =? 3 then table2_at PartitionTable3 partitionIdx texelIndex
  else 0.

Definition anchorIndex (m : Mode) (partitionIdx subsetIdx : Z) : Z :=
  if subsetIdx =? 1 then (if mo_NS m =? 2 then table_at AnchorTable2 partitionIdx else table_at AnchorTable3a partitionIdx)
  else if subsetIdx =? 2 then table_at AnchorTable3b partitionIdx
  else 0.

(** The value and the bits of an index, and the offset behind it. *)
Definition read_index (b : Data) (m : Mode) (secondary isAnchor : bool) (indexBitOffset : Z) : Z * Z * Z :=
  let numBits := if secondary then mo_IB2 m else mo_IB m in
  let numReadBits := numBits - (if isAnchor then 1 else 0) in
  let index := Get b (if secondary then SecondaryIndex m indexBitOffset numReadBits else PrimaryIndex m indexBitOffset numReadBits) in
  (index, numBits, indexBitOffset + numReadBits).

Definition colorIndex (b : Data) (m : Mode) (isAnchor : bool) (indexBitOffset : Z) : Z * Z * Z :=
  read_index b m (Get b (IndexSelection m) =? 1) isAnchor indexBitOffset.

Definition alphaIndex (b : Data) (m : Mode) (isAnchor : bool) (indexBitOffset : Z) : Z * Z * Z :=
  read_index b m (negb (mo_IB2 m =? 0) && (Get b (IndexSelection m) =? 0)) isAnchor indexBitOffset.

Definition weights2 : list Z := [0; 21; 43; 64].

Definition interpolate7 (e0 e1 value numBits : Z) : Z :=
  let weight := table_at (if numBits =? 2 then weights2 else if numBits =? 3 then weights3 else weights4) value in
  u8 (Z.shiftr ((64 - weight) * e0 + weight * e1 + 32) 6).

(** [std::swap] of alpha with a channel. *)
Definition rotate (rotation : Z) (c : Color7) : Color7 :=
  if rotation =? 1 then mk_color7 (c7_r c) (c7_g c) (c7_a c) (c7_b c)
  else if rotation =? 2 then mk_color7 (c7_r c) (c7_a c) (c7_b c) (c7_g c)
  else if rotation =? 3 then mk_color7 (c7_a c) (c7_g c) (c7_b c) (c7_r c)
  else c.

(** ** Blocks *)

Definition Color7_new : Color7 := mk_color7 0 0 0 0.

(** The colour written for a texel: red and blue are exchanged. *)
Definition output_color (subset : Color7 * Color7) (colorIdx alphaIdx : Z * Z) (rotation : Z) : Color7 :=
  let (s0, s1) := subset in
  rotate rotation
    (mk_color7 (interpolate7 (c7_b s0) (c7_b s1) (fst colorIdx) (snd colorIdx))
               (interpolate7 (c7_g s0) (c7_g s1) (fst colorIdx) (snd colorIdx))
               (interpolate7 (c7_r s0) (c7_r s1) (fst colorIdx) (snd colorIdx))
               (interpolate7 (c7_a s0) (c7_a s1) (fst alphaIdx) (snd alphaIdx))).

Definition block7_texels (b : Data) (m : Mode) (dst dstX dstY dstWidth dstHeight dstPitch : Z) (ram : host_ram) : host_ram :=
  let ss := subsets b m in
  snd (fold_left (fun '(colorIndexBitOffset, alphaIndexBitOffset, ram) texelIdx =>
    let y := texelIdx / 4 in
    let x := texelIdx mod 4 in
    let partitionIdx := Get b (Partition m) in
    let subsetIdx := subsetIndex m partitionIdx texelIdx in
    let subset := default (Color7_new, Color7_new) (ss !! Z.to_nat subsetIdx) in
    let isAnchor := anchorIndex m partitionIdx subsetIdx =? texelIdx in
    let '(colorIdx, colorBits, colorIndexBitOffset) := colorIndex b m isAnchor colorIndexBitOffset in
    let '(alphaIdx, alphaBits, alphaIndexBitOffset) := alphaIndex b m isAnchor alphaIndexBitOffset in
    if (dstHeight <=? y + dstY) || (dstWidth <=? x + dstX) then (colorIndexBitOffset, alphaIndexBitOffset, ram)
    else
      let output := output_color subset (colorIdx, colorBits) (alphaIdx, alphaBits) (Get b (Rotation m)) in
      (colorIndexBitOffset, alphaIndexBitOffset, write_list (dst + 4 * x + dstPitch * y) (Color7_bytes output) ram))
    (seqZ 0 16) (0, 0, ram)).

Definition block7_decode (b : Data) (dst dstX dstY dstWidth dstHeight dstPitch : Z) (ram : host_ram) : host_ram :=
  let m := block_mode b in
  if mo_IDX m <? 0 then each_texel dst dstX dstY dstWidth dstHeight dstPitch 4 0 (fun _ _ => Color7_bytes Color7_new) ram
  else block7_texels b m dst dstX dstY dstWidth dstHeight dstPitch ram.

Definition DecodeBc7 (src : Z -> Z) (dst width height : Z) (ram : host_ram) : host_ram :=
  let pitch := R8g8b8a8Bpp * width in
  each_block_of 16 pitch R8g8b8a8Bpp width height (fun block dstRow x y ram =>
    block7_decode (load_block src block) dstRow x y width height pitch ram) dst ram.

(** ** The format *)

(** A texel by the definition of the format, on the 128 bits as one number. *)
Section format.
Context (m : Mode) (v : Z).

Definition colors_start : Z := mo_IDX m + 1 + mo_PB m + mo_RB m + mo_ISB m.
Definition bits_start : Z := colors_start + (3 * mo_CB m + mo_AB m) * (2 * mo_NS m).
Definition indices_start : Z := bits_start + mo_EPB m * (2 * mo_NS m) + 2 * mo_SPB m.

(** The bit that all channels of endpoint [k] have at their low end, if the mode has one. *)
Definition low_bit (k : Z) : Z := bits (bits_start + mo_EPB m * k) (mo_EPB m) v + bits (bits_start + mo_EPB m * (2 * mo_NS m) + mo_SPB m * (k / 2)) (mo_SPB m) v.

(** A number of [n] bits stretched to eight by repeating its high bits. *)
Definition expand (n x : Z) : Z := x * 2 ^ (8 - n) + x / 2 ^ (2 * n - 8).

Definition channel_of (ch k : Z) : Z :=
  expand (mo_CB m + mo_EPB m + mo_SPB m)
    (bits (colors_start + mo_CB m * (ch * (2 * mo_NS m) + k)) (mo_CB m) v * 2 ^ (mo_EPB m + mo_SPB m) + low_bit k).
Definition alpha_of (k : Z) : Z :=
  if mo_AB m =? 0 then 255
  else expand (mo_AB m + mo_EPB m + mo_SPB m)
    (bits (colors_start + 3 * mo_CB m * (2 * mo_NS m) + mo_AB m * k) (mo_AB m) v * 2 ^ (mo_EPB m + mo_SPB m) + low_bit k).

Definition partition : Z := bits (mo_IDX m + 1) (mo_PB m) v.
Definition rotation : Z := bits (mo_IDX m + 1 + mo_PB m) (mo_RB m) v.
Definition selection : Z := bits (mo_IDX m + 1 + mo_PB m + mo_RB m) (mo_ISB m) v.

(** The anchors of the subsets before texel [t], and whether [t] is one of them. *)
Definition anchors_before (t : Z) : Z := foldr Z.add 0 (map (fun s => Z.b2z (anchorIndex m partition s <? t)) (seqZ 0 (mo_NS m))).
Definition is_anchor (t : Z) : bool := existsb (fun s => anchorIndex m partition s =? t) (seqZ 0 (mo_NS m)).

(** The index of a texel in the first or second set, with its number of bits. *)
Definition index_of (secondary : bool) (t : Z) : Z * Z :=
  let n := if secondary then mo_IB2 m else mo_IB m in
  (bits (indices_start + (if secondary then mo_IBC m else 0) + (n * t - anchors_before t)) (n - Z.b2z (is_anchor t)) v, n).

Definition texel_of (t : Z) : Color7 :=
  let s := subsetIndex m partition t in
  let endpoint k := mk_color7 (channel_of 0 k) (channel_of 1 k) (channel_of 2 k) (alpha_of k) in
  output_color (endpoint (2 * s), endpoint (2 * s + 1))
    (index_of (selection =? 1) t) (index_of (negb (mo_IB2 m =? 0) && (selection =? 0)) t) rotation.

End format.

(** The mode is the number of the lowest set bit. *)
Definition mode_of_bits (v : Z) : option Z := head (filter (fun k => bit v k = true) (seqZ 0 8)).

Definition bc7_texel (v i j : Z) : list Z :=
  match mode_of_bits v with
  | None => [0; 0; 0; 0]
  | Some k => Color7_bytes (texel_of (Mode_at k) v (4 * j + i))
  end.

(** ** Fields are fields of the number *)

Lemma mask_ones n : 0 <= n < 64 -> u64 (Z.shiftl 1 n) - 1 = Z.ones n.
Proof.
  intros Hn. rewrite Z.shiftl_1_l, wrap_small, Z.ones_equiv; [lia|]. split; [lia|]. apply Z.pow_lt_mono_r; lia.
Qed.

Lemma Get_bits b bf : data_ok b -> 0 <= bf_offset bf -> 0 <= bf_count bf < 64 -> Get b bf = bits (bf_offset bf) (bf_count bf) (num b).
Proof.
  intros [Hl Hh] Ho Hc. unfold Get. rewrite mask_ones by done. set (o := bf_offset bf) in *. set (n := bf_count bf) in *.
  assert (Hb : forall i, 0 <= i -> bit (num b) i = if i <? 64 then bit (da_low b) i else bit (da_high b) (i - 64)).
  { intros i Hi. unfold num. rewrite Z.add_comm, Z.mul_comm, <- (lor_shiftl_add 64), Z.lor_spec by lia. destruct (Z.ltb_spec i 64).
    - by rewrite Z.shiftl_spec_low.
    - rewrite Z.shiftl_spec, (testbit_high (da_low b) 64 i), orb_false_r by lia. done. }
  apply Z.bits_inj'. intros i Hi. rewrite testbit_bits, Hb by lia.
  destruct (Z.leb_spec (o + n) 64); [|destruct (Z.leb_spec 64 o)].
  - rewrite Z.land_spec, Z.shiftr_spec, testbit_ones_range, andb_comm by lia. destruct (Z.leb_spec 0 i); [|lia]. simpl. destruct (Z.ltb_spec i n); [|done].
    destruct (Z.ltb_spec (i + o) 64); [done|lia].
  - rewrite Z.land_spec, Z.shiftr_spec, testbit_ones_range, andb_comm by lia. destruct (Z.leb_spec 0 i); [|lia]. simpl.
    destruct (Z.ltb_spec (i + o) 64); [lia|]. do 2 f_equal. lia.
  - rewrite Z.land_spec, Z.lor_spec, Z.shiftr_spec, testbit_ones_range, andb_comm by lia. destruct (Z.leb_spec 0 i); [|lia]. simpl. destruct (Z.ltb_spec i n); [|done]. simpl.
    unfold wrap. destruct (Z.ltb_spec (i + o) 64).
    + rewrite Z.mod_pow2_bits_low, Z.shiftl_spec_low by lia. by rewrite orb_false_r.
    + rewrite (testbit_high (da_low b) 64), Z.mod_pow2_bits_low, Z.shiftl_spec by lia. simpl. f_equal. lia.
Qed.

(** ** The table of modes *)

Definition mode_wf (m : Mode) : bool :=
  (0 <=? mo_IDX m) && (1 <=? mo_NS m) && (mo_NS m <=? 3) && (0 <=? mo_PB m) && (mo_PB m <=? 6) && (0 <=? mo_RB m) && (mo_RB m <=? 2) &&
  (0 <=? mo_ISB m) && (mo_ISB m <=? 1) && (4 <=? mo_CB m) && (0 <=? mo_AB m) && (mo_AB m <=? 8) &&
  ((mo_EPB m =? 0) || (mo_EPB m =? 1)) && ((mo_SPB m =? 0) || (mo_SPB m =? 1) && (mo_EPB m =? 0) && (mo_AB m =? 0) && (mo_NS m =? 2)) &&
  (5 <=? mo_CB m + mo_EPB m + mo_SPB m) && (mo_CB m + mo_EPB m + mo_SPB m <=? 8) &&
  ((mo_AB m =? 0) || (5 <=? mo_AB m + mo_EPB m + mo_SPB m) && (mo_AB m + mo_EPB m + mo_SPB m <=? 8)) &&
  (2 <=? mo_IB m) && (mo_IB m <=? 4) && ((mo_IB2 m =? 0) && (mo_ISB m =? 0) || (2 <=? mo_IB2 m) && (mo_IB2 m <=? 3)) &&
  (mo_IBC m =? 16 * mo_IB m - mo_NS m) &&
  (indices_start m + mo_IBC m + (if mo_IB2 m =? 0 then 0 else 16 * mo_IB2 m - mo_NS m) =? 128) &&
  ((1 <? mo_NS m) || (mo_PB m =? 0)).

Definition mode_fits (m : Mode) : Prop := mode_wf m = true.

(** The fields and the indices of every mode fill the 128 bits of a block. *)
Lemma modes7_checked : forallb (fun k => mode_wf (Mode_at k) && (mo_IDX (Mode_at k) =? k)) (seqZ 0 8) = true.
Proof. vm_compute. reflexivity. Qed.

Lemma Mode_at_fits k : 0 <= k < 8 -> mode_fits (Mode_at k) /\ mo_IDX (Mode_at k) = k.
Proof.
  intros Hk. pose proof (forallb_seqZ _ _ k modes7_checked Hk) as H. cbv beta in H. apply andb_prop in H as [H1 H2]. split; [done|by apply Z.eqb_eq].
Qed.

Ltac mode_facts H := unfold mode_fits, mode_wf in H; rewrite !andb_true_iff, ?orb_true_iff, ?andb_true_iff in H.

Lemma mode_ranges m : mode_fits m -> 0 <= mo_IDX m /\ 1 <= mo_NS m <= 3 /\ 0 <= mo_PB m <= 6 /\ 0 <= mo_RB m <= 2 /\ 0 <= mo_ISB m <= 1 /\
  4 <= mo_CB m <= 8 /\ 0 <= mo_AB m <= 8 /\ 0 <= mo_EPB m <= 1 /\ 0 <= mo_SPB m <= 1 /\ 2 <= mo_IB m <= 4 /\ 0 <= mo_IB2 m <= 3.
Proof. intros Hm. mode_facts Hm. lia. Qed.

Lemma field_products m : mode_fits m -> 0 <= mo_CB m * mo_NS m /\ 0 <= mo_AB m * mo_NS m /\ 0 <= mo_EPB m * mo_NS m.
Proof. intros Hm. pose proof (mode_ranges m Hm). nia. Qed.

Section fields.
Context (b : Data) (m : Mode) (Hb : data_ok b) (Hm : mode_fits m).
Let v := num b.

Lemma Get_Partition : Get b (Partition m) = partition m v.
Proof. pose proof (mode_ranges m Hm). rewrite Get_bits; [done|done|simpl; lia|simpl; lia]. Qed.

Lemma Get_Rotation : Get b (Rotation m) = rotation m v.
Proof. pose proof (mode_ranges m Hm). rewrite Get_bits; [done|done|simpl; lia|simpl; lia]. Qed.

Lemma Get_IndexSelection : Get b (IndexSelection m) = selection m v.
Proof. pose proof (mode_ranges m Hm). rewrite Get_bits; [done|done|simpl; lia|simpl; lia]. Qed.

Lemma Get_Red k : 0 <= k -> Get b (Red m k) = bits (colors_start m + mo_CB m * (0 * (2 * mo_NS m) + k)) (mo_CB m) v.
Proof.
  intros Hk. pose proof (mode_ranges m Hm). pose proof (field_products m Hm).
  replace (0 * (2 * mo_NS m) + k) with k by lia.
  assert (E : bf_offset (Red m k) = colors_start m + mo_CB m * k) by (cbn -[Z.mul]; unfold colors_start; ring).
  rewrite Get_bits; rewrite ?E; [done|done|unfold colors_start; nia|cbn; lia].
Qed.

Lemma Get_Green k : 0 <= k -> Get b (Green m k) = bits (colors_start m + mo_CB m * (1 * (2 * mo_NS m) + k)) (mo_CB m) v.
Proof.
  intros Hk. pose proof (mode_ranges m Hm). pose proof (field_products m Hm).
  assert (E : bf_offset (Green m k) = colors_start m + mo_CB m * (1 * (2 * mo_NS m) + k)) by (cbn -[Z.mul]; unfold colors_start, NumColors; ring).
  rewrite Get_bits; rewrite ?E; [done|done|unfold colors_start; nia|cbn; lia].
Qed.

Lemma Get_Blue k : 0 <= k -> Get b (Blue m k) = bits (colors_start m + mo_CB m * (2 * (2 * mo_NS m) + k)) (mo_CB m) v.
Proof.
  intros Hk. pose proof (mode_ranges m Hm). pose proof (field_products m Hm).
  assert (E : bf_offset (Blue m k) = colors_start m + mo_CB m * (2 * (2 * mo_NS m) + k)) by (cbn -[Z.mul]; unfold colors_start, NumColors; ring).
  rewrite Get_bits; rewrite ?E; [done|done|unfold colors_start; nia|cbn; lia].
Qed.

Lemma Get_Alpha k : 0 <= k -> Get b (Alpha m k) = bits (colors_start m + 3 * mo_CB m * (2 * mo_NS m) + mo_AB m * k) (mo_AB m) v.
Proof.
  intros Hk. pose proof (mode_ranges m Hm). pose proof (field_products m Hm).
  assert (E : bf_offset (Alpha m k) = colors_start m + 3 * mo_CB m * (2 * mo_NS m) + mo_AB m * k) by (cbn -[Z.mul]; unfold colors_start, NumColors; ring).
  rewrite Get_bits; rewrite ?E; [done|done|unfold colors_start; nia|cbn; lia].
Qed.

Lemma Get_EndpointPBit k : 0 <= k -> Get b (EndpointPBit m k) = bits (bits_start m + mo_EPB m * k) (mo_EPB m) v.
Proof.
  intros Hk. pose proof (mode_ranges m Hm). pose proof (field_products m Hm).
  assert (E : bf_offset (EndpointPBit m k) = bits_start m + mo_EPB m * k) by (cbn -[Z.mul]; unfold bits_start, colors_start, NumColors; ring).
  rewrite Get_bits; rewrite ?E; [done|done|unfold bits_start, colors_start; nia|cbn; lia].
Qed.

Lemma Get_SharedPBit i : i = 0 \/ i = 1 ->
  Get b (if i =? 0 then SharedPBit0 m else SharedPBit1 m) = bits (bits_start m + mo_EPB m * (2 * mo_NS m) + mo_SPB m * i) (mo_SPB m) v.
Proof.
  intros Hi. pose proof (mode_ranges m Hm). pose proof (field_products m Hm).
  assert (E : bf_offset (if i =? 0 then SharedPBit0 m else SharedPBit1 m) = bits_start m + mo_EPB m * (2 * mo_NS m) + mo_SPB m * i)
    by (destruct Hi as [-> | ->]; cbn -[Z.mul]; unfold bits_start, colors_start, NumColors; ring).
  rewrite Get_bits; rewrite ?E; [|done|unfold bits_start, colors_start; nia|destruct (i =? 0); cbn; lia]. by destruct (i =? 0).
Qed.

Lemma Get_Index secondary offset count : 0 <= offset -> 0 <= count < 64 ->
  Get b (if secondary : bool then SecondaryIndex m offset count else PrimaryIndex m offset count) =
    bits (indices_start m + (if secondary then mo_IBC m else 0) + offset) count v.
Proof.
  intros Ho Hc. pose proof (mode_ranges m Hm). pose proof (field_products m Hm).
  assert (HI : 0 <= mo_IBC m) by (mode_facts Hm; lia).
  assert (E : bf_offset (if secondary then SecondaryIndex m offset count else PrimaryIndex m offset count) = indices_start m + (if secondary then mo_IBC m else 0) + offset)
    by (destruct secondary; cbn -[Z.mul]; unfold indices_start, bits_start, colors_start, NumColors; ring).
  rewrite Get_bits; rewrite ?E; [by destruct secondary|done| |by destruct secondary]. unfold indices_start, bits_start, colors_start. destruct secondary; nia.
Qed.

End fields.

(** ** Endpoints *)

Lemma add_bit x p : 0 <= x < 128 -> 0 <= p < 2 -> u8 (Z.lor (u8 (Z.shiftl x 1)) p) = x * 2 + p.
Proof.
  intros Hx Hp. rewrite (wrap_small 8 (Z.shiftl x 1)) by (rewrite Z.shiftl_mul_pow2; lia). rewrite lor_shiftl_add by lia. apply wrap_small. lia.
Qed.

Lemma add_bit_alpha x p : 0 <= x < 128 -> 0 <= p < 2 -> u8 (Z.lor (Z.shiftl x 1) p) = x * 2 + p.
Proof. intros Hx Hp. rewrite lor_shiftl_add by lia. apply wrap_small. lia. Qed.

Definition expand_ok (n x : Z) : bool :=
  let a := u8 (Z.shiftl x (8 - n)) in
  negb (x <? 2 ^ n) || (u8 (Z.lor a (u8 (Z.shiftr a n))) =? expand n x) && (u8 (Z.lor a (Z.shiftr a n)) =? expand n x) && (expand n x <? 256).

Lemma expand_checked : forallb (fun n => forallb (expand_ok (n + 5)) (seqZ 0 256)) (seqZ 0 4) = true.
Proof. vm_compute. reflexivity. Qed.

Lemma expand_spec n x : 5 <= n <= 8 -> 0 <= x < 2 ^ n ->
  u8 (Z.lor (u8 (Z.shiftl x (8 - n))) (u8 (Z.shiftr (u8 (Z.shiftl x (8 - n))) n))) = expand n x /\
  u8 (Z.lor (u8 (Z.shiftl x (8 - n))) (Z.shiftr (u8 (Z.shiftl x (8 - n))) n)) = expand n x /\ expand n x < 256.
Proof.
  intros Hn Hx. pose proof (Z.pow_le_mono_r 2 n 8 ltac:(lia) ltac:(lia)).
  assert (Hn' : 0 <= n - 5 < 4) by lia. assert (Hx' : 0 <= x < 256) by lia.
  pose proof (forallb_seqZ _ _ _ expand_checked Hn') as H1. cbv beta in H1. replace (n - 5 + 5) with n in H1 by lia.
  pose proof (forallb_seqZ _ _ _ H1 Hx') as H2. unfold expand_ok in H2. destruct (Z.ltb_spec x (2 ^ n)); [|lia]. simpl in H2.
  rewrite !andb_true_iff, !Z.eqb_eq in H2. lia.
Qed.

Section endpoints.
Context (b : Data) (m : Mode) (Hb : data_ok b) (Hm : mode_fits m).
Let v := num b.

Definition endpoint_of (x k : Z) : Color7 := mk_color7 (channel_of m x 0 k) (channel_of m x 1 k) (channel_of m x 2 k) (alpha_of m x k).

(** The bits of a channel with the low bit of its endpoint. *)
Definition raw_channel (ch k : Z) : Z := bits (colors_start m + mo_CB m * (ch * (2 * mo_NS m) + k)) (mo_CB m) v.
Definition raw_alpha (k : Z) : Z := bits (colors_start m + 3 * mo_CB m * (2 * mo_NS m) + mo_AB m * k) (mo_AB m) v.

Lemma low_bit_range k : 0 <= low_bit m v k < 2 ^ (mo_EPB m + mo_SPB m).
Proof.
  unfold low_bit. pose proof (bits_range (bits_start m + mo_EPB m * k) (mo_EPB m) v) as H1.
  pose proof (bits_range (bits_start m + mo_EPB m * (2 * mo_NS m) + mo_SPB m * (k / 2)) (mo_SPB m) v) as H2. mode_facts Hm.
  assert (Hc : mo_EPB m = 0 /\ mo_SPB m = 0 \/ mo_EPB m = 1 /\ mo_SPB m = 0 \/ mo_EPB m = 0 /\ mo_SPB m = 1) by lia.
  destruct Hc as [[E1 E2]|[[E1 E2]|[E1 E2]]]; rewrite ?E1, ?E2 in *; specialize (H1 ltac:(lia)); specialize (H2 ltac:(lia)); change (2 ^ 0) with 1 in *; change (2 ^ 1) with 2 in *; change (2 ^ (0 + 0)) with 1; change (2 ^ (1 + 0)) with 2; change (2 ^ (0 + 1)) with 2; lia.
Qed.

Lemma raw_range n x k : 0 <= n -> 0 <= x < 2 ^ n -> 0 <= x * 2 ^ (mo_EPB m + mo_SPB m) + low_bit m v k < 2 ^ (n + mo_EPB m + mo_SPB m).
Proof.
  intros Hn Hx. pose proof (low_bit_range k) as Hl. pose proof (mode_ranges m Hm).
  replace (n + mo_EPB m + mo_SPB m) with (n + (mo_EPB m + mo_SPB m)) by lia. rewrite (Z.pow_add_r 2 n) by lia. nia.
Qed.

(** The endpoint [k] of subset [i] before the bits are stretched. *)
Definition joined (k : Z) : Color7 :=
  let f x := x * 2 ^ (mo_EPB m + mo_SPB m) + low_bit m v k in
  mk_color7 (f (raw_channel 0 k)) (f (raw_channel 1 k)) (f (raw_channel 2 k)) (if 0 <? mo_AB m then f (raw_alpha k) else 255).

Lemma joined_endpoints i : 0 <= i < mo_NS m ->
  add_endpoint_bits b m i (add_shared_bits b m i (subset_new b m i)) = (joined (i * 2), joined (i * 2 + 1)).
Proof.
  intros Hi. unfold subset_new, joined. rewrite Z.add_0_r, !Get_Red, !Get_Green, !Get_Blue, !Get_Alpha by (done || lia).
  fold v (raw_channel 0 (i * 2)) (raw_channel 1 (i * 2)) (raw_channel 2 (i * 2)) (raw_channel 0 (i * 2 + 1)) (raw_channel 1 (i * 2 + 1)) (raw_channel 2 (i * 2 + 1)).
  fold (raw_alpha (i * 2)) (raw_alpha (i * 2 + 1)).
  assert (Hc : forall ch k, 0 <= raw_channel ch k < 2 ^ mo_CB m) by (intros; apply bits_range; pose proof (mode_ranges m Hm); lia).
  assert (Ha : forall k, 0 <= raw_alpha k < 2 ^ mo_AB m) by (intros; apply bits_range; pose proof (mode_ranges m Hm); lia).
  assert (HCB : 2 ^ mo_CB m <= 256) by (change 256 with (2 ^ 8); apply Z.pow_le_mono_r; pose proof (mode_ranges m Hm); lia).
  assert (HAB : 2 ^ mo_AB m <= 256) by (change 256 with (2 ^ 8); apply Z.pow_le_mono_r; pose proof (mode_ranges m Hm); lia).
  assert (Hu : forall ch k, u8 (raw_channel ch k) = raw_channel ch k) by (intros ch k; apply wrap_small; specialize (Hc ch k); lia).
  assert (Hua : forall k, u8 (raw_alpha k) = raw_alpha k) by (intros k; apply wrap_small; specialize (Ha k); lia).
  rewrite !Hu, !Hua. unfold add_endpoint_bits, add_shared_bits, low_bit.
  assert (Hb1 : forall o, 0 <= bits o 1 v < 2) by (intros; apply (bits_range _ 1); lia).
  assert (Hb0 : forall o, bits o 0 v = 0) by (intros o; pose proof (bits_range o 0 v); lia).
  assert (Hcase : mo_EPB m = 0 /\ mo_SPB m = 0 \/ mo_EPB m = 1 /\ mo_SPB m = 0 /\ mo_CB m <= 7 /\ mo_AB m <= 7 \/ mo_EPB m = 0 /\ mo_SPB m = 1 /\ mo_CB m <= 7 /\ mo_AB m = 0 /\ mo_NS m = 2)
    by (mode_facts Hm; lia).
  assert (H7 : forall n x, 0 <= n <= 7 -> 0 <= x < 2 ^ n -> 0 <= x < 128).
  { intros n x Hn Hx. pose proof (Z.pow_le_mono_r 2 n 7 ltac:(lia) ltac:(lia)). lia. }
  pose proof (mode_ranges m Hm) as Hr.
  destruct Hcase as [[E1 E2]|[(E1 & E2 & E3 & E4)|(E1 & E2 & E3 & E4 & E5)]].
  - rewrite E1, E2. cbn [Z.ltb Z.compare]. rewrite !Hb0. change (2 ^ (0 + 0)) with 1. rewrite !Z.mul_1_r, !Z.add_0_r. done.
  - assert (Hc7 : forall ch k, 0 <= raw_channel ch k < 128) by (intros ch k; apply (H7 (mo_CB m)); [lia|apply Hc]).
    assert (Ha7 : forall k, 0 <= raw_alpha k < 128) by (intros k; apply (H7 (mo_AB m)); [lia|apply Ha]).
    rewrite Z.add_0_r. rewrite !Get_EndpointPBit by (done || lia). fold v. rewrite E1, E2. cbn [Z.ltb Z.compare fst snd].
    unfold add_endpoint_bit, rgb_or, rgb_shl, rgb_map, alpha_map. cbn [c7_r c7_g c7_b c7_a]. rewrite !add_bit by (apply Hc7 || apply Hb1).
    destruct (0 <? mo_AB m); cbn [c7_r c7_g c7_b c7_a]; rewrite ?add_bit_alpha by (apply Ha7 || apply Hb1); rewrite !Hb0, !Z.add_0_r; done.
  - assert (Hc7 : forall ch k, 0 <= raw_channel ch k < 128) by (intros ch k; apply (H7 (mo_CB m)); [lia|apply Hc]).
    rewrite !Get_SharedPBit by (done || lia). fold v. rewrite E1, E2, E4. cbn [Z.ltb Z.compare fst snd].
    unfold rgb_or, rgb_shl, rgb_map. cbn [c7_r c7_g c7_b c7_a]. rewrite !add_bit by (apply Hc7 || apply Hb1).
    rewrite !Hb0. change (2 ^ (0 + 1)) with 2.
    replace (i * 2 / 2) with i by (rewrite Z.div_mul by lia; done).
    replace ((i * 2 + 1) / 2) with i by (apply (Z.div_unique _ _ _ 1); lia). done.
Qed.

Lemma expand_joined k : expand_color m (joined k) = endpoint_of v k.
Proof.
  unfold expand_color, joined, endpoint_of, channel_of, alpha_of. fold (raw_channel 0 k) (raw_channel 1 k) (raw_channel 2 k) (raw_alpha k).
  unfold rgb_or_shr, rgb_shl, rgb_map, alpha_map. cbn [c7_r c7_g c7_b c7_a]. pose proof (mode_ranges m Hm) as Hr.
  replace (mo_CB m + mo_SPB m + mo_EPB m) with (mo_CB m + mo_EPB m + mo_SPB m) by lia.
  replace (mo_AB m + mo_SPB m + mo_EPB m) with (mo_AB m + mo_EPB m + mo_SPB m) by lia.
  assert (Hc : forall ch, 0 <= raw_channel ch k * 2 ^ (mo_EPB m + mo_SPB m) + low_bit m v k < 2 ^ (mo_CB m + mo_EPB m + mo_SPB m))
    by (intros ch; apply raw_range; [lia|apply bits_range; lia]).
  assert (Hn : 5 <= mo_CB m + mo_EPB m + mo_SPB m <= 8) by (mode_facts Hm; lia).
  rewrite !(proj1 (expand_spec (mo_CB m + mo_EPB m + mo_SPB m) _ Hn (Hc _))).
  destruct (Z.ltb_spec 0 (mo_AB m)), (Z.eqb_spec (mo_AB m) 0); try lia; [|done]. cbn [c7_r c7_g c7_b c7_a].
  assert (Hna : 5 <= mo_AB m + mo_EPB m + mo_SPB m <= 8) by (mode_facts Hm; lia).
  f_equal. apply expand_spec; [done|]. apply raw_range; [lia|apply bits_range; lia].
Qed.

Lemma subsets_spec s : 0 <= s < mo_NS m -> subsets b m !! Z.to_nat s = Some (endpoint_of v (2 * s), endpoint_of v (2 * s + 1)).
Proof.
  intros Hs. unfold subsets. change (map ?f ?l) with (f <$> l). rewrite list_lookup_fmap, lookup_seqZ_lt by lia. simpl.
  replace (0 + Z.of_nat (Z.to_nat s)) with s by lia. rewrite joined_endpoints by done. cbn [fst snd]. rewrite !expand_joined.
  do 3 f_equal; [|f_equal]; lia.
Qed.

End endpoints.

(** ** Anchors *)

(** A mode with a number of subsets, on which alone the partitions depend. *)
Definition with_subsets (n : Z) : Mode := mk_mode 0 n 0 0 0 0 0 0 0 0 0 0.

(** Every texel is in a subset, and every subset has one anchor, which lies in it. *)
Definition anchor_ok (n p t : Z) : bool :=
  let m := with_subsets n in
  let s := subsetIndex m p t in
  let here := map (fun s => Z.b2z (anchorIndex m p s =? t)) (seqZ 0 n) in
  (0 <=? s) && (s <? n) && (Z.b2z (anchorIndex m p s =? t) =? foldr Z.add 0 here) &&
  Bool.eqb (anchorIndex m p s =? t) (existsb (fun s => anchorIndex m p s =? t) (seqZ 0 n)) &&
  forallb (fun s => 0 <=? anchorIndex m p s) (seqZ 0 n).

Lemma anchors7_checked : forallb (fun n => forallb (fun p => forallb (anchor_ok (n + 1) p) (seqZ 0 16)) (seqZ 0 64)) (seqZ 0 3) = true.
Proof. vm_compute. reflexivity. Qed.

Section indices.
Context (b : Data) (m : Mode) (Hb : data_ok b) (Hm : mode_fits m).
Let v := num b.

Lemma anchor_facts t : 0 <= t < 16 ->
  0 <= subsetIndex m (partition m v) t < mo_NS m /\
  (anchorIndex m (partition m v) (subsetIndex m (partition m v) t) =? t) = is_anchor m v t /\
  anchors_before m v (t + 1) = anchors_before m v t + Z.b2z (is_anchor m v t) /\ anchors_before m v 0 = 0.
Proof.
  intros Ht. pose proof (mode_ranges m Hm) as Hr. set (p := partition m v).
  assert (Hp : 0 <= p < 64).
  { subst p. unfold partition. pose proof (bits_range (mo_IDX m + 1) (mo_PB m) v ltac:(lia)). pose proof (Z.pow_le_mono_r 2 (mo_PB m) 6 ltac:(lia) ltac:(lia)). lia. }
  assert (Hn : 0 <= mo_NS m - 1 < 3) by lia. pose proof (forallb_seqZ _ _ _ anchors7_checked Hn) as H. cbv beta in H.
  replace (mo_NS m - 1 + 1) with (mo_NS m) in H by lia. apply (forallb_seqZ _ _ p) in H; [|done]. cbv beta in H.
  apply (forallb_seqZ _ _ t) in H; [|done]. unfold anchor_ok in H. change (subsetIndex (with_subsets (mo_NS m))) with (subsetIndex m) in H.
  change (anchorIndex (with_subsets (mo_NS m))) with (anchorIndex m) in H. rewrite !andb_true_iff in H. destruct H as ((((H1 & H2) & H3) & H4) & H5).
  apply Bool.eqb_prop in H4. apply Z.eqb_eq in H3. split; [lia|]. split; [exact H4|]. unfold is_anchor, anchors_before. fold p. split.
  - rewrite <- H4, H3. clear. induction (seqZ 0 (mo_NS m)) as [|s l IH]; [done|]. cbn [map foldr]. rewrite IH.
    assert (Z.b2z (anchorIndex m p s <? t + 1) = Z.b2z (anchorIndex m p s <? t) + Z.b2z (anchorIndex m p s =? t)) as -> by (repeat (zcase; cbn [Z.b2z]); lia). lia.
  - clear - H5. induction (seqZ 0 (mo_NS m)) as [|s l IH]; [done|]. cbn [map foldr forallb] in *. apply andb_prop in H5 as [H H5]. rewrite IH by done.
    destruct (Z.ltb_spec (anchorIndex m p s) 0); [lia|done].
Qed.

(** A set of indices that the mode has. *)
Definition index_bits (secondary : bool) : Z := if secondary then mo_IB2 m else mo_IB m.

Lemma index_offset_nonneg n t : 1 <= n -> 0 <= t <= 16 -> 0 <= n * t - anchors_before m v t.
Proof.
  intros Hn Ht. rewrite <- (Z2Nat.id t) in * by lia. revert Ht. generalize (Z.to_nat t) as k. intros k. induction k as [|k IH]; intros Ht.
  - change (Z.of_nat 0) with 0. destruct (anchor_facts 0 ltac:(lia)) as (_ & _ & _ & ->). lia.
  - rewrite Nat2Z.inj_succ in *. destruct (anchor_facts (Z.of_nat k) ltac:(lia)) as (_ & _ & E & _). unfold Z.succ. rewrite E. specialize (IH ltac:(lia)).
    destruct (is_anchor _ _ _); cbn [Z.b2z]; lia.
Qed.

Lemma read_index_spec secondary t : 2 <= index_bits secondary <= 4 -> 0 <= t < 16 ->
  read_index b m secondary (is_anchor m v t) (index_bits secondary * t - anchors_before m v t) =
    (fst (index_of m v secondary t), snd (index_of m v secondary t), index_bits secondary * (t + 1) - anchors_before m v (t + 1)).
Proof.
  intros Hn Ht. destruct (anchor_facts t Ht) as (_ & _ & E & _). unfold read_index, index_of, index_bits in *. cbn [fst snd].
  pose proof (index_offset_nonneg (if secondary then mo_IB2 m else mo_IB m) t ltac:(lia) ltac:(lia)).
  rewrite Get_Index by (done || (destruct (is_anchor m v t); lia)). fold v. rewrite E.
  destruct (is_anchor m v t); cbn [Z.b2z]; repeat f_equal; lia.
Qed.

Lemma color_bits_ok : 2 <= index_bits (selection m v =? 1) <= 4.
Proof.
  unfold index_bits. destruct (Z.eqb_spec (selection m v) 1) as [E|]; [|mode_facts Hm; lia].
  assert (mo_ISB m <> 0). { intros E0. unfold selection in E. rewrite E0 in E. pose proof (bits_range (mo_IDX m + 1 + mo_PB m + mo_RB m) 0 v). lia. }
  mode_facts Hm. lia.
Qed.

Lemma alpha_bits_ok : 2 <= index_bits (negb (mo_IB2 m =? 0) && (selection m v =? 0)) <= 4.
Proof.
  unfold index_bits. destruct (Z.eqb_spec (mo_IB2 m) 0) as [|E]; [mode_facts Hm; simpl; lia|]. simpl. destruct (_ =? 0); mode_facts Hm; lia.
Qed.

(** The loop over the texels reads the indices that the format gives. *)
Lemma block7_texels_fold dst dstX dstY dstWidth dstHeight dstPitch ram :
  block7_texels b m dst dstX dstY dstWidth dstHeight dstPitch ram =
    fold_left (fun ram t =>
      if (dstHeight <=? t / 4 + dstY) || (dstWidth <=? t mod 4 + dstX) then ram
      else write_list (dst + 4 * (t mod 4) + dstPitch * (t / 4)) (Color7_bytes (texel_of m v t)) ram) (seqZ 0 16) ram.
Proof.
  unfold block7_texels. change 16 with (Z.of_nat 16). assert (Hle : (16 <= 16)%nat) by lia. revert Hle. generalize 16%nat at 1 3 4 as n. intros n Hle.
  set (cs := selection m v =? 1). set (als := negb (mo_IB2 m =? 0) && (selection m v =? 0)).
  match goal with |- snd ?l = ?r => assert (E : l = (index_bits cs * Z.of_nat n - anchors_before m v (Z.of_nat n), index_bits als * Z.of_nat n - anchors_before m v (Z.of_nat n), r)); [|by rewrite E] end.
  induction n as [|n IH].
  - destruct (anchor_facts 0 ltac:(lia)) as (_ & _ & _ & E0). change (Z.of_nat 0) with 0. rewrite E0, !Z.mul_0_r. done.
  - rewrite seqZ_S, !fold_left_app, IH by lia. cbn [fold_left]. rewrite Z.add_0_l. set (t := Z.of_nat n). replace (Z.of_nat (S n)) with (t + 1) by (subst t; lia).
    assert (Ht : 0 <= t < 16) by (subst t; lia). destruct (anchor_facts t Ht) as (Hs & Ha & _ & _).
    rewrite Get_Partition by done. fold v. rewrite Ha. unfold colorIndex, alphaIndex. rewrite Get_IndexSelection, Get_Rotation by done. fold v. fold cs als.
    rewrite !read_index_spec by (apply color_bits_ok || apply alpha_bits_ok || done).
    rewrite (subsets_spec b m Hb Hm _ Hs). fold v.
    destruct ((dstHeight <=? t / 4 + dstY) || (dstWidth <=? t mod 4 + dstX)); reflexivity.
Qed.

End indices.

(** ** Images *)

Lemma test_bit low k : 0 <= k -> negb (Z.land low (2 ^ k) =? 0) = bit low k.
Proof.
  intros Hk. destruct (bit low k) eqn:E.
  - apply negb_true_iff, Z.eqb_neq. intros E0. apply (f_equal (fun z => bit z k)) in E0. rewrite Z.land_spec, E, Z.pow2_bits_true, Z.testbit_0_l in E0 by done. done.
  - apply negb_false_iff, Z.eqb_eq. apply Z.bits_inj'. intros i Hi. rewrite Z.land_spec, Z.testbit_0_l. destruct (decide (i = k)) as [->|]; [by rewrite E|].
    rewrite Z.pow2_bits_false by lia. apply andb_false_r.
Qed.

Lemma block_mode_spec b : data_ok b -> block_mode b = match mode_of_bits (num b) with Some k => Mode_at k | None => Mode_at 8 end.
Proof.
  intros Hb. unfold block_mode, mode_of_bits. change (seqZ 0 8) with [0; 1; 2; 3; 4; 5; 6; 7].
  assert (Ht : forall k, 0 <= k < 8 -> negb (Z.land (da_low b) (2 ^ k) =? 0) = bit (num b) k).
  { intros k Hk. rewrite test_bit by lia. unfold num. rewrite Z.add_comm, Z.mul_comm, <- (lor_shiftl_add 64), Z.lor_spec, Z.shiftl_spec_low by (destruct Hb; lia). done. }
  pose proof (Ht 0 ltac:(lia)) as H0. pose proof (Ht 1 ltac:(lia)) as H1. pose proof (Ht 2 ltac:(lia)) as H2. pose proof (Ht 3 ltac:(lia)) as H3.
  pose proof (Ht 4 ltac:(lia)) as H4. pose proof (Ht 5 ltac:(lia)) as H5. pose proof (Ht 6 ltac:(lia)) as H6. pose proof (Ht 7 ltac:(lia)) as H7. clear Ht.
  change (2 ^ 0) with 0x01 in H0. change (2 ^ 1) with 0x02 in H1. change (2 ^ 2) with 0x04 in H2. change (2 ^ 3) with 0x08 in H3.
  change (2 ^ 4) with 0x10 in H4. change (2 ^ 5) with 0x20 in H5. change (2 ^ 6) with 0x40 in H6. change (2 ^ 7) with 0x80 in H7.
  rewrite H0, H1, H2, H3, H4, H5, H6, H7.
  repeat match goal with |- context [if bit ?x ?k then _ else _] => rewrite (filter_cons _ k); destruct (bit x k) eqn:?; [rewrite decide_True by done; done|rewrite decide_False by congruence] end.
  done.
Qed.

Lemma mode_of_bits_range v k : mode_of_bits v = Some k -> 0 <= k < 8.
Proof.
  unfold mode_of_bits. intros H. destruct (filter _ _) as [|x l] eqn:E; [done|]. simpl in H. simplify_eq.
  assert (Hk : k ∈ filter (fun k => bit v k = true) (seqZ 0 8)) by (rewrite E; left). apply list_elem_of_filter in Hk as [_ Hk]. apply elem_of_seqZ in Hk. lia.
Qed.

Section block7.
Context (dst width height : Z) (Hwidth : 0 < width).
Let px a := pixel_x dst 4 width a.
Let py a := pixel_y dst 4 width a.

Lemma block7_decode_spec b x y ram a : data_ok b -> 0 <= x -> 0 <= y ->
  block7_decode b (dst + x * 4 + y * (4 * width)) x y width height (4 * width) ram a =
    if decide (x <= px a < x + 4 /\ y <= py a < y + 4 /\ py a < height)
    then default 0 (bc7_texel (num b) (px a - x) (py a - y) !! Z.to_nat (pixel_k dst 4 a)) else ram a.
Proof.
  intros Hb Hx Hy. unfold block7_decode, bc7_texel. rewrite block_mode_spec by done.
  destruct (pixel_address dst 4 width ltac:(lia) Hwidth a) as (_ & Hpx & Hk). fold (px a) in Hpx.
  destruct (mode_of_bits (num b)) as [k|] eqn:Ek.
  - apply mode_of_bits_range in Ek. destruct (Mode_at_fits k Ek) as [Hm Hi]. rewrite Hi. destruct (Z.ltb_spec k 0); [lia|].
    rewrite block7_texels_fold by done. set (color t := Color7_bytes (texel_of (Mode_at k) (num b) t)).
    rewrite (fold_owned _ (x <= px a < x + 4 /\ y <= py a < y + 4 /\ py a < height) (4 * (py a - y) + (px a - x))
      (default 0 (color (4 * (py a - y) + (px a - x)) !! Z.to_nat (pixel_k dst 4 a)))).
    + repeat case_decide; try done; rewrite ?elem_of_seqZ in *; lia.
    + intros t r Ht. apply elem_of_seqZ in Ht. pose proof (Z.div_mod t 4 ltac:(lia)). pose proof (Z.mod_pos_bound t 4 ltac:(lia)).
      fold (color t). destruct ((height <=? _) || _) eqn:Eo.
      * rewrite decide_False; [done|]. intros [(Hpx' & Hpy & Hh) Ho]. apply orb_prop in Eo. lia.
      * apply orb_false_iff in Eo as [Eh Ew]. replace (dst + x * 4 + y * (4 * width) + 4 * (t mod 4) + 4 * width * (t / 4)) with (dst + 0 + (x + t mod 4) * 4 + (y + t / 4) * (4 * width)) by lia.
        rewrite (write_pixel dst 4 width) by (simpl; lia). fold (px a) (py a). change (Z.of_nat (length (color t))) with 4.
        repeat case_decide; try lia; try done. rewrite Z.sub_0_r. do 3 f_equal. lia.
  - change (mo_IDX (Mode_at 8) <? 0) with true. cbv iota. rewrite (each_texel_spec dst 4 width height ltac:(lia) Hwidth _ _ 0 4) by done || lia. fold (px a) (py a).
    repeat case_decide; try lia; try done. by rewrite Z.sub_0_r.
Qed.

End block7.

(** ** Results *)

Lemma weights7_range n x : 0 <= table_at (if n =? 2 then weights2 else if n =? 3 then weights3 else weights4) x <= 64.
Proof.
  assert (H : Forall (fun w => 0 <= w <= 64) (if n =? 2 then weights2 else if n =? 3 then weights3 else weights4)) by (destruct (n =? 2); [|destruct (n =? 3)]; repeat constructor; lia).
  unfold table_at. destruct (_ !! _) eqn:E; simpl; [|lia]. exact (Forall_lookup_1 _ _ _ _ H E).
Qed.

(** A channel lies between those of the endpoints. *)
Lemma interpolate7_between e0 e1 x n : 0 <= e0 < 256 -> 0 <= e1 < 256 -> Z.min e0 e1 <= interpolate7 e0 e1 x n <= Z.max e0 e1.
Proof.
  intros H0 H1. unfold interpolate7. pose proof (weights7_range n x) as Hw. set (w := table_at _ _) in *. clearbody w.
  rewrite Z.shiftr_div_pow2 by lia. change (2 ^ 6) with 64.
  assert (Z.min e0 e1 <= ((64 - w) * e0 + w * e1 + 32) / 64) by (apply Z.div_le_lower_bound; nia).
  assert (((64 - w) * e0 + w * e1 + 32) / 64 < Z.max e0 e1 + 1) by (apply Z.div_lt_upper_bound; nia).
  rewrite wrap_small; lia.
Qed.

(** C24: decoding a BC7 image writes every pixel of the image and nothing else: the pixel is the texel
    that the format defines on the 128 bits of its block read as one number, with the mode in the
    lowest set bit, endpoints stretched to eight bits by repeating their high bits, the low bits that
    endpoints share, the indices at places that depend only on the texel and the anchors of the
    partition, and the exchange of alpha with a channel.  The running offsets, the fields that lie
    across the two halves of the block and the blocks cut off by the border do not show. *)
Theorem bc7_image (src : Z -> Z) (dst width height : Z) (ram : host_ram) :
  bytes src -> 0 < width -> 0 <= height ->
  holds_image dst 4 width height (fun b => bc7_texel (num (load_block src (16 * b)))) ram (DecodeBc7 src dst width height ram).
Proof.
  intros Hs Hw Hh. apply image_written; [done|done|done|]. intros b x y r a Hx Hy. by apply block7_decode_spec; [|apply load_block_ok| |].
Qed.

Lemma bc7_image_witness :
  holds_image 64 4 5 3 (fun b => bc7_texel (num (load_block example_source (16 * b)))) (fun _ => 0) (DecodeBc7 example_source 64 5 3 (fun _ => 0)).
Proof. apply (bc7_image example_source 64 5 3 (fun _ => 0)); [|lia|lia]. intros p. apply Z.mod_pos_bound. lia. Defined.

(** A pixel of the second block of that image. *)
Lemma bc7_example_pixel : map (DecodeBc7 example_source 64 5 3 (fun _ => 0)) (seqZ (64 + 4 * 4) 4) = bc7_texel (num (load_block example_source 16)) 0 0.
Proof. vm_compute. reflexivity. Qed.
