(* ===== verification/Containers.v ===== *)
(** * Containers: the queue between threads and the linear allocator ([common/circular_queue.h],
    [common/linear_allocator.h])

    [CircularQueue] passes items from any number of producers to one consumer.  Its operations are
    split into the steps between which another thread can run, so that the invariants hold for every
    interleaving.  Producers hold [productionMutex] from the start of a call to its end; the mutex of
    the second condition variable is taken by the holder of the first one only, and is left out.
    Reads and writes of the pointers take effect in the order of the steps. *)

From S2P Require Import Prelude Common.

(** ** The queue *)

Section queue.
Context {A : Type}.

(** Where the producer with the mutex is, with the items it has left. *)
Inductive Producer : Type :=
| PNext (items : list A)
| PTest (items : list A)
| PFalse (items : list A)
| PAsleep (items : list A)
| PStore (items : list A)
| PPublish (items : list A).

Inductive Consumer : Type :=
| CTop | CLock | CTest | CFalse | CAsleep | CInner | CCall | CAdvance | CNotify.

(** The holder of [productionMutex]. *)
Inductive Holder : Type := Free | HeldByProducer (p : Producer) | HeldByConsumer.

(** [cq_start] is the item handed out last, [cq_end] the newest one.  [cq_calls] are calls that wait
    for the mutex; [cq_accepted], [cq_produced] and [cq_consumed] record the calls that got it, the
    items put in the queue and those the consumer's function was called with. *)
Record CircularQueue : Type := mk_queue {
  cq_vector : list (option A);
  cq_start : nat;
  cq_end : nat;
  cq_holder : Holder;
  cq_consumer : Consumer;
  cq_calls : list (list A);
  cq_accepted : list (list A);
  cq_produced : list A;
  cq_consumed : list A }.

(** There is one slot more than items. *)
Definition CircularQueue_new (size : nat) : CircularQueue :=
  mk_queue (replicate (size + 1) None) 0 0 Free CTop [] [] [] [].

Definition next_slot (q : CircularQueue) (i : nat) : nat := if decide (i + 1 = length (cq_vector q))%nat then 0%nat else (i + 1)%nat.

Definition set_holder (h : Holder) (q : CircularQueue) : CircularQueue :=
  mk_queue (cq_vector q) (cq_start q) (cq_end q) h (cq_consumer q) (cq_calls q) (cq_accepted q) (cq_produced q) (cq_consumed q).
Definition set_consumer (c : Consumer) (q : CircularQueue) : CircularQueue :=
  mk_queue (cq_vector q) (cq_start q) (cq_end q) (cq_holder q) c (cq_calls q) (cq_accepted q) (cq_produced q) (cq_consumed q).

(** [produceCondition.notify_one()] and [consumeCondition.notify_one()]. *)
Definition wake_consumer (c : Consumer) : Consumer := match c with CAsleep => CLock | c => c end.
Definition wake_producer (h : Holder) : Holder := match h with HeldByProducer (PAsleep items) => HeldByProducer (PTest items) | h => h end.

(** A call by some thread, with the items it stores. *)
Definition queue_call (items : list A) (q : CircularQueue) : CircularQueue :=
  mk_queue (cq_vector q) (cq_start q) (cq_end q) (cq_holder q) (cq_consumer q) (cq_calls q ++ [items]) (cq_accepted q) (cq_produced q) (cq_consumed q).
Definition cq_Push (item : A) : CircularQueue -> CircularQueue := queue_call [item].
Definition cq_Append (buffer : list A) : CircularQueue -> CircularQueue := queue_call buffer.
Definition cq_AppendTranform {B : Type} (transformation : B -> A) (buffer : list B) : CircularQueue -> CircularQueue := queue_call (map transformation buffer).

(** The steps of [Append] after the mutex is taken: the test for space, the wait with its predicate,
    the store, and the move of [end]; the last step notifies and unlocks. *)
Definition producer_step (p : Producer) (q : CircularQueue) : option CircularQueue :=
  let next := next_slot q (cq_end q) in
  match p with
  | PNext [] => Some (set_consumer (wake_consumer (cq_consumer q)) (set_holder Free q))
  | PNext items => Some (set_holder (HeldByProducer (if decide (next = cq_start q) then PTest items else PStore items)) q)
  | PTest items => Some (set_holder (HeldByProducer (if decide (next = cq_start q) then PFalse items else PStore items)) q)
  | PFalse items => Some (set_holder (HeldByProducer (PAsleep items)) q)
  | PAsleep _ => None
  | PStore (item :: items) =>
      Some (mk_queue (<[next := Some item]> (cq_vector q)) (cq_start q) (cq_end q) (HeldByProducer (PPublish (item :: items)))
        (cq_consumer q) (cq_calls q) (cq_accepted q) (cq_produced q) (cq_consumed q))
  | PPublish (item :: items) =>
      Some (mk_queue (cq_vector q) (cq_start q) next (HeldByProducer (PNext items))
        (cq_consumer q) (cq_calls q) (cq_accepted q) (cq_produced q ++ [item]) (cq_consumed q))
  | PStore [] | PPublish [] => None
  end.

(** The steps of [Process]: the wait for items under the mutex of the producers, and the loop that
    calls the function and moves [start]. *)
Definition consumer_step (q : CircularQueue) : option CircularQueue :=
  let next := next_slot q (cq_start q) in
  match cq_consumer q with
  | CTop => Some (set_consumer (if decide (cq_start q = cq_end q) then CLock else CInner) q)
  | CLock => match cq_holder q with Free => Some (set_consumer CTest (set_holder HeldByConsumer q)) | _ => None end
  | CTest => Some (if decide (cq_start q = cq_end q) then set_consumer CFalse q else set_consumer CInner (set_holder Free q))
  | CFalse => Some (set_consumer CAsleep (set_holder Free q))
  | CAsleep => None
  | CInner => Some (set_consumer (if decide (cq_start q = cq_end q) then CNotify else CCall) q)
  | CCall =>
      match cq_vector q !! next with
      | Some (Some item) =>
          Some (mk_queue (cq_vector q) (cq_start q) (cq_end q) (cq_holder q) CAdvance (cq_calls q) (cq_accepted q) (cq_produced q) (cq_consumed q ++ [item]))
      | _ => None
      end
  | CAdvance => Some (mk_queue (cq_vector q) next (cq_end q) (cq_holder q) CInner (cq_calls q) (cq_accepted q) (cq_produced q) (cq_consumed q))
  | CNotify => Some (set_consumer CTop (set_holder (wake_producer (cq_holder q)) q))
  end.

(** Steps of all threads.  A wait may also end without a notification. *)
Inductive queue_step : CircularQueue -> CircularQueue -> Prop :=
| step_call q items : queue_step q (queue_call items q)
| step_acquire q l1 items l2 : cq_holder q = Free -> cq_calls q = l1 ++ items :: l2 ->
    queue_step q (mk_queue (cq_vector q) (cq_start q) (cq_end q) (HeldByProducer (PNext items)) (cq_consumer q) (l1 ++ l2)
      (cq_accepted q ++ [items]) (cq_produced q) (cq_consumed q))
| step_producer q p q' : cq_holder q = HeldByProducer p -> producer_step p q = Some q' -> queue_step q q'
| step_consumer q q' : consumer_step q = Some q' -> queue_step q q'
| step_spurious_producer q items : cq_holder q = HeldByProducer (PAsleep items) -> queue_step q (set_holder (HeldByProducer (PTest items)) q)
| step_spurious_consumer q : cq_consumer q = CAsleep -> queue_step q (set_consumer CLock q).

Definition queue_reachable (size : nat) (q : CircularQueue) : Prop := rtc queue_step (CircularQueue_new size) q.

(** ** The items in the queue *)

(** The slots behind [start] up to and including [end]. *)
Definition slot_count (q : CircularQueue) : nat :=
  if decide (cq_start q <= cq_end q)%nat then (cq_end q - cq_start q)%nat else (cq_end q + length (cq_vector q) - cq_start q)%nat.
Definition slot (q : CircularQueue) (i : nat) : nat :=
  if decide (cq_start q + 1 + i < length (cq_vector q))%nat then (cq_start q + 1 + i)%nat else (cq_start q + 1 + i - length (cq_vector q))%nat.

(** The queue holds [items]. *)
Definition holds (q : CircularQueue) (items : list A) : Prop :=
  length items = slot_count q /\ forall i x, items !! i = Some x -> cq_vector q !! slot q i = Some (Some x).

(** The items that a producer still has to store, the one whose slot is written included. *)
Definition left_over (h : Holder) : list A :=
  match h with
  | HeldByProducer (PNext items | PTest items | PFalse items | PAsleep items | PStore items | PPublish items) => items
  | _ => []
  end.

Definition producer_ok (q : CircularQueue) : Prop :=
  match cq_holder q with
  | HeldByProducer (PTest items | PFalse items | PAsleep items) => items <> []
  | HeldByProducer (PStore items) => items <> [] /\ next_slot q (cq_end q) <> cq_start q
  | HeldByProducer (PPublish items) => exists x l, items = x :: l /\ next_slot q (cq_end q) <> cq_start q /\ cq_vector q !! next_slot q (cq_end q) = Some (Some x)
  | _ => True
  end.

Definition consumer_ok (q : CircularQueue) : Prop :=
  match cq_consumer q with
  | CCall | CAdvance => cq_start q <> cq_end q
  | CTest | CFalse => cq_holder q = HeldByConsumer
  | _ => True
  end /\ (cq_holder q = HeldByConsumer -> cq_consumer q = CTest \/ cq_consumer q = CFalse).

(** The items that were produced are those handed to the consumer's function and, in order, those
    in the queue; the first of these is handed out already when the consumer is about to move [start]. *)
Definition queue_inv (size : nat) (q : CircularQueue) : Prop :=
  length (cq_vector q) = (size + 1)%nat /\ (cq_start q < size + 1)%nat /\ (cq_end q < size + 1)%nat /\
  producer_ok q /\ consumer_ok q /\
  cq_produced q ++ left_over (cq_holder q) = concat (cq_accepted q) /\
  exists items, holds q items /\
    match cq_consumer q with
    | CAdvance => exists x rest, items = x :: rest /\ cq_consumed q ++ rest = cq_produced q
    | _ => cq_consumed q ++ items = cq_produced q
    end.

Lemma holds_eq q q' items : cq_vector q' = cq_vector q -> cq_start q' = cq_start q -> cq_end q' = cq_end q -> holds q items -> holds q' items.
Proof. unfold holds, slot_count, slot. by intros -> -> ->. Qed.

Lemma slot_count_lt q : (cq_start q < length (cq_vector q))%nat -> (cq_end q < length (cq_vector q))%nat -> (slot_count q < length (cq_vector q))%nat.
Proof. intros. unfold slot_count. case_decide; lia. Qed.

Lemma slot_count_zero q : (cq_start q < length (cq_vector q))%nat -> slot_count q = 0%nat <-> cq_start q = cq_end q.
Proof. intros. unfold slot_count. case_decide; lia. Qed.

Lemma slot_zero q : (cq_start q < length (cq_vector q))%nat -> slot q 0 = next_slot q (cq_start q).
Proof. intros. unfold slot, next_slot. repeat case_decide; lia. Qed.

Lemma next_slot_inj q i j : (i < length (cq_vector q))%nat -> (j < length (cq_vector q))%nat -> next_slot q i = next_slot q j -> i = j.
Proof. unfold next_slot. intros. repeat case_decide; lia. Qed.

(** The slot behind the newest item is free. *)
Lemma next_not_held q i : (cq_start q < length (cq_vector q))%nat -> (cq_end q < length (cq_vector q))%nat ->
  next_slot q (cq_end q) <> cq_start q -> (i < slot_count q)%nat -> slot q i <> next_slot q (cq_end q).
Proof. unfold slot_count, slot, next_slot. intros. repeat case_decide; lia. Qed.

Lemma slot_last q : (cq_start q < length (cq_vector q))%nat -> (cq_end q < length (cq_vector q))%nat ->
  next_slot q (cq_end q) <> cq_start q -> slot q (slot_count q) = next_slot q (cq_end q).
Proof. unfold slot_count, slot, next_slot. intros. repeat case_decide; lia. Qed.

Lemma holds_store q q' items x : (cq_start q < length (cq_vector q))%nat -> (cq_end q < length (cq_vector q))%nat -> next_slot q (cq_end q) <> cq_start q ->
  cq_vector q' = <[next_slot q (cq_end q) := x]> (cq_vector q) -> cq_start q' = cq_start q -> cq_end q' = cq_end q ->
  holds q items -> holds q' items.
Proof.
  intros Hs He Hn Ev Es Ee [Hl Hi]. unfold holds, slot_count, slot. rewrite Es, Ee, Ev, length_insert. split; [exact Hl|].
  intros i y Hy. fold (slot q i). rewrite list_lookup_insert_ne; [by apply Hi|]. apply not_eq_sym, next_not_held; [done|done|done|].
  rewrite <- Hl. by eapply lookup_lt_Some.
Qed.

Lemma holds_publish q q' items x : (cq_start q < length (cq_vector q))%nat -> (cq_end q < length (cq_vector q))%nat -> next_slot q (cq_end q) <> cq_start q ->
  cq_vector q !! next_slot q (cq_end q) = Some (Some x) ->
  cq_vector q' = cq_vector q -> cq_start q' = cq_start q -> cq_end q' = next_slot q (cq_end q) ->
  holds q items -> holds q' (items ++ [x]).
Proof.
  intros Hs He Hn Hx Ev Es Ee [Hl Hi]. split.
  - rewrite length_app, Hl. unfold slot_count. rewrite Ev, Es, Ee. unfold next_slot in *. simpl. repeat case_decide; lia.
  - intros i y Hy. unfold slot. rewrite Ev, Es. fold (slot q i). apply lookup_app_Some in Hy as [Hy|[Hge Hy]]; [by apply Hi|].
    apply list_lookup_singleton_Some in Hy as [Hi0 ->]. replace i with (slot_count q) by lia. by rewrite slot_last.
Qed.

Lemma holds_advance q q' x items : (cq_start q < length (cq_vector q))%nat -> (cq_end q < length (cq_vector q))%nat -> cq_start q <> cq_end q ->
  cq_vector q' = cq_vector q -> cq_start q' = next_slot q (cq_start q) -> cq_end q' = cq_end q ->
  holds q (x :: items) -> holds q' items.
Proof.
  intros Hs He Hne Ev Es Ee [Hl Hi]. simpl in Hl. split.
  - unfold slot_count in *. rewrite Ev, Es, Ee. unfold next_slot. repeat case_decide; lia.
  - intros i y Hy. rewrite Ev. replace (slot q' i) with (slot q (S i)); [by apply (Hi (S i))|].
    apply lookup_lt_Some in Hy. unfold slot, slot_count in *. rewrite Ev, Es. unfold next_slot. repeat case_decide; lia.
Qed.

Ltac queue_parts H := destruct H as (Hlen & Hs & He & Hp & Hc & Ha & items & Hi & Hm).

Lemma queue_new_inv size : queue_inv size (CircularQueue_new size).
Proof.
  unfold queue_inv, CircularQueue_new. cbn. rewrite length_replicate. split_and!; try done; try lia.
  exists []. split; [|done]. split; [done|]. intros i x Hx. by rewrite lookup_nil in Hx.
Qed.

Lemma producer_step_inv size q p q' : queue_inv size q -> cq_holder q = HeldByProducer p -> producer_step p q = Some q' -> queue_inv size q'.
Proof.
  intros H Hh Hstep. queue_parts H. rewrite Hh in Ha. unfold producer_ok in Hp. rewrite Hh in Hp. destruct Hc as [Hc1 Hc2].
  assert (Hnc : cq_consumer q <> CTest /\ cq_consumer q <> CFalse) by (split; intros E; rewrite E in Hc1; congruence).
  assert (Hn : (next_slot q (cq_end q) < size + 1)%nat) by (unfold next_slot; case_decide; lia).
  rewrite <- Hlen in Hs, He.
  destruct p as [[|x l]|l|l|l|[|x l]|[|x l]]; cbn [producer_step] in Hstep; try done; injection Hstep as <-;
    unfold queue_inv, producer_ok, consumer_ok; cbn [cq_vector cq_start cq_end cq_holder cq_consumer cq_accepted cq_produced cq_consumed set_consumer set_holder left_over].
  - (* notify and unlock *) split_and!; [done|lia|lia|done| |done|done|].
    + destruct (cq_consumer q); try done; naive_solver.
    + exists items. split; [by apply (holds_eq q)|]. by destruct (cq_consumer q).
  - case_decide; split_and!; try done; try lia; try (exists items; (split; [by apply (holds_eq q)|done])); destruct (cq_consumer q); naive_solver.
  - case_decide; split_and!; try done; try lia; try (exists items; (split; [by apply (holds_eq q)|done])); destruct (cq_consumer q); naive_solver.
  - split_and!; try done; try lia; try (exists items; (split; [by apply (holds_eq q)|done])); destruct (cq_consumer q); naive_solver.
  - destruct Hp as [_ Hp]. rewrite length_insert. split_and!; try done; try lia; try (destruct (cq_consumer q); naive_solver).
    + exists x, l. unfold next_slot. cbn [cq_vector]. rewrite length_insert. split_and!; try done. by rewrite list_lookup_insert_eq by (unfold next_slot in Hn; lia).
    + exists items. split; [by eapply (holds_store q)|done].
  - destruct Hp as (x' & l' & E & Hne & Hx). injection E as <- <-. split_and!; try done; try lia.
    + destruct (cq_consumer q); naive_solver.
    + by rewrite <- app_assoc.
    + exists (items ++ [x]). split; [by eapply (holds_publish q)|]. destruct (cq_consumer q); try (rewrite app_assoc; congruence).
      destruct Hm as (y & rest & -> & <-). exists y, (rest ++ [x]). split; [done|]. by rewrite app_assoc.
Qed.

(** Opens the invariant after a step that leaves the items alone, and closes its simple parts. *)
Ltac queue_solve q items :=
  unfold queue_inv, producer_ok, consumer_ok in *;
  cbn [cq_vector cq_start cq_end cq_holder cq_consumer cq_accepted cq_produced cq_consumed set_consumer set_holder left_over] in *;
  split_and!; try done; try lia; try (exists items; (split; [by apply (holds_eq q)|done || by case_decide])); try (repeat case_decide; naive_solver).

Lemma consumer_step_inv size q q' : queue_inv size q -> consumer_step q = Some q' -> queue_inv size q'.
Proof.
  intros H Hstep. queue_parts H. assert (Hn : (next_slot q (cq_start q) < size + 1)%nat) by (unfold next_slot; case_decide; lia).
  rewrite <- Hlen in Hs, He. destruct Hc as [Hc1 Hc2]. unfold consumer_step in Hstep.
  destruct (cq_consumer q) eqn:Ec; try done.
  - (* the first test *) injection Hstep as <-. queue_solve q items.
  - (* taking the mutex *) destruct (cq_holder q) eqn:Eh; try done. injection Hstep as <-. queue_solve q items.
  - injection Hstep as <-. rewrite Hc1 in *. case_decide; queue_solve q items; by rewrite Hc1.
  - injection Hstep as <-. rewrite Hc1 in *. queue_solve q items; by rewrite Hc1.
  - (* the loop test *) injection Hstep as <-. queue_solve q items.
  - (* the function is called *) destruct (cq_vector q !! next_slot q (cq_start q)) as [[x|]|] eqn:Ex; try done. injection Hstep as <-.
    unfold queue_inv, producer_ok, consumer_ok in *. cbn [cq_vector cq_start cq_end cq_holder cq_consumer cq_accepted cq_produced cq_consumed] in *.
    split_and!; try done; try lia; try naive_solver. exists items. split; [by apply (holds_eq q)|].
    destruct Hi as [Hl Hi]. destruct items as [|y rest].
    + simpl in Hl. symmetry in Hl. apply slot_count_zero in Hl; [done|lia].
    + specialize (Hi 0%nat y eq_refl). rewrite slot_zero in Hi by lia. rewrite Hi in Ex. injection Ex as ->. exists x, rest. split; [done|].
      by rewrite <- app_assoc.
  - (* start is moved *) injection Hstep as <-. destruct Hm as (x & rest & -> & Hm). unfold queue_inv, producer_ok, consumer_ok in *.
    cbn [cq_vector cq_start cq_end cq_holder cq_consumer cq_accepted cq_produced cq_consumed] in *.
    split_and!; try done; try lia; try naive_solver.
    + change (next_slot (mk_queue _ _ _ _ _ _ _ _ _)) with (next_slot q). destruct (cq_holder q) as [|[l|l|l|l|l|l]|]; try done.
      * destruct Hp as [Hp1 Hp2]. split; [done|]. intros E. apply Hc1. symmetry. by eapply next_slot_inj.
      * destruct Hp as (y & l' & -> & Hp1 & Hp2). exists y, l'. split_and!; [done| |done]. intros E. apply Hc1. symmetry. by eapply next_slot_inj.
    + exists rest. split; [by eapply (holds_advance q)|done].
  - injection Hstep as <-. unfold queue_inv, producer_ok, consumer_ok in *.
    cbn [cq_vector cq_start cq_end cq_holder cq_consumer cq_accepted cq_produced cq_consumed set_consumer set_holder left_over] in *.
    split_and!; try done; try lia.
    + destruct (cq_holder q) as [|[l|l|l|l|l|l]|]; done.
    + destruct (cq_holder q) as [|[l|l|l|l|l|l]|]; try done; naive_solver.
    + destruct (cq_holder q) as [|[l|l|l|l|l|l]|]; done.
    + exists items. split; [by apply (holds_eq q)|done].
Qed.

Lemma queue_step_inv size q q' : queue_inv size q -> queue_step q q' -> queue_inv size q'.
Proof.
  intros H Hstep. destruct Hstep as [q call|q l1 call l2 Hh Hcalls|q p q' Hh Hp|q q' Hq|q call Hh|q Hq].
  - queue_parts H. split_and!; try done. exists items. split; [by apply (holds_eq q)|done].
  - queue_parts H. rewrite Hh in Ha. destruct Hc as [Hc1 Hc2]. split_and!; try done.
    + unfold consumer_ok in *. cbn. rewrite Hh in *. destruct (cq_consumer q); naive_solver.
    + cbn [cq_produced left_over cq_holder cq_accepted] in *. rewrite concat_app, <- Ha. cbn. by rewrite !app_nil_r.
    + exists items. split; [by apply (holds_eq q)|done].
  - by eapply producer_step_inv.
  - by eapply consumer_step_inv.
  - queue_parts H. unfold producer_ok in Hp. rewrite Hh in Hp, Ha. destruct Hc as [Hc1 Hc2]. rewrite Hh in *. split_and!; try done.
    + unfold consumer_ok. cbn. destruct (cq_consumer q); naive_solver.
    + exists items. split; [by apply (holds_eq q)|done].
  - queue_parts H. destruct Hc as [Hc1 Hc2]. split_and!; try done.
    + split; [done|]. intros E. apply Hc2 in E. rewrite Hq in E. naive_solver.
    + exists items. split; [by apply (holds_eq q)|]. by rewrite Hq in Hm.
Qed.

Lemma queue_reachable_inv size q : queue_reachable size q -> queue_inv size q.
Proof.
  intros H. unfold queue_reachable in H. remember (CircularQueue_new size) as q0 eqn:E.
  assert (H0 : queue_inv size q0) by (subst; apply queue_new_inv). clear E. induction H as [|q0 q1 q2 Hstep _ IH]; [done|].
  apply IH. by eapply queue_step_inv.
Qed.

(** C18: under every interleaving of any number of producers with the consumer, the consumer's
    function is called with the items in the order in which they were put in the queue, each once;
    they are put in the queue call by call, without those of another call in between; there are
    never more than the queue's size of them between the two, and an empty queue means that all were
    handed out. *)
Theorem queue_fifo (size : nat) (q : CircularQueue) : queue_reachable size q ->
  cq_consumed q `prefix_of` cq_produced q /\ cq_produced q `prefix_of` concat (cq_accepted q) /\
  (length (cq_produced q) <= length (cq_consumed q) + size)%nat /\
  (cq_holder q = Free -> cq_produced q = concat (cq_accepted q)) /\
  (cq_start q = cq_end q -> cq_consumed q = cq_produced q).
Proof.
  intros H. apply queue_reachable_inv in H. queue_parts H. destruct Hi as [Hl Hi]. rewrite <- Hlen in Hs, He.
  pose proof (slot_count_lt q Hs He) as Hlt. pose proof (slot_count_zero q Hs) as Hz.
  assert (Hcases : exists rest, cq_consumed q ++ rest = cq_produced q /\ (length rest <= length items)%nat).
  { destruct (cq_consumer q); try (by exists items). destruct Hm as (x & rest & -> & Hm). exists rest. simpl. split; [done|lia]. }
  destruct Hcases as (rest & Hr & Hrl). split_and!.
  - exists rest. done.
  - eexists. by rewrite <- Ha.
  - rewrite <- Hr, length_app. lia.
  - intros E. rewrite E in Ha. by rewrite <- Ha, app_nil_r.
  - intros E. apply Hz in E. rewrite E in Hl. apply nil_length_inv in Hl. subst items. destruct rest; [|simpl in Hrl; lia]. by rewrite app_nil_r in Hr.
Qed.

End queue.
Arguments CircularQueue : clear implicits.

(** A run of threads, for examples: which thread takes the next step. *)
Inductive Turn (A : Type) : Type := TCall (items : list A) | TAcquire | TProducer | TConsumer.
Arguments TCall {A}. Arguments TAcquire {A}. Arguments TProducer {A}. Arguments TConsumer {A}.

Definition take_turn {A} (q : CircularQueue A) (t : Turn A) : option (CircularQueue A) :=
  match t with
  | TCall items => Some (queue_call items q)
  | TAcquire =>
      match cq_holder q, cq_calls q with
      | Free, items :: calls =>
          Some (mk_queue (cq_vector q) (cq_start q) (cq_end q) (HeldByProducer (PNext items)) (cq_consumer q) calls
            (cq_accepted q ++ [items]) (cq_produced q) (cq_consumed q))
      | _, _ => None
      end
  | TProducer => match cq_holder q with HeldByProducer p => producer_step p q | _ => None end
  | TConsumer => consumer_step q
  end.

Definition take_turns {A} (size : nat) (ts : list (Turn A)) : option (CircularQueue A) :=
  foldl (fun q t => q ≫= fun q => take_turn q t) (Some (CircularQueue_new size)) ts.

Lemma take_turn_step {A} (q q' : CircularQueue A) t : take_turn q t = Some q' -> queue_step q q'.
Proof.
  destruct t as [items| | |]; cbn [take_turn]; intros H.
  - injection H as <-. constructor.
  - destruct (cq_holder q) eqn:Eh; try done. destruct (cq_calls q) as [|items calls] eqn:Ec; [done|]. injection H as <-.
    apply (step_acquire q [] items calls); done.
  - destruct (cq_holder q) eqn:Eh; try done. by eapply step_producer.
  - by apply step_consumer.
Qed.

Lemma take_turns_reachable {A} size ts (q : CircularQueue A) : take_turns size ts = Some q -> queue_reachable size q.
Proof.
  revert q. induction ts as [|t ts IH] using rev_ind; intros q H.
  - injection H as <-. apply rtc_refl.
  - unfold take_turns in *. rewrite foldl_app in H. cbn in H. apply bind_Some in H as (q1 & H1 & H2).
    eapply rtc_r; [by apply IH|by eapply take_turn_step].
Qed.

Definition deadlock_turns : list (Turn Z) :=
  [TCall [1; 2]; TAcquire; TProducer; TProducer; TProducer; TProducer; TProducer; (* the second item finds no space, and the test fails *)
   TConsumer; TConsumer; TConsumer; TConsumer; TConsumer; TConsumer; TConsumer; (* the first one is consumed, and the consumer notifies *)
   TProducer (* the producer goes to sleep *)].

Lemma queue_fifo_witness : exists q, take_turns 1 (take 12 deadlock_turns) = Some q /\ cq_consumed q `prefix_of` cq_produced q.
Proof.
  eexists. split; [vm_compute; reflexivity|].
  apply (queue_fifo 1). apply (take_turns_reachable 1 (take 12 deadlock_turns)). vm_compute. reflexivity.
Defined.

(** The consumer notifies without the mutex of the condition, so the notification can come between
    the producer's test and its sleep.  The producer then sleeps with the mutex that the consumer needs
    to wait for it: the queue is empty, and neither of them moves again. *)
Lemma queue_deadlocks : exists q, queue_reachable 1 q /\ cq_start q = cq_end q /\
  cq_holder q = HeldByProducer (PAsleep [2]) /\ cq_consumer q = CLock /\ consumer_step q = None /\ producer_step (PAsleep [2]) q = None.
Proof.
  eexists. split; [apply (take_turns_reachable 1 deadlock_turns); vm_compute; reflexivity|]. vm_compute. done.
Qed.

(** ** The linear allocator *)

Section linear.
Context (NewChunkSize : Z) (Hchunk : 0 < NewChunkSize).

(** [alignof(std::max_align_t)]. *)
Definition max_align : Z := 16.

(** The main chunk has the number 0 and the overflow chunks those from 1 on; a pointer is a chunk and
    an offset in it. *)
Record LinearAllocatorState : Type := mk_linear {
  la_mainCapacity : Z;
  la_overflowChunks : Z;
  la_ptr : Z * Z;
  la_chunkRemainingBytes : Z;
  la_allocCount : Z }.

Definition LinearAllocatorState_new : LinearAllocatorState := mk_linear NewChunkSize 0 (0, 0) NewChunkSize 0.

Definition la_Allocate (unalignedSize : Z) (s : LinearAllocatorState) : M (Z * Z * LinearAllocatorState) :=
  let size := AlignUp unalignedSize max_align in
  if NewChunkSize <? size then fail (Throw "std::bad_alloc")
  else
    let s := if la_chunkRemainingBytes s <? size
             then mk_linear (la_mainCapacity s) (la_overflowChunks s + 1) (la_overflowChunks s + 1, 0) NewChunkSize (la_allocCount s) else s in
    ok (la_ptr s, mk_linear (la_mainCapacity s) (la_overflowChunks s) (fst (la_ptr s), snd (la_ptr s) + size)
                    (la_chunkRemainingBytes s - size) (u64 (la_allocCount s + 1))).

Definition la_Deallocate (s : LinearAllocatorState) : LinearAllocatorState :=
  mk_linear (la_mainCapacity s) (la_overflowChunks s) (la_ptr s) (la_chunkRemainingBytes s) (u64 (la_allocCount s - 1)).

Definition la_Reset (s : LinearAllocatorState) : M LinearAllocatorState :=
  if negb (la_allocCount s =? 0) then fail (Throw "std::bad_alloc")
  else
    let overflowSize := la_overflowChunks s * NewChunkSize in
    let capacity := if overflowSize =? 0 then la_mainCapacity s else overflowSize + la_mainCapacity s in
    ok (mk_linear capacity 0 (0, 0) capacity 0).

Definition capacity (s : LinearAllocatorState) (c : Z) : Z := if c =? 0 then la_mainCapacity s else NewChunkSize.

Definition linear_ok (s : LinearAllocatorState) : Prop :=
  NewChunkSize <= la_mainCapacity s /\ fst (la_ptr s) = la_overflowChunks s /\ 0 <= la_overflowChunks s /\
  0 <= snd (la_ptr s) /\ 0 <= la_chunkRemainingBytes s /\ snd (la_ptr s) + la_chunkRemainingBytes s = capacity s (la_overflowChunks s) /\
  snd (la_ptr s) mod max_align = 0.

(** Allocations in turn, with the places they return. *)
Fixpoint la_run (sizes : list Z) (s : LinearAllocatorState) : M (list (Z * Z) * LinearAllocatorState) :=
  match sizes with
  | [] => ok ([], s)
  | n :: sizes =>
      let! (p, s) := la_Allocate n s in
      let! (ps, s) := la_run sizes s in
      ok (p :: ps, s)
  end.

Lemma align16 n : 0 <= n -> n + 16 <= 2 ^ 64 -> AlignUp n max_align = (n + 15) - (n + 15) mod 16.
Proof. intros Hn Hb. unfold max_align. change 16 with (2 ^ 4) at 1. rewrite AlignUp_spec by lia. change (2 ^ 4) with 16. f_equal; [lia|]. f_equal. lia. Qed.

Lemma align16_spec n : 0 <= n -> n + 16 <= 2 ^ 64 -> n <= AlignUp n max_align < n + 16 /\ AlignUp n max_align mod 16 = 0.
Proof.
  intros Hn Hb. rewrite align16 by done. pose proof (Z.mod_pos_bound (n + 15) 16 ltac:(lia)). pose proof (Z.div_mod (n + 15) 16 ltac:(lia)) as E. split; [lia|].
  replace (n + 15 - (n + 15) mod 16) with ((n + 15) / 16 * 16) by lia. apply Z.mod_mul. lia.
Qed.

(** What an allocation returns lies in its chunk, behind everything that was returned before. *)
Definition behind (p q : Z * Z) : Prop := fst p < fst q \/ fst p = fst q /\ snd p <= snd q.

Lemma la_Allocate_spec n s p s' : linear_ok s -> 0 <= n -> n + 16 <= 2 ^ 64 -> la_Allocate n s = inr (p, s') ->
  linear_ok s' /\ la_mainCapacity s' = la_mainCapacity s /\
  behind (la_ptr s) p /\ snd p mod max_align = 0 /\ 0 <= snd p /\ snd p + n <= capacity s (fst p) /\ behind (fst p, snd p + n) (la_ptr s') /\
  la_overflowChunks s <= la_overflowChunks s'.
Proof.
  intros (H1 & H2 & H3 & H4 & H5 & H6 & H7) Hn Hb H. unfold la_Allocate in H. destruct (align16_spec n Hn Hb) as [Ha Ha'].
  set (size := AlignUp n max_align) in *. destruct (Z.ltb_spec NewChunkSize size); [done|]. injection H as <- <-.
  unfold linear_ok, behind, capacity, max_align in *. destruct (Z.ltb_spec (la_chunkRemainingBytes s) size);
    cbn [la_ptr la_mainCapacity la_overflowChunks la_chunkRemainingBytes fst snd].
  - destruct (Z.eqb_spec (la_overflowChunks s + 1) 0); [lia|]. split_and!; try lia; done.
  - rewrite H2. rewrite Z.add_mod, H7, Ha' by lia. split_and!; try lia; done.
Qed.

Lemma behind_trans p q r : behind p q -> behind q r -> behind p r.
Proof. unfold behind. lia. Qed.

(** Every later place lies behind an earlier one. *)
Lemma la_run_behind sizes s ps s' : linear_ok s -> Forall (fun n => 0 <= n /\ n + 16 <= 2 ^ 64) sizes -> la_run sizes s = inr (ps, s') ->
  linear_ok s' /\ la_mainCapacity s' = la_mainCapacity s /\ length ps = length sizes /\ behind (la_ptr s) (la_ptr s') /\
  (forall i p n, ps !! i = Some p -> sizes !! i = Some n ->
     behind (la_ptr s) p /\ snd p mod max_align = 0 /\ 0 <= snd p /\ snd p + n <= capacity s (fst p) /\ behind (fst p, snd p + n) (la_ptr s')).
Proof.
  intros Hok Hs. revert s ps Hok. induction Hs as [|n sizes [Hn Hb] Hs IH]; intros s ps Hok H; cbn [la_run] in H.
  - injection H as <- <-. split_and!; try done. unfold behind. lia.
  - apply bindM_ok in H as ((p & s1) & H1 & H). apply bindM_ok in H as ((ps1 & s2) & H2 & H). injection H as <- <-.
    destruct (la_Allocate_spec _ _ _ _ Hok Hn Hb H1) as (Hok1 & E1 & A1 & A2 & A3 & A4 & A5 & _).
    destruct (IH s1 ps1 Hok1 H2) as (Hok2 & E2 & L & B1 & B2). split_and!; [done|congruence|simpl; lia| |].
    + eapply behind_trans; [exact A1|]. eapply behind_trans; [|eapply behind_trans; [exact A5|exact B1]]. unfold behind. simpl. lia.
    + intros [|i] p' n' Hp' Hn'; simpl in Hp', Hn'.
      * simplify_eq. split_and!; try done. eapply behind_trans; [exact A5|exact B1].
      * destruct (B2 i p' n' Hp' Hn') as (C1 & C2 & C3 & C4 & C5). split_and!; try done.
        -- eapply behind_trans; [exact A1|]. eapply behind_trans; [|eapply behind_trans; [exact A5|exact C1]]. unfold behind. simpl. lia.
        -- unfold capacity in *. by rewrite E1 in C4.
Qed.

Lemma la_run_disjoint sizes s ps s' i j p q n : linear_ok s -> Forall (fun n => 0 <= n /\ n + 16 <= 2 ^ 64) sizes -> la_run sizes s = inr (ps, s') ->
  (i < j)%nat -> ps !! i = Some p -> ps !! j = Some q -> sizes !! i = Some n -> behind (fst p, snd p + n) q.
Proof.
  intros Hok Hs. revert s ps i j Hok. induction Hs as [|m sizes [Hm Hb] Hs IH]; intros s ps i j Hok H Hij Hp Hq Hn; [done|]. cbn [la_run] in H.
  apply bindM_ok in H as ((p1 & s1) & H1 & H). apply bindM_ok in H as ((ps1 & s2) & H2 & H). injection H as <- <-.
  destruct (la_Allocate_spec _ _ _ _ Hok Hm Hb H1) as (Hok1 & E1 & A1 & A2 & A3 & A4 & A5 & _).
  destruct i as [|i], j as [|j]; simpl in Hp, Hq, Hn; try lia.
  - simplify_eq. destruct (la_run_behind _ _ _ _ Hok1 Hs H2) as (_ & _ & L & _ & B).
    destruct (lookup_lt_is_Some_2 sizes j) as [k Hk]; [rewrite <- L; by eapply lookup_lt_Some|].
    destruct (B j q k Hq Hk) as (C1 & _). by eapply behind_trans.
  - eapply (IH s1 ps1 i j); eauto. lia.
Qed.

(** The bytes of all chunks up to the pointer. *)
Definition la_used (s : LinearAllocatorState) : Z :=
  if la_overflowChunks s =? 0 then snd (la_ptr s) else la_mainCapacity s + (la_overflowChunks s - 1) * NewChunkSize + snd (la_ptr s).

Definition total (sizes : list Z) : Z := foldr (fun n t => AlignUp n max_align + t) 0 sizes.

Lemma la_run_used sizes s ps s' : linear_ok s -> Forall (fun n => 0 <= n /\ n + 16 <= 2 ^ 64) sizes -> la_run sizes s = inr (ps, s') ->
  la_used s + total sizes <= la_used s'.
Proof.
  intros Hok Hs. revert s ps Hok. induction Hs as [|m sizes [Hm Hb] Hs IH]; intros s ps Hok H; cbn [la_run] in H.
  - injection H as <- <-. simpl. lia.
  - apply bindM_ok in H as ((p1 & s1) & H1 & H). apply bindM_ok in H as ((ps1 & s2) & H2 & H). injection H as <- <-.
    destruct (la_Allocate_spec _ _ _ _ Hok Hm Hb H1) as (Hok1 & _). specialize (IH s1 ps1 Hok1 H2). cbn [total foldr]. fold (total sizes).
    enough (la_used s + AlignUp m max_align <= la_used s1) by lia. clear IH H2.
    destruct Hok as (B1 & B2 & B3 & B4 & B5 & B6 & B7). unfold la_Allocate in H1. destruct (align16_spec m Hm Hb) as [Ha _].
    destruct (Z.ltb_spec NewChunkSize (AlignUp m max_align)); [done|]. injection H1 as _ <-. unfold la_used, capacity in *.
    destruct (Z.ltb_spec (la_chunkRemainingBytes s) (AlignUp m max_align)); cbn [la_ptr la_mainCapacity la_overflowChunks la_chunkRemainingBytes fst snd].
    + destruct (Z.eqb_spec (la_overflowChunks s + 1) 0); [lia|]. destruct (Z.eqb_spec (la_overflowChunks s) 0) as [E|]; [rewrite E in *; lia|lia].
    + destruct (Z.eqb_spec (la_overflowChunks s) 0); lia.
Qed.

Lemma total_nonneg sizes : Forall (fun n => 0 <= n /\ n + 16 <= 2 ^ 64) sizes -> 0 <= total sizes.
Proof. induction 1 as [|n sizes [Hn Hb] _ IH]; cbn [total foldr]; [lia|]. fold (total sizes). destruct (align16_spec n Hn Hb). lia. Qed.

(** Allocations that fit in the main chunk stay in it. *)
Lemma la_run_fits sizes s : linear_ok s -> la_overflowChunks s = 0 -> Forall (fun n => 0 <= n /\ n + 16 <= 2 ^ 64 /\ AlignUp n max_align <= NewChunkSize) sizes ->
  total sizes <= la_chunkRemainingBytes s -> exists ps s', la_run sizes s = inr (ps, s') /\ Forall (fun p => fst p = 0) ps /\ la_overflowChunks s' = 0.
Proof.
  intros Hok H0 Hs. revert s Hok H0. induction Hs as [|m sizes (Hm & Hb & Hc) Hs IH]; intros s Hok H0 Ht; cbn [la_run].
  - exists [], s. split; [done|]. split; [constructor|done].
  - assert (Hn : 0 <= total sizes). { apply total_nonneg. eapply Forall_impl; [exact Hs|]. intros n (? & ? & _). done. }
    cbn [total foldr] in Ht. fold (total sizes) in Ht. destruct (la_Allocate m s) as [e|[p s1]] eqn:E.
    { exfalso. unfold la_Allocate in E. destruct (Z.ltb_spec NewChunkSize (AlignUp m max_align)); [lia|]. done. }
    destruct (la_Allocate_spec _ _ _ _ Hok Hm Hb E) as (Hok1 & _). unfold la_Allocate in E.
    destruct (Z.ltb_spec NewChunkSize (AlignUp m max_align)); [done|]. destruct (Z.ltb_spec (la_chunkRemainingBytes s) (AlignUp m max_align)); [lia|].
    injection E as <- <-. destruct (IH _ Hok1 H0) as (ps & s' & E & Hp & Hz); [cbn; lia|]. exists (la_ptr s :: ps), s'. cbn [bindM]. rewrite E. cbn [bindM].
    split; [done|]. split; [|done]. constructor; [|done]. destruct Hok as (_ & E2 & _). lia.
Qed.

(** allocations of the linear allocator are aligned, lie inside their chunk and do not overlap;
    when they have all been given back, [Reset] makes the main chunk large enough that the same
    allocations, made again, all lie in it. *)
Theorem linear_allocator (sizes : list Z) (s : LinearAllocatorState) (ps : list (Z * Z)) (s' : LinearAllocatorState) :
  linear_ok s -> la_ptr s = (0, 0) -> la_overflowChunks s = 0 -> Forall (fun n => 0 <= n /\ n + 16 <= 2 ^ 64) sizes -> la_run sizes s = inr (ps, s') ->
  (forall i p n, ps !! i = Some p -> sizes !! i = Some n -> snd p mod max_align = 0 /\ 0 <= snd p /\ snd p + n <= capacity s (fst p)) /\
  (forall i j p q n, (i < j)%nat -> ps !! i = Some p -> ps !! j = Some q -> sizes !! i = Some n -> fst p = fst q -> snd p + n <= snd q) /\
  (forall s0, s0 = mk_linear (la_mainCapacity s') (la_overflowChunks s') (la_ptr s') (la_chunkRemainingBytes s') 0 ->
     exists s1 ps' s2, la_Reset s0 = inr s1 /\ la_run sizes s1 = inr (ps', s2) /\ Forall (fun p => fst p = 0) ps').
Proof.
  intros Hok Hptr H0 Hs H. destruct (la_run_behind _ _ _ _ Hok Hs H) as (Hok' & E & L & _ & B). split_and!.
  - intros i p n Hp Hn. destruct (B i p n Hp Hn) as (_ & ? & ? & ? & _). done.
  - intros i j p q n Hij Hp Hq Hn Epq. pose proof (la_run_disjoint _ _ _ _ _ _ _ _ _ Hok Hs H Hij Hp Hq Hn) as [Hlt|[_ Hle]]; simpl in *; [lia|done].
  - intros s0 ->. pose proof (la_run_used _ _ _ _ Hok Hs H) as Hu. unfold la_used in Hu at 1. rewrite H0, Hptr in Hu. simpl in Hu.
    destruct Hok' as (D1 & D2 & D3 & D4 & D5 & D6 & D7).
    set (cap := if la_overflowChunks s' * NewChunkSize =? 0 then la_mainCapacity s' else la_overflowChunks s' * NewChunkSize + la_mainCapacity s').
    assert (Hcap : total sizes <= cap /\ NewChunkSize <= cap).
    { unfold la_used, capacity in *. subst cap. destruct (Z.eqb_spec (la_overflowChunks s') 0) as [E0|E0]; [rewrite E0 in *; simpl in *; lia|].
      destruct (Z.eqb_spec (la_overflowChunks s' * NewChunkSize) 0); [nia|]. nia. }
    destruct (la_run_fits sizes (mk_linear cap 0 (0, 0) cap 0)) as (ps' & s2 & E2 & Hp & _).
    + unfold linear_ok, capacity. cbn. split_and!; try lia. done.
    + done.
    + apply Forall_lookup. intros i n Hn. pose proof (Forall_lookup_1 _ _ _ _ Hs Hn) as [? ?]. split_and!; [done|done|].
      clear - H Hn. revert i s ps H Hn. induction sizes as [|m sizes IH]; intros i s ps H Hn; [done|]. cbn [la_run] in H.
      apply bindM_ok in H as ((p1 & s1) & H1 & H). apply bindM_ok in H as ((ps1 & s2) & H2 & H). destruct i as [|i]; simpl in Hn.
      * simplify_eq. unfold la_Allocate in H1. destruct (Z.ltb_spec NewChunkSize (AlignUp n max_align)); [done|lia].
      * injection H as <- <-. by eapply IH.
    + cbn. lia.
    + eexists _, ps', s2. split; [reflexivity|]. done.
Qed.

End linear.

Lemma linear_allocator_witness : exists ps s', la_run 64 [10; 40; 20; 64] (LinearAllocatorState_new 64) = inr (ps, s') /\
  (forall i p n, ps !! i = Some p -> [10; 40; 20; 64] !! i = Some n -> snd p mod max_align = 0 /\ 0 <= snd p /\ snd p + n <= capacity 64 (LinearAllocatorState_new 64) (fst p)).
Proof.
  eexists _, _. split; [vm_compute; reflexivity|].
  refine (proj1 (linear_allocator 64 ltac:(lia) [10; 40; 20; 64] (LinearAllocatorState_new 64) _ _ _ eq_refl eq_refl _ _)).
  - vm_compute. split_and!; (discriminate || reflexivity).
  - repeat constructor; vm_compute; (discriminate || reflexivity).
  - vm_compute. reflexivity.
Defined.
