(* ===== verification/AudioBuffer.v ===== *)
(** * The ring of samples ([common/circular_buffer.h])

    A track keeps the samples that the guest appends in a ring of a fixed size until the callback of
    the host's audio stream takes them.  Samples are numbers; the pointers to the oldest item and behind
    the newest are offsets from the start of the array, and [empty] tells a full ring from an empty one.
    A copy outside of the arrays is [Undefined].  What the mutex protects is one step. *)

From S2P Require Import Prelude.

(** [std::memcpy] of [src] to [dst] at [o]. *)
Definition blit (o : nat) (src dst : list Z) : list Z := take o dst ++ src ++ drop (o + length src) dst.
(** The [n] items of [l] from [o] on. *)
Definition sub (o n : nat) (l : list Z) : list Z := take n (drop o l).

Lemma length_blit o src dst : (o + length src <= length dst)%nat -> length (blit o src dst) = length dst.
Proof. intros. unfold blit. rewrite !length_app, length_take, length_drop. lia. Qed.

Lemma blit_nil o dst : blit o [] dst = dst.
Proof. unfold blit. simpl. by rewrite Nat.add_0_r, take_drop. Qed.

Lemma lookup_app_dec (l k : list Z) i : (l ++ k) !! i = if decide (i < length l)%nat then l !! i else k !! (i - length l)%nat.
Proof. case_decide; [by apply lookup_app_l|apply lookup_app_r; lia]. Qed.

Lemma lookup_blit o src dst i : (o + length src <= length dst)%nat ->
  blit o src dst !! i = if decide (i < o)%nat then dst !! i else if decide (i < o + length src)%nat then src !! (i - o)%nat else dst !! i.
Proof.
  intros Hl. unfold blit. rewrite lookup_app_dec, length_take, lookup_app_dec, lookup_take, lookup_drop.
  repeat case_decide; try lia; f_equal; lia.
Qed.

(** An equation between lists that are cut from others. *)
Ltac cut_step :=
  progress rewrite ?length_drop, ?length_take, ?length_app, ?lookup_drop, ?lookup_take, ?lookup_app_dec, ?length_blit, ?lookup_blit
    by (rewrite ?length_take, ?length_drop, ?length_blit by (rewrite ?length_take, ?length_drop; lia); lia).
Ltac by_lookup :=
  apply list_eq; intros ?i; unfold sub; repeat cut_step; repeat case_decide; repeat cut_step; try lia; try done;
  try (f_equal; lia); try (symmetry; apply lookup_ge_None_2; rewrite ?length_drop, ?length_take; lia);
  try (apply lookup_ge_None_2; rewrite ?length_drop, ?length_take; lia).

(** ** The ring *)

Section ring.
Context (Size : nat).

Record CircularBuffer : Type := mk_ring { cb_array : list Z; cb_start : nat; cb_end : nat; cb_empty : bool }.

Definition CircularBuffer_new : CircularBuffer := mk_ring (replicate Size 0) 0 0 true.

(** The number of items to read from the oldest one on and from the start of the array. *)
Definition read_sizes (maxSize : nat) (c : CircularBuffer) : nat * nat :=
  if (cb_start c <? cb_end c)%nat then (Nat.min (cb_end c - cb_start c) maxSize, 0%nat)
  else let sizeEnd := Nat.min (Size - cb_start c) maxSize in (sizeEnd, Nat.min (cb_end c) (maxSize - sizeEnd)).

(** [copyFunction] on the first [n] items of [source] and the destination at [o]. *)
Definition copy_with (f : Z -> Z -> Z) (o n : nat) (source dest : list Z) : list Z := blit o (zip_with f (take n source) (sub o n dest)) dest.

(** The copy function is [f source destination], the new value of the destination; [sizeof(i16)] is 2.
    Returns the number of items, the destination and the ring. *)
Definition cb_Read (buffer : list Z) (copyFunction : option (Z -> Z -> Z)) (copyOffset : Z) (c : CircularBuffer) : M (nat * list Z * CircularBuffer) :=
  if cb_empty c then ok (0%nat, buffer, c)
  else
    let '(sizeEnd, sizeBegin) := read_sizes (length buffer) c in
    let source := drop (cb_start c) (cb_array c) in
    let! (buffer, copyOffset) :=
      match copyFunction with
      | Some f =>
          if negb (copyOffset =? 0) && (copyOffset <? Z.of_nat sizeEnd) then
            if copyOffset =? -1 then ok (copy_with f 0 sizeEnd source buffer, copyOffset)
            else if copyOffset <? 0 then fail (Undefined "copy before the buffer")
            else
              let n := Z.to_nat copyOffset in
              let buffer := copy_with f 0 n source buffer in
              ok (blit n (sub n (sizeEnd - n) source) buffer, copyOffset - Z.of_nat sizeEnd)
          else ok (blit 0 (take sizeEnd source) buffer, if copyOffset =? 0 then copyOffset else copyOffset - Z.of_nat sizeEnd * 2)
      | None => ok (blit 0 (take sizeEnd source) buffer, if copyOffset =? 0 then copyOffset else copyOffset - Z.of_nat sizeEnd * 2)
      end in
    let! (buffer, array, start) :=
      if (sizeBegin =? 0)%nat then ok (buffer, cb_array c, (cb_start c + sizeEnd)%nat)
      else
        let! (buffer, array) :=
          match copyFunction with
          | Some f =>
              if copyOffset =? 0 then ok (blit sizeEnd (take sizeBegin (cb_array c)) buffer, cb_array c)
              else if copyOffset =? -1 then ok (copy_with f sizeEnd sizeBegin (cb_array c) buffer, cb_array c)
              else if (copyOffset <? 0) || (Z.of_nat sizeBegin <? copyOffset) then fail (Undefined "copy outside of the arrays")
              else
                let n := Z.to_nat copyOffset in
                let buffer := copy_with f sizeEnd n (cb_array c) buffer in
                (* the copy goes from the destination to the ring *)
                ok (buffer, blit n (sub (sizeEnd + n) (sizeBegin - n) buffer) (cb_array c))
          | None => ok (blit sizeEnd (take sizeBegin (cb_array c)) buffer, cb_array c)
          end in
        ok (buffer, array, sizeBegin) in
    ok ((sizeEnd + sizeBegin)%nat, buffer, mk_ring array start (cb_end c) (if (start =? cb_end c)%nat then true else cb_empty c)).

(** A turn of the loop of [Append]: what is left of the buffer and the ring. *)
Definition append_turn (buffer : list Z) (c : CircularBuffer) : list Z * CircularBuffer :=
  let size := length buffer in
  if (cb_start c <=? cb_end c)%nat && negb (cb_end c =? Size)%nat then
    let sizeEnd := Nat.min (Size - cb_end c) size in
    (drop sizeEnd buffer, mk_ring (blit (cb_end c) (take sizeEnd buffer) (cb_array c)) (cb_start c) (cb_end c + sizeEnd) false)
  else
    let at_end := (cb_end c =? Size)%nat in
    let sizePreStart := if at_end then Nat.min (cb_start c) size else Nat.min (cb_start c - cb_end c) size in
    let sizePostStart := Nat.min (Size - cb_start c) (size - sizePreStart) in
    let array := blit (if at_end then 0%nat else cb_end c) (take sizePreStart buffer) (cb_array c) in
    let end1 := if at_end then sizePreStart else (cb_end c + sizePreStart)%nat in
    let buffer := drop sizePreStart buffer in
    let array := blit end1 (take sizePostStart buffer) array in
    let start := if (cb_start c =? Size)%nat then sizePostStart else (cb_start c + sizePostStart)%nat in
    let end2 := if (end1 =? Size)%nat then sizePostStart else (end1 + sizePostStart)%nat in
    (drop sizePostStart buffer, mk_ring array start end2 false).

Fixpoint append_loop (fuel : nat) (buffer : list Z) (c : CircularBuffer) : CircularBuffer :=
  match fuel, buffer with
  | O, _ | _, [] => c
  | S fuel, _ => let '(buffer, c) := append_turn buffer c in append_loop fuel buffer c
  end.

(** Every turn takes at least one item, so the length of the buffer is fuel enough. *)
Definition cb_Append (buffer : list Z) (c : CircularBuffer) : CircularBuffer := append_loop (length buffer) buffer c.

(** ** The samples in the ring *)

Definition cb_contents (c : CircularBuffer) : list Z :=
  if cb_empty c then []
  else if (cb_start c <? cb_end c)%nat then sub (cb_start c) (cb_end c - cb_start c) (cb_array c)
  else drop (cb_start c) (cb_array c) ++ take (cb_end c) (cb_array c).

Definition cb_ok (c : CircularBuffer) : Prop :=
  length (cb_array c) = Size /\ (cb_start c <= Size)%nat /\ (cb_end c <= Size)%nat /\ (cb_empty c = true -> cb_start c = cb_end c).

(** The ring has room for [n] more items. *)
Definition cb_room (n : nat) (c : CircularBuffer) : Prop := (length (cb_contents c) + n <= Size)%nat.

Lemma length_contents c : cb_ok c ->
  length (cb_contents c) = if cb_empty c then 0%nat else if (cb_start c <? cb_end c)%nat then (cb_end c - cb_start c)%nat else (Size - cb_start c + cb_end c)%nat.
Proof.
  intros (Hl & Hs & He & _). unfold cb_contents, sub. destruct (cb_empty c); [done|].
  destruct (Nat.ltb_spec (cb_start c) (cb_end c)); rewrite ?length_app, length_take, length_drop; lia.
Qed.

(** What a turn of the second branch leaves when the buffer fits before the oldest item. *)
Lemma contents_wrapped array (buffer : list Z) start end_ : length array = Size ->
  (0 < length buffer)%nat -> (start <= Size)%nat -> (end_ + length buffer <= start)%nat ->
  let c := mk_ring (blit end_ buffer array) (if (start =? Size)%nat then 0%nat else start)
             (if (end_ + length buffer =? Size)%nat then 0%nat else (end_ + length buffer)%nat) false in
  cb_ok c /\ cb_contents c = drop start array ++ take end_ array ++ buffer.
Proof.
  intros Hl Hb Hs Hfit c. subst c. unfold cb_ok, cb_contents; simpl. rewrite length_blit by lia.
  destruct (Nat.eqb_spec start Size), (Nat.eqb_spec (end_ + length buffer) Size); simpl;
    (split; [repeat split; lia || done|]); try match goal with |- context [(?a <? ?b)%nat] => destruct (Nat.ltb_spec a b) end; try lia.
  all: by_lookup.
Qed.

(** What a turn of the first branch leaves. *)
Lemma contents_extended array (taken : list Z) start end_ : length array = Size ->
  (0 < length taken)%nat -> (start <= end_)%nat -> (end_ + length taken <= Size)%nat ->
  let c := mk_ring (blit end_ taken array) start (end_ + length taken) false in
  cb_ok c /\ cb_contents c = sub start (end_ - start) array ++ taken.
Proof.
  intros Hl Hb Hs Hfit c. subst c. unfold cb_ok, cb_contents; simpl. rewrite length_blit by lia.
  split; [repeat split; lia || done|]. destruct (Nat.ltb_spec start (end_ + length taken)); [|lia]. by_lookup.
Qed.

(** Once the buffer fits, the second branch is a copy to the front, or after the newest item. *)
Lemma append_turn_wraps buffer c : (0 < length buffer)%nat ->
  ((cb_start c <=? cb_end c)%nat && negb (cb_end c =? Size)%nat = false) ->
  (length buffer <= if (cb_end c =? Size)%nat then cb_start c else cb_start c - cb_end c)%nat ->
  let e := if (cb_end c =? Size)%nat then 0%nat else cb_end c in
  append_turn buffer c =
    ([], mk_ring (blit e buffer (cb_array c)) (if (cb_start c =? Size)%nat then 0%nat else cb_start c)
           (if (e + length buffer =? Size)%nat then 0%nat else (e + length buffer)%nat) false).
Proof.
  intros Hb E Hfit. unfold append_turn. rewrite E.
  assert ((if (cb_end c =? Size)%nat then Nat.min (cb_start c) (length buffer) else Nat.min (cb_start c - cb_end c) (length buffer)) = length buffer) as ->
    by (destruct (_ =? _)%nat; lia).
  rewrite Nat.sub_diag, Nat.min_0_r, firstn_all, drop_all. simpl. rewrite blit_nil, !Nat.add_0_r.
  by destruct (cb_end c =? Size)%nat.
Qed.

Lemma append_turn_spec buffer c : cb_ok c -> (0 < length buffer)%nat -> cb_room (length buffer) c ->
  exists taken, (0 < length taken)%nat /\ buffer = taken ++ (append_turn buffer c).1 /\
    cb_ok (append_turn buffer c).2 /\ cb_contents (append_turn buffer c).2 = cb_contents c ++ taken.
Proof.
  intros Hok Hb Hr. pose proof (length_contents c Hok) as Hlen. unfold cb_room in Hr. rewrite Hlen in Hr.
  destruct Hok as (Hl & Hs & He & Hem).
  destruct ((cb_start c <=? cb_end c)%nat && negb (cb_end c =? Size)%nat) eqn:E.
  - pose proof E as E'. apply andb_prop in E' as [E1%Nat.leb_le E2%negb_true_iff%Nat.eqb_neq].
    unfold append_turn. rewrite E. set (n := Nat.min (Size - cb_end c) (length buffer)). simpl.
    assert (length (take n buffer) = n) as Hn by (rewrite length_take; subst n; lia).
    exists (take n buffer). split; [subst n; lia|]. split; [by rewrite take_drop|].
    destruct (contents_extended (cb_array c) (take n buffer) (cb_start c) (cb_end c)) as [H1 H2]; try (subst n; lia).
    rewrite Hn in H1, H2. split; [done|]. rewrite H2. f_equal. unfold cb_contents. destruct (cb_empty c).
    + rewrite Hem, Nat.sub_diag by done. done.
    + destruct (Nat.ltb_spec (cb_start c) (cb_end c)); [done|lia].
  - assert (Hfit : (length buffer <= if (cb_end c =? Size)%nat then cb_start c else cb_start c - cb_end c)%nat).
    { destruct (cb_empty c); [specialize (Hem eq_refl)|]; revert E;
        destruct (Nat.leb_spec (cb_start c) (cb_end c)), (Nat.eqb_spec (cb_end c) Size), (Nat.ltb_spec (cb_start c) (cb_end c)); simpl; lia || done. }
    rewrite append_turn_wraps by done. exists buffer. split; [done|]. simpl. split; [by rewrite app_nil_r|].
    destruct (contents_wrapped (cb_array c) buffer (cb_start c) (if (cb_end c =? Size)%nat then 0%nat else cb_end c)) as [H1 H2]; try done.
    { destruct (Nat.eqb_spec (cb_end c) Size); lia. }
    split; [done|]. rewrite H2. rewrite app_assoc. f_equal. unfold cb_contents. destruct (cb_empty c).
    + specialize (Hem eq_refl). destruct (Nat.eqb_spec (cb_end c) Size); [|lia].
      rewrite drop_ge by lia. done.
    + revert E. destruct (Nat.leb_spec (cb_start c) (cb_end c)), (Nat.eqb_spec (cb_end c) Size), (Nat.ltb_spec (cb_start c) (cb_end c)); simpl; try done; try lia.
      intros _. rewrite app_nil_r. unfold sub. rewrite (take_ge (drop _ _)); [done|]. rewrite length_drop. lia.
Qed.

Lemma append_loop_spec fuel buffer c : cb_ok c -> (length buffer <= fuel)%nat -> cb_room (length buffer) c ->
  cb_ok (append_loop fuel buffer c) /\ cb_contents (append_loop fuel buffer c) = cb_contents c ++ buffer.
Proof.
  revert buffer c. induction fuel as [|fuel IH]; intros [|x buffer] c Hok Hf Hr; try (simpl in *; lia);
    [by rewrite app_nil_r..|].
  cbn [append_loop]. destruct (append_turn_spec (x :: buffer) c Hok ltac:(simpl; lia) Hr) as (taken & Ht & E & Hok' & Hc).
  destruct (append_turn (x :: buffer) c) as [rest c']; simpl in *.
  apply (f_equal length) in E as El. rewrite length_app in El. simpl in El. unfold cb_room in *. simpl in Hr.
  destruct (IH rest c' Hok') as [H1 H2]; [lia|rewrite Hc, length_app; lia|].
  split; [done|]. rewrite H2, Hc, <- app_assoc. by rewrite E.
Qed.

(** Appending within the room of the ring puts the items after the others. *)
Lemma cb_Append_spec buffer c : cb_ok c -> cb_room (length buffer) c ->
  cb_ok (cb_Append buffer c) /\ cb_contents (cb_Append buffer c) = cb_contents c ++ buffer.
Proof. intros. by apply append_loop_spec. Qed.

(** ** Reading *)

Lemma blit_0 src dst : blit 0 src dst = src ++ drop (length src) dst.
Proof. done. Qed.

Lemma blit_after n src1 src2 dst : n = length src1 -> blit n src2 (src1 ++ drop n dst) = (src1 ++ src2) ++ drop (length (src1 ++ src2)) dst.
Proof.
  intros ->. unfold blit. rewrite take_app_length, <- app_assoc, length_app. f_equal. f_equal.
  rewrite drop_app_ge, drop_drop by lia. f_equal. lia.
Qed.

Lemma cb_Read_plain buffer f c : cb_empty c = false ->
  let '(sizeEnd, sizeBegin) := read_sizes (length buffer) c in
  let start := if (sizeBegin =? 0)%nat then (cb_start c + sizeEnd)%nat else sizeBegin in
  cb_Read buffer f 0 c =
    ok ((sizeEnd + sizeBegin)%nat, blit sizeEnd (take sizeBegin (cb_array c)) (blit 0 (take sizeEnd (drop (cb_start c) (cb_array c))) buffer),
        mk_ring (cb_array c) start (cb_end c) (start =? cb_end c)%nat).
Proof.
  intros Eem. unfold cb_Read. rewrite Eem. destruct (read_sizes (length buffer) c) as [sizeEnd sizeBegin].
  destruct (Nat.eqb_spec sizeBegin 0) as [->|]; destruct f; simpl; rewrite ?blit_nil; by destruct (_ =? _)%nat.
Qed.

(** The oldest items of the ring, in one or in two pieces. *)
Lemma read_sizes_spec n c : cb_ok c -> cb_empty c = false -> (0 < n)%nat ->
  let '(sizeEnd, sizeBegin) := read_sizes n c in
  let start := if (sizeBegin =? 0)%nat then (cb_start c + sizeEnd)%nat else sizeBegin in
  (sizeEnd + sizeBegin = Nat.min (length (cb_contents c)) n)%nat /\
  length (take sizeEnd (drop (cb_start c) (cb_array c))) = sizeEnd /\
  take sizeEnd (drop (cb_start c) (cb_array c)) ++ take sizeBegin (cb_array c) = take n (cb_contents c) /\
  cb_ok (mk_ring (cb_array c) start (cb_end c) (start =? cb_end c)%nat) /\
  cb_contents (mk_ring (cb_array c) start (cb_end c) (start =? cb_end c)%nat) = drop n (cb_contents c).
Proof.
  intros Hok Eem Hn. rewrite length_contents, Eem by done. destruct Hok as (Hl & Hs & He & _).
  destruct (read_sizes n c) as [sizeEnd sizeBegin] eqn:E. unfold read_sizes in E. unfold cb_ok, cb_contents. rewrite Eem. simpl.
  destruct (Nat.ltb_spec (cb_start c) (cb_end c)); simplify_eq/=.
  - split; [lia|]. split; [rewrite length_take, length_drop; lia|]. split; [by rewrite app_nil_r; by_lookup|].
    split; [repeat split; try lia; by intros ?%Nat.eqb_eq|].
    destruct (Nat.eqb_spec (cb_start c + Nat.min (cb_end c - cb_start c) n) (cb_end c)), (Nat.ltb_spec (cb_start c + Nat.min (cb_end c - cb_start c) n) (cb_end c)); try lia; by_lookup.
  - remember (Nat.min (length (cb_array c) - cb_start c) n) as sizeEnd eqn:Ee.
    remember (Nat.min (cb_end c) (n - sizeEnd)) as sizeBegin eqn:Eb.
    split; [lia|]. split; [rewrite length_take, length_drop; lia|]. split; [by_lookup|].
    split; [destruct (Nat.eqb_spec sizeBegin 0); repeat split; try lia; by intros ?%Nat.eqb_eq|].
    destruct (Nat.eqb_spec sizeBegin 0);
      match goal with |- context [(?a =? cb_end c)%nat] => destruct (Nat.eqb_spec a (cb_end c)), (Nat.ltb_spec a (cb_end c)) end; try lia; by_lookup.
Qed.

(** A read without mixing takes the oldest items, as many as there are or as fit. *)
Lemma cb_Read_spec buffer f c : cb_ok c -> (0 < length buffer)%nat ->
  exists c', cb_Read buffer f 0 c =
      ok (Nat.min (length (cb_contents c)) (length buffer),
          take (length buffer) (cb_contents c) ++ drop (length (cb_contents c)) buffer, c') /\
    cb_ok c' /\ cb_contents c' = drop (length buffer) (cb_contents c).
Proof.
  intros Hok Hb. destruct (cb_empty c) eqn:Eem.
  { exists c. unfold cb_Read, cb_contents. rewrite Eem. simpl. by rewrite drop_0, take_nil, drop_nil. }
  pose proof (cb_Read_plain buffer f c Eem) as ER. pose proof (read_sizes_spec (length buffer) c Hok Eem Hb) as ES.
  destruct (read_sizes (length buffer) c) as [sizeEnd sizeBegin]. destruct ES as (E1 & E2 & E3 & E4 & E5).
  eexists. split; [|done]. rewrite ER, E1. do 3 f_equal. rewrite blit_0, E2, blit_after, E3 by done. f_equal.
  rewrite length_take. destruct (decide (length (cb_contents c) <= length buffer)%nat).
  - f_equal. lia.
  - rewrite !drop_ge by lia. done.
Qed.

(** ** The contract: a bounded queue *)

Inductive ring_op : Type := RingAppend (buffer : list Z) | RingRead (size : nat).

(** What the reads of a sequence of calls return from a queue of samples. *)
Fixpoint fifo_run (ops : list ring_op) (q : list Z) : list (list Z) :=
  match ops with
  | [] => []
  | RingAppend buffer :: ops => fifo_run ops (q ++ buffer)
  | RingRead n :: ops => take n q :: fifo_run ops (drop n q)
  end.

(** No call overfills the queue, and no read asks for nothing. *)
Fixpoint fifo_fits (ops : list ring_op) (q : list Z) : bool :=
  match ops with
  | [] => true
  | RingAppend buffer :: ops => (length q + length buffer <=? Size)%nat && fifo_fits ops (q ++ buffer)
  | RingRead n :: ops => (0 <? n)%nat && fifo_fits ops (drop n q)
  end.

Fixpoint ring_run (ops : list ring_op) (c : CircularBuffer) : M (list (list Z)) :=
  match ops with
  | [] => ok []
  | RingAppend buffer :: ops => ring_run ops (cb_Append buffer c)
  | RingRead n :: ops =>
      let! (k, buffer, c) := cb_Read (replicate n 0) None 0 c in
      let! r := ring_run ops c in ok (take k buffer :: r)
  end.

Lemma cb_ok_new : cb_ok CircularBuffer_new.
Proof. unfold cb_ok. simpl. rewrite length_replicate. repeat split; lia. Qed.

Lemma ring_run_spec ops c : cb_ok c -> fifo_fits ops (cb_contents c) = true -> ring_run ops c = ok (fifo_run ops (cb_contents c)).
Proof.
  revert c. induction ops as [|[buffer|n] ops IH]; intros c Hok Hf; [done| |]; simpl in *; apply andb_prop in Hf as [Hr Hf].
  - apply Nat.leb_le in Hr. destruct (cb_Append_spec buffer c Hok Hr) as [H1 H2]. rewrite IH, H2 by (done || by rewrite H2). done.
  - apply Nat.ltb_lt in Hr. destruct (cb_Read_spec (replicate n 0) None c Hok) as (c' & E & H1 & H2); [rewrite length_replicate; lia|].
    rewrite E. simpl. rewrite length_replicate in H2 |- *. rewrite IH, H2 by (done || by rewrite H2). simpl. do 2 f_equal.
    rewrite take_app_le, take_take by (rewrite length_take; lia).
    destruct (decide (length (cb_contents c) <= n)%nat); [by rewrite !take_ge by lia|f_equal; lia].
Qed.

(** The ring is a first-in first-out queue: for every sequence of appends and reads that never
    holds more than [Size] samples, every read of the ring returns the samples that a queue would, in
    the order in which they were appended, wherever the pieces wrap around the end of the array; no
    call copies outside of its arrays. *)
Theorem ring_refines_fifo ops : fifo_fits ops [] = true -> ring_run ops CircularBuffer_new = ok (fifo_run ops []).
Proof. intros Hf. by apply (ring_run_spec ops CircularBuffer_new cb_ok_new). Qed.

End ring.

Lemma ring_refines_fifo_witness :
  ring_run 4 [RingAppend [1; 2; 3]; RingRead 2; RingAppend [4; 5; 6]; RingRead 3; RingAppend [7; 8]; RingRead 9] (CircularBuffer_new 4) =
    ok [[1; 2]; [3; 4; 5]; [6; 7; 8]].
Proof. exact (ring_refines_fifo 4 [RingAppend [1; 2; 3]; RingRead 2; RingAppend [4; 5; 6]; RingRead 3; RingAppend [7; 8]; RingRead 9] eq_refl). Defined.

(** ** Beyond the contract *)

(** When the ring is full and its oldest item is at the start of the array, an append drops the
    oldest items to make room; when a full ring starts inside of the array, its first branch is taken
    and every item but the new one is lost. *)
Lemma full_ring_append :
  cb_contents (cb_Append 4 [5] (cb_Append 4 [1; 2; 3; 4] (CircularBuffer_new 4))) = [2; 3; 4; 5] /\
  (let c := mk_ring [3; 4; 1; 2] 2 2 false in cb_contents c = [1; 2; 3; 4] /\ cb_contents (cb_Append 4 [5] c) = [5]).
Proof. done. Qed.

(** A read of nothing empties a full ring. *)
Lemma empty_read_drops_full_ring :
  exists c, cb_Read 4 [] None 0 (mk_ring [3; 4; 1; 2] 2 2 false) = ok (0%nat, [], c) /\ cb_contents c = [].
Proof. eexists. split; reflexivity. Qed.

(** A read that mixes with three samples which are already in the destination, from a ring that wraps
    around: the first piece overwrites the sample it should be mixed with, and behind the mixed part of
    the second piece the destination is copied into the ring instead of the ring to the destination. *)
Lemma mixing_read_copies_backwards :
  cb_Read 4 [9; 9; 9; 9] (Some Z.add) 3 (mk_ring [3; 4; 1; 2] 3 2 false) =
    ok (3%nat, [2; 12; 9; 9], mk_ring [3; 9; 1; 2] 2 2 true).
Proof. done. Qed.
