(* ===== verification/AudioTracks.v ===== *)
(** * Tracks and the mixer ([audio/common.h], [audio/downmixer.h], [audio/track.cpp], [audio.cpp], the
    calls of [services/audio/IAudioOut.cpp])

    A track takes the buffers of the guest, keeps their samples in a ring and tells which buffers have
    been played; the callback of the host's audio stream reads the rings of all tracks.  The calls that
    hold a lock are one step.  The callback that a track makes when it releases buffers is returned as a
    flag. *)

From S2P Require Import Prelude.
From S2P Require Import Common.
From S2P Require Import AudioBuffer.

(** ** Constants, saturation and mixing *)

Definition SampleRate : Z := 48000.
Definition StereoChannelCount : Z := 2.
Definition SurroundChannelCount : Z := 6.

(** [Saturate<i16, i32>]. *)
Definition Saturate_i16 (value : Z) : Z := Z.max (-32768) (Z.min (i32 value) 32767).

(** The function that [onAudioReady] passes to [Read]: the sum is formed with unsigned integers. *)
Definition mix_sample (source destination : Z) : Z := Saturate_i16 (u32 (u32 destination + u32 source)).

Lemma i16_range_i32 z : - 2 ^ 16 <= z < 2 ^ 16 -> i32 (u32 z) = z.
Proof.
  intros Hz. unfold swrap, wrap. rewrite Z.mod_mod by lia. destruct (Z_lt_le_dec z 0).
  - rewrite <- (Z.mod_add z 1), Z.mod_small by lia. destruct (Z.ltb_spec (z + 1 * 2 ^ 32) (2 ^ (32 - 1))); lia.
  - rewrite Z.mod_small by lia. destruct (Z.ltb_spec z (2 ^ (32 - 1))); lia.
Qed.

(** The unsigned sum is the saturated sum of the two samples. *)
Lemma mix_sample_saturates source destination : - 2 ^ 15 <= source < 2 ^ 15 -> - 2 ^ 15 <= destination < 2 ^ 15 ->
  mix_sample source destination = Z.max (-32768) (Z.min (destination + source) 32767).
Proof.
  intros Hs Hd. unfold mix_sample, Saturate_i16. rewrite <- (i16_range_i32 (destination + source)) by lia.
  do 3 f_equal. unfold wrap. by rewrite <- Zplus_mod.
Qed.

(** ** Surround to stereo *)

Record Surround51Sample : Type := mk_surround {
  frontLeft : Z; frontRight : Z; centre : Z; lowFrequency : Z; backLeft : Z; backRight : Z }.

Definition downmixChannel (front centre lowFrequency back : Z) : Z :=
  i16 (front + Z.quot (centre * 707 + lowFrequency * 251 + back * 501) 1000).

Definition DownMix (surroundSamples : list Surround51Sample) : list Z :=
  flat_map (fun s => [downmixChannel (frontLeft s) (centre s) (lowFrequency s) (backLeft s);
                      downmixChannel (frontRight s) (centre s) (lowFrequency s) (backRight s)]) surroundSamples.

(** [span::cast] of samples to surround samples. *)
Fixpoint surround_frames (buffer : list Z) : list Surround51Sample :=
  match buffer with
  | a :: b :: c :: d :: e :: f :: rest => mk_surround a b c d e f :: surround_frames rest
  | _ => []
  end.

Definition cast_surround (buffer : list Z) : M (list Surround51Sample) :=
  if IsAligned (2 * Z.of_nat (length buffer)) 12 then ok (surround_frames buffer)
  else fail (Throw "Span size not aligned with Out type size").

(** ** Tracks *)

Inductive AudioOutState : Type := Started | Stopped | Paused.
#[global] Instance AudioOutState_eq_dec : EqDecision AudioOutState.
Proof. solve_decision. Defined.

Record BufferIdentifier : Type := mk_identifier { bi_tag : Z; finalSample : Z; released : bool }.

Section track.
(** The capacity of the ring of a track, [SampleRate * StereoChannelCount * 10] in the program. *)
Context (Size : nat).

(** The front of the deque of identifiers, the newest buffer, is the head of the list. *)
Record AudioTrack : Type := mk_track {
  identifiers : list BufferIdentifier;
  channelCount : Z;
  at_sampleRate : Z;
  samples : CircularBuffer;
  playbackState : AudioOutState;
  sampleCounter : Z }.

Definition AudioTrack_new (channelCount sampleRate : Z) : M AudioTrack :=
  if negb (sampleRate =? SampleRate) then fail (Throw "Unsupported audio sample rate")
  else if negb (channelCount =? StereoChannelCount) && negb (channelCount =? SurroundChannelCount) then fail (Throw "Unsupported quantity of audio channels")
  else ok (mk_track [] channelCount sampleRate (CircularBuffer_new Size) Stopped 0).

Definition with_state (p : AudioOutState) (t : AudioTrack) : AudioTrack :=
  mk_track (identifiers t) (channelCount t) (at_sampleRate t) (samples t) p (sampleCounter t).
Definition with_identifiers (l : list BufferIdentifier) (t : AudioTrack) : AudioTrack :=
  mk_track l (channelCount t) (at_sampleRate t) (samples t) (playbackState t) (sampleCounter t).
Definition with_samples (c : CircularBuffer) (t : AudioTrack) : AudioTrack :=
  mk_track (identifiers t) (channelCount t) (at_sampleRate t) c (playbackState t) (sampleCounter t).
Definition with_counter (n : Z) (t : AudioTrack) : AudioTrack :=
  mk_track (identifiers t) (channelCount t) (at_sampleRate t) (samples t) (playbackState t) n.

Definition track_Start (t : AudioTrack) : AudioTrack := with_state Started t.

(** The test that [Stop] spins on reads the identifier behind the last one. *)
Definition allSamplesReleased (t : AudioTrack) : M bool :=
  match identifiers t with [] => ok true | _ => fail (Undefined "identifiers.end()") end.

Definition track_Stop (t : AudioTrack) : M AudioTrack :=
  let! b := allSamplesReleased t in
  if b then ok (with_state Stopped t) else fail (Suspended "samples are not released").

(** The loop runs over the reversed deque, from the oldest buffer on. *)
Fixpoint contains_from (tag : Z) (l : list BufferIdentifier) : bool :=
  match l with
  | [] => false
  | i :: l => if released i then false else if bi_tag i =? tag then true else contains_from tag l
  end.

Definition ContainsBuffer (tag : Z) (t : AudioTrack) : bool := contains_from tag (rev (identifiers t)).

Fixpoint get_released (max : nat) (l : list BufferIdentifier) : list Z * list BufferIdentifier :=
  match max with
  | O => ([], l)
  | S max =>
      match unsnoc l with
      | None => ([], l)
      | Some (l', i) => if released i then let '(tags, l'') := get_released max l' in (bi_tag i :: tags, l'') else ([], l)
      end
  end.

Definition GetReleasedBuffers (max : nat) (t : AudioTrack) : list Z * AudioTrack :=
  let '(tags, l) := get_released max (identifiers t) in (tags, with_identifiers l t).

(** [sizeof(Surround51Sample)] is 12 and [sizeof(StereoSample)] is 4. *)
Definition AppendBuffer (tag : Z) (buffer : list Z) (t : AudioTrack) : M AudioTrack :=
  let n := Z.of_nat (length buffer) in
  let size := if channelCount t =? SurroundChannelCount then n / 12 * 4 else n in
  let identifier := mk_identifier tag (match identifiers t with [] => size | front :: _ => u64 (size + finalSample front) end) false in
  let t := with_identifiers (identifier :: identifiers t) t in
  if channelCount t =? SurroundChannelCount then
    let! frames := cast_surround buffer in
    ok (with_samples (cb_Append Size (DownMix frames) (samples t)) t)
  else ok (with_samples (cb_Append Size buffer (samples t)) t).

(** The flag tells whether [releaseCallback] is called. *)
Definition played_now (t : AudioTrack) (i : BufferIdentifier) : bool := (finalSample i <=? sampleCounter t) && negb (released i).
Definition CheckReleasedBuffers (t : AudioTrack) : bool * AudioTrack :=
  (existsb (played_now t) (identifiers t),
   with_identifiers (map (fun i => if played_now t i then mk_identifier (bi_tag i) (finalSample i) true else i) (identifiers t)) t).

(** ** The mixer *)

(** The tracks are shared with the services; [audioTracks] holds the open ones in order. *)
Record Audio : Type := mk_audio { tracks : gmap nat AudioTrack; audioTracks : list nat; next_track : nat }.

Definition OpenTrack (channelCount sampleRate : Z) (a : Audio) : M (nat * Audio) :=
  let! t := AudioTrack_new channelCount sampleRate in
  ok (next_track a, mk_audio (<[next_track a := t]> (tracks a)) (audioTracks a ++ [next_track a]) (S (next_track a))).

Definition CloseTrack (id : nat) (a : Audio) : Audio :=
  mk_audio (tracks a) (List.filter (fun i => negb (i =? id)%nat) (audioTracks a)) (next_track a).

(** A turn of the loop of [onAudioReady]: the destination, the number of written samples, the ids of
    the tracks whose release callback was called and the tracks. *)
Definition mix_track (s : list Z * nat * list nat * gmap nat AudioTrack) (id : nat) : M (list Z * nat * list nat * gmap nat AudioTrack) :=
  let '(dest, writtenSamples, called, tracks) := s in
  let! t := from_opt (Undefined "track") (tracks !! id) in
  if decide (playbackState t = Stopped) then ok s
  else
    let! (trackSamples, dest, ring) := cb_Read Size dest (Some mix_sample) (Z.of_nat writtenSamples) (samples t) in
    let t := with_counter (u64 (sampleCounter t + Z.of_nat trackSamples)) (with_samples ring t) in
    let '(any, t) := CheckReleasedBuffers t in
    ok (dest, Nat.max trackSamples writtenSamples, if any then called ++ [id] else called, <[id := t]> tracks).

(** [dest] is the data of the stream before the call, of [streamSamples] samples. *)
Definition onAudioReady (dest : list Z) (a : Audio) : M (list Z * list nat * Audio) :=
  let! (out, writtenSamples, called, tracks) := foldM mix_track (audioTracks a) (dest, 0%nat, [], tracks a) in
  let out := if (writtenSamples <? length dest)%nat then blit writtenSamples (replicate (length dest - writtenSamples) 0) out else out in
  ok (out, called, mk_audio tracks (audioTracks a) (next_track a)).

(** ** The contract of a track: a player *)

(** What a guest expects of a playing track: the stream of all samples that were appended, the number
    of those that were played, and for each buffer that was not collected yet, oldest first, its tag and
    the length of the stream up to its end. *)
Record player : Type := mk_player { stream : list Z; marks : list (Z * nat); played : nat }.

Inductive player_op : Type := PlAppend (tag : Z) (buffer : list Z) | PlCallback (dest : list Z) | PlReleased (max : nat).
(** The data of the audio stream and whether the release event is signalled; the collected tags. *)
Inductive player_out : Type := PlNone | PlSamples (data : list Z) (signal : bool) | PlTags (tags : list Z).

Fixpoint collect (max played : nat) (marks : list (Z * nat)) : list Z * list (Z * nat) :=
  match max, marks with
  | S max, (tag, e) :: rest => if (e <=? played)%nat then let '(tags, l) := collect max played rest in (tag :: tags, l) else ([], marks)
  | _, _ => ([], marks)
  end.

Definition player_step (op : player_op) (p : player) : player_out * player :=
  match op with
  | PlAppend tag buffer =>
      let stream := stream p ++ buffer in (PlNone, mk_player stream (marks p ++ [(tag, length stream)]) (played p))
  | PlCallback dest =>
      let next := take (length dest) (drop (played p) (stream p)) in
      let played' := (played p + length next)%nat in
      (PlSamples (next ++ replicate (length dest - length next) 0)
         (existsb (fun m => (played p <? m.2)%nat && (m.2 <=? played')%nat) (marks p)), mk_player (stream p) (marks p) played')
  | PlReleased max => let '(tags, l) := collect max (played p) (marks p) in (PlTags tags, mk_player (stream p) l (played p))
  end.

(** A guest that keeps to the rules: a buffer has samples, they fit in the ring with those that are
    still to be played, and once it has played something it has not collected every buffer when it
    appends the next. *)
Definition player_allows (op : player_op) (p : player) : bool :=
  match op with
  | PlAppend _ buffer =>
      (0 <? length buffer)%nat && (length (stream p) - played p + length buffer <=? Size)%nat &&
      (Z.of_nat (length (stream p ++ buffer)) <? 2 ^ 64) && negb (match marks p, stream p with [], _ :: _ => true | _, _ => false end)
  | PlCallback dest => (0 <? length dest)%nat
  | PlReleased _ => true
  end.

Fixpoint player_run (ops : list player_op) (p : player) : list player_out :=
  match ops with [] => [] | op :: ops => let '(o, p) := player_step op p in o :: player_run ops p end.

Fixpoint player_allows_all (ops : list player_op) (p : player) : bool :=
  match ops with [] => true | op :: ops => player_allows op p && player_allows_all ops (player_step op p).2 end.

(** The same calls on the track [id] of the program. *)
Definition track_call (id : nat) (op : player_op) (a : Audio) : M (player_out * Audio) :=
  match op with
  | PlAppend tag buffer =>
      let! t := from_opt (Undefined "track") (tracks a !! id) in
      let! t := AppendBuffer tag buffer t in
      ok (PlNone, mk_audio (<[id := t]> (tracks a)) (audioTracks a) (next_track a))
  | PlCallback dest => let! (out, called, a) := onAudioReady dest a in ok (PlSamples out (bool_decide (id ∈ called)), a)
  | PlReleased max =>
      let! t := from_opt (Undefined "track") (tracks a !! id) in
      let '(tags, t) := GetReleasedBuffers max t in
      ok (PlTags tags, mk_audio (<[id := t]> (tracks a)) (audioTracks a) (next_track a))
  end.

Fixpoint track_run (id : nat) (ops : list player_op) (a : Audio) : M (list player_out) :=
  match ops with
  | [] => ok []
  | op :: ops => let! (o, a) := track_call id op a in let! r := track_run id ops a in ok (o :: r)
  end.

(** ** The track plays *)

Definition mark_identifier (played : nat) (m : Z * nat) : BufferIdentifier := mk_identifier m.1 (Z.of_nat m.2) (m.2 <=? played)%nat.

Record plays (p : player) (t : AudioTrack) : Prop := {
  pl_ring : cb_ok Size (samples t);
  pl_contents : cb_contents (samples t) = drop (played p) (stream p);
  pl_played : (played p <= length (stream p))%nat;
  pl_counter : sampleCounter t = Z.of_nat (played p);
  pl_state : playbackState t = Started;
  pl_channels : channelCount t = StereoChannelCount;
  pl_marks : rev (identifiers t) = map (mark_identifier (played p)) (marks p);
  pl_last : forall m, last (marks p) = Some m -> m.2 = length (stream p);
  pl_bound : Z.of_nat (length (stream p)) < 2 ^ 64 }.

(** The release of buffers from the back of the deque, seen from the oldest. *)
Lemma get_released_rev max played ms l : rev l = map (mark_identifier played) ms ->
  (get_released max l).1 = (collect max played ms).1 /\ rev (get_released max l).2 = map (mark_identifier played) (collect max played ms).2.
Proof.
  revert ms l. induction max as [|max IH]; intros ms l E; [done|]. simpl. destruct (unsnoc l) as [[l' i]|] eqn:El.
  - apply unsnoc_Some in El as ->. rewrite rev_app_distr in E. destruct ms as [|[tag e] ms]; [done|]. injection E as Ei E. subst i. simpl.
    destruct (e <=? played)%nat eqn:Ee; simpl.
    + destruct (IH ms l' E) as [H1 H2]. destruct (get_released max l'), (collect max played ms); simpl in *. by rewrite H1.
    + rewrite rev_app_distr. simpl. by rewrite E.
  - apply unsnoc_None in El as ->. simpl in E. by destruct ms.
Qed.

Lemma collect_last max played ms m : last (collect max played ms).2 = Some m -> last ms = Some m.
Proof.
  revert ms. induction max as [|max IH]; intros [|[tag e] ms]; simpl; try done.
  destruct (e <=? played)%nat; [|done]. destruct (collect max played ms) as [tags l] eqn:E. simpl. specialize (IH ms). rewrite E in IH.
  intros H. specialize (IH H). destruct ms; [done|]. done.
Qed.

(** The samples a read takes are the next of the stream. *)
Lemma next_length n p : (played p <= length (stream p))%nat ->
  length (take n (drop (played p) (stream p))) = Nat.min (length (drop (played p) (stream p))) n.
Proof. intros. rewrite length_take. lia. Qed.

Lemma append_plays tag buffer p t : plays p t -> player_allows (PlAppend tag buffer) p = true ->
  exists t', AppendBuffer tag buffer t = ok t' /\ plays (player_step (PlAppend tag buffer) p).2 t'.
Proof.
  intros H Ha. simpl in Ha. apply andb_prop in Ha as [Ha Hm]. apply andb_prop in Ha as [Ha Hb]. apply andb_prop in Ha as [Hn Hr].
  apply Nat.ltb_lt in Hn. apply Nat.leb_le in Hr. apply Z.ltb_lt in Hb. apply negb_true_iff in Hm.
  destruct (cb_Append_spec Size buffer (samples t)) as [Hok Hc]; [apply H| |].
  { unfold cb_room. rewrite (pl_contents _ _ H), length_drop. lia. }
  unfold AppendBuffer. rewrite (pl_channels _ _ H). simpl. rewrite (pl_channels _ _ H). simpl. eexists. split; [done|].
  destruct H as [_ H2 H3 H4 H5 H6 H7 H8 H9]. rewrite length_app in Hb. split; simpl; rewrite ?length_app; try done.
  - rewrite Hc, H2, drop_app_le by done. done.
  - lia.
  - rewrite map_app, <- H7. f_equal. simpl. unfold mark_identifier. simpl.
    destruct (Nat.leb_spec (length (stream p) + length buffer) (played p)); [lia|]. f_equal. f_equal.
    destruct (identifiers t) as [|front ids]; simpl in H7.
    + destruct (marks p); [|done]. destruct (stream p); [|done]. done.
    + destruct (last (marks p)) as [m|] eqn:El; [|apply last_None in El; rewrite El in H7; by destruct (rev ids)].
      specialize (H8 m eq_refl). apply last_Some in El as [ms El]. rewrite El, map_app in H7.
      apply app_inj_tail in H7 as [_ ->]. simpl. rewrite H8, wrap_small by lia. lia.
  - intros m. rewrite last_snoc. by intros [= <-].
Qed.

(** The buffers that end within the samples just played are released, the others stay as they are. *)
Lemma check_marks p t k : let t := with_counter (Z.of_nat (played p + k)) t in
  rev (identifiers t) = map (mark_identifier (played p)) (marks p) ->
  (CheckReleasedBuffers t).1 = existsb (fun m => (played p <? m.2)%nat && (m.2 <=? played p + k)%nat) (marks p) /\
  rev (identifiers (CheckReleasedBuffers t).2) = map (mark_identifier (played p + k)) (marks p).
Proof.
  simpl. intros E. rewrite <- map_rev, E, map_map. split.
  - rewrite <- (rev_involutive (identifiers t)), E.
    transitivity (existsb (played_now (with_counter (Z.of_nat (played p + k)) t)) (map (mark_identifier (played p)) (marks p))).
    + apply eq_true_iff_eq. rewrite !existsb_exists. setoid_rewrite <- in_rev. done.
    + clear E. induction (marks p) as [|[tag e] ms IH]; [done|]. simpl. rewrite IH. f_equal. unfold played_now. simpl.
      destruct (Z.leb_spec (Z.of_nat e) (Z.of_nat (played p + k))), (Nat.leb_spec e (played p)), (Nat.leb_spec e (played p + k)), (Nat.ltb_spec (played p) e); simpl; lia || done.
  - apply map_ext. intros [tag e]. unfold played_now, mark_identifier. simpl.
    destruct (Z.leb_spec (Z.of_nat e) (Z.of_nat (played p + k))), (Nat.leb_spec e (played p)), (Nat.leb_spec e (played p + k)); simpl; lia || done.
Qed.

Lemma callback_plays id dest p t a : plays p t -> tracks a !! id = Some t -> audioTracks a = [id] -> (0 < length dest)%nat ->
  exists t' a', track_call id (PlCallback dest) a = ok ((player_step (PlCallback dest) p).1, a') /\
    tracks a' !! id = Some t' /\ audioTracks a' = [id] /\ plays (player_step (PlCallback dest) p).2 t'.
Proof.
  intros H Ht Hids Hd. pose proof (pl_played _ _ H) as Hp.
  destruct (cb_Read_spec Size dest (Some mix_sample) (samples t)) as (c & E & Hok & Hc); [apply H|done|].
  rewrite (pl_contents _ _ H) in E, Hc. pose proof (next_length (length dest) p Hp) as Hnx. rewrite <- Hnx in E.
  set (next := take (length dest) (drop (played p) (stream p))) in *.
  assert (Hnl : (length next <= length dest)%nat) by (subst next; rewrite length_take; lia).
  assert (Hns : (played p + length next <= length (stream p))%nat) by (subst next; rewrite length_take, length_drop; lia).
  destruct (check_marks p (with_samples c t) (length next)) as [C1 C2]; [apply (pl_marks _ _ H)|].
  simpl in C1, C2. do 2 eexists. unfold track_call, onAudioReady. rewrite Hids. simpl. rewrite Ht. simpl. rewrite (pl_state _ _ H). simpl.
  change (Z.of_nat 0) with 0. rewrite E. simpl. rewrite (pl_counter _ _ H), wrap_small by (pose proof (pl_bound _ _ H); lia).
  replace (Z.of_nat (played p) + Z.of_nat (length next)) with (Z.of_nat (played p + length next)) by lia.
  rewrite Nat.max_0_r, C1. split; [|split; [|split; [|]]].
  - f_equal. f_equal. f_equal.
    + destruct (Nat.ltb_spec (length next) (length dest)).
      * unfold blit. rewrite take_app_length, length_replicate, drop_ge, app_nil_r; [done|].
        rewrite length_app, (length_drop dest). lia.
      * rewrite drop_ge, app_nil_r by lia.
        fold next. replace (length dest - length next)%nat with 0%nat by lia. simpl. by rewrite app_nil_r.
    + destruct (existsb _ (marks p)); [by rewrite bool_decide_true by set_solver|by rewrite bool_decide_false by set_solver].
  - simpl. apply lookup_insert_eq.
  - done.
  - destruct H. split; simpl; try done.
    rewrite Hc, drop_drop. subst next. rewrite length_take, length_drop.
    destruct (decide (length dest <= length (stream p) - played p)%nat); [f_equal; lia|rewrite !drop_ge by lia; done].
Qed.

Lemma released_plays max p t : plays p t ->
  let p' := (player_step (PlReleased max) p).2 in
  plays p' (GetReleasedBuffers max t).2 /\ PlTags (GetReleasedBuffers max t).1 = (player_step (PlReleased max) p).1.
Proof.
  intros H. unfold GetReleasedBuffers. simpl.
  destruct (get_released_rev max (played p) (marks p) (identifiers t) (pl_marks _ _ H)) as [E1 E2].
  pose proof (collect_last max (played p) (marks p)) as E3.
  destruct (get_released max (identifiers t)) as [tags l], (collect max (played p) (marks p)) as [tags' ms]. simpl in *. subst tags'.
  split; [|done]. destruct H. split; simpl; try done. intros m Hm. by apply pl_last0, E3.
Qed.

Lemma track_run_plays id ops p t a : plays p t -> tracks a !! id = Some t -> audioTracks a = [id] ->
  player_allows_all ops p = true -> track_run id ops a = ok (player_run ops p).
Proof.
  revert p t a. induction ops as [|op ops IH]; intros p t a H Ht Hids Ha; [done|]. simpl in Ha. apply andb_prop in Ha as [Ha Hr].
  cbn [track_run player_run]. destruct op as [tag buffer|dest|max].
  - destruct (append_plays tag buffer p t H Ha) as (t' & E & H'). unfold track_call. rewrite Ht. simpl. rewrite E. simpl.
    rewrite (IH _ t' _ H'); [done|simpl; apply lookup_insert_eq|done|done].
  - simpl in Ha. apply Nat.ltb_lt in Ha. destruct (callback_plays id dest p t a H Ht Hids Ha) as (t' & a' & E & Ht' & Hids' & H').
    rewrite E. simpl in *. rewrite (IH _ t' _ H') by done. done.
  - destruct (released_plays max p t H) as [H' E]. unfold track_call. rewrite Ht. simpl.
    destruct (GetReleasedBuffers max t) as [tags t']. simpl in *. destruct (collect max (played p) (marks p)) as [tags' ms]. simpl in *. simplify_eq.
    rewrite (IH _ t' _ H'); [done|simpl; apply lookup_insert_eq|done|done].
Qed.

(** C20: A started stereo track that is alone with the host's stream plays what the guest appends.  For
    every sequence of appended buffers, callbacks of any size and collections of released buffers that
    keeps to the rules of [player_allows], each callback receives the next samples of the concatenation
    of all buffers, in order, and silence behind them when there are no more; the release event is
    signalled by exactly the callbacks that play the last sample of a buffer, and a collection returns
    the oldest buffers that are played to their end, oldest first. *)
Theorem track_plays_appended ops t n :
  AudioTrack_new StereoChannelCount SampleRate = ok t ->
  player_allows_all ops (mk_player [] [] 0) = true ->
  track_run 0 ops (mk_audio {[0%nat := track_Start t]} [0%nat] n) = ok (player_run ops (mk_player [] [] 0)).
Proof.
  intros E Ha. injection E as <-. eapply track_run_plays; [|apply lookup_singleton_eq|done|done].
  split; simpl; try done; try lia. apply cb_ok_new.
Qed.

End track.

(** Two buffers are played with a callback that needs parts of both, and collected. *)
Lemma track_plays_appended_witness :
  exists t, AudioTrack_new 8 2 48000 = ok t /\
  track_run 8 0 [PlAppend 7 [1; 2; 3; 4]; PlAppend 8 [5; 6; 7; 8]; PlCallback [0; 0; 0; 0; 0; 0]; PlReleased 4; PlAppend 9 [9; 10]; PlCallback [1; 1; 1; 1; 1; 1]; PlReleased 1; PlReleased 1]
    (mk_audio {[0%nat := track_Start t]} [0%nat] 1) =
  ok [PlNone; PlNone; PlSamples [1; 2; 3; 4; 5; 6] true; PlTags [7]; PlNone; PlSamples [7; 8; 9; 10; 0; 0] true; PlTags [8]; PlTags [9]].
Proof. eexists. split; [reflexivity|]. rewrite (track_plays_appended 8 _ _ 1); reflexivity. Defined.

(** ** Mixing with samples of earlier tracks *)

(** A track that has more samples than were written so far, in one piece, is added to them and goes on
    alone behind them. *)
Lemma longer_track_mixes Size dest w c : cb_ok Size c -> cb_empty c = false -> (cb_start c < cb_end c)%nat ->
  (0 < w < length (cb_contents c))%nat -> (length (cb_contents c) <= length dest)%nat ->
  exists c', cb_Read Size dest (Some mix_sample) (Z.of_nat w) c =
    ok (length (cb_contents c), zip_with mix_sample (take w (cb_contents c)) (take w dest) ++ drop w (cb_contents c) ++ drop (length (cb_contents c)) dest, c').
Proof.
  intros Hok Eem Hlt Hw Hd. pose proof (length_contents Size c Hok) as Hlen. rewrite Eem in Hlen. destruct Hok as (Hl & Hs & He & _).
  destruct (Nat.ltb_spec (cb_start c) (cb_end c)) as [_|]; [|lia]. rewrite Hlen in *.
  unfold cb_Read, read_sizes. rewrite Eem. destruct (Nat.ltb_spec (cb_start c) (cb_end c)) as [_|]; [|lia].
  rewrite Nat.min_l by lia. destruct (Z.eqb_spec (Z.of_nat w) 0), (Z.ltb_spec (Z.of_nat w) (Z.of_nat (cb_end c - cb_start c))),
    (Z.eqb_spec (Z.of_nat w) (-1)), (Z.ltb_spec (Z.of_nat w) 0); try lia. simpl. rewrite Nat2Z.id, Nat.add_0_r.
  eexists. f_equal. f_equal. f_equal. unfold cb_contents. rewrite Eem. destruct (Nat.ltb_spec (cb_start c) (cb_end c)) as [_|]; [|lia].
  set (z := zip_with mix_sample (take w (drop (cb_start c) (cb_array c))) (sub 0 w dest)).
  assert (Hz : length z = w) by (subst z; rewrite length_zip_with, length_take, length_drop; unfold sub; rewrite length_take, length_drop; lia).
  unfold copy_with. fold z. rewrite blit_0, Hz, blit_after by done. rewrite <- app_assoc, length_app, Hz. f_equal.
  - unfold sub. rewrite take_take, Nat.min_l by lia. done.
  - f_equal; [apply list_eq; intros i; unfold sub; rewrite ?lookup_drop, !lookup_take, ?lookup_drop; repeat case_decide; try lia; done || f_equal; lia|]. f_equal. unfold sub. rewrite length_take, !length_drop. lia.
Qed.

(** Two tracks with as many samples each: the samples of the second overwrite those of the first
    instead of being added to them. *)
Lemma second_track_overwrites :
  let t data := mk_track [] 2 48000 (mk_ring data 0 2 false) Started 0 in
  exists a, onAudioReady 4 [0; 0] (mk_audio {[0%nat := t [1; 2; 0; 0]; 1%nat := t [10; 20; 0; 0]]} [0%nat; 1%nat] 2) = ok ([10; 20], [], a).
Proof. eexists. vm_compute. reflexivity. Qed.

(** ** Beyond the contract of a track *)

(** A track that played a buffer of four samples and whose buffers are all collected: the next buffer is
    released by the next callback that plays its first sample. *)
Lemma append_after_collecting_all :
  exists t, AudioTrack_new 8 2 48000 = ok t /\
  track_run 8 0 [PlAppend 1 [1; 2; 3; 4]; PlCallback [0; 0; 0; 0]; PlReleased 4; PlAppend 2 [5; 6; 7; 8]; PlCallback [0]; PlReleased 4]
    (mk_audio {[0%nat := track_Start t]} [0%nat] 1) =
  ok [PlNone; PlSamples [1; 2; 3; 4] true; PlTags [1]; PlNone; PlSamples [5] true; PlTags [2]].
Proof. eexists. split; reflexivity. Qed.

(** A frame of surround samples counts for no stereo sample, so its buffer is released before it is
    played. *)
Lemma surround_frame_released_early :
  exists t t' a, AudioTrack_new 8 6 48000 = ok t /\ AppendBuffer 8 1 [100; 200; 0; 0; 0; 0] (track_Start t) = ok t' /\
    map finalSample (identifiers t') = [0] /\ cb_contents (samples t') = [100; 200] /\
    onAudioReady 8 [0] (mk_audio {[0%nat := t']} [0%nat] 1) = ok ([100], [0%nat], a).
Proof. do 3 eexists. repeat (split; [reflexivity|]). vm_compute. reflexivity. Qed.

(** A buffer that is not played yet is not found behind one that is released and not collected. *)
Lemma ContainsBuffer_behind_released : forall t,
  identifiers t = [mk_identifier 2 8 false; mk_identifier 1 4 true] -> ContainsBuffer 2 t = false.
Proof. intros t E. unfold ContainsBuffer. by rewrite E. Qed.

(** Stopping a track with buffers reads behind its last identifier. *)
Lemma Stop_reads_end t i l : identifiers t = i :: l -> track_Stop t = fail (Undefined "identifiers.end()").
Proof. intros E. unfold track_Stop, allSamplesReleased. by rewrite E. Qed.

(** The sum of the channels of a loud surround sample wraps around. *)
Lemma DownMix_wraps : DownMix [mk_surround 30000 0 30000 0 0 0] = [-14326; 21210].
Proof. done. Qed.
