(* ===== verification/AudioDsp.v ===== *)
(** * Sample decoding and resampling ([audio/adpcm_decoder.cpp], [audio/resampler.cpp])

    The decoder of adaptive differential samples and the four-point resampler.  Arithmetic on signed
    32-bit integers that leaves their range is [Undefined], as is an index outside of a vector.  Floating
    point is that of [SpecFloat], the IEEE operations on mantissas and exponents with rounding to nearest;
    a [double] has 53 bits of mantissa and exponents up to 1024. *)

From Stdlib Require Import SpecFloat.
From S2P Require Import Prelude.
From S2P Require Import Common.
From S2P Require Import AudioBuffer.
From S2P Require Import AudioTracks.

(** A result of signed arithmetic. *)
Definition signed32 (z : Z) : M Z := if (- 2 ^ 31 <=? z) && (z <? 2 ^ 31) then ok z else fail (Undefined "signed overflow").

Lemma signed32_ok z : - 2 ^ 31 <= z < 2 ^ 31 -> signed32 z = ok z.
Proof. intros. unfold signed32. destruct (Z.leb_spec (- 2 ^ 31) z), (Z.ltb_spec z (2 ^ 31)); lia || done. Qed.

Definition is_i16 (z : Z) : Prop := - 2 ^ 15 <= z < 2 ^ 15.

Lemma Saturate_range z : is_i16 (Saturate_i16 z).
Proof. unfold is_i16, Saturate_i16. lia. Qed.

(** ** The decoder *)

Record AdpcmDecoder : Type := mk_adpcm { history : Z * Z; coefficients : list (Z * Z) }.

Definition fh_scale (raw : Z) : Z := bits 0 4 raw.
Definition fh_coefficientIndex (raw : Z) : Z := bits 4 3 raw.

(** [(ctx << 28) >> 28] and [(ctx << 24) >> 28]. *)
Definition low_sample (ctx : Z) : Z := Z.shiftr (i32 (Z.shiftl ctx 28)) 28.
Definition high_sample (ctx : Z) : Z := Z.shiftr (i32 (Z.shiftl ctx 24)) 28.

(** The part of a turn behind the extraction of the sample; the result is the saturated sample. *)
Definition adpcm_sample (coefficients : list (Z * Z)) (header sample : Z) (history : Z * Z) : M Z :=
  let! (c0, c1) := from_opt (Undefined "coefficients") (coefficients !! Z.to_nat (fh_coefficientIndex header)) in
  let! p0 := signed32 (history.1 * c0) in
  let! p1 := signed32 (history.2 * c1) in
  let! prediction := signed32 (p0 + p1) in
  let! scaled := signed32 (sample * Z.shiftl 0x800 (fh_scale header)) in
  let! sum := signed32 (scaled + prediction) in
  let! sum := signed32 (sum + 0x400) in
  ok (Saturate_i16 (Z.shiftr sum 11)).

(** The turns of a frame from [index] on; state: the offset, the context, the history and the output. *)
Fixpoint frame_loop (count index : nat) (coefficients : list (Z * Z)) (header : Z) (data : list Z)
    (inputOffset : nat) (ctx : Z) (history : Z * Z) (output : list Z) : M (nat * (Z * Z) * list Z) :=
  match count with
  | O => ok (inputOffset, history, output)
  | S count =>
      let! (sample, ctx, inputOffset) :=
        if Nat.odd index then ok (low_sample ctx, ctx, inputOffset)
        else let! ctx := from_opt (Undefined "adpcmData") (data !! inputOffset) in ok (high_sample ctx, ctx, S inputOffset) in
      let! saturated := adpcm_sample coefficients header sample history in
      frame_loop count (S index) coefficients header data inputOffset ctx (saturated, history.1) (output ++ [saturated])
  end.

(** Every turn takes at least the header. *)
Fixpoint decode_loop (fuel : nat) (coefficients : list (Z * Z)) (data : list Z)
    (inputOffset remainingSamples : nat) (history : Z * Z) (output : list Z) : M (list Z * (Z * Z)) :=
  match fuel with
  | O => fail (Suspended "decode")
  | S fuel =>
      match data !! inputOffset with
      | None => ok (output, history)
      | Some header =>
          let frameSamples := Nat.min 14 remainingSamples in
          let! (inputOffset, history, output) := frame_loop frameSamples 0 coefficients header data (S inputOffset) 0 history output in
          decode_loop fuel coefficients data inputOffset (remainingSamples - frameSamples) history output
      end
  end.

Definition Decode (adpcmData : list Z) (d : AdpcmDecoder) : M (list Z * AdpcmDecoder) :=
  let! (output, history) := decode_loop (S (length adpcmData)) (coefficients d) adpcmData 0 (length adpcmData / 8 * 14) (history d) [] in
  ok (output, mk_adpcm history (coefficients d)).

(** ** Reference: frames of eight bytes *)

(** A byte holds two samples, the first in its high half, as signed four-bit numbers. *)
Definition signed4 (n : Z) : Z := if n <? 8 then n else n - 16.
Definition byte_samples (b : Z) : list Z := [signed4 (b / 16); signed4 (b mod 16)].

Definition predict (coefficients : list (Z * Z)) (header : Z) (s : (Z * Z) * list Z) (sample : Z) : M ((Z * Z) * list Z) :=
  let! v := adpcm_sample coefficients header sample s.1 in ok ((v, s.1.1), s.2 ++ [v]).

Definition decode_frame (coefficients : list (Z * Z)) (s : (Z * Z) * list Z) (frame : list Z) : M ((Z * Z) * list Z) :=
  match frame with
  | [] => ok s
  | header :: body => foldM (predict coefficients header) (flat_map byte_samples body) s
  end.

(** The complete frames of the data; what is left at its end is not decoded. *)
Fixpoint frames (count : nat) (data : list Z) : list (list Z) :=
  match count with O => [] | S count => take 8 data :: frames count (drop 8 data) end.

Definition decode_reference (data : list Z) (d : AdpcmDecoder) : M (list Z * AdpcmDecoder) :=
  let! s := foldM (decode_frame (coefficients d)) (frames (length data / 8) data) (history d, []) in
  ok (s.2, mk_adpcm s.1 (coefficients d)).

(** ** The resampler *)

Abbreviation LutEntry := (Z * Z * Z * Z)%type.

Definition CurveLut0 : list LutEntry :=
  [(6600, 19426, 6722, 3); (6479, 19424, 6845, 9); (6359, 19419, 6968, 15); (6239, 19412, 7093, 22);
   (6121, 19403, 7219, 28); (6004, 19391, 7345, 34); (5888, 19377, 7472, 41); (5773, 19361, 7600, 48);
   (5659, 19342, 7728, 55); (5546, 19321, 7857, 62); (5434, 19298, 7987, 69); (5323, 19273, 8118, 77);
   (5213, 19245, 8249, 84); (5104, 19215, 8381, 92); (4997, 19183, 8513, 101); (4890, 19148, 8646, 109);
   (4785, 19112, 8780, 118); (4681, 19073, 8914, 127); (4579, 19031, 9048, 137); (4477, 18988, 9183, 147);
   (4377, 18942, 9318, 157); (4277, 18895, 9454, 168); (4179, 18845, 9590, 179); (4083, 18793, 9726, 190);
   (3987, 18738, 9863, 202); (3893, 18682, 10000, 215); (3800, 18624, 10137, 228); (3709, 18563, 10274, 241);
   (3618, 18500, 10411, 255); (3529, 18436, 10549, 270); (3441, 18369, 10687, 285); (3355, 18300, 10824, 300);
   (3269, 18230, 10962, 317); (3186, 18157, 11100, 334); (3103, 18082, 11238, 351); (3022, 18006, 11375, 369);
   (2942, 17927, 11513, 388); (2863, 17847, 11650, 408); (2785, 17765, 11788, 428); (2709, 17681, 11925, 449);
   (2635, 17595, 12062, 471); (2561, 17507, 12198, 494); (2489, 17418, 12334, 517); (2418, 17327, 12470, 541);
   (2348, 17234, 12606, 566); (2280, 17140, 12741, 592); (2213, 17044, 12876, 619); (2147, 16946, 13010, 647);
   (2083, 16846, 13144, 675); (2020, 16745, 13277, 704); (1958, 16643, 13409, 735); (1897, 16539, 13541, 766);
   (1838, 16434, 13673, 798); (1780, 16327, 13803, 832); (1723, 16218, 13933, 866); (1667, 16109, 14062, 901);
   (1613, 15998, 14191, 937); (1560, 15885, 14318, 975); (1508, 15772, 14445, 1013); (1457, 15657, 14571, 1052);
   (1407, 15540, 14695, 1093); (1359, 15423, 14819, 1134); (1312, 15304, 14942, 1177); (1266, 15185, 15064, 1221);
   (1221, 15064, 15185, 1266); (1177, 14942, 15304, 1312); (1134, 14819, 15423, 1359); (1093, 14695, 15540, 1407);
   (1052, 14571, 15657, 1457); (1013, 14445, 15772, 1508); (975, 14318, 15885, 1560); (937, 14191, 15998, 1613);
   (901, 14062, 16109, 1667); (866, 13933, 16218, 1723); (832, 13803, 16327, 1780); (798, 13673, 16434, 1838);
   (766, 13541, 16539, 1897); (735, 13409, 16643, 1958); (704, 13277, 16745, 2020); (675, 13144, 16846, 2083);
   (647, 13010, 16946, 2147); (619, 12876, 17044, 2213); (592, 12741, 17140, 2280); (566, 12606, 17234, 2348);
   (541, 12470, 17327, 2418); (517, 12334, 17418, 2489); (494, 12198, 17507, 2561); (471, 12062, 17595, 2635);
   (449, 11925, 17681, 2709); (428, 11788, 17765, 2785); (408, 11650, 17847, 2863); (388, 11513, 17927, 2942);
   (369, 11375, 18006, 3022); (351, 11238, 18082, 3103); (334, 11100, 18157, 3186); (317, 10962, 18230, 3269);
   (300, 10824, 18300, 3355); (285, 10687, 18369, 3441); (270, 10549, 18436, 3529); (255, 10411, 18500, 3618);
   (241, 10274, 18563, 3709); (228, 10137, 18624, 3800); (215, 10000, 18682, 3893); (202, 9863, 18738, 3987);
   (190, 9726, 18793, 4083); (179, 9590, 18845, 4179); (168, 9454, 18895, 4277); (157, 9318, 18942, 4377);
   (147, 9183, 18988, 4477); (137, 9048, 19031, 4579); (127, 8914, 19073, 4681); (118, 8780, 19112, 4785);
   (109, 8646, 19148, 4890); (101, 8513, 19183, 4997); (92, 8381, 19215, 5104); (84, 8249, 19245, 5213);
   (77, 8118, 19273, 5323); (69, 7987, 19298, 5434); (62, 7857, 19321, 5546); (55, 7728, 19342, 5659);
   (48, 7600, 19361, 5773); (41, 7472, 19377, 5888); (34, 7345, 19391, 6004); (28, 7219, 19403, 6121);
   (22, 7093, 19412, 6239); (15, 6968, 19419, 6359); (9, 6845, 19424, 6479); (3, 6722, 19426, 6600)].

Definition CurveLut1 : list LutEntry :=
  [(-68, 32639, 69, -5); (-200, 32630, 212, -15); (-328, 32613, 359, -26); (-450, 32586, 512, -36);
   (-568, 32551, 669, -47); (-680, 32507, 832, -58); (-788, 32454, 1000, -69); (-891, 32393, 1174, -80);
   (-990, 32323, 1352, -92); (-1084, 32244, 1536, -103); (-1173, 32157, 1724, -115); (-1258, 32061, 1919, -128);
   (-1338, 31956, 2118, -140); (-1414, 31844, 2322, -153); (-1486, 31723, 2532, -167); (-1554, 31593, 2747, -180);
   (-1617, 31456, 2967, -194); (-1676, 31310, 3192, -209); (-1732, 31157, 3422, -224); (-1783, 30995, 3657, -240);
   (-1830, 30826, 3897, -256); (-1874, 30649, 4143, -272); (-1914, 30464, 4393, -289); (-1951, 30272, 4648, -307);
   (-1984, 30072, 4908, -325); (-2014, 29866, 5172, -343); (-2040, 29652, 5442, -362); (-2063, 29431, 5716, -382);
   (-2083, 29203, 5994, -403); (-2100, 28968, 6277, -424); (-2114, 28727, 6565, -445); (-2125, 28480, 6857, -468);
   (-2133, 28226, 7153, -490); (-2139, 27966, 7453, -514); (-2142, 27700, 7758, -538); (-2142, 27428, 8066, -563);
   (-2141, 27151, 8378, -588); (-2136, 26867, 8694, -614); (-2130, 26579, 9013, -641); (-2121, 26285, 9336, -668);
   (-2111, 25987, 9663, -696); (-2098, 25683, 9993, -724); (-2084, 25375, 10326, -753); (-2067, 25063, 10662, -783);
   (-2049, 24746, 11000, -813); (-2030, 24425, 11342, -844); (-2009, 24100, 11686, -875); (-1986, 23771, 12033, -907);
   (-1962, 23438, 12382, -939); (-1937, 23103, 12733, -972); (-1911, 22764, 13086, -1005); (-1883, 22422, 13441, -1039);
   (-1855, 22077, 13798, -1072); (-1825, 21729, 14156, -1107); (-1795, 21380, 14516, -1141); (-1764, 21027, 14877, -1176);
   (-1732, 20673, 15239, -1211); (-1700, 20317, 15602, -1246); (-1667, 19959, 15965, -1282); (-1633, 19600, 16329, -1317);
   (-1599, 19239, 16694, -1353); (-1564, 18878, 17058, -1388); (-1530, 18515, 17423, -1424); (-1495, 18151, 17787, -1459);
   (-1459, 17787, 18151, -1495); (-1424, 17423, 18515, -1530); (-1388, 17058, 18878, -1564); (-1353, 16694, 19239, -1599);
   (-1317, 16329, 19600, -1633); (-1282, 15965, 19959, -1667); (-1246, 15602, 20317, -1700); (-1211, 15239, 20673, -1732);
   (-1176, 14877, 21027, -1764); (-1141, 14516, 21380, -1795); (-1107, 14156, 21729, -1825); (-1072, 13798, 22077, -1855);
   (-1039, 13441, 22422, -1883); (-1005, 13086, 22764, -1911); (-972, 12733, 23103, -1937); (-939, 12382, 23438, -1962);
   (-907, 12033, 23771, -1986); (-875, 11686, 24100, -2009); (-844, 11342, 24425, -2030); (-813, 11000, 24746, -2049);
   (-783, 10662, 25063, -2067); (-753, 10326, 25375, -2084); (-724, 9993, 25683, -2098); (-696, 9663, 25987, -2111);
   (-668, 9336, 26285, -2121); (-641, 9013, 26579, -2130); (-614, 8694, 26867, -2136); (-588, 8378, 27151, -2141);
   (-563, 8066, 27428, -2142); (-538, 7758, 27700, -2142); (-514, 7453, 27966, -2139); (-490, 7153, 28226, -2133);
   (-468, 6857, 28480, -2125); (-445, 6565, 28727, -2114); (-424, 6277, 28968, -2100); (-403, 5994, 29203, -2083);
   (-382, 5716, 29431, -2063); (-362, 5442, 29652, -2040); (-343, 5172, 29866, -2014); (-325, 4908, 30072, -1984);
   (-307, 4648, 30272, -1951); (-289, 4393, 30464, -1914); (-272, 4143, 30649, -1874); (-256, 3897, 30826, -1830);
   (-240, 3657, 30995, -1783); (-224, 3422, 31157, -1732); (-209, 3192, 31310, -1676); (-194, 2967, 31456, -1617);
   (-180, 2747, 31593, -1554); (-167, 2532, 31723, -1486); (-153, 2322, 31844, -1414); (-140, 2118, 31956, -1338);
   (-128, 1919, 32061, -1258); (-115, 1724, 32157, -1173); (-103, 1536, 32244, -1084); (-92, 1352, 32323, -990);
   (-80, 1174, 32393, -891); (-69, 1000, 32454, -788); (-58, 832, 32507, -680); (-47, 669, 32551, -568);
   (-36, 512, 32586, -450); (-26, 359, 32613, -328); (-15, 212, 32630, -200); (-5, 69, 32639, -68)].

Definition CurveLut2 : list LutEntry :=
  [(3195, 26287, 3329, -32); (3064, 26281, 3467, -34); (2936, 26270, 3608, -38); (2811, 26253, 3751, -42);
   (2688, 26230, 3897, -46); (2568, 26202, 4046, -50); (2451, 26169, 4199, -54); (2338, 26130, 4354, -58);
   (2227, 26085, 4512, -63); (2120, 26035, 4673, -67); (2015, 25980, 4837, -72); (1912, 25919, 5004, -76);
   (1813, 25852, 5174, -81); (1716, 25780, 5347, -87); (1622, 25704, 5522, -92); (1531, 25621, 5701, -98);
   (1442, 25533, 5882, -103); (1357, 25440, 6066, -109); (1274, 25342, 6253, -115); (1193, 25239, 6442, -121);
   (1115, 25131, 6635, -127); (1040, 25018, 6830, -133); (967, 24899, 7027, -140); (897, 24776, 7227, -146);
   (829, 24648, 7430, -153); (764, 24516, 7635, -159); (701, 24379, 7842, -166); (641, 24237, 8052, -174);
   (583, 24091, 8264, -181); (526, 23940, 8478, -187); (472, 23785, 8695, -194); (420, 23626, 8914, -202);
   (371, 23462, 9135, -209); (324, 23295, 9358, -215); (279, 23123, 9583, -222); (236, 22948, 9809, -230);
   (194, 22769, 10038, -237); (154, 22586, 10269, -243); (117, 22399, 10501, -250); (81, 22208, 10735, -258);
   (47, 22015, 10970, -265); (15, 21818, 11206, -271); (-16, 21618, 11444, -277); (-44, 21415, 11684, -283);
   (-71, 21208, 11924, -290); (-97, 20999, 12166, -296); (-121, 20786, 12409, -302); (-143, 20571, 12653, -306);
   (-163, 20354, 12898, -311); (-183, 20134, 13143, -316); (-201, 19911, 13389, -321); (-218, 19686, 13635, -325);
   (-234, 19459, 13882, -328); (-248, 19230, 14130, -332); (-261, 18998, 14377, -335); (-273, 18765, 14625, -337);
   (-284, 18531, 14873, -339); (-294, 18295, 15121, -341); (-302, 18057, 15369, -341); (-310, 17817, 15617, -341);
   (-317, 17577, 15864, -340); (-323, 17335, 16111, -340); (-328, 17092, 16357, -338); (-332, 16848, 16603, -336);
   (-336, 16603, 16848, -332); (-338, 16357, 17092, -328); (-340, 16111, 17335, -323); (-340, 15864, 17577, -317);
   (-341, 15617, 17817, -310); (-341, 15369, 18057, -302); (-341, 15121, 18295, -294); (-339, 14873, 18531, -284);
   (-337, 14625, 18765, -273); (-335, 14377, 18998, -261); (-332, 14130, 19230, -248); (-328, 13882, 19459, -234);
   (-325, 13635, 19686, -218); (-321, 13389, 19911, -201); (-316, 13143, 20134, -183); (-311, 12898, 20354, -163);
   (-306, 12653, 20571, -143); (-302, 12409, 20786, -121); (-296, 12166, 20999, -97); (-290, 11924, 21208, -71);
   (-283, 11684, 21415, -44); (-277, 11444, 21618, -16); (-271, 11206, 21818, 15); (-265, 10970, 22015, 47);
   (-258, 10735, 22208, 81); (-250, 10501, 22399, 117); (-243, 10269, 22586, 154); (-237, 10038, 22769, 194);
   (-230, 9809, 22948, 236); (-222, 9583, 23123, 279); (-215, 9358, 23295, 324); (-209, 9135, 23462, 371);
   (-202, 8914, 23626, 420); (-194, 8695, 23785, 472); (-187, 8478, 23940, 526); (-181, 8264, 24091, 583);
   (-174, 8052, 24237, 641); (-166, 7842, 24379, 701); (-159, 7635, 24516, 764); (-153, 7430, 24648, 829);
   (-146, 7227, 24776, 897); (-140, 7027, 24899, 967); (-133, 6830, 25018, 1040); (-127, 6635, 25131, 1115);
   (-121, 6442, 25239, 1193); (-115, 6253, 25342, 1274); (-109, 6066, 25440, 1357); (-103, 5882, 25533, 1442);
   (-98, 5701, 25621, 1531); (-92, 5522, 25704, 1622); (-87, 5347, 25780, 1716); (-81, 5174, 25852, 1813);
   (-76, 5004, 25919, 1912); (-72, 4837, 25980, 2015); (-67, 4673, 26035, 2120); (-63, 4512, 26085, 2227);
   (-58, 4354, 26130, 2338); (-54, 4199, 26169, 2451); (-50, 4046, 26202, 2568); (-46, 3897, 26230, 2688);
   (-42, 3751, 26253, 2811); (-38, 3608, 26270, 2936); (-34, 3467, 26281, 3064); (-32, 3329, 26287, 3195)].


Definition resample_lut (step : Z) : list LutEntry :=
  if 0xAAAA <? step then CurveLut0 else if step <=? 0x8000 then CurveLut1 else CurveLut2.

(** The turn for a channel; [inIndex] counts frames of [channelCount] samples. *)
Definition resample_channel (lut : list LutEntry) (inputBuffer : list Z) (channelCount : nat) (inIndex fraction : Z)
    (outIndex channel : nat) (outputBuffer : list Z) : M (list Z) :=
  let at_ i := inputBuffer !! Z.to_nat ((inIndex + i) * Z.of_nat channelCount + Z.of_nat channel) in
  if Z.of_nat (length inputBuffer) <=? (inIndex + 3) * Z.of_nat channelCount + Z.of_nat channel then ok outputBuffer
  else
    let! (a, b, c, d) := from_opt (Undefined "lut") (lut !! Z.to_nat (Z.shiftr fraction 8)) in
    let! x0 := from_opt (Undefined "inputBuffer") (at_ 0) in
    let! x1 := from_opt (Undefined "inputBuffer") (at_ 1) in
    let! x2 := from_opt (Undefined "inputBuffer") (at_ 2) in
    let! x3 := from_opt (Undefined "inputBuffer") (at_ 3) in
    let! s0 := signed32 (x0 * a) in
    let! s1 := signed32 (x1 * b) in
    let! s01 := signed32 (s0 + s1) in
    let! s2 := signed32 (x2 * c) in
    let! s012 := signed32 (s01 + s2) in
    let! s3 := signed32 (x3 * d) in
    let! data := signed32 (s012 + s3) in
    if (outIndex + channel <? length outputBuffer)%nat then ok (<[(outIndex + channel)%nat := Saturate_i16 (Z.shiftr data 15)]> outputBuffer)
    else fail (Undefined "outputBuffer").

(** A loop that never ends, when the output has samples and there are no channels, is [Suspended]. *)
Fixpoint resample_loop (fuel : nat) (lut : list LutEntry) (inputBuffer : list Z) (step : Z) (outputSize channelCount : nat)
    (outIndex : nat) (inIndex fraction : Z) (outputBuffer : list Z) : M (list Z * Z) :=
  match fuel with
  | O => fail (Suspended "no channels")
  | S fuel =>
      if (outIndex <? outputSize)%nat then
        let! outputBuffer := foldM (fun out channel => resample_channel lut inputBuffer channelCount inIndex fraction outIndex channel out) (seq 0 channelCount) outputBuffer in
        let newOffset := u32 (fraction + step) in
        resample_loop fuel lut inputBuffer step outputSize channelCount (outIndex + channelCount) (inIndex + Z.shiftr newOffset 15) (Z.land newOffset 0x7FFF) outputBuffer
      else ok (outputBuffer, fraction)
  end.

(** The conversion of a floating point number to an integer drops its fraction. *)
Definition truncated (f : spec_float) : option Z :=
  match f with
  | S754_zero _ => Some 0
  | S754_finite s m e => let v := Z.shiftl (Z.pos m) e in Some (if s then - v else v)
  | _ => None
  end.

Definition to_unsigned (w : Z) (f : spec_float) : M Z :=
  match truncated f with
  | Some z => if (0 <=? z) && (z <? 2 ^ w) then ok z else fail (Undefined "float to integer")
  | None => fail (Undefined "float to integer")
  end.

Definition double_of (z : Z) : spec_float := binary_normalize 53 1024 z 0 false.
Definition double_mul : spec_float -> spec_float -> spec_float := SFmul 53 1024.
Definition double_div : spec_float -> spec_float -> spec_float := SFdiv 53 1024.

(** The second result is the fraction that the resampler keeps. *)
Definition ResampleBuffer (inputBuffer : list Z) (ratio : spec_float) (channelCount : nat) (fraction : Z) : M (list Z * Z) :=
  let! step := to_unsigned 32 (double_mul ratio (double_of 0x8000)) in
  let! outputSize := to_unsigned 64 (double_div (double_of (Z.of_nat (length inputBuffer))) ratio) in
  let outputSize := Z.to_nat outputSize in
  resample_loop (S outputSize) (resample_lut step) inputBuffer step outputSize channelCount 0 0 fraction (replicate outputSize 0).

(** ** Reference: the samples at evenly spaced positions *)

(** The [k]th output frame stands at [position] of the input, in units of 2^-15 frames: four frames of
    the input from its integral part on, weighted by the entry of the table for its fraction; silence
    where the input ends. *)
Definition position (fraction step : Z) (k : nat) : Z := fraction + Z.of_nat k * step.

Definition resampled (inputBuffer : list Z) (step fraction : Z) (channelCount k channel : nat) : Z :=
  let p := position fraction step k in
  let x i := nth (Z.to_nat ((p / 2 ^ 15 + i) * Z.of_nat channelCount + Z.of_nat channel)) inputBuffer 0 in
  let '(a, b, c, d) := nth (Z.to_nat (p mod 2 ^ 15 / 2 ^ 8)) (resample_lut step) (0, 0, 0, 0) in
  if Z.of_nat (length inputBuffer) <=? (p / 2 ^ 15 + 3) * Z.of_nat channelCount + Z.of_nat channel then 0
  else Saturate_i16 ((x 0 * a + x 1 * b + x 2 * c + x 3 * d) / 2 ^ 15).

Definition resample_reference (inputBuffer : list Z) (step fraction : Z) (channelCount count : nat) : list Z :=
  flat_map (fun k => map (resampled inputBuffer step fraction channelCount k) (seq 0 channelCount)) (seq 0 count).

(** ** The decoder is the reference *)

Definition is_byte (b : Z) : Prop := 0 <= b < 256.

Lemma byte_cases (P : Z -> bool) : forallb P (map Z.of_nat (seq 0 256)) = true -> forall b, is_byte b -> P b = true.
Proof.
  intros H b Hb. rewrite forallb_forall in H. apply H. apply in_map_iff. exists (Z.to_nat b).
  unfold is_byte in Hb. split; [lia|]. apply in_seq. lia.
Qed.

Lemma byte_samples_spec b : is_byte b -> high_sample b = signed4 (b / 16) /\ low_sample b = signed4 (b mod 16).
Proof.
  intros Hb. pose proof (byte_cases (fun b => (high_sample b =? signed4 (b / 16)) && (low_sample b =? signed4 (b mod 16))) ltac:(vm_compute; reflexivity) b Hb) as H.
  cbv beta in H. apply andb_prop in H as [H1%Z.eqb_eq H2%Z.eqb_eq]. done.
Qed.

Lemma bindM_assoc {A B C} (m : M A) (f : A -> M B) (g : B -> M C) : bindM (bindM m f) g = bindM m (fun a => bindM (f a) g).
Proof. by destruct m. Qed.

Lemma frame_loop_bytes coefs header data body off index ctx h out :
  Forall is_byte body -> Nat.even index = true -> take (length body) (drop off data) = body ->
  frame_loop (2 * length body) index coefs header data off ctx h out =
    let! s := foldM (predict coefs header) (flat_map byte_samples body) (h, out) in ok ((off + length body)%nat, s.1, s.2).
Proof.
  intros Hb. revert off index ctx h out. induction Hb as [|b body Hb Hbs IH]; intros off index ctx h out He Ht.
  { simpl. by rewrite Nat.add_0_r. }
  replace (2 * length (b :: body))%nat with (S (S (2 * length body))) by (simpl; lia). cbn [frame_loop flat_map byte_samples app foldM].
  assert (Hl : data !! off = Some b).
  { assert (drop off data !! 0%nat = Some b) as H0. { rewrite <- (take_drop (length (b :: body)) (drop off data)), Ht. done. } by rewrite lookup_drop, Nat.add_0_r in H0. }
  rewrite <- Nat.negb_even, He, Hl. simpl. rewrite Nat.odd_succ, He.
  destruct (byte_samples_spec b Hb) as [-> ->]. unfold predict at 1. rewrite !bindM_assoc. simpl.
  destruct (adpcm_sample coefs header (signed4 (b / 16)) h) as [f|v] eqn:Ev; [done|]. simpl.
  unfold predict at 1. simpl. destruct (adpcm_sample coefs header (signed4 (b mod 16)) (v, h.1)) as [f|w]; [done|]. simpl.
  specialize (IH (S off) (S (S index)) b (w, v) ((out ++ [v]) ++ [w])). simpl in IH. rewrite IH; [|done|].
  - by rewrite Nat.add_succ_r.
  - simpl in Ht. rewrite (drop_S _ _ _ Hl) in Ht. by injection Ht.
Qed.

(** Bytes behind the last complete frame are taken as headers of empty frames. *)
Lemma decode_loop_rest fuel coefs data off h out : (length data < off + fuel)%nat -> (0 < fuel)%nat ->
  decode_loop fuel coefs data off 0 h out = ok (out, h).
Proof.
  revert off. induction fuel as [|fuel IH]; intros off Hf H0; [lia|]. simpl. destruct (data !! off) as [b|] eqn:E; [|done].
  apply lookup_lt_Some in E. apply IH; lia.
Qed.

Lemma decode_loop_frames fuel count coefs data off h out : Forall is_byte data ->
  (length data < off + fuel)%nat -> (off + 8 * count <= length data)%nat ->
  decode_loop fuel coefs data off (count * 14) h out =
    let! s := foldM (decode_frame coefs) (frames count (drop off data)) (h, out) in ok (s.2, s.1).
Proof.
  intros Hb. revert fuel off h out. induction count as [|count IH]; intros fuel off h out Hf Hl.
  { apply decode_loop_rest; lia. }
  destruct fuel as [|fuel]; [lia|]. cbn [decode_loop frames foldM].
  destruct (lookup_lt_is_Some_2 data off) as [header Hh]; [lia|]. rewrite Hh. rewrite (drop_S _ _ _ Hh). cbn [firstn decode_frame].
  set (body := take 7 (drop (S off) data)).
  assert (Hbl : length body = 7%nat) by (subst body; rewrite length_take, length_drop; lia).
  assert (Hm : Nat.min 14 (S count * 14) = (2 * length body)%nat) by (rewrite Hbl; lia).
  rewrite Hm. replace (S count * 14 - 2 * length body)%nat with (count * 14)%nat by lia. rewrite frame_loop_bytes; [|by apply Forall_take, Forall_drop|done|by rewrite Hbl].
  destruct (foldM (predict coefs header) (flat_map byte_samples body) (h, out)) as [f|[h' out']]; [done|]. simpl.
  rewrite drop_drop, IH by lia. by rewrite Hbl.
Qed.

Lemma Decode_is_reference data d : Forall is_byte data -> Decode data d = decode_reference data d.
Proof.
  intros Hb. unfold Decode, decode_reference. rewrite decode_loop_frames; [|done|lia|].
  - rewrite drop_0. by destruct (foldM _ _ _).
  - pose proof (Nat.Div0.mul_div_le (length data) 8). lia.
Qed.

(** ** The decoder has no overflow *)

(** A table with an entry for every index, whose sums are small enough for any history. *)
Definition coefficients_fit (coefs : list (Z * Z)) : Prop :=
  (8 <= length coefs)%nat /\ Forall (fun c => Z.abs c.1 + Z.abs c.2 <= 49151) coefs.

Lemma abs_mul_le x c m : is_i16 x -> Z.abs c <= m -> Z.abs (x * c) <= 2 ^ 15 * Z.abs c.
Proof. unfold is_i16. intros. rewrite Z.abs_mul. apply Z.mul_le_mono_nonneg_r; lia. Qed.

Lemma adpcm_sample_ok coefs header sample h : coefficients_fit coefs -> is_i16 h.1 -> is_i16 h.2 -> -8 <= sample <= 7 ->
  exists v, adpcm_sample coefs header sample h = ok v /\ is_i16 v.
Proof.
  intros [Hl Hc] H0 H1 Hs. unfold adpcm_sample.
  pose proof (bits_range 4 3 header ltac:(lia)). pose proof (bits_range 0 4 header ltac:(lia)) as Hsc.
  destruct (lookup_lt_is_Some_2 coefs (Z.to_nat (fh_coefficientIndex header))) as [[c0 c1] E]; [unfold fh_coefficientIndex; lia|].
  rewrite E. rewrite Forall_lookup in Hc. specialize (Hc _ _ E). simpl in *.
  pose proof (abs_mul_le h.1 c0 49151 H0 ltac:(lia)) as Hp0. pose proof (abs_mul_le h.2 c1 49151 H1 ltac:(lia)) as Hp1.
  set (p0 := h.1 * c0) in *. set (p1 := h.2 * c1) in *.
  assert (Hsh : 0 <= Z.shiftl 0x800 (fh_scale header) <= 2 ^ 26).
  { rewrite Z.shiftl_mul_pow2 by (unfold fh_scale; lia). unfold fh_scale.
    pose proof (Z.pow_le_mono_r 2 (bits 0 4 header) 15 ltac:(lia) ltac:(lia)). lia. }
  set (k := Z.shiftl 0x800 (fh_scale header)) in *.
  assert (Hsk : - 2 ^ 29 <= sample * k <= 2 ^ 29) by nia. set (sk := sample * k) in *.
  rewrite signed32_ok by lia. simpl. rewrite signed32_ok by lia. simpl. rewrite signed32_ok by lia. simpl.
  rewrite signed32_ok by lia. simpl. rewrite signed32_ok by lia. simpl. rewrite signed32_ok by lia. simpl.
  eexists. split; [done|]. apply Saturate_range.
Qed.

Definition decoded (n : nat) (s : (Z * Z) * list Z) : Prop := is_i16 s.1.1 /\ is_i16 s.1.2 /\ length s.2 = n /\ Forall is_i16 s.2.

Lemma predict_all coefs header samples n s : coefficients_fit coefs -> Forall (fun x => -8 <= x <= 7) samples -> decoded n s ->
  exists s', foldM (predict coefs header) samples s = ok s' /\ decoded (n + length samples) s'.
Proof.
  intros Hc Hs. revert n s. induction Hs as [|x samples Hx Hs IH]; intros n s (H0 & H1 & Hn & Ho).
  { exists s. split; [done|]. simpl. rewrite Nat.add_0_r. done. }
  destruct (adpcm_sample_ok coefs header x s.1 Hc H0 H1 Hx) as (v & E & Hv).
  destruct (IH (S n) ((v, s.1.1), s.2 ++ [v])) as (s' & Es & Hd).
  { split; [done|]. split; [done|]. simpl. rewrite length_app. split; [simpl; lia|]. apply Forall_app. split; [done|by constructor]. }
  exists s'. split; [|by replace (n + length (x :: samples))%nat with (S n + length samples)%nat by (simpl; lia)].
  cbn [foldM]. unfold predict at 1. rewrite E. simpl. done.
Qed.

Lemma byte_samples_range body : Forall is_byte body -> Forall (fun x => -8 <= x <= 7) (flat_map byte_samples body).
Proof.
  induction 1 as [|b body Hb _ IH]; [constructor|]. simpl. unfold is_byte, signed4 in *.
  assert (0 <= b / 16 < 16) by (split; [apply Z.div_pos; lia|apply Z.div_lt_upper_bound; lia]).
  assert (0 <= b mod 16 < 16) by (apply Z.mod_pos_bound; lia).
  constructor; [destruct (Z.ltb_spec (b / 16) 8); lia|]. constructor; [destruct (Z.ltb_spec (b mod 16) 8); lia|done].
Qed.

Lemma length_byte_samples body : length (flat_map byte_samples body) = (2 * length body)%nat.
Proof. induction body as [|b body IH]; simpl in *; lia. Qed.

Lemma decode_frames_ok coefs count data n s : coefficients_fit coefs -> Forall is_byte data -> (8 * count <= length data)%nat -> decoded n s ->
  exists s', foldM (decode_frame coefs) (frames count data) s = ok s' /\ decoded (n + 14 * count) s'.
Proof.
  intros Hc. revert data n s. induction count as [|count IH]; intros data n s Hb Hl Hd.
  { exists s. split; [done|]. by rewrite Nat.mul_0_r, Nat.add_0_r. }
  cbn [frames foldM]. destruct data as [|header data]; [simpl in Hl; lia|]. cbn [firstn decode_frame skipn].
  inversion_clear Hb as [|? ? _ Hb'].
  assert (Hlen : length (take 7 data) = 7%nat) by (simpl in Hl; rewrite length_take; lia).
  destruct (predict_all coefs header (flat_map byte_samples (take 7 data)) n s Hc) as (s1 & E1 & H1); [by apply byte_samples_range, Forall_take|done|].
  rewrite E1. cbn [bindM ok]. destruct (IH (drop 7 data) (n + 14)%nat s1) as (s2 & E2 & H2).
  - by apply Forall_drop.
  - rewrite length_drop. simpl in Hl. lia.
  - rewrite length_byte_samples, Hlen in H1. done.
  - exists s2. split; [done|]. replace (n + 14 * S count)%nat with (n + 14 + 14 * count)%nat by lia; done.
Qed.

(** C21: Decoding is decoding frame by frame: the loop over offsets returns what the reference does, for
    any bytes and any decoder, faults included - each complete frame of eight bytes gives the fourteen
    samples of its signed half-bytes, the high half first, through the predictor with the history that
    the previous frame left, and the bytes behind the last complete frame are ignored.  When the table
    has its eight entries and their absolute values sum to at most 49151, no 32-bit operation overflows:
    the decoder returns fourteen samples per frame, all of them 16-bit numbers. *)
Theorem Decode_decodes_frames data d : Forall is_byte data ->
  Decode data d = decode_reference data d /\
  (coefficients_fit (coefficients d) -> is_i16 (history d).1 -> is_i16 (history d).2 ->
   exists output d', Decode data d = ok (output, d') /\ length output = (14 * (length data / 8))%nat /\ Forall is_i16 output).
Proof.
  intros Hb. split; [by apply Decode_is_reference|]. intros Hc H0 H1. rewrite Decode_is_reference by done. unfold decode_reference.
  destruct (decode_frames_ok (coefficients d) (length data / 8) data 0 (history d, []) Hc Hb) as (s & E & _ & _ & Hl & Hf).
  - apply Nat.Div0.mul_div_le.
  - repeat split; try done; apply H0 || apply H1.
  - rewrite E. simpl. eauto.
Qed.

(** A frame and a byte. *)
Lemma Decode_decodes_frames_witness :
  let d := mk_adpcm (0, 0) (replicate 8 (2048, 0)) in
  Decode [1; 0x12; 0xF0; 0; 0; 0; 0; 0; 7] d = decode_reference [1; 0x12; 0xF0; 0; 0; 0; 0; 0; 7] d /\
  exists output d', Decode [1; 0x12; 0xF0; 0; 0; 0; 0; 0; 7] d = ok (output, d') /\ length output = 14%nat /\ Forall is_i16 output.
Proof.
  intros d. assert (Hb : Forall is_byte [1; 0x12; 0xF0; 0; 0; 0; 0; 0; 7]) by (repeat constructor; lia).
  destruct (Decode_decodes_frames [1; 0x12; 0xF0; 0; 0; 0; 0; 0; 7] d Hb) as [E H]. split; [exact E|].
  apply H; [split; [simpl; lia|repeat constructor; simpl; lia]|split; simpl; lia..].
Defined.

(** ** The resampler is the reference *)

Definition entry_fits (e : LutEntry) : bool := let '(a, b, c, d) := e in Z.abs a + Z.abs b + Z.abs c + Z.abs d <=? 65535.

Lemma resample_lut_fits step f : 0 <= f < 2 ^ 15 ->
  exists e, resample_lut step !! Z.to_nat (f / 2 ^ 8) = Some e /\ entry_fits e = true /\ nth (Z.to_nat (f / 2 ^ 8)) (resample_lut step) (0, 0, 0, 0) = e.
Proof.
  intros Hf. assert (H : length (resample_lut step) = 128%nat /\ forallb entry_fits (resample_lut step) = true).
  { unfold resample_lut. destruct (0xAAAA <? step), (step <=? 0x8000); vm_compute; done. }
  destruct H as [Hl Hall]. assert (0 <= f / 2 ^ 8 < 128) by (split; [apply Z.div_pos; lia|apply Z.div_lt_upper_bound; lia]).
  destruct (lookup_lt_is_Some_2 (resample_lut step) (Z.to_nat (f / 2 ^ 8))) as [e E]; [lia|].
  exists e. split; [done|]. split; [|by apply nth_lookup_Some].
  rewrite forallb_forall in Hall. apply Hall. apply list_elem_of_In, list_elem_of_lookup. eauto.
Qed.

Section resample.
Context (input : list Z) (step f0 : Z) (cc : nat).
Context (Hinput : Forall is_i16 input) (Hstep : 0 <= step < 2 ^ 32 - 2 ^ 15).

Lemma input_at n : 0 <= n < Z.of_nat (length input) -> exists x, input !! Z.to_nat n = Some x /\ nth (Z.to_nat n) input 0 = x /\ is_i16 x.
Proof.
  intros Hn. destruct (lookup_lt_is_Some_2 input (Z.to_nat n)) as [x E]; [lia|]. exists x. split; [done|].
  split; [by apply nth_lookup_Some|]. rewrite Forall_lookup in Hinput. eauto.
Qed.

Lemma insert_zeros (l : list Z) m v : <[length l := v]> (l ++ replicate (S m) 0) = (l ++ [v]) ++ replicate m 0.
Proof. rewrite insert_app_r_alt, Nat.sub_diag, <- app_assoc by lia. done. Qed.

Lemma resample_channel_spec k i f outIndex channel l m : position f0 step k = i * 2 ^ 15 + f -> 0 <= i -> 0 <= f < 2 ^ 15 ->
  length l = (outIndex + channel)%nat ->
  resample_channel (resample_lut step) input cc i f outIndex channel (l ++ replicate (S m) 0) =
    ok ((l ++ [resampled input step f0 cc k channel]) ++ replicate m 0).
Proof.
  intros Hp Hi Hf Hl. unfold resample_channel, resampled. cbv zeta. rewrite Hp, Z.div_add_l, (Z.div_small f), Z.add_0_r by lia.
  rewrite (Z.add_comm (i * 2 ^ 15)), Z.mod_add, (Z.mod_small f) by lia. rewrite Z.shiftr_div_pow2 by lia.
  destruct (resample_lut_fits step f Hf) as ([[[a b] c] d] & E & He & ->). rewrite E. unfold entry_fits in He. apply Z.leb_le in He.
  destruct (Z.leb_spec (Z.of_nat (length input)) ((i + 3) * Z.of_nat cc + Z.of_nat channel)) as [|Hlt].
  { by rewrite <- app_assoc. }
  rewrite !Z.add_0_r. destruct (input_at (i * Z.of_nat cc + Z.of_nat channel)) as (x0 & -> & -> & H0); [nia|].
  destruct (input_at ((i + 1) * Z.of_nat cc + Z.of_nat channel)) as (x1 & -> & -> & H1); [nia|].
  destruct (input_at ((i + 2) * Z.of_nat cc + Z.of_nat channel)) as (x2 & -> & -> & H2); [nia|].
  destruct (input_at ((i + 3) * Z.of_nat cc + Z.of_nat channel)) as (x3 & -> & -> & H3); [nia|].
  pose proof (abs_mul_le x0 a 65535 H0 ltac:(lia)). pose proof (abs_mul_le x1 b 65535 H1 ltac:(lia)).
  pose proof (abs_mul_le x2 c 65535 H2 ltac:(lia)). pose proof (abs_mul_le x3 d 65535 H3 ltac:(lia)).
  set (s0 := x0 * a) in *. set (s1 := x1 * b) in *. set (s2 := x2 * c) in *. set (s3 := x3 * d) in *.
  cbn [bindM from_opt ok]. do 7 (rewrite signed32_ok by lia; cbn [bindM ok]).
  rewrite Z.shiftr_div_pow2, <- Hl, insert_zeros by lia. rewrite length_app. simpl length.
  destruct (Nat.ltb_spec (length l) (length l + S (length (replicate m 0)))); [done|lia].
Qed.

Lemma resample_channels_spec k i f outIndex n channel l m : position f0 step k = i * 2 ^ 15 + f -> 0 <= i -> 0 <= f < 2 ^ 15 ->
  length l = (outIndex + channel)%nat ->
  foldM (fun out channel => resample_channel (resample_lut step) input cc i f outIndex channel out) (seq channel n) (l ++ replicate (n + m) 0) =
    ok ((l ++ map (resampled input step f0 cc k) (seq channel n)) ++ replicate m 0).
Proof.
  intros Hp Hi Hf. revert channel l. induction n as [|n IH]; intros channel l Hl; [by rewrite app_nil_r|].
  cbn [seq foldM]. change (S n + m)%nat with (S (n + m)). rewrite (resample_channel_spec k) by done. cbn [bindM ok].
  rewrite IH by (rewrite length_app; simpl; lia). cbn [map]. by rewrite <- !app_assoc.
Qed.

Lemma resample_reference_S count :
  resample_reference input step f0 cc (S count) = resample_reference input step f0 cc count ++ map (resampled input step f0 cc count) (seq 0 cc).
Proof. unfold resample_reference. rewrite seq_S, flat_map_app. simpl. by rewrite app_nil_r. Qed.

Lemma length_resample_reference count : length (resample_reference input step f0 cc count) = (count * cc)%nat.
Proof. induction count as [|count IH]; [done|]. rewrite resample_reference_S, length_app, IH, length_map, length_seq. lia. Qed.

Lemma position_S k : position f0 step (S k) = position f0 step k + step.
Proof. unfold position. lia. Qed.

(** The loop over whole frames: index and fraction are the two parts of the position. *)
Lemma resample_loop_frames n fuel k r : 0 <= f0 -> (0 < cc)%nat ->
  resample_loop (n + fuel) (resample_lut step) input step ((k + n) * cc + r) cc (k * cc) (position f0 step k / 2 ^ 15) (position f0 step k mod 2 ^ 15)
    (resample_reference input step f0 cc k ++ replicate (n * cc + r) 0) =
  resample_loop fuel (resample_lut step) input step ((k + n) * cc + r) cc ((k + n) * cc) (position f0 step (k + n) / 2 ^ 15) (position f0 step (k + n) mod 2 ^ 15)
    (resample_reference input step f0 cc (k + n) ++ replicate r 0).
Proof.
  intros Hf0 Hcc. revert k. induction n as [|n IH]; intros k; [by rewrite Nat.add_0_r|].
  assert (Hp : 0 <= position f0 step k) by (unfold position; nia).
  pose proof (Z.mod_pos_bound (position f0 step k) (2 ^ 15) ltac:(lia)) as Hm. pose proof (Z.div_pos (position f0 step k) (2 ^ 15) Hp ltac:(lia)) as Hd.
  pose proof (Z.div_mod (position f0 step k) (2 ^ 15) ltac:(lia)) as Hdm.
  cbn [Nat.add resample_loop]. destruct (Nat.ltb_spec (k * cc) ((k + S n) * cc + r)); [|nia].
  replace (S n * cc + r)%nat with (cc + (n * cc + r))%nat by lia.
  rewrite (resample_channels_spec k) by (try rewrite length_resample_reference; lia). cbn [bindM ok].
  rewrite wrap_small by lia. rewrite <- resample_reference_S, Z.shiftr_div_pow2 by lia. change 0x7FFF with (Z.ones 15). rewrite Z.land_ones by lia.
  replace (k * cc + cc)%nat with (S k * cc)%nat by lia. replace (k + S n)%nat with (S k + n)%nat by lia.
  replace (position f0 step k / 2 ^ 15 + (position f0 step k mod 2 ^ 15 + step) / 2 ^ 15) with (position f0 step (S k) / 2 ^ 15).
  2:{ rewrite position_S, <- Z.div_add_l by lia. f_equal. lia. }
  replace ((position f0 step k mod 2 ^ 15 + step) mod 2 ^ 15) with (position f0 step (S k) mod 2 ^ 15) by (by rewrite position_S, Zplus_mod_idemp_l).
  apply IH.
Qed.

(** The channels of a frame for which the output has no room: they are left out when the input has
    ended, and the first of them is written past the output when it has not. *)
Lemma resample_channels_past k i f outIndex r n out : position f0 step k = i * 2 ^ 15 + f -> 0 <= i -> 0 <= f < 2 ^ 15 ->
  length out = (outIndex + r)%nat ->
  foldM (fun out channel => resample_channel (resample_lut step) input cc i f outIndex channel out) (seq r (S n)) out =
    if (i + 3) * Z.of_nat cc + Z.of_nat r <? Z.of_nat (length input) then fail (Undefined "outputBuffer") else ok out.
Proof.
  intros Hp Hi Hf Hl. destruct (Z.ltb_spec ((i + 3) * Z.of_nat cc + Z.of_nat r) (Z.of_nat (length input))) as [Hlt|Hge].
  - cbn [seq foldM]. unfold resample_channel at 1. rewrite (proj2 (Z.leb_gt _ _)) by lia. rewrite Z.shiftr_div_pow2 by lia.
    destruct (resample_lut_fits step f Hf) as ([[[a b] c] d] & E & He & _). rewrite E. unfold entry_fits in He. apply Z.leb_le in He.
    rewrite !Z.add_0_r. destruct (input_at (i * Z.of_nat cc + Z.of_nat r)) as (x0 & -> & _ & H0); [nia|].
    destruct (input_at ((i + 1) * Z.of_nat cc + Z.of_nat r)) as (x1 & -> & _ & H1); [nia|].
    destruct (input_at ((i + 2) * Z.of_nat cc + Z.of_nat r)) as (x2 & -> & _ & H2); [nia|].
    destruct (input_at ((i + 3) * Z.of_nat cc + Z.of_nat r)) as (x3 & -> & _ & H3); [nia|].
    pose proof (abs_mul_le x0 a 65535 H0 ltac:(lia)). pose proof (abs_mul_le x1 b 65535 H1 ltac:(lia)).
    pose proof (abs_mul_le x2 c 65535 H2 ltac:(lia)). pose proof (abs_mul_le x3 d 65535 H3 ltac:(lia)).
    cbn [bindM from_opt ok]. do 7 (rewrite signed32_ok by lia; cbn [bindM ok]). by rewrite <- Hl, Nat.ltb_irrefl.
  - generalize (S n). intros N. assert (Hc : forall c, (r <= c)%nat -> foldM (fun out channel => resample_channel (resample_lut step) input cc i f outIndex channel out) (seq c N) out = ok out).
    { induction N as [|N IH]; intros c Hc; [done|]. cbn [seq foldM]. unfold resample_channel at 1. rewrite (proj2 (Z.leb_le _ _)) by lia. cbn [bindM ok]. apply IH. lia. }
    by apply Hc.
Qed.

Lemma resample_last_frame fuel k r : 0 <= f0 -> (0 < r < cc)%nat ->
  resample_loop (S (S fuel)) (resample_lut step) input step (k * cc + r) cc (k * cc) (position f0 step k / 2 ^ 15) (position f0 step k mod 2 ^ 15)
    (resample_reference input step f0 cc k ++ replicate r 0) =
  if (position f0 step k / 2 ^ 15 + 3) * Z.of_nat cc + Z.of_nat r <? Z.of_nat (length input) then fail (Undefined "outputBuffer")
  else ok (take (k * cc + r) (resample_reference input step f0 cc (S k)), position f0 step (S k) mod 2 ^ 15).
Proof.
  intros Hf0 Hr. assert (Hp : 0 <= position f0 step k) by (unfold position; nia).
  pose proof (Z.mod_pos_bound (position f0 step k) (2 ^ 15) ltac:(lia)) as Hm. pose proof (Z.div_pos (position f0 step k) (2 ^ 15) Hp ltac:(lia)) as Hd.
  pose proof (Z.div_mod (position f0 step k) (2 ^ 15) ltac:(lia)) as Hdm.
  cbn [resample_loop]. rewrite (proj2 (Nat.ltb_lt _ _)) by lia. replace (seq 0 cc) with (seq 0 r ++ seq r (S (cc - r - 1))) by (rewrite <- seq_app; f_equal; lia). rewrite foldM_app.
  pose proof (resample_channels_spec k (position f0 step k / 2 ^ 15) (position f0 step k mod 2 ^ 15) (k * cc) r 0 (resample_reference input step f0 cc k) 0) as HC.
  replace (r + 0)%nat with r in HC by lia. rewrite HC by (rewrite ?length_resample_reference; lia). clear HC. cbn [bindM ok replicate]. rewrite app_nil_r.
  rewrite (resample_channels_past k) by (try rewrite length_app, length_resample_reference, length_map, length_seq; lia).
  destruct (_ <? _); [done|]. cbn [bindM ok]. rewrite (proj2 (Nat.ltb_ge _ _)) by lia. do 2 f_equal.
  - rewrite resample_reference_S. replace (seq 0 cc) with (seq 0 r ++ seq r (cc - r)) by (rewrite <- seq_app; f_equal; lia). rewrite map_app, app_assoc, take_app_length'; [done|].
    rewrite length_app, length_resample_reference, length_map, length_seq. lia.
  - rewrite wrap_small by lia. change 0x7FFF with (Z.ones 15). rewrite Z.land_ones, position_S by lia. by rewrite Zplus_mod_idemp_l.
Qed.

End resample.

(** The number of frames of which an output of [size] samples has at least one. *)
Definition output_frames (size cc : nat) : nat := if (size mod cc =? 0)%nat then (size / cc)%nat else S (size / cc).

(** The output ends inside of a frame whose next sample the input still has. *)
Definition output_overrun (input : list Z) (step fraction : Z) (cc size : nat) : bool :=
  negb (size mod cc =? 0)%nat &&
  ((position fraction step (size / cc) / 2 ^ 15 + 3) * Z.of_nat cc + Z.of_nat (size mod cc) <? Z.of_nat (length input)).

(** C22: Resampling takes samples at evenly spaced positions.  For every input, kept fraction, number of
    channels and ratio below 2^17 - 1, with [step] and the [size] of the output as the double
    arithmetic gives them, the running index and fraction of the loop amount to the position
    [fraction + k * step] of the [k]th output frame; each output sample is the weighted sum of the four
    input frames there with the weights for its fraction, or silence at the end of the input; and the
    fraction that is kept is that of the position behind the last frame, so the next buffer goes on
    from it.  The loop ends, no 32-bit sum overflows and no index leaves its array, but for one case,
    which is exactly characterised: when the size is not a whole number of frames and the input has
    not ended at the last of them, the loop writes past the output, as for 400004 stereo frames at
    44.1 kHz ([ResampleBuffer_resamples_witness]). *)
Theorem ResampleBuffer_resamples input ratio step fraction cc size :
  to_unsigned 32 (double_mul ratio (double_of 0x8000)) = ok step ->
  to_unsigned 64 (double_div (double_of (Z.of_nat (length input))) ratio) = ok (Z.of_nat size) ->
  Forall is_i16 input -> 0 <= step < 2 ^ 32 - 2 ^ 15 -> 0 <= fraction < 2 ^ 15 -> (0 < cc)%nat ->
  ResampleBuffer input ratio cc fraction =
    if output_overrun input step fraction cc size then fail (Undefined "outputBuffer")
    else ok (take size (resample_reference input step fraction cc (output_frames size cc)), position fraction step (output_frames size cc) mod 2 ^ 15).
Proof.
  intros Es Eo Hin Hs Hf Hcc. unfold ResampleBuffer. rewrite Es, Eo. cbn [bindM ok]. rewrite Nat2Z.id.
  pose proof (Nat.div_mod_eq size cc) as Hdm. pose proof (Nat.mod_upper_bound size cc ltac:(lia)) as Hm.
  unfold output_overrun, output_frames. set (count := (size / cc)%nat) in *. set (r := (size mod cc)%nat) in *. clearbody count r.
  assert (Hsize : size = (count * cc + r)%nat) by lia. clear Hdm. subst size.
  assert (Hp0 : fraction = position fraction step 0) by (unfold position; lia).
  replace (S (count * cc + r)) with (count + (S (count * cc + r) - count))%nat by nia.
  pose proof (resample_loop_frames input step fraction cc Hin Hs count (S (count * cc + r) - count) 0 r ltac:(lia) Hcc) as H.
  rewrite Nat.add_0_l, Nat.mul_0_l, <- Hp0, Z.div_small, Z.mod_small in H by lia. etrans; [exact H|]. clear H.
  destruct (Nat.eqb_spec r 0) as [->|Hr]; cbn [negb andb].
  - replace (S (count * cc + 0) - count)%nat with (S (count * cc - count)) by nia. cbn [resample_loop]. rewrite Nat.add_0_r, Nat.ltb_irrefl, app_nil_r.
    by rewrite take_ge by (rewrite length_resample_reference; lia).
  - replace (S (count * cc + r) - count)%nat with (S (S (count * cc + r - count - 1))) by nia. by apply resample_last_frame; [..|lia|lia].
Qed.

(** Seven frames of two channels at half the rate of the output, and a long silence at 44.1 kHz, of
    which the output has an odd number of samples. *)
Lemma ResampleBuffer_resamples_witness :
  let input := [0; 100; 0; 200; 1000; 300; 1000; 400; 0; 500; 0; 600; 0; 700] in
  ResampleBuffer input (double_div (double_of 24000) (double_of SampleRate)) 2 0 = ok (resample_reference input 0x4000 0 2 14, 0) /\
  ResampleBuffer (replicate (Z.to_nat 800008) 0) (double_div (double_of 44100) (double_of SampleRate)) 2 0 = fail (Undefined "outputBuffer").
Proof.
  intros input. split.
  - rewrite (ResampleBuffer_resamples input (double_div (double_of 24000) (double_of SampleRate)) 0x4000 0 2 28); [reflexivity|reflexivity|reflexivity|repeat constructor; unfold is_i16; lia|lia..].
  - assert (Ho : output_overrun (replicate (Z.to_nat 800008) 0) 30105 0 2 (Z.to_nat 870757) = true) by (vm_compute; reflexivity).
    rewrite (ResampleBuffer_resamples (replicate (Z.to_nat 800008) 0) (double_div (double_of 44100) (double_of SampleRate)) 30105 0 2 (Z.to_nat 870757)), Ho;
      [reflexivity|reflexivity|rewrite length_replicate, !Z2Nat.id by lia; reflexivity|apply Forall_replicate; unfold is_i16; lia|lia..].
Defined.
