(* ===== verification/Vfs.v ===== *)
(** * Backings and file systems ([vfs/backing.h], [vfs/region_backing.h], [vfs/ctr_encrypted_backing.cpp],
    [vfs/partition_filesystem.cpp], [vfs/rom_filesystem.cpp])

    A backing gives access to stored bytes: its size and [ReadImpl], which returns the bytes it could
    read.  [backs b data] is the contract between a backing and its users: every read that lies in the
    data returns the bytes there.  A region of a backing, an encrypted backing and the files of a file
    system are backings that are proved to keep the contract; the file systems are proved against it.
    Names and paths are lists of bytes. *)

From S2P Require Import Prelude.

(** The [n] bytes of [l] from [o] on. *)
Definition slice (o n : nat) (l : list Z) : list Z := take n (drop o l).

Lemma length_slice o n l : (o + n <= length l)%nat -> length (slice o n l) = n.
Proof. intros. unfold slice. rewrite length_take, length_drop. lia. Qed.

Lemma slice_slice o n o' n' l : (o' + n' <= n)%nat -> slice o' n' (slice o n l) = slice (o + o') n' l.
Proof. intros. unfold slice. rewrite skipn_firstn_comm, take_take, drop_drop. f_equal. lia. Qed.

Lemma slice_app a b c : slice (length a) (length b) (a ++ b ++ c) = b.
Proof. unfold slice. by rewrite drop_app_length, take_app_length. Qed.

(** A number in little-endian bytes. *)
Fixpoint le (l : list Z) : Z := match l with [] => 0 | b :: l => b + 256 * le l end.
Fixpoint le_bytes (n : nat) (z : Z) : list Z := match n with O => [] | S n => z mod 256 :: le_bytes n (z / 256) end.

Lemma length_le_bytes n z : length (le_bytes n z) = n.
Proof. revert z. induction n as [|n IH]; intros z; simpl; [done|by rewrite IH]. Qed.

Lemma le_le_bytes n z : 0 <= z < 256 ^ Z.of_nat n -> le (le_bytes n z) = z.
Proof.
  revert z. induction n as [|n IH]; intros z Hz; [simpl in *; lia|]. cbn [le le_bytes].
  rewrite Nat2Z.inj_succ, Z.pow_succ_r in Hz by lia. rewrite IH.
  - pose proof (Z.div_mod z 256 ltac:(lia)). lia.
  - split; [apply Z.div_pos; lia|apply Z.div_lt_upper_bound; lia].
Qed.

(** ** Backings *)

Record VfsBacking : Type := mk_vfs_backing { vb_size : Z; vb_ReadImpl : nat -> Z -> list Z }.

Definition ReadUnchecked (b : VfsBacking) (n : nat) (offset : Z) : list Z := vb_ReadImpl b n offset.

Definition check_read (b : VfsBacking) (n : nat) (offset : Z) : M unit :=
  if vb_size b <? offset then fail (Throw "Offset cannot be past the end of a backing")
  else if vb_size b - offset <? Z.of_nat n then fail (Throw "Trying to read past the end of a backing")
  else ok tt.

(** Into a vector of zeros; a read that is too short is only logged. *)
Definition Read_span (b : VfsBacking) (n : nat) (offset : Z) : M (list Z) :=
  let! _ := check_read b n offset in
  let r := ReadUnchecked b n offset in
  ok (r ++ replicate (n - length r) 0).

(** Into an object, whose bytes are indeterminate before. *)
Definition Read_object (b : VfsBacking) (n : nat) (offset : Z) : M (list Z) :=
  let! _ := check_read b n offset in
  let r := ReadUnchecked b n offset in
  if (length r =? n)%nat then ok r else fail (Undefined "object is not read").

(** A backing of bytes in memory. *)
Definition memory_backing (data : list Z) : VfsBacking := mk_vfs_backing (Z.of_nat (length data)) (fun n offset => slice (Z.to_nat offset) n data).

(** The contract. *)
Record backs (b : VfsBacking) (data : list Z) : Prop := {
  backs_size : vb_size b = Z.of_nat (length data);
  backs_read : forall n o, (o + n <= length data)%nat -> vb_ReadImpl b n (Z.of_nat o) = slice o n data }.

Lemma memory_backs data : backs (memory_backing data) data.
Proof. split; [done|]. intros n o _. simpl. by rewrite Nat2Z.id. Qed.

Lemma check_read_ok b data n o : backs b data -> (o + n <= length data)%nat -> check_read b n (Z.of_nat o) = ok tt.
Proof.
  intros H Ho. unfold check_read. rewrite (backs_size _ _ H).
  destruct (Z.ltb_spec (Z.of_nat (length data)) (Z.of_nat o)), (Z.ltb_spec (Z.of_nat (length data) - Z.of_nat o) (Z.of_nat n)); lia || done.
Qed.

Lemma Read_object_backs b data n o : backs b data -> (o + n <= length data)%nat -> Read_object b n (Z.of_nat o) = ok (slice o n data).
Proof.
  intros H Ho. unfold Read_object, ReadUnchecked. rewrite (check_read_ok b data), (backs_read _ _ H), length_slice by done. simpl. by rewrite Nat.eqb_refl.
Qed.

Lemma Read_span_backs b data n o : backs b data -> (o + n <= length data)%nat -> Read_span b n (Z.of_nat o) = ok (slice o n data).
Proof.
  intros H Ho. unfold Read_span, ReadUnchecked. rewrite (check_read_ok b data), (backs_read _ _ H), length_slice, Nat.sub_diag by done. simpl. by rewrite app_nil_r.
Qed.

(** ** Regions *)

Record BackingMode : Type := mk_mode { m_read : bool; m_write : bool; m_append : bool }.
Definition read_only : BackingMode := mk_mode true false false.

Definition RegionBacking (b : VfsBacking) (offset size : Z) (mode : BackingMode) : M VfsBacking :=
  if m_write mode || m_append mode then fail (Throw "Cannot open a RegionBacking as writable")
  else ok (mk_vfs_backing size (fun n o => ReadUnchecked b n (u64 (offset + o)))).

Lemma region_backs b data o n : backs b data -> (o + n <= length data)%nat -> Z.of_nat (length data) < 2 ^ 64 ->
  exists r, RegionBacking b (Z.of_nat o) (Z.of_nat n) read_only = ok r /\ backs r (slice o n data).
Proof.
  intros H Ho Hd. eexists. split; [done|]. split; simpl; [by rewrite length_slice|]. rewrite length_slice by done. intros m p Hp.
  unfold ReadUnchecked. rewrite wrap_small, <- Nat2Z.inj_add, (backs_read _ _ H), slice_slice by lia. done.
Qed.

(** ** Partition file systems *)

Record PartitionFileEntry : Type := mk_pfs_entry { pe_offset : Z; pe_size : Z; pe_stringTableOffset : Z }.

Record PartitionFileSystem : Type := mk_pfs { hashed : bool; fileDataOffset : Z; pfs_backing : VfsBacking; fileMap : gmap (list Z) PartitionFileEntry }.

Definition PFS0 : Z := 0x30534650.
Definition HFS0 : Z := 0x30534648.

(** [std::string] of the characters up to the first zero. *)
Fixpoint c_string (l : list Z) : list Z := match l with [] => [] | c :: l => if c =? 0 then [] else c :: c_string l end.

(** [emplace] keeps an entry that is there. *)
Definition map_emplace {V} (k : list Z) (v : V) (m : gmap (list Z) V) : gmap (list Z) V := match m !! k with Some _ => m | None => <[k := v]> m end.

Definition read_entry (b : VfsBacking) (offset : Z) : M PartitionFileEntry :=
  let! e := Read_object b 0x18 offset in
  ok (mk_pfs_entry (le (slice 0 8 e)) (le (slice 8 8 e)) (le (slice 0x10 4 e))).

(** The loop over the entries; the offset is a 32-bit number. *)
Fixpoint entry_loop (fuel : nat) (b : VfsBacking) (entrySize bound : Z) (stringTable : list Z) (entryOffset : Z)
    (m : gmap (list Z) PartitionFileEntry) : M (gmap (list Z) PartitionFileEntry) :=
  if negb (entryOffset <? bound) then ok m
  else
    match fuel with
    | O => fail (Suspended "entries")
    | S fuel =>
        let! entry := read_entry b entryOffset in
        if Z.of_nat (length stringTable) <=? pe_stringTableOffset entry then fail (Undefined "stringTable")
        else
          let name := c_string (drop (Z.to_nat (pe_stringTableOffset entry)) stringTable) in
          entry_loop fuel b entrySize bound stringTable (u32 (entryOffset + entrySize)) (map_emplace name entry m)
    end.

Definition PartitionFileSystem_new (b : VfsBacking) : M PartitionFileSystem :=
  let! header := Read_object b 0x10 0 in
  let magic := le (slice 0 4 header) in
  let numFiles := le (slice 4 4 header) in
  let stringTableSize := le (slice 8 4 header) in
  let! hashed := if magic =? PFS0 then ok false else if magic =? HFS0 then ok true else fail (Throw "Invalid filesystem magic") in
  let entrySize := if hashed then 0x40 else 0x18 in
  let stringTableOffset := 0x10 + numFiles * entrySize in
  let! table := Read_span b (Z.to_nat stringTableSize) stringTableOffset in
  let! m := entry_loop (Z.to_nat numFiles) b entrySize (numFiles * entrySize) (table ++ [0]) 0x10 ∅ in
  ok (mk_pfs hashed (stringTableOffset + stringTableSize) b m).

Inductive EntryType : Type := Directory_type | File_type.

Definition pfs_OpenFileImpl (path : list Z) (mode : BackingMode) (f : PartitionFileSystem) : M (option VfsBacking) :=
  match fileMap f !! path with
  | None => ok None
  | Some entry => let! r := RegionBacking (pfs_backing f) (u64 (fileDataOffset f + pe_offset entry)) (pe_size entry) mode in ok (Some r)
  end.

Definition pfs_GetEntryTypeImpl (path : list Z) (f : PartitionFileSystem) : option EntryType :=
  match fileMap f !! path with Some _ => Some File_type | None => None end.

Record Directory_Entry : Type := mk_dir_entry { de_name : list Z; de_type : EntryType; de_size : Z }.

(** The order of the list is that of the map's iteration. *)
Definition pfs_OpenDirectoryImpl (path : list Z) (f : PartitionFileSystem) : option (list Directory_Entry) :=
  match path with
  | [] => Some (map (fun '(name, e) => mk_dir_entry name File_type (pe_size e)) (map_to_list (fileMap f)))
  | _ => None
  end.

Definition pfs_Directory_Read (listFiles : bool) (fileList : list Directory_Entry) : list Directory_Entry := if listFiles then fileList else [].

(** ** The format of a partition file system *)

Record pfs_file : Type := mk_pfs_file { pf_name : list Z; pf_content : list Z; pf_hash : list Z }.

Definition entry_bytes (h : bool) (f : pfs_file) (offset name : nat) : list Z :=
  le_bytes 8 (Z.of_nat offset) ++ le_bytes 8 (Z.of_nat (length (pf_content f))) ++ le_bytes 4 (Z.of_nat name) ++ le_bytes 4 0 ++ (if h then pf_hash f else []).

(** The entries of files whose contents start at [offset] and whose names start at [name]. *)
Fixpoint entries_bytes (h : bool) (files : list pfs_file) (offset name : nat) : list Z :=
  match files with
  | [] => []
  | f :: files => entry_bytes h f offset name ++ entries_bytes h files (offset + length (pf_content f)) (name + length (pf_name f) + 1)
  end.

Definition names_bytes (files : list pfs_file) : list Z := flat_map (fun f => pf_name f ++ [0]) files.
Definition contents_bytes (files : list pfs_file) : list Z := flat_map pf_content files.

Definition pfs_image (h : bool) (files : list pfs_file) : list Z :=
  le_bytes 4 (if h then HFS0 else PFS0) ++ le_bytes 4 (Z.of_nat (length files)) ++ le_bytes 4 (Z.of_nat (length (names_bytes files))) ++ le_bytes 4 0 ++
  entries_bytes h files 0 0 ++ names_bytes files ++ contents_bytes files.

Record pfs_files_ok (h : bool) (files : list pfs_file) : Prop := {
  pfo_names : NoDup (map pf_name files);
  pfo_no_zero : Forall (fun f => Forall (fun c => c <> 0) (pf_name f)) files;
  pfo_hash : Forall (fun f => length (pf_hash f) = 0x28%nat) files;
  pfo_entries : Z.of_nat (length files) * (if h then 0x40 else 0x18) < 2 ^ 32 - 0x100;
  pfo_table : Z.of_nat (length (names_bytes files)) < 2 ^ 32;
  pfo_size : Z.of_nat (length (pfs_image h files)) < 2 ^ 64 }.

Definition entry_size (h : bool) : nat := if h then 0x40 else 0x18.

Lemma length_entry_bytes h f o s : length (pf_hash f) = 0x28%nat -> length (entry_bytes h f o s) = entry_size h.
Proof. intros Hh. unfold entry_bytes. rewrite !length_app, !length_le_bytes. destruct h; simpl; [rewrite Hh|]; done. Qed.

Lemma length_entries_bytes h files o s : Forall (fun f => length (pf_hash f) = 0x28%nat) files -> length (entries_bytes h files o s) = (length files * entry_size h)%nat.
Proof.
  intros Hh. revert o s. induction Hh as [|f files Hf _ IH]; intros o s; [done|]. cbn [entries_bytes length]. rewrite length_app, IH, length_entry_bytes by done. done.
Qed.

(** The map that the entries make. *)
Fixpoint entries_map (files : list pfs_file) (offset name : nat) (m : gmap (list Z) PartitionFileEntry) : gmap (list Z) PartitionFileEntry :=
  match files with
  | [] => m
  | f :: files =>
      entries_map files (offset + length (pf_content f)) (name + length (pf_name f) + 1)
        (map_emplace (pf_name f) (mk_pfs_entry (Z.of_nat offset) (Z.of_nat (length (pf_content f))) (Z.of_nat name)) m)
  end.

Lemma c_string_app name rest : Forall (fun c => c <> 0) name -> c_string (name ++ 0 :: rest) = name.
Proof. induction 1 as [|c name Hc _ IH]; [done|]. simpl. apply Z.eqb_neq in Hc. by rewrite Hc, IH. Qed.

Lemma slice_skip o n a b : (length a <= o)%nat -> slice o n (a ++ b) = slice (o - length a) n b.
Proof. intros. unfold slice. by rewrite drop_app_ge. Qed.

Lemma slice_here n a b : length a = n -> slice 0 n (a ++ b) = a.
Proof. intros <-. unfold slice. by rewrite drop_0, take_app_length. Qed.

(** A field of a structure that is a concatenation of numbers. *)
Ltac field := repeat (rewrite slice_skip by (rewrite ?length_le_bytes; lia); rewrite ?length_le_bytes; simpl Nat.sub); rewrite slice_here by (by rewrite ?length_le_bytes); rewrite le_le_bytes by lia.

Lemma read_entry_bytes b data h f o s pre post :
  backs b data -> data = pre ++ entry_bytes h f o s ++ post ->
  length (pf_hash f) = 0x28%nat ->
  Z.of_nat o < 2 ^ 64 -> Z.of_nat (length (pf_content f)) < 2 ^ 64 -> Z.of_nat s < 2 ^ 32 ->
  read_entry b (Z.of_nat (length pre)) = ok (mk_pfs_entry (Z.of_nat o) (Z.of_nat (length (pf_content f))) (Z.of_nat s)).
Proof.
  intros Hb Hd Hh Ho Hl Hs. unfold read_entry. rewrite (Read_object_backs b data); [|done|].
  - simpl bindM. rewrite !slice_slice, Hd by lia. rewrite !(slice_skip _ _ pre) by lia. rewrite !Nat.add_sub_swap, Nat.sub_diag by lia. simpl Nat.add.
    unfold entry_bytes. rewrite <- !app_assoc. do 2 f_equal; field; done.
  - rewrite Hd, !length_app, length_entry_bytes by done. destruct h; simpl; lia.
Qed.

Lemma entry_loop_spec b data h all files fuel pre post spre o m :
  backs b data -> data = pre ++ entries_bytes h files o (length spre) ++ post ->
  Forall (fun f => length (pf_hash f) = 0x28%nat) files -> Forall (fun f => Forall (fun c => c <> 0) (pf_name f)) files ->
  length pre = (0x10 + (all - length files) * entry_size h)%nat -> (length files <= all)%nat -> (length files <= fuel)%nat ->
  Z.of_nat (all * entry_size h) < 2 ^ 32 - 0x100 ->
  Z.of_nat (length (spre ++ names_bytes files)) < 2 ^ 32 -> Z.of_nat (o + length (contents_bytes files)) < 2 ^ 64 ->
  entry_loop fuel b (Z.of_nat (entry_size h)) (Z.of_nat (all * entry_size h)) ((spre ++ names_bytes files) ++ [0]) (Z.of_nat (length pre)) m =
    ok (entries_map files o (length spre) m).
Proof.
  intros Hb. revert fuel pre spre o m. induction files as [|f files IH]; intros fuel pre spre o m Hd Hh Hz Hp Hall Hfuel Ha Hs Ho.
  - assert (Hc : (Z.of_nat (length pre) <? Z.of_nat (all * entry_size h)) = false) by (apply Z.ltb_ge; rewrite Hp; simpl; lia).
    destruct fuel; simpl; by rewrite Hc.
  - assert (He : (0x18 <= entry_size h <= 0x40)%nat) by (destruct h; simpl; lia). simpl in Hall, Hfuel.
    destruct fuel as [|fuel]; [lia|]. cbn [entry_loop entries_map].
    assert (Hc : (Z.of_nat (length pre) <? Z.of_nat (all * entry_size h)) = true) by (apply Z.ltb_lt; rewrite Hp; cbn [length]; nia).
    rewrite Hc. simpl negb. cbn iota.
    inversion_clear Hh as [|? ? Hh1 Hh2]. inversion_clear Hz as [|? ? Hz1 Hz2].
    cbn [entries_bytes] in Hd. rewrite <- app_assoc in Hd.
    cbn [names_bytes contents_bytes flat_map] in Hs, Ho |- *. rewrite !length_app in Hs. rewrite length_app in Ho. simpl length in Hs.
    rewrite (read_entry_bytes b data h f o (length spre) pre _ Hb Hd) by (done || lia). cbn [bindM ok pe_stringTableOffset].
    match goal with |- context [Z.of_nat (length ?t) <=? Z.of_nat (length spre)] => destruct (Z.leb_spec (Z.of_nat (length t)) (Z.of_nat (length spre))) as [Hle|_] end.
    { rewrite !length_app in Hle. simpl in Hle. lia. }
    rewrite Nat2Z.id. replace (drop (length spre) _) with (pf_name f ++ 0 :: names_bytes files ++ [0]).
    2:{ rewrite <- !app_assoc, drop_app_length. done. }
    rewrite c_string_app by done.
    assert (Hpre : Z.of_nat (length (pre ++ entry_bytes h f o (length spre))) = u32 (Z.of_nat (length pre) + Z.of_nat (entry_size h))).
    { rewrite length_app, length_entry_bytes, wrap_small by (done || rewrite Hp; cbn [length]; nia). lia. }
    rewrite <- Hpre. specialize (IH fuel (pre ++ entry_bytes h f o (length spre)) (spre ++ pf_name f ++ [0]) (o + length (pf_content f))%nat).
    assert (Hsl : length (spre ++ pf_name f ++ [0]) = (length spre + length (pf_name f) + 1)%nat) by (rewrite !length_app; simpl; lia).
    rewrite Hsl in IH. rewrite <- IH; [|by rewrite <- app_assoc|done|done| |lia|lia|done| |unfold contents_bytes; lia].
    + f_equal. rewrite <- !app_assoc. done.
    + rewrite length_app, length_entry_bytes, Hp by done. cbn [length]. nia.
    + rewrite length_app, Hsl. unfold names_bytes. lia.
Qed.

(** ** The files of a partition file system *)

Lemma emplace_other {V} k k' (v : V) m : k <> k' -> map_emplace k v m !! k' = m !! k'.
Proof. intros. unfold map_emplace. destruct (m !! k); [done|]. by rewrite lookup_insert_ne. Qed.

Lemma entries_map_other files o s m name : ~ In name (map pf_name files) -> entries_map files o s m !! name = m !! name.
Proof.
  revert o s m. induction files as [|f files IH]; intros o s m Hn; [done|]. simpl in *. rewrite IH by tauto. apply emplace_other. tauto.
Qed.

Lemma entries_map_file before f after o s m : NoDup (map pf_name (before ++ f :: after)) -> m !! pf_name f = None ->
  entries_map (before ++ f :: after) o s m !! pf_name f =
    Some (mk_pfs_entry (Z.of_nat (o + length (contents_bytes before))) (Z.of_nat (length (pf_content f))) (Z.of_nat (s + length (names_bytes before)))).
Proof.
  revert o s m. induction before as [|g before IH]; intros o s m Hn Hm.
  - simpl. rewrite entries_map_other.
    + unfold map_emplace. rewrite Hm, lookup_insert_eq, !Nat.add_0_r. done.
    + simpl in Hn. apply NoDup_cons in Hn as [Hn _]. by rewrite <- list_elem_of_In.
  - simpl in Hn. apply NoDup_cons in Hn as [Hg Hn]. cbn [app entries_map]. rewrite IH; [|done|].
    + do 2 f_equal; cbn [contents_bytes names_bytes flat_map]; rewrite !length_app; unfold contents_bytes, names_bytes; simpl; lia.
    + rewrite emplace_other; [done|]. intros E. apply Hg. rewrite E, list_elem_of_In. apply in_map, in_app_iff. right. by left.
Qed.

Lemma pfs_entry_size (h : bool) : (if h then 0x40 else 0x18) = Z.of_nat (entry_size h).
Proof. by destruct h. Qed.

Lemma PartitionFileSystem_reads b h files : backs b (pfs_image h files) -> pfs_files_ok h files ->
  PartitionFileSystem_new b =
    ok (mk_pfs h (Z.of_nat (0x10 + length files * entry_size h + length (names_bytes files))) b (entries_map files 0 0 ∅)).
Proof.
  intros Hb [Hn Hz Hh He Ht Hs]. rewrite pfs_entry_size in He. unfold PartitionFileSystem_new.
  assert (Hle : (0x18 <= entry_size h)%nat) by (destruct h; simpl; lia).
  assert (Hlen : length (pfs_image h files) = (0x10 + length files * entry_size h + length (names_bytes files) + length (contents_bytes files))%nat).
  { unfold pfs_image. rewrite !length_app, !length_le_bytes, length_entries_bytes by done. lia. }
  change 0 with (Z.of_nat 0) at 1. rewrite (Read_object_backs b _ _ _ Hb) by lia. cbn [bindM ok]. rewrite !slice_slice by lia. simpl Nat.add.
  set (image := pfs_image h files) in *. 
  assert (Hf : Z.of_nat (length files) < 2 ^ 32) by nia.
  replace (le (slice 0 4 image)) with (if h then HFS0 else PFS0) by (subst image; unfold pfs_image, HFS0, PFS0; destruct h; field; done).
  replace (le (slice 4 4 image)) with (Z.of_nat (length files)) by (subst image; unfold pfs_image; field; done).
  replace (le (slice 8 4 image)) with (Z.of_nat (length (names_bytes files))) by (subst image; unfold pfs_image; field; done).
  assert (Em : (if (if h then HFS0 else PFS0) =? PFS0 then ok false else if (if h then HFS0 else PFS0) =? HFS0 then ok true else fail (Throw "Invalid filesystem magic")) = ok h)
    by by destruct h.
  rewrite Em. cbn [bindM ok]. rewrite !pfs_entry_size, !Nat2Z.id.
  replace (0x10 + Z.of_nat (length files) * Z.of_nat (entry_size h)) with (Z.of_nat (0x10 + length files * entry_size h)) by lia.
  rewrite (Read_span_backs b image _ _ Hb) by lia. cbn [bindM ok].
  set (hd := le_bytes 4 (if h then HFS0 else PFS0) ++ le_bytes 4 (Z.of_nat (length files)) ++ le_bytes 4 (Z.of_nat (length (names_bytes files))) ++ le_bytes 4 0).
  assert (Hhd : length hd = 0x10%nat) by (subst hd; by rewrite !length_app, !length_le_bytes).
  assert (Himg : image = hd ++ entries_bytes h files 0 0 ++ names_bytes files ++ contents_bytes files) by (subst image hd; unfold pfs_image; by rewrite <- !app_assoc).
  replace (slice (0x10 + length files * entry_size h) (length (names_bytes files)) image) with (names_bytes files).
  2:{ rewrite Himg, slice_skip, Hhd, slice_skip, length_entries_bytes by (rewrite ?length_entries_bytes; done || lia).
      match goal with |- context [slice ?o _ _] => replace o with 0%nat by lia end. by rewrite slice_here. }
  replace (Z.of_nat (length files) * Z.of_nat (entry_size h)) with (Z.of_nat (length files * entry_size h)) by lia.
  pose proof (entry_loop_spec b image h (length files) files (length files) hd _ [] 0 ∅ Hb Himg Hh Hz) as HE.
  rewrite Hhd in HE. change 0x10 with (Z.of_nat 0x10). simpl app in HE. rewrite HE; try lia.
  cbn [bindM ok]. do 2 f_equal. lia.
Qed.

(** C17: A partition file system, plain or hashed, gives back the files it was made of.  For every image
    that lays out files with distinct names in the format, on any backing that keeps its contract, the
    constructor reads the image without a fault; opening a name gives a backing that keeps the contract
    for the contents of that file, and opening any other name gives no file. *)
Theorem pfs_roundtrip b h files : backs b (pfs_image h files) -> pfs_files_ok h files ->
  exists fs, PartitionFileSystem_new b = ok fs /\
    (forall f, In f files -> exists r, pfs_OpenFileImpl (pf_name f) read_only fs = ok (Some r) /\ backs r (pf_content f)) /\
    (forall name, ~ In name (map pf_name files) -> pfs_OpenFileImpl name read_only fs = ok None).
Proof.
  intros Hb Hok. rewrite (PartitionFileSystem_reads b h files Hb Hok). eexists. split; [done|]. destruct Hok as [Hn _ Hh _ _ Hs]. split.
  - intros f Hf. apply in_split in Hf as (before & after & ->). unfold pfs_OpenFileImpl. cbn [fileMap fileDataOffset pfs_backing].
    rewrite entries_map_file by done. cbn [pe_offset pe_size].
    set (files := before ++ f :: after) in *. set (image := pfs_image h files) in *.
    set (o := (0x10 + length files * entry_size h + length (names_bytes files) + length (contents_bytes before))%nat).
    assert (Himg : exists a c, image = a ++ pf_content f ++ c /\ length a = o).
    { exists (take 0x10 image ++ entries_bytes h files 0 0 ++ names_bytes files ++ contents_bytes before), (contents_bytes after).
      subst image o. unfold pfs_image. simpl. split.
      - rewrite <- !app_assoc. do 3 f_equal. subst files. unfold contents_bytes. by rewrite flat_map_app.
      - rewrite !length_app, length_entries_bytes by done. lia. }
    destruct Himg as (a & c & Himg & Ha).
    assert (Hlen : (o + length (pf_content f) <= length image)%nat) by (rewrite Himg, !length_app, <- Ha; lia).
    destruct (region_backs b image o (length (pf_content f)) Hb Hlen Hs) as (r & Er & Hr).
    rewrite Himg, <- Ha, slice_app in Hr.
    exists r. split; [|done]. rewrite wrap_small by lia.
    replace (Z.of_nat (0x10 + length files * entry_size h + length (names_bytes files)) + Z.of_nat (0 + length (contents_bytes before))) with (Z.of_nat o) by lia.
    rewrite Er. done.
  - intros name Hname. unfold pfs_OpenFileImpl. cbn [fileMap]. by rewrite entries_map_other.
Qed.

(** Two files of a hashed file system. *)
Definition sample_files : list pfs_file :=
  [mk_pfs_file [0x61; 0x2E; 0x6E; 0x63; 0x61] [1; 2; 3] (replicate 0x28 9); mk_pfs_file [0x62] [] (replicate 0x28 7)].

Lemma pfs_roundtrip_witness :
  exists fs, PartitionFileSystem_new (memory_backing (pfs_image true sample_files)) = ok fs /\
    (forall f, In f sample_files -> exists r, pfs_OpenFileImpl (pf_name f) read_only fs = ok (Some r) /\ backs r (pf_content f)) /\
    (forall name, ~ In name (map pf_name sample_files) -> pfs_OpenFileImpl name read_only fs = ok None).
Proof.
  apply (pfs_roundtrip (memory_backing (pfs_image true sample_files)) true sample_files); [apply memory_backs|].
  split; [apply (bool_decide_unpack _); vm_compute; done|repeat constructor; done|repeat constructor; done|vm_compute; done..].
Defined.
