(* ===== verification/VfsCrypto.v ===== *)
(** * Encrypted backings ([vfs/ctr_encrypted_backing.cpp], [crypto/aes_cipher.cpp])

    The sections of an archive are encrypted with AES in counter mode.  The backing decrypts what is read
    at any offset.  The cipher is a library: [keystream] gives the block it makes of a counter, and in
    counter mode an update of at most a block combines the bytes with the block of the current counter
    and counts on. *)

From S2P Require Import Prelude.
From S2P Require Import Vfs.

Section cipher.
(** The block that the library makes of a counter under the key. *)
Context (keystream : Z -> list Z).

Definition cipher_update (counter : Z) (source : list Z) : list Z := zip_with Z.lxor source (keystream counter).

(** [AesCipher::Decrypt] in counter mode, after [SetIV]: the loop over blocks. *)
Fixpoint decrypt_loop (fuel : nat) (counter : Z) (source : list Z) : list Z :=
  match fuel, source with
  | O, _ | _, [] => []
  | S fuel, _ => cipher_update counter (take 16 source) ++ decrypt_loop fuel ((counter + 1) mod 2 ^ 128) (drop 16 source)
  end.

Definition Decrypt_ctr (iv : Z) (source : list Z) : list Z := decrypt_loop (length source) iv source.

Record CtrEncryptedBacking : Type := mk_ctr { ctr_high : Z; ctr_backing : VfsBacking; ctr_baseOffset : Z }.

Definition SectorSize : nat := 0x10.

(** The counter that [UpdateCtr] sets: its upper eight bytes stay, the lower are the number of the
    sector, the most significant byte first. *)
Definition UpdateCtr (offset : Z) (c : CtrEncryptedBacking) : Z := ctr_high c * 2 ^ 64 + Z.shiftr offset 4.

(** The part of [ReadImpl] for an offset at the start of a sector. *)
Definition read_aligned (c : CtrEncryptedBacking) (n : nat) (offset : Z) : list Z :=
  let read := ReadUnchecked (ctr_backing c) n offset in
  if (length read =? n)%nat then Decrypt_ctr (UpdateCtr (u64 (ctr_baseOffset c + offset)) c) read else [].

(** The call of itself is for an offset at the start of a sector, so it is the last. *)
Fixpoint ctr_ReadImpl (fuel : nat) (c : CtrEncryptedBacking) (n : nat) (offset : Z) : list Z :=
  match fuel, n with
  | O, _ | _, O => []
  | S fuel, _ =>
      let sectorOffset := Z.to_nat (offset mod 16) in
      if (sectorOffset =? 0)%nat then read_aligned c n offset
      else
        let sectorStart := offset - Z.of_nat sectorOffset in
        let blockBuf := ReadUnchecked (ctr_backing c) SectorSize sectorStart in
        if negb (length blockBuf =? SectorSize)%nat then []
        else
          let blockBuf := Decrypt_ctr (UpdateCtr (u64 (ctr_baseOffset c + sectorStart)) c) blockBuf in
          if (n + sectorOffset <? SectorSize)%nat then slice sectorOffset n blockBuf
          else
            let readInBlock := (SectorSize - sectorOffset)%nat in
            slice sectorOffset readInBlock blockBuf ++ ctr_ReadImpl fuel c (n - readInBlock) (u64 (offset + Z.of_nat readInBlock))
  end.

Definition CtrEncryptedBacking_new (high : Z) (b : VfsBacking) (baseOffset : Z) : VfsBacking :=
  mk_vfs_backing (vb_size b) (ctr_ReadImpl 2 (mk_ctr high b baseOffset)).

(** ** Decryption byte by byte *)

Context (keystream_length : forall c, length (keystream c) = 16%nat).

Definition pad (iv : Z) (i : nat) : Z := nth (i mod 16) (keystream (iv + Z.of_nat (i / 16))) 0.

Lemma pad_shift iv k i : pad iv (16 * k + i) = pad (iv + Z.of_nat k) i.
Proof.
  unfold pad. rewrite (Nat.add_comm (16 * k)), (Nat.mul_comm 16), Nat.Div0.mod_add, Nat.div_add by lia.
  by replace (iv + Z.of_nat k + Z.of_nat (i / 16)) with (iv + Z.of_nat (i / 16 + k)) by lia.
Qed.

Lemma decrypt_loop_nil fuel iv : decrypt_loop fuel iv [] = [].
Proof. by destruct fuel. Qed.

Lemma decrypt_loop_lookup fuel iv source i : (length source <= fuel)%nat -> 0 <= iv -> iv + Z.of_nat (length source) < 2 ^ 128 ->
  decrypt_loop fuel iv source !! i = (fun c => Z.lxor c (pad iv i)) <$> source !! i.
Proof.
  revert iv source i. induction fuel as [|fuel IH]; intros iv source i Hf Hiv Hb.
  { destruct source; [done|simpl in Hf; lia]. }
  destruct source as [|x source]; [done|]. cbn [decrypt_loop]. set (l := x :: source) in *.
  assert (Hl : length (cipher_update iv (take 16 l)) = Nat.min 16 (length l)).
  { unfold cipher_update. rewrite length_zip_with, length_take, keystream_length. lia. }
  assert (0 < length l)%nat by (subst l; simpl; lia).
  destruct (decide (i < 16)%nat) as [Hi|Hi].
  - unfold pad. rewrite Nat.mod_small, Nat.div_small, Z.add_0_r by lia. destruct (decide (i < length l)%nat) as [Hil|Hil].
    + rewrite lookup_app_l by lia. unfold cipher_update. rewrite lookup_zip_with, lookup_take_lt by lia.
      destruct (lookup_lt_is_Some_2 (keystream iv) i) as [k Ek]; [rewrite keystream_length; lia|].
      rewrite Ek. erewrite (nth_lookup_Some (keystream iv)) by done. by destruct (l !! i).
    + rewrite (lookup_ge_None_2 l) by lia. apply lookup_ge_None_2. rewrite length_app, Hl, drop_ge, decrypt_loop_nil by lia. cbn [length]. lia.
  - destruct (decide (16 <= length l)%nat).
    + rewrite lookup_app_r by lia. rewrite Hl, Nat.min_l by lia. rewrite Z.mod_small by lia.
      rewrite IH by (rewrite ?length_drop; lia). rewrite lookup_drop. replace (16 + (i - 16))%nat with i by lia. f_equal.
      change (iv + 1) with (iv + Z.of_nat 1). rewrite <- pad_shift. by replace (16 * 1 + (i - 16))%nat with i by lia.
    + rewrite (lookup_ge_None_2 l) by lia. apply lookup_ge_None_2. rewrite length_app, Hl, drop_ge, decrypt_loop_nil by lia. cbn [length]. lia.
Qed.

Lemma Decrypt_lookup iv source i : 0 <= iv -> iv + Z.of_nat (length source) < 2 ^ 128 ->
  Decrypt_ctr iv source !! i = (fun c => Z.lxor c (pad iv i)) <$> source !! i.
Proof. intros. by apply decrypt_loop_lookup. Qed.

Lemma length_Decrypt iv source : 0 <= iv -> iv + Z.of_nat (length source) < 2 ^ 128 -> length (Decrypt_ctr iv source) = length source.
Proof.
  intros Hiv Hb. destruct (Nat.lt_trichotomy (length (Decrypt_ctr iv source)) (length source)) as [Hl|[Hl|Hl]]; [|done|].
  - destruct (lookup_lt_is_Some_2 source _ Hl) as [c Ec]. pose proof (Decrypt_lookup iv source (length (Decrypt_ctr iv source)) Hiv Hb) as H.
    rewrite Ec, lookup_ge_None_2 in H by lia. done.
  - destruct (lookup_lt_is_Some_2 (Decrypt_ctr iv source) _ Hl) as [c Ec]. pose proof (Decrypt_lookup iv source (length source) Hiv Hb) as H.
    rewrite Ec, lookup_ge_None_2 in H by lia. done.
Qed.

(** Decrypting a slice that starts at a sector is the slice of what is decrypted from the start. *)
Lemma Decrypt_slice iv source k n : 0 <= iv -> iv + Z.of_nat (length source) < 2 ^ 128 ->
  Decrypt_ctr (iv + Z.of_nat k) (slice (16 * k) n source) = slice (16 * k) n (Decrypt_ctr iv source).
Proof.
  intros Hiv Hb. assert (Hs : (16 * k <= length source)%nat \/ slice (16 * k) n source = []).
  { destruct (decide (16 * k <= length source)%nat); [by left|right]. unfold slice. rewrite drop_ge by lia. apply take_nil. }
  destruct Hs as [Hs|Hs].
  - apply list_eq. intros i. rewrite Decrypt_lookup by (unfold slice; rewrite ?length_take, ?length_drop; lia).
    unfold slice. rewrite !lookup_take, !lookup_drop. case_decide; [|done]. rewrite Decrypt_lookup by done. by rewrite pad_shift.
  - rewrite Hs. unfold slice in *. symmetry. apply length_zero_iff_nil. rewrite length_take, length_drop, length_Decrypt by done.
    apply (f_equal length) in Hs. rewrite length_take, length_drop in Hs. simpl in Hs. lia.
Qed.

(** ** The decrypted backing *)

Section reads.
Context (high baseOffset : Z) (b : VfsBacking) (cipher : list Z).
Context (Hb : backs b cipher) (Hsec : (length cipher mod 16 = 0)%nat) (H0 : 0 <= baseOffset).
Context (Hlen : baseOffset + Z.of_nat (length cipher) < 2 ^ 64) (Hhigh : 0 <= high < 2 ^ 64).

Let c : CtrEncryptedBacking := mk_ctr high b baseOffset.
Let iv : Z := UpdateCtr baseOffset c.
Let plain : list Z := Decrypt_ctr iv cipher.

Lemma iv_bound : 0 <= iv /\ iv + Z.of_nat (length cipher) < 2 ^ 128.
Proof.
  subst iv. unfold UpdateCtr. simpl. rewrite Z.shiftr_div_pow2 by lia. pose proof (Z.div_pos baseOffset (2 ^ 4) ltac:(lia) ltac:(lia)).
  pose proof (Z.div_mod baseOffset (2 ^ 4) ltac:(lia)). pose proof (Z.mod_pos_bound baseOffset (2 ^ 4) ltac:(lia)). split; lia.
Qed.

Lemma UpdateCtr_sector k : (16 * k <= length cipher)%nat -> UpdateCtr (u64 (baseOffset + Z.of_nat (16 * k))) c = iv + Z.of_nat k.
Proof.
  intros Hk. subst iv. unfold UpdateCtr. rewrite wrap_small, !Z.shiftr_div_pow2 by lia.
  replace (baseOffset + Z.of_nat (16 * k)) with (baseOffset + Z.of_nat k * 2 ^ 4) by lia. rewrite Z.div_add by lia. lia.
Qed.

Lemma read_aligned_spec k n : (16 * k + n <= length cipher)%nat -> read_aligned c n (Z.of_nat (16 * k)) = slice (16 * k) n plain.
Proof.
  intros Hk. unfold read_aligned, ReadUnchecked. cbn [ctr_backing ctr_baseOffset c]. rewrite (backs_read _ _ Hb), length_slice, Nat.eqb_refl by done.
  rewrite UpdateCtr_sector by lia. apply Decrypt_slice; apply iv_bound.
Qed.

Lemma slice_split o m n l : (o + m <= length l)%nat -> slice o (m + n) l = slice o m l ++ slice (o + m) n l.
Proof.
  intros. unfold slice. rewrite <- drop_drop. rewrite <- (take_drop m (drop o l)) at 1. rewrite take_app_ge by (rewrite length_take, length_drop; lia).
  f_equal. f_equal. rewrite length_take, length_drop. lia.
Qed.

Lemma ctr_reads_sector fuel k n : (16 * k + n <= length cipher)%nat -> ctr_ReadImpl (S fuel) c n (Z.of_nat (16 * k)) = slice (16 * k) n plain.
Proof.
  intros Hk. destruct n as [|n]; [done|]. cbn [ctr_ReadImpl]. replace (Z.of_nat (16 * k) mod 16) with 0.
  - by apply read_aligned_spec.
  - rewrite Nat2Z.inj_mul, Z.mul_comm, Z.mod_mul by lia. done.
Qed.

Lemma ctr_reads fuel n o : (o + n <= length cipher)%nat -> ctr_ReadImpl (S (S fuel)) c n (Z.of_nat o) = slice o n plain.
Proof.
  intros Ho. destruct n as [|n]; [done|]. remember (S fuel) as g eqn:Eg. cbn [ctr_ReadImpl]. set (m := S n) in *.
  assert (Hp : length plain = length cipher) by (apply length_Decrypt; apply iv_bound).
  pose proof (Nat.div_mod_eq o 16) as Hdm. set (k := (o / 16)%nat) in *.
  assert (Hso : Z.to_nat (Z.of_nat o mod 16) = (o mod 16)%nat) by (change 16 with (Z.of_nat 16); rewrite <- Nat2Z.inj_mod; lia).
  rewrite Hso. pose proof (Nat.mod_upper_bound o 16 ltac:(lia)) as Hs. set (s := (o mod 16)%nat) in *.
  destruct (Nat.eqb_spec s 0) as [Es|Es].
  - replace o with (16 * k)%nat by lia. apply read_aligned_spec. lia.
  - assert (Hk : (16 * k + 16 <= length cipher)%nat).
    { pose proof (Nat.div_mod_eq (length cipher) 16) as Hlc. rewrite Hsec in Hlc. lia. }
    replace (Z.of_nat o - Z.of_nat s) with (Z.of_nat (16 * k)) by lia. unfold ReadUnchecked. cbn [ctr_backing ctr_baseOffset c]. unfold SectorSize.
    rewrite (backs_read _ _ Hb), length_slice by lia. simpl negb. cbn iota.
    rewrite UpdateCtr_sector, Decrypt_slice by (lia || apply iv_bound). fold plain.
    destruct (Nat.ltb_spec (m + s) 16).
    + rewrite slice_slice by lia. f_equal. lia.
    + rewrite slice_slice by lia. rewrite wrap_small by lia.
      replace (Z.of_nat o + Z.of_nat (16 - s)) with (Z.of_nat (16 * (k + 1))) by lia.
      replace (16 * k + s)%nat with o by lia. replace m with ((16 - s) + (m - (16 - s)))%nat at 2 by lia.
      rewrite slice_split by lia. f_equal. subst g. rewrite ctr_reads_sector by lia. f_equal. lia.
Qed.

Lemma ctr_backs : backs (CtrEncryptedBacking_new high b baseOffset) plain.
Proof.
  assert (Hp : length plain = length cipher) by (apply length_Decrypt; apply iv_bound).
  split; cbn [vb_size vb_ReadImpl CtrEncryptedBacking_new]; rewrite Hp; [apply Hb|]. intros n o Ho. by apply (ctr_reads 0).
Qed.

End reads.

(** C16: An encrypted backing gives access to the plain bytes at any offset.  When the encrypted backing
    keeps its contract for whole sectors, the decrypting backing keeps the contract for the bytes that decrypting the section from its start would give: reads that
    begin or end inside of a sector are decrypted with the counter of that sector. *)
Theorem ctr_backing_decrypts high baseOffset b cipher :
  backs b cipher -> (length cipher mod 16 = 0)%nat -> 0 <= baseOffset ->
  baseOffset + Z.of_nat (length cipher) < 2 ^ 64 -> 0 <= high < 2 ^ 64 ->
  backs (CtrEncryptedBacking_new high b baseOffset)
    (Decrypt_ctr (UpdateCtr baseOffset (mk_ctr high b baseOffset)) cipher).
Proof. intros. by apply ctr_backs. Qed.

End cipher.

(** A cipher whose blocks are the bytes of the counter. *)
Definition counter_bytes (c : Z) : list Z := le_bytes 16 c.

Lemma ctr_backing_decrypts_witness :
  backs (CtrEncryptedBacking_new counter_bytes 3 (memory_backing (replicate 48 5)) 0x20)
    (Decrypt_ctr counter_bytes (UpdateCtr 0x20 (mk_ctr 3 (memory_backing (replicate 48 5)) 0x20)) (replicate 48 5)).
Proof.
  apply (ctr_backing_decrypts counter_bytes (length_le_bytes 16) 3 0x20 (memory_backing (replicate 48 5)) (replicate 48 5));
    [apply memory_backs|reflexivity|lia|simpl; lia|lia].
Defined.

(** A read inside of the last sector of a section that does not end with a sector gives nothing. *)
Lemma ctr_last_sector_lost :
  vb_ReadImpl (CtrEncryptedBacking_new counter_bytes 0 (memory_backing (replicate 20 5)) 0) 2 17 = [].
Proof. reflexivity. Qed.
