(* ===== verification/RomFs.v ===== *)
(** * Read-only file systems ([vfs/rom_filesystem.cpp])

    An image has a table of directories and one of files, whose entries are linked by offsets: a
    directory to its first child, its first file and its next sibling, a file to its next sibling.  The
    constructor walks the links and maps paths to entries. *)

From S2P Require Import Prelude.
From S2P Require Import Vfs.

Record RomFsHeader : Type := mk_romfs_header { dirMetaTableOffset : Z; fileMetaTableOffset : Z; rh_dataOffset : Z }.

Record RomFsDirectoryEntry : Type := mk_rom_directory {
  rd_parentOffset : Z; rd_siblingOffset : Z; rd_childOffset : Z; rd_fileOffset : Z; rd_hash : Z; rd_nameSize : Z }.

Record RomFsFileEntry : Type := mk_rom_file {
  rf_parentOffset : Z; rf_siblingOffset : Z; rf_offset : Z; rf_size : Z; rf_hash : Z; rf_nameSize : Z }.

Definition RomFsEmptyEntry : Z := 0xFFFFFFFF.

Definition read_romfs_header (b : VfsBacking) : M RomFsHeader :=
  let! h := Read_object b 0x50 0 in
  ok (mk_romfs_header (le (slice 0x18 8 h)) (le (slice 0x38 8 h)) (le (slice 0x48 8 h))).

Definition directory_of_bytes (e : list Z) : RomFsDirectoryEntry :=
  mk_rom_directory (le (slice 0 4 e)) (le (slice 4 4 e)) (le (slice 8 4 e)) (le (slice 0xC 4 e)) (le (slice 0x10 4 e)) (le (slice 0x14 4 e)).

Definition file_of_bytes (e : list Z) : RomFsFileEntry :=
  mk_rom_file (le (slice 0 4 e)) (le (slice 4 4 e)) (le (slice 8 8 e)) (le (slice 0x10 8 e)) (le (slice 0x18 4 e)) (le (slice 0x1C 4 e)).

Section image.
Context (b : VfsBacking) (header : RomFsHeader).

Definition read_directory (offset : Z) : M RomFsDirectoryEntry :=
  let! e := Read_object b 0x18 (u64 (dirMetaTableOffset header + offset)) in ok (directory_of_bytes e).
Definition read_directory_name (offset : Z) (e : RomFsDirectoryEntry) : M (list Z) :=
  Read_span b (Z.to_nat (rd_nameSize e)) (u64 (dirMetaTableOffset header + offset + 0x18)).
Definition read_file (offset : Z) : M RomFsFileEntry :=
  let! e := Read_object b 0x20 (u64 (fileMetaTableOffset header + offset)) in ok (file_of_bytes e).
Definition read_file_name (offset : Z) (e : RomFsFileEntry) : M (list Z) :=
  Read_span b (Z.to_nat (rf_nameSize e)) (u64 (fileMetaTableOffset header + offset + 0x20)).

(** [path + (path.empty() ? "" : "/") + name]. *)
Definition join (path name : list Z) : list Z := path ++ (match path with [] => [] | _ => [0x2F] end) ++ name.

Fixpoint TraverseFiles (fuel : nat) (offset : Z) (path : list Z) (m : gmap (list Z) RomFsFileEntry) : M (gmap (list Z) RomFsFileEntry) :=
  match fuel with
  | O => fail (Suspended "files")
  | S fuel =>
      let! entry := read_file offset in
      let! m :=
        if rf_nameSize entry =? 0 then ok m
        else let! name := read_file_name offset entry in ok (map_emplace (join path name) entry m) in
      if rf_siblingOffset entry =? RomFsEmptyEntry then ok m else TraverseFiles fuel (rf_siblingOffset entry) path m
  end.

Abbreviation rom_maps := (gmap (list Z) RomFsFileEntry * gmap (list Z) RomFsDirectoryEntry)%type.

Fixpoint TraverseDirectory (fuel : nat) (offset : Z) (path : list Z) (m : rom_maps) : M rom_maps :=
  match fuel with
  | O => fail (Suspended "directories")
  | S fuel =>
      let! entry := read_directory offset in
      let! childPath :=
        if rd_nameSize entry =? 0 then ok path
        else let! name := read_directory_name offset entry in ok (join path name) in
      let m := (m.1, map_emplace childPath entry m.2) in
      let! m :=
        if rd_fileOffset entry =? RomFsEmptyEntry then ok m
        else let! f := TraverseFiles (S fuel) (rd_fileOffset entry) childPath m.1 in ok (f, m.2) in
      let! m := if rd_childOffset entry =? RomFsEmptyEntry then ok m else TraverseDirectory fuel (rd_childOffset entry) childPath m in
      if rd_siblingOffset entry =? RomFsEmptyEntry then ok m else TraverseDirectory fuel (rd_siblingOffset entry) path m
  end.

End image.

Record RomFileSystem : Type := mk_romfs {
  rom_backing : VfsBacking; rom_header : RomFsHeader;
  rom_fileMap : gmap (list Z) RomFsFileEntry; rom_directoryMap : gmap (list Z) RomFsDirectoryEntry }.

(** An image whose links form a cycle is walked for ever; the fuel bounds the number of its entries. *)
Definition RomFileSystem_new (fuel : nat) (b : VfsBacking) : M RomFileSystem :=
  let! header := read_romfs_header b in
  let! m := TraverseDirectory b header fuel 0 [] (∅, ∅) in
  ok (mk_romfs b header m.1 m.2).

Definition rom_OpenFileImpl (path : list Z) (mode : BackingMode) (f : RomFileSystem) : M (option VfsBacking) :=
  match rom_fileMap f !! path with
  | None => ok None
  | Some entry => let! r := RegionBacking (rom_backing f) (u64 (rh_dataOffset (rom_header f) + rf_offset entry)) (rf_size entry) mode in ok (Some r)
  end.

Definition rom_GetEntryTypeImpl (path : list Z) (f : RomFileSystem) : option EntryType :=
  match rom_fileMap f !! path with
  | Some _ => Some File_type
  | None => match rom_directoryMap f !! path with Some _ => Some Directory_type | None => None end
  end.

Record RomFileSystemDirectory : Type := mk_rom_dir { rdir_backing : VfsBacking; rdir_header : RomFsHeader; ownEntry : RomFsDirectoryEntry; list_directories : bool; list_files : bool }.

Definition rom_OpenDirectoryImpl (path : list Z) (directories files : bool) (f : RomFileSystem) : option RomFileSystemDirectory :=
  match rom_directoryMap f !! path with
  | None => None
  | Some entry => Some (mk_rom_dir (rom_backing f) (rom_header f) entry directories files)
  end.

Fixpoint list_files_from (fuel : nat) (b : VfsBacking) (header : RomFsHeader) (offset : Z) (contents : list Directory_Entry) : M (list Directory_Entry) :=
  match fuel with
  | O => fail (Suspended "files")
  | S fuel =>
      let! entry := read_file b header offset in
      let! contents :=
        if rf_nameSize entry =? 0 then ok contents
        else let! name := read_file_name b header offset entry in ok (contents ++ [mk_dir_entry name File_type (rf_size entry)]) in
      if rf_siblingOffset entry =? RomFsEmptyEntry then ok contents else list_files_from fuel b header (rf_siblingOffset entry) contents
  end.

Fixpoint list_directories_from (fuel : nat) (b : VfsBacking) (header : RomFsHeader) (offset : Z) (contents : list Directory_Entry) : M (list Directory_Entry) :=
  match fuel with
  | O => fail (Suspended "directories")
  | S fuel =>
      let! entry := read_directory b header offset in
      let! contents :=
        if rd_nameSize entry =? 0 then ok contents
        else let! name := read_directory_name b header offset entry in ok (contents ++ [mk_dir_entry name Directory_type 0]) in
      if rd_siblingOffset entry =? RomFsEmptyEntry then ok contents else list_directories_from fuel b header (rd_siblingOffset entry) contents
  end.

(** Both loops read the first entry before they test its offset. *)
Definition RomFileSystemDirectory_Read (fuel : nat) (d : RomFileSystemDirectory) : M (list Directory_Entry) :=
  let! contents := if list_files d then list_files_from fuel (rdir_backing d) (rdir_header d) (rd_fileOffset (ownEntry d)) [] else ok [] in
  if list_directories d then list_directories_from fuel (rdir_backing d) (rdir_header d) (rd_childOffset (ownEntry d)) contents else ok contents.

(** ** The format *)

Record file_node : Type := mk_file_node { fn_name : list Z; fn_entry : RomFsFileEntry }.
Inductive dir_node : Type := mk_dir_node (name : list Z) (entry : RomFsDirectoryEntry) (files : list file_node) (children : list dir_node).

Section format.
Context (data : list Z) (header : RomFsHeader).

(** A field of the image, which lies in it. *)
Definition has (o : Z) (bytes : list Z) : Prop :=
  0 <= o /\ (Z.to_nat o + length bytes <= length data)%nat /\ slice (Z.to_nat o) (length bytes) data = bytes.

(** An entry at an offset of a table, with its name behind it. *)
Definition file_at (offset : Z) (f : file_node) : Prop :=
  exists bytes, length bytes = 0x20%nat /\ has (fileMetaTableOffset header + offset) bytes /\ file_of_bytes bytes = fn_entry f /\
    rf_nameSize (fn_entry f) = Z.of_nat (length (fn_name f)) /\ fn_name f <> [] /\ has (fileMetaTableOffset header + offset + 0x20) (fn_name f).

Definition directory_at (offset : Z) (name : list Z) (e : RomFsDirectoryEntry) : Prop :=
  exists bytes, length bytes = 0x18%nat /\ has (dirMetaTableOffset header + offset) bytes /\ directory_of_bytes bytes = e /\
    rd_nameSize e = Z.of_nat (length name) /\ has (dirMetaTableOffset header + offset + 0x18) name.

(** A chain of siblings that starts at an offset. *)
Inductive files_at : Z -> list file_node -> Prop :=
| files_end : files_at RomFsEmptyEntry []
| files_next offset f fs : offset <> RomFsEmptyEntry -> file_at offset f -> files_at (rf_siblingOffset (fn_entry f)) fs -> files_at offset (f :: fs).

Inductive dirs_at : Z -> list dir_node -> Prop :=
| dirs_end : dirs_at RomFsEmptyEntry []
| dirs_next offset name e files children rest : offset <> RomFsEmptyEntry -> directory_at offset name e ->
    files_at (rd_fileOffset e) files -> dirs_at (rd_childOffset e) children -> dirs_at (rd_siblingOffset e) rest ->
    dirs_at offset (mk_dir_node name e files children :: rest).

End format.

(** The paths of a tree. *)
Definition child_path (path name : list Z) : list Z := match name with [] => path | _ => join path name end.
Definition file_paths (path : list Z) (files : list file_node) : list (list Z * RomFsFileEntry) := map (fun f => (join path (fn_name f), fn_entry f)) files.

Fixpoint tree_files (path : list Z) (d : dir_node) : list (list Z * RomFsFileEntry) :=
  let '(mk_dir_node name _ files children) := d in
  file_paths (child_path path name) files ++ flat_map (tree_files (child_path path name)) children.

Fixpoint tree_dirs (path : list Z) (d : dir_node) : list (list Z * RomFsDirectoryEntry) :=
  let '(mk_dir_node name e _ children) := d in
  (child_path path name, e) :: flat_map (tree_dirs (child_path path name)) children.

Fixpoint tree_size (d : dir_node) : nat :=
  let '(mk_dir_node _ _ files children) := d in S (length files + list_sum (map tree_size children)).
Definition trees_size (l : list dir_node) : nat := list_sum (map tree_size l).

(** ** The walk collects the paths *)

Definition emplace_all {V} (l : list (list Z * V)) (m : gmap (list Z) V) : gmap (list Z) V := fold_left (fun m kv => map_emplace kv.1 kv.2 m) l m.

Lemma emplace_all_app {V} (l1 l2 : list (list Z * V)) m : emplace_all (l1 ++ l2) m = emplace_all l2 (emplace_all l1 m).
Proof. apply fold_left_app. Qed.

Lemma emplace_all_other {V} (l : list (list Z * V)) m k : ~ In k (map fst l) -> emplace_all l m !! k = m !! k.
Proof.
  revert m. induction l as [|[k' v] l IH]; intros m Hk; [done|]. simpl in *. unfold emplace_all in *. simpl. rewrite IH by tauto. apply emplace_other. tauto.
Qed.

Lemma emplace_all_In {V} (l : list (list Z * V)) m k v : NoDup (map fst l) -> In (k, v) l -> m !! k = None -> emplace_all l m !! k = Some v.
Proof.
  revert m. induction l as [|[k' v'] l IH]; intros m Hn Hi Hm; [done|]. simpl in Hn. apply NoDup_cons in Hn as [Hk Hn].
  destruct Hi as [[= -> ->]|Hi].
  - change (emplace_all ((k, v) :: l) m) with (emplace_all l (map_emplace k v m)). rewrite emplace_all_other by (by rewrite <- list_elem_of_In).
    unfold map_emplace. by rewrite Hm, lookup_insert_eq.
  - change (emplace_all ((k', v') :: l) m) with (emplace_all l (map_emplace k' v' m)). apply IH; [done|done|].
    rewrite emplace_other; [done|]. intros ->. apply Hk. rewrite list_elem_of_In. apply (in_map fst _ _ Hi).
Qed.

Section walk.
Context (b : VfsBacking) (data : list Z) (header : RomFsHeader).
Context (Hb : backs b data) (Hsize : Z.of_nat (length data) < 2 ^ 64).

Lemma has_range o bytes : has data o bytes -> u64 o = Z.of_nat (Z.to_nat o) /\ (Z.to_nat o + length bytes <= length data)%nat.
Proof. intros (H0 & Hl & _). rewrite wrap_small by lia. lia. Qed.

Lemma Read_object_has n o bytes : has data o bytes -> length bytes = n -> Read_object b n (u64 o) = ok bytes.
Proof.
  intros Hh <-. destruct (has_range o bytes Hh) as [-> Hl]. rewrite (Read_object_backs b data) by done. by rewrite (proj2 (proj2 Hh)).
Qed.

Lemma Read_span_has o bytes : has data o bytes -> Read_span b (length bytes) (u64 o) = ok bytes.
Proof.
  intros Hh. destruct (has_range o bytes Hh) as [-> Hl]. rewrite (Read_span_backs b data) by done. by rewrite (proj2 (proj2 Hh)).
Qed.

Lemma read_file_at offset f : file_at data header offset f ->
  read_file b header offset = ok (fn_entry f) /\ (rf_nameSize (fn_entry f) =? 0) = false /\ read_file_name b header offset (fn_entry f) = ok (fn_name f).
Proof.
  intros (bytes & Hl & Hh & He & Hn & Hne & Hname). unfold read_file, read_file_name.
  rewrite (Read_object_has _ _ _ Hh Hl). simpl. rewrite He. split; [done|]. split; [rewrite Hn; destruct (fn_name f); [done|simpl; lia]|].
  rewrite Hn, Nat2Z.id. by apply Read_span_has.
Qed.

Lemma read_directory_at offset name e : directory_at data header offset name e ->
  read_directory b header offset = ok e /\ (rd_nameSize e =? 0) = (length name =? 0)%nat /\ read_directory_name b header offset e = ok name.
Proof.
  intros (bytes & Hl & Hh & He & Hn & Hname). unfold read_directory, read_directory_name.
  rewrite (Read_object_has _ _ _ Hh Hl). simpl. rewrite He. split; [done|]. split; [rewrite Hn; by destruct name|].
  rewrite Hn, Nat2Z.id. by apply Read_span_has.
Qed.

Lemma TraverseFiles_spec fuel offset files path m : files_at data header offset files -> files <> [] -> (length files <= fuel)%nat ->
  TraverseFiles b header fuel offset path m = ok (emplace_all (file_paths path files) m).
Proof.
  intros H. revert fuel m. induction H as [|offset f fs Ho Hf Hfs IH]; intros fuel m Hne Hfuel; [done|].
  destruct fuel as [|fuel]; [simpl in Hfuel; lia|]. cbn [TraverseFiles]. destruct (read_file_at _ _ Hf) as (-> & Hz & Hname). cbn [bindM ok].
  rewrite Hz, Hname. cbn [bindM ok]. destruct Hfs as [|o' f' fs' Ho' Hf' Hfs'].
  - rewrite Z.eqb_refl. done.
  - apply Z.eqb_neq in Ho' as ->. rewrite IH; [done|done|simpl in *; lia].
Qed.

Lemma files_at_end offset files : files_at data header offset files -> (offset =? RomFsEmptyEntry) = match files with [] => true | _ => false end.
Proof. destruct 1; [done|]. by apply Z.eqb_neq. Qed.

Lemma dirs_at_end offset dirs : dirs_at data header offset dirs -> (offset =? RomFsEmptyEntry) = match dirs with [] => true | _ => false end.
Proof. destruct 1; [done|]. by apply Z.eqb_neq. Qed.

Lemma name_path name path : (if (length name =? 0)%nat then ok path else let! name := ok name in ok (join path name)) = ok (child_path path name).
Proof. by destruct name. Qed.

Lemma TraverseDirectory_spec fuel offset dirs path m : dirs_at data header offset dirs -> dirs <> [] -> (trees_size dirs <= fuel)%nat ->
  TraverseDirectory b header fuel offset path m =
    ok (emplace_all (flat_map (tree_files path) dirs) m.1, emplace_all (flat_map (tree_dirs path) dirs) m.2).
Proof.
  intros H. revert fuel path m. induction H as [|offset name e files children rest Ho Hd Hf Hc IHc Hr IHr]; intros fuel path m Hne Hfuel; [done|].
  unfold trees_size in Hfuel. cbn [map list_sum fold_right tree_size] in Hfuel. fold (list_sum (map tree_size rest)) in Hfuel. fold (list_sum (map tree_size children)) in Hfuel.
  destruct fuel as [|fuel]; [simpl in Hfuel; lia|]. cbn [TraverseDirectory].
  destruct (read_directory_at _ _ _ Hd) as (-> & Hz & Hname). cbn [bindM ok]. rewrite Hz, Hname, name_path. cbn [bindM ok].
  set (cp := child_path path name). rewrite (files_at_end _ _ Hf), (dirs_at_end _ _ Hc), (dirs_at_end _ _ Hr). cbn [fst snd].
  assert (Ef : (match files with [] => ok (m.1, map_emplace cp e m.2) | _ => let! f := TraverseFiles b header (S fuel) (rd_fileOffset e) cp m.1 in ok (f, map_emplace cp e m.2) end) =
    ok (emplace_all (file_paths cp files) m.1, map_emplace cp e m.2)).
  { destruct files; [done|]. rewrite (TraverseFiles_spec _ _ _ _ _ Hf) by (done || simpl in *; lia). done. }
  transitivity (let! m0 := (match files with [] => ok (m.1, map_emplace cp e m.2) | _ => let! f := TraverseFiles b header (S fuel) (rd_fileOffset e) cp m.1 in ok (f, map_emplace cp e m.2) end) in
    let! m1 := match children with [] => ok m0 | _ => TraverseDirectory b header fuel (rd_childOffset e) cp m0 end in
    match rest with [] => ok m1 | _ => TraverseDirectory b header fuel (rd_siblingOffset e) path m1 end).
  { by destruct files, children, rest. }
  rewrite Ef. cbn [bindM ok].
  set (m0 := (emplace_all (file_paths cp files) m.1, map_emplace cp e m.2)).
  assert (Ec : match children with [] => ok m0 | _ => TraverseDirectory b header fuel (rd_childOffset e) cp m0 end =
    ok (emplace_all (flat_map (tree_files cp) children) m0.1, emplace_all (flat_map (tree_dirs cp) children) m0.2)).
  { destruct children; [done|]. apply IHc; [done|unfold trees_size; lia]. }
  rewrite Ec. cbn [bindM ok].
  set (m1 := (emplace_all (flat_map (tree_files cp) children) m0.1, emplace_all (flat_map (tree_dirs cp) children) m0.2)).
  assert (Er : match rest with [] => ok m1 | _ => TraverseDirectory b header fuel (rd_siblingOffset e) path m1 end =
    ok (emplace_all (flat_map (tree_files path) rest) m1.1, emplace_all (flat_map (tree_dirs path) rest) m1.2)).
  { destruct rest; [done|]. apply IHr; [done|unfold trees_size; lia]. }
  rewrite Er. cbn [flat_map tree_files tree_dirs]. fold cp. rewrite !emplace_all_app. done.
Qed.

End walk.

(** ** What the file system finds *)

(** An image with its header and a tree of directories whose paths are distinct. *)
Record rom_image (data : list Z) (header : RomFsHeader) (root : dir_node) : Prop := {
  ri_size : Z.of_nat (length data) < 2 ^ 64;
  ri_header : (0x50 <= length data)%nat /\ header =
    mk_romfs_header (le (slice 0x18 8 data)) (le (slice 0x38 8 data)) (le (slice 0x48 8 data));
  ri_tree : dirs_at data header 0 [root];
  ri_files : NoDup (map fst (tree_files [] root));
  ri_dirs : NoDup (map fst (tree_dirs [] root)) }.

Lemma RomFileSystem_walks b data header root fuel : backs b data -> rom_image data header root -> (tree_size root <= fuel)%nat ->
  RomFileSystem_new fuel b = ok (mk_romfs b header (emplace_all (tree_files [] root) ∅) (emplace_all (tree_dirs [] root) ∅)).
Proof.
  intros Hb [Hs [Hl ->] Ht _ _] Hfuel. unfold RomFileSystem_new, read_romfs_header. change 0 with (Z.of_nat 0) at 1.
  rewrite (Read_object_backs b data) by done. cbn [bindM ok]. rewrite !slice_slice by lia. simpl Nat.add.
  rewrite (TraverseDirectory_spec b data _ Hb Hs _ _ _ _ _ Ht); [|done|unfold trees_size; simpl; lia].
  cbn [bindM ok flat_map fst snd]. by rewrite !app_nil_r.
Qed.

(** C15: A read-only file system finds exactly the files and directories of its image.  For every image
    whose tables link the entries of a tree with distinct paths, on any backing that keeps its contract,
    the walk ends when its fuel is the number of entries; opening the path of a file gives a backing
    that keeps the contract for the file's part of the data, the paths of files and directories have
    their types, and no other path is found. *)
Theorem romfs_roundtrip b data header root fuel : backs b data -> rom_image data header root -> (tree_size root <= fuel)%nat ->
  exists fs, RomFileSystem_new fuel b = ok fs /\
    (forall path e, In (path, e) (tree_files [] root) -> rom_GetEntryTypeImpl path fs = Some File_type /\
       (0 <= rh_dataOffset header + rf_offset e -> 0 <= rf_size e -> rh_dataOffset header + rf_offset e + rf_size e <= Z.of_nat (length data) ->
        exists r, rom_OpenFileImpl path read_only fs = ok (Some r) /\
          backs r (slice (Z.to_nat (rh_dataOffset header + rf_offset e)) (Z.to_nat (rf_size e)) data))) /\
    (forall path, ~ In path (map fst (tree_files [] root)) ->
       rom_OpenFileImpl path read_only fs = ok None /\
       rom_GetEntryTypeImpl path fs = if decide (path ∈ map fst (tree_dirs [] root)) then Some Directory_type else None).
Proof.
  intros Hb Hi Hfuel. rewrite (RomFileSystem_walks b data header root fuel Hb Hi Hfuel). eexists. split; [done|].
  destruct Hi as [Hs _ _ Hf Hd]. unfold rom_GetEntryTypeImpl, rom_OpenFileImpl. cbn [rom_fileMap rom_directoryMap rom_backing rom_header]. split.
  - intros path e Hin. rewrite (emplace_all_In _ _ _ _ Hf Hin) by done. split; [done|]. intros H0 H1 H2.
    set (o := Z.to_nat (rh_dataOffset header + rf_offset e)). set (n := Z.to_nat (rf_size e)).
    destruct (region_backs b data o n Hb) as (r & Er & Hr); [subst o n; lia|done|]. exists r. split; [|done].
    rewrite wrap_small by lia. replace (rh_dataOffset header + rf_offset e) with (Z.of_nat o) by (subst o; lia).
    replace (rf_size e) with (Z.of_nat n) by (subst n; lia). by rewrite Er.
  - intros path Hn. rewrite emplace_all_other by done. rewrite lookup_empty. split; [done|]. case_decide as Hp.
    + apply list_elem_of_In, in_map_iff in Hp as ([p e] & <- & Hin). by rewrite (emplace_all_In _ _ _ _ Hd Hin).
    + rewrite emplace_all_other; [by rewrite lookup_empty|by rewrite <- list_elem_of_In].
Qed.

(** A file in the root and one in a directory. *)
Definition sample_image : list Z :=
  le_bytes 8 0x50 ++ le_bytes 8 0 ++ le_bytes 8 0 ++ le_bytes 8 0x50 ++ le_bytes 8 49 ++ le_bytes 8 0 ++ le_bytes 8 0 ++ le_bytes 8 129 ++ le_bytes 8 66 ++ le_bytes 8 195 ++
  flat_map (le_bytes 4) [0; RomFsEmptyEntry; 0x18; 0; 0; 0] ++
  flat_map (le_bytes 4) [0; RomFsEmptyEntry; RomFsEmptyEntry; 33; 0; 1] ++ [0x64] ++
  flat_map (le_bytes 4) [0; RomFsEmptyEntry; 0; 0; 2; 0; 0; 1] ++ [0x61] ++
  flat_map (le_bytes 4) [0x18; RomFsEmptyEntry; 2; 0; 1; 0; 0; 1] ++ [0x62] ++ [1; 2; 3].

Definition sample_header : RomFsHeader := mk_romfs_header 0x50 129 195.
Definition sample_tree : dir_node :=
  mk_dir_node [] (mk_rom_directory 0 RomFsEmptyEntry 0x18 0 0 0) [mk_file_node [0x61] (mk_rom_file 0 RomFsEmptyEntry 0 2 0 1)]
    [mk_dir_node [0x64] (mk_rom_directory 0 RomFsEmptyEntry RomFsEmptyEntry 33 0 1) [mk_file_node [0x62] (mk_rom_file 0x18 RomFsEmptyEntry 2 1 0 1)] []].

Lemma sample_has o bytes : 0 <= o -> (Z.to_nat o + length bytes <=? length sample_image)%nat = true ->
  bool_decide (slice (Z.to_nat o) (length bytes) sample_image = bytes) = true -> has sample_image o bytes.
Proof. intros H0 Hl%Nat.leb_le Hs%bool_decide_eq_true. done. Qed.

Lemma sample_rom_image : rom_image sample_image sample_header sample_tree.
Proof.
  assert (Hf : forall o name e, 0 <= o -> forall bytes, bytes = slice (Z.to_nat (129 + o)) 0x20 sample_image -> length bytes = 0x20%nat ->
    file_of_bytes bytes = e -> rf_nameSize e = Z.of_nat (length name) -> name <> [] ->
    has sample_image (129 + o) bytes -> has sample_image (129 + o + 0x20) name -> files_at sample_image sample_header (rf_siblingOffset e) [] ->
    o <> RomFsEmptyEntry -> files_at sample_image sample_header o [mk_file_node name e]).
  { intros o name e H0 bytes Hb Hl He Hn Hne Hh Hhn Hsib Hno. constructor; [done| |done]. exists bytes. done. }
  split; [done|split; [vm_compute; lia|vm_compute; done]| |apply (bool_decide_unpack _); vm_compute; done|apply (bool_decide_unpack _); vm_compute; done].
  apply dirs_next; [done| | | |apply dirs_end].
  - exists (slice 0x50 0x18 sample_image). split; [done|]. split; [by apply sample_has|]. split; [done|]. split; [done|by apply sample_has].
  - eapply Hf; [done|reflexivity|reflexivity|reflexivity|reflexivity|done|by apply sample_has|by apply sample_has|apply files_end|done].
  - apply dirs_next; [done| | |apply dirs_end|apply dirs_end].
    + exists (slice 0x68 0x18 sample_image). split; [done|]. split; [by apply sample_has|]. split; [done|]. split; [done|by apply sample_has].
    + eapply Hf; [done|reflexivity|reflexivity|reflexivity|reflexivity|done|by apply sample_has|by apply sample_has|apply files_end|done].
Qed.

Lemma romfs_roundtrip_witness :
  exists fs, RomFileSystem_new 4 (memory_backing sample_image) = ok fs /\
    rom_GetEntryTypeImpl [0x64; 0x2F; 0x62] fs = Some File_type /\ rom_GetEntryTypeImpl [0x64] fs = Some Directory_type /\
    exists r, rom_OpenFileImpl [0x61] read_only fs = ok (Some r) /\ backs r [1; 2].
Proof.
  destruct (romfs_roundtrip (memory_backing sample_image) sample_image sample_header sample_tree 4 (memory_backs _) sample_rom_image) as (fs & E & Hf & Hn); [simpl; lia|].
  exists fs. split; [exact E|]. split; [apply (Hf _ (mk_rom_file 0x18 RomFsEmptyEntry 2 1 0 1)); simpl; tauto|]. split.
  - rewrite (proj2 (Hn [0x64] ltac:(vm_compute; intros [H|[H|[]]]; discriminate H))). vm_compute. reflexivity.
  - destruct (Hf [0x61] (mk_rom_file 0 RomFsEmptyEntry 0 2 0 1) ltac:(simpl; tauto)) as [_ Hr]. apply Hr; vm_compute; congruence.
Defined.

(** ** Listing a directory *)

(** A directory without files is not listed: the loop reads the entry at the offset that marks the
    absence of files. *)
Lemma empty_directory_throws fuel d : list_files d = true -> rd_fileOffset (ownEntry d) = RomFsEmptyEntry ->
  0 <= fileMetaTableOffset (rdir_header d) -> vb_size (rdir_backing d) < fileMetaTableOffset (rdir_header d) + RomFsEmptyEntry < 2 ^ 64 ->
  RomFileSystemDirectory_Read (S fuel) d = fail (Throw "Offset cannot be past the end of a backing").
Proof.
  intros Hl Ho H0 Hs. unfold RomFileSystemDirectory_Read. rewrite Hl, Ho. cbn [list_files_from]. unfold read_file, Read_object, check_read.
  unfold RomFsEmptyEntry in *. rewrite wrap_small by lia. destruct (Z.ltb_spec (vb_size (rdir_backing d)) (fileMetaTableOffset (rdir_header d) + 4294967295)); [done|lia].
Qed.

Section listing.
Context (b : VfsBacking) (data : list Z) (header : RomFsHeader).
Context (Hb : backs b data) (Hsize : Z.of_nat (length data) < 2 ^ 64).

Lemma list_files_from_spec fuel offset files contents : files_at data header offset files -> files <> [] -> (length files <= fuel)%nat ->
  list_files_from fuel b header offset contents = ok (contents ++ map (fun f => mk_dir_entry (fn_name f) File_type (rf_size (fn_entry f))) files).
Proof.
  intros H. revert fuel contents. induction H as [|offset f fs Ho Hf Hfs IH]; intros fuel contents Hne Hfuel; [done|].
  destruct fuel as [|fuel]; [simpl in Hfuel; lia|]. cbn [list_files_from]. destruct (read_file_at b data header Hb Hsize _ _ Hf) as (-> & Hz & Hname). cbn [bindM ok].
  rewrite Hz, Hname. cbn [bindM ok]. rewrite (files_at_end _ _ _ _ Hfs). destruct fs as [|f' fs]; [done|].
  rewrite IH by (done || simpl in *; lia). cbn [map]. by rewrite <- app_assoc.
Qed.

Definition dn_name (d : dir_node) : list Z := let '(mk_dir_node name _ _ _) := d in name.

Lemma list_directories_from_spec fuel offset dirs contents : dirs_at data header offset dirs -> Forall (fun d => dn_name d <> []) dirs ->
  dirs <> [] -> (length dirs <= fuel)%nat ->
  list_directories_from fuel b header offset contents = ok (contents ++ map (fun d => mk_dir_entry (dn_name d) Directory_type 0) dirs).
Proof.
  intros H. revert fuel contents. induction H as [|offset name e files children rest Ho Hd Hf Hc _ Hr IH]; intros fuel contents Hn Hne Hfuel; [done|].
  destruct fuel as [|fuel]; [simpl in Hfuel; lia|]. cbn [list_directories_from].
  destruct (read_directory_at b data header Hb Hsize _ _ _ Hd) as (-> & Hz & Hname). cbn [bindM ok].
  inversion_clear Hn as [|? ? Hn1 Hn2]. simpl in Hn1. rewrite Hz, Hname. destruct name as [|x name]; [done|]. cbn [length Nat.eqb bindM ok].
  rewrite (dirs_at_end _ _ _ _ Hr). destruct rest as [|d rest]; [done|].
  rewrite IH by (done || simpl in *; lia). cbn [map]. by rewrite <- app_assoc.
Qed.

End listing.

(** A directory that has files and directories is listed with its files first. *)
Lemma directory_lists b data header e fuel files children : backs b data -> Z.of_nat (length data) < 2 ^ 64 ->
  files_at data header (rd_fileOffset e) files -> dirs_at data header (rd_childOffset e) children ->
  Forall (fun c => dn_name c <> []) children -> files <> [] -> children <> [] -> (length files <= fuel)%nat -> (length children <= fuel)%nat ->
  RomFileSystemDirectory_Read fuel (mk_rom_dir b header e true true) =
    ok (map (fun f => mk_dir_entry (fn_name f) File_type (rf_size (fn_entry f))) files ++ map (fun c => mk_dir_entry (dn_name c) Directory_type 0) children).
Proof.
  intros Hb Hs Hf Hc Hn Hfn Hcn Hff Hcf. unfold RomFileSystemDirectory_Read. cbn [list_files list_directories rdir_backing rdir_header ownEntry].
  rewrite (list_files_from_spec b data header Hb Hs fuel _ files) by done. cbn [bindM ok].
  by rewrite (list_directories_from_spec b data header Hb Hs fuel _ children).
Qed.
