(* ===== verification/Loader.v ===== *)
(** * Loading executables ([loader/loader.cpp], [loader/nso.cpp], [loader/nro.cpp])

    A loader reads the segments of an executable from its file, and [LoadExecutable] maps them behind a
    section for the trampolines that replace instructions the host cannot run, patches the code and
    copies everything to guest memory.  It works on the address space and the handle table of the
    process ([KObjects], [Process]) with the patcher of [Nce].  Segments are lists of bytes; the code is
    patched as 32-bit words.  The base of the process and the addresses are numbers, as in the kernel. *)

From S2P Require Import Prelude.
From S2P Require Import Common.
From S2P Require Import MemoryManager.
From S2P Require Import KObjects.
From S2P Require Import Process.
From S2P Require Import Sync.
From S2P Require Import Svc.
From S2P Require Import Ipc.
From S2P Require Import Nce.
From S2P Require Import Vfs.

Record Segment : Type := mk_segment { seg_contents : list Z; seg_offset : Z }.
Record RelativeSegment : Type := mk_relative { rel_offset : Z; rel_size : Z }.
Record Executable : Type := mk_executable {
  ex_text : Segment; ex_ro : Segment; ex_data : Segment; ex_bssSize : Z; ex_dynsym : RelativeSegment; ex_dynstr : RelativeSegment }.

Record ExecutableLoadInfo : Type := mk_load_info { li_base : Z; li_size : Z; li_entry : Z }.

(** The spans of the symbols and their strings as address and number of elements. *)
Record ExecutableSymbolicInfo : Type := mk_symbolic {
  patchStart : Z; programStart : Z; programEnd : Z; si_name : string; si_patchName : string; si_symbols : Z * Z; si_strings : Z * Z }.

(** [span<u8>::cast<u32>] of code whose size is a multiple of four, and back. *)
Fixpoint words_of (l : list Z) : list Z :=
  match l with
  | a :: b :: c :: d :: l => le [a; b; c; d] :: words_of l
  | _ => []
  end.
Definition bytes_of (l : list Z) : list Z := flat_map (le_bytes 4) l.

Section load.
Context (SaveCtx LoadCtx RescaleClock : list Z) (SvcHandlerAddress frequency : Z) (env : host_env).

(** [NewHandle<KPrivateMemory>]. *)
Definition map_segment (guest : span) (permission : Permission) (memState : Z) (s : Kernel) : M Kernel :=
  let! (s, _, _) := NewHandle (fun _ => KPrivateMemory_new env guest permission memState) s in ok s.

Definition size_of (l : list Z) : Z := Z.of_nat (length l).

(** [std::upper_bound] on the starts of the executables and [insert]. *)
Definition insert_executable (i : ExecutableSymbolicInfo) (l : list ExecutableSymbolicInfo) : list ExecutableSymbolicInfo :=
  let k := upper_bound (fun it => patchStart i <? patchStart it) l in take k l ++ i :: drop k l.

Definition LoadExecutable (executable : Executable) (offset : Z) (name : string) (executables : list ExecutableSymbolicInfo) (s : Kernel)
    : M (ExecutableLoadInfo * list ExecutableSymbolicInfo * Kernel) :=
  let b := u64 (sp_data (base (k_memory s)) + offset) in
  let '(mk_executable text ro data bssSize dynsym dynstr) := executable in
  let textSize := size_of (seg_contents text) in
  let roSize := size_of (seg_contents ro) in
  let dataSize := u64 (size_of (seg_contents data) + bssSize) in
  if negb (IsPageAligned textSize) || negb (IsPageAligned roSize) || negb (IsPageAligned dataSize)
  then fail (Throw "Sections are not aligned with page size")
  else if negb (IsPageAligned (seg_offset text)) || negb (IsPageAligned (seg_offset ro)) || negb (IsPageAligned (seg_offset data))
  then fail (Throw "Section offsets are not aligned with page size")
  else
    let patch := GetPatchData frequency (words_of (seg_contents text)) in
    let size := u64 (pd_size patch + textSize + roSize + dataSize) in
    let at_ o := u64 (b + pd_size patch + o) in
    let! s := map_segment (mk_span b (pd_size patch)) no_permission states_Reserved s in
    let! s := map_segment (mk_span (at_ (seg_offset text)) textSize) (mk_perm true false true) states_CodeStatic s in
    let! s := map_segment (mk_span (at_ (seg_offset ro)) roSize) (mk_perm true false false) states_CodeStatic s in
    let! s := map_segment (mk_span (at_ (seg_offset data)) dataSize) (mk_perm true true false) states_CodeMutable s in
    let! (code, section) :=
      PatchCode SaveCtx LoadCtx RescaleClock SvcHandlerAddress frequency (pd_size patch) (pd_offsets patch) (words_of (seg_contents text)) in
    let ram := write_bytes b (bytes_of section) (k_ram s) in
    let ram := write_bytes (at_ (seg_offset text)) (bytes_of code) ram in
    let ram := write_bytes (at_ (seg_offset ro)) (seg_contents ro) ram in
    let ram := write_bytes (at_ (seg_offset data)) (seg_contents data) ram in
    let rodataOffset := at_ (seg_offset ro) in
    let info := mk_symbolic b (u64 (b + pd_size patch)) (u64 (b + size)) name (name +:+ ".patch")
                  (u64 (rodataOffset + rel_offset dynsym), rel_size dynsym / 24) (u64 (rodataOffset + rel_offset dynstr), rel_size dynstr) in
    ok (mk_load_info b size (u64 (b + pd_size patch)), insert_executable info executables, set_k_ram ram s).

(** ** NSO files *)

Record NsoSegmentHeader : Type := mk_nso_segment { fileOffset : Z; memoryOffset : Z; decompressedSize : Z }.

(** The decompressor is a library: the bytes it leaves in an output of a given size, which it does not
    fill when the input is damaged. *)
Context (LZ4_decompress_safe : list Z -> nat -> list Z).

Definition Nso_GetSegment (backing : VfsBacking) (segment : NsoSegmentHeader) (compressedSize : Z) : M (list Z) :=
  if negb (compressedSize =? 0) then
    let! compressedBuffer := Read_span backing (Z.to_nat compressedSize) (fileOffset segment) in
    ok (LZ4_decompress_safe compressedBuffer (Z.to_nat (decompressedSize segment)))
  else Read_span backing (Z.to_nat (decompressedSize segment)) (fileOffset segment).

(** [resize] to a size that is not smaller. *)
Definition grow (n : Z) (l : list Z) : list Z := l ++ replicate (Z.to_nat n - length l) 0.

Definition NSO0 : Z := 0x304F534E.
Definition nso_segment_at (h : list Z) (o : nat) : NsoSegmentHeader := mk_nso_segment (le (slice o 4 h)) (le (slice (o + 4) 4 h)) (le (slice (o + 8) 4 h)).
Definition u32_at (h : list Z) (o : nat) : Z := le (slice o 4 h).

(** The header is 0x100 bytes: the flags at 0xC, the segments at 0x10, 0x20 and 0x30, the size of the
    zeroed data at 0x3C, the compressed sizes from 0x60 on, [dynstr] at 0x90 and [dynsym] at 0x98. *)
Definition nso_executable (backing : VfsBacking) (h : list Z) : M Executable :=
  let flags := u32_at h 0xC in
  let text := nso_segment_at h 0x10 in
  let ro := nso_segment_at h 0x20 in
  let data := nso_segment_at h 0x30 in
  let! t := Nso_GetSegment backing text (if bit flags 0 then u32_at h 0x60 else 0) in
  let t := grow (AlignUp (size_of t) PAGE_SIZE) t in
  let! r := Nso_GetSegment backing ro (if bit flags 1 then u32_at h 0x64 else 0) in
  let r := grow (AlignUp (size_of r) PAGE_SIZE) r in
  let! d := Nso_GetSegment backing data (if bit flags 2 then u32_at h 0x68 else 0) in
  let bssSize := u64 (AlignUp (u64 (size_of d + u32_at h 0x3C)) PAGE_SIZE - size_of d) in
  let dynstr := mk_relative (u32_at h 0x90) (u32_at h 0x94) in
  let dynsym := mk_relative (u32_at h 0x98) (u32_at h 0x9C) in
  let inside := (u32 (rel_offset dynsym + rel_size dynsym) <=? decompressedSize ro) && (u32 (rel_offset dynstr + rel_size dynstr) <=? decompressedSize ro) in
  ok (mk_executable (mk_segment t (memoryOffset text)) (mk_segment r (memoryOffset ro)) (mk_segment d (memoryOffset data)) bssSize
        (if inside then dynsym else mk_relative 0 0) (if inside then dynstr else mk_relative 0 0)).

Definition LoadNso (backing : VfsBacking) (offset : Z) (name : string) (executables : list ExecutableSymbolicInfo) (s : Kernel)
    : M (ExecutableLoadInfo * list ExecutableSymbolicInfo * Kernel) :=
  let! h := Read_object backing 0x100 0 in
  if negb (u32_at h 0 =? NSO0) then fail (Throw "Invalid NSO magic!")
  else let! executable := nso_executable backing h in LoadExecutable executable offset name executables s.

(** ** NRO files *)

(** The header is 0x80 bytes: the segments with their offsets in the file at 0x20, 0x28 and 0x30, the
    size of the zeroed data at 0x38, [dynstr] at 0x70 and [dynsym] at 0x78. *)
Definition nro_segment_at (h : list Z) (o : nat) : RelativeSegment := mk_relative (u32_at h o) (u32_at h (o + 4)).
Definition Nro_GetSegment (backing : VfsBacking) (segment : RelativeSegment) : M (list Z) := Read_span backing (Z.to_nat (rel_size segment)) (rel_offset segment).

Definition nro_executable (backing : VfsBacking) (h : list Z) : M Executable :=
  let text := nro_segment_at h 0x20 in
  let ro := nro_segment_at h 0x28 in
  let data := nro_segment_at h 0x30 in
  let! t := Nro_GetSegment backing text in
  let! r := Nro_GetSegment backing ro in
  let! d := Nro_GetSegment backing data in
  let dynstr := nro_segment_at h 0x70 in
  let dynsym := nro_segment_at h 0x78 in
  let ro_end := u32 (rel_offset ro + rel_size ro) in
  let inside := (rel_offset ro <? rel_offset dynsym) && (u32 (rel_offset dynsym + rel_size dynsym) <? ro_end) &&
                (rel_offset ro <? rel_offset dynstr) && (u32 (rel_offset dynstr + rel_size dynstr) <? ro_end) in
  ok (mk_executable (mk_segment t 0) (mk_segment r (rel_size text)) (mk_segment d (u32 (rel_size text + rel_size ro))) (u32_at h 0x38)
        (if inside then dynsym else mk_relative 0 0) (if inside then dynstr else mk_relative 0 0)).

(** The loop of [NcaLoader::LoadExeFs] over the modules behind the first one; [exeFs] opens a file when
    it exists. *)
Definition module_names : list string := ["main"; "subsdk0"; "subsdk1"; "subsdk2"; "subsdk3"; "subsdk4"; "subsdk5"; "subsdk6"; "subsdk7"; "sdk"].

Fixpoint load_modules (names : list string) (exeFs : string -> option VfsBacking) (offset : Z) (executables : list ExecutableSymbolicInfo) (s : Kernel)
    : M (Z * list ExecutableSymbolicInfo * Kernel) :=
  match names with
  | [] => ok (offset, executables, s)
  | nso :: names =>
      match exeFs nso with
      | None => load_modules names exeFs offset executables s
      | Some nsoFile =>
          let! (loadInfo, executables, s) := LoadNso nsoFile offset (nso +:+ ".nso") executables s in
          load_modules names exeFs (u64 (offset + li_size loadInfo)) executables s
      end
  end.

End load.

(** ** Symbols *)

(** [Elf64_Sym] at an address: name, value and size. *)
Definition sym_at (ram : guest_memory) (a : Z) : Z * Z * Z := (read_u32 ram a, read_u64 ram (a + 8), read_u64 ram (a + 16)).

(** [std::find_if] over the symbols: the first that contains the offset. *)
Fixpoint find_symbol (n : nat) (ram : guest_memory) (a offset : Z) : option (Z * Z * Z) :=
  match n with
  | O => None
  | S n =>
      let '(name, value, size) := sym_at ram a in
      if (value <=? offset) && (offset <? u64 (value + size)) then Some (name, value, size) else find_symbol n ram (a + 24) offset
  end.

(** The address of the symbol's name, when it has one, and the name of the executable. *)
Record SymbolInfo : Type := mk_symbol { sy_name : option Z; sy_executable : string }.

Definition ResolveSymbol (ram : guest_memory) (ptr : Z) (executables : list ExecutableSymbolicInfo) : SymbolInfo :=
  match executables !! upper_bound (fun it => negb (programEnd it <? ptr)) executables with
  | Some e =>
      if (patchStart e <=? ptr) && (ptr <=? programEnd e) then
        if programStart e <=? ptr then
          match find_symbol (Z.to_nat (si_symbols e).2) ram (si_symbols e).1 (ptr - programStart e) with
          | Some (name, _, _) =>
              if negb (name =? 0) && (name <? (si_strings e).2) then mk_symbol (Some ((si_strings e).1 + name)) (si_name e) else mk_symbol None (si_name e)
          | None => mk_symbol None (si_name e)
          end
        else mk_symbol None (si_patchName e)
      else mk_symbol None ""
  | None => mk_symbol None ""
  end.

(** ** Segments in memory *)

Lemma length_words_of l n : length l = (4 * n)%nat -> length (words_of l) = n.
Proof.
  revert l. induction n as [|n IH]; intros l Hl; [by destruct l|].
  destruct l as [|a [|b [|c [|d l]]]]; simpl in Hl; try lia. simpl. f_equal. apply IH. lia.
Qed.

Lemma length_bytes_of l : length (bytes_of l) = (4 * length l)%nat.
Proof. induction l as [|w l IH]; [done|]. unfold bytes_of in *. cbn [flat_map]. rewrite length_app, length_le_bytes, IH. simpl. lia. Qed.

(** The bytes [l] are in memory at [a]. *)
Definition holds (ram : guest_memory) (a : Z) (l : list Z) : Prop := forall i b, l !! i = Some b -> ram (a + Z.of_nat i) = b.

Lemma write_bytes_holds a l ram : holds (write_bytes a l ram) a l.
Proof.
  intros i b Hi. pose proof (lookup_lt_Some _ _ _ Hi). unfold write_bytes.
  destruct (Z.leb_spec a (a + Z.of_nat i)), (Z.ltb_spec (a + Z.of_nat i) (a + Z.of_nat (length l))); try lia. simpl.
  replace (Z.to_nat (a + Z.of_nat i - a)) with i by lia. by apply list_lookup_total_correct.
Qed.

Lemma write_bytes_other a l ram a' l' : holds ram a' l' -> a' + Z.of_nat (length l') <= a \/ a + Z.of_nat (length l) <= a' ->
  holds (write_bytes a l ram) a' l'.
Proof.
  intros H Hd i b Hi. pose proof (lookup_lt_Some _ _ _ Hi). unfold write_bytes.
  destruct (Z.leb_spec a (a' + Z.of_nat i)), (Z.ltb_spec (a' + Z.of_nat i) (a + Z.of_nat (length l))); try lia; simpl; by apply H.
Qed.

Lemma map_segment_ok env g p st s :
  kernel_ok s -> in_base s g -> IsPageAligned (sp_data g) = true -> IsPageAligned (sp_size g) = true -> (forall c, call_ok env c = true) ->
  exists s', map_segment env g p st s = ok s' /\ kernel_ok s' /\ same_regions (k_memory s) (k_memory s') /\ k_ram s' = k_ram s /\
    forall a, view (k_memory s') a = spec_set (view (k_memory s)) (sp_data g) (sp_data g + sp_size g) (p, st, 0) a.
Proof.
  intros Hk Hb Ha1 Ha2 He. destruct (KPrivateMemory_new_ok env g p st s Hk Hb Ha1 Ha2 (He _)) as (s' & E & Hk' & Hr & _ & _ & _ & _ & Hv).
  unfold map_segment, NewHandle. rewrite E. cbn [bindM]. eexists. split; [reflexivity|].
  split; [by apply kernel_ok_handles|]. split; [exact Hr|]. split; [|exact Hv]. apply (sf_ram _ _ (KPrivateMemory_new_frame _ _ _ _ _ _ _ E)).
Qed.

(** ** An executable in its process *)

(** An executable whose segments follow each other, aligned to pages, and fit behind its patch section
    of [P] bytes in the address space at [offset]. *)
Record fits_process (s : Kernel) (e : Executable) (offset P : Z) : Prop := {
  fp_offset : 0 <= offset;
  fp_base : IsPageAligned (sp_data (base (k_memory s)) + offset) = true;
  fp_text : 0 <= seg_offset (ex_text e) /\ IsPageAligned (seg_offset (ex_text e)) = true /\ IsPageAligned (size_of (seg_contents (ex_text e))) = true;
  fp_code : size_of (seg_contents (ex_text e)) < 2 ^ 39;
  fp_ro : IsPageAligned (seg_offset (ex_ro e)) = true /\ IsPageAligned (size_of (seg_contents (ex_ro e))) = true /\
    seg_offset (ex_text e) + size_of (seg_contents (ex_text e)) <= seg_offset (ex_ro e);
  fp_data : IsPageAligned (seg_offset (ex_data e)) = true /\ IsPageAligned (size_of (seg_contents (ex_data e)) + ex_bssSize e) = true /\ 0 <= ex_bssSize e /\
    seg_offset (ex_ro e) + size_of (seg_contents (ex_ro e)) <= seg_offset (ex_data e);
  fp_end : offset + P + seg_offset (ex_data e) + size_of (seg_contents (ex_data e)) + ex_bssSize e <= sp_size (base (k_memory s)) }.

Lemma page_sum x y : IsPageAligned x = true -> IsPageAligned y = true -> 0 <= x -> 0 <= y -> IsPageAligned (x + y) = true.
Proof.
  intros Hx Hy H0 H1. apply IsPageAligned_spec in Hx; [|done]. apply IsPageAligned_spec in Hy; [|done]. apply IsPageAligned_spec; [lia|].
  by rewrite Z.add_mod, Hx, Hy.
Qed.

Section loads.
Context (SaveCtx LoadCtx RescaleClock : list Z) (SvcHandlerAddress frequency : Z) (env : host_env).
Context (HSave : length SaveCtx = 34%nat) (HLoad : length LoadCtx = 34%nat) (HRescale : length RescaleClock = 16%nat).
Context (Haddress : plain_address SvcHandlerAddress) (Henv : forall c, call_ok env c = true).

(** What an address of the process is after loading: the patch section, the three segments, or as before. *)
Definition loaded_attrs (e : Executable) (b P : Z) (before : Z -> option attrs) (a : Z) : option attrs :=
  let inside o n := (b + o <=? a) && (a <? b + o + n) in
  if inside 0 P then Some (no_permission, states_Reserved, 0)
  else if inside (P + seg_offset (ex_text e)) (size_of (seg_contents (ex_text e))) then Some (mk_perm true false true, states_CodeStatic, 0)
  else if inside (P + seg_offset (ex_ro e)) (size_of (seg_contents (ex_ro e))) then Some (mk_perm true false false, states_CodeStatic, 0)
  else if inside (P + seg_offset (ex_data e)) (size_of (seg_contents (ex_data e)) + ex_bssSize e) then Some (mk_perm true true false, states_CodeMutable, 0)
  else before a.

(** The four mappings, one after the other. *)
Lemma map_segments_ok s b P toff tsize roff rsize doff dsize :
  kernel_ok s -> sp_data (base (k_memory s)) <= b -> 0 <= P -> 0 <= toff -> 0 <= tsize -> toff + tsize <= roff -> 0 <= rsize -> roff + rsize <= doff -> 0 <= dsize ->
  b + P + doff + dsize <= sp_data (base (k_memory s)) + sp_size (base (k_memory s)) ->
  Forall (fun x => IsPageAligned x = true) [b; P; toff; tsize; roff; rsize; doff; dsize] ->
  exists s1 s2 s3 s4,
    map_segment env (mk_span b P) no_permission states_Reserved s = ok s1 /\
    map_segment env (mk_span (b + P + toff) tsize) (mk_perm true false true) states_CodeStatic s1 = ok s2 /\
    map_segment env (mk_span (b + P + roff) rsize) (mk_perm true false false) states_CodeStatic s2 = ok s3 /\
    map_segment env (mk_span (b + P + doff) dsize) (mk_perm true true false) states_CodeMutable s3 = ok s4 /\
    kernel_ok s4 /\
    forall a, view (k_memory s4) a =
      spec_set (spec_set (spec_set (spec_set (view (k_memory s)) b (b + P) (no_permission, states_Reserved, 0))
        (b + P + toff) (b + P + toff + tsize) (mk_perm true false true, states_CodeStatic, 0))
        (b + P + roff) (b + P + roff + rsize) (mk_perm true false false, states_CodeStatic, 0))
        (b + P + doff) (b + P + doff + dsize) (mk_perm true true false, states_CodeMutable, 0) a.
Proof.
  intros Hk Hb HP Ht0 Ht Htr Hr Hrd Hd He Ha. pose proof (proj1 (ko_base _ Hk)). repeat (apply Forall_cons in Ha as [? Ha]).
  assert (Hal : forall o, IsPageAligned o = true -> 0 <= o -> IsPageAligned (b + P + o) = true) by (intros; repeat apply page_sum; done || lia).
  destruct (map_segment_ok env (mk_span b P) no_permission states_Reserved s) as (s1 & E1 & Hk1 & R1 & _ & V1); [done|unfold in_base; simpl; lia|done|done|done|].
  destruct (map_segment_ok env (mk_span (b + P + toff) tsize) (mk_perm true false true) states_CodeStatic s1) as (s2 & E2 & Hk2 & R2 & _ & V2);
    [done|unfold in_base; rewrite (proj1 R1); simpl; lia|by apply Hal|done|done|].
  pose proof (transitivity R1 R2) as R12.
  destruct (map_segment_ok env (mk_span (b + P + roff) rsize) (mk_perm true false false) states_CodeStatic s2) as (s3 & E3 & Hk3 & R3 & _ & V3);
    [done|unfold in_base; rewrite (proj1 R12); simpl; lia|apply Hal; [done|lia]|done|done|].
  pose proof (transitivity R12 R3) as R13.
  destruct (map_segment_ok env (mk_span (b + P + doff) dsize) (mk_perm true true false) states_CodeMutable s3) as (s4 & E4 & Hk4 & R4 & _ & V4);
    [done|unfold in_base; rewrite (proj1 R13); simpl; lia|apply Hal; [done|lia]|done|done|].
  exists s1, s2, s3, s4. do 4 (split; [done|]). split; [done|]. intros a. rewrite V4. unfold spec_set. rewrite V3. unfold spec_set. rewrite V2. unfold spec_set. by rewrite V1.
Qed.

Lemma loaded_attrs_spec e b P before a :
  0 <= seg_offset (ex_text e) -> seg_offset (ex_text e) + size_of (seg_contents (ex_text e)) <= seg_offset (ex_ro e) ->
  seg_offset (ex_ro e) + size_of (seg_contents (ex_ro e)) <= seg_offset (ex_data e) ->
  let '(mk_executable (mk_segment text toff) (mk_segment ro roff) (mk_segment data doff) bss _ _) := e in
  spec_set (spec_set (spec_set (spec_set before b (b + P) (no_permission, states_Reserved, 0))
    (b + P + toff) (b + P + toff + size_of text) (mk_perm true false true, states_CodeStatic, 0))
    (b + P + roff) (b + P + roff + size_of ro) (mk_perm true false false, states_CodeStatic, 0))
    (b + P + doff) (b + P + doff + (size_of data + bss)) (mk_perm true true false, states_CodeMutable, 0) a = loaded_attrs e b P before a.
Proof.
  destruct e as [[text toff] [ro roff] [data doff] bss dynsym dynstr]. unfold loaded_attrs, spec_set, size_of. cbn [ex_text ex_ro ex_data ex_bssSize seg_contents seg_offset].
  intros H1 H2 H3. repeat match goal with |- context [(?x <=? a) && (a <? ?y)] => destruct (Z.leb_spec x a), (Z.ltb_spec a y); cbn [andb] end; lia || done.
Qed.

Lemma kernel_ok_ram s ram : kernel_ok s -> kernel_ok (set_k_ram ram s).
Proof. intros [H1 H2 H3 H4]. by split. Qed.

(** C14: Loading an executable.  For every executable whose segments are page-aligned, follow each other
    and fit in the address space, and a host that grants its memory, [LoadExecutable] succeeds: the
    patcher never leaves the code, every address has exactly the permissions and state of its segment
    (code executable and not writable, constants read only, data writable) and all others keep theirs,
    guest memory holds the trampolines, the patched code - of the same length as the original - the
    constants and the data at their places, and the entry point is the start of the program behind the
    patch section. *)
Theorem LoadExecutable_loads e offset name executables s :
  kernel_ok s -> let P := pd_size (GetPatchData frequency (words_of (seg_contents (ex_text e)))) in
  let b := sp_data (base (k_memory s)) + offset in
  fits_process s e offset P ->
  exists code section info executables' s',
    PatchCode SaveCtx LoadCtx RescaleClock SvcHandlerAddress frequency P
      (pd_offsets (GetPatchData frequency (words_of (seg_contents (ex_text e))))) (words_of (seg_contents (ex_text e))) = ok (code, section) /\
    LoadExecutable SaveCtx LoadCtx RescaleClock SvcHandlerAddress frequency env e offset name executables s = ok (info, executables', s') /\
    li_base info = b /\ li_entry info = b + P /\ kernel_ok s' /\
    (forall a, view (k_memory s') a = loaded_attrs e b P (view (k_memory s)) a) /\
    holds (k_ram s') b (bytes_of section) /\
    holds (k_ram s') (b + P + seg_offset (ex_text e)) (bytes_of code) /\ length (bytes_of code) = length (seg_contents (ex_text e)) /\
    holds (k_ram s') (b + P + seg_offset (ex_ro e)) (seg_contents (ex_ro e)) /\
    holds (k_ram s') (b + P + seg_offset (ex_data e)) (seg_contents (ex_data e)).
Proof.
  intros Hk P b [Ho Hba (Ht1 & Ht2 & Ht3) Hcode (Hr1 & Hr2 & Hr3) (Hd1 & Hd2 & Hd3 & Hd4) He]. pose proof (ko_base _ Hk) as (Hb1 & Hb2 & Hb3).
  pose proof (fun b P before a => loaded_attrs_spec e b P before a Ht1 Hr3 Hd4) as HA.
  destruct e as [[text toff] [ro roff] [data doff] bss dynsym dynstr]; cbn [ex_text ex_ro ex_data ex_bssSize seg_contents seg_offset] in *.
  assert (Hn : exists n, length text = (4 * n)%nat).
  { apply IsPageAligned_spec in Ht3; [|unfold size_of; lia]. unfold size_of in Ht3. apply Z.mod_divide in Ht3 as [q Hq]; [|lia]. exists (Z.to_nat (1024 * q)). lia. }
  destruct Hn as (n & Hn). pose proof (length_words_of text n Hn) as Hw.
  destruct (PatchCode_spec SaveCtx LoadCtx RescaleClock SvcHandlerAddress frequency (words_of text) HSave HLoad HRescale Haddress ltac:(unfold size_of in *; lia))
    as (code & section & EP & Hfit & HP & Hlen & _). fold P in EP, Hfit, HP.
  assert (HPa : IsPageAligned P = true) by (apply IsPageAligned_spec; [lia|done]).
  assert (Hs : forall l, 0 <= size_of l) by (intros; unfold size_of; lia). pose proof (Hs text). pose proof (Hs ro). pose proof (Hs data).
  destruct (map_segments_ok s b P toff (size_of text) roff (size_of ro) doff (size_of data + bss)) as (s1 & s2 & s3 & s4 & E1 & E2 & E3 & E4 & Hk4 & V4);
    try (done || subst b; lia). { subst b. repeat (constructor; [done|]). constructor. }
  eexists code, section, _, _, _. split; [exact EP|]. unfold LoadExecutable. cbn [seg_contents seg_offset]. fold P. fold b.
  rewrite Ht2, Ht3, Hr1, Hr2, Hd1, (wrap_small 64 (size_of data + bss)), Hd2 by lia. cbn [negb orb].
  rewrite (wrap_small 64 b) by (subst b; lia). rewrite !(wrap_small 64 (b + P + _)) by (subst b; lia).
  rewrite E1. cbn [bindM ok]. rewrite E2. cbn [bindM ok]. rewrite E3. cbn [bindM ok]. rewrite E4. cbn [bindM ok]. rewrite EP. cbn [bindM ok].
  split; [reflexivity|]. cbn [li_base li_entry]. split; [done|]. split; [apply wrap_small; subst b; lia|]. split; [by apply kernel_ok_ram|].
  split; [intros a; cbn [k_memory set_k_ram]; rewrite V4; apply HA|]. cbn [k_ram set_k_ram]. unfold size_of in *.
  pose proof (length_bytes_of section). pose proof (length_bytes_of code).
  repeat split; [|
    |lia| |].
  - do 3 (apply write_bytes_other; [|lia]). apply write_bytes_holds.
  - do 2 (apply write_bytes_other; [|lia]). apply write_bytes_holds.
  - apply write_bytes_other; [|lia]. apply write_bytes_holds.
  - apply write_bytes_holds.
Qed.

End loads.

(** Pages of zeros, loaded at the start of the address space. *)
Definition sample_executable : Executable :=
  mk_executable (mk_segment (replicate 4096 0) 0) (mk_segment (replicate 4096 1) 4096) (mk_segment (replicate 4000 2) 8192) 96 (mk_relative 0 0) (mk_relative 0 0).

Lemma sample_executable_fits : fits_process sample_kernel sample_executable 0 4096.
Proof. split; [lia|reflexivity|split; [simpl; lia|by split]|vm_compute; reflexivity|..]; repeat split; try reflexivity; vm_compute; congruence. Qed.

Lemma LoadExecutable_loads_witness :
  exists code section info executables s',
    PatchCode (replicate 34 0) (replicate 34 0) (replicate 16 0) 0x123456789ABC 19200000 4096 [] (words_of (replicate 4096 0)) = ok (code, section) /\
    LoadExecutable (replicate 34 0) (replicate 34 0) (replicate 16 0) 0x123456789ABC 19200000 (mk_env (fun _ => true) (fun _ => None)) sample_executable 0 "main.nso" [] sample_kernel =
      ok (info, executables, s') /\ li_entry info = sp_data (base (k_memory sample_kernel)) + 4096.
Proof.
  assert (EP : GetPatchData 19200000 (words_of (replicate 4096 0)) = mk_patch_data 4096 []) by (vm_compute; reflexivity).
  pose proof (LoadExecutable_loads (replicate 34 0) (replicate 34 0) (replicate 16 0) 0x123456789ABC 19200000 (mk_env (fun _ => true) (fun _ => None))
    eq_refl eq_refl eq_refl ltac:(vm_compute; repeat split; congruence) (fun _ => eq_refl) sample_executable 0 "main.nso" [] sample_kernel sample_kernel_ok) as H.
  cbn zeta in H. change (seg_contents (ex_text sample_executable)) with (replicate 4096 0) in H. rewrite EP in H. cbn [pd_size pd_offsets] in H.
  destruct (H sample_executable_fits) as (code & section & info & executables & s' & H1 & H2 & _ & H3 & _). exists code, section, info, executables, s'.
  split; [exact H1|]. split; [exact H2|]. rewrite H3, Z.add_0_r. reflexivity.
Defined.

(** ** Symbols *)

(** The executables in the order of their addresses, each ending where the next may begin. *)
Definition executables_ok (l : list ExecutableSymbolicInfo) : Prop :=
  Forall (fun e => patchStart e <= programStart e <= programEnd e) l /\
  forall i j e e', (i < j)%nat -> l !! i = Some e -> l !! j = Some e' -> programEnd e <= patchStart e'.

(** An address inside of an executable resolves to it, or to its patch section. *)
Lemma ResolveSymbol_finds ram ptr l e : executables_ok l -> In e l -> patchStart e < ptr <= programEnd e ->
  sy_executable (ResolveSymbol ram ptr l) = if programStart e <=? ptr then si_name e else si_patchName e.
Proof.
  intros [Hf Ho] Hin Hp. apply list_elem_of_In, list_elem_of_lookup in Hin as [k Hk].
  assert (Hpart : partitioned (fun it => negb (programEnd it <? ptr)) l).
  { intros i j x y Hij Hx Hy. destruct (decide (i = j)) as [->|]; [by rewrite Hx in Hy; simplify_eq|].
    specialize (Ho i j x y ltac:(lia) Hx Hy). rewrite Forall_lookup in Hf. pose proof (Hf _ _ Hy).
    destruct (Z.ltb_spec (programEnd x) ptr), (Z.ltb_spec (programEnd y) ptr); simpl; lia || done. }
  destruct (upper_bound_spec _ _ Hpart) as (Hle & Hlo & Hhi). unfold ResolveSymbol. set (u := upper_bound _ l) in *.
  assert (u = k) as ->.
  { destruct (Nat.lt_trichotomy u k) as [Hlt|[|Hlt]]; [|done|].
    - destruct (lookup_lt_is_Some_2 l u) as [x Hx]; [apply lookup_lt_Some in Hk; lia|]. specialize (Hhi u x ltac:(lia) Hx). specialize (Ho u k x e Hlt Hx Hk).
      apply negb_true_iff, Z.ltb_ge in Hhi. lia.
    - specialize (Hlo k e Hlt Hk). apply negb_false_iff, Z.ltb_lt in Hlo. lia. }
  rewrite Hk. destruct (Z.leb_spec (patchStart e) ptr), (Z.leb_spec ptr (programEnd e)); try lia. cbn [andb].
  destruct (programStart e <=? ptr); [|done]. destruct (find_symbol _ _ _ _) as [[[n v] z]|]; [|done]. by destruct (_ && _).
Qed.

(** The first byte of an executable that follows another without a gap resolves to the other. *)
Lemma boundary_resolves_previous ram :
  let e1 := mk_symbolic 0x1000 0x2000 0x5000 "rtld.nso" "rtld.nso.patch" (0, 0) (0, 0) in
  let e2 := mk_symbolic 0x5000 0x6000 0x9000 "main.nso" "main.nso.patch" (0, 0) (0, 0) in
  sy_executable (ResolveSymbol ram 0x5000 [e1; e2]) = "rtld.nso".
Proof. reflexivity. Qed.

(** The symbols of a homebrew executable are looked for at their offset in the file, counted from the
    start of the constants. *)
Lemma nro_dynsym_not_relative b h e : nro_executable b h = ok e -> rel_size (ex_dynsym e) <> 0 -> ex_dynsym e = nro_segment_at h 0x78.
Proof.
  unfold nro_executable. intros E Hs. apply bindM_ok in E as (t & _ & E). apply bindM_ok in E as (r & _ & E). apply bindM_ok in E as (d & _ & E).
  injection E as <-. simpl in *. by destruct (_ && _).
Qed.
