(* ===== verification/TimeShared.v ===== *)
(** * Time points and the shared memory of the time service ([services/timesrv/common.h],
    [services/timesrv/common.cpp], [services/timesrv/time_shared_memory.cpp], [common/uuid.h],
    [common/uuid.cpp])

    Spans of time and points of the steady clocks, and the memory the time service shares with
    applications.  An entry of it has two slots and a count of its updates; [act] are the accesses
    of one updater and one reader to an entry, word by word, in any order, and the entry is shown
    to behave as a register that is read and written at once. *)

From S2P Require Import Prelude Common Vfs.

(** ** Identifiers *)

(** [raw != 0]; an identifier is the integer of its sixteen bytes. *)
Definition UUID_Valid (id : Z) : bool := negb (id =? 0).

(** The fields of [UuidLayout] over the sixteen bytes: a [u32], two [u16], two bytes and six bytes,
    all but the two bytes with their bytes swapped by [Swap]. *)
Definition UuidLayout_Swap (b : list Z) : list Z :=
  rev (take 4 b) ++ rev (take 2 (drop 4 b)) ++ rev (take 2 (drop 6 b)) ++ take 2 (drop 8 b) ++ rev (take 6 (drop 10 b)).

(** [version] is the upper four bits of the second [u16], [reserved] the upper two bits of the
    ninth byte. *)
Definition set_version (version : Z) (b : list Z) : list Z := alter (fun x => Z.lor (Z.land x 15) (Z.shiftl version 4)) 7%nat b.
Definition set_reserved (reserved : Z) (b : list Z) : list Z := alter (fun x => Z.lor (Z.land x 63) (Z.shiftl reserved 6)) 8%nat b.

Definition UUID_of_layout (reserved version : Z) (b : list Z) : list Z := UuidLayout_Swap (set_version version (set_reserved reserved b)).

(** [random] is what [FillRandomBytes] leaves in the layout. *)
Definition GenerateUuidV4 (random : list Z) : list Z := UUID_of_layout 1 4 random.

Definition GenerateUuidV5 (sha1 : list Z) : list Z := UUID_of_layout 1 5 (take 16 sha1).

(** ** Spans of time *)

Definition NsInMicrosecond : Z := 1000.
Definition NsInSecond : Z := 1000000000.
Definition NsInDay : Z := 86400000000000.

(** [util::GetTimeNs] of the registers it reads, in [u64]. *)
Definition GetTimeNs (frequency ticks : Z) : Z :=
  i64 (u64 (u64 (ticks / frequency * NsInSecond) + u64 (u64 (ticks mod frequency * NsInSecond) + frequency / 2) / frequency)).

(** A [TimeSpanType] is its number of nanoseconds. *)
Definition FromNanoseconds (ns : Z) : Z := ns.
Definition FromSeconds (s : Z) : Z := i64 (s * NsInSecond).
Definition FromDays (d : Z) : Z := i64 (d * NsInDay).
Definition Nanoseconds (ns : Z) : Z := ns.
Definition Microseconds (ns : Z) : Z := Z.quot ns NsInMicrosecond.
Definition Seconds (ns : Z) : Z := Z.quot ns NsInSecond.
Definition span_add (lhs rhs : Z) : Z := FromNanoseconds (i64 (lhs + rhs)).
Definition span_sub (lhs rhs : Z) : Z := FromNanoseconds (i64 (lhs - rhs)).

(** ** Points of a steady clock *)

Record SteadyClockTimePoint : Type := mk_timepoint { timePoint : Z; clockSourceId : Z }.

#[global] Instance SteadyClockTimePoint_eq_dec : EqDecision SteadyClockTimePoint.
Proof. solve_decision. Defined.

Record SystemClockContext : Type := mk_context { offset : Z; timestamp : SteadyClockTimePoint }.

#[global] Instance SystemClockContext_eq_dec : EqDecision SystemClockContext.
Proof. solve_decision. Defined.

(** A [ResultValue]: an error code or a value. *)
Abbreviation ResultValue A := (Z + A)%type.

Definition PermissionDenied : Z := Result 116 1.
Definition ClockSourceIdMismatch : Z := Result 116 102.
Definition ClockUninitialized : Z := Result 116 103.
Definition InvalidComparison : Z := Result 116 200.
Definition CompareOverflow : Z := Result 116 201.
Definition RuleConversionFailed : Z := Result 116 903.
Definition Unimplemented : Z := Result 116 990.

Definition ClockSnapshot_GetCurrentTime (point : SteadyClockTimePoint) (context : SystemClockContext) : ResultValue Z :=
  if negb (clockSourceId (timestamp context) =? clockSourceId point) then inl ClockSourceIdMismatch
  else inr (i64 (offset context + timePoint point)).

Definition GetSpanBetween (start end_ : SteadyClockTimePoint) : ResultValue Z :=
  if negb (clockSourceId start =? clockSourceId end_) then inl InvalidComparison
  else if ((0 <? timePoint start) && (timePoint end_ <? i64 (- 2 ^ 63 + timePoint start)))
       || ((timePoint start <? 0) && (i64 (2 ^ 63 - 1 + timePoint start) <? timePoint end_)) then inl CompareOverflow
  else inr (i64 (timePoint end_ - timePoint start)).

(** ** Entries of the shared memory *)

Record ClockContextEntry (T : Type) : Type := mk_entry { updateCount : Z; context0 : T; context1 : T }.

Arguments mk_entry {T} _ _ _.
Arguments updateCount {T} _.
Arguments context0 {T} _.
Arguments context1 {T} _.

(** [item[i]] for the indices zero and one. *)
Definition item {T} (i : Z) (e : ClockContextEntry T) : T := if i =? 0 then context0 e else context1 e.

Definition set_item {T} (i : Z) (v : T) (e : ClockContextEntry T) : ClockContextEntry T :=
  if i =? 0 then mk_entry (updateCount e) v (context1 e) else mk_entry (updateCount e) (context0 e) v.

Definition set_updateCount {T} (n : Z) (e : ClockContextEntry T) : ClockContextEntry T := mk_entry n (context0 e) (context1 e).

(** The update and the reading of an entry that nobody else accesses meanwhile; [updater_alone] and
    [reader_alone] derive them from the accesses below. *)
Definition UpdateTimeSharedMemoryItem {T} (newValue : T) (e : ClockContextEntry T) : ClockContextEntry T :=
  let newCount := u32 (updateCount e + 1) in
  set_updateCount newCount (set_item (Z.land newCount 1) newValue e).

Definition ReadTimeSharedMemoryItem {T} (e : ClockContextEntry T) : T := item (Z.land (updateCount e) 1) e.

(** ** The accesses of an updater and a reader *)

Section shared.
Context {W : Type} (n : nat).

(** What is left of a call of [UpdateTimeSharedMemoryItem]: words of the new value to copy, then the
    store of the count. *)
Inductive Updater : Type :=
| UIdle
| UCopy (newCount : Z) (newValue : list W) (i : nat).

(** What is left of a call of [ReadTimeSharedMemoryItem]: the load of the count to check, the load
    of the count for the index, the words to copy, the comparison. *)
Inductive Reader : Type :=
| RIdle
| RCheck
| RIndex (checkUpdateCount : Z)
| RCopy (checkUpdateCount index : Z) (out : list W)
| RTest (checkUpdateCount : Z) (out : list W).

Record Shared : Type := mk_accesses { sh_entry : ClockContextEntry (list W); sh_updater : Updater; sh_reader : Reader }.

Inductive action : Type := Update (newValue : list W) | UStep | Read | RStep.

Inductive event : Type := Updated (v : list W) | Returned (v : list W).

Definition updater_step (e : ClockContextEntry (list W)) (u : Updater) : option (ClockContextEntry (list W) * Updater * list event) :=
  match u with
  | UIdle => None
  | UCopy newCount newValue i =>
      if decide (i < n)%nat then
        word ← newValue !! i;
        let index := Z.land newCount 1 in
        Some (set_item index (<[i := word]> (item index e)) e, UCopy newCount newValue (S i), [])
      else Some (set_updateCount newCount e, UIdle, [Updated newValue])
  end.

Definition reader_step (e : ClockContextEntry (list W)) (r : Reader) : option (Reader * list event) :=
  match r with
  | RIdle => None
  | RCheck => Some (RIndex (updateCount e), [])
  | RIndex check => Some (RCopy check (Z.land (updateCount e) 1) [], [])
  | RCopy check index out =>
      if decide (length out < n)%nat then
        word ← item index e !! length out;
        Some (RCopy check index (out ++ [word]), [])
      else Some (RTest check out, [])
  | RTest check out => if check =? updateCount e then Some (RIdle, [Returned out]) else Some (RCheck, [])
  end.

(** One access, or the start of a call. *)
Definition act (a : action) (s : Shared) : option (Shared * list event) :=
  match a with
  | Update v =>
      match sh_updater s with
      | UIdle => if decide (length v = n) then
                   Some (mk_accesses (sh_entry s) (UCopy (u32 (updateCount (sh_entry s) + 1)) v 0) (sh_reader s), [])
                 else None
      | UCopy _ _ _ => None
      end
  | UStep => '(e, u, l) ← updater_step (sh_entry s) (sh_updater s); Some (mk_accesses e u (sh_reader s), l)
  | Read => match sh_reader s with RIdle => Some (mk_accesses (sh_entry s) (sh_updater s) RCheck, []) | _ => None end
  | RStep => '(r, l) ← reader_step (sh_entry s) (sh_reader s); Some (mk_accesses (sh_entry s) (sh_updater s) r, l)
  end.

Fixpoint run_accesses (l : list action) (s : Shared) : option (Shared * list event) :=
  match l with
  | [] => Some (s, [])
  | a :: l => '(s, t) ← act a s; '(s, t') ← run_accesses l s; Some (s, t ++ t')
  end.

(** ** The register the entry promises to be *)

(** A value read is the last one written. *)
Fixpoint register (v : list W) (t : list event) : Prop :=
  match t with
  | [] => True
  | Updated v' :: t => register v' t
  | Returned v' :: t => v' = v /\ register v t
  end.

Definition is_update (e : event) : bool := match e with Updated _ => true | Returned _ => false end.

Definition updates (t : list event) : Z := Z.of_nat (length (List.filter is_update t)).

End shared.

Arguments UIdle {W}.
Arguments RIdle {W}.
Arguments RCheck {W}.
Arguments RIndex {W} _.
Arguments UStep {W}.
Arguments Read {W}.
Arguments RStep {W}.

(** ** The invariant of the accesses *)

Section shared_inv.
Context {W : Type} (n : nat).
Implicit Types (e : ClockContextEntry (list W)) (s : Shared (W := W)) (t : list (event (W := W))) (v current : list W).

(** The words copied so far are in the slot the next count selects. *)
Definition updater_ok e (u : Updater) : Prop :=
  match u with
  | UIdle => True
  | UCopy newCount v i =>
      newCount = u32 (updateCount e + 1) /\ length v = n /\ (i <= n)%nat
      /\ take i (item (Z.land newCount 1) e) = take i v
  end.

(** [k] updates were done when the reader loaded the count it will compare with; when none was done
    since, the words it copied are those of the current value. *)
Definition reader_ok (c0 w : Z) current (r : Reader) : Prop :=
  match r with
  | RIdle | RCheck => True
  | RIndex check => exists k, 0 <= k <= w /\ check = u32 (c0 + k)
  | RCopy check index out =>
      exists k, 0 <= k <= w /\ check = u32 (c0 + k)
        /\ (k = w -> index = Z.land check 1 /\ out = take (length out) current)
  | RTest check out => exists k, 0 <= k <= w /\ check = u32 (c0 + k) /\ (k = w -> out = current)
  end.

Definition shared_inv (c0 w : Z) current s : Prop :=
  let e := sh_entry s in
  updateCount e = u32 (c0 + w) /\ 0 <= w /\ length (context0 e) = n /\ length (context1 e) = n
  /\ ReadTimeSharedMemoryItem e = current /\ updater_ok e (sh_updater s) /\ reader_ok c0 w current (sh_reader s).

Lemma land_1_next c : Z.land (u32 (c + 1)) 1 = 1 - Z.land c 1.
Proof.
  change 1 with (Z.ones 1). rewrite !Z.land_ones by lia. unfold wrap. change (Z.ones 1) with 1. change (2 ^ 1) with 2.
  rewrite (Z.mod_mod_divide (c + 1) (2 ^ 32) 2) by (by exists (2 ^ 31)).
  pose proof (Z.mod_pos_bound c 2 ltac:(lia)). rewrite Z.add_mod by lia.
  destruct (decide (c mod 2 = 0)) as [->|]; [done|]. by replace (c mod 2) with 1 by lia.
Qed.

Lemma land_1_cases c : Z.land c 1 = 0 \/ Z.land c 1 = 1.
Proof. pose proof (Z.land_ones c 1 ltac:(lia)) as H. change (Z.land c 1 = c mod 2) in H. pose proof (Z.mod_pos_bound c 2 ltac:(lia)). lia. Qed.

Lemma item_set_item i j (x : list W) e : (i = 0 \/ i = 1) -> (j = 0 \/ j = 1) -> item j (set_item i x e) = if i =? j then x else item j e.
Proof. by intros [-> | ->] [-> | ->]. Qed.

Lemma length_item i e : length (context0 e) = n -> length (context1 e) = n -> length (item i e) = n.
Proof. intros. unfold item. by case_match. Qed.

(** A later count is another one as long as fewer than [2 ^ 32] updates lie between. *)
Lemma count_fresh c0 k w : 0 <= k <= w -> w < 2 ^ 32 -> u32 (c0 + k) = u32 (c0 + w) -> k = w.
Proof.
  intros Hk Hw E. unfold wrap in E. enough ((w - k) mod 2 ^ 32 = 0) as H by (rewrite Z.mod_small in H by lia; lia).
  replace (w - k) with ((c0 + w) - (c0 + k)) by lia. rewrite Zminus_mod, E, Z.sub_diag. done.
Qed.

(** A word of the new value changes nothing a reader of the current value sees. *)
Lemma store_word_ok e v i word :
  length (context0 e) = n -> length (context1 e) = n -> updater_ok e (UCopy (u32 (updateCount e + 1)) v i) -> v !! i = Some word ->
  (i < n)%nat ->
  let index := Z.land (u32 (updateCount e + 1)) 1 in
  let e' := set_item index (<[i := word]> (item index e)) e in
  updateCount e' = updateCount e /\ length (context0 e') = n /\ length (context1 e') = n
  /\ ReadTimeSharedMemoryItem e' = ReadTimeSharedMemoryItem e /\ updater_ok e' (UCopy (u32 (updateCount e + 1)) v (S i)).
Proof.
  intros H0 H1 (_ & Hv & _ & Ht) Hw Hi index e'. pose proof (land_1_cases (u32 (updateCount e + 1))) as Hx. fold index in Hx, Ht.
  assert (Hc : updateCount e' = updateCount e) by (unfold e', set_item; by case_match).
  assert (Hl : length (<[i := word]> (item index e)) = n) by (rewrite length_insert; by apply length_item).
  assert (Hs : item index e' = <[i := word]> (item index e)) by (unfold e'; rewrite item_set_item, Z.eqb_refl by done; done).
  split_and!; [done| | | |].
  - unfold e', set_item. by destruct (index =? 0).
  - unfold e', set_item. by destruct (index =? 0).
  - unfold ReadTimeSharedMemoryItem. rewrite Hc. unfold e'. rewrite item_set_item by (auto using land_1_cases).
    unfold index. rewrite land_1_next. destruct (land_1_cases (updateCount e)) as [-> | ->]; done.
  - cbn. rewrite Hc. fold index. rewrite Hs. split_and!; [done|done|lia|].
    rewrite (take_S_r _ _ word), (take_S_r _ _ word), take_insert_ge by (done || lia || (rewrite list_lookup_insert_eq by (rewrite length_item; done || lia); done)).
    by rewrite Ht.
Qed.

Lemma updater_inv c0 w current s e u l :
  shared_inv c0 w current s -> updater_step n (sh_entry s) (sh_updater s) = Some (e, u, l) ->
  (l = [] /\ shared_inv c0 w current (mk_accesses e u (sh_reader s)))
  \/ (exists v, l = [Updated v] /\ shared_inv c0 (w + 1) v (mk_accesses e u (sh_reader s))).
Proof.
  destruct s as [e0 u0 r]. unfold shared_inv. cbn. intros (Hc & Hw & H0 & H1 & Hcur & Hu & Hr) H.
  destruct u0 as [|c v i]; [done|]. cbn in H. destruct (decide (i < n)%nat) as [Hi|Hi].
  - destruct (v !! i) as [word|] eqn:E; [|done]. cbn in H. injection H as <- <- <-. left. split; [done|].
    assert (c = u32 (updateCount e0 + 1)) as -> by apply Hu.
    destruct (store_word_ok e0 v i word H0 H1 Hu E Hi) as (E1 & E2 & E3 & E4 & E5). split_and!; [congruence|done..|congruence|done|done].
  - injection H as <- <- <-. right. exists v. split; [done|]. destruct Hu as (-> & Hv & Hi' & Ht).
    assert (i = n) as -> by lia. rewrite (take_ge v) in Ht by lia. rewrite take_ge in Ht by (rewrite length_item; done).
    cbn. rewrite Hc in *. split_and!; try done; try lia.
    + unfold wrap. rewrite Zplus_mod_idemp_l. f_equal. lia.
    + destruct r; cbn in *; try done; destruct Hr as (k & Hk); exists k; naive_solver lia.
Qed.

Lemma reader_inv c0 w current s r l :
  w < 2 ^ 32 -> shared_inv c0 w current s -> reader_step n (sh_entry s) (sh_reader s) = Some (r, l) ->
  (l = [] \/ l = [Returned current]) /\ shared_inv c0 w current (mk_accesses (sh_entry s) (sh_updater s) r).
Proof.
  destruct s as [e u r0]. unfold shared_inv. cbn. intros Hb (Hc & Hw & H0 & H1 & Hcur & Hu & Hr) H.
  destruct r0 as [| |c|c i out|c out]; cbn in H; [done|..].
  - injection H as <- <-. split; [by left|]. split_and!; try done. exists w. split; [lia|done].
  - injection H as <- <-. split; [by left|]. split_and!; try done. destruct Hr as (k & Hk & ->). exists k. split_and!; [lia|lia|done|].
    intros ->. by rewrite Hc.
  - destruct Hr as (k & Hk & Hck & Hr). destruct (decide (length out < n)%nat) as [Hi|Hi].
    + destruct (item i e !! length out) as [word|] eqn:E; [|done]. injection H as <- <-. split; [by left|]. split_and!; try done.
      exists k. split_and!; [lia|lia|done|]. intros ->. destruct Hr as [-> Ho]; [done|]. split; [done|].
      rewrite length_app. cbn. rewrite Nat.add_1_r.
      assert (current !! length out = Some word) as Ew by (rewrite <- Hcur; unfold ReadTimeSharedMemoryItem; by rewrite Hc, <- Hck).
      by rewrite (take_S_r _ _ _ Ew), <- Ho.
    + injection H as <- <-. split; [by left|]. split_and!; try done. exists k. split_and!; [lia|lia|done|]. intros ->.
      destruct Hr as [_ Ho]; [done|]. rewrite Ho. apply take_ge. rewrite <- Hcur. unfold ReadTimeSharedMemoryItem. rewrite length_item; lia || done.
  - destruct Hr as (k & Hk & Hck & Hr). destruct (Z.eqb_spec c (updateCount e)) as [E|]; injection H as <- <-.
    + rewrite Hck, Hc in E. apply count_fresh in E; [|lia|done]. rewrite (Hr E). split; [by right|]. by split_and!.
    + split; [by left|]. by split_and!.
Qed.

(** A step of either side keeps the invariant and is a step of the register. *)
Lemma act_inv c0 w current a s s' l :
  w < 2 ^ 32 -> shared_inv c0 w current s -> act n a s = Some (s', l) ->
  exists current', shared_inv c0 (w + updates l) current' s' /\ forall t, register current' t -> register current (l ++ t).
Proof.
  intros Hw Hi H. destruct a as [v| | |]; cbn in H.
  - destruct s as [e [|] r]; [|done]. cbn in H. destruct (decide (length v = n)); [|done]. injection H as <- <-. exists current.
    change (w + updates []) with (w + 0). rewrite Z.add_0_r. split; [|done]. unfold shared_inv in *. cbn in *. destruct Hi as (? & ? & ? & ? & ? & _ & ?).
    split_and!; try done; lia.
  - destruct (updater_step n (sh_entry s) (sh_updater s)) as [[[e u] l']|] eqn:E; [|done]. injection H as <- <-.
    destruct (updater_inv _ _ _ _ _ _ _ Hi E) as [[-> ?]|(v & -> & ?)]; [exists current|exists v]; (split; [|done]).
    + change (w + updates []) with (w + 0). by rewrite Z.add_0_r.
    + done.
  - destruct s as [e u []]; try done. injection H as <- <-. exists current. change (w + updates []) with (w + 0). rewrite Z.add_0_r.
    split; [|done]. unfold shared_inv in *. cbn in *. tauto.
  - destruct (reader_step n (sh_entry s) (sh_reader s)) as [[r l']|] eqn:E; [|done]. injection H as <- <-. exists current.
    destruct (reader_inv _ _ _ _ _ _ Hw Hi E) as [[-> | ->] ?]; (split; [|by cbn]);
      [change (w + updates []) with (w + 0)|change (w + updates [Returned current]) with (w + 0)]; by rewrite Z.add_0_r.
Qed.

Lemma updates_app t t' : updates (t ++ t') = updates t + updates t'.
Proof. unfold updates. rewrite List.filter_app, length_app. lia. Qed.

Lemma updates_nonneg t : 0 <= updates t.
Proof. unfold updates. lia. Qed.

Lemma run_register c0 l w current s s' t :
  w + updates t < 2 ^ 32 -> shared_inv c0 w current s -> run_accesses n l s = Some (s', t) ->
  register current t /\ exists current', shared_inv c0 (w + updates t) current' s'.
Proof.
  revert w current s t. induction l as [|a l IH]; intros w current s t Hb Hi H; cbn in H.
  - injection H as <- <-. split; [done|]. exists current. change (updates []) with 0. by rewrite Z.add_0_r.
  - destruct (act n a s) as [[s1 t1]|] eqn:Ea; [|done]. cbn in H. destruct (run_accesses n l s1) as [[s2 t2]|] eqn:Er; [|done].
    injection H as <- <-. rewrite updates_app in Hb. pose proof (updates_nonneg t1). pose proof (updates_nonneg t2).
    destruct (act_inv c0 w current a s s1 t1) as (current' & Hi' & Hreg); [lia|done..|]. destruct (IH (w + updates t1) current' s1 t2) as [Hr Hf]; [lia|done..|].
    split; [by apply Hreg|]. rewrite updates_app, Z.add_assoc. exact Hf.
Qed.

(** ** Calls that nobody disturbs *)

Lemma run_app l l' s : run_accesses n (l ++ l') s = '(s1, t) ← run_accesses n l s; '(s2, t') ← run_accesses n l' s1; Some (s2, t ++ t').
Proof.
  revert s. induction l as [|a l IH]; intros s; cbn.
  - destruct (run_accesses n l' s) as [[]|]; done.
  - destruct (act n a s) as [[s1 t1]|]; [|done]. cbn. rewrite IH. destruct (run_accesses n l s1) as [[s2 t2]|]; [|done]. cbn.
    destruct (run_accesses n l' s2) as [[s3 t3]|]; [|done]. cbn. by rewrite app_assoc.
Qed.

Lemma run_copy_out k e u check i out :
  length (item i e) = n -> out = take (length out) (item i e) -> (length out + k = n)%nat ->
  run_accesses n (replicate k RStep) (mk_accesses e u (RCopy check i out)) = Some (mk_accesses e u (RCopy check i (item i e)), []).
Proof.
  intros Hl. revert out. induction k as [|k IH]; intros out Ho Hk.
  - cbn. rewrite Ho at 1. rewrite take_ge by lia. done.
  - cbn. destruct (decide _); [|lia]. destruct (lookup_lt_is_Some_2 (item i e) (length out)) as [word E]; [lia|]. rewrite E. cbn.
    rewrite IH; [done| |rewrite length_app; cbn; lia]. rewrite length_app. cbn. by rewrite Nat.add_1_r, (take_S_r _ _ _ E), <- Ho.
Qed.

(** A reader that is left alone at the top of its loop returns the current value. *)
Lemma reader_alone e u :
  length (context0 e) = n -> length (context1 e) = n ->
  run_accesses n (replicate (n + 4) RStep) (mk_accesses e u RCheck) = Some (mk_accesses e u RIdle, [Returned (ReadTimeSharedMemoryItem e)]).
Proof.
  intros H0 H1. replace (n + 4)%nat with (S (S (n + 2))) by lia. cbn [replicate run_accesses]. cbn. rewrite replicate_add, run_app.
  rewrite run_copy_out; [|by apply length_item|done|done]. cbn. rewrite length_item by done. destruct (decide (n < n)%nat); [lia|].
  cbn. by rewrite Z.eqb_refl.
Qed.

Lemma run_copy_in k e r newCount v i :
  length v = n -> length (context0 e) = n -> length (context1 e) = n -> (i + k = n)%nat ->
  take i (item (Z.land newCount 1) e) = take i v ->
  run_accesses n (replicate k UStep) (mk_accesses e (UCopy newCount v i) r)
  = Some (mk_accesses (set_item (Z.land newCount 1) v e) (UCopy newCount v n) r, []).
Proof.
  intros Hv. revert e i. induction k as [|k IH]; intros e i H0 H1 Hk Ht.
  - cbn. assert (i = n) as -> by lia. rewrite !take_ge in Ht by (rewrite ?length_item; done || lia). rewrite <- Ht.
    unfold set_item, item. destruct e. by destruct (Z.land newCount 1 =? 0).
  - cbn. destruct (decide _); [|lia]. destruct (lookup_lt_is_Some_2 v i) as [word E]; [lia|]. rewrite E. cbn.
    pose proof (land_1_cases newCount) as Hx. set (x := Z.land newCount 1) in *.
    assert (Hl : length (<[i := word]> (item x e)) = n) by (rewrite length_insert; by apply length_item).
    rewrite IH; [|unfold set_item; by destruct (x =? 0)..|lia|].
    + cbn. unfold set_item. by destruct (x =? 0).
    + rewrite item_set_item, Z.eqb_refl by done.
      rewrite (take_S_r _ _ word), (take_S_r _ _ word), take_insert_ge by (done || lia || (rewrite list_lookup_insert_eq by (rewrite length_item; done || lia); done)).
      by rewrite Ht.
Qed.

(** An update that is left alone does what [UpdateTimeSharedMemoryItem] says. *)
Lemma updater_alone e r v :
  length v = n -> length (context0 e) = n -> length (context1 e) = n ->
  run_accesses n (Update v :: replicate (n + 1) UStep) (mk_accesses e UIdle r)
  = Some (mk_accesses (UpdateTimeSharedMemoryItem v e) UIdle r, [Updated v]).
Proof.
  intros Hv H0 H1. cbn [run_accesses]. unfold act at 1. cbn [sh_updater sh_entry sh_reader]. rewrite decide_True by done.
  cbn [mbind option_bind]. rewrite replicate_add, run_app, run_copy_in by (done || lia). cbn.
  destruct (decide (n < n)%nat); [lia|]. done.
Qed.

End shared_inv.

(** C19: An entry of the memory that the time service shares with applications is a register.  Whatever
    the order in which the single accesses of an updater and a reader to the count and to the words of
    the two slots fall, every call of [ReadTimeSharedMemoryItem] returns the whole value of the last
    update that was complete when it returned, never one of which parts are from another update, and a
    reader that is left alone at the top of its loop does return.  It is given one updater at a time,
    accesses that take effect in the order of the program, as the fences of the code are to ensure, and
    fewer than 2^32 updates, after which the count would repeat. *)
Theorem entry_is_register {W : Type} (n : nat) (e : ClockContextEntry (list W)) (l : list action) s t :
  0 <= updateCount e < 2 ^ 32 -> length (context0 e) = n -> length (context1 e) = n ->
  run_accesses n l (mk_accesses e UIdle RIdle) = Some (s, t) -> updates t < 2 ^ 32 ->
  register (ReadTimeSharedMemoryItem e) t
  /\ (sh_reader s = RCheck ->
      exists s', run_accesses n (replicate (n + 4) RStep) s = Some (s', [Returned (ReadTimeSharedMemoryItem (sh_entry s))])).
Proof.
  intros Hc H0 H1 H Hb. destruct (run_register n (updateCount e) l 0 (ReadTimeSharedMemoryItem e) (mk_accesses e UIdle RIdle) s t) as [Hr (v & Hi)].
  - done.
  - unfold shared_inv. cbn. rewrite Z.add_0_r, wrap_small by lia. done.
  - done.
  - split; [done|]. intros Hs. destruct s as [e' u r]. cbn in Hs. subst r. destruct Hi as (_ & _ & Hl0 & Hl1 & _).
    eexists. by apply reader_alone.
Qed.

(** A reader loads the count before an update and the first word after it: it returns nothing of
    the attempt and reads the new value in the next. *)
Lemma entry_is_register_witness :
  exists s,
    run_accesses 2 [Read; RStep; RStep; Update [5; 6]; UStep; RStep; UStep; UStep; RStep; RStep; RStep; RStep; RStep; RStep; RStep; RStep; RStep; Read]
      (mk_accesses (mk_entry 7 [1; 2] [3; 4]) UIdle RIdle) = Some (s, [Updated [5; 6]; Returned [5; 6]])
    /\ register (ReadTimeSharedMemoryItem (mk_entry 7 [1; 2] [3; 4])) [Updated [5; 6]; Returned [5; 6]].
Proof.
  eexists. split; [vm_compute; reflexivity|].
  eapply (entry_is_register 2 (mk_entry 7 [1; 2] [3; 4])
            [Read; RStep; RStep; Update [5; 6]; UStep; RStep; UStep; UStep; RStep; RStep; RStep; RStep; RStep; RStep; RStep; RStep; RStep; Read]);
    [cbn; lia|done|done|vm_compute; reflexivity|vm_compute; reflexivity].
Defined.

(** ** Spans and identifiers *)

(** The span between two points is their exact difference, and an error when it has none of 64
    bits. *)
Lemma GetSpanBetween_exact a b id :
  - 2 ^ 63 <= a < 2 ^ 63 -> - 2 ^ 63 <= b < 2 ^ 63 ->
  GetSpanBetween (mk_timepoint a id) (mk_timepoint b id)
  = if decide (- 2 ^ 63 <= b - a < 2 ^ 63) then inr (b - a) else inl CompareOverflow.
Proof.
  intros Ha Hb. unfold GetSpanBetween. cbn [timePoint clockSourceId]. rewrite Z.eqb_refl. cbn [negb].
  destruct (Z.ltb_spec 0 a); [rewrite (swrap_small 64 (- 2 ^ 63 + a)) by lia|];
    destruct (Z.ltb_spec a 0); try rewrite (swrap_small 64 (2 ^ 63 - 1 + a)) by lia; try lia; cbn [andb orb].
  - destruct (Z.ltb_spec b (- 2 ^ 63 + a)); case_decide; try lia; [done|]. by rewrite swrap_small by lia.
  - destruct (Z.ltb_spec (2 ^ 63 - 1 + a) b); case_decide; try lia; [done|]. by rewrite swrap_small by lia.
  - case_decide; [|lia]. by rewrite swrap_small by lia.
Qed.

(** The time is the number of ticks in nanoseconds, rounded to the nearest, as long as it fits. *)
Lemma GetTimeNs_rounds frequency ticks :
  0 < frequency <= NsInSecond -> 0 <= ticks -> ticks / frequency < 2 ^ 33 ->
  GetTimeNs frequency ticks = (ticks * NsInSecond + frequency / 2) / frequency.
Proof.
  intros Hf Ht Hb. unfold GetTimeNs, NsInSecond in *. set (q := ticks / frequency) in *.
  assert (0 <= q) by (apply Z.div_pos; lia). pose proof (Z.mod_pos_bound ticks frequency ltac:(lia)) as Hr.
  set (r := ticks mod frequency) in *. assert (0 <= frequency / 2 < frequency) by (split; [apply Z.div_pos|apply Z.div_lt]; lia).
  assert (Hd : 0 <= (r * 1000000000 + frequency / 2) / frequency <= 1000000000).
  { split; [apply Z.div_pos; lia|]. apply Z.div_le_upper_bound; nia. }
  rewrite (wrap_small 64 (q * _)), (wrap_small 64 (r * _)), (wrap_small 64 (r * _ + _)), (wrap_small 64 (_ + _)), swrap_small by lia.
  replace ticks with (frequency * q + r) by (unfold q, r; symmetry; apply Z.div_mod; lia).
  replace ((frequency * q + r) * 1000000000 + frequency / 2) with (r * 1000000000 + frequency / 2 + q * 1000000000 * frequency) by lia.
  rewrite Z.div_add by lia. lia.
Qed.

(** Later ticks give a later time. *)
Lemma GetTimeNs_monotone frequency a b :
  0 < frequency <= NsInSecond -> 0 <= a <= b -> b / frequency < 2 ^ 33 -> GetTimeNs frequency a <= GetTimeNs frequency b.
Proof.
  intros Hf Hab Hb. pose proof (Z.div_le_mono a b frequency ltac:(lia) ltac:(lia)).
  rewrite !GetTimeNs_rounds by lia. apply Z.div_le_mono; unfold NsInSecond; lia.
Qed.

(** The two bits of the variant are [01], those of RFC 4122 are [10]. *)
Lemma uuid_variant b x : b !! 8%nat = Some x -> length b = 16%nat -> exists y, GenerateUuidV4 b !! 8%nat = Some y /\ Z.shiftr y 6 = 1.
Proof.
  intros Hx Hl. do 16 (destruct b as [|? b]; [done|]). destruct b; [|done]. cbn in Hx. injection Hx as <-. eexists. split; [reflexivity|].
  rewrite Z.shiftr_lor, Z.shiftr_shiftl_l, Z.shiftr_land by lia. change (Z.shiftr 63 6) with 0. rewrite Z.land_0_r. done.
Qed.
