(* ===== verification/TimeCore.v ===== *)
(** * The clocks of the time service ([services/timesrv/core.h], [services/timesrv/core.cpp],
    [services/timesrv/time_shared_memory.cpp], [services/timesrv/time_manager_server.cpp])

    The two steady clocks, the four system clocks over them, the callbacks that publish the context
    of a system clock in the shared memory and signal events, and the set-up of all of them.  Each
    reading of the host's counter is a value of its own: the [n]-th reading is [ticks n]. *)

From S2P Require Import Prelude Common MemoryManager Scheduler KObjects Process Sync TimeShared.

(** ** State *)

Inductive Steady : Type := Standard | TickBased.

Inductive Clock : Type := Local | Network | User | Ephemeral.

Inductive Callback : Type := LocalCallback | NetworkCallback | EphemeralCallback.

#[global] Instance Clock_eq_dec : EqDecision Clock.
Proof. solve_decision. Defined.

#[global] Instance Callback_eq_dec : EqDecision Callback.
Proof. solve_decision. Defined.

Record StandardSteadyClockCore : Type := mk_steady {
  rtcResetDetected : bool; st_initialized : bool;
  testOffset : Z; internalOffset : Z; rtcOffset : Z; cachedValue : Z; rtcId : Z }.

(** [updateCallback] is not initialised by the constructor: [None] until it is set. *)
Record SystemClockCore : Type := mk_clock {
  sc_initialized : bool; updateCallback : option Callback; sc_context : SystemClockContext }.

Record SystemClockContextUpdateCallback : Type := mk_callback {
  operationEvents : list Z; cb_context : option SystemClockContext }.

Record TimeSharedMemoryLayout : Type := mk_layout {
  standardSteadyClockContextEntry : ClockContextEntry SteadyClockTimePoint;
  localSystemClockContextEntry : ClockContextEntry SystemClockContext;
  networkSystemClockContextEntry : ClockContextEntry SystemClockContext;
  automaticCorrectionEnabledEntry : ClockContextEntry Z }.

(** The clocks and callbacks of the [TimeServiceObject], with the fields of the network and the user
    clock that the others do not have. *)
Record Time : Type := mk_time {
  tm_kernel : Kernel;
  tm_readings : nat;
  tm_shared : TimeSharedMemoryLayout;
  tm_callback : Callback -> SystemClockContextUpdateCallback;
  tm_steady : StandardSteadyClockCore;
  tm_tickId : Z;
  tm_clock : Clock -> SystemClockCore;
  sufficientAccuracy : Z;
  automaticCorrectionEnabled : bool;
  automaticCorrectionUpdatedTime : SteadyClockTimePoint;
  automaticCorrectionUpdatedEvent : Z;
  tm_sharedObject : Z }.

Definition set_kernel (k : Kernel) (t : Time) : Time :=
  mk_time k (tm_readings t) (tm_shared t) (tm_callback t) (tm_steady t) (tm_tickId t) (tm_clock t) (sufficientAccuracy t)
    (automaticCorrectionEnabled t) (automaticCorrectionUpdatedTime t) (automaticCorrectionUpdatedEvent t) (tm_sharedObject t).
Definition set_readings (n : nat) (t : Time) : Time :=
  mk_time (tm_kernel t) n (tm_shared t) (tm_callback t) (tm_steady t) (tm_tickId t) (tm_clock t) (sufficientAccuracy t)
    (automaticCorrectionEnabled t) (automaticCorrectionUpdatedTime t) (automaticCorrectionUpdatedEvent t) (tm_sharedObject t).
Definition set_shared (m : TimeSharedMemoryLayout) (t : Time) : Time :=
  mk_time (tm_kernel t) (tm_readings t) m (tm_callback t) (tm_steady t) (tm_tickId t) (tm_clock t) (sufficientAccuracy t)
    (automaticCorrectionEnabled t) (automaticCorrectionUpdatedTime t) (automaticCorrectionUpdatedEvent t) (tm_sharedObject t).
Definition set_callback (c : Callback) (v : SystemClockContextUpdateCallback) (t : Time) : Time :=
  mk_time (tm_kernel t) (tm_readings t) (tm_shared t) (fun c' => if decide (c' = c) then v else tm_callback t c') (tm_steady t)
    (tm_tickId t) (tm_clock t) (sufficientAccuracy t) (automaticCorrectionEnabled t) (automaticCorrectionUpdatedTime t)
    (automaticCorrectionUpdatedEvent t) (tm_sharedObject t).
Definition set_steady (v : StandardSteadyClockCore) (t : Time) : Time :=
  mk_time (tm_kernel t) (tm_readings t) (tm_shared t) (tm_callback t) v (tm_tickId t) (tm_clock t) (sufficientAccuracy t)
    (automaticCorrectionEnabled t) (automaticCorrectionUpdatedTime t) (automaticCorrectionUpdatedEvent t) (tm_sharedObject t).
Definition set_clock (c : Clock) (v : SystemClockCore) (t : Time) : Time :=
  mk_time (tm_kernel t) (tm_readings t) (tm_shared t) (tm_callback t) (tm_steady t) (tm_tickId t)
    (fun c' => if decide (c' = c) then v else tm_clock t c') (sufficientAccuracy t)
    (automaticCorrectionEnabled t) (automaticCorrectionUpdatedTime t) (automaticCorrectionUpdatedEvent t) (tm_sharedObject t).
Definition set_sufficientAccuracy (v : Z) (t : Time) : Time :=
  mk_time (tm_kernel t) (tm_readings t) (tm_shared t) (tm_callback t) (tm_steady t) (tm_tickId t) (tm_clock t) v
    (automaticCorrectionEnabled t) (automaticCorrectionUpdatedTime t) (automaticCorrectionUpdatedEvent t) (tm_sharedObject t).
Definition set_automaticCorrection (b : bool) (t : Time) : Time :=
  mk_time (tm_kernel t) (tm_readings t) (tm_shared t) (tm_callback t) (tm_steady t) (tm_tickId t) (tm_clock t)
    (sufficientAccuracy t) b (automaticCorrectionUpdatedTime t) (automaticCorrectionUpdatedEvent t) (tm_sharedObject t).
Definition set_updatedTime (p : SteadyClockTimePoint) (t : Time) : Time :=
  mk_time (tm_kernel t) (tm_readings t) (tm_shared t) (tm_callback t) (tm_steady t) (tm_tickId t) (tm_clock t)
    (sufficientAccuracy t) (automaticCorrectionEnabled t) p (automaticCorrectionUpdatedEvent t) (tm_sharedObject t).

Definition steady_of (c : Clock) : Steady := match c with Ephemeral => TickBased | _ => Standard end.

(** The result code of a [ResultValue]. *)
Definition result_of {A} (r : ResultValue A) : Z := match r with inl e => e | inr _ => Success end.

Section core.
Context (frequency : Z) (ticks : nat -> Z) (cur : Z).

(** ** Steady clocks *)

Definition reading (n : nat) : Z := GetTimeNs frequency (ticks n).

Definition read_time (t : Time) : Time * Z := (set_readings (S (tm_readings t)) t, reading (tm_readings t)).

Definition set_cachedValue (v : Z) (c : StandardSteadyClockCore) : StandardSteadyClockCore :=
  mk_steady (rtcResetDetected c) (st_initialized c) (testOffset c) (internalOffset c) (rtcOffset c) v (rtcId c).

Definition StandardSteadyClockCore_GetRawTimePoint (t : Time) : Time * Z :=
  let '(t, now) := read_time t in
  let point := span_add (FromNanoseconds now) (rtcOffset (tm_steady t)) in
  (if cachedValue (tm_steady t) <? point then set_steady (set_cachedValue point (tm_steady t)) t else t, point).

Definition StandardSteadyClockCore_GetTimePoint (t : Time) : Time * ResultValue SteadyClockTimePoint :=
  let '(t, raw) := StandardSteadyClockCore_GetRawTimePoint t in
  (t, inr (mk_timepoint (Seconds raw) (rtcId (tm_steady t)))).

Definition TickBasedSteadyClockCore_GetTimePoint (t : Time) : Time * ResultValue SteadyClockTimePoint :=
  let '(t, now) := read_time t in (t, inr (mk_timepoint (Seconds (FromNanoseconds now)) (tm_tickId t))).

Definition GetTimePoint (k : Steady) : Time -> Time * ResultValue SteadyClockTimePoint :=
  match k with
  | Standard => StandardSteadyClockCore_GetTimePoint
  | TickBased => TickBasedSteadyClockCore_GetTimePoint
  end.

Definition SteadyClockCore_GetRawTimePoint (k : Steady) (t : Time) : M (Time * Z) :=
  let '(t, point) := GetTimePoint k t in
  match point with
  | inr point => ok (t, FromSeconds (timePoint point))
  | inl _ => fail (Throw "Error reading timepoint")
  end.

Definition GetRawTimePoint (k : Steady) (t : Time) : M (Time * Z) :=
  match k with
  | Standard => ok (StandardSteadyClockCore_GetRawTimePoint t)
  | TickBased => SteadyClockCore_GetRawTimePoint TickBased t
  end.

Definition GetTestOffset (k : Steady) (t : Time) : Z := match k with Standard => testOffset (tm_steady t) | TickBased => 0 end.

Definition SetTestOffset (k : Steady) (v : Z) (t : Time) : Time :=
  match k with
  | Standard => let c := tm_steady t in
      set_steady (mk_steady (rtcResetDetected c) (st_initialized c) v (internalOffset c) (rtcOffset c) (cachedValue c) (rtcId c)) t
  | TickBased => t
  end.

Definition GetInternalOffset (k : Steady) (t : Time) : Z := match k with Standard => internalOffset (tm_steady t) | TickBased => 0 end.

Definition SetInternalOffset (k : Steady) (v : Z) (t : Time) : Time :=
  match k with
  | Standard => let c := tm_steady t in
      set_steady (mk_steady (rtcResetDetected c) (st_initialized c) (testOffset c) v (rtcOffset c) (cachedValue c) (rtcId c)) t
  | TickBased => t
  end.

Definition SetRtcOffset (v : Z) (t : Time) : Time :=
  let c := tm_steady t in
  set_steady (mk_steady (rtcResetDetected c) (st_initialized c) (testOffset c) (internalOffset c) v (cachedValue c) (rtcId c)) t.

Definition GetRtcValue (k : Steady) (t : Time) : ResultValue Z := inl Unimplemented.

Definition GetSetupResult (k : Steady) (t : Time) : Z := Success.

(** The tick based clock marks neither. *)
Definition IsRtcResetDetected (k : Steady) (t : Time) : bool := match k with Standard => rtcResetDetected (tm_steady t) | TickBased => false end.
Definition IsSteadyInitialized (k : Steady) (t : Time) : bool := match k with Standard => st_initialized (tm_steady t) | TickBased => false end.

Definition GetCurrentTimePoint (k : Steady) (t : Time) : Time * ResultValue SteadyClockTimePoint :=
  let '(t, point) := GetTimePoint k t in
  (t, match point with
      | inr point => inr (mk_timepoint (i64 (timePoint point + Seconds (span_add (GetTestOffset k t) (GetInternalOffset k t)))) (clockSourceId point))
      | inl e => inl e
      end).

Definition GetCurrentRawTimePoint (k : Steady) (t : Time) : M (Time * Z) :=
  let! (t, raw) := GetRawTimePoint k t in ok (t, span_add (span_add raw (GetTestOffset k t)) (GetInternalOffset k t)).

Definition StandardSteadyClockCore_Setup (pRtcId pRtcOffset pInternalOffset pTestOffset : Z) (reset : bool) (t : Time) : Time :=
  let c := tm_steady t in
  set_steady (mk_steady (if reset then true else rtcResetDetected c) true pTestOffset pInternalOffset pRtcOffset (cachedValue c) pRtcId) t.

(** ** Shared memory *)

Definition shared_SetupStandardSteadyClock (rtcId baseTimePoint : Z) (t : Time) : Time :=
  let '(t, now) := read_time t in
  let context := mk_timepoint (i64 (Nanoseconds baseTimePoint - now)) rtcId in
  let m := tm_shared t in
  set_shared (mk_layout (UpdateTimeSharedMemoryItem context (standardSteadyClockContextEntry m)) (localSystemClockContextEntry m)
                (networkSystemClockContextEntry m) (automaticCorrectionEnabledEntry m)) t.

Definition SetSteadyClockRawTimePoint (point : Z) (t : Time) : Time :=
  let context := ReadTimeSharedMemoryItem (standardSteadyClockContextEntry (tm_shared t)) in
  let '(t, now) := read_time t in
  let context := mk_timepoint (i64 (Nanoseconds point - now)) (clockSourceId context) in
  let m := tm_shared t in
  set_shared (mk_layout (UpdateTimeSharedMemoryItem context (standardSteadyClockContextEntry m)) (localSystemClockContextEntry m)
                (networkSystemClockContextEntry m) (automaticCorrectionEnabledEntry m)) t.

Definition UpdateLocalSystemClockContext (context : SystemClockContext) (t : Time) : Time :=
  let m := tm_shared t in
  set_shared (mk_layout (standardSteadyClockContextEntry m) (UpdateTimeSharedMemoryItem context (localSystemClockContextEntry m))
                (networkSystemClockContextEntry m) (automaticCorrectionEnabledEntry m)) t.

Definition UpdateNetworkSystemClockContext (context : SystemClockContext) (t : Time) : Time :=
  let m := tm_shared t in
  set_shared (mk_layout (standardSteadyClockContextEntry m) (localSystemClockContextEntry m)
                (UpdateTimeSharedMemoryItem context (networkSystemClockContextEntry m)) (automaticCorrectionEnabledEntry m)) t.

Definition SetStandardUserSystemClockAutomaticCorrectionEnabled (enabled : bool) (t : Time) : Time :=
  let m := tm_shared t in
  set_shared (mk_layout (standardSteadyClockContextEntry m) (localSystemClockContextEntry m) (networkSystemClockContextEntry m)
                (UpdateTimeSharedMemoryItem (if enabled then 1 else 0) (automaticCorrectionEnabledEntry m))) t.

(** ** Callbacks *)

Definition UpdateBaseContext (c : Callback) (newContext : SystemClockContext) (t : Time) : Time * bool :=
  let cb := tm_callback t c in
  if bool_decide (cb_context cb = Some newContext) then (t, false)
  else (set_callback c (mk_callback (operationEvents cb) (Some newContext)) t, true).

Definition KEvent_Signal (t : Time) (ref : Z) : M Time := let! k := KSyncObject_Signal cur ref (tm_kernel t) in ok (set_kernel k t).

Definition SignalOperationEvent (c : Callback) (t : Time) : M Time := foldM KEvent_Signal (operationEvents (tm_callback t c)) t.

Definition callback_AddOperationEvent (c : Callback) (event : Z) (t : Time) : Time :=
  let cb := tm_callback t c in set_callback c (mk_callback (operationEvents cb ++ [event]) (cb_context cb)) t.

Definition publish (c : Callback) (context : SystemClockContext) (t : Time) : Time :=
  match c with
  | LocalCallback => UpdateLocalSystemClockContext context t
  | NetworkCallback => UpdateNetworkSystemClockContext context t
  | EphemeralCallback => t
  end.

Definition UpdateContext (c : Callback) (newContext : SystemClockContext) (t : Time) : M (Time * Z) :=
  let '(t, updated) := UpdateBaseContext c newContext t in
  if negb updated then ok (t, Success)
  else let! t := SignalOperationEvent c (publish c newContext t) in ok (t, Success).

(** ** System clocks *)

Definition IsClockInitialized (c : Clock) (t : Time) : bool := sc_initialized (tm_clock t c).

Definition MarkInitialized (c : Clock) (t : Time) : Time :=
  let x := tm_clock t c in set_clock c (mk_clock true (updateCallback x) (sc_context x)) t.

Definition SetUpdateCallback (c : Clock) (callback : Callback) (t : Time) : Time :=
  let x := tm_clock t c in set_clock c (mk_clock (sc_initialized x) (Some callback) (sc_context x)) t.

Definition AddOperationEvent (c : Clock) (event : Z) (t : Time) : M Time :=
  match updateCallback (tm_clock t c) with
  | Some callback => ok (callback_AddOperationEvent callback event t)
  | None => fail (Undefined "the callback of the clock is not initialised")
  end.

Definition set_context (c : Clock) (context : SystemClockContext) (t : Time) : Time :=
  let x := tm_clock t c in set_clock c (mk_clock (sc_initialized x) (updateCallback x) context) t.

Definition SetClockContext (c : Clock) (newContext : SystemClockContext) (t : Time) : Time * Z :=
  match c with
  | User => (t, Unimplemented)
  | _ => (set_context c newContext t, Success)
  end.

Definition SystemClockCore_GetClockContext (c : Clock) (t : Time) : Time * ResultValue SystemClockContext := (t, inr (sc_context (tm_clock t c))).

(** [IsClockSetup], the virtual [GetClockContext] given. *)
Definition IsClockSetup_with (get : Time -> Time * ResultValue SystemClockContext) (c : Clock) (t : Time) : Time * bool :=
  let '(t, context) := get t in
  match context with
  | inl _ => (t, false)
  | inr _ =>
      let '(t, point) := GetCurrentTimePoint (steady_of c) t in
      (t, match point with inr point => UUID_Valid (clockSourceId point) | inl _ => false end)
  end.

(** Copies the context of the network clock to the local clock. *)
Definition resync (t : Time) : Time * Z :=
  let '(t, ctx) := SystemClockCore_GetClockContext Network t in
  match ctx with
  | inl e => (t, e)
  | inr ctx => SetClockContext Local ctx t
  end.

Definition StandardUserSystemClockCore_GetClockContext (t : Time) : Time * ResultValue SystemClockContext :=
  let '(t, setup) := if automaticCorrectionEnabled t then IsClockSetup_with (SystemClockCore_GetClockContext Network) Network t else (t, false) in
  if setup then
    let '(t, result) := resync t in
    if negb (result =? Success) then (t, inl result) else SystemClockCore_GetClockContext Local t
  else SystemClockCore_GetClockContext Local t.

Definition GetClockContext (c : Clock) : Time -> Time * ResultValue SystemClockContext :=
  match c with
  | User => StandardUserSystemClockCore_GetClockContext
  | _ => SystemClockCore_GetClockContext c
  end.

Definition IsClockSetup (c : Clock) : Time -> Time * bool := IsClockSetup_with (GetClockContext c) c.

Definition UpdateClockContext (c : Clock) (newContext : SystemClockContext) (t : Time) : M (Time * Z) :=
  let '(t, result) := SetClockContext c newContext t in
  if negb (result =? Success) then ok (t, result)
  else match updateCallback (tm_clock t c) with
       | Some callback => UpdateContext callback newContext t
       | None => fail (Undefined "the callback of the clock is not initialised")
       end.

(** The result of the update is dropped. *)
Definition SetCurrentTime (c : Clock) (posixTimePoint : Z) (t : Time) : M (Time * Z) :=
  let '(t, point) := GetCurrentTimePoint (steady_of c) t in
  match point with
  | inl e => ok (t, e)
  | inr point =>
      let! (t, _) := UpdateClockContext c (mk_context (i64 (posixTimePoint - timePoint point)) point) t in
      ok (t, Success)
  end.

Definition GetCurrentTime (c : Clock) (t : Time) : Time * ResultValue Z :=
  let '(t, point) := GetCurrentTimePoint (steady_of c) t in
  match point with
  | inl e => (t, inl e)
  | inr point =>
      let '(t, context) := GetClockContext c t in
      match context with
      | inl e => (t, inl e)
      | inr context =>
          if negb (clockSourceId (timestamp context) =? clockSourceId point) then (t, inl ClockSourceIdMismatch)
          else (t, inr (i64 (offset context + timePoint point)))
      end
  end.

Definition StandardLocalSystemClockCore_Setup (context : SystemClockContext) (posixTime : Z) (t : Time) : M Time :=
  let '(t, point) := GetCurrentTimePoint Standard t in
  let same := match point with inr point => clockSourceId point =? clockSourceId (timestamp context) | inl _ => false end in
  let! (t, result) := if same then UpdateClockContext Local context t else SetCurrentTime Local posixTime t in
  if negb (result =? Success) then fail (Throw "Failed to setup StandardLocalSystemClockCore") else ok (MarkInitialized Local t).

Definition StandardNetworkSystemClockCore_Setup (context : SystemClockContext) (newSufficientAccuracy : Z) (t : Time) : M Time :=
  let! (t, result) := UpdateClockContext Network context t in
  if negb (result =? Success) then fail (Throw "Failed to set up StandardNetworkSystemClockCore")
  else ok (MarkInitialized Network (set_sufficientAccuracy newSufficientAccuracy t)).

Definition IsAccuracySufficient (t : Time) : Time * bool :=
  if negb (IsClockInitialized Network t) then (t, false)
  else
    let '(t, point) := GetCurrentTimePoint Standard t in
    (t, match point with
        | inl _ => false
        | inr point =>
            match GetSpanBetween (timestamp (sc_context (tm_clock t Network))) point with
            | inr span => span <? Seconds (sufficientAccuracy t)
            | inl _ => false
            end
        end).

(** ** The user clock *)

Definition SetAutomaticCorrectionEnabled (enable : bool) (t : Time) : Time * Z :=
  let '(t, setup) := if negb (eqb enable (automaticCorrectionEnabled t)) then IsClockSetup Network t else (t, false) in
  let '(t, result) := if setup then resync t else (t, Success) in
  if negb (result =? Success) then (t, result) else (set_automaticCorrection enable t, Success).

Definition SetAutomaticCorrectionUpdatedTime (point : SteadyClockTimePoint) (t : Time) : M Time :=
  KEvent_Signal (set_updatedTime point t) (automaticCorrectionUpdatedEvent t).

Definition UpdateAutomaticCorrectionState (enable : bool) (t : Time) : M (Time * Z) :=
  let '(t, result) := SetAutomaticCorrectionEnabled enable t in
  if result =? Success then
    let t := SetStandardUserSystemClockAutomaticCorrectionEnabled enable t in
    let '(t, point) := GetCurrentTimePoint Standard t in
    match point with
    | inr point => let! t := SetAutomaticCorrectionUpdatedTime point t in ok (t, result)
    | inl e => ok (t, e)
    end
  else ok (t, result).

Definition StandardUserSystemClockCore_Setup (enable : bool) (updateTime : SteadyClockTimePoint) (t : Time) : M Time :=
  let '(t, result) := SetAutomaticCorrectionEnabled enable t in
  if negb (result =? Success) then fail (Throw "Failed to set up SetupStandardUserSystemClock")
  else
    let! t := SetAutomaticCorrectionUpdatedTime updateTime t in
    ok (SetStandardUserSystemClockAutomaticCorrectionEnabled enable (MarkInitialized User t)).

Definition EphemeralNetworkSystemClockCore_Setup (t : Time) : Time := MarkInitialized Ephemeral t.

(** ** The manager *)

Definition SetupStandardSteadyClock (rtcId rtcOffset internalOffset testOffset : Z) (reset : bool) (t : Time) : M Time :=
  let t := StandardSteadyClockCore_Setup rtcId rtcOffset internalOffset testOffset reset t in
  let! (t, point) := GetCurrentRawTimePoint Standard t in
  ok (shared_SetupStandardSteadyClock rtcId point t).

Definition SetupStandardLocalSystemClock (context : SystemClockContext) (posixTime : Z) (t : Time) : M Time :=
  StandardLocalSystemClockCore_Setup context posixTime (SetUpdateCallback Local LocalCallback t).

Definition SetupStandardNetworkSystemClock (context : SystemClockContext) (accuracy : Z) (t : Time) : M Time :=
  StandardNetworkSystemClockCore_Setup context accuracy (SetUpdateCallback Network NetworkCallback t).

Definition SetupStandardUserSystemClock (enable : bool) (updateTime : SteadyClockTimePoint) (t : Time) : M Time :=
  StandardUserSystemClockCore_Setup enable updateTime t.

Definition SetupEphemeralSystemClock (t : Time) : Time :=
  EphemeralNetworkSystemClockCore_Setup (SetUpdateCallback Ephemeral EphemeralCallback t).

Definition SetStandardSteadyClockRtcOffset (rtcOffset : Z) (t : Time) : M Time :=
  let t := SetRtcOffset rtcOffset t in
  let! (t, point) := GetCurrentRawTimePoint Standard t in ok (SetSteadyClockRawTimePoint point t).

(** ** The set-up of the service *)

Definition nil_point : SteadyClockTimePoint := mk_timepoint 0 0.
Definition nil_context : SystemClockContext := mk_context 0 nil_point.
Definition nil_clock : SystemClockCore := mk_clock false None nil_context.

(** The members before the body of the constructor: the shared memory, which the host hands out
    zeroed, the identifier of the tick based clock, and the event of the user clock. *)
Definition Time_new (env : host_env) (tickId : Z) (k : Kernel) : M Time :=
  let! (k, shared) := KSharedMemory_new env 0x1000 states_SharedMemory KT_KSharedMemory k in
  let '(k, event) := new_object (OEvent (mk_sync false [])) k in
  ok (mk_time k 0 (mk_layout (mk_entry 0 nil_point nil_point) (mk_entry 0 nil_context nil_context) (mk_entry 0 nil_context nil_context) (mk_entry 0 0 0))
        (fun _ => mk_callback [] None) (mk_steady false false 0 0 0 0 0) tickId (fun _ => nil_clock) (FromDays 10) false nil_point event shared).

(** The clocks in the body of the constructor; [seconds] is [std::time], [rtcId] and [userId] are
    the generated identifiers. *)
Definition TimeServiceObject_clocks (seconds rtcId userId : Z) (t : Time) : M Time :=
  let '(t, now) := read_time t in
  let rtcOffset := span_sub (FromSeconds seconds) (FromNanoseconds now) in
  let! t := SetupStandardSteadyClock rtcId rtcOffset 0 0 false t in
  let! t := SetupStandardLocalSystemClock (mk_context 0 (mk_timepoint 0 rtcId)) 0 t in
  let '(t, context) := GetClockContext Local t in
  match context with
  | inl _ => fail (Throw "Failed to get local system clock context!")
  | inr context =>
      let! t := SetupStandardNetworkSystemClock context (FromDays 30) t in
      let! t := SetupStandardUserSystemClock false (mk_timepoint 0 userId) t in
      ok (SetupEphemeralSystemClock t)
  end.

End core.

(** ** Reading the time *)

(** [t'] is [t] after [n] readings of the host's counter. *)
Definition ticked (n : nat) (t t' : Time) : Prop :=
  t' = set_readings (tm_readings t + n) (set_steady (set_cachedValue (cachedValue (tm_steady t')) (tm_steady t)) t).


Lemma ticked_trans n m t1 t2 t3 : ticked n t1 t2 -> ticked m t2 t3 -> ticked (n + m) t1 t3.
Proof.
  unfold ticked. intros -> ->. destruct t1 as [? ? ? ? [] ? ? ? ? ? ? ?]. unfold set_readings, set_steady, set_cachedValue. cbn. by rewrite Nat.add_assoc.
Qed.

Section properties.
Context (frequency : Z) (ticks : nat -> Z) (cur : Z).

Abbreviation reading := (reading frequency ticks).
Abbreviation GetCurrentTimePoint := (GetCurrentTimePoint frequency ticks).
Abbreviation GetCurrentTime := (GetCurrentTime frequency ticks).
Abbreviation SetCurrentTime := (SetCurrentTime frequency ticks cur).

(** The point a steady clock gives at the next reading. *)
Definition now_point (k : Steady) (t : Time) : SteadyClockTimePoint :=
  match k with
  | Standard =>
      mk_timepoint (i64 (Seconds (span_add (reading (tm_readings t)) (rtcOffset (tm_steady t)))
                         + Seconds (span_add (testOffset (tm_steady t)) (internalOffset (tm_steady t))))) (rtcId (tm_steady t))
  | TickBased => mk_timepoint (i64 (Seconds (reading (tm_readings t)) + 0)) (tm_tickId t)
  end.

Lemma GetCurrentTimePoint_now k t : exists t', GetCurrentTimePoint k t = (t', inr (now_point k t)) /\ ticked 1 t t'.
Proof.
  destruct t as [? ? ? ? [] ? ? ? ? ? ? ?]. destruct k; cbn;
    [destruct (_ <? _)|]; (eexists; split; [reflexivity|]); unfold ticked, set_readings, set_steady, set_cachedValue; cbn; by rewrite Nat.add_1_r.
Qed.

Lemma GetClockContext_ticked c t : c <> User -> GetClockContext frequency ticks c t = (t, inr (sc_context (tm_clock t c))).
Proof. by destruct c. Qed.

(** What a clock other than the user's reads, from its context. *)
Lemma GetCurrentTime_reads c t :
  c <> User -> clockSourceId (timestamp (sc_context (tm_clock t c))) = clockSourceId (now_point (steady_of c) t) ->
  exists t', GetCurrentTime c t = (t', inr (i64 (offset (sc_context (tm_clock t c)) + timePoint (now_point (steady_of c) t)))) /\ ticked 1 t t'.
Proof.
  intros Hc Hid. unfold TimeCore.GetCurrentTime. destruct (GetCurrentTimePoint_now (steady_of c) t) as (t' & -> & Ht).
  cbn zeta beta iota. rewrite GetClockContext_ticked by done. assert (tm_clock t' = tm_clock t) as -> by (by rewrite Ht).
  rewrite Hid, Z.eqb_refl. cbn. eauto.
Qed.


(** ** Publishing a context *)

(** The entry of the shared memory a callback writes. *)
Definition entry_of (c : Callback) (t : Time) : option (ClockContextEntry SystemClockContext) :=
  match c with
  | LocalCallback => Some (localSystemClockContextEntry (tm_shared t))
  | NetworkCallback => Some (networkSystemClockContextEntry (tm_shared t))
  | EphemeralCallback => None
  end.

(** What applications read of the clock of a callback. *)
Definition published (c : Callback) (t : Time) : option SystemClockContext := ReadTimeSharedMemoryItem <$> entry_of c t.

(** The last context a callback was called with is the one in the shared memory. *)
Definition coherent (t : Time) : Prop :=
  forall c x, cb_context (tm_callback t c) = Some x -> c <> EphemeralCallback -> published c t = Some x.

Lemma Read_Update {T} (v : T) e : ReadTimeSharedMemoryItem (UpdateTimeSharedMemoryItem v e) = v.
Proof.
  unfold ReadTimeSharedMemoryItem, UpdateTimeSharedMemoryItem, set_updateCount, set_item, item. cbn.
  destruct (Z.land (u32 (updateCount e + 1)) 1 =? 0) eqn:E; cbn; rewrite ?E; done.
Qed.

Lemma published_publish c c' x t :
  c <> EphemeralCallback -> published c' (publish c x t) = if decide (c' = c) then Some x else published c' t.
Proof. intros H. destruct c, c'; cbn; try done; unfold published; cbn; by rewrite Read_Update. Qed.

(** Signalling the events of a callback changes the kernel only. *)
Lemma KEvent_Signals_kernel events t :
  foldM (KEvent_Signal cur) events t = let! k := foldM (fun k ref => KSyncObject_Signal cur ref k) events (tm_kernel t) in ok (set_kernel k t).
Proof.
  revert t. induction events as [|ref events IH]; intros t; cbn.
  - by destruct t.
  - unfold KEvent_Signal at 1. destruct (KSyncObject_Signal cur ref (tm_kernel t)) as [f|k]; [done|]. cbn. rewrite IH. cbn.
    by destruct (foldM _ events k).
Qed.

(** The events of a callback can be signalled in the kernel as it is. *)
Definition signalable (c : Callback) (t : Time) : Prop :=
  exists k, foldM (fun k ref => KSyncObject_Signal cur ref k) (operationEvents (tm_callback t c)) (tm_kernel t) = inr k.

(** An update leaves everything but the kernel, the callback and the shared memory, and what it
    leaves is coherent and shows the new context. *)
Lemma UpdateContext_publishes c x t :
  coherent t -> signalable c t ->
  exists t', UpdateContext cur c x t = inr (t', Success) /\ coherent t' /\ (c <> EphemeralCallback -> published c t' = Some x)
    /\ tm_clock t' = tm_clock t /\ tm_steady t' = tm_steady t /\ tm_readings t' = tm_readings t /\ tm_tickId t' = tm_tickId t.
Proof.
  intros Hc [k Hk]. unfold UpdateContext, UpdateBaseContext. destruct (bool_decide_reflect (cb_context (tm_callback t c) = Some x)) as [E|E]; cbn.
  - eexists. split_and!; try done. intros Hne. by apply Hc.
  - unfold SignalOperationEvent. rewrite KEvent_Signals_kernel.
    assert (tm_kernel (publish c x (set_callback c (mk_callback (operationEvents (tm_callback t c)) (Some x)) t)) = tm_kernel t) as -> by (by destruct c).
    assert (operationEvents (tm_callback (publish c x (set_callback c (mk_callback (operationEvents (tm_callback t c)) (Some x)) t)) c)
            = operationEvents (tm_callback t c)) as -> by (by destruct c).
    rewrite Hk. cbn. eexists. split_and!; [done| | |by destruct c..].
    + intros c' y Hy Hne. destruct c, c'; cbn in *; simplify_eq; try done; unfold published; cbn; rewrite ?Read_Update; try done;
        by apply (Hc _ _ Hy).
    + intros Hne. destruct c; try done; unfold published; cbn; by rewrite Read_Update.
Qed.

(** A callback that is called with a new context returns only when its events can be signalled. *)
Lemma UpdateContext_signals c x t t' r :
  cb_context (tm_callback t c) <> Some x -> UpdateContext cur c x t = inr (t', r) -> signalable c t.
Proof.
  intros E. unfold UpdateContext, UpdateBaseContext. rewrite bool_decide_eq_false_2 by done. cbn [negb].
  unfold SignalOperationEvent. rewrite KEvent_Signals_kernel.
  replace (tm_kernel _) with (tm_kernel t) by (by destruct c). replace (operationEvents (tm_callback (publish _ _ _) c)) with (operationEvents (tm_callback t c))
    by (destruct c; cbn; by rewrite decide_True by done).
  unfold signalable. destruct (foldM _ _ _) as [|k]; [done|]. eauto.
Qed.

(** A clock other than the user's sets its context and calls its callback. *)
Lemma UpdateClockContext_calls c cb x t :
  c <> User -> updateCallback (tm_clock t c) = Some cb -> UpdateClockContext cur c x t = UpdateContext cur cb x (set_context c x t).
Proof.
  intros Hu Hcb. unfold UpdateClockContext. assert (SetClockContext c x t = (set_context c x t, Success)) as -> by (by destruct c).
  rewrite Z.eqb_refl. cbn [negb].
  by assert (updateCallback (tm_clock (set_context c x t) c) = Some cb) as -> by (cbn; by rewrite decide_True by done).
Qed.

Lemma UpdateClockContext_publishes c cb x t :
  c <> User -> updateCallback (tm_clock t c) = Some cb -> coherent t -> signalable cb t ->
  exists t', UpdateClockContext cur c x t = inr (t', Success) /\ coherent t' /\ (cb <> EphemeralCallback -> published cb t' = Some x)
    /\ tm_clock t' = tm_clock (set_context c x t) /\ tm_steady t' = tm_steady t /\ tm_readings t' = tm_readings t /\ tm_tickId t' = tm_tickId t.
Proof.
  intros Hu Hcb Hc Hs. rewrite (UpdateClockContext_calls c cb) by done.
  exact (UpdateContext_publishes cb x (set_context c x t) Hc Hs).
Qed.

Lemma i64_add_sub a b c : i64 (i64 (a - b) + c) = i64 (a + (c - b)).
Proof.
  assert (E : (i64 (a - b) + c) mod 2 ^ 64 = (a + (c - b)) mod 2 ^ 64).
  { replace (a + (c - b)) with (a - b + c) by lia. rewrite <- (Zplus_mod_idemp_l (a - b)), <- (Zplus_mod_idemp_l (i64 (a - b))). do 2 f_equal.
    unfold swrap. destruct (_ <? _); [by rewrite Z.mod_mod by lia|]. by rewrite Zminus_mod, Z.mod_same, Z.sub_0_r, !Z.mod_mod by lia. }
  set (x := i64 (a - b) + c) in *. unfold swrap. by rewrite E.
Qed.

(** A clock other than the user's that is set to a time reads that time and the seconds that passed
    since, and shows applications the context it reads it from. *)
Lemma SetCurrentTime_GetCurrentTime c cb posixTime t :
  c <> User -> updateCallback (tm_clock t c) = Some cb -> coherent t -> signalable cb t ->
  exists t',
    SetCurrentTime c posixTime t = inr (t', Success)
    /\ coherent t' /\ (cb <> EphemeralCallback -> published cb t' = Some (sc_context (tm_clock t' c)))
    /\ forall n t'', ticked n t' t'' ->
       (GetCurrentTime c t'').2
       = inr (i64 (posixTime + (timePoint (now_point (steady_of c) t'') - timePoint (now_point (steady_of c) t)))).
Proof.
  intros Hu Hcb Hc Hs. unfold TimeCore.SetCurrentTime. destruct (GetCurrentTimePoint_now (steady_of c) t) as (t1 & -> & Ht). cbn zeta beta iota.
  set (p := now_point (steady_of c) t). set (x := mk_context (i64 (posixTime - timePoint p)) p).
  destruct (UpdateClockContext_publishes c cb x t1) as (t' & -> & Hc' & Hp & Hk & Hst & Hr & Hid);
    [done|by rewrite Ht|by rewrite Ht|by rewrite Ht|].
  assert (Hx : sc_context (tm_clock t' c) = x) by (rewrite Hk; cbn; by rewrite decide_True by done).
  exists t'. split_and!; [done|done|intros; rewrite Hx; by apply Hp|]. intros n t'' Hn.
  assert (Hctx : sc_context (tm_clock t'' c) = x) by (by rewrite Hn).
  destruct (GetCurrentTime_reads c t'') as (t3 & -> & _); [done| |].
  - rewrite Hctx. cbn. unfold p. rewrite Hn. destruct (steady_of c); cbn; [rewrite Hst, Ht|rewrite Hid, Ht]; done.
  - rewrite Hctx. cbn [snd]. f_equal. cbn [x offset]. apply i64_add_sub.
Qed.

(** ** The set-up *)

Lemma Signal_new_event k event :
  get_object k event = Some (OEvent (mk_sync false [])) -> exists k', KSyncObject_Signal cur event k = inr k'.
Proof. intros E. unfold KSyncObject_Signal, sync_object. rewrite E. cbn. eauto. Qed.

(** The clocks after the set-up: the standard clock counts from the host's time at the first
    reading, the local and the network clock have no offset from it. *)
Definition set_up (seconds rtcId : Z) (t : Time) : Prop :=
  let x := mk_context 0 (mk_timepoint 0 rtcId) in
  let s := tm_steady t in
  rtcOffset s = span_sub (FromSeconds seconds) (reading 0) /\ testOffset s = 0 /\ internalOffset s = 0 /\ TimeCore.rtcId s = rtcId
  /\ st_initialized s = true /\ automaticCorrectionEnabled t = false
  /\ sc_context (tm_clock t Local) = x /\ sc_context (tm_clock t Network) = x
  /\ (forall c, IsClockInitialized c t = true)
  /\ published LocalCallback t = Some x /\ published NetworkCallback t = Some x
  /\ ReadTimeSharedMemoryItem (standardSteadyClockContextEntry (tm_shared t))
     = mk_timepoint (i64 (span_add (span_add (span_add (reading 1) (rtcOffset s)) 0) 0 - reading 2)) rtcId
  /\ updateCallback (tm_clock t Local) = Some LocalCallback /\ updateCallback (tm_clock t Network) = Some NetworkCallback.

(** A callback that is called for the first time and has no events. *)
Lemma UpdateContext_first cb x t :
  tm_callback t cb = mk_callback [] None ->
  UpdateContext cur cb x t = inr (publish cb x (set_callback cb (mk_callback [] (Some x)) t), Success).
Proof.
  intros Hf. unfold UpdateContext, UpdateBaseContext. rewrite Hf, bool_decide_eq_false_2 by done. cbn [negb operationEvents].
  unfold SignalOperationEvent. rewrite KEvent_Signals_kernel.
  replace (operationEvents _) with (@nil Z) by (destruct cb; cbn; by rewrite decide_True by done). cbn. by destruct cb.
Qed.

Lemma UpdateClockContext_first c cb x t :
  c <> User -> updateCallback (tm_clock t c) = Some cb -> tm_callback t cb = mk_callback [] None ->
  UpdateClockContext cur c x t = inr (publish cb x (set_callback cb (mk_callback [] (Some x)) (set_context c x t)), Success).
Proof.
  intros Hu Hcb Hf. rewrite (UpdateClockContext_calls c cb) by done.
  exact (UpdateContext_first cb x (set_context c x t) Hf).
Qed.

Lemma raw_ticked t :
  exists v, StandardSteadyClockCore_GetRawTimePoint frequency ticks t
    = (set_readings (S (tm_readings t)) (set_steady (set_cachedValue v (tm_steady t)) t), span_add (reading (tm_readings t)) (rtcOffset (tm_steady t))).
Proof.
  destruct t as [? ? ? ? [] ? ? ? ? ? ? ?]. unfold StandardSteadyClockCore_GetRawTimePoint. cbn. destruct (_ <? _); (eexists; reflexivity).
Qed.

Lemma current_ticked t :
  exists v, GetCurrentTimePoint Standard t
    = (set_readings (S (tm_readings t)) (set_steady (set_cachedValue v (tm_steady t)) t), inr (now_point Standard t)).
Proof.
  destruct (raw_ticked t) as [v E]. exists v. unfold TimeCore.GetCurrentTimePoint, GetTimePoint, StandardSteadyClockCore_GetTimePoint. by rewrite E.
Qed.

(** The states after each part of the set-up. *)
Lemma SetupStandardSteadyClock_eq id o t :
  exists v, SetupStandardSteadyClock frequency ticks id o 0 0 false t
    = inr (shared_SetupStandardSteadyClock frequency ticks id (span_add (span_add (span_add (reading (tm_readings t)) o) 0) 0)
             (set_readings (S (tm_readings t)) (set_steady (mk_steady (rtcResetDetected (tm_steady t)) true 0 0 o v id) t))).
Proof.
  unfold SetupStandardSteadyClock, GetCurrentRawTimePoint. cbn [GetRawTimePoint].
  destruct (raw_ticked (StandardSteadyClockCore_Setup id o 0 0 false t)) as [v ->]. by exists v.
Qed.

Lemma SetupStandardLocalSystemClock_eq x posixTime t :
  clockSourceId (timestamp x) = rtcId (tm_steady t) -> tm_callback t LocalCallback = mk_callback [] None ->
  exists v, SetupStandardLocalSystemClock frequency ticks cur x posixTime t
    = inr (MarkInitialized Local (publish LocalCallback x (set_callback LocalCallback (mk_callback [] (Some x)) (set_context Local x
             (set_readings (S (tm_readings t)) (set_steady (set_cachedValue v (tm_steady t)) (SetUpdateCallback Local LocalCallback t))))))).
Proof.
  intros Hid Hf. unfold SetupStandardLocalSystemClock, StandardLocalSystemClockCore_Setup.
  destruct (current_ticked (SetUpdateCallback Local LocalCallback t)) as [v ->]. exists v. cbn [now_point clockSourceId].
  rewrite Hid. cbn [SetUpdateCallback set_clock tm_steady]. rewrite Z.eqb_refl. rewrite (UpdateClockContext_first Local LocalCallback) by (done || (cbn; by rewrite decide_True by done)).
  cbn [bindM]. by rewrite Z.eqb_refl.
Qed.

Lemma SetupStandardNetworkSystemClock_eq x accuracy t :
  tm_callback t NetworkCallback = mk_callback [] None ->
  SetupStandardNetworkSystemClock cur x accuracy t
  = inr (MarkInitialized Network (set_sufficientAccuracy accuracy (publish NetworkCallback x (set_callback NetworkCallback (mk_callback [] (Some x))
           (set_context Network x (SetUpdateCallback Network NetworkCallback t)))))).
Proof.
  intros Hf. unfold SetupStandardNetworkSystemClock, StandardNetworkSystemClockCore_Setup.
  rewrite (UpdateClockContext_first Network NetworkCallback) by (done || (cbn; by rewrite decide_True by done)). cbn [bindM]. by rewrite Z.eqb_refl.
Qed.

Lemma SetupStandardUserSystemClock_eq p t k :
  automaticCorrectionEnabled t = false -> KSyncObject_Signal cur (automaticCorrectionUpdatedEvent t) (tm_kernel t) = inr k ->
  SetupStandardUserSystemClock frequency ticks cur false p t
  = inr (SetStandardUserSystemClockAutomaticCorrectionEnabled false (MarkInitialized User (set_kernel k (set_updatedTime p (set_automaticCorrection false t))))).
Proof.
  intros Ha Hk. unfold SetupStandardUserSystemClock, StandardUserSystemClockCore_Setup, SetAutomaticCorrectionEnabled. rewrite Ha. cbn [negb eqb].
  rewrite Z.eqb_refl. cbn [negb]. rewrite Z.eqb_refl. cbn [negb]. unfold SetAutomaticCorrectionUpdatedTime, KEvent_Signal.
  cbn [set_updatedTime set_automaticCorrection tm_kernel automaticCorrectionUpdatedEvent]. rewrite Hk. done.
Qed.

Lemma TimeServiceObject_set_up env tickId k t0 seconds rtcId userId :
  Time_new env tickId k = inr t0 ->
  exists t, TimeServiceObject_clocks frequency ticks cur seconds rtcId userId t0 = inr t /\ coherent t /\ set_up seconds rtcId t.
Proof.
  unfold Time_new. destruct (KSharedMemory_new _ _ _ _ _) as [|[k1 shared]]; [done|]. cbn [bindM].
  destruct (new_object (OEvent (mk_sync false [])) k1) as [k2 event] eqn:Ek. intros [= <-].
  assert (Hev : get_object k2 event = Some (OEvent (mk_sync false []))).
  { injection Ek as <- <-. unfold get_object. cbn. by rewrite lookup_insert_eq. }
  destruct (Signal_new_event _ _ Hev) as [k3 Hk3]. unfold TimeServiceObject_clocks. cbn [read_time]. set (t0 := mk_time _ _ _ _ _ _ _ _ _ _ _ _).
  destruct (SetupStandardSteadyClock_eq rtcId (span_sub (FromSeconds seconds) (FromNanoseconds (reading (tm_readings t0))))
              (set_readings (S (tm_readings t0)) t0)) as [v1 ->].
  cbn [bindM]. set (t1 := shared_SetupStandardSteadyClock _ _ _ _ _).
  destruct (SetupStandardLocalSystemClock_eq (mk_context 0 (mk_timepoint 0 rtcId)) 0 t1) as [v2 ->]; [done..|]. cbn [bindM].
  set (t2 := MarkInitialized Local _). rewrite GetClockContext_ticked by done.
  rewrite SetupStandardNetworkSystemClock_eq by (cbn; by rewrite decide_False by done). cbn [bindM]. set (t3 := MarkInitialized Network _).
  rewrite (SetupStandardUserSystemClock_eq _ _ k3) by done. cbn [bindM ok].
  set (x := mk_context 0 (mk_timepoint 0 rtcId)) in *.
  eexists. split; [reflexivity|]. split.
  - intros c y Hy Hne. destruct c; [| |done]; change (Some x = Some y) in Hy; rewrite <- Hy; reflexivity.
  - unfold set_up. fold x. split_and!; try reflexivity. by intros [].
Qed.






(** ** All operations *)

(** What the operations that do not update a context keep. *)
Definition kept (t t' : Time) : Prop :=
  (forall c, cb_context (tm_callback t' c) = cb_context (tm_callback t c)) /\ (forall c, entry_of c t' = entry_of c t)
  /\ (forall c, updateCallback (tm_clock t' c) = updateCallback (tm_clock t c)).

#[local] Instance kept_preorder : PreOrder kept.
Proof.
  split; [by intros t|]. intros t1 t2 t3 (H1 & H2 & H3) (H4 & H5 & H6). split_and!; intros c; [rewrite H4|rewrite H5|rewrite H6]; auto.
Qed.

Lemma ticked_kept n t t' : ticked n t t' -> kept t t'.
Proof. unfold ticked, kept. by intros ->. Qed.

Lemma point_kept k t : kept t (GetCurrentTimePoint k t).1.
Proof. destruct (GetCurrentTimePoint_now k t) as (t' & -> & Ht). by eapply ticked_kept. Qed.

Lemma SetClockContext_kept c x t : kept t (SetClockContext c x t).1.
Proof.
  assert (forall c, kept t (set_context c x t)) as H by (intros c1; split_and!; [done..|]; intros c2; cbn; destruct (decide (c2 = c1)) as [->|]; done).
  destruct c; [apply H..|done|apply H].
Qed.

Lemma resync_kept t : kept t (resync t).1.
Proof. apply (SetClockContext_kept Local). Qed.

Lemma IsClockSetup_kept t : kept t (IsClockSetup frequency ticks Network t).1.
Proof.
  unfold IsClockSetup, IsClockSetup_with. cbn [GetClockContext SystemClockCore_GetClockContext]. pose proof (point_kept (steady_of Network) t) as H.
  by destruct (GetCurrentTimePoint (steady_of Network) t).
Qed.

Lemma GetClockContext_kept c t : kept t (GetClockContext frequency ticks c t).1.
Proof.
  destruct c; try done. cbn. unfold StandardUserSystemClockCore_GetClockContext. pose proof (IsClockSetup_kept t) as H. unfold IsClockSetup in H.
  destruct (automaticCorrectionEnabled t); [|done]. destruct (IsClockSetup_with _ _ _ _ t) as [t1 []]; [|done].
  pose proof (resync_kept t1) as H1. destruct (resync t1) as [t2 r]. cbn in *. destruct (negb _); cbn; by transitivity t1.
Qed.

Lemma GetCurrentTime_kept c t : kept t (GetCurrentTime c t).1.
Proof.
  unfold TimeCore.GetCurrentTime. pose proof (point_kept (steady_of c) t) as H. destruct (GetCurrentTimePoint _ t) as [t1 [|p]]; [done|].
  pose proof (GetClockContext_kept c t1) as H1. destruct (GetClockContext _ _ c t1) as [t2 [|x]]; cbn in *; [by transitivity t1|].
  destruct (negb _); cbn; by transitivity t1.
Qed.

Lemma SetAutomaticCorrectionEnabled_kept b t : kept t (SetAutomaticCorrectionEnabled frequency ticks b t).1.
Proof.
  unfold SetAutomaticCorrectionEnabled. pose proof (IsClockSetup_kept t) as H. destruct (negb (eqb b _)); [|done].
  destruct (IsClockSetup _ _ Network t) as [t1 []]; [|done]. pose proof (resync_kept t1) as H1. destruct (resync t1) as [t2 r]. cbn in *.
  destruct (negb _); cbn; transitivity t1; done.
Qed.

Lemma UpdateAutomaticCorrectionState_kept b t t' r : UpdateAutomaticCorrectionState frequency ticks cur b t = inr (t', r) -> kept t t'.
Proof.
  unfold UpdateAutomaticCorrectionState. pose proof (SetAutomaticCorrectionEnabled_kept b t) as H.
  destruct (SetAutomaticCorrectionEnabled _ _ b t) as [t1 r1]. cbn in H. destruct (r1 =? Success); [|by intros [= <- <-]].
  set (t2 := SetStandardUserSystemClockAutomaticCorrectionEnabled b t1). assert (H2 : kept t t2) by (transitivity t1; [done|]; split_and!; by intros []).
  destruct (GetCurrentTimePoint_now Standard t2) as (t3 & -> & Ht). apply ticked_kept in Ht. unfold SetAutomaticCorrectionUpdatedTime, KEvent_Signal.
  destruct (KSyncObject_Signal _ _ _) as [|k]; [done|]. intros [= <- <-]. by transitivity t2.
Qed.

Lemma AddOperationEvent_kept c event t t' : AddOperationEvent c event t = inr t' -> kept t t'.
Proof.
  unfold AddOperationEvent. destruct (updateCallback _) as [cb|]; [|done]. intros [= <-]. split_and!; [|done..]. intros c'. cbn.
  destruct (decide (c' = cb)) as [->|]; done.
Qed.

Lemma SetStandardSteadyClockRtcOffset_kept o t t' : SetStandardSteadyClockRtcOffset frequency ticks o t = inr t' -> kept t t'.
Proof.
  unfold SetStandardSteadyClockRtcOffset, GetCurrentRawTimePoint. cbn [GetRawTimePoint]. destruct (raw_ticked (SetRtcOffset o t)) as [v ->].
  intros [= <-]. split_and!; by intros [].
Qed.

(** The operations applications and the manager have on the clocks once they are set up. *)
Inductive time_step : Time -> Time -> Prop :=
| step_point k t : time_step t (GetCurrentTimePoint k t).1
| step_test_offset k v t : time_step t (SetTestOffset k v t)
| step_internal_offset k v t : time_step t (SetInternalOffset k v t)
| step_rtc_offset o t t' : SetStandardSteadyClockRtcOffset frequency ticks o t = inr t' -> time_step t t'
| step_get_context c t : time_step t (GetClockContext frequency ticks c t).1
| step_set_context c x t : time_step t (SetClockContext c x t).1
| step_update c x t t' r : UpdateClockContext cur c x t = inr (t', r) -> time_step t t'
| step_get_time c t : time_step t (GetCurrentTime c t).1
| step_set_time c posixTime t t' r : SetCurrentTime c posixTime t = inr (t', r) -> time_step t t'
| step_correction b t t' r : UpdateAutomaticCorrectionState frequency ticks cur b t = inr (t', r) -> time_step t t'
| step_event c event t t' : AddOperationEvent c event t = inr t' -> time_step t t'.

(** The callbacks agree with the shared memory and are those of their clocks. *)
Definition time_inv (t : Time) : Prop :=
  coherent t /\ updateCallback (tm_clock t Local) = Some LocalCallback /\ updateCallback (tm_clock t Network) = Some NetworkCallback.

Lemma kept_inv t t' : kept t t' -> time_inv t -> time_inv t'.
Proof.
  intros (H1 & H2 & H3) (Hc & Hl & Hn). split_and!; [|by rewrite H3..]. intros c x. rewrite H1. unfold published. rewrite H2. apply Hc.
Qed.

Lemma UpdateClockContext_signals c cb x t t' r :
  updateCallback (tm_clock t c) = Some cb -> coherent t -> UpdateClockContext cur c x t = inr (t', r) ->
  c = User /\ t' = t \/ c <> User /\ coherent t' /\ (cb <> EphemeralCallback -> published cb t' = Some x)
    /\ tm_clock t' = tm_clock (set_context c x t).
Proof.
  intros Hcb Hc H. destruct (decide (c = User)) as [->|Hu]; [left; split; [done|]; by injection H|right; split; [done|]].
  rewrite (UpdateClockContext_calls c cb) in H by done. destruct (decide (cb_context (tm_callback t cb) = Some x)) as [E|E].
  - unfold UpdateContext, UpdateBaseContext in H. cbn [set_context set_clock tm_callback] in H. rewrite bool_decide_eq_true_2 in H by done.
    injection H as <- <-. split_and!; [done|intros; by apply Hc|done].
  - assert (signalable cb t) as Hs by apply (UpdateContext_signals cb x (set_context c x t) t' r E H).
    destruct (UpdateClockContext_publishes c cb x t Hu Hcb Hc Hs) as (t1 & E1 & H1 & H2 & H3 & _).
    rewrite (UpdateClockContext_calls c cb), H in E1 by done. injection E1 as <- ->. done.
Qed.

Lemma update_inv c x t t' r : UpdateClockContext cur c x t = inr (t', r) -> time_inv t -> time_inv t'.
Proof.
  intros H (Hc & Hl & Hn). destruct (decide (c = User)) as [->|Hu]; [by injection H as <- <-|].
  destruct (updateCallback (tm_clock t c)) as [cb|] eqn:Hcb.
  - destruct (UpdateClockContext_signals c cb x t t' r Hcb Hc H) as [[? _]|(_ & Hc' & _ & Hk)]; [done|].
    destruct (SetClockContext_kept c x t) as (_ & _ & Hu'). split_and!; [done|..]; rewrite Hk;
      replace (set_context c x t) with (SetClockContext c x t).1 by (by destruct c); by rewrite Hu'.
  - unfold UpdateClockContext in H. assert (SetClockContext c x t = (set_context c x t, Success)) as E by (by destruct c).
    rewrite E, Z.eqb_refl in H. cbn [negb] in H. assert (updateCallback (tm_clock (set_context c x t) c) = None) as F by (cbn; by rewrite decide_True by done).
    by rewrite F in H.
Qed.

Lemma time_step_inv t t' : time_step t t' -> time_inv t -> time_inv t'.
Proof.
  intros [k u|k v u|k v u|o u u' H|c u|c x u|c x u u' r H|c u|c p u u' r H|b u u' r H|c e u u' H];
    [apply kept_inv | apply kept_inv | apply kept_inv | apply kept_inv | apply kept_inv | apply kept_inv | by eapply update_inv
    | apply kept_inv | intros Hi | apply kept_inv | apply kept_inv].
  - apply point_kept.
  - by destruct k.
  - by destruct k.
  - by eapply SetStandardSteadyClockRtcOffset_kept.
  - apply GetClockContext_kept.
  - apply SetClockContext_kept.
  - apply GetCurrentTime_kept.
  - unfold TimeCore.SetCurrentTime in H. destruct (GetCurrentTimePoint_now (steady_of c) u) as (u1 & E & Ht). rewrite E in H. cbn zeta beta iota in H.
    destruct (UpdateClockContext cur c _ u1) as [|[u2 r2]] eqn:Eu; [done|]. injection H as <- <-.
    eapply update_inv; [exact Eu|]. eapply kept_inv; [|done]. by eapply ticked_kept.
  - by eapply UpdateAutomaticCorrectionState_kept.
  - by eapply AddOperationEvent_kept.
Qed.

(** Whatever was done to the clocks since their set-up, an update of the context of the local or
    of the network clock returns when the events it signals can be signalled, and applications then
    read the new context. *)
Theorem update_is_published env tickId k t0 seconds rtcId userId t1 t c cb x :
  Time_new env tickId k = inr t0 -> TimeServiceObject_clocks frequency ticks cur seconds rtcId userId t0 = inr t1 -> rtc time_step t1 t ->
  (c = Local /\ cb = LocalCallback \/ c = Network /\ cb = NetworkCallback) -> signalable cb t ->
  exists t', UpdateClockContext cur c x t = inr (t', Success) /\ published cb t' = Some x /\ sc_context (tm_clock t' c) = x /\ time_inv t'.
Proof.
  intros H0 H1 Hr Hcb Hs.
  assert (Hi : time_inv t).
  { assert (time_inv t1) as Hi1.
    { destruct (TimeServiceObject_set_up env tickId k t0 seconds rtcId userId H0) as (t2 & E & Hc & _ & _ & _ & _ & _ & _ & _ & _ & _ & _ & _ & _ & Hl & Hn).
      rewrite H1 in E. injection E as ->. done. }
    clear -Hr Hi1. induction Hr as [|t1 t2 t3 Hs _ IH]; [done|]. apply IH. by eapply time_step_inv. }
  destruct Hi as (Hc & Hl & Hn). destruct (UpdateClockContext_publishes c cb x t) as (t' & E & Hc' & Hp & Hk & _); [naive_solver|naive_solver|done..|].
  exists t'. split_and!; [done|apply Hp; naive_solver|rewrite Hk; cbn; by rewrite decide_True by done|]. eapply update_inv; [exact E|done].
Qed.

(** ** What the clocks do not do *)

(** Setting the time of the user clock succeeds and does nothing. *)
Lemma user_SetCurrentTime_ignored posixTime t : exists t', SetCurrentTime User posixTime t = inr (t', Success) /\ ticked 1 t t'.
Proof.
  unfold TimeCore.SetCurrentTime. destruct (GetCurrentTimePoint_now (steady_of User) t) as (t' & -> & Ht). exists t'. done.
Qed.

(** A context that is set without the callback, as an application sets it, is not published. *)
Lemma SetClockContext_unpublished c cb x t : published cb (SetClockContext c x t).1 = published cb t.
Proof. unfold published. destruct (SetClockContext_kept c x t) as (_ & H & _). by rewrite H. Qed.

(** The standard clock gives the host's time also when it gave a later one before. *)
Lemma raw_time_decreases t :
  span_add (reading (tm_readings t)) (rtcOffset (tm_steady t)) < cachedValue (tm_steady t) ->
  (StandardSteadyClockCore_GetRawTimePoint frequency ticks t).2 < cachedValue (tm_steady t).
Proof. destruct (raw_ticked t) as [v ->]. done. Qed.

End properties.

(** ** A host *)

(** A counter of 19.2 MHz, a second between two readings, and the clocks set up in 2020. *)
Definition sample_ticks (n : nat) : Z := 19200000 * Z.of_nat (Nat.min n 1000).

Definition sample_host : host_env := mk_env (fun _ => true) (fun _ => Some 0x7000000000).


(** The service before and after its set-up. *)
Definition sample_new : M Time := Eval vm_compute in Time_new sample_host 77 sample_kernel.

Definition sample_set_up : M Time := Eval vm_compute in
  let! t := Time_new sample_host 77 sample_kernel in TimeServiceObject_clocks 19200000 sample_ticks 5 1600000000 11 12 t.


Lemma update_is_published_witness :
  exists t0 t1 t t', Time_new sample_host 77 sample_kernel = inr t0 /\ TimeServiceObject_clocks 19200000 sample_ticks 5 1600000000 11 12 t0 = inr t1
    /\ AddOperationEvent Local 2 t1 = inr t
    /\ UpdateClockContext 5 Local (mk_context 3600 (mk_timepoint 0 11)) t = inr (t', Success)
    /\ published LocalCallback t' = Some (mk_context 3600 (mk_timepoint 0 11)).
Proof.
  let m := eval unfold sample_new in sample_new in match m with inr ?t0 => exists t0 end.
  let m := eval unfold sample_set_up in sample_set_up in match m with inr ?t => exists t; exists (callback_AddOperationEvent LocalCallback 2 t) end.
  match goal with |- exists t', Time_new _ _ _ = inr ?t0 /\ _ = inr ?t1 /\ _ =>
    assert (H0 : Time_new sample_host 77 sample_kernel = inr t0) by (vm_compute; reflexivity);
    assert (H1 : TimeServiceObject_clocks 19200000 sample_ticks 5 1600000000 11 12 t0 = inr t1) by (vm_compute; reflexivity);
    assert (H2 : AddOperationEvent Local 2 t1 = inr (callback_AddOperationEvent LocalCallback 2 t1)) by reflexivity
  end.
  destruct (update_is_published 19200000 sample_ticks 5 sample_host 77 sample_kernel _ 1600000000 11 12 _ _
    Local LocalCallback (mk_context 3600 (mk_timepoint 0 11)) H0 H1 (rtc_once _ _ (step_event 19200000 sample_ticks 5 Local 2 _ _ H2))
    (or_introl (conj eq_refl eq_refl)) ltac:(eexists; vm_compute; reflexivity)) as (t' & E & Hp & _).
  exists t'. split_and!; [exact H0|exact H1|exact H2|exact E|exact Hp].
Defined.
