(* ===== verification/TimeSrv.v ===== *)
(** * The interfaces of the time service ([services/timesrv/timezone_manager.cpp],
    [services/timesrv/ISteadyClock.cpp], [services/timesrv/ISystemClock.cpp],
    [services/timesrv/ITimeZoneService.cpp], [services/timesrv/IStaticService.cpp])

    The time zone, with the library that interprets zone files as a parameter, and the commands of
    the service objects over the clocks of [TimeCore].  An object is a number; its table entry says
    what it is and what it may write. *)

From S2P Require Import Prelude Common MemoryManager Scheduler KObjects Process Sync Svc Ipc IpcFormat Services Vfs TimeShared TimeCore.

(** ** Calendars *)

(** [struct tm], the fields the service reads or writes. *)
Record tm : Type := mk_tm {
  tm_sec : Z; tm_min : Z; tm_hour : Z; tm_mday : Z; tm_mon : Z; tm_year : Z; tm_wday : Z; tm_yday : Z; tm_isdst : Z;
  tm_gmtoff : Z; tm_zone : list Z }.

Record CalendarTime : Type := mk_calendar { year : Z; month : Z; day : Z; hour : Z; minute : Z; second : Z }.

Record CalendarAdditionalInfo : Type := mk_info { dayOfWeek : Z; dayOfYear : Z; timeZoneName : list Z; dst : Z; gmtOffset : Z }.

Record FullCalendarTime : Type := mk_full { calendarTime : CalendarTime; additionalInfo : CalendarAdditionalInfo }.

(** The object representations of the structures, padding zeroed. *)
Definition calendar_bytes (c : CalendarTime) : list Z := le_bytes 2 (year c) ++ [month c; day c; hour c; minute c; second c; 0].
Definition info_bytes (i : CalendarAdditionalInfo) : list Z :=
  le_bytes 4 (dayOfWeek i) ++ le_bytes 4 (dayOfYear i) ++ timeZoneName i ++ le_bytes 4 (dst i) ++ le_bytes 4 (u32 (gmtOffset i)).
Definition point_bytes (p : SteadyClockTimePoint) : list Z := le_bytes 8 (u64 (timePoint p)) ++ le_bytes 16 (clockSourceId p).
Definition context_bytes (c : SystemClockContext) : list Z := le_bytes 8 (u64 (offset c)) ++ point_bytes (timestamp c).

Definition read_i64 (ram : guest_memory) (a : Z) : Z := i64 (read_u64 ram a).
Definition read_uuid (ram : guest_memory) (a : Z) : Z := read_u64 ram a + Z.shiftl (read_u64 ram (a + 8)) 64.
Definition point_at (ram : guest_memory) (a : Z) : SteadyClockTimePoint := mk_timepoint (read_i64 ram a) (read_uuid ram (a + 8)).
Definition context_at (ram : guest_memory) (a : Z) : SystemClockContext := mk_context (read_i64 ram a) (point_at ram (a + 8)).
Definition calendar_at (ram : guest_memory) (a : Z) : CalendarTime :=
  mk_calendar (ram a + 256 * ram (a + 1)) (ram (a + 2)) (ram (a + 3)) (ram (a + 4)) (ram (a + 5)) (ram (a + 6)).

(** A name of [size] bytes with [text] copied to its start. *)
Definition copy_to (text old : list Z) : list Z := text ++ drop (length text) old.

Definition LocationNameSize : nat := 0x24.

(** ** The zone library *)

(** [tz_tzalloc], [tz_localtime_rz] and [tz_mktime_z] of the submodule, over rules; a rule in guest
    memory is read and written as the library lays it out. *)
Record ZoneLibrary (rule : Type) : Type := mk_library {
  tz_tzalloc : list Z -> option rule;
  tz_localtime_rz : rule -> Z -> option tm;
  tz_mktime_z : rule -> tm -> Z;
  rule_at : guest_memory -> Z -> rule;
  rule_bytes : rule -> Z -> list Z }.

Arguments tz_tzalloc {rule} _ _.
Arguments tz_localtime_rz {rule} _ _ _.
Arguments tz_mktime_z {rule} _ _ _.
Arguments rule_at {rule} _ _ _.
Arguments rule_bytes {rule} _ _ _.

Record TimeZoneManager (rule : Type) : Type := mk_zone {
  tz_initialized : bool; tz_rule : option rule; updateTime : SteadyClockTimePoint; locationCount : Z;
  binaryVersion : list Z; locationName : list Z }.

Arguments mk_zone {rule} _ _ _ _ _ _.
Arguments tz_initialized {rule} _.
Arguments tz_rule {rule} _.
Arguments updateTime {rule} _.
Arguments locationCount {rule} _.
Arguments binaryVersion {rule} _.
Arguments locationName {rule} _.

Section zone.
Context {rule : Type} (lib : ZoneLibrary rule).

Definition TimeZoneManager_new : TimeZoneManager rule := mk_zone false None nil_point 0 (replicate 16 0) (replicate LocationNameSize 0).

Definition GetLocationName (z : TimeZoneManager rule) : ResultValue (list Z) :=
  if tz_initialized z then inr (locationName z) else inl ClockUninitialized.

(** The rule is replaced, by a null pointer if need be, before it is tested; the name is copied
    over the start of the old one. *)
Definition SetNewLocation (name binary : list Z) (z : TimeZoneManager rule) : M (TimeZoneManager rule * Z) :=
  let z := mk_zone (tz_initialized z) (tz_tzalloc lib binary) (updateTime z) (locationCount z) (binaryVersion z) (locationName z) in
  match tz_rule z with
  | None => ok (z, RuleConversionFailed)
  | Some _ =>
      if decide (LocationNameSize < length name)%nat then fail (Throw "Data being copied is larger than this span")
      else ok (mk_zone (tz_initialized z) (tz_rule z) (updateTime z) (locationCount z) (binaryVersion z) (copy_to name (locationName z)), Success)
  end.

Definition GetUpdateTime (z : TimeZoneManager rule) : ResultValue SteadyClockTimePoint :=
  if tz_initialized z then inr (updateTime z) else inl ClockUninitialized.
Definition SetUpdateTime (p : SteadyClockTimePoint) (z : TimeZoneManager rule) : TimeZoneManager rule :=
  mk_zone (tz_initialized z) (tz_rule z) p (locationCount z) (binaryVersion z) (locationName z).
Definition GetLocationCount (z : TimeZoneManager rule) : ResultValue Z :=
  if tz_initialized z then inr (locationCount z) else inl ClockUninitialized.
Definition SetLocationCount (n : Z) (z : TimeZoneManager rule) : TimeZoneManager rule :=
  mk_zone (tz_initialized z) (tz_rule z) (updateTime z) n (binaryVersion z) (locationName z).
Definition GetBinaryVersion (z : TimeZoneManager rule) : ResultValue (list Z) :=
  if tz_initialized z then inr (binaryVersion z) else inl ClockUninitialized.
Definition SetBinaryVersion (v : list Z) (z : TimeZoneManager rule) : TimeZoneManager rule :=
  mk_zone (tz_initialized z) (tz_rule z) (updateTime z) (locationCount z) v (locationName z).

(** The result of [SetNewLocation] is dropped. *)
Definition TimeZoneManager_Setup (name : list Z) (p : SteadyClockTimePoint) (count : Z) (version binary : list Z) (z : TimeZoneManager rule)
    : M (TimeZoneManager rule) :=
  let! (z, _) := SetNewLocation name binary z in
  let z := SetBinaryVersion version (SetLocationCount count (SetUpdateTime p z)) in
  ok (mk_zone true (tz_rule z) (updateTime z) (locationCount z) (binaryVersion z) (locationName z)).

Definition ToCalendarTime (r : rule) (posixTime : Z) : M (ResultValue FullCalendarTime) :=
  match tz_localtime_rz lib r posixTime with
  | None => ok (inl PermissionDenied)
  | Some t =>
      if decide (8 < length (tm_zone t))%nat then fail (Undefined "the name of the zone is longer than its field")
      else ok (inr (mk_full
        (mk_calendar (u16 (tm_year t)) (u8 (tm_mon t + 1)) (u8 (tm_mday t)) (u8 (tm_hour t)) (u8 (tm_min t)) (u8 (tm_sec t)))
        (mk_info (u32 (tm_wday t)) (u32 (tm_yday t)) (copy_to (tm_zone t) (replicate 8 0)) (u32 (tm_isdst t)) (i32 (tm_gmtoff t)))))
  end.

(** The hour of the calendar time is not passed on. *)
Definition ToPosixTime (r : rule) (c : CalendarTime) : ResultValue Z :=
  inr (tz_mktime_z lib r (mk_tm (second c) (minute c) 0 (day c) (month c - 1) (year c) 0 0 0 0 [])).

Definition my_rule (z : TimeZoneManager rule) : M rule := from_opt (Undefined "null rule") (tz_rule z).

Definition ToCalendarTimeWithMyRule (posixTime : Z) (z : TimeZoneManager rule) : M (ResultValue FullCalendarTime) :=
  let! r := my_rule z in ToCalendarTime r posixTime.

Definition ToPosixTimeWithMyRule (c : CalendarTime) (z : TimeZoneManager rule) : M (ResultValue Z) :=
  let! r := my_rule z in ok (ToPosixTime r c).

(** ** Names of locations *)

(** The loop over [binaryList.txt]: [i] is the index of [it], [prev] that of [prev]; a line ends two
    characters before the next begins. *)
Fixpoint location_names (buffer rest : list Z) (i prev : nat) : list (list Z) :=
  match rest with
  | [] => []
  | c :: rest =>
      if (c =? 10) && negb (Nat.eqb prev i) then
        copy_to (take LocationNameSize (take (i - 1 - prev) (drop prev buffer))) (replicate LocationNameSize 0)
        :: location_names buffer rest (S i) (if Nat.eqb (S i) (length buffer) then prev else S i)
      else location_names buffer rest (S i) prev
  end.

Definition locationNameList (buffer : list Z) : list (list Z) := location_names buffer buffer 0 0.

End zone.

(** ** Permissions *)

Record StaticServicePermissions : Type := mk_permissions {
  writeLocalSystemClock : bool; writeUserSystemClock : bool; writeNetworkSystemClock : bool; writeTimezone : bool;
  writeSteadyClock : bool; ignoreUninitializedChecks : bool }.

Definition StaticServiceUserPermissions : StaticServicePermissions := mk_permissions false false false false false false.
Definition StaticServiceAdminPermissions : StaticServicePermissions := mk_permissions true true false true false false.
Definition StaticServiceRepairPermissions : StaticServicePermissions := mk_permissions false false false false true false.
Definition StaticServiceManagerPermissions : StaticServicePermissions := mk_permissions true true true true true false.
Definition StaticServiceSystemPermissions : StaticServicePermissions := mk_permissions false false true false false false.
Definition StaticServiceSystemUpdatePermissions : StaticServicePermissions := mk_permissions false false false false false true.

(** ** Service objects *)

Inductive TimeObject : Type :=
| OStaticService (permissions : StaticServicePermissions)
| OSteadyClock (core : Steady) (writeable ignore : bool)
| OSystemClock (core : Clock) (writable ignore : bool) (operationEvent : option Z)
| OTimeZoneService (writeable : bool).

Definition GetStaticServiceAsUser : TimeObject := OStaticService StaticServiceUserPermissions.
Definition GetStaticServiceAsAdmin : TimeObject := OStaticService StaticServiceAdminPermissions.
Definition GetStaticServiceAsRepair : TimeObject := OStaticService StaticServiceRepairPermissions.
Definition GetStaticServiceAsServiceManager : TimeObject := OStaticService StaticServiceManagerPermissions.

Record TimeService (rule : Type) : Type := mk_service {
  ts_time : Time; ts_zone : TimeZoneManager rule; ts_objects : gmap Z TimeObject; ts_next : Z }.

Arguments mk_service {rule} _ _ _ _.
Arguments ts_time {rule} _.
Arguments ts_zone {rule} _.
Arguments ts_objects {rule} _.
Arguments ts_next {rule} _.

Section services.
Context {rule : Type} (lib : ZoneLibrary rule) (frequency : Z) (ticks : nat -> Z) (cur : Z).

Definition set_time (t : Time) (s : TimeService rule) : TimeService rule := mk_service t (ts_zone s) (ts_objects s) (ts_next s).
Definition set_zone (z : TimeZoneManager rule) (s : TimeService rule) : TimeService rule := mk_service (ts_time s) z (ts_objects s) (ts_next s).
Definition ts_ram (s : TimeService rule) : guest_memory := k_ram (tm_kernel (ts_time s)).
Definition write_guest (a : Z) (bytes : list Z) (s : TimeService rule) : TimeService rule :=
  let t := ts_time s in set_time (set_kernel (set_k_ram (write_bytes a bytes (ts_ram s)) (tm_kernel t)) t) s.

(** A command of a service object: the session, the request, the response so far. *)
Definition handler : Type := Z -> IpcRequest -> IpcResponse -> TimeService rule -> M (TimeService rule * IpcResponse * Z).

(** A command that answers a code and nothing else. *)
Definition answer (code : Z) : handler := fun _ _ response s => ok (s, response, code).

(** The value of a [ResultValue] pushed, and its code. *)
Definition push_result {A} (bytes : A -> list Z) (r : ResultValue A) (response : IpcResponse) (s : TimeService rule)
    : M (TimeService rule * IpcResponse * Z) :=
  match r with
  | inr v => ok (s, Push (bytes v) response, Success)
  | inl e => ok (s, response, e)
  end.

Definition i64_bytes (v : Z) : list Z := le_bytes 8 (u64 v).
Definition bool_bytes (b : bool) : list Z := [if b then 1 else 0].

(** [inputBuf.at(i)], [outputBuf.at(i)] and [as] of an object of [size] bytes. *)
Definition buffer_at (l : list span) (i : nat) : M span := from_opt Throw_out_of_range (l !! i).
Definition span_as (size : Z) (b : span) : M Z :=
  if size <=? sp_size b then ok (sp_data b) else fail (Throw "Span size is less than Out type size").

(** ** [ISteadyClock] *)

Section steady_clock.
Context (core : Steady) (ignore : bool).

(** The test at the top of each command. *)
Definition steady_command (h : handler) : handler := fun ref request response s =>
  if negb ignore && negb (IsSteadyInitialized core (ts_time s)) then ok (s, response, ClockUninitialized) else h ref request response s.

Definition ISteadyClock_GetCurrentTimePoint : handler := steady_command (fun _ _ response s =>
  let '(t, point) := GetCurrentTimePoint frequency ticks core (ts_time s) in
  push_result point_bytes point response (set_time t s)).

Definition ISteadyClock_GetTestOffset : handler := steady_command (fun _ _ response s =>
  ok (s, Push (i64_bytes (GetTestOffset core (ts_time s))) response, Success)).

(** [writeable] is not tested. *)
Definition ISteadyClock_SetTestOffset : handler := steady_command (fun _ request response s =>
  let '(testOffset, request) := Pop read_i64 8 (ts_ram s) request in
  ok (set_time (SetTestOffset core testOffset (ts_time s)) s, response, Success)).

Definition ISteadyClock_GetRtcValue : handler := steady_command (fun _ _ response s =>
  push_result i64_bytes (GetRtcValue core (ts_time s)) response s).

Definition ISteadyClock_IsRtcResetDetected : handler := steady_command (fun _ _ response s =>
  ok (s, Push (bool_bytes (IsRtcResetDetected core (ts_time s))) response, Success)).

Definition ISteadyClock_GetSetupResultValue : handler := steady_command (fun _ _ response s =>
  ok (s, Push (le_bytes 4 (GetSetupResult core (ts_time s))) response, Success)).

Definition ISteadyClock_GetInternalOffset : handler := steady_command (fun _ _ response s =>
  ok (s, Push (i64_bytes (GetInternalOffset core (ts_time s))) response, Success)).

Definition ISteadyClock_functions (id : Z) : option handler :=
  match id with
  | 0x0 => Some ISteadyClock_GetCurrentTimePoint
  | 0x2 => Some ISteadyClock_GetTestOffset
  | 0x3 => Some ISteadyClock_SetTestOffset
  | 0x64 => Some ISteadyClock_GetRtcValue
  | 0x65 => Some ISteadyClock_IsRtcResetDetected
  | 0x66 => Some ISteadyClock_GetSetupResultValue
  | 0xC8 => Some ISteadyClock_GetInternalOffset
  | _ => None
  end.

End steady_clock.

(** ** [ISystemClock] *)

Section system_clock.
Context (self : Z) (core : Clock) (writable ignore : bool) (operationEvent : option Z).

Definition system_command (h : handler) : handler := fun ref request response s =>
  if negb ignore && negb (IsClockInitialized core (ts_time s)) then ok (s, response, ClockUninitialized) else h ref request response s.

Definition write_command (h : handler) : handler := fun ref request response s =>
  if negb writable then ok (s, response, PermissionDenied) else system_command h ref request response s.

Definition ISystemClock_GetCurrentTime : handler := system_command (fun _ _ response s =>
  let '(t, time) := GetCurrentTime frequency ticks core (ts_time s) in push_result i64_bytes time response (set_time t s)).

Definition ISystemClock_SetCurrentTime : handler := write_command (fun _ request response s =>
  let '(time, request) := Pop read_i64 8 (ts_ram s) request in
  let! (t, result) := SetCurrentTime frequency ticks cur core time (ts_time s) in ok (set_time t s, response, result)).

Definition ISystemClock_GetSystemClockContext : handler := system_command (fun _ _ response s =>
  let '(t, context) := GetClockContext frequency ticks core (ts_time s) in push_result context_bytes context response (set_time t s)).

Definition ISystemClock_SetSystemClockContext : handler := write_command (fun _ request response s =>
  let '(context, request) := Pop context_at 0x20 (ts_ram s) request in
  let '(t, result) := SetClockContext core context (ts_time s) in ok (set_time t s, response, result)).

(** The event is made at the first call and kept in the object. *)
Definition ISystemClock_GetOperationEventReadableHandle : handler := fun _ _ response s =>
  let! (s, event) := match operationEvent with
    | Some event => ok (s, event)
    | None =>
        let '(k, event) := new_object (OEvent (mk_sync false [])) (tm_kernel (ts_time s)) in
        let! t := AddOperationEvent core event (set_kernel k (ts_time s)) in
        ok (mk_service t (ts_zone s) (<[self := OSystemClock core writable ignore (Some event)]> (ts_objects s)) (ts_next s), event)
    end in
  let '(k, handle) := InsertItem event (tm_kernel (ts_time s)) in
  ok (set_time (set_kernel k (ts_time s)) s, push_copyHandle handle response, Success).

Definition ISystemClock_functions (id : Z) : option handler :=
  match id with
  | 0x0 => Some ISystemClock_GetCurrentTime
  | 0x1 => Some ISystemClock_SetCurrentTime
  | 0x2 => Some ISystemClock_GetSystemClockContext
  | 0x3 => Some ISystemClock_SetSystemClockContext
  | 0x4 => Some ISystemClock_GetOperationEventReadableHandle
  | _ => None
  end.

End system_clock.

(** ** [ITimeZoneService] *)

Section time_zone.
Context (writeable : bool).

Definition GetDeviceLocationName : handler := fun _ _ response s => push_result id (GetLocationName (ts_zone s)) response s.

Definition SetDeviceLocationName : handler := fun _ _ response s =>
  if negb writeable then ok (s, response, PermissionDenied) else ok (s, response, Unimplemented).

Definition GetTotalLocationNameCount : handler := fun _ _ response s =>
  push_result (fun n => le_bytes 4 (u32 n)) (GetLocationCount (ts_zone s)) response s.

Definition LoadLocationNameList : handler := answer Unimplemented.
Definition LoadTimeZoneRule : handler := answer Unimplemented.

Definition GetTimeZoneRuleVersion : handler := fun _ _ response s => push_result id (GetBinaryVersion (ts_zone s)) response s.

Definition GetDeviceLocationNameAndUpdatedTime : handler := fun _ _ response s =>
  match GetLocationName (ts_zone s) with
  | inl e => ok (s, response, e)
  | inr name =>
      match GetUpdateTime (ts_zone s) with
      | inl e => ok (s, response, e)
      | inr time => ok (s, Push (point_bytes time) (Push (le_bytes 4 0) (Push name response)), Success)
      end
  end.

Definition SetDeviceLocationNameWithTimeZoneBinary (name binary : list Z) (s : TimeService rule) : M (TimeService rule * Z) :=
  if negb writeable then ok (s, PermissionDenied)
  else let! (z, result) := SetNewLocation lib name binary (ts_zone s) in ok (set_zone z s, result).

(** [as_string(true)]: up to the first zero. *)
Definition as_string (l : list Z) : list Z := match list_find (fun c => c = 0) l with Some (i, _) => take i l | None => l end.

Definition SetDeviceLocationNameWithTimeZoneBinaryIpc : handler := fun _ request response s =>
  let '(name, request) := Pop (fun ram a => read_bytes ram a LocationNameSize) 0x24 (ts_ram s) request in
  let! binary := buffer_at (rq_inputBuf request) 0 in
  let! (s, result) := SetDeviceLocationNameWithTimeZoneBinary (as_string name) (read_bytes (ts_ram s) (sp_data binary) (Z.to_nat (sp_size binary))) s in
  ok (s, response, result).

Definition ParseTimeZoneBinary (binary : list Z) (ruleOut : span) (s : TimeService rule) : M (TimeService rule * Z) :=
  match tz_tzalloc lib binary with
  | None => ok (s, RuleConversionFailed)
  | Some r => ok (write_guest (sp_data ruleOut) (rule_bytes lib r (sp_size ruleOut)) s, Success)
  end.

Definition ParseTimeZoneBinaryIpc : handler := fun _ request response s =>
  let! binary := buffer_at (rq_inputBuf request) 0 in
  let! out := buffer_at (rq_outputBuf request) 0 in
  let! (s, result) := ParseTimeZoneBinary (read_bytes (ts_ram s) (sp_data binary) (Z.to_nat (sp_size binary))) out s in
  ok (s, response, result).

Definition GetDeviceLocationNameOperationEventReadableHandle : handler := answer Unimplemented.

Definition full_bytes (c : FullCalendarTime) : list Z := calendar_bytes (calendarTime c) ++ info_bytes (additionalInfo c).

Definition ITimeZoneService_ToCalendarTime : handler := fun _ request response s =>
  let '(time, request) := Pop read_i64 8 (ts_ram s) request in
  let! b := buffer_at (rq_inputBuf request) 0 in
  let! c := ToCalendarTime lib (rule_at lib (ts_ram s) (sp_data b)) time in push_result full_bytes c response s.

Definition ITimeZoneService_ToCalendarTimeWithMyRule : handler := fun _ request response s =>
  let '(time, request) := Pop read_i64 8 (ts_ram s) request in
  let! c := ToCalendarTimeWithMyRule lib time (ts_zone s) in push_result full_bytes c response s.

(** The time goes to the output buffer, its number to the response. *)
Definition put_posix_time (r : ResultValue Z) (request : IpcRequest) (response : IpcResponse) (s : TimeService rule)
    : M (TimeService rule * IpcResponse * Z) :=
  match r with
  | inl e => ok (s, response, e)
  | inr time =>
      let! b := buffer_at (rq_outputBuf request) 0 in
      let! a := span_as 8 b in
      ok (write_guest a (i64_bytes time) s, Push (le_bytes 4 1) response, Success)
  end.

Definition ITimeZoneService_ToPosixTime : handler := fun _ request response s =>
  let '(c, request) := Pop calendar_at 8 (ts_ram s) request in
  let! b := buffer_at (rq_inputBuf request) 0 in
  put_posix_time (ToPosixTime lib (rule_at lib (ts_ram s) (sp_data b)) c) request response s.

Definition ITimeZoneService_ToPosixTimeWithMyRule : handler := fun _ request response s =>
  let '(c, request) := Pop calendar_at 8 (ts_ram s) request in
  let! r := ToPosixTimeWithMyRule lib c (ts_zone s) in put_posix_time r request response s.

Definition ITimeZoneService_functions (id : Z) : option handler :=
  match id with
  | 0x0 => Some GetDeviceLocationName
  | 0x1 => Some SetDeviceLocationName
  | 0x2 => Some GetTotalLocationNameCount
  | 0x3 => Some LoadLocationNameList
  | 0x4 => Some LoadTimeZoneRule
  | 0x5 => Some GetTimeZoneRuleVersion
  | 0x6 => Some GetDeviceLocationNameAndUpdatedTime
  | 0x7 => Some SetDeviceLocationNameWithTimeZoneBinaryIpc
  | 0x8 => Some ParseTimeZoneBinaryIpc
  | 0x9 => Some GetDeviceLocationNameOperationEventReadableHandle
  | 0x64 => Some ITimeZoneService_ToCalendarTime
  | 0x65 => Some ITimeZoneService_ToCalendarTimeWithMyRule
  | 0xC9 => Some ITimeZoneService_ToPosixTime
  | 0xCA => Some ITimeZoneService_ToPosixTimeWithMyRule
  | _ => None
  end.

End time_zone.

(** ** Snapshots *)

Record ClockSnapshot : Type := mk_snapshot {
  userContext : SystemClockContext;
  networkContext : SystemClockContext;
  userPosixTime : Z;
  networkPosixTime : Z;
  userCalendar : FullCalendarTime;
  networkCalendar : FullCalendarTime;
  steadyClockTimePoint : SteadyClockTimePoint;
  snapshotLocationName : list Z;
  snapshotCorrection : bool;
  snapshotUnk : Z }.

Definition snapshot_bytes (x : ClockSnapshot) : list Z :=
  context_bytes (userContext x) ++ context_bytes (networkContext x) ++ i64_bytes (userPosixTime x) ++ i64_bytes (networkPosixTime x)
  ++ calendar_bytes (calendarTime (userCalendar x)) ++ calendar_bytes (calendarTime (networkCalendar x))
  ++ info_bytes (additionalInfo (userCalendar x)) ++ info_bytes (additionalInfo (networkCalendar x))
  ++ point_bytes (steadyClockTimePoint x) ++ snapshotLocationName x ++ bool_bytes (snapshotCorrection x) ++ [snapshotUnk x] ++ le_bytes 2 0.

(** What the commands that are given snapshots read of them. *)
Record SnapshotFields : Type := mk_fields {
  f_userContext : SystemClockContext; f_networkContext : SystemClockContext; f_networkPosixTime : Z;
  f_steadyClockTimePoint : SteadyClockTimePoint; f_correction : bool }.

Definition ClockSnapshotSize : Z := 0xD0.

Definition snapshot_at (ram : guest_memory) (a : Z) : SnapshotFields :=
  mk_fields (context_at ram a) (context_at ram (a + 0x20)) (read_i64 ram (a + 0x48)) (point_at ram (a + 0x90)) (negb (ram (a + 0xCC) =? 0)).

Definition GetClockSnapshotFromSystemClockContextImpl (user network : SystemClockContext) (unk : Z) (s : TimeService rule)
    : M (TimeService rule * ResultValue ClockSnapshot) :=
  let '(t, point) := GetCurrentTimePoint frequency ticks Standard (ts_time s) in
  let s := set_time t s in
  match point with
  | inl e => ok (s, inl e)
  | inr point =>
      match GetLocationName (ts_zone s) with
      | inl e => ok (s, inl e)
      | inr name =>
          match ClockSnapshot_GetCurrentTime point user with
          | inl e => ok (s, inl e)
          | inr userTime =>
              let! userCalendar := ToCalendarTimeWithMyRule lib userTime (ts_zone s) in
              match userCalendar with
              | inl e => ok (s, inl e)
              | inr userCalendar =>
                  let networkTime := match ClockSnapshot_GetCurrentTime point network with inr time => time | inl _ => 0 end in
                  let! networkCalendar := ToCalendarTimeWithMyRule lib networkTime (ts_zone s) in
                  match networkCalendar with
                  | inl e => ok (s, inl e)
                  | inr networkCalendar =>
                      ok (s, inr (mk_snapshot user network userTime networkTime userCalendar networkCalendar point name
                                    (automaticCorrectionEnabled t) unk))
                  end
              end
          end
      end
  end.

Definition put_snapshot (r : ResultValue ClockSnapshot) (request : IpcRequest) (response : IpcResponse) (s : TimeService rule)
    : M (TimeService rule * IpcResponse * Z) :=
  match r with
  | inl e => ok (s, response, e)
  | inr snapshot =>
      let! b := buffer_at (rq_outputBuf request) 0 in
      let! a := span_as ClockSnapshotSize b in
      ok (write_guest a (snapshot_bytes snapshot) s, response, Success)
  end.

(** ** [IStaticService] *)

(** [RegisterService] of a new object. *)
Definition register_object (o : TimeObject) : handler := fun ref _ response s =>
  let self := ts_next s in
  let! (k, response) := RegisterService self ref response (tm_kernel (ts_time s)) in
  ok (mk_service (set_kernel k (ts_time s)) (ts_zone s) (<[self := o]> (ts_objects s)) (self + 1), response, Success).

Section static_service.
Context (permissions : StaticServicePermissions).

Definition GetStandardUserSystemClock : handler :=
  register_object (OSystemClock User (writeUserSystemClock permissions) (ignoreUninitializedChecks permissions) None).

Definition GetStandardNetworkSystemClock : handler :=
  register_object (OSystemClock Network (writeNetworkSystemClock permissions) (ignoreUninitializedChecks permissions) None).

Definition GetStandardSteadyClock : handler :=
  register_object (OSteadyClock Standard (writeSteadyClock permissions) (ignoreUninitializedChecks permissions)).

Definition GetTimeZoneServiceIpc : handler := register_object (OTimeZoneService (writeTimezone permissions)).

Definition GetStandardLocalSystemClock : handler :=
  register_object (OSystemClock Local (writeLocalSystemClock permissions) (ignoreUninitializedChecks permissions) None).

(** The clock that is handed out is the network clock. *)
Definition GetEphemeralNetworkSystemClock : handler :=
  register_object (OSystemClock Network (writeNetworkSystemClock permissions) (ignoreUninitializedChecks permissions) None).

Definition GetSharedMemoryNativeHandle : handler := fun _ _ response s =>
  let '(k, handle) := InsertItem (tm_sharedObject (ts_time s)) (tm_kernel (ts_time s)) in
  ok (set_time (set_kernel k (ts_time s)) s, push_copyHandle handle response, Success).

Definition SetStandardSteadyClockInternalOffset : handler :=
  answer (if writeSteadyClock permissions then Unimplemented else PermissionDenied).

Definition GetStandardSteadyClockRtcValue : handler := answer Unimplemented.

Definition IsStandardUserSystemClockAutomaticCorrectionEnabled : handler := fun _ _ response s =>
  if negb (IsClockInitialized User (ts_time s)) then ok (s, response, ClockUninitialized)
  else ok (s, Push (bool_bytes (automaticCorrectionEnabled (ts_time s))) response, Success).

Definition static_SetAutomaticCorrectionEnabled : handler := fun _ request response s =>
  if negb (IsClockInitialized User (ts_time s)) || negb (IsSteadyInitialized Standard (ts_time s)) then ok (s, response, ClockUninitialized)
  else if negb (writeUserSystemClock permissions) then ok (s, response, PermissionDenied)
  else
    let '(enable, request) := Pop (fun ram a => ram a) 1 (ts_ram s) request in
    let! (t, result) := UpdateAutomaticCorrectionState frequency ticks cur (negb (enable =? 0)) (ts_time s) in
    ok (set_time t s, response, result).

Definition GetStandardUserSystemClockInitialYear : handler := answer Unimplemented.

Definition IsStandardNetworkSystemClockAccuracySufficient : handler := fun _ _ response s =>
  let '(t, sufficient) := IsAccuracySufficient frequency ticks (ts_time s) in ok (set_time t s, Push (bool_bytes sufficient) response, Success).

Definition GetAutomaticCorrectionUpdatedTime : handler := fun _ _ response s =>
  if negb (IsClockInitialized User (ts_time s)) then ok (s, response, ClockUninitialized)
  else ok (s, Push (point_bytes (automaticCorrectionUpdatedTime (ts_time s))) response, Success).

Definition CalculateMonotonicSystemClockBaseTimePoint : handler := fun _ request response s =>
  if negb (IsSteadyInitialized Standard (ts_time s)) then ok (s, response, ClockUninitialized)
  else
    let '(t, point) := GetCurrentTimePoint frequency ticks Standard (ts_time s) in
    match point with
    | inl e => ok (set_time t s, response, e)
    | inr point =>
        let '(context, request) := Pop context_at 0x20 (ts_ram s) request in
        if negb (clockSourceId (timestamp context) =? clockSourceId point) then ok (set_time t s, response, ClockSourceIdMismatch)
        else
          let '(t, now) := read_time frequency ticks t in
          ok (set_time t s, Push (i64_bytes (i64 (i64 (timePoint point + offset context) - Seconds (FromNanoseconds now)))) response, Success)
    end.

Definition GetClockSnapshot : handler := fun _ request response s =>
  let '(unk, request) := Pop (fun ram a => ram a) 1 (ts_ram s) request in
  let '(t, user) := GetClockContext frequency ticks User (ts_time s) in
  match user with
  | inl e => ok (set_time t s, response, e)
  | inr user =>
      let '(t, network) := GetClockContext frequency ticks Network t in
      match network with
      | inl e => ok (set_time t s, response, e)
      | inr network =>
          let! (s, snapshot) := GetClockSnapshotFromSystemClockContextImpl user network unk (set_time t s) in
          put_snapshot snapshot request response s
      end
  end.

Definition GetClockSnapshotFromSystemClockContext : handler := fun _ request response s =>
  let '(unk, request) := Pop (fun ram a => ram a) 1 (ts_ram s) request in
  let request := Skip 7 request in
  let '(user, request) := Pop context_at 0x20 (ts_ram s) request in
  let '(network, request) := Pop context_at 0x20 (ts_ram s) request in
  let! (s, snapshot) := GetClockSnapshotFromSystemClockContextImpl user network unk s in
  put_snapshot snapshot request response s.

(** The difference of the offsets of the user clocks of two snapshots. *)
Definition user_difference (a b : SnapshotFields) : Z :=
  let difference := FromSeconds (i64 (offset (f_userContext b) - offset (f_userContext a))) in
  if negb (clockSourceId (timestamp (f_userContext a)) =? clockSourceId (timestamp (f_userContext b))) then 0
  else if f_correction a && f_correction b then
    if negb (clockSourceId (timestamp (f_networkContext a)) =? clockSourceId (f_steadyClockTimePoint a))
       || negb (clockSourceId (timestamp (f_networkContext b)) =? clockSourceId (f_steadyClockTimePoint b)) then 0
    else difference
  else difference.

Definition span_between (a b : SnapshotFields) : ResultValue Z :=
  match GetSpanBetween (f_steadyClockTimePoint a) (f_steadyClockTimePoint b) with
  | inr difference => inr (FromSeconds difference)
  | inl _ =>
      if negb (f_networkPosixTime a =? 0) && negb (f_networkPosixTime b =? 0) then
        inr (FromSeconds (i64 (f_networkPosixTime b - f_networkPosixTime a)))
      else inl InvalidComparison
  end.

(** The two snapshots in the input buffers. *)
Definition two_snapshots (request : IpcRequest) (s : TimeService rule) : M (SnapshotFields * SnapshotFields) :=
  let! bufA := buffer_at (rq_inputBuf request) 0 in
  let! a := span_as ClockSnapshotSize bufA in
  let! bufB := buffer_at (rq_inputBuf request) 1 in
  let! b := span_as ClockSnapshotSize bufB in
  ok (snapshot_at (ts_ram s) a, snapshot_at (ts_ram s) b).

Definition CalculateStandardUserSystemClockDifferenceByUser : handler := fun _ request response s =>
  let! (a, b) := two_snapshots request s in ok (s, Push (i64_bytes (user_difference a b)) response, Success).

Definition CalculateSpanBetween : handler := fun _ request response s =>
  let! (a, b) := two_snapshots request s in push_result i64_bytes (span_between a b) response s.

Definition IStaticService_functions (id : Z) : option handler :=
  match id with
  | 0x0 => Some GetStandardUserSystemClock
  | 0x1 => Some GetStandardNetworkSystemClock
  | 0x2 => Some GetStandardSteadyClock
  | 0x3 => Some GetTimeZoneServiceIpc
  | 0x4 => Some GetStandardLocalSystemClock
  | 0x5 => Some GetEphemeralNetworkSystemClock
  | 0x14 => Some GetSharedMemoryNativeHandle
  | 0x32 => Some SetStandardSteadyClockInternalOffset
  | 0x33 => Some GetStandardSteadyClockRtcValue
  | 0x64 => Some IsStandardUserSystemClockAutomaticCorrectionEnabled
  | 0x65 => Some static_SetAutomaticCorrectionEnabled
  | 0x66 => Some GetStandardUserSystemClockInitialYear
  | 0xC8 => Some IsStandardNetworkSystemClockAccuracySufficient
  | 0xC9 => Some GetAutomaticCorrectionUpdatedTime
  | 0x12C => Some CalculateMonotonicSystemClockBaseTimePoint
  | 0x190 => Some GetClockSnapshot
  | 0x191 => Some GetClockSnapshotFromSystemClockContext
  | 0x1F4 => Some CalculateStandardUserSystemClockDifferenceByUser
  | 0x1F5 => Some CalculateSpanBetween
  | _ => None
  end.

End static_service.

(** The function of an object for a command id. *)
Definition object_functions (self : Z) (o : TimeObject) (id : Z) : option handler :=
  match o with
  | OStaticService permissions => IStaticService_functions permissions id
  | OSteadyClock core _ ignore => ISteadyClock_functions core ignore id
  | OSystemClock core writable ignore event => ISystemClock_functions self core writable ignore event id
  | OTimeZoneService writeable => ITimeZoneService_functions writeable id
  end.

(** A request to an object of the service, as [HandleRequest] dispatches it. *)
Definition time_request (self ref : Z) (request : IpcRequest) (response : IpcResponse) (s : TimeService rule)
    : M (TimeService rule * IpcResponse * Z) :=
  match ts_objects s !! self with
  | None => fail (Undefined "no such service object")
  | Some o =>
      match object_functions self o (p_value (rq_payload request)) with
      | None => ok (s, response, Success)
      | Some h => match h ref request response s with inl Throw_out_of_range => fail (Throw "exception in a service") | r => r end
      end
  end.

(** ** The set-up of the service object *)

(** The end of the constructor of [TimeServiceObject]: the contents of the list of locations, of the
    version file and of the zone file are given. *)
Definition TimeServiceObject_zone (deviceTimeZone binaryList version zone : list Z) (s : TimeService rule) : M (TimeService rule * list (list Z)) :=
  let '(t, point) := GetTimePoint frequency ticks Standard (ts_time s) in
  match point with
  | inl _ => fail (Throw "Failed to create a timezone updated timepoint!")
  | inr point =>
      let names := locationNameList binaryList in
      let! z := TimeZoneManager_Setup lib deviceTimeZone point (Z.of_nat (length names)) (copy_to (take 16 version) (replicate 16 0)) zone (ts_zone s) in
      ok (set_zone z (set_time t s), names)
  end.

End services.

(** ** What sessions without permissions cannot change *)

(** What the permissions protect: the contexts of the clocks, the automatic correction, the offsets
    and the source of the steady clock, and the time zone. *)
Record Settings (rule : Type) : Type := mk_settings {
  se_contexts : list SystemClockContext; se_correction : bool; se_offsets : list Z; se_zone : TimeZoneManager rule }.

Arguments mk_settings {rule} _ _ _ _.

Definition clock_settings (t : Time) : list SystemClockContext * bool * list Z :=
  ((fun c => sc_context (tm_clock t c)) <$> [Local; Network; User; Ephemeral], automaticCorrectionEnabled t,
   [testOffset (tm_steady t); internalOffset (tm_steady t); rtcOffset (tm_steady t); rtcId (tm_steady t)]).

Definition settings {rule} (s : TimeService rule) : Settings rule :=
  let '(contexts, correction, offsets) := clock_settings (ts_time s) in mk_settings contexts correction offsets (ts_zone s).

Definition restricted (o : TimeObject) : Prop :=
  match o with
  | OStaticService p =>
      writeLocalSystemClock p = false /\ writeUserSystemClock p = false /\ writeNetworkSystemClock p = false
      /\ writeTimezone p = false /\ writeSteadyClock p = false
  | OSteadyClock _ writeable _ => writeable = false
  | OSystemClock _ writable _ _ => writable = false
  | OTimeZoneService writeable => writeable = false
  end.

Section restricted.
Context {rule : Type} (lib : ZoneLibrary rule) (frequency : Z) (ticks : nat -> Z) (cur : Z).
Implicit Types (s : TimeService rule) (t : Time).

Definition all_restricted s : Prop := map_Forall (fun _ o => restricted o) (ts_objects s).

(** A command keeps the settings, and the objects it makes have no permissions either. *)
Definition harmless s s' : Prop := settings s' = settings s /\ all_restricted s'.

Lemma ticked_settings n t t' : ticked n t t' -> clock_settings t' = clock_settings t.
Proof. unfold ticked. by intros ->. Qed.

Lemma harmless_time t s : all_restricted s -> clock_settings t = clock_settings (ts_time s) -> harmless s (set_time t s).
Proof. intros Hr E. split; [|done]. unfold settings. cbn [set_time ts_time ts_zone]. by rewrite E. Qed.

Lemma GetClockContext_off c t :
  automaticCorrectionEnabled t = false -> (GetClockContext frequency ticks c t).1 = t.
Proof. intros Ha. destruct c; try done. cbn. unfold StandardUserSystemClockCore_GetClockContext. by rewrite Ha. Qed.

Lemma GetCurrentTime_settings c t :
  automaticCorrectionEnabled t = false -> clock_settings (GetCurrentTime frequency ticks c t).1 = clock_settings t.
Proof.
  intros Ha. unfold GetCurrentTime. destruct (GetCurrentTimePoint_now frequency ticks (steady_of c) t) as (t1 & -> & Ht).
  pose proof (GetClockContext_off c t1) as Hg. destruct (GetClockContext frequency ticks c t1) as [t2 [|x]]; cbn [fst] in *;
    rewrite <- (ticked_settings _ _ _ Ht); [|destruct (negb _); cbn]; by rewrite Hg by (by rewrite Ht).
Qed.

Lemma IsAccuracySufficient_settings t : clock_settings (IsAccuracySufficient frequency ticks t).1 = clock_settings t.
Proof.
  unfold IsAccuracySufficient. destruct (negb _); [done|]. destruct (GetCurrentTimePoint_now frequency ticks Standard t) as (t1 & -> & Ht).
  by apply (ticked_settings 1).
Qed.

Lemma write_guest_harmless a l s : all_restricted s -> harmless s (write_guest a l s).
Proof. done. Qed.

Lemma harmless_refl s : all_restricted s -> harmless s s.
Proof. done. Qed.

Lemma harmless_trans s1 s2 s3 : harmless s1 s2 -> harmless s2 s3 -> harmless s1 s3.
Proof. intros [E1 _] [E2 H]. split; [congruence|done]. Qed.

(** The commands of each kind of object. *)
Lemma push_result_harmless {A} (bytes : A -> list Z) r response s s' response' code :
  push_result bytes r response s = inr (s', response', code) -> s' = s.
Proof. unfold push_result. destruct r; by intros [= <- <- <-]. Qed.

Lemma register_harmless o ref request response s s' response' code :
  all_restricted s -> restricted o -> register_object o ref request response s = inr (s', response', code) -> harmless s s'.
Proof.
  intros Hr Ho. unfold register_object. destruct (RegisterService _ _ _ _) as [|[k r]]; [done|]. intros [= <- <- <-]. split; [done|].
  unfold all_restricted. cbn. by apply map_Forall_insert_2.
Qed.

Lemma steady_harmless core ignore id h ref request response s s' response' code :
  all_restricted s -> id <> 3 -> ISteadyClock_functions frequency ticks core ignore id = Some h ->
  h ref request response s = inr (s', response', code) -> harmless s s'.
Proof.
  intros Hr Hid Hf. unfold ISteadyClock_functions in Hf.
  repeat (case_match; try done); injection Hf as <-; unfold steady_command, ISteadyClock_GetCurrentTimePoint, ISteadyClock_GetTestOffset,
    ISteadyClock_GetRtcValue, ISteadyClock_IsRtcResetDetected, ISteadyClock_GetSetupResultValue, ISteadyClock_GetInternalOffset, steady_command;
    (destruct (_ && _); [by intros [= <- <- <-]|]).
  all: try by intros [= <- <- <-].
  all: try (intros ->%push_result_harmless; done).
  destruct (GetCurrentTimePoint_now frequency ticks core (ts_time s)) as (t & -> & Ht). intros ->%push_result_harmless.
  apply harmless_time; [done|]. by eapply ticked_settings.
Qed.

Lemma system_harmless self core ignore event id h ref request response s s' response' code :
  all_restricted s -> automaticCorrectionEnabled (ts_time s) = false ->
  ISystemClock_functions frequency ticks cur self core false ignore event id = Some h ->
  h ref request response s = inr (s', response', code) -> harmless s s'.
Proof.
  intros Hr Ha Hf. unfold ISystemClock_functions in Hf. repeat (case_match; try done); injection Hf as <-.
  - unfold ISystemClock_GetCurrentTime, system_command. destruct (_ && _); [by intros [= <- <- <-]|].
    pose proof (GetCurrentTime_settings core (ts_time s) Ha) as Ht. destruct (GetCurrentTime _ _ _ _) as [t r]. intros ->%push_result_harmless.
    by apply harmless_time.
  - unfold ISystemClock_SetSystemClockContext, write_command. by intros [= <- <- <-].
  - unfold ISystemClock_GetOperationEventReadableHandle. destruct event as [event|]; cbn [bindM ok].
    + intros [= <- <- <-]. by apply harmless_time.
    + unfold new_object, AddOperationEvent. destruct (updateCallback _) as [cb|]; [|done]. intros [= <- <- <-]. split; [done|].
      unfold all_restricted. cbn. by apply map_Forall_insert_2.
  - unfold ISystemClock_GetSystemClockContext, system_command. destruct (_ && _); [by intros [= <- <- <-]|].
    pose proof (GetClockContext_off core (ts_time s) Ha) as Ht. destruct (GetClockContext _ _ _ _) as [t r]. cbn in Ht. subst t. intros ->%push_result_harmless.
    by apply harmless_time.
  - unfold ISystemClock_SetCurrentTime, write_command. by intros [= <- <- <-].
Qed.

Lemma put_posix_time_harmless r request response s s' response' code :
  all_restricted s -> put_posix_time r request response s = inr (s', response', code) -> harmless s s'.
Proof.
  intros Hr. unfold put_posix_time. destruct r as [e|time]; [by intros [= <- <- <-]|].
  destruct (buffer_at _ _) as [|b]; [done|]. cbn. destruct (span_as _ _) as [|a]; [done|]. by intros [= <- <- <-].
Qed.

Lemma zone_harmless id h ref request response s s' response' code :
  all_restricted s -> ITimeZoneService_functions lib false id = Some h ->
  h ref request response s = inr (s', response', code) -> harmless s s'.
Proof.
  intros Hr Hf. unfold ITimeZoneService_functions in Hf. repeat (case_match; try done); injection Hf as <-;
    unfold GetDeviceLocationName, SetDeviceLocationName, GetTotalLocationNameCount, LoadLocationNameList, LoadTimeZoneRule, answer,
      GetTimeZoneRuleVersion, GetDeviceLocationNameAndUpdatedTime, SetDeviceLocationNameWithTimeZoneBinaryIpc, ParseTimeZoneBinaryIpc,
      GetDeviceLocationNameOperationEventReadableHandle, ITimeZoneService_ToCalendarTime, ITimeZoneService_ToCalendarTimeWithMyRule,
      ITimeZoneService_ToPosixTime, ITimeZoneService_ToPosixTimeWithMyRule; cbn [Pop];
    try (intros ->%push_result_harmless; done); try by intros [= <- <- <-].
  all: repeat (match goal with |- context [bindM ?m _] => destruct m as [|?x] eqn:?; [done|]; cbn [bindM] end).
  all: try (intros ->%push_result_harmless; done); try (by apply put_posix_time_harmless).
  all: try (case_match; [by intros [= <- <- <-]|]; case_match; by intros [= <- <- <-]).
  - destruct x0 as [s1 result]. intros [= <- <- <-]. by injection Heqm0 as <- <-.
  - destruct x1 as [s1 result]. intros [= <- <- <-]. unfold ParseTimeZoneBinary in *.
    by destruct (tz_tzalloc lib _); injection Heqm1 as <- <-.
Qed.

Lemma put_snapshot_harmless r request response s s' response' code :
  all_restricted s -> put_snapshot r request response s = inr (s', response', code) -> harmless s s'.
Proof.
  intros Hr. unfold put_snapshot. destruct r as [e|x]; [by intros [= <- <- <-]|].
  destruct (buffer_at _ _) as [|b]; [done|]. cbn. destruct (span_as _ _) as [|a]; [done|]. by intros [= <- <- <-].
Qed.

Lemma snapshot_harmless user network unk s s' r :
  all_restricted s -> GetClockSnapshotFromSystemClockContextImpl lib frequency ticks user network unk s = inr (s', r) -> harmless s s'.
Proof.
  intros Hr. unfold GetClockSnapshotFromSystemClockContextImpl.
  destruct (GetCurrentTimePoint_now frequency ticks Standard (ts_time s)) as (t & -> & Ht). intros H. enough (s' = set_time t s) as ->.
  { apply harmless_time; [done|]. by eapply ticked_settings. }
  revert H. destruct (GetLocationName _); [by intros [= <- <-]|]. destruct (ClockSnapshot_GetCurrentTime _ user); [by intros [= <- <-]|].
  destruct (ToCalendarTimeWithMyRule _ _ _) as [|[]]; [done|by intros [= <- <-]|]. cbn [bindM].
  destruct (ToCalendarTimeWithMyRule _ _ _) as [|[]]; [done|by intros [= <- <-]|]. by intros [= <- <-].
Qed.

Lemma monotonic_harmless ref request response s s' response' code :
  all_restricted s -> CalculateMonotonicSystemClockBaseTimePoint frequency ticks ref request response s = inr (s', response', code) -> harmless s s'.
Proof.
  intros Hr. unfold CalculateMonotonicSystemClockBaseTimePoint. destruct (negb _); [by intros [= <- <- <-]|].
  destruct (GetCurrentTimePoint_now frequency ticks Standard (ts_time s)) as (t & -> & Ht). cbn [Pop]. apply ticked_settings in Ht.
  destruct (negb _); [intros [= <- <- <-]; by apply harmless_time|]. unfold read_time. intros [= <- <- <-]. by apply harmless_time.
Qed.

Lemma GetClockSnapshot_harmless ref request response s s' response' code :
  all_restricted s -> automaticCorrectionEnabled (ts_time s) = false ->
  GetClockSnapshot lib frequency ticks ref request response s = inr (s', response', code) -> harmless s s'.
Proof.
  intros Hr Ha. unfold GetClockSnapshot. cbn [Pop].
  pose proof (GetClockContext_off User (ts_time s) Ha) as Hu. destruct (GetClockContext frequency ticks User (ts_time s)) as [t user]. cbn in Hu. subst t.
  destruct user as [|user]; [intros [= <- <- <-]; by apply harmless_time|].
  pose proof (GetClockContext_off Network (ts_time s) Ha) as Hn. destruct (GetClockContext frequency ticks Network (ts_time s)) as [t network]. cbn in Hn. subst t.
  destruct network as [|network]; [intros [= <- <- <-]; by apply harmless_time|].
  intros H. apply bindM_ok in H as ([s1 r] & E1 & E2). pose proof (snapshot_harmless _ _ _ _ _ _ Hr E1) as H1.
  eapply harmless_trans; [exact H1|]. by eapply put_snapshot_harmless; [apply H1|].
Qed.

Lemma static_harmless p id h ref request response s s' response' code :
  all_restricted s -> automaticCorrectionEnabled (ts_time s) = false -> restricted (OStaticService p) ->
  IStaticService_functions lib frequency ticks cur p id = Some h ->
  h ref request response s = inr (s', response', code) -> harmless s s'.
Proof.
  intros Hr Ha (Hl & Hu & Hn & Hz & Hs) Hf. unfold IStaticService_functions in Hf. repeat (case_match; try done); injection Hf as <-;
    try (by apply register_harmless); try (by apply GetClockSnapshot_harmless); try (by apply monotonic_harmless); try by intros [= <- <- <-].
  - unfold CalculateSpanBetween. intros HE. apply bindM_ok in HE as ([a b] & _ & HE). by apply push_result_harmless in HE as ->.
  - unfold static_SetAutomaticCorrectionEnabled. rewrite Hu. destruct (_ || _); by intros [= <- <- <-].
  - unfold GetAutomaticCorrectionUpdatedTime. destruct (negb _); by intros [= <- <- <-].
  - unfold GetClockSnapshotFromSystemClockContext. cbn [Pop]. intros HE. apply bindM_ok in HE as ([s1 r] & E1 & E2).
    pose proof (snapshot_harmless _ _ _ _ _ _ Hr E1) as HS. eapply harmless_trans; [exact HS|]. by eapply put_snapshot_harmless; [apply HS|].
  - unfold CalculateStandardUserSystemClockDifferenceByUser. intros HE. apply bindM_ok in HE as ([a b] & _ & HE). by injection HE as <- <- <-.
  - unfold IsStandardUserSystemClockAutomaticCorrectionEnabled. destruct (negb _); by intros [= <- <- <-].
  - unfold IsStandardNetworkSystemClockAccuracySufficient. pose proof (IsAccuracySufficient_settings (ts_time s)) as Ht.
    destruct (IsAccuracySufficient _ _ _) as [t b]. intros [= <- <- <-]. by apply harmless_time.
Qed.

(** A request to an object, other than the one that sets the test offset of a steady clock, for which
    the code does not ask whether the object may write. *)
Inductive guest_request : TimeService rule -> TimeService rule -> Prop :=
| gr_request self ref request response s s' response' code :
    (forall core w i, ts_objects s !! self = Some (OSteadyClock core w i) -> p_value (rq_payload request) <> 3) ->
    time_request lib frequency ticks cur self ref request response s = inr (s', response', code) -> guest_request s s'
| gr_memory ram s : guest_request s (set_time (set_kernel (set_k_ram ram (tm_kernel (ts_time s))) (ts_time s)) s).

Lemma guest_request_harmless s s' :
  guest_request s s' -> all_restricted s -> automaticCorrectionEnabled (ts_time s) = false -> harmless s s'.
Proof.
  intros [self ref request response s0 s1 response' code Hid E|ram s0] Hr Ha; [|by apply harmless_time].
  unfold time_request in E. destruct (ts_objects s0 !! self) as [o|] eqn:Eo; [|done]. pose proof (Hr _ _ Eo) as Ho. cbn beta in Ho.
  destruct (object_functions lib frequency ticks cur self o (p_value (rq_payload request))) as [h|] eqn:Eh; [|by injection E as <- <- <-].
  assert (Er : h ref request response s0 = inr (s1, response', code)) by (destruct (h ref request response s0) as [[]|]; done).
  destruct o as [p|core w i|core w i event|w]; cbn in Eh.
  - by eapply static_harmless.
  - eapply steady_harmless; [done| |exact Eh|exact Er]. by eapply Hid.
  - cbn in Ho. subst w. by eapply system_harmless.
  - cbn in Ho. subst w. by eapply zone_harmless.
Qed.

Lemma settings_correction s s' : settings s' = settings s -> automaticCorrectionEnabled (ts_time s') = automaticCorrectionEnabled (ts_time s).
Proof. unfold settings. cbn. by intros [=]. Qed.

(** C35: A guest that has the time service without permissions cannot set the time.  However it gets
    clocks, the zone service, snapshots and events from objects without permissions, and whatever
    requests it sends to them and writes to its memory in between, the contexts of all clocks, the
    offsets and the source of the steady clock, the automatic correction and the time zone stay as they
    were, and no object it gets has a permission.  Automatic correction is off, as the service sets it
    up: with it, reading the user clock brings the local clock in step with the network's.  One command
    is left out, the one that sets the test offset of a steady clock, for which the code does not look
    at the permission ([SetTestOffset_ungated]). *)
Theorem user_sessions_keep_settings s s' :
  all_restricted s -> automaticCorrectionEnabled (ts_time s) = false -> rtc guest_request s s' ->
  settings s' = settings s /\ all_restricted s'.
Proof.
  intros Hr Ha H. induction H as [s|s1 s2 s3 Hq _ IH]; [done|]. destruct (guest_request_harmless s1 s2 Hq Hr Ha) as [E Hr2].
  destruct (IH Hr2 ltac:(by rewrite (settings_correction _ _ E))) as [E' Hr3]. split; [congruence|done].
Qed.

End restricted.

(** ** Examples *)

(** A library that knows one rule, of zone UTC, and counts every day from noon. *)
Definition sample_library : ZoneLibrary unit :=
  mk_library unit (fun l => match l with [] => None | _ => Some () end)
    (fun _ time => Some (mk_tm 0 0 12 1 0 70 4 0 0 0 [85; 84; 67])) (fun _ t => 3600 * tm_hour t + 60 * tm_min t + tm_sec t) (fun _ _ => ()) (fun _ _ => []).

Definition sample_service (t : Time) (objects : gmap Z TimeObject) : TimeService unit :=
  mk_service (set_kernel sample_connected t) TimeZoneManager_new objects 8.

(** The request with command [id] and no arguments. *)
Definition sample_request (id : Z) : IpcRequest := IpcRequest_new false (fun a => if a =? 24 then id else 0) 0.

(** An application gets the user clock from the service for users. *)
Lemma user_sessions_keep_settings_witness :
  exists t s' r, sample_set_up = inr t /\
    time_request sample_library 19200000 sample_ticks 5 7 1 (sample_request 0) IpcResponse_new (sample_service t {[7 := GetStaticServiceAsUser]}) = inr (s', r, Success) /\
    ts_objects s' !! 8 = Some (OSystemClock User false false None) /\ settings s' = settings (sample_service t {[7 := GetStaticServiceAsUser]}).
Proof.
  let m := eval unfold sample_set_up in sample_set_up in match m with inr ?t => exists t end.
  eexists _, _. split; [reflexivity|]. split; [vm_compute; reflexivity|]. split; [vm_compute; reflexivity|].
  eapply (user_sessions_keep_settings sample_library 19200000 sample_ticks 5).
  - unfold all_restricted. apply map_Forall_singleton. by vm_compute.
  - reflexivity.
  - apply rtc_once. eapply (gr_request _ _ _ _ 7 1 (sample_request 0) IpcResponse_new).
    + intros core w i H. cbn in H. rewrite lookup_singleton_eq in H. discriminate H.
    + vm_compute. reflexivity.
Defined.

(** A steady clock that may not be written sets its test offset all the same. *)
Lemma SetTestOffset_ungated :
  (let! t := sample_set_up in
   let s := sample_service t {[9 := OSteadyClock Standard false false]} in
   let s := write_guest 0 [5] s in
   let! (s, _, code) := time_request sample_library 19200000 sample_ticks 5 9 1 (mk_request 0 (rq_header (sample_request 3)) None false None
     (rq_payload (sample_request 3)) 0 8 [] [] [] [] []) IpcResponse_new s in
   ok (testOffset (tm_steady (ts_time s)), code)) = inr (5, Success).
Proof. vm_compute. reflexivity. Qed.

(** The command for the ephemeral network clock hands out the network clock. *)
Lemma ephemeral_is_network {rule} permissions :
  GetEphemeralNetworkSystemClock (rule := rule) permissions = GetStandardNetworkSystemClock permissions.
Proof. done. Qed.

(** The time that a calendar time stands for does not depend on its hour. *)
Lemma ToPosixTime_drops_hour {rule} (lib : ZoneLibrary rule) r y mo d h h' mi sec :
  ToPosixTime lib r (mk_calendar y mo d h mi sec) = ToPosixTime lib r (mk_calendar y mo d h' mi sec).
Proof. done. Qed.

(** A shorter name leaves the end of the longer one, "UTC" over "Asia/Tokyo". *)
Lemma SetNewLocation_keeps_tail :
  (let! (z, _) := SetNewLocation sample_library [65; 115; 105; 97; 47; 84; 111; 107; 121; 111] [1] TimeZoneManager_new in
   let! (z, _) := SetNewLocation sample_library [85; 84; 67] [1] z in ok (take 11 (locationName z))) = inr [85; 84; 67; 97; 47; 84; 111; 107; 121; 111; 0].
Proof. vm_compute. reflexivity. Qed.

(** A zone file that cannot be read takes the rule away that there was, and the next conversion
    dereferences a null pointer. *)
Lemma SetNewLocation_null_rule :
  (let! (z, _) := SetNewLocation sample_library [85; 84; 67] [1] TimeZoneManager_new in
   let! (z, code) := SetNewLocation sample_library [85; 84; 67] [] z in
   ok (code, ToCalendarTimeWithMyRule sample_library 0 z)) = inr (RuleConversionFailed, inl (Undefined "null rule")).
Proof. vm_compute. reflexivity. Qed.

(** The name of a zone of more than eight characters is written past its field. *)
Lemma long_zone_name_overruns :
  ToCalendarTime (mk_library unit (fun _ => None) (fun _ _ => Some (mk_tm 0 0 0 1 0 70 4 0 0 0 (replicate 9 65))) (fun _ _ => 0) (fun _ _ => ()) (fun _ _ => [])) () 0
    = inl (Undefined "the name of the zone is longer than its field").
Proof. vm_compute. reflexivity. Qed.
